(* ===== verification/_CoqProject ===== *)
-Q . S2P
Prelude.v
Bits.v
Endian.v
Intset.v
Util.v
ListpackEnc.v
Listpack.v
ListpackOps.v
ListpackFind.v
Lzf.v
Sds.v
SdsSpec.v
SdsSplit.v
Skiplist.v
SkiplistSpec.v
SkiplistOps.v
SkiplistRange.v
Resp.v
RespSpec.v
RespError.v
RespStream.v
Glob.v
GlobSpec.v
Bitfield.v
BitfieldSpec.v
BitfieldCmd.v
Bitmap.v
BitmapSpec.v
BitposSpec.v
Bitop.v
BitopSpec.v
Rdb.v
RdbSpec.v
Dict.v
DictSpec.v
DictScan.v
Kvstore.v
KvIndexSpec.v
KvstoreSpec.v
KvScanSpec.v
Rax.v
RaxSpec.v
RaxInsertSpec.v
RaxRemoveSpec.v
RaxMapSpec.v
RaxIter.v
RaxIterSpec.v
RaxSeekSpec.v
SetType.v
SetTypeSpec.v
SetCmd.v
SetCmdSpec.v
SetAlgSpec.v
Lcs.v
LcsSpec.v
Db.v
StrCmd.v
KeyCmd.v
KeySpec.v
DbSpec.v
StrCmdSpec.v
KeyCmdSpec.v
Hll.v
HllOps.v
HllSpec.v
HllSparse.v
HllMerge.v
HllHisto.v
HllCmdSpec.v
HllSafe.v
Crc.v
CrcSpec.v
CrcFast.v
Dump.v
Slot.v
