(* ===== verification/Prelude.v ===== *)
(** Verification of the data structures and parsers of the Redis server that this
    repository carries in src/backend/redis-stable/src.

    * The program and its parts

    The repository is a web application with a copy of the Redis server.  The C code is the
    server: clients send commands in the protocol that networking.c parses; the commands
    work on a key space whose values are encoded with a few data structures.  The
    development models these structures down to the bytes where the code works on bytes,
    and the parsers in front of them:

    - strings (sds.c, sds.h) are used by everything else: the query buffer of the protocol
      parser, the elements of sorted sets, the bitmaps;
    - number conversions and glob-style patterns (util.c) are used by the protocol parser, by
      listpacks, which store integers as numbers, and by the arguments of commands;
    - intsets (intset.c) and listpacks (listpack.c) are blocks of bytes that encode small
      sets and sequences, with the byte order of endianconv.c;
    - dictionaries (dict.c) are the key space and large hashes and sets; SCAN goes through
      them with a cursor; a database holds one dictionary for each slot in a key-value store
      (kvstore.c), which counts the keys in a binary indexed tree;
    - radix trees (rax.c) are the order of streams and of sets of clients and keys;
    - skip lists (t_zset.c) are the order of large sorted sets;
    - sets (t_set.c) are objects that change between intset, listpack and dictionary as they
      grow, and commands that combine them;
    - strings (t_string.c) are objects that hold an integer or an sds string; a database (db.c)
      has the keys and, in a second dictionary, those with a time when they expire (expire.c);
    - the bit commands (bitops.c) work on strings as arrays of bits;
    - HyperLogLogs (hyperloglog.c) are strings with 16384 registers, dense or as opcodes, from which
      the number of the elements that were added is estimated;
    - LZF (lzf_c.c, lzf_d.c) compresses strings for files and lists; rdb.c writes lengths,
      integers and strings, compressed or not, in the files of a snapshot;
    - checksums of 64 bits (crc64.c, crcspeed.c, crccombine.c) protect snapshots and the values that DUMP
      and RESTORE exchange (cluster.c); checksums of 16 bits (crc16.c) give the slot of a key in a cluster
      (cluster.h), or of the keys that a pattern can match (cluster.c).

    * Which file models what

    - Prelude.v: machine integers ([uwrap], [swrap] and the ranges [urange], [srange]),
      bytes and little endian words, checked [load], [store] and [memmove] in a block,
      arrays of cells, list lemmas, the hint databases and tactics.  Bits.v: words as bits.
    - Endian.v: endianconv.c; the byte order of the host is the class [Host], with an
      instance for each order, and the components are proved for any host.
    - Intset.v (Module Intset): [_intsetValueEncoding], [intsetSearch],
      [intsetUpgradeAndAdd], [intsetMoveTail], [intsetAdd], [intsetRemove], [intsetGet],
      [intsetRandom], [intsetMin], [intsetMax], [intsetValidateIntegrity].  The state is the
      block of bytes with its header; [intset_rep] relates it to a sorted list.
    - Util.v (Module Util): [ll2string], [string2ll], [string2l], [lpStringToInt64] and the
      small functions of util.c; [sdec] is the reference, the canonical decimal string.
    - ListpackEnc.v (Module Lp), Listpack.v, ListpackOps.v, ListpackFind.v: listpack.c, in this
      order the entries, navigation and validation, the updates, and searches.
    - Lzf.v (Module Lzf): [lzf_compress] with a hash table that is not initialised and
      [lzf_decompress].
    - Sds.v, SdsSpec.v, SdsSplit.v: sds.c; a string is its type, its two fields and its
      buffer; the allocator and the contents of new memory are parameters.
    - Skiplist.v (Module Zsl), SkiplistSpec.v, SkiplistOps.v, SkiplistRange.v: the functions
      zsl* of t_zset.c on a store of nodes.
    - Resp.v, RespSpec.v, RespStream.v, RespError.v: [readQueryFromClient], [processInputBuffer],
      [processInlineBuffer] and [processMultibulkBuffer] of networking.c; the effect of a
      command on the settings the parser reads is a parameter.
    - Glob.v, GlobSpec.v: [stringmatchlen], [stringmatch] and [prefixmatch] of util.c.
    - Bitfield.v, BitfieldSpec.v, BitfieldCmd.v: bit fields and the commands BITFIELD and
      BITFIELD_RO with their arguments; Bitmap.v, BitmapSpec.v, BitposSpec.v: SETBIT, GETBIT,
      BITCOUNT and BITPOS; Bitop.v, BitopSpec.v: BITOP.
    - Dict.v, DictSpec.v, DictScan.v: dict.c; the hash and comparison functions of a type are
      the class [DictType].
    - Kvstore.v, KvIndexSpec.v, KvstoreSpec.v, KvScanSpec.v: kvstore.c on the dictionaries of
      Dict.v; the index is the array of the code, and the specification an array of maps.
    - Rdb.v, RdbSpec.v: the functions of rdb.c for lengths, integers and string objects, with the
      stream as the bytes that are left and with the compression of Lzf.v; [rdbReportError]
      returns or ends the process by the context of the load.
    - Rax.v, RaxSpec.v, RaxInsertSpec.v, RaxRemoveSpec.v, RaxMapSpec.v: insertion, lookup and
      removal of rax.c; RaxIter.v, RaxIterSpec.v, RaxSeekSpec.v: its iterators.  A node is a tree
      with the fields of the C structure, and a pointer into a parent is the stack of the parents.
    - SetType.v, SetTypeSpec.v: the set objects of t_set.c over the intsets, listpacks and
      dictionaries above; [set_rep] relates an object to a finite set of strings.  SetCmd.v,
      SetCmdSpec.v, SetAlgSpec.v: the set commands on a database, a finite map whose keys stand
      for the pointers to the objects; [qsort] is the class [Qsort], any permutation.
    - Db.v: keys, times and lazy expiration of db.c, with [db->keys] and [db->expires]; StrCmd.v: the
      commands of t_string.c; Lcs.v, LcsSpec.v: the table and the way back of LCS; KeyCmd.v: the
      commands of expire.c, DEL, EXISTS and RENAME.  KeySpec.v is their specification, a map of
      strings with times and no encodings; DbSpec.v, StrCmdSpec.v and KeyCmdSpec.v are the proofs.
    - Hll.v: hyperloglog.c on the strings of Sds.v; HllOps.v: the opcodes of sparse registers and the
      bits of dense ones; HllSpec.v, HllSparse.v, HllMerge.v, HllHisto.v: what the functions do to the
      list of registers of an object ([hll_is]), in this order conversions, updates of opcodes, merges
      and histograms; HllCmdSpec.v: the commands PFADD, PFCOUNT and PFMERGE; HllSafe.v: forged strings.
      The estimate in floating point is a parameter.
    - Crc.v: the checksum bit by bit, by tables and by words in up to three streams, with the operators that
      join blocks; CrcSpec.v: the division of polynomials, linear for exclusive or, and the tables; CrcFast.v:
      matrices, their cache, and the loops for either byte order.  The cutoffs, the alignment and the product
      that is compiled are parameters.  Dump.v: the footer of serialized values, the object being any bytes.
    - Slot.v: checksums of 16 bits, [keyHashSlot] and [patternHashSlot], with the matcher of Glob.v.

    A definition has the name of the C function where there is one; a loop or a block of a
    function is a definition of its own.  Integers are [Z] with the wrap around of their C
    type written out, memory is a list of bytes or a finite map of addresses, and the
    option monad carries what C leaves undefined: [None] is an access out of bounds, a
    dangling pointer, a failed assertion or fuel that runs out.  So each theorem that gives
    [Some] also says that none of these happens.

    * What the theorems show

    - Refinement: sequences of operations on the concrete state compute what an abstract
      one computes.  Intsets are finite sets ([intset_refines_set]), listpacks are lists of
      strings ([listpack_refines_list], [lpInsert_refines] and the theorems on the other
      updates), dictionaries are finite maps under any interleaving with rehashing
      ([dict_refines_map]), skip lists are sorted lists ([zsl_refines_sorted_list],
      [zsl_ranks], [zsl_nth_in_range]), strings are byte strings ([sds_refines_bytes]),
      key-value stores are arrays of finite maps ([kvstore_refines_maps]), radix trees are
      finite maps from strings ([rax_refines_map]) and their iterators cursors on the sorted
      list of the elements ([rax_iterator_cursor]), databases of sets are maps to finite sets
      under the set commands ([set_commands_refine]), databases of strings are
      maps from keys to strings with times under 34 commands ([key_commands_refine]),
      HyperLogLogs are sketches of sets of elements ([pf_commands_refine_sets]),
      BITFIELD is arithmetic on an infinite string of bits ([bitfield_refines]).
    - Equivalence of optimised code with a definition: BITOP on its three paths
      ([bitop_exact]), BITCOUNT and BITPOS ([bitcount_exact], [bitpos_exact]), the pattern
      matcher and the language of the pattern ([stringmatchlen_exact]), the two algorithms
      of SDIFF ([sdiff_algorithms_agree]), a longest common subsequence
      by dynamic programming ([lcs_exact]), the comparison of
      listpack entries ([lpCompare_correct], [lpFind_correct]), the checksum by words, streams and
      matrices and the one bit by bit ([crc64_exact]), the slots of a cluster and division by the
      polynomial, with the slot of a pattern that of all its keys ([slots_exact]).
    - Errors: a change of up to eight consecutive bytes of a serialized value is refused ([dump_detects_bursts]).
    - Round trips: listpack entries, numbers, LZF, quoted arguments, split and join, bit
      fields, strings in the files of a snapshot ([rdb_string_roundtrip]), and commands through the protocol parser however they are cut into reads
      ([resp_stream], [inline_request]).
    - Safety on hostile input: [lpValidateIntegrity_exact],
      [intsetValidateIntegrity_correct], [lzf_decompress_exact], [parser_reports_errors],
      [sdssplitargs_total], [rdb_load_safe], [forged_strings_safe].
    - Completeness of iteration: [dictScan_complete], [kvstoreScan_complete],
      [iterator_complete].
    - Types: the parser of BITFIELD accepts well typed operations only and all of them
      ([bitfield_parse_typed]).
    - Limits: [intsetAdd_wraps] shows where the 32 bit size of an intset wraps, and
      [listpack_set_long_member] what a set in a listpack does with a string of 2^32 bytes; samples such
      as [short_fails], [forged_unterminated], [long_element], [empty_block_accepted], [saturate_low], [hash_offset_wraps], [failed_write_grows], [prefixmatch_open_class]
      and [star_empty] evaluate the code where it departs from its comments.

    * Bounds and fuel

    Structural recursion is used where the loop consumes a list.  The other loops take fuel,
    computed from the input by the definition that calls them (the length of a buffer, the
    number of levels, of buckets or of nodes, 65 for the bits of a word, 1001 for the nesting
    of stars); the theorems prove that it is enough.  Sizes are bounded where the code needs
    it and as far as it does: fewer than 2^29 elements in an intset, entries and listpacks
    of fewer than 2^32 bytes, strings of fewer than 2^60 bytes for the assertions of the bit
    commands, fewer than 2^62 entries in a dictionary, strings of fewer than 2^32 bytes as
    elements of sets and fewer than 2^31 elements in the sets of a command (which counts in an
    [int]), a limit of fewer than 2^29 entries for sets that are intsets, at most 2^16 dictionaries in a store,
    keys of at most 2^29 - 1 bytes in a radix tree, the size of the field of a node, a
    proto-max-bulk-len of 1 MB, the least value of the setting, to 2^63 bytes for the string commands
    and below 16 GB for LCS, whose table then has fewer than 2^32 cells, a
    hll-sparse-max-bytes of at least 32 for HyperLogLogs ([short_fails] is a case below it) with elements of
    fewer than 2^31 bytes, whose length the hash takes as an [int] ([long_element] is what it does beyond), and
    fewer than 2^63 bytes under a checksum.  Glob.v and Slot.v take lengths that the code has as [int]: they are the code
    for strings of fewer than 2^31 bytes.

    * Not modelled

    Allocation failures; the event loop, sockets, files and threads (ae.c, anet.c, rio.c,
    aof.c, bio.c); the command table; notifications, replication and statistics, replicas,
    the active expire cycle and the commands of db.c other than those above; DUMP, RESTORE and MIGRATE but for the
    footer, and the objects in snapshots other than strings; the functions crcspeed16*, which nothing calls; INCRBYFLOAT; the floating point of [hllCount], the loops of
    hyperloglog.c for AVX2, PFDEBUG and PFSELFTEST; random elements of sets (SPOP, SRANDMEMBER) and SSCAN; scripting and the module interface; the bytes of
    the nodes of a radix tree, streams, quicklists, ziplists and hash field metadata; the random picks of listpacks
    and dictionaries; [sdscatfmt] and [sdscatprintf]; the parsing of score and
    lexicographic ranges of sorted sets; the arguments of the bit commands other than
    BITFIELD; the web application, which is not C. *)

From Stdlib Require Export ZArith Lia ZifyBool.
From stdpp Require Export base list numbers option sorting sets gmap.

#[global] Open Scope Z_scope.

(** Evaluates [Z.of_nat] at numerals, which [simpl] leaves alone. *)
Ltac znat :=
  repeat match goal with
  | |- context [Z.of_nat ?n] =>
    let r := eval compute in (Z.of_nat n) in
    lazymatch r with
    | Z0 => change (Z.of_nat n) with r
    | Zpos _ => change (Z.of_nat n) with r
    end
  end.

(** * Machine integers *)

(** Conversion to an unsigned [w]-bit integer (C's modular conversion). *)
Definition uwrap (w z : Z) : Z := z mod 2 ^ w.

(** Conversion to a two's complement signed [w]-bit integer. *)
Definition swrap (w z : Z) : Z := (z + 2 ^ (w - 1)) mod 2 ^ w - 2 ^ (w - 1).

Abbreviation u8 := (uwrap 8).
Abbreviation u16 := (uwrap 16).
Abbreviation u32 := (uwrap 32).
Abbreviation u64 := (uwrap 64).
Abbreviation s8 := (swrap 8).
Abbreviation s16 := (swrap 16).
Abbreviation s32 := (swrap 32).
Abbreviation s64 := (swrap 64).

(** Ranges, as used by the hypotheses of the theorems. *)
Definition urange (w z : Z) : Prop := 0 <= z < 2 ^ w.
Definition srange (w z : Z) : Prop := - 2 ^ (w - 1) <= z < 2 ^ (w - 1).

#[export] Instance urange_dec w z : Decision (urange w z).
Proof. unfold urange. apply _. Defined.
#[export] Instance srange_dec w z : Decision (srange w z).
Proof. unfold srange. apply _. Defined.

Lemma urange_nat w n : Z.of_nat n < 2 ^ w -> urange w (Z.of_nat n).
Proof. split; [apply Nat2Z.is_nonneg|done]. Qed.

Lemma pow2_pos w : 0 <= w -> 0 < 2 ^ w.
Proof. intros. apply Z.pow_pos_nonneg; lia. Qed.

Lemma uwrap_range w z : 0 <= w -> urange w (uwrap w z).
Proof. intros H. apply Z.mod_pos_bound, pow2_pos, H. Qed.

Lemma uwrap_small w z : urange w z -> uwrap w z = z.
Proof. intros H. apply Z.mod_small, H. Qed.

Lemma pow2_half w : 0 < w -> 2 ^ w = 2 * 2 ^ (w - 1).
Proof. intros H. rewrite <- Z.pow_succ_r by lia. f_equal. lia. Qed.

Lemma swrap_range w z : 0 < w -> srange w (swrap w z).
Proof.
  intros H. unfold srange, swrap. rewrite (pow2_half w) by done.
  pose proof (pow2_pos (w - 1) ltac:(lia)).
  pose proof (Z.mod_pos_bound (z + 2 ^ (w - 1)) (2 * 2 ^ (w - 1)) ltac:(lia)). lia.
Qed.

Lemma swrap_small w z : 0 < w -> srange w z -> swrap w z = z.
Proof.
  intros Hw [H1 H2]. unfold swrap. rewrite (pow2_half w) by done.
  rewrite Z.mod_small; lia.
Qed.

Lemma swrap_uwrap w z : 0 < w -> swrap w (uwrap w z) = swrap w z.
Proof.
  intros H. unfold swrap, uwrap. by rewrite Zplus_mod_idemp_l.
Qed.

(** * Bytes and little-endian numerals *)

Abbreviation bytes := (list Z).

Definition bytes_ok (bs : bytes) : Prop := Forall (urange 8) bs.

#[export] Instance bytes_ok_dec bs : Decision (bytes_ok bs).
Proof. unfold bytes_ok. apply _. Defined.

Fixpoint le_bytes (n : nat) (z : Z) : bytes :=
  match n with
  | O => []
  | S n => z mod 256 :: le_bytes n (z / 256)
  end.

Fixpoint le_val (bs : bytes) : Z :=
  match bs with
  | [] => 0
  | b :: bs => b + 256 * le_val bs
  end.

Lemma le_bytes_length n z : length (le_bytes n z) = n.
Proof. revert z. induction n; intros z; simpl; auto. Qed.

Lemma le_bytes_ok n z : bytes_ok (le_bytes n z).
Proof.
  revert z. induction n; intros z; simpl; constructor; [|apply IHn].
  apply Z.mod_pos_bound. lia.
Qed.

Lemma pow256_succ n : 2 ^ (8 * Z.of_nat (S n)) = 256 * 2 ^ (8 * Z.of_nat n).
Proof.
  replace (8 * Z.of_nat (S n)) with (8 + 8 * Z.of_nat n) by lia.
  by rewrite Z.pow_add_r by lia.
Qed.

Lemma le_val_bytes n z : le_val (le_bytes n z) = uwrap (8 * Z.of_nat n) z.
Proof.
  unfold uwrap. revert z. induction n as [|n IH]; intros z; cbn [le_bytes le_val].
  - by rewrite Z.mod_1_r.
  - rewrite IH, pow256_succ.
    rewrite Z.rem_mul_r by (try apply Z.pow_nonzero; lia). lia.
Qed.

Lemma le_val_range bs : bytes_ok bs -> urange (8 * Z.of_nat (length bs)) (le_val bs).
Proof.
  unfold urange. induction 1 as [|b bs [Hb1 Hb2] _ IH]; cbn [le_val length].
  - simpl. lia.
  - rewrite pow256_succ. change (2 ^ 8) with 256 in Hb2. lia.
Qed.

Lemma le_bytes_val bs : bytes_ok bs -> le_bytes (length bs) (le_val bs) = bs.
Proof.
  induction 1 as [|b bs [Hb1 Hb2] _ IH]; cbn [le_val le_bytes length]; [done|].
  change (2 ^ 8) with 256 in Hb2.
  rewrite (Z.mul_comm 256), Z_mod_plus_full, Z.mod_small by lia.
  rewrite Z_div_plus_full, Z.div_small by lia. by rewrite Z.add_0_l, IH.
Qed.

Lemma le_val_app bs1 bs2 :
  le_val (bs1 ++ bs2) = le_val bs1 + 2 ^ (8 * Z.of_nat (length bs1)) * le_val bs2.
Proof.
  induction bs1 as [|b bs1 IH]; cbn [le_val length app].
  - simpl (2 ^ _). lia.
  - rewrite IH, pow256_succ. lia.
Qed.

(** * Memory blocks

    A C buffer is the list of its bytes.  A read or a write outside the block
    is [None], and so is a failed [assert]: a theorem that an operation returns
    [Some _] therefore also shows that it makes no access out of bounds. *)

Definition guard (b : bool) : option unit := if b then Some tt else None.

Definition load (m : bytes) (off n : nat) : option bytes :=
  if decide (off + n <= length m)%nat then Some (take n (drop off m)) else None.

Definition store (m : bytes) (off : nat) (bs : bytes) : option bytes :=
  if decide (off + length bs <= length m)%nat
  then Some (take off m ++ bs ++ drop (off + length bs) m) else None.

(** [memmove(dst,src,n)] inside one block. *)
Definition memmove (m : bytes) (dst src n : nat) : option bytes :=
  bs ← load m src n; store m dst bs.

Lemma load_Some m off n :
  (off + n <= length m)%nat -> load m off n = Some (take n (drop off m)).
Proof. intros. unfold load. by rewrite decide_True. Qed.

Lemma load_length m off n bs : load m off n = Some bs -> length bs = n.
Proof.
  unfold load. case_decide; [|done]. intros [= <-]. rewrite length_take, length_drop. lia.
Qed.

Lemma store_Some m off bs :
  (off + length bs <= length m)%nat ->
  store m off bs = Some (take off m ++ bs ++ drop (off + length bs) m).
Proof. intros. unfold store. by rewrite decide_True. Qed.

Lemma store_length m off bs m' : store m off bs = Some m' -> length m' = length m.
Proof.
  unfold store. case_decide; [|done]. intros [= <-].
  rewrite !length_app, length_take, length_drop. lia.
Qed.

Lemma load_app m1 m2 m3 off n :
  length m1 = off -> length m2 = n -> load (m1 ++ m2 ++ m3) off n = Some m2.
Proof.
  intros <- <-. rewrite load_Some by (rewrite !length_app; lia).
  by rewrite drop_app_length, take_app_length.
Qed.

Lemma store_app m1 m2 m3 off bs :
  length m1 = off -> length m2 = length bs ->
  store (m1 ++ m2 ++ m3) off bs = Some (m1 ++ bs ++ m3).
Proof.
  intros <- Hl. rewrite store_Some by (rewrite !length_app; lia).
  rewrite take_app_length. rewrite drop_app_ge by lia. rewrite drop_app_ge by lia.
  replace (_ - _ - _)%nat with 0%nat by lia. done.
Qed.

(** * Booleans as the code returns them *)

Definition b2z (b : bool) : Z := if b then 1 else 0.

(** * Arrays of fixed-size little-endian cells *)

Definition enc_cells (e : nat) (xs : list Z) : bytes := concat (map (le_bytes e) xs).

Lemma enc_cells_app e xs ys : enc_cells e (xs ++ ys) = enc_cells e xs ++ enc_cells e ys.
Proof. unfold enc_cells. by rewrite map_app, concat_app. Qed.

Lemma enc_cells_cons e x xs : enc_cells e (x :: xs) = le_bytes e x ++ enc_cells e xs.
Proof. done. Qed.

Lemma enc_cells_length e xs : length (enc_cells e xs) = (length xs * e)%nat.
Proof.
  induction xs as [|x xs IH]; [done|].
  rewrite enc_cells_cons, length_app, le_bytes_length, IH. simpl. lia.
Qed.

Lemma enc_cells_ok e xs : bytes_ok (enc_cells e xs).
Proof.
  induction xs as [|x xs IH]; [constructor|].
  rewrite enc_cells_cons. apply Forall_app; split; [apply le_bytes_ok|done].
Qed.

Lemma le_bytes_inj_signed e x y :
  (0 < e)%nat -> srange (8 * Z.of_nat e) x -> srange (8 * Z.of_nat e) y ->
  le_bytes e x = le_bytes e y -> x = y.
Proof.
  intros He Hx Hy Heq. apply (f_equal le_val) in Heq. rewrite !le_val_bytes in Heq.
  apply (f_equal (swrap (8 * Z.of_nat e))) in Heq.
  by rewrite !swrap_uwrap, !swrap_small in Heq by (done || lia).
Qed.

Lemma swrap_le_val_bytes e v :
  (0 < e)%nat -> srange (8 * Z.of_nat e) v -> swrap (8 * Z.of_nat e) (le_val (le_bytes e v)) = v.
Proof. intros He Hv. by rewrite le_val_bytes, swrap_uwrap, swrap_small by (done || lia). Qed.

Lemma enc_cells_inj e xs ys :
  (0 < e)%nat -> Forall (srange (8 * Z.of_nat e)) xs -> Forall (srange (8 * Z.of_nat e)) ys ->
  enc_cells e xs = enc_cells e ys -> xs = ys.
Proof.
  intros He Hx. revert ys. induction Hx as [|x xs Hx _ IH]; intros [|y ys] Hy Heq.
  - done.
  - apply (f_equal length) in Heq. rewrite !enc_cells_length in Heq. simpl in Heq. lia.
  - apply (f_equal length) in Heq. rewrite !enc_cells_length in Heq. simpl in Heq. lia.
  - rewrite !enc_cells_cons in Heq. inversion_clear Hy.
    apply app_inj_1 in Heq as [H1 H2]; [|by rewrite !le_bytes_length].
    f_equal; [by eapply le_bytes_inj_signed|by apply IH].
Qed.

Lemma load_cell e xs rest i v :
  xs !! i = Some v -> load (enc_cells e xs ++ rest) (i * e) e = Some (le_bytes e v).
Proof.
  intros Hi. rewrite <- (take_drop_middle xs i v Hi).
  rewrite enc_cells_app, enc_cells_cons, <- !app_assoc.
  apply load_app; [|apply le_bytes_length].
  rewrite enc_cells_length, length_take. apply lookup_lt_Some in Hi. by rewrite Nat.min_l by lia.
Qed.

(** Every block of [n * e] bytes is an array of [n] cells of [e] bytes. *)
Lemma enc_cells_exists e n bs :
  (0 < e)%nat -> bytes_ok bs -> length bs = (n * e)%nat ->
  exists xs, length xs = n /\ Forall (srange (8 * Z.of_nat e)) xs /\ bs = enc_cells e xs.
Proof.
  intros He. revert bs. induction n as [|n IH]; intros bs Hok Hl.
  - exists []. destruct bs; [|done]. by repeat split.
  - destruct (IH (drop e bs)) as (xs & Hxs & Hr & Hd).
    { by apply Forall_drop. } { rewrite length_drop. lia. }
    assert (Htl : length (take e bs) = e) by (rewrite length_take; lia).
    assert (bytes_ok (take e bs)) by (by apply Forall_take).
    exists (swrap (8 * Z.of_nat e) (le_val (take e bs)) :: xs). repeat split.
    + simpl. by rewrite Hxs.
    + constructor; [|done]. apply swrap_range. lia.
    + rewrite enc_cells_cons, <- Hd, <- (take_drop e bs) at 1. f_equal.
      rewrite <- (le_bytes_val (take e bs)) at 1 by done. rewrite Htl.
      set (z := le_val (take e bs)).
      transitivity (le_bytes e (le_val (le_bytes e (swrap (8 * Z.of_nat e) z)))).
      * rewrite le_val_bytes. f_equal. unfold uwrap, swrap. rewrite Zminus_mod_idemp_l.
        rewrite Z.add_simpl_r. symmetry. apply Z.mod_small. unfold z.
        pose proof (le_val_range (take e bs)) as Hv. rewrite Htl in Hv. by apply Hv.
      * rewrite <- (le_bytes_length e (swrap (8 * Z.of_nat e) z)) at 1.
        apply le_bytes_val, le_bytes_ok.
Qed.

(** * Sorted lists *)

Lemma sorted_lookup (xs : list Z) i j x y :
  StronglySorted Z.lt xs -> xs !! i = Some x -> xs !! j = Some y -> (i < j)%nat -> x < y.
Proof.
  intros Hs. revert i j. induction Hs as [|z zs Hs IH Hf]; intros [|i] [|j] Hx Hy Hij;
    simpl in *; try (done || lia).
  - injection Hx as <-. by eapply Forall_lookup_1 in Hf.
  - apply (IH i j); (done || lia).
Qed.

(** [p] is the position of [v] in the sorted list [xs], or where it belongs. *)
Definition sorted_pos (xs : list Z) (v : Z) (p : nat) : Prop :=
  (p <= length xs)%nat /\
  forall i x, xs !! i = Some x -> ((i < p)%nat -> x < v) /\ ((p <= i)%nat -> v <= x).

Lemma sorted_insert xs v p :
  StronglySorted Z.lt xs -> sorted_pos xs v p -> v ∉ xs ->
  StronglySorted Z.lt (take p xs ++ v :: drop p xs).
Proof.
  intros Hs [Hp Hpos] Hv. rewrite <- (take_drop p xs) in Hs.
  apply StronglySorted_app in Hs as (Hlt & Ht & Hd).
  assert (Hup : forall y, y ∈ drop p xs -> v < y).
  { intros y (i & Hi)%list_elem_of_lookup. rewrite lookup_drop in Hi.
    destruct (Hpos _ _ Hi) as [_ Hle]. specialize (Hle ltac:(lia)).
    assert (v <> y); [|lia]. intros ->. apply Hv. by apply list_elem_of_lookup_2 in Hi. }
  apply StronglySorted_app; split_and!; [|done|].
  - intros x y Hx [->|Hy]%elem_of_cons; [|by apply Hlt].
    apply elem_of_take in Hx as (i & Hi & Hlti). by apply (Hpos _ _ Hi).
  - apply StronglySorted_cons. split; [|done]. by apply Forall_forall.
Qed.

Lemma sorted_delete xs p :
  StronglySorted Z.lt xs -> StronglySorted Z.lt (take p xs ++ drop (S p) xs).
Proof.
  intros Hs. rewrite <- (take_drop p xs) in Hs.
  apply StronglySorted_app in Hs as (Hlt & Ht & Hd).
  assert (Hsub : drop (S p) xs = drop 1 (drop p xs)) by (rewrite drop_drop; f_equal; lia).
  rewrite Hsub. destruct (drop p xs) as [|y ys]; cbn [drop]; [by rewrite app_nil_r|].
  rewrite drop_0. apply StronglySorted_cons in Hd as [_ Hd].
  apply StronglySorted_app; split_and!; [|done..].
  intros a b Ha Hb. apply Hlt; [done|by right].
Qed.

Lemma elem_of_insert (xs : list Z) p v x :
  x ∈ (take p xs ++ v :: drop p xs) <-> x = v \/ x ∈ xs.
Proof. rewrite <- (take_drop p xs) at 3. rewrite !elem_of_app, elem_of_cons. tauto. Qed.

Lemma elem_of_delete (xs : list Z) p v x :
  StronglySorted Z.lt xs -> xs !! p = Some v ->
  x ∈ (take p xs ++ drop (S p) xs) <-> x <> v /\ x ∈ xs.
Proof.
  intros Hs Hp. rewrite elem_of_app. split.
  - intros Hx. split.
    + intros ->. destruct Hx as [(i & Hi & Hlt)%elem_of_take|(i & Hi)%list_elem_of_lookup].
      * pose proof (sorted_lookup _ _ _ _ _ Hs Hi Hp Hlt). lia.
      * rewrite lookup_drop in Hi.
        pose proof (sorted_lookup _ _ _ _ _ Hs Hp Hi ltac:(lia)). lia.
    + rewrite <- (take_drop_middle _ _ _ Hp), elem_of_app, elem_of_cons. tauto.
  - rewrite <- (take_drop_middle _ _ _ Hp) at 1. rewrite elem_of_app, elem_of_cons. tauto.
Qed.

Lemma sorted_pos_end (xs : list Z) v :
  (forall x, x ∈ xs -> x < v) -> (v ∉ xs) /\ sorted_pos xs v (length xs).
Proof.
  intros Hall. split; [intros Hv; specialize (Hall _ Hv); lia|]. split; [lia|].
  intros i x Hi. split; [intros; eapply Hall, list_elem_of_lookup_2, Hi|].
  apply lookup_lt_Some in Hi. lia.
Qed.

Lemma sorted_pos_start (xs : list Z) v :
  (forall x, x ∈ xs -> v < x) -> (v ∉ xs) /\ sorted_pos xs v 0.
Proof.
  intros Hall. split; [intros Hv; specialize (Hall _ Hv); lia|]. split; [lia|].
  intros i x Hi. split; [lia|]. apply list_elem_of_lookup_2, Hall in Hi. lia.
Qed.

Lemma sorted_pos_found (xs : list Z) v p :
  StronglySorted Z.lt xs -> xs !! p = Some v -> sorted_pos xs v p.
Proof.
  intros Hs Hp. apply lookup_lt_Some in Hp as Hl. split; [lia|].
  intros i x Hi. split; intros Hlt; [by eapply sorted_lookup|].
  destruct (decide (i = p)) as [->|]; [assert (x = v) by congruence; lia|].
  pose proof (sorted_lookup _ _ _ _ _ Hs Hp Hi ltac:(lia)). lia.
Qed.

Lemma sorted_first (xs : list Z) y x :
  StronglySorted Z.lt xs -> xs !! 0%nat = Some y -> x ∈ xs -> y <= x.
Proof.
  intros Hs Hy (i & Hi)%list_elem_of_lookup. destruct i as [|i].
  - assert (x = y) by congruence. lia.
  - pose proof (sorted_lookup _ _ _ _ _ Hs Hy Hi ltac:(lia)). lia.
Qed.

Lemma sorted_last (xs : list Z) y x :
  StronglySorted Z.lt xs -> xs !! (length xs - 1)%nat = Some y -> x ∈ xs -> x <= y.
Proof.
  intros Hs Hy (i & Hi)%list_elem_of_lookup. apply lookup_lt_Some in Hi as Hl.
  destruct (decide (i = length xs - 1)%nat) as [->|].
  - assert (x = y) by congruence. lia.
  - pose proof (sorted_lookup _ _ _ _ _ Hs Hi Hy ltac:(lia)). lia.
Qed.

(** * Opening and closing a gap in a block *)

Lemma memmove_up (a b c : bytes) :
  memmove (a ++ b ++ c) (length a + length c) (length a) (length b)
  = Some (take (length a + length c) (a ++ b ++ c) ++ b).
Proof.
  unfold memmove. rewrite load_app by done. cbn [mbind option_bind].
  rewrite store_Some by (rewrite !length_app; lia).
  rewrite (drop_ge (a ++ b ++ c)) by (rewrite !length_app; lia). by rewrite app_nil_r.
Qed.

Lemma memmove_down (a x b : bytes) :
  memmove (a ++ x ++ b) (length a) (length a + length x) (length b)
  = Some (a ++ b ++ drop (length b) (x ++ b)).
Proof.
  assert (Hl : load (a ++ x ++ b) (length a + length x) (length b) = Some b).
  { replace (a ++ x ++ b) with ((a ++ x) ++ b ++ []) by by rewrite app_nil_r, <- app_assoc.
    apply load_app; [by rewrite length_app|done]. }
  unfold memmove. rewrite Hl. cbn [mbind option_bind].
  rewrite store_Some by (rewrite !length_app; lia).
  rewrite take_app_length, drop_app_ge by lia. do 4 f_equal. lia.
Qed.

(** * Bit operations as arithmetic *)

Lemma land_shiftl_0 a b k : 0 <= k -> 0 <= a < 2 ^ k -> Z.land a (Z.shiftl b k) = 0.
Proof.
  intros Hk Ha. apply Z.bits_inj'. intros i Hi. rewrite Z.land_spec, Z.bits_0.
  destruct (Z.lt_decidable i k).
  - by rewrite Z.shiftl_spec_low, andb_false_r by lia.
  - rewrite <- (Z.mod_small a (2 ^ k)), Z.mod_pow2_bits_high by lia. done.
Qed.

Lemma lor_shiftl_add a b k :
  0 <= k -> 0 <= a < 2 ^ k -> Z.lor a (Z.shiftl b k) = a + b * 2 ^ k.
Proof.
  intros Hk Ha. rewrite <- Z.shiftl_mul_pow2 by done.
  rewrite Z.add_nocarry_lxor by (by apply land_shiftl_0).
  symmetry. apply Z.lxor_lor. by apply land_shiftl_0.
Qed.

Lemma land_ones_mod a k : 0 <= k -> Z.land a (Z.ones k) = a mod 2 ^ k.
Proof. apply Z.land_ones. Qed.

Lemma land_255 a : Z.land a 255 = a mod 256.
Proof. exact (Z.land_ones a 8 ltac:(lia)). Qed.

Lemma land_127 a : Z.land a 127 = a mod 128.
Proof. exact (Z.land_ones a 7 ltac:(lia)). Qed.

Lemma lor_add a c k : 0 <= k -> 0 <= a < 2 ^ k -> Z.lor a (c * 2 ^ k) = a + c * 2 ^ k.
Proof. intros. rewrite <- Z.shiftl_mul_pow2 by done. rewrite lor_shiftl_add, Z.shiftl_mul_pow2; done. Qed.

(** A property of bytes checked on all of them. *)
Definition all_bytes : list Z := seqZ 0 256.

Lemma byte_forall (P : Z -> Prop) `{forall b, Decision (P b)} :
  forallb (fun b => bool_decide (P b)) all_bytes = true -> forall b, urange 8 b -> P b.
Proof.
  intros Hall b Hb. rewrite forallb_forall in Hall. apply (bool_decide_eq_true_1 (P b)).
  apply Hall, list_elem_of_In, elem_of_seqZ.
  unfold urange in Hb. simpl in Hb. lia.
Qed.

Lemma le_bytes_uwrap n z : le_bytes n (uwrap (8 * Z.of_nat n) z) = le_bytes n z.
Proof.
  rewrite <- le_val_bytes. rewrite <- (le_bytes_length n z) at 1.
  apply le_bytes_val, le_bytes_ok.
Qed.

Lemma le_bytes_congr n x y : uwrap (8 * Z.of_nat n) x = uwrap (8 * Z.of_nat n) y -> le_bytes n x = le_bytes n y.
Proof. intros H. by rewrite <- le_bytes_uwrap, H, le_bytes_uwrap. Qed.

Lemma uwrap_add_pow w z : uwrap w (2 ^ w + z) = uwrap w z.
Proof.
  unfold uwrap. rewrite Z.add_comm. rewrite <- (Z.mul_1_l (2 ^ w)) at 1. apply Z_mod_plus_full.
Qed.

(** * The allocator *)

(** The allocator: [usable n] is the usable size of an allocation of [n] bytes,
    and new memory has any content. *)
Class Allocator := {
  usable : nat -> nat;
  junk : nat -> bytes;
  usable_ge n : (n <= usable n)%nat;
  junk_length n : length (junk n) = n
}.

(** * Sums of integers *)

Definition total (l : list Z) : Z := foldr Z.add 0 l.

Lemma total_app l1 l2 : total (l1 ++ l2) = total l1 + total l2.
Proof. unfold total. induction l1; cbn in *; lia. Qed.

Lemma total_nonneg l : Forall (Z.le 0) l -> 0 <= total l.
Proof. unfold total. induction 1; cbn in *; lia. Qed.

Lemma total_insert l i x y : l !! i = Some x -> total (<[i := y]> l) = total l + (y - x).
Proof.
  intros Hi. rewrite insert_take_drop by (by eapply lookup_lt_Some). pose proof (f_equal total (take_drop_middle l i x Hi)) as E.
  rewrite total_app in *. cbn in *. unfold total in *. lia.
Qed.

Lemma uwrap_add_l w a b : uwrap w (uwrap w a + b) = uwrap w (a + b).
Proof. unfold uwrap. by rewrite Zplus_mod_idemp_l. Qed.
