(* ===== verification/Bits.v ===== *)
(** Words as sequences of bits: the lemmas shared by the components that work on
    bits (the scan cursor of the dictionaries, bit fields and bitmaps). *)

From S2P Require Import Prelude.

Lemma testbit_above w z i : urange w z -> w <= i -> Z.testbit z i = false.
Proof.
  intros [H0 Hz] Hi. destruct (Z.ltb_spec w 0) as [|Hw]; [by rewrite Z.pow_neg_r in Hz by done; lia|].
  rewrite <- (Z.mod_small z (2 ^ w)) by lia. by apply Z.mod_pow2_bits_high.
Qed.

(** A word is determined by its bits. *)
Lemma bits_eq w x y : 0 <= w -> urange w x -> urange w y ->
  (forall i, 0 <= i < w -> Z.testbit x i = Z.testbit y i) -> x = y.
Proof.
  intros Hw Hx Hy H. apply Z.bits_inj'. intros i Hi. destruct (Z.ltb_spec i w); [apply H; lia|].
  by rewrite (testbit_above w x), (testbit_above w y).
Qed.

Lemma urange_bits w z : 0 <= w -> (forall i, w <= i -> Z.testbit z i = false) -> urange w z.
Proof.
  intros Hw H. assert (z = z mod 2 ^ w) as ->; [|by apply uwrap_range].
  apply Z.bits_inj'. intros i Hi. destruct (Z.ltb_spec i w).
  - by rewrite Z.mod_pow2_bits_low.
  - rewrite Z.mod_pow2_bits_high by lia. by apply H.
Qed.

Lemma urange_lor w x y : 0 <= w -> urange w x -> urange w y -> urange w (Z.lor x y).
Proof.
  intros Hw Hx Hy. apply urange_bits; [done|]. intros i Hi.
  by rewrite Z.lor_spec, (testbit_above w x), (testbit_above w y).
Qed.

Lemma urange_land_r w x y : 0 <= w -> urange w y -> urange w (Z.land x y).
Proof.
  intros Hw Hy. apply urange_bits; [done|]. intros i Hi.
  by rewrite Z.land_spec, (testbit_above w y), andb_false_r.
Qed.

Lemma urange_land_l w x y : 0 <= w -> urange w x -> urange w (Z.land x y).
Proof. rewrite Z.land_comm. apply urange_land_r. Qed.

Lemma urange_lxor w x y : 0 <= w -> urange w x -> urange w y -> urange w (Z.lxor x y).
Proof.
  intros Hw Hx Hy. apply urange_bits; [done|]. intros i Hi.
  by rewrite Z.lxor_spec, (testbit_above w x), (testbit_above w y).
Qed.

Lemma urange_shiftr w x s : 0 <= w -> 0 <= s -> urange w x -> urange w (Z.shiftr x s).
Proof.
  intros Hw Hs Hx. apply urange_bits; [done|]. intros i Hi. rewrite Z.shiftr_spec by lia. apply (testbit_above w); [done|lia].
Qed.

Create HintDb words.
#[export] Hint Resolve urange_lor urange_land_r urange_lxor urange_shiftr uwrap_range : words.

Lemma uwrap_bits w z i : 0 <= i < w -> Z.testbit (uwrap w z) i = Z.testbit z i.
Proof. intros Hi. unfold uwrap. apply Z.mod_pow2_bits_low; lia. Qed.

Lemma uwrap_bits_high w z i : 0 <= w <= i -> Z.testbit (uwrap w z) i = false.
Proof. intros Hi. unfold uwrap. apply Z.mod_pow2_bits_high. lia. Qed.

(** The low [e] bits, and the bits from [e] on. *)
Lemma mod_pow2_bits e x i : 0 <= e -> 0 <= i -> Z.testbit (x mod 2 ^ e) i = (i <? e) && Z.testbit x i.
Proof.
  intros He Hi. destruct (Z.ltb_spec i e); cbn [andb]; [by apply Z.mod_pow2_bits_low|apply Z.mod_pow2_bits_high; lia].
Qed.

Lemma div_pow2_bits e x i : 0 <= e -> 0 <= i -> Z.testbit (x / 2 ^ e) i = Z.testbit x (i + e).
Proof. intros He Hi. rewrite <- Z.shiftr_div_pow2 by done. by apply Z.shiftr_spec. Qed.

(** A property of all the numbers of a range, by evaluation. *)
Lemma check_range a n (f : Z -> bool) : forallb f (seqZ a n) = true -> forall x, a <= x < a + n -> f x = true.
Proof. intros H x Hx. rewrite forallb_forall in H. apply H. apply list_elem_of_In, elem_of_seqZ. lia. Qed.

(** A step that succeeds, without evaluating the rest. *)
Lemma some_bind {X Y} (x : option X) (f : X -> option Y) y : x = Some y -> x ≫= f = f y.
Proof. by intros ->. Qed.
