(* ===== verification/Endian.v ===== *)
(** Endian conversions: endianconv.c and the macros of endianconv.h.

    The byte order of the host is a parameter of the development (the class
    [Host]): [host_bytes] and [host_val] say how an integer object sits in
    memory, the [memrevNN] functions toggle the bytes of such an object, and
    the [*ifbe] forms are the macros, the identity on a little-endian host. *)

From S2P Require Import Prelude.

(** The byte order the program is compiled for ([BYTE_ORDER] of config.h). *)
Class Host := { big_endian : bool }.

(** The object representation of an unsigned integer of [n] bytes. *)
Definition host_bytes `{Host} (n : nat) (v : Z) : bytes :=
  if big_endian then reverse (le_bytes n v) else le_bytes n v.

Definition host_val `{Host} (bs : bytes) : Z :=
  if big_endian then le_val (reverse bs) else le_val bs.

(** [t = x[i]; x[i] = x[j]; x[j] = t;] on an object [x] that the caller has
    already read from memory, so that [i] and [j] are inside it. *)
Definition swap_bytes (x : bytes) (i j : nat) : bytes :=
  match x !! i, x !! j with
  | Some t, Some u => <[j := t]> (<[i := u]> x)
  | _, _ => x
  end.

Definition memrev16 (x : bytes) : bytes := swap_bytes x 0 1.

Definition memrev32 (x : bytes) : bytes :=
  let x := swap_bytes x 0 3 in
  swap_bytes x 1 2.

Definition memrev64 (x : bytes) : bytes :=
  let x := swap_bytes x 0 7 in
  let x := swap_bytes x 1 6 in
  let x := swap_bytes x 2 5 in
  swap_bytes x 3 4.

Lemma memrev16_reverse x : length x = 2%nat -> memrev16 x = reverse x.
Proof. intros. by do 3 (destruct x as [|? x]; try done). Qed.

Lemma memrev32_reverse x : length x = 4%nat -> memrev32 x = reverse x.
Proof. intros. by do 5 (destruct x as [|? x]; try done). Qed.

Lemma memrev64_reverse x : length x = 8%nat -> memrev64 x = reverse x.
Proof. intros. by do 9 (destruct x as [|? x]; try done). Qed.

Section Endian.
Context `{Host}.

Definition intrev16 (v : Z) : Z := host_val (memrev16 (host_bytes 2 v)).
Definition intrev32 (v : Z) : Z := host_val (memrev32 (host_bytes 4 v)).
Definition intrev64 (v : Z) : Z := host_val (memrev64 (host_bytes 8 v)).

Definition memrev16ifbe (x : bytes) : bytes := if big_endian then memrev16 x else x.
Definition memrev32ifbe (x : bytes) : bytes := if big_endian then memrev32 x else x.
Definition memrev64ifbe (x : bytes) : bytes := if big_endian then memrev64 x else x.
Definition intrev32ifbe (v : Z) : Z := if big_endian then intrev32 v else v.

Lemma host_bytes_length n v : length (host_bytes n v) = n.
Proof.
  unfold host_bytes. destruct big_endian; rewrite ?length_reverse; apply le_bytes_length.
Qed.

Lemma host_val_bytes n v : host_val (host_bytes n v) = uwrap (8 * Z.of_nat n) v.
Proof.
  unfold host_val, host_bytes. destruct big_endian; rewrite ?reverse_involutive; apply le_val_bytes.
Qed.

Lemma host_val_range n bs :
  length bs = n -> bytes_ok bs -> urange (8 * Z.of_nat n) (host_val bs).
Proof.
  intros <- Hok. unfold host_val. destruct big_endian; [|by apply le_val_range].
  rewrite <- (length_reverse bs). apply le_val_range. by apply Forall_reverse.
Qed.

(** What the [ifbe] macros achieve: a little-endian object in memory is read
    as its value, and a value is stored as a little-endian object, whatever
    the host. *)
Lemma host_val_memrev16ifbe x : length x = 2%nat -> host_val (memrev16ifbe x) = le_val x.
Proof.
  intros. unfold memrev16ifbe, host_val. destruct big_endian; [|done].
  by rewrite memrev16_reverse, reverse_involutive.
Qed.

Lemma host_val_memrev32ifbe x : length x = 4%nat -> host_val (memrev32ifbe x) = le_val x.
Proof.
  intros. unfold memrev32ifbe, host_val. destruct big_endian; [|done].
  by rewrite memrev32_reverse, reverse_involutive.
Qed.

Lemma host_val_memrev64ifbe x : length x = 8%nat -> host_val (memrev64ifbe x) = le_val x.
Proof.
  intros. unfold memrev64ifbe, host_val. destruct big_endian; [|done].
  by rewrite memrev64_reverse, reverse_involutive.
Qed.

Lemma memrev16ifbe_host_bytes v : memrev16ifbe (host_bytes 2 v) = le_bytes 2 v.
Proof.
  pose proof (host_bytes_length 2 v). unfold memrev16ifbe, host_bytes in *.
  destruct big_endian; [|done]. by rewrite memrev16_reverse, reverse_involutive.
Qed.

Lemma memrev32ifbe_host_bytes v : memrev32ifbe (host_bytes 4 v) = le_bytes 4 v.
Proof.
  pose proof (host_bytes_length 4 v). unfold memrev32ifbe, host_bytes in *.
  destruct big_endian; [|done]. by rewrite memrev32_reverse, reverse_involutive.
Qed.

Lemma memrev64ifbe_host_bytes v : memrev64ifbe (host_bytes 8 v) = le_bytes 8 v.
Proof.
  pose proof (host_bytes_length 8 v). unfold memrev64ifbe, host_bytes in *.
  destruct big_endian; [|done]. by rewrite memrev64_reverse, reverse_involutive.
Qed.

(** The memory image of a header field written as [intrev32ifbe(v)]. *)
Lemma host_bytes_intrev32ifbe v : host_bytes 4 (intrev32ifbe v) = le_bytes 4 v.
Proof.
  pose proof (le_bytes_length 4 v) as Hl. pose proof (le_bytes_ok 4 v) as Hok.
  unfold intrev32ifbe, intrev32, host_bytes, host_val. destruct big_endian; [|done].
  rewrite memrev32_reverse, reverse_involutive by by rewrite length_reverse.
  rewrite <- (reverse_involutive (le_bytes 4 v)) at 2. f_equal.
  rewrite <- Hl at 1. rewrite <- (length_reverse (le_bytes 4 v)). apply le_bytes_val.
  by apply Forall_reverse.
Qed.

Lemma intrev32ifbe_involutive v : urange 32 v -> intrev32ifbe (intrev32ifbe v) = v.
Proof.
  intros Hv. unfold intrev32ifbe at 1. destruct big_endian eqn:E.
  - unfold intrev32. rewrite host_bytes_intrev32ifbe, memrev32_reverse by done.
    unfold host_val. rewrite E, reverse_involutive, le_val_bytes. by apply uwrap_small.
  - unfold intrev32ifbe. by rewrite E.
Qed.

(** Reading a header field back from its little-endian memory image. *)
Lemma intrev32ifbe_host_val bs : length bs = 4%nat -> bytes_ok bs ->
  intrev32ifbe (host_val bs) = le_val bs.
Proof.
  intros Hl Hok. unfold intrev32ifbe, intrev32, host_val. destruct big_endian eqn:E; [|done].
  unfold host_bytes. rewrite E. rewrite <- (length_reverse bs) in Hl. rewrite <- Hl.
  rewrite le_bytes_val by (by apply Forall_reverse).
  rewrite reverse_involutive, memrev32_reverse by (by rewrite <- (length_reverse bs)).
  by rewrite reverse_involutive.
Qed.

End Endian.
