(* ===== verification/Intset.v ===== *)
(** Integer sets: intset.c, operation by operation, down to the bytes of the
    [contents] array.

    [intset_rep is e xs] relates a memory block to the sorted list of integers
    it stores; the theorems show that every operation keeps some such list and
    acts on it as on a finite set, on hosts of both byte orders. *)

From S2P Require Import Prelude Endian.

Module Intset.

(** The header fields hold what the code stores in them, [intrev32ifbe(x)]. *)
Record intset := mkIntset { encoding : Z; len : Z; contents : bytes }.

Definition sizeof_intset : Z := 8.

Definition INTSET_ENC_INT16 : Z := 2.
Definition INTSET_ENC_INT32 : Z := 4.
Definition INTSET_ENC_INT64 : Z := 8.

Definition INT16_MIN : Z := -32768.
Definition INT16_MAX : Z := 32767.
Definition INT32_MIN : Z := -2147483648.
Definition INT32_MAX : Z := 2147483647.

Definition _intsetValueEncoding (v : Z) : Z :=
  if (v <? INT32_MIN) || (v >? INT32_MAX) then INTSET_ENC_INT64
  else if (v <? INT16_MIN) || (v >? INT16_MAX) then INTSET_ENC_INT32
  else INTSET_ENC_INT16.

(** The address of cell [pos] of an array of [n]-byte integers, [None] before the start of the block. *)
Definition cell (pos n : Z) : option nat :=
  if decide (0 <= pos) then Some (Z.to_nat (pos * n)) else None.

Section Ops.
Context `{Host}.

Definition _intsetGetEncoded (iset : intset) (pos enc : Z) : option Z :=
  if enc =? INTSET_ENC_INT64 then
    off ← cell pos 8; v ← load (contents iset) off 8;
    Some (s64 (host_val (memrev64ifbe v)))
  else if enc =? INTSET_ENC_INT32 then
    off ← cell pos 4; v ← load (contents iset) off 4;
    Some (s32 (host_val (memrev32ifbe v)))
  else
    off ← cell pos 2; v ← load (contents iset) off 2;
    Some (s16 (host_val (memrev16ifbe v))).

Definition _intsetGet (iset : intset) (pos : Z) : option Z :=
  _intsetGetEncoded iset pos (u8 (intrev32ifbe (encoding iset))).

(** The write of a cell and the toggling of its bytes in place. *)
Definition set_cell (rev : bytes -> bytes) (n : nat) (c : bytes) (pos value : Z)
    : option bytes :=
  off ← cell pos (Z.of_nat n);
  c ← store c off (host_bytes n value);
  obj ← load c off n;
  store c off (rev obj).

Definition with_contents (iset : intset) (c : bytes) : intset :=
  mkIntset (encoding iset) (len iset) c.

Definition _intsetSet (iset : intset) (pos value : Z) : option intset :=
  let encoding := intrev32ifbe (encoding iset) in
  c ← (if encoding =? INTSET_ENC_INT64 then
         set_cell memrev64ifbe 8 (contents iset) pos value
       else if encoding =? INTSET_ENC_INT32 then
         set_cell memrev32ifbe 4 (contents iset) pos value
       else
         set_cell memrev16ifbe 2 (contents iset) pos value);
  Some (with_contents iset c).

Definition intsetNew : intset := mkIntset (intrev32ifbe INTSET_ENC_INT16) 0 [].

(** [zrealloc] leaves the bytes it adds indeterminate: they are [fill], about
    which nothing is assumed. *)
Definition SIZE_MAX : Z := 2 ^ 64 - 1.

Definition intsetResize (fill : Z) (iset : intset) (n : Z) : option intset :=
  let size := u64 (n * intrev32ifbe (encoding iset)) in
  _ ← guard (size <=? SIZE_MAX - sizeof_intset);
  Some (with_contents iset (resize (Z.to_nat size) fill (contents iset))).

(** The [while(max >= min)] loop; it returns [(min, mid, cur)]. *)
Fixpoint intsetSearch_loop (fuel : nat) (iset : intset) (value min max mid cur : Z)
    : option (Z * Z * Z) :=
  match fuel with
  | O => None
  | S fuel =>
    if max >=? min then
      let mid := s32 (Z.shiftr (u32 (u32 min + u32 max)) 1) in
      cur ← _intsetGet iset mid;
      if value >? cur then intsetSearch_loop fuel iset value (mid + 1) max mid cur
      else if value <? cur then intsetSearch_loop fuel iset value min (mid - 1) mid cur
      else Some (min, mid, cur)
    else Some (min, mid, cur)
  end.

(** Returns the result and the value left in [*pos]. *)
Definition intsetSearch (iset : intset) (value : Z) : option (bool * Z) :=
  let n := intrev32ifbe (len iset) in
  let max := s32 (u32 (n - 1)) in
  if n =? 0 then Some (false, 0)
  else
    last ← _intsetGet iset max;
    if value >? last then Some (false, n)
    else
      first ← _intsetGet iset 0;
      if value <? first then Some (false, 0)
      else
        '(min, mid, cur) ← intsetSearch_loop (S (Z.to_nat n)) iset value 0 max (-1) (-1);
        if value =? cur then Some (true, u32 mid) else Some (false, u32 min).

(** [while(length--) _intsetSet(is,length+prepend,_intsetGetEncoded(is,length,curenc));] *)
Fixpoint upgrade_loop (n : nat) (iset : intset) (prepend curenc : Z) : option intset :=
  match n with
  | O => Some iset
  | S k =>
    v ← _intsetGetEncoded iset (Z.of_nat k) curenc;
    iset ← _intsetSet iset (Z.of_nat k + prepend) v;
    upgrade_loop k iset prepend curenc
  end.

Definition intsetUpgradeAndAdd (fill : Z) (iset : intset) (value : Z) : option intset :=
  let curenc := u8 (intrev32ifbe (encoding iset)) in
  let newenc := _intsetValueEncoding value in
  let length := s32 (intrev32ifbe (len iset)) in
  let prepend := if value <? 0 then 1 else 0 in
  let iset := mkIntset (intrev32ifbe newenc) (len iset) (contents iset) in
  iset ← intsetResize fill iset (u32 (intrev32ifbe (len iset) + 1));
  _ ← guard (0 <=? length);
  iset ← upgrade_loop (Z.to_nat length) iset prepend curenc;
  iset ← (if prepend =? 1 then _intsetSet iset 0 value
        else _intsetSet iset (s32 (intrev32ifbe (len iset))) value);
  Some (mkIntset (encoding iset) (intrev32ifbe (u32 (intrev32ifbe (len iset) + 1))) (contents iset)).

Definition intsetMoveTail (iset : intset) (from to : Z) : option intset :=
  let bytes := u32 (intrev32ifbe (len iset) - from) in
  let encoding := intrev32ifbe (encoding iset) in
  let size := if encoding =? INTSET_ENC_INT64 then 8
              else if encoding =? INTSET_ENC_INT32 then 4 else 2 in
  src ← cell from size;
  dst ← cell to size;
  c ← memmove (contents iset) dst src (Z.to_nat (u32 (bytes * size)));
  Some (with_contents iset c).

(** Returns the set and [*success]. *)
Definition intsetAdd (fill : Z) (iset : intset) (value : Z) : option (intset * bool) :=
  let valenc := _intsetValueEncoding value in
  if valenc >? intrev32ifbe (encoding iset) then
    iset ← intsetUpgradeAndAdd fill iset value; Some (iset, true)
  else
    '(found, pos) ← intsetSearch iset value;
    if (found : bool) then Some (iset, false)
    else
      iset ← intsetResize fill iset (u32 (intrev32ifbe (len iset) + 1));
      iset ← (if pos <? intrev32ifbe (len iset)
            then intsetMoveTail iset pos (u32 (pos + 1)) else Some iset);
      iset ← _intsetSet iset (s32 pos) value;
      Some (mkIntset (encoding iset) (intrev32ifbe (u32 (intrev32ifbe (len iset) + 1)))
                     (contents iset), true).

Definition intsetRemove (fill : Z) (iset : intset) (value : Z) : option (intset * bool) :=
  let valenc := _intsetValueEncoding value in
  if valenc <=? intrev32ifbe (encoding iset) then
    '(found, pos) ← intsetSearch iset value;
    if (found : bool) then
      let n := intrev32ifbe (len iset) in
      iset ← (if pos <? u32 (n - 1) then intsetMoveTail iset (u32 (pos + 1)) pos else Some iset);
      iset ← intsetResize fill iset (u32 (n - 1));
      Some (mkIntset (encoding iset) (intrev32ifbe (u32 (n - 1))) (contents iset), true)
    else Some (iset, false)
  else Some (iset, false).

Definition intsetFind (iset : intset) (value : Z) : option bool :=
  let valenc := _intsetValueEncoding value in
  if valenc <=? intrev32ifbe (encoding iset) then fst <$> intsetSearch iset value
  else Some false.

(** [r] is the value [rand()] returns. *)
Definition intsetRandom (iset : intset) (r : Z) : option Z :=
  let n := intrev32ifbe (len iset) in
  _ ← guard (negb (n =? 0));
  _intsetGet iset (s32 (u32 r mod n)).

Definition intsetMax (iset : intset) : option Z :=
  let n := intrev32ifbe (len iset) in
  _intsetGet iset (s32 (u32 (n - 1))).

Definition intsetMin (iset : intset) : option Z := _intsetGet iset 0.

(** [Some None] is the return value 0, [Some (Some v)] the return value 1 with
    [*value = v]. *)
Definition intsetGet (iset : intset) (pos : Z) : option (option Z) :=
  if pos <? intrev32ifbe (len iset) then v ← _intsetGet iset (s32 pos); Some (Some v)
  else Some None.

Definition intsetLen (iset : intset) : Z := intrev32ifbe (len iset).

Definition intsetBlobLen (iset : intset) : Z :=
  u64 (sizeof_intset + u64 (intrev32ifbe (len iset) * intrev32ifbe (encoding iset))).

(** The block read through an [intset] pointer: the header fields and the bytes that follow them. *)
Definition as_intset (p : bytes) : option intset :=
  e ← load p 0 4; l ← load p 4 4;
  Some (mkIntset (host_val e) (host_val l) (drop 8 p)).

(** The inverse: the block as it is written to an RDB file. *)
Definition blob (iset : intset) : bytes :=
  host_bytes 4 (encoding iset) ++ host_bytes 4 (len iset) ++ contents iset.

Fixpoint validate_loop (n : nat) (iset : intset) (i prev : Z) : option bool :=
  match n with
  | O => Some true
  | S n =>
    cur ← _intsetGet iset (s32 i);
    if cur <=? prev then Some false else validate_loop n iset (i + 1) cur
  end.

Definition intsetValidateIntegrity (p : bytes) (size : Z) (deep : bool) : option bool :=
  if size <? sizeof_intset then Some false
  else
    iset ← as_intset p;
    let encoding := intrev32ifbe (encoding iset) in
    let record_size :=
      if encoding =? INTSET_ENC_INT64 then Some INTSET_ENC_INT64
      else if encoding =? INTSET_ENC_INT32 then Some INTSET_ENC_INT32
      else if encoding =? INTSET_ENC_INT16 then Some INTSET_ENC_INT16
      else None in
    match record_size with
    | None => Some false
    | Some record_size =>
      let count := intrev32ifbe (len iset) in
      if negb (u64 (sizeof_intset + u64 (count * record_size)) =? size) then Some false
      else if count =? 0 then Some false
      else if negb deep then Some true
      else
        prev ← _intsetGet iset 0;
        validate_loop (Z.to_nat (count - 1)) iset 1 prev
    end.

End Ops.

(** * The representation of a sorted list of integers *)

Definition valid_enc (e : nat) : Prop := e = 2%nat \/ e = 4%nat \/ e = 8%nat.

Section Rep.
Context `{Host}.

Record intset_rep (iset : intset) (e : nat) (xs : list Z) : Prop := {
  rep_valid : valid_enc e;
  rep_enc : encoding iset = intrev32ifbe (Z.of_nat e);
  rep_len : len iset = intrev32ifbe (Z.of_nat (length xs));
  rep_contents : contents iset = enc_cells e xs;
  rep_values : Forall (srange (8 * Z.of_nat e)) xs;
  rep_sorted : StronglySorted Z.lt xs;
  rep_bound : Z.of_nat (length xs) < 2 ^ 31;
}.

Lemma rep_get_len iset e xs :
  intset_rep iset e xs -> intrev32ifbe (len iset) = Z.of_nat (length xs).
Proof.
  intros R. rewrite (rep_len _ _ _ R). apply intrev32ifbe_involutive.
  pose proof (rep_bound _ _ _ R). split; lia.
Qed.

Lemma valid_enc_range e : valid_enc e -> urange 32 (Z.of_nat e) /\ urange 8 (Z.of_nat e).
Proof. intros [->|[->| ->]]; unfold urange; lia. Qed.

Lemma enc_field iset e :
  valid_enc e -> encoding iset = intrev32ifbe (Z.of_nat e) ->
  intrev32ifbe (encoding iset) = Z.of_nat e.
Proof. intros Hv ->. apply intrev32ifbe_involutive. by apply valid_enc_range. Qed.

Lemma rep_get_enc iset e xs :
  intset_rep iset e xs -> intrev32ifbe (encoding iset) = Z.of_nat e.
Proof. intros R. apply enc_field; [apply R|apply (rep_enc _ _ _ R)]. Qed.

Lemma cell_nat i n : cell (Z.of_nat i) (Z.of_nat n) = Some (i * n)%nat.
Proof. unfold cell. rewrite decide_True by lia. f_equal. lia. Qed.

(** Reading and writing one cell, for all three encodings at once. *)
Lemma getEncoded_cell iset e xs rest i v :
  valid_enc e -> contents iset = enc_cells e xs ++ rest ->
  xs !! i = Some v -> srange (8 * Z.of_nat e) v ->
  _intsetGetEncoded iset (Z.of_nat i) (Z.of_nat e) = Some v.
Proof.
  intros He Hc Hi Hr. pose proof (load_cell e xs rest i v Hi) as Hld. rewrite <- Hc in Hld.
  pose proof (swrap_le_val_bytes e v) as Hv.
  unfold _intsetGetEncoded, INTSET_ENC_INT64, INTSET_ENC_INT32.
  revert Hr Hv. destruct He as [->|[->| ->]]; znat; intros Hr Hv;
    cbn -[cell load swrap le_bytes];
    rewrite ?(cell_nat i 2 : cell _ 2 = _), ?(cell_nat i 4 : cell _ 4 = _),
      ?(cell_nat i 8 : cell _ 8 = _); cbn -[load swrap le_bytes];
    rewrite Hld; cbn -[swrap le_bytes];
    rewrite ?host_val_memrev16ifbe, ?host_val_memrev32ifbe, ?host_val_memrev64ifbe
      by apply le_bytes_length; f_equal; apply Hv; (lia || done).
Qed.

Lemma set_cell_store rev n c i v :
  (forall w, rev (host_bytes n w) = le_bytes n w) ->
  (i * n + n <= length c)%nat ->
  set_cell rev n c (Z.of_nat i) v
  = Some (take (i * n) c ++ le_bytes n v ++ drop (i * n + n) c).
Proof.
  intros Hrev Hl. unfold set_cell. rewrite cell_nat. cbn [mbind option_bind].
  rewrite store_Some by (rewrite host_bytes_length; lia). cbn [mbind option_bind].
  rewrite host_bytes_length.
  assert (length (take (i * n) c) = i * n)%nat by (rewrite length_take; lia).
  rewrite load_app by (done || apply host_bytes_length). cbn [mbind option_bind].
  rewrite Hrev. apply store_app; [done|]. by rewrite host_bytes_length, le_bytes_length.
Qed.

Lemma intsetSet_store iset e i v :
  valid_enc e -> encoding iset = intrev32ifbe (Z.of_nat e) ->
  (i * e + e <= length (contents iset))%nat ->
  _intsetSet iset (Z.of_nat i) v
  = Some (with_contents iset
            (take (i * e) (contents iset) ++ le_bytes e v ++ drop (i * e + e) (contents iset))).
Proof.
  intros He Hf Hl. unfold _intsetSet. rewrite (enc_field _ e) by done.
  unfold INTSET_ENC_INT64, INTSET_ENC_INT32.
  destruct He as [->|[->| ->]]; znat; cbn -[set_cell le_bytes take drop Nat.mul];
    rewrite set_cell_store by auto using memrev16ifbe_host_bytes, memrev32ifbe_host_bytes,
      memrev64ifbe_host_bytes; done.
Qed.

Lemma rep_get iset e xs i v :
  intset_rep iset e xs -> xs !! i = Some v -> _intsetGet iset (Z.of_nat i) = Some v.
Proof.
  intros R Hi. unfold _intsetGet. rewrite (rep_get_enc _ _ _ R).
  rewrite uwrap_small by apply (valid_enc_range e), R.
  apply getEncoded_cell with xs []; [apply R| |done|].
  - by rewrite app_nil_r, (rep_contents _ _ _ R).
  - eapply Forall_lookup_1; [apply R|done].
Qed.

(** * Search *)

(** The bisection keeps the position of [v] between [min] and [max + 1]. *)
Definition loop_inv (xs : list Z) (v min max : Z) : Prop :=
  0 <= min /\ max < Z.of_nat (length xs) /\ min <= max + 1 /\
  forall i x, xs !! i = Some x ->
    (Z.of_nat i < min -> x < v) /\ (max < Z.of_nat i -> v < x).

Lemma mid_range lo hi :
  0 <= lo -> lo <= hi -> hi < 2 ^ 31 ->
  s32 (Z.shiftr (u32 (u32 lo + u32 hi)) 1) = (lo + hi) / 2 /\ lo <= (lo + hi) / 2 <= hi.
Proof.
  intros H1 H2 H3. rewrite Z.shiftr_div_pow2 by lia. change (2 ^ 1) with 2.
  rewrite !(uwrap_small 32) by (unfold urange; rewrite ?uwrap_small by (unfold urange; lia); lia).
  assert (lo <= (lo + hi) / 2 <= hi) by (split; [apply Z.div_le_lower_bound|apply Z.div_le_upper_bound]; lia).
  split; [|done]. apply swrap_small; [lia|]. unfold srange. simpl. lia.
Qed.

Lemma search_loop_correct iset e xs v :
  intset_rep iset e xs ->
  forall fuel min max mid cur,
  loop_inv xs v min max -> (max < min -> cur <> v) ->
  (Z.to_nat (max - min + 1) < fuel)%nat ->
  exists min' mid' cur',
    intsetSearch_loop fuel iset v min max mid cur = Some (min', mid', cur') /\
    ((v = cur' /\ 0 <= mid' /\ xs !! Z.to_nat mid' = Some v) \/
     (v <> cur' /\ 0 <= min' <= Z.of_nat (length xs) /\ (v ∉ xs) /\ sorted_pos xs v (Z.to_nat min'))).
Proof.
  intros R. pose proof (rep_bound _ _ _ R) as Hb.
  induction fuel as [|fuel IH]; intros lo hi mid cur (H0 & H1 & H2 & Hx) Hcur Hf; [lia|].
  cbn [intsetSearch_loop]. destruct (Z.geb_spec hi lo) as [Hle|Hgt].
  - destruct (mid_range lo hi) as [-> [Hm1 Hm2]]; [lia..|]. set (m := (lo + hi) / 2) in *.
    destruct (lookup_lt_is_Some_2 xs (Z.to_nat m)) as [c Hc]; [lia|].
    pose proof (rep_get _ _ _ _ _ R Hc) as Hg. rewrite Z2Nat.id in Hg by lia.
    rewrite Hg. cbn [mbind option_bind].
    destruct (Z.gtb_spec v c) as [Hlt|Hge]; [|destruct (Z.ltb_spec v c) as [Hlt|Hge']].
    + apply IH; [|lia..]. unfold loop_inv. split_and!; [lia..|].
      intros i x Hi. split; [|by apply Hx]. intros Hlm.
      destruct (decide (i = Z.to_nat m)) as [->|]; [congruence|].
      pose proof (sorted_lookup _ _ _ _ _ (rep_sorted _ _ _ R) Hi Hc ltac:(lia)). lia.
    + apply IH; [|lia..]. unfold loop_inv. split_and!; [lia..|].
      intros i x Hi. split; [by apply Hx|]. intros Hlm.
      destruct (decide (i = Z.to_nat m)) as [->|]; [congruence|].
      pose proof (sorted_lookup _ _ _ _ _ (rep_sorted _ _ _ R) Hc Hi ltac:(lia)). lia.
    + exists lo, m, c. split; [done|]. left. assert (c = v) as -> by lia. split_and!; (done || lia).
  - exists lo, mid, cur. split; [done|]. right. specialize (Hcur ltac:(lia)).
    split_and!; [congruence|lia|lia| |].
    + intros (i & Hi)%list_elem_of_lookup. destruct (Hx _ _ Hi) as [Ha Hb'].
      destruct (decide (Z.of_nat i < lo)); [specialize (Ha ltac:(lia))|specialize (Hb' ltac:(lia))]; lia.
    + split; [lia|]. intros i x Hi. destruct (Hx _ _ Hi) as [Ha Hb'].
      split; intros ?; [apply Ha|specialize (Hb' ltac:(lia))]; lia.
Qed.

(** What [intsetSearch] computes. *)
Lemma search_correct iset e xs v :
  intset_rep iset e xs ->
  exists p, intsetSearch iset v = Some (bool_decide (v ∈ xs), Z.of_nat p) /\
    sorted_pos xs v p /\ (v ∈ xs -> xs !! p = Some v).
Proof.
  intros R. pose proof (rep_bound _ _ _ R) as Hb. unfold intsetSearch.
  rewrite (rep_get_len _ _ _ R). set (n := length xs) in *.
  destruct (Z.eqb_spec (Z.of_nat n) 0) as [Hn|Hn].
  { exists 0%nat. destruct xs; [|done]. rewrite bool_decide_false by set_solver.
    split_and!; [done| |set_solver]. split; [lia|]. done. }
  rewrite (uwrap_small 32) by (unfold urange; lia).
  rewrite (swrap_small 32) by (unfold srange; simpl; lia).
  destruct (lookup_lt_is_Some_2 xs (n - 1)) as [lst Hlst]; [lia|].
  destruct (lookup_lt_is_Some_2 xs 0) as [fst Hfst]; [lia|].
  pose proof (rep_get _ _ _ _ _ R Hlst) as Hg.
  replace (Z.of_nat (n - 1)) with (Z.of_nat n - 1) in Hg by lia.
  rewrite Hg. cbn [mbind option_bind]. clear Hg.
  pose proof (rep_sorted _ _ _ R) as Hs.
  destruct (Z.gtb_spec v lst) as [Hgt|Hle].
  { destruct (sorted_pos_end xs v) as [Hv Hpos].
    { intros x Hx. pose proof (sorted_last _ _ _ Hs Hlst Hx). lia. }
    exists n. by rewrite bool_decide_false. }
  pose proof (rep_get _ _ _ _ _ R Hfst) as Hg. change (Z.of_nat 0) with 0 in Hg.
  rewrite Hg. cbn [mbind option_bind]. clear Hg.
  destruct (Z.ltb_spec v fst) as [Hlt|Hge].
  { destruct (sorted_pos_start xs v) as [Hv Hpos].
    { intros x Hx. pose proof (sorted_first _ _ _ Hs Hfst Hx). lia. }
    exists 0%nat. by rewrite bool_decide_false. }
  destruct (search_loop_correct iset e xs v R (S (Z.to_nat (Z.of_nat n))) 0 (Z.of_nat n - 1) (-1) (-1))
    as (mn & md & c & -> & Hres); [|lia..|].
  { unfold loop_inv. split_and!; [lia..|]. intros i x Hi. apply lookup_lt_Some in Hi. lia. }
  cbn [mbind option_bind]. destruct Hres as [(-> & Hmd & Hin)|(Hne & Hmn & Hnin & Hpos)].
  - rewrite Z.eqb_refl. exists (Z.to_nat md).
    assert (c ∈ xs) by by eapply list_elem_of_lookup_2. apply lookup_lt_Some in Hin as Hl.
    rewrite bool_decide_true, Z2Nat.id, uwrap_small by (done || unfold urange; lia).
    split_and!; [done|by apply sorted_pos_found|done].
  - destruct (Z.eqb_spec v c); [done|]. exists (Z.to_nat mn).
    rewrite bool_decide_false, Z2Nat.id, uwrap_small by (done || unfold urange; lia). done.
Qed.

(** * Resizing and moving the tail *)

Lemma intsetResize_enc fill iset e n :
  valid_enc e -> encoding iset = intrev32ifbe (Z.of_nat e) -> Z.of_nat n < 2 ^ 32 ->
  intsetResize fill iset (Z.of_nat n)
  = Some (with_contents iset (resize (n * e) fill (contents iset))).
Proof.
  intros He Hf Hn. unfold intsetResize. rewrite (enc_field _ e) by done.
  assert (Z.of_nat e <= 8) by (destruct He as [->|[->| ->]]; lia).
  assert (0 <= Z.of_nat n * Z.of_nat e <= 2 ^ 32 * 8) by nia.
  rewrite uwrap_small by (unfold urange; lia).
  rewrite (proj2 (Z.leb_le _ _)) by (unfold SIZE_MAX, sizeof_intset; lia).
  cbn [guard mbind option_bind]. do 3 f_equal. lia.
Qed.

Lemma intsetMoveTail_enc iset e n p q :
  valid_enc e -> encoding iset = intrev32ifbe (Z.of_nat e) ->
  intrev32ifbe (len iset) = Z.of_nat n -> (p <= n)%nat ->
  Z.of_nat ((n - p) * e) < 2 ^ 32 ->
  intsetMoveTail iset (Z.of_nat p) (Z.of_nat q)
  = c ← memmove (contents iset) (q * e) (p * e) ((n - p) * e); Some (with_contents iset c).
Proof.
  intros He Hf Hl Hp Hsz. assert (Z.of_nat (n - p) < 2 ^ 32) by (destruct He as [->|[->| ->]]; lia).
  unfold intsetMoveTail. rewrite (enc_field _ e), Hl by done.
  rewrite (uwrap_small 32 (_ - _)) by (unfold urange; lia).
  assert (forall k, valid_enc k ->
    (if Z.of_nat k =? INTSET_ENC_INT64 then 8 else if Z.of_nat k =? INTSET_ENC_INT32 then 4 else 2)
    = Z.of_nat k) as Hsize by (intros k [->|[->| ->]]; done).
  rewrite Hsize, !cell_nat by done. cbn [mbind option_bind].
  replace ((Z.of_nat n - Z.of_nat p) * Z.of_nat e) with (Z.of_nat ((n - p) * e))
    by (rewrite Nat2Z.inj_mul, Nat2Z.inj_sub; done).
  rewrite uwrap_small by (by apply urange_nat). by rewrite Nat2Z.id.
Qed.

(** * Insertion without a change of encoding *)

(** Resizing, opening a gap at [p] and writing [v] into it. *)
Lemma insert_cells fill iset e xs v p :
  intset_rep iset e xs -> (p <= length xs)%nat -> Z.of_nat (length xs) < 2 ^ 29 ->
  (iset ← intsetResize fill iset (Z.of_nat (S (length xs)));
   iset ← (if Z.of_nat p <? intrev32ifbe (len iset)
           then intsetMoveTail iset (Z.of_nat p) (Z.of_nat (S p)) else Some iset);
   _intsetSet iset (Z.of_nat p) v)
  = Some (with_contents iset (enc_cells e (take p xs ++ v :: drop p xs))).
Proof.
  intros R Hp Hn. pose proof (rep_valid _ _ _ R) as He. pose proof (rep_enc _ _ _ R) as Hf.
  assert (Hsz : (e <= 8)%nat) by (destruct He as [->|[->| ->]]; lia).
  rewrite (intsetResize_enc _ _ e) by (done || lia). cbn [mbind option_bind].
  change (len (with_contents ?i _)) with (len i). rewrite (rep_get_len _ _ _ R).
  set (a := enc_cells e (take p xs)). set (b := enc_cells e (drop p xs)).
  set (c := replicate e fill).
  assert (Hres : resize (S (length xs) * e) fill (contents iset) = a ++ b ++ c).
  { rewrite resize_spec, (rep_contents _ _ _ R), take_ge, enc_cells_length
      by (rewrite enc_cells_length; lia).
    rewrite app_assoc. unfold a, b, c. rewrite <- enc_cells_app, take_drop. f_equal. f_equal. lia. }
  assert (Ha : length a = (p * e)%nat)
    by (unfold a; rewrite enc_cells_length, length_take_le; done).
  assert (Hb : length b = ((length xs - p) * e)%nat)
    by (unfold b; by rewrite enc_cells_length, length_drop).
  assert (Hc : length c = e) by apply length_replicate.
  rewrite enc_cells_app, enc_cells_cons. fold a b. rewrite Hres.
  destruct (Z.ltb_spec (Z.of_nat p) (Z.of_nat (length xs))) as [Hlt|Hge].
  - rewrite (intsetMoveTail_enc _ e (length xs)) by (done || apply (rep_get_len _ _ _ R) || lia || nia).
    cbn [contents with_contents]. rewrite <- Hb, <- Ha.
    replace (S p * e)%nat with (length a + length c)%nat by lia.
    rewrite memmove_up. cbn [mbind option_bind].
    rewrite (intsetSet_store _ e) by (done || cbn [contents with_contents]; rewrite !length_app, length_take, !length_app; lia).
    cbn [contents with_contents]. rewrite <- Ha, <- Hc.
    rewrite (take_app_le (take _ _)) by (rewrite length_take, !length_app; lia).
    rewrite take_take, Nat.min_l, take_app_length by lia.
    rewrite drop_app_length'; [done|]. rewrite length_take, !length_app. lia.
  - assert (b = []) as -> by (apply length_zero_iff_nil; rewrite Hb; nia).
    cbn [mbind option_bind app].
    rewrite (intsetSet_store _ e) by (done || cbn [contents with_contents]; rewrite !length_app; lia).
    cbn [contents with_contents]. rewrite <- Ha, <- Hc, take_app_length, drop_ge; [done|].
    rewrite length_app; lia.
Qed.

(** * Upgrade of the encoding *)

(** The loop of [intsetUpgradeAndAdd], from the last element to the first: the
    block is [A], whose first bytes still hold the elements not moved yet, then
    the elements already in the new encoding, then [tail]. *)
Lemma upgrade_loop_correct cur new (p : nat) xs tail :
  valid_enc cur -> valid_enc new -> (cur <= new)%nat ->
  Forall (srange (8 * Z.of_nat cur)) xs ->
  forall k iset A,
  (k <= length xs)%nat ->
  encoding iset = intrev32ifbe (Z.of_nat new) ->
  contents iset = A ++ enc_cells new (drop k xs) ++ tail ->
  length A = ((k + p) * new)%nat ->
  take (k * cur) A = enc_cells cur (take k xs) ->
  exists A', upgrade_loop k iset (Z.of_nat p) (Z.of_nat cur)
             = Some (with_contents iset (A' ++ enc_cells new xs ++ tail)) /\
             length A' = (p * new)%nat.
Proof.
  intros Hcv Hnv Hle Hr. induction k as [|k IH]; intros iset A Hk Hf Hc HA Hpre.
  - exists A. split; [|done]. destruct iset as [ie il ic]. simpl in *. by subst ic.
  - destruct (lookup_lt_is_Some_2 xs k) as [v Hv]; [lia|]. cbn [upgrade_loop].
    assert (Hfull : A = enc_cells cur (take (S k) xs) ++ drop (S k * cur) A).
    { rewrite <- Hpre. by rewrite take_drop. }
    rewrite (getEncoded_cell _ cur (take (S k) xs)
              (drop (S k * cur) A ++ enc_cells new (drop (S k) xs) ++ tail) k v); [|done| | |].
    2:{ rewrite Hc. rewrite Hfull at 1. by rewrite <- app_assoc. }
    2:{ rewrite lookup_take_lt by lia. done. }
    2:{ by eapply Forall_lookup_1. }
    cbn [mbind option_bind]. rewrite <- Nat2Z.inj_add.
    rewrite (intsetSet_store _ new) by (done || rewrite Hc, !length_app; lia).
    cbn [mbind option_bind]. rewrite Hc.
    replace ((k + p) * new + new)%nat with (length A) by lia.
    rewrite drop_app_length, take_app_le by lia.
    destruct (IH (with_contents iset (take ((k + p) * new) A ++ le_bytes new v ++
                   enc_cells new (drop (S k) xs) ++ tail)) (take ((k + p) * new) A))
      as (A' & HA' & HlA'); [lia|done| | | |].
    + cbn [contents with_contents]. rewrite (drop_S _ _ _ Hv), enc_cells_cons. by rewrite <- !app_assoc.
    + rewrite length_take. lia.
    + rewrite take_take, Nat.min_l by nia.
      transitivity (take (k * cur) (take (S k * cur) A)).
      * rewrite take_take. f_equal. lia.
      * rewrite Hpre, (take_S_r _ _ _ Hv), enc_cells_app.
        rewrite take_app_le by (rewrite enc_cells_length, length_take; nia).
        apply take_ge. rewrite enc_cells_length, length_take. nia.
    + exists A'. split; [|done]. by rewrite HA'.
Qed.

(** The encoding chosen for a value is the smallest that holds it. *)
Lemma valueEncoding_spec v : srange 64 v ->
  exists e, _intsetValueEncoding v = Z.of_nat e /\ valid_enc e /\ srange (8 * Z.of_nat e) v /\
    forall e', valid_enc e' -> srange (8 * Z.of_nat e') v -> (e <= e')%nat.
Proof.
  unfold _intsetValueEncoding, INT32_MIN, INT32_MAX, INT16_MIN, INT16_MAX.
  intros Hv. unfold valid_enc.
  destruct (Z.ltb_spec v (-2147483648)), (Z.gtb_spec v 2147483647),
    (Z.ltb_spec v (-32768)), (Z.gtb_spec v 32767); cbn [orb]; try lia;
  (exists 2%nat + exists 4%nat + exists 8%nat); (split; [reflexivity|]; split; [tauto|];
    split; [unfold srange in *; simpl in *; lia|];
    intros e' [->|[->| ->]]; unfold srange in *; simpl in *; lia).
Qed.

Lemma valid_enc_mono e e' v :
  (e <= e')%nat -> srange (8 * Z.of_nat e) v -> srange (8 * Z.of_nat e') v.
Proof.
  intros Hle. unfold srange. destruct (decide (e = 0)%nat) as [->|He].
  - change (2 ^ (8 * Z.of_nat 0 - 1)) with 0. lia.
  - pose proof (Z.pow_le_mono_r 2 (8 * Z.of_nat e - 1) (8 * Z.of_nat e' - 1)). lia.
Qed.

(** The new length field. *)
Lemma len_succ iset e xs :
  intset_rep iset e xs -> Z.of_nat (length xs) < 2 ^ 29 ->
  u32 (intrev32ifbe (len iset) + 1) = Z.of_nat (S (length xs)).
Proof.
  intros R Hn. rewrite (rep_get_len _ _ _ R), uwrap_small by (unfold urange; lia). lia.
Qed.

(** The block after the resize and the loop of the upgrade, with a free cell
    in front ([p = 1]) or at the end ([p = 0]). *)
Lemma upgrade_block fill iset e e' xs (p : nat) :
  intset_rep iset e xs -> Z.of_nat (length xs) < 2 ^ 29 ->
  valid_enc e' -> (e < e')%nat -> (p <= 1)%nat ->
  exists A tail,
    (iset ← intsetResize fill (mkIntset (intrev32ifbe (Z.of_nat e')) (len iset) (contents iset))
              (Z.of_nat (S (length xs)));
     upgrade_loop (length xs) iset (Z.of_nat p) (Z.of_nat e))
    = Some (mkIntset (intrev32ifbe (Z.of_nat e')) (len iset) (A ++ enc_cells e' xs ++ tail)) /\
    length A = (p * e')%nat /\ length tail = ((1 - p) * e')%nat.
Proof.
  intros R Hn Hval Hlt Hp. pose proof (rep_valid _ _ _ R) as Hve.
  rewrite (intsetResize_enc _ _ e') by (done || lia). cbn [mbind option_bind contents].
  set (blk := resize (S (length xs) * e') fill (contents iset)).
  assert (Hbl : length blk = (S (length xs) * e')%nat) by apply length_resize.
  destruct (upgrade_loop_correct e e' p xs (drop ((length xs + p) * e') blk) Hve Hval ltac:(lia)
    (rep_values _ _ _ R) (length xs)
    (with_contents (mkIntset (intrev32ifbe (Z.of_nat e')) (len iset) (contents iset)) blk)
    (take ((length xs + p) * e') blk)) as (A' & HA' & HlA'); [done|done| | | |].
  - cbn [contents with_contents]. rewrite drop_all. change (enc_cells e' []) with (@nil Z).
    by rewrite app_nil_l, take_drop.
  - rewrite length_take, Hbl. nia.
  - rewrite take_take, Nat.min_l by nia. unfold blk.
    rewrite take_resize_le by nia. rewrite firstn_all, (rep_contents _ _ _ R).
    apply resize_all_alt. by rewrite enc_cells_length.
  - exists A', (drop ((length xs + p) * e') blk). split_and!; [by rewrite HA'|done|].
    rewrite length_drop, Hbl. nia.
Qed.

(** A block that holds the list with [v] inserted represents it. *)
Lemma rep_insert e xs v p :
  valid_enc e -> Forall (srange (8 * Z.of_nat e)) xs -> srange (8 * Z.of_nat e) v ->
  StronglySorted Z.lt xs -> sorted_pos xs v p -> v ∉ xs -> Z.of_nat (length xs) < 2 ^ 29 ->
  intset_rep (mkIntset (intrev32ifbe (Z.of_nat e)) (intrev32ifbe (Z.of_nat (S (length xs))))
                       (enc_cells e (take p xs ++ v :: drop p xs)))
             e (take p xs ++ v :: drop p xs).
Proof.
  intros He Hr Hv Hs Hpos Hnin Hn.
  assert (Hl : length (take p xs ++ v :: drop p xs) = S (length xs)).
  { rewrite length_app. simpl. rewrite length_drop, length_take_le by apply Hpos.
    destruct Hpos. lia. }
  constructor; cbn [encoding len contents]; try done.
  - by rewrite Hl.
  - rewrite Forall_forall in Hr |- *. intros x [->|Hx]%elem_of_insert; eauto.
  - by apply sorted_insert.
  - rewrite Hl. lia.
Qed.

(** The last write of the upgrade, into the free cell. *)
Lemma set_first e l A xs v :
  valid_enc e -> length A = e ->
  _intsetSet (mkIntset (intrev32ifbe (Z.of_nat e)) l (A ++ enc_cells e xs)) 0 v
  = Some (mkIntset (intrev32ifbe (Z.of_nat e)) l (enc_cells e (v :: xs))).
Proof.
  intros He HA. change 0 with (Z.of_nat 0).
  rewrite (intsetSet_store _ e) by (done || cbn [contents]; rewrite ?length_app; lia).
  unfold with_contents. cbn [contents encoding len]. rewrite Nat.mul_0_l, Nat.add_0_l, take_0, app_nil_l.
  by rewrite drop_app_length' by lia.
Qed.

Lemma set_last e l tail xs v :
  valid_enc e -> length tail = e ->
  _intsetSet (mkIntset (intrev32ifbe (Z.of_nat e)) l (enc_cells e xs ++ tail))
             (Z.of_nat (length xs)) v
  = Some (mkIntset (intrev32ifbe (Z.of_nat e)) l (enc_cells e (xs ++ [v]))).
Proof.
  intros He Ht. pose proof (enc_cells_length e xs) as Hl.
  rewrite (intsetSet_store _ e) by (done || cbn [contents]; rewrite ?length_app; lia).
  unfold with_contents. cbn [contents encoding len].
  rewrite take_app_length', (drop_ge (_ ++ tail)) by (rewrite ?length_app; lia).
  by rewrite enc_cells_app.
Qed.

Lemma upgrade_correct fill iset e xs v :
  intset_rep iset e xs -> Z.of_nat (length xs) < 2 ^ 29 -> srange 64 v ->
  Z.of_nat e < _intsetValueEncoding v ->
  exists iset' e' p, intsetUpgradeAndAdd fill iset v = Some iset' /\
    Z.of_nat e' = _intsetValueEncoding v /\ (v ∉ xs) /\
    intset_rep iset' e' (take p xs ++ v :: drop p xs).
Proof.
  intros R Hn Hv Henc. destruct (valueEncoding_spec v Hv) as (e' & He' & Hval & Hr & Hmin).
  rewrite He' in Henc. pose proof (rep_valid _ _ _ R) as Hve.
  assert (Hout : ~ srange (8 * Z.of_nat e) v) by (intros Hc; specialize (Hmin _ Hve Hc); lia).
  pose proof (proj1 (Forall_forall _ _) (rep_values _ _ _ R)) as Hxr.
  set (q := if v <? 0 then 1%nat else 0%nat).
  unfold intsetUpgradeAndAdd. rewrite He'. cbn [len encoding contents].
  replace (if v <? 0 then 1 else 0) with (Z.of_nat q) by (unfold q; by destruct (v <? 0)).
  rewrite (len_succ _ _ _ R Hn), (rep_get_len _ _ _ R), (rep_get_enc _ _ _ R).
  rewrite (uwrap_small 8), (swrap_small 32 (Z.of_nat _)), (proj2 (Z.leb_le _ _)), Nat2Z.id
    by first [by apply valid_enc_range | unfold srange; simpl; lia].
  destruct (upgrade_block fill iset e e' xs q R Hn Hval ltac:(lia)) as (A & tail & Hblk & HA & Ht);
    [unfold q; destruct (v <? 0); lia|].
  destruct (intsetResize _ _ _) as [iset1|]; [|done]. cbn [mbind option_bind guard] in *.
  rewrite Hblk. cbn [mbind option_bind len]. rewrite (rep_get_len _ _ _ R).
  assert (Hr' : Forall (srange (8 * Z.of_nat e')) xs).
  { apply Forall_forall. intros x Hx. eapply valid_enc_mono; [|by apply Hxr]. lia. }
  clear Hblk. unfold q in *. destruct (Z.ltb_spec v 0) as [Hneg|Hpos].
  - destruct (sorted_pos_start xs v) as [Hnin Hp];
      [intros x Hx; specialize (Hxr x Hx); unfold srange in *; lia|].
    assert (tail = []) as -> by (by apply length_zero_iff_nil). rewrite app_nil_r.
    change (Z.of_nat 1 =? 1) with true. cbn iota. rewrite set_first by (done || lia).
    cbn [mbind option_bind len]. rewrite (len_succ _ _ _ R Hn).
    eexists _, e', 0%nat. split_and!; [done|done|done|]. apply (rep_insert e' xs v 0); (done || apply R).
  - destruct (sorted_pos_end xs v) as [Hnin Hp];
      [intros x Hx; specialize (Hxr x Hx); unfold srange in *; lia|].
    assert (A = []) as -> by (by apply length_zero_iff_nil). rewrite app_nil_l.
    change (Z.of_nat 0 =? 1) with false. cbn iota.
    rewrite swrap_small by (unfold srange; simpl; lia). rewrite set_last by (done || lia).
    cbn [mbind option_bind len]. rewrite (len_succ _ _ _ R Hn).
    pose proof (rep_insert e' xs v (length xs)) as Hins. rewrite firstn_all, drop_all in Hins.
    eexists _, e', (length xs). split_and!; [done|done|done|].
    rewrite firstn_all, drop_all. apply Hins; (done || apply R).
Qed.

(** * Removal *)

(** Closing the gap left by the element at [p] and shrinking the block. *)
Lemma delete_cells fill iset e xs p :
  intset_rep iset e xs -> (p < length xs)%nat -> Z.of_nat (length xs) < 2 ^ 29 ->
  (iset ← (if Z.of_nat p <? Z.of_nat (length xs) - 1
           then intsetMoveTail iset (Z.of_nat (S p)) (Z.of_nat p) else Some iset);
   intsetResize fill iset (Z.of_nat (length xs - 1)))
  = Some (with_contents iset (enc_cells e (take p xs ++ drop (S p) xs))).
Proof.
  intros R Hp Hn. pose proof (rep_valid _ _ _ R) as He. pose proof (rep_enc _ _ _ R) as Hf.
  assert (Hsz : (e <= 8)%nat) by (destruct He as [->|[->| ->]]; lia).
  destruct (lookup_lt_is_Some_2 xs p Hp) as [v Hv].
  set (a := enc_cells e (take p xs)). set (b := enc_cells e (drop (S p) xs)).
  assert (Ha : length a = (p * e)%nat)
    by (unfold a; rewrite enc_cells_length, length_take_le; lia).
  assert (Hb : length b = ((length xs - S p) * e)%nat)
    by (unfold b; by rewrite enc_cells_length, length_drop).
  assert (Hc : contents iset = a ++ le_bytes e v ++ b).
  { rewrite (rep_contents _ _ _ R), <- (take_drop_middle xs p v Hv) at 1.
    by rewrite enc_cells_app, enc_cells_cons. }
  rewrite enc_cells_app. fold a b.
  assert (Hshrink : forall rest, resize ((length xs - 1) * e) fill ((a ++ b) ++ rest) = a ++ b).
  { intros rest. rewrite resize_spec.
    rewrite take_app_length' by (rewrite length_app; nia).
    replace (_ - _)%nat with 0%nat by (rewrite !length_app; nia). by rewrite app_nil_r. }
  destruct (Z.ltb_spec (Z.of_nat p) (Z.of_nat (length xs) - 1)) as [Hlt|Hge].
  - rewrite (intsetMoveTail_enc _ e (length xs)) by (done || apply (rep_get_len _ _ _ R) || lia || nia).
    rewrite Hc, <- Hb, <- Ha.
    replace (S p * e)%nat with (length a + length (le_bytes e v))%nat by (rewrite le_bytes_length; lia).
    rewrite memmove_down. cbn [mbind option_bind].
    rewrite (intsetResize_enc _ _ e) by (done || lia). cbn [with_contents contents].
    by rewrite app_assoc, Hshrink.
  - cbn [mbind option_bind]. rewrite (intsetResize_enc _ _ e) by (done || lia).
    assert (Hb0 : b = []) by (apply length_zero_iff_nil; rewrite Hb; nia).
    rewrite Hc. rewrite Hb0 in *. specialize (Hshrink (le_bytes e v)).
    by rewrite !app_nil_r in *; rewrite Hshrink.
Qed.

(** * The operations as set operations *)

Lemma in_rep_encoding iset e xs v :
  intset_rep iset e xs -> v ∈ xs -> _intsetValueEncoding v <= Z.of_nat e.
Proof.
  intros R Hv. pose proof (proj1 (Forall_forall _ _) (rep_values _ _ _ R) v Hv) as Hr.
  pose proof (rep_valid _ _ _ R) as He. destruct (valueEncoding_spec v) as (e' & -> & _ & _ & Hmin).
  { apply (valid_enc_mono e 8); [destruct He as [->|[->| ->]]; lia|done]. }
  specialize (Hmin _ He Hr). lia.
Qed.

(** Adding a 64 bit integer to a well-formed intset of fewer than 2^29
    elements succeeds without an access out of bounds, on hosts of both byte
    orders: it reports whether the value is new, the result is again a
    well-formed (sorted, duplicate-free, little-endian) block that holds exactly
    the old elements and the value, and its encoding is the larger of the old
    encoding and the one the value needs. *)
Lemma add_rep fill iset e xs v :
  intset_rep iset e xs -> Z.of_nat (length xs) < 2 ^ 29 -> srange 64 v ->
  exists iset' e' xs',
    intsetAdd fill iset v = Some (iset', bool_decide (v ∉ xs)) /\
    intset_rep iset' e' xs' /\
    Z.of_nat e' = Z.max (Z.of_nat e) (_intsetValueEncoding v) /\
    (forall x, x ∈ xs' <-> x = v \/ x ∈ xs).
Proof.
  intros R Hn Hv. unfold intsetAdd. rewrite (rep_get_enc _ _ _ R).
  destruct (Z.gtb_spec (_intsetValueEncoding v) (Z.of_nat e)) as [Hgt|Hle].
  { destruct (upgrade_correct fill iset e xs v R Hn Hv Hgt) as (iset' & e' & p & -> & He' & Hnin & R').
    exists iset', e', (take p xs ++ v :: drop p xs). cbn [mbind option_bind].
    rewrite bool_decide_true by done. split_and!; [done|done|lia|]. intros x. apply elem_of_insert. }
  destruct (search_correct iset e xs v R) as (p & -> & Hpos & _). cbn [mbind option_bind].
  case_bool_decide as Hin.
  { exists iset, e, xs. rewrite bool_decide_false by tauto. split_and!; [done|done|lia|].
    intros x. split; [tauto|intros [->|]; done]. }
  destruct (valueEncoding_spec v Hv) as (ev & Hev & Hvev & Hrv & _).
  pose proof (rep_bound _ _ _ R) as Hb. pose proof (proj1 Hpos) as Hp.
  rewrite (len_succ _ _ _ R Hn), (uwrap_small 32 (_ + 1)), (swrap_small 32 (Z.of_nat p))
    by (unfold urange, srange; simpl; lia).
  pose proof (insert_cells fill iset e xs v p R Hp Hn) as Hins.
  destruct (intsetResize _ _ _) as [i1|]; [|done]. cbn [mbind option_bind] in *.
  replace (Z.of_nat p + 1) with (Z.of_nat (S p)) by lia.
  destruct (if Z.of_nat p <? _ then _ else _) as [i2|]; [|done]. cbn [mbind option_bind] in *.
  rewrite Hins. cbn [mbind option_bind with_contents encoding len contents].
  rewrite (len_succ _ _ _ R Hn), (rep_enc _ _ _ R).
  eexists _, e, _. rewrite bool_decide_true by done.
  split_and!; [done|apply rep_insert; try (done || apply R)|lia|intros x; apply elem_of_insert].
  eapply valid_enc_mono; [|exact Hrv]. lia.
Qed.

(** Removing a value from a well-formed intset succeeds without an access
    out of bounds, reports whether the value was present, and leaves a
    well-formed block with the same encoding that holds exactly the other
    elements. *)
Lemma remove_rep fill iset e xs v :
  intset_rep iset e xs -> Z.of_nat (length xs) < 2 ^ 29 ->
  exists iset' xs',
    intsetRemove fill iset v = Some (iset', bool_decide (v ∈ xs)) /\
    intset_rep iset' e xs' /\
    (forall x, x ∈ xs' <-> x <> v /\ x ∈ xs).
Proof.
  intros R Hn. unfold intsetRemove. rewrite (rep_get_enc _ _ _ R), (rep_get_len _ _ _ R).
  assert (Hno : v ∉ xs -> forall x, x ∈ xs <-> x <> v /\ x ∈ xs).
  { intros Hv x. split; [|tauto]. intros Hx. split; [congruence|done]. }
  destruct (Z.leb_spec (_intsetValueEncoding v) (Z.of_nat e)) as [Hle|Hgt].
  2:{ assert (v ∉ xs) by (intros Hc; apply (in_rep_encoding _ _ _ _ R) in Hc; lia).
      exists iset, xs. rewrite bool_decide_false by done. auto. }
  destruct (search_correct iset e xs v R) as (p & -> & Hpos & Hfound). cbn [mbind option_bind].
  case_bool_decide as Hin; [|exists iset, xs; auto]. specialize (Hfound Hin).
  apply lookup_lt_Some in Hfound as Hl. pose proof (rep_valid _ _ _ R) as Hve.
  rewrite (uwrap_small 32 (Z.of_nat _ - 1)), (uwrap_small 32 (_ + 1)) by (unfold urange; lia).
  replace (Z.of_nat p + 1) with (Z.of_nat (S p)) by lia.
  pose proof (delete_cells fill iset e xs p R Hl Hn) as Hdel.
  replace (Z.of_nat (length xs - 1)) with (Z.of_nat (length xs) - 1) in Hdel by lia.
  destruct (if Z.of_nat p <? _ then _ else _) as [i1|]; [|done]. cbn [mbind option_bind] in *.
  rewrite Hdel. cbn [mbind option_bind with_contents encoding len contents].
  eexists _, (take p xs ++ drop (S p) xs). split_and!; [done| |intros x; by apply elem_of_delete, Hfound; apply R].
  assert (Hlen : length (take p xs ++ drop (S p) xs) = (length xs - 1)%nat)
    by (rewrite length_app, length_drop, length_take; lia).
  constructor; cbn [encoding len contents]; try (done || apply R).
  - rewrite Hlen. f_equal. lia.
  - apply Forall_app; split; [apply Forall_take|apply Forall_drop]; apply R.
  - apply sorted_delete, R.
  - rewrite Hlen. pose proof (rep_bound _ _ _ R). lia.
Qed.

(** [intsetFind] decides membership, for every value and every
    well-formed intset. *)
Lemma find_rep iset e xs v :
  intset_rep iset e xs -> intsetFind iset v = Some (bool_decide (v ∈ xs)).
Proof.
  intros R. unfold intsetFind. rewrite (rep_get_enc _ _ _ R).
  destruct (Z.leb_spec (_intsetValueEncoding v) (Z.of_nat e)) as [Hle|Hgt].
  - by destruct (search_correct iset e xs v R) as (p & -> & _).
  - rewrite bool_decide_false; [done|]. intros Hc. apply (in_rep_encoding _ _ _ _ R) in Hc. lia.
Qed.

(** * Validation of a serialized intset *)

Lemma cells_get iset e xs i v :
  valid_enc e -> intrev32ifbe (encoding iset) = Z.of_nat e -> contents iset = enc_cells e xs ->
  Forall (srange (8 * Z.of_nat e)) xs -> xs !! i = Some v ->
  _intsetGet iset (Z.of_nat i) = Some v.
Proof.
  intros He Hf Hc Hr Hi. unfold _intsetGet.
  rewrite Hf, uwrap_small by (by apply valid_enc_range).
  apply getEncoded_cell with xs []; [done|by rewrite app_nil_r|done|by eapply Forall_lookup_1].
Qed.

Lemma validate_loop_correct iset e xs :
  valid_enc e -> intrev32ifbe (encoding iset) = Z.of_nat e -> contents iset = enc_cells e xs ->
  Forall (srange (8 * Z.of_nat e)) xs -> Z.of_nat (length xs) < 2 ^ 31 ->
  forall l i prev, drop i xs = l ->
  validate_loop (length l) iset (Z.of_nat i) prev = Some (bool_decide (Sorted Z.lt (prev :: l))).
Proof.
  intros He Hf Hc Hr Hn. induction l as [|cur l IH]; intros i prev Hl; cbn [validate_loop length].
  { rewrite bool_decide_true; [done|]. by repeat constructor. }
  assert (Hi : xs !! i = Some cur) by (rewrite <- (Nat.add_0_r i), <- lookup_drop, Hl; done).
  apply lookup_lt_Some in Hi as Hil.
  rewrite swrap_small by (unfold srange; simpl; lia).
  rewrite (cells_get _ e xs _ cur) by done. cbn [mbind option_bind].
  destruct (Z.leb_spec cur prev) as [Hle|Hgt].
  - rewrite bool_decide_false; [done|]. intros Hs. apply Sorted_inv in Hs as [_ Hh].
    apply HdRel_inv in Hh. lia.
  - replace (Z.of_nat i + 1) with (Z.of_nat (S i)) by lia.
    rewrite IH. 2:{ rewrite (drop_S _ _ _ Hi) in Hl. by injection Hl. }
    f_equal. apply bool_decide_ext. split; [intros Hs; constructor; [done|by constructor]|].
    intros Hs. by apply Sorted_inv in Hs as [Hs _].
Qed.

(** The header as the bytes store it. *)
Lemma as_intset_fields p iset :
  bytes_ok p -> as_intset p = Some iset ->
  intrev32ifbe (encoding iset) = le_val (take 4 p) /\
  intrev32ifbe (len iset) = le_val (take 4 (drop 4 p)) /\
  contents iset = drop 8 p /\ (8 <= length p)%nat.
Proof.
  intros Hok. unfold as_intset, load.
  destruct (decide (0 + 4 <= length p)%nat) as [H1|]; [|discriminate].
  destruct (decide (4 + 4 <= length p)%nat) as [H2|]; [|discriminate].
  cbn [mbind option_bind]. intros [= <-]. cbn [encoding len contents]. rewrite drop_0.
  assert (bytes_ok (drop 4 p)) by (by apply Forall_drop).
  rewrite !intrev32ifbe_host_val by first [by apply Forall_take | rewrite length_take, ?length_drop; lia].
  split_and!; (done || lia).
Qed.

Lemma size_check (a b : Z) n :
  0 <= a -> 0 <= b -> a * b < 2 ^ 63 -> 
  (u64 (sizeof_intset + u64 (a * b)) =? n) = (8 + a * b =? n).
Proof.
  intros Ha Hb Hab. rewrite (uwrap_small 64 (a * b)), uwrap_small; [done|..];
    unfold urange, sizeof_intset; nia.
Qed.

(** A record size is accepted when it is one of the three encodings. *)
Lemma record_size_valid (E : Z) :
  (exists e, valid_enc e /\ E = Z.of_nat e /\
     (if E =? INTSET_ENC_INT64 then Some INTSET_ENC_INT64
      else if E =? INTSET_ENC_INT32 then Some INTSET_ENC_INT32
      else if E =? INTSET_ENC_INT16 then Some INTSET_ENC_INT16 else None) = Some E) \/
  ((forall e, valid_enc e -> E <> Z.of_nat e) /\
     (if E =? INTSET_ENC_INT64 then Some INTSET_ENC_INT64
      else if E =? INTSET_ENC_INT32 then Some INTSET_ENC_INT32
      else if E =? INTSET_ENC_INT16 then Some INTSET_ENC_INT16 else None) = None).
Proof.
  unfold INTSET_ENC_INT64, INTSET_ENC_INT32, INTSET_ENC_INT16, valid_enc.
  destruct (Z.eqb_spec E 8) as [->|]; [left; exists 8%nat; auto|].
  destruct (Z.eqb_spec E 4) as [->|]; [left; exists 4%nat; auto|].
  destruct (Z.eqb_spec E 2) as [->|]; [left; exists 2%nat; auto|].
  right. split; [|done]. intros e [->|[->| ->]]; lia.
Qed.

(** The image of a well-formed intset determines its list. *)
Lemma as_intset_rep p iset e xs :
  bytes_ok p -> as_intset p = Some iset -> intset_rep iset e xs ->
  le_val (take 4 p) = Z.of_nat e /\ le_val (take 4 (drop 4 p)) = Z.of_nat (length xs) /\
  drop 8 p = enc_cells e xs.
Proof.
  intros Hok Hp R. destruct (as_intset_fields _ _ Hok Hp) as (<- & <- & <- & _).
  rewrite (rep_get_enc _ _ _ R), (rep_get_len _ _ _ R). by split_and!; [..|apply R].
Qed.

Lemma as_intset_field_inv p iset :
  bytes_ok p -> as_intset p = Some iset ->
  encoding iset = intrev32ifbe (le_val (take 4 p)) /\
  len iset = intrev32ifbe (le_val (take 4 (drop 4 p))).
Proof.
  intros Hok Hp. destruct (as_intset_fields _ _ Hok Hp) as (<- & <- & _ & Hl).
  rewrite !intrev32ifbe_involutive; [done|..]; revert Hp; unfold as_intset, load;
  rewrite !decide_True by lia; cbn [mbind option_bind]; intros [= <-]; cbn [encoding len];
  apply (host_val_range 4); first [rewrite length_take, length_drop; lia
    | by repeat first [apply Forall_take | apply Forall_drop]].
Qed.

(** The records, once the header and the size have been accepted. *)
Lemma validate_records p iset e n :
  bytes_ok p -> Z.of_nat (length p) < 2 ^ 31 -> as_intset p = Some iset -> valid_enc e ->
  le_val (take 4 p) = Z.of_nat e -> le_val (take 4 (drop 4 p)) = Z.of_nat (S n) ->
  length p = (8 + S n * e)%nat ->
  exists b, (prev ← _intsetGet iset 0; validate_loop n iset 1 prev) = Some b /\
    (b = true <-> exists e xs, intset_rep iset e xs /\ xs <> []).
Proof.
  intros Hok Hlp Hp He HE HN Hsz. assert (He8 : (1 < e <= 8)%nat) by (destruct He as [->|[->| ->]]; lia).
  destruct (as_intset_fields _ _ Hok Hp) as (HEf & HNf & Hc & _).
  destruct (as_intset_field_inv _ _ Hok Hp) as [HEi HNi]. rewrite HE in HEi, HEf. rewrite HN in HNi.
  destruct (enc_cells_exists e (S n) (drop 8 p)) as (xs & Hxl & Hxr & Hxs);
    [lia|by apply Forall_drop|rewrite length_drop; lia|].
  rewrite Hxs in Hc. destruct xs as [|x0 xs]; [done|]. injection Hxl as Hxl.
  change 0 with (Z.of_nat 0). rewrite (cells_get iset e (x0 :: xs) 0 x0) by done.
  cbn [mbind option_bind]. rewrite <- Hxl. change 1 with (Z.of_nat 1).
  rewrite (validate_loop_correct iset e (x0 :: xs)); [|done..|simpl; nia|by rewrite skipn_cons, drop_0].
  eexists. split; [done|]. rewrite bool_decide_eq_true. split.
  - intros Hs. exists e, (x0 :: xs). split; [|done]. constructor; try done.
    + by rewrite HNi, <- Hxl.
    + apply Sorted_StronglySorted, Hs. intros ???; lia.
    + simpl. nia.
  - intros (e' & xs' & R & _). destruct (as_intset_rep _ _ _ _ Hok Hp R) as (He' & _ & Hd).
    assert (e' = e) as -> by lia. rewrite Hxs in Hd.
    apply enc_cells_inj in Hd; [|lia|done|apply R]. rewrite Hd.
    apply StronglySorted_Sorted, R.
Qed.

(** On a payload of fewer than 2^31 bytes the deep validation makes no
    access outside the payload, and it accepts exactly the images of non-empty
    well-formed intsets: the blocks on which the operations are correct. *)
Theorem intsetValidateIntegrity_correct p :
  bytes_ok p -> Z.of_nat (length p) < 2 ^ 31 ->
  exists b, intsetValidateIntegrity p (Z.of_nat (length p)) true = Some b /\
    (b = true <-> exists iset e xs, as_intset p = Some iset /\ intset_rep iset e xs /\ xs <> []).
Proof.
  intros Hok Hn. unfold intsetValidateIntegrity, sizeof_intset.
  destruct (Z.ltb_spec (Z.of_nat (length p)) 8) as [Hs|Hs].
  { exists false. split; [done|]. split; [done|]. intros (iset & e & xs & Hp & _).
    apply as_intset_fields in Hp; [lia|done]. }
  destruct (as_intset p) as [iset|] eqn:Hp.
  2:{ unfold as_intset, load in Hp. by rewrite !decide_True in Hp by lia. }
  pose proof (as_intset_rep p iset) as Hrep.
  destruct (as_intset_fields _ _ Hok Hp) as (HE & HN & Hc & _).
  destruct (as_intset_field_inv _ _ Hok Hp) as [HEi HNi].
  cbn [mbind option_bind]. rewrite HE, HN.
  assert (HNr : urange 32 (le_val (take 4 (drop 4 p)))).
  { pose proof (le_val_range (take 4 (drop 4 p))) as Hr. rewrite length_take, length_drop in Hr.
    rewrite Nat.min_l in Hr by lia. apply Hr. by apply Forall_take, Forall_drop. }
  assert (Hfalse : (forall e xs, intset_rep iset e xs -> xs = []) ->
    exists b, Some false = Some b /\ (b = true <-> exists iset' e xs,
      Some iset = Some iset' /\ intset_rep iset' e xs /\ xs <> [])).
  { intros Hno. exists false. split; [done|]. split; [done|].
    intros (? & e & xs & [= <-] & R & Hx). by apply Hno in R. }
  destruct (record_size_valid (le_val (take 4 p))) as [(e & He & HEe & ->)|[Hne ->]].
  2:{ apply Hfalse. intros e xs R. destruct (Hrep e xs) as [Hb _]; [done..|].
      by destruct (Hne e (rep_valid _ _ _ R)). }
  assert (He8 : (1 < e <= 8)%nat) by (destruct He as [->|[->| ->]]; lia).
  set (N := le_val (take 4 (drop 4 p))) in *. rewrite size_check by (unfold urange in HNr; nia).
  destruct (Z.eqb_spec (8 + N * le_val (take 4 p)) (Z.of_nat (length p))) as [Hsz|Hsz]; cbn [negb].
  2:{ apply Hfalse. intros e' xs R. destruct (Hrep e' xs) as (HE' & HN' & Hd); [done..|].
      apply (f_equal length) in Hd. rewrite length_drop, enc_cells_length in Hd. nia. }
  destruct (Z.eqb_spec N 0) as [HN0|HN0].
  { apply Hfalse. intros e' xs R. destruct (Hrep e' xs) as (HE' & HN' & Hd); [done..|].
    destruct xs; [done|]. simpl in HN'. lia. }
  unfold urange in HNr.
  destruct (validate_records p iset e (Z.to_nat (N - 1))) as (b & Hb & Hiff); try done; [unfold N in *; lia|nia|].
  exists b. split; [exact Hb|]. rewrite Hiff. split.
  - intros (e0 & xs0 & R0). by exists iset, e0, xs0.
  - intros (i0 & e0 & xs0 & [= <-] & R0). by exists e0, xs0.
Qed.

(** * Sequences of operations *)

Inductive op := OpAdd (v : Z) | OpRemove (v : Z) | OpFind (v : Z).

Definition op_value (o : op) : Z :=
  match o with OpAdd v | OpRemove v | OpFind v => v end.

Definition run_op (fill : Z) (iset : intset) (o : op) : option (intset * bool) :=
  match o with
  | OpAdd v => intsetAdd fill iset v
  | OpRemove v => intsetRemove fill iset v
  | OpFind v => b ← intsetFind iset v; Some (iset, b)
  end.

Fixpoint run (fill : Z) (iset : intset) (ops : list op) : option (intset * list bool) :=
  match ops with
  | [] => Some (iset, [])
  | o :: ops =>
    '(iset, b) ← run_op fill iset o;
    '(iset, bs) ← run fill iset ops;
    Some (iset, b :: bs)
  end.

(** The specification: a finite set of integers. *)
Definition spec_op (s : gset Z) (o : op) : gset Z * bool :=
  match o with
  | OpAdd v => ({[v]} ∪ s, bool_decide (v ∉ s))
  | OpRemove v => (s ∖ {[v]}, bool_decide (v ∈ s))
  | OpFind v => (s, bool_decide (v ∈ s))
  end.

Fixpoint spec_run (s : gset Z) (ops : list op) : gset Z * list bool :=
  match ops with
  | [] => (s, [])
  | o :: ops =>
    let '(s, b) := spec_op s o in
    let '(s, bs) := spec_run s ops in (s, b :: bs)
  end.

Lemma sorted_NoDup (xs : list Z) : StronglySorted Z.lt xs -> NoDup xs.
Proof.
  induction 1 as [|x l Hs IH Hf]; constructor; [|done].
  intros Hx. rewrite Forall_forall in Hf. specialize (Hf _ Hx). lia.
Qed.

(** One operation: the same answer as the finite set, the same elements after
    it, and at most one element more. *)
Lemma run_op_refines fill iset e xs s o :
  intset_rep iset e xs -> Z.of_nat (length xs) < 2 ^ 29 -> srange 64 (op_value o) ->
  (forall x, x ∈ xs <-> x ∈ s) ->
  exists iset' e' xs', run_op fill iset o = Some (iset', (spec_op s o).2) /\
    intset_rep iset' e' xs' /\ (forall x, x ∈ xs' <-> x ∈ (spec_op s o).1) /\
    (length xs' <= S (length xs))%nat.
Proof.
  intros R Hn Hv Hs. destruct o as [v|v|v]; cbn [run_op spec_op op_value fst snd] in *.
  - destruct (add_rep fill iset e xs v R Hn Hv) as (iset' & e' & xs' & -> & R' & _ & Hx).
    exists iset', e', xs'. split_and!;
      [| |intros x; rewrite Hx, Hs, elem_of_union, elem_of_singleton; tauto|]; [|done|].
    + do 2 f_equal. apply bool_decide_ext. by rewrite Hs.
    + change (S (length xs)) with (length (v :: xs)). apply NoDup_incl_length.
      { by apply NoDup_ListNoDup, sorted_NoDup, (rep_sorted _ _ _ R'). }
      intros x Hin. apply list_elem_of_In, Hx in Hin. apply list_elem_of_In, elem_of_cons. tauto.
  - destruct (remove_rep fill iset e xs v R Hn) as (iset' & xs' & -> & R' & Hx).
    exists iset', e, xs'. split_and!;
      [| |intros x; rewrite Hx, Hs, elem_of_difference, elem_of_singleton; tauto|]; [|done|].
    + do 2 f_equal. apply bool_decide_ext. by rewrite Hs.
    + transitivity (length xs); [|lia]. apply NoDup_incl_length.
      { by apply NoDup_ListNoDup, sorted_NoDup, (rep_sorted _ _ _ R'). }
      intros x Hin. apply list_elem_of_In, Hx in Hin. apply list_elem_of_In. tauto.
  - rewrite (find_rep iset e xs v R). cbn [mbind option_bind].
    exists iset, e, xs. split_and!; [|done|done|lia]. do 2 f_equal. by apply bool_decide_ext.
Qed.

Lemma run_refines fill ops : forall iset e xs s,
  intset_rep iset e xs -> Z.of_nat (length xs) + Z.of_nat (length ops) < 2 ^ 29 ->
  Forall (fun o => srange 64 (op_value o)) ops -> (forall x, x ∈ xs <-> x ∈ s) ->
  exists iset' e' xs', run fill iset ops = Some (iset', (spec_run s ops).2) /\
    intset_rep iset' e' xs' /\ (forall x, x ∈ xs' <-> x ∈ (spec_run s ops).1).
Proof.
  induction ops as [|o ops IH]; intros iset e xs s R Hn Hv Hs; cbn [run spec_run]; [by exists iset, e, xs|].
  inversion_clear Hv as [|? ? Ho Hv']. cbn [length] in Hn.
  destruct (run_op_refines fill iset e xs s o R ltac:(lia) Ho Hs) as (i1 & e1 & xs1 & -> & R1 & Hs1 & Hl1).
  destruct (spec_op s o) as [s1 b]. cbn [mbind option_bind fst snd] in *.
  destruct (IH i1 e1 xs1 s1 R1 ltac:(lia) Hv' Hs1) as (i2 & e2 & xs2 & -> & R2 & Hs2).
  destruct (spec_run s1 ops) as [s2 bs]. cbn [mbind option_bind fst snd] in *. by exists i2, e2, xs2.
Qed.

Lemma new_rep : intset_rep intsetNew 2 [].
Proof.
  constructor; [by left|done| |done|constructor|constructor|done].
  cbn. unfold intrev32ifbe, intrev32, host_val, host_bytes. by destruct big_endian.
Qed.

Lemma rep_blob iset e xs :
  intset_rep iset e xs ->
  blob iset = le_bytes 4 (Z.of_nat e) ++ le_bytes 4 (Z.of_nat (length xs)) ++ enc_cells e xs.
Proof.
  intros R. unfold blob.
  by rewrite (rep_enc _ _ _ R), (rep_len _ _ _ R), !host_bytes_intrev32ifbe, (rep_contents _ _ _ R).
Qed.

(** C1. Every sequence of fewer than 2^29 additions, removals and look-ups of
    64 bit integers, run from the empty intset, completes without an access out
    of bounds and returns the answers a finite set of integers gives; at the end
    the block is the little-endian image of the strictly sorted list of that
    set's elements, whatever the byte order of the host. *)
Theorem intset_refines_set fill ops :
  Z.of_nat (length ops) < 2 ^ 29 -> Forall (fun o => srange 64 (op_value o)) ops ->
  exists iset e xs,
    run fill intsetNew ops = Some (iset, (spec_run ∅ ops).2) /\
    valid_enc e /\ StronglySorted Z.lt xs /\ (forall x, x ∈ xs <-> x ∈ (spec_run ∅ ops).1) /\
    blob iset = le_bytes 4 (Z.of_nat e) ++ le_bytes 4 (Z.of_nat (length xs)) ++ enc_cells e xs.
Proof.
  intros Hn Hv.
  destruct (run_refines fill ops intsetNew 2 [] ∅ new_rep) as (iset & e & xs & Hrun & R & Hx);
    [simpl; lia|done|set_solver|].
  exists iset, e, xs. split_and!; [done|apply R|apply R|done|by apply rep_blob].
Qed.

(** * The limit of 2^29 elements

    [intsetMoveTail] counts the bytes to move in a [uint32_t]. *)

Lemma movetail_wraps iset :
  intrev32ifbe (encoding iset) = 8 -> intrev32ifbe (len iset) = 2 ^ 29 ->
  (8 <= length (contents iset))%nat ->
  intsetMoveTail iset 0 1 = Some iset.
Proof.
  intros He Hl Hc. unfold intsetMoveTail. rewrite He, Hl.
  change (8 =? INTSET_ENC_INT64) with true. cbv beta iota zeta.
  change (cell 0 8) with (Some 0%nat). change (cell 1 8) with (Some 8%nat).
  replace (u32 (u32 (2 ^ 29 - 0) * 8)) with 0 by done.
  change (Z.to_nat 0) with 0%nat. cbn [mbind option_bind]. unfold memmove. rewrite load_Some by lia. cbn [mbind option_bind].
  rewrite take_0. rewrite store_Some by (cbn [length]; lia). cbn [mbind option_bind length app].
  destruct iset as [ie il ic]. unfold with_contents. cbn [contents encoding len].
  by rewrite take_drop.
Qed.

(** C40. The limit is real: on a well-formed intset of exactly 2^29 elements
    with 64 bit encoding, adding a value below all others reports success but
    moves nothing, so that the value overwrites the smallest element and the
    last cell is left uninitialised ([fill]). *)
Theorem intsetAdd_wraps fill iset x xs v :
  intset_rep iset 8 (x :: xs) -> Z.of_nat (length (x :: xs)) = 2 ^ 29 ->
  srange 64 v -> v < x ->
  exists iset', intsetAdd fill iset v = Some (iset', true) /\
    contents iset' = le_bytes 8 v ++ enc_cells 8 xs ++ replicate 8 fill /\
    intsetLen iset' = 2 ^ 29 + 1.
Proof.
  intros R Hn Hv Hlt. unfold intsetAdd. rewrite (rep_get_enc _ _ _ R).
  destruct (valueEncoding_spec v Hv) as (ev & -> & Hvev & _).
  assert (Hnin : v ∉ x :: xs).
  { intros Hc. pose proof (sorted_first (x :: xs) x v (rep_sorted _ _ _ R) eq_refl Hc). lia. }
  destruct (Z.gtb_spec (Z.of_nat ev) (Z.of_nat 8)) as [?|_]; [destruct Hvev as [->|[->| ->]]; lia|].
  destruct (search_correct iset 8 (x :: xs) v R) as (p & -> & [_ Hp] & _).
  assert (p = 0%nat) as ->.
  { destruct p as [|p]; [done|]. specialize (Hp 0%nat x eq_refl). lia. }
  rewrite bool_decide_false by done. cbn [mbind option_bind].
  rewrite (rep_get_len _ _ _ R), (uwrap_small 32 (Z.of_nat (length _) + 1)) by (unfold urange; lia).
  replace (Z.of_nat (length (x :: xs)) + 1) with (Z.of_nat (S (length (x :: xs)))) by lia.
  rewrite (intsetResize_enc _ _ 8) by (apply R || lia). cbn [mbind option_bind].
  set (i1 := with_contents iset _).
  assert (Hc1 : contents i1 = enc_cells 8 (x :: xs) ++ replicate 8 fill).
  { unfold i1. cbn [with_contents contents]. rewrite resize_spec, (rep_contents _ _ _ R).
    rewrite take_ge by (rewrite enc_cells_length; lia). f_equal. f_equal.
    rewrite enc_cells_length. lia. }
  change (len i1) with (len iset). rewrite (rep_get_len _ _ _ R).
  change (Z.of_nat 0) with 0. rewrite (proj2 (Z.ltb_lt _ _)) by lia.
  change (u32 (0 + 1)) with 1. rewrite movetail_wraps.
  2:{ apply (rep_get_enc _ _ _ R). } 2:{ by rewrite <- Hn; apply (rep_get_len _ _ _ R). }
  2:{ rewrite Hc1, length_app, length_replicate. lia. }
  cbn [mbind option_bind]. change (s32 0) with (Z.of_nat 0).
  rewrite (intsetSet_store _ 8) by (apply R || rewrite Hc1, length_app, length_replicate; lia).
  cbn [mbind option_bind with_contents contents encoding len]. eexists. split; [done|]. split.
  - cbn [contents]. rewrite Hc1, enc_cells_cons, <- app_assoc.
    rewrite Nat.mul_0_l, take_0, Nat.add_0_l, drop_app_length' by by rewrite le_bytes_length. done.
  - unfold intsetLen. cbn [len]. change (len i1) with (len iset).
    rewrite (rep_get_len _ _ _ R), Hn. by apply intrev32ifbe_involutive.
Qed.

End Rep.

(** * Concrete instances *)

Definition little : Host := {| big_endian := false |}.
Definition big : Host := {| big_endian := true |}.

Definition ex_ops : list op :=
  [OpAdd 5; OpAdd (-70000); OpAdd 5; OpFind 5; OpRemove 5; OpAdd (2 ^ 40); OpFind 5].

Lemma intset_refines_set_witness :
  (spec_run ∅ ex_ops).2 = [true; true; false; true; true; true; false] /\
  exists iset e xs,
    @run big 165 (@intsetNew big) ex_ops = Some (iset, (spec_run ∅ ex_ops).2) /\
    valid_enc e /\ StronglySorted Z.lt xs /\ (forall x, x ∈ xs <-> x ∈ (spec_run ∅ ex_ops).1) /\
    @blob big iset
    = le_bytes 4 (Z.of_nat e) ++ le_bytes 4 (Z.of_nat (length xs)) ++ enc_cells e xs.
Proof.
  split; [vm_compute; reflexivity|].
  apply (@intset_refines_set big 165 ex_ops); [simpl; lia|].
  repeat constructor; unfold srange; simpl; lia.
Defined.

Definition ex_blob : bytes := [2; 0; 0; 0; 2; 0; 0; 0; 255; 255; 7; 0].

Lemma intsetValidateIntegrity_witness :
  @intsetValidateIntegrity big ex_blob 12 true = Some true /\
  exists b, @intsetValidateIntegrity big ex_blob (Z.of_nat (length ex_blob)) true = Some b /\
    (b = true <-> exists iset e xs,
       @as_intset big ex_blob = Some iset /\ @intset_rep big iset e xs /\ xs <> []).
Proof.
  split; [vm_compute; reflexivity|].
  apply (@intsetValidateIntegrity_correct big ex_blob); [|simpl; lia].
  refine (bool_decide_unpack (bytes_ok ex_blob) _). vm_compute. exact I.
Defined.

Definition ex_large : intset := mkIntset 8 (2 ^ 29) (enc_cells 8 (0 :: seqZ 1 (2 ^ 29 - 1))).

Lemma seqZ_sorted m n : StronglySorted Z.lt (seqZ m n).
Proof.
  destruct (decide (n < 0)); [rewrite seqZ_nil by lia; constructor|].
  revert m. apply (natlike_ind (fun n => forall m, StronglySorted Z.lt (seqZ m n))); [..|lia].
  - intros m. rewrite seqZ_nil by lia. constructor.
  - intros k Hk IH m. rewrite seqZ_cons by lia. constructor; [rewrite Z.pred_succ; apply IH|].
    apply Forall_forall. intros x Hx%elem_of_seqZ. lia.
Qed.

Lemma ex_large_rep : @intset_rep little ex_large 8 (0 :: seqZ 1 (2 ^ 29 - 1)).
Proof.
  assert (Hl : Z.of_nat (length (0 :: seqZ 1 (2 ^ 29 - 1))) = 2 ^ 29)
    by (cbn [length]; rewrite length_seqZ; lia).
  constructor.
  - by right; right.
  - reflexivity.
  - rewrite Hl. reflexivity.
  - reflexivity.
  - clear Hl. constructor; [unfold srange; simpl; lia|]. apply Forall_forall.
    intros x Hx%elem_of_seqZ. unfold srange. simpl. lia.
  - clear Hl. constructor; [apply seqZ_sorted|]. apply Forall_forall. intros x Hx%elem_of_seqZ. lia.
  - rewrite Hl. reflexivity.
Qed.

Lemma intsetAdd_wraps_witness :
  exists iset', @intsetAdd little 165 ex_large (-1) = Some (iset', true) /\
    contents iset' = le_bytes 8 (-1) ++ enc_cells 8 (seqZ 1 (2 ^ 29 - 1)) ++ replicate 8 165 /\
    @intsetLen little iset' = 2 ^ 29 + 1.
Proof.
  apply (@intsetAdd_wraps little 165 ex_large 0 (seqZ 1 (2 ^ 29 - 1)) (-1)).
  - apply ex_large_rep.
  - cbn [length]. rewrite length_seqZ. lia.
  - unfold srange. simpl. lia.
  - lia.
Defined.

End Intset.
