(* ===== verification/Util.v ===== *)
(** Conversions between integers and strings: util.c, and the copy of
    [string2ll] in listpack.c.

    The reference is [sdec], the canonical decimal string of an integer.
    [ll2string] writes exactly that string, and [string2ll] accepts exactly the
    canonical strings of the integers of 64 bits. *)

From S2P Require Import Prelude.

Module Util.

(** ** Characters *)

Definition ch_minus : Z := 45.
Definition ch_0 : Z := 48.
Definition ch_1 : Z := 49.
Definition ch_9 : Z := 57.

Definition is_digit (c : Z) : bool := (ch_0 <=? c) && (c <=? ch_9).

Definition LONG_STR_SIZE : Z := 21.
Definition ULLONG_MAX : Z := 2 ^ 64 - 1.
Definition LLONG_MAX : Z := 2 ^ 63 - 1.
Definition LLONG_MIN : Z := - 2 ^ 63.

(** ** Number of digits *)

(** [digits10] calls itself on [v / 10^12]; [fuel] bounds the depth. *)
Fixpoint digits10_fuel (fuel : nat) (v : Z) : Z :=
  match fuel with
  | O => 0
  | S fuel =>
    if v <? 10 then 1
    else if v <? 100 then 2
    else if v <? 1000 then 3
    else if v <? 1000000000000 then
      if v <? 100000000 then
        if v <? 1000000 then
          if v <? 10000 then 4 else 5 + b2z (v >=? 100000)
        else 7 + b2z (v >=? 10000000)
      else if v <? 10000000000 then 9 + b2z (v >=? 1000000000)
      else 11 + b2z (v >=? 100000000000)
    else 12 + digits10_fuel fuel (v / 1000000000000)
  end.

(** Two levels are enough for a [uint64_t]. *)
Definition digits10 (v : Z) : Z := digits10_fuel 2 v.

Definition sdigits10 (v : Z) : Z :=
  if v <? 0 then
    let uv := if negb (v =? LLONG_MIN) then u64 (- v) else u64 (LLONG_MAX + 1) in
    digits10 uv + 1
  else digits10 v.

(** ** Integer to string *)

(** The table [digits] of [ull2string]: the two characters of 00, 01, ..., 99. *)
Definition digits_table : bytes :=
  concat (map (fun i => [ch_0 + Z.of_nat i / 10; ch_0 + Z.of_nat i mod 10]) (seq 0 100)).

(** [dst[i] = c], [None] outside the block. *)
Definition put (dst : bytes) (i : Z) (c : Z) : option bytes :=
  _ ← guard (0 <=? i); store dst (Z.to_nat i) [c].

Definition digit_at (i : Z) : option Z := digits_table !! Z.to_nat i.

(** The [while (value >= 100)] loop; it returns [dst], [value] and [next]. *)
Fixpoint ull2string_loop (fuel : nat) (dst : bytes) (value next : Z)
    : option (bytes * Z * Z) :=
  match fuel with
  | O => None
  | S fuel =>
    if value >=? 100 then
      let i := (value mod 100) * 2 in
      let value := value / 100 in
      d1 ← digit_at (i + 1);
      dst ← put dst next d1;
      d0 ← digit_at i;
      dst ← put dst (u32 (next - 1)) d0;
      ull2string_loop fuel dst value (u32 (next - 2))
    else Some (dst, value, next)
  end.

(** The label [err:]: force a null terminator and return 0. *)
Definition tostring_err (dst : bytes) (dstlen : Z) : option (bytes * Z) :=
  if dstlen >? 0 then dst ← put dst 0 0; Some (dst, 0) else Some (dst, 0).

Definition ull2string (dst : bytes) (dstlen value : Z) : option (bytes * Z) :=
  let length := digits10 value in
  if length >=? dstlen then tostring_err dst dstlen
  else
    let next := u32 (length - 1) in
    dst ← put dst (u32 (next + 1)) 0;
    '(dst, value, next) ← ull2string_loop 20 dst value next;
    if value <? 10 then
      dst ← put dst next (ch_0 + u32 value);
      Some (dst, length)
    else
      let i := u32 value * 2 in
      d1 ← digit_at (i + 1);
      dst ← put dst next d1;
      d0 ← digit_at i;
      dst ← put dst (u32 (next - 1)) d0;
      Some (dst, length).

Definition ll2string (dst : bytes) (dstlen svalue : Z) : option (bytes * Z) :=
  if svalue <? 0 then
    let value := if negb (svalue =? LLONG_MIN) then u64 (- svalue) else u64 (LLONG_MAX + 1) in
    if dstlen <? 2 then tostring_err dst dstlen
    else
      dst ← put dst 0 ch_minus;
      (* dst++; dstlen--; *)
      c ← head dst;
      '(rest, length) ← ull2string (tail dst) (dstlen - 1) value;
      if length =? 0 then Some (c :: rest, 0) else Some (c :: rest, length + 1)
  else
    let value := svalue in
    '(dst, length) ← ull2string dst dstlen value;
    if length =? 0 then Some (dst, 0) else Some (dst, length).

(** ** String to integer *)

(** The [while] loop over the digits that follow the first one: [None] is the
    return on overflow, otherwise the value and the bytes not used. *)
Fixpoint string2ll_loop (p : bytes) (v : Z) : option (Z * bytes) :=
  match p with
  | c :: p' =>
    if is_digit c then
      if v >? ULLONG_MAX / 10 then None
      else
        let v := u64 (v * 10) in
        if v >? ULLONG_MAX - (c - ch_0) then None
        else string2ll_loop p' (u64 (v + (c - ch_0)))
    else Some (v, p)
  | [] => Some (v, [])
  end.

(** [None] is the return value 0, [Some v] the return value 1 with [*value = v]. *)
Definition string2ll (s : bytes) : option Z :=
  let slen := Z.of_nat (length s) in
  if (slen =? 0) || (slen >=? LONG_STR_SIZE) then None
  else
    match s with
    | [] => None
    | c :: s' =>
      if (slen =? 1) && (c =? ch_0) then Some 0
      else
        let negative := c =? ch_minus in
        match (if negative then s' else s) with
        | [] => None
        | d :: p =>
          if (ch_1 <=? d) && (d <=? ch_9) then
            '(v, rest) ← string2ll_loop p (u64 (d - ch_0));
            match rest with
            | _ :: _ => None
            | [] =>
              if negative then
                if v >? u64 (- (LLONG_MIN + 1)) + 1 then None else Some (s64 (u64 (- v)))
              else
                if v >? LLONG_MAX then None else Some (s64 v)
            end
          else None
        end
    end.

(** listpack.c has its own copy of the function. *)
Definition INT64_MAX : Z := 2 ^ 63 - 1.
Definition INT64_MIN : Z := - 2 ^ 63.
Definition UINT64_MAX : Z := 2 ^ 64 - 1.

Fixpoint lpStringToInt64_loop (p : bytes) (v : Z) : option (Z * bytes) :=
  match p with
  | c :: p' =>
    if is_digit c then
      if v >? UINT64_MAX / 10 then None
      else
        let v := u64 (v * 10) in
        if v >? UINT64_MAX - (c - ch_0) then None
        else lpStringToInt64_loop p' (u64 (v + (c - ch_0)))
    else Some (v, p)
  | [] => Some (v, [])
  end.

Definition lpStringToInt64 (s : bytes) : option Z :=
  let slen := Z.of_nat (length s) in
  if (slen =? 0) || (slen >=? LONG_STR_SIZE) then None
  else
    match s with
    | [] => None
    | c :: s' =>
      if (slen =? 1) && (c =? ch_0) then Some 0
      else
        let negative := c =? ch_minus in
        match (if negative then s' else s) with
        | [] => None
        | d :: p =>
          if (ch_1 <=? d) && (d <=? ch_9) then
            '(v, rest) ← lpStringToInt64_loop p (u64 (d - ch_0));
            match rest with
            | _ :: _ => None
            | [] =>
              if negative then
                if v >? u64 (- (INT64_MIN + 1)) + 1 then None else Some (s64 (u64 (- v)))
              else
                if v >? INT64_MAX then None else Some (s64 v)
            end
          else None
        end
    end.

(** [long] has 64 bits, so the range test of [string2l] is the one of [long long]. *)
Definition string2l (s : bytes) : option Z :=
  llval ← string2ll s;
  if (llval <? LLONG_MIN) || (llval >? LLONG_MAX) then None else Some llval.

(** ** Hexadecimal *)

Definition safe_is_c_in_range (c start end_ : Z) : bool := (c >=? start) && (c <=? end_).

Definition base_16_char_type (c : Z) : Z :=
  if safe_is_c_in_range c 48 57 then 0
  else if safe_is_c_in_range c 97 102 then 1
  else if safe_is_c_in_range c 65 70 then 2
  else -1.

(** [static char ascii_to_dec[] = {'0', 'a' - 10, 'A' - 10};] *)
Definition ascii_to_dec : list Z := [48; 97 - 10; 65 - 10].

(** [src] is the null-terminated string, of which [slen] bytes are read at
    most: [None] is a read past its end, [Some None] the result -1 on overflow. *)
Fixpoint string2ul_base16_loop (src : bytes) (slen : nat) (result : Z) : option (option Z) :=
  match src with
  | [] => None
  | c :: src =>
    let char_type := base_16_char_type c in
    match slen with
    | O => Some (Some result)
    | S slen =>
      if char_type =? -1 then Some (Some result)
      else
        d ← ascii_to_dec !! Z.to_nat char_type;
        let curr_val := c - d in
        if (result >? ULLONG_MAX / 16) || (result >? (ULLONG_MAX - curr_val) / 16) then Some None
        else string2ul_base16_loop src slen (u64 (result * 16 + curr_val))
    end
  end.

Definition string2ul_base16_async_signal_safe (src : bytes) (slen : nat) : option (option Z) :=
  string2ul_base16_loop src slen 0.

(** ** Memory helpers *)

(** The index of the first byte of [s] that is in [chars]. *)
Fixpoint mempbrk (s chars : bytes) : option nat :=
  match s with
  | [] => None
  | c :: s => if bool_decide (c ∈ chars) then Some O else S <$> mempbrk s chars
  end.

(** The inner loop of [memmapchars]: the first [i] with [s[j] == from[i]]. *)
Fixpoint map_char (c : Z) (from to : bytes) : Z :=
  match from, to with
  | f :: from, t :: to => if c =? f then t else map_char c from to
  | _, _ => c
  end.

Definition memmapchars (s from to : bytes) : bytes := map (fun c => map_char c from to) s.

(** * The canonical decimal string *)

Fixpoint udec_fuel (fuel : nat) (v : Z) : bytes :=
  if v <? 10 then [ch_0 + v]
  else match fuel with
       | O => []
       | S fuel => udec_fuel fuel (v / 10) ++ [ch_0 + v mod 10]
       end.

Definition udec (v : Z) : bytes := udec_fuel (Z.to_nat (Z.log2 v)) v.

Definition sdec (v : Z) : bytes := if v <? 0 then ch_minus :: udec (- v) else udec v.

Lemma div10_log2 v : 10 <= v -> Z.log2 (v / 10) < Z.log2 v.
Proof.
  intros Hv. pose proof (Z.log2_le_mono (v / 10) (v / 2)) as H1.
  assert (v / 10 <= v / 2) by (apply Z.div_le_compat_l; lia).
  pose proof (Z.log2_shiftr v 1 ltac:(lia)) as H2. rewrite Z.shiftr_div_pow2 in H2 by lia.
  pose proof (Z.log2_le_mono 8 v) as H3. change (Z.log2 8) with 3 in H3.
  change (2 ^ 1) with 2 in H2. lia.
Qed.

Lemma udec_fuel_enough v : 0 <= v -> forall n m,
  (Z.to_nat (Z.log2 v) <= n)%nat -> (Z.to_nat (Z.log2 v) <= m)%nat -> udec_fuel n v = udec_fuel m v.
Proof.
  intros Hv. induction (Z.lt_wf 0 v) as [v _ IH]. intros n m Hn Hm.
  destruct n, m; cbn [udec_fuel]; destruct (Z.ltb_spec v 10); try done.
  all: pose proof (div10_log2 v ltac:(lia)); pose proof (Z.log2_nonneg (v / 10)); try lia.
  f_equal. apply IH; try lia; [split; [apply Z.div_pos|apply Z.div_lt]|apply Z.div_pos]; lia.
Qed.

Lemma udec_small v : v < 10 -> udec v = [ch_0 + v].
Proof.
  intros Hv. unfold udec. destruct (Z.to_nat _); cbn [udec_fuel];
    by rewrite (proj2 (Z.ltb_lt v 10)).
Qed.

Lemma udec_step v : 10 <= v -> udec v = udec (v / 10) ++ [ch_0 + v mod 10].
Proof.
  intros Hv. unfold udec at 1. pose proof (div10_log2 v Hv). pose proof (Z.log2_nonneg (v / 10)).
  destruct (Z.to_nat (Z.log2 v)) as [|n] eqn:E; [lia|]. cbn [udec_fuel].
  rewrite (proj2 (Z.ltb_ge v 10)) by lia. f_equal.
  apply udec_fuel_enough; [apply Z.div_pos; lia|lia..].
Qed.

(** The value of a string of digits. *)
Definition dval_from (v : Z) (ds : bytes) : Z := fold_left (fun a d => a * 10 + (d - ch_0)) ds v.
Definition dval (ds : bytes) : Z := dval_from 0 ds.

Lemma dval_snoc ds d : dval (ds ++ [d]) = dval ds * 10 + (d - ch_0).
Proof. unfold dval, dval_from. by rewrite fold_left_app. Qed.

Lemma is_digit_spec d : is_digit d = true <-> 48 <= d <= 57.
Proof. unfold is_digit, ch_0, ch_9. lia. Qed.

(** A digit string without a leading zero. *)
Definition canonical (ds : bytes) : Prop :=
  Forall (fun d => is_digit d = true) ds /\
  match ds with [] => False | d :: _ => ch_1 <= d end.

Lemma dval_from_mono ds v : 0 <= v -> Forall (fun d => is_digit d = true) ds ->
  v <= dval_from v ds.
Proof.
  intros Hv Hd. revert v Hv. induction Hd as [|d ds Hd _ IH]; intros v Hv; [done|].
  apply is_digit_spec in Hd. cbn. unfold dval_from in IH. specialize (IH (v * 10 + (d - ch_0)) ltac:(unfold ch_0; lia)).
  unfold ch_0 in *. lia.
Qed.

Lemma canonical_pos ds : canonical ds -> 1 <= dval ds.
Proof.
  intros [Hd Hh]. destruct ds as [|d ds]; [done|]. inversion_clear Hd.
  change (dval (d :: ds)) with (dval_from (0 * 10 + (d - ch_0)) ds).
  pose proof (dval_from_mono ds (0 * 10 + (d - ch_0))) as Hm. unfold ch_0, ch_1 in *.
  specialize (Hm ltac:(lia) ltac:(done)). lia.
Qed.

(** [udec] is the inverse of [dval] on canonical strings. *)
Lemma udec_dval ds : canonical ds -> udec (dval ds) = ds.
Proof.
  induction ds as [|d ds IH] using rev_ind; intros [Hd Hh]; [done|].
  apply Forall_app in Hd as [Hds Hd]. inversion_clear Hd as [|? ? Hd' _].
  apply is_digit_spec in Hd'. rewrite dval_snoc.
  destruct ds as [|e ds].
  - change (dval []) with 0. rewrite udec_small by (unfold ch_0; lia). cbn [app]. f_equal. unfold ch_0. lia.
  - assert (Hc : canonical (e :: ds)) by (split; done). pose proof (canonical_pos _ Hc).
    unfold ch_0 in *. rewrite udec_step by lia.
    rewrite (Z.add_comm (_ * 10)), Z_div_plus_full, Z.div_small, Z.add_0_l by lia.
    rewrite Z_mod_plus_full, Z.mod_small by lia. rewrite (IH Hc). do 2 f_equal. unfold ch_0. lia.
Qed.

Lemma udec_canonical v : 1 <= v -> canonical (udec v) /\ dval (udec v) = v.
Proof.
  intros Hv. assert (H0 : 0 <= v) by lia. revert Hv. induction (Z.lt_wf 0 v) as [v _ IH]. intros Hv.
  destruct (Z.lt_decidable v 10) as [Hlt|Hge].
  - rewrite udec_small by done. split; [split|].
    + constructor; [|done]. apply is_digit_spec. unfold ch_0. lia.
    + unfold ch_0, ch_1. lia.
    + change (dval [ch_0 + v]) with (0 * 10 + (ch_0 + v - ch_0)). lia.
  - rewrite udec_step by lia. pose proof (Z.mod_pos_bound v 10 ltac:(lia)).
    destruct (IH (v / 10)) as [[Hd Hh] Hval].
    { split; [apply Z.div_pos|apply Z.div_lt]; lia. } { apply Z.div_pos; lia. }
    { apply Z.div_le_lower_bound; lia. }
    split; [split|].
    + apply Forall_app. split; [done|]. constructor; [|done]. apply is_digit_spec. unfold ch_0. lia.
    + by destruct (udec (v / 10)).
    + rewrite dval_snoc, Hval. pose proof (Z.div_mod v 10). unfold ch_0. lia.
Qed.

(** ** Its length *)

Lemma udec_length n : forall v, 0 <= v ->
  10 ^ Z.of_nat n <= v < 10 ^ Z.of_nat (S n) -> length (udec v) = S n.
Proof.
  induction n as [|n IH]; intros v H0 Hv.
  - rewrite udec_small by (simpl in Hv; lia). done.
  - rewrite !Nat2Z.inj_succ, !Z.pow_succ_r in Hv by lia.
    assert (0 < 10 ^ Z.of_nat n) by (apply Z.pow_pos_nonneg; lia).
    rewrite udec_step by lia. rewrite length_app, IH; [simpl; lia|apply Z.div_pos; lia|].
    rewrite Nat2Z.inj_succ, Z.pow_succ_r by lia.
    split; [apply Z.div_le_lower_bound|apply Z.div_lt_upper_bound]; lia.
Qed.

Lemma udec_length_le n : forall v, 0 <= v < 10 ^ Z.of_nat (S n) -> (length (udec v) <= S n)%nat.
Proof.
  induction n as [|n IH]; intros v Hv.
  - rewrite udec_small by (simpl in Hv; lia). done.
  - destruct (Z.lt_decidable v 10); [rewrite udec_small by lia; simpl; lia|].
    rewrite udec_step, length_app by lia. simpl. specialize (IH (v / 10)).
    rewrite Nat2Z.inj_succ, Z.pow_succ_r in Hv by lia.
    assert (0 <= v / 10 < 10 ^ Z.of_nat (S n))
      by (split; [apply Z.div_pos|apply Z.div_lt_upper_bound]; lia).
    specialize (IH ltac:(done)). lia.
Qed.

(** * [string2ll] accepts exactly the canonical strings *)

Lemma string2ll_loop_spec p : forall v v', urange 64 v ->
  string2ll_loop p v = Some (v', []) <->
  Forall (fun d => is_digit d = true) p /\ v' = dval_from v p /\ dval_from v p <= ULLONG_MAX.
Proof.
  induction p as [|c p IH]; intros v v' Hv; cbn [string2ll_loop].
  { unfold urange in Hv. unfold ULLONG_MAX, dval_from. simpl. split; [intros [= <-]|intros (_ & -> & _)].
    - split_and!; [constructor|done|lia].
    - done. }
  change (dval_from v (c :: p)) with (dval_from (v * 10 + (c - ch_0)) p).
  destruct (is_digit c) eqn:Hc.
  2:{ split; [done|]. intros [Hf _]. inversion Hf. congruence. }
  apply is_digit_spec in Hc as Hr. unfold urange in Hv.
  pose proof (dval_from_mono p (v * 10 + (c - ch_0))) as Hm. unfold ULLONG_MAX, ch_0 in *.
  destruct (Z.gtb_spec v ((2 ^ 64 - 1) / 10)) as [Hgt|Hle].
  { split; [done|]. intros (Hf & _ & Hmax). inversion_clear Hf. specialize (Hm ltac:(lia) ltac:(done)).
    assert ((2 ^ 64 - 1) / 10 + 1 <= v) by lia. change ((2 ^ 64 - 1) / 10) with 1844674407370955161 in *. lia. }
  change ((2 ^ 64 - 1) / 10) with 1844674407370955161 in *.
  rewrite (uwrap_small 64 (v * 10)) by (unfold urange; lia).
  destruct (Z.gtb_spec (v * 10) (2 ^ 64 - 1 - (c - 48))) as [Hgt'|Hle'].
  { split; [done|]. intros (Hf & _ & Hmax). inversion_clear Hf. specialize (Hm ltac:(lia) ltac:(done)). lia. }
  rewrite uwrap_small by (unfold urange; lia). rewrite IH by (unfold urange; lia).
  split; intros (Hf & ? & ?); split_and!; try done.
  - by constructor.
  - by inversion Hf.
Qed.

Lemma dval_cons_from d p : dval (d :: p) = dval_from (d - ch_0) p.
Proof. done. Qed.

(** The part of the function after the sign, for a magnitude bounded by [m]. *)
Lemma string2ll_magnitude d p v :
  (ch_1 <= d <= ch_9) ->
  string2ll_loop p (u64 (d - ch_0)) = Some (v, []) <->
  canonical (d :: p) /\ v = dval (d :: p) /\ dval (d :: p) <= ULLONG_MAX.
Proof.
  intros Hd. unfold ch_1, ch_9, ch_0 in *. rewrite uwrap_small by (unfold urange; lia).
  rewrite string2ll_loop_spec by (unfold urange; lia). rewrite dval_cons_from. unfold ch_0.
  unfold canonical, ch_1. split; intros (Hf & ? & ?).
  - split_and!; try (done || lia). constructor; [|done]. apply is_digit_spec. lia.
  - destruct Hf as [Hf _]. inversion_clear Hf. done.
Qed.

Lemma sdec_udec_neg v : 1 <= v -> sdec (- v) = ch_minus :: udec v.
Proof. intros Hv. unfold sdec. rewrite (proj2 (Z.ltb_lt _ _)) by lia. by rewrite Z.opp_involutive. Qed.

Lemma sdec_udec_pos v : 0 <= v -> sdec v = udec v.
Proof. intros Hv. unfold sdec. by rewrite (proj2 (Z.ltb_ge _ _)) by lia. Qed.

Lemma string2ll_sound s z : string2ll s = Some z -> s = sdec z /\ srange 64 z.
Proof.
  unfold string2ll. destruct (_ || _); [done|]. destruct s as [|c s']; [done|].
  destruct (_ && _) eqn:E0.
  { intros [= <-]. apply andb_prop in E0 as [El Ec]. apply Z.eqb_eq in El, Ec. subst c.
    destruct s'; [|simpl in El; lia]. done. }
  destruct (Z.eqb_spec c ch_minus) as [->|Hneg].
  - destruct s' as [|d p]; [done|]. destruct ((ch_1 <=? d) && (d <=? ch_9)) eqn:Ed; [|done].
    destruct (string2ll_loop p _) as [[v [|? ?]]|] eqn:El; cbn [mbind option_bind]; [|done..].
    apply string2ll_magnitude in El as (Hc & -> & Hm); [|lia]. pose proof (canonical_pos _ Hc).
    destruct (Z.gtb_spec (dval (d :: p)) (u64 (- (LLONG_MIN + 1)) + 1)) as [|Hle]; [done|].
    change (u64 (- (LLONG_MIN + 1)) + 1) with (2 ^ 63) in Hle. intros [= <-].
    rewrite swrap_uwrap, swrap_small by (unfold srange; simpl; lia).
    split; [|unfold srange; simpl; lia]. rewrite sdec_udec_neg by done. by rewrite udec_dval.
  - destruct ((ch_1 <=? c) && (c <=? ch_9)) eqn:Ed; [|done].
    destruct (string2ll_loop s' _) as [[v [|? ?]]|] eqn:El; cbn [mbind option_bind]; [|done..].
    apply string2ll_magnitude in El as (Hc & -> & Hm); [|lia]. pose proof (canonical_pos _ Hc).
    destruct (Z.gtb_spec (dval (c :: s')) LLONG_MAX) as [|Hle]; [done|]. unfold LLONG_MAX in Hle.
    intros [= <-]. rewrite swrap_small by (unfold srange; simpl; lia).
    split; [|unfold srange; simpl; lia]. rewrite sdec_udec_pos by lia. by rewrite udec_dval.
Qed.

Lemma string2ll_complete z : srange 64 z -> string2ll (sdec z) = Some z.
Proof.
  intros Hz. unfold srange in Hz. simpl in Hz.
  destruct (decide (z = 0)) as [->|Hz0]; [done|].
  assert (Hlen : forall v, 1 <= v <= 2 ^ 63 -> (length (udec v) <= 19)%nat)
    by (intros v Hv; apply (udec_length_le 18); simpl; lia).
  unfold string2ll. destruct (Z.lt_decidable z 0) as [Hneg|Hpos].
  - replace z with (- (- z)) by lia. set (v := - z) in *. rewrite sdec_udec_neg by lia.
    destruct (udec_canonical v ltac:(lia)) as [Hc Hval]. specialize (Hlen v ltac:(lia)).
    destruct (udec v) as [|d p]; [by destruct Hc|].
    rewrite (proj2 (orb_false_iff _ _)) by (rewrite Z.geb_leb; unfold LONG_STR_SIZE; cbn [length] in *; lia).
    cbn [length]. pose proof Hc as [Hf Hh]. inversion_clear Hf as [|? ? Hd Hf'].
    apply is_digit_spec in Hd. change (ch_minus =? ch_minus) with true.
    change (ch_minus =? ch_0) with false. rewrite andb_false_r. unfold ch_1, ch_9 in *.
    rewrite (proj2 (andb_true_iff _ _)) by lia.
    rewrite (proj2 (string2ll_magnitude d p v ltac:(unfold ch_1, ch_9; lia))) by (unfold ULLONG_MAX; split_and!; try (done || lia)).
    cbn [mbind option_bind]. change (u64 (- (LLONG_MIN + 1)) + 1) with (2 ^ 63).
    destruct (Z.gtb_spec v (2 ^ 63)); [lia|].
    by rewrite swrap_uwrap, swrap_small by (unfold srange; simpl; lia).
  - rewrite sdec_udec_pos by lia.
    destruct (udec_canonical z ltac:(lia)) as [Hc Hval]. specialize (Hlen z ltac:(lia)).
    destruct (udec z) as [|d p]; [by destruct Hc|].
    rewrite (proj2 (orb_false_iff _ _)) by (rewrite Z.geb_leb; unfold LONG_STR_SIZE; cbn [length] in *; lia).
    pose proof Hc as [Hf Hh]. inversion_clear Hf as [|? ? Hd Hf'].
    apply is_digit_spec in Hd. unfold ch_1 in Hh.
    rewrite (proj2 (Z.eqb_neq d ch_0)), andb_false_r, (proj2 (Z.eqb_neq d ch_minus))
      by (unfold ch_0, ch_minus; lia).
    rewrite (proj2 (andb_true_iff _ _)) by (unfold ch_1, ch_9; lia).
    rewrite (proj2 (string2ll_magnitude d p z ltac:(unfold ch_1, ch_9; lia))) by (unfold ULLONG_MAX; split_and!; try (done || lia)).
    cbn [mbind option_bind]. unfold LLONG_MAX. destruct (Z.gtb_spec z (2 ^ 63 - 1)); [lia|].
    by rewrite swrap_small by (unfold srange; simpl; lia).
Qed.

(** * [digits10] is the length of the canonical string *)

Lemma udec_length_Z n v : 0 <= v -> 0 <= n -> 10 ^ n <= v < 10 ^ (n + 1) ->
  Z.of_nat (length (udec v)) = n + 1.
Proof.
  intros Hv Hn Hr. rewrite (udec_length (Z.to_nat n)); [lia|done|].
  rewrite Nat2Z.inj_succ, Z2Nat.id by lia. done.
Qed.

Ltac digits_case n := rewrite (udec_length_Z n) by (simpl; lia); lia.

Lemma digits10_small v : 1 <= v < 10 ^ 12 -> forall fuel,
  digits10_fuel (S fuel) v = Z.of_nat (length (udec v)).
Proof.
  intros Hv fuel. simpl in Hv. cbn [digits10_fuel]. unfold b2z.
  repeat match goal with |- context [if ?a <? ?b then _ else _] => destruct (Z.ltb_spec a b) end;
  repeat match goal with |- context [if ?a >=? ?b then _ else _] => destruct (Z.geb_spec a b) end;
  first [lia | digits_case 0 | digits_case 1 | digits_case 2 | digits_case 3 | digits_case 4
    | digits_case 5 | digits_case 6 | digits_case 7 | digits_case 8 | digits_case 9
    | digits_case 10 | digits_case 11].
Qed.

Lemma udec_length_div k v : (0 < k)%nat -> 10 ^ Z.of_nat k <= v ->
  length (udec v) = (k + length (udec (v / 10 ^ Z.of_nat k)))%nat.
Proof.
  intros Hk. revert v. induction k as [|k IH]; [lia|]. intros v Hv.
  rewrite Nat2Z.inj_succ, Z.pow_succ_r in * by lia.
  pose proof (Z.pow_pos_nonneg 10 (Z.of_nat k) ltac:(lia) ltac:(lia)).
  rewrite udec_step, length_app by lia. simpl.
  destruct k as [|k].
  - change (10 * 10 ^ Z.of_nat 0) with 10. lia.
  - rewrite IH; [|lia|apply Z.div_le_lower_bound; lia].
    rewrite Z.div_div by lia. lia.
Qed.

Lemma digits10_correct v : urange 64 v -> digits10 v = Z.of_nat (length (udec v)).
Proof.
  intros [H0 H1]. destruct (decide (v = 0)) as [->|]; [done|]. unfold digits10.
  destruct (Z.lt_decidable v (10 ^ 12)) as [Hlt|Hge]; [apply digits10_small; lia|].
  cbn [digits10_fuel]. simpl (10 ^ 12) in Hge.
  repeat match goal with |- context [v <? ?b] => rewrite (proj2 (Z.ltb_ge v b)) by lia end.
  rewrite (udec_length_div 12) by (simpl; lia). change (10 ^ Z.of_nat 12) with 1000000000000.
  rewrite Nat2Z.inj_add, <- (digits10_small _) with (fuel := 0%nat); [done|]. simpl.
  split; [apply Z.div_le_lower_bound|apply Z.div_lt_upper_bound]; lia.
Qed.

(** * [ull2string] and [ll2string] write the canonical string *)

Lemma digit_at_even k : 0 <= k < 100 ->
  digit_at (k * 2) = Some (ch_0 + k / 10) /\ digit_at (k * 2 + 1) = Some (ch_0 + k mod 10).
Proof.
  intros Hk.
  assert (Hall : forallb (fun n => let k := Z.of_nat n in
    bool_decide (digit_at (k * 2) = Some (ch_0 + k / 10) /\
                 digit_at (k * 2 + 1) = Some (ch_0 + k mod 10))) (seq 0 100) = true)
    by (vm_compute; reflexivity).
  rewrite forallb_forall in Hall. specialize (Hall (Z.to_nat k)). rewrite Z2Nat.id in Hall by lia.
  cbv zeta in Hall. rewrite bool_decide_eq_true in Hall. apply Hall, in_seq. lia.
Qed.

Lemma udec_step2 v : 100 <= v ->
  udec v = udec (v / 100) ++ [ch_0 + v mod 100 / 10; ch_0 + v mod 100 mod 10].
Proof.
  intros Hv. rewrite udec_step, udec_step by (try apply Z.div_le_lower_bound; lia).
  assert (v / 10 mod 10 = v mod 100 / 10) as -> by (Z.div_mod_to_equations; lia).
  assert (v mod 10 = v mod 100 mod 10) as -> by (Z.div_mod_to_equations; lia).
  by rewrite Z.div_div, <- app_assoc by lia.
Qed.

Lemma put_app a x s c : put (a ++ x :: s) (Z.of_nat (length a)) c = Some (a ++ c :: s).
Proof.
  unfold put. rewrite (proj2 (Z.leb_le _ _)) by lia. cbn [guard mbind option_bind].
  rewrite Nat2Z.id. exact (store_app a [x] s (length a) [c] eq_refl eq_refl).
Qed.

Lemma udec_nonempty v : (0 < length (udec v))%nat.
Proof.
  destruct (Z.lt_decidable v 10); [rewrite udec_small by done; simpl; lia|].
  rewrite udec_step, length_app by lia. simpl. lia.
Qed.

Lemma ull2string_loop_eq fuel dst value next :
  ull2string_loop (S fuel) dst value next =
    if value >=? 100 then
      d1 ← digit_at (value mod 100 * 2 + 1);
      dst ← put dst next d1;
      d0 ← digit_at (value mod 100 * 2);
      dst ← put dst (u32 (next - 1)) d0;
      ull2string_loop fuel dst (value / 100) (u32 (next - 2))
    else Some (dst, value, next).
Proof. done. Qed.

Lemma ull2string_loop_correct fuel : forall value A S,
  0 <= value < 100 ^ Z.of_nat fuel * 100 -> Z.of_nat (length A) < 2 ^ 32 ->
  length A = length (udec value) ->
  exists A' value' T,
    ull2string_loop (Datatypes.S fuel) (A ++ S) value (Z.of_nat (length A) - 1)
    = Some (A' ++ T ++ S, value', Z.of_nat (length A') - 1) /\
    udec value = udec value' ++ T /\ length A' = length (udec value') /\
    (length A' <= length A)%nat /\ 0 <= value' < 100.
Proof.
  induction fuel as [|fuel IH]; intros value A S Hv HA Hl; rewrite ull2string_loop_eq;
    destruct (Z.geb_spec value 100) as [Hge|Hlt].
  1: simpl in Hv; lia.
  1, 3: exists A, value, []; rewrite app_nil_r; by (split_and!; (done || lia)).
  pose proof (Z.mod_pos_bound value 100 ltac:(lia)) as Hmod.
  destruct (digit_at_even (value mod 100) Hmod) as [-> ->]. cbn [mbind option_bind].
  rewrite udec_step2, length_app in Hl by lia. cbn [length] in Hl.
  pose proof (udec_nonempty (value / 100)) as Hne.
  destruct A as [|y A1 _] using rev_ind; [simpl in Hl; lia|].
  destruct A1 as [|x A0 _] using rev_ind; [simpl in Hl; lia|].
  rewrite !length_app in *. cbn [length] in *.
  replace (Z.of_nat (length A0 + 1 + 1) - 1) with (Z.of_nat (length (A0 ++ [x])))
    by (rewrite length_app; simpl; lia).
  rewrite <- (app_assoc _ [y]). cbn [app]. rewrite put_app. cbn [mbind option_bind].
  rewrite length_app. cbn [length]. rewrite !uwrap_small by (unfold urange; lia).
  replace (Z.of_nat (length A0 + 1) - 1) with (Z.of_nat (length A0)) by lia.
  rewrite <- (app_assoc _ [x]). cbn [app]. rewrite put_app. cbn [mbind option_bind].
  replace (Z.of_nat (length A0 + 1) - 2) with (Z.of_nat (length A0) - 1) by lia.
  destruct (IH (value / 100) A0 (ch_0 + value mod 100 / 10 :: ch_0 + value mod 100 mod 10 :: S))
    as (A' & v' & T & HL & HT & HlA & HlA' & Hv').
  { rewrite Nat2Z.inj_succ, Z.pow_succ_r in Hv by lia.
    split; [apply Z.div_pos|apply Z.div_lt_upper_bound]; lia. } { lia. } { lia. }
  exists A', v', (T ++ [ch_0 + value mod 100 / 10; ch_0 + value mod 100 mod 10]).
  split_and!; try (done || lia).
  - rewrite <- app_assoc. exact HL.
  - rewrite udec_step2, HT, <- app_assoc by lia. done.
Qed.

Lemma ull2string_ok dst dstlen v :
  urange 64 v -> Z.of_nat (length dst) = dstlen -> Z.of_nat (length (udec v)) < dstlen ->
  ull2string dst dstlen v
  = Some (udec v ++ 0 :: drop (S (length (udec v))) dst, Z.of_nat (length (udec v))).
Proof.
  intros Hv Hd Hl. unfold ull2string. rewrite digits10_correct by done.
  assert (Hn20 : (length (udec v) <= 20)%nat) by (apply (udec_length_le 19); unfold urange in Hv; simpl; lia).
  pose proof (udec_nonempty v) as Hne. set (n := length (udec v)) in *.
  destruct (Z.geb_spec (Z.of_nat n) dstlen); [lia|].
  rewrite (uwrap_small 32 (Z.of_nat n - 1)), uwrap_small by (unfold urange; rewrite ?uwrap_small by (unfold urange; lia); lia).
  destruct (lookup_lt_is_Some_2 dst n) as [x Hx]; [lia|].
  assert (Hta : length (take n dst) = n) by (rewrite length_take; lia).
  rewrite <- (take_drop_middle dst n x Hx) at 1.
  replace (Z.of_nat n - 1 + 1) with (Z.of_nat (length (take n dst))) by lia.
  rewrite put_app. cbn [mbind option_bind].
  replace (Z.of_nat n - 1) with (Z.of_nat (length (take n dst)) - 1) by lia.
  destruct (ull2string_loop_correct 19 v (take n dst) (0 :: drop (S n) dst))
    as (A' & v' & T & -> & HT & HA' & HlA & Hv'); [unfold urange in Hv; simpl; lia|lia|done|].
  cbn [mbind option_bind]. rewrite (uwrap_small 32 v') by (unfold urange; lia).
  destruct (Z.ltb_spec v' 10) as [Hlt|Hge].
  - rewrite (udec_small v') in HA', HT by lia. destruct A' as [|a [|b A']]; simpl in HA'; try lia.
    change (put ([a] ++ T ++ 0 :: drop (S n) dst) (Z.of_nat (length [a]) - 1))
      with (put ([] ++ a :: T ++ 0 :: drop (S n) dst) (Z.of_nat (length (@nil Z)))).
    rewrite put_app. cbn [mbind option_bind]. by rewrite HT.
  - destruct (digit_at_even v' ltac:(lia)) as [-> ->]. cbn [mbind option_bind].
    rewrite (udec_step v'), (udec_small (v' / 10)) in HA', HT by (try apply Z.div_lt_upper_bound; lia).
    destruct A' as [|a [|b [|c A']]]; simpl in HA'; try lia.
    change (put ([a; b] ++ T ++ 0 :: drop (S n) dst) (Z.of_nat (length [a; b]) - 1))
      with (put ([a] ++ b :: T ++ 0 :: drop (S n) dst) (Z.of_nat (length [a]))).
    rewrite put_app. cbn [mbind option_bind].
    change (u32 (Z.of_nat (length [a; b]) - 1 - 1)) with (Z.of_nat (length (@nil Z))).
    change ([a] ++ ?l) with ([] ++ a :: l). rewrite put_app. cbn [mbind option_bind]. rewrite HT. rewrite <- ?app_assoc. done.
Qed.

Lemma tostring_err_ok dst dstlen :
  Z.of_nat (length dst) = dstlen -> exists dst', tostring_err dst dstlen = Some (dst', 0).
Proof.
  intros Hd. unfold tostring_err. destruct (Z.gtb_spec dstlen 0); [|by eexists].
  destruct dst as [|x dst]; [simpl in *; lia|].
  change (put (x :: dst) 0) with (put ([] ++ x :: dst) (Z.of_nat (length (@nil Z)))).
  rewrite put_app. by eexists.
Qed.

Lemma ull2string_err dst dstlen v :
  urange 64 v -> Z.of_nat (length dst) = dstlen -> dstlen <= Z.of_nat (length (udec v)) ->
  exists dst', ull2string dst dstlen v = Some (dst', 0).
Proof.
  intros Hv Hd Hl. unfold ull2string. rewrite digits10_correct by done.
  destruct (Z.geb_spec (Z.of_nat (length (udec v))) dstlen); [|lia]. by apply tostring_err_ok.
Qed.

Lemma neg_magnitude v : srange 64 v -> v < 0 ->
  (if negb (v =? LLONG_MIN) then u64 (- v) else u64 (LLONG_MAX + 1)) = - v /\ urange 64 (- v).
Proof.
  intros Hv Hneg. unfold srange in Hv. simpl in Hv.
  destruct (Z.eqb_spec v LLONG_MIN) as [->|]; [done|]. cbn [negb].
  rewrite uwrap_small; unfold urange; lia.
Qed.

Lemma sdec_bytes z : bytes_ok (sdec z).
Proof.
  assert (Hu : forall v, 0 <= v -> bytes_ok (udec v)).
  { intros v Hv. destruct (decide (v = 0)) as [->|]; [repeat constructor; by vm_compute|]. destruct (udec_canonical v ltac:(lia)) as [[Hd _] _]. eapply Forall_impl; [exact Hd|]. intros d Hdd%is_digit_spec. unfold urange. lia. }
  unfold sdec. destruct (Z.ltb_spec z 0); [constructor; [by vm_compute|]|]; apply Hu; lia.
Qed.

Lemma sdec_length_le v : srange 64 v -> (length (sdec v) <= 20)%nat.
Proof.
  intros Hv. unfold srange in Hv. simpl in Hv. unfold sdec. destruct (Z.ltb_spec v 0); cbn [length].
  - pose proof (udec_length_le 18 (- v)) as H'. simpl in H'. specialize (H' ltac:(lia)). lia.
  - pose proof (udec_length_le 19 v) as H'. simpl in H'. specialize (H' ltac:(lia)). lia.
Qed.

Lemma sdigits10_correct v : srange 64 v -> sdigits10 v = Z.of_nat (length (sdec v)).
Proof.
  intros Hv. unfold sdec, sdigits10. destruct (Z.ltb_spec v 0) as [Hneg|Hpos].
  - destruct (neg_magnitude v Hv Hneg) as [-> Hr]. cbn [length]. rewrite digits10_correct by done. lia.
  - rewrite digits10_correct; [done|]. unfold srange in Hv; simpl in Hv; split; lia.
Qed.

Lemma ll2string_fits dst dstlen v :
  srange 64 v -> Z.of_nat (length dst) = dstlen -> Z.of_nat (length (sdec v)) < dstlen ->
  ll2string dst dstlen v
  = Some (sdec v ++ 0 :: drop (S (length (sdec v))) dst, Z.of_nat (length (sdec v))).
Proof.
  intros Hv Hd Hl. revert Hl. unfold sdec, ll2string. destruct (Z.ltb_spec v 0) as [Hneg|Hpos]; intros Hl.
  - destruct (neg_magnitude v Hv Hneg) as [-> Hr]. cbn [length] in *. pose proof (udec_nonempty (- v)).
    destruct (Z.ltb_spec dstlen 2); [lia|]. destruct dst as [|x dst]; [simpl in *; lia|].
    change (put (x :: dst) 0) with (put ([] ++ x :: dst) (Z.of_nat (length (@nil Z)))).
    rewrite put_app. cbn [mbind option_bind app head tail].
    rewrite ull2string_ok by (done || simpl in *; lia). cbn [mbind option_bind].
    destruct (Z.eqb_spec (Z.of_nat (length (udec (- v)))) 0); [lia|]. cbn [drop]. do 2 f_equal. lia.
  - assert (Hr : urange 64 v) by (unfold srange in Hv; simpl in Hv; split; lia).
    pose proof (udec_nonempty v). rewrite ull2string_ok by done. cbn [mbind option_bind].
    by destruct (Z.eqb_spec (Z.of_nat (length (udec v))) 0); [lia|].
Qed.

Lemma ll2string_short dst dstlen v :
  srange 64 v -> Z.of_nat (length dst) = dstlen -> dstlen <= Z.of_nat (length (sdec v)) ->
  exists dst', ll2string dst dstlen v = Some (dst', 0).
Proof.
  intros Hv Hd Hl. revert Hl. unfold sdec, ll2string. destruct (Z.ltb_spec v 0) as [Hneg|Hpos]; intros Hl.
  - destruct (neg_magnitude v Hv Hneg) as [-> Hr]. cbn [length] in *.
    destruct (Z.ltb_spec dstlen 2); [by apply tostring_err_ok|].
    destruct dst as [|x dst]; [simpl in *; lia|].
    change (put (x :: dst) 0) with (put ([] ++ x :: dst) (Z.of_nat (length (@nil Z)))).
    rewrite put_app. cbn [mbind option_bind app head tail].
    destruct (ull2string_err dst (dstlen - 1) (- v)) as [dst' ->]; [done|simpl in *; lia|lia|].
    by eexists.
  - assert (Hr : urange 64 v) by (unfold srange in Hv; simpl in Hv; split; lia).
    destruct (ull2string_err dst dstlen v) as [dst' ->]; [done..|]. by eexists.
Qed.

(** C32. [ll2string] on a buffer of [dstlen] bytes: when the canonical decimal
    string of the 64 bit value and its terminator fit, the function writes them
    at the start of the buffer, leaves the rest unchanged and returns the
    length; otherwise it returns 0. It never writes outside the buffer, and the
    length is the one [sdigits10] announces. *)
Theorem ll2string_correct dst dstlen v :
  srange 64 v -> Z.of_nat (length dst) = dstlen ->
  let n := length (sdec v) in
  sdigits10 v = Z.of_nat n /\
  (Z.of_nat n < dstlen ->
     ll2string dst dstlen v = Some (sdec v ++ 0 :: drop (S n) dst, Z.of_nat n)) /\
  (dstlen <= Z.of_nat n -> exists dst', ll2string dst dstlen v = Some (dst', 0)).
Proof.
  intros Hv Hd n. split_and!; [by apply sdigits10_correct|by apply ll2string_fits|by apply ll2string_short].
Qed.

Lemma lpStringToInt64_loop_eq p v : lpStringToInt64_loop p v = string2ll_loop p v.
Proof.
  revert v. induction p as [|c p IH]; intros v; [done|].
  cbn [lpStringToInt64_loop string2ll_loop]. change UINT64_MAX with ULLONG_MAX.
  by rewrite IH.
Qed.

Lemma lpStringToInt64_eq s : lpStringToInt64 s = string2ll s.
Proof.
  unfold lpStringToInt64, string2ll. destruct (_ || _); [done|]. destruct s as [|c s']; [done|].
  destruct (_ && _); [done|]. destruct (if c =? ch_minus then s' else c :: s'); [done|].
  by rewrite lpStringToInt64_loop_eq.
Qed.

(** C33. [string2ll] and its copy [lpStringToInt64] accept a string exactly when
    it is the canonical decimal string of an integer of 64 bits (no spaces, no
    plus sign, no leading zero, no overflow), and then return that integer: a
    number read this way prints back as the same string. *)
Theorem string2ll_exact s z :
  (string2ll s = Some z <-> s = sdec z /\ srange 64 z) /\
  (lpStringToInt64 s = Some z <-> s = sdec z /\ srange 64 z).
Proof.
  assert (H : string2ll s = Some z <-> s = sdec z /\ srange 64 z).
  { split; [apply string2ll_sound|]. intros [-> Hz]. by apply string2ll_complete. }
  split; [exact H|]. pose proof (lpStringToInt64_eq s) as E. rewrite <- H.
  split; intros Hs; [by rewrite <- E|by rewrite E].
Qed.

(** * Concrete instances *)

Lemma ll2string_witness :
  let n := length (sdec (-9223372036854775808)) in
  sdigits10 (-9223372036854775808) = Z.of_nat n /\
  (Z.of_nat n < 21 ->
     ll2string (replicate 21 7) 21 (-9223372036854775808)
     = Some (sdec (-9223372036854775808) ++ 0 :: drop (S n) (replicate 21 7), Z.of_nat n)) /\
  (21 <= Z.of_nat n -> exists dst', ll2string (replicate 21 7) 21 (-9223372036854775808) = Some (dst', 0)).
Proof.
  apply (ll2string_correct (replicate 21 7) 21 (-9223372036854775808)).
  - unfold srange. simpl. lia.
  - reflexivity.
Defined.

End Util.
