(* ===== verification/ListpackEnc.v ===== *)
(** The entries of a listpack: the first part of listpack.c.

    An entry is an encoding byte with its length bytes and its data, followed
    by a variable length field that gives the size of all that and is read
    backwards.  The theorems are about one entry: every string is read back as
    it was stored, the two decoders agree, and the sizes the code computes from
    the first byte are those of the bytes that were written. *)

From S2P Require Import Prelude Util.

Module Lp.
Import Util.

Definition LP_HDR_SIZE : nat := 6.
Definition LP_HDR_NUMELE_UNKNOWN : Z := 65535.
Definition LP_EOF : Z := 255.
Definition LP_INTBUF_SIZE : Z := 21.
Definition UINT32_MAX : Z := 2 ^ 32 - 1.
Definition UINT16_MAX : Z := 65535.

Definition LP_ENCODING_IS_7BIT_UINT (b : Z) : bool := Z.land b 0x80 =? 0.
Definition LP_ENCODING_IS_6BIT_STR (b : Z) : bool := Z.land b 0xC0 =? 0x80.
Definition LP_ENCODING_IS_13BIT_INT (b : Z) : bool := Z.land b 0xE0 =? 0xC0.
Definition LP_ENCODING_IS_12BIT_STR (b : Z) : bool := Z.land b 0xF0 =? 0xE0.
Definition LP_ENCODING_IS_16BIT_INT (b : Z) : bool := Z.land b 0xFF =? 0xF1.
Definition LP_ENCODING_IS_24BIT_INT (b : Z) : bool := Z.land b 0xFF =? 0xF2.
Definition LP_ENCODING_IS_32BIT_INT (b : Z) : bool := Z.land b 0xFF =? 0xF3.
Definition LP_ENCODING_IS_64BIT_INT (b : Z) : bool := Z.land b 0xFF =? 0xF4.
Definition LP_ENCODING_IS_32BIT_STR (b : Z) : bool := Z.land b 0xFF =? 0xF0.

(** ** Encoding *)

(** The bytes stored in [intenc]; [*enclen] is their number. *)
Definition lpEncodeIntegerGetType (v : Z) : bytes :=
  if (v >=? 0) && (v <=? 127) then [u8 v]
  else if (v >=? -4096) && (v <=? 4095) then
    let v := if v <? 0 then Z.shiftl 1 13 + v else v in
    [u8 (Z.lor (Z.shiftr v 8) 0xC0); Z.land v 0xff]
  else if (v >=? -32768) && (v <=? 32767) then
    let v := if v <? 0 then Z.shiftl 1 16 + v else v in
    [0xF1; Z.land v 0xff; u8 (Z.shiftr v 8)]
  else if (v >=? -8388608) && (v <=? 8388607) then
    let v := if v <? 0 then Z.shiftl 1 24 + v else v in
    [0xF2; Z.land v 0xff; Z.land (Z.shiftr v 8) 0xff; u8 (Z.shiftr v 16)]
  else if (v >=? -2147483648) && (v <=? 2147483647) then
    let v := if v <? 0 then Z.shiftl 1 32 + v else v in
    [0xF3; Z.land v 0xff; Z.land (Z.shiftr v 8) 0xff; Z.land (Z.shiftr v 16) 0xff;
     u8 (Z.shiftr v 24)]
  else
    let uv := u64 v in
    [0xF4; Z.land uv 0xff; Z.land (Z.shiftr uv 8) 0xff; Z.land (Z.shiftr uv 16) 0xff;
     Z.land (Z.shiftr uv 24) 0xff; Z.land (Z.shiftr uv 32) 0xff; Z.land (Z.shiftr uv 40) 0xff;
     Z.land (Z.shiftr uv 48) 0xff; u8 (Z.shiftr uv 56)].

(** [inl intenc] is LP_ENCODING_INT, [inr enclen] is LP_ENCODING_STRING. *)
Definition lpEncodeGetType (ele : bytes) : bytes + Z :=
  let size := Z.of_nat (length ele) in
  match lpStringToInt64 ele with
  | Some v => inl (lpEncodeIntegerGetType v)
  | None =>
    inr (if size <? 64 then 1 + size else if size <? 4096 then 2 + size else 5 + size)
  end.

Definition lpEncodeBacklen (l : Z) : bytes :=
  if l <=? 127 then [u8 l]
  else if l <? 16383 then [u8 (Z.shiftr l 7); Z.lor (Z.land l 127) 128]
  else if l <? 2097151 then
    [u8 (Z.shiftr l 14); Z.lor (Z.land (Z.shiftr l 7) 127) 128; Z.lor (Z.land l 127) 128]
  else if l <? 268435455 then
    [u8 (Z.shiftr l 21); Z.lor (Z.land (Z.shiftr l 14) 127) 128;
     Z.lor (Z.land (Z.shiftr l 7) 127) 128; Z.lor (Z.land l 127) 128]
  else
    [u8 (Z.shiftr l 28); Z.lor (Z.land (Z.shiftr l 21) 127) 128;
     Z.lor (Z.land (Z.shiftr l 14) 127) 128; Z.lor (Z.land (Z.shiftr l 7) 127) 128;
     Z.lor (Z.land l 127) 128].

Definition lpEncodeBacklenBytes (l : Z) : Z :=
  if l <=? 127 then 1
  else if l <? 16383 then 2
  else if l <? 2097151 then 3
  else if l <? 268435455 then 4
  else 5.

(** The bytes written at [buf]. *)
Definition lpEncodeString (s : bytes) : bytes :=
  let len := Z.of_nat (length s) in
  if len <? 64 then u8 (Z.lor len 0x80) :: s
  else if len <? 4096 then u8 (Z.lor (Z.shiftr len 8) 0xE0) :: Z.land len 0xff :: s
  else
    0xF0 :: Z.land len 0xff :: Z.land (Z.shiftr len 8) 0xff :: Z.land (Z.shiftr len 16) 0xff
         :: Z.land (Z.shiftr len 24) 0xff :: s.

(** ** Decoding

    A pointer into the block [m] is an offset; [m !! p] is [p[0]]. *)

(** The [do ... while(1)] loop, with [p] moving backwards: at most five bytes. *)
Fixpoint lpDecodeBacklen_loop (fuel : nat) (m : bytes) (p : Z) (val shift : Z) : option Z :=
  match fuel with
  | O => None
  | S fuel =>
    _ ← guard (0 <=? p);
    b ← m !! Z.to_nat p;
    let val := Z.lor val (u64 (Z.shiftl (Z.land b 127) shift)) in
    if Z.land b 128 =? 0 then Some val
    else
      let shift := shift + 7 in
      if shift >? 28 then Some UINT64_MAX
      else lpDecodeBacklen_loop fuel m (p - 1) val shift
  end.

Definition lpDecodeBacklen (m : bytes) (p : Z) : option Z := lpDecodeBacklen_loop 5 m p 0 0.

Definition LP_ENCODING_6BIT_STR_LEN (b : Z) : Z := Z.land b 0x3F.

Definition LP_ENCODING_12BIT_STR_LEN (m : bytes) (p : nat) : option Z :=
  b0 ← m !! p; b1 ← m !! (p + 1)%nat;
  Some (Z.lor (Z.shiftl (Z.land b0 0xF) 8) b1).

Definition LP_ENCODING_32BIT_STR_LEN (m : bytes) (p : nat) : option Z :=
  b1 ← m !! (p + 1)%nat; b2 ← m !! (p + 2)%nat; b3 ← m !! (p + 3)%nat; b4 ← m !! (p + 4)%nat;
  Some (Z.lor (Z.lor (Z.lor (Z.shiftl b1 0) (Z.shiftl b2 8)) (Z.shiftl b3 16)) (Z.shiftl b4 24)).

Definition lpCurrentEncodedSizeUnsafe (m : bytes) (p : nat) : option Z :=
  b ← m !! p;
  if LP_ENCODING_IS_7BIT_UINT b then Some 1
  else if LP_ENCODING_IS_6BIT_STR b then Some (1 + LP_ENCODING_6BIT_STR_LEN b)
  else if LP_ENCODING_IS_13BIT_INT b then Some 2
  else if LP_ENCODING_IS_16BIT_INT b then Some 3
  else if LP_ENCODING_IS_24BIT_INT b then Some 4
  else if LP_ENCODING_IS_32BIT_INT b then Some 5
  else if LP_ENCODING_IS_64BIT_INT b then Some 9
  else if LP_ENCODING_IS_12BIT_STR b then l ← LP_ENCODING_12BIT_STR_LEN m p; Some (2 + l)
  else if LP_ENCODING_IS_32BIT_STR b then l ← LP_ENCODING_32BIT_STR_LEN m p; Some (u32 (5 + l))
  else if b =? LP_EOF then Some 1
  else Some 0.

Definition lpCurrentEncodedSizeBytes (encoding : Z) : Z :=
  if LP_ENCODING_IS_7BIT_UINT encoding then 1
  else if LP_ENCODING_IS_6BIT_STR encoding then 1
  else if LP_ENCODING_IS_13BIT_INT encoding then 1
  else if LP_ENCODING_IS_16BIT_INT encoding then 1
  else if LP_ENCODING_IS_24BIT_INT encoding then 1
  else if LP_ENCODING_IS_32BIT_INT encoding then 1
  else if LP_ENCODING_IS_64BIT_INT encoding then 1
  else if LP_ENCODING_IS_12BIT_STR encoding then 2
  else if LP_ENCODING_IS_32BIT_STR encoding then 5
  else if encoding =? LP_EOF then 1
  else 0.

(** What [lpGet] returns: a string inside the listpack (offset and length), or
    NULL with the integer in [*count]. *)
Inductive lpvalue := LStr (off : nat) (count : Z) | LInt (val : Z).

(** [p[1] | p[2]<<8 | ... ] over [n] bytes. *)
Fixpoint get_le (m : bytes) (p n : nat) (shift : Z) : option Z :=
  match n with
  | O => Some 0
  | S n => b ← m !! p; r ← get_le m (S p) n (shift + 8); Some (Z.lor (Z.shiftl b shift) r)
  end.

(** The conversion of [uval] to a signed value. *)
Definition lp_signed (uval negstart negmax : Z) : Z :=
  if uval >=? negstart then
    let uval := u64 (negmax - uval) in
    let val := s64 uval in
    - val - 1
  else s64 uval.

Definition lpGetWithBuf (m : bytes) (p : nat) : option lpvalue :=
  encoding ← m !! p;
  if LP_ENCODING_IS_6BIT_STR encoding then
    Some (LStr (p + 1) (LP_ENCODING_6BIT_STR_LEN encoding))
  else if LP_ENCODING_IS_12BIT_STR encoding then
    count ← LP_ENCODING_12BIT_STR_LEN m p; Some (LStr (p + 2) count)
  else if LP_ENCODING_IS_32BIT_STR encoding then
    count ← LP_ENCODING_32BIT_STR_LEN m p; Some (LStr (p + 5) count)
  else
    '(uval, negstart, negmax) ←
      (if LP_ENCODING_IS_7BIT_UINT encoding then
         Some (Z.land encoding 0x7f, UINT64_MAX, 0)
       else if LP_ENCODING_IS_13BIT_INT encoding then
         b1 ← m !! (p + 1)%nat;
         Some (Z.lor (Z.shiftl (Z.land encoding 0x1f) 8) b1, Z.shiftl 1 12, 8191)
       else if LP_ENCODING_IS_16BIT_INT encoding then
         u ← get_le m (p + 1) 2 0; Some (u, Z.shiftl 1 15, UINT16_MAX)
       else if LP_ENCODING_IS_24BIT_INT encoding then
         u ← get_le m (p + 1) 3 0; Some (u, Z.shiftl 1 23, Z.shiftr UINT32_MAX 8)
       else if LP_ENCODING_IS_32BIT_INT encoding then
         u ← get_le m (p + 1) 4 0; Some (u, Z.shiftl 1 31, UINT32_MAX)
       else if LP_ENCODING_IS_64BIT_INT encoding then
         u ← get_le m (p + 1) 8 0; Some (u, Z.shiftl 1 63, UINT64_MAX)
       else Some (12345678900000000 + encoding, UINT64_MAX, 0));
    Some (LInt (lp_signed uval negstart negmax)).

(** The value and [*entry_size]; the latter is not set for a bad encoding byte. *)
Definition lpGetWithSize (m : bytes) (p : nat) : option (lpvalue * option Z) :=
  b ← m !! p;
  if LP_ENCODING_IS_7BIT_UINT b then
    Some (LInt (lp_signed (Z.land b 0x7f) UINT64_MAX 0), Some 2)
  else if LP_ENCODING_IS_6BIT_STR b then
    let count := LP_ENCODING_6BIT_STR_LEN b in
    Some (LStr (p + 1) count, Some (1 + count + lpEncodeBacklenBytes (count + 1)))
  else if LP_ENCODING_IS_13BIT_INT b then
    b1 ← m !! (p + 1)%nat;
    Some (LInt (lp_signed (Z.lor (Z.shiftl (Z.land b 0x1f) 8) b1) (Z.shiftl 1 12) 8191), Some 3)
  else if LP_ENCODING_IS_16BIT_INT b then
    u ← get_le m (p + 1) 2 0;
    Some (LInt (lp_signed u (Z.shiftl 1 15) UINT16_MAX), Some 4)
  else if LP_ENCODING_IS_24BIT_INT b then
    u ← get_le m (p + 1) 3 0;
    Some (LInt (lp_signed u (Z.shiftl 1 23) (Z.shiftr UINT32_MAX 8)), Some 5)
  else if LP_ENCODING_IS_32BIT_INT b then
    u ← get_le m (p + 1) 4 0;
    Some (LInt (lp_signed u (Z.shiftl 1 31) UINT32_MAX), Some 6)
  else if LP_ENCODING_IS_64BIT_INT b then
    u ← get_le m (p + 1) 8 0;
    Some (LInt (lp_signed u (Z.shiftl 1 63) UINT64_MAX), Some 10)
  else if LP_ENCODING_IS_12BIT_STR b then
    count ← LP_ENCODING_12BIT_STR_LEN m p;
    Some (LStr (p + 2) count, Some (2 + count + lpEncodeBacklenBytes (count + 2)))
  else if LP_ENCODING_IS_32BIT_STR b then
    count ← LP_ENCODING_32BIT_STR_LEN m p;
    Some (LStr (p + 5) count, Some (5 + count + lpEncodeBacklenBytes (count + 5)))
  else
    Some (LInt (lp_signed (12345678900000000 + b) UINT64_MAX 0), None).

Definition lpGet (m : bytes) (p : nat) : option lpvalue := lpGetWithBuf m p.

(** [lpGet] with an [intbuf]: the element always comes as a string.  The buffer
    holds [LP_INTBUF_SIZE] bytes of any content. *)
Definition lpGet_intbuf (intbuf : bytes) (m : bytes) (p : nat) : option bytes :=
  v ← lpGet m p;
  match v with
  | LStr off count => load m off (Z.to_nat count)
  | LInt val => '(buf, n) ← ll2string intbuf LP_INTBUF_SIZE val; load buf 0 (Z.to_nat n)
  end.

(** [inl (vstr, slen)] or [inr lval]. *)
Definition lpGetValue (m : bytes) (p : nat) : option (nat * Z + Z) :=
  v ← lpGet m p;
  match v with
  | LStr off ele_len => Some (inl (off, u32 ele_len))
  | LInt ele_len => Some (inr ele_len)
  end.

Definition lpGetIntegerValue (m : bytes) (p : nat) : option (option Z) :=
  v ← lpGet m p;
  match v with
  | LInt ele_len => Some (Some ele_len)
  | LStr _ _ => Some None
  end.

Definition lpEntrySizeInteger (lval : Z) : Z :=
  let enclen := Z.of_nat (length (lpEncodeIntegerGetType lval)) in
  let backlen := lpEncodeBacklenBytes enclen in
  enclen + backlen.

Definition lpEstimateBytesRepeatedInteger (lval rep : Z) : Z :=
  u64 (Z.of_nat LP_HDR_SIZE + u64 (lpEntrySizeInteger lval * rep) + 1).

(** * The classes of encoding bytes *)

Lemma lp_classes b : urange 8 b ->
  LP_ENCODING_IS_7BIT_UINT b = (b <? 128) /\
  LP_ENCODING_IS_6BIT_STR b = ((128 <=? b) && (b <? 192)) /\
  LP_ENCODING_IS_13BIT_INT b = ((192 <=? b) && (b <? 224)) /\
  LP_ENCODING_IS_12BIT_STR b = ((224 <=? b) && (b <? 240)) /\
  LP_ENCODING_IS_32BIT_STR b = (b =? 240) /\
  LP_ENCODING_IS_16BIT_INT b = (b =? 241) /\
  LP_ENCODING_IS_24BIT_INT b = (b =? 242) /\
  LP_ENCODING_IS_32BIT_INT b = (b =? 243) /\
  LP_ENCODING_IS_64BIT_INT b = (b =? 244).
Proof.
  revert b. apply (byte_forall _). vm_compute. reflexivity.
Qed.

(** Replaces the class tests of the byte [b] by comparisons. *)
Ltac lp_class b Hb :=
  let H := fresh in
  pose proof (lp_classes b Hb) as H;
  destruct H as (-> & -> & -> & -> & -> & -> & -> & -> & ->).

(** Decides the comparisons that follow from the context. *)
Ltac cmp_by_lia :=
  repeat match goal with
  | |- context [?a <? ?b] =>
    first [rewrite (proj2 (Z.ltb_lt a b)) by lia | rewrite (proj2 (Z.ltb_ge a b)) by lia]
  | |- context [?a <=? ?b] =>
    first [rewrite (proj2 (Z.leb_le a b)) by lia | rewrite (proj2 (Z.leb_gt a b)) by lia]
  | |- context [?a =? ?b] =>
    first [rewrite (proj2 (Z.eqb_eq a b)) by lia | rewrite (proj2 (Z.eqb_neq a b)) by lia]
  end; cbn [andb orb negb].

Lemma lookup_mid (pre e suf : bytes) i b :
  e !! i = Some b -> (pre ++ e ++ suf) !! (length pre + i)%nat = Some b.
Proof.
  intros Hi. rewrite lookup_app_r by lia. rewrite Nat.add_comm, Nat.add_sub.
  apply lookup_app_l_Some, Hi.
Qed.

Lemma lookup_mid0 (pre e suf : bytes) b :
  e !! 0%nat = Some b -> (pre ++ e ++ suf) !! length pre = Some b.
Proof. intros Hi. rewrite <- (Nat.add_0_r (length pre)). by apply lookup_mid. Qed.

Lemma get_le_spec bs : forall pre suf shift,
  bytes_ok bs -> 0 <= shift ->
  get_le (pre ++ bs ++ suf) (length pre) (length bs) shift = Some (Z.shiftl (le_val bs) shift).
Proof.
  induction bs as [|b bs IH]; intros pre suf shift Hok Hs; cbn [get_le length le_val].
  - by rewrite Z.shiftl_0_l.
  - inversion_clear Hok as [|? ? Hb Hok']. rewrite (lookup_mid0 _ _ _ b) by done.
    cbn [mbind option_bind]. specialize (IH (pre ++ [b]) suf (shift + 8) Hok' ltac:(lia)).
    rewrite length_app, Nat.add_1_r, <- app_assoc in IH. cbn [app] in IH |- *. rewrite IH.
    cbn [mbind option_bind]. f_equal. rewrite Z.add_comm, <- Z.shiftl_shiftl, <- Z.shiftl_lor by lia.
    rewrite lor_shiftl_add by (done || lia). f_equal. change (2 ^ 8) with 256. lia.
Qed.

Lemma get_le_mid pre e suf x bs :
  e = x :: bs -> bytes_ok bs ->
  get_le (pre ++ e ++ suf) (length pre + 1) (length bs) 0 = Some (le_val bs).
Proof.
  intros -> Hok. pose proof (get_le_spec bs (pre ++ [x]) suf 0 Hok ltac:(lia)) as H.
  rewrite length_app, <- app_assoc, Z.shiftl_0_r in H. exact H.
Qed.

Lemma lp_signed_swrap w u :
  1 <= w <= 64 -> urange w u -> lp_signed u (2 ^ (w - 1)) (2 ^ w - 1) = swrap w u.
Proof.
  intros Hw [H0 H1]. unfold lp_signed. pose proof (pow2_half w ltac:(lia)) as Hh.
  pose proof (pow2_pos (w - 1) ltac:(lia)). pose proof (Z.pow_le_mono_r 2 (w - 1) 63 ltac:(lia) ltac:(lia)).
  pose proof (Z.pow_le_mono_r 2 w 64 ltac:(lia) ltac:(lia)).
  destruct (Z.geb_spec u (2 ^ (w - 1))) as [Hge|Hlt].
  - rewrite uwrap_small by (unfold urange; lia).
    rewrite swrap_small; [|lia|unfold srange; change (64 - 1) with 63; lia].
    unfold swrap. replace (u + 2 ^ (w - 1)) with (u - 2 ^ (w - 1) + 1 * 2 ^ w) by lia.
    rewrite Z_mod_plus_full, Z.mod_small by lia. lia.
  - rewrite swrap_small; [|lia|unfold srange; change (64 - 1) with 63; lia].
    by rewrite swrap_small by (unfold srange; lia).
Qed.

(** * Integers *)

Ltac le_shifts :=
  cbn [le_bytes]; rewrite ?land_255, !Z.shiftr_div_pow2, ?Z.div_div by lia; reflexivity.

Lemma le_shifts2 u : [Z.land u 255; u8 (Z.shiftr u 8)] = le_bytes 2 u.
Proof. le_shifts. Qed.
Lemma le_shifts3 u : [Z.land u 255; Z.land (Z.shiftr u 8) 255; u8 (Z.shiftr u 16)] = le_bytes 3 u.
Proof. le_shifts. Qed.
Lemma le_shifts4 u :
  [Z.land u 255; Z.land (Z.shiftr u 8) 255; Z.land (Z.shiftr u 16) 255; u8 (Z.shiftr u 24)]
  = le_bytes 4 u.
Proof. le_shifts. Qed.
Lemma le_shifts8 u :
  [Z.land u 255; Z.land (Z.shiftr u 8) 255; Z.land (Z.shiftr u 16) 255;
   Z.land (Z.shiftr u 24) 255; Z.land (Z.shiftr u 32) 255; Z.land (Z.shiftr u 40) 255;
   Z.land (Z.shiftr u 48) 255; u8 (Z.shiftr u 56)] = le_bytes 8 u.
Proof. le_shifts. Qed.

(** [if (v < 0) v = ((int64_t)1<<w)+v;] keeps the low bytes. *)
Lemma le_bytes_bias n v w : 8 * Z.of_nat n = w ->
  le_bytes n (if v <? 0 then Z.shiftl 1 w + v else v) = le_bytes n v.
Proof.
  intros Hn. destruct (v <? 0); [|done]. apply le_bytes_congr.
  rewrite Z.shiftl_mul_pow2, Z.mul_1_l, Hn by lia. apply uwrap_add_pow.
Qed.

(** The bytes of the thirteen bit encoding. *)
Lemma lp_13bit u : 0 <= u < 2 ^ 13 ->
  192 <= u8 (Z.lor (Z.shiftr u 8) 0xC0) < 224 /\
  Z.land (u8 (Z.lor (Z.shiftr u 8) 0xC0)) 0x1f * 256 + Z.land u 255 = u.
Proof.
  intros Hu. rewrite land_255, Z.shiftr_div_pow2 by lia. change (2 ^ 8) with 256.
  assert (Hq : 0 <= u / 256 < 32) by (split; [apply Z.div_pos|apply Z.div_lt_upper_bound]; lia).
  change 0xC0 with (6 * 2 ^ 5). rewrite lor_add by lia.
  rewrite uwrap_small by (unfold urange; lia). change 0x1f with (Z.ones 5).
  rewrite land_ones_mod, Z_mod_plus_full, Z.mod_small by lia.
  pose proof (Z.div_mod u 256). lia.
Qed.

(** The encodings of an integer: seven bits, thirteen bits, or a tag and a
    little-endian number. *)
Lemma lpEncodeInteger_cases v : srange 64 v ->
  (0 <= v <= 127 /\ lpEncodeIntegerGetType v = [v]) \/
  (-4096 <= v <= 4095 /\ exists b0 b1, lpEncodeIntegerGetType v = [b0; b1] /\
     192 <= b0 < 224 /\ urange 8 b1 /\ Z.land b0 0x1f * 256 + b1 = uwrap 13 v) \/
  (exists tag n, lpEncodeIntegerGetType v = tag :: le_bytes n v /\
     srange (8 * Z.of_nat n) v /\
     ((tag, n) = (0xF1, 2%nat) \/ (tag, n) = (0xF2, 3%nat) \/
      (tag, n) = (0xF3, 4%nat) \/ (tag, n) = (0xF4, 8%nat))).
Proof.
  intros Hv. unfold lpEncodeIntegerGetType.
  destruct ((v >=? 0) && (v <=? 127)) eqn:E7.
  { left. split; [lia|]. by rewrite uwrap_small by (unfold urange; lia). }
  right. destruct ((v >=? -4096) && (v <=? 4095)) eqn:E13.
  { left. split; [lia|]. set (u := if v <? 0 then Z.shiftl 1 13 + v else v).
    assert (Hu : u = uwrap 13 v).
    { unfold u. change (Z.shiftl 1 13) with (2 ^ 13). destruct (Z.ltb_spec v 0).
      - rewrite <- uwrap_add_pow, uwrap_small; [done|unfold urange; lia].
      - rewrite uwrap_small; [done|unfold urange; lia]. }
    pose proof (uwrap_range 13 v ltac:(lia)) as Hr. rewrite <- Hu in Hr |- *.
    destruct (lp_13bit u Hr) as [H1 H2]. eexists _, _. split_and!; [done|lia|lia| |done].
    rewrite land_255. apply Z.mod_pos_bound. lia. }
  right. destruct ((v >=? -32768) && (v <=? 32767)) eqn:E16.
  { exists 0xF1, 2%nat. rewrite le_shifts2, le_bytes_bias by done.
    split_and!; [done|unfold srange; simpl; lia|tauto]. }
  destruct ((v >=? -8388608) && (v <=? 8388607)) eqn:E24.
  { exists 0xF2, 3%nat. rewrite le_shifts3, le_bytes_bias by done.
    split_and!; [done|unfold srange; simpl; lia|tauto]. }
  destruct ((v >=? -2147483648) && (v <=? 2147483647)) eqn:E32.
  { exists 0xF3, 4%nat. rewrite le_shifts4, le_bytes_bias by done.
    split_and!; [done|unfold srange; simpl; lia|tauto]. }
  exists 0xF4, 8%nat. rewrite le_shifts8.
  split_and!; [|done|tauto]. f_equal. exact (le_bytes_uwrap 8 v).
Qed.

(** * Entries *)

(** The bytes of an entry without its backlen: what the first byte announces. *)
Definition enc_ok (e : bytes) : Prop :=
  bytes_ok e /\ e !! 0%nat <> Some LP_EOF /\ (0 < length e)%nat /\
  lpCurrentEncodedSizeUnsafe e 0 = Some (Z.of_nat (length e)).

(** The value of an entry, as [lpGet] gives it with and without [intbuf]. *)
Definition ent_val (e : bytes) : option (bytes + Z) :=
  v ← lpGet e 0;
  match v with
  | LStr off count => s ← load e off (Z.to_nat count); Some (inl s)
  | LInt val => Some (inr val)
  end.

Definition val_str (v : bytes + Z) : bytes :=
  match v with inl s => s | inr z => sdec z end.

(** The string of an entry. *)
Definition ent_str (e : bytes) : bytes :=
  match ent_val e with Some v => val_str v | None => [] end.

(** The encoded form of a string element. *)
Definition encode (s : bytes) : bytes :=
  match lpEncodeGetType s with
  | inl intenc => intenc
  | inr _ => lpEncodeString s
  end.

Lemma lp_enc_int_ok v : srange 64 v ->
  enc_ok (lpEncodeIntegerGetType v) /\ lpGet (lpEncodeIntegerGetType v) 0 = Some (LInt v).
Proof.
  intros Hv. unfold enc_ok, lpGet, lpGetWithBuf, lpCurrentEncodedSizeUnsafe.
  destruct (lpEncodeInteger_cases v Hv) as
    [(Hr & ->)|[(Hr & b0 & b1 & -> & Hb0 & Hb1 & Hval)|(tag & n & -> & Hr & Htag)]].
  - assert (Hb : urange 8 v) by (unfold urange; lia). cbn [lookup list_lookup mbind option_bind].
    lp_class v Hb. cmp_by_lia. cbn [mbind option_bind length].
    split_and!; [by constructor|unfold LP_EOF; intros [= ?]; lia|lia|done|].
    change 0x7f with 127. rewrite land_127, Z.mod_small by lia. unfold lp_signed, UINT64_MAX.
    destruct (Z.geb_spec v (2 ^ 64 - 1)); [lia|]. by rewrite swrap_small by done.
  - assert (Hb : urange 8 b0) by (unfold urange; lia). cbn [lookup list_lookup mbind option_bind].
    lp_class b0 Hb. cmp_by_lia. cbn [mbind option_bind length].
    split_and!; [by constructor; [|constructor; [|constructor]]|unfold LP_EOF; intros [= ?]; lia|lia|done|].
    change ([b0; b1] !! (0 + 1)%nat) with (Some b1). cbn [mbind option_bind].
    rewrite Z.lor_comm, lor_shiftl_add by (done || lia).
    change (2 ^ 8) with 256. rewrite Z.add_comm, Hval. change (Z.shiftl 1 12) with (2 ^ (13 - 1)).
    change 8191 with (2 ^ 13 - 1). rewrite lp_signed_swrap by (lia || apply uwrap_range; lia).
    rewrite swrap_uwrap, swrap_small by (unfold srange; simpl; lia). done.
  - pose proof (le_bytes_ok n v) as Hok. pose proof (le_bytes_length n v) as Hl.
    pose proof (get_le_mid [] (tag :: le_bytes n v) [] tag (le_bytes n v) eq_refl Hok) as Hg.
    rewrite app_nil_r, Hl, le_val_bytes in Hg. cbn [app length] in Hg.
    assert (Hb : urange 8 tag) by (destruct Htag as [[= -> ->]|[[= -> ->]|[[= -> ->]|[= -> ->]]]]; unfold urange; lia).
    cbn [lookup list_lookup mbind option_bind length]. rewrite Hl. lp_class tag Hb.
    pose proof (uwrap_range (8 * Z.of_nat n) v ltac:(lia)) as Hur.
    pose proof (lp_signed_swrap (8 * Z.of_nat n) (uwrap (8 * Z.of_nat n) v)) as Hs.
    assert (Hn : (0 < n)%nat) by (destruct Htag as [[= -> ->]|[[= -> ->]|[[= -> ->]|[= -> ->]]]]; lia).
    rewrite swrap_uwrap, swrap_small in Hs by (done || lia).
    assert (bytes_ok (tag :: le_bytes n v)) by (by constructor).
    destruct Htag as [[= -> ->]|[[= -> ->]|[[= -> ->]|[= -> ->]]]];
      cbn [Z.ltb Z.leb Z.eqb Z.compare Pos.compare Pos.compare_cont Pos.eqb andb mbind option_bind];
      (split; [split_and!; [done|done|lia|done]|]);
      rewrite Hg; cbn [mbind option_bind]; do 2 f_equal; apply Hs; (exact Hur || lia).
Qed.

(** * Strings *)

Lemma lp_len6 n : 0 <= n < 64 ->
  128 <= u8 (Z.lor n 0x80) < 192 /\ LP_ENCODING_6BIT_STR_LEN (u8 (Z.lor n 0x80)) = n.
Proof.
  intros Hn. change 0x80 with (2 * 2 ^ 6). rewrite lor_add by lia.
  rewrite uwrap_small by (unfold urange; lia). split; [lia|].
  unfold LP_ENCODING_6BIT_STR_LEN. change 0x3F with (Z.ones 6).
  by rewrite land_ones_mod, Z_mod_plus_full, Z.mod_small by lia.
Qed.

Lemma lp_len12 n : 0 <= n < 4096 ->
  let b := u8 (Z.lor (Z.shiftr n 8) 0xE0) in
  224 <= b < 240 /\ Z.lor (Z.shiftl (Z.land b 0xF) 8) (Z.land n 0xff) = n.
Proof.
  intros Hn. rewrite Z.shiftr_div_pow2 by lia. change (2 ^ 8) with 256.
  assert (Hq : 0 <= n / 256 < 16) by (split; [apply Z.div_pos|apply Z.div_lt_upper_bound]; lia).
  change 0xE0 with (14 * 2 ^ 4). rewrite lor_add by lia.
  rewrite uwrap_small by (unfold urange; lia). cbn zeta. split; [lia|].
  change 0xF with (Z.ones 4). rewrite land_ones_mod, Z_mod_plus_full, (Z.mod_small _ (2 ^ 4)) by lia.
  change 0xff with 255. rewrite land_255, Z.lor_comm.
  rewrite lor_shiftl_add by (try apply Z.mod_pos_bound; lia).
  pose proof (Z.div_mod n 256). lia.
Qed.

Lemma le_shifts4' u :
  [Z.land u 255; Z.land (Z.shiftr u 8) 255; Z.land (Z.shiftr u 16) 255; Z.land (Z.shiftr u 24) 255]
  = le_bytes 4 u.
Proof. le_shifts. Qed.

(** The 32 bit length is what [get_le] reads. *)
Lemma LP_32BIT_get_le m p : LP_ENCODING_32BIT_STR_LEN m p = get_le m (p + 1) 4 0.
Proof.
  unfold LP_ENCODING_32BIT_STR_LEN. cbn [get_le]. cbn [Z.add Pos.add Pos.succ].
  replace (S (p + 1)) with (p + 2)%nat by lia. replace (S (p + 2)) with (p + 3)%nat by lia.
  replace (S (p + 3)) with (p + 4)%nat by lia.
  destruct (m !! (p + 1)%nat), (m !! (p + 2)%nat), (m !! (p + 3)%nat), (m !! (p + 4)%nat);
    cbn [mbind option_bind]; try done.
  by rewrite Z.lor_0_r, !Z.lor_assoc.
Qed.

Lemma lp_enc_str_ok s : bytes_ok s -> Z.of_nat (length s) + 5 < 2 ^ 32 ->
  let e := lpEncodeString s in
  enc_ok e /\ exists off, lpGet e 0 = Some (LStr off (Z.of_nat (length s))) /\
    (length e = off + length s)%nat /\ drop off e = s.
Proof.
  intros Hok Hlen. pose proof (Nat2Z.is_nonneg (length s)) as H0.
  unfold enc_ok, lpGet, lpGetWithBuf, lpCurrentEncodedSizeUnsafe, lpEncodeString. cbn zeta.
  set (n := Z.of_nat (length s)) in *. destruct (Z.ltb_spec n 64) as [Hs|Hs].
  { destruct (lp_len6 n ltac:(lia)) as [Hb Hv]. set (b := u8 (Z.lor n 128)) in *.
    assert (Hu : urange 8 b) by (unfold urange; lia).
    cbn [lookup list_lookup mbind option_bind length]. lp_class b Hu. cmp_by_lia. rewrite Hv.
    split; [split_and!|by exists 1%nat].
    - by constructor. - unfold LP_EOF; intros [= ?]; lia. - lia. - f_equal; lia. }
  destruct (Z.ltb_spec n 4096) as [Hs'|Hs'].
  { destruct (lp_len12 n ltac:(lia)) as [Hb Hv]. set (b := u8 (Z.lor (Z.shiftr n 8) 224)) in *.
    assert (Hu : urange 8 b) by (unfold urange; lia).
    cbn [lookup list_lookup mbind option_bind length]. lp_class b Hu. cmp_by_lia.
    unfold LP_ENCODING_12BIT_STR_LEN. cbn [lookup list_lookup Nat.add mbind option_bind]. rewrite Hv.
    split; [split_and!|by exists 2%nat].
    - constructor; [done|constructor; [|done]]. change 0xff with 255. rewrite land_255. apply Z.mod_pos_bound; lia.
    - unfold LP_EOF; intros [= ?]; lia. - lia. - f_equal; lia. }
  change 0xff with 255.
  change (240 :: Z.land n 255 :: Z.land (Z.shiftr n 8) 255 :: Z.land (Z.shiftr n 16) 255
              :: Z.land (Z.shiftr n 24) 255 :: s)
    with (240 :: [Z.land n 255; Z.land (Z.shiftr n 8) 255; Z.land (Z.shiftr n 16) 255;
              Z.land (Z.shiftr n 24) 255] ++ s).
  rewrite le_shifts4'. pose proof (le_bytes_ok 4 n) as Hb. pose proof (le_bytes_length 4 n) as Hl.
  assert (Hg : LP_ENCODING_32BIT_STR_LEN (240 :: le_bytes 4 n ++ s) 0 = Some n).
  { rewrite LP_32BIT_get_le. rewrite <- Hl at 2.
    pose proof (get_le_spec (le_bytes 4 n) [240] s 0 Hb ltac:(lia)) as Hg. cbn [app length] in Hg.
    change (0 + 1)%nat with 1%nat. rewrite Hg, Z.shiftl_0_r, le_val_bytes.
    by rewrite uwrap_small by (unfold urange; change (8 * Z.of_nat 4) with 32; lia). }
  assert (Hu : urange 8 240) by (by unfold urange).
  change ((240 :: le_bytes 4 n ++ s) !! 0%nat) with (Some 240). cbn [mbind option_bind].
  lp_class 240 Hu. cmp_by_lia. rewrite Hg. cbn [mbind option_bind].
  rewrite uwrap_small by (unfold urange; lia). cbn [length]. rewrite length_app, Hl.
  split; [split_and!|exists 5%nat; split_and!].
  - constructor; [done|]. by apply Forall_app. - done. - lia. - f_equal. lia.
  - done. - lia. - cbn [drop]. by rewrite <- Hl at 1; rewrite drop_app_length.
Qed.

(** * An entry inside a listpack *)

(** The value of an entry, at an offset of [k] bytes. *)
Definition lpv_shift (k : nat) (v : lpvalue) : lpvalue :=
  match v with LStr off count => LStr (k + off) count | LInt z => LInt z end.

Lemma get_le_local pre e suf n : forall k shift r,
  get_le e k n shift = Some r -> get_le (pre ++ e ++ suf) (length pre + k) n shift = Some r.
Proof.
  induction n as [|n IH]; intros k shift r; cbn [get_le]; [done|].
  destruct (e !! k) as [b|] eqn:Hk; [|done]. rewrite (lookup_mid pre e suf k b Hk).
  cbn [mbind option_bind]. destruct (get_le e (S k) n (shift + 8)) as [r'|] eqn:Hr; [|done].
  rewrite <- Nat.add_succ_r. by rewrite (IH _ _ _ Hr).
Qed.

Lemma len12_local pre e suf r :
  LP_ENCODING_12BIT_STR_LEN e 0 = Some r ->
  LP_ENCODING_12BIT_STR_LEN (pre ++ e ++ suf) (length pre) = Some r.
Proof.
  unfold LP_ENCODING_12BIT_STR_LEN. destruct (e !! 0%nat) as [b|] eqn:H0; [|done].
  rewrite (lookup_mid0 pre e suf b H0). cbn [mbind option_bind].
  destruct (e !! (0 + 1)%nat) as [b1|] eqn:H1; [|done]. by rewrite (lookup_mid pre e suf 1 b1 H1).
Qed.

Lemma len32_local pre e suf r :
  LP_ENCODING_32BIT_STR_LEN e 0 = Some r ->
  LP_ENCODING_32BIT_STR_LEN (pre ++ e ++ suf) (length pre) = Some r.
Proof. rewrite !LP_32BIT_get_le. apply get_le_local. Qed.

Lemma enc_size_local pre e suf r :
  lpCurrentEncodedSizeUnsafe e 0 = Some r ->
  lpCurrentEncodedSizeUnsafe (pre ++ e ++ suf) (length pre) = Some r.
Proof.
  unfold lpCurrentEncodedSizeUnsafe. destruct (e !! 0%nat) as [b|] eqn:H0; [|done].
  rewrite (lookup_mid0 pre e suf b H0). cbn [mbind option_bind].
  repeat case_match; try done.
  - destruct (LP_ENCODING_12BIT_STR_LEN e 0) as [l|] eqn:Hl; [|done]. by rewrite (len12_local _ _ _ l).
  - destruct (LP_ENCODING_32BIT_STR_LEN e 0) as [l|] eqn:Hl; [|done]. by rewrite (len32_local _ _ _ l).
Qed.

Lemma lpGet_local pre e suf v :
  lpGet e 0 = Some v -> lpGet (pre ++ e ++ suf) (length pre) = Some (lpv_shift (length pre) v).
Proof.
  unfold lpGet, lpGetWithBuf. destruct (e !! 0%nat) as [b|] eqn:H0; [|done].
  rewrite (lookup_mid0 pre e suf b H0). cbn [mbind option_bind].
  destruct (LP_ENCODING_IS_6BIT_STR b); [by intros [= <-]|].
  destruct (LP_ENCODING_IS_12BIT_STR b).
  { destruct (LP_ENCODING_12BIT_STR_LEN e 0) as [r|] eqn:Hr; [|done].
    rewrite (len12_local pre e suf r Hr). by intros [= <-]. }
  destruct (LP_ENCODING_IS_32BIT_STR b).
  { destruct (LP_ENCODING_32BIT_STR_LEN e 0) as [r|] eqn:Hr; [|done].
    rewrite (len32_local pre e suf r Hr). by intros [= <-]. }
  destruct (LP_ENCODING_IS_7BIT_UINT b); [by intros [= <-]|].
  destruct (LP_ENCODING_IS_13BIT_INT b).
  { destruct (e !! (0 + 1)%nat) as [b1|] eqn:H1; [|done].
    rewrite (lookup_mid pre e suf 1 b1 H1). by intros [= <-]. }
  repeat match goal with
  | |- context [if ?c then _ else _] => destruct c;
    [match goal with |- context [get_le e (0 + 1) ?n 0] =>
       destruct (get_le e (0 + 1) n 0) as [r|] eqn:Hr; [|done];
       rewrite (get_le_local pre e suf n 1 0 r Hr); by intros [= <-] end|]
  end. by intros [= <-].
Qed.

Lemma lpGetWithSize_local pre e suf v sz :
  lpGetWithSize e 0 = Some (v, sz) ->
  lpGetWithSize (pre ++ e ++ suf) (length pre) = Some (lpv_shift (length pre) v, sz).
Proof.
  unfold lpGetWithSize. destruct (e !! 0%nat) as [b|] eqn:H0; [|done].
  rewrite (lookup_mid0 pre e suf b H0). cbn [mbind option_bind].
  destruct (LP_ENCODING_IS_7BIT_UINT b); [by intros [= <- <-]|].
  destruct (LP_ENCODING_IS_6BIT_STR b); [by intros [= <- <-]|].
  destruct (LP_ENCODING_IS_13BIT_INT b).
  { destruct (e !! (0 + 1)%nat) as [b1|] eqn:H1; [|done].
    rewrite (lookup_mid pre e suf 1 b1 H1). by intros [= <- <-]. }
  do 4 match goal with
  | |- context [if ?c then _ else _] => destruct c;
    [match goal with |- context [get_le e (0 + 1) ?n 0] =>
       destruct (get_le e (0 + 1) n 0) as [r|] eqn:Hr; [|done];
       rewrite (get_le_local pre e suf n 1 0 r Hr); by intros [= <- <-] end|]
  end.
  destruct (LP_ENCODING_IS_12BIT_STR b).
  { destruct (LP_ENCODING_12BIT_STR_LEN e 0) as [r|] eqn:Hr; [|done].
    rewrite (len12_local pre e suf r Hr). by intros [= <- <-]. }
  destruct (LP_ENCODING_IS_32BIT_STR b).
  { destruct (LP_ENCODING_32BIT_STR_LEN e 0) as [r|] eqn:Hr; [|done].
    rewrite (len32_local pre e suf r Hr). by intros [= <- <-]. }
  by intros [= <- <-].
Qed.

Lemma load_local pre e suf off n s :
  load e off n = Some s -> load (pre ++ e ++ suf) (length pre + off) n = Some s.
Proof.
  unfold load. case_decide as H; [|done]. intros [= <-].
  rewrite decide_True by (rewrite !length_app; lia). f_equal.
  rewrite <- drop_drop, drop_app_length, drop_app_le by lia.
  apply take_app_le. rewrite length_drop. lia.
Qed.

Lemma get_le_Some e n : forall k shift, (k + n <= length e)%nat -> bytes_ok e -> 0 <= shift ->
  exists r, get_le e k n shift = Some r /\ 0 <= r.
Proof.
  induction n as [|n IH]; intros k shift Hl Hok Hs; cbn [get_le]; [by exists 0|].
  destruct (lookup_lt_is_Some_2 e k ltac:(lia)) as [b Hb]. rewrite Hb.
  destruct (IH (S k) (shift + 8) ltac:(lia) Hok ltac:(lia)) as (r & -> & Hr).
  cbn [mbind option_bind]. eexists. split; [done|]. apply Z.lor_nonneg. split; [|done].
  apply Z.shiftl_nonneg. eapply Forall_lookup_1 in Hok; [|exact Hb]. by destruct Hok.
Qed.

Lemma get_le_bound e n k shift r : get_le e k n shift = Some r -> (0 < n)%nat -> (k + n <= length e)%nat.
Proof.
  revert k shift r. induction n as [|n IH]; intros k shift r; [lia|]. cbn [get_le].
  destruct (e !! k) as [b|] eqn:Hb; [|done]. apply lookup_lt_Some in Hb. cbn [mbind option_bind].
  destruct (get_le e (S k) n (shift + 8)) as [r'|] eqn:Hr; [|done]. intros _ _.
  destruct n; [lia|]. apply IH in Hr; lia.
Qed.

(** * The length field read backwards *)

Lemma backlen_bits b shift : urange 8 b -> 0 <= shift <= 28 ->
  u64 (Z.shiftl (Z.land b 127) shift) = Z.shiftl (b mod 128) shift.
Proof.
  intros Hb Hs. rewrite land_127. apply uwrap_small. pose proof (Z.mod_pos_bound b 128 ltac:(lia)).
  pose proof (Z.pow_le_mono_r 2 shift 28 ltac:(lia) ltac:(lia)).
  pose proof (pow2_pos shift ltac:(lia)). rewrite Z.shiftl_mul_pow2 by lia. unfold urange. nia.
Qed.

Lemma backlen_high b : urange 8 b -> (Z.land b 128 =? 0) = (b <? 128).
Proof. revert b. apply (byte_forall _). vm_compute. reflexivity. Qed.

Lemma backlen_digit x : let b := Z.lor (Z.land x 127) 128 in 128 <= b < 256 /\ b mod 128 = x mod 128.
Proof.
  cbn zeta. rewrite land_127. pose proof (Z.mod_pos_bound x 128 ltac:(lia)).
  change (Z.lor (x mod 128) 128) with (Z.lor (x mod 128) (1 * 2 ^ 7)). rewrite lor_add by lia.
  split; [lia|]. rewrite Z.add_mod_idemp_l by lia. change (1 * 2 ^ 7) with (1 * 128). apply Z_mod_plus_full.
Qed.

(** One turn of the loop: seven more bits of [l]. *)
Lemma backlen_step f m p l shift :
  0 <= p -> 0 <= l -> 0 <= shift <= 21 ->
  m !! Z.to_nat p = Some (Z.lor (Z.land (Z.shiftr l shift) 127) 128) ->
  lpDecodeBacklen_loop (S f) m p (l mod 2 ^ shift) shift
  = lpDecodeBacklen_loop f m (p - 1) (l mod 2 ^ (shift + 7)) (shift + 7).
Proof.
  intros Hp Hl Hs Hb. cbn [lpDecodeBacklen_loop].
  rewrite (proj2 (Z.leb_le 0 p)) by lia. cbn [guard mbind option_bind]. rewrite Hb. cbn [mbind option_bind].
  destruct (backlen_digit (Z.shiftr l shift)) as [Hr Hm].
  set (b := Z.lor _ 128) in *. assert (Hu : urange 8 b) by (unfold urange; lia).
  rewrite backlen_high by done. cmp_by_lia.
  destruct (Z.gtb_spec (shift + 7) 28); [lia|].
  rewrite backlen_bits by (done || lia). f_equal. rewrite Hm.
  rewrite lor_shiftl_add by (try apply Z.mod_pos_bound; try apply pow2_pos; lia).
  rewrite Z.pow_add_r, Z.shiftr_div_pow2 by lia. change (2 ^ 7) with 128.
  rewrite Z.rem_mul_r by (try apply Z.pow_nonzero; lia). lia.
Qed.

Lemma backlen_last f m p l shift :
  0 <= p -> 0 <= l < 2 ^ (shift + 7) -> 0 <= shift <= 28 ->
  m !! Z.to_nat p = Some (u8 (Z.shiftr l shift)) ->
  lpDecodeBacklen_loop (S f) m p (l mod 2 ^ shift) shift = Some l.
Proof.
  intros Hp Hl Hs Hb. cbn [lpDecodeBacklen_loop].
  rewrite (proj2 (Z.leb_le 0 p)) by lia. cbn [guard mbind option_bind]. rewrite Hb. cbn [mbind option_bind].
  rewrite Z.shiftr_div_pow2 by lia. pose proof (pow2_pos shift ltac:(lia)).
  assert (Hq : 0 <= l / 2 ^ shift < 128).
  { split; [apply Z.div_pos; lia|apply Z.div_lt_upper_bound; [lia|]].
    rewrite Z.pow_add_r in Hl by lia. lia. }
  rewrite (uwrap_small 8) by (unfold urange; lia).
  rewrite backlen_high by (unfold urange; lia). cmp_by_lia.
  rewrite backlen_bits by (unfold urange; lia). rewrite (Z.mod_small _ 128) by lia.
  rewrite lor_shiftl_add by (try apply Z.mod_pos_bound; lia).
  f_equal. pose proof (Z.div_mod l (2 ^ shift)). lia.
Qed.

Lemma lpEncodeBacklen_length l : Z.of_nat (length (lpEncodeBacklen l)) = lpEncodeBacklenBytes l.
Proof. unfold lpEncodeBacklen, lpEncodeBacklenBytes. by repeat case_match. Qed.

Lemma lpEncodeBacklenBytes_bound l : 1 <= lpEncodeBacklenBytes l <= 5.
Proof. unfold lpEncodeBacklenBytes. repeat case_match; lia. Qed.

Lemma lpEncodeBacklen_ok l : bytes_ok (lpEncodeBacklen l).
Proof.
  assert (Hd : forall x, urange 8 (Z.lor (Z.land x 127) 128)).
  { intros x. pose proof (backlen_digit x) as H. unfold urange. cbn zeta in H. lia. }
  unfold lpEncodeBacklen.
  repeat case_match; repeat constructor; try apply Hd; apply uwrap_range; lia.
Qed.

Ltac look H i := apply (H i); [by rewrite ?Z.shiftr_0_r|lia].

Lemma lpDecodeBacklen_encode pre l suf : 0 <= l < 2 ^ 35 ->
  lpDecodeBacklen (pre ++ lpEncodeBacklen l ++ suf)
    (Z.of_nat (length pre) + lpEncodeBacklenBytes l - 1) = Some l.
Proof.
  intros Hl. set (m := pre ++ _ ++ suf). set (p := _ - 1).
  enough (lpDecodeBacklen_loop 5 m p (l mod 2 ^ 0) 0 = Some l) as H by by rewrite Z.mod_1_r in H.
  assert (Hlook : forall i k b, lpEncodeBacklen l !! i = Some b -> k = Z.of_nat (length pre) + Z.of_nat i ->
    m !! Z.to_nat k = Some b).
  { intros i k b Hi ->. rewrite <- Nat2Z.inj_add, Nat2Z.id. by apply lookup_mid. }
  clearbody m. subst p. revert Hlook. unfold lpEncodeBacklen, lpEncodeBacklenBytes.
  destruct (Z.leb_spec l 127); [|destruct (Z.ltb_spec l 16383);
    [|destruct (Z.ltb_spec l 2097151); [|destruct (Z.ltb_spec l 268435455)]]]; intros Hlook.
  - apply backlen_last; [simpl; lia..|]. look Hlook 0%nat.
  - rewrite backlen_step; [|lia..|look Hlook 1%nat].
    apply backlen_last; [simpl; lia..|]. look Hlook 0%nat.
  - rewrite backlen_step; [|lia..|look Hlook 2%nat]. rewrite backlen_step; [|lia..|look Hlook 1%nat].
    apply backlen_last; [simpl; lia..|]. look Hlook 0%nat.
  - rewrite backlen_step; [|lia..|look Hlook 3%nat]. rewrite backlen_step; [|lia..|look Hlook 2%nat].
    rewrite backlen_step; [|lia..|look Hlook 1%nat].
    apply backlen_last; [simpl; lia..|]. look Hlook 0%nat.
  - rewrite backlen_step; [|lia..|look Hlook 4%nat]. rewrite backlen_step; [|lia..|look Hlook 3%nat].
    rewrite backlen_step; [|lia..|look Hlook 2%nat]. rewrite backlen_step; [|lia..|look Hlook 1%nat].
    apply backlen_last; [simpl; lia..|]. look Hlook 0%nat.
Qed.

(** * Reading an entry *)

(** The first byte of a well formed entry, by cases. *)
Lemma enc_ok_first e : enc_ok e ->
  exists b, e !! 0%nat = Some b /\ urange 8 b /\ b < 245.
Proof.
  intros (Hok & Heof & Hl & Hs). destruct (lookup_lt_is_Some_2 e 0 Hl) as [b Hb].
  assert (Hu : urange 8 b) by (eapply Forall_lookup_1 in Hok; done).
  exists b. split_and!; [done..|]. unfold lpCurrentEncodedSizeUnsafe in Hs. rewrite Hb in Hs, Heof.
  cbn [mbind option_bind] in Hs. unfold LP_EOF in *.
  destruct (Z.lt_decidable b 245); [done|]. exfalso. revert Hs. lp_class b Hu.
  cmp_by_lia. destruct (Z.eqb_spec b 255); [intros; congruence|]. intros [= ?]. lia.
Qed.

Lemma len12_nonneg e n : bytes_ok e -> LP_ENCODING_12BIT_STR_LEN e 0 = Some n -> 0 <= n.
Proof.
  intros Hok. unfold LP_ENCODING_12BIT_STR_LEN.
  destruct (e !! 0%nat) as [b0|] eqn:H0; [|done]. destruct (e !! (0 + 1)%nat) as [b1|] eqn:H1; [|done].
  intros [= <-]. eapply Forall_lookup_1 in H0; [|done]. eapply Forall_lookup_1 in H1; [|done].
  destruct H0, H1. apply Z.lor_nonneg. split; [|done]. apply Z.shiftl_nonneg, Z.land_nonneg. lia.
Qed.

Lemma len32_bound e n : bytes_ok e -> LP_ENCODING_32BIT_STR_LEN e 0 = Some n ->
  urange 32 n /\ (5 <= length e)%nat.
Proof.
  intros Hok Hn. rewrite LP_32BIT_get_le in Hn. apply get_le_bound in Hn as Hl; [|lia].
  split; [|lia]. destruct e as [|x e]; [simpl in Hl; lia|]. inversion_clear Hok.
  assert (Ht : bytes_ok (take 4 e)) by (by apply Forall_take).
  assert (Hl4 : length (take 4 e) = 4%nat) by (rewrite length_take; simpl in Hl; lia).
  pose proof (get_le_spec (take 4 e) [x] (drop 4 e) 0 Ht ltac:(lia)) as Hg.
  rewrite take_drop, Hl4, Z.shiftl_0_r in Hg. cbn [app length] in Hg. change (0 + 1)%nat with 1%nat in Hn.
  rewrite Hn in Hg. injection Hg as ->. pose proof (le_val_range _ Ht) as Hr. by rewrite Hl4 in Hr.
Qed.

(** [lpGetWithSize] reads the same value as [lpGet], and gives the size of the
    entry with its backlen. *)
Lemma enc_ok_get e : enc_ok e ->
  exists v, lpGet e 0 = Some v /\
    lpGetWithSize e 0 = Some (v, Some (Z.of_nat (length e) + lpEncodeBacklenBytes (Z.of_nat (length e)))) /\
    match v with
    | LStr off n => 0 <= n /\ length e = (off + Z.to_nat n)%nat
    | LInt z => True
    end.
Proof.
  intros He. destruct (enc_ok_first e He) as (b & Hb & Hu & Hlt).
  destruct He as (Hok & _ & Hl & Hs). revert Hs.
  unfold lpCurrentEncodedSizeUnsafe, lpGet, lpGetWithBuf, lpGetWithSize. rewrite Hb. cbn [mbind option_bind].
  lp_class b Hu. assert (Hpos : 0 <= b) by apply Hu.
  destruct (Z.ltb_spec b 128).
  { cmp_by_lia. intros [= Hsz]. rewrite <- Hsz. eexists. split_and!; done. }
  destruct (Z.ltb_spec b 192).
  { cmp_by_lia. intros [= Hsz]. rewrite <- Hsz. eexists. split_and!; [done|..].
    - by rewrite (Z.add_comm _ 1).
    - assert (0 <= LP_ENCODING_6BIT_STR_LEN b) by (apply Z.land_nonneg; lia). cbn. lia. }
  destruct (Z.ltb_spec b 224).
  { cmp_by_lia. intros [= Hsz]. rewrite <- Hsz. destruct (lookup_lt_is_Some_2 e 1 ltac:(lia)) as [b1 Hb1].
    change (0 + 1)%nat with 1%nat. rewrite Hb1. cbn [mbind option_bind]. eexists. split_and!; done. }
  destruct (Z.ltb_spec b 240).
  { cmp_by_lia. destruct (LP_ENCODING_12BIT_STR_LEN e 0) as [n|] eqn:Hn; [|done]. cbn [mbind option_bind].
    intros [= Hsz]. rewrite <- Hsz. assert (0 <= n) by (by eapply len12_nonneg).
    eexists. split_and!; [done|by rewrite (Z.add_comm _ 2)|cbn; lia]. }
  destruct (Z.eqb_spec b 240) as [->|].
  { cmp_by_lia. destruct (LP_ENCODING_32BIT_STR_LEN e 0) as [n|] eqn:Hn; [|done]. cbn [mbind option_bind].
    intros [= Hsz]. destruct (len32_bound e n Hok Hn) as [[Hr0 Hr1] Hl5].
    assert (Hw : u32 (5 + n) = 5 + n).
    { destruct (Z.lt_decidable (5 + n) (2 ^ 32)); [apply uwrap_small; unfold urange; lia|].
      replace (5 + n) with (2 ^ 32 + (5 + n - 2 ^ 32)) in Hsz by lia.
      rewrite uwrap_add_pow, uwrap_small in Hsz; unfold urange; lia. }
    rewrite Hw in Hsz. rewrite <- Hsz. eexists. split_and!; [done|by rewrite (Z.add_comm _ 5)|cbn; lia]. }
  assert (Hge : forall k, (1 + k <= length e)%nat -> exists r, get_le e (0 + 1) k 0 = Some r)
    by (intros k Hk; destruct (get_le_Some e k 1 0 Hk Hok ltac:(lia)) as (r & Hr & _); by exists r).
  assert (Hcase : b = 241 \/ b = 242 \/ b = 243 \/ b = 244) by lia.
  destruct Hcase as [->|[->|[->| ->]]]; cmp_by_lia; intros [= Hsz]; rewrite <- Hsz;
    match goal with |- context [get_le e (0 + 1) ?k 0] => destruct (Hge k ltac:(lia)) as [r ->] end;
    eexists; split_and!; done.
Qed.

Lemma enc_ok_val e : enc_ok e -> exists v, ent_val e = Some v.
Proof.
  intros He. destruct (enc_ok_get e He) as (v & Hv & _ & Hm). unfold ent_val. rewrite Hv.
  cbn [mbind option_bind]. destruct v as [off n|z]; [|by eexists].
  rewrite load_Some by lia. by eexists.
Qed.

(** The value in place. *)
Lemma lpGet_val pre e suf v : enc_ok e -> ent_val e = Some v ->
  match v with
  | inl s => exists off, lpGet (pre ++ e ++ suf) (length pre) = Some (LStr off (Z.of_nat (length s))) /\
      load (pre ++ e ++ suf) off (length s) = Some s
  | inr z => lpGet (pre ++ e ++ suf) (length pre) = Some (LInt z)
  end.
Proof.
  intros He. destruct (enc_ok_get e He) as (w & Hw & _ & Hm). unfold ent_val. rewrite Hw. cbn [mbind option_bind].
  apply (lpGet_local pre e suf) in Hw. destruct w as [off n|z]; cbn [lpv_shift] in Hw; [|by intros [= <-]].
  destruct (load e off (Z.to_nat n)) as [s|] eqn:Hs; [|done]. intros [= <-].
  apply load_length in Hs as Hl. apply (load_local pre e suf) in Hs.
  exists (length pre + off)%nat. rewrite Hl, Z2Nat.id by tauto. done.
Qed.

(** A string and its encoding. *)
Lemma encode_ok s : bytes_ok s -> Z.of_nat (length s) + 5 < 2 ^ 32 ->
  enc_ok (encode s) /\ exists v, ent_val (encode s) = Some v /\ val_str v = s /\
    (forall z, v = inr z -> srange 64 z).
Proof.
  intros Hok Hl. unfold encode, lpEncodeGetType.
  destruct (lpStringToInt64 s) as [z|] eqn:Hz.
  - rewrite lpStringToInt64_eq in Hz. apply string2ll_sound in Hz as [-> Hr].
    destruct (lp_enc_int_ok z Hr) as [He Hg]. split; [done|]. exists (inr z).
    unfold ent_val. rewrite Hg. split_and!; [done..|]. by intros ? [= <-].
  - destruct (lp_enc_str_ok s Hok Hl) as (He & off & Hg & Hle & Hd). split; [done|].
    exists (inl s). unfold ent_val. rewrite Hg. cbn [mbind option_bind]. rewrite Nat2Z.id.
    rewrite load_Some by lia. rewrite Hd, take_ge by done. by split_and!.
Qed.

Lemma lpEncodeGetType_size s : bytes_ok s ->
  match lpEncodeGetType s with
  | inl intenc => encode s = intenc
  | inr enclen => encode s = lpEncodeString s /\ enclen = Z.of_nat (length (encode s))
  end.
Proof.
  intros Hok. unfold encode, lpEncodeGetType. destruct (lpStringToInt64 s); [done|].
  split; [done|]. unfold lpEncodeString. repeat case_match; cbn [length]; lia.
Qed.

Lemma lpEncodeInteger_length v : (1 <= length (lpEncodeIntegerGetType v) <= 9)%nat.
Proof. unfold lpEncodeIntegerGetType. repeat case_match; simpl; lia. Qed.

Lemma lpEncodeString_length s :
  (1 + length s <= length (lpEncodeString s) <= 5 + length s)%nat.
Proof. unfold lpEncodeString. repeat case_match; simpl; lia. Qed.

Lemma encode_length s : bytes_ok s -> Z.of_nat (length s) + 5 < 2 ^ 32 ->
  0 < Z.of_nat (length (encode s)) < 2 ^ 32.
Proof.
  intros Hok Hl. unfold encode. destruct (lpEncodeGetType s) eqn:E.
  - unfold lpEncodeGetType in E. destruct (lpStringToInt64 s); [|done]. injection E as <-.
    pose proof (lpEncodeInteger_length z). lia.
  - pose proof (lpEncodeString_length s). lia.
Qed.

(** An integer takes at most five bytes more than its digits. *)
Lemma int_enc_short z : srange 64 z -> (length (lpEncodeIntegerGetType z) <= length (sdec z) + 5)%nat.
Proof.
  intros Hz. pose proof (lpEncodeInteger_length z) as H9. unfold lpEncodeIntegerGetType.
  pose proof (udec_nonempty z). pose proof (udec_nonempty (- z)).
  assert (Hs : (1 <= length (sdec z))%nat) by (unfold sdec; case_match; cbn [length]; lia).
  repeat (case_match; [cbn [length]; lia|]).
  assert (Hbig : (4 <= length (sdec z))%nat); [|cbn [length]; lia].
  unfold sdec. destruct (Z.ltb_spec z 0); cbn [length];
    rewrite (udec_length_div 4) by (change (10 ^ Z.of_nat 4) with 10000; lia); lia.
Qed.

(** * Claims *)

(** C23. Every string of less than 2^32 - 5 bytes is read back as it was stored:
    wherever its encoding stands in a block, [lpGet] with a buffer returns the
    string itself (the decimal string, for one that was packed as an integer),
    the size read from the first byte is the number of bytes written, and the
    backlen that follows it, read backwards, is that number too. *)
Theorem lp_entry_roundtrip s pre suf intbuf :
  bytes_ok s -> Z.of_nat (length s) + 5 < 2 ^ 32 -> Z.of_nat (length intbuf) = LP_INTBUF_SIZE ->
  let e := encode s in
  let enclen := Z.of_nat (length e) in
  let m := pre ++ e ++ lpEncodeBacklen enclen ++ suf in
  lpGet_intbuf intbuf m (length pre) = Some s /\
  lpCurrentEncodedSizeUnsafe m (length pre) = Some enclen /\
  lpDecodeBacklen m (Z.of_nat (length pre) + enclen + lpEncodeBacklenBytes enclen - 1) = Some enclen.
Proof.
  intros Hok Hl Hb. cbn zeta. destruct (encode_ok s Hok Hl) as (He & v & Hv & Hs & Hr).
  set (suf' := lpEncodeBacklen _ ++ suf). split_and!.
  - pose proof (lpGet_val pre (encode s) suf' v He Hv) as Hg. unfold lpGet_intbuf. destruct v as [s'|z].
    + destruct Hg as (off & -> & Hld). cbn [mbind option_bind]. rewrite Nat2Z.id, Hld. by f_equal.
    + rewrite Hg. cbn [mbind option_bind]. specialize (Hr z eq_refl).
      pose proof (sdec_length_le z Hr). unfold LP_INTBUF_SIZE in *.
      rewrite ll2string_fits by (done || lia). cbn [mbind option_bind val_str] in *. rewrite Nat2Z.id, <- Hs.
      by apply (load_app [] (sdec z)).
  - apply enc_size_local, He.
  - pose proof (encode_length s Hok Hl). unfold suf'. rewrite app_assoc, <- Nat2Z.inj_add, <- length_app.
    apply lpDecodeBacklen_encode. lia.
Qed.

(** On every well formed entry the two decoders agree: [lpGetWithSize]
    returns the value [lpGet] returns, and its [entry_size] is the size of the
    entry with its backlen, the distance to the next entry. *)
Theorem lpGetWithSize_agrees e pre suf :
  enc_ok e ->
  let m := pre ++ e ++ suf in
  let enclen := Z.of_nat (length e) in
  exists v, lpGet m (length pre) = Some v /\
    lpGetWithSize m (length pre) = Some (v, Some (enclen + lpEncodeBacklenBytes enclen)).
Proof.
  intros He. cbn zeta. destruct (enc_ok_get e He) as (v & Hv & Hs & _). exists (lpv_shift (length pre) v).
  split; [by apply lpGet_local|by apply lpGetWithSize_local].
Qed.

(** * Concrete instances *)

Lemma lp_entry_roundtrip_witness :
  let e := encode [45; 52; 48; 57; 55] in
  let enclen := Z.of_nat (length e) in
  let m := [1; 2] ++ e ++ lpEncodeBacklen enclen ++ [255] in
  lpGet_intbuf (replicate 21 0) m (length [1; 2]) = Some [45; 52; 48; 57; 55] /\
  lpCurrentEncodedSizeUnsafe m (length [1; 2]) = Some enclen /\
  lpDecodeBacklen m (Z.of_nat (length [1; 2]) + enclen + lpEncodeBacklenBytes enclen - 1) = Some enclen.
Proof.
  apply (lp_entry_roundtrip [45; 52; 48; 57; 55] [1; 2] [255] (replicate 21 0)).
  - apply (bool_decide_unpack _). vm_compute. exact I.
  - simpl. lia.
  - reflexivity.
Defined.

Lemma lpGetWithSize_agrees_witness :
  let m := [9] ++ [131; 97; 98; 99] ++ [4] in
  let enclen := Z.of_nat (length [131; 97; 98; 99]) in
  exists v, lpGet m (length [9]) = Some v /\
    lpGetWithSize m (length [9]) = Some (v, Some (enclen + lpEncodeBacklenBytes enclen)).
Proof.
  apply (lpGetWithSize_agrees [131; 97; 98; 99] [9] [4]). split; [|split; [|split]].
  - apply (bool_decide_unpack _). vm_compute. exact I.
  - discriminate.
  - simpl. lia.
  - reflexivity.
Defined.

End Lp.
