(* ===== verification/Listpack.v ===== *)
(** Listpacks: the second part of listpack.c.

    A listpack is one block of bytes: the total number of bytes on four bytes,
    the number of elements on two, the entries, and an end marker; the
    allocation may be larger than the listpack.  The operations work on the
    block the way the code does (sizes, reallocations, [memmove], header
    updates); the theorems say what they do to the list of entries. *)

From S2P Require Import Prelude Util ListpackEnc.

Module Listpack.
Import Util Lp.

Inductive lpwhere := LP_BEFORE | LP_AFTER | LP_REPLACE.

(** A listpackEntry: [sval] with [slen], or [lval] when [sval] is NULL. *)
Inductive listpackEntry := SVal (s : bytes) | LVal (lval : Z).

Definition lpGetTotalBytes (m : bytes) : option Z := get_le m 0 4 0.
Definition lpGetNumElements (m : bytes) : option Z := get_le m 4 2 0.

Definition lpSetTotalBytes (m : bytes) (v : Z) : option bytes :=
  store m 0 [Z.land v 0xff; Z.land (Z.shiftr v 8) 0xff; Z.land (Z.shiftr v 16) 0xff;
             Z.land (Z.shiftr v 24) 0xff].

Definition lpSetNumElements (m : bytes) (v : Z) : option bytes :=
  store m 4 [Z.land v 0xff; Z.land (Z.shiftr v 8) 0xff].

Definition lpBytes (m : bytes) : option Z := lpGetTotalBytes m.

(** [memmove] with a byte count computed by the caller: a negative count is a
    huge [size_t], hence an access out of bounds. *)
Definition memmove_n (m : bytes) (dst src : nat) (n : Z) : option bytes :=
  _ ← guard (0 <=? n); memmove m dst src (Z.to_nat n).

Definition LISTPACK_MAX_SAFETY_SIZE : Z := Z.shiftl 1 30.

Definition lpSafeToAdd (lp : option bytes) (add : Z) : option bool :=
  len ← match lp with Some m => lpGetTotalBytes m | None => Some 0 end;
  Some (negb (u64 (len + add) >? LISTPACK_MAX_SAFETY_SIZE)).

Section Operations.
Context {A : Allocator}.

(** Usable memory of a fresh allocation, and of a reallocation: the first bytes
    are kept. [lp_malloc_size(lp)] is the length of the block. *)
Definition lp_malloc (n : nat) : bytes := junk (usable n).
Definition lp_realloc (m : bytes) (n : nat) : bytes :=
  take n m ++ junk (usable n - length (take n m)).

Definition lpNew (capacity : nat) : option bytes :=
  let m := lp_malloc (if (LP_HDR_SIZE + 1 <? capacity)%nat then capacity else (LP_HDR_SIZE + 1)%nat) in
  m ← lpSetTotalBytes m (Z.of_nat LP_HDR_SIZE + 1);
  m ← lpSetNumElements m 0;
  store m LP_HDR_SIZE [LP_EOF].

Definition lpShrinkToFit (m : bytes) : option bytes :=
  size ← lpGetTotalBytes m;
  if size <? Z.of_nat (length m) then Some (lp_realloc m (Z.to_nat size)) else Some m.

(** ** Navigation. A pointer is an offset in the block, NULL is [None]. *)

Definition lpSkip (m : bytes) (p : nat) : option nat :=
  entrylen ← lpCurrentEncodedSizeUnsafe m p;
  Some (p + Z.to_nat (entrylen + lpEncodeBacklenBytes entrylen))%nat.

Definition OUT_OF_RANGE (lpbytes : Z) (p : nat) : bool :=
  (Z.of_nat p <? Z.of_nat LP_HDR_SIZE) || (Z.of_nat p >? lpbytes - 1).

(** The returned flag and the new [*pp]; [*pp] is unchanged on a failure. *)
Definition lpValidateNext (m : bytes) (pp : option nat) (lpbytes : Z) : option (bool * option nat) :=
  match pp with
  | None => Some (false, pp)
  | Some p =>
    if OUT_OF_RANGE lpbytes p then Some (false, pp)
    else
      b ← m !! p;
      if b =? LP_EOF then Some (true, None)
      else
        let lenbytes := lpCurrentEncodedSizeBytes b in
        if lenbytes =? 0 then Some (false, pp)
        else if OUT_OF_RANGE lpbytes (p + Z.to_nat lenbytes) then Some (false, pp)
        else
          entrylen ← lpCurrentEncodedSizeUnsafe m p;
          let encodedBacklen := lpEncodeBacklenBytes entrylen in
          let entrylen := entrylen + encodedBacklen in
          if OUT_OF_RANGE lpbytes (p + Z.to_nat entrylen) then Some (false, pp)
          else
            let p := (p + Z.to_nat entrylen)%nat in
            prevlen ← lpDecodeBacklen m (Z.of_nat p - 1);
            if negb (u64 (prevlen + encodedBacklen) =? entrylen) then Some (false, pp)
            else Some (true, Some p)
  end.

Definition lpAssertValidEntry (m : bytes) (lpbytes : Z) (p : nat) : option unit :=
  '(ok, _) ← lpValidateNext m (Some p) lpbytes; guard ok.

Definition lpNextWithBytes (m : bytes) (p : nat) (lpbytes : Z) : option (option nat) :=
  p ← lpSkip m p;
  b ← m !! p;
  if b =? LP_EOF then Some None
  else _ ← lpAssertValidEntry m lpbytes p; Some (Some p).

Definition lpNext (m : bytes) (p : nat) : option (option nat) :=
  p ← lpSkip m p;
  b ← m !! p;
  if b =? LP_EOF then Some None
  else lpbytes ← lpBytes m; _ ← lpAssertValidEntry m lpbytes p; Some (Some p).

Definition lpPrev (m : bytes) (p : nat) : option (option nat) :=
  if (p =? LP_HDR_SIZE)%nat then Some None
  else
    _ ← guard (0 <? Z.of_nat p);
    prevlen ← lpDecodeBacklen m (Z.of_nat p - 1);
    let prevlen := u64 (prevlen + lpEncodeBacklenBytes prevlen) in
    let q := Z.of_nat p - 1 - (prevlen - 1) in
    _ ← guard (0 <=? q);
    lpbytes ← lpBytes m;
    _ ← lpAssertValidEntry m lpbytes (Z.to_nat q);
    Some (Some (Z.to_nat q)).

Definition lpFirst (m : bytes) : option (option nat) :=
  b ← m !! LP_HDR_SIZE;
  if b =? LP_EOF then Some None
  else lpbytes ← lpBytes m; _ ← lpAssertValidEntry m lpbytes LP_HDR_SIZE; Some (Some LP_HDR_SIZE).

Definition lpLast (m : bytes) : option (option nat) :=
  total ← lpGetTotalBytes m;
  _ ← guard (1 <=? total);
  lpPrev m (Z.to_nat (total - 1)).

(** [while (p) { count++; p = lpNext(lp,p); }] *)
Fixpoint lpLength_loop (fuel : nat) (m : bytes) (p : option nat) (count : Z) : option Z :=
  match p with
  | None => Some count
  | Some q =>
    match fuel with
    | O => None
    | S fuel => p ← lpNext m q; lpLength_loop fuel m p (u32 (count + 1))
    end
  end.

(** The number of elements, and the block with the header it may have updated. *)
Definition lpLength (m : bytes) : option (bytes * Z) :=
  numele ← lpGetNumElements m;
  if negb (numele =? LP_HDR_NUMELE_UNKNOWN) then Some (m, numele)
  else
    p ← lpFirst m;
    count ← lpLength_loop (length m) m p 0;
    if count <? LP_HDR_NUMELE_UNKNOWN then m ← lpSetNumElements m count; Some (m, count)
    else Some (m, count).

Fixpoint lpSeek_forward (fuel : nat) (m : bytes) (index : Z) (ele : option nat) : option (option nat) :=
  match ele with
  | Some q =>
    if index >? 0 then
      match fuel with
      | O => None
      | S fuel => ele ← lpNext m q; lpSeek_forward fuel m (index - 1) ele
      end
    else Some ele
  | None => Some ele
  end.

Fixpoint lpSeek_backward (fuel : nat) (m : bytes) (index : Z) (ele : option nat) : option (option nat) :=
  match ele with
  | Some q =>
    if index <? -1 then
      match fuel with
      | O => None
      | S fuel => ele ← lpPrev m q; lpSeek_backward fuel m (index + 1) ele
      end
    else Some ele
  | None => Some ele
  end.

Definition lpSeek (m : bytes) (index : Z) : option (option nat) :=
  let scan (forward : bool) (index : Z) :=
    if forward then ele ← lpFirst m; lpSeek_forward (length m) m index ele
    else ele ← lpLast m; lpSeek_backward (length m) m index ele in
  numele ← lpGetNumElements m;
  if negb (numele =? LP_HDR_NUMELE_UNKNOWN) then
    let index := if index <? 0 then numele + index else index in
    if index <? 0 then Some None
    else if index >=? numele then Some None
    else if index >? Z.quot numele 2 then scan false (index - numele)
    else scan true index
  else scan (negb (index <? 0)) index.

Definition lpValidateFirst (m : bytes) : option (option nat) :=
  b ← m !! LP_HDR_SIZE;
  if b =? LP_EOF then Some None else Some (Some LP_HDR_SIZE).

(** [while(p && p[0] != LP_EOF) { ... }]: [None] inside is [return 0], otherwise
    the final [p] and [count]. *)
Fixpoint lpValidateIntegrity_loop (fuel : nat) (m : bytes) (lpbytes numele : Z)
    (entry_cb : option (nat -> Z -> bool)) (p : option nat) (count : Z)
    : option (option (option nat * Z)) :=
  match p with
  | None => Some (Some (p, count))
  | Some q =>
    b ← m !! q;
    if b =? LP_EOF then Some (Some (p, count))
    else
      match fuel with
      | O => None
      | S fuel =>
        '(ok, p) ← lpValidateNext m (Some q) lpbytes;
        if negb ok then Some None
        else if match entry_cb with Some cb => negb (cb q numele) | None => false end then Some None
        else lpValidateIntegrity_loop fuel m lpbytes numele entry_cb p (u32 (count + 1))
      end
  end.

Definition lpValidateIntegrity (m : bytes) (size : nat) (deep : bool)
    (entry_cb : option (nat -> Z -> bool)) : option bool :=
  if (size <? LP_HDR_SIZE + 1)%nat then Some false
  else
    lpbytes ← lpGetTotalBytes m;
    if negb (lpbytes =? Z.of_nat size) then Some false
    else
      b ← m !! (size - 1)%nat;
      if negb (b =? LP_EOF) then Some false
      else if negb deep then Some true
      else
        numele ← lpGetNumElements m;
        r ← lpValidateIntegrity_loop size m lpbytes numele entry_cb (Some LP_HDR_SIZE) 0;
        match r with
        | None => Some false
        | Some (p, count) =>
          if negb (bool_decide (p = Some (size - 1)%nat)) then Some false
          else if negb (numele =? LP_HDR_NUMELE_UNKNOWN) && negb (numele =? count) then Some false
          else Some true
        end.

End Operations.

(** * Well formed listpacks

    The entries are given with the bytes of their backlen: a listpack that
    comes from outside may spell a backlen in another way than
    [lpEncodeBacklen] as long as it reads back as the length. *)

Definition entry : Type := bytes * bytes.
Definition ent (x : entry) : bytes := x.1 ++ x.2.
Definition body (es : list entry) : bytes := concat (map ent es).

Definition entry_ok (x : entry) : Prop :=
  enc_ok x.1 /\ Z.of_nat (length x.2) = lpEncodeBacklenBytes (Z.of_nat (length x.1)).

Definition total (es : list entry) : Z := Z.of_nat (LP_HDR_SIZE + length (body es) + 1).

Definition header (es : list entry) (num : Z) : bytes := le_bytes 4 (total es) ++ le_bytes 2 num.

(** The element count is exact, or unknown. *)
Definition num_ok (es : list entry) (num : Z) : Prop :=
  0 <= num <= LP_HDR_NUMELE_UNKNOWN /\
  (num <> LP_HDR_NUMELE_UNKNOWN -> num = Z.of_nat (length es)).

(** Offset of the entry after [es1]. *)
Definition off (es1 : list entry) : nat := LP_HDR_SIZE + length (body es1).

Record lp_wf (m : bytes) (es : list entry) (num : Z) : Prop := {
  wf_block : exists slack, m = header es num ++ body es ++ LP_EOF :: slack;
  wf_entries : Forall entry_ok es;
  wf_total : total es < 2 ^ 32;
  wf_num : num_ok es num;
  wf_backlen es1 x es2 : es = es1 ++ x :: es2 ->
    lpDecodeBacklen m (Z.of_nat (off es1 + length (ent x)) - 1) = Some (Z.of_nat (length x.1))
}.

Lemma body_app es1 es2 : body (es1 ++ es2) = body es1 ++ body es2.
Proof. unfold body. by rewrite map_app, concat_app. Qed.

Lemma body_cons x es : body (x :: es) = ent x ++ body es.
Proof. done. Qed.

Lemma header_length es num : length (header es num) = LP_HDR_SIZE.
Proof. unfold header. by rewrite length_app, !le_bytes_length. Qed.

Lemma off_snoc es1 x : off (es1 ++ [x]) = (off es1 + length (ent x))%nat.
Proof. unfold off. rewrite body_app, length_app, body_cons, length_app. simpl. lia. Qed.

Lemma total_off es : total es = Z.of_nat (off es) + 1.
Proof. unfold total, off. lia. Qed.

Lemma off_le es1 x es2 : (off es1 + length (ent x) <= off (es1 ++ x :: es2))%nat.
Proof. unfold off. rewrite body_app, body_cons, !length_app. lia. Qed.

Lemma ent_length x : length (ent x) = (length x.1 + length x.2)%nat.
Proof. apply length_app. Qed.

(** Reads the header back. *)
Lemma get_total_header es num rest : total es < 2 ^ 32 ->
  lpGetTotalBytes (header es num ++ rest) = Some (total es).
Proof.
  intros Ht. unfold lpGetTotalBytes, header. rewrite <- app_assoc.
  pose proof (get_le_spec (le_bytes 4 (total es)) [] (le_bytes 2 num ++ rest) 0
                (le_bytes_ok _ _) ltac:(lia)) as H.
  rewrite le_bytes_length in H. cbn [app length] in H. rewrite H, Z.shiftl_0_r, le_val_bytes.
  rewrite uwrap_small; [done|]. change (8 * Z.of_nat 4) with 32. unfold urange, total in *. lia.
Qed.

Lemma get_num_header es num rest : 0 <= num <= LP_HDR_NUMELE_UNKNOWN ->
  lpGetNumElements (header es num ++ rest) = Some num.
Proof.
  intros Hn. unfold lpGetNumElements, header. rewrite <- app_assoc.
  pose proof (get_le_spec (le_bytes 2 num) (le_bytes 4 (total es)) rest 0
                (le_bytes_ok _ _) ltac:(lia)) as H.
  rewrite !le_bytes_length in H. rewrite H, Z.shiftl_0_r, le_val_bytes.
  rewrite uwrap_small; [done|]. change (8 * Z.of_nat 2) with 16.
  unfold urange, LP_HDR_NUMELE_UNKNOWN in *. lia.
Qed.

Section Navigation.
Context {m : bytes} {es : list entry} {num : Z} (W : lp_wf m es num).

Lemma wf_get_total : lpGetTotalBytes m = Some (total es).
Proof. destruct (wf_block _ _ _ W) as [slack ->]. apply get_total_header, W. Qed.

Lemma wf_get_num : lpGetNumElements m = Some num.
Proof. destruct (wf_block _ _ _ W) as [slack ->]. apply (get_num_header es), (wf_num _ _ _ W). Qed.

Lemma wf_eof : m !! off es = Some LP_EOF.
Proof.
  destruct (wf_block _ _ _ W) as [slack ->]. rewrite app_assoc.
  replace (off es) with (length (header es num ++ body es)) by (rewrite length_app, header_length; done).
  by apply list_lookup_middle.
Qed.

(** The block around one entry. *)
Lemma wf_split es1 x es2 : es = es1 ++ x :: es2 ->
  entry_ok x /\ exists pre suf, m = pre ++ x.1 ++ x.2 ++ suf /\ length pre = off es1.
Proof.
  intros Hes. split.
  - pose proof (wf_entries _ _ _ W) as Hf. rewrite Hes in Hf.
    apply Forall_app in Hf as [_ Hf]. by inversion_clear Hf.
  - destruct (wf_block _ _ _ W) as [slack Hm].
    exists (header es num ++ body es1), (body es2 ++ LP_EOF :: slack).
    rewrite length_app, header_length. split; [|done].
    rewrite Hm. replace (body es) with (body es1 ++ ent x ++ body es2) by by rewrite Hes, body_app.
    unfold ent. by rewrite <- !app_assoc.
Qed.

Lemma first_byte_len e b : enc_ok e -> e !! 0%nat = Some b ->
  1 <= lpCurrentEncodedSizeBytes b <= Z.of_nat (length e).
Proof.
  intros He Hb. destruct (enc_ok_first e He) as (b' & Hb' & Hu & Hlt). simplify_eq.
  destruct He as (Hok & _ & Hl & Hs). revert Hs. unfold lpCurrentEncodedSizeUnsafe, lpCurrentEncodedSizeBytes.
  rewrite Hb. cbn [mbind option_bind].
  repeat case_match; intros Hs; simplify_eq; try lia.
  - destruct (LP_ENCODING_12BIT_STR_LEN e 0) as [n|] eqn:Hn; [|done]. cbn in Hs.
    injection Hs as Hs. pose proof (len12_nonneg e n Hok Hn). lia.
  - destruct (LP_ENCODING_32BIT_STR_LEN e 0) as [n|] eqn:Hn; [|done].
    destruct (len32_bound e n Hok Hn). lia.
Qed.

Lemma validate_entry es1 x es2 : es = es1 ++ x :: es2 ->
  lpValidateNext m (Some (off es1)) (total es) = Some (true, Some (off es1 + length (ent x))%nat).
Proof.
  intros Hes. destruct (wf_split es1 x es2 Hes) as [[He Hbl] (pre & suf & Hm & Hpre)].
  pose proof (wf_backlen _ _ _ W es1 x es2 Hes) as Hd. pose proof (off_le es1 x es2) as Hle.
  rewrite <- Hes in Hle. pose proof (total_off es) as Ht. pose proof (wf_total _ _ _ W) as Hlt.
  pose proof (ent_length x) as Hent. set (n := Z.of_nat (length x.1)) in *.
  destruct (enc_ok_first x.1 He) as (b & Hb & Hu & Hb245).
  assert (Hmb : m !! off es1 = Some b) by (rewrite Hm, <- Hpre; by apply lookup_mid0).
  assert (Hs : lpCurrentEncodedSizeUnsafe m (off es1) = Some n)
    by (rewrite Hm, <- Hpre; apply enc_size_local, He).
  pose proof (first_byte_len _ _ He Hb). pose proof (lpEncodeBacklenBytes_bound n).
  assert (Hin : forall p, (off es1 <= p <= off es)%nat -> OUT_OF_RANGE (total es) p = false).
  { intros p Hp. unfold OUT_OF_RANGE. assert (LP_HDR_SIZE <= off es1)%nat by (unfold off; lia). lia. }
  unfold lpValidateNext. rewrite Hin, Hmb by lia. cbn [mbind option_bind]. unfold LP_EOF.
  rewrite (proj2 (Z.eqb_neq b 255)) by lia. rewrite (proj2 (Z.eqb_neq _ 0)) by lia.
  rewrite Hin by lia. rewrite Hs. cbn [mbind option_bind].
  replace (Z.to_nat (n + lpEncodeBacklenBytes n)) with (length (ent x)) by lia.
  rewrite Hin by lia. rewrite Hd. cbn [mbind option_bind].
  rewrite uwrap_small by (unfold urange; lia). by rewrite Z.eqb_refl.
Qed.

Lemma validate_eof : lpValidateNext m (Some (off es)) (total es) = Some (true, None).
Proof.
  unfold lpValidateNext, OUT_OF_RANGE. rewrite total_off, wf_eof.
  assert (LP_HDR_SIZE <= off es)%nat by (unfold off; lia).
  rewrite (proj2 (Z.ltb_ge _ _)) by lia. destruct (Z.gtb_spec (Z.of_nat (off es)) (Z.of_nat (off es) + 1 - 1)); [lia|].
  done.
Qed.

(** The pointer to the [i]-th entry, NULL past the end. *)
Definition nth_ptr (i : nat) : option nat :=
  if decide (i < length es)%nat then Some (off (take i es)) else None.

Lemma take_split i x : es !! i = Some x -> es = take i es ++ x :: drop (S i) es.
Proof. intros. by rewrite take_drop_middle. Qed.

Lemma off_take_S i x : es !! i = Some x -> off (take (S i) es) = (off (take i es) + length (ent x))%nat.
Proof. intros Hi. by rewrite (take_S_r _ _ x Hi), off_snoc. Qed.

Lemma off_all i : (length es <= i)%nat -> off (take i es) = off es.
Proof. intros. by rewrite take_ge. Qed.

Lemma wf_skip i x : es !! i = Some x -> lpSkip m (off (take i es)) = Some (off (take (S i) es)).
Proof.
  intros Hi. destruct (wf_split _ _ _ (take_split i x Hi)) as [[He Hbl] (pre & suf & Hm & Hpre)].
  assert (Hs : lpCurrentEncodedSizeUnsafe m (off (take i es)) = Some (Z.of_nat (length x.1)))
    by (rewrite Hm, <- Hpre; apply enc_size_local, He).
  unfold lpSkip. rewrite Hs. cbn [mbind option_bind]. rewrite (off_take_S i x Hi), ent_length.
  f_equal. lia.
Qed.

Lemma wf_assert i : (i <= length es)%nat ->
  lpAssertValidEntry m (total es) (off (take i es)) = Some tt.
Proof.
  intros Hi. unfold lpAssertValidEntry. destruct (es !! i) as [x|] eqn:Hx.
  - by rewrite (validate_entry _ _ _ (take_split i x Hx)).
  - apply lookup_ge_None in Hx. rewrite off_all by done. by rewrite validate_eof.
Qed.

(** The first byte at an entry, and at the end. *)
Lemma wf_byte i : (i <= length es)%nat ->
  exists b, m !! off (take i es) = Some b /\ (b =? LP_EOF) = bool_decide (i = length es).
Proof.
  intros Hi. destruct (es !! i) as [x|] eqn:Hx.
  - destruct (wf_split _ _ _ (take_split i x Hx)) as [[He _] (pre & suf & Hm & Hpre)].
    destruct (enc_ok_first _ He) as (b & Hb & Hu & Hlt). exists b.
    split; [rewrite Hm, <- Hpre; by apply lookup_mid0|]. apply lookup_lt_Some in Hx.
    rewrite bool_decide_eq_false_2 by lia. apply Z.eqb_neq. unfold LP_EOF. lia.
  - apply lookup_ge_None in Hx. rewrite off_all by done. exists LP_EOF. split; [apply wf_eof|].
    by rewrite bool_decide_eq_true_2 by lia.
Qed.

Lemma wf_next i : (i < length es)%nat -> lpNext m (off (take i es)) = Some (nth_ptr (S i)).
Proof.
  intros Hi. destruct (lookup_lt_is_Some_2 es i Hi) as [x Hx].
  unfold lpNext, lpBytes, nth_ptr. rewrite (wf_skip i x Hx). cbn [mbind option_bind].
  destruct (wf_byte (S i) ltac:(lia)) as (b & Hb & Heq). rewrite Hb. cbn [mbind option_bind]. rewrite Heq.
  case_bool_decide; [by rewrite decide_False by lia|]. rewrite wf_get_total. cbn [mbind option_bind].
  rewrite wf_assert by lia. by rewrite decide_True by lia.
Qed.

Lemma wf_first : lpFirst m = Some (nth_ptr 0).
Proof.
  unfold lpFirst, lpBytes, nth_ptr. destruct (wf_byte 0 ltac:(lia)) as (b & Hb & Heq).
  change (off (take 0 es)) with LP_HDR_SIZE in *. rewrite Hb. cbn [mbind option_bind]. rewrite Heq.
  case_bool_decide; [by rewrite decide_False by lia|]. rewrite wf_get_total. cbn [mbind option_bind].
  pose proof (wf_assert 0 ltac:(lia)) as Ha. change (off (take 0 es)) with LP_HDR_SIZE in Ha. rewrite Ha.
  by rewrite decide_True by lia.
Qed.

Lemma wf_prev i : (i < length es)%nat -> lpPrev m (off (take (S i) es)) = Some (Some (off (take i es))).
Proof.
  intros Hi. destruct (lookup_lt_is_Some_2 es i Hi) as [x Hx].
  destruct (wf_split _ _ _ (take_split i x Hx)) as [[He Hbl] _].
  pose proof (wf_backlen _ _ _ W _ _ _ (take_split i x Hx)) as Hd.
  rewrite <- (off_take_S i x Hx) in Hd. pose proof (off_take_S i x Hx) as Ho. rewrite ent_length in Ho.
  assert (Hge : (LP_HDR_SIZE <= off (take i es))%nat) by (unfold off; lia).
  assert (Hpos : (0 < length x.1)%nat) by apply He.
  pose proof (lpEncodeBacklenBytes_bound (Z.of_nat (length x.1))) as Hbb.
  assert (Hlt : Z.of_nat (length x.1) < 2 ^ 32).
  { pose proof (off_le (take i es) x (drop (S i) es)) as Hle. rewrite <- (take_split i x Hx), ent_length in Hle.
    pose proof (wf_total _ _ _ W). pose proof (total_off es). lia. }
  unfold lpPrev, lpBytes. destruct (Nat.eqb_spec (off (take (S i) es)) LP_HDR_SIZE) as [|_]; [lia|].
  rewrite (proj2 (Z.ltb_lt _ _)) by lia. cbn [guard mbind option_bind]. rewrite Hd. cbn [mbind option_bind].
  rewrite uwrap_small by (unfold urange; lia).
  replace (Z.of_nat (off (take (S i) es)) - 1 - _) with (Z.of_nat (off (take i es))) by lia.
  rewrite (proj2 (Z.leb_le _ _)) by lia. cbn [guard mbind option_bind]. rewrite wf_get_total, Nat2Z.id.
  cbn [mbind option_bind]. by rewrite wf_assert by lia.
Qed.

Lemma wf_prev_first : lpPrev m (off (take 0 es)) = Some None.
Proof. done. Qed.

Lemma wf_last : lpLast m = Some (if decide (es = []) then None else nth_ptr (length es - 1)).
Proof.
  unfold lpLast, nth_ptr. rewrite wf_get_total. cbn [mbind option_bind].
  rewrite total_off, (proj2 (Z.leb_le _ _)) by lia. cbn [guard mbind option_bind].
  replace (Z.to_nat _) with (off es) by lia. rewrite <- (off_all (length es)) by done.
  case_decide as He; [by rewrite He|]. destruct (length es) as [|n] eqn:Hl; [by apply nil_length_inv in Hl|].
  rewrite wf_prev by lia. rewrite decide_True by lia. do 4 f_equal. lia.
Qed.

Lemma body_length_ge (xs : list entry) : Forall entry_ok xs -> (2 * length xs <= length (body xs))%nat.
Proof.
  induction 1 as [|x xs [He Hb] _ IH]; [done|]. rewrite body_cons, length_app, ent_length.
  destruct He as (_ & _ & Hl & _). pose proof (lpEncodeBacklenBytes_bound (Z.of_nat (length x.1))).
  cbn [length]. lia.
Qed.

Lemma wf_count : (length es < length m)%nat /\ Z.of_nat (length es) < 2 ^ 32.
Proof.
  pose proof (body_length_ge es (wf_entries _ _ _ W)). pose proof (wf_total _ _ _ W) as Ht.
  rewrite total_off in Ht. unfold off in Ht.
  destruct (wf_block _ _ _ W) as [slack ->]. rewrite !length_app, header_length. cbn [length]. lia.
Qed.

Lemma nth_ptr_Some i : (i < length es)%nat -> nth_ptr i = Some (off (take i es)).
Proof. intros. unfold nth_ptr. by rewrite decide_True. Qed.

Lemma nth_ptr_None i : (length es <= i)%nat -> nth_ptr i = None.
Proof. intros. unfold nth_ptr. by rewrite decide_False by lia. Qed.

Lemma length_loop fuel : forall i c, (length es - i <= fuel)%nat -> 0 <= c ->
  c + Z.of_nat (length es - i) < 2 ^ 32 ->
  lpLength_loop fuel m (nth_ptr i) c = Some (c + Z.of_nat (length es - i)).
Proof.
  induction fuel as [|fuel IH]; intros i c Hf Hc Hb.
  - rewrite nth_ptr_None by lia. cbn [lpLength_loop]. f_equal. lia.
  - destruct (decide (i < length es)%nat).
    + rewrite nth_ptr_Some by lia. cbn [lpLength_loop]. rewrite wf_next by lia. cbn [mbind option_bind].
      rewrite uwrap_small by (unfold urange; lia). rewrite IH by lia. f_equal. lia.
    + rewrite nth_ptr_None by lia. cbn [lpLength_loop]. f_equal. lia.
Qed.

Lemma seek_forward fuel : forall i k, (length es - i <= fuel)%nat -> 0 <= k ->
  lpSeek_forward fuel m k (nth_ptr i) = Some (nth_ptr (i + Z.to_nat k)).
Proof.
  induction fuel as [|fuel IH]; intros i k Hf Hk.
  - rewrite !nth_ptr_None by lia. done.
  - destruct (decide (i < length es)%nat); [|by rewrite !nth_ptr_None by lia].
    rewrite (nth_ptr_Some i) by lia. cbn [lpSeek_forward]. destruct (Z.gtb_spec k 0).
    + rewrite wf_next by lia. cbn [mbind option_bind]. rewrite IH by lia. do 2 f_equal. lia.
    + replace (i + Z.to_nat k)%nat with i by lia. by rewrite nth_ptr_Some by lia.
Qed.

Lemma seek_backward fuel : forall i k, (i < fuel)%nat -> (i < length es)%nat -> k <= -1 ->
  lpSeek_backward fuel m k (nth_ptr i)
  = Some (if decide (0 <= Z.of_nat i + k + 1) then nth_ptr (Z.to_nat (Z.of_nat i + k + 1)) else None).
Proof.
  induction fuel as [|fuel IH]; intros i k Hf Hi Hk; [lia|].
  rewrite (nth_ptr_Some i) by lia. cbn [lpSeek_backward]. destruct (Z.ltb_spec k (-1)).
  - destruct i as [|i].
    + rewrite wf_prev_first. cbn [mbind option_bind]. rewrite decide_False by lia. by destruct fuel.
    + rewrite wf_prev by lia. cbn [mbind option_bind]. rewrite <- nth_ptr_Some by lia. rewrite IH by lia.
      replace (Z.of_nat i + (k + 1) + 1) with (Z.of_nat (S i) + k + 1) by lia. done.
  - rewrite decide_True by lia. replace (Z.to_nat _) with i by lia. by rewrite nth_ptr_Some.
Qed.

(** The position an index denotes: from the end when it is negative. *)
Definition seek_ptr (index : Z) : option nat :=
  let i := if index <? 0 then Z.of_nat (length es) + index else index in
  if decide (0 <= i) then nth_ptr (Z.to_nat i) else None.

Lemma scan_forward index : 0 <= index ->
  (ele ← lpFirst m; lpSeek_forward (length m) m index ele) = Some (seek_ptr index).
Proof.
  intros Hi. rewrite wf_first. cbn [mbind option_bind]. pose proof wf_count.
  rewrite seek_forward by lia. unfold seek_ptr. rewrite (proj2 (Z.ltb_ge _ _)) by lia.
  by rewrite decide_True by lia.
Qed.

Lemma scan_backward index : index < 0 ->
  (ele ← lpLast m; lpSeek_backward (length m) m index ele) = Some (seek_ptr index).
Proof.
  intros Hi. rewrite wf_last. cbn [mbind option_bind]. pose proof wf_count.
  unfold seek_ptr. rewrite (proj2 (Z.ltb_lt _ _)) by lia. case_decide as He.
  - assert (Hl : length es = 0%nat) by (by rewrite He). rewrite Hl, decide_False by lia. by destruct (length m).
  - assert (length es <> 0%nat) by (intros Hl; by apply nil_length_inv in Hl).
    rewrite seek_backward by lia. f_equal.
    replace (Z.of_nat (length es - 1) + index + 1) with (Z.of_nat (length es) + index) by lia. done.
Qed.

Lemma wf_seek index : lpSeek m index = Some (seek_ptr index).
Proof.
  unfold lpSeek. rewrite wf_get_num. cbn [mbind option_bind]. destruct (wf_num _ _ _ W) as [Hr Hn].
  destruct (Z.eqb_spec num LP_HDR_NUMELE_UNKNOWN) as [|Hk]; cbn [negb].
  - destruct (Z.ltb_spec index 0); cbn [negb]; [by apply scan_backward|by apply scan_forward].
  - specialize (Hn Hk). set (i := if index <? 0 then num + index else index).
    assert (Hi : seek_ptr index = if decide (0 <= i) then nth_ptr (Z.to_nat i) else None)
      by (unfold seek_ptr, i; by rewrite Hn). rewrite Hi. clear Hi.
    destruct (Z.ltb_spec i 0); [by rewrite decide_False by lia|]. rewrite decide_True by lia.
    destruct (Z.geb_spec i num); [by rewrite nth_ptr_None by lia|].
    destruct (Z.gtb_spec i (num ÷ 2)).
    + rewrite scan_backward by lia. unfold seek_ptr. rewrite (proj2 (Z.ltb_lt _ _)) by lia.
      rewrite decide_True by lia. do 3 f_equal. lia.
    + rewrite scan_forward by lia. unfold seek_ptr. rewrite (proj2 (Z.ltb_ge _ _)) by lia.
      by rewrite decide_True by lia.
Qed.

End Navigation.

Arguments nth_ptr _ _ : clear implicits.
Arguments seek_ptr _ _ : clear implicits.
(** * Validation of a listpack that comes from outside *)

Lemma decode_loop_spec m f : forall p val shift,
  bytes_ok m -> 0 <= val < 2 ^ shift -> 0 <= shift <= 28 -> shift + 7 * Z.of_nat f = 35 ->
  Z.of_nat f <= p + 1 -> p < Z.of_nat (length m) ->
  exists v, lpDecodeBacklen_loop f m p val shift = Some v /\
    (v = UINT64_MAX \/ 0 <= v < 2 ^ 35 /\ v mod 2 ^ shift = val).
Proof.
  induction f as [|f IH]; intros p val shift Hok Hv Hs Hf Hp Hl; [lia|]. cbn [lpDecodeBacklen_loop].
  rewrite (proj2 (Z.leb_le _ _)) by lia. cbn [guard mbind option_bind].
  destruct (lookup_lt_is_Some_2 m (Z.to_nat p) ltac:(lia)) as [b Hb]. rewrite Hb. cbn [mbind option_bind].
  assert (Hu : urange 8 b) by (eapply Forall_lookup_1 in Hok; done).
  rewrite backlen_bits by (done || lia). rewrite lor_shiftl_add by lia.
  pose proof (Z.mod_pos_bound b 128 ltac:(lia)) as Hm. pose proof (pow2_pos shift ltac:(lia)).
  set (val' := val + b mod 128 * 2 ^ shift).
  assert (Hv' : 0 <= val' < 2 ^ (shift + 7)) by (unfold val'; rewrite Z.pow_add_r by lia; nia).
  assert (Hmod : forall v, v mod 2 ^ (shift + 7) = val' -> v mod 2 ^ shift = val).
  { intros v Hvm. rewrite <- (Z.mod_mod_divide v (2 ^ (shift + 7)) (2 ^ shift)), Hvm.
    - unfold val'. rewrite Z_mod_plus_full. by apply Z.mod_small.
    - exists (2 ^ 7). by rewrite <- Z.pow_add_r, Z.add_comm by lia. }
  destruct (Z.land b 128 =? 0).
  - eexists. split; [done|]. right.
    pose proof (Z.pow_le_mono_r 2 (shift + 7) 35 ltac:(lia) ltac:(lia)). split; [lia|].
    apply Hmod. by apply Z.mod_small.
  - destruct (Z.gtb_spec (shift + 7) 28); [eexists; by split; [|left]|].
    destruct (IH (p - 1) val' (shift + 7)) as (v & Hd & Hr); [done|done|lia..|]. exists v. split; [done|].
    destruct Hr as [->|[Hr Hr']]; [by left|right; split; [done|by apply Hmod]].
Qed.

(** The decoder never leaves the block (the header is before the entries), and
    its last seven bits are those of the last byte. *)
Lemma decode_total m (q : nat) : bytes_ok m -> (4 <= q < length m)%nat ->
  exists v b, lpDecodeBacklen m (Z.of_nat q) = Some v /\ m !! q = Some b /\
    (v = UINT64_MAX \/ 0 <= v < 2 ^ 35 /\ v mod 128 = b mod 128).
Proof.
  intros Hok Hq. unfold lpDecodeBacklen. destruct (lookup_lt_is_Some_2 m q ltac:(lia)) as [b Hb].
  assert (Hu : urange 8 b) by (eapply Forall_lookup_1 in Hok; done).
  cbn [lpDecodeBacklen_loop]. fold lpDecodeBacklen_loop.
  rewrite (proj2 (Z.leb_le 0 (Z.of_nat q))) by lia. cbn [guard mbind option_bind]. rewrite Nat2Z.id, Hb. cbn [mbind option_bind].
  rewrite backlen_bits by (done || lia). rewrite Z.lor_0_l, Z.shiftl_0_r.
  pose proof (Z.mod_pos_bound b 128 ltac:(lia)).
  destruct (Z.land b 128 =? 0).
  - exists (b mod 128), b. split; [done|split; [done|right]]. split; [lia|]. by rewrite Z.mod_mod by lia.
  - destruct (decode_loop_spec m 4 (Z.of_nat q - 1) (b mod 128) 7) as (v & Hd & Hr); [done|lia..|].
    exists v, b. by split_and!.
Qed.

(** [get_le] reads any bytes. *)
Lemma get_le_at m n p : (p + n <= length m)%nat -> bytes_ok m ->
  get_le m p n 0 = Some (le_val (take n (drop p m))).
Proof.
  intros Hl Hok. pose proof (take_drop p m) as Hm1. pose proof (take_drop n (drop p m)) as Hm2.
  pose proof (get_le_spec (take n (drop p m)) (take p m) (drop n (drop p m)) 0
                ltac:(by apply Forall_take, Forall_drop) ltac:(lia)) as H.
  rewrite Hm2, Hm1, Z.shiftl_0_r in H. rewrite !length_take, length_drop in H.
  rewrite (Nat.min_l p), (Nat.min_l n) in H by lia. exact H.
Qed.

Lemma get_le_range m n p : (p + n <= length m)%nat -> bytes_ok m ->
  exists r, get_le m p n 0 = Some r /\ urange (8 * Z.of_nat n) r.
Proof.
  intros Hl Hok. rewrite get_le_at by done. eexists. split; [done|].
  pose proof (le_val_range (take n (drop p m)) ltac:(by apply Forall_take, Forall_drop)) as Hr.
  rewrite length_take, length_drop, Nat.min_l in Hr by lia. exact Hr.
Qed.

(** The size field can be read when the bytes that hold it are there. *)
Lemma enc_size_total m p b : bytes_ok m -> m !! p = Some b -> b <> LP_EOF ->
  lpCurrentEncodedSizeBytes b <> 0 -> Z.of_nat p + lpCurrentEncodedSizeBytes b <= Z.of_nat (length m) ->
  exists n, lpCurrentEncodedSizeUnsafe m p = Some n /\
    (lpCurrentEncodedSizeBytes b <= n < 2 ^ 33 \/
     b = 240 /\ exists l, get_le m (p + 1) 4 0 = Some l /\ 2 ^ 32 - 5 <= l < 2 ^ 32 /\ n = 5 + l - 2 ^ 32).
Proof.
  intros Hok Hb Heof Hnz Hl. assert (Hu : urange 8 b) by (eapply Forall_lookup_1 in Hok; done).
  revert Hnz Hl. unfold lpCurrentEncodedSizeBytes, lpCurrentEncodedSizeUnsafe. rewrite Hb. cbn [mbind option_bind].
  unfold LP_EOF in *. destruct (Z.eqb_spec b 255) as [|_]; [done|].
  destruct (LP_ENCODING_IS_7BIT_UINT b); [intros; eexists; split; [done|left; lia]|].
  destruct (LP_ENCODING_IS_6BIT_STR b).
  { intros. eexists. split; [done|left]. unfold LP_ENCODING_6BIT_STR_LEN. change 0x3F with (Z.ones 6).
    rewrite land_ones_mod by lia. pose proof (Z.mod_pos_bound b (2 ^ 6) ltac:(lia)). lia. }
  destruct (LP_ENCODING_IS_13BIT_INT b); [intros; eexists; split; [done|left; lia]|].
  do 4 match goal with |- context [if ?c then _ else _] =>
    destruct c; [intros; eexists; split; [done|left; lia]|] end.
  destruct (LP_ENCODING_IS_12BIT_STR b).
  { intros _ Hl. unfold LP_ENCODING_12BIT_STR_LEN. rewrite Hb. cbn [mbind option_bind].
    destruct (lookup_lt_is_Some_2 m (p + 1) ltac:(lia)) as [b1 Hb1]. rewrite Hb1. cbn [mbind option_bind].
    eexists. split; [done|left]. assert (Hu1 : urange 8 b1) by (eapply Forall_lookup_1 in Hok; done).
    change 0xF with (Z.ones 4). rewrite Z.lor_comm, land_ones_mod, lor_shiftl_add by (done || lia).
    pose proof (Z.mod_pos_bound b (2 ^ 4) ltac:(lia)). unfold urange in Hu1. lia. }
  destruct (LP_ENCODING_IS_32BIT_STR b) eqn:H32; [|done]. intros _ Hl. rewrite LP_32BIT_get_le.
  destruct (get_le_range m 4 (p + 1) ltac:(lia) Hok) as (l & Hle & Hr). rewrite Hle. cbn [mbind option_bind].
  eexists. split; [done|]. change (8 * Z.of_nat 4) with 32 in Hr. unfold urange in Hr.
  destruct (Z.lt_decidable (5 + l) (2 ^ 32)).
  - left. rewrite uwrap_small by (unfold urange; lia). lia.
  - right. split; [pose proof (lp_classes b Hu) as (_ & _ & _ & _ & H' & _); rewrite H' in H32; lia|].
    exists l. split; [done|]. split; [lia|]. replace (5 + l) with (2 ^ 32 + (5 + l - 2 ^ 32)) by lia.
    rewrite uwrap_add_pow, uwrap_small by (unfold urange; lia). lia.
Qed.

Lemma get_le4_lookup m p l : bytes_ok m -> get_le m p 4 0 = Some l ->
  exists b0 b1 b2 b3, m !! p = Some b0 /\ m !! (p + 1)%nat = Some b1 /\ m !! (p + 2)%nat = Some b2 /\
    m !! (p + 3)%nat = Some b3 /\ Forall (urange 8) [b0; b1; b2; b3] /\
    l = b0 + 256 * (b1 + 256 * (b2 + 256 * b3)).
Proof.
  intros Hok Hl. pose proof (get_le_bound _ _ _ _ _ Hl ltac:(lia)) as Hlen.
  rewrite get_le_at in Hl by done. injection Hl as <-.
  destruct (lookup_lt_is_Some_2 m p ltac:(lia)) as [b0 H0].
  destruct (lookup_lt_is_Some_2 m (p + 1) ltac:(lia)) as [b1 H1].
  destruct (lookup_lt_is_Some_2 m (p + 2) ltac:(lia)) as [b2 H2].
  destruct (lookup_lt_is_Some_2 m (p + 3) ltac:(lia)) as [b3 H3].
  exists b0, b1, b2, b3. split_and!; [done..| |].
  - repeat (apply Forall_cons; split; [by eapply Forall_lookup_1|]). constructor.
  - rewrite (drop_S _ _ _ H0). replace (S p) with (p + 1)%nat by lia. rewrite (drop_S _ _ _ H1).
    replace (S (p + 1)) with (p + 2)%nat by lia. rewrite (drop_S _ _ _ H2).
    replace (S (p + 2)) with (p + 3)%nat by lia. rewrite (drop_S _ _ _ H3). cbn [take le_val]. rewrite take_0. cbn [le_val]. lia.
Qed.

(** A string length that makes the 32 bit size wrap around is never accepted:
    the byte before the next entry would have to spell a length below 5. *)
Lemma wrapped_size_rejected m p l n v c : bytes_ok m -> m !! p = Some 240 ->
  get_le m (p + 1) 4 0 = Some l -> 2 ^ 32 - 5 <= l < 2 ^ 32 -> n = 5 + l - 2 ^ 32 ->
  m !! (p + Z.to_nat n)%nat = Some c -> v mod 128 = c mod 128 -> 0 <= v < 2 ^ 35 -> v <> n.
Proof.
  intros Hok Hp Hl Hr Hn Hc Hm Hv ->.
  destruct (get_le4_lookup m (p + 1) l Hok Hl) as (b0 & b1 & b2 & b3 & H0 & H1 & H2 & H3 & Hu & Hle).
  rewrite <- Nat.add_assoc in H1, H2, H3. cbn [Nat.add] in H1, H2, H3.
  apply Forall_cons in Hu as [U0 Hu]. apply Forall_cons in Hu as [U1 Hu].
  apply Forall_cons in Hu as [U2 Hu]. apply Forall_cons in Hu as [U3 _]. unfold urange in *. simpl in *.
  assert (Hb : b0 = 251 + n /\ b1 = 255 /\ b2 = 255 /\ b3 = 255) by lia. destruct Hb as (-> & -> & -> & ->).
  assert (Hcase : n = 0 \/ n = 1 \/ n = 2 \/ n = 3 \/ n = 4) by lia.
  destruct Hcase as [E|[E|[E|[E|E]]]]; rewrite E in Hc, Hm; subst n.
  - replace (p + Z.to_nat 0)%nat with p in Hc by lia. rewrite Hp in Hc. injection Hc as <-. done.
  - change (Z.to_nat 1) with 1%nat in Hc. rewrite H0 in Hc. injection Hc as <-. rewrite E in Hm. done.
  - change (Z.to_nat 2) with 2%nat in Hc. rewrite H1 in Hc. by injection Hc as <-.
  - change (Z.to_nat 3) with 3%nat in Hc. rewrite H2 in Hc. by injection Hc as <-.
  - change (Z.to_nat 4) with 4%nat in Hc. rewrite H3 in Hc. by injection Hc as <-.
Qed.

(** The bytes of an entry whose size is known. *)
Lemma entry_at m p n b : bytes_ok m -> m !! p = Some b -> b <> LP_EOF ->
  lpCurrentEncodedSizeUnsafe m p = Some n -> lpCurrentEncodedSizeBytes b <> 0 ->
  lpCurrentEncodedSizeBytes b <= n -> 0 < n ->
  Z.of_nat p + n + lpEncodeBacklenBytes n <= Z.of_nat (length m) ->
  exists x, entry_ok x /\ Z.of_nat (length x.1) = n /\
    Z.of_nat (length (ent x)) = n + lpEncodeBacklenBytes n /\
    drop p m = ent x ++ drop (p + length (ent x)) m.
Proof.
  intros Hok Hb Heof Hn Hnz Hlb Hn0 Hl. pose proof (lpEncodeBacklenBytes_bound n) as Heb.
  set (k := Z.to_nat n). set (eb := Z.to_nat (lpEncodeBacklenBytes n)).
  set (e := take k (drop p m)). set (bl := take eb (drop k (drop p m))).
  assert (Hle : length e = k) by (unfold e; rewrite length_take, length_drop; lia).
  assert (Hlbl : length bl = eb) by (unfold bl; rewrite length_take, !length_drop; lia).
  assert (Heok : bytes_ok e) by (by apply Forall_take, Forall_drop).
  assert (He0 : e !! 0%nat = Some b).
  { unfold e. rewrite lookup_take, decide_True by lia. rewrite lookup_drop. by rewrite Nat.add_0_r. }
  assert (Hm : m = take p m ++ e ++ drop k (drop p m)) by (unfold e; by rewrite !take_drop).
  exists (e, bl). unfold entry_ok. rewrite !ent_length. cbn [fst snd]. rewrite Hle, Hlbl.
  split_and!; [|unfold eb, k; rewrite !Z2Nat.id by lia; done|lia|lia|].
  - destruct (enc_size_total e 0 b Heok He0 Heof Hnz ltac:(lia)) as (n' & Hn' & _).
    assert (Hnn : Some n = Some n').
    { apply (enc_size_local (take p m) e (drop k (drop p m))) in Hn'. rewrite <- Hm, length_take in Hn'.
      rewrite Nat.min_l in Hn' by lia. by rewrite <- Hn, Hn'. }
    injection Hnn as <-. split_and!; [done|congruence|lia|]. rewrite Hn'. f_equal. lia.
  - unfold ent. cbn [fst snd]. rewrite <- app_assoc. unfold e, bl.
    replace (p + (k + eb))%nat with (p + k + eb)%nat by lia. rewrite <- !drop_drop. by rewrite !take_drop.
Qed.

(** What [lpValidateNext] finds at any place of any block. *)
Lemma validate_next_spec m p : bytes_ok m ->
  lpValidateNext m (Some p) (Z.of_nat (length m)) = Some (false, Some p) \/
  m !! p = Some LP_EOF /\ lpValidateNext m (Some p) (Z.of_nat (length m)) = Some (true, None) \/
  exists x, let q := (p + length (ent x))%nat in
    lpValidateNext m (Some p) (Z.of_nat (length m)) = Some (true, Some q) /\
    entry_ok x /\ drop p m = ent x ++ drop q m /\ (q < length m)%nat /\
    lpDecodeBacklen m (Z.of_nat q - 1) = Some (Z.of_nat (length x.1)).
Proof.
  intros Hok. unfold lpValidateNext. destruct (OUT_OF_RANGE _ p) eqn:Hor; [by left|].
  unfold OUT_OF_RANGE in Hor. destruct (lookup_lt_is_Some_2 m p ltac:(lia)) as [b Hb]. rewrite Hb.
  cbn [mbind option_bind]. destruct (Z.eqb_spec b LP_EOF) as [->|Heof]; [right; left; done|].
  destruct (Z.eqb_spec (lpCurrentEncodedSizeBytes b) 0) as [|Hnz]; [by left|].
  set (lb := lpCurrentEncodedSizeBytes b) in *.
  destruct (OUT_OF_RANGE _ (p + Z.to_nat lb)) eqn:Hor2; [by left|]. unfold OUT_OF_RANGE in Hor2.
  assert (Hlb : 0 <= lb) by (unfold lb, lpCurrentEncodedSizeBytes; repeat case_match; lia).
  destruct (enc_size_total m p b Hok Hb Heof Hnz ltac:(lia)) as (n & Hn & Hcase). rewrite Hn.
  cbn [mbind option_bind]. set (eb := lpEncodeBacklenBytes n).
  destruct (OUT_OF_RANGE _ (p + Z.to_nat (n + eb))) eqn:Hor3; [by left|]. unfold OUT_OF_RANGE in Hor3.
  pose proof (lpEncodeBacklenBytes_bound n) as Heb. fold eb in Heb.
  assert (Hn0 : 0 <= n) by (destruct Hcase as [|(_ & l & _ & ? & ->)]; lia).
  set (q := (p + Z.to_nat (n + eb))%nat) in *. unfold LP_HDR_SIZE in *.
  destruct (decode_total m (q - 1) Hok ltac:(lia)) as (v & c & Hv & Hc & Hvc).
  replace (Z.of_nat (q - 1)) with (Z.of_nat q - 1) in Hv by lia. rewrite Hv. cbn [mbind option_bind].
  destruct (Z.eqb_spec (u64 (v + eb)) (n + eb)) as [Heq|]; [|by left]. cbn [negb].
  assert (Hvn : v = n /\ 0 <= v < 2 ^ 35 /\ v mod 128 = c mod 128).
  { destruct Hvc as [->|[Hvr Hvm]].
    - unfold UINT64_MAX in Heq. replace (2 ^ 64 - 1 + eb) with (2 ^ 64 + (eb - 1)) in Heq by lia.
      rewrite uwrap_add_pow, uwrap_small in Heq by (unfold urange; lia). lia.
    - rewrite uwrap_small in Heq by (unfold urange; lia). split_and!; [lia..|done]. }
  destruct Hvn as (-> & Hvr & Hvm). right. right.
  destruct Hcase as [Hnlb|(-> & l & Hl & Hlr & Hnl)]; cycle 1.
  { exfalso. assert (Heb1 : eb = 1) by (unfold eb, lpEncodeBacklenBytes; destruct (Z.leb_spec n 127); lia).
    refine (wrapped_size_rejected m p l n n c Hok Hb Hl Hlr Hnl _ Hvm Hvr eq_refl).
    rewrite <- Hc. f_equal. lia. }
  fold lb in Hnlb. destruct (entry_at m p n b Hok Hb Heof Hn Hnz ltac:(lia) ltac:(lia) ltac:(lia))
    as (x & Hx & Hx1 & Hxe & Hd).
  assert (Hq : q = (p + length (ent x))%nat) by lia.
  exists x. rewrite Hx1, <- Hq in *. split_and!; [done..|lia|done].
Qed.

(** The caller's check of the entry at [q]. *)
Definition cb_ok (cb : option (nat -> Z -> bool)) (q : nat) (num : Z) : bool :=
  match cb with Some f => f q num | None => true end.

Section Validation.
Context (m : bytes) (num : Z) (cb : option (nat -> Z -> bool)) (Hok : bytes_ok m).

(** The entries [es] have been walked over. *)
Record walked (es : list entry) : Prop := {
  wk_block : m = take LP_HDR_SIZE m ++ body es ++ drop (off es) m;
  wk_in : (off es < length m)%nat;
  wk_entries : Forall entry_ok es;
  wk_backlen es1 x es2 : es = es1 ++ x :: es2 ->
    lpDecodeBacklen m (Z.of_nat (off es1 + length (ent x)) - 1) = Some (Z.of_nat (length x.1));
  wk_cb es1 x es2 : es = es1 ++ x :: es2 -> cb_ok cb (off es1) num = true
}.

Lemma walked_nil : (LP_HDR_SIZE < length m)%nat -> walked [].
Proof.
  intros Hl. split; [|done|done|by intros [] ? ?..].
  change (off []) with LP_HDR_SIZE. cbn [body map concat app]. by rewrite take_drop.
Qed.

Lemma snoc_split {T} (es : list T) y es1 x es2 : es ++ [y] = es1 ++ x :: es2 ->
  (es = es1 /\ y = x /\ es2 = []) \/ exists es2', es = es1 ++ x :: es2' /\ es2 = es2' ++ [y].
Proof.
  destruct es2 as [|z es2 _] using rev_ind; intros H.
  - apply app_inj_tail in H as [-> ->]. by left.
  - rewrite app_comm_cons, app_assoc in H. apply app_inj_tail in H as [-> ->]. right. by eexists.
Qed.

Lemma walked_snoc es x : walked es -> entry_ok x ->
  drop (off es) m = ent x ++ drop (off es + length (ent x)) m ->
  (off es + length (ent x) < length m)%nat ->
  lpDecodeBacklen m (Z.of_nat (off es + length (ent x)) - 1) = Some (Z.of_nat (length x.1)) ->
  cb_ok cb (off es) num = true ->
  walked (es ++ [x]).
Proof.
  intros Hw Hx Hd Hl Hdec Hcb. split.
  - rewrite body_app, body_cons, off_snoc. cbn [body map concat]. rewrite app_nil_r, <- app_assoc, <- Hd.
    apply Hw.
  - by rewrite off_snoc.
  - apply Forall_app. split; [apply Hw|by constructor].
  - intros es1 y es2 [(-> & -> & ->)|(es2' & -> & ->)]%snoc_split; [done|]. by eapply Hw.
  - intros es1 y es2 [(-> & -> & ->)|(es2' & -> & ->)]%snoc_split; [done|]. by eapply Hw.
Qed.

Lemma validate_loop fuel : forall es, walked es -> (length m - off es <= fuel)%nat ->
  exists r, lpValidateIntegrity_loop fuel m (Z.of_nat (length m)) num cb (Some (off es))
              (u32 (Z.of_nat (length es))) = Some r /\
    forall p c, r = Some (p, c) ->
      exists es', walked es' /\ p = Some (off es') /\ m !! off es' = Some LP_EOF /\
        c = u32 (Z.of_nat (length es')).
Proof.
  induction fuel as [|fuel IH]; intros es Hw Hf; pose proof (wk_in _ Hw); [lia|].
  destruct (lookup_lt_is_Some_2 m (off es) ltac:(lia)) as [b Hb].
  cbn [lpValidateIntegrity_loop]. rewrite Hb. cbn [mbind option_bind].
  destruct (Z.eqb_spec b LP_EOF) as [->|Heof].
  { eexists. split; [done|]. intros p c [= <- <-]. by exists es. }
  destruct (validate_next_spec m (off es) Hok) as [->|[[? _]|(x & -> & Hx & Hd & Hl & Hdec)]].
  - exists None. by split.
  - congruence.
  - cbn [mbind option_bind negb]. fold (cb_ok cb (off es) num).
    replace (match cb with Some f => negb (f (off es) num) | None => false end)
      with (negb (cb_ok cb (off es) num)) by (by destruct cb).
    destruct (cb_ok cb (off es) num) eqn:Hcb; cbn [negb]; [|exists None; by split].
    assert (Hw' : walked (es ++ [x])) by (by apply walked_snoc).
    rewrite <- off_snoc. assert (Hpos : (0 < length (ent x))%nat).
    { rewrite ent_length. destruct Hx as [(_ & _ & ? & _) _]. lia. }
    destruct (IH (es ++ [x]) Hw' ltac:(rewrite off_snoc; lia)) as (r & Hr & Hspec).
    exists r. split; [|done]. rewrite <- Hr. f_equal. rewrite length_app. cbn [length].
    unfold uwrap. rewrite Z.add_mod_idemp_l by lia. f_equal. lia.
Qed.

End Validation.

Lemma validate_loop_complete m es num cb fuel : forall i,
  lp_wf m es num -> total es = Z.of_nat (length m) ->
  (forall i, (i < length es)%nat -> cb_ok cb (off (take i es)) num = true) ->
  (i <= length es)%nat -> (length es - i <= fuel)%nat ->
  lpValidateIntegrity_loop fuel m (Z.of_nat (length m)) num cb (Some (off (take i es))) (Z.of_nat i)
  = Some (Some (Some (off es), Z.of_nat (length es))).
Proof.
  induction fuel as [|fuel IH]; intros i W Ht Hcb Hi Hf;
    destruct (wf_byte W i ltac:(lia)) as (b & Hb & Heq); cbn [lpValidateIntegrity_loop];
    rewrite Hb; cbn [mbind option_bind]; rewrite Heq; case_bool_decide as Hc.
  1, 3: by rewrite off_all, Hc by lia.
  - lia.
  - destruct (lookup_lt_is_Some_2 es i ltac:(lia)) as [x Hx].
    rewrite <- Ht. rewrite (validate_entry W _ _ _ (take_split i x Hx)). cbn [mbind option_bind negb].
    replace (match cb with Some f => negb (f (off (take i es)) num) | None => false end)
      with (negb (cb_ok cb (off (take i es)) num)) by (by destruct cb).
    rewrite Hcb by lia. cbn [negb]. rewrite <- (off_take_S i x Hx), Ht.
    destruct (wf_count W). rewrite uwrap_small by (unfold urange; lia).
    replace (Z.of_nat i + 1) with (Z.of_nat (S i)) by lia. apply IH; (done || lia).
Qed.

(** A block that was walked over to its end marker is well formed. *)
Lemma walked_wf m num cb es : bytes_ok m -> walked m num cb es -> off es = (length m - 1)%nat ->
  m !! off es = Some LP_EOF -> lpGetTotalBytes m = Some (Z.of_nat (length m)) ->
  lpGetNumElements m = Some num ->
  (num <> LP_HDR_NUMELE_UNKNOWN -> num = Z.of_nat (length es)) ->
  lp_wf m es num /\ total es = Z.of_nat (length m).
Proof.
  intros Hok Hw Hoff Heof Ht Hnum Hn. pose proof (wk_in _ _ _ _ Hw) as Hin.
  assert (H6 : (LP_HDR_SIZE < length m)%nat) by (unfold off in *; lia). unfold LP_HDR_SIZE in H6.
  assert (Htot : total es = Z.of_nat (length m)) by (rewrite total_off; lia).
  unfold lpGetTotalBytes in Ht. rewrite get_le_at in Ht by (done || lia). injection Ht as Ht.
  unfold lpGetNumElements in Hnum. rewrite get_le_at in Hnum by (done || lia). injection Hnum as Hnum.
  rewrite drop_0 in Ht.
  assert (H4 : bytes_ok (take 4 m)) by (by apply Forall_take).
  assert (H2 : bytes_ok (take 2 (drop 4 m))) by (by apply Forall_take, Forall_drop).
  assert (L4 : length (take 4 m) = 4%nat) by (rewrite length_take; lia).
  assert (L2 : length (take 2 (drop 4 m)) = 2%nat) by (rewrite length_take, length_drop; lia).
  split; [|done]. split; [|apply Hw| | |apply Hw].
  - exists []. rewrite (wk_block _ _ _ _ Hw) at 1. unfold header.
    pose proof (le_bytes_val _ H4) as E4. rewrite L4, Ht, <- Htot in E4. rewrite E4.
    pose proof (le_bytes_val _ H2) as E2. rewrite L2, Hnum in E2. rewrite E2.
    change LP_HDR_SIZE with (4 + 2)%nat. rewrite <- take_take_drop. f_equal. f_equal.
    rewrite (drop_S _ _ _ Heof). by rewrite drop_ge by lia.
  - pose proof (le_val_range _ H4) as Hr. rewrite L4, Ht, <- Htot in Hr. apply Hr.
  - split; [|done]. pose proof (le_val_range _ H2) as Hr. rewrite L2, Hnum in Hr.
    unfold urange in Hr. change (8 * Z.of_nat 2) with 16 in Hr. unfold LP_HDR_NUMELE_UNKNOWN. lia.
Qed.

Lemma lpValidateIntegrity_sound m cb : bytes_ok m ->
  exists r, lpValidateIntegrity m (length m) true cb = Some r /\
    (r = true -> exists es num, lp_wf m es num /\ total es = Z.of_nat (length m) /\
       forall i, (i < length es)%nat -> cb_ok cb (off (take i es)) num = true).
Proof.
  intros Hok. unfold lpValidateIntegrity.
  destruct (Nat.ltb_spec (length m) (LP_HDR_SIZE + 1)) as [|Hl]; [exists false; by split|].
  unfold LP_HDR_SIZE in Hl. destruct (get_le_range m 4 0 ltac:(lia) Hok) as (t & Ht & Htr).
  unfold lpGetTotalBytes. rewrite Ht. cbn [mbind option_bind].
  destruct (Z.eqb_spec t (Z.of_nat (length m))) as [->|]; cbn [negb]; [|exists false; by split].
  destruct (lookup_lt_is_Some_2 m (length m - 1) ltac:(lia)) as [b Hb]. rewrite Hb. cbn [mbind option_bind].
  destruct (Z.eqb_spec b LP_EOF) as [->|]; cbn [negb]; [|exists false; by split].
  destruct (get_le_range m 2 4 ltac:(lia) Hok) as (num & Hnum & Hnr).
  unfold lpGetNumElements. rewrite Hnum. cbn [mbind option_bind].
  destruct (validate_loop m num cb Hok (length m) [] (walked_nil m num cb Hl) ltac:(lia)) as (r & Hr & Hspec).
  change (u32 (Z.of_nat (length (@nil entry)))) with 0 in Hr. change (off []) with LP_HDR_SIZE in Hr.
  rewrite Hr. cbn [mbind option_bind]. destruct r as [[p c]|]; [|exists false; by split].
  destruct (Hspec p c eq_refl) as (es & Hw & -> & Heof & ->).
  case_bool_decide as Hp; cbn [negb]; [|exists false; by split]. injection Hp as Hp.
  assert (Hcount : u32 (Z.of_nat (length es)) = Z.of_nat (length es)).
  { apply uwrap_small. pose proof (body_length_ge es (wk_entries _ _ _ _ Hw)). unfold off in Hp.
    unfold urange in *. simpl in Htr. lia. }
  destruct (Z.eqb_spec num LP_HDR_NUMELE_UNKNOWN) as [Hu|Hu]; cbn [negb andb];
    [|destruct (Z.eqb_spec num (u32 (Z.of_nat (length es)))) as [Hn|]; cbn [negb]; [|exists false; by split]].
  all: exists true; split; [done|intros _].
  all: destruct (walked_wf m num cb es Hok Hw Hp Heof Ht Hnum) as [W Htot]; [intros; congruence|].
  all: exists es, num; split_and!; [done..|]; intros i Hi;
    destruct (lookup_lt_is_Some_2 es i Hi) as [x Hx];
    exact (wk_cb _ _ _ _ Hw _ _ _ (take_split i x Hx)).
Qed.

Lemma lpValidateIntegrity_complete m cb es num :
  lp_wf m es num -> total es = Z.of_nat (length m) ->
  (forall i, (i < length es)%nat -> cb_ok cb (off (take i es)) num = true) ->
  lpValidateIntegrity m (length m) true cb = Some true.
Proof.
  intros W Ht Hcb. pose proof (total_off es) as Hto. unfold lpValidateIntegrity.
  destruct (Nat.ltb_spec (length m) (LP_HDR_SIZE + 1)); [unfold off in Hto; lia|].
  rewrite (wf_get_total W), Ht. cbn [mbind option_bind]. rewrite Z.eqb_refl. cbn [negb].
  replace (length m - 1)%nat with (off es) by lia. rewrite (wf_eof W). cbn [mbind option_bind].
  rewrite Z.eqb_refl, (wf_get_num W). cbn [negb mbind option_bind]. pose proof (wf_count W).
  pose proof (validate_loop_complete m es num cb (length m) 0 W Ht Hcb ltac:(lia) ltac:(lia)) as Hloop.
  change (off (take 0 es)) with LP_HDR_SIZE in Hloop. change (Z.of_nat 0) with 0 in Hloop. rewrite Hloop.
  cbn [mbind option_bind]. rewrite bool_decide_eq_true_2 by done. cbn [negb].
  destruct (wf_num _ _ _ W) as [_ Hn]. destruct (Z.eqb_spec num LP_HDR_NUMELE_UNKNOWN) as [|Hk]; [done|].
  by rewrite (Hn Hk), Z.eqb_refl.
Qed.

(** C16. [lpValidateIntegrity] on an arbitrary block of bytes, with or without a
    check of the caller: it always returns, without reading outside the block,
    and a deep check accepts exactly the blocks that are the image of a list of
    entries with a right header, every one accepted by the caller. *)
Theorem lpValidateIntegrity_exact m cb : bytes_ok m ->
  exists r, lpValidateIntegrity m (length m) true cb = Some r /\
    (r = true <-> exists es num, lp_wf m es num /\ total es = Z.of_nat (length m) /\
       forall i, (i < length es)%nat -> cb_ok cb (off (take i es)) num = true).
Proof.
  intros Hok. destruct (lpValidateIntegrity_sound m cb Hok) as (r & Hr & Hs). exists r.
  split; [done|]. split; [done|]. intros (es & num & W & Ht & Hcb).
  rewrite (lpValidateIntegrity_complete m cb es num W Ht Hcb) in Hr. congruence.
Qed.

(** On a well formed listpack, whatever the spelling of its backlens, a
    cursor moves over the entries in order: [lpFirst], [lpLast], [lpNext] and
    [lpPrev] give the entry before or after, or NULL at the ends, and [lpSeek]
    with any index, counted from the end when negative, gives the entry at that
    position or NULL, whether the element count is known or not. *)
Theorem lp_navigation m es num : lp_wf m es num ->
  lpFirst m = Some (nth_ptr es 0) /\
  lpLast m = Some (if decide (es = []) then None else nth_ptr es (length es - 1)) /\
  (forall i, (i < length es)%nat ->
     lpNext m (off (take i es)) = Some (nth_ptr es (S i)) /\
     lpPrev m (off (take i es)) = Some (if decide (i = 0%nat) then None else nth_ptr es (i - 1))) /\
  (forall index, lpSeek m index = Some (seek_ptr es index)).
Proof.
  intros W. split_and!; [apply (wf_first W)|apply (wf_last W)| |apply (wf_seek W)].
  intros i Hi. split; [by apply (wf_next W)|]. destruct i as [|i]; [done|].
  rewrite (wf_prev W) by lia. rewrite decide_False by lia. rewrite nth_ptr_Some by lia.
  do 3 f_equal. f_equal. lia.
Qed.

(** * Concrete instances *)

(** The listpack of "ab", 7 and -300. *)
Definition sample_entries : list entry :=
  [([130; 97; 98], [3]); ([7], [1]); ([222; 212], [2])].
Definition sample : bytes := header sample_entries 3 ++ body sample_entries ++ [LP_EOF].

Lemma sample_wf : lp_wf sample sample_entries 3.
Proof.
  split; [by exists []| |done|done|].
  - repeat (apply Forall_cons; split; [split; [|done]; split_and!;
      [by apply (bool_decide_unpack _); vm_compute|done|simpl; lia|done]|]). constructor.
  - intros [|y1 [|y2 [|y3 es1]]] x es2 H; injection H as; subst; try done. by destruct es1.
Qed.

Lemma lpValidateIntegrity_witness :
  exists r, lpValidateIntegrity sample (length sample) true None = Some r /\
    (r = true <-> exists es num, lp_wf sample es num /\ total es = Z.of_nat (length sample) /\
       forall i, (i < length es)%nat -> cb_ok None (off (take i es)) num = true).
Proof.
  apply (lpValidateIntegrity_exact sample None). apply (bool_decide_unpack _). vm_compute. exact I.
Defined.

Lemma lp_navigation_witness :
  lpFirst sample = Some (nth_ptr sample_entries 0) /\
  lpLast sample = Some (if decide (sample_entries = []) then None else nth_ptr sample_entries (length sample_entries - 1)) /\
  (forall i, (i < length sample_entries)%nat ->
     lpNext sample (off (take i sample_entries)) = Some (nth_ptr sample_entries (S i)) /\
     lpPrev sample (off (take i sample_entries))
     = Some (if decide (i = 0%nat) then None else nth_ptr sample_entries (i - 1))) /\
  (forall index, lpSeek sample index = Some (seek_ptr sample_entries index)).
Proof. apply (lp_navigation sample sample_entries 3 sample_wf). Defined.

End Listpack.
