(* ===== verification/ListpackOps.v ===== *)
(** The operations that change a listpack: the third part of listpack.c.

    Insertion, replacement and deletion of one entry, of a range and of a batch,
    and the merge of two listpacks, on the block of bytes.  The theorems relate
    the block after the operation to the list of entries. *)

From S2P Require Import Prelude Util ListpackEnc Listpack.

Module LpOps.
Import Util Lp Listpack.

Section Operations.
Context {A : Allocator}.

Definition ASSERT_INTEGRITY (m : bytes) (p : nat) : option unit :=
  t ← lpGetTotalBytes m;
  guard ((LP_HDR_SIZE <=? p)%nat && (Z.of_nat p <? t)).

Definition ASSERT_INTEGRITY_LEN (m : bytes) (p : nat) (len : Z) : option unit :=
  t ← lpGetTotalBytes m;
  guard ((LP_HDR_SIZE <=? p)%nat && (Z.of_nat p + len <? t)).

(** [elestr] and [eleint] are the string and the encoded integer, NULL being
    [None]; [size] is the length of the one that is given.  The result is the
    new listpack with [*newp], or NULL. *)
Definition lpInsert (m : bytes) (elestr eleint : option bytes) (p : nat) (w : lpwhere)
    : option (option (bytes * option nat)) :=
  let delete := match elestr, eleint with None, None => true | _, _ => false end in
  let w := if delete then LP_REPLACE else w in
  '(p, w) ← match w with
            | LP_AFTER => p ← lpSkip m p; _ ← ASSERT_INTEGRITY m p; Some (p, LP_BEFORE)
            | _ => Some (p, w)
            end;
  let poff := p in
  let '(eleint, enclen) :=
    match elestr with
    | Some s =>
      match lpEncodeGetType s with
      | inl intenc => (Some intenc, Z.of_nat (length intenc))
      | inr enclen => (None, enclen)
      end
    | None =>
      match eleint with
      | Some i => (Some i, Z.of_nat (length i))
      | None => (None, 0)
      end
    end in
  let backlen := if delete then [] else lpEncodeBacklen enclen in
  let backlen_size := Z.of_nat (length backlen) in
  old_listpack_bytes ← lpGetTotalBytes m;
  replaced_len ←
    match w with
    | LP_REPLACE =>
      l ← lpCurrentEncodedSizeUnsafe m p;
      let l := u32 (l + lpEncodeBacklenBytes l) in
      _ ← ASSERT_INTEGRITY_LEN m p l; Some l
    | _ => Some 0
    end;
  let new_listpack_bytes := u64 (old_listpack_bytes + enclen + backlen_size - replaced_len) in
  if new_listpack_bytes >? UINT32_MAX then Some None
  else
    let m :=
      if (new_listpack_bytes >? old_listpack_bytes) && (new_listpack_bytes >? Z.of_nat (length m))
      then lp_realloc m (Z.to_nat new_listpack_bytes) else m in
    let gap := Z.to_nat (enclen + backlen_size) in
    m ← match w with
        | LP_REPLACE =>
          memmove_n m (poff + gap) (poff + Z.to_nat replaced_len)
            (old_listpack_bytes - Z.of_nat poff - replaced_len)
        | _ => memmove_n m (poff + gap) poff (old_listpack_bytes - Z.of_nat poff)
        end;
    let m := if new_listpack_bytes <? old_listpack_bytes
             then lp_realloc m (Z.to_nat new_listpack_bytes) else m in
    b ← m !! poff;
    let newp := if delete && (b =? LP_EOF) then None else Some poff in
    m ← (if delete then Some m
         else
           m ← match eleint with
               | Some i => store m poff i
               | None =>
                 match elestr with
                 | Some s => store m poff (lpEncodeString s)
                 | None => None
                 end
               end;
           store m (poff + Z.to_nat enclen) backlen);
    m ← (if negb (match w with LP_REPLACE => true | _ => false end) || delete then
           num_elements ← lpGetNumElements m;
           if negb (num_elements =? LP_HDR_NUMELE_UNKNOWN) then
             if negb delete then lpSetNumElements m (u32 (num_elements + 1))
             else lpSetNumElements m (u32 (num_elements - 1))
           else Some m
         else Some m);
    m ← lpSetTotalBytes m new_listpack_bytes;
    Some (Some (m, newp)).

Definition lpInsertString (m : bytes) (s : bytes) (p : nat) (w : lpwhere) :=
  lpInsert m (Some s) None p w.

Definition lpInsertInteger (m : bytes) (lval : Z) (p : nat) (w : lpwhere) :=
  lpInsert m None (Some (lpEncodeIntegerGetType lval)) p w.

(** The position of the end marker. *)
Definition eofptr (m : bytes) : option nat :=
  t ← lpGetTotalBytes m; _ ← guard (1 <=? t); Some (Z.to_nat (t - 1)).

Definition lpAppend (m : bytes) (ele : bytes) :=
  p ← eofptr m; lpInsert m (Some ele) None p LP_BEFORE.

Definition lpAppendInteger (m : bytes) (lval : Z) :=
  p ← eofptr m; lpInsertInteger m lval p LP_BEFORE.

Definition lpPrepend (m : bytes) (s : bytes) :=
  p ← lpFirst m;
  match p with
  | None => lpAppend m s
  | Some p => lpInsert m (Some s) None p LP_BEFORE
  end.

Definition lpPrependInteger (m : bytes) (lval : Z) :=
  p ← lpFirst m;
  match p with
  | None => lpAppendInteger m lval
  | Some p => lpInsertInteger m lval p LP_BEFORE
  end.

Definition lpReplace (m : bytes) (p : nat) (s : bytes) := lpInsert m (Some s) None p LP_REPLACE.
Definition lpReplaceInteger (m : bytes) (p : nat) (lval : Z) := lpInsertInteger m lval p LP_REPLACE.
Definition lpDelete (m : bytes) (p : nat) := lpInsert m None None p LP_REPLACE.

(** ** Ranges and batches *)

(** [while (num--) { deleted++; tail = lpSkip(tail); ... }] *)
Fixpoint delete_range_loop (fuel : nat) (m : bytes) (lpbytes : Z) (num : Z) (tail : nat) (deleted : Z)
    : option (nat * Z) :=
  if num =? 0 then Some (tail, deleted)
  else
    match fuel with
    | O => None
    | S fuel =>
      let deleted := deleted + 1 in
      tail ← lpSkip m tail;
      b ← m !! tail;
      if b =? LP_EOF then Some (tail, deleted)
      else _ ← lpAssertValidEntry m lpbytes tail;
           delete_range_loop fuel m lpbytes (num - 1) tail deleted
    end.

(** The listpack and the new [*p]. *)
Definition lpDeleteRangeWithEntry (m : bytes) (p : nat) (num : Z) : option (bytes * option nat) :=
  lpbytes ← lpBytes m;
  let eofptr := lpbytes - 1 in
  let first := p in
  if num =? 0 then Some (m, Some p)
  else
    '(tail, deleted) ← delete_range_loop (length m) m lpbytes num p 0;
    let poff := first in
    m ← memmove_n m first tail (eofptr - Z.of_nat tail + 1);
    m ← lpSetTotalBytes m (u64 (lpbytes - (Z.of_nat tail - Z.of_nat first)));
    numele ← lpGetNumElements m;
    m ← (if negb (numele =? LP_HDR_NUMELE_UNKNOWN) then lpSetNumElements m (u64 (numele - deleted))
         else Some m);
    m ← lpShrinkToFit m;
    b ← m !! poff;
    Some (m, if b =? LP_EOF then None else Some poff).

Definition lpDeleteRange (m : bytes) (index num : Z) : option bytes :=
  numele ← lpGetNumElements m;
  if num =? 0 then Some m
  else
    q ← lpSeek m index;
    match q with
    | None => Some m
    | Some p =>
      let index := if negb (numele =? LP_HDR_NUMELE_UNKNOWN) && (index <? 0) then numele + index
                   else index in
      if negb (numele =? LP_HDR_NUMELE_UNKNOWN) && (u64 (numele - u64 index) <=? num) then
        m ← store m p [LP_EOF];
        m ← lpSetTotalBytes m (Z.of_nat p + 1);
        m ← lpSetNumElements m index;
        lpShrinkToFit m
      else
        '(m, _) ← lpDeleteRangeWithEntry m p num; Some m
    end.

(** The loop over the array [ps]; [dst] moves with the bytes that are kept. *)
Fixpoint lpBatchDelete_loop (m : bytes) (lp_end dst : nat) (ps : list nat) : option (bytes * nat) :=
  match ps with
  | [] => Some (m, dst)
  | skip :: rest =>
    b ← m !! skip;
    _ ← guard (negb (b =? LP_EOF));
    keep_start ← lpSkip m skip;
    let keep_end := match rest with next :: _ => next | [] => lp_end end in
    if match rest with _ :: _ => (keep_start =? keep_end)%nat | [] => false end
    then lpBatchDelete_loop m lp_end dst rest
    else
      _ ← guard (keep_start <? keep_end)%nat;
      let bytes_to_keep := (keep_end - keep_start)%nat in
      m ← memmove m dst keep_start bytes_to_keep;
      lpBatchDelete_loop m lp_end (dst + bytes_to_keep) rest
  end.

Definition lpBatchDelete (m : bytes) (ps : list nat) : option bytes :=
  match ps with
  | [] => Some m
  | p0 :: _ =>
    total_bytes ← lpGetTotalBytes m;
    let lp_end := Z.to_nat total_bytes in
    b ← m !! (lp_end - 1)%nat;
    _ ← guard (b =? LP_EOF);
    '(m, dst) ← lpBatchDelete_loop m lp_end p0 ps;
    let deleted_bytes := Z.of_nat lp_end - Z.of_nat dst in
    let total_bytes := u64 (total_bytes - deleted_bytes) in
    b ← m !! Z.to_nat (total_bytes - 1);
    _ ← guard (b =? LP_EOF);
    m ← lpSetTotalBytes m total_bytes;
    numele ← lpGetNumElements m;
    m ← (if negb (numele =? LP_HDR_NUMELE_UNKNOWN)
         then lpSetNumElements m (u64 (numele - Z.of_nat (length ps))) else Some m);
    lpShrinkToFit m
  end.

(** The bytes of one entry of a batch (with its [sval] or its [lval]): the
    encoding, then the backlen. *)
Definition batch_enc (e : listpackEntry) : bytes * Z :=
  match e with
  | SVal s =>
    match lpEncodeGetType s with
    | inl intenc => (intenc, Z.of_nat (length intenc))
    | inr enclen => (lpEncodeString s, enclen)
    end
  | LVal lval => let intenc := lpEncodeIntegerGetType lval in (intenc, Z.of_nat (length intenc))
  end.

(** The first loop: [addedlen]. *)
Definition batch_addedlen (entries : list listpackEntry) : Z :=
  fold_left (fun addedlen e =>
    let '(_, enclen) := batch_enc e in
    u64 (u64 (addedlen + enclen) + Z.of_nat (length (lpEncodeBacklen enclen)))) entries 0.

(** The second loop writes the entries at [dst]; [*newp] is the last one. *)
Fixpoint batch_write (m : bytes) (dst : nat) (entries : list listpackEntry) (newp : option nat)
    : option (bytes * option nat) :=
  match entries with
  | [] => Some (m, newp)
  | e :: entries =>
    let '(enc, enclen) := batch_enc e in
    m ← store m dst enc;
    m ← store m (dst + Z.to_nat enclen) (lpEncodeBacklen enclen);
    batch_write m (dst + Z.to_nat enclen + length (lpEncodeBacklen enclen)) entries (Some dst)
  end.

Definition lpBatchInsert (m : bytes) (p : nat) (w : lpwhere) (entries : list listpackEntry)
    : option (option (bytes * option nat)) :=
  _ ← guard (match w with LP_REPLACE => false | _ => true end);
  _ ← guard (negb (length entries =? 0)%nat);
  let len := Z.of_nat (length entries) in
  p ← match w with
      | LP_AFTER => p ← lpSkip m p; _ ← ASSERT_INTEGRITY m p; Some p
      | _ => Some p
      end;
  let addedlen := batch_addedlen entries in
  old_listpack_bytes ← lpGetTotalBytes m;
  let new_listpack_bytes := u64 (old_listpack_bytes + addedlen) in
  if new_listpack_bytes >? UINT32_MAX then Some None
  else
    let poff := p in
    let m :=
      if (new_listpack_bytes >? old_listpack_bytes) && (new_listpack_bytes >? Z.of_nat (length m))
      then lp_realloc m (Z.to_nat new_listpack_bytes) else m in
    m ← memmove_n m (poff + Z.to_nat addedlen) poff (old_listpack_bytes - Z.of_nat poff);
    '(m, newp) ← batch_write m poff entries None;
    num_elements ← lpGetNumElements m;
    m ← (if negb (num_elements =? LP_HDR_NUMELE_UNKNOWN) then
           if len >? LP_HDR_NUMELE_UNKNOWN - num_elements
           then lpSetNumElements m LP_HDR_NUMELE_UNKNOWN
           else lpSetNumElements m (u32 (num_elements + len))
         else Some m);
    m ← lpSetTotalBytes m new_listpack_bytes;
    Some (Some (m, newp)).

Definition lpBatchAppend (m : bytes) (entries : list listpackEntry) :=
  p ← eofptr m; lpBatchInsert m p LP_BEFORE entries.

(** ** Merge and copy *)

(** [first] and [second] are [*first] and [*second], [same] tells whether they
    are one pointer.  The result is the returned pointer's block (NULL is
    [None]) with the new [*first] and [*second]. *)
Definition lpMerge (first second : option bytes) (same : bool)
    : option (option bytes * (option bytes * option bytes)) :=
  match first, second with
  | Some f, Some s =>
    if same then Some (None, (first, second))
    else
      first_bytes ← lpBytes f;
      '(f, first_len) ← lpLength f;
      second_bytes ← lpBytes s;
      '(s, second_len) ← lpLength s;
      let append := first_bytes >=? second_bytes in
      let '(target, target_bytes, source, source_bytes) :=
        if append then (f, first_bytes, s, second_bytes) else (s, second_bytes, f, first_bytes) in
      let lpbytes := u64 (first_bytes + second_bytes - Z.of_nat LP_HDR_SIZE - 1) in
      _ ← guard (lpbytes <? UINT32_MAX);
      let lplength := u64 (first_len + second_len) in
      let lplength := if lplength <? UINT16_MAX then lplength else UINT16_MAX in
      let target := lp_realloc target (Z.to_nat lpbytes) in
      target ← (if append then
                  src ← load source LP_HDR_SIZE (Z.to_nat (source_bytes - Z.of_nat LP_HDR_SIZE));
                  store target (Z.to_nat (target_bytes - 1)) src
                else
                  target ← memmove_n target (Z.to_nat (source_bytes - 1)) LP_HDR_SIZE
                             (target_bytes - Z.of_nat LP_HDR_SIZE);
                  src ← load source 0 (Z.to_nat (source_bytes - 1));
                  store target 0 src);
      target ← lpSetNumElements target lplength;
      target ← lpSetTotalBytes target lpbytes;
      Some (Some target, if append then (Some target, None) else (None, Some target))
  | _, _ => Some (None, (first, second))
  end.

Definition lpDup (m : bytes) : option bytes :=
  lpbytes ← lpBytes m;
  bs ← load m 0 (Z.to_nat lpbytes);
  store (lp_malloc (Z.to_nat lpbytes)) 0 bs.

End Operations.

(** * Listpacks as lists of entries *)

(** The entry the code writes for the encoded element [e]. *)
Definition mkent (e : bytes) : entry := (e, lpEncodeBacklen (Z.of_nat (length e))).

Definition ents (ps : list bytes) : list entry := map mkent ps.

(** [m] holds exactly the encoded elements [ps]. *)
Record lp_rep (m : bytes) (ps : list bytes) (num : Z) : Prop := {
  rep_block : exists slack, m = header (ents ps) num ++ body (ents ps) ++ LP_EOF :: slack;
  rep_entries : Forall enc_ok ps;
  rep_total : total (ents ps) < 2 ^ 32;
  rep_num : num_ok (ents ps) num
}.

Lemma ents_app ps qs : ents (ps ++ qs) = ents ps ++ ents qs.
Proof. apply map_app. Qed.

Lemma ents_length ps : length (ents ps) = length ps.
Proof. apply length_map. Qed.

Lemma ents_take i ps : ents (take i ps) = take i (ents ps).
Proof. symmetry. apply firstn_map. Qed.

Lemma mkent_ok e : enc_ok e -> entry_ok (mkent e).
Proof. intros He. split; [done|]. apply lpEncodeBacklen_length. Qed.

Lemma ents_ok ps : Forall enc_ok ps -> Forall entry_ok (ents ps).
Proof. induction 1; constructor; [by apply mkent_ok|done]. Qed.

Lemma map_split {T U} (f : T -> U) xs es1 y es2 : map f xs = es1 ++ y :: es2 ->
  exists xs1 x xs2, xs = xs1 ++ x :: xs2 /\ es1 = map f xs1 /\ y = f x /\ es2 = map f xs2.
Proof.
  revert es1. induction xs as [|x xs IH]; intros [|e es1] H; try done.
  - injection H as <- <-. by exists [], x, xs.
  - injection H as <- H. destruct (IH _ H) as (xs1 & x' & xs2 & -> & -> & -> & ->).
    by exists (x :: xs1), x', xs2.
Qed.

Lemma rep_wf m ps num : lp_rep m ps num -> lp_wf m (ents ps) num.
Proof.
  intros [[slack Hm] He Ht Hn]. split; [by exists slack|by apply ents_ok|done|done|].
  intros es1 x es2 Hes. pose proof Hes as (ps1 & e & ps2 & Hps & -> & -> & ->)%map_split.
  cbn [mkent fst]. pose proof (off_le (map mkent ps1) (mkent e) (map mkent ps2)) as Hle.
  rewrite <- Hes, ent_length in Hle. pose proof (total_off (ents ps)). cbn [mkent fst snd] in Hle.
  pose proof (lpDecodeBacklen_encode (header (ents ps) num ++ body (map mkent ps1) ++ e)
    (Z.of_nat (length e)) (body (map mkent ps2) ++ LP_EOF :: slack)) as Hd.
  rewrite Hm. replace (body (ents ps)) with (body (map mkent ps1) ++ ent (mkent e) ++ body (map mkent ps2))
    by (rewrite Hes, body_app; done).
  rewrite !length_app, header_length in Hd. unfold ent at 1. cbn [mkent fst snd].
  rewrite <- !app_assoc in Hd |- *. etransitivity; [|apply Hd; lia]. f_equal; [by rewrite <- !app_assoc|].
  unfold ent. cbn [mkent fst snd]. rewrite length_app. pose proof (lpEncodeBacklen_length (Z.of_nat (length e))). unfold off. lia.
Qed.

(** * Header updates *)

Lemma set_total h x v : length h = 4%nat -> lpSetTotalBytes (h ++ x) v = Some (le_bytes 4 v ++ x).
Proof.
  intros Hh. unfold lpSetTotalBytes. change 0xff with 255. rewrite le_shifts4'.
  apply (store_app []); [done|]. by rewrite le_bytes_length.
Qed.

Lemma le_shifts2' u : [Z.land u 255; Z.land (Z.shiftr u 8) 255] = le_bytes 2 u.
Proof. le_shifts. Qed.

Lemma set_num h4 h2 x v : length h4 = 4%nat -> length h2 = 2%nat ->
  lpSetNumElements (h4 ++ h2 ++ x) v = Some (h4 ++ le_bytes 2 v ++ x).
Proof.
  intros H4 H2. unfold lpSetNumElements. change 0xff with 255. rewrite le_shifts2'.
  apply store_app; [done|]. by rewrite le_bytes_length.
Qed.

(** * Making room *)

Section Gap.
Context {A : Allocator}.

Lemma lp_realloc_grow m n : (length m <= n)%nat ->
  exists extra, lp_realloc m n = m ++ extra /\ (n <= length (lp_realloc m n))%nat.
Proof.
  intros H. unfold lp_realloc. rewrite (take_ge m n) by lia. eexists. split; [done|].
  rewrite length_app, junk_length. pose proof (usable_ge n). lia.
Qed.

Lemma lp_realloc_shrink a b n : length a = n -> exists extra, lp_realloc (a ++ b) n = a ++ extra.
Proof. intros <-. unfold lp_realloc. rewrite take_app_length. by eexists. Qed.

(** The reallocations and the [memmove] that replace [old] by [k] bytes. *)
Lemma lp_gap m pre old rest slack k p told tnew :
  m = pre ++ old ++ rest ++ slack -> length pre = p ->
  told = Z.of_nat (p + length old + length rest) ->
  tnew = Z.of_nat (p + k + length rest) ->
  let m1 := if (tnew >? told) && (tnew >? Z.of_nat (length m)) then lp_realloc m (Z.to_nat tnew) else m in
  exists m2 mid slack', length mid = k /\
    memmove_n m1 (p + k) (p + length old) (told - Z.of_nat p - Z.of_nat (length old)) = Some m2 /\
    (if tnew <? told then lp_realloc m2 (Z.to_nat tnew) else m2) = pre ++ mid ++ rest ++ slack'.
Proof.
  intros Hm <- Htold Htnew m1. unfold memmove_n. rewrite (proj2 (Z.leb_le _ _)) by lia.
  cbn [guard mbind option_bind]. replace (Z.to_nat (told - _ - _)) with (length rest) by lia.
  assert (H1 : exists slack1, m1 = pre ++ old ++ rest ++ slack1 /\ (length pre + k + length rest <= length m1)%nat).
  { unfold m1. destruct (_ && _) eqn:E.
    - destruct (lp_realloc_grow m (Z.to_nat tnew)) as (extra & -> & Hl); [lia|].
      exists (slack ++ extra). rewrite Hm, <- !app_assoc. split; [done|].
      rewrite Hm, <- !app_assoc in Hl. lia.
    - exists slack. split; [done|]. rewrite Hm, !length_app in *. lia. }
  destruct H1 as (slack1 & -> & Hl). set (m1 := pre ++ old ++ rest ++ slack1) in *.
  assert (Hload : load m1 (length pre + length old) (length rest) = Some rest).
  { unfold m1. rewrite (app_assoc pre). apply load_app; [by rewrite length_app|done]. }
  unfold memmove. rewrite Hload. cbn [mbind option_bind].
  rewrite store_Some by lia. set (n1 := (length pre + k)%nat).
  exists (take n1 m1 ++ rest ++ drop (n1 + length rest) m1), (take k (old ++ rest ++ slack1)).
  assert (Htk : take n1 m1 = pre ++ take k (old ++ rest ++ slack1)) by (unfold n1, m1; by rewrite take_app_add).
  assert (Hk : length (take k (old ++ rest ++ slack1)) = k).
  { unfold m1 in Hl. rewrite !length_app in Hl. rewrite length_take, !length_app. lia. }
  destruct (tnew <? told).
  - destruct (lp_realloc_shrink (take n1 m1 ++ rest) (drop (n1 + length rest) m1) (Z.to_nat tnew)) as [ex Hex].
    { rewrite length_app, Htk, length_app, Hk. lia. }
    exists ex. split_and!; [done..|]. rewrite (app_assoc (take n1 m1)), Hex, Htk. by rewrite <- !app_assoc.
  - eexists. split_and!; [done..|]. rewrite Htk, <- !app_assoc. done.
Qed.

End Gap.

(** * Insertion, replacement and deletion of one entry *)

(** What the callers of [lpInsert] pass: a string, an integer, or nothing. *)
Inductive lpelem := ElStr (s : bytes) | ElInt (z : Z) | ElDel.

Definition el_str (el : lpelem) : option bytes := match el with ElStr s => Some s | _ => None end.
Definition el_int (el : lpelem) : option bytes :=
  match el with ElInt z => Some (lpEncodeIntegerGetType z) | _ => None end.

Definition payload (el : lpelem) : option bytes :=
  match el with ElStr s => Some (encode s) | ElInt z => Some (lpEncodeIntegerGetType z) | ElDel => None end.

Definition el_ok (el : lpelem) : Prop :=
  match el with
  | ElStr s => bytes_ok s /\ Z.of_nat (length s) + 5 < 2 ^ 32
  | ElInt z => srange 64 z
  | ElDel => True
  end.

Lemma payload_ok el e : el_ok el -> payload el = Some e -> enc_ok e.
Proof.
  destruct el as [s|z|]; [intros [Hs Hl]|intros Hz|intros _]; intros [= <-].
  - by apply encode_ok. - by apply lp_enc_int_ok.
Qed.

Section Insert.
Context {A : Allocator}.

(** [lpInsert] once the element is encoded and [LP_AFTER] is resolved. *)
Definition insert_tail (m : bytes) (new : option bytes) (p : nat) (replace : bool)
    : option (option (bytes * option nat)) :=
  let e := default [] new in
  let delete := match new with None => true | _ => false end in
  let bl := if delete then [] else lpEncodeBacklen (Z.of_nat (length e)) in
  told ← lpGetTotalBytes m;
  rl ← (if replace then
          l ← lpCurrentEncodedSizeUnsafe m p;
          let l := u32 (l + lpEncodeBacklenBytes l) in
          _ ← ASSERT_INTEGRITY_LEN m p l; Some l
        else Some 0);
  let tnew := u64 (told + Z.of_nat (length e) + Z.of_nat (length bl) - rl) in
  if tnew >? UINT32_MAX then Some None
  else
    let m := if (tnew >? told) && (tnew >? Z.of_nat (length m)) then lp_realloc m (Z.to_nat tnew) else m in
    m ← memmove_n m (p + Z.to_nat (Z.of_nat (length e) + Z.of_nat (length bl))) (p + Z.to_nat rl)
          (told - Z.of_nat p - rl);
    let m := if tnew <? told then lp_realloc m (Z.to_nat tnew) else m in
    b ← m !! p;
    let newp := if delete && (b =? LP_EOF) then None else Some p in
    m ← (if delete then Some m else m ← store m p e; store m (p + length e) bl);
    m ← (if negb replace || delete then
           n ← lpGetNumElements m;
           if negb (n =? LP_HDR_NUMELE_UNKNOWN) then
             if negb delete then lpSetNumElements m (u32 (n + 1)) else lpSetNumElements m (u32 (n - 1))
           else Some m
         else Some m);
    m ← lpSetTotalBytes m tnew;
    Some (Some (m, newp)).

Lemma lpInsert_tail m el p w : el_ok el -> w <> LP_AFTER ->
  lpInsert m (el_str el) (el_int el) p w
  = insert_tail m (payload el) p (match el with ElDel => true | _ => match w with LP_REPLACE => true | _ => false end end).
Proof.
  intros Hel Hw. unfold lpInsert, insert_tail.
  destruct el as [s|z|]; cbn [el_str el_int payload default from_option id].
  - destruct Hel as [Hs _]. pose proof (lpEncodeGetType_size s Hs) as Hsz.
    destruct (lpEncodeGetType s) as [ie|n]; [subst ie|destruct Hsz as [Hsz ->]; rewrite <- Hsz].
    all: destruct w; [|done|]; cbn [mbind option_bind]; rewrite Nat2Z.id; [|done].
    all: destruct (lpGetTotalBytes m); [|done]; cbn [mbind option_bind].
    all: change (Z.to_nat 0) with 0%nat; by rewrite Nat.add_0_r, !Z.sub_0_r.
  - destruct w; [|done|]; cbn [mbind option_bind]; rewrite Nat2Z.id; [|done].
    destruct (lpGetTotalBytes m); [|done]; cbn [mbind option_bind].
    change (Z.to_nat 0) with 0%nat; by rewrite Nat.add_0_r, !Z.sub_0_r.
  - by destruct w.
Qed.

(** Replacing entries in the middle of a listpack. *)
Lemma total_split ps1 qs ps2 :
  total (ents (ps1 ++ qs ++ ps2))
  = Z.of_nat (off (ents ps1) + length (body (ents qs)) + (length (body (ents ps2)) + 1)).
Proof. unfold total, off. rewrite !ents_app, !body_app, !length_app. lia. Qed.

Lemma rep_split m ps num ps1 olds ps2 : lp_rep m ps num -> ps = ps1 ++ olds ++ ps2 ->
  exists slack, m = (header (ents ps) num ++ body (ents ps1)) ++ body (ents olds) ++
                    (body (ents ps2) ++ [LP_EOF]) ++ slack.
Proof.
  intros [[slack ->] _ _ _] Hps. exists slack.
  replace (body (ents ps)) with (body (ents ps1) ++ body (ents olds) ++ body (ents ps2))
    by (by rewrite Hps, !ents_app, !body_app). by rewrite <- !app_assoc.
Qed.

(** The size of the entry to replace. *)
Lemma replaced_size m ps num ps1 o ps2 : lp_rep m ps num -> ps = ps1 ++ [o] ++ ps2 ->
  (l ← lpCurrentEncodedSizeUnsafe m (off (ents ps1));
   let l := u32 (l + lpEncodeBacklenBytes l) in
   _ ← ASSERT_INTEGRITY_LEN m (off (ents ps1)) l; Some l) = Some (Z.of_nat (length (body (ents [o])))).
Proof.
  intros R Hps. pose proof (rep_wf _ _ _ R) as W.
  assert (He : ents ps = ents ps1 ++ mkent o :: ents ps2) by (by rewrite Hps, !ents_app).
  destruct (wf_split W _ _ _ He) as [[Ho Hbl] (pre & suf & Hm & Hpre)].
  assert (Hs : lpCurrentEncodedSizeUnsafe m (off (ents ps1)) = Some (Z.of_nat (length o)))
    by (rewrite Hm, <- Hpre; apply enc_size_local, Ho).
  rewrite Hs. cbn [mbind option_bind]. cbn [mkent fst snd] in Hbl. rewrite <- Hbl.
  pose proof (total_split ps1 [o] ps2) as Ht. rewrite <- Hps in Ht. pose proof (rep_total _ _ _ R).
  assert (Hlo : length (body (ents [o])) = (length o + length (lpEncodeBacklen (Z.of_nat (length o))))%nat).
  { cbn [ents map body concat]. rewrite app_nil_r, ent_length. done. }
  rewrite uwrap_small by (unfold urange; lia). unfold ASSERT_INTEGRITY_LEN. rewrite (wf_get_total W).
  cbn [mbind option_bind]. rewrite (proj2 (Nat.leb_le _ _)) by (unfold off; lia).
  rewrite (proj2 (Z.ltb_lt _ _)) by lia. cbn [andb guard mbind option_bind]. f_equal. lia.
Qed.

(** The header after an update of the count by [d]. *)
Lemma update_num es num x d : num_ok es num -> 0 <= num + d < 2 ^ 16 \/ num = LP_HDR_NUMELE_UNKNOWN ->
  (n ← lpGetNumElements (header es num ++ x);
   if negb (n =? LP_HDR_NUMELE_UNKNOWN) then lpSetNumElements (header es num ++ x) (u32 (n + d))
   else Some (header es num ++ x))
  = Some (header es (if num =? LP_HDR_NUMELE_UNKNOWN then LP_HDR_NUMELE_UNKNOWN else num + d) ++ x).
Proof.
  intros Hn Hd. rewrite (get_num_header es num x (proj1 Hn)). cbn [mbind option_bind].
  destruct (Z.eqb_spec num LP_HDR_NUMELE_UNKNOWN) as [->|Hk]; [done|]. cbn [negb].
  destruct Hd as [Hd|]; [|done]. rewrite uwrap_small by (unfold urange; lia).
  unfold header. rewrite <- !app_assoc. by apply set_num; rewrite le_bytes_length.
Qed.

Lemma update_total es es' num x :
  lpSetTotalBytes (header es num ++ x) (total es') = Some (header es' num ++ x).
Proof. unfold header. rewrite <- !app_assoc. apply set_total, le_bytes_length. Qed.

(** The count after the operation: exact when it was known. *)
Definition new_num (num : Z) (ps : list bytes) : Z :=
  if num =? LP_HDR_NUMELE_UNKNOWN then LP_HDR_NUMELE_UNKNOWN else Z.of_nat (length ps).

(** The bytes of the new entry in place. *)
Lemma store_entry pre mid rest e : length mid = length (ent (mkent e)) ->
  (m ← store (pre ++ mid ++ rest) (length pre) e;
   store m (length pre + length e) (lpEncodeBacklen (Z.of_nat (length e))))
  = Some (pre ++ ent (mkent e) ++ rest).
Proof.
  intros Hl. rewrite ent_length in Hl. cbn [mkent fst snd] in Hl.
  rewrite <- (take_drop (length e) mid), <- app_assoc.
  rewrite store_app by (done || rewrite length_take; lia). cbn [mbind option_bind].
  rewrite (app_assoc pre e). rewrite store_app; [|by rewrite length_app|rewrite length_drop; lia].
  unfold ent. cbn [mkent fst snd]. by rewrite <- !app_assoc.
Qed.

Definition fits (ps : list bytes) : bool := total (ents ps) <=? UINT32_MAX.

(** The number of elements changes by the number of entries. *)
Lemma count_update m ps num ps1 olds ps2 new replace x : lp_rep m ps num ->
  ps = ps1 ++ olds ++ ps2 ->
  (replace = false /\ olds = [] /\ new <> None) \/ (replace = true /\ exists o, olds = [o]) ->
  let ps' := ps1 ++ option_list new ++ ps2 in
  let delete := match new with None => true | _ => false end in
  (if negb replace || delete then
     n ← lpGetNumElements (header (ents ps) num ++ x);
     if negb (n =? LP_HDR_NUMELE_UNKNOWN) then
       if negb delete then lpSetNumElements (header (ents ps) num ++ x) (u32 (n + 1))
       else lpSetNumElements (header (ents ps) num ++ x) (u32 (n - 1))
     else Some (header (ents ps) num ++ x)
   else Some (header (ents ps) num ++ x))
  = Some (header (ents ps) (new_num num ps') ++ x).
Proof.
  intros R Hps Hcase ps' delete. destruct (rep_num _ _ _ R) as [Hr Hn]. rewrite ents_length in Hn.
  assert (Hlen : Z.of_nat (length ps') = Z.of_nat (length ps) + (if delete then 0 else 1) - (if replace then 1 else 0)).
  { unfold ps', delete. rewrite Hps, !length_app.
    destruct Hcase as [(-> & -> & Hnew)|(-> & o & ->)]; destruct new; cbn; try done; lia. }
  assert (Hpos : replace = true -> (0 < length ps)%nat).
  { intros ->. destruct Hcase as [(? & _)|(_ & o & ->)]; [done|]. rewrite Hps, !length_app. cbn. lia. }
  unfold LP_HDR_NUMELE_UNKNOWN in *.
  assert (Hset : forall d, 0 <= num + d < 2 ^ 16 \/ num = 65535 -> (num <> 65535 -> num + d = Z.of_nat (length ps')) ->
    (n ← lpGetNumElements (header (ents ps) num ++ x);
     if negb (n =? 65535) then lpSetNumElements (header (ents ps) num ++ x) (u32 (n + d))
     else Some (header (ents ps) num ++ x)) = Some (header (ents ps) (new_num num ps') ++ x)).
  { intros d Hd Heq. etransitivity; [apply (update_num (ents ps) num x d (rep_num _ _ _ R) Hd)|].
    unfold new_num, LP_HDR_NUMELE_UNKNOWN. destruct (Z.eqb_spec num 65535) as [|Hk]; [done|].
    by rewrite (Heq Hk). }
  destruct replace, delete eqn:Hdel; cbn [negb orb].
  - apply (Hset (-1)); [|intros; lia]. specialize (Hpos eq_refl). lia.
  - do 3 f_equal. unfold new_num, LP_HDR_NUMELE_UNKNOWN.
    destruct (Z.eqb_spec num 65535) as [|Hk]; [done|]. rewrite (Hn Hk). lia.
  - destruct Hcase as [(_ & _ & Hnew)|(? & _)]; [|done]. by destruct new.
  - apply (Hset 1); [|intros; lia]. lia.
Qed.

Lemma new_num_ok m ps num ps' : lp_rep m ps num -> (length ps' <= length ps + 1)%nat ->
  num_ok (ents ps') (new_num num ps').
Proof.
  intros R Hl. destruct (rep_num _ _ _ R) as [Hr Hn]. rewrite ents_length in Hn.
  unfold num_ok, new_num. rewrite ents_length. unfold LP_HDR_NUMELE_UNKNOWN in *.
  destruct (Z.eqb_spec num 65535) as [|Hk]; [lia|]. specialize (Hn Hk). lia.
Qed.

(** The first byte at the place of a deleted entry tells whether it was the last. *)
Lemma first_of_rest ps2 pre (x : bytes) : Forall enc_ok ps2 ->
  exists b, (pre ++ (body (ents ps2) ++ [LP_EOF]) ++ x) !! length pre = Some b /\
    (b =? LP_EOF) = match ps2 with [] => true | _ => false end.
Proof.
  intros Hok. destruct ps2 as [|e ps2].
  - exists LP_EOF. split; [|done]. by apply list_lookup_middle.
  - inversion_clear Hok as [|? ? He _]. destruct (enc_ok_first e He) as (b & Hb & Hu & Hlt). exists b.
    split; [|apply Z.eqb_neq; unfold LP_EOF; lia].
    cbn [ents map]. rewrite body_cons. unfold ent. cbn [mkent fst snd]. rewrite <- !app_assoc. by apply lookup_mid0.
Qed.

Lemma nth_ptr_mid ps1 news ps2 : (0 < length (news ++ ps2))%nat ->
  nth_ptr (ents (ps1 ++ news ++ ps2)) (length ps1) = Some (off (ents ps1)).
Proof.
  intros Hl. rewrite nth_ptr_Some by (rewrite ents_length, length_app; lia).
  by rewrite <- ents_take, take_app_length.
Qed.

(** The byte at the place of the operation, and the new cursor. *)
Lemma insert_newp ps1 new ps2 pre mid x : Forall enc_ok ps2 ->
  length mid = length (body (ents (option_list new))) ->
  (forall e, new = Some e -> (0 < length e)%nat) -> length pre = off (ents ps1) ->
  exists b, (pre ++ mid ++ (body (ents ps2) ++ [LP_EOF]) ++ x) !! length pre = Some b /\
    (if match new with None => true | _ => false end && (b =? LP_EOF) then None else Some (length pre))
    = nth_ptr (ents (ps1 ++ option_list new ++ ps2)) (length ps1).
Proof.
  intros Hok Hmid Hpos Hpre. destruct new as [e|]; cbn [andb].
  - change (option_list (Some e)) with [e]. rewrite (nth_ptr_mid ps1 [e] ps2) by (cbn; lia). rewrite Hpre.
    destruct (lookup_lt_is_Some_2 mid 0) as [b Hb].
    { rewrite Hmid. change (body (ents (option_list (Some e)))) with (ent (mkent e) ++ []).
      rewrite app_nil_r, ent_length. cbn. specialize (Hpos e eq_refl). lia. }
    exists b. split; [|done]. rewrite <- Hpre. by apply lookup_mid0.
  - change (option_list (@None bytes)) with (@nil bytes).
    destruct mid; [|done]. destruct (first_of_rest ps2 pre x Hok) as (b & Hb & Heq). exists b.
    split; [done|]. rewrite Heq. destruct ps2 as [|p ps2]; cbn [app].
    + rewrite app_nil_r, nth_ptr_None; [done|]. by rewrite ents_length.
    + rewrite Hpre. symmetry. apply (nth_ptr_mid ps1 [p] ps2). cbn. lia.
Qed.

Lemma insert_store new pre mid rest : length mid = length (body (ents (option_list new))) ->
  (if match new with None => true | _ => false end then Some (pre ++ mid ++ rest)
   else m ← store (pre ++ mid ++ rest) (length pre) (default [] new);
        store m (length pre + length (default [] new))
          (if match new with None => true | _ => false end then []
           else lpEncodeBacklen (Z.of_nat (length (default [] new)))))
  = Some (pre ++ body (ents (option_list new)) ++ rest).
Proof.
  intros Hmid. destruct new as [e|]; [|by destruct mid].
  change (body (ents (option_list (Some e)))) with (ent (mkent e) ++ []) in *. rewrite app_nil_r in *.
  by apply store_entry.
Qed.

Lemma insert_tail_ok m ps num ps1 olds ps2 new replace : lp_rep m ps num ->
  ps = ps1 ++ olds ++ ps2 ->
  (replace = false /\ olds = [] /\ new <> None) \/ (replace = true /\ exists o, olds = [o]) ->
  (forall e, new = Some e -> enc_ok e /\ Z.of_nat (length e) < 2 ^ 32) ->
  let ps' := ps1 ++ option_list new ++ ps2 in
  if fits ps' then
    exists m', insert_tail m new (off (ents ps1)) replace
               = Some (Some (m', nth_ptr (ents ps') (length ps1))) /\
      lp_rep m' ps' (new_num num ps')
  else insert_tail m new (off (ents ps1)) replace = Some None.
Proof.
  intros R Hps Hcase Hnew ps'. pose proof (rep_wf _ _ _ R) as W.
  pose proof (total_split ps1 olds ps2) as Htold. rewrite <- Hps in Htold.
  pose proof (total_split ps1 (option_list new) ps2) as Htnew. fold ps' in Htnew.
  pose proof (rep_total _ _ _ R) as Htr.
  set (e := default [] new). set (delete := match new with None => true | _ => false end).
  set (bl := if delete then [] else lpEncodeBacklen (Z.of_nat (length e))).
  assert (Hk : length (body (ents (option_list new))) = (length e + length bl)%nat).
  { unfold e, bl, delete. destruct new as [e'|]; [|done].
    change (body (ents (option_list (Some e')))) with (ent (mkent e') ++ []). by rewrite app_nil_r, ent_length. }
  assert (Hrl : (if replace then
          l ← lpCurrentEncodedSizeUnsafe m (off (ents ps1));
          let l := u32 (l + lpEncodeBacklenBytes l) in
          _ ← ASSERT_INTEGRITY_LEN m (off (ents ps1)) l; Some l
        else Some 0) = Some (Z.of_nat (length (body (ents olds))))).
  { destruct Hcase as [(-> & -> & _)|(-> & o & ->)]; [done|]. by eapply replaced_size. }
  unfold insert_tail. cbn zeta in Hrl |- *. fold e. fold delete. fold bl.
  rewrite (wf_get_total W). cbn [mbind option_bind].
  rewrite Hrl. cbn [mbind option_bind]. clear Hrl.
  assert (Hbe : Z.of_nat (length e) < 2 ^ 32 /\ (length bl <= 5)%nat).
  { unfold bl, delete, e. destruct new as [e'|]; [|simpl; lia]. destruct (Hnew e' eq_refl). split; [done|].
    pose proof (lpEncodeBacklen_length (Z.of_nat (length e'))). pose proof (lpEncodeBacklenBytes_bound (Z.of_nat (length e'))).
    cbn. lia. }
  replace (total (ents ps) + _ + _ - _) with (total (ents ps')) by lia.
  rewrite (uwrap_small 64) by (unfold urange; lia).
  unfold fits. destruct (Z.leb_spec (total (ents ps')) UINT32_MAX) as [Hfit|Hfit];
    [|by destruct (Z.gtb_spec (total (ents ps')) UINT32_MAX); [|lia]].
  destruct (Z.gtb_spec (total (ents ps')) UINT32_MAX) as [|_]; [lia|].
  destruct (rep_split m ps num ps1 olds ps2 R Hps) as [slack Hm].
  set (pre := header (ents ps) num ++ body (ents ps1)) in *.
  assert (Hpre : length pre = off (ents ps1)) by (unfold pre; by rewrite length_app, header_length).
  destruct (lp_gap m _ _ _ slack (length e + length bl) (off (ents ps1)) (total (ents ps)) (total (ents ps'))
              Hm Hpre) as (m2 & mid & slack' & Hmid & Hmove & Hre); [rewrite length_app; cbn [length]; lia..|].
  rewrite <- Nat2Z.inj_add, !Nat2Z.id, Hmove. cbn [mbind option_bind]. rewrite !Hre. rewrite <- Hpre.
  assert (Hok2 : Forall enc_ok ps1 /\ Forall enc_ok ps2).
  { pose proof (rep_entries _ _ _ R) as Ha. rewrite Hps, !Forall_app in Ha. tauto. }
  destruct (insert_newp ps1 new ps2 pre mid slack') as (b & Hb & Hnp);
    [tauto|lia|intros e' He'; apply (proj1 (Hnew e' He'))|done|].
  rewrite Hb. cbn [mbind option_bind]. fold delete in Hnp. rewrite Hnp.
  assert (Hst := insert_store new pre mid ((body (ents ps2) ++ [LP_EOF]) ++ slack') ltac:(lia)).
  fold delete in Hst. fold e in Hst. fold bl in Hst. rewrite Hst. cbn [mbind option_bind].
  unfold pre. rewrite <- !app_assoc.
  rewrite (count_update m ps num ps1 olds ps2 new replace _ R Hps Hcase). fold ps'. cbn [mbind option_bind].
  rewrite update_total. cbn [mbind option_bind]. eexists. split; [done|]. split.
  - exists slack'. unfold ps'. by rewrite !ents_app, !body_app, <- !app_assoc.
  - unfold ps'. rewrite !Forall_app. split_and!; [tauto| |tauto].
    destruct new as [e'|]; [|by constructor]. constructor; [by apply Hnew|by constructor].
  - unfold UINT32_MAX in Hfit. lia.
  - eapply new_num_ok; [exact R|]. unfold ps'. rewrite Hps, !length_app.
    destruct Hcase as [(_ & -> & _)|(_ & o & ->)]; destruct new; cbn; lia.
Qed.

(** The position of the operation, and how many entries it replaces. *)
Definition ins_pos (el : lpelem) (w : lpwhere) (i : nat) : nat :=
  match el, w with ElDel, _ => i | _, LP_AFTER => S i | _, _ => i end.

Definition ins_drop (el : lpelem) (w : lpwhere) : nat :=
  match el, w with ElDel, _ => 1 | _, LP_REPLACE => 1 | _, _ => 0 end.

Definition ins_list (ps : list bytes) (el : lpelem) (w : lpwhere) (i : nat) : list bytes :=
  let j := ins_pos el w i in
  take j ps ++ option_list (payload el) ++ drop (j + ins_drop el w) ps.

Lemma assert_integrity_ok m es num i x : lp_wf m es num -> es !! i = Some x ->
  ASSERT_INTEGRITY m (off (take (S i) es)) = Some tt.
Proof.
  intros W Hx. unfold ASSERT_INTEGRITY. rewrite (wf_get_total W). cbn [mbind option_bind].
  rewrite (proj2 (Nat.leb_le _ _)) by (unfold off; lia). rewrite (proj2 (Z.ltb_lt _ _)); [done|].
  pose proof (off_le (take i es) x (drop (S i) es)) as Hle.
  rewrite <- (take_split i x Hx), <- (off_take_S i x Hx) in Hle. rewrite total_off. lia.
Qed.

Lemma lpInsert_after m ps num i el : lp_rep m ps num -> el <> ElDel -> (i < length ps)%nat ->
  lpInsert m (el_str el) (el_int el) (off (take i (ents ps))) LP_AFTER
  = lpInsert m (el_str el) (el_int el) (off (take (S i) (ents ps))) LP_BEFORE.
Proof.
  intros R Hel Hi. pose proof (rep_wf _ _ _ R) as W.
  destruct (lookup_lt_is_Some_2 (ents ps) i ltac:(by rewrite ents_length)) as [x Hx].
  pose proof (assert_integrity_ok m (ents ps) num i x W Hx) as Ha.
  unfold lpInsert. destruct el as [s|z|]; [| |done]; cbn [el_str el_int].
  all: rewrite (wf_skip W i x Hx); cbn [mbind option_bind]; by rewrite Ha.
Qed.

Lemma payload_length el e : el_ok el -> payload el = Some e -> Z.of_nat (length e) < 2 ^ 32.
Proof.
  destruct el as [s|z|]; [intros [Hs Hl]|intros Hz|intros _]; intros [= <-].
  - by apply encode_length. - pose proof (lpEncodeInteger_length z). lia.
Qed.

Lemma lpInsert_spec m ps num i el w : lp_rep m ps num -> el_ok el ->
  (i < length ps \/ i = length ps /\ w = LP_BEFORE /\ el <> ElDel)%nat ->
  let p := off (take i (ents ps)) in
  let ps' := ins_list ps el w i in
  if fits ps' then
    exists m', lpInsert m (el_str el) (el_int el) p w
               = Some (Some (m', nth_ptr (ents ps') (ins_pos el w i))) /\
      lp_rep m' ps' (new_num num ps')
  else lpInsert m (el_str el) (el_int el) p w = Some None.
Proof.
  intros R Hel Hi p ps'.
  assert (Hmain : forall j w', w' <> LP_AFTER -> (j < length ps \/ j = length ps /\ w' = LP_BEFORE /\ el <> ElDel)%nat ->
    let qs := take j ps ++ option_list (payload el) ++ drop (j + ins_drop el w') ps in
    if fits qs then
      exists m', lpInsert m (el_str el) (el_int el) (off (take j (ents ps))) w'
                 = Some (Some (m', nth_ptr (ents qs) j)) /\ lp_rep m' qs (new_num num qs)
    else lpInsert m (el_str el) (el_int el) (off (take j (ents ps))) w' = Some None).
  { intros j w' Hw' Hj qs. rewrite lpInsert_tail by done. rewrite <- ents_take.
    assert (Hlj : length (take j ps) = j) by (rewrite length_take; lia).
    pose proof (insert_tail_ok m ps num (take j ps) (take (ins_drop el w') (drop j ps)) (drop (j + ins_drop el w') ps)
      (payload el) (match el with ElDel => true | _ => match w' with LP_REPLACE => true | _ => false end end) R) as Hit.
    rewrite Hlj in Hit. apply Hit; clear Hit.
    - by rewrite <- drop_drop, !take_drop.
    - assert (H1 : (j < length ps)%nat -> exists o, take 1 (drop j ps) = [o]).
      { intros Hlt. destruct (lookup_lt_is_Some_2 ps j Hlt) as [o Ho]. exists o. by rewrite (drop_S _ _ _ Ho). }
      destruct el as [s|z|]; [destruct w'..|]; cbn [ins_drop payload]; try done;
        try (left; by rewrite take_0); right; (split; [done|apply H1]); destruct Hj as [|(_ & ? & ?)]; done.
    - intros e He. split; [by eapply payload_ok|by eapply payload_length]. }
  unfold p, ps', ins_list. destruct el as [s|z|]; [destruct w..|]; cbn [ins_pos].
  1, 3, 4, 6: by apply Hmain.
  1, 2: destruct Hi as [Hi|(_ & ? & _)]; [|done]; rewrite (lpInsert_after m ps num i _ R) by done;
    apply (Hmain (S i) LP_BEFORE); [done|]; destruct (decide (S i < length ps)%nat); [by left|right; split; [lia|done]].
  assert (Hw : forall w', lpInsert m None None (off (take i (ents ps))) w' = lpInsert m None None (off (take i (ents ps))) LP_REPLACE)
    by (by intros []). cbn [el_str el_int] in *. rewrite Hw.
  apply (Hmain i LP_REPLACE); [done|]. destruct Hi as [|(_ & _ & ?)]; [by left|done].
Qed.

End Insert.
(** * Ranges *)

Section Range.
Context {A : Allocator}.

Lemma memmove_close pre old rest slack p n : length pre = p -> n = Z.of_nat (length rest) ->
  exists slack', memmove_n (pre ++ old ++ rest ++ slack) p (p + length old) n = Some (pre ++ rest ++ slack').
Proof.
  intros <- ->. unfold memmove_n. rewrite (proj2 (Z.leb_le _ _)) by lia. cbn [guard mbind option_bind].
  rewrite Nat2Z.id. unfold memmove. rewrite (app_assoc pre old), load_app by (rewrite ?length_app; done).
  cbn [mbind option_bind]. rewrite <- app_assoc. rewrite store_Some by (rewrite !length_app; lia).
  rewrite take_app_length. by eexists.
Qed.

Lemma shrink_rep m ps num : lp_rep m ps num ->
  exists m', lpShrinkToFit m = Some m' /\ lp_rep m' ps num.
Proof.
  intros R. unfold lpShrinkToFit. rewrite (wf_get_total (rep_wf _ _ _ R)). cbn [mbind option_bind].
  destruct (_ <? _); [|by exists m]. destruct R as [[slack ->] He Ht Hn].
  destruct (lp_realloc_shrink (header (ents ps) num ++ body (ents ps) ++ [LP_EOF]) slack
              (Z.to_nat (total (ents ps)))) as [ex Hex].
  { rewrite !length_app, header_length. unfold total. cbn [length]. lia. }
  rewrite <- !app_assoc in Hex. cbn [app] in Hex. rewrite Hex. eexists. split; [done|].
  split; [|done..]. by exists ex.
Qed.

Lemma delete_range_loop_ok m es num fuel : forall j k d, lp_wf m es num ->
  (j < length es)%nat -> (length es - j <= fuel)%nat -> 0 <= k ->
  let j' := Z.to_nat (Z.min (Z.of_nat (length es)) (Z.of_nat j + k)) in
  delete_range_loop fuel m (total es) k (off (take j es)) d
  = Some (off (take j' es), d + Z.of_nat (j' - j)).
Proof.
  induction fuel as [|fuel IH]; intros j k d W Hj Hf Hk j'; [lia|].
  cbn [delete_range_loop]. destruct (Z.eqb_spec k 0) as [->|Hk0].
  { replace j' with j by lia. do 2 f_equal. lia. }
  destruct (lookup_lt_is_Some_2 es j Hj) as [x Hx]. rewrite (wf_skip W j x Hx). cbn [mbind option_bind].
  destruct (wf_byte W (S j) ltac:(lia)) as (b & Hb & Heq). rewrite Hb. cbn [mbind option_bind]. rewrite Heq.
  case_bool_decide as Hend.
  - replace j' with (S j) by lia. do 2 f_equal. lia.
  - rewrite (wf_assert W) by lia. cbn [mbind option_bind]. rewrite IH by (done || lia).
    replace (Z.to_nat (Z.min (Z.of_nat (length es)) (Z.of_nat (S j) + (k - 1)))) with j' by lia.
    do 2 f_equal. lia.
Qed.

(** The count after the deletion of [d] entries. *)
Lemma set_num_deleted m ps num (ps' : list bytes) d es x : lp_rep m ps num ->
  (length ps' + d = length ps)%nat ->
  (if negb (num =? LP_HDR_NUMELE_UNKNOWN)
   then lpSetNumElements (header es num ++ x) (u64 (num - Z.of_nat d)) else Some (header es num ++ x))
  = Some (header es (new_num num ps') ++ x).
Proof.
  intros R Hl. destruct (rep_num _ _ _ R) as [Hr Hn]. rewrite ents_length in Hn. unfold new_num.
  destruct (Z.eqb_spec num LP_HDR_NUMELE_UNKNOWN) as [->|Hk]; [done|]. cbn [negb]. specialize (Hn Hk).
  replace (num - Z.of_nat d) with (Z.of_nat (length ps')) by lia.
  rewrite uwrap_small by (unfold urange, LP_HDR_NUMELE_UNKNOWN in *; lia).
  unfold header. rewrite <- !app_assoc. apply set_num; by rewrite le_bytes_length.
Qed.

(** Closing the hole left by the entries [olds]. *)
Lemma close_range m ps num ps1 olds ps2 d : lp_rep m ps num -> ps = ps1 ++ olds ++ ps2 ->
  d = Z.of_nat (length olds) ->
  let ps' := ps1 ++ ps2 in
  exists m1 m2 m3, 
    memmove_n m (off (ents ps1)) (off (ents ps1) + length (body (ents olds)))
      (total (ents ps) - 1 - Z.of_nat (off (ents ps1) + length (body (ents olds))) + 1) = Some m1 /\
    lpSetTotalBytes m1 (u64 (total (ents ps) - (Z.of_nat (off (ents ps1) + length (body (ents olds)))
        - Z.of_nat (off (ents ps1))))) = Some m2 /\
    lpGetNumElements m2 = Some num /\
    (if negb (num =? LP_HDR_NUMELE_UNKNOWN) then lpSetNumElements m2 (u64 (num - d)) else Some m2) = Some m3 /\
    lp_rep m3 ps' (new_num num ps').
Proof.
  intros R Hps -> ps'. pose proof (total_split ps1 olds ps2) as Ht. rewrite <- Hps in Ht.
  assert (Ht' : total (ents ps') = Z.of_nat (off (ents ps1) + (length (body (ents ps2)) + 1))).
  { pose proof (total_split ps1 [] ps2) as H. cbn [app ents map body concat length] in H. unfold ps'. lia. }
  destruct (rep_split m ps num ps1 olds ps2 R Hps) as [slack Hm].
  destruct (rep_num _ _ _ R) as [Hr Hn]. rewrite ents_length in Hn. pose proof (rep_total _ _ _ R) as Htr.
  destruct (memmove_close (header (ents ps) num ++ body (ents ps1)) (body (ents olds))
    (body (ents ps2) ++ [LP_EOF]) slack (off (ents ps1))
    (total (ents ps) - 1 - Z.of_nat (off (ents ps1) + length (body (ents olds))) + 1)) as [slack' Hmm].
  { by rewrite length_app, header_length. } { rewrite length_app. cbn [length]. lia. }
  rewrite <- Hm in Hmm. set (rest := body (ents ps1) ++ body (ents ps2) ++ LP_EOF :: slack').
  assert (Hb : header (ents ps) num ++ rest = (header (ents ps) num ++ body (ents ps1)) ++
                 (body (ents ps2) ++ [LP_EOF]) ++ slack') by (unfold rest; by rewrite <- !app_assoc).
  rewrite <- Hb in Hmm.
  exists (header (ents ps) num ++ rest), (header (ents ps') num ++ rest), (header (ents ps') (new_num num ps') ++ rest).
  split; [done|]. split; [|split; [|split]].
  - replace (u64 _) with (total (ents ps')); [apply update_total|]. rewrite uwrap_small by (unfold urange; lia). lia.
  - by apply get_num_header.
  - apply (set_num_deleted m ps num ps' (length olds) (ents ps') rest R).
    unfold ps'. rewrite Hps, !length_app. lia.
  - split.
    + exists slack'. unfold ps', rest. by rewrite ents_app, body_app, <- !app_assoc.
    + pose proof (rep_entries _ _ _ R) as Ha. rewrite Hps, !Forall_app in Ha. unfold ps'. rewrite Forall_app. tauto.
    + lia.
    + eapply new_num_ok; [exact R|]. unfold ps'. rewrite Hps, !length_app. lia.
Qed.

Lemma off_ents_app ps1 olds : off (ents (ps1 ++ olds)) = (off (ents ps1) + length (body (ents olds)))%nat.
Proof. unfold off. rewrite ents_app, body_app, length_app. lia. Qed.

(** Deleting [k] entries, or all there are, from the [i]-th. *)
Lemma lpDeleteRangeWithEntry_spec m ps num i k : lp_rep m ps num -> (i < length ps)%nat -> 0 < k ->
  let ps' := take i ps ++ drop (i + Z.to_nat k) ps in
  exists m', lpDeleteRangeWithEntry m (off (take i (ents ps))) k = Some (m', nth_ptr (ents ps') i) /\
    lp_rep m' ps' (new_num num ps').
Proof.
  intros R Hi Hk ps'. pose proof (rep_wf _ _ _ R) as W. pose proof (wf_count W) as [Hc _]. rewrite ents_length in Hc.
  set (j := Z.to_nat (Z.min (Z.of_nat (length ps)) (Z.of_nat i + k))).
  assert (Hps : ps = take i ps ++ take (j - i) (drop i ps) ++ drop j ps).
  { replace (drop j ps) with (drop (j - i) (drop i ps)) by (rewrite drop_drop; f_equal; lia). by rewrite !take_drop. }
  assert (Hps' : ps' = take i ps ++ drop j ps).
  { unfold ps'. f_equal. unfold j. destruct (decide (i + Z.to_nat k <= length ps)%nat); [f_equal; lia|].
    by rewrite !drop_ge by lia. }
  assert (Hoj : off (take j (ents ps)) = (off (ents (take i ps)) + length (body (ents (take (j - i) (drop i ps)))))%nat).
  { rewrite <- off_ents_app, <- ents_take. do 2 f_equal. rewrite Hps at 1. rewrite app_assoc.
    rewrite take_app_length'; [done|]. rewrite length_app, !length_take, length_drop. lia. }
  unfold lpDeleteRangeWithEntry, lpBytes. rewrite (wf_get_total W). cbn [mbind option_bind].
  rewrite (proj2 (Z.eqb_neq k 0)) by lia.
  pose proof (delete_range_loop_ok m (ents ps) num (length m) i k 0 W) as Hloop. rewrite ents_length in Hloop.
  rewrite Hloop by lia. fold j. cbn [mbind option_bind]. rewrite Hoj, <- ents_take.
  destruct (close_range m ps num (take i ps) (take (j - i) (drop i ps)) (drop j ps)
    (0 + Z.of_nat (j - i)) R Hps) as (m1 & m2 & m3 & H1 & H2 & H3 & H4 & R3).
  { rewrite length_take, length_drop. lia. }
  rewrite H1. cbn [mbind option_bind]. rewrite H2. cbn [mbind option_bind]. rewrite H3. cbn [mbind option_bind].
  rewrite H4. cbn [mbind option_bind]. rewrite <- Hps' in R3.
  destruct (shrink_rep m3 ps' _ R3) as (m4 & -> & R4). cbn [mbind option_bind].
  assert (Hli : length (take i ps) = i) by (rewrite length_take; lia).
  assert (Hti : ents (take i ps) = take i (ents ps')).
  { rewrite <- ents_take, Hps'. rewrite take_app_length' by done. done. }
  assert (Hil : (i <= length (ents ps'))%nat) by (rewrite ents_length, Hps', length_app; lia).
  destruct (wf_byte (rep_wf _ _ _ R4) i Hil) as (b & Hb & Heq). rewrite Hti, Hb. cbn [mbind option_bind].
  rewrite Heq. exists m4. split; [|done]. do 2 f_equal. unfold nth_ptr.
  case_bool_decide; [by rewrite decide_False by lia|]. by rewrite decide_True by lia.
Qed.

(** The entry an index denotes. *)
Lemma seek_ptr_cases (es : list entry) index :
  let i := if index <? 0 then Z.of_nat (length es) + index else index in
  seek_ptr es index = (if decide (0 <= i < Z.of_nat (length es)) then Some (off (take (Z.to_nat i) es)) else None).
Proof.
  intros i. unfold seek_ptr. fold i. unfold nth_ptr. repeat case_decide; (done || lia).
Qed.

(** Cutting the listpack at the [i]-th entry. *)
Lemma cut_at m ps num i : lp_rep m ps num -> (i < length ps)%nat -> num <> LP_HDR_NUMELE_UNKNOWN ->
  let p := off (take i (ents ps)) in
  exists m', (m ← store m p [LP_EOF]; m ← lpSetTotalBytes m (Z.of_nat p + 1);
              m ← lpSetNumElements m (Z.of_nat i); lpShrinkToFit m) = Some m' /\
    lp_rep m' (take i ps) (Z.of_nat i).
Proof.
  intros R Hi Hk p. destruct (rep_num _ _ _ R) as [Hr Hn]. rewrite ents_length in Hn. specialize (Hn Hk).
  assert (Hps : ps = take i ps ++ drop i ps ++ []) by (by rewrite app_nil_r, take_drop).
  destruct (rep_split m ps num _ _ _ R Hps) as [slack Hm]. cbn [ents map body concat app] in Hm.
  fold (ents (take i ps)) in Hm. fold (ents (drop i ps)) in Hm.
  fold (body (ents (take i ps))) in Hm. fold (body (ents (drop i ps))) in Hm.
  assert (Hp : p = off (ents (take i ps))) by (unfold p; by rewrite ents_take).
  destruct (body (ents (drop i ps)) ++ LP_EOF :: slack) as [|c rest] eqn:Hrest; [by destruct (body _)|].
  assert (Hlp : length (header (ents ps) num ++ body (ents (take i ps))) = p)
    by (rewrite length_app, header_length, Hp; done).
  rewrite Hm. change (c :: rest) with ([c] ++ rest). rewrite store_app by done. cbn [mbind option_bind].
  rewrite <- app_assoc. replace (Z.of_nat p + 1) with (total (ents (take i ps))) by (rewrite total_off, Hp; done).
  rewrite update_total. cbn [mbind option_bind]. unfold header at 1. rewrite <- app_assoc.
  rewrite set_num by (by rewrite le_bytes_length). cbn [mbind option_bind].
  apply shrink_rep. split.
  - exists rest. unfold header. by rewrite <- !app_assoc.
  - apply Forall_take, R.
  - pose proof (rep_total _ _ _ R) as Ht. pose proof (total_split (take i ps) (drop i ps) []) as Ht2.
    rewrite <- Hps in Ht2. rewrite total_off. lia.
  - unfold num_ok. rewrite ents_length, length_take. lia.
Qed.

Definition del_range (ps : list bytes) (index k : Z) : list bytes :=
  let i := if index <? 0 then Z.of_nat (length ps) + index else index in
  if decide (0 <= i < Z.of_nat (length ps)) then take (Z.to_nat i) ps ++ drop (Z.to_nat i + Z.to_nat k) ps
  else ps.

Lemma new_num_same m ps num : lp_rep m ps num -> new_num num ps = num.
Proof.
  intros R. destruct (rep_num _ _ _ R) as [_ Hn]. rewrite ents_length in Hn. unfold new_num.
  destruct (Z.eqb_spec num LP_HDR_NUMELE_UNKNOWN) as [|Hk]; [done|by rewrite (Hn Hk)].
Qed.

(** [lpDeleteRange] with any index, counted from the end when negative, and
    any number of entries removes the entries of that range that exist, with the
    count known or not, and leaves the listpack alone when the index is out of
    range. *)
Theorem lpDeleteRange_refines m ps num index k : lp_rep m ps num -> srange 64 index -> urange 64 k ->
  let ps' := del_range ps index k in
  exists m', lpDeleteRange m index k = Some m' /\ lp_rep m' ps' (new_num num ps').
Proof.
  intros R Hindex Hk ps'. pose proof (rep_wf _ _ _ R) as W. destruct (wf_count W) as [_ Hc].
  rewrite ents_length in Hc. destruct (rep_num _ _ _ R) as [Hr Hn]. rewrite ents_length in Hn.
  unfold lpDeleteRange. rewrite (wf_get_num W). cbn [mbind option_bind].
  set (i := if index <? 0 then Z.of_nat (length ps) + index else index).
  assert (Hps' : ps' = if decide (0 <= i < Z.of_nat (length ps))
    then take (Z.to_nat i) ps ++ drop (Z.to_nat i + Z.to_nat k) ps else ps) by done.
  destruct (Z.eqb_spec k 0) as [->|Hk0].
  { exists m. split; [done|]. assert (E : ps' = ps).
    { rewrite Hps'. case_decide; [|done]. rewrite Nat.add_0_r. apply take_drop. }
    by rewrite E, (new_num_same m). }
  rewrite (wf_seek W). cbn [mbind option_bind]. rewrite seek_ptr_cases, ents_length. fold i.
  case_decide as Hi; [|exists m; rewrite Hps'; by rewrite (new_num_same m)]. unfold urange in Hk.
  assert (Hgen : exists m', ('(m0, _) ← lpDeleteRangeWithEntry m (off (take (Z.to_nat i) (ents ps))) k; Some m0) = Some m'
    /\ lp_rep m' ps' (new_num num ps')).
  { destruct (lpDeleteRangeWithEntry_spec m ps num (Z.to_nat i) k R) as (m' & -> & R'); [lia..|].
    exists m'. split; [done|]. by rewrite Hps'. }
  destruct (Z.eqb_spec num LP_HDR_NUMELE_UNKNOWN) as [|Hnk]; cbn [negb andb]; [done|]. specialize (Hn Hnk).
  assert (Hii : (if index <? 0 then num + index else index) = i) by (unfold i; by rewrite Hn).
  rewrite Hii. rewrite (uwrap_small 64 i) by (unfold urange; lia).
  rewrite (uwrap_small 64) by (unfold urange; lia).
  destruct (Z.leb_spec (num - i) k) as [Hle|]; [|done]. 
  destruct (cut_at m ps num (Z.to_nat i) R ltac:(lia) Hnk) as (m' & Hcut & R'). rewrite Z2Nat.id in Hcut, R' by lia.
  exists m'. split; [done|]. rewrite Hps', drop_ge, app_nil_r by lia. unfold new_num.
  rewrite (proj2 (Z.eqb_neq _ _)) by done. rewrite length_take, Nat.min_l, Z2Nat.id by lia. done.
Qed.

End Range.
(** * Batches *)

Section Batch.
Context {A : Allocator}.

Definition ent_el (e : listpackEntry) : lpelem := match e with SVal s => ElStr s | LVal z => ElInt z end.
Definition ent_payload (e : listpackEntry) : bytes :=
  match e with SVal s => encode s | LVal z => lpEncodeIntegerGetType z end.

Lemma ent_payload_el e : payload (ent_el e) = Some (ent_payload e).
Proof. by destruct e. Qed.

Lemma batch_enc_eq e : el_ok (ent_el e) -> batch_enc e = (ent_payload e, Z.of_nat (length (ent_payload e))).
Proof.
  destruct e as [s|z]; [|done]. intros [Hs _]. unfold batch_enc, ent_payload.
  pose proof (lpEncodeGetType_size s Hs) as H. destruct (lpEncodeGetType s) as [ie|n].
  - by rewrite H. - destruct H as [H ->]. by rewrite <- H.
Qed.

Lemma batch_addedlen_ok entries : Forall (fun e => el_ok (ent_el e)) entries ->
  Z.of_nat (length (body (ents (map ent_payload entries)))) < 2 ^ 64 ->
  batch_addedlen entries = Z.of_nat (length (body (ents (map ent_payload entries)))).
Proof.
  intros Hok Hb. unfold batch_addedlen. set (f := fun _ _ => _).
  enough (H : forall acc, 0 <= acc -> acc + Z.of_nat (length (body (ents (map ent_payload entries)))) < 2 ^ 64 ->
    fold_left f entries acc = acc + Z.of_nat (length (body (ents (map ent_payload entries))))) by (apply H; lia).
  clear Hb. induction Hok as [|e entries He _ IH]; intros acc Hacc Hb.
  - cbn in *. lia.
  - cbn [fold_left map]. cbn [ents map] in *. rewrite body_cons in *.
    rewrite length_app, ent_length in *. cbn [mkent fst snd] in *.
    unfold f at 2. rewrite (batch_enc_eq e He). rewrite (uwrap_small 64 (acc + _)) by (unfold urange; lia).
    rewrite uwrap_small by (unfold urange; lia). unfold ents in *. rewrite IH by lia. lia.
Qed.

Lemma batch_write_ok entries : forall pre mid rest newp, Forall (fun e => el_ok (ent_el e)) entries ->
  length mid = length (body (ents (map ent_payload entries))) ->
  batch_write (pre ++ mid ++ rest) (length pre) entries newp
  = Some (pre ++ body (ents (map ent_payload entries)) ++ rest,
          match entries with
          | [] => newp
          | _ => Some (length pre + length (body (ents (removelast (map ent_payload entries)))))%nat
          end).
Proof.
  induction entries as [|e entries IH]; intros pre mid rest newp Hok Hmid.
  - cbn in Hmid. by destruct mid.
  - inversion_clear Hok as [|? ? He Hok']. cbn [batch_write]. rewrite (batch_enc_eq e He).
    cbn [map ents] in *. rewrite body_cons in *. rewrite length_app in Hmid. rewrite Nat2Z.id.
    set (x := ent_payload e) in *. set (k := length (ent (mkent x))) in *.
    rewrite <- (take_drop k mid), <- app_assoc.
    assert (Hst := store_entry pre (take k mid) (drop k mid ++ rest) x ltac:(rewrite length_take; unfold k in *; lia)).
    destruct (store (pre ++ take k mid ++ drop k mid ++ rest) (length pre) x) as [m1|]; [|done].
    cbn [mbind option_bind] in Hst |- *. rewrite Hst. cbn [mbind option_bind].
    rewrite (app_assoc pre). replace (length pre + length x + _)%nat with (length (pre ++ ent (mkent x)))
      by (rewrite length_app, ent_length; cbn [mkent fst snd]; lia).
    rewrite IH; [|done|rewrite length_drop; unfold ents in *; lia].
    rewrite <- !app_assoc. f_equal. f_equal. destruct entries as [|e2 entries].
    + cbn. f_equal. lia.
    + cbn [map removelast]. unfold ents. cbn [map]. rewrite body_cons, !length_app. f_equal. lia.
Qed.

Definition batch_num (num : Z) (ps : list bytes) : Z :=
  if (num =? LP_HDR_NUMELE_UNKNOWN) || (Z.of_nat (length ps) >? LP_HDR_NUMELE_UNKNOWN)
  then LP_HDR_NUMELE_UNKNOWN else Z.of_nat (length ps).

Lemma batch_num_ok m ps num (qs ps' : list bytes) : lp_rep m ps num -> length ps' = (length ps + length qs)%nat ->
  num_ok (ents ps') (batch_num num ps') /\
  forall x, (if negb (num =? LP_HDR_NUMELE_UNKNOWN) then
     if Z.of_nat (length qs) >? LP_HDR_NUMELE_UNKNOWN - num
     then lpSetNumElements (header (ents ps) num ++ x) LP_HDR_NUMELE_UNKNOWN
     else lpSetNumElements (header (ents ps) num ++ x) (u32 (num + Z.of_nat (length qs)))
   else Some (header (ents ps) num ++ x)) = Some (header (ents ps) (batch_num num ps') ++ x).
Proof.
  intros R Hl. destruct (rep_num _ _ _ R) as [Hr Hn]. rewrite ents_length in Hn.
  unfold num_ok, batch_num. rewrite ents_length. unfold LP_HDR_NUMELE_UNKNOWN in *.
  assert (Hset : forall v x, lpSetNumElements (header (ents ps) num ++ x) v = Some (header (ents ps) v ++ x)).
  { intros v x. unfold header. rewrite <- !app_assoc. apply set_num; by rewrite le_bytes_length. }
  destruct (Z.eqb_spec num 65535) as [->|Hk]; cbn [negb orb]; [split; [lia|done]|]. specialize (Hn Hk).
  replace (Z.of_nat (length qs) >? 65535 - num) with (Z.of_nat (length ps') >? 65535) by lia.
  destruct (Z.gtb_spec (Z.of_nat (length ps')) 65535); (split; [lia|intros x]); [apply Hset|].
  rewrite uwrap_small by (unfold urange; lia). rewrite Hset. do 3 f_equal. lia.
Qed.

(** [lpBatchInsert] once [LP_AFTER] is resolved. *)
Lemma lpBatchInsert_before m ps num ps1 ps2 entries : lp_rep m ps num -> ps = ps1 ++ ps2 ->
  entries <> [] -> Forall (fun e => el_ok (ent_el e)) entries ->
  let qs := map ent_payload entries in
  Z.of_nat (length (body (ents qs))) < 2 ^ 63 ->
  let ps' := ps1 ++ qs ++ ps2 in
  if fits ps' then
    exists m', lpBatchInsert m (off (ents ps1)) LP_BEFORE entries
               = Some (Some (m', nth_ptr (ents ps') (length ps1 + length qs - 1))) /\
      lp_rep m' ps' (batch_num num ps')
  else lpBatchInsert m (off (ents ps1)) LP_BEFORE entries = Some None.
Proof.
  intros R Hps Hne Hok qs Hq ps'. pose proof (rep_wf _ _ _ R) as W.
  assert (Hps0 : ps = ps1 ++ [] ++ ps2) by done.
  pose proof (total_split ps1 [] ps2) as Htold. rewrite <- Hps0 in Htold. change (body (ents [])) with (@nil Z) in Htold.
  pose proof (total_split ps1 qs ps2) as Htnew. fold ps' in Htnew. pose proof (rep_total _ _ _ R) as Htr.
  cbn [length] in Htold.
  unfold lpBatchInsert. cbn [guard mbind option_bind].
  destruct (Nat.eqb_spec (length entries) 0) as [Hl|_]; [by apply nil_length_inv in Hl|]. cbn [negb guard mbind option_bind].
  rewrite (wf_get_total W). cbn [mbind option_bind]. rewrite batch_addedlen_ok by (done || fold qs; lia). fold qs.
  replace (total (ents ps) + _) with (total (ents ps')) by lia. rewrite (uwrap_small 64) by (unfold urange; lia).
  unfold fits. destruct (Z.leb_spec (total (ents ps')) UINT32_MAX) as [Hfit|Hfit];
    [|by destruct (Z.gtb_spec (total (ents ps')) UINT32_MAX); [|lia]].
  destruct (Z.gtb_spec (total (ents ps')) UINT32_MAX) as [|_]; [lia|].
  destruct (rep_split m ps num ps1 [] ps2 R Hps0) as [slack Hm]. change (body (ents [])) with (@nil Z) in Hm.
  set (pre := header (ents ps) num ++ body (ents ps1)) in *.
  assert (Hpre : length pre = off (ents ps1)) by (unfold pre; by rewrite length_app, header_length).
  destruct (lp_gap m pre [] _ slack (length (body (ents qs))) (off (ents ps1)) (total (ents ps)) (total (ents ps'))
              Hm Hpre) as (m2 & mid & slack' & Hmid & Hmove & Hre); [rewrite length_app; cbn [length]; lia..|].
  cbn [length] in Hmove. rewrite Nat.add_0_r, Z.sub_0_r in Hmove. rewrite Nat2Z.id, Hmove. cbn [mbind option_bind].
  rewrite (proj2 (Z.ltb_ge _ _)) in Hre by lia. rewrite Hre, <- Hpre.
  rewrite batch_write_ok by done. fold qs. cbn [mbind option_bind]. rewrite Hpre. unfold pre. rewrite <- !app_assoc.
  destruct (rep_num _ _ _ R) as [Hr _]. rewrite (get_num_header (ents ps) num) by done. cbn [mbind option_bind].
  destruct (batch_num_ok m ps num qs ps' R) as [Hno Hset];
    [unfold ps'; rewrite Hps, !length_app; lia|].
  replace (length entries) with (length qs) by (apply length_map). rewrite Hset. cbn [mbind option_bind].
  rewrite update_total. cbn [mbind option_bind]. eexists. split.
  - do 4 f_equal. destruct entries as [|e0 entries0]; [done|].
    assert (Hq0 : (0 < length qs)%nat) by (unfold qs; cbn; lia).
    rewrite nth_ptr_Some by (unfold ps'; rewrite ents_length, !length_app; lia).
    rewrite <- ents_take. f_equal. unfold ps'. rewrite take_app_ge by lia. rewrite take_app_le by lia.
    rewrite off_ents_app. replace (length ps1 + length qs - 1 - length ps1)%nat with (pred (length qs)) by lia.
    by rewrite <- removelast_firstn_len.
  - split; [|  |unfold UINT32_MAX in Hfit; lia|done].
    + exists slack'. unfold ps'. by rewrite !ents_app, !body_app, <- !app_assoc.
    + pose proof (rep_entries _ _ _ R) as Ha. rewrite Hps, Forall_app in Ha. unfold ps'. rewrite !Forall_app.
      split_and!; [tauto| |tauto]. unfold qs. clear -Hok. induction Hok as [|e es He _ IH]; constructor; [|done].
      eapply payload_ok; [exact He|apply ent_payload_el].
Qed.

Definition batch_pos (w : lpwhere) (i : nat) : nat := match w with LP_AFTER => S i | _ => i end.

(** [lpBatchInsert] puts all the given strings and integers, in order,
    before or after an entry of a listpack, and returns the place of the last
    one; the element count stays exact or becomes unknown when it does not fit.
    It returns NULL exactly when the result would not fit in 32 bits of size. *)
Theorem lpBatchInsert_refines m ps num i w entries : lp_rep m ps num ->
  entries <> [] -> Forall (fun e => el_ok (ent_el e)) entries ->
  (w = LP_BEFORE /\ i <= length ps \/ w = LP_AFTER /\ i < length ps)%nat ->
  let qs := map ent_payload entries in
  Z.of_nat (length (body (ents qs))) < 2 ^ 63 ->
  let j := batch_pos w i in
  let ps' := take j ps ++ qs ++ drop j ps in
  if fits ps' then
    exists m', lpBatchInsert m (off (take i (ents ps))) w entries
               = Some (Some (m', nth_ptr (ents ps') (j + length qs - 1))) /\
      lp_rep m' ps' (batch_num num ps')
  else lpBatchInsert m (off (take i (ents ps))) w entries = Some None.
Proof.
  intros R Hne Hok Hi qs Hq j ps'. pose proof (rep_wf _ _ _ R) as W.
  assert (Hw : lpBatchInsert m (off (take i (ents ps))) w entries
               = lpBatchInsert m (off (ents (take j ps))) LP_BEFORE entries).
  { unfold j. rewrite ents_take. destruct Hi as [[-> Hi]|[-> Hi]]; [done|]. cbn [batch_pos].
    destruct (lookup_lt_is_Some_2 (ents ps) i ltac:(by rewrite ents_length)) as [x Hx].
    unfold lpBatchInsert. cbn [guard mbind option_bind]. rewrite (wf_skip W i x Hx). cbn [mbind option_bind].
    pose proof (assert_integrity_ok m (ents ps) num i x W Hx) as Ha.
    by rewrite Ha. }
  assert (Hlj : length (take j ps) = j).
  { rewrite length_take. unfold j. destruct Hi as [[-> Hi]|[-> Hi]]; cbn [batch_pos]; lia. }
  rewrite Hw. pose proof (lpBatchInsert_before m ps num (take j ps) (drop j ps) entries R) as H.
  rewrite take_drop, Hlj in H. by apply H.
Qed.

(** ** Deleting a batch of entries *)

(** What remains from the [i]-th entry on, when the entries [idx] are deleted. *)
Fixpoint keep {T} (ps : list T) (i : nat) (idx : list nat) : list T :=
  match idx with
  | [] => drop i ps
  | j :: idx => take (j - i) (drop i ps) ++ keep ps (S j) idx
  end.

(** Increasing indices from [i] on. *)
Fixpoint increasing (n i : nat) (idx : list nat) : Prop :=
  match idx with
  | [] => True
  | j :: idx => (i <= j < n)%nat /\ increasing n (S j) idx
  end.

Lemma memmove_keep (K G X Y : bytes) dst src n : dst = length K -> src = (length K + length G)%nat ->
  n = length X ->
  exists G', length G' = length G /\ memmove (K ++ G ++ X ++ Y) dst src n = Some (K ++ X ++ G' ++ Y).
Proof.
  intros -> -> ->. unfold memmove. rewrite (app_assoc K G), load_app by (by rewrite ?length_app).
  cbn [mbind option_bind]. rewrite <- app_assoc. exists (drop (length X) (G ++ X)).
  split; [rewrite length_drop, length_app; lia|]. rewrite store_Some by (rewrite !length_app; lia).
  rewrite take_app_length. do 2 f_equal. f_equal. rewrite <- drop_drop, drop_app_length.
  rewrite (app_assoc G X Y), drop_app_le by (rewrite length_app; lia). done.
Qed.

Lemma keep_length {T} (ps : list T) idx : forall i, (i <= length ps)%nat -> increasing (length ps) i idx ->
  (length (keep ps i idx) + length idx = length ps - i)%nat.
Proof.
  induction idx as [|j idx IH]; intros i Hi Hinc; cbn [keep length].
  - rewrite length_drop. lia.
  - destruct Hinc as [Hj Hinc]. rewrite length_app, length_take, length_drop. specialize (IH (S j) ltac:(lia) Hinc). lia.
Qed.

Lemma keep_ents ps idx : forall i, ents (keep ps i idx) = keep (ents ps) i idx.
Proof.
  induction idx as [|j idx IH]; intros i; cbn [keep].
  - symmetry. apply skipn_map.
  - rewrite ents_app, IH, ents_take. do 2 f_equal. symmetry. apply skipn_map.
Qed.

Lemma keep_Forall {T} (P : T -> Prop) ps idx : Forall P ps -> forall i, Forall P (keep ps i idx).
Proof.
  intros HP. induction idx as [|j idx IH]; intros i; cbn [keep]; [by apply Forall_drop|].
  apply Forall_app. split; [by apply Forall_take, Forall_drop|done].
Qed.

(** The position of entry [j], seen from entry [i]. *)
Lemma off_between (es : list entry) i j : (i <= j)%nat ->
  off (take j es) = (off (take i es) + length (body (take (j - i) (drop i es))))%nat.
Proof.
  intros Hij. assert (E : take j es = take i es ++ take (j - i) (drop i es)).
  { rewrite take_take_drop. f_equal. lia. }
  unfold off. rewrite E, body_app, length_app. lia.
Qed.

Lemma body_between (es : list entry) i j : (i <= j)%nat ->
  body (drop i es) = body (take (j - i) (drop i es)) ++ body (drop j es).
Proof.
  intros Hij. rewrite <- body_app. f_equal. rewrite <- (take_drop (j - i) (drop i es)) at 1.
  rewrite drop_drop. do 3 f_equal. lia.
Qed.

Lemma batch_delete_loop es slack idx : forall j K G, Forall entry_ok es ->
  (j < length es)%nat -> increasing (length es) (S j) idx ->
  (length K + length G)%nat = off (take j es) ->
  exists G', lpBatchDelete_loop (K ++ G ++ body (drop j es) ++ LP_EOF :: slack) (off es + 1) (length K)
               (map (fun i => off (take i es)) (j :: idx))
    = Some (K ++ body (keep es (S j) idx) ++ LP_EOF :: G',
            length K + length (body (keep es (S j) idx)) + 1)%nat.
Proof.
  induction idx as [|j2 idx IH]; intros j K G Hok Hj Hinc Hoff;
    destruct (lookup_lt_is_Some_2 es j Hj) as [x Hx];
    pose proof (Forall_lookup_1 _ _ _ _ Hok Hx) as [He Hbl];
    destruct (enc_ok_first _ He) as (b & Hb & Hu & Hlt);
    pose proof (drop_S _ _ _ Hx) as Hdj; pose proof (off_take_S j x Hx) as HoS;
    set (m := K ++ G ++ body (drop j es) ++ LP_EOF :: slack);
    assert (Hm : m = (K ++ G) ++ x.1 ++ x.2 ++ body (drop (S j) es) ++ LP_EOF :: slack)
      by (unfold m; rewrite Hdj, body_cons; unfold ent; by rewrite <- !app_assoc);
    assert (Hl : length (K ++ G) = off (take j es)) by (by rewrite length_app);
    assert (Hmb : m !! off (take j es) = Some b) by (rewrite Hm, <- Hl; by apply lookup_mid0);
    assert (Hskip : lpSkip m (off (take j es)) = Some (off (take (S j) es)))
      by (unfold lpSkip; rewrite Hm, <- Hl, (enc_size_local _ _ _ _ (proj2 (proj2 (proj2 He)))); cbn [mbind option_bind];
          f_equal; rewrite HoS, ent_length, Hl; lia);
    cbn [map lpBatchDelete_loop]; rewrite Hmb; cbn [mbind option_bind];
    rewrite (proj2 (Z.eqb_neq b LP_EOF)) by (unfold LP_EOF; lia); cbn [negb guard mbind option_bind];
    rewrite Hskip; cbn [mbind option_bind].
  - pose proof (off_between es (S j) (length es) ltac:(lia)) as Hob. rewrite take_ge in Hob by lia.
    rewrite (take_ge (drop (S j) es)) in Hob by (rewrite length_drop; lia).
    rewrite (proj2 (Nat.ltb_lt _ _)) by lia. cbn [guard mbind option_bind].
    destruct (memmove_keep K (G ++ ent x) (body (drop (S j) es) ++ [LP_EOF]) slack (length K) (off (take (S j) es))
      (off es + 1 - off (take (S j) es))%nat) as (G' & HG' & Hmm);
      [done|rewrite length_app, HoS; lia|rewrite length_app; cbn [length]; lia|].
    replace (K ++ (G ++ ent x) ++ (body (drop (S j) es) ++ [LP_EOF]) ++ slack) with m in Hmm
      by (rewrite Hm; unfold ent; by rewrite <- !app_assoc).
    rewrite Hmm. cbn [mbind option_bind keep]. exists (G' ++ slack). rewrite <- !app_assoc. do 2 f_equal. lia.
  - destruct Hinc as [Hj2 Hinc]. pose proof (off_between es (S j) j2 ltac:(lia)) as Hob.
    pose proof (body_between es (S j) j2 ltac:(lia)) as Hbb. set (X := take (j2 - S j) (drop (S j) es)) in *.
    cbn [map] in IH. destruct (Nat.eqb_spec (off (take (S j) es)) (off (take j2 es))) as [Heq|Hneq].
    + assert (HX : body X = []) by (apply nil_length_inv; lia).
      destruct (IH j2 K (G ++ ent x) Hok ltac:(lia) Hinc) as (G' & HG'); [rewrite length_app; lia|].
      replace (K ++ (G ++ ent x) ++ body (drop j2 es) ++ LP_EOF :: slack) with m in HG'
        by (rewrite Hm, Hbb, HX; unfold ent; by rewrite <- !app_assoc).
      exists G'. etransitivity; [exact HG'|]. cbn [keep]. fold X. by rewrite body_app, HX.
    + rewrite (proj2 (Nat.ltb_lt _ _)) by lia. cbn [guard mbind option_bind].
      destruct (memmove_keep K (G ++ ent x) (body X) (body (drop j2 es) ++ LP_EOF :: slack) (length K) (off (take (S j) es))
        (off (take j2 es) - off (take (S j) es))%nat) as (G' & HG' & Hmm); [done|rewrite length_app, HoS; lia|lia|].
      replace (K ++ (G ++ ent x) ++ body X ++ body (drop j2 es) ++ LP_EOF :: slack) with m in Hmm
        by (rewrite Hm, Hbb; unfold ent; by rewrite <- !app_assoc).
      rewrite Hmm. cbn [mbind option_bind].
      destruct (IH j2 (K ++ body X) G' Hok ltac:(lia) Hinc) as (G'' & HG'');
        [rewrite length_app, HG', length_app; lia|].
      rewrite <- app_assoc, length_app in HG''.
      replace (length K + (off (take j2 es) - off (take (S j) es)))%nat with (length K + length (body X))%nat by lia.
      exists G''. etransitivity; [exact HG''|]. cbn [keep]. fold X. rewrite body_app, length_app, <- !app_assoc. do 2 f_equal. lia.
Qed.

Lemma keep_body_le es idx : forall i, (i <= length es)%nat -> increasing (length es) i idx ->
  (length (body (keep es i idx)) <= length (body (drop i es)))%nat.
Proof.
  induction idx as [|j idx IH]; intros i Hi Hinc; cbn [keep]; [done|]. destruct Hinc as [Hj Hinc].
  specialize (IH (S j) ltac:(lia) Hinc). rewrite (body_between es i j) by lia.
  rewrite body_app, !length_app, (body_between es j (S j)), length_app by lia. lia.
Qed.

(** [lpBatchDelete], given the pointers of entries in increasing order,
    removes exactly those entries, in place and in one pass, whatever the gaps
    between them, and keeps the others in order. *)
Theorem lpBatchDelete_refines m ps num idx : lp_rep m ps num -> increasing (length ps) 0 idx ->
  let ps' := keep ps 0 idx in
  exists m', lpBatchDelete m (map (fun i => off (take i (ents ps))) idx) = Some m' /\
    lp_rep m' ps' (new_num num ps').
Proof.
  intros R Hinc ps'. pose proof (rep_wf _ _ _ R) as W. destruct idx as [|j idx].
  { exists m. split; [done|]. unfold ps'. cbn [keep]. rewrite drop_0. by rewrite (new_num_same m). }
  destruct Hinc as [Hj Hinc]. destruct (rep_block _ _ _ R) as [slack Hm]. set (es := ents ps) in *.
  assert (Hle : length es = length ps) by apply ents_length.
  set (K := header es num ++ body (take j es)).
  assert (HK : length K = off (take j es)) by (unfold K; by rewrite length_app, header_length).
  destruct (batch_delete_loop es slack idx j K [] (ents_ok _ (rep_entries _ _ _ R)) ltac:(lia)
    ltac:(by rewrite Hle) ltac:(cbn; lia)) as (G' & Hloop).
  assert (Hbj : body es = body (take j es) ++ body (drop j es)) by (by rewrite <- body_app, take_drop).
  cbn [app] in Hloop. unfold K in Hloop at 1. rewrite <- !app_assoc in Hloop.
  rewrite (app_assoc (body (take j es))), <- Hbj, <- Hm in Hloop.
  cbn [map] in *. set (ptrs := off (take j es) :: map (fun i => off (take i es)) idx) in *.
  unfold lpBatchDelete. unfold ptrs at 1. fold ptrs. rewrite (wf_get_total W). cbn [mbind option_bind]. fold es.
  pose proof (total_off es) as Hto. replace (Z.to_nat (total es)) with (off es + 1)%nat by lia.
  replace (off es + 1 - 1)%nat with (off es) by lia. rewrite (wf_eof W). cbn [mbind option_bind].
  rewrite Z.eqb_refl. cbn [guard mbind option_bind]. rewrite <- HK, Hloop. cbn [mbind option_bind].
  assert (Hes' : ents ps' = take j es ++ keep es (S j) idx).
  { unfold ps'. rewrite keep_ents. fold es. cbn [keep]. by rewrite drop_0, Nat.sub_0_r. }
  assert (Hdst : (length K + length (body (keep es (S j) idx)) + 1)%nat = (off (ents ps') + 1)%nat).
  { rewrite HK, Hes'. unfold off. rewrite body_app, length_app. lia. }
  rewrite Hdst. pose proof (total_off (ents ps')) as Hto'.
  assert (Hlen : (length ps' + length (j :: idx) = length ps)%nat).
  { pose proof (keep_length ps (j :: idx) 0 ltac:(lia) (conj Hj Hinc)) as Hk. fold ps' in Hk. lia. }
  assert (Hlt : total (ents ps') <= total es).
  { rewrite Hto, Hto'. unfold K in Hdst. rewrite length_app, header_length in Hdst.
    pose proof (keep_body_le es idx (S j) ltac:(lia) ltac:(by rewrite Hle)) as Hkb.
    rewrite Hes'. unfold off. rewrite Hbj, body_app, !length_app, (body_between es j (S j)), length_app by lia. lia. }
  pose proof (rep_total _ _ _ R) as Htr. fold es in Htr.
  replace (u64 _) with (total (ents ps')) by (rewrite uwrap_small; [lia|unfold urange; lia]).
  assert (Hm1 : K ++ body (keep es (S j) idx) ++ LP_EOF :: G' = header es num ++ body (ents ps') ++ LP_EOF :: G').
  { unfold K. by rewrite Hes', body_app, <- !app_assoc. }
  rewrite Hm1. replace (Z.to_nat (total (ents ps') - 1)) with (length (header es num ++ body (ents ps')))
    by (rewrite length_app, header_length, Hto'; unfold off; lia).
  rewrite app_assoc, list_lookup_middle by done. cbn [mbind option_bind]. rewrite Z.eqb_refl. cbn [guard mbind option_bind].
  rewrite <- app_assoc, update_total. cbn [mbind option_bind]. destruct (rep_num _ _ _ R) as [Hr Hn].
  rewrite (get_num_header (ents ps') num) by done. cbn [mbind option_bind]. fold es in Hn. rewrite Hle in Hn.
  rewrite (set_num_deleted m ps num ps' (length ptrs) (ents ps') _ R)
    by (unfold ptrs; cbn [length] in *; rewrite length_map; lia).
  cbn [mbind option_bind]. apply shrink_rep. split.
  - by exists G'.
  - apply keep_Forall, R.
  - lia.
  - eapply new_num_ok; [exact R|]. cbn [length] in Hlen. lia.
Qed.

End Batch.
(** * Length, merge and copy *)

Section Merge.
Context {A : Allocator}.

Lemma lpLength_spec m ps num : lp_rep m ps num ->
  exists m' num', lpLength m = Some (m', Z.of_nat (length ps)) /\ lp_rep m' ps num' /\
    lpGetTotalBytes m' = Some (total (ents ps)).
Proof.
  intros R. pose proof (rep_wf _ _ _ R) as W. destruct (rep_num _ _ _ R) as [Hr Hn]. rewrite ents_length in Hn.
  unfold lpLength. rewrite (wf_get_num W). cbn [mbind option_bind].
  destruct (Z.eqb_spec num LP_HDR_NUMELE_UNKNOWN) as [Hu|Hk]; cbn [negb].
  - rewrite (wf_first W). cbn [mbind option_bind]. destruct (wf_count W) as [H1 H2]. rewrite ents_length in H1, H2.
    rewrite (length_loop W) by (rewrite ?ents_length; lia). cbn [mbind option_bind]. rewrite ents_length, Nat.sub_0_r, Z.add_0_l.
    destruct (Z.ltb_spec (Z.of_nat (length ps)) LP_HDR_NUMELE_UNKNOWN) as [Hlt|_]; [|exists m, num; split_and!; [done..|apply W || apply (wf_get_total W)]].
    destruct R as [[slack ->] He Ht _]. unfold header at 1. rewrite <- !app_assoc.
    rewrite set_num by (by rewrite le_bytes_length). cbn [mbind option_bind].
    eexists _, (Z.of_nat (length ps)). split; [done|].
    assert (R' : lp_rep (le_bytes 4 (total (ents ps)) ++ le_bytes 2 (Z.of_nat (length ps)) ++ body (ents ps) ++ LP_EOF :: slack)
      ps (Z.of_nat (length ps))).
    { split; [|done..|]. { exists slack. unfold header. by rewrite <- !app_assoc. }
      unfold num_ok. rewrite ents_length. lia. }
    split; [done|]. apply (wf_get_total (rep_wf _ _ _ R')).
  - exists m, num. rewrite (Hn Hk) at 1. split_and!; [done..|]. apply (wf_get_total W).
Qed.

Lemma lp_realloc_keep a x n : (length a <= n)%nat ->
  exists x', lp_realloc (a ++ x) n = a ++ x' /\ (n <= length (a ++ x'))%nat.
Proof.
  intros Hl. unfold lp_realloc. rewrite take_app_ge by lia. rewrite <- app_assoc. eexists. split; [done|].
  rewrite !length_app, junk_length. pose proof (usable_ge n). lia.
Qed.

(** Overwriting the end of a block. *)
Lemma store_tail a x bs : (length bs <= length x)%nat ->
  store (a ++ x) (length a) bs = Some (a ++ bs ++ drop (length bs) x).
Proof.
  intros Hl. rewrite <- (take_drop (length bs) x) at 1. apply store_app; [done|]. rewrite length_take. lia.
Qed.

(** The count [lpMerge] stores. *)
Definition merge_num (ps : list bytes) : Z := Z.min (Z.of_nat (length ps)) UINT16_MAX.

Lemma merged_header es num ps x : total (ents ps) < UINT32_MAX -> Forall enc_ok ps ->
  exists m', (t ← lpSetNumElements (header es num ++ body (ents ps) ++ LP_EOF :: x) (merge_num ps);
              lpSetTotalBytes t (total (ents ps))) = Some m' /\ lp_rep m' ps (merge_num ps).
Proof.
  intros Ht Hok. unfold header. rewrite <- !app_assoc. rewrite set_num by (by rewrite le_bytes_length).
  cbn [mbind option_bind]. rewrite set_total by (apply le_bytes_length). eexists. split; [done|].
  split; [|done|unfold UINT32_MAX in Ht; lia|].
  - exists x. unfold header. by rewrite <- !app_assoc.
  - unfold num_ok, merge_num, UINT16_MAX, LP_HDR_NUMELE_UNKNOWN. rewrite ents_length. lia.
Qed.

Lemma rep_load_tail m ps num : lp_rep m ps num ->
  load m LP_HDR_SIZE (Z.to_nat (total (ents ps) - Z.of_nat LP_HDR_SIZE)) = Some (body (ents ps) ++ [LP_EOF]).
Proof.
  intros [[slack ->] _ _ _].
  replace (header (ents ps) num ++ body (ents ps) ++ LP_EOF :: slack)
    with (header (ents ps) num ++ (body (ents ps) ++ [LP_EOF]) ++ slack) by (by rewrite <- !app_assoc).
  apply load_app; [apply header_length|]. rewrite length_app. unfold total. cbn [length]. lia.
Qed.

Lemma rep_load_head m ps num : lp_rep m ps num ->
  load m 0 (Z.to_nat (total (ents ps) - 1)) = Some (header (ents ps) num ++ body (ents ps)).
Proof.
  intros [[slack ->] _ _ _]. rewrite app_assoc.
  apply (load_app [] (header (ents ps) num ++ body (ents ps))); [done|].
  rewrite length_app, header_length. unfold total. lia.
Qed.

(** The two ways to build the merged block. *)
Lemma merge_append m ps num qs n : lp_rep m ps num -> n = (off (ents (ps ++ qs)) + 1)%nat ->
  exists x, store (lp_realloc m n) (Z.to_nat (total (ents ps) - 1)) (body (ents qs) ++ [LP_EOF])
    = Some (header (ents ps) num ++ body (ents (ps ++ qs)) ++ LP_EOF :: x).
Proof.
  intros [[slack ->] _ _ _] ->. rewrite app_assoc. rewrite off_ents_app.
  destruct (lp_realloc_keep (header (ents ps) num ++ body (ents ps)) (LP_EOF :: slack)
    (off (ents ps) + length (body (ents qs)) + 1)) as (x & -> & Hl).
  { rewrite length_app, header_length. unfold off. lia. }
  assert (Ha : length (header (ents ps) num ++ body (ents ps)) = off (ents ps)) by (by rewrite length_app, header_length).
  replace (Z.to_nat (total (ents ps) - 1)) with (length (header (ents ps) num ++ body (ents ps)))
    by (rewrite Ha, total_off; lia).
  rewrite store_tail by (rewrite !length_app in *; cbn [length]; unfold off in *; lia).
  eexists. rewrite ents_app, body_app, <- !app_assoc. done.
Qed.

Lemma merge_prepend m ps num qs n1 n : lp_rep m qs num -> n = (off (ents (ps ++ qs)) + 1)%nat ->
  exists x, (t ← memmove_n (lp_realloc m n) (Z.to_nat (total (ents ps) - 1)) LP_HDR_SIZE
                   (total (ents qs) - Z.of_nat LP_HDR_SIZE);
             store t 0 (header (ents ps) n1 ++ body (ents ps)))
    = Some (header (ents ps) n1 ++ body (ents (ps ++ qs)) ++ LP_EOF :: x).
Proof.
  intros [[slack ->] _ _ _] ->. set (h := header (ents qs) num). set (X := body (ents qs) ++ [LP_EOF]).
  replace (h ++ body (ents qs) ++ LP_EOF :: slack) with ((h ++ X) ++ slack) by (unfold X; by rewrite <- !app_assoc).
  rewrite off_ents_app. assert (Hh : length h = LP_HDR_SIZE) by apply header_length.
  assert (HX : length X = (length (body (ents qs)) + 1)%nat) by (unfold X; rewrite length_app; done).
  destruct (lp_realloc_keep (h ++ X) slack (off (ents ps) + length (body (ents qs)) + 1)) as (x & -> & Hl).
  { rewrite length_app, Hh, HX. unfold off. lia. }
  replace (Z.to_nat (total (ents ps) - 1)) with (off (ents ps)) by (rewrite total_off; lia).
  unfold memmove_n. rewrite (proj2 (Z.leb_le _ _)) by (unfold total; lia). cbn [guard mbind option_bind].
  replace (Z.to_nat (total (ents qs) - _)) with (length X) by (rewrite HX; unfold total; lia).
  unfold memmove. rewrite <- app_assoc, <- Hh, load_app by done. cbn [mbind option_bind].
  rewrite !length_app in Hl. rewrite store_Some by (rewrite !length_app; lia). cbn [mbind option_bind].
  set (B := h ++ X ++ x). assert (HB : length (take (off (ents ps)) B) = off (ents ps)).
  { unfold B. rewrite length_take, !length_app. lia. }
  pose proof (store_app [] (take (off (ents ps)) B) (X ++ drop (off (ents ps) + length X) B) 0
    (header (ents ps) n1 ++ body (ents ps)) eq_refl) as Hst. cbn [app] in Hst. rewrite Hst.
  - eexists. unfold X. rewrite ents_app, body_app, <- !app_assoc. done.
  - rewrite HB, length_app, header_length. done.
Qed.

(** [lpMerge] of two listpacks gives one that holds the entries of the first
    followed by those of the second, whichever of the two blocks is extended in
    place, and leaves NULL in the argument whose block it did not keep. *)
Theorem lpMerge_refines f s ps qs n1 n2 : lp_rep f ps n1 -> lp_rep s qs n2 ->
  total (ents (ps ++ qs)) < UINT32_MAX ->
  exists m' p1 p2, lpMerge (Some f) (Some s) false = Some (Some m', (p1, p2)) /\
    lp_rep m' (ps ++ qs) (merge_num (ps ++ qs)) /\
    ((p1, p2) = (Some m', None) \/ (p1, p2) = (None, Some m')).
Proof.
  intros R1 R2 Hfit. unfold lpMerge, lpBytes.
  rewrite (wf_get_total (rep_wf _ _ _ R1)). cbn [mbind option_bind].
  destruct (lpLength_spec f ps n1 R1) as (f' & n1' & -> & R1' & _). cbn [mbind option_bind].
  rewrite (wf_get_total (rep_wf _ _ _ R2)). cbn [mbind option_bind].
  destruct (lpLength_spec s qs n2 R2) as (s' & n2' & -> & R2' & _). cbn [mbind option_bind].
  pose proof (total_off (ents (ps ++ qs))) as Ht. pose proof (off_ents_app ps qs) as Hoff.
  pose proof (total_off (ents ps)) as Ht1. pose proof (total_off (ents qs)) as Ht2.
  assert (Hoq : Z.of_nat (off (ents qs)) = Z.of_nat (length (body (ents qs))) + Z.of_nat LP_HDR_SIZE) by (unfold off; lia).
  assert (Hsum : u64 (total (ents ps) + total (ents qs) - Z.of_nat LP_HDR_SIZE - 1) = total (ents (ps ++ qs))).
  { rewrite uwrap_small; [lia|]. unfold urange, UINT32_MAX in *. lia. }
  assert (Hnum : u64 (Z.of_nat (length ps) + Z.of_nat (length qs)) = Z.of_nat (length (ps ++ qs))).
  { destruct (wf_count (rep_wf _ _ _ R1)) as [_ H1]. destruct (wf_count (rep_wf _ _ _ R2)) as [_ H2].
    rewrite ents_length in H1, H2. rewrite length_app, uwrap_small; [lia|unfold urange; lia]. }
  assert (Hmn : (if Z.of_nat (length (ps ++ qs)) <? UINT16_MAX then Z.of_nat (length (ps ++ qs)) else UINT16_MAX)
    = merge_num (ps ++ qs)) by (unfold merge_num; destruct (Z.ltb_spec (Z.of_nat (length (ps ++ qs))) UINT16_MAX); lia).
  assert (Hok : Forall enc_ok (ps ++ qs)) by (apply Forall_app; split; [apply R1|apply R2]).
  destruct (total (ents ps) >=? total (ents qs)); rewrite Hsum, Hnum, Hmn, (proj2 (Z.ltb_lt _ _)) by done;
    cbn [guard mbind option_bind].
  - rewrite (rep_load_tail s' qs n2' R2'). cbn [mbind option_bind].
    destruct (merge_append f' ps n1' qs (Z.to_nat (total (ents (ps ++ qs)))) R1' ltac:(lia)) as (x & ->).
    cbn [mbind option_bind].
    destruct (merged_header (ents ps) n1' (ps ++ qs) x Hfit Hok) as (m' & Hm' & R').
    exists m', (Some m'), None. split_and!; [|done|by left].
    destruct (lpSetNumElements _ _) as [t|]; [|done]. cbn [mbind option_bind] in Hm' |- *. by rewrite Hm'.
  - destruct (merge_prepend s' ps n2' qs n1' (Z.to_nat (total (ents (ps ++ qs)))) R2' ltac:(lia)) as (x & Hx).
    rewrite (rep_load_head f' ps n1' R1'). destruct (memmove_n _ _ _ _) as [t|]; [|done].
    cbn [mbind option_bind] in Hx |- *. rewrite Hx. cbn [mbind option_bind].
    destruct (merged_header (ents ps) n1' (ps ++ qs) x Hfit Hok) as (m' & Hm' & R').
    exists m', None, (Some m'). split_and!; [|done|by right].
    destruct (lpSetNumElements _ _) as [t'|]; [|done]. cbn [mbind option_bind] in Hm' |- *. by rewrite Hm'.
Qed.

Lemma lpDup_spec m ps num : lp_rep m ps num -> exists m', lpDup m = Some m' /\ lp_rep m' ps num.
Proof.
  intros R. unfold lpDup, lpBytes. rewrite (wf_get_total (rep_wf _ _ _ R)). cbn [mbind option_bind].
  destruct R as [[slack ->] He Ht Hn].
  set (a := header (ents ps) num ++ body (ents ps) ++ [LP_EOF]).
  replace (header (ents ps) num ++ body (ents ps) ++ LP_EOF :: slack) with (a ++ slack)
    by (unfold a; by rewrite <- !app_assoc).
  assert (Ha : Z.to_nat (total (ents ps)) = length a).
  { unfold a, total. rewrite !length_app, header_length. cbn [length]. lia. }
  rewrite Ha. rewrite (load_app [] a slack) by done. cbn [mbind option_bind]. unfold lp_malloc.
  pose proof (store_tail [] (junk (usable (length a))) a) as Hst. cbn [app length] in Hst.
  rewrite Hst by (rewrite junk_length; apply usable_ge). eexists. split; [done|]. split; [|done..]. eexists. unfold a. cbn [app]. by rewrite <- !app_assoc.
Qed.

End Merge.
(** * A listpack is a list of strings *)

Section Refinement.
Context {A : Allocator}.

(** [m] is a listpack that holds the strings [l]. *)
Definition lp_holds (m : bytes) (l : list bytes) : Prop :=
  exists ps num, lp_rep m ps num /\ map ent_str ps = l.

Definition str_ok (s : bytes) : Prop := bytes_ok s /\ Z.of_nat (length s) + 5 < 2 ^ 32.

(** The outcome of storing a string: NULL only when the listpack would get too
    large, otherwise a listpack that holds [l']. *)
Definition stored (m s : bytes) (r : option (option (bytes * option nat))) (l' : list bytes) : Prop :=
  (exists m' newp, r = Some (Some (m', newp)) /\ lp_holds m' l') \/
  (r = Some None /\ exists t, lpBytes m = Some t /\ UINT32_MAX < t + Z.of_nat (length s) + 10).

Lemma ent_str_encode s : str_ok s -> ent_str (encode s) = s.
Proof. intros [Hs Hl]. destruct (encode_ok s Hs Hl) as (_ & v & Hv & Hvs & _). unfold ent_str. by rewrite Hv. Qed.

Lemma encode_entry_length s : str_ok s -> Z.of_nat (length (ent (mkent (encode s)))) <= Z.of_nat (length s) + 10.
Proof.
  intros [Hs Hl]. rewrite ent_length. cbn [mkent fst snd].
  pose proof (lpEncodeBacklen_length (Z.of_nat (length (encode s)))) as Hb.
  pose proof (lpEncodeBacklenBytes_bound (Z.of_nat (length (encode s)))).
  assert (length (encode s) <= length s + 5)%nat; [|lia].
  pose proof (lpEncodeString_length s). unfold encode, lpEncodeGetType.
  destruct (lpStringToInt64 s) as [z|] eqn:Hz; [|lia].
  rewrite lpStringToInt64_eq in Hz. apply string2ll_sound in Hz as [-> Hr]. by apply int_enc_short.
Qed.

Lemma total_insert_le ps el w i e : payload el = Some e ->
  total (ents (ins_list ps el w i)) <= total (ents ps) + Z.of_nat (length (ent (mkent e))).
Proof.
  intros He. unfold ins_list. rewrite He, total_split.
  change (body (ents (option_list (Some e)))) with (ent (mkent e) ++ []). rewrite app_nil_r.
  set (j := ins_pos el w i). set (k := (j + ins_drop el w)%nat).
  assert (Hd : (length (body (ents (drop k ps))) <= length (body (ents (drop j ps))))%nat).
  { pose proof (body_between (ents ps) j k ltac:(lia)) as H. unfold ents in *. rewrite !skipn_map in H.
    rewrite H, length_app. lia. }
  pose proof (total_split (take j ps) (drop j ps) []) as Ht. rewrite app_nil_r, take_drop in Ht. cbn [ents map body concat length] in Ht.
  unfold ents in *. lia.
Qed.

Lemma store_refines m ps num i w s : lp_rep m ps num -> str_ok s ->
  (i < length ps \/ i = length ps /\ w = LP_BEFORE)%nat ->
  let p := off (take i (ents ps)) in
  stored m s (lpInsert m (Some s) None p w) (map ent_str (ins_list ps (ElStr s) w i)).
Proof.
  intros R Hs Hi p. pose proof (lpInsert_spec m ps num i (ElStr s) w R Hs) as H.
  specialize (H ltac:(destruct Hi as [|[? ?]]; [by left|by right])). cbn zeta in H. fold p in H.
  cbn [el_str el_int] in H. unfold stored. destruct (fits _) eqn:Hf.
  - left. destruct H as (m' & Hm & R'). eexists _, _. split; [exact Hm|]. by eexists _, _.
  - right. split; [done|]. exists (total (ents ps)). split; [apply (wf_get_total (rep_wf _ _ _ R))|].
    unfold fits in Hf. pose proof (total_insert_le ps (ElStr s) w i (encode s) eq_refl).
    pose proof (encode_entry_length s Hs). lia.
Qed.

Lemma lpNew_rep cap : exists m, lpNew cap = Some m /\ lp_rep m [] 0.
Proof.
  unfold lpNew. set (n := if (_ <? _)%nat then _ else _).
  assert (Hn : (7 <= n)%nat) by (unfold n, LP_HDR_SIZE; destruct (Nat.ltb_spec (6 + 1) cap); lia).
  pose proof (usable_ge n) as Hu. assert (Hl : (7 <= length (lp_malloc n))%nat) by (unfold lp_malloc; rewrite junk_length; lia).
  destruct (lp_malloc n) as [|b0 [|b1 [|b2 [|b3 [|b4 [|b5 [|b6 x]]]]]]]; try (cbn in Hl; lia).
  change (b0 :: b1 :: b2 :: b3 :: b4 :: b5 :: b6 :: x) with ([b0; b1; b2; b3] ++ [b4; b5] ++ [b6] ++ x).
  rewrite set_total by done. cbn [mbind option_bind]. rewrite set_num by done. cbn [mbind option_bind].
  rewrite (app_assoc (le_bytes 4 _)). rewrite store_app by done. eexists. split; [done|].
  split; [|by constructor|done|done]. by exists x.
Qed.

Lemma append_refines m ps num s : lp_rep m ps num -> str_ok s ->
  stored m s (lpAppend m s) (map ent_str ps ++ [s]).
Proof.
  intros R Hs. pose proof (rep_wf _ _ _ R) as W.
  unfold lpAppend, eofptr. rewrite (wf_get_total W). cbn [mbind option_bind]. rewrite total_off.
  rewrite (proj2 (Z.leb_le _ _)) by lia. cbn [guard mbind option_bind].
  replace (Z.to_nat _) with (off (take (length ps) (ents ps))) by (rewrite off_all by (by rewrite ents_length); lia).
  pose proof (store_refines m ps num (length ps) LP_BEFORE s R Hs ltac:(by right)) as H. cbn zeta in H.
  assert (E : ins_list ps (ElStr s) LP_BEFORE (length ps) = ps ++ [encode s]).
  { unfold ins_list. cbn [ins_pos ins_drop payload option_list]. rewrite take_ge by lia. by rewrite drop_ge by lia. }
  rewrite E, map_app in H. cbn [map] in H. by rewrite (ent_str_encode s Hs) in H.
Qed.

Lemma prepend_refines m ps num s : lp_rep m ps num -> str_ok s ->
  stored m s (lpPrepend m s) (s :: map ent_str ps).
Proof.
  intros R Hs. pose proof (rep_wf _ _ _ R) as W.
  unfold lpPrepend. rewrite (wf_first W). cbn [mbind option_bind]. unfold nth_ptr. rewrite ents_length.
  case_decide as Hl.
  - pose proof (store_refines m ps num 0 LP_BEFORE s R Hs ltac:(by left)) as H. cbn zeta in H.
    unfold ins_list in H. cbn [ins_pos ins_drop payload Nat.add] in H. rewrite take_0, drop_0 in H.
    cbn [option_list app map] in H. by rewrite <- (ent_str_encode s Hs) at 3.
  - destruct ps; [|cbn in Hl; lia]. apply (append_refines m [] num s R Hs).
Qed.

Lemma replace_refines m ps num i s : lp_rep m ps num -> str_ok s -> (i < length ps)%nat ->
  stored m s (lpReplace m (off (take i (ents ps))) s) (<[i := s]> (map ent_str ps)).
Proof.
  intros R Hs Hi. pose proof (store_refines m ps num i LP_REPLACE s R Hs ltac:(by left)) as H. cbn zeta in H.
  assert (E : map ent_str (ins_list ps (ElStr s) LP_REPLACE i) = <[i := s]> (map ent_str ps)).
  { unfold ins_list. cbn [ins_pos ins_drop payload]. rewrite !map_app. rewrite insert_take_drop by (by rewrite length_map).
    change (map ent_str (option_list (Some (encode s)))) with [ent_str (encode s)].
    rewrite (ent_str_encode s Hs), firstn_map, skipn_map, Nat.add_1_r. done. }
  by rewrite E in H.
Qed.

Lemma delete_refines m ps num i : lp_rep m ps num -> (i < length ps)%nat ->
  exists m' newp, lpDelete m (off (take i (ents ps))) = Some (Some (m', newp)) /\
    lp_holds m' (delete i (map ent_str ps)).
Proof.
  intros R Hi. pose proof (lpInsert_spec m ps num i ElDel LP_REPLACE R I ltac:(by left)) as H. cbn zeta in H.
  assert (Hfit : fits (ins_list ps ElDel LP_REPLACE i) = true).
  { unfold fits. apply Z.leb_le. destruct (lookup_lt_is_Some_2 ps i Hi) as [o Ho].
    pose proof (rep_total _ _ _ R) as Ht. unfold ins_list. cbn [ins_pos ins_drop payload]. rewrite total_split.
    change (body (ents (option_list None))) with (@nil Z). pose proof (take_drop_middle _ _ _ Ho) as E.
    pose proof (total_split (take i ps) [o] (drop (S i) ps)) as E2. cbn [app] in E2. rewrite E in E2.
    replace (i + 1)%nat with (S i) by lia. cbn [length]. unfold UINT32_MAX. lia. }
  rewrite Hfit in H. destruct H as (m' & Hm & R'). eexists m', _. split; [exact Hm|]. eexists _, _. split; [exact R'|].
  unfold ins_list. cbn [ins_pos ins_drop payload]. change (option_list (@None bytes)) with (@nil bytes). cbn [app].
  by rewrite map_app, delete_take_drop, firstn_map, skipn_map, Nat.add_1_r.
Qed.

(** C6. [lpInsert] with a string, an integer or nothing, before, after or in
    place of the [i]-th entry: the block becomes the listpack of the list with
    the encoded element inserted, replaced or removed, the count stays exact when
    it was known, and [*newp] is the place of the element (the next one, or NULL,
    after a deletion). It returns NULL exactly when the result would not fit in
    32 bits of size; in all cases it stays inside the block. *)
Theorem lpInsert_refines m ps num i el w : lp_rep m ps num -> el_ok el ->
  (i < length ps \/ i = length ps /\ w = LP_BEFORE /\ el <> ElDel)%nat ->
  let p := off (take i (ents ps)) in
  let ps' := ins_list ps el w i in
  if fits ps' then
    exists m', lpInsert m (el_str el) (el_int el) p w
               = Some (Some (m', nth_ptr (ents ps') (ins_pos el w i))) /\
      lp_rep m' ps' (new_num num ps')
  else lpInsert m (el_str el) (el_int el) p w = Some None.
Proof. apply lpInsert_spec. Qed.

(** C12. [lpNew] makes a listpack with no string. On a listpack that holds the
    strings [l], [lpAppend] and [lpPrepend] put a string at an end, [lpReplace]
    and [lpDelete] change the [i]-th one, with the pointer [lpSeek] gives for
    [i]; [lpLength] is the number of strings. Storing fails, with NULL, only if
    the listpack would not fit in 32 bits of size. *)
Theorem listpack_refines_list :
  (forall cap, exists m, lpNew cap = Some m /\ lp_holds m []) /\
  forall m l, lp_holds m l ->
    (exists m', lpLength m = Some (m', Z.of_nat (length l)) /\ lp_holds m' l) /\
    (forall s, str_ok s ->
       stored m s (lpAppend m s) (l ++ [s]) /\ stored m s (lpPrepend m s) (s :: l)) /\
    (forall i, (i < length l)%nat -> exists p, lpSeek m (Z.of_nat i) = Some (Some p) /\
       (forall s, str_ok s -> stored m s (lpReplace m p s) (<[i := s]> l)) /\
       (exists m' newp, lpDelete m p = Some (Some (m', newp)) /\ lp_holds m' (delete i l))).
Proof.
  split.
  { intros cap. destruct (lpNew_rep cap) as (m & Hm & R). exists m. split; [done|]. by exists [], 0. }
  intros m l (ps & num & R & <-). pose proof (rep_wf _ _ _ R) as W. rewrite length_map. split_and!.
  - destruct (lpLength_spec m ps num R) as (m' & num' & H & R' & _). exists m'. split; [done|]. by exists ps, num'.
  - intros s Hs. split; [by apply append_refines with num|by apply prepend_refines with num].
  - intros i Hi. exists (off (take i (ents ps))). split_and!.
    + rewrite (wf_seek W), seek_ptr_cases, ents_length. rewrite (proj2 (Z.ltb_ge _ _)) by lia.
      by rewrite decide_True, Nat2Z.id by lia.
    + intros s Hs. by apply replace_refines with num.
    + by apply delete_refines with num.
Qed.

End Refinement.
(** * Concrete instances *)

(** An allocator that gives back what is asked for, rounded up to eight bytes. *)
Definition round8 (n : nat) : nat := n + (8 - n mod 8).

#[local] Instance eight_alloc : Allocator := {
  usable := round8;
  junk n := replicate n 170;
  usable_ge n := Nat.le_add_r n (8 - n mod 8);
  junk_length n := length_replicate n 170
}.

Definition sample_payloads : list bytes := [[130; 97; 98]; [7]; [222; 212]].

Lemma sample_rep : lp_rep sample sample_payloads 3.
Proof.
  split; [by exists []|  |done|done].
  pose proof (wf_entries _ _ _ sample_wf) as H. cbn in H.
  apply Forall_cons in H as [H1 H]. apply Forall_cons in H as [H2 H]. apply Forall_cons in H as [H3 _].
  constructor; [apply H1|constructor; [apply H2|constructor; [apply H3|constructor]]].
Qed.

Lemma lpInsert_refines_witness :
  let p := off (take 1 (ents sample_payloads)) in
  let ps' := ins_list sample_payloads (ElInt 100000) LP_AFTER 1 in
  if fits ps' then
    exists m', lpInsert sample (el_str (ElInt 100000)) (el_int (ElInt 100000)) p LP_AFTER
               = Some (Some (m', nth_ptr (ents ps') (ins_pos (ElInt 100000) LP_AFTER 1))) /\
      lp_rep m' ps' (new_num 3 ps')
  else lpInsert sample (el_str (ElInt 100000)) (el_int (ElInt 100000)) p LP_AFTER = Some None.
Proof.
  apply (lpInsert_refines sample sample_payloads 3 1 (ElInt 100000) LP_AFTER sample_rep).
  - unfold el_ok, srange. lia.
  - left. simpl. lia.
Defined.

Lemma listpack_refines_list_witness :
  exists m', lpLength sample = Some (m', 3) /\ lp_holds m' (map ent_str sample_payloads).
Proof.
  apply (proj2 listpack_refines_list sample (map ent_str sample_payloads)).
  exists sample_payloads, 3. split; [exact sample_rep|reflexivity].
Defined.

Lemma lpDeleteRange_refines_witness :
  exists m', lpDeleteRange sample (-2) 1 = Some m' /\
    lp_rep m' (del_range sample_payloads (-2) 1) (new_num 3 (del_range sample_payloads (-2) 1)).
Proof.
  apply (lpDeleteRange_refines sample sample_payloads 3 (-2) 1 sample_rep); unfold srange, urange; lia.
Defined.

Lemma lpBatchInsert_refines_witness :
  let qs := map ent_payload [SVal [120]; LVal 5] in
  let ps' := take 1 sample_payloads ++ qs ++ drop 1 sample_payloads in
  if fits ps' then
    exists m', lpBatchInsert sample (off (take 1 (ents sample_payloads))) LP_BEFORE [SVal [120]; LVal 5]
               = Some (Some (m', nth_ptr (ents ps') (1 + length qs - 1))) /\
      lp_rep m' ps' (batch_num 3 ps')
  else lpBatchInsert sample (off (take 1 (ents sample_payloads))) LP_BEFORE [SVal [120]; LVal 5] = Some None.
Proof.
  apply (lpBatchInsert_refines sample sample_payloads 3 1 LP_BEFORE [SVal [120]; LVal 5] sample_rep).
  - discriminate.
  - constructor; [|constructor; [|constructor]].
    + split; [apply (bool_decide_unpack _); vm_compute; exact I|simpl; lia].
    + unfold el_ok, srange. simpl. lia.
  - left. simpl. split; [reflexivity|lia].
  - vm_compute. reflexivity.
Defined.

Lemma lpBatchDelete_refines_witness :
  exists m', lpBatchDelete sample (map (fun i => off (take i (ents sample_payloads))) [0%nat; 2%nat]) = Some m' /\
    lp_rep m' (keep sample_payloads 0 [0%nat; 2%nat]) (new_num 3 (keep sample_payloads 0 [0%nat; 2%nat])).
Proof.
  apply (lpBatchDelete_refines sample sample_payloads 3 [0%nat; 2%nat] sample_rep). simpl. lia.
Defined.

Lemma lpMerge_refines_witness :
  exists m' p1 p2, lpMerge (Some sample) (Some sample) false = Some (Some m', (p1, p2)) /\
    lp_rep m' (sample_payloads ++ sample_payloads) (merge_num (sample_payloads ++ sample_payloads)) /\
    ((p1, p2) = (Some m', None) \/ (p1, p2) = (None, Some m')).
Proof.
  apply (lpMerge_refines sample sample sample_payloads sample_payloads 3 3 sample_rep sample_rep).
  vm_compute. reflexivity.
Defined.

End LpOps.
