(* ===== verification/ListpackFind.v ===== *)
(** Searching in a listpack: the last part of listpack.c.

    [lpFind] walks over the entries and compares every [skip+1]-th one with a
    string; an entry that is stored as an integer is compared as a number, and
    the conversion of the searched string is done once and kept.  The theorems
    say that this is the comparison of the strings. *)

From S2P Require Import Prelude Util ListpackEnc Listpack.

Module LpFind.
Import Util Lp Listpack.

Section FindCb.
Context {U : Type} (cmp : U -> bytes -> nat -> lpvalue -> option (U * Z)).

(** The body of [while (p)]; [entry_size] keeps its value when [lpGetWithSize]
    does not set it. *)
Fixpoint lpFindCb_loop (fuel : nat) (m : bytes) (lp_bytes : Z) (user : U) (skip skipcnt : Z)
    (entry_size : Z) (p : nat) : option (option nat) :=
  match fuel with
  | O => None
  | S fuel =>
    let next user skipcnt entry_size (p : nat) :=
      _ ← (if Z.of_nat p + 8 >=? lp_bytes then lpAssertValidEntry m lp_bytes p
           else guard ((LP_HDR_SIZE <=? p)%nat && (Z.of_nat p <? lp_bytes)));
      b ← m !! p;
      if b =? LP_EOF then Some None
      else lpFindCb_loop fuel m lp_bytes user skip skipcnt entry_size p in
    if skipcnt =? 0 then
      '(value, sz) ← lpGetWithSize m p;
      let entry_size := default entry_size sz in
      _ ← match value with
          | LStr _ _ => guard ((LP_HDR_SIZE <=? p)%nat && (Z.of_nat p + entry_size <? lp_bytes))
          | LInt _ => Some tt
          end;
      '(user, c) ← cmp user m p value;
      if c =? 0 then Some (Some p)
      else next user skip entry_size (p + Z.to_nat entry_size)%nat
    else
      p ← lpSkip m p;
      next user (skipcnt - 1) entry_size p
  end.

Definition lpFindCbInternal (m : bytes) (p : option nat) (user : U) (skip : Z) : option (option nat) :=
  lp_bytes ← lpBytes m;
  p ← match p with None => lpFirst m | Some _ => Some p end;
  match p with
  | None => Some None
  | Some p => lpFindCb_loop (length m) m lp_bytes user skip 0 123456789 p
  end.

Definition lpFindCb (m : bytes) (p : option nat) (user : U) (skip : Z) : option (option nat) :=
  lpFindCbInternal m p user skip.

End FindCb.

Definition UCHAR_MAX : Z := 255.

Record lpFindArg := mkFindArg { fa_s : bytes; fa_slen : Z; fa_vencoding : Z; fa_vll : Z }.

Definition lpFindCmp (arg : lpFindArg) (m : bytes) (p : nat) (value : lpvalue) : option (lpFindArg * Z) :=
  match value with
  | LStr off slen =>
    if slen =? fa_slen arg then
      bs ← load m off (Z.to_nat slen);
      if bool_decide (bs = fa_s arg) then Some (arg, 0) else Some (arg, 1)
    else Some (arg, 1)
  | LInt ll =>
    let arg :=
      if fa_vencoding arg =? 0 then
        if (fa_slen arg >=? 32) || (fa_slen arg =? 0) then
          mkFindArg (fa_s arg) (fa_slen arg) UCHAR_MAX (fa_vll arg)
        else
          match lpStringToInt64 (fa_s arg) with
          | None => mkFindArg (fa_s arg) (fa_slen arg) UCHAR_MAX (fa_vll arg)
          | Some vll => mkFindArg (fa_s arg) (fa_slen arg) 1 vll
          end
      else arg in
    if negb (fa_vencoding arg =? UCHAR_MAX) && (ll =? fa_vll arg) then Some (arg, 0) else Some (arg, 1)
  end.

Definition lpFind (m : bytes) (p : option nat) (s : bytes) (skip : Z) : option (option nat) :=
  let arg := mkFindArg s (Z.of_nat (length s)) 0 0 in
  lpFindCbInternal lpFindCmp m p arg skip.

(** [cache] is [*cached_longval] with [*cached_valid], when the caller passes
    them; the result is the comparison and the new cache. *)
Definition lpCompare (m : bytes) (p : nat) (s : bytes) (cache : option (Z * Z))
    : option (bool * option (Z * Z)) :=
  b ← m !! p;
  if b =? LP_EOF then Some (false, cache)
  else
    value ← lpGet m p;
    match value with
    | LStr off sz =>
      if Z.of_nat (length s) =? sz then
        bs ← load m off (length s); Some (bool_decide (bs = s), cache)
      else Some (false, cache)
    | LInt sz =>
      match cache with
      | Some (longval, valid) =>
        let '(longval, valid) :=
          if valid =? 0 then
            match lpStringToInt64 s with Some v => (v, 1) | None => (longval, -1) end
          else (longval, valid) in
        Some ((valid =? 1) && (sz =? longval), Some (longval, valid))
      | None =>
        match lpStringToInt64 s with
        | Some sval => Some (sz =? sval, cache)
        | None => Some (false, cache)
        end
      end
    end.

(** * The string of an entry *)

Lemma lp_signed_range u a b : srange 64 (lp_signed u a b).
Proof.
  unfold lp_signed. pose proof (swrap_range 64 (u64 (b - u)) ltac:(lia)) as H.
  pose proof (swrap_range 64 u ltac:(lia)). unfold srange in *. simpl in *. case_match; lia.
Qed.

Lemma lpGet_int_range m p z : lpGet m p = Some (LInt z) -> srange 64 z.
Proof.
  unfold lpGet, lpGetWithBuf. destruct (m !! p) as [b|]; [|done]. cbn [mbind option_bind].
  intros H. repeat (case_match; [by simplify_option_eq|]).
  match type of H with (?c ≫= _ = _) => destruct c as [[[u n] x]|]; [|done] end.
  cbn [mbind option_bind] in H. injection H as <-. apply lp_signed_range.
Qed.

(** An integer entry equals a string when the string is its number. *)
Lemma int_entry_eq s z : srange 64 z ->
  bool_decide (sdec z = s) = match lpStringToInt64 s with Some v => z =? v | None => false end.
Proof.
  intros Hz. rewrite lpStringToInt64_eq. destruct (string2ll s) as [v|] eqn:Hv.
  - apply string2ll_sound in Hv as [-> Hr]. case_bool_decide as Hd; symmetry.
    + apply Z.eqb_eq. pose proof (string2ll_complete z Hz) as H1. pose proof (string2ll_complete v Hr) as H2.
      rewrite Hd, H2 in H1. by injection H1.
    + apply Z.eqb_neq. by intros ->.
  - rewrite bool_decide_eq_false_2; [done|]. intros <-. by rewrite string2ll_complete in Hv.
Qed.

(** * The walk *)

(** The first entry that satisfies [f], when every [skip+1]-th one is looked at. *)
Fixpoint find_idx {T} (f : T -> bool) (skip cnt i : nat) (xs : list T) : option nat :=
  match xs with
  | [] => None
  | x :: xs =>
    match cnt with
    | O => if f x then Some i else find_idx f skip skip (S i) xs
    | S cnt => find_idx f skip cnt (S i) xs
    end
  end.

Lemma find_idx_spec {T} (f : T -> bool) xs : forall i,
  match find_idx f 0 0 i xs with
  | Some j => exists x, (i <= j)%nat /\ xs !! (j - i)%nat = Some x /\ f x = true
  | None => Forall (fun x => f x = false) xs
  end.
Proof.
  induction xs as [|x xs IH]; intros i; cbn [find_idx]; [constructor|]. destruct (f x) eqn:E.
  - exists x. by rewrite Nat.sub_diag.
  - specialize (IH (S i)). destruct (find_idx f 0 0 (S i) xs) as [j|]; [|by constructor]. destruct IH as (y & Hj & Hy & Hf). exists y. split_and!; [lia| |done].
    by replace (j - i)%nat with (S (j - S i)) by lia.
Qed.

(** The value at an entry, with the size of the entry. *)
Lemma wf_get m es num i x : lp_wf m es num -> es !! i = Some x ->
  exists v w, lpGet m (off (take i es)) = Some v /\
    lpGetWithSize m (off (take i es)) = Some (v, Some (Z.of_nat (length (ent x)))) /\
    ent_val x.1 = Some w /\
    match v, w with
    | LStr o n, inl s => n = Z.of_nat (length s) /\ load m o (length s) = Some s
    | LInt z, inr z' => z = z' /\ srange 64 z
    | _, _ => False
    end.
Proof.
  intros W Hx. destruct (wf_split W _ _ _ (take_split i x Hx)) as [[He Hbl] (pre & suf & Hm & Hpre)].
  destruct (enc_ok_get _ He) as (v & Hv & Hs & Hn). destruct (enc_ok_val _ He) as [w Hw].
  rewrite <- Hpre. exists (lpv_shift (length pre) v), w.
  assert (Hg : lpGet m (length pre) = Some (lpv_shift (length pre) v)) by (rewrite Hm; by apply lpGet_local).
  split_and!; [done| |done|].
  - rewrite Hm. apply (lpGetWithSize_local pre x.1 (x.2 ++ suf)) in Hs. rewrite Hs. do 3 f_equal.
    rewrite ent_length. lia.
  - unfold ent_val in Hw. rewrite Hv in Hw. cbn [mbind option_bind] in Hw. destruct v as [o n|z]; cbn [lpv_shift] in *.
    + destruct (load x.1 o (Z.to_nat n)) as [s|] eqn:Hl; [|done]. injection Hw as <-.
      apply load_length in Hl as Hll. split; [lia|]. rewrite Hm, Hll. by apply load_local.
    + injection Hw as <-. split; [done|]. by eapply lpGet_int_range.
Qed.

Section Walk.
Context {U : Type} (cmp : U -> bytes -> nat -> lpvalue -> option (U * Z)).
Context (m : bytes) (es : list entry) (num : Z) (W : lp_wf m es num).
(** The comparator keeps [I] and answers [f]. *)
Context (I : U -> Prop) (f : entry -> bool).
Context (Hcmp : forall user i x v, I user -> es !! i = Some x -> lpGet m (off (take i es)) = Some v ->
  exists user', cmp user m (off (take i es)) v = Some (user', if f x then 0 else 1) /\ I user').

Lemma find_next i : (i < length es)%nat ->
  (if Z.of_nat (off (take (S i) es)) + 8 >=? total es
   then lpAssertValidEntry m (total es) (off (take (S i) es))
   else guard ((LP_HDR_SIZE <=? off (take (S i) es))%nat && (Z.of_nat (off (take (S i) es)) <? total es)))
  = Some tt.
Proof.
  intros Hi. rewrite (wf_assert W) by lia. rewrite (proj2 (Nat.leb_le _ _)) by (unfold off; lia).
  destruct (lookup_lt_is_Some_2 es i Hi) as [x Hx].
  pose proof (off_le (take i es) x (drop (S i) es)) as Hle.
  rewrite <- (take_split i x Hx), <- (off_take_S i x Hx) in Hle.
  rewrite (proj2 (Z.ltb_lt _ _)) by (rewrite total_off; lia). by case_match.
Qed.

Lemma find_loop fuel : forall i user skip cnt sz, I user -> (i < length es)%nat ->
  (length es - i <= fuel)%nat ->
  lpFindCb_loop cmp fuel m (total es) user (Z.of_nat skip) (Z.of_nat cnt) sz (off (take i es))
  = Some ((fun j => off (take j es)) <$> find_idx f skip cnt i (drop i es)).
Proof.
  induction fuel as [|fuel IH]; intros i user skip cnt sz HI Hi Hf; [lia|].
  destruct (lookup_lt_is_Some_2 es i Hi) as [x Hx]. rewrite (drop_S _ _ _ Hx).
  cbn [lpFindCb_loop find_idx].
  assert (Hend : forall user cnt sz, I user ->
    (_ ← (if Z.of_nat (off (take (S i) es)) + 8 >=? total es
          then lpAssertValidEntry m (total es) (off (take (S i) es))
          else guard ((LP_HDR_SIZE <=? off (take (S i) es))%nat && (Z.of_nat (off (take (S i) es)) <? total es)));
     b ← m !! off (take (S i) es);
     if b =? LP_EOF then Some None
     else lpFindCb_loop cmp fuel m (total es) user (Z.of_nat skip) (Z.of_nat cnt) sz (off (take (S i) es)))
    = Some ((fun j => off (take j es)) <$> find_idx f skip cnt (S i) (drop (S i) es))).
  { intros user' cnt' sz' HI'. rewrite find_next by done. cbn [mbind option_bind].
    destruct (wf_byte W (S i) ltac:(lia)) as (b & Hb & Heq). rewrite Hb. cbn [mbind option_bind]. rewrite Heq.
    case_bool_decide as Hc; [by rewrite drop_ge by lia|]. apply IH; (done || lia). }
  destruct cnt as [|cnt].
  - change (Z.of_nat 0 =? 0) with true. cbn iota.
    destruct (wf_get m es num i x W Hx) as (v & w & Hv & Hs & Hw & Hm). rewrite Hs. cbn [mbind option_bind default].
    assert (Hle : (off (take (S i) es) <= off es)%nat).
    { pose proof (off_le (take i es) x (drop (S i) es)) as Hle.
      by rewrite <- (take_split i x Hx), <- (off_take_S i x Hx) in Hle. }
    pose proof (off_take_S i x Hx) as Ho. pose proof (total_off es) as Hto.
    replace (match v with LStr _ _ => _ | LInt _ => _ end) with (Some tt)
      by (destruct v; [|done]; rewrite (proj2 (Nat.leb_le _ _)) by (unfold off; lia);
          cbn [from_option id]; by rewrite (proj2 (Z.ltb_lt _ _)) by lia).
    cbn [mbind option_bind]. destruct (Hcmp user i x v HI Hx Hv) as (user' & -> & HI'). cbn [mbind option_bind].
    destruct (f x); [done|]. cbn [from_option id]. change (1 =? 0) with false. cbn iota.
    rewrite Nat2Z.id, <- Ho. by apply Hend.
  - rewrite (proj2 (Z.eqb_neq _ 0)) by lia. rewrite (wf_skip W i x Hx). cbn [mbind option_bind].
    replace (Z.of_nat (S cnt) - 1) with (Z.of_nat cnt) by lia. by apply Hend.
Qed.

Lemma find_internal user skip p i : I user -> 0 <= skip ->
  (p = None /\ i = 0%nat \/ p = Some (off (take i es)) /\ (i < length es)%nat) ->
  lpFindCbInternal cmp m p user skip
  = Some ((fun j => off (take j es)) <$> find_idx f (Z.to_nat skip) 0 i (drop i es)).
Proof.
  intros HI Hs Hp. unfold lpFindCbInternal, lpBytes. rewrite (wf_get_total W). cbn [mbind option_bind].
  destruct (wf_count W) as [Hc _]. destruct (Z_of_nat_complete skip Hs) as [k ->]. rewrite Nat2Z.id.
  destruct Hp as [[-> ->]|[-> Hi]].
  - rewrite (wf_first W). cbn [mbind option_bind]. unfold nth_ptr. case_decide as Hl.
    + apply (find_loop (length m) 0 user k 0); (done || lia).
    + rewrite drop_ge by lia. done.
  - cbn [mbind option_bind]. apply (find_loop (length m) i user k 0); (done || lia).
Qed.

End Walk.

(** * The comparator of [lpFind] *)

Definition arg_ok (s : bytes) (arg : lpFindArg) : Prop :=
  fa_s arg = s /\ fa_slen arg = Z.of_nat (length s) /\
  (fa_vencoding arg = 0 \/
   fa_vencoding arg = 1 /\ lpStringToInt64 s = Some (fa_vll arg) \/
   fa_vencoding arg = UCHAR_MAX /\ lpStringToInt64 s = None).

Lemma lpStringToInt64_long s : (length s >= 32)%nat -> lpStringToInt64 s = None.
Proof.
  intros Hl. rewrite lpStringToInt64_eq. destruct (string2ll s) as [z|] eqn:Hz; [|done].
  apply string2ll_sound in Hz as [-> Hr]. pose proof (sdec_length_le z Hr). lia.
Qed.

Lemma lpFindCmp_ok m es num s arg i x v : lp_wf m es num -> arg_ok s arg -> es !! i = Some x ->
  lpGet m (off (take i es)) = Some v ->
  exists arg', lpFindCmp arg m (off (take i es)) v
               = Some (arg', if bool_decide (ent_str x.1 = s) then 0 else 1) /\ arg_ok s arg'.
Proof.
  intros W Ha Hx Hv. destruct (wf_get m es num i x W Hx) as (v' & w & Hv' & _ & Hw & Hvw).
  rewrite Hv in Hv'. injection Hv' as <-. unfold ent_str. rewrite Hw. unfold lpFindCmp.
  pose proof Ha as (Hs & Hl & Henc). destruct v as [o n|z], w as [t|z']; try done; cbn [val_str].
  - destruct Hvw as [-> Hld]. rewrite Hl. destruct (Z.eqb_spec (Z.of_nat (length t)) (Z.of_nat (length s))) as [E|E].
    + rewrite Nat2Z.id, Hld. cbn [mbind option_bind]. rewrite Hs. case_bool_decide; by exists arg.
    + rewrite bool_decide_eq_false_2 by congruence. by exists arg.
  - destruct Hvw as [<- Hr]. rewrite (int_entry_eq s z Hr).
    set (arg' := if fa_vencoding arg =? 0 then _ else arg).
    assert (Ha' : arg_ok s arg' /\ fa_vencoding arg' <> 0).
    { unfold arg', arg_ok. destruct Henc as [E|[[E E2]|[E E2]]]; rewrite E; cbn [Z.eqb].
      - rewrite Hl, Hs. destruct ((Z.of_nat (length s) >=? 32) || (Z.of_nat (length s) =? 0)) eqn:Hshort; cbn [fa_s fa_slen fa_vencoding fa_vll].
        + split; [split_and!; [done..|]|done]. right. right. split; [done|].
          destruct (decide (length s = 0%nat)) as [H0|]; [by apply nil_length_inv in H0 as ->|].
          apply lpStringToInt64_long. lia.
        + destruct (lpStringToInt64 s) eqn:Hc; (split; [split_and!; [done..|]|done]); tauto.
      - rewrite E, E2. split; [|done]. split_and!; [done..|]. right. by left.
      - change (UCHAR_MAX =? 0) with false. cbn iota. rewrite E. split; [|done]. split_and!; [done..|]. right. by right. }
    clearbody arg'. destruct Ha' as [(Hs' & Hl' & Henc') Hne]. exists arg'. split; [|by split_and!].
    destruct Henc' as [|[[-> ->]|[-> ->]]]; [done| |done]. cbn [negb andb]. by destruct (z =? fa_vll arg').
Qed.

(** * Claims *)

Lemma lpFind_ok m es num p i s skip : lp_wf m es num -> 0 <= skip ->
  (p = None /\ i = 0%nat \/ p = Some (off (take i es)) /\ (i < length es)%nat) ->
  lpFind m p s skip
  = Some ((fun j => off (take j es)) <$>
          find_idx (fun x => bool_decide (ent_str x.1 = s)) (Z.to_nat skip) 0 i (drop i es)).
Proof.
  intros W Hs Hp. unfold lpFind.
  apply (find_internal lpFindCmp m es num W (arg_ok s) (fun x => bool_decide (ent_str x.1 = s))); [|by split_and!; [..|left]|done..].
  intros arg j x v. by apply lpFindCmp_ok with num.
Qed.

(** [lpFind] on a well formed listpack, from the first entry or from a
    given one: it returns the first entry, among every [skip+1]-th one, whose
    string is the searched string, or NULL. Comparing integer entries as numbers
    with a cached conversion makes no difference, and no assertion fails. *)
Theorem lpFind_correct m es num p i s skip : lp_wf m es num -> 0 <= skip ->
  (p = None /\ i = 0%nat \/ p = Some (off (take i es)) /\ (i < length es)%nat) ->
  lpFind m p s skip
  = Some ((fun j => off (take j es)) <$>
          find_idx (fun x => bool_decide (ent_str x.1 = s)) (Z.to_nat skip) 0 i (drop i es)).
Proof. apply lpFind_ok. Qed.

(** The cache of [lpCompare] is empty or right. *)
Definition cache_ok (s : bytes) (cache : option (Z * Z)) : Prop :=
  match cache with
  | None => True
  | Some (longval, valid) =>
    valid = 0 \/ valid = 1 /\ lpStringToInt64 s = Some longval \/ valid = -1 /\ lpStringToInt64 s = None
  end.

(** [lpCompare] tells whether the string of an entry is [s], with or
    without a cache for the number of [s], and leaves the cache right. *)
Theorem lpCompare_correct m es num i x s cache : lp_wf m es num -> es !! i = Some x -> cache_ok s cache ->
  exists cache', lpCompare m (off (take i es)) s cache
                 = Some (bool_decide (ent_str x.1 = s), cache') /\ cache_ok s cache'.
Proof.
  intros W Hx Hc. destruct (wf_get m es num i x W Hx) as (v & w & Hv & _ & Hw & Hvw).
  assert (Hi : (i < length es)%nat) by (by eapply lookup_lt_Some).
  destruct (wf_byte W i ltac:(lia)) as (b & Hb & Heq). unfold lpCompare. rewrite Hb. cbn [mbind option_bind]. rewrite Heq, (bool_decide_eq_false_2 (i = length es)) by lia.
  rewrite Hv. cbn [mbind option_bind]. unfold ent_str. rewrite Hw.
  destruct v as [o n|z], w as [t|z']; try done; cbn [val_str].
  - destruct Hvw as [-> Hld]. exists cache. split; [|done].
    destruct (Z.eqb_spec (Z.of_nat (length s)) (Z.of_nat (length t))) as [E|E].
    + replace (length s) with (length t) by lia. by rewrite Hld.
    + by rewrite bool_decide_eq_false_2 by congruence.
  - destruct Hvw as [<- Hr]. rewrite (int_entry_eq s z Hr). destruct cache as [[longval valid]|].
    + cbn [cache_ok] in Hc. destruct Hc as [->|[[-> E]|[-> E]]]; cbn [Z.eqb].
      * destruct (lpStringToInt64 s) as [v|] eqn:E; eexists; (split; [done|]); cbn [cache_ok]; tauto.
      * rewrite E. eexists. split; [done|]. cbn [cache_ok]. tauto.
      * rewrite E. eexists. split; [done|]. cbn [cache_ok]. tauto.
    + exists None. split; [|done]. by destruct (lpStringToInt64 s).
Qed.

(** * Concrete instances *)

Lemma lpFind_witness :
  lpFind sample None [45; 51; 48; 48] 0
  = Some ((fun j => off (take j sample_entries)) <$>
          find_idx (fun x => bool_decide (ent_str x.1 = [45; 51; 48; 48])) (Z.to_nat 0) 0 0 (drop 0 sample_entries)).
Proof.
  apply (lpFind_correct sample sample_entries 3 None 0 [45; 51; 48; 48] 0 sample_wf); [lia|]. left. split; reflexivity.
Defined.

Lemma lpCompare_witness :
  exists cache', lpCompare sample (off (take 1 sample_entries)) [55] (Some (0, 0))
                 = Some (bool_decide (ent_str [7] = [55]), cache') /\ cache_ok [55] cache'.
Proof.
  apply (lpCompare_correct sample sample_entries 3 1 ([7], [1]) [55] (Some (0, 0)) sample_wf); [reflexivity|].
  left. reflexivity.
Defined.

End LpFind.
