(* ===== verification/Lzf.v ===== *)
(** LZF compression: lzf_c.c and lzf_d.c, used for the strings of RDB files and
    the nodes of quicklists.

    The compressor is configured as in lzfP.h (HLOG 16, VERY_FAST, no
    initialisation of the hash table, pointers in the hash table).  Its hash
    table is not initialised: it may hold anything.  The theorems are that the
    decompressor inverts the compressor whatever the table held, and that no
    input, compressed or corrupted, makes either of them access memory out of
    its buffers. *)

From S2P Require Import Prelude.

Module Lzf.

Definition HLOG : Z := 16.
Definition HSIZE : Z := Z.shiftl 1 HLOG.
Definition MAX_LIT : Z := Z.shiftl 1 5.
Definition MAX_OFF : Z := Z.shiftl 1 13.
Definition MAX_REF : Z := Z.shiftl 1 8 + Z.shiftl 1 3.

(** Bytes of a buffer; an access out of it is [None]. *)
Definition rd (m : bytes) (i : Z) : option Z := _ ← guard (0 <=? i); m !! Z.to_nat i.
Definition wr (m : bytes) (i b : Z) : option bytes :=
  _ ← guard ((0 <=? i) && (i <? Z.of_nat (length m))); Some (<[Z.to_nat i := u8 b]> m).

(** * The compressor *)

Section Compress.

(** The input, its address, and the output. *)
Context (inp : bytes) (in_data : Z) (out_len : Z).

Definition in_end : Z := Z.of_nat (length inp).
Definition out_end : Z := out_len.

Definition FRST (p : Z) : option Z := a ← rd inp p; b ← rd inp (p + 1); Some (Z.lor (Z.shiftl a 8) b).
Definition NEXT (v p : Z) : option Z := c ← rd inp (p + 2); Some (Z.lor (u32 (Z.shiftl v 8)) c).
Definition IDX (h : Z) : Z := Z.land (u32 (Z.shiftr h (3 * 8 - HLOG) - u32 (h * 5))) (HSIZE - 1).

(** [htab] holds pointers; [ip] and [op] are offsets from [in_data] and [out_data]. *)
Record cstate := mkC {
  htab : Z -> Z; ip : Z; op : Z; lit : Z; hval : Z; out : bytes
}.

Definition set_slot (h : Z -> Z) (i v : Z) : Z -> Z := fun j => if j =? i then v else h j.

(** [len++; if (ref [len] != ip [len]) break;] sixteen times; the flag is [break]. *)
Fixpoint unrolled (n : nat) (ref p len : Z) : option (Z * bool) :=
  match n with
  | O => Some (len, false)
  | S n =>
    let len := len + 1 in
    a ← rd inp (ref + len);
    b ← rd inp (p + len);
    if negb (a =? b) then Some (len, true) else unrolled n ref p len
  end.

(** [do len++; while (len < maxlen && ref[len] == ip[len]);] *)
Fixpoint do_while (fuel : nat) (maxlen ref p len : Z) : option Z :=
  let len := len + 1 in
  if len <? maxlen then
    a ← rd inp (ref + len);
    b ← rd inp (p + len);
    if a =? b then match fuel with O => None | S fuel => do_while fuel maxlen ref p len end
    else Some len
  else Some len.

Definition match_len (ref p : Z) : option Z :=
  let len := 2 in
  let maxlen := in_end - p - len in
  let maxlen := if maxlen >? MAX_REF then MAX_REF else maxlen in
  '(len, broke) ← (if maxlen >? 16 then unrolled 16 ref p len else Some (len, false));
  if (broke : bool) then Some len else do_while (Z.to_nat maxlen) maxlen ref p len.

(** The outcome of an iteration of the main loop. *)
Inductive outcome := Return0 | Break (st : cstate) | Continue (st : cstate).

(** The code of a back reference. *)
Definition write_ref (out : bytes) (op len off : Z) : option (bytes * Z) :=
  '(out, op) ← (if len <? 7 then
      out ← wr out op (Z.shiftr off 8 + Z.shiftl len 5); Some (out, op + 1)
    else
      out ← wr out op (Z.shiftr off 8 + Z.shiftl 7 5);
      out ← wr out (op + 1) (len - 7); Some (out, op + 2));
  out ← wr out op off;
  Some (out, op + 1).

(** A match found at [ref]. *)
Definition emit_match (st : cstate) (ref off : Z) : option outcome :=
  let nlit := b2z (lit st =? 0) in
  if (op st + 3 + 1 >=? out_end) && (op st - nlit + 3 + 1 >=? out_end) then Some Return0
  else
    out ← wr (out st) (op st - lit st - 1) (lit st - 1);
    let op := op st - nlit in
    len ← match_len ref (ip st);
    let len := len - 2 in
    let p := ip st + 1 in
    '(out, op) ← write_ref out op len off;
    let op := op + 1 in
    let p := p + (len + 1) in
    if p >=? in_end - 2 then Some (Break (mkC (htab st) p op 0 (hval st) out))
    else
      let p := p - 1 in
      let p := p - 1 in
      hval ← FRST p;
      hval ← NEXT hval p;
      let htab := set_slot (htab st) (IDX hval) (in_data + p) in
      let p := p + 1 in
      hval ← NEXT hval p;
      let htab := set_slot htab (IDX hval) (in_data + p) in
      let p := p + 1 in
      Some (Continue (mkC htab p op 0 hval out)).

(** One more literal; [lit == MAX_LIT] ends the run and starts another. *)
Definition copy_literal (st : cstate) : option cstate :=
  b ← rd inp (ip st);
  out ← wr (out st) (op st) b;
  let lit := lit st + 1 in
  let op := op st + 1 in
  if lit =? MAX_LIT then
    out ← wr out (op - lit - 1) (lit - 1);
    Some (mkC (htab st) (ip st + 1) (op + 1) 0 (hval st) out)
  else Some (mkC (htab st) (ip st + 1) op lit (hval st) out).

Definition compress_iter (st : cstate) : option outcome :=
  hval ← NEXT (hval st) (ip st);
  let ref := htab st (IDX hval) in
  let htab := set_slot (htab st) (IDX hval) (in_data + ip st) in
  let st := mkC htab (ip st) (op st) (lit st) hval (out st) in
  let off := u64 (in_data + ip st - ref - 1) in
  found ← (if (off <? MAX_OFF) && (ref >? in_data) then
      r2 ← rd inp (ref - in_data + 2); i2 ← rd inp (ip st + 2);
      if r2 =? i2 then
        r0 ← rd inp (ref - in_data); r1 ← rd inp (ref - in_data + 1);
        i0 ← rd inp (ip st); i1 ← rd inp (ip st + 1);
        Some ((r0 =? i0) && (r1 =? i1))
      else Some false
    else Some false);
  if (found : bool) then emit_match st (ref - in_data) off
  else if op st >=? out_end then Some Return0
  else st ← copy_literal st; Some (Continue st).

(** [while (ip < in_end - 2)]; [None] inside is [return 0]. *)
Fixpoint compress_loop (fuel : nat) (st : cstate) : option (option cstate) :=
  if ip st <? in_end - 2 then
    match fuel with
    | O => None
    | S fuel =>
      r ← compress_iter st;
      match r with
      | Return0 => Some None
      | Break st => Some (Some st)
      | Continue st => compress_loop fuel st
      end
    end
  else Some (Some st).

(** [while (ip < in_end)] *)
Fixpoint last_literals (fuel : nat) (st : cstate) : option cstate :=
  if ip st <? in_end then
    match fuel with
    | O => None
    | S fuel => st ← copy_literal st; last_literals fuel st
    end
  else Some st.

End Compress.

(** The result and the output buffer; after a result 0 the contents of the
    buffer are of no use, and are left out. *)
Definition lzf_compress (htab : Z -> Z) (in_data : Z) (inp out : bytes) : option (Z * bytes) :=
  let out_len := Z.of_nat (length out) in
  if (Z.of_nat (length inp) =? 0) || (out_len =? 0) then Some (0, out)
  else
    hval ← FRST inp 0;
    r ← compress_loop inp in_data out_len (length inp) (mkC htab 0 1 0 hval out);
    match r with
    | None => Some (0, out)
    | Some st =>
      if op st + 3 >? out_len then Some (0, Lzf.out st)
      else
        st ← last_literals inp (length inp) st;
        out ← wr (Lzf.out st) (op st - lit st - 1) (lit st - 1);
        Some (op st - b2z (lit st =? 0), out)
    end.

(** * The decompressor *)

Section Decompress.
Context (inp : bytes) (out_len : Z).

Record dstate := mkD { dip : Z; dop : Z; dout : bytes }.

(** [*op++ = *src++] [n] times, from the input or from the output. *)
Fixpoint copy_input (n : nat) (st : dstate) : option dstate :=
  match n with
  | O => Some st
  | S n => b ← rd inp (dip st); o ← wr (dout st) (dop st) b; copy_input n (mkD (dip st + 1) (dop st + 1) o)
  end.

Fixpoint copy_octets (n : nat) (ref : Z) (st : dstate) : option dstate :=
  match n with
  | O => Some st
  | S n => b ← rd (dout st) ref; o ← wr (dout st) (dop st) b; copy_octets n (ref + 1) (mkD (dip st) (dop st + 1) o)
  end.

(** The copy of a back reference of [len + 2] octets. *)
Definition copy_ref (len ref : Z) (st : dstate) : option dstate :=
  if (0 <=? len) && (len <=? 9) then copy_octets (Z.to_nat (len + 2)) ref st
  else
    let len := len + 2 in
    if dop st >=? ref + len then
      _ ← guard (0 <=? ref);
      bs ← load (dout st) (Z.to_nat ref) (Z.to_nat len);
      o ← store (dout st) (Z.to_nat (dop st)) bs;
      Some (mkD (dip st) (dop st + len) o)
    else copy_octets (Z.to_nat len) ref st.

(** An iteration; the inner [None] is [return 0] with [errno] set. *)
Definition decompress_iter (st : dstate) : option (option dstate) :=
  let in_end := Z.of_nat (length inp) in
  ctrl ← rd inp (dip st);
  let st := mkD (dip st + 1) (dop st) (dout st) in
  if ctrl <? Z.shiftl 1 5 then
    let ctrl := ctrl + 1 in
    if dop st + ctrl >? out_len then Some None
    else if dip st + ctrl >? in_end then Some None
    else st ← copy_input (Z.to_nat ctrl) st; Some (Some st)
  else
    let len := Z.shiftr ctrl 5 in
    let ref := dop st - Z.shiftl (Z.land ctrl 31) 8 - 1 in
    if dip st >=? in_end then Some None
    else
      let go (len ref : Z) (st : dstate) :=
        b ← rd inp (dip st);
        let ref := ref - b in
        let st := mkD (dip st + 1) (dop st) (dout st) in
        if dop st + len + 2 >? out_len then Some None
        else if ref <? 0 then Some None
        else st ← copy_ref len ref st; Some (Some st) in
      if len =? 7 then
        b ← rd inp (dip st);
        let len := len + b in
        let st := mkD (dip st + 1) (dop st) (dout st) in
        if dip st >=? in_end then Some None else go len ref st
      else go len ref st.

Fixpoint decompress_loop (fuel : nat) (st : dstate) : option (option dstate) :=
  if dip st <? Z.of_nat (length inp) then
    match fuel with
    | O => None
    | S fuel =>
      r ← decompress_iter st;
      match r with
      | None => Some None
      | Some st => decompress_loop fuel st
      end
    end
  else Some (Some st).

End Decompress.

(** The result (0 on error, and then the contents of the buffer are left out)
    and the output buffer. *)
Definition lzf_decompress (inp out : bytes) : option (Z * bytes) :=
  r ← decompress_loop inp (Z.of_nat (length out)) (length inp) (mkD 0 0 out);
  match r with
  | None => Some (0, out)
  | Some st => Some (dop st, dout st)
  end.

(** Examples: a run, an overlapping match and a short one. *)
Definition sample_text : bytes := [97; 98; 99; 97; 98; 99; 97; 98; 99; 97; 98; 99; 120; 121; 122; 97; 98; 99; 97; 97; 97; 97; 97; 97; 97; 97; 97; 97; 97; 97; 97; 97; 97; 97; 97].

Example sample_roundtrip :
  (r ← lzf_compress (fun _ => 0) 65536 sample_text (replicate 40 0);
   let '(n, out) := r in
   d ← lzf_decompress (take (Z.to_nat n) out) (replicate 35 255);
   Some (n, bool_decide (d = (35, sample_text)))) = Some (19, true).
Proof. vm_compute. reflexivity. Qed.

(** * Reading and writing *)

Lemma rd_Some m i : 0 <= i < Z.of_nat (length m) -> exists b, rd m i = Some b.
Proof.
  intros Hi. unfold rd. rewrite (proj2 (Z.leb_le _ _)) by lia. apply lookup_lt_is_Some_2. lia.
Qed.

Lemma rd_lookup m i b : rd m i = Some b <-> 0 <= i /\ m !! Z.to_nat i = Some b.
Proof. unfold rd. destruct (Z.leb_spec 0 i); cbn [guard mbind option_bind]; [tauto|]. split; [done|lia]. Qed.

Lemma rd_byte m i b : bytes_ok m -> rd m i = Some b -> urange 8 b.
Proof. intros Hm [_ H]%rd_lookup. unfold bytes_ok in Hm. rewrite Forall_lookup in Hm. by eapply Hm. Qed.

Lemma wr_Some m i b : 0 <= i < Z.of_nat (length m) -> wr m i b = Some (<[Z.to_nat i := u8 b]> m).
Proof.
  intros Hi. unfold wr. rewrite (proj2 (Z.leb_le _ _)), (proj2 (Z.ltb_lt _ _)) by lia. done.
Qed.

Lemma wr_app m1 x m2 b : wr (m1 ++ x :: m2) (Z.of_nat (length m1)) b = Some (m1 ++ u8 b :: m2).
Proof.
  rewrite wr_Some by (rewrite length_app; cbn; lia). by rewrite Nat2Z.id, insert_app_r_alt, Nat.sub_diag by lia.
Qed.

Lemma u8_small b : urange 8 b -> u8 b = b.
Proof. apply uwrap_small. Qed.

(** * The format *)

(** Copies [n] octets of the output to its end, one by one. *)
Fixpoint expand (data : bytes) (ref n : nat) : bytes :=
  match n with
  | O => data
  | S n => match data !! ref with Some b => expand (data ++ [b]) (S ref) n | None => data end
  end.

Definition ref_code (len off : Z) : bytes :=
  if len <? 7 then [off / 256 + 32 * len; off mod 256] else [off / 256 + 224; len - 7; off mod 256].

(** A compressed stream and the data it stands for. *)
Inductive stream : bytes -> bytes -> Prop :=
| stream_nil : stream [] []
| stream_lit enc data l :
    stream enc data -> (1 <= length l <= 32)%nat -> bytes_ok l ->
    stream (enc ++ (Z.of_nat (length l) - 1) :: l) (data ++ l)
| stream_ref enc data len off :
    stream enc data -> 1 <= len <= 262 -> 0 <= off < 8192 -> off < Z.of_nat (length data) ->
    stream (enc ++ ref_code len off) (expand data (length data - Z.to_nat off - 1) (Z.to_nat (len + 2))).

Lemma expand_length data ref n : (ref < length data)%nat -> length (expand data ref n) = (length data + n)%nat.
Proof.
  revert data ref. induction n as [|n IH]; intros data ref Hr; cbn [expand]; [lia|].
  destruct (lookup_lt_is_Some_2 _ _ Hr) as [b ->]. rewrite IH; rewrite length_app; cbn; lia.
Qed.

Lemma expand_disjoint data ref n : (ref + n <= length data)%nat -> expand data ref n = data ++ take n (drop ref data).
Proof.
  revert data ref. induction n as [|n IH]; intros data ref Hr; cbn [expand]; [by rewrite app_nil_r|].
  destruct (lookup_lt_is_Some_2 data ref) as [b Hb]; [lia|]. rewrite Hb, IH by (rewrite length_app; cbn; lia).
  rewrite (drop_S _ _ _ Hb). cbn [take]. rewrite <- app_assoc. cbn. do 2 f_equal.
  rewrite drop_app_le by lia. by rewrite take_app_le by (rewrite length_drop; lia).
Qed.

(** * The decompressor *)

Lemma copy_input_ok n : forall a l c data o, length l = n -> (n <= length o)%nat -> bytes_ok l ->
  copy_input (a ++ l ++ c) n (mkD (Z.of_nat (length a)) (Z.of_nat (length data)) (data ++ o))
  = Some (mkD (Z.of_nat (length a + n)) (Z.of_nat (length data + n)) ((data ++ l) ++ drop n o)).
Proof.
  induction n as [|n IH]; intros a l c data o Hl Ho Hok; cbn [copy_input].
  { apply nil_length_inv in Hl. subst l. by rewrite !Nat.add_0_r, app_nil_r. }
  destruct l as [|x l]; [done|]. destruct o as [|y o]; [cbn in Ho; lia|]. injection Hl as Hl. cbn in Ho.
  apply Forall_cons in Hok as [Hx Hok]. cbn [dip dop dout].
  assert (Hrd : rd (a ++ (x :: l) ++ c) (Z.of_nat (length a)) = Some x).
  { apply rd_lookup. split; [lia|]. by rewrite Nat2Z.id, lookup_app_r, Nat.sub_diag by lia. }
  rewrite Hrd. cbn [mbind option_bind]. rewrite wr_app, u8_small by done. cbn [mbind option_bind].
  specialize (IH (a ++ [x]) l c (data ++ [x]) o Hl ltac:(lia) Hok).
  rewrite !length_app in IH. cbn [length] in IH. cbn [app drop].
  replace ((a ++ [x]) ++ l ++ c) with (a ++ x :: l ++ c) in IH by (by rewrite <- app_assoc).
  replace ((data ++ [x]) ++ o) with (data ++ x :: o) in IH by (by rewrite <- app_assoc).
  replace ((data ++ [x]) ++ l) with (data ++ x :: l) in IH by (by rewrite <- app_assoc).
  replace (Z.of_nat (length a) + 1) with (Z.of_nat (length a + 1)) by lia.
  replace (Z.of_nat (length data) + 1) with (Z.of_nat (length data + 1)) by lia. rewrite IH. do 2 f_equal; lia.
Qed.

Lemma copy_octets_ok n : forall i ref data o, (ref < length data)%nat -> (n <= length o)%nat -> bytes_ok data ->
  copy_octets n (Z.of_nat ref) (mkD i (Z.of_nat (length data)) (data ++ o))
  = Some (mkD i (Z.of_nat (length data + n)) (expand data ref n ++ drop n o)).
Proof.
  induction n as [|n IH]; intros i ref data o Hr Ho Hok; cbn [copy_octets expand].
  { by rewrite Nat.add_0_r. }
  destruct o as [|y o]; [cbn in Ho; lia|]. cbn in Ho. destruct (lookup_lt_is_Some_2 _ _ Hr) as [b Hb]. rewrite Hb.
  cbn [dip dop dout]. assert (Hrd : rd (data ++ y :: o) (Z.of_nat ref) = Some b).
  { apply rd_lookup. split; [lia|]. by rewrite Nat2Z.id, lookup_app_l. }
  rewrite Hrd. cbn [mbind option_bind]. assert (Hb8 : urange 8 b) by (unfold bytes_ok in Hok; rewrite Forall_lookup in Hok; by eapply Hok).
  rewrite wr_app, u8_small by done. cbn [mbind option_bind].
  specialize (IH i (S ref) (data ++ [b]) o). rewrite length_app, <- app_assoc in IH. cbn [length app] in IH.
  replace (Z.of_nat ref + 1) with (Z.of_nat (S ref)) by lia. replace (Z.of_nat (length data) + 1) with (Z.of_nat (length data + 1)) by lia.
  rewrite IH; [|lia|lia|apply Forall_app; split; [done|by apply Forall_singleton]]. cbn [drop]. do 2 f_equal. lia.
Qed.

Lemma copy_ref_ok len i ref data o : 1 <= len -> (ref < length data)%nat -> len + 2 <= Z.of_nat (length o) -> bytes_ok data ->
  copy_ref len (Z.of_nat ref) (mkD i (Z.of_nat (length data)) (data ++ o))
  = Some (mkD i (Z.of_nat (length data) + (len + 2)) (expand data ref (Z.to_nat (len + 2)) ++ drop (Z.to_nat (len + 2)) o)).
Proof.
  intros Hlen Hr Ho Hok. unfold copy_ref.
  assert (Hoct : copy_octets (Z.to_nat (len + 2)) (Z.of_nat ref) (mkD i (Z.of_nat (length data)) (data ++ o))
    = Some (mkD i (Z.of_nat (length data) + (len + 2)) (expand data ref (Z.to_nat (len + 2)) ++ drop (Z.to_nat (len + 2)) o))).
  { rewrite copy_octets_ok by (try done; lia). do 2 f_equal. lia. }
  destruct ((0 <=? len) && (len <=? 9)); [done|]. cbn [dop dout].
  destruct (Z.geb_spec (Z.of_nat (length data)) (Z.of_nat ref + (len + 2))) as [Hge|]; [|done].
  rewrite (proj2 (Z.leb_le _ _)) by lia. cbn [guard mbind option_bind]. rewrite !Nat2Z.id.
  rewrite load_Some by (rewrite length_app; lia). cbn [mbind option_bind].
  assert (Hbs : take (Z.to_nat (len + 2)) (drop ref (data ++ o)) = take (Z.to_nat (len + 2)) (drop ref data)).
  { rewrite drop_app_le, take_app_le by (rewrite ?length_drop; lia). done. }
  rewrite Hbs. assert (Hl : length (take (Z.to_nat (len + 2)) (drop ref data)) = Z.to_nat (len + 2)) by (rewrite length_take, length_drop; lia).
  rewrite store_Some by (rewrite Hl, length_app; lia). cbn [mbind option_bind]. rewrite expand_disjoint, Hl by lia.
  do 2 f_equal. rewrite take_app_length, <- app_assoc. do 2 f_equal. rewrite drop_app_ge by lia. f_equal. lia.
Qed.

Section Iter.
Context (enc rest data o : bytes) (out_len : Z).
Hypothesis (Henc : bytes_ok enc) (Hrest : bytes_ok rest) (Hdata : bytes_ok data).
Hypothesis (Hlen : out_len = Z.of_nat (length (data ++ o))).

Abbreviation st := (mkD (Z.of_nat (length enc)) (Z.of_nat (length data)) (data ++ o)).

Lemma rd_rest k z : z = Z.of_nat (length enc) + Z.of_nat k -> rd (enc ++ rest) z = rest !! k.
Proof.
  intros ->. unfold rd. rewrite (proj2 (Z.leb_le _ _)) by lia. cbn [guard mbind option_bind].
  rewrite lookup_app_r by lia. f_equal. lia.
Qed.

(** A literal run. *)
Lemma iter_lit ctrl r : rest = ctrl :: r -> ctrl < 32 ->
  decompress_iter (enc ++ rest) out_len st
  = Some (if Z.of_nat (length data) + (ctrl + 1) >? out_len then None
          else if ctrl + 1 >? Z.of_nat (length r) then None
          else let l := take (Z.to_nat (ctrl + 1)) r in
            Some (mkD (Z.of_nat (length enc) + 1 + (ctrl + 1)) (Z.of_nat (length data) + (ctrl + 1))
                    ((data ++ l) ++ drop (Z.to_nat (ctrl + 1)) o))).
Proof.
  intros Hr Hc. unfold decompress_iter. cbn [dip dop dout].
  assert (Hc0 : urange 8 ctrl) by (rewrite Hr in Hrest; by apply Forall_cons in Hrest as [? _]). unfold urange in Hc0.
  rewrite (rd_rest 0 (Z.of_nat (length enc))), Hr by lia. cbn [lookup list_lookup mbind option_bind].
  change (Z.shiftl 1 5) with 32. rewrite (proj2 (Z.ltb_lt _ _)) by lia.
  destruct (Z.gtb_spec (Z.of_nat (length data) + (ctrl + 1)) out_len) as [|Ho]; [done|]. rewrite length_app in Hlen |- *. cbn [length].
  replace (Z.of_nat (length enc) + 1 + (ctrl + 1) >? Z.of_nat (length enc + S (length r))) with (ctrl + 1 >? Z.of_nat (length r)) by lia.
  destruct (Z.gtb_spec (ctrl + 1) (Z.of_nat (length r))) as [|Hi]; [done|].
  set (n := Z.to_nat (ctrl + 1)). assert (Hn : length (take n r) = n) by (rewrite length_take; lia).
  assert (Hbs : bytes_ok (take n r)) by (apply Forall_take; rewrite Hr in Hrest; by apply Forall_cons in Hrest as [_ ?]).
  pose proof (copy_input_ok n (enc ++ [ctrl]) (take n r) (drop n r) data o Hn ltac:(lia) Hbs) as H.
  rewrite take_drop, <- app_assoc, length_app in H. cbn [app length] in H.
  replace (Z.of_nat (length enc) + 1) with (Z.of_nat (length enc + 1)) by lia. rewrite H. cbn [mbind option_bind]. do 3 f_equal; lia.
Qed.
(** The end of a back reference: the low byte of the offset is at [k]. *)
Definition ref_end (k : nat) (len hi : Z) : option dstate :=
  match rest !! k with
  | None => None
  | Some lo =>
    let off := 256 * hi + lo in
    if Z.of_nat (length data) + len + 2 >? out_len then None
    else if Z.of_nat (length data) - off - 1 <? 0 then None
    else Some (mkD (Z.of_nat (length enc) + Z.of_nat (S k)) (Z.of_nat (length data) + (len + 2))
                 (expand data (length data - Z.to_nat off - 1) (Z.to_nat (len + 2)) ++ drop (Z.to_nat (len + 2)) o))
  end.

Lemma ref_end_ok k len hi lo i : rest !! k = Some lo -> 1 <= len -> 0 <= hi < 32 ->
  i = Z.of_nat (length enc) + Z.of_nat k ->
  (b ← rd (enc ++ rest) i;
   let ref := Z.of_nat (length data) - hi * 256 - 1 - b in
   let st := mkD (i + 1) (Z.of_nat (length data)) (data ++ o) in
   if dop st + len + 2 >? out_len then Some None
   else if ref <? 0 then Some None
   else st ← copy_ref len ref st; Some (Some st)) = Some (ref_end k len hi).
Proof.
  intros Hk Hl Hh Hi. rewrite (rd_rest k i Hi), Hk. cbn [mbind option_bind dop]. unfold ref_end. rewrite Hk.
  assert (Hlo : 0 <= lo < 256) by (unfold bytes_ok in Hrest; rewrite Forall_lookup in Hrest; exact (Hrest k lo Hk)).
  destruct (Z.gtb_spec (Z.of_nat (length data) + len + 2) out_len) as [|Ho]; [done|]. rewrite length_app in Hlen.
  replace (Z.of_nat (length data) - hi * 256 - 1 - lo) with (Z.of_nat (length data) - (256 * hi + lo) - 1) by lia.
  destruct (Z.ltb_spec (Z.of_nat (length data) - (256 * hi + lo) - 1) 0) as [|Hr]; [done|].
  replace (Z.of_nat (length data) - (256 * hi + lo) - 1) with (Z.of_nat (length data - Z.to_nat (256 * hi + lo) - 1)) by lia.
  rewrite copy_ref_ok by (try done; lia). cbn [mbind option_bind]. do 3 f_equal. lia.
Qed.

Lemma rest_none k : (Z.of_nat (length enc) + Z.of_nat k >=? Z.of_nat (length (enc ++ rest))) = negb (bool_decide (k < length rest)%nat).
Proof. rewrite length_app. case_bool_decide; cbn; lia. Qed.

Lemma iter_ref ctrl r : rest = ctrl :: r -> 32 <= ctrl ->
  decompress_iter (enc ++ rest) out_len st
  = Some (if ctrl / 32 <? 7 then ref_end 1 (ctrl / 32) (ctrl mod 32)
          else match rest !! 1%nat with
               | None => None
               | Some b => ref_end 2 (7 + b) (ctrl mod 32)
               end).
Proof.
  intros Hr Hc. unfold decompress_iter. cbn [dip dop dout].
  assert (Hc0 : urange 8 ctrl) by (rewrite Hr in Hrest; by apply Forall_cons in Hrest as [? _]). unfold urange in Hc0.
  assert (Hbyte : forall k b, rest !! k = Some b -> 0 <= b < 256).
  { intros k b Hb. unfold bytes_ok in Hrest. rewrite Forall_lookup in Hrest. exact (Hrest k b Hb). }
  assert (H0 : rest !! 0%nat = Some ctrl) by (by rewrite Hr).
  rewrite (rd_rest 0 (Z.of_nat (length enc))), H0 by lia. cbn [mbind option_bind].
  change (Z.shiftl 1 5) with 32. rewrite (proj2 (Z.ltb_ge ctrl 32)) by lia.
  change 31 with (Z.ones 5). rewrite Z.shiftr_div_pow2, Z.shiftl_mul_pow2, (land_ones_mod ctrl 5) by lia. change (2 ^ 5) with 32. change (2 ^ 8) with 256.
  assert (Hd : 1 <= ctrl / 32 <= 7) by (split; [apply Z.div_le_lower_bound; lia|apply Z.lt_succ_r, Z.div_lt_upper_bound; lia]).
  pose proof (Z.mod_pos_bound ctrl 32 ltac:(lia)) as Hm.
  pose proof (rest_none 1) as Hn1. pose proof (rest_none 2) as Hn2. change (Z.of_nat 1) with 1 in Hn1. change (Z.of_nat 2) with 2 in Hn2.
  rewrite Hn1. destruct (bool_decide_reflect (1 < length rest)%nat) as [Hl1|Hl1]; cbn [negb].
  2: { assert (E : rest !! 1%nat = None) by (by apply lookup_ge_None, Nat.nlt_ge). unfold ref_end. rewrite E. by destruct (_ <? _). }
  destruct (lookup_lt_is_Some_2 rest 1 Hl1) as [b1 Hb1].
  destruct (Z.eqb_spec (ctrl / 32) 7) as [E7|E7].
  - rewrite E7. cbn [Z.ltb Z.compare Pos.compare Pos.compare_cont].
    rewrite (rd_rest 1 (Z.of_nat (length enc) + 1)), Hb1 by lia. cbn [mbind option_bind dip dop dout].
    rewrite <- Z.add_assoc. change (1 + 1) with 2. rewrite Hn2. destruct (bool_decide_reflect (2 < length rest)%nat) as [Hl2|Hl2]; cbn [negb].
    2: { assert (E : rest !! 2%nat = None) by (by apply lookup_ge_None, Nat.nlt_ge). unfold ref_end. by rewrite E. }
    destruct (lookup_lt_is_Some_2 rest 2 Hl2) as [b2 Hb2].
    apply (ref_end_ok 2 (7 + b1) (ctrl mod 32) b2); [done| |done|lia]. specialize (Hbyte _ _ Hb1). lia.
  - rewrite (proj2 (Z.ltb_lt _ _)) by lia. apply (ref_end_ok 1 (ctrl / 32) (ctrl mod 32) b1); [done|lia|done|lia].
Qed.

End Iter.

Lemma expand_bytes n : forall data ref, bytes_ok data -> bytes_ok (expand data ref n).
Proof.
  induction n as [|n IH]; intros data ref Hok; cbn [expand]; [done|]. destruct (data !! ref) as [b|] eqn:Hb; [|done].
  apply IH, Forall_app. split; [done|]. apply Forall_singleton. unfold bytes_ok in Hok. rewrite Forall_lookup in Hok. by eapply Hok.
Qed.

Lemma stream_bytes enc data : stream enc data -> bytes_ok data.
Proof.
  induction 1; [by apply Forall_nil|apply Forall_app; by split|by apply expand_bytes].
Qed.

(** The state of the decompressor after it has read [enc], which stands for [data]. *)
Definition at_stream (enc data out : bytes) : dstate :=
  mkD (Z.of_nat (length enc)) (Z.of_nat (length data)) (data ++ drop (length data) out).

(** The state [st'] is after a chunk of the format at the head of [rest]. *)
Definition reads_chunk (enc rest out : bytes) (st' : dstate) : Prop :=
  exists chunk rest' data', rest = chunk ++ rest' /\ chunk <> [] /\
    stream (enc ++ chunk) data' /\ (length data' <= length out)%nat /\ st' = at_stream (enc ++ chunk) data' out.

Lemma reads_lit enc rest data out ctrl r st' : stream enc data -> (length data <= length out)%nat ->
  bytes_ok r -> rest = ctrl :: r -> 0 <= ctrl < 32 ->
  Z.of_nat (length data) + (ctrl + 1) <= Z.of_nat (length out) -> ctrl + 1 <= Z.of_nat (length r) ->
  st' = mkD (Z.of_nat (length enc) + 1 + (ctrl + 1)) (Z.of_nat (length data) + (ctrl + 1))
          ((data ++ take (Z.to_nat (ctrl + 1)) r) ++ drop (Z.to_nat (ctrl + 1)) (drop (length data) out)) ->
  reads_chunk enc rest out st'.
Proof.
  intros Hs Hlen Hr -> Hc Ho Hi ->. set (n := Z.to_nat (ctrl + 1)).
  assert (Hn : length (take n r) = n) by (rewrite length_take; lia).
  exists (ctrl :: take n r), (drop n r), (data ++ take n r). split_and!; [cbn; by rewrite take_drop|done| | |].
  - replace (ctrl :: take n r) with ((Z.of_nat (length (take n r)) - 1) :: take n r) by (f_equal; lia).
    apply stream_lit; [done|lia|by apply Forall_take].
  - rewrite length_app. lia.
  - unfold at_stream. rewrite !length_app. cbn [length]. rewrite Hn. f_equal; [lia|lia|]. by rewrite drop_drop.
Qed.

Lemma reads_ref enc rest data out k len hi st' : stream enc data -> (length data <= length out)%nat -> bytes_ok rest ->
  1 <= len <= 262 -> 0 <= hi < 32 ->
  (forall lo, 0 <= lo < 256 -> rest !! k = Some lo -> ref_code len (256 * hi + lo) = take (S k) rest) ->
  ref_end enc rest data (drop (length data) out) (Z.of_nat (length out)) k len hi = Some st' ->
  reads_chunk enc rest out st'.
Proof.
  intros Hs Hlen Hrest Hl Hh Hcode. unfold ref_end. destruct (rest !! k) as [lo|] eqn:Hk; [|done].
  assert (Hlo8 : 0 <= lo < 256) by (unfold bytes_ok in Hrest; rewrite Forall_lookup in Hrest; exact (Hrest k lo Hk)).
  specialize (Hcode lo Hlo8 eq_refl). set (off := 256 * hi + lo) in *.
  destruct (Z.gtb_spec (Z.of_nat (length data) + len + 2) (Z.of_nat (length out))); [done|].
  destruct (Z.ltb_spec (Z.of_nat (length data) - off - 1) 0); [done|]. intros [= <-].
  assert (Hel : length (expand data (length data - Z.to_nat off - 1) (Z.to_nat (len + 2))) = (length data + Z.to_nat (len + 2))%nat)
    by (apply expand_length; lia).
  exists (take (S k) rest), (drop (S k) rest), (expand data (length data - Z.to_nat off - 1) (Z.to_nat (len + 2))).
  apply lookup_lt_Some in Hk. split_and!; [by rewrite take_drop| | | |].
  - destruct rest; [cbn in Hk; lia|done].
  - rewrite <- Hcode. apply stream_ref; [done|done|lia|lia].
  - lia.
  - unfold at_stream. rewrite length_app, length_take, Hel. f_equal; [lia|lia|]. by rewrite drop_drop.
Qed.

(** The first byte of a back reference. *)
Lemma ctrl_code len hi : 1 <= len <= 7 -> 0 <= hi < 32 -> (hi + 32 * len) / 32 = len /\ (hi + 32 * len) mod 32 = hi.
Proof.
  intros Hl Hh. split; symmetry; [apply (Z.div_unique _ _ len hi)|apply (Z.mod_unique _ _ len hi)]; lia.
Qed.

Lemma off_code hi lo : 0 <= lo < 256 -> (256 * hi + lo) / 256 = hi /\ (256 * hi + lo) mod 256 = lo.
Proof.
  intros Hl. split; symmetry; [apply (Z.div_unique _ _ hi lo)|apply (Z.mod_unique _ _ hi lo)]; lia.
Qed.

Lemma ref_code_short ctrl lo : 32 <= ctrl < 224 -> 0 <= lo < 256 -> ref_code (ctrl / 32) (256 * (ctrl mod 32) + lo) = [ctrl; lo].
Proof.
  intros Hc Hl. pose proof (Z.mod_pos_bound ctrl 32 ltac:(lia)). pose proof (Z.div_mod ctrl 32 ltac:(lia)) as E.
  unfold ref_code. rewrite (proj2 (Z.ltb_lt _ _)) by (apply Z.div_lt_upper_bound; lia).
  destruct (off_code (ctrl mod 32) lo Hl) as [-> ->]. f_equal. lia.
Qed.

Lemma ref_code_long ctrl b lo : 224 <= ctrl < 256 -> 0 <= b < 256 -> 0 <= lo < 256 ->
  ref_code (7 + b) (256 * (ctrl mod 32) + lo) = [ctrl; b; lo].
Proof.
  intros Hc Hb Hl. pose proof (Z.mod_pos_bound ctrl 32 ltac:(lia)). pose proof (Z.div_mod ctrl 32 ltac:(lia)) as E.
  assert (ctrl / 32 = 7) by (symmetry; apply (Z.div_unique _ _ _ (ctrl - 224)); lia).
  unfold ref_code. rewrite (proj2 (Z.ltb_ge _ _)) by lia.
  destruct (off_code (ctrl mod 32) lo Hl) as [-> ->]. f_equal; [lia|]. f_equal. lia.
Qed.

(** An iteration never fails, and if it goes on it has read a chunk. *)
Lemma iter_sound enc rest data out : stream enc data -> bytes_ok (enc ++ rest) -> rest <> [] -> (length data <= length out)%nat ->
  exists r, decompress_iter (enc ++ rest) (Z.of_nat (length out)) (at_stream enc data out) = Some r /\
    forall st', r = Some st' -> reads_chunk enc rest out st'.
Proof.
  intros Hs Hok Hne Hlen. pose proof (stream_bytes _ _ Hs) as Hdata. apply Forall_app in Hok as [Henc Hrest].
  assert (Ho : Z.of_nat (length out) = Z.of_nat (length (data ++ drop (length data) out))) by (rewrite length_app, length_drop; lia).
  destruct rest as [|ctrl r]; [done|]. pose proof (Forall_cons_1 _ _ _ Hrest) as [Hc Hr]. unfold urange in Hc.
  unfold at_stream. destruct (Z.ltb_spec ctrl 32) as [Hlt|Hge].
  - rewrite (iter_lit enc (ctrl :: r) data _ _ Hrest Ho ctrl r eq_refl Hlt).
    eexists. split; [done|]. intros st' Hst. destruct (Z.gtb_spec (Z.of_nat (length data) + (ctrl + 1)) (Z.of_nat (length out))); [done|].
    destruct (Z.gtb_spec (ctrl + 1) (Z.of_nat (length r))); [done|]. injection Hst as <-.
    apply (reads_lit enc (ctrl :: r) data out ctrl r); [done..|lia|lia|lia|done].
  - rewrite (iter_ref enc (ctrl :: r) data _ _ Hrest Hdata Ho ctrl r eq_refl Hge).
    pose proof (Z.mod_pos_bound ctrl 32 ltac:(lia)) as Hm.
    eexists. split; [done|]. intros st' Hst. destruct (Z.ltb_spec (ctrl / 32) 7) as [H7|H7].
    + assert (ctrl < 224) by (pose proof (Z.div_mod ctrl 32 ltac:(lia)); lia).
      apply (reads_ref enc (ctrl :: r) data out 1 (ctrl / 32) (ctrl mod 32) st'); try done.
      { split; [apply Z.div_le_lower_bound; lia|lia]. }
      intros lo Hlo Hk. destruct r as [|x r]; [done|]. injection Hk as ->. apply ref_code_short; lia.
    + assert (224 <= ctrl) by (pose proof (Z.div_mod ctrl 32 ltac:(lia)); lia).
      destruct r as [|b r]; [done|]. cbn [lookup list_lookup] in Hst. pose proof (Forall_cons_1 _ _ _ Hr) as [Hb _]. unfold urange in Hb.
      apply (reads_ref enc (ctrl :: b :: r) data out 2 (7 + b) (ctrl mod 32) st'); try done; [lia|].
      intros lo Hlo Hk. destruct r as [|x r]; [done|]. injection Hk as ->. apply ref_code_long; lia.
Qed.

(** The decompressor reads a well-formed stream to its end. *)
Lemma iter_complete_lit enc rest data l out : stream enc data -> bytes_ok rest ->
  (1 <= length l <= 32)%nat -> bytes_ok l -> (length (data ++ l) <= length out)%nat ->
  let c := (Z.of_nat (length l) - 1) :: l in
  decompress_iter (enc ++ c ++ rest) (Z.of_nat (length out)) (at_stream enc data out)
  = Some (Some (at_stream (enc ++ c) (data ++ l) out)).
Proof.
  intros Hs Hr Hl Hlb Ho c. rewrite length_app in Ho.
  assert (Ho' : Z.of_nat (length out) = Z.of_nat (length (data ++ drop (length data) out))) by (rewrite length_app, length_drop; lia).
  assert (Hc : bytes_ok (c ++ rest)).
  { apply Forall_app. split; [|done]. apply Forall_cons. split; [unfold urange; lia|done]. }
  unfold at_stream. rewrite (iter_lit enc (c ++ rest) data _ _ Hc Ho' (Z.of_nat (length l) - 1) (l ++ rest) eq_refl) by lia.
  destruct (Z.gtb_spec (Z.of_nat (length data) + (Z.of_nat (length l) - 1 + 1)) (Z.of_nat (length out))); [lia|].
  rewrite length_app. destruct (Z.gtb_spec (Z.of_nat (length l) - 1 + 1) (Z.of_nat (length l + length rest))); [lia|].
  cbv zeta. replace (Z.to_nat (Z.of_nat (length l) - 1 + 1)) with (length l) by lia. rewrite take_app_length, drop_drop, !length_app.
  unfold c. cbn [length]. do 3 f_equal; lia.
Qed.

Lemma ref_code_bytes len off : 1 <= len <= 262 -> 0 <= off < 8192 -> bytes_ok (ref_code len off).
Proof.
  intros Hl Ho. assert (0 <= off / 256 < 32) by (split; [apply Z.div_pos; lia|apply Z.div_lt_upper_bound; lia]).
  pose proof (Z.mod_pos_bound off 256 ltac:(lia)). unfold ref_code, bytes_ok.
  destruct (Z.ltb_spec len 7); rewrite !Forall_cons, Forall_nil; unfold urange; lia.
Qed.

Lemma stream_enc_bytes enc data : stream enc data -> bytes_ok enc.
Proof.
  induction 1; [by apply Forall_nil|apply Forall_app; split; [done|]..].
  - apply Forall_cons. split; [unfold urange; lia|done].
  - by apply ref_code_bytes.
Qed.

Lemma iter_complete_ref enc rest data len off out : stream enc data -> bytes_ok rest ->
  1 <= len <= 262 -> 0 <= off < 8192 -> off < Z.of_nat (length data) ->
  let data' := expand data (length data - Z.to_nat off - 1) (Z.to_nat (len + 2)) in
  (length data' <= length out)%nat ->
  decompress_iter (enc ++ ref_code len off ++ rest) (Z.of_nat (length out)) (at_stream enc data out)
  = Some (Some (at_stream (enc ++ ref_code len off) data' out)).
Proof.
  intros Hs Hr Hl Hoff Hd data' Ho. pose proof (stream_bytes _ _ Hs) as Hdata.
  assert (Hel : length data' = (length data + Z.to_nat (len + 2))%nat) by (apply expand_length; lia). rewrite Hel in Ho.
  assert (Ho' : Z.of_nat (length out) = Z.of_nat (length (data ++ drop (length data) out))) by (rewrite length_app, length_drop; lia).
  assert (Hhi : 0 <= off / 256 < 32) by (split; [apply Z.div_pos; lia|apply Z.div_lt_upper_bound; lia]).
  pose proof (Z.mod_pos_bound off 256 ltac:(lia)) as Hlo.
  assert (Hcode : bytes_ok (ref_code len off ++ rest)).
  { apply Forall_app. split; [|done]. by apply ref_code_bytes. }
  assert (Hend : forall k, (ref_code len off ++ rest) !! k = Some (off mod 256) -> length (ref_code len off) = S k ->
    ref_end enc (ref_code len off ++ rest) data (drop (length data) out) (Z.of_nat (length out)) k len (off / 256)
    = Some (at_stream (enc ++ ref_code len off) data' out)).
  { intros k Hk Hlen. unfold ref_end. rewrite Hk. rewrite <- (Z.div_mod off 256) by lia.
    destruct (Z.gtb_spec (Z.of_nat (length data) + len + 2) (Z.of_nat (length out))); [lia|].
    destruct (Z.ltb_spec (Z.of_nat (length data) - off - 1) 0); [lia|]. fold data'. unfold at_stream.
    rewrite length_app, Hlen, Hel, drop_drop. do 2 f_equal; lia. }
  unfold at_stream. unfold ref_code in *. destruct (Z.ltb_spec len 7) as [H7|H7].
  - destruct (ctrl_code len (off / 256) ltac:(lia) Hhi) as [E1 E2].
    rewrite (iter_ref enc _ data _ _ Hcode Hdata Ho' (off / 256 + 32 * len) (off mod 256 :: rest) eq_refl) by lia.
    rewrite E1, E2, (proj2 (Z.ltb_lt _ _)) by lia. f_equal. by apply (Hend 1%nat).
  - destruct (ctrl_code 7 (off / 256) ltac:(lia) Hhi) as [E1 E2]. change (32 * 7) with 224 in *.
    rewrite (iter_ref enc _ data _ _ Hcode Hdata Ho' (off / 256 + 224) (len - 7 :: off mod 256 :: rest) eq_refl) by lia.
    rewrite E1, E2. change (7 <? 7) with false. cbv iota. cbn [lookup list_lookup app]. f_equal.
    replace (7 + (len - 7)) with len by lia. by apply (Hend 2%nat).
Qed.

Lemma loop_sound out fuel : forall enc rest data, stream enc data -> bytes_ok (enc ++ rest) ->
  (length data <= length out)%nat -> (length rest <= fuel)%nat ->
  exists r, decompress_loop (enc ++ rest) (Z.of_nat (length out)) fuel (at_stream enc data out) = Some r /\
    forall st', r = Some st' -> exists data', stream (enc ++ rest) data' /\ (length data' <= length out)%nat /\
      st' = at_stream (enc ++ rest) data' out.
Proof.
  induction fuel as [|fuel IH]; intros enc rest data Hs Hok Hd Hf; cbn [decompress_loop].
  - destruct rest; [|cbn in Hf; lia]. rewrite app_nil_r. cbn [dip at_stream]. rewrite Z.ltb_irrefl. eexists. split; [done|].
    intros st' [= <-]. by exists data.
  - cbn [dip at_stream]. destruct rest as [|c r].
    { rewrite app_nil_r, Z.ltb_irrefl. eexists. split; [done|]. intros st' [= <-]. by exists data. }
    rewrite (proj2 (Z.ltb_lt _ _)) by (rewrite length_app; cbn; lia).
    destruct (iter_sound enc (c :: r) data out Hs Hok ltac:(done) Hd) as (res & Heq & Hres). rewrite Heq. cbn [mbind option_bind].
    destruct res as [st'|]; [|by exists None]. destruct (Hres st' eq_refl) as (chunk & rest' & data' & Hr & Hne & Hs' & Hl' & ->).
    assert (Hlr : (length rest' <= fuel)%nat).
    { apply (f_equal length) in Hr. rewrite length_app in Hr. destruct chunk; [done|]. cbn in Hr, Hf. lia. }
    rewrite Hr, app_assoc in Hok |- *. by apply IH.
Qed.

Lemma loop_step (inp out : bytes) fuel st st' : dip st < Z.of_nat (length inp) -> decompress_iter inp (Z.of_nat (length out)) st = Some (Some st') ->
  decompress_loop inp (Z.of_nat (length out)) (S fuel) st = decompress_loop inp (Z.of_nat (length out)) fuel st'.
Proof. intros Hlt Heq. cbn [decompress_loop]. rewrite (proj2 (Z.ltb_lt _ _)) by done. by rewrite Heq. Qed.

Lemma expand_ge data ref n : (length data <= length (expand data ref n))%nat.
Proof.
  revert data ref. induction n as [|n IH]; intros data ref; cbn [expand]; [done|]. destruct (data !! ref); [|done].
  etransitivity; [|apply IH]. rewrite length_app. lia.
Qed.

Lemma loop_complete enc data : stream enc data -> forall rest out, bytes_ok (enc ++ rest) -> (length data <= length out)%nat ->
  exists n, (n <= length enc)%nat /\ forall fuel,
    decompress_loop (enc ++ rest) (Z.of_nat (length out)) (n + fuel) (at_stream [] [] out)
    = decompress_loop (enc ++ rest) (Z.of_nat (length out)) fuel (at_stream enc data out).
Proof.
  induction 1 as [|enc data l Hs IH Hl Hlb|enc data len off Hs IH Hl Ho Hod]; intros rest out Hok Hlen.
  - by exists 0%nat.
  - rewrite <- app_assoc in Hok |- *. destruct (IH _ out Hok) as (n & Hn & Heq). { rewrite length_app in Hlen. lia. }
    exists (S n). split; [rewrite length_app; cbn; lia|]. intros fuel.
    replace (S n + fuel)%nat with (n + S fuel)%nat by lia. rewrite Heq. apply loop_step; [cbn; rewrite length_app; cbn; lia|].
    apply iter_complete_lit; try done. apply Forall_app in Hok as [_ Hok]. by apply Forall_app in Hok as [_ ?].
  - rewrite <- app_assoc in Hok |- *. destruct (IH _ out Hok) as (n & Hn & Heq). { etransitivity; [apply expand_ge|done]. }
    assert (Hc : (2 <= length (ref_code len off))%nat) by (unfold ref_code; destruct (_ <? _); cbn; lia).
    exists (S n). split; [rewrite length_app; lia|]. intros fuel.
    replace (S n + fuel)%nat with (n + S fuel)%nat by lia. rewrite Heq. apply loop_step; [cbn; rewrite !length_app; lia|].
    apply iter_complete_ref; try done. apply Forall_app in Hok as [_ Hok]. by apply Forall_app in Hok as [_ ?].
Qed.

Lemma decompress_stream enc data out : stream enc data -> bytes_ok enc -> (length data <= length out)%nat ->
  lzf_decompress enc out = Some (Z.of_nat (length data), data ++ drop (length data) out).
Proof.
  intros Hs Hok Hlen. unfold lzf_decompress. destruct (loop_complete enc data Hs [] out) as (n & Hn & Heq); [by rewrite app_nil_r|done|].
  rewrite app_nil_r in Heq. replace (length enc) with (n + (length enc - n))%nat at 1 by lia.
  change (mkD 0 0 out) with (at_stream [] [] out). rewrite Heq.
  assert (Hend : decompress_loop enc (Z.of_nat (length out)) (length enc - n) (at_stream enc data out) = Some (Some (at_stream enc data out))).
  { destruct (length enc - n)%nat; cbn [decompress_loop dip at_stream]; by rewrite Z.ltb_irrefl. }
  rewrite Hend. done.
Qed.

(** The decompressor never leaves its buffers, and a result that is not 0 is right. *)
Lemma decompress_safe (inp out : bytes) : bytes_ok inp ->
  exists n out', lzf_decompress inp out = Some (n, out') /\ length out' = length out /\
    (n <> 0 -> exists data, stream inp data /\ n = Z.of_nat (length data) /\ out' = data ++ drop (length data) out).
Proof.
  intros Hok. destruct (loop_sound out (length inp) [] inp [] stream_nil Hok) as (r & Heq & Hr); [cbn; lia|done|].
  unfold lzf_decompress. change (mkD 0 0 out) with (at_stream [] [] out). cbn [app] in Heq. rewrite Heq. cbn [mbind option_bind].
  destruct r as [st'|]; [|by exists 0, out]. destruct (Hr st' eq_refl) as (data & Hs & Hl & ->). eexists _, _. split; [done|].
  cbn. rewrite length_app, length_drop. split; [lia|]. by exists data.
Qed.

(** C34. The decompressor is safe and exact on any input, corrupted or not: it
    never reads out of the input or writes out of the output; it succeeds on
    exactly the streams of the format whose data fit in the output, and then
    gives these data and leaves the rest of the output as it was. *)
Theorem lzf_decompress_exact (inp out : bytes) : bytes_ok inp ->
  exists n out', lzf_decompress inp out = Some (n, out') /\ length out' = length out /\
    (n <> 0 -> exists data, stream inp data /\ n = Z.of_nat (length data) /\ out' = data ++ drop (length data) out) /\
    (forall data, stream inp data -> (length data <= length out)%nat ->
       n = Z.of_nat (length data) /\ out' = data ++ drop (length data) out).
Proof.
  intros Hok. destruct (decompress_safe inp out Hok) as (n & out' & Heq & Hl & Hsound). exists n, out'. split_and!; [done..|]. intros data Hs Hd.
  rewrite (decompress_stream inp data out Hs Hok Hd) in Heq. by injection Heq as <- <-.
Qed.

Lemma lzf_decompress_exact_witness :
  exists n out', lzf_decompress [1; 97; 98; 64; 1; 255] (replicate 8 0) = Some (n, out') /\ length out' = length (replicate 8 0) /\
    (n <> 0 -> exists data, stream [1; 97; 98; 64; 1; 255] data /\ n = Z.of_nat (length data) /\ out' = data ++ drop (length data) (replicate 8 0)) /\
    (forall data, stream [1; 97; 98; 64; 1; 255] data -> (length data <= length (replicate 8 0))%nat ->
       n = Z.of_nat (length data) /\ out' = data ++ drop (length data) (replicate 8 0)).
Proof. apply (lzf_decompress_exact [1; 97; 98; 64; 1; 255] (replicate 8 0)). by repeat constructor. Defined.

(** * The compressor *)

Section CompressOk.
Context (inp : bytes) (in_data : Z) (out_len : Z).
Hypothesis (Hin : bytes_ok inp) (Hbase : 8192 <= in_data) (Htop : in_data + Z.of_nat (length inp) <= 2 ^ 64).

(** The octets at [ref] and at [p] are equal for [len] octets. *)
Definition agree (ref p len : Z) : Prop :=
  forall i, 0 <= i < len -> rd inp (ref + i) = rd inp (p + i).

Lemma agree_snoc ref p len : agree ref p len -> rd inp (ref + len) = rd inp (p + len) -> agree ref p (len + 1).
Proof. intros Ha He i Hi. destruct (decide (i = len)) as [->|]; [done|]. apply Ha. lia. Qed.

Lemma unrolled_ok n : forall ref p len, 0 <= ref < p -> 0 <= len -> agree ref p (len + 1) ->
  p + len + Z.of_nat n < Z.of_nat (length inp) ->
  exists len' broke, unrolled inp n ref p len = Some (len', broke) /\
    (broke = true -> len < len' <= len + Z.of_nat n /\ agree ref p len') /\
    (broke = false -> len' = len + Z.of_nat n /\ agree ref p (len' + 1)).
Proof.
  induction n as [|n IH]; intros ref p len Hr Hl Ha Hb; cbn [unrolled].
  { exists len, false. split_and!; [done|done|]. intros _. split; [lia|done]. }
  destruct (rd_Some inp (ref + (len + 1))) as [a Hra]; [lia|]. destruct (rd_Some inp (p + (len + 1))) as [b Hrb]; [lia|].
  rewrite Hra, Hrb. cbn [mbind option_bind]. destruct (Z.eqb_spec a b) as [->|]; cbn [negb].
  - destruct (IH ref p (len + 1) Hr) as (len' & br & Heq & H1 & H2); [lia| |lia|].
    { apply agree_snoc; [done|]. by rewrite Hra, Hrb. }
    exists len', br. split; [done|]. split; intros E.
    + destruct (H1 E). split; [lia|done]. + destruct (H2 E). split; [lia|done].
  - exists (len + 1), true. split_and!; [done| |done]. intros _. split; [lia|done].
Qed.

Lemma do_while_ok fuel : forall maxlen ref p len, 0 <= ref < p -> 0 <= len -> agree ref p (len + 1) ->
  p + maxlen <= Z.of_nat (length inp) -> maxlen - len - 1 <= Z.of_nat fuel ->
  exists len', do_while inp fuel maxlen ref p len = Some len' /\ len < len' <= Z.max (len + 1) maxlen /\ agree ref p len'.
Proof.
  induction fuel as [|fuel IH]; intros maxlen ref p len Hr Hl Ha Hb Hf; cbn [do_while];
    (destruct (Z.ltb_spec (len + 1) maxlen) as [Hlt|]; [|exists (len + 1); split_and!; [done|lia|lia|done]]).
  { lia. }
  destruct (rd_Some inp (ref + (len + 1))) as [a Hra]; [lia|]. destruct (rd_Some inp (p + (len + 1))) as [b Hrb]; [lia|].
  rewrite Hra, Hrb. cbn [mbind option_bind]. destruct (Z.eqb_spec a b) as [->|].
  - destruct (IH maxlen ref p (len + 1) Hr) as (len' & Heq & Hle & Ha'); [lia| |lia|lia|].
    { apply agree_snoc; [done|]. by rewrite Hra, Hrb. }
    exists len'. split_and!; [done|lia|lia|done].
  - exists (len + 1). split_and!; [done|lia|lia|done].
Qed.

Lemma match_len_ok ref p : 0 <= ref < p -> p + 3 <= Z.of_nat (length inp) -> agree ref p 3 ->
  exists len, match_len inp ref p = Some len /\ 3 <= len <= 264 /\ p + len <= Z.of_nat (length inp) /\ agree ref p len.
Proof.
  intros Hr Hp Ha. unfold match_len, in_end. change MAX_REF with 264.
  set (maxlen := if _ >? 264 then 264 else _).
  assert (Hm : maxlen <= 264 /\ p + maxlen + 2 <= Z.of_nat (length inp)).
  { subst maxlen. destruct (Z.gtb_spec (Z.of_nat (length inp) - p - 2) 264); lia. }
  assert (Hfirst : exists len broke, (if maxlen >? 16 then unrolled inp 16 ref p 2 else Some (2, false)) = Some (len, broke) /\
    (broke = true -> 3 <= len <= 18 /\ len <= maxlen + 2 /\ agree ref p len) /\
    (broke = false -> (len = 2 \/ len = 18 /\ 16 < maxlen) /\ agree ref p (len + 1))).
  { destruct (Z.gtb_spec maxlen 16) as [Hgt|].
    - destruct (unrolled_ok 16 ref p 2 Hr) as (len & br & Heq & H1 & H2); [lia|done|lia|]. exists len, br. split; [done|].
      split; intros E; [destruct (H1 E); split_and!; [lia..|done]|destruct (H2 E); split; [right; lia|done]].
    - exists 2, false. split_and!; [done|done|]. intros _. split; [by left|done]. }
  destruct Hfirst as (len & broke & -> & H1 & H2). cbn [mbind option_bind]. destruct broke.
  - destruct (H1 eq_refl) as (? & ? & ?). exists len. split_and!; [done|lia|lia|lia|done].
  - destruct (H2 eq_refl) as [Hlen Ha'].
    destruct (do_while_ok (Z.to_nat maxlen) maxlen ref p len Hr) as (len' & Heq & Hle & Ha2); [lia|done|lia|lia|].
    exists len'. split_and!; [done|lia|lia|lia|done].
Qed.

(** The copy of a match from the output is the input. *)
Lemma expand_match ref p len : (ref < p)%nat -> (p + len <= length inp)%nat -> agree (Z.of_nat ref) (Z.of_nat p) (Z.of_nat len) ->
  expand (take p inp) ref len = take (p + len) inp.
Proof.
  revert ref p. induction len as [|len IH]; intros ref p Hr Hp Ha; cbn [expand]; [by rewrite Nat.add_0_r|].
  rewrite lookup_take_lt by done. destruct (lookup_lt_is_Some_2 inp p) as [b Hb]; [lia|].
  assert (Hrb : inp !! ref = Some b).
  { specialize (Ha 0 ltac:(lia)). rewrite !Z.add_0_r in Ha. unfold rd in Ha. rewrite !(proj2 (Z.leb_le _ _)) in Ha by lia.
    cbn [guard mbind option_bind] in Ha. rewrite !Nat2Z.id in Ha. congruence. }
  rewrite Hrb, <- (take_S_r _ _ _ Hb), IH; [f_equal; lia|lia|lia|].
  intros i Hi. specialize (Ha (i + 1) ltac:(lia)).
  replace (Z.of_nat (S ref) + i) with (Z.of_nat ref + (i + 1)) by lia. by replace (Z.of_nat (S p) + i) with (Z.of_nat p + (i + 1)) by lia.
Qed.
(** The complete chunks [enc] of the output, the slot of the current run, and
    its literals [l]. *)
Record cinv (st : cstate) (enc l : bytes) : Prop := {
  ci_htab i : urange 64 (htab st i);
  ci_len : Z.of_nat (length (out st)) = out_len;
  ci_ip : Z.of_nat (length l) <= ip st <= Z.of_nat (length inp);
  ci_lit : lit st = Z.of_nat (length l);
  ci_run : (length l <= 31)%nat;
  ci_op : op st = Z.of_nat (length enc) + 1 + lit st;
  ci_stream : stream enc (take (Z.to_nat (ip st - lit st)) inp);
  ci_l : take (Z.to_nat (ip st)) inp = take (Z.to_nat (ip st - lit st)) inp ++ l;
  ci_out : (l = [] /\ exists tail, out st = enc ++ tail) \/ exists x tail, out st = enc ++ x :: l ++ tail
}.

(** The slot is in the buffer. *)
Lemma cinv_slot st enc l : cinv st enc l -> op st - lit st - 1 < out_len -> exists x tail, out st = enc ++ x :: l ++ tail.
Proof.
  intros H Hs. destruct (ci_out _ _ _ H) as [[-> [tail Ht]]|]; [|done]. pose proof (ci_len _ _ _ H) as Hl. pose proof (ci_op _ _ _ H).
  rewrite Ht, length_app in Hl. destruct tail as [|x tail]; [cbn in Hl; lia|]. by exists x, tail.
Qed.

Lemma wr_at m1 x m2 i b : i = Z.of_nat (length m1) -> wr (m1 ++ x :: m2) i b = Some (m1 ++ u8 b :: m2).
Proof. intros ->. apply wr_app. Qed.

(** A literal is copied. *)
Lemma copy_literal_ok st enc l : cinv st enc l -> ip st < Z.of_nat (length inp) -> op st < out_len ->
  exists st' enc' l', copy_literal inp st = Some st' /\ cinv st' enc' l' /\ ip st' = ip st + 1 /\
    (lit st < 31 /\ op st' = op st + 1 /\ lit st' = lit st + 1 \/ lit st = 31 /\ op st' = op st + 2 /\ lit st' = 0).
Proof.
  intros H Hi Ho. destruct H as [Hh Hlen Hip Hlit Hrun Hop Hst Hl Hout].
  destruct (cinv_slot st enc l) as (x & tail & Ht); [by split|lia|].
  pose proof Hlen as Hlen'. rewrite Ht, length_app in Hlen'. cbn [length] in Hlen'. rewrite length_app in Hlen'.
  destruct tail as [|y tail]; [cbn in Hlen'; lia|]. destruct (rd_Some inp (ip st)) as [b Hb]; [lia|].
  pose proof (rd_byte _ _ _ Hin Hb) as Hb8. unfold copy_literal. rewrite Hb. cbn [mbind option_bind].
  assert (E1 : out st = (enc ++ x :: l) ++ y :: tail) by (rewrite Ht, <- app_assoc; done).
  rewrite E1, wr_at, u8_small by (try done; rewrite length_app; cbn; lia). cbn [mbind option_bind].
  assert (Hl' : take (Z.to_nat (ip st + 1)) inp = take (Z.to_nat (ip st - lit st)) inp ++ (l ++ [b])).
  { apply rd_lookup in Hb as [_ Hb]. rewrite Z2Nat.inj_add, Nat.add_1_r, (take_S_r _ _ _ Hb), Hl by lia. by rewrite app_assoc. }
  assert (E2 : (enc ++ x :: l) ++ b :: tail = enc ++ x :: (l ++ [b]) ++ tail) by (by rewrite <- !app_assoc).
  assert (Hll : length (l ++ [b]) = S (length l)) by (rewrite length_app; cbn; lia).
  assert (Hlb : bytes_ok (l ++ [b])).
  { assert (Hb2 : bytes_ok (take (Z.to_nat (ip st + 1)) inp)) by (by apply Forall_take). rewrite Hl' in Hb2. by apply Forall_app in Hb2 as [_ ?]. }
  change MAX_LIT with 32. rewrite E2. destruct (Z.eqb_spec (lit st + 1) 32) as [E32|E32].
  - rewrite wr_at by lia. cbn [mbind option_bind]. rewrite E32. change (u8 (32 - 1)) with 31.
    eexists _, (enc ++ 31 :: l ++ [b]), []. split; [done|]. split; [|cbn; split; [done|right; lia]].
    assert (Hn : Z.of_nat (length (l ++ [b])) - 1 = 31) by lia.
    split; cbn [htab ip op lit out length]; try done.
    + cbn [length] in Hlen'. rewrite length_app. cbn [length]. rewrite length_app, Hll. lia.
    + lia.
    + lia.
    + rewrite length_app. cbn [length]. rewrite Hll. lia.
    + rewrite Z.sub_0_r, Hl'. rewrite <- Hn. apply stream_lit; [done|lia|done].
    + by rewrite Z.sub_0_r, app_nil_r.
    + left. split; [done|]. exists tail. by rewrite <- (app_assoc enc).
  - eexists _, enc, (l ++ [b]). split; [done|]. split; [|cbn; split; [done|left; lia]].
    split; cbn [htab ip op lit out length]; try done; rewrite ?Hll; try lia.
    + cbn [length] in Hlen'. rewrite length_app. cbn [length]. rewrite length_app, Hll. lia.
    + by replace (ip st + 1 - (lit st + 1)) with (ip st - lit st) by lia.
    + by replace (ip st + 1 - (lit st + 1)) with (ip st - lit st) by lia.
    + right. by exists x, tail.
Qed.

(** The end of a run: [op \[- lit - 1\] = lit - 1; op -= !lit;]. *)
Lemma flush_ok st enc l : cinv st enc l -> op st - lit st - 1 < out_len ->
  exists out' enc' tail, wr (out st) (op st - lit st - 1) (lit st - 1) = Some out' /\ out' = enc' ++ tail /\
    length out' = length (out st) /\ Z.of_nat (length enc') = op st - b2z (lit st =? 0) /\ stream enc' (take (Z.to_nat (ip st)) inp).
Proof.
  intros H Ho. destruct (cinv_slot st enc l H Ho) as (x & tail & Ht). destruct H as [Hh Hlen Hip Hlit Hrun Hop Hst Hl Hout].
  rewrite Ht, wr_at by lia. assert (Hlb : bytes_ok l).
  { assert (Hb2 : bytes_ok (take (Z.to_nat (ip st)) inp)) by (by apply Forall_take). rewrite Hl in Hb2. by apply Forall_app in Hb2 as [_ ?]. }
  eexists. destruct (Z.eqb_spec (lit st) 0) as [E|E].
  - assert (l = []) as -> by (apply nil_length_inv; lia). eexists enc, _. split; [done|]. split; [done|]. split; [rewrite !length_app; done|].
    split; [cbn; lia|]. by rewrite Hl, app_nil_r.
  - exists (enc ++ (Z.of_nat (length l) - 1) :: l), tail. split; [done|]. split_and!.
    + rewrite <- app_assoc. cbn. by rewrite Hlit, u8_small by (unfold urange; lia).
    + by rewrite !length_app.
    + rewrite length_app. cbn. lia.
    + rewrite Hl. apply stream_lit; [done|lia|done].
Qed.

Lemma app_cons (l1 : bytes) x l2 : l1 ++ x :: l2 = (l1 ++ [x]) ++ l2.
Proof. by rewrite <- app_assoc. Qed.

(** The code of a back reference is written. *)
Lemma write_ref_ok enc tail len off : 1 <= len <= 262 -> 0 <= off < 8192 -> (3 <= length tail)%nat ->
  exists tail', write_ref (enc ++ tail) (Z.of_nat (length enc)) len off
    = Some ((enc ++ ref_code len off) ++ tail', Z.of_nat (length (enc ++ ref_code len off))) /\
    length ((enc ++ ref_code len off) ++ tail') = length (enc ++ tail).
Proof.
  intros Hl Ho Ht. pose proof (ref_code_bytes len off Hl Ho) as Hb. unfold write_ref. destruct tail as [|x [|y [|z tail]]]; cbn in Ht; try lia.
  rewrite Z.shiftr_div_pow2, !Z.shiftl_mul_pow2 by lia. change (2 ^ 8) with 256. change (7 * 2 ^ 5) with 224. rewrite (Z.mul_comm len). change (2 ^ 5) with 32.
  assert (Hoff : u8 off = off mod 256) by done. unfold bytes_ok in Hb. unfold ref_code in *. destruct (Z.ltb_spec len 7) as [H7|H7].
  - rewrite !Forall_cons in Hb. destruct Hb as (H1 & H2 & _). exists (z :: tail).
    rewrite wr_app, u8_small by done. cbn [mbind option_bind].
    rewrite (app_cons enc), wr_at by (rewrite length_app; cbn; lia). cbn [mbind option_bind].
    rewrite Hoff, <- !app_assoc. cbn [app]. rewrite !length_app. cbn [length]. split; [do 2 f_equal; lia|lia].
  - rewrite !Forall_cons in Hb. destruct Hb as (H1 & H2 & H3 & _). exists tail.
    rewrite wr_app, u8_small by done. cbn [mbind option_bind].
    rewrite (app_cons enc), wr_at, (u8_small (len - 7)) by (try done; rewrite length_app; cbn; lia). cbn [mbind option_bind].
    rewrite (app_cons (enc ++ [_])), wr_at by (rewrite !length_app; cbn; lia). cbn [mbind option_bind].
    rewrite Hoff, <- !app_assoc. cbn [app]. rewrite !length_app. cbn [length]. split; [do 2 f_equal; lia|lia].
Qed.
Lemma cinv_start st' enc' tail : (forall i, urange 64 (htab st' i)) -> out st' = enc' ++ tail ->
  Z.of_nat (length (enc' ++ tail)) = out_len -> 0 <= ip st' <= Z.of_nat (length inp) -> lit st' = 0 ->
  op st' = Z.of_nat (length enc') + 1 -> stream enc' (take (Z.to_nat (ip st')) inp) -> cinv st' enc' [].
Proof.
  intros Hh Ho Hl Hi Hlit Hop Hs. split; rewrite ?Hlit, ?Z.sub_0_r, ?Ho; cbn [length]; try done.
  - lia.
  - lia.
  - by rewrite app_nil_r.
  - left. split; [done|]. by exists tail.
Qed.

Lemma set_slot_range (h : Z -> Z) i v : (forall j, urange 64 (h j)) -> urange 64 v -> forall j, urange 64 (set_slot h i v j).
Proof. intros Hh Hv j. unfold set_slot. by destruct (j =? i). Qed.

Lemma next_some v p : 0 <= p -> p + 2 < Z.of_nat (length inp) -> exists h, NEXT inp v p = Some h.
Proof. intros H0 H1. unfold NEXT. destruct (rd_Some inp (p + 2)) as [b ->]; [lia|]. by eexists. Qed.

Lemma frst_some p : 0 <= p -> p + 1 < Z.of_nat (length inp) -> exists h, FRST inp p = Some h.
Proof.
  intros H0 H1. unfold FRST. destruct (rd_Some inp p) as [a ->]; [lia|]. destruct (rd_Some inp (p + 1)) as [b Hb]; [lia|].
  cbn [mbind option_bind]. rewrite Hb. by eexists.
Qed.

(** What an iteration leaves. *)
Definition iter_ok (st : cstate) (o : outcome) : Prop :=
  match o with
  | Return0 => True
  | Break st' => (exists enc' l', cinv st' enc' l') /\ Z.of_nat (length inp) - 2 <= ip st'
  | Continue st' => (exists enc' l', cinv st' enc' l') /\ ip st < ip st'
  end.

Lemma emit_match_ok st enc l ref off : cinv st enc l -> 0 <= ref < ip st -> ip st + 3 <= Z.of_nat (length inp) ->
  off = ip st - ref - 1 -> off < 8192 -> agree ref (ip st) 3 ->
  exists o, emit_match inp in_data out_len st ref off = Some o /\ iter_ok st o.
Proof.
  intros H Hr Hi Hoff Hmax Ha. unfold emit_match, out_end. destruct (_ && _) eqn:Hroom; [by exists Return0|].
  assert (Ho : op st - b2z (lit st =? 0) + 4 < out_len) by (unfold b2z in *; destruct (lit st =? 0); lia). clear Hroom.
  pose proof (ci_op _ _ _ H) as Hop. pose proof (ci_lit _ _ _ H) as Hlit.
  destruct (flush_ok st enc l H) as (out1 & enc1 & tail1 & -> & -> & Hlen1 & Henc1 & Hs1).
  { unfold b2z in Ho. destruct (lit st =? 0); lia. }
  cbn [mbind option_bind]. destruct (match_len_ok ref (ip st) Hr Hi Ha) as (len & -> & Hlen & Hlp & Hal). cbn [mbind option_bind].
  pose proof (ci_len _ _ _ H) as Hol. rewrite <- Henc1. rewrite <- Hlen1 in Hol.
  destruct (write_ref_ok enc1 tail1 (len - 2) off) as (tail2 & -> & Hlen2); [lia|lia|rewrite length_app in Hol; lia|].
  cbn [mbind option_bind]. set (enc2 := enc1 ++ ref_code (len - 2) off) in *.
  assert (Hs2 : stream enc2 (take (Z.to_nat (ip st + len)) inp)).
  { assert (E : take (Z.to_nat (ip st + len)) inp = expand (take (Z.to_nat (ip st)) inp) (length (take (Z.to_nat (ip st)) inp) - Z.to_nat off - 1) (Z.to_nat (len - 2 + 2))).
    { rewrite length_take_le by lia. replace (Z.to_nat (ip st) - Z.to_nat off - 1)%nat with (Z.to_nat ref) by lia.
      rewrite expand_match; [f_equal; lia|lia|lia|]. rewrite !Z2Nat.id by lia. by replace (len - 2 + 2) with len by lia. }
    rewrite E. apply stream_ref; [done|lia|lia|]. rewrite length_take_le; lia. }
  replace (ip st + 1 + (len - 2 + 1)) with (ip st + len) by lia. unfold in_end.
  destruct (Z.geb_spec (ip st + len) (Z.of_nat (length inp) - 2)) as [Hge|Hlt].
  - eexists. split; [done|]. split; [|done]. exists enc2, []. apply (cinv_start _ enc2 tail2); cbn; try done; [apply H|lia|lia].
  - destruct (frst_some (ip st + len - 1 - 1)) as [h1 ->]; [lia|lia|]. cbn [mbind option_bind].
    destruct (next_some h1 (ip st + len - 1 - 1)) as [h2 ->]; [lia|lia|]. cbn [mbind option_bind].
    destruct (next_some h2 (ip st + len - 1 - 1 + 1)) as [h3 ->]; [lia|lia|]. cbn [mbind option_bind].
    eexists. split; [done|]. split; [|cbn; lia]. exists enc2, []. apply (cinv_start _ enc2 tail2); cbn; try done; try lia.
    + apply set_slot_range; [apply set_slot_range; [apply H|]|]; unfold urange; lia.
    + by replace (ip st + len - 1 - 1 + 1 + 1) with (ip st + len) by lia.
Qed.

(** Whatever the hash table holds, a match is inside the input already read. *)
Lemma slot_in_range ref p : urange 64 ref -> 0 <= p < Z.of_nat (length inp) ->
  u64 (in_data + p - ref - 1) < 8192 -> in_data < ref ->
  u64 (in_data + p - ref - 1) = p - (ref - in_data) - 1 /\ 0 <= ref - in_data < p.
Proof.
  intros [Hr0 Hr1] Hp Hoff Hgt.
  assert (E : u64 (in_data + p - ref - 1) = in_data + p - ref - 1 \/ in_data + p - ref - 1 < 0).
  { destruct (Z.ltb_spec (in_data + p - ref - 1) 0); [by right|left]. apply uwrap_small. unfold urange. lia. }
  pose proof (uwrap_range 64 (in_data + p - ref - 1) ltac:(lia)) as [Hnn _].
  destruct E as [E|E]; [lia|exfalso]. revert Hoff. unfold uwrap.
  rewrite <- (Z.mod_add _ 1) by done. rewrite Z.mod_small by lia. lia.
Qed.

Lemma agree_3 ref p r0 r1 r2 : rd inp ref = Some r0 -> rd inp (ref + 1) = Some r1 -> rd inp (ref + 2) = Some r2 ->
  rd inp p = Some r0 -> rd inp (p + 1) = Some r1 -> rd inp (p + 2) = Some r2 -> agree ref p 3.
Proof.
  intros ?????? i Hi. assert (i = 0 \/ i = 1 \/ i = 2) as [->|[->| ->]] by lia; rewrite ?Z.add_0_r; congruence.
Qed.

Lemma compress_iter_ok st enc l : cinv st enc l -> ip st < Z.of_nat (length inp) - 2 ->
  exists o, compress_iter inp in_data out_len st = Some o /\ iter_ok st o.
Proof.
  intros H Hi. pose proof (ci_ip _ _ _ H) as Hip. unfold compress_iter, out_end.
  destruct (next_some (hval st) (ip st)) as [h ->]; [lia|lia|]. cbn [mbind option_bind]. cbn [ip op].
  set (st1 := mkC (set_slot (htab st) (IDX h) (in_data + ip st)) (ip st) (op st) (lit st) h (out st)).
  assert (H1 : cinv st1 enc l).
  { destruct H as [Hh ? ? ? ? ? ? ? ?]. split; try done. apply set_slot_range; [done|]. unfold urange. lia. }
  assert (Hlit : (op st <? out_len) = true -> exists o, (st ← copy_literal inp st1; Some (Continue st)) = Some o /\ iter_ok st o).
  { intros Ho. destruct (copy_literal_ok st1 enc l H1) as (st' & enc' & l' & -> & Hc & Hp & _); [cbn; lia|cbn; lia|].
    eexists. split; [done|]. split; [by exists enc', l'|cbn in Hp; lia]. }
  assert (Helse : exists o, (if op st >=? out_len then Some Return0 else st ← copy_literal inp st1; Some (Continue st)) = Some o /\ iter_ok st o).
  { destruct (Z.geb_spec (op st) out_len); [by exists Return0|]. apply Hlit. lia. }
  change MAX_OFF with 8192. set (ref := htab st (IDX h)). set (off := u64 (in_data + ip st - ref - 1)).
  destruct ((off <? 8192) && (ref >? in_data)) eqn:Hg; [|exact Helse].
  destruct (slot_in_range ref (ip st)) as [Hoff Hr]; [apply H|lia|unfold off in Hg; lia|lia|].
  destruct (rd_Some inp (ref - in_data + 2)) as [r2 Hr2]; [lia|]. destruct (rd_Some inp (ip st + 2)) as [i2 Hi2]; [lia|].
  rewrite Hr2, Hi2. cbn [mbind option_bind]. destruct (Z.eqb_spec r2 i2) as [->|]; [|exact Helse].
  destruct (rd_Some inp (ref - in_data)) as [r0 Hr0]; [lia|]. destruct (rd_Some inp (ref - in_data + 1)) as [r1 Hr1]; [lia|].
  destruct (rd_Some inp (ip st)) as [i0 Hi0]; [lia|]. destruct (rd_Some inp (ip st + 1)) as [i1 Hi1]; [lia|].
  rewrite Hr0, Hr1, Hi0, Hi1. cbn [mbind option_bind]. destruct ((r0 =? i0) && (r1 =? i1)) eqn:He; [|exact Helse].
  apply andb_true_iff in He as [->%Z.eqb_eq ->%Z.eqb_eq].
  destruct (emit_match_ok st1 enc l (ref - in_data) off H1) as (o & Heq & Hok); cbn [ip st1]; [lia|lia|done|unfold off; lia| |].
  - by eapply agree_3.
  - rewrite Heq. exists o. split; [done|]. by destruct o.
Qed.

Lemma compress_loop_ok fuel : forall st enc l, cinv st enc l -> (Z.to_nat (Z.of_nat (length inp) - ip st) <= fuel)%nat ->
  exists r, compress_loop inp in_data out_len fuel st = Some r /\
    match r with
    | None => True
    | Some st' => (exists enc' l', cinv st' enc' l') /\ Z.of_nat (length inp) - 2 <= ip st'
    end.
Proof.
  induction fuel as [|fuel IH]; intros st enc l H Hf; pose proof (ci_ip _ _ _ H) as Hip; cbn [compress_loop]; unfold in_end;
    (destruct (Z.ltb_spec (ip st) (Z.of_nat (length inp) - 2)) as [Hlt|]; [|eexists; split; [done|]; split; [by exists enc, l|lia]]).
  { lia. }
  destruct (compress_iter_ok st enc l H Hlt) as (o & -> & Hok). cbn [mbind option_bind]. destruct o as [|st'|st']; [by exists None|by eexists|].
  destruct Hok as [(enc' & l' & H') Hprog]. apply (IH st' enc' l' H'). lia.
Qed.

(** At most two literals are left for the end. *)
Lemma last_literals_ok fuel : forall st enc l, cinv st enc l -> (Z.to_nat (Z.of_nat (length inp) - ip st) <= fuel)%nat ->
  Z.of_nat (length inp) - ip st <= 2 ->
  op st + (Z.of_nat (length inp) - ip st) + b2z (32 <=? lit st + (Z.of_nat (length inp) - ip st)) <= out_len ->
  exists st' enc' l', last_literals inp fuel st = Some st' /\ cinv st' enc' l' /\ ip st' = Z.of_nat (length inp) /\ op st' <= out_len.
Proof.
  induction fuel as [|fuel IH]; intros st enc l H Hf Hk Hroom; pose proof (ci_ip _ _ _ H) as Hip; cbn [last_literals]; unfold in_end;
    (destruct (Z.ltb_spec (ip st) (Z.of_nat (length inp))) as [Hlt|];
     [|exists st, enc, l; split_and!; [done|done|lia|unfold b2z in Hroom; destruct (_ <=? _); lia]]).
  { lia. }
  pose proof (ci_lit _ _ _ H) as Hlit. pose proof (ci_run _ _ _ H) as Hrun.
  destruct (copy_literal_ok st enc l H Hlt) as (st' & enc' & l' & -> & H' & Hp & Hcase).
  { unfold b2z in Hroom. destruct (_ <=? _); lia. }
  cbn [mbind option_bind]. apply (IH st' enc' l' H'); [lia|lia|]. rewrite Hp. revert Hroom. unfold b2z.
  destruct Hcase as [(? & -> & ->)|(? & -> & ->)];
    repeat match goal with |- context [32 <=? ?e] => destruct (Z.leb_spec 32 e) end; lia.
Qed.

End CompressOk.

(** The compressor never leaves its buffers, and if it succeeds the output is a
    stream that stands for the input. *)
Lemma compress_ok htab in_data inp out : bytes_ok inp -> (2 <= length inp)%nat ->
  (forall i, urange 64 (htab i)) -> 8192 <= in_data -> in_data + Z.of_nat (length inp) <= 2 ^ 64 ->
  exists n out', lzf_compress htab in_data inp out = Some (n, out') /\ 0 <= n <= Z.of_nat (length out) /\
    (n <> 0 -> (Z.to_nat n <= length out')%nat /\ stream (take (Z.to_nat n) out') inp).
Proof.
  intros Hin H2 Hh Hbase Htop. unfold lzf_compress. destruct (_ || _) eqn:Hz; [exists 0, out; split_and!; [done|lia|lia|done]|].
  assert (Hol : 1 <= Z.of_nat (length out)) by lia. clear Hz.
  destruct (frst_some inp 0) as [h ->]; [lia|lia|]. cbn [mbind option_bind].
  assert (H0 : cinv inp (Z.of_nat (length out)) (mkC htab 0 1 0 h out) [] []).
  { apply (cinv_start inp (Z.of_nat (length out)) _ [] out); cbn; try done; [lia|]. apply stream_nil. }
  destruct (compress_loop_ok inp in_data (Z.of_nat (length out)) Hin Hbase Htop (length inp) _ _ _ H0) as (r & -> & Hr); [cbn; lia|].
  cbn [mbind option_bind]. destruct r as [st|]; [|exists 0, out; split_and!; [done|lia|lia|done]].
  destruct Hr as [(enc & l & H) Hip].
  destruct (Z.gtb_spec (op st + 3) (Z.of_nat (length out))) as [|Hroom]; [eexists 0, _; split_and!; [done|lia|lia|done]|].
  destruct (last_literals_ok inp (Z.of_nat (length out)) Hin (length inp) st enc l H) as (st' & enc' & l' & -> & H' & Hip' & Hop'); [lia|lia| |].
  { unfold b2z. destruct (_ <=? _); lia. }
  cbn [mbind option_bind]. pose proof (ci_op _ _ _ _ _ H') as Hop. pose proof (ci_lit _ _ _ _ _ H') as Hlit.
  destruct (flush_ok inp _ Hin st' enc' l' H') as (out1 & enc1 & tail & -> & -> & Hlen & Hl1 & Hs); [lia|]. cbn [mbind option_bind].
  eexists _, _. split; [done|]. split; [unfold b2z in *; destruct (lit st' =? 0) eqn:?; lia|]. intros _.
  rewrite <- Hl1, Nat2Z.id, take_app_length, length_app. split; [lia|]. rewrite Hip', Nat2Z.id, take_ge in Hs by lia. done.
Qed.

(** C24. LZF compression is lossless, whatever the memory the uninitialised hash
    table holds: on an input of at least two bytes the compressor never reads or
    writes out of its buffers, its result is at most the size of the output, and
    when it is not 0 (compression gave up) the decompressor restores exactly the
    input from the result, in an output buffer of any size that is enough. *)
Theorem lzf_roundtrip (htab : Z -> Z) (in_data : Z) (inp out : bytes) : bytes_ok inp -> (2 <= length inp)%nat ->
  (forall i, urange 64 (htab i)) -> 8192 <= in_data -> in_data + Z.of_nat (length inp) <= 2 ^ 64 ->
  exists n out', lzf_compress htab in_data inp out = Some (n, out') /\ 0 <= n <= Z.of_nat (length out) /\
    (n <> 0 -> forall buf, (length inp <= length buf)%nat ->
       lzf_decompress (take (Z.to_nat n) out') buf = Some (Z.of_nat (length inp), inp ++ drop (length inp) buf)).
Proof.
  intros Hin H2 Hh Hbase Htop. destruct (compress_ok htab in_data inp out Hin H2 Hh Hbase Htop) as (n & out' & Heq & Hn & Hs).
  exists n, out'. split_and!; [done|lia|lia|]. intros Hn0 buf Hbuf. destruct (Hs Hn0) as [_ Hstr].
  apply decompress_stream; [done|by eapply stream_enc_bytes|done].
Qed.

(** An input of one byte is read past its end: [FRST] reads two bytes before the
    length is tested. *)
Lemma lzf_compress_one_byte htab in_data x out : (0 < length out)%nat -> lzf_compress htab in_data [x] out = None.
Proof. destruct out; cbn; [lia|done]. Qed.

Lemma lzf_roundtrip_witness :
  exists n out', lzf_compress (fun _ => 12345) 65536 sample_text (replicate 40 0) = Some (n, out') /\
    0 <= n <= Z.of_nat (length (replicate 40 0)) /\
    (n <> 0 -> forall buf, (length sample_text <= length buf)%nat ->
       lzf_decompress (take (Z.to_nat n) out') buf = Some (Z.of_nat (length sample_text), sample_text ++ drop (length sample_text) buf)).
Proof.
  apply (lzf_roundtrip (fun _ => 12345) 65536 sample_text (replicate 40 0)); [by repeat constructor|cbn; lia|done|done|done].
Defined.

End Lzf.
