(* ===== verification/Sds.v ===== *)
(** Simple dynamic strings: the allocation, header and update functions of
    sds.c and sds.h.

    A string has a header, of one of five types that differ by the width of the
    length and allocation fields, and a buffer with room after the string and a
    null byte at its end.  The theorem is that, whatever sizes the allocator
    gives and whatever new memory holds, any sequence of operations computes on
    the contents what the corresponding functions on byte strings compute, with
    no access out of the buffer, no truncated field and no failed assertion. *)

From S2P Require Import Prelude.

Module Sds.

Inductive sds_type := SDS_TYPE_5 | SDS_TYPE_8 | SDS_TYPE_16 | SDS_TYPE_32 | SDS_TYPE_64.

#[global] Instance sds_type_eq_dec : EqDecision sds_type.
Proof. solve_decision. Defined.

(** The number of a type, and the width of its fields. *)
Definition type_num (t : sds_type) : Z :=
  match t with SDS_TYPE_5 => 0 | SDS_TYPE_8 => 1 | SDS_TYPE_16 => 2 | SDS_TYPE_32 => 3 | SDS_TYPE_64 => 4 end.

Definition field_bits (t : sds_type) : Z :=
  match t with SDS_TYPE_5 => 5 | SDS_TYPE_8 => 8 | SDS_TYPE_16 => 16 | SDS_TYPE_32 => 32 | SDS_TYPE_64 => 64 end.

Definition sdsHdrSize (t : sds_type) : Z :=
  match t with SDS_TYPE_5 => 1 | SDS_TYPE_8 => 3 | SDS_TYPE_16 => 5 | SDS_TYPE_32 => 9 | SDS_TYPE_64 => 17 end.

Definition SDS_MAX_PREALLOC : Z := 1024 * 1024.

(** A string: the type in its flags, the [len] and [alloc] fields of its header
    ([alloc] has no meaning in type 5) and the memory from [s] to the end of
    the allocation. *)
Record sds := mkSds { sdsType : sds_type; hdr_len : Z; hdr_alloc : Z; buf : bytes }.

Definition sdslen (s : sds) : Z := hdr_len s.

Definition sdsavail (s : sds) : Z :=
  match sdsType s with
  | SDS_TYPE_5 => 0
  | SDS_TYPE_32 => u32 (hdr_alloc s - hdr_len s)
  | _ => u64 (hdr_alloc s - hdr_len s)
  end.

Definition sdsalloc (s : sds) : Z :=
  match sdsType s with SDS_TYPE_5 => hdr_len s | _ => hdr_alloc s end.

Definition sdssetlen (s : sds) (newlen : Z) : sds :=
  mkSds (sdsType s) (uwrap (field_bits (sdsType s)) newlen) (hdr_alloc s) (buf s).

Definition sdssetalloc (s : sds) (newlen : Z) : sds :=
  match sdsType s with
  | SDS_TYPE_5 => s
  | t => mkSds t (hdr_len s) (uwrap (field_bits t) newlen) (buf s)
  end.

Definition sdsinclen (s : sds) (inc : Z) : sds := sdssetlen s (hdr_len s + inc).

Definition with_buf (s : sds) (b : bytes) : sds := mkSds (sdsType s) (hdr_len s) (hdr_alloc s) b.

(** [s[i] = b], and [memcpy(s + i, t, len)]: out of the buffer is [None]. *)
Definition set_byte (s : sds) (i b : Z) : option sds :=
  _ ← guard (0 <=? i); m ← store (buf s) (Z.to_nat i) [b]; Some (with_buf s m).
Definition put_bytes (s : sds) (i : Z) (t : bytes) : option sds :=
  _ ← guard (0 <=? i); m ← store (buf s) (Z.to_nat i) t; Some (with_buf s m).

Definition sdsReqType (string_size : Z) : sds_type :=
  if string_size <? Z.shiftl 1 5 then SDS_TYPE_5
  else if string_size <=? Z.shiftl 1 8 - sdsHdrSize SDS_TYPE_8 - 1 then SDS_TYPE_8
  else if string_size <=? Z.shiftl 1 16 - sdsHdrSize SDS_TYPE_16 - 1 then SDS_TYPE_16
  else if string_size <=? Z.shiftl 1 32 - sdsHdrSize SDS_TYPE_32 - 1 then SDS_TYPE_32
  else SDS_TYPE_64.

Definition sdsTypeMaxSize (t : sds_type) : Z :=
  match t with
  | SDS_TYPE_5 => Z.shiftl 1 5 - 1
  | SDS_TYPE_8 => Z.shiftl 1 8 - 1
  | SDS_TYPE_16 => Z.shiftl 1 16 - 1
  | SDS_TYPE_32 => Z.shiftl 1 32 - 1
  | SDS_TYPE_64 => u64 (-1)
  end.

(** The new type and header length, and whether they changed. *)
Definition adjustTypeIfNeeded (t : sds_type) (hdrlen bufsize : Z) : sds_type * Z * bool :=
  let usable := u64 (bufsize - hdrlen - 1) in
  if negb (bool_decide (t = SDS_TYPE_5)) && (usable >? sdsTypeMaxSize t) then
    let t := sdsReqType usable in (t, sdsHdrSize t, true)
  else (t, hdrlen, false).

Definition sdsReqSize (len : Z) (t : sds_type) : Z := u64 (len + sdsHdrSize t + 1).

(** What a string is created from: NULL, SDS_NOINIT or bytes. *)
Inductive init := Null | Noinit | Bytes (b : bytes).

Section Alloc.
Context `{A : Allocator}.

(** [s_malloc_usable]: the size of the block; its contents are [junk]. *)
Definition malloc_usable (size : Z) : Z := Z.of_nat (usable (Z.to_nat size)).

(** [buf] is the memory the string is placed in, and [initlen] is for NULL and
    SDS_NOINIT. *)
Definition sdsnewplacement (mem : bytes) (t : sds_type) (i : init) (initlen : Z) : option sds :=
  let bufsize := Z.of_nat (length mem) in
  _ ← guard (bufsize >=? sdsReqSize initlen t);
  let hdrlen := sdsHdrSize t in
  let usable := bufsize - hdrlen - 1 in
  let s := mkSds t (uwrap (field_bits t) initlen) (uwrap (field_bits t) usable) (drop (Z.to_nat hdrlen) mem) in
  s ← match i with
      | Noinit => Some s
      | Null => put_bytes s 0 (replicate (Z.to_nat initlen) 0)
      | Bytes b => put_bytes s 0 b
      end;
  set_byte s initlen 0.

Definition init_len (i : init) (n : Z) : Z := match i with Bytes b => Z.of_nat (length b) | _ => n end.

(** The inner [None] is NULL: [alloc_ok] tells whether [s_trymalloc_usable] succeeds. *)
Definition _sdsnewlen (i : init) (n : Z) (alloc_ok : bool) : option (option sds) :=
  let initlen := init_len i n in
  let t := sdsReqType initlen in
  let t := if bool_decide (t = SDS_TYPE_5) && (initlen =? 0) then SDS_TYPE_8 else t in
  let hdrlen := sdsHdrSize t in
  _ ← guard (u64 (initlen + hdrlen + 1) >? initlen);
  if negb alloc_ok then Some None
  else
    let bufsize := malloc_usable (hdrlen + initlen + 1) in
    let '(t, hdrlen, _) := adjustTypeIfNeeded t hdrlen bufsize in
    s ← sdsnewplacement (junk (Z.to_nat bufsize)) t i initlen;
    Some (Some s).

Definition sdsnewlen (i : init) (n : Z) : option sds :=
  r ← _sdsnewlen i n true; r.

Definition sdsempty : option sds := sdsnewlen (Bytes []) 0.
Definition sdsdup (s : sds) : option sds := sdsnewlen (Bytes (take (Z.to_nat (sdslen s)) (buf s))) 0.

Definition sdsclear (s : sds) : option sds := set_byte (sdssetlen s 0) 0 0.

(** The first null byte: [strlen]. *)
Fixpoint strlen (m : bytes) : option Z :=
  match m with [] => None | b :: m => if b =? 0 then Some 0 else Z.succ <$> strlen m end.

Definition sdsupdatelen (s : sds) : option sds := reallen ← strlen (buf s); Some (sdssetlen s reallen).

(** [s_realloc_usable] to [bufsize] bytes: what is after the header. *)
Definition realloc_buf (b : bytes) (n : nat) : bytes := take n (b ++ junk n).

(** [memmove] of the string when the header grows by [shift] in the same block. *)
Definition shift_buf (b : bytes) (len shift : Z) : option bytes :=
  let n := Z.to_nat (len + 1) in
  _ ← guard ((0 <=? shift) && (shift + len + 1 <=? Z.of_nat (length b)));
  Some (take n b ++ drop (Z.to_nat shift + n) b).

(** [if (use_realloc) { ... } else { ... }]: the string in its new block. *)
Definition grow_block (s : sds) (len : Z) (t t' : sds_type) (adjusted : bool) (bufsize : Z) : option sds :=
  if bool_decide (sdsType s = t) then
    let b := realloc_buf (buf s) (Z.to_nat (bufsize - sdsHdrSize t)) in
    if adjusted then
      b ← shift_buf b len (sdsHdrSize t' - sdsHdrSize t);
      Some (sdssetlen (mkSds t' (hdr_len s) (hdr_alloc s) b) len)
    else Some (with_buf s b)
  else
    b ← load (buf s) 0 (Z.to_nat (len + 1));
    b ← store (junk (Z.to_nat (bufsize - sdsHdrSize t'))) 0 b;
    Some (sdssetlen (mkSds t' 0 0 b) len).

Definition _sdsMakeRoomFor (s : sds) (addlen : Z) (greedy : bool) : option sds :=
  let avail := sdsavail s in
  if avail >=? addlen then Some s
  else
    let len := sdslen s in
    let reqlen := u64 (len + addlen) in
    _ ← guard (reqlen >? len);
    let newlen :=
      if greedy then if reqlen <? SDS_MAX_PREALLOC then u64 (reqlen * 2) else u64 (reqlen + SDS_MAX_PREALLOC)
      else reqlen in
    let t := sdsReqType newlen in
    let t := if bool_decide (t = SDS_TYPE_5) then SDS_TYPE_8 else t in
    let hdrlen := sdsHdrSize t in
    _ ← guard (u64 (hdrlen + newlen + 1) >? reqlen);
    let bufsize := malloc_usable (hdrlen + newlen + 1) in
    let '(t', hdrlen', adjusted) := adjustTypeIfNeeded t hdrlen bufsize in
    s ← grow_block s len t t' adjusted bufsize;
    let usable := u64 (bufsize - hdrlen' - 1) in
    _ ← guard (bool_decide (t' = SDS_TYPE_5) || (usable <=? sdsTypeMaxSize t'));
    Some (sdssetalloc s usable).

Definition sdsMakeRoomFor (s : sds) (addlen : Z) : option sds := _sdsMakeRoomFor s addlen true.
Definition sdsMakeRoomForNonGreedy (s : sds) (addlen : Z) : option sds := _sdsMakeRoomFor s addlen false.

Definition sdsAllocSize (s : sds) : Z := sdsHdrSize (sdsType s) + sdsalloc s + 1.

(** [nallocx], for builds with jemalloc: the size of a block of [size] bytes. *)
Definition sdsResize (nallocx : option (Z -> Z)) (s : sds) (size : Z) (would_regrow : bool) : option sds :=
  let oldtype := sdsType s in
  let oldhdrlen := sdsHdrSize oldtype in
  let len := sdslen s in
  if sdsalloc s =? size then Some s
  else
    let len := if size <? len then size else len in
    let t := sdsReqType size in
    let t := if would_regrow && bool_decide (t = SDS_TYPE_5) then SDS_TYPE_8 else t in
    let hdrlen := sdsHdrSize t in
    let use_realloc := bool_decide (oldtype = t) ||
      ((type_num t <? type_num oldtype) && (type_num t >? type_num SDS_TYPE_8)) in
    let newlen := if use_realloc then u64 (oldhdrlen + size + 1) else u64 (hdrlen + size + 1) in
    '(s, newsize) ← (if use_realloc then
        let alloc_already_optimal := match nallocx with Some f => f newlen =? sdsAllocSize s | None => false end in
        if alloc_already_optimal then Some (s, u64 (sdsAllocSize s - oldhdrlen - 1))
        else
          let bufsize := malloc_usable newlen in
          let b := realloc_buf (buf s) (Z.to_nat (bufsize - oldhdrlen)) in
          let '(t', hdrlen', adjusted) := adjustTypeIfNeeded oldtype oldhdrlen bufsize in
          s ← (if (adjusted : bool) then
              b ← shift_buf b len (hdrlen' - oldhdrlen);
              Some (sdssetlen (mkSds t' (hdr_len s) (hdr_alloc s) b) len)
            else Some (with_buf s b));
          Some (s, u64 (bufsize - hdrlen' - 1))
      else
        let bufsize := malloc_usable newlen in
        let '(t', hdrlen', _) := adjustTypeIfNeeded t hdrlen bufsize in
        b ← load (buf s) 0 (Z.to_nat (len + 1));
        b ← store (junk (Z.to_nat (bufsize - hdrlen'))) 0 b;
        Some (mkSds t' 0 0 b, u64 (bufsize - hdrlen' - 1)));
    s ← set_byte s len 0;
    Some (sdssetalloc (sdssetlen s len) newsize).

Definition sdsRemoveFreeSpace (nallocx : option (Z -> Z)) (s : sds) (would_regrow : bool) : option sds :=
  sdsResize nallocx s (sdslen s) would_regrow.

Definition sdsIncrLen (s : sds) (incr : Z) : option sds :=
  let len := hdr_len s in
  _ ← guard (match sdsType s with
      | SDS_TYPE_5 => (incr >? 0) && (len + incr <? 32) || (incr <? 0) && (len >=? u32 (- incr))
      | SDS_TYPE_32 => (incr >=? 0) && (u32 (hdr_alloc s - len) >=? u32 incr) || (incr <? 0) && (len >=? u32 (- incr))
      | SDS_TYPE_64 => (incr >=? 0) && (u64 (hdr_alloc s - len) >=? u64 incr) || (incr <? 0) && (len >=? u64 (- incr))
      | _ => (incr >=? 0) && (hdr_alloc s - len >=? incr) || (incr <? 0) && (len >=? u32 (- incr))
      end);
  let s := sdssetlen s (len + incr) in
  set_byte s (hdr_len s) 0.

Definition sdsgrowzero (s : sds) (len : Z) : option sds :=
  let curlen := sdslen s in
  if len <=? curlen then Some s
  else
    s ← sdsMakeRoomFor s (len - curlen);
    s ← put_bytes s curlen (replicate (Z.to_nat (len - curlen + 1)) 0);
    Some (sdssetlen s len).

Definition sdscatlen (s : sds) (t : bytes) : option sds :=
  let len := Z.of_nat (length t) in
  let curlen := sdslen s in
  s ← sdsMakeRoomFor s len;
  s ← put_bytes s curlen t;
  set_byte (sdssetlen s (curlen + len)) (curlen + len) 0.

Definition sdscatsds (s t : sds) : option sds := sdscatlen s (take (Z.to_nat (sdslen t)) (buf t)).

Definition sdscpylen (s : sds) (t : bytes) : option sds :=
  let len := Z.of_nat (length t) in
  s ← (if sdsalloc s <? len then sdsMakeRoomFor s (u64 (len - sdslen s)) else Some s);
  s ← put_bytes s 0 t;
  s ← set_byte s len 0;
  Some (sdssetlen s len).

End Alloc.

(** ** Changes in place *)

(** [strchr(cset, c)]: the terminator of [cset] is found too. *)
Definition strchr (cset : bytes) (c : Z) : bool := (c =? 0) || bool_decide (c ∈ cset).

(** [while(sp <= end && strchr(cset, *sp)) sp++;] *)
Fixpoint trim_left (fuel : nat) (m : bytes) (cset : bytes) (sp end_ : Z) : option Z :=
  if sp <=? end_ then
    c ← m !! Z.to_nat sp;
    if strchr cset c then match fuel with O => None | S fuel => trim_left fuel m cset (sp + 1) end_ end
    else Some sp
  else Some sp.

(** [while(ep > sp && strchr(cset, *ep)) ep--;] *)
Fixpoint trim_right (fuel : nat) (m : bytes) (cset : bytes) (sp ep : Z) : option Z :=
  if ep >? sp then
    c ← m !! Z.to_nat ep;
    if strchr cset c then match fuel with O => None | S fuel => trim_right fuel m cset sp (ep - 1) end
    else Some ep
  else Some ep.

Definition sdstrim (s : sds) (cset : bytes) : option sds :=
  let end_ := sdslen s - 1 in
  sp ← trim_left (Z.to_nat (sdslen s)) (buf s) cset 0 end_;
  ep ← trim_right (Z.to_nat (sdslen s)) (buf s) cset sp end_;
  let len := ep - sp + 1 in
  s ← (if negb (sp =? 0) then b ← memmove (buf s) 0 (Z.to_nat sp) (Z.to_nat len); Some (with_buf s b) else Some s);
  s ← set_byte s len 0;
  Some (sdssetlen s len).

Definition sdssubstr (s : sds) (start len : Z) : option sds :=
  let oldlen := sdslen s in
  let '(start, len) := if start >=? oldlen then (0, 0) else (start, len) in
  let len := if len >? oldlen - start then oldlen - start else len in
  s ← (if negb (len =? 0) then b ← memmove (buf s) 0 (Z.to_nat start) (Z.to_nat len); Some (with_buf s b) else Some s);
  s ← set_byte s len 0;
  Some (sdssetlen s len).

(** An overflow of [end - start + 1] is [None]. *)
Definition sdsrange (s : sds) (start end_ : Z) : option sds :=
  let len := sdslen s in
  if len =? 0 then Some s
  else
    let start := if start <? 0 then s64 (len + start) else start in
    let end_ := if end_ <? 0 then s64 (len + end_) else end_ in
    newlen ← (if start >? end_ then Some 0 else _ ← guard (end_ - start + 1 <? 2 ^ 63); Some (end_ - start + 1));
    sdssubstr s (u64 start) newlen.

(** [tolower] and [toupper] in the C locale, on every byte of the string. *)
Definition tolower (c : Z) : Z := if (65 <=? c) && (c <=? 90) then c + 32 else c.
Definition toupper (c : Z) : Z := if (97 <=? c) && (c <=? 122) then c - 32 else c.

Definition map_bytes (f : Z -> Z) (s : sds) : option sds :=
  let n := Z.to_nat (sdslen s) in
  b ← load (buf s) 0 n;
  put_bytes s 0 (map f b).
Definition sdstolower : sds -> option sds := map_bytes tolower.
Definition sdstoupper : sds -> option sds := map_bytes toupper.

(** [memcmp] on strings of the same length. *)
Fixpoint memcmp (a b : bytes) : Z :=
  match a, b with x :: a, y :: b => if x =? y then memcmp a b else x - y | _, _ => 0 end.

Definition sdscmp (s1 s2 : sds) : option Z :=
  let l1 := sdslen s1 in
  let l2 := sdslen s2 in
  let minlen := Z.to_nat (if l1 <? l2 then l1 else l2) in
  a ← load (buf s1) 0 minlen;
  b ← load (buf s2) 0 minlen;
  let cmp := memcmp a b in
  if cmp =? 0 then Some (if l1 >? l2 then 1 else if l1 <? l2 then -1 else 0) else Some cmp.

End Sds.
