(* ===== verification/SdsSpec.v ===== *)
(** Strings compute on byte strings: the correctness of the update functions of
    sds.c. *)

From S2P Require Import Prelude Sds.

Module SdsSpec.
Import Sds.

(** * Types and sizes *)

(** The longest string [sdsReqType] puts in a type. *)
Definition type_limit (t : sds_type) : Z :=
  match t with
  | SDS_TYPE_5 => 31 | SDS_TYPE_8 => 252 | SDS_TYPE_16 => 65530 | SDS_TYPE_32 => 2 ^ 32 - 10 | SDS_TYPE_64 => 2 ^ 63 - 1
  end.

Lemma reqType_limit n : 0 <= n < 2 ^ 63 -> n <= type_limit (sdsReqType n).
Proof.
  intros Hn. unfold sdsReqType. cbn [sdsHdrSize]. rewrite !Z.shiftl_1_l.
  destruct (Z.ltb_spec n (2 ^ 5)); [cbn; lia|]. destruct (Z.leb_spec n (2 ^ 8 - 3 - 1)); [cbn; lia|].
  destruct (Z.leb_spec n (2 ^ 16 - 5 - 1)); [cbn; lia|]. destruct (Z.leb_spec n (2 ^ 32 - 9 - 1)); cbn; lia.
Qed.

Lemma reqType_cases u : 32 <= u ->
  (sdsReqType u = SDS_TYPE_8 /\ u <= 252) \/ (sdsReqType u = SDS_TYPE_16 /\ 252 < u <= 65530) \/
  (sdsReqType u = SDS_TYPE_32 /\ 65530 < u <= 2 ^ 32 - 10) \/ (sdsReqType u = SDS_TYPE_64 /\ 2 ^ 32 - 10 < u).
Proof.
  intros Hu. unfold sdsReqType. cbn [sdsHdrSize]. rewrite !Z.shiftl_1_l.
  destruct (Z.ltb_spec u (2 ^ 5)); [lia|]. destruct (Z.leb_spec u (2 ^ 8 - 3 - 1)); [left; split; [done|lia]|right].
  destruct (Z.leb_spec u (2 ^ 16 - 5 - 1)); [left; split; [done|lia]|right].
  destruct (Z.leb_spec u (2 ^ 32 - 9 - 1)); [left; split; [done|lia]|right; split; [done|lia]].
Qed.

(** A larger string has a type that is at least as large. *)
Lemma type_num_limit t t' : type_num t <= type_num t' -> type_limit t <= type_limit t'.
Proof. destruct t, t'; cbn; lia. Qed.

Lemma max_size t : sdsTypeMaxSize t = match t with
  | SDS_TYPE_5 => 31 | SDS_TYPE_8 => 255 | SDS_TYPE_16 => 65535 | SDS_TYPE_32 => 2 ^ 32 - 1 | SDS_TYPE_64 => 2 ^ 64 - 1 end.
Proof. by destruct t. Qed.

Lemma hdr_bounds t : 1 <= sdsHdrSize t <= 17.
Proof. destruct t; cbn; lia. Qed.

(** [adjustTypeIfNeeded]: the string still fits after the larger header, and the
    room fits in the fields. *)
Lemma adjust_ok t n bufsize : 0 <= n <= type_limit t -> sdsHdrSize t + n + 1 <= bufsize < 2 ^ 63 ->
  let '(t', h', adjusted) := adjustTypeIfNeeded t (sdsHdrSize t) bufsize in
  h' = sdsHdrSize t' /\ n <= bufsize - h' - 1 /\ n < 2 ^ field_bits t' /\
  (t <> SDS_TYPE_5 -> t' <> SDS_TYPE_5 /\ bufsize - h' - 1 <= sdsTypeMaxSize t') /\
  (t = SDS_TYPE_5 -> t' = t) /\ (if adjusted then sdsHdrSize t <= h' else t' = t).
Proof.
  intros Hn Hb. pose proof (hdr_bounds t) as Hh. unfold adjustTypeIfNeeded.
  rewrite uwrap_small by (unfold urange; lia). destruct (decide (t = SDS_TYPE_5)) as [->|Ht].
  { cbn [bool_decide andb negb]. rewrite bool_decide_eq_true_2 by done. cbn in *. split_and!; [done|lia|lia|done|done|done]. }
  rewrite bool_decide_eq_false_2 by done. cbn [negb andb].
  destruct (Z.gtb_spec (bufsize - sdsHdrSize t - 1) (sdsTypeMaxSize t)) as [Hgt|Hle].
  - set (u := bufsize - sdsHdrSize t - 1) in *. assert (Hu : 0 <= u < 2 ^ 63) by lia.
    assert (H255 : 255 <= sdsTypeMaxSize t) by (by destruct t).
    destruct (reqType_cases u ltac:(lia)) as [[-> Hc]|[[-> Hc]|[[-> Hc]|[-> Hc]]]]; rewrite ?max_size in *; split_and!; try done; unfold u in *;
      destruct t; cbn in *; try lia; (intros _; split; [done|lia]).
  - split_and!; [done|lia| |done|done|done]. rewrite max_size in *. destruct t; cbn in *; lia.
Qed.

(** * What a string stands for *)

(** The string [s] holds [v]: a null byte follows it, the header is right, and
    the room its header tells is in the buffer. *)
Record rep (s : sds) (v : bytes) : Prop := {
  rp_buf : exists tail, buf s = v ++ 0 :: tail;
  rp_len : hdr_len s = Z.of_nat (length v);
  rp_field : Z.of_nat (length v) < 2 ^ field_bits (sdsType s);
  rp_alloc : sdsType s <> SDS_TYPE_5 ->
    Z.of_nat (length v) <= hdr_alloc s < Z.of_nat (length (buf s)) /\ hdr_alloc s <= sdsTypeMaxSize (sdsType s);
  rp_size : Z.of_nat (length (buf s)) < 2 ^ 63
}.

(** Room for [n] bytes in all, and the null byte. *)
Definition room (s : sds) (n : Z) : Prop :=
  n < Z.of_nat (length (buf s)) /\ n < 2 ^ field_bits (sdsType s) /\ (sdsType s <> SDS_TYPE_5 -> n <= hdr_alloc s).

Definition max_len : Z := 2 ^ 60.

Lemma rep_room s v : rep s v -> room s (Z.of_nat (length v)).
Proof.
  intros [[tail Hb] Hl Hf Ha Hs]. split_and!; [|done|intros Ht; by destruct (Ha Ht) as [[? _] _]].
  rewrite Hb, length_app. cbn. lia.
Qed.

Lemma rep_room_le s v n : rep s v -> n <= Z.of_nat (length v) -> room s n.
Proof.
  intros H Hn. destruct (rep_room s v H) as (? & ? & H3). split_and!; [lia|lia|]. intros Ht. specialize (H3 Ht). lia.
Qed.

(** A string with [v] and the null byte written at its start. *)
Lemma rep_intro s v tail : Z.of_nat (length v) < 2 ^ field_bits (sdsType s) -> room s (Z.of_nat (length v)) ->
  Z.of_nat (length (buf s)) < 2 ^ 63 -> (sdsType s <> SDS_TYPE_5 -> hdr_alloc s < Z.of_nat (length (buf s)) /\ hdr_alloc s <= sdsTypeMaxSize (sdsType s)) ->
  buf s = v ++ 0 :: tail -> rep (sdssetlen s (Z.of_nat (length v))) v.
Proof.
  intros Hf (H1 & H2 & H3) Hs Ha Hb. unfold sdssetlen. split; cbn [buf hdr_len sdsType hdr_alloc].
  - by exists tail.
  - apply uwrap_small. unfold urange. lia.
  - done.
  - intros Ht. specialize (H3 Ht). specialize (Ha Ht). lia.
  - done.
Qed.

Lemma put_bytes_ok s i t : 0 <= i -> i + Z.of_nat (length t) <= Z.of_nat (length (buf s)) ->
  put_bytes s i t = Some (with_buf s (take (Z.to_nat i) (buf s) ++ t ++ drop (Z.to_nat i + length t) (buf s))).
Proof.
  intros Hi Hl. unfold put_bytes. rewrite (proj2 (Z.leb_le _ _)) by done. cbn [guard mbind option_bind].
  by rewrite store_Some by lia.
Qed.

Lemma set_byte_ok s i b : 0 <= i < Z.of_nat (length (buf s)) ->
  set_byte s i b = Some (with_buf s (take (Z.to_nat i) (buf s) ++ b :: drop (S (Z.to_nat i)) (buf s))).
Proof.
  intros Hi. unfold set_byte. rewrite (proj2 (Z.leb_le _ _)) by lia. cbn [guard mbind option_bind].
  rewrite store_Some by (cbn; lia). cbn. by rewrite Nat.add_1_r.
Qed.

(** [memcpy(s + i, t, n); s\[i + n\] = 0; sdssetlen(s, i + n)] when [s] starts with [v] of length [i]. *)
Lemma write_ok s v t tail0 : buf s = v ++ tail0 -> room s (Z.of_nat (length (v ++ t))) ->
  Z.of_nat (length (buf s)) < 2 ^ 63 -> (sdsType s <> SDS_TYPE_5 -> hdr_alloc s < Z.of_nat (length (buf s)) /\ hdr_alloc s <= sdsTypeMaxSize (sdsType s)) ->
  exists s1 s2, put_bytes s (Z.of_nat (length v)) t = Some s1 /\
    set_byte s1 (Z.of_nat (length (v ++ t))) 0 = Some s2 /\
    rep (sdssetlen s2 (Z.of_nat (length (v ++ t)))) (v ++ t) /\ sdsType s1 = sdsType s /\ hdr_alloc s1 = hdr_alloc s.
Proof.
  intros Hb (H1 & H2 & H3) Hs Ha. rewrite length_app in H1.
  rewrite put_bytes_ok by lia. eexists. eexists. split; [done|].
  rewrite Nat2Z.id. set (b1 := take _ _ ++ _). assert (E1 : b1 = (v ++ t) ++ drop (length v + length t) (buf s)).
  { unfold b1. rewrite <- app_assoc. f_equal. by rewrite Hb, take_app_length. }
  assert (Hl1 : length b1 = length (buf s)) by (rewrite E1, !length_app, length_drop; lia).
  rewrite set_byte_ok by (cbn; rewrite length_app; lia). cbn [buf with_buf]. split; [done|]. split_and!; [|done|done].
  rewrite Nat2Z.id. assert (E2 : take (length (v ++ t)) b1 ++ 0 :: drop (S (length (v ++ t))) b1 = (v ++ t) ++ 0 :: drop (S (length (v ++ t))) b1).
  { f_equal. by rewrite E1, take_app_length. }
  assert (Hl2 : length (take (length (v ++ t)) b1 ++ 0 :: drop (S (length (v ++ t))) b1) = length (buf s)).
  { pose proof (length_app v t) as Hn. rewrite (length_app (take _ _)), length_take. cbn [length]. rewrite length_drop, Hl1. lia. }
  eapply rep_intro; cbn [buf with_buf sdsType hdr_alloc]; fold b1; rewrite ?Hl2; try done.
  unfold room. cbn [buf with_buf sdsType hdr_alloc]. fold b1. rewrite Hl2. split_and!; [rewrite length_app; lia|done|done].
Qed.

(** * Making room *)

Section Alloc.
Context `{A : Allocator}.
Hypothesis usable_bound : forall n, Z.of_nat n <= 2 ^ 62 -> Z.of_nat (usable n) < 2 ^ 63.

Lemma malloc_usable_ok n : 0 <= n <= 2 ^ 62 -> n <= malloc_usable n < 2 ^ 63.
Proof.
  intros Hn. unfold malloc_usable. pose proof (usable_ge (Z.to_nat n)). pose proof (usable_bound (Z.to_nat n) ltac:(lia)). lia.
Qed.

Lemma realloc_keeps v x tail n : (length v < n)%nat ->
  exists tail', realloc_buf (v ++ x :: tail) n = v ++ x :: tail' /\ length (realloc_buf (v ++ x :: tail) n) = n.
Proof.
  intros Hn. unfold realloc_buf. rewrite length_take, length_app, junk_length. cbn [length].
  rewrite <- app_assoc, take_app_ge by lia. cbn [app]. destruct (n - length v)%nat as [|k] eqn:Hk; [lia|].
  cbn [take]. eexists. split; [done|lia].
Qed.

Lemma shift_keeps v x tail shift : 0 <= shift -> shift + Z.of_nat (length v) + 1 <= Z.of_nat (length (v ++ x :: tail)) ->
  exists tail', shift_buf (v ++ x :: tail) (Z.of_nat (length v)) shift = Some (v ++ x :: tail') /\
    Z.of_nat (length (v ++ x :: tail')) = Z.of_nat (length (v ++ x :: tail)) - shift.
Proof.
  intros Hs Hl. unfold shift_buf. rewrite (proj2 (Z.leb_le 0 shift)), (proj2 (Z.leb_le (shift + _ + 1) _)) by lia.
  cbn [andb guard mbind option_bind]. replace (Z.to_nat (Z.of_nat (length v) + 1)) with (length v + 1)%nat by lia.
  rewrite take_app_add. cbn [take]. rewrite take_0, <- app_assoc. cbn [app]. eexists. split; [done|].
  rewrite (length_app v (x :: drop _ _)). cbn [length]. rewrite length_drop. lia.
Qed.

(** The new block holds the string, and its header is set. *)
Lemma fresh_block_ok s v tail usable n : buf s = v ++ 0 :: tail -> hdr_len s = Z.of_nat (length v) -> sdsType s <> SDS_TYPE_5 ->
  usable = Z.of_nat (length (buf s)) - 1 -> Z.of_nat (length v) <= n <= usable -> usable <= sdsTypeMaxSize (sdsType s) -> usable < 2 ^ 62 * 2 - 1 ->
  rep (sdssetalloc s usable) v /\ room (sdssetalloc s usable) n.
Proof.
  intros Hb Hl Ht Hu Hn Hm Hs. unfold sdssetalloc. destruct s as [t l a b]. cbn [sdsType buf hdr_len] in *.
  assert (E : uwrap (field_bits t) usable = usable) by (apply uwrap_small; rewrite max_size in Hm; unfold urange; destruct t; cbn in *; lia).
  assert (Hf : n < 2 ^ field_bits t) by (rewrite max_size in Hm; destruct t; cbn in *; lia).
  destruct t; [done|..]; rewrite E; (split; [split; cbn [buf hdr_len sdsType hdr_alloc]; [by exists tail|done|lia|intros _; lia|lia]
    |unfold room; cbn [buf sdsType hdr_alloc]; split_and!; [lia|done|intros _; lia]]).
Qed.

(** There is room already. *)
Lemma avail_room s v add : rep s v -> 0 <= add <= sdsavail s -> room s (Z.of_nat (length v) + add).
Proof.
  intros H Ha. pose proof (rep_room s v H) as (R1 & R2 & R3). destruct H as [Hb Hl Hf Hal Hs]. unfold sdsavail in Ha.
  rewrite max_size in Hal.
  destruct s as [t l a b]; cbn [sdsType hdr_len hdr_alloc buf] in *. unfold room; cbn [sdsType hdr_len hdr_alloc buf].
  destruct t; [split_and!; [lia|lia|done]|..]; (destruct Hal as [Hal1 Hal2]; [done|]);
    rewrite uwrap_small in Ha by (unfold urange; lia); cbn [field_bits] in *; split_and!; lia.
Qed.

(** The bytes copied to a new block of another type. *)
Lemma copy_block v x tail n : (length v < n)%nat ->
  exists b tail', load (v ++ x :: tail) 0 (length v + 1) = Some b /\ store (junk n) 0 b = Some (v ++ x :: tail') /\
    length (v ++ x :: tail') = n.
Proof.
  intros Hn. assert (Hl : length (v ++ [x]) = S (length v)) by (rewrite length_app; cbn; lia).
  exists (v ++ [x]), (drop (S (length v)) (junk n)). split_and!.
  - rewrite load_Some by (rewrite length_app; cbn; lia). rewrite drop_0, take_app_add. cbn [take]. by rewrite take_0.
  - rewrite store_Some by (rewrite junk_length, Hl; lia). cbn [take app]. by rewrite <- app_assoc, Hl.
  - rewrite length_app. cbn [length]. rewrite length_drop, junk_length. lia.
Qed.

Lemma grow_block_ok s v t t' (adjusted : bool) bs : rep s v -> (if adjusted then sdsHdrSize t <= sdsHdrSize t' else t' = t) ->
  Z.of_nat (length v) < bs - sdsHdrSize t -> Z.of_nat (length v) < bs - sdsHdrSize t' -> Z.of_nat (length v) < 2 ^ field_bits t' ->
  exists s1 tail1, grow_block s (Z.of_nat (length v)) t t' adjusted bs = Some s1 /\
    buf s1 = v ++ 0 :: tail1 /\ hdr_len s1 = Z.of_nat (length v) /\ sdsType s1 = t' /\
    Z.of_nat (length (buf s1)) = bs - sdsHdrSize t'.
Proof.
  intros [[tail Hb] Hl Hf Hal Hs] Hadj Hr Hr' Hf'.
  assert (Hlen : forall t1 x y b, t1 = t' -> hdr_len (sdssetlen (mkSds t1 x y b) (Z.of_nat (length v))) = Z.of_nat (length v)).
  { intros t1 x y b ->. cbn. apply uwrap_small. unfold urange. lia. }
  unfold grow_block. rewrite Hb. case_bool_decide as Et.
  - destruct (realloc_keeps v 0 tail (Z.to_nat (bs - sdsHdrSize t)) ltac:(lia)) as (tail' & Hre & Hrl). rewrite Hre in *. cbv zeta.
    destruct adjusted.
    + destruct (shift_keeps v 0 tail' (sdsHdrSize t' - sdsHdrSize t)) as (tail2 & -> & Hsl); [lia|lia|]. cbn [mbind option_bind].
      eexists _, tail2. split; [done|]. split_and!; [done|by apply Hlen|done|cbn [buf sdssetlen]; lia].
    + eexists _, tail'. split; [done|]. cbn [buf with_buf hdr_len sdsType]. subst t'. split_and!; [done..|lia].
  - replace (Z.to_nat (Z.of_nat (length v) + 1)) with (length v + 1)%nat by lia.
    destruct (copy_block v 0 tail (Z.to_nat (bs - sdsHdrSize t')) ltac:(lia)) as (b & tail' & -> & Hst & Hsl). cbn [mbind option_bind].
    rewrite Hst. cbn [mbind option_bind]. eexists _, tail'. split; [done|]. split_and!; [done|by apply Hlen|done|cbn [buf sdssetlen]; lia].
Qed.

Lemma makeRoomFor_ok s v add greedy : rep s v -> 0 <= add -> Z.of_nat (length v) + add <= 2 ^ 61 ->
  exists s', _sdsMakeRoomFor s add greedy = Some s' /\ rep s' v /\ room s' (Z.of_nat (length v) + add).
Proof.
  intros H Ha Hmax. unfold _sdsMakeRoomFor. destruct (Z.geb_spec (sdsavail s) add) as [Hav|Hav].
  { exists s. split_and!; [done|done|]. apply avail_room; [done|lia]. }
  assert (Hadd : 0 < add) by (pose proof (uwrap_range 64 (hdr_alloc s - hdr_len s) ltac:(lia)) as [? _];
    pose proof (uwrap_range 32 (hdr_alloc s - hdr_len s) ltac:(lia)) as [? _]; unfold sdsavail in Hav; destruct (sdsType s); lia).
  pose proof H as [[tail Hb] Hl Hf Hal Hs]. unfold sdslen. rewrite Hl.
  rewrite uwrap_small by (unfold urange; lia). set (req := Z.of_nat (length v) + add) in *.
  destruct (Z.gtb_spec req (Z.of_nat (length v))) as [_|]; [|lia]. cbn [guard mbind option_bind].
  set (newlen := if greedy then _ else req).
  assert (Hnew : req <= newlen <= 2 ^ 61 + 2 ^ 20).
  { subst newlen. unfold SDS_MAX_PREALLOC. destruct greedy; [|lia].
    destruct (Z.ltb_spec req (1024 * 1024)); rewrite uwrap_small by (unfold urange; lia); lia. }
  set (t := if bool_decide (sdsReqType newlen = SDS_TYPE_5) then SDS_TYPE_8 else sdsReqType newlen).
  assert (Ht : t <> SDS_TYPE_5 /\ newlen <= type_limit t).
  { subst t. pose proof (reqType_limit newlen ltac:(lia)). case_bool_decide as E; [|done]. rewrite E in *. cbn in *. split; [done|lia]. }
  destruct Ht as [Ht Hlim]. pose proof (hdr_bounds t) as Hh.
  rewrite (uwrap_small 64 (sdsHdrSize t + newlen + 1)) by (unfold urange; lia).
  destruct (Z.gtb_spec (sdsHdrSize t + newlen + 1) req) as [_|]; [|lia]. cbn [guard mbind option_bind].
  destruct (malloc_usable_ok (sdsHdrSize t + newlen + 1)) as [Hb1 Hb2]; [lia|]. set (bs := malloc_usable _) in *.
  pose proof (adjust_ok t newlen bs ltac:(lia) ltac:(lia)) as Hadj.
  destruct (adjustTypeIfNeeded t (sdsHdrSize t) bs) as [[t' h'] adjusted]. destruct Hadj as (-> & Hroom & Hfit & H5 & H5' & Hres).
  destruct (H5 Ht) as [Ht' Hmx]. pose proof (hdr_bounds t') as Hh'.
  destruct (grow_block_ok s v t t' adjusted bs H) as (s1 & tail1 & -> & Hb' & Hl' & Ht1 & Hlen1); [done|lia|lia|lia|].
  cbn [mbind option_bind].
  rewrite (uwrap_small 64 (bs - sdsHdrSize t' - 1)) by (unfold urange; lia).
  rewrite (bool_decide_eq_false_2 (t' = SDS_TYPE_5)), (proj2 (Z.leb_le _ _)) by (done || lia). cbn [orb guard mbind option_bind].
  eexists. split; [done|]. subst t'. apply (fresh_block_ok s1 v tail1); try done; lia.
Qed.

(** * The operations *)

Lemma rep_written s v : rep s v -> Z.of_nat (length (buf s)) < 2 ^ 63 /\
  (sdsType s <> SDS_TYPE_5 -> hdr_alloc s < Z.of_nat (length (buf s)) /\ hdr_alloc s <= sdsTypeMaxSize (sdsType s)).
Proof. intros [_ _ _ Ha Hs]. split; [done|]. intros Ht. destruct (Ha Ht) as [[_ ?] ?]. done. Qed.

Lemma set_byte_setlen s n i b s2 : set_byte s i b = Some s2 -> set_byte (sdssetlen s n) i b = Some (sdssetlen s2 n).
Proof.
  unfold set_byte. cbn [buf sdssetlen]. destruct (guard _); [|done]. cbn [mbind option_bind].
  destruct (store _ _ _); [|done]. cbn [mbind option_bind]. by intros [= <-].
Qed.

Lemma sdscatlen_ok s v t : rep s v -> Z.of_nat (length (v ++ t)) <= 2 ^ 61 ->
  exists s', sdscatlen s t = Some s' /\ rep s' (v ++ t).
Proof.
  intros H Hl. rewrite length_app in Hl. unfold sdscatlen, sdsMakeRoomFor, sdslen. rewrite (rp_len _ _ H).
  destruct (makeRoomFor_ok s v (Z.of_nat (length t)) true H) as (s1 & -> & H1 & Hr); [lia|lia|]. cbn [mbind option_bind].
  destruct (rp_buf _ _ H1) as [tail Hb]. destruct (rep_written s1 v H1) as [Hs Ha].
  destruct (write_ok s1 v t (0 :: tail) Hb) as (s2 & s3 & -> & Hset & Hrep & _); [by rewrite length_app, Nat2Z.inj_add|done|done|].
  cbn [mbind option_bind]. rewrite length_app, Nat2Z.inj_add in Hset, Hrep. exists (sdssetlen s3 (Z.of_nat (length v) + Z.of_nat (length t))).
  split; [by apply set_byte_setlen|]. done.
Qed.

(** [memcpy(s, t, len); s\[len\] = 0; sdssetlen(s, len)]. *)
Lemma overwrite_ok s v t : rep s v -> room s (Z.of_nat (length t)) ->
  exists s1 s2, put_bytes s 0 t = Some s1 /\ set_byte s1 (Z.of_nat (length t)) 0 = Some s2 /\ rep (sdssetlen s2 (Z.of_nat (length t))) t.
Proof.
  intros H Hr. destruct (rep_written s v H) as [Hs Ha].
  destruct (write_ok s [] t (buf s) eq_refl Hr Hs Ha) as (s1 & s2 & H1 & H2 & H3 & _). by exists s1, s2.
Qed.

Lemma sdscpylen_ok s v t : rep s v -> Z.of_nat (length t) <= 2 ^ 61 -> exists s', sdscpylen s t = Some s' /\ rep s' t.
Proof.
  intros H Hl. unfold sdscpylen, sdslen. rewrite (rp_len _ _ H).
  assert (Hm : exists s1 w, (if sdsalloc s <? Z.of_nat (length t) then sdsMakeRoomFor s (u64 (Z.of_nat (length t) - Z.of_nat (length v))) else Some s) = Some s1 /\
    rep s1 w /\ room s1 (Z.of_nat (length t))).
  { pose proof (rp_alloc _ _ H) as Ha. pose proof (rep_room s v H) as (R1 & R2 & R3). unfold sdsalloc. rewrite (rp_len _ _ H).
    destruct (Z.ltb_spec (match sdsType s with SDS_TYPE_5 => Z.of_nat (length v) | _ => hdr_alloc s end) (Z.of_nat (length t))) as [Hlt|Hge].
    - assert (Hvt : Z.of_nat (length v) < Z.of_nat (length t)) by (destruct (sdsType s); try lia; specialize (R3 ltac:(done)); lia).
      rewrite uwrap_small by (unfold urange; lia). unfold sdsMakeRoomFor.
      destruct (makeRoomFor_ok s v (Z.of_nat (length t) - Z.of_nat (length v)) true H) as (s1 & -> & H1 & Hr); [lia|lia|].
      exists s1, v. rewrite Z.add_comm, Z.sub_add in Hr. done.
    - exists s, v. split_and!; [done|done|]. rewrite max_size in Ha. unfold room.
      destruct (sdsType s) eqn:Et; [split_and!; [lia|lia|done]|..]; (destruct Ha as [[? ?] ?]; [done|]); cbn [field_bits]; split_and!; lia. }
  destruct Hm as (s1 & w & -> & H1 & Hr). cbn [mbind option_bind].
  destruct (overwrite_ok s1 w t H1 Hr) as (s2 & s3 & -> & Hset & Hrep). cbn [mbind option_bind]. rewrite Hset. cbn [mbind option_bind].
  by eexists.
Qed.

Lemma set_end_ok s v w : rep s v -> w = take (length w) v ->
  exists s', set_byte s (Z.of_nat (length w)) 0 = Some s' /\ rep (sdssetlen s' (Z.of_nat (length w))) w.
Proof.
  intros H Hw. assert (Hle : (length w <= length v)%nat) by (rewrite Hw, length_take; lia).
  destruct (rp_buf _ _ H) as [tail Hb]. destruct (rep_written s v H) as [Hs Ha].
  assert (Hbw : buf s = w ++ drop (length w) (buf s)).
  { rewrite <- (take_drop (length w) (buf s)) at 1. f_equal. by rewrite Hb, take_app_le. }
  destruct (write_ok s w [] _ Hbw) as (s1 & s2 & H1 & H2 & H3 & _); [rewrite app_nil_r; apply (rep_room_le s v); [done|lia]|done|done|].
  rewrite app_nil_r in H2, H3. exists s2. split; [|done]. rewrite <- H2. f_equal.
  rewrite put_bytes_ok in H1 by (cbn; pose proof (rep_room s v H) as (? & _); lia). injection H1 as <-. cbn [app length].
  rewrite Nat2Z.id, Nat.add_0_r, take_drop. by destruct s.
Qed.

Lemma sdsclear_ok s v : rep s v -> exists s', sdsclear s = Some s' /\ rep s' [].
Proof.
  intros H. destruct (set_end_ok s v [] H eq_refl) as (s' & Hset & Hrep). exists (sdssetlen s' 0). split; [|done].
  unfold sdsclear. by apply set_byte_setlen.
Qed.

Lemma sdsgrowzero_ok s v n : rep s v -> 0 <= n <= 2 ^ 61 ->
  exists s', sdsgrowzero s n = Some s' /\ rep s' (v ++ replicate (Z.to_nat n - length v) 0).
Proof.
  intros H Hn. unfold sdsgrowzero, sdslen. rewrite (rp_len _ _ H). destruct (Z.leb_spec n (Z.of_nat (length v))) as [Hle|Hgt].
  { exists s. split; [done|]. replace (Z.to_nat n - length v)%nat with 0%nat by lia. cbn. by rewrite app_nil_r. }
  unfold sdsMakeRoomFor. destruct (makeRoomFor_ok s v (n - Z.of_nat (length v)) true H) as (s1 & -> & H1 & Hr); [lia|lia|].
  cbn [mbind option_bind]. rewrite Z.add_comm, Z.sub_add in Hr. destruct Hr as (R1 & R2 & R3).
  rewrite put_bytes_ok by (rewrite ?length_replicate; lia). cbn [mbind option_bind]. rewrite length_replicate, Nat2Z.id.
  destruct (rp_buf _ _ H1) as [tail Hb]. destruct (rep_written s1 v H1) as [Hs Ha].
  set (k := (Z.to_nat n - length v)%nat). assert (Hlen : Z.of_nat (length (v ++ replicate k 0)) = n) by (rewrite length_app, length_replicate; lia).
  rewrite <- Hlen. eexists. split; [done|]. set (b := take _ _ ++ _).
  assert (Eb : b = (v ++ replicate k 0) ++ 0 :: drop (Z.to_nat n + 1) (buf s1)).
  { unfold b. rewrite Hlen. replace (Z.to_nat (n - Z.of_nat (length v) + 1)) with (S k) by lia. replace (length v + S k)%nat with (Z.to_nat n + 1)%nat by lia.
    rewrite Hb at 1. rewrite take_app_length, replicate_S_end, <- !app_assoc. done. }
  assert (Hlb : length b = length (buf s1)) by (rewrite Eb, length_app; cbn; rewrite length_drop; lia).
  eapply rep_intro; cbn [buf with_buf sdsType hdr_alloc]; rewrite ?Hlb, ?Hlen; try done.
  unfold room. cbn [buf with_buf sdsType hdr_alloc]. rewrite Hlb. done.
Qed.

(** * Creation *)

Lemma sdssetlen_id s n : hdr_len s = uwrap (field_bits (sdsType s)) n -> sdssetlen s n = s.
Proof. destruct s as [t l a b]. unfold sdssetlen. cbn. by intros <-. Qed.

Lemma put_bytes_header s i t s1 : put_bytes s i t = Some s1 -> sdsType s1 = sdsType s /\ hdr_len s1 = hdr_len s.
Proof.
  unfold put_bytes. destruct (guard _); [|done]. cbn [mbind option_bind].
  destruct (store _ _ _); [|done]. cbn [mbind option_bind]. by intros [= <-].
Qed.

Lemma set_byte_header s i b s1 : set_byte s i b = Some s1 -> sdsType s1 = sdsType s /\ hdr_len s1 = hdr_len s.
Proof.
  unfold set_byte. destruct (guard _); [|done]. cbn [mbind option_bind].
  destruct (store _ _ _); [|done]. cbn [mbind option_bind]. by intros [= <-].
Qed.

(** The bytes a new string holds. *)
Definition init_bytes (i : init) (n : Z) : bytes := match i with Bytes b => b | _ => replicate (Z.to_nat n) 0 end.

Lemma init_bytes_len i n : i <> Noinit -> 0 <= n -> init_len i n = Z.of_nat (length (init_bytes i n)).
Proof. destruct i; [|done|done]; intros _ Hn; cbn; rewrite ?length_replicate; lia. Qed.

Lemma sdsnewplacement_ok mem t i n : i <> Noinit -> 0 <= n -> let v := init_bytes i n in
  Z.of_nat (length v) <= Z.of_nat (length mem) - sdsHdrSize t - 1 -> Z.of_nat (length v) < 2 ^ field_bits t -> Z.of_nat (length mem) < 2 ^ 63 ->
  (t <> SDS_TYPE_5 -> Z.of_nat (length mem) - sdsHdrSize t - 1 <= sdsTypeMaxSize t) ->
  exists s, sdsnewplacement mem t i (init_len i n) = Some s /\ rep s v.
Proof.
  intros Hi Hn v Hl Hf Hs Hm. pose proof (hdr_bounds t) as Hh. unfold sdsnewplacement. rewrite (init_bytes_len i n Hi Hn). fold v.
  unfold sdsReqSize. rewrite (uwrap_small 64) by (unfold urange; lia).
  destruct (Z.geb_spec (Z.of_nat (length mem)) (Z.of_nat (length v) + sdsHdrSize t + 1)) as [_|]; [|lia]. cbn [guard mbind option_bind].
  set (s0 := mkSds _ _ _ _). assert (Hb0 : Z.of_nat (length (buf s0)) = Z.of_nat (length mem) - sdsHdrSize t) by (cbn; rewrite length_drop; lia).
  assert (Ha0 : t <> SDS_TYPE_5 -> hdr_alloc s0 = Z.of_nat (length mem) - sdsHdrSize t - 1).
  { intros Ht. cbn. apply uwrap_small. specialize (Hm Ht). rewrite max_size in Hm. unfold urange. destruct t; cbn [field_bits] in *; lia. }
  destruct (write_ok s0 [] v (buf s0) eq_refl) as (s1 & s2 & H1 & H2 & H3 & _).
  { split_and!; [cbn [app]; lia|done|]. intros Ht. rewrite Ha0 by done. cbn [app]. lia. }
  { lia. } { intros Ht. rewrite Ha0 by done. specialize (Hm Ht). cbn [sdsType s0]. split; [lia|done]. }
  assert (E : match i with Null => put_bytes s0 0 (replicate (Z.to_nat (Z.of_nat (length v))) 0) | Noinit => Some s0 | Bytes b => put_bytes s0 0 b end = Some s1).
  { rewrite <- H1. destruct i; [|done|done]. cbn [app]. rewrite Nat2Z.id. unfold v. cbn [init_bytes]. by rewrite length_replicate. }
  rewrite E. cbn [mbind option_bind]. cbn [app] in *. rewrite H2. eexists. split; [done|].
  rewrite sdssetlen_id in H3; [done|]. destruct (put_bytes_header _ _ _ _ H1) as [Et El]. destruct (set_byte_header _ _ _ _ H2) as [Et' El'].
  by rewrite Et', El', Et, El.
Qed.

Lemma sdsnewlen_ok i n : i <> Noinit -> 0 <= n -> Z.of_nat (length (init_bytes i n)) <= 2 ^ 61 ->
  exists s, sdsnewlen i n = Some s /\ rep s (init_bytes i n).
Proof.
  intros Hi Hn Hl. unfold sdsnewlen, _sdsnewlen. rewrite (init_bytes_len i n Hi Hn). set (len := Z.of_nat _) in *.
  set (t := if _ && _ then _ else _).
  assert (Ht : len <= type_limit t).
  { pose proof (reqType_limit len ltac:(lia)). subst t. destruct (bool_decide_reflect (sdsReqType len = SDS_TYPE_5)) as [E|E]; [|done].
    cbn [andb]. destruct (Z.eqb_spec len 0); [|done]. cbn. lia. }
  pose proof (hdr_bounds t) as Hh. rewrite (uwrap_small 64) by (unfold urange; lia).
  destruct (Z.gtb_spec (len + sdsHdrSize t + 1) len) as [_|]; [|lia]. cbn [guard mbind option_bind negb].
  destruct (malloc_usable_ok (sdsHdrSize t + len + 1)) as [Hb1 Hb2]; [lia|]. set (bs := malloc_usable _) in *.
  pose proof (adjust_ok t len bs ltac:(lia) ltac:(lia)) as Hadj.
  destruct (adjustTypeIfNeeded t (sdsHdrSize t) bs) as [[t' h'] adjusted]. destruct Hadj as (-> & Hroom & Hfit & H5 & H5' & Hres).
  assert (Hj : Z.of_nat (length (junk (Z.to_nat bs))) = bs) by (rewrite junk_length; lia).
  destruct (sdsnewplacement_ok (junk (Z.to_nat bs)) t' i n Hi Hn) as (s & Hp & Hrep); rewrite ?Hj; [done|done|lia| |].
  { intros Ht'. destruct (decide (t = SDS_TYPE_5)) as [E|E]; [|by apply H5]. exfalso. apply Ht'.
    by rewrite H5'. }
  rewrite init_bytes_len in Hp by done. fold len in Hp. rewrite Hp. cbn [mbind option_bind]. by eexists.
Qed.

(** * Resizing *)

(** [s\[len\] = 0; sdssetlen(s, len); sdssetalloc(s, newsize)]. *)
Lemma resize_end s w x tail newsize : buf s = w ++ x :: tail -> Z.of_nat (length w) < 2 ^ field_bits (sdsType s) ->
  Z.of_nat (length (buf s)) < 2 ^ 63 ->
  (sdsType s <> SDS_TYPE_5 -> Z.of_nat (length w) <= newsize < Z.of_nat (length (buf s)) /\ newsize <= sdsTypeMaxSize (sdsType s)) ->
  exists s2, set_byte s (Z.of_nat (length w)) 0 = Some s2 /\ rep (sdssetalloc (sdssetlen s2 (Z.of_nat (length w))) newsize) w.
Proof.
  intros Hb Hf Hs Ha. rewrite Hb in Hs, Ha. rewrite set_byte_ok by (rewrite Hb, length_app; cbn; lia). eexists. split; [done|].
  rewrite Nat2Z.id, Hb, take_app_length. replace (drop (S (length w)) (w ++ x :: tail)) with tail
    by (rewrite drop_app_ge by lia; replace (S (length w) - length w)%nat with 1%nat by lia; cbn; by rewrite drop_0).
  destruct s as [t l a b]. cbn [sdsType buf with_buf sdssetlen] in *. rewrite length_app in Hs, Ha. cbn [length] in Hs, Ha.
  assert (E : t <> SDS_TYPE_5 -> uwrap (field_bits t) newsize = newsize).
  { intros Ht. destruct (Ha Ht) as [? Hm]. apply uwrap_small. rewrite max_size in Hm. unfold urange. destruct t; cbn in *; lia. }
  assert (El : uwrap (field_bits t) (Z.of_nat (length w)) = Z.of_nat (length w)) by (apply uwrap_small; unfold urange; lia).
  assert (Hlen : Z.of_nat (length (w ++ 0 :: tail)) = Z.of_nat (length w + S (length tail))) by (rewrite length_app; done).
  unfold sdssetalloc, sdssetlen. cbn [sdsType hdr_len buf hdr_alloc with_buf]. rewrite El.
  destruct t; rewrite ?E by done; (split; cbn [buf hdr_len sdsType hdr_alloc]; rewrite ?Hlen; [by exists tail|done|done| |done]); [done|..]; apply Ha.
Qed.

(** The part of the string that is kept. *)
Lemma kept_prefix s v size : rep s v -> 0 <= size -> let w := take (Z.to_nat size) v in
  (exists x tail, buf s = w ++ x :: tail) /\
  (if size <? Z.of_nat (length v) then size else Z.of_nat (length v)) = Z.of_nat (length w) /\ (length w <= length v)%nat /\ Z.of_nat (length w) <= size.
Proof.
  intros [[tail Hb] _ _ _ _] Hs w. unfold w. rewrite length_take. split_and!; [|destruct (Z.ltb_spec size (Z.of_nat (length v))); lia|lia|lia].
  rewrite Hb. destruct (decide (length v <= Z.to_nat size)%nat) as [Hle|Hgt]; [exists 0, tail; by rewrite take_ge|].
  destruct (drop (Z.to_nat size) v) as [|x r] eqn:E; [apply (f_equal length) in E; rewrite length_drop in E; cbn in E; lia|].
  exists x, (r ++ 0 :: tail). rewrite <- (take_drop (Z.to_nat size) v) at 1. rewrite E, <- app_assoc. done.
Qed.

(** The block after [s_realloc_usable], and after the move for a larger header. *)
Lemma resize_realloc_ok s w x tail size bs : buf s = w ++ x :: tail -> Z.of_nat (length w) <= size <= type_limit (sdsType s) ->
  sdsHdrSize (sdsType s) + size + 1 <= bs < 2 ^ 63 -> exists s1 n tail1,
  (let b := realloc_buf (buf s) (Z.to_nat (bs - sdsHdrSize (sdsType s))) in
   let '(t', hdrlen', adjusted) := adjustTypeIfNeeded (sdsType s) (sdsHdrSize (sdsType s)) bs in
   s1 ← (if (adjusted : bool) then b ← shift_buf b (Z.of_nat (length w)) (hdrlen' - sdsHdrSize (sdsType s));
          Some (sdssetlen (mkSds t' (hdr_len s) (hdr_alloc s) b) (Z.of_nat (length w))) else Some (with_buf s b));
   Some (s1, u64 (bs - hdrlen' - 1))) = Some (s1, n) /\
  buf s1 = w ++ x :: tail1 /\ Z.of_nat (length w) < 2 ^ field_bits (sdsType s1) /\ Z.of_nat (length (buf s1)) < 2 ^ 63 /\
  (sdsType s1 <> SDS_TYPE_5 -> Z.of_nat (length w) <= n < Z.of_nat (length (buf s1)) /\ n <= sdsTypeMaxSize (sdsType s1)) /\
  size <= n /\ (sdsType s <> SDS_TYPE_5 -> sdsType s1 <> SDS_TYPE_5).
Proof.
  intros Hb Hl Hbs. set (t := sdsType s) in *. pose proof (hdr_bounds t) as Hh.
  pose proof (adjust_ok t size bs ltac:(lia) ltac:(lia)) as Hadj.
  destruct (adjustTypeIfNeeded t (sdsHdrSize t) bs) as [[t' h'] adjusted]. destruct Hadj as (-> & Hroom & Hfit & H5 & H5' & Hres).
  rewrite Hb. destruct (realloc_keeps w x tail (Z.to_nat (bs - sdsHdrSize t)) ltac:(lia)) as (tail' & Hre & Hrl). rewrite Hre in *. cbv zeta.
  pose proof (hdr_bounds t') as Hh'. rewrite (uwrap_small 64) by (unfold urange; lia).
  assert (Hm : t' <> SDS_TYPE_5 -> bs - sdsHdrSize t' - 1 <= sdsTypeMaxSize t').
  { intros Ht'. apply H5. intros E. apply Ht'. by rewrite H5'. }
  destruct adjusted.
  - destruct (shift_keeps w x tail' (sdsHdrSize t' - sdsHdrSize t)) as (tail2 & -> & Hsl); [lia|lia|]. cbn [mbind option_bind].
    eexists _, _, tail2. split; [done|]. cbn [buf sdssetlen sdsType]. split_and!; [done|lia|lia| |lia|intros E; by apply H5]. intros Ht'. specialize (Hm Ht'). lia.
  - cbn [mbind option_bind]. eexists _, _, tail'. split; [done|]. cbn [buf with_buf sdsType]. fold t. subst t'.
    split_and!; [done|lia|lia| |lia|done]. intros Ht'. specialize (Hm Ht'). lia.
Qed.

(** The copy to a new block. *)
Lemma resize_copy_ok s w x tail size t bs : buf s = w ++ x :: tail -> Z.of_nat (length w) <= size <= type_limit t ->
  sdsHdrSize t + size + 1 <= bs < 2 ^ 63 -> exists s1 n tail1,
  (let '(t', hdrlen', _) := adjustTypeIfNeeded t (sdsHdrSize t) bs in
   b ← load (buf s) 0 (Z.to_nat (Z.of_nat (length w) + 1));
   b ← store (junk (Z.to_nat (bs - hdrlen'))) 0 b;
   Some (mkSds t' 0 0 b, u64 (bs - hdrlen' - 1))) = Some (s1, n) /\
  buf s1 = w ++ x :: tail1 /\ Z.of_nat (length w) < 2 ^ field_bits (sdsType s1) /\ Z.of_nat (length (buf s1)) < 2 ^ 63 /\
  (sdsType s1 <> SDS_TYPE_5 -> Z.of_nat (length w) <= n < Z.of_nat (length (buf s1)) /\ n <= sdsTypeMaxSize (sdsType s1)) /\
  size <= n /\ (t <> SDS_TYPE_5 -> sdsType s1 <> SDS_TYPE_5).
Proof.
  intros Hb Hl Hbs. pose proof (hdr_bounds t) as Hh. pose proof (adjust_ok t size bs ltac:(lia) ltac:(lia)) as Hadj.
  destruct (adjustTypeIfNeeded t (sdsHdrSize t) bs) as [[t' h'] adjusted]. destruct Hadj as (-> & Hroom & Hfit & H5 & H5' & Hres).
  pose proof (hdr_bounds t') as Hh'. rewrite Hb, (uwrap_small 64) by (unfold urange; lia).
  replace (Z.to_nat (Z.of_nat (length w) + 1)) with (length w + 1)%nat by lia.
  destruct (copy_block w x tail (Z.to_nat (bs - sdsHdrSize t')) ltac:(lia)) as (b & tail' & -> & Hst & Hsl). cbn [mbind option_bind].
  rewrite Hst. cbn [mbind option_bind]. eexists _, _, tail'. split; [done|]. cbn [buf sdsType]. rewrite Hsl. split_and!; [done|lia|lia| |lia|intros E; by apply H5].
  intros Ht'. assert (Hm : bs - sdsHdrSize t' - 1 <= sdsTypeMaxSize t') by (apply H5; intros E; apply Ht'; by rewrite H5').
  lia.
Qed.

Lemma sdsalloc_ge s v : rep s v -> Z.of_nat (length v) <= sdsalloc s < Z.of_nat (length (buf s)).
Proof.
  intros H. pose proof (rep_room s v H) as (? & _ & _). destruct H as [_ Hl _ Ha _]. unfold sdsalloc.
  destruct (sdsType s); rewrite ?Hl; (destruct Ha as [[? ?] _]; [done|]) || idtac; lia.
Qed.

(** With room for [size] bytes if the allocator rounds sizes up. *)
Lemma sdsResize_room nallocx s v size would_regrow : rep s v -> 0 <= size <= 2 ^ 61 ->
  exists s', sdsResize nallocx s size would_regrow = Some s' /\ rep s' (take (Z.to_nat size) v) /\
    (would_regrow = true -> (forall f n, nallocx = Some f -> n <= f n) -> size <= sdsalloc s' /\ (sdsalloc s <> size -> sdsType s' <> SDS_TYPE_5)).
Proof.
  intros H Hsz. unfold sdsResize, sdslen. rewrite (rp_len _ _ H). pose proof (sdsalloc_ge s v H) as Hal.
  destruct (Z.eqb_spec (sdsalloc s) size) as [<-|Hne]; [exists s; split; [done|]; rewrite take_ge by lia; split; [done|]; intros _ _; split; [lia|done]|].
  destruct (kept_prefix s v size H ltac:(lia)) as ((x & tail & Hb) & -> & Hwv & Hws). set (w := take _ v) in *.
  set (t := if would_regrow && _ then _ else _).
  assert (Ht : size <= type_limit t).
  { pose proof (reqType_limit size ltac:(lia)). subst t. destruct would_regrow; [|done]. cbn [andb]. case_bool_decide as E; [|done].
    rewrite E in *. cbn in *. lia. }
  set (use_realloc := _ || _). pose proof (hdr_bounds t) as Hh. pose proof (hdr_bounds (sdsType s)) as Hho.
  set (r := if use_realloc then _ else _).
  assert (Hr : exists s1 n tail1, r = Some (s1, n) /\
    buf s1 = w ++ x :: tail1 /\ Z.of_nat (length w) < 2 ^ field_bits (sdsType s1) /\ Z.of_nat (length (buf s1)) < 2 ^ 63 /\
    (sdsType s1 <> SDS_TYPE_5 -> Z.of_nat (length w) <= n < Z.of_nat (length (buf s1)) /\ n <= sdsTypeMaxSize (sdsType s1)) /\
    (would_regrow = true -> (forall f n, nallocx = Some f -> n <= f n) -> size <= n /\ sdsType s1 <> SDS_TYPE_5)).
  { assert (Ht8 : would_regrow = true -> t <> SDS_TYPE_5) by (intros ->; subst t; cbn [andb]; by case_bool_decide).
    assert (Hold : use_realloc = true -> would_regrow = true -> sdsType s <> SDS_TYPE_5).
    { intros Hu Hw. specialize (Ht8 Hw). subst use_realloc. apply orb_prop in Hu as [E|E]; [apply bool_decide_eq_true in E; congruence|]. apply andb_prop in E as [E1 E2]. intros E. rewrite E in E1. destruct t; cbn in *; (done || lia). }
    subst r. destruct use_realloc eqn:Hu.
    - set (optimal := match nallocx with Some _ => _ | None => false end). destruct optimal eqn:Hopt.
      + eexists s, _, tail. split; [done|]. unfold sdsAllocSize. pose proof (rp_field _ _ H). pose proof (rp_size _ _ H).
        replace (sdsHdrSize (sdsType s) + sdsalloc s + 1 - sdsHdrSize (sdsType s) - 1) with (sdsalloc s) by lia.
        rewrite uwrap_small by (unfold urange; lia). split_and!; [done|lia|done| |].
        2: { intros Hw Hn. split; [|by apply Hold]. subst optimal. destruct nallocx as [f|]; [|done]. apply Z.eqb_eq in Hopt. pose proof (Hn f (u64 (sdsHdrSize (sdsType s) + size + 1)) eq_refl) as Hf. rewrite Hopt, uwrap_small in Hf by (unfold urange; lia). unfold sdsAllocSize in Hf. lia. }
        intros Ht5. split; [lia|].
        destruct (rp_alloc _ _ H Ht5) as [_ Hm]. unfold sdsalloc. by destruct (sdsType s).
      + assert (Hlim : size <= type_limit (sdsType s)).
        { subst use_realloc. apply orb_prop in Hu as [E|E]; [apply bool_decide_eq_true in E; by rewrite E|].
          apply andb_prop in E as [E _]. apply Z.ltb_lt in E. pose proof (type_num_limit t (sdsType s) ltac:(lia)). lia. }
        rewrite (uwrap_small 64 (_ + _ + _)) by (unfold urange; lia).
        destruct (malloc_usable_ok (sdsHdrSize (sdsType s) + size + 1)) as [Hb1 Hb2]; [lia|]. destruct (resize_realloc_ok s w x tail size (malloc_usable (sdsHdrSize (sdsType s) + size + 1)) Hb) as (s1 & n & tail1 & H1 & H2 & H3 & H4 & H5 & H6 & H7); [lia|lia|].
        exists s1, n, tail1. split_and!; try done. intros Hw _. split; [done|]. apply H7. by apply Hold.
    - rewrite (uwrap_small 64 (_ + _ + _)) by (unfold urange; lia).
      destruct (malloc_usable_ok (sdsHdrSize t + size + 1)) as [Hb1 Hb2]; [lia|]. destruct (resize_copy_ok s w x tail size t (malloc_usable (sdsHdrSize t + size + 1)) Hb) as (s1 & n & tail1 & H1 & H2 & H3 & H4 & H5 & H6 & H7); [lia|lia|].
      exists s1, n, tail1. split_and!; try done. intros Hw _. split; [done|]. apply H7. by apply Ht8. }
  destruct Hr as (s1 & n & tail1 & -> & Hb1 & Hf1 & Hs1 & Ha1 & Hroom). cbn [mbind option_bind].
  destruct (resize_end s1 w x tail1 n Hb1 Hf1 Hs1 Ha1) as (s2 & Hset & Hrep). rewrite Hset. cbn [mbind option_bind]. eexists. split; [done|]. split; [done|]. intros Hw Hn. destruct (Hroom Hw Hn) as [Hsize H5].
  assert (Hty : sdsType s2 = sdsType s1) by (unfold set_byte in Hset; destruct (guard _); [|done]; cbn [mbind option_bind] in Hset; destruct (store _ _ _); [|done]; by injection Hset as <-).
  unfold sdssetalloc, sdssetlen, sdsalloc. cbn [sdsType]. rewrite Hty. destruct (Ha1 H5) as [Hn1 Hn2]. rewrite max_size in Hn2. destruct (sdsType s1); [done|..]; cbn [sdsType hdr_alloc]; (split; [|done]); rewrite uwrap_small by (unfold urange; cbn [field_bits] in *; lia); lia.
Qed.

Lemma sdsResize_ok nallocx s v size would_regrow : rep s v -> 0 <= size <= 2 ^ 61 ->
  exists s', sdsResize nallocx s size would_regrow = Some s' /\ rep s' (take (Z.to_nat size) v).
Proof. intros H Hsz. destruct (sdsResize_room nallocx s v size would_regrow H Hsz) as (s' & H1 & H2 & _). by exists s'. Qed.

Lemma sdsRemoveFreeSpace_ok nallocx s v would_regrow : rep s v -> Z.of_nat (length v) <= 2 ^ 61 ->
  exists s', sdsRemoveFreeSpace nallocx s would_regrow = Some s' /\ rep s' v.
Proof.
  intros H Hl. unfold sdsRemoveFreeSpace, sdslen. rewrite (rp_len _ _ H).
  destruct (sdsResize_ok nallocx s v (Z.of_nat (length v)) would_regrow H ltac:(lia)) as (s' & -> & Hrep). exists s'. split; [done|].
  by rewrite Nat2Z.id, firstn_all in Hrep.
Qed.

End Alloc.

(** * Changes in place *)

Fixpoint drop_while (p : Z -> bool) (v : bytes) : bytes :=
  match v with [] => [] | x :: v' => if p x then drop_while p v' else v end.

Definition trim (p : Z -> bool) (v : bytes) : bytes := reverse (drop_while p (reverse (drop_while p v))).

Lemma drop_while_suffix p v : exists a, v = a ++ drop_while p v.
Proof.
  induction v as [|x v [a IH]]; [by exists []|]. cbn. destruct (p x); [exists (x :: a); cbn; by f_equal|by exists []].
Qed.

Lemma drop_while_head p v : match drop_while p v with [] => True | x :: _ => p x = false end.
Proof. induction v as [|x v IH]; cbn; [done|]. by destruct (p x) eqn:E. Qed.

(** [memmove(s, s+i, n); s\[n\] = 0; sdssetlen(s, n)]. *)
Lemma move_ok s v a w c : rep s v -> v = a ++ w ++ c -> exists b s2,
  memmove (buf s) 0 (length a) (length w) = Some b /\ set_byte (with_buf s b) (Z.of_nat (length w)) 0 = Some s2 /\
  rep (sdssetlen s2 (Z.of_nat (length w))) w.
Proof.
  intros H Hv. destruct (rp_buf _ _ H) as [tail Hb].
  destruct (overwrite_ok s v w H) as (s1 & s2 & H1 & H2 & H3); [apply (rep_room_le s v); [done|]; rewrite Hv, !length_app; lia|].
  assert (Hld : load (buf s) (length a) (length w) = Some w) by (rewrite Hb, Hv, <- !app_assoc; by apply load_app).
  unfold put_bytes in H1. cbn [guard mbind option_bind Z.leb Z.compare] in H1. unfold memmove. rewrite Hld. cbn [mbind option_bind].
  change (Z.to_nat 0) with 0%nat in H1. destruct (store (buf s) 0 w) as [b|]; [|done]. injection H1 as <-. by exists b, s2.
Qed.

Lemma trim_left_ok m cset a b tail fuel : m = a ++ b ++ tail -> (length b <= fuel)%nat ->
  exists a', b = a' ++ drop_while (strchr cset) b /\
    trim_left fuel m cset (Z.of_nat (length a)) (Z.of_nat (length (a ++ b)) - 1) = Some (Z.of_nat (length (a ++ a'))).
Proof.
  revert a fuel. induction b as [|x b IH]; intros a fuel Hm Hf.
  - exists []. split; [done|]. rewrite app_nil_r. destruct fuel; cbn [trim_left]; rewrite (proj2 (Z.leb_gt _ _)) by lia; done.
  - assert (Hx : m !! length a = Some x) by (rewrite Hm; by apply list_lookup_middle).
    assert (Hlt : (Z.of_nat (length a) <=? Z.of_nat (length (a ++ x :: b)) - 1) = true) by (apply Z.leb_le; rewrite length_app; cbn; lia).
    destruct fuel as [|fuel]; [cbn in Hf; lia|]. cbn [trim_left]. rewrite Hlt, Nat2Z.id, Hx. cbn [mbind option_bind drop_while].
    destruct (strchr cset x); [|exists []; split; [done|]; by rewrite app_nil_r].
    destruct (IH (a ++ [x]) fuel) as (a' & Hb & Htl); [by rewrite Hm, <- app_assoc|cbn in Hf; lia|].
    exists (x :: a'). split; [cbn; by f_equal|]. replace (Z.of_nat (length a) + 1) with (Z.of_nat (length (a ++ [x]))) by (rewrite length_app; cbn; lia).
    rewrite <- !app_assoc in Htl. exact Htl.
Qed.

Lemma drop_while_last p b x : match b with y :: _ => p y = false | [] => p x = false end ->
  reverse (drop_while p (reverse (b ++ [x]))) = if p x then reverse (drop_while p (reverse b)) else b ++ [x].
Proof. intros Hh. rewrite reverse_snoc. cbn [drop_while]. destruct (p x) eqn:E; [done|]. by rewrite reverse_cons, reverse_involutive. Qed.

Lemma trim_right_ok m cset a b tail fuel : m = a ++ b ++ tail -> (length b <= fuel)%nat ->
  match b with [] => True | x :: _ => strchr cset x = false end ->
  trim_right fuel m cset (Z.of_nat (length a)) (Z.of_nat (length (a ++ b)) - 1) =
    Some (Z.of_nat (length (a ++ reverse (drop_while (strchr cset) (reverse b)))) - 1).
Proof.
  revert tail fuel. induction b as [|x b IH] using rev_ind; intros tail fuel Hm Hf Hh.
  - change (reverse (drop_while (strchr cset) (reverse []))) with (@nil Z). rewrite app_nil_r. destruct fuel; cbn [trim_right]; destruct (Z.gtb_spec (Z.of_nat (length a) - 1) (Z.of_nat (length a))); lia || done.
  - rewrite drop_while_last by (by destruct b). destruct b as [|y b].
    { cbn in Hh. rewrite Hh. cbn [app]. rewrite length_app. cbn [length].
      destruct fuel; cbn [trim_right]; destruct (Z.gtb_spec (Z.of_nat (length a + 1) - 1) (Z.of_nat (length a))); lia || done. }
    set (b' := y :: b) in *. rewrite length_app in Hf. cbn [length] in Hf. destruct fuel as [|fuel]; [lia|]. cbn [trim_right].
    assert (Hn : Z.of_nat (length (a ++ b' ++ [x])) - 1 = Z.of_nat (length (a ++ b'))) by (rewrite !length_app; cbn [length]; lia).
    rewrite Hn. destruct (Z.gtb_spec (Z.of_nat (length (a ++ b'))) (Z.of_nat (length a))) as [_|Hle]; [|rewrite length_app in Hle; cbn in Hle; lia].
    rewrite Nat2Z.id. replace (m !! length (a ++ b')) with (Some x) by (rewrite Hm, <- app_assoc, app_assoc; symmetry; by apply list_lookup_middle).
    cbn [mbind option_bind]. destruct (strchr cset x).
    + apply (IH (x :: tail)); [by rewrite Hm, <- app_assoc|lia|done].
    + f_equal. lia.
Qed.

Lemma sdstrim_ok s v cset : rep s v -> exists s', sdstrim s cset = Some s' /\ rep s' (trim (strchr cset) v).
Proof.
  intros H. destruct (rp_buf _ _ H) as [tail Hb]. unfold sdstrim, sdslen. rewrite (rp_len _ _ H), Nat2Z.id.
  destruct (trim_left_ok (buf s) cset [] v (0 :: tail) (length v) Hb (le_n _)) as (a & Hv & Htl). cbn [app length] in Htl.
  change (Z.of_nat 0) with 0 in Htl. rewrite Htl. cbn [mbind option_bind]. set (b := drop_while _ v) in *.
  pose proof (drop_while_head (strchr cset) v) as Hh. fold b in Hh.
  assert (Htrim : trim (strchr cset) v = reverse (drop_while (strchr cset) (reverse b))) by done. rewrite Htrim. clearbody b. clear Htrim Htl. subst v.
  rewrite (trim_right_ok (buf s) cset a b (0 :: tail)) by first [done | by rewrite Hb, <- app_assoc | rewrite length_app; lia].
  cbn [mbind option_bind]. set (w := reverse _).
  replace (Z.of_nat (length (a ++ w)) - 1 - Z.of_nat (length a) + 1) with (Z.of_nat (length w)) by (rewrite length_app; lia).
  assert (Hw : exists c, b = w ++ c).
  { destruct (drop_while_suffix (strchr cset) (reverse b)) as [c Hc]. exists (reverse c). subst w.
    rewrite <- (reverse_involutive b) at 1. rewrite Hc at 1. by rewrite reverse_app. }
  destruct Hw as [c Hc].
  destruct (Z.eqb_spec (Z.of_nat (length a)) 0) as [Ha|Ha]; cbn [negb].
  - assert (a = []) as -> by (by destruct a). cbn [app mbind option_bind] in *.
    destruct (set_end_ok s b w H) as (s' & -> & Hrep); [by rewrite Hc, take_app_length|]. cbn [mbind option_bind]. by eexists.
  - destruct (move_ok s (a ++ b) a w c H) as (m & s2 & Hm & Hset & Hrep); [by rewrite <- Hc|]. rewrite !Nat2Z.id, Hm. cbn [mbind option_bind].
    rewrite Hset. cbn [mbind option_bind]. by eexists.
Qed.

Lemma sdssubstr_ok s v start len : rep s v -> 0 <= start -> 0 <= len ->
  exists s', sdssubstr s start len = Some s' /\ rep s' (take (Z.to_nat len) (drop (Z.to_nat start) v)).
Proof.
  intros H Hs Hl. unfold sdssubstr, sdslen. rewrite (rp_len _ _ H).
  set (w := take _ _). set (p := if start >=? _ then _ else _).
  assert (Hp : exists st ln, p = (st, ln) /\ let ln' := if ln >? Z.of_nat (length v) - st then Z.of_nat (length v) - st else ln in
    ln' = Z.of_nat (length w) /\ (w <> [] -> st = start) /\ 0 <= st).
  { subst p w. rewrite length_take, length_drop. destruct (Z.geb_spec start (Z.of_nat (length v))) as [Hge|Hlt]; eexists _, _; (split; [done|]).
    - rewrite drop_ge, take_nil by lia. split_and!; [|done|lia]. destruct (Z.gtb_spec 0 (Z.of_nat (length v) - 0)); lia.
    - split_and!; [|done|lia]. destruct (Z.gtb_spec len (Z.of_nat (length v) - start)); lia. }
  destruct Hp as (st & ln & -> & -> & Hst & Hst0). destruct (Z.eqb_spec (Z.of_nat (length w)) 0) as [Hz|Hz]; cbn [negb].
  - cbn [mbind option_bind]. assert (w = []) as -> by (by destruct w). destruct (set_end_ok s v [] H eq_refl) as (s' & -> & Hrep).
    cbn [mbind option_bind]. by eexists.
  - rewrite Hst by (by intros E; rewrite E in Hz). 
    assert (Hv : v = take (Z.to_nat start) v ++ w ++ drop (Z.to_nat len) (drop (Z.to_nat start) v)) by (unfold w; by rewrite !take_drop).
    assert (Hlt : length (take (Z.to_nat start) v) = Z.to_nat start).
    { rewrite length_take. unfold w in Hz. rewrite length_take, length_drop in Hz. lia. }
    destruct (move_ok s v _ w _ H Hv) as (m & s2 & Hm & Hset & Hrep). rewrite Hlt in Hm. rewrite Nat2Z.id, Hm. cbn [mbind option_bind].
    rewrite Hset. cbn [mbind option_bind]. by eexists.
Qed.

(** An index from the end when it is negative. *)
Definition index (v : bytes) (i : Z) : Z := if i <? 0 then Z.of_nat (length v) + i else i.

Definition range (v : bytes) (start end_ : Z) : bytes :=
  let i := index v start in
  let j := index v end_ in
  if (i <? 0) || (i >? j) then [] else take (Z.to_nat (j - i + 1)) (drop (Z.to_nat i) v).

Lemma sdsrange_ok s v start end_ : rep s v -> - 2 ^ 61 <= start < 2 ^ 61 -> - 2 ^ 61 <= end_ < 2 ^ 61 -> Z.of_nat (length v) <= 2 ^ 61 ->
  exists s', sdsrange s start end_ = Some s' /\ rep s' (range v start end_).
Proof.
  intros H Hs He Hv. unfold sdsrange, sdslen. rewrite (rp_len _ _ H). destruct (Z.eqb_spec (Z.of_nat (length v)) 0) as [Hz|Hz].
  { exists s. split; [done|]. assert (v = []) as -> by (by destruct v). unfold range. rewrite drop_nil, take_nil. by destruct (_ || _). }
  assert (Hi : forall i, - 2 ^ 61 <= i < 2 ^ 61 -> (if i <? 0 then s64 (Z.of_nat (length v) + i) else i) = index v i).
  { intros i Hi. unfold index. destruct (i <? 0); [|done]. apply swrap_small; [lia|unfold srange; lia]. }
  rewrite !Hi by done. assert (Hb : forall i, - 2 ^ 61 <= i < 2 ^ 61 -> - 2 ^ 61 <= index v i < 2 ^ 61).
  { intros i Hi'. unfold index. destruct (Z.ltb_spec i 0); lia. }
  pose proof (Hb start Hs) as Hb1. pose proof (Hb end_ He) as Hb2. unfold range. set (i := index v start) in *. set (j := index v end_) in *.
  destruct (Z.ltb_spec i 0) as [Hneg|Hpos]; cbn [orb].
  - assert (Hu : u64 i = i + 2 ^ 64) by (unfold uwrap; symmetry; apply Z.mod_unique with (-1); lia).
    assert (Hn : exists n, (if i >? j then Some 0 else _ ← guard (j - i + 1 <? 2 ^ 63); Some (j - i + 1)) = Some n /\ 0 <= n).
    { destruct (Z.gtb_spec i j); [by exists 0|]. rewrite (proj2 (Z.ltb_lt _ _)) by lia. eexists. split; [done|]. lia. }
    destruct Hn as (n & -> & Hn). cbn [mbind option_bind]. destruct (sdssubstr_ok s v (u64 i) n H) as (s' & -> & Hr); [lia|lia|].
    exists s'. split; [done|]. by rewrite drop_ge, take_nil in Hr by (rewrite Hu; lia).
  - rewrite (uwrap_small 64 i) by (unfold urange; lia). destruct (Z.gtb_spec i j) as [Hgt|Hle].
    + cbn [mbind option_bind]. destruct (sdssubstr_ok s v i 0 H) as (s' & -> & Hr); [lia|lia|]. by exists s'.
    + rewrite (proj2 (Z.ltb_lt _ _)) by lia. cbn [guard mbind option_bind]. destruct (sdssubstr_ok s v i (j - i + 1) H) as (s' & -> & Hr); [lia|lia|]. by exists s'.
Qed.

Lemma map_bytes_ok f s v : rep s v -> exists s', map_bytes f s = Some s' /\ rep s' (map f v).
Proof.
  intros H. destruct (rp_buf _ _ H) as [tail Hb]. unfold map_bytes, sdslen. rewrite (rp_len _ _ H), Nat2Z.id.
  assert (Hld : load (buf s) 0 (length v) = Some v) by (rewrite Hb; exact (load_app [] v (0 :: tail) 0 (length v) eq_refl eq_refl)). rewrite Hld. cbn [mbind option_bind].
  assert (Hm : length (map f v) = length v) by apply length_map.
  assert (Hl : length (map f v ++ 0 :: tail) = length (buf s)) by (rewrite Hb, !length_app; congruence).
  rewrite put_bytes_ok by (pose proof (rep_room s v H) as (? & _); lia). change (Z.to_nat 0) with 0%nat.
  rewrite take_0, Hm, Nat.add_0_l, Hb, drop_app_length. cbn [app]. eexists. split; [done|].
  destruct H as [_ Hlen Hf Ha Hs]. split; cbn [buf with_buf hdr_len sdsType hdr_alloc]; rewrite ?Hl, ?Hm; [by exists tail|done..].
Qed.

(** [sdsIncrLen] after bytes were written in the room of the string. *)
Lemma sdsIncrLen_pos s v t : rep s v -> t <> [] -> room s (Z.of_nat (length (v ++ t))) ->
  exists s1 s', put_bytes s (Z.of_nat (length v)) t = Some s1 /\ sdsIncrLen s1 (Z.of_nat (length t)) = Some s' /\ rep s' (v ++ t).
Proof.
  intros H Hne Hr. destruct (rp_buf _ _ H) as [tail Hb]. destruct (rep_written s v H) as [Hs Ha].
  destruct (write_ok s v t (0 :: tail) Hb Hr Hs Ha) as (s1 & s2 & H1 & H2 & H3 & Ht1 & Ha1).
  assert (Hn : 0 < Z.of_nat (length t)) by (destruct t; [done|cbn; lia]). destruct Hr as (R1 & R2 & R3). rewrite length_app in R1, R2, R3.
  exists s1, (sdssetlen s2 (Z.of_nat (length (v ++ t)))). split_and!; [done| |done]. unfold sdsIncrLen.
  destruct (put_bytes_header _ _ _ _ H1) as [_ Hl1]. rewrite Hl1, (rp_len _ _ H), Ht1, Ha1.
  assert (Hg : forall b, b = true -> (x ← guard b; set_byte (sdssetlen s1 (Z.of_nat (length v) + Z.of_nat (length t)))
      (hdr_len (sdssetlen s1 (Z.of_nat (length v) + Z.of_nat (length t)))) 0) = Some (sdssetlen s2 (Z.of_nat (length (v ++ t))))).
  { intros b ->. cbn [guard mbind option_bind hdr_len sdssetlen]. rewrite <- Nat2Z.inj_add, <- length_app in *.
    rewrite uwrap_small by (rewrite Ht1; unfold urange; lia). by apply set_byte_setlen. }
  apply Hg. rewrite max_size in Ha. 
  pose proof (rp_field _ _ H) as Hf. destruct (sdsType s); cbn [field_bits] in *; [|destruct Ha as [Ha' Hm]; [done|]; specialize (R3 ltac:(done))..];
    rewrite ?(uwrap_small 32), ?(uwrap_small 64) by (unfold urange; lia).
  1: destruct (Z.gtb_spec (Z.of_nat (length t)) 0); [|lia]; rewrite (proj2 (Z.ltb_lt (Z.of_nat (length v) + _) _)) by lia; done.
  all: destruct (Z.geb_spec (Z.of_nat (length t)) 0); [|lia]; destruct (Z.geb_spec (hdr_alloc s - Z.of_nat (length v)) (Z.of_nat (length t))); [|lia]; done.
Qed.

Lemma sdsIncrLen_neg s v k : rep s v -> 0 < k <= Z.of_nat (length v) -> Z.of_nat (length v) < 2 ^ 63 ->
  exists s', sdsIncrLen s (- k) = Some s' /\ rep s' (take (length v - Z.to_nat k) v).
Proof.
  intros H Hk Hv. set (w := take _ v). assert (Hw : length w = (length v - Z.to_nat k)%nat) by (unfold w; rewrite length_take; lia).
  destruct (set_end_ok s v w H) as (s2 & Hset & Hrep); [by rewrite Hw|]. exists (sdssetlen s2 (Z.of_nat (length w))). split; [|done].
  unfold sdsIncrLen. rewrite (rp_len _ _ H). pose proof (rp_field _ _ H) as Hf.
  assert (Hg : forall b, b = true -> (x ← guard b; set_byte (sdssetlen s (Z.of_nat (length v) + - k))
      (hdr_len (sdssetlen s (Z.of_nat (length v) + - k))) 0) = Some (sdssetlen s2 (Z.of_nat (length w)))).
  { intros b ->. cbn [guard mbind option_bind hdr_len sdssetlen]. replace (Z.of_nat (length v) + - k) with (Z.of_nat (length w)) by lia.
    rewrite uwrap_small by (unfold urange; lia). by apply set_byte_setlen. }
  apply Hg. rewrite Z.opp_involutive. destruct (sdsType s); cbn [field_bits] in *;
    rewrite ?(uwrap_small 32 k), ?(uwrap_small 64 k) by (unfold urange; lia); apply orb_true_intro; right;
    rewrite (proj2 (Z.ltb_lt (- k) 0)) by lia; destruct (Z.geb_spec (Z.of_nat (length v)) k); lia || done.
Qed.

(** The bytes before the first null byte. *)
Fixpoint c_string (v : bytes) : bytes :=
  match v with [] => [] | x :: v => if x =? 0 then [] else x :: c_string v end.

Lemma c_string_prefix v : c_string v = take (length (c_string v)) v.
Proof. induction v as [|x v IH]; [done|]. cbn. destruct (x =? 0); [done|]. cbn. by f_equal. Qed.

Lemma c_string_id v : Forall (fun x => x <> 0) v -> c_string v = v.
Proof. induction 1 as [|x v Hx _ IH]; [done|]. cbn. by rewrite (proj2 (Z.eqb_neq x 0)), IH. Qed.

Lemma strlen_ok v tail : strlen (v ++ 0 :: tail) = Some (Z.of_nat (length (c_string v))) /\
  exists tail', v ++ 0 :: tail = c_string v ++ 0 :: tail'.
Proof.
  induction v as [|x v [IH [tail' IH']]]; [split; [done|by exists tail]|]. cbn. destruct (Z.eqb_spec x 0) as [->|_].
  - split; [done|]. by eexists.
  - rewrite IH. cbn. split; [f_equal; lia|]. exists tail'. by rewrite IH'.
Qed.

Lemma sdsupdatelen_ok s v : rep s v -> exists s', sdsupdatelen s = Some s' /\ rep s' (c_string v).
Proof.
  intros H. destruct (rp_buf _ _ H) as [tail Hb]. destruct (strlen_ok v tail) as [Hn [tail' Ht]]. unfold sdsupdatelen.
  rewrite Hb, Hn. cbn [mbind option_bind]. eexists. split; [done|]. destruct (rep_written s v H) as [Hs Ha].
  assert (Hle : Z.of_nat (length (c_string v)) <= Z.of_nat (length v)) by (rewrite c_string_prefix, length_take; lia).
  apply (rep_intro s (c_string v) tail'); [pose proof (rp_field _ _ H); lia|by apply (rep_room_le s v)|done|done|by rewrite Hb].
Qed.

(** * Comparison *)

(** The lexicographic order on byte strings. *)
Fixpoint lex (a b : bytes) : comparison :=
  match a, b with
  | [], [] => Eq
  | [], _ => Lt
  | _, [] => Gt
  | x :: a, y :: b => match x ?= y with Eq => lex a b | c => c end
  end.

Lemma memcmp_lex a b a' b' : length a = length b ->
  lex (a ++ a') (b ++ b') = if memcmp a b =? 0 then lex a' b' else memcmp a b ?= 0.
Proof.
  revert b. induction a as [|x a IH]; intros [|y b] Hl; try done. cbn. destruct (Z.eqb_spec x y) as [->|Hne].
  - rewrite Z.compare_refl. apply IH. cbn in Hl. lia.
  - rewrite (proj2 (Z.eqb_neq _ _)) by lia. rewrite <- Z.compare_sub. destruct (x ?= y) eqn:E; [apply Z.compare_eq in E; done|..]; done.
Qed.

Lemma rep_load s v n : rep s v -> (n <= length v)%nat -> load (buf s) 0 n = Some (take n v).
Proof.
  intros H Hn. destruct (rp_buf _ _ H) as [tail Hb]. rewrite load_Some by (rewrite Hb, length_app; lia).
  by rewrite drop_0, Hb, take_app_le.
Qed.

(** [sdscmp] is the lexicographic order of the bytes: its result is
    negative, zero or positive as the first string is before, equal to or after
    the second, a prefix being before a longer string. *)
Theorem sdscmp_lex v1 v2 s1 s2 : rep s1 v1 -> rep s2 v2 -> exists c, sdscmp s1 s2 = Some c /\ (c ?= 0) = lex v1 v2.
Proof.
  intros H1 H2. unfold sdscmp, sdslen. rewrite (rp_len _ _ H1), (rp_len _ _ H2). set (k := Z.to_nat (if _ <? _ then _ else _)).
  assert (Hk : k = (length v1 `min` length v2)%nat) by (unfold k; destruct (Z.ltb_spec (Z.of_nat (length v1)) (Z.of_nat (length v2))); lia).
  rewrite (rep_load s1 v1), (rep_load s2 v2) by (done || lia). cbn [mbind option_bind].
  assert (E : lex v1 v2 = if memcmp (take k v1) (take k v2) =? 0 then lex (drop k v1) (drop k v2) else memcmp (take k v1) (take k v2) ?= 0).
  { rewrite <- memcmp_lex by (rewrite !length_take; lia). by rewrite !take_drop. }
  rewrite E. destruct (memcmp (take k v1) (take k v2) =? 0); [|by eexists]. eexists. split; [done|].
  destruct (Z.gtb_spec (Z.of_nat (length v1)) (Z.of_nat (length v2))) as [Hgt|Hle].
  - rewrite (drop_ge v2) by lia. destruct (drop k v1) eqn:Ed; [apply (f_equal length) in Ed; rewrite length_drop in Ed; cbn in Ed; lia|done].
  - destruct (Z.ltb_spec (Z.of_nat (length v1)) (Z.of_nat (length v2))) as [Hlt|Hge].
    + rewrite (drop_ge v1) by lia. destruct (drop k v2) eqn:Ed; [apply (f_equal length) in Ed; rewrite length_drop in Ed; cbn in Ed; lia|done].
    + by rewrite !drop_ge by lia.
Qed.

(** * Sequences of operations *)

Inductive op :=
| OCat (t : bytes) | OCatSds (t : bytes) | OCpy (t : bytes) | OAppend (t : bytes)
| OClear | OGrowZero (n : Z) | OMakeRoom (n : Z) (greedy : bool)
| OResize (nallocx : option (Z -> Z)) (n : Z) (would_regrow : bool) | ORemoveFreeSpace (nallocx : option (Z -> Z)) (would_regrow : bool)
| OShorten (k : Z) | OTrim (cset : bytes) | OSubstr (start len : Z) | ORange (start end_ : Z)
| OToLower | OToUpper | OUpdateLen | ODup.

(** What an operation does to the bytes. *)
Definition spec (v : bytes) (o : op) : bytes :=
  match o with
  | OCat t | OCatSds t | OAppend t => v ++ t
  | OCpy t => t
  | OClear => []
  | OGrowZero n => v ++ replicate (Z.to_nat n - length v) 0
  | OMakeRoom _ _ | ORemoveFreeSpace _ _ | ODup => v
  | OResize _ n _ => take (Z.to_nat n) v
  | OShorten k => take (length v - Z.to_nat k) v
  | OTrim cset => trim (strchr cset) v
  | OSubstr start len => take (Z.to_nat len) (drop (Z.to_nat start) v)
  | ORange start end_ => range v start end_
  | OToLower => map tolower v
  | OToUpper => map toupper v
  | OUpdateLen => c_string v
  end.

(** The arguments a caller may give: sizes far below the address space, and
    [sdsIncrLen] for bytes that were written or that are there. *)
Definition legal (v : bytes) (o : op) : Prop :=
  match o with
  | OCat t | OCatSds t => Z.of_nat (length v + length t) <= max_len
  | OAppend t => t <> [] /\ Z.of_nat (length v + length t) <= max_len
  | OCpy t => Z.of_nat (length t) <= max_len
  | OGrowZero n | OResize _ n _ => 0 <= n <= max_len
  | OMakeRoom n _ => 0 <= n /\ Z.of_nat (length v) + n <= max_len
  | OShorten k => 0 < k <= Z.of_nat (length v)
  | OSubstr start len => 0 <= start /\ 0 <= len
  | ORange start end_ => - max_len <= start < max_len /\ - max_len <= end_ < max_len
  | _ => True
  end.

Lemma trim_length p v : (length (trim p v) <= length v)%nat.
Proof.
  assert (Hd : forall v, (length (drop_while p v) <= length v)%nat).
  { intros w. destruct (drop_while_suffix p w) as [a Ha]. rewrite Ha at 2. rewrite length_app. lia. }
  unfold trim. rewrite length_reverse. etransitivity; [apply Hd|]. rewrite length_reverse. apply Hd.
Qed.

(** The strings stay below the bound. *)
Lemma spec_length v o : Z.of_nat (length v) <= max_len -> legal v o -> Z.of_nat (length (spec v o)) <= max_len.
Proof.
  intros Hv. destruct o; cbn [legal spec]; intros Hl; rewrite ?length_app, ?length_take, ?length_drop, ?length_replicate; cbn [length]; try (lia || done).
  - pose proof (trim_length (strchr cset) v). lia.
  - unfold range. destruct (_ || _); [cbn; unfold max_len; lia|]. rewrite length_take, length_drop. lia.
  - by rewrite length_map.
  - by rewrite length_map.
  - rewrite c_string_prefix, length_take. lia.
Qed.

Section Runs.
Context `{A : Allocator}.

Definition exec (s : sds) (o : op) : option sds :=
  match o with
  | OCat t => sdscatlen s t
  | OCatSds t => t ← sdsnewlen (Bytes t) 0; sdscatsds s t
  | OAppend t => s' ← sdsMakeRoomFor s (Z.of_nat (length t)); s' ← put_bytes s' (sdslen s) t; sdsIncrLen s' (Z.of_nat (length t))
  | OCpy t => sdscpylen s t
  | OClear => sdsclear s
  | OGrowZero n => sdsgrowzero s n
  | OMakeRoom n greedy => if greedy then sdsMakeRoomFor s n else sdsMakeRoomForNonGreedy s n
  | OResize f n w => sdsResize f s n w
  | ORemoveFreeSpace f w => sdsRemoveFreeSpace f s w
  | OShorten k => sdsIncrLen s (- k)
  | OTrim cset => sdstrim s cset
  | OSubstr start len => sdssubstr s start len
  | ORange start end_ => sdsrange s start end_
  | OToLower => sdstolower s
  | OToUpper => sdstoupper s
  | OUpdateLen => sdsupdatelen s
  | ODup => sdsdup s
  end.

Fixpoint run (s : sds) (ops : list op) : option sds :=
  match ops with [] => Some s | o :: ops => s ← exec s o; run s ops end.

Fixpoint all_legal (v : bytes) (ops : list op) : Prop :=
  match ops with [] => True | o :: ops => legal v o /\ all_legal (spec v o) ops end.

Hypothesis usable_bound : forall n, Z.of_nat n <= 2 ^ 62 -> Z.of_nat (usable n) < 2 ^ 63.

Lemma exec_ok s v o : rep s v -> Z.of_nat (length v) <= max_len -> legal v o ->
  exists s', exec s o = Some s' /\ rep s' (spec v o).
Proof.
  intros H Hv Hl. assert (Hcat : forall t, Z.of_nat (length v + length t) <= max_len -> exists s', sdscatlen s t = Some s' /\ rep s' (v ++ t)).
  { intros t Ht. apply sdscatlen_ok; [done|done|]. rewrite length_app. unfold max_len in *. lia. }
  destruct o; cbn [exec spec legal] in *; unfold max_len in *.
  - by apply Hcat.
  - destruct (sdsnewlen_ok usable_bound (Bytes t) 0) as (s1 & -> & H1); [done|done|cbn; lia|]. cbn [mbind option_bind].
    unfold sdscatsds, sdslen. rewrite (rp_len _ _ H1), Nat2Z.id. destruct (rp_buf _ _ H1) as [tail Hb]. cbn [init_bytes] in *.
    rewrite Hb, take_app_length. by apply Hcat.
  - apply (sdscpylen_ok usable_bound s v); [done|lia].
  - destruct Hl as [Hne Hl]. destruct (makeRoomFor_ok usable_bound s v (Z.of_nat (length t)) true H) as (s1 & Hm & H1 & Hr); [lia|lia|].
    unfold sdsMakeRoomFor, sdslen. rewrite Hm, (rp_len _ _ H). cbn [mbind option_bind].
    destruct (sdsIncrLen_pos s1 v t H1 Hne) as (s2 & s3 & -> & Hi & Hrep); [by rewrite length_app, Nat2Z.inj_add|]. cbn [mbind option_bind]. by exists s3.
  - by apply (sdsclear_ok s v).
  - apply sdsgrowzero_ok; [done|done|lia].
  - destruct (makeRoomFor_ok usable_bound s v n greedy H) as (s1 & Hm & H1 & Hr); [lia|lia|]. exists s1. by destruct greedy.
  - apply sdsResize_ok; [done|done|lia].
  - apply sdsRemoveFreeSpace_ok; [done|done|lia].
  - apply sdsIncrLen_neg; [done|done|lia].
  - by apply sdstrim_ok.
  - apply sdssubstr_ok; [done|lia..].
  - apply sdsrange_ok; [done|lia..].
  - by apply map_bytes_ok.
  - by apply map_bytes_ok.
  - by apply sdsupdatelen_ok.
  - unfold sdsdup, sdslen. rewrite (rp_len _ _ H), Nat2Z.id. destruct (rp_buf _ _ H) as [tail ->]. rewrite take_app_length.
    apply (sdsnewlen_ok usable_bound (Bytes v) 0); [done|done|cbn; lia].
Qed.

Lemma run_ok ops s v : rep s v -> Z.of_nat (length v) <= max_len -> all_legal v ops ->
  exists s', run s ops = Some s' /\ rep s' (foldl spec v ops).
Proof.
  revert s v. induction ops as [|o ops IH]; intros s v H Hv Hl; [by exists s|]. destruct Hl as [Ho Hl]. cbn [run foldl].
  destruct (exec_ok s v o H Hv Ho) as (s1 & -> & H1). cbn [mbind option_bind]. apply IH; [done|by apply spec_length|done].
Qed.

(** C18. Strings compute on byte strings: a string made by [sdsnewlen] and then
    changed by any sequence of operations with legal arguments, by concatenation, copy,
    growth, resizing, trimming, ranges, case changes and [sdsIncrLen], whatever
    block sizes the allocator returns and whatever new memory holds, holds
    after them exactly the bytes that the functions on byte strings give; no
    access leaves the buffer, no assertion fails, the null byte follows the
    string, and the length and allocation fields fit in the header type. *)
Theorem sds_refines_bytes i n ops : i <> Noinit -> 0 <= n -> Z.of_nat (length (init_bytes i n)) <= max_len ->
  all_legal (init_bytes i n) ops ->
  exists s0 s, sdsnewlen i n = Some s0 /\ run s0 ops = Some s /\ rep s (foldl spec (init_bytes i n) ops).
Proof.
  intros Hi Hn Hl Hops. destruct (sdsnewlen_ok usable_bound i n Hi Hn) as (s0 & H0 & Hrep); [unfold max_len in *; lia|].
  destruct (run_ok ops s0 _ Hrep Hl Hops) as (s & Hrun & Hr). by exists s0, s.
Qed.

End Runs.

(** * A concrete run *)

Module Sample.

(** Blocks in steps of 16 bytes, filled with 170. *)
#[local] Instance step_allocator : Allocator := {
  usable n := (n + (16 - n mod 16))%nat;
  junk n := replicate n 170;
  usable_ge n := Nat.le_add_r n (16 - n mod 16);
  junk_length n := length_replicate n 170
}.

Lemma usable_bound n : Z.of_nat n <= 2 ^ 62 -> Z.of_nat (usable n) < 2 ^ 63.
Proof. intros Hn. cbn [usable step_allocator]. lia. Qed.

Definition ops : list op :=
  [OCat [32; 65]; OTrim [32]; OAppend [66; 67]; ORange 2 (-1); OToLower; OGrowZero 40; OResize None 2 false; OShorten 1].

Lemma sds_refines_bytes_witness : exists s0 s, sdsnewlen (Bytes [32; 32; 90]) 0 = Some s0 /\ run s0 ops = Some s /\ rep s [97].
Proof.
  apply (sds_refines_bytes usable_bound (Bytes [32; 32; 90]) 0 ops); [done|done|by vm_compute|].
  cbn. unfold max_len. split_and!; try done; lia.
Defined.

Lemma sdscmp_lex_witness : exists c, sdscmp (mkSds SDS_TYPE_8 2 3 [97; 98; 0; 7]) (mkSds SDS_TYPE_5 3 0 [97; 98; 99; 0]) = Some c /\ (c ?= 0) = Lt.
Proof.
  apply (sdscmp_lex [97; 98] [97; 98; 99]); (split; [by eexists|done|done| |done]); intros ?; cbn; [|done]. split; [lia|done].
Defined.

End Sample.

End SdsSpec.
