(* ===== verification/SdsSplit.v ===== *)
(** Quoting and splitting strings: the functions of sds.c that print a string
    with escapes, split a line into arguments, split a string by a separator and
    join strings.

    The theorems are that a line made of quoted arguments splits back into the
    arguments, that splitting a line always ends and reads nothing past its
    terminator, and that joining what [sdssplitlen] gives is the string again. *)

From S2P Require Import Prelude Sds SdsSpec.

Module SdsSplit.
Import Sds SdsSpec.

(** * Characters, in the C locale *)

Definition isprint (c : Z) : bool := (32 <=? c) && (c <=? 126).
Definition isspace (c : Z) : bool := ((9 <=? c) && (c <=? 13)) || (c =? 32).

Definition is_hex_digit (c : Z) : bool :=
  ((48 <=? c) && (c <=? 57)) || ((97 <=? c) && (c <=? 102)) || ((65 <=? c) && (c <=? 70)).

Definition hex_digit_to_int (c : Z) : Z :=
  if (48 <=? c) && (c <=? 57) then c - 48
  else if (97 <=? c) && (c <=? 102) then c - 87
  else if (65 <=? c) && (c <=? 70) then c - 55
  else 0.

Definition DQ : Z := 34.
Definition SQ : Z := 39.
Definition BS : Z := 92.

(** * Quoting *)

(** A digit of [%02x]. *)
Definition hex_lower (d : Z) : Z := if d <? 10 then 48 + d else 87 + d.

(** What the loop of [sdscatrepr] adds for one byte. *)
Definition repr_byte (c : Z) : bytes :=
  if (c =? BS) || (c =? DQ) then [BS; c]
  else if c =? 10 then [BS; 110]
  else if c =? 13 then [BS; 114]
  else if c =? 9 then [BS; 116]
  else if c =? 7 then [BS; 97]
  else if c =? 8 then [BS; 98]
  else if isprint c then [c]
  else [BS; 120; hex_lower (Z.shiftr c 4); hex_lower (Z.land c 15)].

Section Alloc.
Context `{A : Allocator}.

Fixpoint catrepr_loop (s : sds) (p : bytes) : option sds :=
  match p with [] => Some s | c :: p => s ← sdscatlen s (repr_byte c); catrepr_loop s p end.

Definition sdscatrepr (s : sds) (p : bytes) : option sds :=
  s ← sdsMakeRoomFor s (u64 (Z.of_nat (length p) + 2));
  s ← sdscatlen s [DQ];
  s ← catrepr_loop s p;
  sdscatlen s [DQ].

(** [sdsjoinsds]; [sdsjoin] is the same on C strings. *)
Fixpoint join_loop (join : sds) (argv : list bytes) (sep : bytes) : option sds :=
  match argv with
  | [] => Some join
  | a :: argv =>
    join ← sdscatlen join a;
    match argv with
    | [] => Some join
    | _ => join ← sdscatlen join sep; join_loop join argv sep
    end
  end.
Definition sdsjoinsds (argv : list bytes) (sep : bytes) : option sds := join ← sdsempty; join_loop join argv sep.

End Alloc.

Definition sdsneedsrepr (s : bytes) : bool :=
  existsb (fun c => (c =? BS) || (c =? DQ) || (c =? 10) || (c =? 13) || (c =? 9) || (c =? 7) || (c =? 8) ||
    negb (isprint c) || isspace c) s.

(** * Splitting a line into arguments *)

(** [line\[p\]]: the terminator is the last byte that may be read. *)
Definition ch (line : bytes) (p : nat) : option Z := (line ++ [0]) !! p.

(** The state of the loop on a token. *)
Record tok := mkTok { tp : nat; inq : bool; insq : bool; done_ : bool; current : bytes }.

(** [if ( *p) p++;] *)
Definition advance (line : bytes) (t : tok) : option tok :=
  c ← ch line (tp t);
  Some (if c =? 0 then t else mkTok (S (tp t)) (inq t) (insq t) (done_ t) (current t)).

Definition add (t : tok) (p : nat) (c : Z) : tok := mkTok p (inq t) (insq t) false (current t ++ [c]).
Definition finish (t : tok) : tok := mkTok (tp t) (inq t) (insq t) true (current t).

(** [*p == '\\' && *(p+1) == 'x' && is_hex_digit( *(p+2)) && is_hex_digit( *(p+3))] *)
Definition hex_escape (line : bytes) (p : nat) : option bool :=
  c ← ch line p;
  if negb (c =? BS) then Some false
  else
    c ← ch line (p + 1);
    if negb (c =? 120) then Some false
    else
      c ← ch line (p + 2);
      if negb (is_hex_digit c) then Some false else c ← ch line (p + 3); Some (is_hex_digit c).

Definition escaped (c : Z) : Z :=
  if c =? 110 then 10 else if c =? 114 then 13 else if c =? 116 then 9 else if c =? 98 then 8 else if c =? 97 then 7 else c.

(** The closing quote must be followed by a space or nothing at all: the inner
    [None] is [goto err]. *)
Definition close_quote (line : bytes) (t : tok) : option (option tok) :=
  n ← ch line (tp t + 1);
  if negb (n =? 0) && negb (isspace n) then Some None else Some (Some (finish t)).

Definition in_quotes (line : bytes) (t : tok) : option (option tok) :=
  let p := tp t in
  hex ← hex_escape line p;
  if (hex : bool) then
    a ← ch line (p + 2);
    b ← ch line (p + 3);
    Some (Some (add t (p + 3) (u8 (hex_digit_to_int a * 16 + hex_digit_to_int b))))
  else
    c ← ch line p;
    esc ← (if c =? BS then n ← ch line (p + 1); Some (negb (n =? 0)) else Some false);
    if (esc : bool) then n ← ch line (p + 1); Some (Some (add t (p + 1) (escaped n)))
    else if c =? DQ then close_quote line t
    else if c =? 0 then Some None
    else Some (Some (add t p c)).

Definition in_single_quotes (line : bytes) (t : tok) : option (option tok) :=
  let p := tp t in
  c ← ch line p;
  esc ← (if c =? BS then n ← ch line (p + 1); Some (n =? SQ) else Some false);
  if (esc : bool) then Some (Some (add t (p + 1) SQ))
  else if c =? SQ then close_quote line t
  else if c =? 0 then Some None
  else Some (Some (add t p c)).

Definition no_quotes (line : bytes) (t : tok) : option (option tok) :=
  c ← ch line (tp t);
  Some (Some (if (c =? 32) || (c =? 10) || (c =? 13) || (c =? 9) || (c =? 0) then finish t
    else if c =? DQ then mkTok (tp t) true (insq t) false (current t)
    else if c =? SQ then mkTok (tp t) (inq t) true false (current t)
    else add t (tp t) c)).

Definition token_step (line : bytes) (t : tok) : option (option tok) :=
  r ← (if inq t then in_quotes line t else if insq t then in_single_quotes line t else no_quotes line t);
  match r with None => Some None | Some t => t ← advance line t; Some (Some t) end.

(** [while(!done) ...] *)
Fixpoint token_loop (fuel : nat) (line : bytes) (t : tok) : option (option tok) :=
  if done_ t then Some (Some t)
  else match fuel with
  | O => None
  | S fuel => r ← token_step line t; match r with None => Some None | Some t => token_loop fuel line t end
  end.

(** [while( *p && isspace( *p)) p++;] *)
Fixpoint skip_blanks (fuel : nat) (line : bytes) (p : nat) : option nat :=
  c ← ch line p;
  if negb (c =? 0) && isspace c then match fuel with O => None | S fuel => skip_blanks fuel line (S p) end else Some p.

(** [while(1) ...]: the inner [None] is NULL. *)
Fixpoint split_loop (fuel : nat) (line : bytes) (p : nat) (vector : list bytes) : option (option (list bytes)) :=
  p ← skip_blanks (length line) line p;
  c ← ch line p;
  if c =? 0 then Some (Some vector)
  else match fuel with
  | O => None
  | S fuel =>
    r ← token_loop (2 + length line) line (mkTok p false false false []);
    match r with None => Some None | Some t => split_loop fuel line (tp t) (vector ++ [current t]) end
  end.

Definition sdssplitargs (line : bytes) : option (option (list bytes)) := split_loop (S (length line)) line 0 [].

(** * Splitting by a separator *)

Record split := mkSplit { tokens : list bytes; slots : Z; start : Z }.

(** [tokens\[elements\] = sdsnewlen(s+start, n); elements++]: out of the array is [None]. *)
Definition add_token (s : bytes) (st : split) (n : Z) : option (list bytes) :=
  _ ← guard ((Z.of_nat (length (tokens st)) <? slots st) && (0 <=? n));
  b ← load s (Z.to_nat (start st)) (Z.to_nat n);
  Some (tokens st ++ [b]).

Fixpoint splitlen_loop (fuel : nat) (s sep : bytes) (j : Z) (st : split) : option split :=
  let seplen := Z.of_nat (length sep) in
  if j <? Z.of_nat (length s) - (seplen - 1) then
    let slots' := if slots st <? Z.of_nat (length (tokens st)) + 2 then slots st * 2 else slots st in
    _ ← guard (slots' <? 2 ^ 31);
    let st := mkSplit (tokens st) slots' (start st) in
    w ← load s (Z.to_nat j) (length sep);
    match fuel with
    | O => None
    | S fuel =>
      if memcmp w sep =? 0 then
        ts ← add_token s st (j - start st);
        splitlen_loop fuel s sep (j + seplen - 1 + 1) (mkSplit ts slots' (j + seplen))
      else splitlen_loop fuel s sep (j + 1) st
    end
  else Some st.

(** The inner [None] is NULL. *)
Definition sdssplitlen (s sep : bytes) : option (option (list bytes)) :=
  if (Z.of_nat (length sep) <? 1) || (Z.of_nat (length s) <=? 0) then Some None
  else
    st ← splitlen_loop (length s) s sep 0 (mkSplit [] 5 0);
    ts ← add_token s st (Z.of_nat (length s) - start st);
    Some (Some ts).

(** * Replacing characters *)

Fixpoint replace_char (from to : bytes) (c : Z) : Z :=
  match from, to with f :: from, t :: to => if c =? f then t else replace_char from to c | _, _ => c end.
Definition sdsmapchars (from to : bytes) : sds -> option sds := map_bytes (replace_char from to).

(** * Splitting a line ends *)

Section Line.
Variable line : bytes.
Hypothesis no_nul : Forall (fun c => c <> 0) line.

Lemma ch_some p : (p <= length line)%nat -> exists c, ch line p = Some c /\ (c = 0 <-> p = length line).
Proof.
  intros Hp. unfold ch. destruct (decide (p = length line)) as [->|Hne].
  - exists 0. split; [|done]. by rewrite lookup_app_r, Nat.sub_diag by lia.
  - destruct (lookup_lt_is_Some_2 line p ltac:(lia)) as [c Hc]. exists c. rewrite lookup_app_l by lia. split; [done|].
    split; [|done]. intros ->. by apply (proj1 (Forall_lookup _ _) no_nul p 0) in Hc.
Qed.

Lemma ch_next p c : (p <= length line)%nat -> ch line p = Some c -> c <> 0 -> (S p <= length line)%nat.
Proof. intros Hp Hc H0. destruct (ch_some p Hp) as (c' & Hc' & Hz). rewrite Hc in Hc'. injection Hc' as <-. destruct (decide (p = length line)); [tauto|lia]. Qed.

(** A state after a step: the loop has moved on, or it is done at the end. *)
Definition moved (p : nat) (r : option tok) : Prop :=
  match r with
  | None => True
  | Some t => (tp t <= length line)%nat /\ ((p < tp t)%nat \/ (done_ t = true /\ tp t = length line))
  end.

Lemma advance_ok t p : (p <= tp t <= length line)%nat -> ((tp t < length line)%nat \/ done_ t = true) ->
  exists t', advance line t = Some t' /\ moved p (Some t').
Proof.
  intros Hp Hd. unfold advance. destruct (ch_some (tp t)) as (c & -> & Hz); [lia|]. cbn [mbind option_bind]. eexists. split; [done|].
  destruct (Z.eqb_spec c 0) as [E|E]; cbn.
  - assert (tp t = length line) by tauto. split; [lia|]. right. split; [|done]. destruct Hd; [lia|done].
  - split; [|left; lia]. assert (tp t <> length line) by tauto. lia.
Qed.

Lemma close_quote_ok t c : (tp t <= length line)%nat -> ch line (tp t) = Some c -> c <> 0 ->
  exists r, close_quote line t = Some r /\ match r with None => True | Some t' => tp t' = tp t /\ (tp t < length line)%nat end.
Proof.
  intros Hp Hc H0. pose proof (ch_next _ _ Hp Hc H0). unfold close_quote. destruct (ch_some (tp t + 1)) as (n & -> & _); [lia|].
  cbn [mbind option_bind]. destruct (_ && _); eexists; (split; [done|]); cbn; [done|]. split; [done|lia].
Qed.

(** What a step does before the increment of [p]. *)
Definition stays (p : nat) (r : option tok) : Prop :=
  match r with
  | None => True
  | Some t => (p <= tp t <= length line)%nat /\ ((tp t < length line)%nat \/ done_ t = true)
  end.

Lemma add_stays t p c : (tp t <= p < length line)%nat -> stays (tp t) (Some (add t p c)).
Proof. cbn. lia. Qed.

Lemma close_quote_stays t c : (tp t <= length line)%nat -> ch line (tp t) = Some c -> c <> 0 ->
  exists r, close_quote line t = Some r /\ stays (tp t) r.
Proof.
  intros Hp Hc H0. destruct (close_quote_ok t c Hp Hc H0) as (r & -> & Hr). exists r. split; [done|]. destruct r as [t'|]; [|done]. cbn in *. lia.
Qed.

Lemma hex_escape_ok p : (p <= length line)%nat -> exists b, hex_escape line p = Some b /\ (b = true -> (p + 4 <= length line)%nat).
Proof.
  intros Hp. unfold hex_escape. destruct (ch_some p Hp) as (c & Hc & _). rewrite Hc. cbn [mbind option_bind].
  destruct (Z.eqb_spec c BS) as [->|]; [|by exists false]. cbn [negb]. pose proof (ch_next _ _ Hp Hc ltac:(done)) as H1.
  destruct (ch_some (p + 1)) as (c1 & Hc1 & _); [lia|]. rewrite Hc1. cbn [mbind option_bind].
  destruct (Z.eqb_spec c1 120) as [->|]; [|by exists false]. cbn [negb]. pose proof (ch_next (p + 1) _ ltac:(lia) Hc1 ltac:(done)) as H2.
  destruct (ch_some (p + 2)) as (c2 & Hc2 & Hz2); [lia|]. rewrite Hc2. cbn [mbind option_bind].
  destruct (is_hex_digit c2) eqn:Ed; [|by exists false]. cbn [negb].
  pose proof (ch_next (p + 2) _ ltac:(lia) Hc2 ltac:(by intros ->)) as H3. destruct (ch_some (p + 3)) as (c3 & Hc3 & _); [lia|]. rewrite Hc3.
  cbn [mbind option_bind]. eexists. split; [done|]. intros Ed3. pose proof (ch_next (p + 3) _ ltac:(lia) Hc3 ltac:(by intros ->)). lia.
Qed.

Lemma in_quotes_ok (t : tok) : (tp t <= length line)%nat -> exists r, in_quotes line t = Some r /\ stays (tp t) r.
Proof.
  intros Hp. unfold in_quotes. destruct (hex_escape_ok (tp t) Hp) as (b & -> & Hb). cbn [mbind option_bind]. destruct b.
  - specialize (Hb eq_refl). destruct (ch_some (tp t + 2)) as (c2 & -> & _); [lia|]. destruct (ch_some (tp t + 3)) as (c3 & -> & _); [lia|].
    cbn [mbind option_bind]. eexists. split; [done|]. apply add_stays. lia.
  - destruct (ch_some (tp t) Hp) as (c & Hc & Hz). rewrite Hc. cbn [mbind option_bind].
    assert (He : exists b, (if c =? BS then n ← ch line (tp t + 1); Some (negb (n =? 0)) else Some false) = Some b /\
      (b = true -> exists n, ch line (tp t + 1) = Some n /\ n <> 0)).
    { destruct (Z.eqb_spec c BS) as [->|]; [|by exists false]. pose proof (ch_next _ _ Hp Hc ltac:(done)).
      destruct (ch_some (tp t + 1)) as (n & -> & _); [lia|]. cbn [mbind option_bind]. eexists. split; [done|]. intros Hn. exists n. split; [done|].
      by intros ->. }
    destruct He as (b & -> & Hn). cbn [mbind option_bind]. destruct b.
    + destruct (Hn eq_refl) as (n & Hcn & H0). rewrite Hcn. cbn [mbind option_bind]. eexists. split; [done|]. apply add_stays.
      assert (tp t + 1 <= length line)%nat by (unfold ch in Hcn; apply lookup_lt_Some in Hcn; rewrite length_app in Hcn; cbn in Hcn; lia).
      pose proof (ch_next (tp t + 1) _ ltac:(lia) Hcn H0). lia.
    + destruct (Z.eqb_spec c DQ) as [->|]; [by apply (close_quote_stays t DQ)|]. destruct (Z.eqb_spec c 0) as [->|E]; [by exists None|].
      eexists. split; [done|]. apply add_stays. pose proof (ch_next _ _ Hp Hc E). lia.
Qed.

Lemma in_single_quotes_ok t : (tp t <= length line)%nat -> exists r, in_single_quotes line t = Some r /\ stays (tp t) r.
Proof.
  intros Hp. unfold in_single_quotes. destruct (ch_some (tp t) Hp) as (c & Hc & Hz). rewrite Hc. cbn [mbind option_bind].
  assert (He : exists b, (if c =? BS then n ← ch line (tp t + 1); Some (n =? SQ) else Some false) = Some b /\
      (b = true -> (tp t + 1 < length line)%nat)).
  { destruct (Z.eqb_spec c BS) as [->|]; [|by exists false]. pose proof (ch_next _ _ Hp Hc ltac:(done)).
    destruct (ch_some (tp t + 1)) as (n & Hcn & _); [lia|]. rewrite Hcn. cbn [mbind option_bind]. eexists. split; [done|].
    intros ->%Z.eqb_eq. pose proof (ch_next (tp t + 1) _ ltac:(lia) Hcn ltac:(done)). lia. }
  destruct He as (b & -> & Hn). cbn [mbind option_bind]. destruct b; [eexists; split; [done|]; apply add_stays; specialize (Hn eq_refl); lia|].
  destruct (Z.eqb_spec c SQ) as [->|]; [by apply (close_quote_stays t SQ)|]. destruct (Z.eqb_spec c 0) as [->|E]; [by exists None|].
  eexists. split; [done|]. apply add_stays. pose proof (ch_next _ _ Hp Hc E). lia.
Qed.

Lemma no_quotes_ok t : (tp t <= length line)%nat -> exists r, no_quotes line t = Some r /\ stays (tp t) r.
Proof.
  intros Hp. unfold no_quotes. destruct (ch_some (tp t) Hp) as (c & Hc & Hz). rewrite Hc. cbn [mbind option_bind]. eexists. split; [done|].
  destruct (_ || _ || _ || _ || _) eqn:E; [cbn; lia|]. assert (c <> 0) by lia.
  pose proof (ch_next _ _ Hp Hc ltac:(done)). destruct (c =? DQ); [cbn; lia|]. destruct (c =? SQ); cbn; lia.
Qed.

Lemma token_step_ok t : (tp t <= length line)%nat -> exists r, token_step line t = Some r /\ moved (tp t) r.
Proof.
  intros Hp. unfold token_step.
  assert (Hr : exists r, (if inq t then in_quotes line t else if insq t then in_single_quotes line t else no_quotes line t) = Some r /\ stays (tp t) r)
    by (destruct (inq t); [by apply in_quotes_ok|]; destruct (insq t); [by apply in_single_quotes_ok|by apply no_quotes_ok]).
  destruct Hr as (r & -> & Hr). cbn [mbind option_bind]. destruct r as [t'|]; [|by exists None]. destruct Hr as [H1 H2].
  destruct (advance_ok t' (tp t) H1 H2) as (t2 & -> & Hm). cbn [mbind option_bind]. by exists (Some t2).
Qed.

Lemma token_loop_ok fuel t : (tp t <= length line)%nat -> (length line - tp t < fuel)%nat -> done_ t = false ->
  exists r, token_loop fuel line t = Some r /\ match r with None => True | Some t' => (tp t <= tp t' <= length line)%nat end.
Proof.
  revert t. induction fuel as [|fuel IH]; intros t Hp Hf Hd; [lia|]. cbn [token_loop]. rewrite Hd.
  destruct (token_step_ok t Hp) as (r & -> & Hm). cbn [mbind option_bind]. destruct r as [t'|]; [|by exists None]. destruct Hm as [H1 H2].
  destruct (done_ t') eqn:Hd'.
  - exists (Some t'). destruct fuel; cbn [token_loop]; rewrite Hd'; (split; [done|lia]).
  - destruct H2 as [H2|[? _]]; [|done]. destruct (IH t' H1 ltac:(lia) Hd') as (r & -> & Hr). exists r. split; [done|]. destruct r; [lia|done].
Qed.

Lemma skip_blanks_ok fuel p : (p <= length line)%nat -> (length line - p <= fuel)%nat -> exists p' c, skip_blanks fuel line p = Some p' /\
  (p <= p' <= length line)%nat /\ ch line p' = Some c /\ (c = 0 \/ isspace c = false).
Proof.
  revert p. induction fuel as [|fuel IH]; intros p Hp Hf; cbn [skip_blanks]; destruct (ch_some p Hp) as (c & Hc & Hz); rewrite Hc; cbn [mbind option_bind];
    destruct (Z.eqb_spec c 0) as [E|E]; cbn [negb andb].
  - exists p, c. split_and!; [done|lia|lia|done|by left].
  - exfalso. apply E, Hz. lia.
  - exists p, c. split_and!; [done|lia|lia|done|by left].
  - destruct (isspace c) eqn:Hs; [|exists p, c; split_and!; [done|lia|lia|done|by right]].
    pose proof (ch_next _ _ Hp Hc E). destruct (IH (S p) ltac:(lia) ltac:(lia)) as (p' & c' & H1 & H2 & H3). exists p', c'. split_and!; [done|lia|lia|tauto..].
Qed.

(** The first step of a token takes its first byte. *)
Lemma first_step_ok p c fuel : (p <= length line)%nat -> (length line - p < fuel)%nat -> ch line p = Some c -> c <> 0 -> isspace c = false ->
  exists r, token_loop fuel line (mkTok p false false false []) = Some r /\ match r with None => True | Some t' => (p < tp t' <= length line)%nat end.
Proof.
  intros Hp Hf Hc H0 Hs. destruct fuel as [|fuel]; [lia|]. cbn [token_loop done_].
  destruct (token_step_ok (mkTok p false false false []) Hp) as (r & Hr & Hm). rewrite Hr. cbn [mbind option_bind]. destruct r as [t'|]; [|by exists None].
  destruct Hm as [H1 H2]. cbn [tp] in H2. assert (Hd : done_ t' = false).
  { unfold token_step, no_quotes in Hr. cbn [inq insq tp] in Hr. rewrite Hc in Hr. cbn [mbind option_bind] in Hr.
    assert (Hsp : ((c =? 32) || (c =? 10) || (c =? 13) || (c =? 9) || (c =? 0)) = false) by (unfold isspace in Hs; lia). rewrite Hsp in Hr.
    unfold advance in Hr. destruct (c =? DQ); [|destruct (c =? SQ)]; cbn [tp add mbind option_bind] in Hr; rewrite Hc in Hr; cbn [mbind option_bind] in Hr;
      injection Hr as <-; rewrite (proj2 (Z.eqb_neq c 0)) by done; done. }
  destruct H2 as [H2|[? _]]; [|congruence]. destruct (token_loop_ok fuel t' H1 ltac:(lia) Hd) as (r & -> & Hr'). exists r. split; [done|]. destruct r; [lia|done].
Qed.

Lemma split_loop_ok fuel p vector : (p <= length line)%nat -> (length line - p < fuel)%nat -> exists r, split_loop fuel line p vector = Some r.
Proof.
  revert p vector. induction fuel as [|fuel IH]; intros p vector Hp Hf; [lia|]. cbn [split_loop].
  destruct (skip_blanks_ok (length line) p Hp ltac:(lia)) as (p' & c & -> & Hp' & Hc & Hs). cbn [mbind option_bind]. rewrite Hc. cbn [mbind option_bind].
  destruct (Z.eqb_spec c 0) as [E|E]; [by eexists|]. destruct Hs as [|Hs]; [done|].
  destruct (first_step_ok p' c (2 + length line)) as (r & -> & Hr); [lia|lia|done|done|done|]. cbn [mbind option_bind]. destruct r as [t|]; [|by eexists].
  apply IH; lia.
Qed.

End Line.

(** C37. [sdssplitargs] ends on every line: for any null-terminated line, however
    its quotes and escapes are mixed, the loops end, nothing is read past the
    terminator, and the result is a vector of arguments or NULL. *)
Theorem sdssplitargs_total line : Forall (fun c => c <> 0) line -> exists r, sdssplitargs line = Some r.
Proof. intros Hn. apply split_loop_ok; [done|lia|lia]. Qed.

(** * Quoted arguments split back *)

Definition repr (p : bytes) : bytes := DQ :: concat (map repr_byte p) ++ [DQ].

Fixpoint join (sep : bytes) (l : list bytes) : bytes :=
  match l with [] => [] | a :: l => match l with [] => a | _ => a ++ sep ++ join sep l end end.

Lemma join_cons2 sep a b l : join sep (a :: b :: l) = a ++ sep ++ join sep (b :: l).
Proof. done. Qed.

Lemma join_cons sep a l : join sep (a :: l) = a ++ concat (map (app sep) l).
Proof.
  revert a. induction l as [|b l IH]; intros a; [cbn; by rewrite app_nil_r|].
  rewrite join_cons2, IH. cbn [map concat]. by rewrite <- app_assoc.
Qed.

Lemma ch_app pre l k : ch (pre ++ l) (length pre + k) = ch l k.
Proof. unfold ch. rewrite <- app_assoc, lookup_app_r by lia. f_equal. lia. Qed.

Lemma ch_app0 pre l : ch (pre ++ l) (length pre) = ch l 0.
Proof. rewrite <- (Nat.add_0_r (length pre)) at 1. apply ch_app. Qed.

Definition hex_ok (c : Z) : bool :=
  let a := hex_lower (Z.shiftr c 4) in
  let b := hex_lower (Z.land c 15) in
  is_hex_digit a && is_hex_digit b && (u8 (hex_digit_to_int a * 16 + hex_digit_to_int b) =? c) && negb (b =? 0).

Lemma hex_bytes c : urange 8 c -> hex_ok c = true.
Proof. revert c. apply (byte_forall (fun c => hex_ok c = true)). by vm_compute. Qed.

(** The three forms of a quoted byte. *)
Inductive quoted (c : Z) : bytes -> Prop :=
| quoted_plain : c <> BS -> c <> DQ -> c <> 0 -> quoted c [c]
| quoted_escape e : e <> 120 -> e <> 0 -> escaped e = c -> quoted c [BS; e]
| quoted_hex a b : is_hex_digit a = true -> is_hex_digit b = true -> u8 (hex_digit_to_int a * 16 + hex_digit_to_int b) = c -> b <> 0 ->
    quoted c [BS; 120; a; b].

Lemma repr_byte_quoted c : urange 8 c -> quoted c (repr_byte c).
Proof.
  intros Hc. pose proof (hex_bytes c Hc) as Hh. unfold hex_ok in Hh. unfold repr_byte.
  destruct ((c =? BS) || (c =? DQ)) eqn:E1; [constructor; unfold BS, DQ in *; [lia|lia|]; unfold escaped; repeat case_match; lia|].
  destruct (Z.eqb_spec c 10) as [->|?]; [by constructor|].
  destruct (Z.eqb_spec c 13) as [->|?]; [by constructor|].
  destruct (Z.eqb_spec c 9) as [->|?]; [by constructor|].
  destruct (Z.eqb_spec c 7) as [->|?]; [by constructor|].
  destruct (Z.eqb_spec c 8) as [->|?]; [by constructor|].
  destruct (isprint c) eqn:E2; [constructor; unfold isprint, BS, DQ in *; lia|].
  constructor; lia.
Qed.

Lemma advance_at line t c : ch line (tp t) = Some c -> c <> 0 ->
  advance line t = Some (mkTok (S (tp t)) (inq t) (insq t) (done_ t) (current t)).
Proof. intros Hc H0. unfold advance. rewrite Hc. cbn [mbind option_bind]. by rewrite (proj2 (Z.eqb_neq _ _)). Qed.

Lemma in_quotes_quoted pre c q rest cur : quoted c q -> exists k x,
  in_quotes (pre ++ q ++ rest) (mkTok (length pre) true false false cur) = Some (Some (mkTok (length pre + k) true false false (cur ++ [c]))) /\
  S k = length q /\ ch (pre ++ q ++ rest) (length pre + k) = Some x /\ x <> 0.
Proof.
  intros Hq. unfold in_quotes, hex_escape. cbn [tp]. rewrite ch_app0, !ch_app.
  destruct Hq as [H1 H2 H3|e H1 H2 H3|a b H1 H2 H3 H4];
    [exists 0%nat, c|exists 1%nat, e|exists 3%nat, b]; (split_and!; [|done|by rewrite ch_app|done]); unfold ch; cbn [app lookup list_lookup mbind option_bind].
  - rewrite (proj2 (Z.eqb_neq c BS)), (proj2 (Z.eqb_neq c DQ)), (proj2 (Z.eqb_neq c 0)) by done.
    cbn [negb mbind option_bind]. unfold add. cbn [inq insq current]. by rewrite Nat.add_0_r.
  - cbn [Z.eqb Pos.eqb negb BS]. rewrite (proj2 (Z.eqb_neq e 120)) by done. cbn [Z.eqb Pos.eqb negb mbind option_bind].
    rewrite (proj2 (Z.eqb_neq e 0)) by done. cbn [negb mbind option_bind]. by rewrite H3.
  - cbn [Z.eqb Pos.eqb negb BS]. rewrite H1. cbn [negb mbind option_bind]. rewrite H2. cbn [mbind option_bind]. by rewrite H3.
Qed.

Lemma token_step_quoted pre c q rest cur : quoted c q ->
  token_step (pre ++ q ++ rest) (mkTok (length pre) true false false cur) = Some (Some (mkTok (length (pre ++ q)) true false false (cur ++ [c]))).
Proof.
  intros Hq. destruct (in_quotes_quoted pre c q rest cur Hq) as (k & x & Hi & Hk & Hc & H0). unfold token_step. cbn [inq]. rewrite Hi.
  cbn [mbind option_bind]. rewrite (advance_at _ _ x) by done. cbn [mbind option_bind tp inq insq done_ current].
  do 3 f_equal. rewrite length_app. lia.
Qed.

(** The rest of a line after a quoted argument. *)
Definition ends_token (rest : bytes) : Prop := match rest with [] => True | c :: _ => c = 32 end.

Lemma token_step_close pre rest cur : ends_token rest ->
  token_step (pre ++ DQ :: rest) (mkTok (length pre) true false false cur) = Some (Some (mkTok (S (length pre)) true false true cur)).
Proof.
  intros Hr. unfold token_step. cbn [inq]. unfold in_quotes, hex_escape, close_quote. cbn [tp]. rewrite !ch_app0, !ch_app.
  assert (Hn : exists n, ch (DQ :: rest) 1 = Some n /\ (n = 0 \/ n = 32)) by (destruct rest as [|c rest]; [exists 0|exists c]; cbn; tauto).
  destruct Hn as (n & Hn & Hz). rewrite Hn. unfold ch. cbn [app lookup list_lookup mbind option_bind Z.eqb Pos.eqb DQ BS negb].
  assert (E : negb (n =? 0) && negb (isspace n) = false) by (destruct Hz as [-> | ->]; done). rewrite E. cbn [mbind option_bind].
  by rewrite (advance_at _ _ DQ) by (cbn [tp finish]; rewrite ?ch_app0; done).
Qed.

Lemma token_loop_quoted pre a rest cur fuel : bytes_ok a -> ends_token rest -> (S (length a) <= fuel)%nat ->
  token_loop fuel (pre ++ concat (map repr_byte a) ++ DQ :: rest) (mkTok (length pre) true false false cur) =
    Some (Some (mkTok (length (pre ++ concat (map repr_byte a) ++ [DQ])) true false true (cur ++ a))).
Proof.
  intros Ha Hr. revert pre cur fuel. induction a as [|c a IH]; intros pre cur fuel Hf; (destruct fuel as [|fuel]; [cbn in Hf; lia|]); cbn [token_loop done_].
  - cbn [map concat app]. rewrite token_step_close by done. cbn [mbind option_bind]. rewrite app_nil_r, length_app, Nat.add_1_r. by destruct fuel.
  - apply Forall_cons in Ha as [Hc Ha]. cbn [map concat]. rewrite <- app_assoc, (token_step_quoted pre c) by (by apply repr_byte_quoted).
    cbn [mbind option_bind]. rewrite (app_assoc pre), IH by (done || cbn in Hf; lia). by rewrite <- !app_assoc.
Qed.

(** A quoted argument is a token. *)
Lemma token_loop_repr pre a rest fuel : bytes_ok a -> ends_token rest -> (2 + length a <= fuel)%nat ->
  token_loop fuel (pre ++ repr a ++ rest) (mkTok (length pre) false false false []) = Some (Some (mkTok (length (pre ++ repr a)) true false true a)).
Proof.
  intros Ha Hr Hf. destruct fuel as [|fuel]; [lia|]. cbn [token_loop done_]. unfold token_step, no_quotes. cbn [inq insq tp].
  unfold repr. cbn [app]. rewrite ch_app0. unfold ch at 1. cbn [app lookup list_lookup mbind option_bind Z.eqb Pos.eqb DQ orb].
  rewrite (advance_at _ _ DQ) by (cbn [tp]; rewrite ?ch_app0; done). cbn [mbind option_bind tp inq insq done_ current].
  pose proof (token_loop_quoted (pre ++ [DQ]) a rest [] fuel Ha Hr ltac:(lia)) as H. rewrite length_app in H. cbn [length] in H. rewrite Nat.add_1_r in H.
  rewrite <- !app_assoc in H. rewrite <- app_assoc. exact H.
Qed.

Lemma skip_blanks_space pre sp rest fuel : (length sp <= fuel)%nat -> Forall (fun c => c = 32) sp ->
  skip_blanks fuel (pre ++ sp ++ DQ :: rest) (length pre) = Some (length (pre ++ sp)).
Proof.
  revert pre fuel. induction sp as [|c sp IH]; intros pre fuel Hf Hs.
  - rewrite app_nil_r. destruct fuel; cbn [skip_blanks]; rewrite ch_app0; done.
  - apply Forall_cons in Hs as [-> Hs]. destruct fuel as [|fuel]; [cbn in Hf; lia|]. cbn [skip_blanks]. rewrite ch_app0.
    unfold ch at 1. cbn [app lookup list_lookup mbind option_bind Z.eqb Pos.eqb negb andb isspace orb]. cbn [Z.leb Z.compare Pos.compare Pos.compare_cont andb orb].
    pose proof (IH (pre ++ [32]) fuel ltac:(cbn in Hf; lia) Hs) as H. rewrite <- !app_assoc, length_app in H. cbn [length] in H. rewrite Nat.add_1_r in H. exact H.
Qed.

Lemma skip_blanks_end pre fuel : skip_blanks fuel pre (length pre) = Some (length pre) /\ ch pre (length pre) = Some 0.
Proof. assert (H : ch pre (length pre) = Some 0) by (rewrite <- (app_nil_r pre) at 1; by rewrite ch_app0). destruct fuel; cbn [skip_blanks]; by rewrite H. Qed.

Lemma repr_length a : (length a + 2 <= length (repr a))%nat.
Proof.
  unfold repr. cbn. rewrite length_app. cbn. assert (H : (length a <= length (concat (map repr_byte a)))%nat); [|lia].
  induction a as [|c a IH]; [done|]. cbn. rewrite length_app. assert (1 <= length (repr_byte c))%nat by (unfold repr_byte; repeat case_match; cbn; lia). lia.
Qed.

Lemma split_loop_repr pre sp a rest fuel vector : bytes_ok a -> ends_token rest -> Forall (fun c => c = 32) sp ->
  split_loop (S fuel) (pre ++ sp ++ repr a ++ rest) (length pre) vector =
    split_loop fuel (pre ++ sp ++ repr a ++ rest) (length (pre ++ sp ++ repr a)) (vector ++ [a]).
Proof.
  intros Ha Hr Hs. cbn [split_loop]. pose proof (repr_length a) as Hl.
  assert (E : skip_blanks (length (pre ++ sp ++ repr a ++ rest)) (pre ++ sp ++ repr a ++ rest) (length pre) = Some (length (pre ++ sp)))
    by (apply skip_blanks_space; [rewrite !length_app; lia|done]).
  rewrite E. cbn [mbind option_bind]. rewrite (app_assoc pre sp), ch_app0. change (ch (repr a ++ rest) 0) with (Some DQ). cbn [mbind option_bind Z.eqb DQ].
  rewrite token_loop_repr by first [done | rewrite !length_app; lia]. cbn [mbind option_bind tp current]. by rewrite <- !app_assoc.
Qed.

Lemma split_loop_args args : Forall bytes_ok args -> forall pre fuel vector, (length args <= fuel)%nat ->
  split_loop fuel (pre ++ concat (map (app [32]) (map repr args))) (length pre) vector = Some (Some (vector ++ args)).
Proof.
  induction 1 as [|a args Ha Hargs IH]; intros pre fuel vector Hf.
  - cbn [map concat]. rewrite !app_nil_r. destruct (skip_blanks_end pre (length pre)) as [H1 H2].
    destruct fuel; cbn [split_loop]; rewrite H1; cbn [mbind option_bind]; by rewrite H2.
  - destruct fuel as [|fuel]; [cbn in Hf; lia|]. cbn [map concat]. rewrite <- (app_assoc [32]). rewrite split_loop_repr; [|done| |by repeat constructor].
    + pose proof (IH (pre ++ [32] ++ repr a) fuel (vector ++ [a]) ltac:(cbn in Hf; lia)) as H. rewrite <- !app_assoc in H. exact H.
    + by destruct args.
Qed.

(** A line of quoted arguments, with a space between them. *)
Lemma split_args_repr args : Forall bytes_ok args -> sdssplitargs (join [32] (map repr args)) = Some (Some args).
Proof.
  intros H. unfold sdssplitargs. destruct H as [|a args Ha Hargs]; [done|]. cbn [map]. rewrite join_cons. set (rest := concat _).
  pose proof (split_loop_repr [] [] a rest) as Hs. cbn [app] in Hs. rewrite Hs; [|done|unfold rest; by destruct args|done]. unfold rest.
  rewrite split_loop_args; [done|done|]. clear. rewrite length_app. assert (H : (length args <= length (concat (map (app [32%Z]) (map repr args))))%nat); [|lia].
  induction args as [|b args IH]; [done|]. cbn [map concat]. rewrite !length_app. cbn [length]. lia.
Qed.

(** ** Printing the arguments *)

Section Alloc.
Context `{A : Allocator}.
Hypothesis usable_bound : forall n, Z.of_nat n <= 2 ^ 62 -> Z.of_nat (usable n) < 2 ^ 63.

Lemma catrepr_loop_ok p s v : rep s v -> Z.of_nat (length (v ++ concat (map repr_byte p))) <= max_len ->
  exists s', catrepr_loop s p = Some s' /\ rep s' (v ++ concat (map repr_byte p)).
Proof.
  revert s v. induction p as [|c p IH]; intros s v H Hl; cbn [catrepr_loop map concat] in *; [exists s; by rewrite app_nil_r|].
  rewrite app_assoc in *. destruct (sdscatlen_ok usable_bound s v (repr_byte c) H) as (s1 & -> & H1);
    [rewrite (length_app (v ++ repr_byte c)) in Hl; unfold max_len in Hl; lia|]. cbn [mbind option_bind]. by apply IH.
Qed.

Lemma sdscatrepr_ok p s v : rep s v -> Z.of_nat (length (v ++ repr p)) <= max_len ->
  exists s', sdscatrepr s p = Some s' /\ rep s' (v ++ repr p).
Proof.
  intros H Hl. pose proof (repr_length p) as Hp. pose proof (length_app v (repr p)) as El. unfold max_len in Hl.
  unfold sdscatrepr, sdsMakeRoomFor. rewrite uwrap_small by (unfold urange; lia).
  destruct (makeRoomFor_ok usable_bound s v (Z.of_nat (length p) + 2) true H) as (s1 & -> & H1 & _); [lia|lia|]. cbn [mbind option_bind].
  assert (E : v ++ repr p = ((v ++ [DQ]) ++ concat (map repr_byte p)) ++ [DQ]) by (unfold repr; by rewrite <- !app_assoc).
  rewrite E in *. rewrite length_app in Hl.
  destruct (sdscatlen_ok usable_bound s1 v [DQ] H1) as (s2 & -> & H2); [rewrite (length_app (v ++ [DQ])) in Hl; lia|]. cbn [mbind option_bind].
  destruct (catrepr_loop_ok p s2 _ H2) as (s3 & -> & H3); [unfold max_len; lia|]. cbn [mbind option_bind].
  apply (sdscatlen_ok usable_bound); [done|]. rewrite length_app. lia.
Qed.

(** A line of quoted arguments, printed one after the other. *)
Fixpoint cat_args (s : sds) (args : list bytes) : option sds :=
  match args with
  | [] => Some s
  | a :: args =>
    s ← sdscatrepr s a;
    match args with [] => Some s | _ => s ← sdscatlen s [32]; cat_args s args end
  end.

Lemma cat_args_ok args s v : rep s v -> Z.of_nat (length (v ++ join [32] (map repr args))) <= max_len ->
  exists s', cat_args s args = Some s' /\ rep s' (v ++ join [32] (map repr args)).
Proof.
  revert s v. induction args as [|a args IH]; intros s v H Hl; [exists s; split; [done|]; by rewrite app_nil_r|].
  destruct args as [|b args].
  { cbn [cat_args]. destruct (sdscatrepr_ok a s v H Hl) as (s1 & -> & H1). by exists s1. }
  change (cat_args s (a :: b :: args)) with (s ← sdscatrepr s a; s ← sdscatlen s [32]; cat_args s (b :: args)).
  change (map repr (a :: b :: args)) with (repr a :: repr b :: map repr args) in *. rewrite join_cons2 in *.
  change (repr b :: map repr args) with (map repr (b :: args)) in *. set (r := join [32] (map repr (b :: args))) in *.
  assert (E : v ++ repr a ++ [32] ++ r = ((v ++ repr a) ++ [32]) ++ r) by (by rewrite <- !app_assoc). rewrite E in *.
  rewrite (length_app ((v ++ repr a) ++ [32])), (length_app (v ++ repr a)) in Hl. cbn [length] in Hl.
  destruct (sdscatrepr_ok a s v H) as (s1 & -> & H1); [lia|]. cbn [mbind option_bind].
  destruct (sdscatlen_ok usable_bound s1 (v ++ repr a) [32] H1) as (s2 & -> & H2); [rewrite (length_app (v ++ repr a)); cbn [length]; unfold max_len in *; lia|].
  cbn [mbind option_bind]. apply IH; [done|]. rewrite (length_app ((v ++ repr a) ++ [32])), (length_app (v ++ repr a)). cbn [length]. lia.
Qed.

(** C36. Quoting round trip: any list of arguments, with any bytes in them, printed
    into a string with [sdscatrepr] and a space between them, splits with
    [sdssplitargs] back into the same arguments. *)
Theorem repr_splitargs_roundtrip args s : Forall bytes_ok args -> rep s [] -> Z.of_nat (length (join [32] (map repr args))) <= max_len ->
  exists s' line, cat_args s args = Some s' /\ rep s' line /\ sdssplitargs line = Some (Some args).
Proof.
  intros Hb H Hl. destruct (cat_args_ok args s [] H Hl) as (s' & Hs & Hr). exists s', (join [32] (map repr args)).
  split_and!; [done|done|by apply split_args_repr].
Qed.

Lemma join_loop_ok sep argv join_ v : rep join_ v -> Z.of_nat (length (v ++ join sep argv)) <= max_len ->
  exists s', join_loop join_ argv sep = Some s' /\ rep s' (v ++ join sep argv).
Proof.
  revert join_ v. induction argv as [|a argv IH]; intros s v H Hl; [exists s; split; [done|]; by rewrite app_nil_r|].
  destruct argv as [|b argv].
  { cbn [join_loop join] in *. destruct (sdscatlen_ok usable_bound s v a H) as (s1 & -> & H1); [unfold max_len in *; lia|]. by exists s1. }
  change (join_loop s (a :: b :: argv) sep) with (s ← sdscatlen s a; s ← sdscatlen s sep; join_loop s (b :: argv) sep).
  rewrite join_cons2 in *. set (r := join sep (b :: argv)) in *.
  assert (E : v ++ a ++ sep ++ r = ((v ++ a) ++ sep) ++ r) by (by rewrite <- !app_assoc). rewrite E in *.
  rewrite (length_app ((v ++ a) ++ sep)) in Hl. pose proof (length_app (v ++ a) sep) as Hl1. unfold max_len in Hl.
  destruct (sdscatlen_ok usable_bound s v a H) as (s1 & -> & H1); [lia|]. cbn [mbind option_bind].
  destruct (sdscatlen_ok usable_bound s1 (v ++ a) sep H1) as (s2 & -> & H2); [lia|]. cbn [mbind option_bind].
  apply IH; [done|]. rewrite (length_app ((v ++ a) ++ sep)). unfold max_len. lia.
Qed.

Lemma sdsjoinsds_ok sep argv : Z.of_nat (length (join sep argv)) <= max_len ->
  exists s, sdsjoinsds argv sep = Some s /\ rep s (join sep argv).
Proof.
  intros Hl. unfold sdsjoinsds, sdsempty. destruct (sdsnewlen_ok usable_bound (Bytes []) 0) as (s & -> & H); [done..|].
  cbn [mbind option_bind]. by apply (join_loop_ok sep argv s []).
Qed.

End Alloc.

(** * Splitting by a separator *)

Lemma memcmp_eq a b : length a = length b -> (memcmp a b =? 0) = bool_decide (a = b).
Proof.
  revert b. induction a as [|x a IH]; intros [|y b] Hl; try done. cbn. destruct (Z.eqb_spec x y) as [->|Hne].
  - rewrite IH by (cbn in Hl; lia). apply bool_decide_ext. naive_solver.
  - rewrite (proj2 (Z.eqb_neq _ _)) by lia. symmetry. apply bool_decide_eq_false_2. by intros [= ? ?].
Qed.

Section Split.
Variables s sep : bytes.
Hypothesis sep_ne : sep <> [].
Hypothesis small : Z.of_nat (length s) < 2 ^ 29.

Definition occurs (t : bytes) : Prop := exists a b, t = a ++ sep ++ b.

Record split_inv (j : nat) (st : split) : Prop := {
  si_slots : Z.of_nat (length (tokens st)) + 1 <= slots st <= 2 * Z.of_nat (length (tokens st)) + 5;
  si_count : (length (tokens st) <= j)%nat;
  si_start : 0 <= start st <= Z.of_nat j;
  si_concat : concat (map (fun t => t ++ sep) (tokens st)) = take (Z.to_nat (start st)) s;
  si_tokens : Forall (fun t => ~ occurs t) (tokens st);
  si_none : forall p, (Z.to_nat (start st) <= p < j)%nat -> take (length sep) (drop p s) <> sep
}.

(** The bytes from [start] to [j] have no separator. *)
Lemma chunk_free (i j : nat) : (i <= j <= length s)%nat -> (forall p, (i <= p)%nat -> (p + length sep <= j)%nat -> take (length sep) (drop p s) <> sep) ->
  ~ occurs (take (j - i) (drop i s)).
Proof.
  intros Hij Hn (a & b & E). assert (Hl : (length a + length sep + length b = j - i)%nat).
  { apply (f_equal length) in E. rewrite length_take, length_drop, !length_app in E. lia. }
  apply (Hn (i + length a)%nat); [lia|lia|]. rewrite <- drop_drop.
  rewrite <- (take_drop (j - i) (drop i s)), E, <- !app_assoc. rewrite drop_app_length. by rewrite take_app_length.
Qed.

Lemma add_token_ok st n (j : nat) : split_inv j st -> (j <= length s)%nat -> n = Z.of_nat j - start st ->
  add_token s st n = Some (tokens st ++ [take (j - Z.to_nat (start st)) (drop (Z.to_nat (start st)) s)]).
Proof.
  intros H Hj ->. destruct H as [H1 H2 H3 _ _ _]. unfold add_token. rewrite (proj2 (Z.ltb_lt _ _)), (proj2 (Z.leb_le _ _)) by lia.
  cbn [andb guard mbind option_bind]. rewrite load_Some by lia. cbn [mbind option_bind]. do 4 f_equal. lia.
Qed.

Lemma split_step_none (j : nat) st n : split_inv j st -> take (length sep) (drop j s) <> sep ->
  Z.of_nat (length (tokens st)) + 1 <= n <= 2 * Z.of_nat (length (tokens st)) + 5 ->
  split_inv (S j) (mkSplit (tokens st) n (start st)).
Proof.
  intros [H1 H2 H3 H4 H5 H6] Hne Hn. split; cbn [tokens slots start]; [done|lia|lia|done|done|].
  intros p Hp. destruct (decide (p = j)) as [->|]; [done|]. apply H6. lia.
Qed.

Lemma split_step_token (j : nat) st n : split_inv j st -> take (length sep) (drop j s) = sep -> (j + length sep <= length s)%nat ->
  Z.of_nat (length (tokens st)) + 2 <= n <= 2 * Z.of_nat (length (tokens st)) + 5 ->
  split_inv (j + length sep) (mkSplit (tokens st ++ [take (j - Z.to_nat (start st)) (drop (Z.to_nat (start st)) s)]) n (Z.of_nat (j + length sep))).
Proof.
  intros [H1 H2 H3 H4 H5 H6] Hm Hj Hn. assert (0 < length sep)%nat by (destruct sep; [done|cbn; lia]). set (i := Z.to_nat (start st)) in *.
  split; cbn [tokens slots start]; rewrite ?length_app, ?Nat2Z.id; cbn [length]; [lia|lia|lia| | |lia].
  - rewrite map_app, concat_app, H4. cbn [map concat]. rewrite app_nil_r.
    rewrite app_assoc, take_take_drop. replace (i + (j - i))%nat with j by lia.
    transitivity (take j s ++ take (length sep) (drop j s)); [by rewrite Hm|apply take_take_drop].
  - apply Forall_app. split; [done|]. apply Forall_singleton. apply chunk_free; [lia|]. intros p Hp1 Hp2. apply H6. lia.
Qed.

Lemma splitlen_loop_ok fuel (j : nat) st : (j <= length s)%nat -> (length s - j <= fuel)%nat -> split_inv j st ->
  exists st' j', splitlen_loop fuel s sep (Z.of_nat j) st = Some st' /\ split_inv j' st' /\ (j' <= length s < j' + length sep)%nat.
Proof.
  assert (Hsep : (0 < length sep)%nat) by (destruct sep; [done|cbn; lia]).
  revert j st. induction fuel as [|fuel IH]; intros j st Hj Hf H; cbn [splitlen_loop].
  - rewrite (proj2 (Z.ltb_ge _ _)) by lia. exists st, j. split_and!; [done|done|lia|lia].
  - destruct (Z.ltb_spec (Z.of_nat j) (Z.of_nat (length s) - (Z.of_nat (length sep) - 1))) as [Hlt|Hge]; [|exists st, j; split_and!; [done|done|lia|lia]].
    set (n := if slots st <? _ then _ else _). pose proof (si_slots _ _ H) as Hs. pose proof (si_count _ _ H) as Hc.
    assert (Hn : Z.of_nat (length (tokens st)) + 2 <= n <= 2 * Z.of_nat (length (tokens st)) + 5)
      by (unfold n; destruct (Z.ltb_spec (slots st) (Z.of_nat (length (tokens st)) + 2)); lia).
    rewrite (proj2 (Z.ltb_lt n _)) by lia. cbn [guard mbind option_bind]. rewrite Nat2Z.id, load_Some by lia. cbn [mbind option_bind].
    rewrite memcmp_eq by (rewrite length_take, length_drop; lia). case_bool_decide as Hm.
    + assert (Hinv : split_inv j (mkSplit (tokens st) n (start st))) by (destruct H; split; cbn [tokens slots start]; [lia|done..]).
      rewrite (add_token_ok _ _ j Hinv) by (done || lia). cbn [mbind option_bind tokens start].
      replace (Z.of_nat j + Z.of_nat (length sep) - 1 + 1) with (Z.of_nat (j + length sep)) by lia. rewrite <- Nat2Z.inj_add.
      apply IH; [lia|lia|]. apply split_step_token; [done|done|lia|done].
    + replace (Z.of_nat j + 1) with (Z.of_nat (S j)) by lia. apply IH; [lia|lia|]. apply split_step_none; [done|done|lia].
Qed.

Lemma concat_join ts t : concat (map (fun t => t ++ sep) ts) ++ t = join sep (ts ++ [t]).
Proof.
  induction ts as [|a ts IH]; [done|]. cbn [map concat]. rewrite <- !app_assoc, IH. destruct ts as [|b ts]; [done|].
  change ((a :: b :: ts) ++ [t]) with (a :: b :: (ts ++ [t])). by rewrite join_cons2.
Qed.

End Split.

(** Splitting by a separator: for a string that is not empty and a separator
    that is not empty, [sdssplitlen] gives tokens, none of which contains the
    separator, that joined by the separator are the string again; the array of
    tokens always has room for the next one. *)
Theorem sdssplitlen_join s sep : sep <> [] -> s <> [] -> Z.of_nat (length s) < 2 ^ 29 ->
  exists ts, sdssplitlen s sep = Some (Some ts) /\ join sep ts = s /\ Forall (fun t => ~ occurs sep t) ts.
Proof.
  intros Hsep Hs Hl. unfold sdssplitlen.
  rewrite (proj2 (Z.ltb_ge _ _)), (proj2 (Z.leb_gt _ _)) by (destruct sep, s; done || cbn; lia). cbn [orb].
  assert (H0 : split_inv s sep 0 (mkSplit [] 5 0)) by (split; cbn; [lia|lia|lia|done|done|lia]).
  destruct (splitlen_loop_ok s sep Hsep Hl (length s) 0 _ ltac:(lia) ltac:(lia) H0) as (st & j & Hst & H & Hj).
  change (Z.of_nat 0) with 0 in Hst. rewrite Hst. cbn [mbind option_bind]. set (i := Z.to_nat (start st)).
  assert (Hinv : split_inv s sep j st) by done. destruct H as [H1 H2 H3 H4 H5 H6].
  assert (E : add_token s st (Z.of_nat (length s) - start st) = Some (tokens st ++ [drop i s])).
  { unfold add_token. rewrite (proj2 (Z.ltb_lt _ _)), (proj2 (Z.leb_le _ _)) by lia. cbn [andb guard mbind option_bind].
    rewrite load_Some by lia. cbn [mbind option_bind]. do 4 f_equal. fold i. rewrite take_ge; [done|]. rewrite length_drop. lia. }
  rewrite E. cbn [mbind option_bind]. eexists. split; [done|]. split.
  - rewrite <- concat_join, H4. apply take_drop.
  - apply Forall_app. split; [done|]. apply Forall_singleton.
    assert (Hd : drop i s = take (length s - i) (drop i s)) by (rewrite take_ge; [done|]; rewrite length_drop; lia). rewrite Hd.
    apply chunk_free; [lia|]. intros p Hp1 Hp2. apply H6. lia.
Qed.

(** * Concrete inputs *)

Module Sample.

Lemma sdssplitargs_total_witness : exists r, sdssplitargs [34; 92; 120; 52] = Some r.
Proof. apply (sdssplitargs_total [34; 92; 120; 52]). by repeat constructor. Defined.

#[local] Instance exact_allocator : Allocator := {
  usable n := n;
  junk n := replicate n 170;
  usable_ge n := le_n n;
  junk_length n := length_replicate n 170
}.

Lemma exact_bound n : Z.of_nat n <= 2 ^ 62 -> Z.of_nat (usable n) < 2 ^ 63.
Proof. cbn. lia. Qed.

Definition empty_string : sds := mkSds SDS_TYPE_8 0 0 [0].

Lemma empty_rep : rep empty_string [].
Proof. split; [by exists []|done|done|intros _; split; [cbn; lia|done]|done]. Qed.

Lemma repr_splitargs_roundtrip_witness : exists s' line, cat_args empty_string [[0; 34]; []; [200; 65]] = Some s' /\ rep s' line /\
  sdssplitargs line = Some (Some [[0; 34]; []; [200; 65]]).
Proof.
  apply (repr_splitargs_roundtrip exact_bound [[0; 34]; []; [200; 65]]); [|apply empty_rep|by vm_compute].
  repeat constructor; done.
Defined.

Lemma sdssplitlen_join_witness : exists ts, sdssplitlen [1; 2; 2; 3] [2; 2] = Some (Some ts) /\ join [2; 2] ts = [1; 2; 2; 3] /\
  Forall (fun t => ~ occurs [2; 2] t) ts.
Proof. apply (sdssplitlen_join [1; 2; 2; 3] [2; 2]); done. Defined.

End Sample.

End SdsSplit.
