(* ===== verification/Skiplist.v ===== *)
(** Skip lists of sorted sets: the functions zsl* of t_zset.c.

    The nodes live in a store of addresses; a pointer that is not allocated, a
    level that a node does not have and a failed assertion are [None].  An
    element is the bytes of its string, compared with [lex] as [sdscmp] does,
    and a score is the 64-bit pattern of a double. *)

From S2P Require Import Prelude Sds SdsSpec.

Module Zsl.
Import SdsSpec.

(** * Scores *)

(** The order of doubles that are not NaN, on their bit patterns: the sign, then
    the magnitude; the two zeros are equal. *)
Definition dkey (d : Z) : Z := if d <? 2 ^ 63 then d else 2 ^ 63 - d.
Definition isnan (d : Z) : bool := 9218868437227405312 <? d mod 2 ^ 63.
Definition dlt (a b : Z) : bool := dkey a <? dkey b.
Definition deq (a b : Z) : bool := dkey a =? dkey b.
Definition dle (a b : Z) : bool := dkey a <=? dkey b.

Definition ele_lt (a b : bytes) : bool := match lex a b with Lt => true | _ => false end.
Definition ele_le (a b : bytes) : bool := match lex a b with Gt => false | _ => true end.
Definition ele_eq (a b : bytes) : bool := match lex a b with Eq => true | _ => false end.

(** * Nodes *)

Abbreviation addr := positive.

(** [level] is the array of pairs of [forward] and [span]; [ele] is NULL in the
    header. *)
Record node := mkNode { ele : option bytes; score : Z; backward : option addr; level : list (option addr * Z) }.

Record zskiplist := mkZsl { header : addr; tail : option addr; zlen : Z; zlevel : nat; mem : gmap addr node }.

Definition ZSKIPLIST_MAXLEVEL : nat := 32.
Definition ZSKIPLIST_MAX_SEARCH : Z := 10.

(** [x->level\[i\] = v], [x->backward = b] and [x->score = s]. *)
Definition set_level (m : gmap addr node) (x : addr) (i : nat) (v : option addr * Z) : option (gmap addr node) :=
  n ← m !! x;
  _ ← level n !! i;
  Some (<[x := mkNode (ele n) (score n) (backward n) (<[i := v]> (level n))]> m).

Definition set_backward (m : gmap addr node) (x : addr) (b : option addr) : option (gmap addr node) :=
  n ← m !! x;
  Some (<[x := mkNode (ele n) (score n) b (level n)]> m).

Definition set_score (m : gmap addr node) (x : addr) (s : Z) : option (gmap addr node) :=
  n ← m !! x;
  Some (<[x := mkNode (ele n) s (backward n) (level n)]> m).

Definition level_at (m : gmap addr node) (x : addr) (i : nat) : option (option addr * Z) := n ← m !! x; level n !! i.

Definition with_mem (z : zskiplist) (m : gmap addr node) : zskiplist := mkZsl (header z) (tail z) (zlen z) (zlevel z) m.
Definition with_tail (z : zskiplist) (t : option addr) : zskiplist := mkZsl (header z) t (zlen z) (zlevel z) (mem z).
Definition with_len (z : zskiplist) (n : Z) : zskiplist := mkZsl (header z) (tail z) n (zlevel z) (mem z).
Definition with_level (z : zskiplist) (n : nat) : zskiplist := mkZsl (header z) (tail z) (zlen z) n (mem z).

(** A loop over indexes that may fail. *)
Fixpoint foldM {St X} (f : St -> X -> option St) (l : list X) (s : St) : option St :=
  match l with [] => Some s | x :: l => s ← f s x; foldM f l s end.

(** * Random levels *)

(** [ZSKIPLIST_P*RAND_MAX], and the draws of [random()]. *)
Definition threshold : Z := 2147483647 / 4.

Fixpoint count_draws (rs : list Z) (lev : Z) : option Z :=
  match rs with [] => None | r :: rs => if r <? threshold then count_draws rs (lev + 1) else Some lev end.

Definition zslRandomLevel (rs : list Z) : option nat :=
  lev ← count_draws rs 1;
  Some (if lev <? Z.of_nat ZSKIPLIST_MAXLEVEL then Z.to_nat lev else ZSKIPLIST_MAXLEVEL).

Section Zsl.

(** [zmalloc]: an address that is not allocated. *)
Variable alloc : gset addr -> addr.

(** [zslCreateNode]: the other fields are not initialised. *)
Definition zslCreateNode (m : gmap addr node) (lev : nat) (s : Z) (e : option bytes) : addr * gmap addr node :=
  let x := alloc (dom m) in
  (x, <[x := mkNode e s None (replicate lev (None, 0))]> m).

Definition zslCreate : zskiplist :=
  let '(h, m) := zslCreateNode ∅ ZSKIPLIST_MAXLEVEL 0 None in
  mkZsl h None 0 1 m.

Definition zslFreeNode (m : gmap addr node) (x : addr) : gmap addr node := delete x m.

(** * Walking *)

(** [while (x->level\[i\].forward && cond) { rank += x->level\[i\].span; x = x->level\[i\].forward; }]:
    the condition is on the next node and the rank it has. *)
Fixpoint walk (fuel : nat) (m : gmap addr node) (cond : node -> Z -> bool) (i : nat) (x : addr) (rank : Z) : option (addr * Z) :=
  '(fwd, span) ← level_at m x i;
  match fwd with
  | None => Some (x, rank)
  | Some f =>
    n ← m !! f;
    if cond n (u64 (rank + span)) then
      match fuel with O => None | S fuel => walk fuel m cond i f (u64 (rank + span)) end
    else Some (x, rank)
  end.

(** [for (i = n-1; i >= 0; i--) { while ...; update\[i\] = x; rank\[i\] = rank; }]: the
    last [x] and [rank], and the arrays. *)
Fixpoint descend (fuel : nat) (m : gmap addr node) (cond : node -> Z -> bool) (n : nat) (x : addr) (rank : Z) :
  option (addr * Z * list (addr * Z)) :=
  match n with
  | O => Some (x, rank, [])
  | S i =>
    '(x, rank) ← walk fuel m cond i x rank;
    '(y, r, us) ← descend fuel m cond i x rank;
    Some (y, r, us ++ [(x, rank)])
  end.

Definition fuel_of (z : zskiplist) : nat := Z.to_nat (zlen z).

(** The node [n] is before, or at, the key. *)
Definition before (s : Z) (e : bytes) (n : node) (_ : Z) : bool :=
  match ele n with Some e' => dlt (score n) s || deq (score n) s && ele_lt e' e | None => false end.
Definition upto (s : Z) (e : bytes) (n : node) (_ : Z) : bool :=
  match ele n with Some e' => dlt (score n) s || deq (score n) s && ele_le e' e | None => false end.

Definition search (z : zskiplist) (cond : node -> Z -> bool) : option (addr * Z * list (addr * Z)) :=
  descend (fuel_of z) (mem z) cond (zlevel z) (header z) 0.

(** * Insertion *)

(** [for (i = zsl->level; i < level; i++) update\[i\]->level\[i\].span = zsl->length]. *)
Definition raise_step (z : zskiplist) (m : gmap addr node) (i : nat) : option (gmap addr node) :=
  '(fwd, _) ← level_at m (header z) i;
  set_level m (header z) i (fwd, zlen z).

Definition raise_level (z : zskiplist) (us : list (addr * Z)) (lev : nat) : option (zskiplist * list (addr * Z)) :=
  if decide (zlevel z < lev)%nat then
    m ← foldM (raise_step z) (seq (zlevel z) (lev - zlevel z)) (mem z);
    Some (with_level (with_mem z m) lev, us ++ replicate (lev - zlevel z) (header z, 0))
  else Some (z, us).

Definition link_step (us : list (addr * Z)) (x : addr) (m : gmap addr node) (i : nat) : option (gmap addr node) :=
  '(u, r) ← us !! i;
  '(_, r0) ← us !! 0%nat;
  '(fwd, span) ← level_at m u i;
  m ← set_level m x i (fwd, u64 (span - u64 (r0 - r)));
  set_level m u i (Some x, u64 (u64 (r0 - r) + 1)).

Definition bump_step (us : list (addr * Z)) (m : gmap addr node) (i : nat) : option (gmap addr node) :=
  '(u, _) ← us !! i;
  '(fwd, span) ← level_at m u i;
  set_level m u i (fwd, u64 (span + 1)).

Definition zslInsert (z : zskiplist) (s : Z) (e : bytes) (rs : list Z) : option (zskiplist * addr) :=
  _ ← guard (negb (isnan s));
  '(_, _, us) ← search z (before s e);
  lev ← zslRandomLevel rs;
  '(z, us) ← raise_level z us lev;
  let '(x, m) := zslCreateNode (mem z) lev s (Some e) in
  m ← foldM (link_step us x) (seq 0 lev) m;
  m ← foldM (bump_step us) (seq lev (zlevel z - lev)) m;
  '(u0, _) ← us !! 0%nat;
  m ← set_backward m x (if bool_decide (u0 = header z) then None else Some u0);
  '(fwd, _) ← level_at m x 0;
  z ← match fwd with
      | Some f => m ← set_backward m f (Some x); Some (with_mem z m)
      | None => Some (with_tail (with_mem z m) (Some x))
      end;
  Some (with_len z (u64 (zlen z + 1)), x).

(** * Deletion *)

Definition unlink_step (update : list addr) (x : addr) (m : gmap addr node) (i : nat) : option (gmap addr node) :=
  u ← update !! i;
  '(fwd, span) ← level_at m u i;
  if bool_decide (fwd = Some x) then
    '(xf, xspan) ← level_at m x i;
    set_level m u i (xf, u64 (span + u64 (xspan - 1)))
  else set_level m u i (fwd, u64 (span - 1)).

(** [while(zsl->level > 1 && zsl->header->level\[zsl->level-1\].forward == NULL) zsl->level--;] *)
Fixpoint lower_level (m : gmap addr node) (h : addr) (lev : nat) : option nat :=
  match lev with
  | S (S l as lev') =>
    '(fwd, _) ← level_at m h (S l);
    if bool_decide (fwd = None) then lower_level m h lev' else Some lev
  | _ => Some lev
  end.

Definition zslDeleteNode (z : zskiplist) (x : addr) (update : list addr) : option zskiplist :=
  m ← foldM (unlink_step update x) (seq 0 (zlevel z)) (mem z);
  n ← m !! x;
  '(fwd, _) ← level_at m x 0;
  z ← match fwd with
      | Some f => m ← set_backward m f (backward n); Some (with_mem z m)
      | None => Some (with_tail (with_mem z m) (backward n))
      end;
  lev ← lower_level (mem z) (header z) (zlevel z);
  let z := with_level z lev in
  Some (with_len z (u64 (zlen z - 1))).

(** Whether a node was found and deleted; [keep] is for a caller that takes the
    node, which is then not freed. *)
Definition zslDelete (z : zskiplist) (s : Z) (e : bytes) (keep : bool) : option (zskiplist * option addr) :=
  '(x, _, us) ← search z (before s e);
  '(fwd, _) ← level_at (mem z) x 0;
  match fwd with
  | None => Some (z, None)
  | Some x =>
    n ← mem z !! x;
    e' ← ele n;
    if deq s (score n) && ele_eq e' e then
      z ← zslDeleteNode z x (us.*1);
      Some (if keep then z else with_mem z (zslFreeNode (mem z) x), Some x)
    else Some (z, None)
  end.

Definition score_of (m : gmap addr node) (x : addr) : option Z := n ← m !! x; Some (score n).

Definition zslUpdateScore (z : zskiplist) (curscore : Z) (e : bytes) (newscore : Z) (rs : list Z) : option (zskiplist * addr) :=
  '(x, _, us) ← search z (before curscore e);
  '(fwd, _) ← level_at (mem z) x 0;
  x ← fwd;
  n ← mem z !! x;
  e' ← ele n;
  _ ← guard (deq curscore (score n) && ele_eq e' e);
  left_ ← match backward n with None => Some true | Some b => sb ← score_of (mem z) b; Some (dlt sb newscore) end;
  '(nfwd, _) ← level_at (mem z) x 0;
  right_ ← match nfwd with None => Some true | Some f => sf ← score_of (mem z) f; Some (dlt newscore sf) end;
  if left_ && right_ then
    m ← set_score (mem z) x newscore;
    Some (with_mem z m, x)
  else
    z ← zslDeleteNode z x (us.*1);
    '(z, y) ← zslInsert z newscore e' rs;
    Some (with_mem z (zslFreeNode (mem z) x), y).

(** The elements that are deleted, in order: the loop of the zslDeleteRangeBy
    functions.  The caller deletes these elements from the dictionary. *)
Fixpoint delete_loop (fuel : nat) (cond : node -> Z -> bool) (z : zskiplist) (update : list addr) (x : option addr) (rank : Z)
    (removed : list bytes) : option (zskiplist * list bytes) :=
  match x with
  | None => Some (z, removed)
  | Some x =>
    n ← mem z !! x;
    if cond n rank then
      match fuel with
      | O => None
      | S fuel =>
        '(next, _) ← level_at (mem z) x 0;
        z ← zslDeleteNode z x update;
        e ← ele n;
        delete_loop fuel cond (with_mem z (zslFreeNode (mem z) x)) update next (rank + 1) (removed ++ [e])
      end
    else Some (z, removed)
  end.

(** Deletes the nodes after the last one where [out] holds, while [in_] holds. *)
Definition delete_range (z : zskiplist) (out in_ : node -> Z -> bool) : option (zskiplist * list bytes) :=
  '(x, rank, us) ← search z out;
  '(fwd, _) ← level_at (mem z) x 0;
  delete_loop (fuel_of z) in_ z (us.*1) fwd (rank + 1) [].

(** * Ranges of scores and of elements *)

Record zrangespec := mkRange { rmin : Z; rmax : Z; minex : bool; maxex : bool }.

Definition zslValueGteMin (value : Z) (spec : zrangespec) : bool :=
  if minex spec then dlt (rmin spec) value else dle (rmin spec) value.
Definition zslValueLteMax (value : Z) (spec : zrangespec) : bool :=
  if maxex spec then dlt value (rmax spec) else dle value (rmax spec).

(** A bound of a lexicographic range: shared.minstring, shared.maxstring or a string. *)
Inductive lexbound := Minstring | Maxstring | Lstring (e : bytes).
Record zlexrangespec := mkLexRange { lmin : lexbound; lmax : lexbound; lminex : bool; lmaxex : bool }.

Definition sdscmplex (a b : lexbound) : comparison :=
  match a, b with
  | Minstring, Minstring | Maxstring, Maxstring => Eq
  | Minstring, _ | _, Maxstring => Lt
  | Maxstring, _ | _, Minstring => Gt
  | Lstring a, Lstring b => lex a b
  end.

Definition zslLexValueGteMin (value : bytes) (spec : zlexrangespec) : bool :=
  match sdscmplex (Lstring value) (lmin spec) with Gt => true | Eq => negb (lminex spec) | Lt => false end.
Definition zslLexValueLteMax (value : bytes) (spec : zlexrangespec) : bool :=
  match sdscmplex (Lstring value) (lmax spec) with Lt => true | Eq => negb (lmaxex spec) | Gt => false end.

(** The tests as conditions on nodes. *)
Definition gte_score (spec : zrangespec) (n : node) : bool := zslValueGteMin (score n) spec.
Definition lte_score (spec : zrangespec) (n : node) : bool := zslValueLteMax (score n) spec.
Definition gte_lex (spec : zlexrangespec) (n : node) : bool :=
  match ele n with Some e => zslLexValueGteMin e spec | None => false end.
Definition lte_lex (spec : zlexrangespec) (n : node) : bool :=
  match ele n with Some e => zslLexValueLteMax e spec | None => false end.

Definition zslDeleteRangeByScore (z : zskiplist) (range : zrangespec) : option (zskiplist * list bytes) :=
  delete_range z (fun n _ => negb (gte_score range n)) (fun n _ => lte_score range n).
Definition zslDeleteRangeByLex (z : zskiplist) (range : zlexrangespec) : option (zskiplist * list bytes) :=
  delete_range z (fun n _ => negb (gte_lex range n)) (fun n _ => lte_lex range n).
Definition zslDeleteRangeByRank (z : zskiplist) (start end_ : Z) : option (zskiplist * list bytes) :=
  delete_range z (fun _ rank => rank <? start) (fun _ rank => rank <=? end_).

(** * Ranks *)

(** [for (i = n-1; ...) { while ...; if (x is the element) return rank; }] *)
Fixpoint rank_loop (fuel : nat) (m : gmap addr node) (s : Z) (e : bytes) (n : nat) (x : addr) (rank : Z) : option Z :=
  match n with
  | O => Some 0
  | S i =>
    '(x, rank) ← walk fuel m (upto s e) i x rank;
    nd ← m !! x;
    match ele nd with
    | Some e' => if deq (score nd) s && ele_eq e' e then Some rank else rank_loop fuel m s e i x rank
    | None => rank_loop fuel m s e i x rank
    end
  end.

Definition zslGetRank (z : zskiplist) (s : Z) (e : bytes) : option Z :=
  rank_loop (fuel_of z) (mem z) s e (zlevel z) (header z) 0.

Fixpoint by_rank_loop (fuel : nat) (m : gmap addr node) (rank : Z) (n : nat) (x : addr) (traversed : Z) : option (option addr) :=
  match n with
  | O => Some None
  | S i =>
    '(x, traversed) ← walk fuel m (fun _ r => r <=? rank) i x traversed;
    if traversed =? rank then Some (Some x) else by_rank_loop fuel m rank i x traversed
  end.

(** The inner [None] is NULL. *)
Definition zslGetElementByRankFromNode (z : zskiplist) (start_node : addr) (start_level : nat) (rank : Z) : option (option addr) :=
  by_rank_loop (fuel_of z) (mem z) rank (S start_level) start_node 0.
Definition zslGetElementByRank (z : zskiplist) (rank : Z) : option (option addr) :=
  zslGetElementByRankFromNode z (header z) (zlevel z - 1) rank.

(** * The n-th element of a range *)

(** [zslIsInRange] and [zslIsInLexRange], after the test for empty ranges. *)
Definition has_range (z : zskiplist) (gte lte : node -> bool) : option bool :=
  match tail z with
  | None => Some false
  | Some t =>
    n ← mem z !! t;
    if negb (gte n) then Some false
    else
      '(fwd, _) ← level_at (mem z) (header z) 0;
      match fwd with None => Some false | Some f => n ← mem z !! f; Some (lte n) end
  end.

Definition zslIsInRange (z : zskiplist) (range : zrangespec) : option bool :=
  if dlt (rmax range) (rmin range) || deq (rmin range) (rmax range) && (minex range || maxex range) then Some false
  else has_range z (gte_score range) (lte_score range).
Definition zslIsInLexRange (z : zskiplist) (range : zlexrangespec) : option bool :=
  match sdscmplex (lmin range) (lmax range) with
  | Gt => Some false
  | c => if bool_decide (c = Eq) && (lminex range || lmaxex range) then Some false else has_range z (gte_lex range) (lte_lex range)
  end.

(** [for (i = 0; i < n; i++) x = x->level\[0\].forward], and with [x->backward]: the
    inner [None] is NULL, which must not be followed. *)
Fixpoint forward_steps (m : gmap addr node) (n : nat) (x : option addr) : option (option addr) :=
  match n with O => Some x | S n => x ← x; '(fwd, _) ← level_at m x 0; forward_steps m n fwd end.
Fixpoint backward_steps (m : gmap addr node) (n : nat) (x : option addr) : option (option addr) :=
  match n with O => Some x | S n => x ← x; nd ← m !! x; backward_steps m n (backward nd) end.

(** [if (x && !test(x)) return NULL; return x;] *)
Definition keep_if (m : gmap addr node) (test : node -> bool) (x : option addr) : option (option addr) :=
  match x with None => Some None | Some a => n ← m !! a; Some (if test n then Some a else None) end.

Definition nth_in_range (z : zskiplist) (gte lte : node -> bool) (in_range : option bool) (n : Z) : option (option addr) :=
  b ← in_range;
  if negb b then Some None
  else
    let fuel := fuel_of z in
    let out := fun nd _ => negb (gte nd) in
    '(x, edge_rank) ← walk fuel (mem z) out (zlevel z - 1) (header z) 0;
    let last_node := x in
    let last_rank := edge_rank in
    if n >=? 0 then
      '(x, edge_rank, _) ← descend fuel (mem z) out (zlevel z - 1) x edge_rank;
      if u64 (edge_rank + n) >=? zlen z then Some None
      else
        y ← (if n <? ZSKIPLIST_MAX_SEARCH then forward_steps (mem z) (Z.to_nat (n + 1)) (Some x)
             else zslGetElementByRankFromNode z last_node (zlevel z - 1) (u64 (edge_rank + 1 + n - last_rank)));
        keep_if (mem z) lte y
    else
      '(x, edge_rank, _) ← descend fuel (mem z) (fun nd _ => lte nd) (zlevel z) x edge_rank;
      if edge_rank <? - n then Some None
      else
        y ← (if n + 1 >? - ZSKIPLIST_MAX_SEARCH then backward_steps (mem z) (Z.to_nat (- n - 1)) (Some x)
             else zslGetElementByRankFromNode z last_node (zlevel z - 1) (u64 (edge_rank + 1 + n - last_rank)));
        keep_if (mem z) gte y.

Definition zslNthInRange (z : zskiplist) (range : zrangespec) (n : Z) : option (option addr) :=
  nth_in_range z (gte_score range) (lte_score range) (zslIsInRange z range) n.
Definition zslNthInLexRange (z : zskiplist) (range : zlexrangespec) (n : Z) : option (option addr) :=
  nth_in_range z (gte_lex range) (lte_lex range) (zslIsInLexRange z range) n.

End Zsl.

End Zsl.
