(* ===== verification/SkiplistSpec.v ===== *)
(** The invariant of skip lists, and that the operations of t_zset.c keep it and
    compute on sorted lists.

    A skip list stands for a list of entries.  At every level of every node the
    forward pointer is the next entry that is high enough and the span is the
    distance to it, or to the end of the list. *)

From S2P Require Import Prelude Sds SdsSpec Skiplist.

Module ZslSpec.
Import SdsSpec Zsl.

(** * What a skip list stands for *)

(** An entry: the address, score and element of a node, and the number of its levels. *)
Record entry := mkEntry { ea : addr; es : Z; ee : bytes; eh : nat }.

(** The next entry with more than [l] levels and the distance to it. *)
Fixpoint nxt (l : nat) (A : list entry) : option addr * Z :=
  match A with
  | [] => (None, 0)
  | e :: A => if decide (l < eh e)%nat then (Some (ea e), 1) else let '(f, s) := nxt l A in (f, s + 1)
  end.

(** The addresses and heights by position: position 0 is the header. *)
Definition positions (hd : addr) (A : list entry) : list (addr * nat) :=
  (hd, ZSKIPLIST_MAXLEVEL) :: ((fun e => (ea e, eh e)) <$> A).

Definition prev (A : list entry) (i : nat) : option addr :=
  match i with O => None | S j => ea <$> A !! j end.

(** The element, the score and the number of levels of a node, and its back pointer. *)
Definition info_at (m : gmap addr node) (x : addr) : option (option bytes * Z * nat) :=
  (fun n => (ele n, score n, length (level n))) <$> m !! x.
Definition back_at (m : gmap addr node) (x : addr) : option (option addr) := backward <$> m !! x.

Record links (hd : addr) (lev : nat) (m : gmap addr node) (A : list entry) : Prop := {
  lk_nodup : NoDup (hd :: (ea <$> A));
  lk_height : Forall (fun e => 1 <= eh e <= lev)%nat A;
  lk_lev : (1 <= lev <= ZSKIPLIST_MAXLEVEL)%nat;
  lk_header : exists sc, info_at m hd = Some (None, sc, ZSKIPLIST_MAXLEVEL);
  lk_node : forall i e, A !! i = Some e -> info_at m (ea e) = Some (Some (ee e), es e, eh e);
  lk_back : forall i e, A !! i = Some e -> back_at m (ea e) = Some (prev A i);
  lk_level : forall p a h l, positions hd A !! p = Some (a, h) -> (l < h)%nat -> (l < lev)%nat ->
    level_at m a l = Some (nxt l (drop p A));
  lk_top : forall l, (lev <= l < ZSKIPLIST_MAXLEVEL)%nat -> exists sp, level_at m hd l = Some (None, sp);
  lk_small : Z.of_nat (length A) < 2 ^ 63
}.

Lemma info_node m x i : info_at m x = Some i -> exists n, m !! x = Some n /\ i = (ele n, score n, length (level n)).
Proof. unfold info_at. destruct (m !! x) as [n|]; [|done]. intros [= <-]. by exists n. Qed.

(** * The store *)

(** A change of a level, of a back pointer and of a score. *)
Lemma set_level_ok m x i v : is_Some (level_at m x i) -> exists m', set_level m x i v = Some m' /\
  (forall y, info_at m' y = info_at m y) /\ (forall y, back_at m' y = back_at m y) /\
  (forall y j, level_at m' y j = if decide (y = x /\ j = i) then Some v else level_at m y j).
Proof.
  unfold level_at, set_level, info_at, back_at. intros [w Hw]. destruct (m !! x) as [n|] eqn:Hx; [|done]. cbn [mbind option_bind] in *.
  rewrite Hw. cbn [mbind option_bind]. eexists. split; [done|]. assert (Hi : (i < length (level n))%nat) by (by eapply lookup_lt_Some).
  split_and!; intros y; [..|intros j]; (destruct (decide (y = x)) as [->|Hne]; [rewrite lookup_insert_eq, ?Hx|rewrite lookup_insert_ne by done]); cbn.
  - by rewrite length_insert.
  - done.
  - done.
  - done.
  - destruct (decide (j = i)) as [->|Hj]; [rewrite list_lookup_insert_eq by done; by rewrite decide_True|].
    rewrite list_lookup_insert_ne by done. by rewrite decide_False by tauto.
  - by rewrite decide_False by tauto.
Qed.

Lemma set_backward_ok m x b : is_Some (info_at m x) -> exists m', set_backward m x b = Some m' /\
  (forall y, info_at m' y = info_at m y) /\ (forall y, back_at m' y = if decide (y = x) then Some b else back_at m y) /\
  (forall y j, level_at m' y j = level_at m y j).
Proof.
  unfold level_at, set_backward, info_at, back_at. intros [w Hw]. destruct (m !! x) as [n|] eqn:Hx; [|done]. cbn [mbind option_bind].
  eexists. split; [done|].
  split_and!; intros y; [..|intros j]; (destruct (decide (y = x)) as [->|Hne]; [rewrite lookup_insert_eq, ?Hx|rewrite lookup_insert_ne by done]); done.
Qed.

Lemma level_at_lt m x i c s h : info_at m x = Some (c, s, h) -> (i < h)%nat -> is_Some (level_at m x i).
Proof.
  intros H Hi. destruct (info_node _ _ _ H) as (n & Hn & E). unfold level_at. rewrite Hn. cbn [mbind option_bind].
  apply lookup_lt_is_Some. by injection E as _ _ <-.
Qed.

Lemma foldM_app {St X} (f : St -> X -> option St) l k s : foldM f (l ++ k) s = s ← foldM f l s; foldM f k s.
Proof. revert s. induction l as [|x l IH]; intros s; [done|]. cbn [app foldM]. destruct (f s x); [apply IH|done]. Qed.

(** A loop over levels: the step of level [i] makes the entries of that level [G]. *)
Lemma foldM_levels f s k m (G : addr -> nat -> option (option addr * Z)) :
  (forall i m1, (s <= i < s + k)%nat -> (forall y, info_at m1 y = info_at m y) -> (forall y, level_at m1 y i = level_at m y i) ->
    exists m2, f m1 i = Some m2 /\ (forall y, info_at m2 y = info_at m1 y) /\ (forall y, back_at m2 y = back_at m1 y) /\
      (forall y j, level_at m2 y j = if decide (j = i) then G y i else level_at m1 y j)) ->
  exists m', foldM f (seq s k) m = Some m' /\ (forall y, info_at m' y = info_at m y) /\ (forall y, back_at m' y = back_at m y) /\
    (forall y j, level_at m' y j = if decide (s <= j < s + k)%nat then G y j else level_at m y j).
Proof.
  intros Hstep. induction k as [|k IH].
  { exists m. split_and!; [done..|]. intros y j. by rewrite decide_False by lia. }
  destruct IH as (m1 & Hm1 & Hi & Hb & Hl); [intros i m1 Hr; apply Hstep; lia|].
  rewrite seq_S, foldM_app, Hm1. cbn [mbind option_bind foldM].
  destruct (Hstep (s + k)%nat m1) as (m2 & -> & Hi2 & Hb2 & Hl2); [lia|done|intros y; rewrite Hl; by rewrite decide_False by lia|].
  cbn [mbind option_bind]. exists m2. split_and!; [done|by intros y; rewrite Hi2|by intros y; rewrite Hb2|]. intros y j. rewrite Hl2, Hl.
  destruct (decide (j = (s + k)%nat)) as [->|Hj]; [by rewrite decide_True by lia|].
  destruct (decide (s <= j < s + k)%nat); [by rewrite decide_True by lia|by rewrite decide_False by lia].
Qed.

(** * Next entries *)

Lemma nxt_app l A B : nxt l (A ++ B) =
  match nxt l A with (Some f, k) => (Some f, k) | (None, k) => let '(f, k') := nxt l B in (f, k + k') end.
Proof.
  induction A as [|e A IH]; cbn [app nxt]; [by destruct (nxt l B)|]. destruct (decide _); [done|]. rewrite IH.
  destruct (nxt l A) as [[f|] k]; [done|]. destruct (nxt l B) as [f k']. f_equal. lia.
Qed.

Lemma nxt_spec l A : match nxt l A with
  | (Some f, k) => exists B e C, A = B ++ e :: C /\ Forall (fun e => eh e <= l)%nat B /\ (l < eh e)%nat /\ f = ea e /\ k = Z.of_nat (length B) + 1
  | (None, k) => Forall (fun e => eh e <= l)%nat A /\ k = Z.of_nat (length A)
  end.
Proof.
  induction A as [|e A IH]; cbn [nxt]; [done|]. destruct (decide (l < eh e)%nat) as [H|H].
  - exists [], e, A. done.
  - destruct (nxt l A) as [[f|] k].
    + destruct IH as (B & e' & C & -> & HB & He & -> & ->). exists (e :: B), e', C. split_and!; [done|constructor; [lia|done]|done|done|cbn; lia].
    + destruct IH as [HA ->]. split; [constructor; [lia|done]|cbn; lia].
Qed.

Lemma nxt_none l A : Forall (fun e => eh e <= l)%nat A -> nxt l A = (None, Z.of_nat (length A)).
Proof.
  induction 1 as [|e A He HA IH]; cbn [nxt]; [done|]. rewrite decide_False by lia. rewrite IH. cbn. f_equal. lia.
Qed.

Lemma nxt_bound l A : 0 <= (nxt l A).2 <= Z.of_nat (length A).
Proof.
  pose proof (nxt_spec l A) as H. destruct (nxt l A) as [[f|] k].
  - destruct H as (B & e & C & -> & _ & _ & _ & ->). rewrite length_app. cbn. lia.
  - destruct H as [_ ->]. cbn. lia.
Qed.

(** * Positions *)

Lemma positions_S hd A p : positions hd A !! S p = (fun e => (ea e, eh e)) <$> A !! p.
Proof. unfold positions. cbn [lookup list_lookup]. apply list_lookup_fmap. Qed.

Lemma positions_lt hd A p x : positions hd A !! p = Some x -> (p <= length A)%nat.
Proof. intros H. apply lookup_lt_Some in H. unfold positions in H. cbn [length] in H. rewrite length_fmap in H. lia. Qed.

Lemma positions_inj hd A p q a h h' : NoDup (hd :: (ea <$> A)) -> positions hd A !! p = Some (a, h) -> positions hd A !! q = Some (a, h') -> p = q.
Proof.
  intros Hn Hp Hq. assert (E : (fst <$> positions hd A) = hd :: (ea <$> A)) by (unfold positions; rewrite fmap_cons; f_equal; by rewrite <- list_fmap_compose).
  rewrite <- E in Hn. eapply NoDup_lookup; [exact Hn|..]; rewrite list_lookup_fmap; [by rewrite Hp|by rewrite Hq].
Qed.

(** The position [q] is the last one up to [m] with more than [l] levels. *)
Definition is_pred (hd : addr) (A : list entry) (l m q : nat) (a : addr) : Prop :=
  (q <= m)%nat /\ (exists h, positions hd A !! q = Some (a, h) /\ (l < h)%nat) /\
  Forall (fun e => eh e <= l)%nat (take (m - q) (drop q A)).

(** * Walking *)

Section Walk.
Variables (hd : addr) (lev : nat) (mm : gmap addr node) (A : list entry).
Hypothesis HL : links hd lev mm A.
Variables (cond : node -> Z -> bool) (m : nat).

(** The condition holds at the positions up to [m]; ranks are counted from position [d]. *)
Definition cond_from (d : Z) : Prop := forall i e n, A !! i = Some e -> mm !! ea e = Some n ->
  cond n (Z.of_nat (S i) - d) = bool_decide (S i <= m)%nat.

Lemma walk_from d l p a h fuel : cond_from d -> 0 <= d <= Z.of_nat p -> (l < lev)%nat -> positions hd A !! p = Some (a, h) -> (l < h)%nat ->
  (p <= m)%nat -> (m - p <= fuel)%nat ->
  exists q b, walk fuel mm cond l a (Z.of_nat p - d) = Some (b, Z.of_nat q - d) /\ is_pred hd A l m q b /\ (p <= q)%nat.
Proof.
  intros Hcond Hd Hl. revert p a h Hd. induction fuel as [fuel IH] using lt_wf_ind; intros p a h Hd Hp Hh Hpm Hf.
  pose proof (lk_small _ _ _ _ HL) as Hs. pose proof (lk_level _ _ _ _ HL p a h l Hp Hh Hl) as Ha.
  assert (Hw : walk fuel mm cond l a (Z.of_nat p - d) = '(fwd, span) ← Some (nxt l (drop p A));
    match fwd with None => Some (a, Z.of_nat p - d) | Some f => n ← mm !! f;
      if cond n (u64 (Z.of_nat p - d + span)) then match fuel with O => None | S fuel => walk fuel mm cond l f (u64 (Z.of_nat p - d + span)) end
      else Some (a, Z.of_nat p - d) end) by (rewrite <- Ha; by destruct fuel).
  rewrite Hw. clear Hw. cbn [mbind option_bind]. pose proof (nxt_spec l (drop p A)) as Hn. destruct (nxt l (drop p A)) as [[f|] k].
  - destruct Hn as (B & e & C & HA & HB & He & -> & ->). set (i := (p + length B)%nat).
    assert (Hi : A !! i = Some e).
    { unfold i. rewrite <- lookup_drop, HA, lookup_app_r, Nat.sub_diag by lia. done. }
    pose proof (lookup_lt_Some _ _ _ Hi) as Hil. destruct (info_node _ _ _ (lk_node _ _ _ _ HL i e Hi)) as (n & Hn & _). rewrite Hn. cbn [mbind option_bind].
    replace (Z.of_nat p - d + (Z.of_nat (length B) + 1)) with (Z.of_nat (S i) - d) by lia. rewrite uwrap_small by (unfold urange; lia).
    rewrite (Hcond i e n Hi Hn). case_bool_decide as Hc.
    + destruct fuel as [|fuel]; [lia|]. destruct (IH fuel ltac:(lia) (S i) (ea e) (eh e)) as (q & b & H1 & H2 & H3); [lia|by rewrite positions_S, Hi|done|done|lia|].
      exists q, b. split_and!; [done|done|lia].
    + exists p, a. split; [done|]. split; [|done]. split_and!; [done|by exists h|]. rewrite HA.
      rewrite take_app_le by lia. by apply Forall_take.
  - destruct Hn as [HB _]. exists p, a. split; [done|]. split; [|done]. split_and!; [done|by exists h|]. by apply Forall_take.
Qed.

Definition cond_upto : Prop := forall i e n, A !! i = Some e -> mm !! ea e = Some n -> cond n (Z.of_nat (S i)) = bool_decide (S i <= m)%nat.
Hypothesis Hcond : cond_upto.
Hypothesis Hm : (m <= length A)%nat.

Lemma walk_ok l p a h fuel : (l < lev)%nat -> positions hd A !! p = Some (a, h) -> (l < h)%nat -> (p <= m)%nat -> (m - p <= fuel)%nat ->
  exists q b, walk fuel mm cond l a (Z.of_nat p) = Some (b, Z.of_nat q) /\ is_pred hd A l m q b /\ (p <= q)%nat.
Proof.
  assert (Hc0 : cond_from 0) by (intros i e n Hi Hn; rewrite Z.sub_0_r; by rewrite (Hcond i e n Hi Hn)).
  intros H1 H2 H3 H4 H5. destruct (walk_from 0 l p a h fuel Hc0 ltac:(lia) H1 H2 H3 H4 H5) as (q & b & Hw & Hq).
  rewrite !Z.sub_0_r in Hw. by exists q, b.
Qed.

Lemma descend_ok n p a h fuel : (n <= lev)%nat -> positions hd A !! p = Some (a, h) -> (n <= h)%nat -> (p <= m)%nat -> (m - p <= fuel)%nat ->
  exists x q us, descend fuel mm cond n a (Z.of_nat p) = Some (x, Z.of_nat q, us) /\ length us = n /\
    (forall l, (l < n)%nat -> exists u r, us !! l = Some (u, Z.of_nat r) /\ is_pred hd A l m r u) /\
    (match n with O => x = a /\ q = p | S _ => us !! 0%nat = Some (x, Z.of_nat q) end).
Proof.
  revert p a h. induction n as [|n IH]; intros p a h Hl Hp Hh Hpm Hf; cbn [descend].
  - exists a, p, []. split_and!; [done|done|lia|done|done].
  - destruct (walk_ok n p a h fuel ltac:(lia) Hp ltac:(lia) Hpm Hf) as (q & b & -> & (Hq & (h' & Hb & Hh') & Hq2) & Hpq). cbn [mbind option_bind].
    destruct (IH q b h' ltac:(lia) Hb ltac:(lia) ltac:(lia) ltac:(lia)) as (x & r & us & -> & Hus & Hall & H0).
    cbn [mbind option_bind]. exists x, r, (us ++ [(b, Z.of_nat q)]). split_and!; [done|rewrite length_app; cbn; lia| |].
    + intros l Hln. destruct (decide (l = n)) as [->|Hne].
      * exists b, q. rewrite lookup_app_r, Hus, Nat.sub_diag by lia. split; [done|]. split_and!; [done|by exists h'|done].
      * rewrite lookup_app_l by lia. apply Hall. lia.
    + destruct n as [|n]; [destruct H0 as [-> ->]; destruct us; [done|cbn in Hus; lia]|]. rewrite lookup_app_l by lia. done.
Qed.

End Walk.

(** * Predecessors *)

(** A position before the end of [L] is the predecessor at level [l], or its next
    entry is in [L]. *)
Lemma pred_cases hd L R l q u p a h : NoDup (hd :: (ea <$> L ++ R)) -> is_pred hd (L ++ R) l (length L) q u ->
  positions hd (L ++ R) !! p = Some (a, h) -> (l < h)%nat -> (p <= length L)%nat ->
  if decide (a = u) then p = q /\ nxt l (drop p L) = (None, Z.of_nat (length L) - Z.of_nat p)
  else exists f k, nxt l (drop p L) = (Some f, k).
Proof.
  intros Hn (Hq & (h' & Hu & Hh') & Hall) Hp Hh Hpl. rewrite drop_app_le, take_app_le, take_ge in Hall by (rewrite ?length_drop; lia).
  destruct (decide (a = u)) as [->|Hne].
  - assert (p = q) as -> by (by eapply positions_inj). split; [done|]. rewrite nxt_none by done. rewrite length_drop. f_equal. lia.
  - assert (p <> q) by (intros ->; rewrite Hp in Hu; by injection Hu).
    pose proof (nxt_spec l (drop p L)) as Hs. destruct (nxt l (drop p L)) as [[f|] k]; [by eexists _, _|]. exfalso. destruct Hs as [Hs _].
    destruct (decide (p < q)%nat) as [Hlt|Hge].
    + destruct q as [|q]; [lia|]. rewrite positions_S, lookup_app_l in Hu by lia. destruct (L !! q) as [e|] eqn:He; [|done]. injection Hu as <- <-.
      assert (Hi : drop p L !! (q - p)%nat = Some e) by (rewrite lookup_drop; rewrite <- He; f_equal; lia).
      apply (Forall_lookup_1 _ _ _ _ Hs) in Hi. lia.
    + destruct p as [|p]; [lia|]. rewrite positions_S, lookup_app_l in Hp by lia. destruct (L !! p) as [e|] eqn:He; [|done]. injection Hp as <- <-.
      assert (Hi : drop q L !! (p - q)%nat = Some e) by (rewrite lookup_drop; rewrite <- He; f_equal; lia).
      apply (Forall_lookup_1 _ _ _ _ Hall) in Hi. lia.
Qed.

(** Positions around an entry. *)
Lemma positions_middle hd L e R p a h : positions hd (L ++ e :: R) !! p = Some (a, h) ->
  ((p <= length L)%nat /\ positions hd (L ++ R) !! p = Some (a, h)) \/
  (p = S (length L) /\ a = ea e /\ h = eh e) \/
  (exists q, p = S q /\ (length L < q)%nat /\ positions hd (L ++ R) !! q = Some (a, h)).
Proof.
  destruct p as [|p]; [left; split; [lia|done]|]. rewrite positions_S. intros H.
  destruct (decide (p < length L)%nat) as [Hlt|Hge].
  - left. rewrite positions_S. rewrite lookup_app_l in * by lia. split; [lia|done].
  - right. rewrite lookup_app_r in H by lia. destruct (p - length L)%nat as [|k] eqn:E.
    + left. injection H as <- <-. split; [f_equal; lia|done].
    + right. exists p. change ((e :: R) !! S k) with (R !! k) in H. destruct p as [|p]; [lia|]. rewrite positions_S, lookup_app_r by lia. replace (p - length L)%nat with k by lia. split_and!; [done|lia|done].
Qed.

Lemma drop_middle (L R : list entry) e p : (p <= length L)%nat -> drop p (L ++ e :: R) = drop p L ++ e :: R /\ drop p (L ++ R) = drop p L ++ R.
Proof. intros Hp. by rewrite !drop_app_le by lia. Qed.

Lemma drop_after (L R : list entry) e q : (length L < q)%nat -> drop (S q) (L ++ e :: R) = drop q (L ++ R).
Proof. intros Hq. rewrite !drop_app_ge by lia. by replace (S q - length L)%nat with (S (q - length L)) by lia. Qed.

Lemma lookup_middle (L R : list entry) e i x : (L ++ e :: R) !! i = Some x ->
  ((i < length L)%nat /\ (L ++ R) !! i = Some x) \/ (i = length L /\ x = e) \/
  (exists j, i = S j /\ (length L <= j)%nat /\ (L ++ R) !! j = Some x).
Proof.
  intros H. destruct (decide (i < length L)%nat) as [Hlt|Hge]; [left; rewrite lookup_app_l in * by lia; done|]. right.
  rewrite lookup_app_r in H by lia. destruct (i - length L)%nat as [|k] eqn:E; [left; injection H as <-; split; [lia|done]|].
  right. exists (length L + k)%nat. rewrite lookup_app_r by lia. replace (length L + k - length L)%nat with k by lia. split_and!; [lia|lia|done].
Qed.

Lemma lookup_after (L R : list entry) e j : (length L <= j)%nat -> (L ++ e :: R) !! S j = (L ++ R) !! j.
Proof. intros Hj. rewrite !lookup_app_r by lia. by replace (S j - length L)%nat with (S (j - length L)) by lia. Qed.

Lemma lookup_head (L R : list entry) : head R = (L ++ R) !! length L.
Proof. rewrite lookup_app_r, Nat.sub_diag by lia. by destruct R. Qed.

Lemma ea_inj (A : list entry) hd i j x y : NoDup (hd :: (ea <$> A)) -> A !! i = Some x -> A !! j = Some y -> ea x = ea y -> i = j.
Proof.
  intros Hn Hx Hy E. apply NoDup_cons in Hn as [_ Hn]. eapply NoDup_lookup; [exact Hn|..]; rewrite list_lookup_fmap; [by rewrite Hx|by rewrite Hy, E].
Qed.

(** * Insertion *)

Section Insert.
Variables (hd : addr) (lev : nat) (m : gmap addr node) (L R : list entry) (us : list (addr * Z)).
Hypothesis HL : links hd lev m (L ++ R).
Hypothesis Hus : forall l, (l < lev)%nat -> exists u r, us !! l = Some (u, Z.of_nat r) /\ is_pred hd (L ++ R) l (length L) r u.
Variables (e : entry).
Hypothesis Hfresh : m !! ea e = None.
Hypothesis Heh : (1 <= eh e <= lev)%nat.

(** The store with the new node, before it is linked. *)
Definition m0 : gmap addr node := <[ea e := mkNode (Some (ee e)) (es e) None (replicate (eh e) (None, 0))]> m.

Lemma position_info p a h : positions hd (L ++ R) !! p = Some (a, h) -> exists i, info_at m a = Some i.
Proof.
  destruct p as [|p]; [intros [= <- _]; destruct (lk_header _ _ _ _ HL) as [sc Hh]; by eexists|].
  rewrite positions_S. destruct ((L ++ R) !! p) as [e'|] eqn:He; [|done]. intros [= <- _]. eexists. by eapply lk_node.
Qed.

Lemma pred_info l u r : is_pred hd (L ++ R) l (length L) r u -> exists i, info_at m u = Some i.
Proof. intros (_ & (h & Hu & _) & _). by eapply position_info. Qed.

Lemma old_ne y i : info_at m y = Some i -> y <> ea e.
Proof. intros H ->. unfold info_at in H. by rewrite Hfresh in H. Qed.

Lemma m0_old y : y <> ea e -> info_at m0 y = info_at m y /\ back_at m0 y = back_at m y /\ forall l, level_at m0 y l = level_at m y l.
Proof. intros Hne. unfold info_at, back_at, level_at, m0. by rewrite lookup_insert_ne. Qed.

(** The entry of the predecessor at a level. *)
Lemma pred_level l u r : (l < lev)%nat -> is_pred hd (L ++ R) l (length L) r u ->
  level_at m u l = Some (let '(f, k) := nxt l R in (f, Z.of_nat (length L) - Z.of_nat r + k)) /\ (r <= length L)%nat.
Proof using HL.
  clear Hus Hfresh Heh. intros Hl Hp. pose proof Hp as (Hr & (h & Hu & Hh) & _). split; [|done]. rewrite (lk_level _ _ _ _ HL r u h l Hu Hh Hl).
  pose proof (pred_cases hd L R l r u r u h (lk_nodup _ _ _ _ HL) Hp Hu Hh Hr) as Hc. rewrite decide_True in Hc by done. destruct Hc as [_ Hc].
  rewrite drop_app_le, nxt_app, Hc by lia. done.
Qed.

(** The levels after the links of the new node are set. *)
Definition G_link (y : addr) (l : nat) : option (option addr * Z) :=
  match us !! l with
  | Some (u, r) => if decide (y = ea e) then Some (nxt l R) else if decide (y = u) then Some (Some (ea e), Z.of_nat (length L) - r + 1) else level_at m y l
  | None => None
  end.

(** The first predecessor is the last entry of [L]. *)
Lemma pred_zero : exists u, us !! 0%nat = Some (u, Z.of_nat (length L)) /\ is_pred hd (L ++ R) 0 (length L) (length L) u.
Proof using HL Hus.
  clear Hfresh Heh. destruct (Hus 0%nat (proj1 (lk_lev _ _ _ _ HL))) as (u & r & H0 & Hp). exists u. assert (r = length L) as ->; [|done].
  pose proof Hp as (Hr & _ & Hall). destruct (decide (r = length L)) as [|Hne]; [done|]. exfalso.
  destruct (lookup_lt_is_Some_2 L r ltac:(lia)) as [x Hx].
  assert (Hi : take (length L - r) (drop r (L ++ R)) !! 0%nat = Some x).
  { rewrite lookup_take_lt by lia. by rewrite lookup_drop, Nat.add_0_r, lookup_app_l by lia. }
  apply (Forall_lookup_1 _ _ _ _ Hall) in Hi.
  assert (Hh : (1 <= eh x <= lev)%nat) by (apply (Forall_lookup_1 _ _ r x (lk_height _ _ _ _ HL)); by rewrite lookup_app_l by lia). lia.
Qed.

Lemma link_loop_ok : exists m1, foldM (link_step us (ea e)) (seq 0 (eh e)) m0 = Some m1 /\
  (forall y, info_at m1 y = info_at m0 y) /\ (forall y, back_at m1 y = back_at m0 y) /\
  (forall y l, level_at m1 y l = if decide (l < eh e)%nat then G_link y l else level_at m0 y l).
Proof.
  destruct (foldM_levels (link_step us (ea e)) 0 (eh e) m0 G_link) as (m1 & H1 & H2 & H3 & H4).
  - intros i m1 Hi Hinfo Hlev. destruct (Hus i ltac:(lia)) as (u & r & Hu & Hp). destruct pred_zero as (u0 & H0 & _).
    destruct (pred_info i u r Hp) as [inf Hinf]. pose proof (old_ne _ _ Hinf) as Hne. destruct (m0_old u Hne) as (Hi0 & _ & Hl0).
    destruct (pred_level i u r ltac:(lia) Hp) as [Hlu Hr]. pose proof (lk_small _ _ _ _ HL) as Hsm. rewrite length_app in Hsm.
    pose proof (nxt_bound i R) as Hnb. unfold link_step. rewrite Hu, H0. cbn [mbind option_bind]. rewrite Hlev, Hl0, Hlu. destruct (nxt i R) as [f k] eqn:En.
    cbn [mbind option_bind]. cbn in Hnb. rewrite (uwrap_small 64 (Z.of_nat (length L) - Z.of_nat r)) by (unfold urange; lia).
    rewrite !uwrap_small by (unfold urange; lia).
    assert (Hx : info_at m0 (ea e) = Some (Some (ee e), es e, eh e)) by (unfold info_at, m0; rewrite lookup_insert_eq; cbn; by rewrite length_replicate).
    destruct (set_level_ok m1 (ea e) i (f, Z.of_nat (length L) - Z.of_nat r + k - (Z.of_nat (length L) - Z.of_nat r))) as (m2 & -> & A1 & A2 & A3).
    { eapply level_at_lt; [rewrite Hinfo; exact Hx|lia]. }
    cbn [mbind option_bind]. destruct (set_level_ok m2 u i (Some (ea e), Z.of_nat (length L) - Z.of_nat r + 1)) as (m3 & -> & B1 & B2 & B3).
    { rewrite A3, decide_False, Hlev, Hl0, Hlu by tauto. done. }
    exists m3. split_and!; [done|intros y; by rewrite B1, A1|intros y; by rewrite B2, A2|]. intros y j. rewrite B3, A3. unfold G_link.
    destruct (decide (j = i)) as [->|Hj]; [|by rewrite !decide_False by tauto]. rewrite Hu.
    destruct (decide (y = ea e)) as [->|Hy].
    + rewrite decide_False by (intros [? ?]; congruence). rewrite decide_True by done. rewrite En. do 2 f_equal. lia.
    + rewrite (decide_False (P := y = ea e /\ i = i)) by tauto. destruct (decide (y = u)) as [->|Hyu]; [by rewrite decide_True by done|].
      rewrite decide_False by tauto. rewrite Hlev. apply m0_old. done.
  - exists m1. split_and!; [done..|]. intros y l. rewrite H4. destruct (decide (l < eh e)%nat); [by rewrite decide_True by lia|by rewrite decide_False by lia].
Qed.

Definition G_bump (y : addr) (l : nat) : option (option addr * Z) :=
  match us !! l with
  | Some (u, r) => if decide (y = u) then Some (let '(f, k) := nxt l R in (f, Z.of_nat (length L) - r + k + 1)) else level_at m0 y l
  | None => None
  end.

Lemma bump_loop_ok m1 : (forall y, info_at m1 y = info_at m0 y) ->
  (forall y l, level_at m1 y l = if decide (l < eh e)%nat then G_link y l else level_at m0 y l) ->
  exists m2, foldM (bump_step us) (seq (eh e) (lev - eh e)) m1 = Some m2 /\
  (forall y, info_at m2 y = info_at m1 y) /\ (forall y, back_at m2 y = back_at m1 y) /\
  (forall y l, (l < lev)%nat -> level_at m2 y l = if decide (l < eh e)%nat then G_link y l else G_bump y l) /\
  (forall y l, (lev <= l)%nat -> level_at m2 y l = level_at m0 y l).
Proof.
  intros Hi1 Hl1. destruct (foldM_levels (bump_step us) (eh e) (lev - eh e) m1 G_bump) as (m2 & H1 & H2 & H3 & H4).
  - intros i m1' Hi Hinfo Hlev. destruct (Hus i ltac:(lia)) as (u & r & Hu & Hp).
    destruct (pred_info i u r Hp) as [inf Hinf]. pose proof (old_ne _ _ Hinf) as Hne. destruct (m0_old u Hne) as (Hi0 & _ & Hl0).
    destruct (pred_level i u r ltac:(lia) Hp) as [Hlu Hr]. pose proof (lk_small _ _ _ _ HL) as Hsm. rewrite length_app in Hsm.
    pose proof (nxt_bound i R) as Hnb. unfold bump_step. rewrite Hu. cbn [mbind option_bind].
    rewrite Hlev, Hl1, decide_False, Hl0, Hlu by lia. destruct (nxt i R) as [f k] eqn:En. cbn [mbind option_bind]. cbn in Hnb.
    rewrite uwrap_small by (unfold urange; lia).
    destruct (set_level_ok m1' u i (f, Z.of_nat (length L) - Z.of_nat r + k + 1)) as (m3 & -> & B1 & B2 & B3).
    { by rewrite Hlev, Hl1, decide_False, Hl0, Hlu by lia. }
    exists m3. split_and!; [done|done|done|]. intros y j. rewrite B3. unfold G_bump.
    destruct (decide (j = i)) as [->|Hj]; [|by rewrite decide_False by tauto]. rewrite Hu, En.
    destruct (decide (y = u)) as [->|Hyu]; [by rewrite decide_True by done|]. rewrite decide_False by tauto.
    by rewrite Hlev, Hl1, decide_False by lia.
  - exists m2. split_and!; [done..| |]; intros y l Hl; rewrite H4.
    + destruct (decide (l < eh e)%nat); [rewrite decide_False by lia; by rewrite Hl1, decide_True|by rewrite decide_True by lia].
    + by rewrite decide_False, Hl1, decide_False by lia.
Qed.

(** The store after the insertion. *)
Lemma insert_links m' u0 : us !! 0%nat = Some (u0, Z.of_nat (length L)) ->
  (forall y, info_at m' y = info_at m0 y) ->
  (forall y l, (l < lev)%nat -> level_at m' y l = if decide (l < eh e)%nat then G_link y l else G_bump y l) ->
  (forall y l, (lev <= l)%nat -> level_at m' y l = level_at m0 y l) ->
  (forall y, back_at m' y = if decide (Some y = ea <$> head R) then Some (Some (ea e)) else if decide (y = ea e) then Some (prev (L ++ e :: R) (length L)) else back_at m y) ->
  Z.of_nat (length (L ++ e :: R)) < 2 ^ 63 -> links hd lev m' (L ++ e :: R).
Proof.
  intros H0 Hinfo Hlev Htop Hback Hsm.
  assert (Hold : forall y i, info_at m y = Some i -> y <> ea e) by apply old_ne.
  assert (Hne_hd : hd <> ea e) by (destruct (lk_header _ _ _ _ HL) as [sc Hh]; by eapply Hold).
  assert (Hne : forall i x, (L ++ R) !! i = Some x -> ea x <> ea e) by (intros i x Hx; eapply Hold; by eapply lk_node).
  assert (Hnd : NoDup (hd :: (ea <$> L ++ e :: R))).
  { pose proof (lk_nodup _ _ _ _ HL) as Hn. rewrite fmap_app in *. rewrite fmap_cons.
    assert (Hp : hd :: ((ea <$> L) ++ ea e :: (ea <$> R)) ≡ₚ ea e :: hd :: ((ea <$> L) ++ (ea <$> R))) by (rewrite <- Permutation_middle; constructor).
    rewrite Hp. constructor; [|done]. rewrite <- fmap_app. intros Hin. apply elem_of_cons in Hin as [E|Hin]; [by symmetry in E|].
    apply list_elem_of_fmap in Hin as (x & Ex & Hx). apply list_elem_of_lookup in Hx as [i Hx]. by apply (Hne i x Hx). }
  split.
  - done.
  - apply Forall_app. pose proof (lk_height _ _ _ _ HL) as Hh. apply Forall_app in Hh as [Hh1 Hh2]. split; [done|]. by constructor.
  - apply HL.
  - destruct (lk_header _ _ _ _ HL) as [sc Hh]. exists sc. rewrite Hinfo. by rewrite (proj1 (m0_old _ Hne_hd)).
  - intros i x Hx. rewrite Hinfo. apply lookup_middle in Hx as [(Hi & Hx)|[(-> & ->)|(j & -> & Hj & Hx)]].
    + rewrite (proj1 (m0_old _ (Hne _ _ Hx))). by eapply lk_node.
    + unfold info_at, m0. rewrite lookup_insert_eq. cbn. by rewrite length_replicate.
    + rewrite (proj1 (m0_old _ (Hne _ _ Hx))). by eapply lk_node.
  - intros i x Hx. rewrite Hback, (lookup_head L R). apply lookup_middle in Hx as [(Hi & Hx)|[(-> & ->)|(j & -> & Hj & Hx)]].
    + rewrite decide_False by (destruct ((L ++ R) !! length L) as [z|] eqn:Hz; [intros [= E]; pose proof (ea_inj _ _ _ _ _ _ (lk_nodup _ _ _ _ HL) Hx Hz E); lia|done]).
      rewrite decide_False by (by eapply Hne). rewrite (lk_back _ _ _ _ HL i x Hx). destruct i as [|i]; [done|]. cbn [prev]. by rewrite !lookup_app_l by lia.
    + rewrite decide_False by (destruct ((L ++ R) !! length L) as [z|] eqn:Hz; [intros [= E]; by apply (Hne _ _ Hz)|done]). by rewrite decide_True.
    + cbn [prev]. destruct (decide (j = length L)) as [->|Hjl].
      * rewrite Hx. rewrite decide_True by done. rewrite lookup_app_r, Nat.sub_diag by lia. done.
      * rewrite decide_False by (destruct ((L ++ R) !! length L) as [z|] eqn:Hz; [intros [= E]; pose proof (ea_inj _ _ _ _ _ _ (lk_nodup _ _ _ _ HL) Hx Hz E); lia|done]).
        rewrite decide_False by (by eapply Hne). rewrite (lk_back _ _ _ _ HL j x Hx). destruct j as [|j]; [lia|]. cbn [prev]. by rewrite lookup_after by lia.
  - intros p a h l Hp Hh Hl. rewrite Hlev by done. destruct (Hus l Hl) as (u & r & Hu & Hpr). unfold G_link, G_bump. rewrite Hu.
    apply positions_middle in Hp as [(Hpl & Hp)|[(-> & -> & ->)|(q & -> & Hq & Hp)]].
    + pose proof (pred_cases _ _ _ _ _ _ _ _ _ (lk_nodup _ _ _ _ HL) Hpr Hp Hh Hpl) as Hc.
      assert (Ha : a <> ea e) by (destruct (position_info _ _ _ Hp) as [i Hi]; by apply (Hold a i)). rewrite (decide_False (P := a = ea e)) by done.
      destruct (drop_middle L R e p Hpl) as [-> Ed]. rewrite nxt_app. cbn [nxt].
      destruct (decide (a = u)) as [->|Hau].
      * destruct Hc as [-> ->]. destruct (decide (l < eh e)%nat); [done|]. destruct (nxt l R) as [f k]. do 2 f_equal. lia.
      * destruct Hc as (f & k & Hc). rewrite Hc. rewrite (proj2 (proj2 (m0_old _ Ha))), (lk_level _ _ _ _ HL p a h l Hp Hh Hl), Ed, nxt_app, Hc.
        by destruct (decide (l < eh e)%nat).
    + rewrite !decide_True by done. by rewrite drop_app_ge, Nat.sub_succ_l, Nat.sub_diag by lia.
    + assert (Ha : a <> ea e) by (destruct (position_info _ _ _ Hp) as [i Hi]; by apply (Hold a i)). rewrite (decide_False (P := a = ea e)) by done.
      assert (Hau : a <> u).
      { intros ->. destruct Hpr as (Hr & (h' & Hu' & _) & _). pose proof (positions_inj _ _ _ _ _ _ _ (lk_nodup _ _ _ _ HL) Hp Hu'). lia. }
      rewrite !(decide_False (P := a = u)) by done. rewrite (proj2 (proj2 (m0_old _ Ha))), (lk_level _ _ _ _ HL q a h l Hp Hh Hl), drop_after by done.
      by destruct (decide (l < eh e)%nat).
  - intros l Hl. rewrite Htop by lia. rewrite (proj2 (proj2 (m0_old _ Hne_hd))). by apply (lk_top _ _ _ _ HL).
  - done.
Qed.

End Insert.

(** * The order *)

(** A score and an element. *)
Abbreviation val := (Z * bytes)%type.

Definition kcmp (a b : val) : comparison := match dkey a.1 ?= dkey b.1 with Eq => lex a.2 b.2 | c => c end.
Definition klt (a b : val) : bool := match kcmp a b with Lt => true | _ => false end.

Lemma lex_refl a : lex a a = Eq.
Proof. induction a as [|x a IH]; [done|]. cbn. by rewrite Z.compare_refl. Qed.

Lemma lex_eq a b : lex a b = Eq -> a = b.
Proof.
  revert b. induction a as [|x a IH]; intros [|y b]; try done. cbn. destruct (x ?= y) eqn:E; try done. apply Z.compare_eq in E as ->.
  intros H. f_equal. by apply IH.
Qed.

Lemma lex_antisym a b : lex b a = CompOpp (lex a b).
Proof.
  revert b. induction a as [|x a IH]; intros [|y b]; try done. cbn. rewrite (Z.compare_antisym x y). destruct (x ?= y); [apply IH|done|done].
Qed.

Lemma lex_trans a b c : lex a b = Lt -> lex b c = Lt -> lex a c = Lt.
Proof.
  revert b c. induction a as [|x a IH]; intros [|y b] [|z c]; try done. cbn.
  destruct (x ?= y) eqn:E1; destruct (y ?= z) eqn:E2; try done; intros H1 H2.
  - apply Z.compare_eq in E1 as ->. rewrite E2. by eapply IH.
  - apply Z.compare_eq in E1 as ->. by rewrite E2.
  - apply Z.compare_eq in E2 as <-. by rewrite E1.
  - rewrite Z.compare_lt_iff in *. by rewrite (proj2 (Z.compare_lt_iff x z)) by lia.
Qed.

Lemma kcmp_antisym a b : kcmp b a = CompOpp (kcmp a b).
Proof. unfold kcmp. rewrite (Z.compare_antisym (dkey a.1)). destruct (_ ?= _); [apply lex_antisym|done|done]. Qed.

Lemma kcmp_refl a : kcmp a a = Eq.
Proof. unfold kcmp. rewrite Z.compare_refl. apply lex_refl. Qed.

Lemma kcmp_eq a b : kcmp a b = Eq -> dkey a.1 = dkey b.1 /\ a.2 = b.2.
Proof. unfold kcmp. destruct (_ ?= _) eqn:E; [|done..]. apply Z.compare_eq in E. intros H. split; [done|]. by apply lex_eq. Qed.

Lemma kcmp_trans a b c : kcmp a b = Lt -> kcmp b c = Lt -> kcmp a c = Lt.
Proof.
  unfold kcmp. destruct (dkey a.1 ?= dkey b.1) eqn:E1; destruct (dkey b.1 ?= dkey c.1) eqn:E2; try done; intros H1 H2.
  - apply Z.compare_eq in E1 as ->. rewrite E2. by eapply lex_trans.
  - apply Z.compare_eq in E1 as ->. by rewrite E2.
  - apply Z.compare_eq in E2 as <-. by rewrite E1.
  - rewrite Z.compare_lt_iff in *. by rewrite (proj2 (Z.compare_lt_iff (dkey a.1) (dkey c.1))) by lia.
Qed.

Lemma kcmp_trans_le a b c : kcmp a b = Lt -> kcmp b c <> Gt -> kcmp a c = Lt.
Proof.
  intros H1 H2. destruct (kcmp b c) eqn:E; [|by eapply kcmp_trans|done]. apply kcmp_eq in E as [E1 E2].
  unfold kcmp in *. by rewrite <- E1, <- E2.
Qed.

Lemma kcmp_le_trans a b c : kcmp a b <> Gt -> kcmp b c = Lt -> kcmp a c = Lt.
Proof.
  intros H1 H2. destruct (kcmp a b) eqn:E; [|by eapply kcmp_trans|done]. apply kcmp_eq in E as [E1 E2].
  unfold kcmp in *. by rewrite E1, E2.
Qed.

Lemma klt_iff a b : klt a b = true <-> kcmp a b = Lt.
Proof. unfold klt. by destruct (kcmp a b). Qed.

(** The test of the code. *)
Lemma klt_code s e s' e' : (dlt s s' || deq s s' && ele_lt e e') = klt (s, e) (s', e').
Proof.
  unfold dlt, deq, ele_lt, klt, kcmp. cbn [fst snd]. rewrite Z.ltb_compare. destruct (Z.eqb_spec (dkey s) (dkey s')) as [->|Hne].
  - by rewrite Z.compare_refl.
  - destruct (dkey s ?= dkey s') eqn:E; [by apply Z.compare_eq in E|done|done].
Qed.

Definition ksorted (l : list val) : Prop := StronglySorted (fun a b => kcmp a b = Lt) l.

Lemma ksorted_app l1 l2 : ksorted (l1 ++ l2) <-> ksorted l1 /\ ksorted l2 /\ forall a b, a ∈ l1 -> b ∈ l2 -> kcmp a b = Lt.
Proof.
  unfold ksorted. induction l1 as [|x l1 IH]; cbn.
  - split; [intros H; split_and!; [constructor|done|intros a b Ha; by apply not_elem_of_nil in Ha]|by intros (_ & ? & _)].
  - split.
    + intros H. apply StronglySorted_inv in H as [H1 H2]. apply IH in H1 as (S1 & S2 & S3). apply Forall_app in H2 as [F1 F2].
      split_and!; [by constructor|done|]. intros a b [->|Ha]%elem_of_cons Hb; [by apply (proj1 (Forall_forall _ _) F2)|by apply S3].
    + intros (H1 & H2 & H3). apply StronglySorted_inv in H1 as [S1 F1]. constructor.
      * apply IH. split_and!; [done|done|]. intros a b Ha Hb. apply H3; [by right|done].
      * apply Forall_app. split; [done|]. apply Forall_forall. intros b Hb. apply H3; [by left|done].
Qed.

(** A test that is closed downwards in a list. *)
Definition closed (l : list val) (P : val -> bool) : Prop :=
  forall a b, a ∈ l -> b ∈ l -> kcmp a b = Lt -> P b = true -> P a = true.

(** Such a test holds on a prefix of a sorted list. *)
Lemma ksorted_split (P : val -> bool) l : ksorted l -> closed l P ->
  exists l1 l2, l = l1 ++ l2 /\ Forall (fun a => P a = true) l1 /\ Forall (fun a => P a = false) l2.
Proof.
  intros Hs. induction Hs as [|a l Hs IH Hf]; intros HP; [by exists [], []|]. destruct (P a) eqn:Ea.
  - destruct IH as (l1 & l2 & -> & H1 & H2); [intros x y Hx Hy; apply HP; by right|].
    exists (a :: l1), l2. split_and!; [done|by constructor|done].
  - exists [], (a :: l). split_and!; [done|done|]. constructor; [done|]. apply Forall_forall. intros b Hb. destruct (P b) eqn:Eb; [|done].
    rewrite Forall_forall in Hf. rewrite (HP a b) in Ea; [done|by left|by right|by apply Hf|done].
Qed.

(** * The invariant *)

Definition ev (e : entry) : val := (es e, ee e).
Definition vals (A : list entry) : list val := ev <$> A.

(** The skip list [z] holds the entries [A], in order: the links are right, no
    element is there twice, and the number of levels is that of the highest node. *)
Record zrep (z : zskiplist) (A : list entry) : Prop := {
  zr_links : links (header z) (zlevel z) (mem z) A;
  zr_len : zlen z = Z.of_nat (length A);
  zr_tail : tail z = ea <$> last A;
  zr_tight : zlevel z = 1%nat \/ Exists (fun e => eh e = zlevel z) A;
  zr_sorted : ksorted (vals A);
  zr_unique : NoDup (ee <$> A)
}.

(** * Searching *)

(** The predecessors of the end of [L] at the levels below [n]. *)
Definition preds (hd : addr) (A : list entry) (m n : nat) (us : list (addr * Z)) : Prop :=
  length us = n /\ forall l, (l < n)%nat -> exists u r, us !! l = Some (u, Z.of_nat r) /\ is_pred hd A l m r u.

Lemma search_ok z A cond m : links (header z) (zlevel z) (mem z) A -> zlen z = Z.of_nat (length A) ->
  cond_upto (mem z) A cond m -> (m <= length A)%nat ->
  exists x us h, search z cond = Some (x, Z.of_nat m, us) /\ preds (header z) A m (zlevel z) us /\
    us !! 0%nat = Some (x, Z.of_nat m) /\ positions (header z) A !! m = Some (x, h) /\ (1 <= h)%nat.
Proof.
  intros HL Hlen Hc Hm. unfold search, fuel_of. rewrite Hlen, Nat2Z.id. pose proof (lk_lev _ _ _ _ HL) as Hlv.
  destruct (descend_ok _ _ _ _ HL cond m Hc Hm (zlevel z) 0 (header z) ZSKIPLIST_MAXLEVEL (length A)) as (x & q & us & H1 & H2 & H3 & H4); [done|done|lia|lia|lia|].
  destruct (zlevel z) as [|lv] eqn:Elv; [lia|]. rewrite <- Elv in *.
  rewrite <- (take_drop m A) in HL, H3. assert (Hl : length (take m A) = m) by (rewrite length_take; lia).
  destruct (pred_zero (header z) (zlevel z) (mem z) (take m A) (drop m A) us HL) as (u & Hu & (_ & (h & Hp & Hh) & _)); [by rewrite Hl|].
  rewrite Hl, take_drop in *. rewrite Hu in H4. injection H4 as <- Eq. apply Nat2Z.inj in Eq as <-. by exists u, us, h.
Qed.

(** [cond] tests the score, the element and the rank of a node. *)
Definition tests (cond : node -> Z -> bool) (Q : val -> Z -> bool) : Prop :=
  forall n r e, ele n = Some e -> cond n r = Q (score n, e) r.

Lemma tests_entry cond Q hd lev m A i e n r : tests cond Q -> links hd lev m A -> A !! i = Some e -> m !! ea e = Some n -> cond n r = Q (ev e) r.
Proof.
  intros HQ HL Hi Hn. destruct (info_node _ _ _ (lk_node _ _ _ _ HL i e Hi)) as (n' & Hn' & E). rewrite Hn in Hn'. injection Hn' as <-.
  injection E as E1 E2 E3. unfold ev. rewrite E2. by apply HQ.
Qed.

Lemma cond_split z L R cond (P : val -> bool) : links (header z) (zlevel z) (mem z) (L ++ R) -> tests cond (fun a _ => P a) ->
  Forall (fun a => P (ev a) = true) L -> Forall (fun a => P (ev a) = false) R -> cond_upto (mem z) (L ++ R) cond (length L).
Proof.
  intros HL HQ F1 F2 i e n Hi Hn. rewrite (tests_entry _ _ _ _ _ _ _ _ _ _ HQ HL Hi Hn). destruct (decide (S i <= length L)%nat) as [Hlt|Hge].
  - rewrite bool_decide_eq_true_2 by done. rewrite lookup_app_l in Hi by lia. by apply (Forall_lookup_1 _ _ _ _ F1 Hi).
  - rewrite bool_decide_eq_false_2 by done. rewrite lookup_app_r in Hi by lia. by apply (Forall_lookup_1 _ _ _ _ F2 Hi).
Qed.

Lemma vals_split A P : ksorted (vals A) -> closed (vals A) P ->
  exists L R, A = L ++ R /\ Forall (fun a => P (ev a) = true) L /\ Forall (fun a => P (ev a) = false) R.
Proof.
  intros Hs HP. destruct (ksorted_split P (vals A) Hs HP) as (l1 & l2 & E & F1 & F2).
  apply fmap_app_inv in E as (L & R & -> & -> & ->). rewrite Forall_fmap in F1, F2. by exists L, R.
Qed.

(** A test on scores and elements that is closed downwards splits the list. *)
Lemma search_vals z A cond (P : val -> bool) : zrep z A -> closed (vals A) P -> tests cond (fun a _ => P a) ->
  exists L R x us h, A = L ++ R /\ Forall (fun a => P (ev a) = true) L /\ Forall (fun a => P (ev a) = false) R /\
    search z cond = Some (x, Z.of_nat (length L), us) /\ preds (header z) (L ++ R) (length L) (zlevel z) us /\
    us !! 0%nat = Some (x, Z.of_nat (length L)) /\ positions (header z) (L ++ R) !! length L = Some (x, h) /\ (1 <= h)%nat.
Proof.
  intros H HP Hc. destruct (vals_split A P (zr_sorted _ _ H) HP) as (L & R & -> & F1 & F2). exists L, R.
  destruct (search_ok z (L ++ R) cond (length L) (zr_links _ _ H) (zr_len _ _ H)) as (x & us & h & H1 & H2 & H3 & H4 & H5);
    [apply (cond_split _ _ _ _ P); [apply H|done..]|rewrite length_app; lia|by exists x, us, h].
Qed.

(** The search for a key. *)
Lemma before_closed l k : closed l (fun a => klt a k).
Proof. intros a b _ _. rewrite !klt_iff. apply kcmp_trans. Qed.

Lemma before_tests s e : tests (before s e) (fun a _ => klt a (s, e)).
Proof. intros n r e' He. unfold before. rewrite He. apply klt_code. Qed.

(** * Raising the level *)

Lemma raise_links z A lev : links (header z) (zlevel z) (mem z) A -> zlen z = Z.of_nat (length A) ->
  (zlevel z < lev <= ZSKIPLIST_MAXLEVEL)%nat -> exists m, foldM (raise_step z) (seq (zlevel z) (lev - zlevel z)) (mem z) = Some m /\
  links (header z) lev m A /\ (forall y, info_at m y = info_at (mem z) y).
Proof.
  intros HL Hlen Hlev. set (G := fun (y : addr) (l : nat) => if decide (y = header z) then Some (None, zlen z) else level_at (mem z) y l).
  destruct (foldM_levels (raise_step z) (zlevel z) (lev - zlevel z) (mem z) G) as (m & Hm & Hi & Hb & Hl).
  - intros i m1 Hr Hinf Hlv. unfold raise_step. destruct (lk_top _ _ _ _ HL i ltac:(lia)) as [sp Htop]. rewrite Hlv, Htop. cbn [mbind option_bind].
    destruct (set_level_ok m1 (header z) i (None, zlen z)) as (m2 & -> & B1 & B2 & B3); [by rewrite Hlv, Htop|].
    exists m2. split_and!; [done..|]. intros y j. rewrite B3. unfold G. destruct (decide (j = i)) as [->|]; [|by rewrite decide_False by tauto].
    destruct (decide (y = header z)); [by rewrite decide_True|]. by rewrite decide_False, Hlv by tauto.
  - exists m. split_and!; [done| |done]. destruct HL as [N1 N2 N3 N4 N5 N6 N7 N8 N9]. split.
    + done.
    + eapply Forall_impl; [exact N2|]. cbn. lia.
    + lia.
    + by rewrite Hi.
    + intros i e He. rewrite Hi. by apply (N5 i).
    + intros i e He. rewrite Hb. by apply N6.
    + intros p a h l Hp Hh Hll. rewrite Hl. destruct (decide (zlevel z <= l)%nat) as [Hle|Hgt]; [|rewrite decide_False by lia; apply (N7 p a h); [done|done|lia]].
      rewrite decide_True by lia. unfold G. destruct p as [|p].
      * injection Hp as <- _. rewrite decide_True by done. rewrite drop_0, nxt_none, Hlen; [done|]. eapply Forall_impl; [exact N2|]. cbn. lia.
      * exfalso. rewrite positions_S in Hp. destruct (A !! p) as [e|] eqn:He; [|done]. injection Hp as <- <-. apply (Forall_lookup_1 _ _ _ _ N2) in He. lia.
    + intros l Hll. rewrite Hl, decide_False by lia. apply N8. lia.
    + done.
Qed.

Lemma preds_raise hd A m n lev us : Forall (fun e => eh e <= n)%nat A -> (n < lev <= ZSKIPLIST_MAXLEVEL)%nat -> preds hd A m n us ->
  preds hd A m lev (us ++ replicate (lev - n) (hd, 0)).
Proof.
  intros HA Hn [Hl Hp]. split; [rewrite length_app, length_replicate; lia|]. intros l Hll. destruct (decide (l < n)%nat) as [Hlt|Hge].
  - rewrite lookup_app_l by lia. by apply Hp.
  - rewrite lookup_app_r, lookup_replicate_2 by lia. exists hd, 0%nat. split; [done|]. split_and!; [lia|by exists ZSKIPLIST_MAXLEVEL; split; [|lia]|].
    apply Forall_take, Forall_drop. eapply Forall_impl; [exact HA|]. cbn. lia.
Qed.

Lemma raise_level_ok z A lev us m : links (header z) (zlevel z) (mem z) A -> zlen z = Z.of_nat (length A) -> (1 <= lev <= ZSKIPLIST_MAXLEVEL)%nat ->
  preds (header z) A m (zlevel z) us -> us !! 0%nat <> None ->
  exists z' us', raise_level z us lev = Some (z', us') /\ header z' = header z /\ tail z' = tail z /\ zlen z' = zlen z /\
    zlevel z' = Nat.max (zlevel z) lev /\ links (header z) (zlevel z') (mem z') A /\ preds (header z) A m (zlevel z') us' /\ us' !! 0%nat = us !! 0%nat /\
    (forall y, info_at (mem z') y = info_at (mem z) y).
Proof.
  intros HL Hlen Hlev Hp H0. unfold raise_level. destruct (decide (zlevel z < lev)%nat) as [Hlt|Hge].
  - destruct (raise_links z A lev HL Hlen ltac:(lia)) as (m' & -> & HL' & Hinf). cbn [mbind option_bind]. eexists _, _. split; [done|].
    cbn [header tail zlen zlevel mem with_level with_mem]. split_and!; [done|done|done|lia|done| | |done].
    + apply preds_raise; [|lia|done]. eapply Forall_impl; [exact (lk_height _ _ _ _ HL)|]. cbn. lia.
    + destruct us as [|u us]; [done|]. done.
  - exists z, us. split_and!; [done..|lia|done|done|done|done].
Qed.

(** * Insertion keeps the invariant *)

(** [zslRandomLevel] is between 1 and ZSKIPLIST_MAXLEVEL. *)
Lemma random_level_range rs lev : zslRandomLevel rs = Some lev -> (1 <= lev <= ZSKIPLIST_MAXLEVEL)%nat.
Proof.
  assert (H : forall rs a lev, count_draws rs a = Some lev -> a <= lev).
  { induction rs0 as [|r rs0 IH]; intros a l; cbn; [done|]. destruct (r <? threshold); [|intros [= <-]; lia]. intros Hc. apply IH in Hc. lia. }
  unfold zslRandomLevel. destruct (count_draws rs 1) as [l|] eqn:E; [|done]. apply H in E. cbn. intros [= <-].
  unfold ZSKIPLIST_MAXLEVEL. change (Z.of_nat 32) with 32. destruct (Z.ltb_spec l 32); lia.
Qed.

Section Ops.
Variable alloc : gset addr -> addr.
Hypothesis alloc_fresh : forall X, alloc X ∉ X.

(** The links after [zslInsert], for a skip list whose level is high enough. *)
Lemma insert_node_ok z L R us u0 e : links (header z) (zlevel z) (mem z) (L ++ R) -> preds (header z) (L ++ R) (length L) (zlevel z) us ->
  us !! 0%nat = Some (u0, Z.of_nat (length L)) -> ea e = alloc (dom (mem z)) -> (1 <= eh e <= zlevel z)%nat -> Z.of_nat (length (L ++ e :: R)) < 2 ^ 63 ->
  exists m1 m2 m3 f k, foldM (link_step us (ea e)) (seq 0 (eh e)) (zslCreateNode alloc (mem z) (eh e) (es e) (Some (ee e))).2 = Some m1 /\
    foldM (bump_step us) (seq (eh e) (zlevel z - eh e)) m1 = Some m2 /\
    set_backward m2 (ea e) (if bool_decide (u0 = header z) then None else Some u0) = Some m3 /\
    level_at m3 (ea e) 0 = Some (f, k) /\ f = ea <$> head R /\
    match f with
    | Some f => exists m4, set_backward m3 f (Some (ea e)) = Some m4 /\ links (header z) (zlevel z) m4 (L ++ e :: R)
    | None => links (header z) (zlevel z) m3 (L ++ e :: R)
    end.
Proof.
  intros HL [Hul Hus] H0 He Heh Hsm.
  assert (Hfr : mem z !! ea e = None) by (apply not_elem_of_dom; rewrite He; apply alloc_fresh).
  assert (Em : (zslCreateNode alloc (mem z) (eh e) (es e) (Some (ee e))).2 = m0 (mem z) e) by (unfold zslCreateNode, m0; by rewrite <- He).
  rewrite Em. destruct (link_loop_ok _ _ _ _ _ us HL Hus e Hfr Heh) as (m1 & H1 & I1 & B1 & L1).
  destruct (bump_loop_ok _ _ _ _ _ us HL Hus e Hfr Heh m1 I1 L1) as (m2 & H2 & I2 & B2 & L2 & T2).
  assert (Hx : info_at (m0 (mem z) e) (ea e) = Some (Some (ee e), es e, eh e))
    by (unfold info_at, m0; rewrite lookup_insert_eq; cbn; by rewrite length_replicate).
  assert (Hu0 : (if bool_decide (u0 = header z) then None else Some u0) = prev (L ++ e :: R) (length L)).
  { destruct (Hus 0%nat ltac:(lia)) as (u & r & Hu & (_ & (h & Hp & _) & _)). rewrite H0 in Hu. injection Hu as <- Er. apply Nat2Z.inj in Er as <-.
    destruct (length L) as [|n] eqn:En; [injection Hp as <- _; by rewrite bool_decide_eq_true_2|].
    rewrite bool_decide_eq_false_2 by (intros ->; pose proof (positions_inj _ _ _ 0%nat _ _ _ (lk_nodup _ _ _ _ HL) Hp eq_refl); lia).
    cbn [prev]. rewrite positions_S in Hp. rewrite lookup_app_l in * by lia. destruct (L !! n); [|done]. by injection Hp as <-. }
  destruct (set_backward_ok m2 (ea e) (if bool_decide (u0 = header z) then None else Some u0)) as (m3 & H3 & I3 & B3 & L3); [by rewrite I2, I1, Hx|].
  assert (Hl3 : level_at m3 (ea e) 0 = Some (nxt 0 R)) by (rewrite L3, L2, decide_True by lia; unfold G_link; by rewrite H0, decide_True).
  assert (Hn : (nxt 0 R).1 = ea <$> head R).
  { pose proof (lk_height _ _ _ _ HL) as Hh. apply Forall_app in Hh as [_ Hh]. destruct Hh as [|x R' Hx' _]; [done|]. cbn. by rewrite decide_True by lia. }
  destruct (nxt 0 R) as [f k] eqn:En. cbn in Hn. exists m1, m2, m3, f, k. split_and!; [done..|].
  assert (Hback : forall y, back_at m3 y = if decide (y = ea e) then Some (prev (L ++ e :: R) (length L)) else back_at (mem z) y).
  { intros y. rewrite B3, Hu0. destruct (decide (y = ea e)); [done|]. rewrite B2, B1. by apply m0_old. }
  destruct f as [f|].
  - assert (Hf : is_Some (info_at m3 f)).
    { rewrite I3, I2, I1. destruct R as [|x R']; [done|]. injection Hn as ->.
      assert (Hi : (L ++ x :: R') !! length L = Some x) by (by rewrite lookup_app_r, Nat.sub_diag by lia).
      pose proof (lk_node _ _ _ _ HL _ _ Hi) as Hinf. rewrite (proj1 (m0_old _ _ _ (old_ne _ _ Hfr _ _ Hinf))). by rewrite Hinf. }
    destruct (set_backward_ok m3 f (Some (ea e)) Hf) as (m4 & H4 & I4 & B4 & L4). exists m4. split; [done|].
    apply (insert_links _ _ _ _ _ us HL Hus e Hfr Heh m4 u0); [done|by intros y; rewrite I4, I3, I2, I1|by intros y l Hl; rewrite L4, L3; apply L2|by intros y l Hl; rewrite L4, L3; apply T2| |done].
    intros y. rewrite B4, Hback, <- Hn. destruct (decide (y = f)) as [->|Hne]; [by rewrite decide_True|]. by rewrite (decide_False (P := Some y = Some f)) by congruence.
  - apply (insert_links _ _ _ _ _ us HL Hus e Hfr Heh m3 u0); [done|by intros y; rewrite I3, I2, I1|by intros y l Hl; rewrite L3; apply L2|by intros y l Hl; rewrite L3; apply T2| |done].
    intros y. rewrite Hback, <- Hn. by rewrite (decide_False (P := Some y = None)).
Qed.

(** A new entry in its place. *)
Lemma ksorted_insert L R e : ksorted (vals (L ++ R)) -> Forall (fun a => klt (ev a) (ev e) = true) L -> Forall (fun a => klt (ev a) (ev e) = false) R ->
  ee e ∉ (ee <$> L ++ R) -> ksorted (vals (L ++ e :: R)).
Proof.
  unfold vals. intros Hs HL HR Hin. rewrite fmap_app, fmap_cons. rewrite fmap_app in Hs. apply ksorted_app in Hs as (S1 & S2 & S3).
  assert (Hlt : forall a, a ∈ L -> kcmp (ev a) (ev e) = Lt) by (intros a Ha; apply klt_iff; by apply (proj1 (Forall_forall _ _) HL)).
  assert (Hgt : forall a, a ∈ R -> kcmp (ev e) (ev a) = Lt).
  { intros a Ha. pose proof (proj1 (Forall_forall _ _) HR a Ha) as Hk. unfold klt in Hk. rewrite kcmp_antisym.
    destruct (kcmp (ev a) (ev e)) eqn:E; [|done|done]. exfalso. apply kcmp_eq in E as [_ E]. apply Hin. cbn in E. rewrite <- E.
    apply list_elem_of_fmap. exists a. split; [done|]. apply elem_of_app. by right. }
  apply ksorted_app. split_and!; [done| |].
  - constructor; [done|]. apply Forall_fmap, Forall_forall. apply Hgt.
  - intros a b Ha Hb. apply list_elem_of_fmap in Ha as (a' & -> & Ha). apply elem_of_cons in Hb as [->|Hb]; [by apply Hlt|].
    apply list_elem_of_fmap in Hb as (b' & -> & Hb). eapply kcmp_trans; [by apply Hlt|by apply Hgt].
Qed.

Lemma last_middle {X} (L R : list X) e : last (L ++ e :: R) = match R with [] => Some e | _ => last (L ++ R) end.
Proof. rewrite last_app, last_cons. destruct R as [|x R]; [done|]. rewrite last_app. destruct (last (x :: R)) eqn:E; [done|]. by apply last_None in E. Qed.

Lemma zslInsert_ok z A s el rs lev : zrep z A -> isnan s = false -> zslRandomLevel rs = Some lev -> el ∉ (ee <$> A) -> Z.of_nat (length A) + 1 < 2 ^ 63 ->
  exists z' L R x, zslInsert alloc z s el rs = Some (z', x) /\ A = L ++ R /\ zrep z' (L ++ mkEntry x s el lev :: R) /\
    Forall (fun a => klt (ev a) (s, el) = true) L /\ Forall (fun a => klt (ev a) (s, el) = false) R /\ header z' = header z /\ mem z !! x = None.
Proof.
  intros H Hnan Hrs Hin Hsm. pose proof (random_level_range rs lev Hrs) as Hlev. unfold zslInsert. rewrite Hnan. cbn [negb guard mbind option_bind].
  destruct (search_vals z A (before s el) (fun a => klt a (s, el)) H) as (L & R & x0 & us & h & -> & HL & HR & -> & Hp & H0 & _).
  { apply before_closed. } { apply before_tests. }
  cbn [mbind option_bind]. rewrite Hrs. cbn [mbind option_bind].
  destruct (raise_level_ok z (L ++ R) lev us (length L) (zr_links _ _ H) (zr_len _ _ H) Hlev Hp ltac:(by rewrite H0)) as (z1 & us1 & -> & Eh & Et & El & Ev & HL1 & Hp1 & H01 & Hinf).
  cbn [mbind option_bind]. rewrite H0 in H01. set (e := mkEntry (alloc (dom (mem z1))) s el lev).
  rewrite <- Eh in HL1, Hp1. assert (Hsm' : Z.of_nat (length (L ++ e :: R)) < 2 ^ 63) by (rewrite length_app in *; cbn [length]; lia).
  destruct (insert_node_ok z1 L R us1 x0 e HL1 Hp1 H01 eq_refl ltac:(cbn [eh e]; lia) Hsm') as (m1 & m2 & m3 & f & k & F1 & F2 & F3 & F4 & F5 & F6).
  cbn [ea es ee eh e zslCreateNode snd] in F1, F2, F3, F4. unfold zslCreateNode. rewrite F1. cbn [mbind option_bind]. rewrite F2. cbn [mbind option_bind].
  rewrite H01. cbn [mbind option_bind]. rewrite F3. cbn [mbind option_bind]. rewrite F4. cbn [mbind option_bind].
  assert (Hlen : zlen z1 = Z.of_nat (length (L ++ R))) by (rewrite El; apply H).
  assert (Hz : exists z2, match f with Some f => m ← set_backward m3 f (Some (alloc (dom (mem z1)))); Some (with_mem z1 m) | None => Some (with_tail (with_mem z1 m3) (Some (alloc (dom (mem z1))))) end = Some z2 /\
    header z2 = header z1 /\ zlen z2 = zlen z1 /\ zlevel z2 = zlevel z1 /\ tail z2 = ea <$> last (L ++ e :: R) /\ links (header z1) (zlevel z1) (mem z2) (L ++ e :: R)).
  { rewrite last_middle. destruct f as [f|].
    - destruct F6 as (m4 & F6 & F7). change (ea e) with (alloc (dom (mem z1))) in F6. rewrite F6. cbn [mbind option_bind]. eexists. split; [done|]. split_and!; try done. cbn. destruct R; [done|].
      by rewrite Et, (zr_tail _ _ H).
    - eexists. split; [done|]. split_and!; try done. by destruct R. }
  destruct Hz as (z2 & -> & G1 & G2 & G3 & G4 & G5). cbn [mbind option_bind]. eexists _, L, R, _. split; [done|]. split; [done|].
  assert (Hfr : mem z !! alloc (dom (mem z1)) = None).
  { assert (Hn : mem z1 !! alloc (dom (mem z1)) = None) by apply not_elem_of_dom, alloc_fresh. specialize (Hinf (alloc (dom (mem z1)))). unfold info_at in Hinf.
    rewrite Hn in Hinf. by destruct (mem z !! _). }
  split; [|split_and!; [done|done|cbn; by rewrite G1|done]].
  change (mkEntry (alloc (dom (mem z1))) s el lev) with e.
  assert (Hl2 : u64 (zlen z2 + 1) = Z.of_nat (length (L ++ e :: R))) by (rewrite G2, Hlen, uwrap_small; rewrite !length_app in *; cbn [length] in *; [lia|unfold urange; lia]).
  split; cbn [header tail zlen zlevel mem with_len]; [by rewrite G1, G3|done|done| | |].
  - rewrite G3, Ev. destruct (zr_tight _ _ H) as [Hz|Hz].
    + destruct (decide (lev = 1%nat)); [left; lia|]. right. apply Exists_app. right. constructor. cbn. lia.
    + right. apply Exists_app. destruct (decide (zlevel z <= lev)%nat); [right; constructor; cbn; lia|].
      rewrite Nat.max_l by lia. apply Exists_app in Hz as [Hz|Hz]; [by left|right; by constructor].
  - apply ksorted_insert; [apply H|done|done|done].
  - rewrite fmap_app, fmap_cons. rewrite <- Permutation_middle. constructor; [by rewrite <- fmap_app|]. rewrite <- fmap_app. apply H.
Qed.

End Ops.

(** * Deletion *)

Lemma u64_add_wrap a b : u64 (a + u64 b) = u64 (a + b).
Proof. unfold uwrap. by rewrite Z.add_mod_idemp_r. Qed.

Section Delete.
Variables (hd : addr) (lev : nat) (m : gmap addr node) (L R : list entry) (e : entry) (us : list (addr * Z)).
Hypothesis HL : links hd lev m (L ++ e :: R).
Hypothesis Hp : forall l, (l < lev)%nat -> exists u r, us !! l = Some (u, Z.of_nat r) /\ is_pred hd (L ++ e :: R) l (length L) r u.

Definition G_del (y : addr) (l : nat) : option (option addr * Z) :=
  match us !! l with
  | Some (u, r) => if decide (y = u) then Some (let '(f, k) := nxt l R in (f, Z.of_nat (length L) - r + k)) else level_at m y l
  | None => None
  end.

Lemma middle_entry : (L ++ e :: R) !! length L = Some e.
Proof. by rewrite lookup_app_r, Nat.sub_diag by lia. Qed.

(** The node that is deleted is not one of the predecessors. *)
Lemma pred_ne l u r : is_pred hd (L ++ e :: R) l (length L) r u -> u <> ea e.
Proof.
  intros (Hr & (h & Hu & _) & _) ->. assert (Hpe : positions hd (L ++ e :: R) !! S (length L) = Some (ea e, eh e)) by (by rewrite positions_S, middle_entry).
  pose proof (positions_inj _ _ _ _ _ _ _ (lk_nodup _ _ _ _ HL) Hu Hpe). lia.
Qed.

Lemma deleted_level l : (l < eh e)%nat -> level_at m (ea e) l = Some (nxt l R).
Proof.
  intros Hl. pose proof (Forall_lookup_1 _ _ _ _ (lk_height _ _ _ _ HL) middle_entry) as He. cbn in He.
  rewrite (lk_level _ _ _ _ HL (S (length L)) (ea e) (eh e) l); [|by rewrite positions_S, middle_entry|done|lia].
  by rewrite drop_app_ge, Nat.sub_succ_l, Nat.sub_diag by lia.
Qed.

(** No other entry points to it. *)
Lemma next_ne l f k : nxt l R = (f, k) -> f <> Some (ea e).
Proof.
  intros En ->. pose proof (nxt_spec l R) as Hs. rewrite En in Hs. destruct Hs as (B & x & C & E & _ & _ & Ex & _).
  assert (Hi : (L ++ e :: R) !! (length L + S (length B))%nat = Some x).
  { rewrite lookup_app_r by lia. replace (length L + S (length B) - length L)%nat with (S (length B)) by lia. cbn. rewrite E. by apply list_lookup_middle. }
  pose proof (ea_inj _ _ _ _ _ _ (lk_nodup _ _ _ _ HL) middle_entry Hi Ex). lia.
Qed.

Lemma unlink_loop_ok : exists m1, foldM (unlink_step (us.*1) (ea e)) (seq 0 lev) m = Some m1 /\
  (forall y, info_at m1 y = info_at m y) /\ (forall y, back_at m1 y = back_at m y) /\
  (forall y l, level_at m1 y l = if decide (l < lev)%nat then G_del y l else level_at m y l).
Proof.
  pose proof (lk_small _ _ _ _ HL) as Hsm. rewrite length_app in Hsm. cbn [length] in Hsm.
  destruct (foldM_levels (unlink_step (us.*1) (ea e)) 0 lev m G_del) as (m1 & H1 & H2 & H3 & H4).
  - intros i m1 Hi Hinfo Hlev. destruct (Hp i ltac:(lia)) as (u & r & Hu & Hpr).
    destruct (pred_level hd lev m L (e :: R) HL i u r ltac:(lia) Hpr) as [Hlu Hr]. pose proof (nxt_bound i R) as Hnb.
    unfold unlink_step. rewrite list_lookup_fmap, Hu. cbn [fmap option_fmap option_map mbind option_bind fst]. rewrite !Hlev, Hlu.
    assert (Hset : forall v, exists m2, set_level m1 u i v = Some m2 /\ (forall y, info_at m2 y = info_at m1 y) /\ (forall y, back_at m2 y = back_at m1 y) /\
      (forall y j, level_at m2 y j = if decide (y = u /\ j = i) then Some v else level_at m1 y j)) by (intros v; apply set_level_ok; by rewrite Hlev, Hlu).
    assert (Hgo : forall v, v = (let '(f, k) := nxt i R in (f, Z.of_nat (length L) - Z.of_nat r + k)) -> exists m2, set_level m1 u i v = Some m2 /\
      (forall y, info_at m2 y = info_at m1 y) /\ (forall y, back_at m2 y = back_at m1 y) /\
      (forall y j, level_at m2 y j = if decide (j = i) then G_del y i else level_at m1 y j)).
    { intros v Ev. destruct (Hset v) as (m2 & Hm2 & A1 & A2 & A3). exists m2. split_and!; [done..|]. intros y j. rewrite A3. unfold G_del.
      destruct (decide (j = i)) as [->|]; [|by rewrite decide_False by tauto]. rewrite Hu. destruct (decide (y = u)) as [->|]; [rewrite decide_True by done; by rewrite Ev|].
      rewrite decide_False by tauto. apply Hlev. }
    cbn [nxt]. destruct (decide (i < eh e)%nat) as [Hlt|Hge].
    + cbn [mbind option_bind]. rewrite bool_decide_eq_true_2 by done. rewrite deleted_level by done. destruct (nxt i R) as [f k] eqn:En. cbn [mbind option_bind]. cbn in Hnb.
      apply Hgo. rewrite u64_add_wrap, uwrap_small by (unfold urange; lia). f_equal. lia.
    + destruct (nxt i R) as [f k] eqn:En. cbn [mbind option_bind]. cbn in Hnb. rewrite bool_decide_eq_false_2 by (by eapply next_ne).
      apply Hgo. rewrite uwrap_small by (unfold urange; lia). f_equal. lia.
  - exists m1. split_and!; [done..|]. intros y l. rewrite H4. destruct (decide (l < lev)%nat); [by rewrite decide_True by lia|by rewrite decide_False by lia].
Qed.

(** The store after the deletion. *)
Lemma delete_links m' : (forall y, info_at m' y = info_at m y) ->
  (forall y l, level_at m' y l = if decide (l < lev)%nat then G_del y l else level_at m y l) ->
  (forall y, back_at m' y = if decide (Some y = ea <$> head R) then Some (prev (L ++ e :: R) (length L)) else back_at m y) ->
  links hd lev m' (L ++ R).
Proof.
  intros Hinfo Hlev Hback. pose proof (lk_nodup _ _ _ _ HL) as Hnd.
  assert (Hnd' : NoDup (hd :: (ea <$> L ++ R))).
  { rewrite fmap_app, fmap_cons in Hnd. rewrite fmap_app. apply NoDup_cons in Hnd as [N1 N2]. rewrite <- Permutation_middle in N2. apply NoDup_cons in N2 as [_ N2].
    constructor; [|done]. intros Hin. apply N1. rewrite <- Permutation_middle. by right. }
  assert (Hpos : forall p a h, positions hd (L ++ R) !! p = Some (a, h) ->
    (p <= length L)%nat /\ positions hd (L ++ e :: R) !! p = Some (a, h) \/ (length L < p)%nat /\ positions hd (L ++ e :: R) !! S p = Some (a, h)).
  { intros p a h Hpa. destruct p as [|p]; [left; split; [lia|done]|]. rewrite !positions_S in *. destruct (decide (p < length L)%nat).
    - left. rewrite lookup_app_l in * by lia. split; [lia|done].
    - right. rewrite lookup_after by lia. split; [lia|done]. }
  assert (Hidx : forall i x, (L ++ R) !! i = Some x -> (i < length L)%nat /\ (L ++ e :: R) !! i = Some x \/ (length L <= i)%nat /\ (L ++ e :: R) !! S i = Some x).
  { intros i x Hx. destruct (decide (i < length L)%nat); [left; rewrite lookup_app_l in * by lia; done|right; rewrite lookup_after by lia; split; [lia|done]]. }
  split.
  - done.
  - pose proof (lk_height _ _ _ _ HL) as Hh. apply Forall_app in Hh as [Hh1 Hh2]. apply Forall_app. split; [done|]. by apply Forall_cons in Hh2 as [_ ?].
  - apply HL.
  - destruct (lk_header _ _ _ _ HL) as [sc Hh]. exists sc. by rewrite Hinfo.
  - intros i x Hx. rewrite Hinfo. destruct (Hidx i x Hx) as [[_ Hx']|[_ Hx']]; by eapply lk_node.
  - intros i x Hx. rewrite Hback, (lookup_head L R). destruct (Hidx i x Hx) as [[Hi Hx']|[Hi Hx']].
    + rewrite decide_False by (destruct ((L ++ R) !! length L) as [z|] eqn:Hz; [intros [= E]; pose proof (ea_inj _ _ _ _ _ _ Hnd' Hx Hz E); lia|done]).
      rewrite (lk_back _ _ _ _ HL i x Hx'). destruct i as [|i]; [done|]. cbn [prev]. by rewrite !lookup_app_l by lia.
    + destruct (decide (i = length L)) as [->|Hne].
      * rewrite Hx, decide_True by done. destruct (length L) as [|n] eqn:En; [done|]. cbn [prev]. by rewrite !lookup_app_l by lia.
      * rewrite decide_False by (destruct ((L ++ R) !! length L) as [z|] eqn:Hz; [intros [= E]; pose proof (ea_inj _ _ _ _ _ _ Hnd' Hx Hz E); lia|done]).
        rewrite (lk_back _ _ _ _ HL _ x Hx'). destruct i as [|i]; [lia|]. cbn [prev]. by rewrite lookup_after by lia.
  - intros p a h l Hpa Hh Hl. rewrite Hlev, decide_True by done. destruct (Hp l Hl) as (u & r & Hu & Hpr). unfold G_del. rewrite Hu.
    destruct (Hpos p a h Hpa) as [[Hpl Hp']|[Hpl Hp']].
    + pose proof (pred_cases _ _ _ _ _ _ _ _ _ Hnd Hpr Hp' Hh Hpl) as Hc. destruct (drop_middle L R e p Hpl) as [Ed ->]. rewrite nxt_app.
      destruct (decide (a = u)) as [->|Hau].
      * destruct Hc as [-> ->]. by destruct (nxt l R).
      * destruct Hc as (f & k & Hc). rewrite Hc. by rewrite (lk_level _ _ _ _ HL p a h l Hp' Hh Hl), Ed, nxt_app, Hc.
    + rewrite decide_False.
      * rewrite (lk_level _ _ _ _ HL (S p) a h l Hp' Hh Hl). by rewrite drop_after by lia.
      * intros ->. destruct Hpr as (Hr & (h' & Hu' & _) & _). pose proof (positions_inj _ _ _ _ _ _ _ Hnd Hp' Hu'). lia.
  - intros l Hl. rewrite Hlev, decide_False by lia. by apply (lk_top _ _ _ _ HL).
  - pose proof (lk_small _ _ _ _ HL) as Hsm. rewrite length_app in *. cbn [length] in Hsm. lia.
Qed.

End Delete.

(** ** The level *)

Lemma links_lower hd lev m A lev' : links hd lev m A -> (1 <= lev' <= lev)%nat -> Forall (fun e => eh e <= lev')%nat A -> links hd lev' m A.
Proof.
  intros [N1 N2 N3 N4 N5 N6 N7 N8 N9] Hl HA. split; [done| |lia|done|done|done| | |done].
  - apply Forall_forall. intros e He. pose proof (proj1 (Forall_forall _ _) N2 e He). pose proof (proj1 (Forall_forall _ _) HA e He). cbn in *. lia.
  - intros p a h l Hp Hh Hll. apply (N7 p a h); [done|done|lia].
  - intros l Hll. destruct (decide (lev <= l)%nat); [apply N8; lia|]. rewrite (N7 0%nat hd ZSKIPLIST_MAXLEVEL l); [|done|lia|lia].
    rewrite drop_0, nxt_none; [by eexists|]. eapply Forall_impl; [exact HA|]. cbn. lia.
Qed.

Lemma lower_level_ok hd lev m A : links hd lev m A -> exists lev', lower_level m hd lev = Some lev' /\ links hd lev' m A /\
  (lev' = 1%nat \/ Exists (fun e => eh e = lev') A).
Proof.
  induction lev as [|lev IH]; intros HL; [pose proof (lk_lev _ _ _ _ HL); lia|]. destruct lev as [|l]; [exists 1%nat; cbn; split_and!; [done|done|by left]|].
  pose proof (lk_lev _ _ _ _ HL) as Hlv. cbn [lower_level]. rewrite (lk_level _ _ _ _ HL 0%nat hd ZSKIPLIST_MAXLEVEL (S l)); [|done|lia|lia].
  rewrite drop_0. pose proof (nxt_spec (S l) A) as Hs. destruct (nxt (S l) A) as [[f|] k]; cbn [mbind option_bind].
  - rewrite bool_decide_eq_false_2 by done. exists (S (S l)). split_and!; [done|done|]. right. destruct Hs as (B & e & C & -> & _ & He & _).
    apply Exists_app. right. constructor. pose proof (lk_height _ _ _ _ HL) as Hh. apply Forall_app in Hh as [_ Hh]. apply Forall_cons in Hh as [Hh _]. lia.
  - rewrite bool_decide_eq_true_2 by done. destruct Hs as [Hs _]. apply IH, (links_lower _ _ _ _ _ HL); [lia|done].
Qed.

(** Predecessors only look at the entries up to them. *)
Lemma is_pred_prefix hd L R R' l r u : is_pred hd (L ++ R) l (length L) r u -> is_pred hd (L ++ R') l (length L) r u.
Proof.
  intros (Hr & (h & Hu & Hh) & Hf). split_and!; [done| |].
  - exists h. split; [|done]. destruct r as [|r]; [done|]. rewrite positions_S in *. rewrite lookup_app_l in * by lia. done.
  - rewrite drop_app_le, take_app_le in * by (rewrite ?length_drop; lia). done.
Qed.

(** A freed node that is not in the list. *)
Lemma links_free hd lev m A x : links hd lev m A -> x <> hd -> x ∉ (ea <$> A) -> links hd lev (delete x m) A.
Proof.
  intros [N1 N2 N3 N4 N5 N6 N7 N8 N9] Hx HA.
  assert (Hd : forall y, y <> x -> info_at (delete x m) y = info_at m y /\ back_at (delete x m) y = back_at m y /\ forall l, level_at (delete x m) y l = level_at m y l)
    by (intros y Hy; unfold info_at, back_at, level_at; by rewrite lookup_delete_ne).
  assert (He : forall i e, A !! i = Some e -> ea e <> x) by (intros i e Hi <-; apply HA, list_elem_of_fmap; exists e; split; [done|by eapply list_elem_of_lookup_2]).
  assert (Hpa : forall p a h, positions hd A !! p = Some (a, h) -> a <> x).
  { intros [|p] a h Hp; [by injection Hp as <- _|]. rewrite positions_S in Hp. destruct (A !! p) eqn:E; [|done]. injection Hp as <- _. by eapply He. }
  split; [done|done|done| | | | | |done].
  - by rewrite (proj1 (Hd hd ltac:(done))).
  - intros i e Hi. rewrite (proj1 (Hd _ (He i e Hi))). by apply (N5 i).
  - intros i e Hi. rewrite (proj1 (proj2 (Hd _ (He i e Hi)))). by apply N6.
  - intros p a h l Hp Hh Hl. rewrite (proj2 (proj2 (Hd _ (Hpa p a h Hp)))). by apply (N7 p a h).
  - intros l Hl. rewrite (proj2 (proj2 (Hd hd ltac:(done)))). by apply N8.
Qed.

(** ** zslDeleteNode *)

(** The invariant without the order: what the deletion functions keep. *)
Record shape (z : zskiplist) (A : list entry) : Prop := {
  sh_links : links (header z) (zlevel z) (mem z) A;
  sh_len : zlen z = Z.of_nat (length A);
  sh_tail : tail z = ea <$> last A;
  sh_tight : zlevel z = 1%nat \/ Exists (fun e => eh e = zlevel z) A
}.

Lemma zrep_shape z A : zrep z A <-> shape z A /\ ksorted (vals A) /\ NoDup (ee <$> A).
Proof. split; [intros []; split_and!; [split|..]; done|intros ([] & ? & ?); by split]. Qed.

Definition preds_at (hd : addr) (A : list entry) (m n : nat) (us : list (addr * Z)) : Prop :=
  forall l, (l < n)%nat -> exists u r, us !! l = Some (u, Z.of_nat r) /\ is_pred hd A l m r u.

Lemma zslDeleteNode_ok z L e R us : shape z (L ++ e :: R) -> preds_at (header z) (L ++ e :: R) (length L) (zlevel z) us ->
  exists z', zslDeleteNode z (ea e) (us.*1) = Some z' /\ header z' = header z /\ (zlevel z' <= zlevel z)%nat /\ shape z' (L ++ R) /\
    (forall y, info_at (mem z') y = info_at (mem z) y).
Proof.
  intros [HL Hlen Htail Htight] Hp. unfold zslDeleteNode.
  destruct (unlink_loop_ok _ _ _ _ _ _ us HL Hp) as (m1 & -> & I1 & B1 & L1). cbn [mbind option_bind].
  pose proof (lk_node _ _ _ _ HL _ _ (middle_entry L R e)) as Hinf. pose proof (lk_back _ _ _ _ HL _ _ (middle_entry L R e)) as Hbk.
  pose proof (Forall_lookup_1 _ _ _ _ (lk_height _ _ _ _ HL) (middle_entry L R e)) as Heh. cbn in Heh. pose proof (lk_lev _ _ _ _ HL) as Hlv.
  destruct (info_node m1 (ea e) _ ltac:(rewrite I1; exact Hinf)) as (n & Hn & _). rewrite Hn. cbn [mbind option_bind].
  assert (Eb : backward n = prev (L ++ e :: R) (length L)) by (rewrite <- B1 in Hbk; unfold back_at in Hbk; rewrite Hn in Hbk; by injection Hbk).
  assert (Hl0 : level_at m1 (ea e) 0 = Some (nxt 0 R)).
  { rewrite L1, decide_True by lia. unfold G_del. destruct (Hp 0%nat ltac:(lia)) as (u & r & -> & Hpr).
    rewrite decide_False by (intros E; symmetry in E; revert E; by eapply pred_ne). apply (deleted_level _ _ _ _ _ _ HL). lia. }
  rewrite Hl0. assert (Hnx : (nxt 0 R).1 = ea <$> head R).
  { pose proof (lk_height _ _ _ _ HL) as Hh. apply Forall_app in Hh as [_ Hh]. apply Forall_cons in Hh as [_ Hh]. destruct Hh as [|x R' Hx' _]; [done|]. cbn. by rewrite decide_True by lia. }
  destruct (nxt 0 R) as [f k]. cbn in Hnx. cbn [mbind option_bind].
  assert (Hz : exists z2, match f with Some f => m ← set_backward m1 f (backward n); Some (with_mem z m) | None => Some (with_tail (with_mem z m1) (backward n)) end = Some z2 /\
    header z2 = header z /\ zlen z2 = zlen z /\ zlevel z2 = zlevel z /\ tail z2 = ea <$> last (L ++ R) /\ links (header z) (zlevel z) (mem z2) (L ++ R) /\
    (forall y, info_at (mem z2) y = info_at (mem z) y)).
  { destruct f as [f|].
    - destruct R as [|x R']; [done|]. injection Hnx as ->.
      assert (Hxi : (L ++ e :: x :: R') !! S (length L) = Some x) by (rewrite lookup_after, lookup_app_r, Nat.sub_diag by lia; done).
      destruct (set_backward_ok m1 (ea x) (backward n)) as (m2 & -> & I2 & B2 & L2); [by rewrite I1, (lk_node _ _ _ _ HL _ _ Hxi)|]. cbn [mbind option_bind].
      eexists. split; [done|]. cbn [header zlen zlevel tail mem with_mem]. split_and!; [done|done|done|rewrite Htail, last_middle; done| |intros y; by rewrite I2].
      apply (delete_links _ _ _ _ _ _ us HL Hp m2); [by intros y; rewrite I2|by intros y l; rewrite L2|]. intros y. rewrite B2, B1, Eb. cbn [head fmap option_fmap option_map].
      destruct (decide (y = ea x)) as [->|]; [by rewrite decide_True|by rewrite decide_False by congruence].
    - destruct R as [|x R']; [|done]. eexists. split; [done|]. cbn [header zlen zlevel tail mem with_mem with_tail]. split_and!; [done|done|done| | |done].
      + rewrite Eb, app_nil_r. destruct L as [|x L _] using rev_ind; [done|]. rewrite last_snoc, length_app, Nat.add_1_r. cbn [prev].
        rewrite <- app_assoc. cbn [app]. by rewrite list_lookup_middle.
      + apply (delete_links _ _ _ _ _ _ us HL Hp m1); [done|done|]. intros y. rewrite B1. by rewrite decide_False. }
  destruct Hz as (z2 & -> & G1 & G2 & G3 & G4 & G5 & G6). cbn [mbind option_bind]. rewrite G1, G3.
  destruct (lower_level_ok _ _ _ _ G5) as (lev' & -> & HL' & Ht). cbn [mbind option_bind]. eexists. split; [done|].
  cbn [header zlevel mem with_len with_level zlen tail].
  assert (Hle : (lev' <= zlevel z)%nat).
  { destruct Ht as [->|Ht]; [lia|]. apply Exists_exists in Ht as (x & Hx & <-). pose proof (proj1 (Forall_forall _ _) (lk_height _ _ _ _ G5) x Hx). cbn in *. lia. }
  split_and!; [done|done| |done]. split; cbn [header zlevel mem with_len with_level zlen tail]; [by rewrite G1| |done|done].
  rewrite G2, Hlen. pose proof (lk_small _ _ _ _ HL) as Hsm. rewrite !length_app in *. cbn [length] in *. rewrite uwrap_small by (unfold urange; lia). lia.
Qed.

End ZslSpec.
