(* ===== verification/SkiplistOps.v ===== *)
(** Sorted sets on skip lists: deletion, score updates, deletion of ranges, ranks
    and elements by rank refine the operations on sorted lists. *)

From S2P Require Import Prelude Sds SdsSpec Skiplist SkiplistSpec.

Module ZslOps.
Import SdsSpec Zsl ZslSpec.

(** * Operations on sorted lists *)

Fixpoint insert (k : val) (l : list val) : list val :=
  match l with [] => [k] | x :: l' => if klt x k then x :: insert k l' else k :: l end.

Definition same (k a : val) : bool := match kcmp a k with Eq => true | _ => false end.
Definition remove (k : val) (l : list val) : list val := filter (fun a => same k a = false) l.

Lemma insert_split k l1 l2 : Forall (fun a => klt a k = true) l1 -> Forall (fun a => klt a k = false) l2 -> insert k (l1 ++ l2) = l1 ++ k :: l2.
Proof. intros H1 H2. induction H1 as [|a l1 Ha _ IH]; cbn; [destruct H2 as [|b l2 Hb _]; cbn; [done|by rewrite Hb]|]. by rewrite Ha, IH. Qed.

(** In a sorted list an element that is the same as [k] is the only one. *)
Lemma sorted_neighbours L e R : ksorted (vals (L ++ e :: R)) ->
  Forall (fun a => kcmp (ev a) (ev e) = Lt) L /\ Forall (fun a => kcmp (ev e) (ev a) = Lt) R /\ ksorted (vals (L ++ R)).
Proof.
  unfold vals. rewrite !fmap_app, fmap_cons. intros H. apply ksorted_app in H as (S1 & S2 & S3). apply StronglySorted_inv in S2 as [S2 F2].
  split_and!.
  - apply Forall_forall. intros a Ha. apply S3; [apply list_elem_of_fmap; by exists a|by left].
  - by apply Forall_fmap in F2.
  - apply ksorted_app. split_and!; [done|done|]. intros a b Ha Hb. apply S3; [done|by right].
Qed.

Lemma remove_none k l : Forall (fun a => same k a = false) l -> remove k l = l.
Proof. unfold remove. induction 1 as [|a l Ha _ IH]; [done|]. rewrite filter_cons_True by done. by rewrite IH. Qed.

Lemma remove_split k L e R : ksorted (vals (L ++ e :: R)) -> kcmp (ev e) k = Eq -> remove k (vals (L ++ e :: R)) = vals (L ++ R).
Proof.
  intros Hs He. destruct (sorted_neighbours L e R Hs) as (H1 & H2 & _). unfold vals. rewrite !fmap_app, fmap_cons.
  assert (Hl : Forall (fun a => same k a = false) (ev <$> L)).
  { apply Forall_fmap. eapply Forall_impl; [exact H1|]. cbn. intros a Ha. unfold same. by rewrite (kcmp_trans_le _ (ev e)) by (done || by rewrite He). }
  assert (Hr : Forall (fun a => same k a = false) (ev <$> R)).
  { apply Forall_fmap. eapply Forall_impl; [exact H2|]. cbn. intros a Ha. unfold same. rewrite kcmp_antisym.
    rewrite (kcmp_le_trans k (ev e)); [done|rewrite kcmp_antisym, He; done|done]. }
  unfold remove. rewrite filter_app, filter_cons_False by (unfold same; rewrite He; done). fold (remove k (ev <$> L)) (remove k (ev <$> R)).
  by rewrite !remove_none.
Qed.

(** The next node of the search. *)
Lemma next_of z L R x h : links (header z) (zlevel z) (mem z) (L ++ R) -> positions (header z) (L ++ R) !! length L = Some (x, h) -> (1 <= h)%nat ->
  exists k, level_at (mem z) x 0 = Some (ea <$> head R, k).
Proof.
  intros HL Hp Hh. pose proof (lk_lev _ _ _ _ HL). rewrite (lk_level _ _ _ _ HL _ _ _ 0%nat Hp) by lia. rewrite drop_app_length.
  pose proof (lk_height _ _ _ _ HL) as Hf. apply Forall_app in Hf as [_ Hf]. destruct Hf as [|e R' He _]; [by eexists|]. cbn. rewrite decide_True by lia. by eexists.
Qed.

Lemma free_shape z A x : shape z A -> x <> header z -> x ∉ (ea <$> A) -> shape (with_mem z (zslFreeNode (mem z) x)) A.
Proof. intros [H1 H2 H3 H4] Hx HA. split; cbn; [by apply links_free|done..]. Qed.

Lemma middle_not_in hd lev m L e R : links hd lev m (L ++ e :: R) -> ea e <> hd /\ ea e ∉ (ea <$> L ++ R).
Proof.
  intros HL. pose proof (lk_nodup _ _ _ _ HL) as Hn. rewrite fmap_app, fmap_cons in Hn. rewrite fmap_app. apply NoDup_cons in Hn as [N1 N2].
  rewrite <- Permutation_middle in N1, N2. apply NoDup_cons in N2 as [N2 _]. split; [|done]. intros <-. apply N1. by left.
Qed.

Lemma unique_middle (L R : list entry) e : NoDup (ee <$> L ++ e :: R) -> NoDup (ee <$> L ++ R) /\ ee e ∉ (ee <$> L ++ R).
Proof.
  rewrite !fmap_app, fmap_cons. intros Hn. rewrite <- Permutation_middle in Hn. by apply NoDup_cons in Hn as [? ?].
Qed.

(** * Deletion *)

(** Whether the key is in the list decides what is found after the search. *)
Lemma found_cases k L R : ksorted (vals (L ++ R)) -> Forall (fun a => klt (ev a) k = true) L -> Forall (fun a => klt (ev a) k = false) R ->
  match R with
  | e :: R' => if same k (ev e) then remove k (vals (L ++ R)) = vals (L ++ R') else remove k (vals (L ++ R)) = vals (L ++ R)
  | [] => remove k (vals (L ++ R)) = vals (L ++ R)
  end.
Proof.
  intros Hs HL HR. assert (HL' : Forall (fun a => same k a = false) (ev <$> L)).
  { apply Forall_fmap. eapply Forall_impl; [exact HL|]. cbn. intros a. unfold klt, same. by destruct (kcmp (ev a) k). }
  destruct R as [|e R]; [rewrite app_nil_r; by apply remove_none|]. destruct (same k (ev e)) eqn:E; unfold same in E; destruct (kcmp (ev e) k) eqn:Ek; try done.
  - by apply remove_split.
  - apply Forall_cons in HR as [HR _]. unfold klt in HR. by rewrite Ek in HR.
  - apply remove_none. unfold vals. rewrite fmap_app, fmap_cons. apply Forall_app. split; [done|]. destruct (sorted_neighbours L e R Hs) as (_ & H2 & _).
    constructor; [unfold same; by rewrite Ek|]. apply Forall_fmap. eapply Forall_impl; [exact H2|]. cbn. intros a Ha. unfold same.
    assert (Hka : kcmp k (ev a) = Lt) by (eapply kcmp_trans; [rewrite kcmp_antisym, Ek; done|done]). rewrite kcmp_antisym. by rewrite Hka.
Qed.

Lemma same_code s el s' el' : (deq s s' && ele_eq el' el) = same (s, el) (s', el').
Proof.
  unfold deq, ele_eq, same, kcmp. cbn [fst snd]. destruct (Z.eqb_spec (dkey s) (dkey s')) as [->|Hne]; [by rewrite Z.compare_refl|].
  destruct (dkey s' ?= dkey s) eqn:E; [apply Z.compare_eq in E; congruence|done|done].
Qed.

Lemma node_of z A i e : links (header z) (zlevel z) (mem z) A -> A !! i = Some e -> exists n, mem z !! ea e = Some n /\ ele n = Some (ee e) /\ score n = es e /\ backward n = prev A i.
Proof.
  intros HL Hi. destruct (info_node _ _ _ (lk_node _ _ _ _ HL i e Hi)) as (n & Hn & E). injection E as E1 E2 _. exists n.
  pose proof (lk_back _ _ _ _ HL i e Hi) as Hb. unfold back_at in Hb. rewrite Hn in Hb. injection Hb as Hb. done.
Qed.

Lemma zslDelete_ok z A s el keep : zrep z A -> exists z' r A', zslDelete z s el keep = Some (z', r) /\ zrep z' A' /\
  vals A' = remove (s, el) (vals A) /\ (r <> None <-> exists a, a ∈ vals A /\ same (s, el) a = true).
Proof.
  intros H. unfold zslDelete.
  destruct (search_vals z A (before s el) (fun a => klt a (s, el)) H) as (L & R & x0 & us & h & -> & HL & HR & -> & [_ Hp] & H0 & Hpos & Hh);
    [apply before_closed|apply before_tests|]. cbn [mbind option_bind].
  destruct (next_of z L R x0 h (zr_links _ _ H) Hpos Hh) as [k ->]. cbn [mbind option_bind].
  pose proof (found_cases (s, el) L R (zr_sorted _ _ H) HL HR) as Hf.
  assert (Hnone : forall l, remove (s, el) l = l -> ~ exists a, a ∈ l /\ same (s, el) a = true).
  { intros l Hl (a & Ha & Es). rewrite <- Hl in Ha. apply list_elem_of_filter in Ha as [Ha _]. congruence. }
  destruct R as [|e R]; [exists z, None, (L ++ []); split_and!; [done|done|done|]; split; [done|]; intros Hx; by apply Hnone in Hx|].
  cbn [head fmap option_fmap option_map]. destruct (node_of z _ _ e (zr_links _ _ H) (middle_entry L R e)) as (n & -> & He & Hs & _). cbn [mbind option_bind].
  rewrite He. cbn [mbind option_bind]. rewrite Hs, same_code. fold (ev e). destruct (same (s, el) (ev e)) eqn:Es.
  - apply zrep_shape in H as (Hsh & Hso & Hu). destruct (zslDeleteNode_ok z L e R us Hsh Hp) as (z' & -> & Eh & _ & Hsh' & _). cbn [mbind option_bind].
    destruct (middle_not_in _ _ _ _ _ _ (sh_links _ _ Hsh)) as [M1 M2]. destruct (sorted_neighbours _ _ _ Hso) as (_ & _ & Hso').
    eexists _, _, (L ++ R). split; [done|]. split_and!; [|by rewrite Hf|].
    + apply zrep_shape. split_and!; [|done|apply (unique_middle _ _ _ Hu)]. destruct keep; [done|]. by apply free_shape; [|rewrite Eh|].
    + split; [|done]. intros _. exists (ev e). split; [|done]. apply list_elem_of_fmap. exists e. split; [done|]. apply elem_of_app. right. by left.
  - exists z, None, (L ++ e :: R). split_and!; [done|done|done|]. split; [done|]. intros Hx. by apply Hnone in Hx.
Qed.

(** * Score updates *)

Lemma nxt_ext l A B : (fun e => (ea e, eh e)) <$> A = (fun e => (ea e, eh e)) <$> B -> nxt l A = nxt l B.
Proof.
  revert B. induction A as [|a A IH]; intros [|b B] E; try done. rewrite !fmap_cons in E. injection E as E1 E2 E3. cbn [nxt]. by rewrite E1, E2, (IH B E3).
Qed.

Lemma set_score_ok m x sc : is_Some (info_at m x) -> exists m', set_score m x sc = Some m' /\
  (forall y, info_at m' y = if decide (y = x) then (fun i => (i.1.1, sc, i.2)) <$> info_at m y else info_at m y) /\
  (forall y, back_at m' y = back_at m y) /\ (forall y j, level_at m' y j = level_at m y j).
Proof.
  unfold level_at, set_score, info_at, back_at. intros [w Hw]. destruct (m !! x) as [n|] eqn:Hx; [|done]. cbn [mbind option_bind].
  eexists. split; [done|].
  split_and!; intros y; [..|intros j]; (destruct (decide (y = x)) as [->|Hne]; [rewrite lookup_insert_eq, ?Hx|rewrite lookup_insert_ne by done]); done.
Qed.

Lemma links_score hd lev m L e R sc : links hd lev m (L ++ e :: R) -> exists m', set_score m (ea e) sc = Some m' /\
  links hd lev m' (L ++ mkEntry (ea e) sc (ee e) (eh e) :: R).
Proof.
  intros HL. pose proof (lk_node _ _ _ _ HL _ _ (middle_entry L R e)) as Hinf.
  destruct (set_score_ok m (ea e) sc) as (m' & Hm & I1 & B1 & L1); [by rewrite Hinf|]. exists m'. split; [done|].
  set (e' := mkEntry (ea e) sc (ee e) (eh e)). destruct HL as [N1 N2 N3 N4 N5 N6 N7 N8 N9].
  assert (Ha : (ea <$> L ++ e' :: R) = (ea <$> L ++ e :: R)) by (by rewrite !fmap_app, !fmap_cons).
  assert (Hpos : (fun e => (ea e, eh e)) <$> (L ++ e' :: R) = (fun e => (ea e, eh e)) <$> (L ++ e :: R)) by (by rewrite !fmap_app, !fmap_cons).
  assert (Hprev : forall i, prev (L ++ e' :: R) i = prev (L ++ e :: R) i) by (intros [|i]; [done|]; cbn [prev]; by rewrite <- !list_lookup_fmap, Ha).
  assert (Hi : forall i x, (L ++ e' :: R) !! i = Some x -> exists x', (L ++ e :: R) !! i = Some x' /\ ea x = ea x' /\ ee x = ee x' /\ eh x = eh x' /\
    (i <> length L -> x = x') /\ (i = length L -> x = e' /\ x' = e)).
  { intros i x Hx. apply lookup_middle in Hx as [(Hlt & Hx)|[(-> & ->)|(j & -> & Hj & Hx)]].
    - exists x. rewrite lookup_app_l in * by lia. split_and!; [done..|lia].
    - exists e. rewrite middle_entry. split_and!; done.
    - exists x. rewrite lookup_after by lia. split_and!; [done..|lia]. }
  split.
  - by rewrite Ha.
  - apply Forall_app in N2 as [F1 F2]. apply Forall_app. split; [done|]. apply Forall_cons in F2 as [F2 F3]. by constructor.
  - done.
  - destruct N4 as [s0 N4]. exists s0. rewrite I1. rewrite decide_False; [done|]. intros ->. rewrite N4 in Hinf. done.
  - intros i x Hx. destruct (Hi i x Hx) as (x' & Hx' & Ea & Ee & Eh & D1 & D2). rewrite I1, Ea, (N5 i x' Hx'). destruct (decide (i = length L)) as [->|Hne].
    + destruct (D2 eq_refl) as [-> ->]. by rewrite decide_True.
    + rewrite decide_False; [by rewrite (D1 Hne)|]. intros E. pose proof (ea_inj _ _ _ _ _ _ N1 Hx' (middle_entry L R e) E). lia.
  - intros i x Hx. destruct (Hi i x Hx) as (x' & Hx' & Ea & _). rewrite B1, Ea, Hprev. by apply N6.
  - intros p a h l Hp Hh Hl. rewrite L1. rewrite (nxt_ext l _ (drop p (L ++ e :: R))) by (by rewrite !fmap_drop, Hpos). apply (N7 p a h); [|done|done].
    unfold positions in *. by rewrite <- Hpos.
  - intros l Hl. rewrite L1. by apply N8.
  - rewrite length_app in *. done.
Qed.

(** The place of a key, from the scores of the neighbours. *)
Lemma between_neighbours L e R sc : ksorted (vals (L ++ e :: R)) ->
  (forall x, last L = Some x -> dlt (es x) sc = true) -> (forall x, head R = Some x -> dlt sc (es x) = true) ->
  Forall (fun a => klt (ev a) (sc, ee e) = true) L /\ Forall (fun a => klt (ev a) (sc, ee e) = false) R.
Proof.
  intros Hs Hl Hr. destruct (sorted_neighbours L e R Hs) as (_ & _ & Hs'). unfold vals in Hs'. rewrite fmap_app in Hs'. apply ksorted_app in Hs' as (S1 & S2 & _).
  assert (Hkey : forall a b, kcmp a b = Lt -> dkey a.1 <= dkey b.1).
  { intros a b. unfold kcmp. destruct (dkey a.1 ?= dkey b.1) eqn:E; [apply Z.compare_eq in E; lia|rewrite Z.compare_lt_iff in E; lia|done]. }
  split; apply Forall_forall; intros a Ha.
  - destruct L as [|x L _] using rev_ind; [by apply not_elem_of_nil in Ha|]. specialize (Hl x (last_snoc _ _)). apply Z.ltb_lt in Hl.
    assert (Hle : dkey (es a) <= dkey (es x)).
    { apply elem_of_app in Ha as [Ha|Ha]; [|apply list_elem_of_singleton in Ha as ->; lia]. rewrite fmap_app in S1. apply ksorted_app in S1 as (_ & _ & S1).
      apply (Hkey (ev a) (ev x)), S1; [apply list_elem_of_fmap; by exists a|by left]. }
    unfold klt, kcmp, ev. cbn [fst snd]. by rewrite (proj2 (Z.compare_lt_iff (dkey (es a)) (dkey sc))) by lia.
  - destruct R as [|x R]; [by apply not_elem_of_nil in Ha|]. specialize (Hr x eq_refl). apply Z.ltb_lt in Hr.
    assert (Hle : dkey (es x) <= dkey (es a)).
    { apply elem_of_cons in Ha as [->|Ha]; [lia|]. rewrite fmap_cons in S2. apply StronglySorted_inv in S2 as [_ S2].
      apply (Hkey (ev x) (ev a)), (proj1 (Forall_forall _ _) S2), list_elem_of_fmap. by exists a. }
    unfold klt, kcmp, ev. cbn [fst snd]. by rewrite (proj2 (Z.compare_gt_iff (dkey (es a)) (dkey sc))) by lia.
Qed.

Lemma prev_last (L R : list entry) : prev (L ++ R) (length L) = ea <$> last L.
Proof.
  destruct L as [|x L _] using rev_ind; [done|]. rewrite last_snoc, length_app, Nat.add_1_r. cbn [prev]. rewrite <- app_assoc. cbn [app]. by rewrite list_lookup_middle.
Qed.

Lemma score_of_entry z A i e : links (header z) (zlevel z) (mem z) A -> A !! i = Some e -> score_of (mem z) (ea e) = Some (es e).
Proof. intros HL Hi. destruct (node_of z A i e HL Hi) as (n & Hn & _ & Hs & _). unfold score_of. rewrite Hn. cbn. by rewrite Hs. Qed.

(** The tests of [zslUpdateScore] on the neighbours. *)
Lemma left_test z L R sc : links (header z) (zlevel z) (mem z) (L ++ R) ->
  match ea <$> last L with None => Some true | Some b => sb ← score_of (mem z) b; Some (dlt sb sc) end =
  Some (match last L with Some x => dlt (es x) sc | None => true end).
Proof.
  intros HL. destruct (last L) as [x|] eqn:E; [|done]. cbn [fmap option_fmap option_map].
  assert (Hi : (L ++ R) !! pred (length L) = Some x) by (rewrite last_lookup in E; by rewrite lookup_app_l by (by apply lookup_lt_Some in E)).
  by rewrite (score_of_entry _ _ _ _ HL Hi).
Qed.

Lemma right_test z L R sc : links (header z) (zlevel z) (mem z) (L ++ R) ->
  match ea <$> head R with None => Some true | Some f => sf ← score_of (mem z) f; Some (dlt sc sf) end =
  Some (match head R with Some x => dlt sc (es x) | None => true end).
Proof.
  intros HL. destruct R as [|x R]; [done|]. cbn [head fmap option_fmap option_map]. by rewrite (score_of_entry _ _ _ _ HL (middle_entry L R x)).
Qed.

Section Ops.
Variable alloc : gset addr -> addr.
Hypothesis alloc_fresh : forall X, alloc X ∉ X.

Lemma zslUpdateScore_ok z A cur el new rs lev : zrep z A -> (exists a, a ∈ vals A /\ same (cur, el) a = true) -> isnan new = false ->
  zslRandomLevel rs = Some lev -> exists z' y A', zslUpdateScore alloc z cur el new rs = Some (z', y) /\ zrep z' A' /\
    vals A' = insert (new, el) (remove (cur, el) (vals A)).
Proof.
  intros H Hin Hnan Hrs. unfold zslUpdateScore.
  destruct (search_vals z A (before cur el) (fun a => klt a (cur, el)) H) as (L & R & x0 & us & h & -> & HL & HR & -> & [_ Hp] & H0 & Hpos & Hh);
    [apply before_closed|apply before_tests|]. cbn [mbind option_bind].
  destruct (next_of z L R x0 h (zr_links _ _ H) Hpos Hh) as [k ->]. cbn [mbind option_bind].
  pose proof (found_cases (cur, el) L R (zr_sorted _ _ H) HL HR) as Hf.
  assert (Hnone : remove (cur, el) (vals (L ++ R)) <> vals (L ++ R)).
  { intros Hl. destruct Hin as (a & Ha & Es). rewrite <- Hl in Ha. apply list_elem_of_filter in Ha as [Ha _]. congruence. }
  destruct R as [|e R]; [done|]. destruct (same (cur, el) (ev e)) eqn:Es; [|done]. rewrite Hf. clear Hnone Hin.
  cbn [head fmap option_fmap option_map mbind option_bind].
  destruct (node_of z _ _ e (zr_links _ _ H) (middle_entry L R e)) as (n & -> & He & Hs & Hb). cbn [mbind option_bind].
  rewrite He. cbn [mbind option_bind]. rewrite Hs, same_code. fold (ev e). rewrite Es. cbn [guard mbind option_bind]. rewrite Hb, prev_last.
  rewrite (left_test z L (e :: R)) by apply H. cbn [mbind option_bind].
  assert (Hpe : positions (header z) ((L ++ [e]) ++ R) !! length (L ++ [e]) = Some (ea e, eh e)).
  { rewrite length_app, Nat.add_1_r, positions_S, <- app_assoc. cbn [app]. by rewrite middle_entry. }
  assert (Hsp : (L ++ [e]) ++ R = L ++ e :: R) by (by rewrite <- app_assoc).
  assert (Hle : links (header z) (zlevel z) (mem z) ((L ++ [e]) ++ R)) by (rewrite Hsp; apply H).
  destruct (next_of z (L ++ [e]) R (ea e) (eh e) Hle Hpe) as [k' ->].
  { apply (Forall_lookup_1 _ _ _ _ (lk_height _ _ _ _ (zr_links _ _ H)) (middle_entry L R e)). }
  cbn [mbind option_bind]. rewrite (right_test z (L ++ [e]) R) by done. cbn [mbind option_bind].
  assert (Eel : ee e = el) by (unfold same in Es; destruct (kcmp (ev e) (cur, el)) eqn:Ek; try done; by apply kcmp_eq in Ek as [_ ?]).
  apply zrep_shape in H as (Hsh & Hso & Hu). destruct (sorted_neighbours _ _ _ Hso) as (_ & _ & Hso'). destruct (unique_middle _ _ _ Hu) as [Hu' Hel].
  destruct (match last L with Some x => dlt (es x) new | None => true end && match head R with Some x => dlt new (es x) | None => true end) eqn:Ein.
  - apply andb_prop in Ein as [E1 E2]. destruct (links_score _ _ _ _ _ _ new (sh_links _ _ Hsh)) as (m' & -> & HL'). cbn [mbind option_bind].
    destruct (between_neighbours L e R new Hso) as [B1 B2]; [intros x Hx; by rewrite Hx in E1|intros x Hx; by rewrite Hx in E2|].
    set (e' := mkEntry (ea e) new (ee e) (eh e)) in *. eexists _, _, (L ++ e' :: R). split; [done|]. split.
    + apply zrep_shape. split_and!.
      * destruct Hsh as [S1 S2 S3 S4]. split; cbn [header zlevel mem zlen tail with_mem]; [done|by rewrite S2, !length_app| |].
        -- rewrite S3, !last_middle. destruct R; [done|]. by rewrite !last_app.
        -- destruct S4 as [S4|S4]; [by left|right]. apply Exists_app in S4 as [S4|S4]; apply Exists_app; [by left|right].
           apply Exists_cons in S4 as [S4|S4]; [by constructor|by apply Exists_cons_tl].
      * apply ksorted_insert; done.
      * rewrite fmap_app, fmap_cons in *. done.
    + assert (Ev : ev e' = (new, el)) by (unfold ev; cbn; by rewrite Eel). unfold vals. rewrite !fmap_app, fmap_cons, Ev. rewrite Eel in B1, B2.
      by rewrite insert_split by (by apply Forall_fmap).
  - destruct (zslDeleteNode_ok z L e R us Hsh Hp) as (z1 & -> & Eh & _ & Hsh1 & Hinf). cbn [mbind option_bind].
    assert (Hz1 : zrep z1 (L ++ R)) by (by apply zrep_shape). pose proof (lk_small _ _ _ _ (sh_links _ _ Hsh)) as Hsm.
    destruct (zslInsert_ok alloc alloc_fresh z1 (L ++ R) new (ee e) rs lev Hz1 Hnan Hrs Hel) as (z2 & L' & R' & y & -> & E & Hz2 & F1 & F2 & Eh2 & Hfr).
    { rewrite !length_app in *. cbn [length] in Hsm. lia. }
    cbn [mbind option_bind]. eexists _, _, _. split; [done|]. destruct (middle_not_in _ _ _ _ _ _ (sh_links _ _ Hsh)) as [M1 M2]. split.
    + apply zrep_shape in Hz2 as (Hsh2 & Hso2 & Hu2). apply zrep_shape. split_and!; [|done|done]. apply free_shape; [done|by rewrite Eh2, Eh|].
      rewrite fmap_app, fmap_cons. rewrite <- Permutation_middle. rewrite <- fmap_app, <- E. apply not_elem_of_cons. split; [|done]. cbn [ea]. intros <-.
      specialize (Hinf (ea e)). rewrite (lk_node _ _ _ _ (sh_links _ _ Hsh) _ _ (middle_entry L R e)) in Hinf. unfold info_at in Hinf. by rewrite Hfr in Hinf.
    + rewrite E, Eel in *. unfold vals. rewrite !fmap_app, fmap_cons. by rewrite insert_split by (by apply Forall_fmap).
Qed.

End Ops.

(** * Deletion of ranges *)

Lemma delete_loop_ok cond Q M : tests cond Q -> forall z L R us rank removed fuel, shape z (L ++ M ++ R) -> preds_at (header z) (L ++ M ++ R) (length L) (zlevel z) us ->
  (forall j e, M !! j = Some e -> Q (ev e) (rank + Z.of_nat j) = true) -> (forall e, head R = Some e -> Q (ev e) (rank + Z.of_nat (length M)) = false) ->
  (length M <= fuel)%nat ->
  exists z', delete_loop fuel cond z (us.*1) (ea <$> head (M ++ R)) rank removed = Some (z', removed ++ (ee <$> M)) /\ shape z' (L ++ R) /\ header z' = header z.
Proof.
  intros HQ. induction M as [|e M IH]; intros z L R us rank removed fuel Hsh Hp HM HR Hf.
  - cbn [app] in *. exists z. rewrite app_nil_r. split; [|done]. destruct R as [|x R]; [by destruct fuel|]. cbn [head fmap option_fmap option_map].
    destruct (node_of z _ _ x (sh_links _ _ Hsh) (middle_entry L R x)) as (n & Hn & He & Hs & _). specialize (HR x eq_refl). rewrite Z.add_0_r in HR.
    destruct fuel; cbn [delete_loop]; rewrite Hn; cbn [mbind option_bind]; rewrite (HQ n rank _ He), Hs; fold (ev x); by rewrite HR.
  - destruct fuel as [|fuel]; [cbn in Hf; lia|]. cbn [app head fmap option_fmap option_map delete_loop].
    destruct (node_of z _ _ e (sh_links _ _ Hsh) (middle_entry L (M ++ R) e)) as (n & Hn & He & Hs & _). rewrite Hn. cbn [mbind option_bind].
    pose proof (HM 0%nat e eq_refl) as H0. rewrite Z.add_0_r in H0. rewrite (HQ n rank _ He), Hs. fold (ev e). rewrite H0.
    assert (Hsp : (L ++ [e]) ++ M ++ R = L ++ e :: M ++ R) by (by rewrite <- app_assoc).
    destruct (next_of z (L ++ [e]) (M ++ R) (ea e) (eh e)) as [k ->].
    { rewrite Hsp. apply Hsh. } { rewrite Hsp, length_app, Nat.add_1_r, positions_S. cbn [app]. by rewrite middle_entry. }
    { apply (Forall_lookup_1 _ _ _ _ (lk_height _ _ _ _ (sh_links _ _ Hsh)) (middle_entry L (M ++ R) e)). }
    cbn [mbind option_bind]. destruct (zslDeleteNode_ok z L e (M ++ R) us Hsh Hp) as (z1 & -> & Eh & Hlv & Hsh1 & Hinf). cbn [mbind option_bind].
    rewrite He. cbn [mbind option_bind]. destruct (middle_not_in _ _ _ _ _ _ (sh_links _ _ Hsh)) as [M1 M2].
    destruct (IH (with_mem z1 (zslFreeNode (mem z1) (ea e))) L R us (rank + 1) (removed ++ [ee e]) fuel) as (z2 & -> & Hsh2 & Eh2).
    + apply free_shape; [done|by rewrite Eh|done].
    + cbn [header zlevel with_mem]. rewrite Eh. intros l Hl. destruct (Hp l ltac:(lia)) as (u & r & Hu & Hpr). exists u, r. split; [done|]. by eapply is_pred_prefix.
    + intros j x Hj. rewrite <- (HM (S j) x Hj). f_equal. lia.
    + intros x Hx. rewrite <- (HR x Hx). f_equal. cbn [length]. lia.
    + cbn in Hf. lia.
    + exists z2. rewrite <- app_assoc. cbn [header with_mem] in Eh2. split_and!; [done|done|congruence].
Qed.

(** A range of the list is deleted: the entries [M] between the last one where [out]
    holds and the first one after it where [in_] does not. *)
Lemma delete_range_ok z L M R out in_ Q : zrep z (L ++ M ++ R) -> cond_upto (mem z) (L ++ M ++ R) out (length L) -> tests in_ Q ->
  (forall j e, M !! j = Some e -> Q (ev e) (Z.of_nat (length L) + 1 + Z.of_nat j) = true) ->
  (forall e, head R = Some e -> Q (ev e) (Z.of_nat (length L) + 1 + Z.of_nat (length M)) = false) ->
  exists z', delete_range z out in_ = Some (z', ee <$> M) /\ zrep z' (L ++ R).
Proof.
  intros H Hc HQ HM HR. apply zrep_shape in H as (Hsh & Hso & Hu). unfold delete_range.
  destruct (search_ok z _ out (length L) (sh_links _ _ Hsh) (sh_len _ _ Hsh) Hc) as (x & us & h & -> & [_ Hp] & _ & Hpos & Hh); [rewrite length_app; lia|].
  cbn [mbind option_bind]. destruct (next_of z L (M ++ R) x h (sh_links _ _ Hsh) Hpos Hh) as [k ->]. cbn [mbind option_bind].
  destruct (delete_loop_ok in_ Q M HQ z L R us (Z.of_nat (length L) + 1) [] (fuel_of z) Hsh Hp HM HR) as (z' & -> & Hsh' & _).
  { unfold fuel_of. rewrite (sh_len _ _ Hsh), Nat2Z.id, !length_app. lia. }
  exists z'. split; [done|]. apply zrep_shape. split_and!; [done| |].
  - unfold vals in *. rewrite !fmap_app in *. apply ksorted_app in Hso as (S1 & S2 & S3). apply ksorted_app in S2 as (_ & S2 & _).
    apply ksorted_app. split_and!; [done|done|]. intros a b Ha Hb. apply S3; [done|]. apply elem_of_app. by right.
  - rewrite !fmap_app in *. apply NoDup_app in Hu as (U1 & U2 & U3). apply NoDup_app in U3 as (_ & _ & U3). apply NoDup_app. split_and!; [done| |done].
    intros a Ha Hb. apply (U2 a Ha), elem_of_app. by right.
Qed.

(** Two tests that are closed downwards cut the list in three. *)
Lemma vals_split3 A (lo hi : val -> bool) : ksorted (vals A) -> closed (vals A) lo -> closed (vals A) hi ->
  exists L M R, A = L ++ M ++ R /\ Forall (fun a => lo (ev a) = true) L /\ Forall (fun a => lo (ev a) = false) (M ++ R) /\
    Forall (fun a => hi (ev a) = true) M /\ Forall (fun a => hi (ev a) = false) R.
Proof.
  intros Hs Hlo Hhi. destruct (vals_split A lo Hs Hlo) as (L & B & -> & F1 & F2). unfold vals in Hs. rewrite fmap_app in Hs. apply ksorted_app in Hs as (_ & Hs & _).
  destruct (vals_split B hi Hs) as (M & R & -> & F3 & F4); [|by exists L, M, R]. intros a b Ha Hb. apply Hhi; unfold vals; rewrite fmap_app; apply elem_of_app; by right.
Qed.

Lemma filter_none {X} (P : X -> Prop) `{!forall x, Decision (P x)} l : Forall (fun x => ~ P x) l -> filter P l = [].
Proof. induction 1 as [|x l Hx _ IH]; [done|]. by rewrite filter_cons_False. Qed.
Lemma filter_all {X} (P : X -> Prop) `{!forall x, Decision (P x)} l : Forall P l -> filter P l = l.
Proof. induction 1 as [|x l Hx _ IH]; [done|]. rewrite filter_cons_True by done. by rewrite IH. Qed.

(** The values in the range, and out of it. *)
Definition in_range (lo hi : val -> bool) (a : val) : Prop := lo a = false /\ hi a = true.
#[global] Instance in_range_dec lo hi a : Decision (in_range lo hi a).
Proof. unfold in_range. apply _. Defined.

Lemma range_filter L M R (lo hi : val -> bool) : Forall (fun a => lo (ev a) = true) L -> Forall (fun a => lo (ev a) = false) (M ++ R) ->
  Forall (fun a => hi (ev a) = true) M -> Forall (fun a => hi (ev a) = false) R ->
  filter (in_range lo hi) (vals (L ++ M ++ R)) = vals M /\ filter (fun a => ~ in_range lo hi a) (vals (L ++ M ++ R)) = vals (L ++ R).
Proof.
  intros F1 F2 F3 F4. apply Forall_app in F2 as [F2 F2']. unfold vals. rewrite !fmap_app, !filter_app.
  assert (HL : Forall (fun a => ~ in_range lo hi a) (ev <$> L)) by (apply Forall_fmap; eapply Forall_impl; [exact F1|]; cbn; intros a E [E' _]; congruence).
  assert (HM : Forall (in_range lo hi) (ev <$> M)).
  { apply Forall_fmap, Forall_forall. intros a Ha. split; [by apply (proj1 (Forall_forall _ _) F2)|by apply (proj1 (Forall_forall _ _) F3)]. }
  assert (HR : Forall (fun a => ~ in_range lo hi a) (ev <$> R)) by (apply Forall_fmap; eapply Forall_impl; [exact F4|]; cbn; intros a E [_ E']; congruence).
  rewrite (filter_none _ (ev <$> L)), (filter_all _ (ev <$> M)), (filter_none _ (ev <$> R)) by done. rewrite app_nil_r. split; [done|].
  rewrite (filter_all _ (ev <$> L)), (filter_all _ (ev <$> R)) by done. rewrite (filter_none _ (ev <$> M)); [done|]. eapply Forall_impl; [exact HM|]. tauto.
Qed.

(** Tests that do not look at the rank. *)
Lemma delete_filter z A out in_ (lo hi : val -> bool) : zrep z A -> tests out (fun a _ => lo a) -> tests in_ (fun a _ => hi a) ->
  closed (vals A) lo -> closed (vals A) hi ->
  exists z' A', delete_range z out in_ = Some (z', (filter (in_range lo hi) (vals A)).*2) /\ zrep z' A' /\
    vals A' = filter (fun a => ~ in_range lo hi a) (vals A).
Proof.
  intros H Hlo Hhi C1 C2. destruct (vals_split3 A lo hi (zr_sorted _ _ H) C1 C2) as (L & M & R & -> & F1 & F2 & F3 & F4).
  destruct (range_filter L M R lo hi F1 F2 F3 F4) as [-> ->].
  destruct (delete_range_ok z L M R out in_ (fun a _ => hi a) H) as (z' & -> & Hz).
  - apply (cond_split _ _ _ _ lo); [apply H|done..].
  - done.
  - intros j e Hj. by apply (Forall_lookup_1 _ _ _ _ F3 Hj).
  - intros e He. destruct R as [|x R]; [done|]. injection He as ->. by apply Forall_cons in F4 as [? _].
  - exists z', (L ++ R). split_and!; [|done|done]. do 2 f_equal. unfold vals. by rewrite <- list_fmap_compose.
Qed.

(** The tests of the ranges are closed downwards. *)
Lemma kcmp_score a b : kcmp a b = Lt -> dkey a.1 <= dkey b.1.
Proof. unfold kcmp. destruct (dkey a.1 ?= dkey b.1) eqn:E; [apply Z.compare_eq in E; lia|rewrite Z.compare_lt_iff in E; lia|done]. Qed.

Definition below_score (range : zrangespec) (a : val) : bool := negb (zslValueGteMin a.1 range).
Definition upto_score (range : zrangespec) (a : val) : bool := zslValueLteMax a.1 range.

Lemma below_score_closed l range : closed l (below_score range).
Proof.
  intros a b _ _ Hk%kcmp_score. unfold below_score, zslValueGteMin, dlt, dle. destruct (minex range); rewrite !negb_true_iff, ?Z.ltb_ge, ?Z.leb_gt; lia.
Qed.
Lemma upto_score_closed l range : closed l (upto_score range).
Proof.
  intros a b _ _ Hk%kcmp_score. unfold upto_score, zslValueLteMax, dlt, dle. destruct (maxex range); rewrite ?Z.ltb_lt, ?Z.leb_le; lia.
Qed.

Lemma zslDeleteRangeByScore_ok z A range : zrep z A -> exists z' A',
  zslDeleteRangeByScore z range = Some (z', (filter (in_range (below_score range) (upto_score range)) (vals A)).*2) /\ zrep z' A' /\
  vals A' = filter (fun a => ~ in_range (below_score range) (upto_score range) a) (vals A).
Proof. intros H. apply delete_filter; [done|by intros n r e _|by intros n r e _|apply below_score_closed|apply upto_score_closed]. Qed.

Definition below_lex (range : zlexrangespec) (a : val) : bool := negb (zslLexValueGteMin a.2 range).
Definition upto_lex (range : zlexrangespec) (a : val) : bool := zslLexValueLteMax a.2 range.

(** All the scores are the same. *)
Definition one_score (l : list val) : Prop := forall a b, a ∈ l -> b ∈ l -> dkey a.1 = dkey b.1.

Lemma one_score_lex l a b : one_score l -> a ∈ l -> b ∈ l -> kcmp a b = Lt -> lex a.2 b.2 = Lt.
Proof. intros Hl Ha Hb. unfold kcmp. by rewrite (Hl a b Ha Hb), Z.compare_refl. Qed.

Lemma below_lex_closed l range : one_score l -> closed l (below_lex range).
Proof.
  intros Hl a b Ha Hb Hk. apply (one_score_lex l) in Hk; [|done..]. unfold below_lex, zslLexValueGteMin. destruct (lmin range) as [| |m]; cbn [sdscmplex]; [done|done|].
  destruct (lex b.2 m) eqn:E; [|intros _; by rewrite (lex_trans _ _ _ Hk E)|done]. apply lex_eq in E as <-. by rewrite Hk.
Qed.

Lemma upto_lex_closed l range : one_score l -> closed l (upto_lex range).
Proof.
  intros Hl a b Ha Hb Hk. apply (one_score_lex l) in Hk; [|done..]. unfold upto_lex, zslLexValueLteMax. destruct (lmax range) as [| |m]; cbn [sdscmplex]; [done|done|].
  destruct (lex b.2 m) eqn:E; [|intros _; by rewrite (lex_trans _ _ _ Hk E)|done]. apply lex_eq in E as <-. by rewrite Hk.
Qed.

Lemma zslDeleteRangeByLex_ok z A range : zrep z A -> one_score (vals A) -> exists z' A',
  zslDeleteRangeByLex z range = Some (z', (filter (in_range (below_lex range) (upto_lex range)) (vals A)).*2) /\ zrep z' A' /\
  vals A' = filter (fun a => ~ in_range (below_lex range) (upto_lex range) a) (vals A).
Proof.
  intros H Hl. apply delete_filter; [done| | |by apply below_lex_closed|by apply upto_lex_closed]; intros n r e He; [unfold gte_lex|unfold lte_lex]; by rewrite He.
Qed.

(** Ranks are counted from 1. *)
Lemma zslDeleteRangeByRank_ok z A (start end_ : nat) : zrep z A -> (1 <= start)%nat -> (start <= end_ + 1)%nat -> exists z',
  zslDeleteRangeByRank z (Z.of_nat start) (Z.of_nat end_) = Some (z', ee <$> take (end_ + 1 - start) (drop (start - 1) A)) /\
  zrep z' (take (start - 1) A ++ drop end_ A).
Proof.
  intros H Hs He. set (L := take (start - 1) A). set (M := take (end_ + 1 - start) (drop (start - 1) A)). set (R := drop end_ A).
  assert (EA : A = L ++ M ++ R).
  { unfold L, M, R. rewrite <- (take_drop (start - 1) A) at 1. f_equal. rewrite <- (take_drop (end_ + 1 - start) (drop (start - 1) A)) at 1. f_equal.
    rewrite drop_drop. f_equal. lia. }
  assert (Hl : length L = Nat.min (start - 1) (length A)) by (unfold L; by rewrite length_take).
  assert (Hm : length M = Nat.min (end_ + 1 - start) (length A - (start - 1))) by (unfold M; by rewrite length_take, length_drop).
  rewrite EA in H. destruct (delete_range_ok z L M R (fun _ rank => rank <? Z.of_nat start) (fun _ rank => rank <=? Z.of_nat end_) (fun _ rank => rank <=? Z.of_nat end_) H) as (z' & Hd & Hz).
  - intros i e n Hi Hn. apply lookup_lt_Some in Hi. rewrite <- EA in Hi. destruct (decide (S i <= length L)%nat) as [Hlt|Hge].
    + rewrite bool_decide_eq_true_2 by done. apply Z.ltb_lt. lia.
    + rewrite bool_decide_eq_false_2 by done. apply Z.ltb_ge. lia.
  - done.
  - intros j e Hj. apply lookup_lt_Some in Hj. apply Z.leb_le. lia.
  - intros e Hr. apply Z.leb_gt. assert (Hlt : (0 < length R)%nat) by (destruct R; [done|cbn; lia]). unfold R in Hlt. rewrite length_drop in Hlt. lia.
  - exists z'. done.
Qed.

(** * Ranks *)

(** The rank of a key, from 1, or 0. *)
Fixpoint rank_from (i : Z) (k : val) (l : list val) : Z :=
  match l with [] => 0 | a :: l => if same k a then i else rank_from (i + 1) k l end.

Lemma rank_none k l i : Forall (fun a => same k a = false) l -> rank_from i k l = 0.
Proof. intros H. revert i. induction H as [|a l Ha _ IH]; intros i; [done|]. cbn [rank_from]. by rewrite Ha. Qed.

Definition kle (a b : val) : bool := match kcmp a b with Gt => false | _ => true end.

Lemma kle_code s e s' e' : (dlt s s' || deq s s' && ele_le e e') = kle (s, e) (s', e').
Proof.
  unfold dlt, deq, ele_le, kle, kcmp. cbn [fst snd]. rewrite Z.ltb_compare. destruct (Z.eqb_spec (dkey s) (dkey s')) as [->|Hne].
  - by rewrite Z.compare_refl.
  - destruct (dkey s ?= dkey s') eqn:E; [by apply Z.compare_eq in E|done|done].
Qed.

Lemma upto_tests s e : tests (upto s e) (fun a _ => kle a (s, e)).
Proof. intros n r e' He. unfold upto. rewrite He. apply kle_code. Qed.

Lemma kle_not_gt a b : kle a b = true <-> kcmp a b <> Gt.
Proof. unfold kle. by destruct (kcmp a b). Qed.

Lemma upto_closed l k : closed l (fun a => kle a k).
Proof. intros a b _ _ Hk. rewrite !kle_not_gt. intros Hb. by rewrite (kcmp_trans_le _ _ _ Hk Hb). Qed.

(** At level 0 the predecessor is the last entry. *)
Lemma is_pred_zero hd lev m A k q a : links hd lev m A -> (k <= length A)%nat -> is_pred hd A 0 k q a -> q = k.
Proof.
  intros HL Hk (Hq & _ & Hall). destruct (decide (q = k)) as [|Hne]; [done|]. exfalso. destruct (lookup_lt_is_Some_2 A q ltac:(lia)) as [x Hx].
  assert (Hi : take (k - q) (drop q A) !! 0%nat = Some x) by (by rewrite lookup_take_lt, lookup_drop, Nat.add_0_r by lia).
  apply (Forall_lookup_1 _ _ _ _ Hall) in Hi. pose proof (Forall_lookup_1 _ _ _ _ (lk_height _ _ _ _ HL) Hx). cbn in *. lia.
Qed.

(** The node at a position: its element is NULL at the header. *)
Lemma position_node z A p a h : links (header z) (zlevel z) (mem z) A -> positions (header z) A !! p = Some (a, h) ->
  exists n, mem z !! a = Some n /\ match p with O => ele n = None | S i => exists e, A !! i = Some e /\ ele n = Some (ee e) /\ score n = es e /\ a = ea e end.
Proof.
  intros HL Hp. destruct p as [|p].
  - injection Hp as <- _. destruct (lk_header _ _ _ _ HL) as [sc Hh]. destruct (info_node _ _ _ Hh) as (n & Hn & E). exists n. split; [done|]. by injection E.
  - rewrite positions_S in Hp. destruct (A !! p) as [e|] eqn:He; [|done]. injection Hp as <- _.
    destruct (node_of z A p e HL He) as (n & Hn & E1 & E2 & _). exists n. split; [done|]. by exists e.
Qed.

Section Rank.
Variables (z : zskiplist) (L R : list entry) (s : Z) (el : bytes).
Hypothesis H : zrep z (L ++ R).
Hypothesis HL : Forall (fun a => kle (ev a) (s, el) = true) L.
Hypothesis HR : Forall (fun a => kle (ev a) (s, el) = false) R.

Definition last_same : bool := match last L with Some e => same (s, el) (ev e) | None => false end.

(** Only the last entry up to the key may be the key. *)
Lemma same_at i e : L !! i = Some e -> same (s, el) (ev e) = bool_decide (S i = length L) && last_same.
Proof.
  intros Hi. pose proof (lookup_lt_Some _ _ _ Hi) as Hlt. unfold last_same. rewrite last_lookup. destruct (decide (S i = length L)) as [E|Hne].
  - rewrite bool_decide_eq_true_2 by done. rewrite <- E. cbn [pred]. by rewrite Hi.
  - rewrite bool_decide_eq_false_2 by done. cbn [andb]. destruct (lookup_lt_is_Some_2 L (pred (length L)) ltac:(lia)) as [x Hx].
    pose proof (Forall_lookup_1 _ _ _ _ HL Hx) as Hle. apply kle_not_gt in Hle. pose proof (zr_sorted _ _ H) as Hs. unfold vals in Hs. rewrite fmap_app in Hs.
    apply ksorted_app in Hs as (Hs & _ & _). unfold same. rewrite (kcmp_trans_le _ (ev x)); [done| |done].
    rewrite <- (take_drop (S i) L), fmap_app in Hs. apply ksorted_app in Hs as (_ & _ & Hs). apply Hs; apply list_elem_of_fmap.
    + exists e. split; [done|]. apply list_elem_of_lookup. exists i. by rewrite lookup_take_lt by lia.
    + exists x. split; [done|]. apply list_elem_of_lookup. exists (pred (length L) - S i)%nat. rewrite lookup_drop. rewrite <- Hx. f_equal. lia.
Qed.

Lemma rank_loop_ok n p a h : (1 <= n)%nat \/ last_same = false -> (n <= zlevel z)%nat -> positions (header z) (L ++ R) !! p = Some (a, h) -> (n <= h)%nat -> (p <= length L)%nat ->
  rank_loop (fuel_of z) (mem z) s el n a (Z.of_nat p) = Some (if last_same then Z.of_nat (length L) else 0).
Proof.
  revert p a h. induction n as [|n IH]; intros p a h Hn Hlv Hp Hh Hpl; [destruct Hn as [?| ->]; [lia|done]|]. cbn [rank_loop].
  assert (Hc : cond_upto (mem z) (L ++ R) (upto s el) (length L)) by (apply (cond_split _ _ _ _ (fun a => kle a (s, el))); [apply H|apply upto_tests|done|done]).
  destruct (walk_ok _ _ _ _ (zr_links _ _ H) (upto s el) (length L) Hc ltac:(rewrite length_app; lia) n p a h (fuel_of z)) as (q & b & -> & Hq & Hpq); [lia|done|lia|done| |].
  { unfold fuel_of. rewrite (zr_len _ _ H), Nat2Z.id, length_app. lia. }
  cbn [mbind option_bind]. pose proof Hq as (Hql & (h' & Hb & Hh') & _). destruct (position_node z _ _ _ _ (zr_links _ _ H) Hb) as (nd & -> & Hnd). cbn [mbind option_bind].
  assert (Hnext : (q = length L -> last_same = false) -> rank_loop (fuel_of z) (mem z) s el n b (Z.of_nat q) = Some (if last_same then Z.of_nat (length L) else 0)).
  { intros Hls. apply (IH q b h'); [|lia|done|lia|done]. destruct n as [|n]; [right|left; lia]. apply Hls. eapply is_pred_zero; [apply H|rewrite length_app; lia|exact Hq]. }
  destruct q as [|q].
  - rewrite Hnd. apply Hnext. intros E. unfold last_same. by rewrite last_lookup, <- E; destruct L.
  - destruct Hnd as (e & He & He1 & He2 & _). rewrite He1, He2, andb_comm. rewrite lookup_app_l in He by lia.
    assert (Es : ele_eq (ee e) el && deq (es e) s = same (s, el) (ev e)) by (unfold ev; rewrite <- same_code, andb_comm; unfold deq; by rewrite Z.eqb_sym).
    rewrite Es, (same_at q e He). destruct (bool_decide_reflect (S q = length L)) as [E|Hne]; cbn [andb].
    + destruct last_same; [by rewrite E|]. by apply Hnext.
    + apply Hnext. done.
Qed.

(** The rank of the key in the list. *)
Lemma rank_from_split : rank_from 1 (s, el) (vals (L ++ R)) = if last_same then Z.of_nat (length L) else 0.
Proof.
  assert (HR' : forall i, rank_from i (s, el) (ev <$> R) = 0).
  { intros i. apply rank_none, Forall_fmap. eapply Forall_impl; [exact HR|]. cbn. intros a. unfold kle, same. by destruct (kcmp (ev a) (s, el)). }
  assert (HL' : forall i L1 L2, L = L1 ++ L2 -> i = Z.of_nat (length L1) + 1 -> rank_from i (s, el) (ev <$> (L2 ++ R)) = if last_same then if decide (L2 = []) then 0 else Z.of_nat (length L) else 0).
  { intros i L1 L2. revert i L1. induction L2 as [|e L2 IH]; intros i L1 EL Ei; [cbn [app]; rewrite HR', decide_True by done; by destruct last_same|].
    assert (He : L !! length L1 = Some e) by (rewrite EL; by apply list_lookup_middle). cbn [app]. rewrite fmap_cons. cbn [rank_from]. rewrite (same_at _ _ He).
    rewrite (IH (i + 1) (L1 ++ [e])) by (rewrite ?EL, <- ?app_assoc, ?length_app; done || cbn; lia). rewrite (decide_False (P := e :: L2 = [])) by done.
    assert (El : length L = (length L1 + S (length L2))%nat) by (rewrite EL, length_app; done). case_bool_decide as E; cbn [andb].
    - assert (L2 = []) as -> by (destruct L2; [done|cbn in El; lia]). rewrite decide_True by done. destruct last_same; [cbn in El; lia|done].
    - rewrite decide_False by (intros ->; cbn in El; lia). done. }
  unfold vals. rewrite (HL' 1 [] L eq_refl eq_refl). destruct (decide (L = [])) as [->|]; [|done]. done.
Qed.

End Rank.

Lemma zslGetRank_ok z A s el : zrep z A -> zslGetRank z s el = Some (rank_from 1 (s, el) (vals A)).
Proof.
  intros H. destruct (vals_split A (fun a => kle a (s, el)) (zr_sorted _ _ H) (upto_closed _ _)) as (L & R & -> & F1 & F2).
  rewrite (rank_from_split z L R s el H F1 F2). unfold zslGetRank. pose proof (lk_lev _ _ _ _ (zr_links _ _ H)).
  apply (rank_loop_ok z L R s el H F1 F2 (zlevel z) 0 (header z) ZSKIPLIST_MAXLEVEL); [left; lia|lia|done|lia|lia].
Qed.

End ZslOps.
