(* ===== verification/SkiplistRange.v ===== *)
(** Elements by rank and by range, and sequences of operations on sorted sets:
    the theorems on the skip lists of t_zset.c. *)

From S2P Require Import Prelude Sds SdsSpec Skiplist SkiplistSpec SkiplistOps.

Module ZslRange.
Import SdsSpec Zsl ZslSpec ZslOps.

(** * Elements by rank *)

Lemma by_rank_loop_ok z A p0 rank n p a h : zrep z A -> (p0 <= p)%nat -> let t := (p0 + rank)%nat in
  (1 <= n)%nat \/ (length A < t)%nat -> (n <= zlevel z)%nat -> positions (header z) A !! p = Some (a, h) -> (n <= h)%nat -> (p <= t)%nat ->
  by_rank_loop (fuel_of z) (mem z) (Z.of_nat rank) n a (Z.of_nat p - Z.of_nat p0) = Some (fst <$> positions (header z) A !! t).
Proof.
  intros H Hp0 t. revert p a h Hp0. induction n as [|n IH]; intros p a h Hp0 Hn Hlv Hp Hh Hpt.
  - destruct Hn as [|Hn]; [lia|]. cbn [by_rank_loop]. rewrite (proj2 (lookup_ge_None (positions (header z) A) t)); [done|].
    unfold positions. cbn [length]. rewrite length_fmap. lia.
  - cbn [by_rank_loop]. pose proof (positions_lt _ _ _ _ Hp) as HpA. set (m := Nat.min t (length A)).
    assert (Hc : cond_from (mem z) A (fun _ r => r <=? Z.of_nat rank) m (Z.of_nat p0)).
    { intros i e nd Hi _. apply lookup_lt_Some in Hi. destruct (decide (S i <= m)%nat).
      - rewrite bool_decide_eq_true_2 by done. apply Z.leb_le. lia.
      - rewrite bool_decide_eq_false_2 by done. apply Z.leb_gt. lia. }
    destruct (walk_from _ _ _ _ (zr_links _ _ H) _ m (Z.of_nat p0) n p a h (fuel_of z) Hc) as (q & b & -> & Hq & Hpq); [lia|lia|done|lia|lia| |].
    { unfold fuel_of. rewrite (zr_len _ _ H). lia. }
    cbn [mbind option_bind]. pose proof Hq as (Hqm & (h' & Hb & Hh') & _). destruct (Z.eqb_spec (Z.of_nat q - Z.of_nat p0) (Z.of_nat rank)) as [E|E].
    + assert (q = t) as -> by lia. by rewrite Hb.
    + apply (IH q b h'); [lia| |lia|done|lia|lia]. destruct n as [|n]; [right|left; lia].
      assert (q = m) as -> by (eapply is_pred_zero; [apply H|lia|exact Hq]). lia.
Qed.

(** The element [rank] places after the start node, or NULL. *)
Lemma by_rank_from z A p0 a0 h0 lv rank : zrep z A -> positions (header z) A !! p0 = Some (a0, h0) -> (lv < h0)%nat -> (lv < zlevel z)%nat ->
  zslGetElementByRankFromNode z a0 lv (Z.of_nat rank) = Some (fst <$> positions (header z) A !! (p0 + rank)%nat).
Proof.
  intros H Hp Hh Hlv. unfold zslGetElementByRankFromNode. replace 0 with (Z.of_nat p0 - Z.of_nat p0) at 1 by lia.
  apply (by_rank_loop_ok z A p0 rank (S lv) p0 a0 h0); [done|lia|left; lia|lia|done|lia|lia].
Qed.

Lemma zslGetElementByRank_ok z A rank : zrep z A -> zslGetElementByRank z (Z.of_nat rank) = Some (fst <$> positions (header z) A !! rank).
Proof.
  intros H. pose proof (lk_lev _ _ _ _ (zr_links _ _ H)). apply (by_rank_from z A 0 (header z) ZSKIPLIST_MAXLEVEL (zlevel z - 1) rank); [done|done|lia|lia].
Qed.

(** * The n-th element of a range *)

Lemma forward_steps_ok z A n p a h : zrep z A -> positions (header z) A !! p = Some (a, h) -> (p + n <= length A)%nat -> (1 <= h)%nat ->
  forward_steps (mem z) n (Some a) = Some (fst <$> positions (header z) A !! (p + n)%nat).
Proof.
  intros H. revert p a h. induction n as [|n IH]; intros p a h Hp Hle Hh; cbn [forward_steps]; [by rewrite Nat.add_0_r, Hp|]. cbn [mbind option_bind].
  destruct (lookup_lt_is_Some_2 A p ltac:(lia)) as [e He].
  destruct (next_of z (take p A) (drop p A) a h) as [k ->]; [rewrite take_drop; apply H|rewrite take_drop, length_take, Nat.min_l by lia; done|done|].
  cbn [mbind option_bind]. rewrite (lookup_head (take p A) (drop p A)), take_drop, length_take, Nat.min_l, He by lia. cbn [fmap option_fmap option_map].
  rewrite (IH (S p) (ea e) (eh e)); [f_equal; f_equal; f_equal; lia|by rewrite positions_S, He|lia|].
  apply (Forall_lookup_1 _ _ _ _ (lk_height _ _ _ _ (zr_links _ _ H)) He).
Qed.

Lemma backward_steps_ok z A n i e : zrep z A -> A !! i = Some e -> (n <= i)%nat ->
  backward_steps (mem z) n (Some (ea e)) = Some (ea <$> A !! (i - n)%nat).
Proof.
  intros H. revert i e. induction n as [|n IH]; intros i e Hi Hn; cbn [backward_steps]; [by rewrite Nat.sub_0_r, Hi|]. cbn [mbind option_bind].
  destruct (node_of z A i e (zr_links _ _ H) Hi) as (nd & -> & _ & _ & Hb). cbn [mbind option_bind]. rewrite Hb. destruct i as [|i]; [lia|]. cbn [prev].
  destruct (lookup_lt_is_Some_2 A i) as [x Hx]; [apply lookup_lt_Some in Hi; lia|]. rewrite Hx. cbn [fmap option_fmap option_map]. by apply IH; [|lia].
Qed.

Lemma keep_if_ok z A test (P : val -> bool) i e : zrep z A -> tests (fun n _ => test n) (fun a _ => P a) -> A !! i = Some e ->
  keep_if (mem z) test (Some (ea e)) = Some (if P (ev e) then Some (ea e) else None).
Proof.
  intros H HP Hi. destruct (node_of z A i e (zr_links _ _ H) Hi) as (n & Hn & He & Hs & _). cbn [keep_if]. rewrite Hn. cbn [mbind option_bind].
  pose proof (HP n 0 _ He) as Hp. cbn in Hp. rewrite Hp, Hs. done.
Qed.

(** The n-th value of a list, from its end when [n] is negative. *)
Definition nth_of {X} (l : list X) (n : Z) : option X :=
  if 0 <=? n then l !! Z.to_nat n else if - n <=? Z.of_nat (length l) then l !! Z.to_nat (Z.of_nat (length l) + n) else None.

Section Nth.
Variables (z : zskiplist) (L M R : list entry) (gte lte : node -> bool) (lo hi : val -> bool).
Hypothesis H : zrep z (L ++ M ++ R).
Hypothesis Hgte : tests (fun n _ => gte n) (fun a _ => negb (lo a)).
Hypothesis Hlte : tests (fun n _ => lte n) (fun a _ => hi a).
Hypothesis F1 : Forall (fun a => lo (ev a) = true) L.
Hypothesis F2 : Forall (fun a => lo (ev a) = false) (M ++ R).
Hypothesis F3 : Forall (fun a => hi (ev a) = true) (L ++ M).
Hypothesis F4 : Forall (fun a => hi (ev a) = false) R.

Abbreviation A := (L ++ M ++ R).

Lemma out_cond : cond_upto (mem z) A (fun nd _ => negb (gte nd)) (length L).
Proof.
  apply (cond_split _ _ _ _ lo); [apply H| |done|done]. intros n r e He. pose proof (Hgte n r e He) as E. cbn in E. rewrite E. by rewrite negb_involutive.
Qed.

Lemma in_cond : cond_upto (mem z) A (fun nd _ => lte nd) (length L + length M).
Proof. rewrite <- length_app, app_assoc. apply (cond_split _ _ _ _ hi); [rewrite <- app_assoc; apply H|done|done|done]. Qed.

(** The first walk, at the highest level. *)
Lemma top_walk : exists q b h, walk (fuel_of z) (mem z) (fun nd _ => negb (gte nd)) (zlevel z - 1) (header z) 0 = Some (b, Z.of_nat q) /\
  (q <= length L)%nat /\ positions (header z) A !! q = Some (b, h) /\ (zlevel z - 1 < h)%nat /\ (zlevel z = 1%nat -> q = length L).
Proof.
  pose proof (lk_lev _ _ _ _ (zr_links _ _ H)) as Hlv.
  destruct (walk_ok _ _ _ _ (zr_links _ _ H) _ (length L) out_cond ltac:(rewrite length_app; lia) (zlevel z - 1) 0 (header z) ZSKIPLIST_MAXLEVEL (fuel_of z)) as (q & b & Hw & Hq & _);
    [lia|done|lia|lia|unfold fuel_of; rewrite (zr_len _ _ H), Nat2Z.id, length_app; lia|].
  pose proof Hq as (Hql & (h & Hb & Hh) & _). exists q, b, h. split_and!; [done|done|done|done|]. intros E. rewrite E in Hq. eapply is_pred_zero; [apply H|rewrite length_app; lia|exact Hq].
Qed.

Lemma descend_to cond m n q b h : cond_upto (mem z) A cond m -> (m <= length A)%nat -> (q <= m)%nat -> positions (header z) A !! q = Some (b, h) ->
  (n <= h)%nat -> (n <= zlevel z)%nat -> (n = 0%nat -> q = m) ->
  exists x us h', descend (fuel_of z) (mem z) cond n b (Z.of_nat q) = Some (x, Z.of_nat m, us) /\ positions (header z) A !! m = Some (x, h') /\ (1 <= h')%nat.
Proof.
  intros Hc Hm Hqm Hb Hn Hlv H0. destruct (descend_ok _ _ _ _ (zr_links _ _ H) cond m Hc Hm n q b h (fuel_of z)) as (x & r & us & Hd & Hl & Hall & Hx); [done..| |].
  { unfold fuel_of. rewrite (zr_len _ _ H), Nat2Z.id. lia. }
  destruct n as [|n].
  - destruct Hx as [-> ->]. specialize (H0 eq_refl) as ->. exists b, us, h. split_and!; [done|done|]. destruct m as [|m]; [injection Hb as _ <-; unfold ZSKIPLIST_MAXLEVEL; lia|].
    rewrite positions_S in Hb. destruct (A !! m) as [e|] eqn:He; [|done]. injection Hb as _ <-. apply (Forall_lookup_1 _ _ _ _ (lk_height _ _ _ _ (zr_links _ _ H)) He).
  - destruct (Hall 0%nat ltac:(lia)) as (u & r' & Hu & Hp). rewrite Hx in Hu. injection Hu as <- Er. apply Nat2Z.inj in Er as <-.
    assert (r = m) as -> by (eapply is_pred_zero; [apply H|done|exact Hp]). destruct Hp as (_ & (h' & Hp & Hh') & _). exists x, us, h'. split_and!; [done|done|lia].
Qed.

Lemma range_lookup i e : A !! (length L + i)%nat = Some e -> M !! i = if hi (ev e) then Some e else None.
Proof.
  intros Hi. rewrite lookup_app_r in Hi by lia. replace (length L + i - length L)%nat with i in Hi by lia. destruct (decide (i < length M)%nat) as [Hlt|Hge].
  - rewrite lookup_app_l in Hi by lia. rewrite Hi. apply Forall_app in F3 as [_ F3']. by rewrite (Forall_lookup_1 _ _ _ _ F3' Hi).
  - rewrite lookup_app_r in Hi by lia. rewrite (Forall_lookup_1 _ _ _ _ F4 Hi). apply lookup_ge_None. lia.
Qed.

Lemma nth_nonneg n : 0 <= n < 2 ^ 62 -> nth_in_range z gte lte (Some true) n = Some (ea <$> nth_of M n).
Proof.
  intros Hn. unfold nth_in_range. cbn [mbind option_bind negb]. pose proof (lk_lev _ _ _ _ (zr_links _ _ H)) as Hlv. pose proof (lk_small _ _ _ _ (zr_links _ _ H)) as Hsm.
  destruct top_walk as (q & b & h & -> & Hq & Hb & Hh & Hq1). cbn [mbind option_bind]. destruct (Z.geb_spec n 0) as [_|]; [|lia].
  destruct (descend_to _ (length L) (zlevel z - 1) q b h out_cond) as (x & us & h' & -> & Hx & Hh'); [rewrite length_app; lia|done|done|lia|lia|intros E; apply Hq1; lia|].
  cbn [mbind option_bind]. unfold nth_of. rewrite (proj2 (Z.leb_le 0 n)) by lia. assert (Hlen : (length L + length M <= length A)%nat) by (rewrite !length_app; lia).
  rewrite (zr_len _ _ H), uwrap_small by (unfold urange; lia). destruct (Z.geb_spec (Z.of_nat (length L) + n) (Z.of_nat (length A))) as [Hge|Hlt].
  { by rewrite (proj2 (lookup_ge_None M (Z.to_nat n))) by lia. }
  destruct (lookup_lt_is_Some_2 A (length L + Z.to_nat n) ltac:(lia)) as [e He].
  assert (Hy : (if n <? ZSKIPLIST_MAX_SEARCH then forward_steps (mem z) (Z.to_nat (n + 1)) (Some x)
     else zslGetElementByRankFromNode z b (zlevel z - 1) (u64 (Z.of_nat (length L) + 1 + n - Z.of_nat q))) = Some (Some (ea e))).
  { assert (Hpe : positions (header z) A !! (length L + Z.to_nat (n + 1))%nat = Some (ea e, eh e)).
    { replace (length L + Z.to_nat (n + 1))%nat with (S (length L + Z.to_nat n)) by lia. by rewrite positions_S, He. }
    destruct (n <? ZSKIPLIST_MAX_SEARCH).
    - rewrite (forward_steps_ok z A _ (length L) x h') by (done || lia). by rewrite Hpe.
    - rewrite uwrap_small by (unfold urange; lia). replace (Z.of_nat (length L) + 1 + n - Z.of_nat q) with (Z.of_nat (length L + Z.to_nat (n + 1) - q)) by lia.
      rewrite (by_rank_from z A q b h) by (done || lia). replace (q + (length L + Z.to_nat (n + 1) - q))%nat with (length L + Z.to_nat (n + 1))%nat by lia. by rewrite Hpe. }
  rewrite Hy. cbn [mbind option_bind]. rewrite (keep_if_ok z A lte hi _ e H Hlte He), (range_lookup _ e He). by destruct (hi (ev e)).
Qed.

Lemma range_lookup_back i e : A !! i = Some e -> (i < length L + length M)%nat -> (if negb (lo (ev e)) then Some e else None) = if decide (length L <= i)%nat then M !! (i - length L)%nat else None.
Proof.
  intros Hi Hlt. destruct (decide (length L <= i)%nat) as [Hle|Hgt].
  - rewrite lookup_app_r in Hi by lia. rewrite (Forall_lookup_1 _ _ _ _ F2 Hi). rewrite lookup_app_l in Hi by lia. by rewrite Hi.
  - rewrite lookup_app_l in Hi by lia. by rewrite (Forall_lookup_1 _ _ _ _ F1 Hi).
Qed.

Lemma nth_neg n : - 2 ^ 62 < n < 0 -> nth_in_range z gte lte (Some true) n = Some (ea <$> nth_of M n).
Proof.
  intros Hn. unfold nth_in_range. cbn [mbind option_bind negb]. pose proof (lk_lev _ _ _ _ (zr_links _ _ H)) as Hlv. pose proof (lk_small _ _ _ _ (zr_links _ _ H)) as Hsm.
  destruct top_walk as (q & b & h & -> & Hq & Hb & Hh & Hq1). cbn [mbind option_bind]. destruct (Z.geb_spec n 0) as [|_]; [lia|].
  assert (Hlen : (length L + length M <= length A)%nat) by (rewrite !length_app; lia).
  destruct (descend_to _ (length L + length M) (zlevel z) q b h in_cond) as (x & us & h' & -> & Hx & Hh'); [done|lia|done|lia|lia|lia|].
  cbn [mbind option_bind]. unfold nth_of. rewrite (proj2 (Z.leb_gt 0 n)) by lia. destruct (Z.ltb_spec (Z.of_nat (length L + length M)) (- n)) as [Hlt|Hge].
  { by rewrite (proj2 (Z.leb_gt _ _)) by lia. }
  set (i := (length L + length M - Z.to_nat (- n))%nat). destruct (lookup_lt_is_Some_2 A i ltac:(lia)) as [e He].
  assert (Hpe : positions (header z) A !! S i = Some (ea e, eh e)) by (by rewrite positions_S, He).
  assert (Hy : (if n + 1 >? - ZSKIPLIST_MAX_SEARCH then backward_steps (mem z) (Z.to_nat (- n - 1)) (Some x)
     else zslGetElementByRankFromNode z b (zlevel z - 1) (u64 (Z.of_nat (length L + length M) + 1 + n - Z.of_nat q))) = Some (Some (ea e)) \/
     (if n + 1 >? - ZSKIPLIST_MAX_SEARCH then backward_steps (mem z) (Z.to_nat (- n - 1)) (Some x)
     else zslGetElementByRankFromNode z b (zlevel z - 1) (u64 (Z.of_nat (length L + length M) + 1 + n - Z.of_nat q))) = Some None /\ (i < length L)%nat).
  { destruct (n + 1 >? - ZSKIPLIST_MAX_SEARCH).
    - left. destruct (length L + length M)%nat as [|k] eqn:Ek; [lia|]. rewrite positions_S in Hx. destruct (A !! k) as [e'|] eqn:He'; [|done]. injection Hx as <- _.
      rewrite (backward_steps_ok z A _ k e' H He') by lia. replace (k - Z.to_nat (- n - 1))%nat with i by lia. by rewrite He.
    - destruct (decide (q <= S i)%nat) as [Hqi|Hqi].
      + left. rewrite uwrap_small by (unfold urange; lia). replace (Z.of_nat (length L + length M) + 1 + n - Z.of_nat q) with (Z.of_nat (S i - q)) by lia.
        rewrite (by_rank_from z A q b h) by (done || lia). replace (q + (S i - q))%nat with (S i) by lia. by rewrite Hpe.
      + right. split; [|lia]. set (d := Z.of_nat (length L + length M) + 1 + n - Z.of_nat q). assert (Hd : u64 d = d + 2 ^ 64) by (unfold uwrap; symmetry; apply Z.mod_unique with (-1); lia).
        rewrite Hd. replace (d + 2 ^ 64) with (Z.of_nat (Z.to_nat (d + 2 ^ 64))) by lia. rewrite (by_rank_from z A q b h) by (done || lia).
        rewrite (proj2 (lookup_ge_None (positions (header z) A) _)); [done|]. unfold positions. cbn [length]. rewrite length_fmap. lia. }
  assert (Hnth : (if - n <=? Z.of_nat (length M) then M !! Z.to_nat (Z.of_nat (length M) + n) else None) = if decide (length L <= i)%nat then M !! (i - length L)%nat else None).
  { destruct (Z.leb_spec (- n) (Z.of_nat (length M))); [rewrite decide_True by lia; f_equal; lia|by rewrite decide_False by lia]. }
  rewrite Hnth. destruct Hy as [Hy|[Hy Hi]]; rewrite Hy; cbn [mbind option_bind].
  - rewrite (keep_if_ok z A gte _ _ e H Hgte He). rewrite <- (range_lookup_back i e He) by lia. by destruct (lo (ev e)).
  - by rewrite decide_False by lia.
Qed.

End Nth.

(** The value of a node. *)
Definition val_at (m : gmap addr node) (a : addr) : option val := n ← m !! a; e ← ele n; Some (score n, e).

Lemma val_at_entry z A i e : zrep z A -> A !! i = Some e -> val_at (mem z) (ea e) = Some (ev e).
Proof.
  intros H Hi. destruct (node_of z A i e (zr_links _ _ H) Hi) as (n & Hn & He & Hs & _). unfold val_at. rewrite Hn. cbn [mbind option_bind]. rewrite He. cbn. by rewrite Hs.
Qed.

Lemma nth_of_fmap {X Y} (f : X -> Y) l n : nth_of (f <$> l) n = f <$> nth_of l n.
Proof. unfold nth_of. rewrite length_fmap. repeat case_match; rewrite ?list_lookup_fmap; done. Qed.

Lemma nth_of_lookup {X} (l : list X) n x : nth_of l n = Some x -> exists i, l !! i = Some x.
Proof. unfold nth_of. repeat case_match; intros Hx; try done; by eexists. Qed.

(** The tests for a range that may have elements in it. *)
Definition range_test (l : list val) (lo hi : val -> bool) (b : bool) : Prop :=
  if b then forall a, a ∈ l -> lo a = true -> hi a = true else forall a, a ∈ l -> ~ in_range lo hi a.

Lemma nth_in_range_ok z A gte lte lo hi b n : zrep z A -> tests (fun n _ => gte n) (fun a _ => negb (lo a)) -> tests (fun n _ => lte n) (fun a _ => hi a) ->
  closed (vals A) lo -> closed (vals A) hi -> range_test (vals A) lo hi b -> - 2 ^ 62 < n < 2 ^ 62 ->
  exists r, nth_in_range z gte lte (Some b) n = Some r /\ (a ← r; val_at (mem z) a) = nth_of (filter (in_range lo hi) (vals A)) n.
Proof.
  intros H Hg Hl C1 C2 Hb Hn. destruct (vals_split3 A lo hi (zr_sorted _ _ H) C1 C2) as (L & M & R & -> & F1 & F2 & F3 & F4).
  destruct (range_filter L M R lo hi F1 F2 F3 F4) as [EF _]. destruct b; cbn [range_test] in Hb.
  - rewrite EF. assert (F3' : Forall (fun a => hi (ev a) = true) (L ++ M)).
    { apply Forall_app. split; [|done]. apply Forall_forall. intros a Ha. apply Hb; [apply list_elem_of_fmap; exists a; split; [done|]; apply elem_of_app; by left|].
      by apply (proj1 (Forall_forall _ _) F1). }
    exists (ea <$> nth_of M n). split.
    + destruct (decide (0 <= n)); [by apply (nth_nonneg z L M R gte lte lo hi); [..|lia]|by apply (nth_neg z L M R gte lte lo hi); [..|lia]].
    + unfold vals. rewrite nth_of_fmap. destruct (nth_of M n) as [e|] eqn:E; [|done]. cbn [fmap option_fmap option_map mbind option_bind].
      apply nth_of_lookup in E as [i Hi]. apply (val_at_entry z (L ++ M ++ R) (length L + i) e H). rewrite lookup_app_r by lia. replace (length L + i - length L)%nat with i by lia.
      rewrite lookup_app_l; [done|by apply lookup_lt_Some in Hi].
  - exists None. split; [done|]. rewrite filter_none; [unfold nth_of; repeat case_match; done|]. by apply Forall_forall.
Qed.

Lemma has_range_ok z A gte lte lo hi : zrep z A -> tests (fun n _ => gte n) (fun a _ => negb (lo a)) -> tests (fun n _ => lte n) (fun a _ => hi a) ->
  closed (vals A) lo -> closed (vals A) hi -> exists b, has_range z gte lte = Some b /\ (b = false -> forall a, a ∈ vals A -> ~ in_range lo hi a).
Proof.
  intros H Hg Hl C1 C2. unfold has_range. rewrite (zr_tail _ _ H). destruct A as [|y A _] using rev_ind; [exists false; split; [done|]; intros _ a Ha; by apply not_elem_of_nil in Ha|].
  rewrite last_snoc. cbn [fmap option_fmap option_map]. pose proof (zr_sorted _ _ H) as Hso.
  destruct (node_of z _ _ y (zr_links _ _ H) (middle_entry A [] y)) as (n & -> & He & Hs & _). cbn [mbind option_bind].
  pose proof (Hg n 0 _ He) as Egt. cbn in Egt. rewrite Egt, Hs, negb_involutive. fold (ev y).
  destruct (lo (ev y)) eqn:Elo.
  { exists false. split; [done|]. intros _ a Ha [Ea _]. apply list_elem_of_fmap in Ha as (e & -> & He'). apply elem_of_app in He' as [He'|He'].
    - rewrite (C1 (ev e) (ev y)) in Ea; [done| | | |done]; [apply list_elem_of_fmap; exists e; split; [done|]; apply elem_of_app; by left|
        apply list_elem_of_fmap; exists y; split; [done|]; apply elem_of_app; right; by left|].
      unfold vals in Hso. rewrite fmap_app in Hso. apply ksorted_app in Hso as (_ & _ & Hso). apply Hso; [apply list_elem_of_fmap; by exists e|by left].
    - apply list_elem_of_singleton in He' as ->. congruence. }
  pose proof (lk_lev _ _ _ _ (zr_links _ _ H)). destruct (next_of z [] (A ++ [y]) (header z) ZSKIPLIST_MAXLEVEL (zr_links _ _ H) eq_refl ltac:(unfold ZSKIPLIST_MAXLEVEL; lia)) as [k ->].
  cbn [mbind option_bind]. destruct (A ++ [y]) as [|x B] eqn:EB; [by destruct A|]. cbn [head fmap option_fmap option_map].
  destruct (node_of z _ _ x (zr_links _ _ H) (middle_entry [] B x)) as (n' & -> & He' & Hs' & _). cbn [mbind option_bind].
  pose proof (Hl n' 0 _ He') as Elt. cbn in Elt. rewrite Elt, Hs'. fold (ev x). exists (hi (ev x)). split; [done|]. intros Ehi a Ha [_ Ea].
  apply list_elem_of_fmap in Ha as (e & -> & He2). apply elem_of_cons in He2 as [->|He2]; [congruence|].
  rewrite (C2 (ev x) (ev e)) in Ehi; [done|by left|right; apply list_elem_of_fmap; by exists e| |done].
  apply StronglySorted_inv in Hso as [_ Hso]. by apply (proj1 (Forall_forall _ _) Hso), list_elem_of_fmap; exists e.
Qed.

Lemma gte_score_tests range : tests (fun n _ => gte_score range n) (fun a _ => negb (below_score range a)).
Proof. intros n r e _. unfold below_score, gte_score. by rewrite negb_involutive. Qed.
Lemma lte_score_tests range : tests (fun n _ => lte_score range n) (fun a _ => upto_score range a).
Proof. by intros n r e _. Qed.
Lemma gte_lex_tests range : tests (fun n _ => gte_lex range n) (fun a _ => negb (below_lex range a)).
Proof. intros n r e He. unfold below_lex, gte_lex. by rewrite He, negb_involutive. Qed.
Lemma lte_lex_tests range : tests (fun n _ => lte_lex range n) (fun a _ => upto_lex range a).
Proof. intros n r e He. unfold lte_lex. by rewrite He. Qed.

(** [zslIsInRange]: when it is false no value is in the range, and when it is true
    the values below the range are not above it. *)
Lemma zslIsInRange_ok z A range : zrep z A -> exists b, zslIsInRange z range = Some b /\ range_test (vals A) (below_score range) (upto_score range) b.
Proof.
  intros H. unfold zslIsInRange. set (empty := _ || _). destruct empty eqn:E; unfold empty, dlt, deq in E.
  - exists false. split; [done|]. intros a _ [E1 E2]. unfold below_score, upto_score, zslValueGteMin, zslValueLteMax, dlt, dle in *. destruct (minex range), (maxex range); lia.
  - destruct (has_range_ok z A _ _ _ _ H (gte_score_tests range) (lte_score_tests range) (below_score_closed _ _) (upto_score_closed _ _)) as (b & -> & Hb).
    exists b. split; [done|]. destruct b; [|exact (Hb eq_refl)]. intros a _. unfold below_score, upto_score, zslValueGteMin, zslValueLteMax, dlt, dle in *. destruct (minex range), (maxex range); lia.
Qed.

Lemma sdscmplex_trans a b c : sdscmplex a b = Lt -> sdscmplex b c = Lt -> sdscmplex a c = Lt.
Proof. destruct a, b, c; try done. apply lex_trans. Qed.
Lemma sdscmplex_eq a b : sdscmplex a b = Eq -> a = b.
Proof. destruct a, b; try done. cbn. intros E. f_equal. by apply lex_eq. Qed.
Lemma sdscmplex_antisym a b : sdscmplex b a = CompOpp (sdscmplex a b).
Proof. destruct a, b; try done. apply lex_antisym. Qed.

Lemma zslIsInLexRange_ok z A range : zrep z A -> one_score (vals A) ->
  exists b, zslIsInLexRange z range = Some b /\ range_test (vals A) (below_lex range) (upto_lex range) b.
Proof.
  intros H Hone. destruct (has_range_ok z A _ _ _ _ H (gte_lex_tests range) (lte_lex_tests range) (below_lex_closed _ _ Hone) (upto_lex_closed _ _ Hone)) as (b & Hr & Hb).
  unfold zslIsInLexRange. destruct range as [mi ma ex1 ex2]. unfold below_lex, upto_lex, zslLexValueGteMin, zslLexValueLteMax in *. cbn [lmin lmax lminex lmaxex] in *.
  assert (Hfalse : forall a : val, sdscmplex mi ma = Gt \/ sdscmplex mi ma = Eq /\ ex1 || ex2 = true ->
    ~ in_range (fun a => negb match sdscmplex (Lstring a.2) mi with Eq => negb ex1 | Lt => false | Gt => true end)
               (fun a => match sdscmplex (Lstring a.2) ma with Eq => negb ex2 | Lt => true | Gt => false end) a).
  { intros a Hc [E1 E2]. rewrite negb_false_iff in E1. pose proof (sdscmplex_antisym (Lstring a.2) mi) as Han.
    destruct (sdscmplex (Lstring a.2) mi) eqn:Em; [|done|]; destruct (sdscmplex (Lstring a.2) ma) eqn:Ea; try done; cbn in Han.
    - apply sdscmplex_eq in Em as <-. rewrite Ea in Hc. destruct Hc as [|[_ Hc]]; [done|]. destruct ex1, ex2; done.
    - apply sdscmplex_eq in Em as <-. rewrite Ea in Hc. by destruct Hc as [|[? _]].
    - apply sdscmplex_eq in Ea as <-. rewrite Han in Hc. by destruct Hc as [|[? _]].
    - rewrite (sdscmplex_trans _ _ _ Han Ea) in Hc. by destruct Hc as [|[? _]]. }
  assert (Htrue : forall a : val, sdscmplex mi ma = Lt \/ sdscmplex mi ma = Eq /\ ex1 || ex2 = false ->
    negb match sdscmplex (Lstring a.2) mi with Eq => negb ex1 | Lt => false | Gt => true end = true ->
    match sdscmplex (Lstring a.2) ma with Eq => negb ex2 | Lt => true | Gt => false end = true).
  { intros a Hc. destruct (sdscmplex (Lstring a.2) mi) eqn:Em; [| |done]; intros Hx.
    - apply sdscmplex_eq in Em as <-. destruct Hc as [->|[-> Hc]]; [done|]. by destruct ex1, ex2.
    - destruct Hc as [Hc|[Hc Hex]]; [by rewrite (sdscmplex_trans _ _ _ Em Hc)|]. apply sdscmplex_eq in Hc as <-. by rewrite Em. }
  destruct (sdscmplex mi ma) eqn:Ec.
  - rewrite bool_decide_eq_true_2 by done. cbn [andb]. destruct (ex1 || ex2) eqn:Eex; [exists false; split; [done|]; intros a _; apply Hfalse; by right|].
    exists b. split; [done|]. destruct b; [|exact (Hb eq_refl)]. intros a _. apply Htrue. by right.
  - rewrite bool_decide_eq_false_2 by done. cbn [andb]. exists b. split; [done|]. destruct b; [|exact (Hb eq_refl)]. intros a _. apply Htrue. by left.
  - exists false. split; [done|]. intros a _. apply Hfalse. by left.
Qed.

(** * Queries *)

(** C31. Ranks: on a skip list that holds the sorted values [vals A], [zslGetRank] is
    the rank from 1 of the key, or 0 when it is not there, and
    [zslGetElementByRank] gives the node with the value of that rank, or NULL
    past the end, the header being rank 0. *)
Theorem zsl_ranks z A s el : zrep z A -> zslGetRank z s el = Some (rank_from 1 (s, el) (vals A)) /\
  forall rank, exists r, zslGetElementByRank z (Z.of_nat (S rank)) = Some r /\ (a ← r; val_at (mem z) a) = vals A !! rank.
Proof.
  intros H. split; [by apply zslGetRank_ok|]. intros rank. eexists. split; [by apply zslGetElementByRank_ok|]. rewrite positions_S. unfold vals. rewrite list_lookup_fmap.
  destruct (A !! rank) as [e|] eqn:He; [|done]. cbn [fmap option_fmap option_map mbind option_bind fst]. by apply (val_at_entry z A rank).
Qed.

(** Ranges: [zslNthInRange] gives the n-th of the values whose score is in the
    range, counted from the end for a negative n, and NULL when there are not that
    many; and so does [zslNthInLexRange] for ranges of elements when all the scores are
    the same.  This holds for the walk by nodes and the jump by rank that the code
    takes for small and for large offsets. *)
Theorem zsl_nth_in_range z A n : zrep z A -> - 2 ^ 62 < n < 2 ^ 62 ->
  (forall range, exists r, zslNthInRange z range n = Some r /\
    (a ← r; val_at (mem z) a) = nth_of (filter (in_range (below_score range) (upto_score range)) (vals A)) n) /\
  (forall range, one_score (vals A) -> exists r, zslNthInLexRange z range n = Some r /\
    (a ← r; val_at (mem z) a) = nth_of (filter (in_range (below_lex range) (upto_lex range)) (vals A)) n).
Proof.
  intros H Hn. split; intros range.
  - destruct (zslIsInRange_ok z A range H) as (b & Hr & Hb). unfold zslNthInRange. rewrite Hr.
    apply nth_in_range_ok; [done|apply gte_score_tests|apply lte_score_tests|apply below_score_closed|apply upto_score_closed|done|done].
  - intros Hone. destruct (zslIsInLexRange_ok z A range H Hone) as (b & Hr & Hb). unfold zslNthInLexRange. rewrite Hr.
    apply nth_in_range_ok; [done|apply gte_lex_tests|apply lte_lex_tests|by apply below_lex_closed|by apply upto_lex_closed|done|done].
Qed.

(** * Sequences of operations *)

Inductive op :=
| OInsert (s : Z) (el : bytes) (rs : list Z)
| ODelete (s : Z) (el : bytes) (keep : bool)
| OUpdate (cur : Z) (el : bytes) (new : Z) (rs : list Z)
| ODelScore (range : zrangespec)
| ODelLex (range : zlexrangespec)
| ODelRank (start end_ : nat).

(** The list after an operation, and the elements that left it. *)
Definition spec (v : list val) (o : op) : list val * list bytes :=
  match o with
  | OInsert s el _ => (insert (s, el) v, [])
  | ODelete s el _ => (remove (s, el) v, if decide (Exists (fun a => same (s, el) a = true) v) then [el] else [])
  | OUpdate cur el new _ => (insert (new, el) (remove (cur, el) v), [])
  | ODelScore range => (filter (fun a => ~ in_range (below_score range) (upto_score range) a) v, (filter (in_range (below_score range) (upto_score range)) v).*2)
  | ODelLex range => (filter (fun a => ~ in_range (below_lex range) (upto_lex range) a) v, (filter (in_range (below_lex range) (upto_lex range)) v).*2)
  | ODelRank start end_ => (take (start - 1) v ++ drop end_ v, (take (end_ + 1 - start) (drop (start - 1) v)).*2)
  end.

(** What the callers in t_zset.c make sure of: the element to insert is new, the one
    to update is there, scores are not NaN, lexicographic ranges are for equal scores. *)
Definition legal (v : list val) (o : op) : Prop :=
  match o with
  | OInsert s el rs => isnan s = false /\ is_Some (zslRandomLevel rs) /\ (el ∉ v.*2) /\ Z.of_nat (length v) < 2 ^ 62
  | OUpdate cur el new rs => isnan new = false /\ is_Some (zslRandomLevel rs) /\ exists a, a ∈ v /\ same (cur, el) a = true
  | ODelLex _ => one_score v
  | ODelRank start end_ => (1 <= start <= end_ + 1)%nat
  | _ => True
  end.

Section Runs.
Variable alloc : gset addr -> addr.

Definition exec (z : zskiplist) (o : op) : option (zskiplist * list bytes) :=
  match o with
  | OInsert s el rs => '(z, _) ← zslInsert alloc z s el rs; Some (z, [])
  | ODelete s el keep => '(z, r) ← zslDelete z s el keep; Some (z, if bool_decide (r <> None) then [el] else [])
  | OUpdate cur el new rs => '(z, _) ← zslUpdateScore alloc z cur el new rs; Some (z, [])
  | ODelScore range => zslDeleteRangeByScore z range
  | ODelLex range => zslDeleteRangeByLex z range
  | ODelRank start end_ => zslDeleteRangeByRank z (Z.of_nat start) (Z.of_nat end_)
  end.

Fixpoint run (z : zskiplist) (ops : list op) : option (zskiplist * list (list bytes)) :=
  match ops with
  | [] => Some (z, [])
  | o :: ops => '(z, out) ← exec z o; '(z, outs) ← run z ops; Some (z, out :: outs)
  end.

Fixpoint spec_run (v : list val) (ops : list op) : list val * list (list bytes) :=
  match ops with
  | [] => (v, [])
  | o :: ops => let '(v, out) := spec v o in let '(v, outs) := spec_run v ops in (v, out :: outs)
  end.

Fixpoint all_legal (v : list val) (ops : list op) : Prop :=
  match ops with [] => True | o :: ops => legal v o /\ all_legal (spec v o).1 ops end.

Hypothesis alloc_fresh : forall X, alloc X ∉ X.

Lemma vals_ele A : (vals A).*2 = ee <$> A.
Proof. unfold vals. by rewrite <- list_fmap_compose. Qed.

Lemma zsl_exec_ok z A o : zrep z A -> legal (vals A) o -> exists z' A', exec z o = Some (z', (spec (vals A) o).2) /\ zrep z' A' /\ vals A' = (spec (vals A) o).1.
Proof.
  intros H Hl. destruct o as [s el rs|s el keep|cur el new rs|range|range|start end_]; cbn [exec spec legal fst snd] in *.
  - destruct Hl as (Hn & [lev Hrs] & Hin & Hlen). rewrite vals_ele in Hin. unfold vals in Hlen. rewrite length_fmap in Hlen.
    destruct (zslInsert_ok alloc alloc_fresh z A s el rs lev H Hn Hrs Hin ltac:(lia)) as (z' & L & R & x & -> & -> & Hz & F1 & F2 & _). cbn [mbind option_bind].
    eexists _, _. split_and!; [done|exact Hz|]. unfold vals. rewrite !fmap_app, fmap_cons. symmetry. by apply insert_split; apply Forall_fmap.
  - destruct (zslDelete_ok z A s el keep H) as (z' & r & A' & -> & Hz & Hv & Hr). cbn [mbind option_bind]. exists z', A'. split_and!; [|done|done]. do 2 f_equal.
    destruct (decide (Exists _ (vals A))) as [Hx|Hx]; rewrite Exists_exists in Hx; [by rewrite bool_decide_eq_true_2 by (by apply Hr)|by rewrite bool_decide_eq_false_2 by (by rewrite Hr)].
  - destruct Hl as (Hn & [lev Hrs] & Hin). destruct (zslUpdateScore_ok alloc alloc_fresh z A cur el new rs lev H Hin Hn Hrs) as (z' & y & A' & -> & Hz & Hv).
    cbn [mbind option_bind]. by exists z', A'.
  - by apply zslDeleteRangeByScore_ok.
  - by apply zslDeleteRangeByLex_ok.
  - destruct (zslDeleteRangeByRank_ok z A start end_ H) as (z' & -> & Hz); [lia|lia|]. eexists _, _. split_and!; [|exact Hz|].
    + do 2 f_equal. unfold vals. rewrite <- fmap_drop, <- fmap_take. by rewrite <- list_fmap_compose.
    + unfold vals. by rewrite fmap_app, fmap_take, fmap_drop.
Qed.

Lemma zsl_run_ok ops z A : zrep z A -> all_legal (vals A) ops -> exists z' A', run z ops = Some (z', (spec_run (vals A) ops).2) /\ zrep z' A' /\ vals A' = (spec_run (vals A) ops).1.
Proof.
  revert z A. induction ops as [|o ops IH]; intros z A H Hl; [by exists z, A|]. destruct Hl as [Ho Hl]. cbn [run spec_run].
  destruct (zsl_exec_ok z A o H Ho) as (z1 & A1 & -> & H1 & E1). cbn [mbind option_bind]. rewrite <- E1 in Hl. destruct (IH z1 A1 H1 Hl) as (z2 & A2 & -> & H2 & E2). cbn [mbind option_bind].
  rewrite E1 in E2 |- *. destruct (spec (vals A) o) as [v out]. cbn [fst snd] in *. destruct (spec_run v ops) as [v' outs]. cbn [fst snd] in *. by exists z2, A2.
Qed.

Lemma zslCreate_ok : zrep (zslCreate alloc) [].
Proof.
  split; cbn [zslCreate zslCreateNode header tail zlen zlevel mem]; [|done|done|by left|constructor|constructor]. unfold ZSKIPLIST_MAXLEVEL.
  split; [by apply NoDup_singleton|constructor|unfold ZSKIPLIST_MAXLEVEL; lia| |done|done| | |done].
  - exists 0. unfold info_at. by rewrite lookup_insert_eq.
  - intros [|p] a h l Hp Hh Hl; [|done]. injection Hp as <- <-. assert (l = 0%nat) as -> by lia. unfold level_at. by rewrite lookup_insert_eq.
  - intros l Hl. exists 0. unfold level_at. rewrite lookup_insert_eq. cbn [mbind option_bind level]. by rewrite lookup_replicate_2 by (unfold ZSKIPLIST_MAXLEVEL in *; lia).
Qed.

(** C11. Skip lists are sorted lists: any sequence of insertions, deletions, score
    updates and deletions of ranges by score, by element and by rank, from an empty
    skip list, whatever levels are drawn and wherever nodes are allocated, follows
    no pointer to freed or missing memory, keeps the invariant of the links,
    spans, back pointers, tail, length and level, and leaves the values sorted by
    score and element that the operations on sorted lists leave; the deletions
    report exactly the elements that left the list. *)
Theorem zsl_refines_sorted_list ops : all_legal [] ops ->
  exists z A, run (zslCreate alloc) ops = Some (z, (spec_run [] ops).2) /\ zrep z A /\ vals A = (spec_run [] ops).1.
Proof. intros Hl. by apply (zsl_run_ok ops (zslCreate alloc) [] zslCreate_ok). Qed.

End Runs.

(** * A concrete run *)

Module Sample.

(** Scores 1.0, 2.0, 3.0 and -0.0; draws for two levels, and for one. *)
Definition d1 : Z := 4607182418800017408.
Definition d2 : Z := 4611686018427387904.
Definition d3 : Z := 4613937818241073152.
Definition dm0 : Z := 9223372036854775808.

Definition ops : list op :=
  [OInsert d2 [98] [0; 2147483647]; OInsert d1 [97] [2147483647]; OInsert d2 [99] [0; 0; 2147483647];
   OUpdate d1 [97] d3 [2147483647]; OInsert dm0 [100] [2147483647]; ODelete 0 [100] false; ODelRank 1 1].

Lemma fresh_alloc : forall X : gset addr, fresh X ∉ X.
Proof. intros X. apply is_fresh. Qed.

Lemma insert_legal v s el rs : isnan s = false -> is_Some (zslRandomLevel rs) -> bool_decide (el ∉ v.*2) = true -> Z.of_nat (length v) < 2 ^ 62 -> legal v (OInsert s el rs).
Proof. intros H1 H2 H3%bool_decide_eq_true_1 H4. done. Qed.

Lemma legal_ops : all_legal [] ops.
Proof.
  cbn [all_legal ops]. split_and!; try (apply insert_legal; [by vm_compute|by eexists|by vm_compute|by vm_compute]); [| |cbn; lia|done].
  - split_and!; [done|by eexists|]. exists (d1, [97]). split; [vm_compute; by left|done].
  - done.
Qed.

Lemma zsl_refines_sorted_list_witness : exists z A, run fresh (zslCreate fresh) ops = Some (z, [[]; []; []; []; []; [[100]]; [[98]]]) /\
  zrep z A /\ vals A = [(d2, [99]); (d3, [97])].
Proof. apply (zsl_refines_sorted_list fresh fresh_alloc ops), legal_ops. Defined.

(** A skip list with three values, two of them with the same score. *)
Definition three : list op := [OInsert d2 [98] [0; 2147483647]; OInsert d1 [97] [2147483647]; OInsert d2 [99] [0; 0; 2147483647]].

Lemma three_ok : exists z A, zrep z A /\ vals A = [(d1, [97]); (d2, [98]); (d2, [99])].
Proof.
  destruct (zsl_run_ok fresh fresh_alloc three (zslCreate fresh) [] (zslCreate_ok fresh)) as (z & A & _ & Hz & Ev).
  - cbn [all_legal three]. split_and!; [apply insert_legal; [by vm_compute|by eexists|by vm_compute|by vm_compute]..|done].
  - by exists z, A.
Qed.

Lemma zsl_ranks_witness : exists z, zslGetRank z d2 [99] = Some 3 /\ exists r, zslGetElementByRank z 2 = Some r /\ (a ← r; val_at (mem z) a) = Some (d2, [98]).
Proof.
  destruct three_ok as (z & A & Hz & Ev). exists z. destruct (zsl_ranks z A d2 [99] Hz) as [H1 H2]. rewrite Ev in H1, H2. split; [exact H1|]. exact (H2 1%nat).
Defined.

Lemma zsl_nth_in_range_witness : exists z r, zslNthInRange z (mkRange d1 d2 true false) (-2) = Some r /\ (a ← r; val_at (mem z) a) = Some (d2, [98]).
Proof.
  destruct three_ok as (z & A & Hz & Ev). exists z. destruct (zsl_nth_in_range z A (-2) Hz ltac:(lia)) as [H1 _]. rewrite Ev in H1. exact (H1 (mkRange d1 d2 true false)).
Defined.

End Sample.

End ZslRange.
