(* ===== verification/Resp.v ===== *)
(** Reading requests: the protocol parser of networking.c.

    A client has a query buffer, the position of the parser in it, and the state
    of a request of which only a part has been received.  The buffer is its
    bytes (Sds.v shows that the string operations compute on bytes); [strchr]
    stops at a null byte as it does in C.  A pointer out of the buffer, a write
    out of the argument array and a failed assertion are [None]. *)

From S2P Require Import Prelude Util Sds SdsSpec SdsSplit.

Module Resp.
Import Util SdsSpec SdsSplit.

Definition PROTO_INLINE_MAX_SIZE : Z := 1024 * 64.
Definition PROTO_MBULK_BIG_ARG : Z := 1024 * 32.
Definition INT_MAX : Z := 2147483647.

Inductive reqtype_t := PROTO_REQ_INLINE | PROTO_REQ_MULTIBULK.

(** The values of [read_error]. *)
Inductive read_error_t :=
| CLIENT_READ_TOO_BIG_INLINE_REQUEST | CLIENT_READ_UNBALANCED_QUOTES | CLIENT_READ_MASTER_USING_INLINE_PROTOCAL
| CLIENT_READ_TOO_BIG_MBULK_COUNT_STRING | CLIENT_READ_TOO_BIG_BUCK_COUNT_STRING | CLIENT_READ_EXPECTED_DOLLAR
| CLIENT_READ_INVALID_BUCK_LENGTH | CLIENT_READ_UNAUTH_BUCK_LENGTH | CLIENT_READ_INVALID_MULTIBUCK_LENGTH
| CLIENT_READ_UNAUTH_MBUCK_COUNT | CLIENT_READ_CONN_DISCONNECTED | CLIENT_READ_CONN_CLOSED | CLIENT_READ_REACHED_MAX_QUERYBUF.

(** The flags of the client and the settings of the server that the parser looks at. *)
Record config := mkConfig {
  master : bool; slave : bool; authRequired : bool; proto_max_bulk_len : Z; client_max_querybuf_len : Z; mstate_sums : Z; unixtime : Z
}.

(** The fields of a client: [argc] is the length of [argv], [argv_len] the size of
    the array; [halted] stands for the flags that stop the loop of
    [processInputBuffer]. *)
Record client := mkClient {
  querybuf : bytes; qb_pos : Z; reqtype : option reqtype_t; argv : list bytes; argv_len : Z; argv_len_sum : Z;
  multibulklen : Z; bulklen : Z; net_input_bytes_curr_cmd : Z; read_error : option read_error_t; repl_ack_time : Z; halted : bool
}.

Definition new_client : client := mkClient [] 0 None [] 0 0 0 (-1) 0 None 0 false.

Definition sdslen (c : client) : Z := Z.of_nat (length (querybuf c)).
Definition argc (c : client) : Z := Z.of_nat (length (argv c)).

Definition set_error (c : client) (e : read_error_t) : client :=
  mkClient (querybuf c) (qb_pos c) (reqtype c) (argv c) (argv_len c) (argv_len_sum c) (multibulklen c) (bulklen c)
    (net_input_bytes_curr_cmd c) (Some e) (repl_ack_time c) (halted c).
Definition clear_error (c : client) : client :=
  mkClient (querybuf c) (qb_pos c) (reqtype c) (argv c) (argv_len c) (argv_len_sum c) (multibulklen c) (bulklen c)
    (net_input_bytes_curr_cmd c) None (repl_ack_time c) (halted c).
Definition set_pos (c : client) (p : Z) : client :=
  mkClient (querybuf c) p (reqtype c) (argv c) (argv_len c) (argv_len_sum c) (multibulklen c) (bulklen c)
    (net_input_bytes_curr_cmd c) (read_error c) (repl_ack_time c) (halted c).
Definition set_buf (c : client) (b : bytes) (p : Z) : client :=
  mkClient b p (reqtype c) (argv c) (argv_len c) (argv_len_sum c) (multibulklen c) (bulklen c)
    (net_input_bytes_curr_cmd c) (read_error c) (repl_ack_time c) (halted c).
Definition set_reqtype (c : client) (r : option reqtype_t) : client :=
  mkClient (querybuf c) (qb_pos c) r (argv c) (argv_len c) (argv_len_sum c) (multibulklen c) (bulklen c)
    (net_input_bytes_curr_cmd c) (read_error c) (repl_ack_time c) (halted c).
Definition set_argv (c : client) (a : list bytes) (len sum : Z) : client :=
  mkClient (querybuf c) (qb_pos c) (reqtype c) a len sum (multibulklen c) (bulklen c)
    (net_input_bytes_curr_cmd c) (read_error c) (repl_ack_time c) (halted c).
Definition set_bulk (c : client) (m b : Z) : client :=
  mkClient (querybuf c) (qb_pos c) (reqtype c) (argv c) (argv_len c) (argv_len_sum c) m b
    (net_input_bytes_curr_cmd c) (read_error c) (repl_ack_time c) (halted c).
Definition set_net (c : client) (n : Z) : client :=
  mkClient (querybuf c) (qb_pos c) (reqtype c) (argv c) (argv_len c) (argv_len_sum c) (multibulklen c) (bulklen c)
    n (read_error c) (repl_ack_time c) (halted c).
Definition set_ack (c : client) (t : Z) : client :=
  mkClient (querybuf c) (qb_pos c) (reqtype c) (argv c) (argv_len c) (argv_len_sum c) (multibulklen c) (bulklen c)
    (net_input_bytes_curr_cmd c) (read_error c) t (halted c).
Definition set_halted (c : client) (b : bool) : client :=
  mkClient (querybuf c) (qb_pos c) (reqtype c) (argv c) (argv_len c) (argv_len_sum c) (multibulklen c) (bulklen c)
    (net_input_bytes_curr_cmd c) (read_error c) (repl_ack_time c) b.

(** [strchr(s, ch)], as an offset from [s]. *)
Fixpoint strchr_at (s : bytes) (ch : Z) : option nat :=
  match s with [] => None | b :: s => if b =? ch then Some 0%nat else if b =? 0 then None else S <$> strchr_at s ch end.

(** The bytes from the position of the parser; the position may be the terminator. *)
Definition unparsed (c : client) : option bytes :=
  _ ← guard ((0 <=? qb_pos c) && (qb_pos c <=? sdslen c));
  Some (drop (Z.to_nat (qb_pos c)) (querybuf c)).

Definition CR : Z := 13.
Definition LF : Z := 10.
Definition STAR : Z := 42.
Definition DOLLAR : Z := 36.

Section Parser.
Variable cfg : config.

(** * Inline requests *)

(** The result is whether the function returns [C_OK]. *)
Definition processInlineBuffer (c : client) : option (client * bool) :=
  rest ← unparsed c;
  match strchr_at rest LF with
  | None => Some (if sdslen c - qb_pos c >? PROTO_INLINE_MAX_SIZE then set_error c CLIENT_READ_TOO_BIG_INLINE_REQUEST else c, false)
  | Some n =>
    before ← (if bool_decide (n = 0%nat) then Some 0 else rest !! (n - 1)%nat);
    let '(querylen, linefeed_chars) := if negb (bool_decide (n = 0%nat)) && (before =? CR) then (n - 1, 2)%nat else (n, 1%nat) in
    let aux := take querylen rest in
    r ← sdssplitargs (c_string aux);
    match r with
    | None => Some (set_error c CLIENT_READ_UNBALANCED_QUOTES, false)
    | Some args =>
      let c := if bool_decide (querylen = 0%nat) && slave cfg then set_ack c (unixtime cfg) else c in
      if negb (bool_decide (querylen = 0%nat)) && master cfg then Some (set_error c CLIENT_READ_MASTER_USING_INLINE_PROTOCAL, false)
      else
        let c := set_pos c (qb_pos c + Z.of_nat querylen + Z.of_nat linefeed_chars) in
        let n := Z.of_nat (length args) in
        let '(len, sum) := if negb (n =? 0) then (if n >? argv_len c then n else argv_len c, 0) else (argv_len c, argv_len_sum c) in
        let c := set_argv c args len (sum + Z.of_nat (sum_list (length <$> args))) in
        Some (set_net c (argv_len_sum c + (argc c - 1) + 2), true)
    end
  end.

(** * Multi bulk requests *)

(** A line [<type><number>\r\n] at the position of the parser. *)
Inductive line := NoLine | Partial | Line (text : bytes) (next : Z).

Definition read_line (c : client) : option line :=
  rest ← unparsed c;
  match strchr_at rest CR with
  | None => Some NoLine
  | Some n =>
    if Z.of_nat n >? sdslen c - qb_pos c - 2 then Some Partial
    else Some (Line (take n rest) (qb_pos c + Z.of_nat n + 2))
  end.

(** The result of a part of [processMultibulkBuffer]: the value it returns, or that
    it goes on. *)
Definition mbulk_count (c : client) : option (client * option bool) :=
  _ ← guard (argc c =? 0);
  l ← read_line c;
  match l with
  | NoLine => Some (if sdslen c - qb_pos c >? PROTO_INLINE_MAX_SIZE then set_error c CLIENT_READ_TOO_BIG_MBULK_COUNT_STRING else c, Some false)
  | Partial => Some (c, Some false)
  | Line text next =>
    match text with
    | ty :: num =>
      _ ← guard (ty =? STAR);
      match string2ll num with
      | None => Some (set_error c CLIENT_READ_INVALID_MULTIBUCK_LENGTH, Some false)
      | Some ll =>
        if ll >? INT_MAX then Some (set_error c CLIENT_READ_INVALID_MULTIBUCK_LENGTH, Some false)
        else if (ll >? 10) && authRequired cfg then Some (set_error c CLIENT_READ_UNAUTH_MBUCK_COUNT, Some false)
        else
          let c := set_pos c next in
          if ll <=? 0 then Some (c, Some true)
          else
            let c := set_bulk c ll (bulklen c) in
            let len := if (multibulklen c >? argv_len c) || (argv_len c >? 1024) then Z.min (multibulklen c) 1024 else argv_len c in
            let c := set_argv c (argv c) len 0 in
            Some (set_net c (net_input_bytes_curr_cmd c + (Z.of_nat (length num) + 3)), None)
      end
    | [] => None
    end
  end.

(** A part of the loop: the value it returns, that it goes on, or a [break]. *)
Inductive outcome := Return (c : client) (ok : bool) | Next (c : client) | Break (c : client).

Definition bulk_length (c : client) : option outcome :=
  l ← read_line c;
  match l with
  | NoLine =>
    Some (if sdslen c - qb_pos c >? PROTO_INLINE_MAX_SIZE then Return (set_error c CLIENT_READ_TOO_BIG_BUCK_COUNT_STRING) false else Break c)
  | Partial => Some (Break c)
  | Line text next =>
    match text with
    | ty :: num =>
      if negb (ty =? DOLLAR) then Some (Return (set_error c CLIENT_READ_EXPECTED_DOLLAR) false)
      else
        match string2ll num with
        | None => Some (Return (set_error c CLIENT_READ_INVALID_BUCK_LENGTH) false)
        | Some ll =>
          if (ll <? 0) || (negb (master cfg) && (ll >? proto_max_bulk_len cfg)) then Some (Return (set_error c CLIENT_READ_INVALID_BUCK_LENGTH) false)
          else if (ll >? 16384) && authRequired cfg then Some (Return (set_error c CLIENT_READ_UNAUTH_BUCK_LENGTH) false)
          else
            let c := set_pos c next in
            let c :=
              if negb (master cfg) && (ll >=? PROTO_MBULK_BIG_ARG) && (sdslen c - qb_pos c <=? ll + 2) then
                set_buf c (drop (Z.to_nat (qb_pos c)) (querybuf c)) 0
              else c in
            Some (Next (set_net (set_bulk c (multibulklen c) ll) (net_input_bytes_curr_cmd c + (Z.of_nat (length num) + 3))))
        end
    | [] => Some (Return (set_error c CLIENT_READ_EXPECTED_DOLLAR) false)
    end
  end.

Definition bulk_argument (c : client) : option outcome :=
  if sdslen c - qb_pos c <? bulklen c + 2 then Some (Break c)
  else
    len ← (if argc c >=? argv_len c then
        _ ← guard (negb (argv_len c =? 0));
        Some (Z.min (if argv_len c <? INT_MAX / 2 then argv_len c * 2 else INT_MAX) (argc c + multibulklen c))
      else Some (argv_len c));
    _ ← guard (argc c <? len);
    if negb (master cfg) && (qb_pos c =? 0) && (bulklen c >=? PROTO_MBULK_BIG_ARG) && (sdslen c =? bulklen c + 2) then
      let c' := set_argv c (argv c ++ [take (length (querybuf c) - 2) (querybuf c)]) len (argv_len_sum c + bulklen c) in
      Some (Next (set_bulk (set_buf c' [] 0) (multibulklen c - 1) (-1)))
    else
      rest ← unparsed c;
      let c' := set_argv c (argv c ++ [take (Z.to_nat (bulklen c)) rest]) len (argv_len_sum c + bulklen c) in
      Some (Next (set_bulk (set_pos c' (qb_pos c + (bulklen c + 2))) (multibulklen c - 1) (-1))).

(** [while(c->multibulklen) ...] and what follows it. *)
Definition mbulk_end (c : client) : client * bool :=
  if multibulklen c =? 0 then (set_net c (net_input_bytes_curr_cmd c + (argv_len_sum c + argc c * 2)), true) else (c, false).

Fixpoint mbulk_loop (fuel : nat) (c : client) : option (client * bool) :=
  if multibulklen c =? 0 then Some (mbulk_end c)
  else match fuel with
  | O => None
  | S fuel =>
    o ← (if bulklen c =? -1 then bulk_length c else Some (Next c));
    match o with
    | Return c ok => Some (c, ok)
    | Break c => Some (mbulk_end c)
    | Next c =>
      o ← bulk_argument c;
      match o with
      | Return c ok => Some (c, ok)
      | Break c => Some (mbulk_end c)
      | Next c => mbulk_loop fuel c
      end
    end
  end.

Definition processMultibulkBuffer (c : client) : option (client * bool) :=
  '(c, r) ← (if multibulklen c =? 0 then mbulk_count c else Some (c, None));
  match r with
  | Some ok => Some (c, ok)
  | None =>
    _ ← guard (multibulklen c >? 0);
    mbulk_loop (S (length (querybuf c))) c
  end.

End Parser.

(** * The input buffer *)

(** What a command does to the client: go on, set a flag that stops the loop (the
    client is closing), block the client, which is then not reset, or free it. *)
Inductive verdict := Continue | Close | Block | Dead.

Section Input.

(** The execution of a command, with the commands executed before it, and the
    settings after these commands: a command may authenticate the client or queue a
    transaction. *)
Variable processCommand : list (list bytes) -> list bytes -> verdict.
Variable settings : list (list bytes) -> config.

(** [freeClientArgvInternal(c, 0)] and the fields of the request. *)
Definition reset_request (c : client) : client := set_bulk (set_reqtype (set_argv c [] (argv_len c) 0) None) 0 (-1).
Definition resetClientInternal (c : client) : client := set_net (reset_request c) 0.

(** A command that was executed: its arguments and its size on the network. *)
Definition executed : Type := list bytes * Z.

Definition processCommandAndResetClient (c : client) (done : list executed) : client * list executed * bool :=
  let done' := done ++ [(argv c, net_input_bytes_curr_cmd c)] in
  match processCommand (fst <$> done) (argv c) with
  | Continue => (resetClientInternal c, done', true)
  | Close => (set_halted (resetClientInternal c) true, done', true)
  | Block => (set_halted c true, done', true)
  | Dead => (c, done', false)
  end.

(** The loop of [processInputBuffer], for a client on the main thread that is not a
    master: the client, the commands, and whether the client is still there. *)
Fixpoint input_loop (fuel : nat) (c : client) (done : list executed) : option (client * list executed * bool) :=
  if negb (qb_pos c <? sdslen c) || halted c then Some (c, done, true)
  else match fuel with
  | O => None
  | S fuel =>
    first ← querybuf c !! Z.to_nat (qb_pos c);
    let ty := match reqtype c with Some t => t | None => if first =? STAR then PROTO_REQ_MULTIBULK else PROTO_REQ_INLINE end in
    let c := set_reqtype c (Some ty) in
    '(c, ok) ← match ty with PROTO_REQ_INLINE => processInlineBuffer (settings (fst <$> done)) c
      | PROTO_REQ_MULTIBULK => processMultibulkBuffer (settings (fst <$> done)) c end;
    if negb ok then Some (c, done, true)
    else if argc c =? 0 then input_loop fuel (reset_request c) done
    else
      let '(c, done, alive) := processCommandAndResetClient c done in
      if alive then input_loop fuel c done else Some (c, done, false)
  end.

Definition processInputBuffer (c : client) (done : list executed) : option (client * list executed * bool) :=
  '(c, done, alive) ← input_loop (S (length (querybuf c))) c done;
  if negb alive then Some (c, done, false)
  else if negb (qb_pos c =? 0) then Some (set_buf c (drop (Z.to_nat (qb_pos c)) (querybuf c)) 0, done, true)
  else Some (c, done, true).

(** The answer of the connection: bytes, none when it is closed, no data for now, or
    an error. *)
Inductive conn_read := Data (chunk : bytes) | Again | Disconnected.

(** [freeClientAsync] only sets the flag that closes the client. *)
Definition freeClientAsync (c : client) : client := set_halted c true.

(** [setProtocolError] sets the flag that closes the client; the replies and the logs
    are left out. *)
Definition handleClientReadError (c : client) : client :=
  match read_error c with
  | None | Some (CLIENT_READ_CONN_DISCONNECTED | CLIENT_READ_CONN_CLOSED | CLIENT_READ_REACHED_MAX_QUERYBUF) => c
  | Some _ => set_halted c true
  end.

(** The part of [readQueryFromClient] from the read to the label [done]. *)
Definition read_and_process (c : client) (r : conn_read) (done : list executed) : option (client * list executed * bool) :=
  match r with
  | Again => Some (c, done, true)
  | Disconnected => Some (freeClientAsync (set_error c CLIENT_READ_CONN_DISCONNECTED), done, true)
  | Data [] => Some (freeClientAsync (set_error c CLIENT_READ_CONN_CLOSED), done, true)
  | Data chunk =>
    let c := set_buf c (querybuf c ++ chunk) (qb_pos c) in
    let cfg := settings (fst <$> done) in
    let total := mstate_sums cfg + sdslen c in
    if negb (master cfg) && ((total >? client_max_querybuf_len cfg) || (total >? 1024 * 1024) && authRequired cfg)
    then Some (freeClientAsync (set_error c CLIENT_READ_REACHED_MAX_QUERYBUF), done, true)
    else processInputBuffer c done
  end.

(** After the label, the assertion is the one on a reusable query buffer. *)
Definition readQueryFromClient (c : client) (r : conn_read) (done : list executed) : option (client * list executed * bool) :=
  '(c, done, alive) ← read_and_process (clear_error c) r done;
  if alive : bool then
    _ ← guard (qb_pos c =? 0);
    Some (handleClientReadError c, done, true)
  else Some (c, done, false).

(** The reads of a connection. *)
Fixpoint read_all (c : client) (reads : list conn_read) (done : list executed) : option (client * list executed * bool) :=
  match reads with
  | [] => Some (c, done, true)
  | r :: reads =>
    '(c, done, alive) ← readQueryFromClient c r done;
    if negb alive then Some (c, done, false) else read_all c reads done
  end.

End Input.

End Resp.
