(* ===== verification/RespSpec.v ===== *)
(** The protocol parser of networking.c: it ends on every input, stays in the query
    buffer and keeps its invariant. *)

From S2P Require Import Prelude Util Sds SdsSpec SdsSplit Resp.

Module RespSpec.
Import Util SdsSpec SdsSplit Resp.

(** * Searching for the end of a line *)

Lemma strchr_at_Some s ch n : strchr_at s ch = Some n -> s !! n = Some ch /\ Forall (fun b => b <> ch /\ b <> 0) (take n s).
Proof.
  revert n. induction s as [|b s IH]; intros n; [done|]. cbn [strchr_at]. destruct (Z.eqb_spec b ch) as [->|Hb]; [by intros [= <-]|].
  destruct (Z.eqb_spec b 0) as [|H0]; [done|]. destruct (strchr_at s ch) as [k|]; [|done]. intros [= <-]. destruct (IH k eq_refl) as [H1 H2].
  split; [done|]. cbn. by constructor.
Qed.

Lemma strchr_at_found a ch b : Forall (fun x => x <> ch /\ x <> 0) a -> strchr_at (a ++ ch :: b) ch = Some (length a).
Proof.
  induction 1 as [|x a [H1 H2] _ IH]; cbn [app strchr_at]; [by rewrite Z.eqb_refl|].
  rewrite (proj2 (Z.eqb_neq x ch)), (proj2 (Z.eqb_neq x 0)) by done. by rewrite IH.
Qed.

Lemma strchr_at_none a ch : Forall (fun x => x <> ch /\ x <> 0) a -> strchr_at a ch = None.
Proof.
  induction 1 as [|x a [H1 H2] _ IH]; cbn [strchr_at]; [done|]. rewrite (proj2 (Z.eqb_neq x ch)), (proj2 (Z.eqb_neq x 0)) by done. by rewrite IH.
Qed.

(** * The invariant *)

(** The position is in the buffer. *)
Definition pos_ok (c : client) : Prop := 0 <= qb_pos c <= sdslen c.

(** The bytes that are not parsed yet. *)
Definition todo (c : client) : bytes := drop (Z.to_nat (qb_pos c)) (querybuf c).
Definition left_ (c : client) : Z := sdslen c - qb_pos c.

Lemma unparsed_ok c : pos_ok c -> unparsed c = Some (todo c).
Proof. intros [H1 H2]. unfold unparsed. by rewrite (proj2 (Z.leb_le _ _)), (proj2 (Z.leb_le _ _)). Qed.

Lemma left_todo c : pos_ok c -> left_ c = Z.of_nat (length (todo c)).
Proof. intros [H1 H2]. unfold left_, todo, sdslen in *. rewrite length_drop. lia. Qed.

(** In the middle of a multi bulk request. *)
Record mid (c : client) : Prop := {
  md_pos : pos_ok c;
  md_type : reqtype c = Some PROTO_REQ_MULTIBULK;
  md_count : 0 < multibulklen c;
  md_max : argc c + multibulklen c <= INT_MAX;
  md_argv : argc c <= argv_len c;
  md_len : 1 <= argv_len c;
  md_bulk : -1 <= bulklen c
}.

(** Between requests, or before the first line of one is complete. *)
Record idle (c : client) : Prop := {
  id_pos : pos_ok c;
  id_argv : argv c = [];
  id_count : multibulklen c = 0;
  id_bulk : bulklen c = -1;
  id_len : 0 <= argv_len c;
  id_star : reqtype c = Some PROTO_REQ_MULTIBULK -> head (todo c) = Some STAR
}.

Definition inv (c : client) : Prop := halted c = true \/ mid c \/ idle c.

(** * Lines *)

Lemma read_line_ok c : pos_ok c -> exists l, read_line c = Some l /\
  match l with Line text next => next = qb_pos c + Z.of_nat (length text) + 2 /\ next <= sdslen c /\ exists rest, todo c = text ++ CR :: rest | _ => True end.
Proof.
  intros Hp. unfold read_line. rewrite unparsed_ok by done. cbn [mbind option_bind]. destruct (strchr_at (todo c) CR) as [n|] eqn:E; [|by eexists].
  destruct (Z.gtb_spec (Z.of_nat n) (sdslen c - qb_pos c - 2)) as [|Hle]; [by eexists|]. eexists. split; [done|]. apply strchr_at_Some in E as [E _].
  pose proof (lookup_lt_Some _ _ _ E) as Hlt. rewrite length_take, Nat.min_l by lia. split_and!; [done|lia|]. exists (drop (S n) (todo c)).
  rewrite <- (take_drop n (todo c)) at 1. f_equal. by apply drop_S.
Qed.

Section Parser.
Variable cfg : config.

(** ** The loop on the arguments *)

Lemma bulk_length_ok c : mid c -> bulklen c = -1 -> exists o, bulk_length cfg c = Some o /\
  match o with
  | Return c' ok => ok = false /\ mid c' /\ halted c' = halted c
  | Break c' => c' = c
  | Next c' => mid c' /\ 0 <= bulklen c' /\ left_ c' <= left_ c /\ argv c' = argv c /\ multibulklen c' = multibulklen c /\ halted c' = halted c /\
      (length (querybuf c') <= length (querybuf c))%nat
  end.
Proof.
  intros H Hb. pose proof H as [Hp Ht Hc Hm Ha Hl Hbu]. unfold bulk_length. destruct (read_line_ok c Hp) as (l & -> & Hline). cbn [mbind option_bind].
  assert (Herr : forall e, mid (set_error c e)) by (intros e; by split).
  destruct l as [| |text next]; [destruct (_ >? _); by eexists|by eexists|]. destruct Hline as (Hnext & Hle & rest & Htodo).
  destruct text as [|ty num]; [by eexists|]. destruct (negb (ty =? DOLLAR)); [by eexists|]. destruct (string2ll num) as [ll|]; [|by eexists].
  destruct (Z.ltb_spec ll 0) as [|Hll]; [by eexists|]. cbn [orb]. destruct (negb (master cfg) && _); [by eexists|]. destruct ((ll >? 16384) && _); [by eexists|].
  cbn [length] in Hnext. assert (Hp1 : pos_ok (set_pos c next)) by (unfold pos_ok, sdslen in *; cbn in *; lia). set (c1 := if _ && _ && _ then _ else set_pos c next).
  assert (H1 : pos_ok c1 /\ left_ c1 = left_ (set_pos c next) /\ argv c1 = argv c /\ multibulklen c1 = multibulklen c /\ reqtype c1 = reqtype c /\ argv_len c1 = argv_len c /\
    halted c1 = halted c /\ (length (querybuf c1) <= length (querybuf c))%nat).
  { subst c1. destruct (_ && _ && _); [|split_and!; done]. set (c2 := set_buf _ _ _).
    assert (H2 : pos_ok c2 /\ left_ c2 = left_ (set_pos c next)) by (unfold pos_ok, left_, sdslen, c2 in *; cbn in *; rewrite length_drop; lia).
    assert (H3 : (length (querybuf c2) <= length (querybuf c))%nat) by (unfold c2; cbn; rewrite length_drop; lia). split_and!; done || apply H2. }
  clearbody c1. destruct H1 as (P1 & P2 & P3 & P4 & P5 & P6 & P7 & P8). eexists. split; [done|]. cbn [bulklen set_net set_bulk].
  split_and!; [|done|unfold left_, sdslen in *; cbn in *; lia|done|done|done|done].
  split; unfold argc; cbn [argv reqtype multibulklen argv_len bulklen set_net set_bulk]; [exact P1|congruence|lia|by rewrite P3, P4|by rewrite P3, P6|lia|lia].
Qed.

Lemma bulk_argument_ok c : mid c -> 0 <= bulklen c -> exists o, bulk_argument cfg c = Some o /\
  match o with
  | Return _ _ => False
  | Break c' => c' = c
  | Next c' => pos_ok c' /\ left_ c' + 2 <= left_ c /\ bulklen c' = -1 /\ multibulklen c' = multibulklen c - 1 /\ argc c' = argc c + 1 /\
      argc c' <= argv_len c' /\ reqtype c' = reqtype c /\ halted c' = halted c
  end.
Proof.
  intros [[Hp1 Hp2] Ht Hc Hm Ha Hl Hbu] Hb. unfold bulk_argument. destruct (Z.ltb_spec (sdslen c - qb_pos c) (bulklen c + 2)) as [|Hge]; [by eexists|].
  set (newlen := if argc c >=? argv_len c then _ else _).
  assert (Hlen : exists len, newlen = Some len /\ argc c < len).
  { subst newlen. destruct (Z.geb_spec (argc c) (argv_len c)); [|eexists; split; [done|lia]]. rewrite (proj2 (Z.eqb_neq (argv_len c) 0)) by lia. cbn [negb guard mbind option_bind].
    eexists. split; [done|]. unfold INT_MAX in *. destruct (Z.ltb_spec (argv_len c) (2147483647 / 2)); lia. }
  destruct Hlen as (len & -> & Hlt). cbn [mbind option_bind]. rewrite (proj2 (Z.ltb_lt _ _)) by done. cbn [guard mbind option_bind].
  destruct (negb (master cfg) && _ && _ && _) eqn:E.
  - eexists. split; [done|]. unfold pos_ok, left_, sdslen, argc in *. cbn. rewrite length_app. cbn. split_and!; try done; lia.
  - rewrite unparsed_ok by done. cbn [mbind option_bind]. eexists. split; [done|]. unfold pos_ok, left_, sdslen, argc in *. cbn. rewrite length_app. cbn. split_and!; try done; lia.
Qed.

Lemma mbulk_loop_ok fuel c : mid c -> left_ c < Z.of_nat fuel -> exists c' ok, mbulk_loop cfg fuel c = Some (c', ok) /\
  halted c' = halted c /\
  (if ok then pos_ok c' /\ 0 < argc c' <= argv_len c' /\ left_ c' + 2 <= left_ c else mid c').
Proof.
  intros H. remember (left_ c) as n eqn:En. assert (Hn : left_ c <= n) by lia. clear En. revert c H Hn. revert n. induction fuel as [|fuel IH]; intros n c H Hn Hf.
  { pose proof (md_pos _ H) as [? ?]. unfold left_ in Hn. lia. }
  cbn [mbulk_loop]. pose proof (md_count _ H) as Hc. rewrite (proj2 (Z.eqb_neq (multibulklen c) 0)) by lia.
  assert (Hend : forall c, 0 < multibulklen c -> mbulk_end c = (c, false)) by (intros c0 H0; unfold mbulk_end; by rewrite (proj2 (Z.eqb_neq _ 0)) by lia).
  set (o := if bulklen c =? -1 then bulk_length cfg c else _).
  assert (Ho : exists r, o = Some r /\ match r with Return c' ok => ok = false /\ mid c' /\ halted c' = halted c | Break c' => c' = c
    | Next c' => mid c' /\ 0 <= bulklen c' /\ left_ c' <= left_ c /\ halted c' = halted c end).
  { subst o. destruct (Z.eqb_spec (bulklen c) (-1)) as [E|E].
    - destruct (bulk_length_ok c H E) as (r & -> & Hr). exists r. split; [done|]. destruct r; [done| |done]. destruct Hr as (? & ? & ? & _ & _ & ? & _). done.
    - eexists. split; [done|]. pose proof (md_bulk _ H). split_and!; [done|lia|lia|done]. }
  destruct Ho as (r & -> & Hr). cbn [mbind option_bind]. destruct r as [c1 ok|c1|c1].
  - destruct Hr as (-> & Hr & Hh). by exists c1, false.
  - destruct Hr as (H1 & Hb1 & Hl1 & Hh1). destruct (bulk_argument_ok c1 H1 Hb1) as (r & -> & Hr). cbn [mbind option_bind]. destruct r as [c2 ok|c2|c2]; [done| |].
    + destruct Hr as (Q1 & Q2 & Q3 & Q4 & Q5 & Q6 & Q7 & Q8). destruct H1 as [M1 M2 M3 M4 M5 M6 M7]. destruct (decide (multibulklen c2 = 0)) as [E|E].
      * exists (mbulk_end c2).1, (mbulk_end c2).2. destruct fuel; cbn [mbulk_loop]; rewrite E; cbn [Z.eqb]; (split; [by destruct (mbulk_end c2)|]); unfold mbulk_end; rewrite E; cbn;
          (split; [congruence|]); (split_and!; [exact Q1|unfold argc in *; cbn in *; lia|exact Q6|unfold left_, sdslen in *; cbn in *; lia]).
      * assert (H2 : mid c2) by (split; [done|congruence|lia|lia|done|unfold argc in *; lia|lia]).
        destruct (IH (left_ c2) c2 H2 ltac:(lia) ltac:(lia)) as (c' & ok & -> & Hh & Hr). exists c', ok. split; [done|]. split; [congruence|]. destruct ok; [|done].
        destruct Hr as (R1 & R2 & R3). split_and!; [done|lia|lia|lia].
    + subst c2. exists c1, false. rewrite Hend by apply H1. split_and!; [done|congruence|done].
  - subst c1. exists c, false. rewrite Hend by done. by split_and!.
Qed.

(** ** Requests *)

(** What a request that is complete leaves: [n] bytes at least were consumed. *)
Definition complete (c c' : client) : Prop :=
  pos_ok c' /\ left_ c' < left_ c /\ 0 <= argv_len c' /\ halted c' = halted c.

Lemma mbulk_count_ok c : idle c -> reqtype c = Some PROTO_REQ_MULTIBULK -> exists c' r, mbulk_count cfg c = Some (c', r) /\ halted c' = halted c /\
  match r with
  | Some true => complete c c' /\ argv c' = []
  | Some false => idle c'
  | None => mid c' /\ left_ c' < left_ c /\ (length (querybuf c') = length (querybuf c))
  end.
Proof.
  intros [Hp Ha Hc Hb Hl Hs] Ht. unfold mbulk_count. unfold argc at 1. rewrite Ha. cbn [length Z.of_nat Z.eqb guard mbind option_bind].
  assert (Herr : forall e, idle (set_error c e)) by (intros e; by split).
  destruct (read_line_ok c Hp) as (l & -> & Hline). cbn [mbind option_bind].
  destruct l as [| |text next]; [destruct (_ >? _); by eexists _, (Some false)|by eexists _, (Some false)|]. destruct Hline as (Hnext & Hle & rest & Htodo).
  specialize (Hs Ht). rewrite Htodo in Hs. destruct text as [|ty num]; [done|]. injection Hs as ->. cbn [Z.eqb guard mbind option_bind STAR Pos.eqb].
  destruct (string2ll num) as [ll|]; [|by eexists _, (Some false)]. destruct (Z.gtb_spec ll INT_MAX) as [|Hmax]; [by eexists _, (Some false)|].
  destruct ((ll >? 10) && _); [by eexists _, (Some false)|]. cbn [length] in Hnext.
  assert (Hp1 : pos_ok (set_pos c next)) by (unfold pos_ok, sdslen in *; cbn in *; lia).
  assert (Hl1 : left_ (set_pos c next) < left_ c) by (unfold left_, sdslen in *; cbn in *; lia).
  destruct (Z.leb_spec ll 0) as [|Hpos]; [eexists _, (Some true); split_and!; done|]. eexists _, None. split_and!; [done|done| |done|done].
  unfold argc. cbn [multibulklen set_bulk set_pos argv argv_len]. set (len := if _ || _ then _ else _).
  assert (Hlen : 1 <= len) by (unfold len; destruct ((ll >? argv_len c) || (argv_len c >? 1024)) eqn:E; lia).
  split; unfold argc; cbn [argv reqtype multibulklen argv_len bulklen set_net set_bulk set_argv set_pos]; rewrite ?Ha; cbn [length Z.of_nat]; [exact Hp1|done|lia|lia|lia|done|lia].
Qed.

Lemma processMultibulk_ok c : halted c = false -> reqtype c = Some PROTO_REQ_MULTIBULK -> mid c \/ idle c ->
  exists c' ok, processMultibulkBuffer cfg c = Some (c', ok) /\ if ok then complete c c' else inv c'.
Proof.
  intros Hh Ht H. unfold processMultibulkBuffer.
  assert (Hloop : forall c1, mid c1 -> halted c1 = false -> left_ c1 <= left_ c -> exists c' (ok : bool), (x ← guard (multibulklen c1 >? 0); mbulk_loop cfg (S (length (querybuf c1))) c1) = Some (c', ok) /\
    if ok then complete c c' else inv c').
  { intros c1 H1 Hh1 Hl1. pose proof (md_count _ H1). destruct (Z.gtb_spec (multibulklen c1) 0); [|lia]. cbn [guard mbind option_bind].
    destruct (mbulk_loop_ok (S (length (querybuf c1))) c1 H1) as (c' & ok & -> & Hh' & Hr).
    { pose proof (md_pos _ H1) as [? ?]. unfold left_, sdslen in *. lia. }
    exists c', ok. split; [done|]. destruct ok; [|right; by left]. destruct Hr as (R1 & R2 & R3). split_and!; [done|lia|lia|congruence]. }
  destruct H as [H|H].
  - pose proof (md_count _ H). rewrite (proj2 (Z.eqb_neq (multibulklen c) 0)) by lia. cbn [mbind option_bind]. apply Hloop; [done|done|lia].
  - rewrite (id_count _ H). cbn [Z.eqb]. destruct (mbulk_count_ok c H Ht) as (c' & r & -> & Hh' & Hr). cbn [mbind option_bind]. destruct r as [[]|].
    + exists c', true. split; [done|]. apply Hr.
    + exists c', false. split; [done|]. right. by right.
    + destruct Hr as (R1 & R2 & R3). apply Hloop; [done|congruence|lia].
Qed.

Lemma c_string_nonzero v : Forall (fun b => b <> 0) (c_string v).
Proof. induction v as [|x v IH]; [constructor|]. cbn. destruct (Z.eqb_spec x 0); [constructor|by constructor]. Qed.

Lemma processInline_ok c : idle c -> reqtype c = Some PROTO_REQ_INLINE -> halted c = false -> exists c' ok, processInlineBuffer cfg c = Some (c', ok) /\
  if ok then complete c c' else inv c'.
Proof.
  intros [Hp Ha Hc Hb Hl Hs] Ht Hh. unfold processInlineBuffer. rewrite unparsed_ok by done. cbn [mbind option_bind].
  assert (Herr : forall e c1, idle c1 -> inv (set_error c1 e)) by (intros e c1 [? ? ? ? ? ?]; right; right; by split).
  assert (Hc0 : idle c) by (by split). assert (Hc1 : idle (set_ack c (unixtime cfg))) by (by split).
  destruct (strchr_at (todo c) LF) as [n|] eqn:E; [|eexists _, false; split; [done|]; destruct (_ >? _); [by apply Herr|right; by right]].
  apply strchr_at_Some in E as [E _]. pose proof (lookup_lt_Some _ _ _ E) as Hlt.
  assert (Hbef : exists b, (if bool_decide (n = 0%nat) then Some 0 else todo c !! (n - 1)%nat) = Some b).
  { case_bool_decide; [by eexists|]. destruct (lookup_lt_is_Some_2 (todo c) (n - 1) ltac:(lia)) as [b Hb']. by exists b. }
  destruct Hbef as [b ->]. cbn [mbind option_bind]. set (p := if _ && _ then _ else _).
  assert (Hq : exists q lf, p = (q, lf) /\ (q + lf = n + 1)%nat /\ (1 <= lf)%nat).
  { unfold p. destruct (bool_decide_reflect (n = 0%nat)); cbn [negb andb]; [eexists _, _; split; [done|lia]|]. destruct (b =? CR); eexists _, _; (split; [done|lia]). }
  destruct Hq as (q & lf & -> & Hq & Hlf). destruct (split_loop_ok _ (c_string_nonzero (take q (todo c))) (S (length (c_string (take q (todo c))))) 0 [] ltac:(lia) ltac:(lia)) as [r Hr].
  unfold sdssplitargs. rewrite Hr. cbn [mbind option_bind]. destruct r as [args|]; [|eexists _, false; split; [done|]; by apply Herr].
  set (c1 := if _ && slave cfg then _ else c). assert (H1 : idle c1 /\ halted c1 = false /\ qb_pos c1 = qb_pos c /\ sdslen c1 = sdslen c /\ argv_len c1 = argv_len c)
    by (unfold c1; destruct (_ && _); split_and!; done).
  clearbody c1. destruct H1 as (I1 & I2 & I3 & I4 & I5). destruct (negb (bool_decide (q = 0%nat)) && master cfg); [eexists _, false; split; [done|]; by apply Herr|].
  set (p2 := if negb _ then _ else _). destruct p2 as [len sum] eqn:Ep2. eexists _, true. split; [done|]. pose proof (left_todo c Hp) as Hlt2.
  assert (Hlen : 0 <= len) by (unfold p2 in Ep2; cbn [argv_len set_pos] in Ep2; destruct (negb _); injection Ep2 as <- _; [destruct (Z.gtb_spec (Z.of_nat (length args)) (argv_len c1))|]; lia).
  destruct Hp as [Hp1 Hp2]. unfold complete, pos_ok, left_, sdslen in *. cbn. split_and!; [lia|lia|lia|done|congruence].
Qed.

End Parser.

(** * The input buffer *)

Section Input.
Variable processCommand : list (list bytes) -> list bytes -> verdict.
Variable settings : list (list bytes) -> config.

Lemma reset_idle c : pos_ok c -> 0 <= argv_len c -> idle (reset_request c).
Proof. intros Hp Hl. by split. Qed.

Lemma reset_client_idle c : pos_ok c -> 0 <= argv_len c -> idle (resetClientInternal c).
Proof. intros Hp Hl. by split. Qed.

(** No command without arguments is executed. *)
Definition commands_ok (done : list executed) : Prop := Forall (fun e => e.1 <> []) done.

Lemma idle_reqtype c t : idle c -> (t = PROTO_REQ_MULTIBULK -> head (todo c) = Some STAR) -> idle (set_reqtype c (Some t)).
Proof. intros [H1 H2 H3 H4 H5 H6] Ht. split; try done. cbn. intros [= ->]. by apply Ht. Qed.

Lemma input_loop_ok fuel c done : inv c -> (halted c = false -> left_ c < Z.of_nat fuel) -> commands_ok done ->
  exists c' done' alive, input_loop processCommand settings fuel c done = Some (c', done', alive) /\ (alive = true -> inv c') /\ commands_ok done'.
Proof.
  revert c done. induction fuel as [|fuel IH]; intros c done H Hf Hd.
  { cbn [input_loop]. destruct (halted c) eqn:Eh; [rewrite orb_true_r; by exists c, done, true|].
    assert (Hp : pos_ok c) by (destruct H as [|[H|H]]; [congruence|apply H|apply H]). specialize (Hf eq_refl). unfold left_ in Hf. destruct Hp. lia. }
  cbn [input_loop]. destruct (negb (qb_pos c <? sdslen c) || halted c) eqn:E; [by exists c, done, true|]. apply orb_false_elim in E as [E Eh].
  apply negb_false_iff, Z.ltb_lt in E. rewrite Eh in Hf. specialize (Hf eq_refl). destruct H as [H|H]; [congruence|].
  assert (Hp : pos_ok c) by (destruct H as [H|H]; apply H). destruct (lookup_lt_is_Some_2 (querybuf c) (Z.to_nat (qb_pos c))) as [x Hx]; [unfold sdslen, pos_ok in *; lia|].
  rewrite Hx. cbn [mbind option_bind]. set (ty := match reqtype c with Some t => t | None => _ end).
  assert (Hhead : head (todo c) = Some x) by (unfold todo; rewrite (drop_S _ _ _ Hx); done).
  assert (Hc1 : mid c /\ ty = PROTO_REQ_MULTIBULK /\ set_reqtype c (Some ty) = c \/ idle (set_reqtype c (Some ty))).
  { destruct H as [H|H]; [left|right].
    - assert (Et : ty = PROTO_REQ_MULTIBULK) by (unfold ty; by rewrite (md_type _ H)). split_and!; [done|done|]. rewrite Et. destruct c. cbn. pose proof (md_type _ H) as Ht. cbn in Ht. by subst.
    - apply idle_reqtype; [done|]. unfold ty. destruct (reqtype c) as [t|] eqn:Er; [intros ->; by apply H|]. destruct (Z.eqb_spec x STAR) as [->|]; done. }
  set (c1 := set_reqtype c (Some ty)) in *. assert (Hleft1 : left_ c1 = left_ c) by done.
  assert (Hr : exists c' ok, match ty with PROTO_REQ_INLINE => processInlineBuffer (settings (fst <$> done)) c1 | PROTO_REQ_MULTIBULK => processMultibulkBuffer (settings (fst <$> done)) c1 end = Some (c', ok) /\
    if ok then complete c1 c' else inv c').
  { destruct ty eqn:Et.
    - destruct Hc1 as [(_ & ? & _)|Hc1]; [done|]. by apply processInline_ok.
    - apply processMultibulk_ok; [done|done|]. destruct Hc1 as [(Hc1 & _ & ->)|Hc1]; [by left|by right]. }
  destruct Hr as (c2 & ok & -> & Hr). cbn [mbind option_bind]. destruct ok; cbn [negb]; [|by exists c2, done, true]. destruct Hr as (P1 & P2 & P3 & P4).
  rewrite Hleft1 in P2. destruct (Z.eqb_spec (argc c2) 0) as [E0|E0].
  - apply IH; [right; right; by apply reset_idle|intros _; unfold left_, sdslen in *; cbn; lia|done].
  - assert (Hd' : commands_ok (done ++ [(argv c2, net_input_bytes_curr_cmd c2)])).
    { apply Forall_app. split; [done|]. apply Forall_singleton. cbn. intros Ea. unfold argc in E0. by rewrite Ea in E0. }
    unfold processCommandAndResetClient. destruct (processCommand _ _).
    + apply IH; [right; right; by apply reset_client_idle|intros _; unfold left_, sdslen in *; cbn; lia|done].
    + apply IH; [by left|done|done].
    + apply IH; [by left|done|done].
    + by eexists _, _, false.
Qed.

Lemma trim_inv c : inv c -> inv (set_buf c (drop (Z.to_nat (qb_pos c)) (querybuf c)) 0).
Proof.
  intros [H|[H|H]]; [by left|right; left|right; right].
  - destruct H as [Hp H2 H3 H4 H5 H6 H7]. split; try done. unfold pos_ok, sdslen. cbn. lia.
  - destruct H as [Hp H2 H3 H4 H5 H6]. split; try done. unfold pos_ok, sdslen. cbn. lia.
Qed.

Lemma append_inv c chunk : inv c -> inv (set_buf c (querybuf c ++ chunk) (qb_pos c)).
Proof.
  assert (Hpos : pos_ok c -> pos_ok (set_buf c (querybuf c ++ chunk) (qb_pos c))) by (unfold pos_ok, sdslen; cbn; rewrite length_app; lia).
  intros [H|[H|H]]; [by left|right; left|right; right].
  - destruct H as [Hp H2 H3 H4 H5 H6 H7]. split; try done. by apply Hpos.
  - destruct H as [Hp H2 H3 H4 H5 H6]. split; try done; [by apply Hpos|]. cbn. intros Ht. specialize (H6 Ht). unfold todo in *. cbn. unfold pos_ok, sdslen in Hp.
    rewrite drop_app_le by lia. by destruct (drop _ (querybuf c)).
Qed.

Lemma clear_error_inv c : inv c -> inv (clear_error c).
Proof. intros [H|[H|H]]; [by left|right; left|right; right]; destruct H; by split. Qed.

(** Between two reads the buffer starts with what is not parsed. *)
Definition rest_ok (c : client) : Prop := inv c /\ qb_pos c = 0.

Lemma read_and_process_ok c r done : rest_ok c -> commands_ok done ->
  exists c' done' alive, read_and_process processCommand settings c r done = Some (c', done', alive) /\ (alive = true -> rest_ok c') /\ commands_ok done'.
Proof.
  intros [H Hq] Hd. assert (Hhalt : forall c1 e, qb_pos c1 = 0 -> rest_ok (freeClientAsync (set_error c1 e))) by (intros c1 e ?; split; [by left|done]).
  unfold read_and_process. destruct r as [[|x chunk]| |]; [by eexists _, _, true; eauto| |by eexists _, _, true; split_and!|by eexists _, _, true; eauto].
  apply (append_inv c (x :: chunk)) in H. set (c2 := set_buf c _ _) in *. destruct (negb (master _) && _); [by eexists _, _, true; eauto|].
  unfold processInputBuffer. destruct (input_loop_ok (S (length (querybuf c2))) c2 done H) as (c' & done' & alive & -> & Hi & Hd'); [|done|].
  { intros Hh. assert (Hp : pos_ok c2) by (destruct H as [|[H|H]]; [congruence|apply H|apply H]). unfold pos_ok, left_, sdslen in *. lia. }
  cbn [mbind option_bind]. destruct alive; cbn [negb]; [|by eexists _, _, false]. specialize (Hi eq_refl).
  destruct (Z.eqb_spec (qb_pos c') 0); cbn [negb]; eexists _, _, true; (split; [done|]); (split; [|done]); intros _; [done|]. split; [by apply trim_inv|done].
Qed.

Lemma readQuery_ok c r done : rest_ok c -> commands_ok done ->
  exists c' done' alive, readQueryFromClient processCommand settings c r done = Some (c', done', alive) /\ (alive = true -> rest_ok c') /\ commands_ok done'.
Proof.
  intros [H Hq] Hd. unfold readQueryFromClient. destruct (read_and_process_ok (clear_error c) r done) as (c' & done' & alive & -> & Hr & Hd'); [split; [by apply clear_error_inv|done]|done|].
  cbn [mbind option_bind]. destruct alive; [|by eexists _, _, false]. destruct (Hr eq_refl) as [Hi ->]. cbn [Z.eqb guard mbind option_bind]. eexists _, _, true. split; [done|]. split; [|done]. intros _.
  destruct (Hr eq_refl) as [_ Hq']. unfold handleClientReadError. destruct (read_error c') as [[]|]; split; try done; by left.
Qed.

Lemma read_all_ok reads c done : rest_ok c -> commands_ok done ->
  exists c' done' alive, read_all processCommand settings c reads done = Some (c', done', alive) /\ (alive = true -> rest_ok c') /\ commands_ok done'.
Proof.
  revert c done. induction reads as [|r reads IH]; intros c done H Hd; cbn [read_all]; [by eexists _, _, _|].
  destruct (readQuery_ok c r done H Hd) as (c' & done' & alive & -> & Hi & Hd'). cbn [mbind option_bind]. destruct alive; cbn [negb orb]; [|by eexists _, _, _].
  apply IH; [by apply Hi|done].
Qed.

End Input.

(** A client that authenticates and is then blocked. *)
Definition sample_settings (before : list (list bytes)) : config := mkConfig false false (bool_decide (before = [])) 1024 4096 0 0.
Definition sample_command (before : list (list bytes)) (cmd : list bytes) : verdict := if bool_decide (before = []) then Continue else Block.

End RespSpec.
