(* ===== verification/RespError.v ===== *)
(** Errors of the protocol parser of networking.c: what is malformed in the bytes a client has sent, and that the parser reports
    exactly this, closes the client and executes nothing more. *)

From S2P Require Import Prelude Util Sds SdsSpec SdsSplit Resp RespSpec.

Module RespError.
Import Util SdsSpec SdsSplit Resp RespSpec.

(** * What is wrong with the bytes at the position of the parser *)

(** A complete line: its text, and the byte after the carriage return has arrived. *)
Definition a_line (rest text : bytes) : Prop := exists x tail, rest = text ++ CR :: x :: tail /\ Forall (fun b => b <> CR /\ b <> 0) text.

(** A line of which more has to come. *)
Definition partial_line (rest : bytes) : Prop :=
  ((CR ∉ c_string rest) /\ Z.of_nat (length rest) <= PROTO_INLINE_MAX_SIZE) \/ exists text, rest = text ++ [CR] /\ Forall (fun b => b <> CR /\ b <> 0) text.

(** An inline request without its carriage return. *)
Definition strip_cr (l : bytes) : bytes := if decide (last l = Some CR) then take (length l - 1) l else l.

(** What the parser has to report: a line that is too long, quotes that do not match, a number that is none or out of its range, or a limit
    for clients that are not authenticated. *)
Inductive malformed (cfg : config) (c : client) : read_error_t -> Prop :=
| long_inline : reqtype c = Some PROTO_REQ_INLINE -> LF ∉ c_string (todo c) -> PROTO_INLINE_MAX_SIZE < Z.of_nat (length (todo c)) ->
    malformed cfg c CLIENT_READ_TOO_BIG_INLINE_REQUEST
| unbalanced l tail : reqtype c = Some PROTO_REQ_INLINE -> todo c = l ++ LF :: tail -> Forall (fun b => b <> LF /\ b <> 0) l -> sdssplitargs (strip_cr l) = Some None ->
    malformed cfg c CLIENT_READ_UNBALANCED_QUOTES
| long_count : reqtype c = Some PROTO_REQ_MULTIBULK -> multibulklen c = 0 -> CR ∉ c_string (todo c) -> PROTO_INLINE_MAX_SIZE < Z.of_nat (length (todo c)) ->
    malformed cfg c CLIENT_READ_TOO_BIG_MBULK_COUNT_STRING
| wrong_count num : reqtype c = Some PROTO_REQ_MULTIBULK -> multibulklen c = 0 -> a_line (todo c) (STAR :: num) -> (forall ll, string2ll num = Some ll -> INT_MAX < ll) ->
    malformed cfg c CLIENT_READ_INVALID_MULTIBUCK_LENGTH
| unauth_count num ll : reqtype c = Some PROTO_REQ_MULTIBULK -> multibulklen c = 0 -> a_line (todo c) (STAR :: num) -> string2ll num = Some ll -> 10 < ll <= INT_MAX -> authRequired cfg = true ->
    malformed cfg c CLIENT_READ_UNAUTH_MBUCK_COUNT
| long_length : reqtype c = Some PROTO_REQ_MULTIBULK -> 0 < multibulklen c -> bulklen c = -1 -> CR ∉ c_string (todo c) -> PROTO_INLINE_MAX_SIZE < Z.of_nat (length (todo c)) ->
    malformed cfg c CLIENT_READ_TOO_BIG_BUCK_COUNT_STRING
| no_dollar text : reqtype c = Some PROTO_REQ_MULTIBULK -> 0 < multibulklen c -> bulklen c = -1 -> a_line (todo c) text -> head text <> Some DOLLAR ->
    malformed cfg c CLIENT_READ_EXPECTED_DOLLAR
| wrong_length num : reqtype c = Some PROTO_REQ_MULTIBULK -> 0 < multibulklen c -> bulklen c = -1 -> a_line (todo c) (DOLLAR :: num) ->
    (forall ll, string2ll num = Some ll -> ll < 0 \/ proto_max_bulk_len cfg < ll) -> malformed cfg c CLIENT_READ_INVALID_BUCK_LENGTH
| unauth_length num ll : reqtype c = Some PROTO_REQ_MULTIBULK -> 0 < multibulklen c -> bulklen c = -1 -> a_line (todo c) (DOLLAR :: num) -> string2ll num = Some ll ->
    16384 < ll <= proto_max_bulk_len cfg -> authRequired cfg = true -> malformed cfg c CLIENT_READ_UNAUTH_BUCK_LENGTH.

(** The parser can do nothing before more bytes come. *)
Inductive waiting (c : client) : Prop :=
| wait_request : reqtype c = None -> todo c = [] -> waiting c
| wait_inline : reqtype c = Some PROTO_REQ_INLINE -> LF ∉ c_string (todo c) -> Z.of_nat (length (todo c)) <= PROTO_INLINE_MAX_SIZE -> waiting c
| wait_count : reqtype c = Some PROTO_REQ_MULTIBULK -> multibulklen c = 0 -> partial_line (todo c) -> waiting c
| wait_length : reqtype c = Some PROTO_REQ_MULTIBULK -> 0 < multibulklen c -> bulklen c = -1 -> partial_line (todo c) -> waiting c
| wait_argument : reqtype c = Some PROTO_REQ_MULTIBULK -> 0 < multibulklen c -> 0 <= bulklen c -> Z.of_nat (length (todo c)) < bulklen c + 2 -> waiting c.

(** The error of the client is what is wrong, and there is none if the client waits. *)
Definition verdict_ok (cfg : config) (c : client) : Prop := match read_error c with None => waiting c | Some e => malformed cfg c e end.

(** ** Lines *)

Lemma c_string_has (ch : Z) a b : ch <> 0 -> Forall (fun x => x <> ch /\ x <> 0) a -> ch ∈ c_string (a ++ ch :: b).
Proof.
  intros H0. induction 1 as [|y a [_ Hy] _ IH]; cbn [app c_string]; [rewrite (proj2 (Z.eqb_neq ch 0)) by done; by left|]. rewrite (proj2 (Z.eqb_neq y 0)) by done. by right.
Qed.

Lemma strchr_at_absent s ch : strchr_at s ch = None -> ch ∉ c_string s.
Proof.
  induction s as [|b s IH]; cbn [strchr_at c_string]; intros H; [apply not_elem_of_nil|]. destruct (Z.eqb_spec b ch) as [|Hb]; [done|]. destruct (b =? 0); [apply not_elem_of_nil|]. destruct (strchr_at s ch); [done|]. apply not_elem_of_cons. split; [congruence|by apply IH].
Qed.

Lemma strchr_at_split s ch n : strchr_at s ch = Some n -> s = take n s ++ ch :: drop (S n) s /\ Forall (fun x => x <> ch /\ x <> 0) (take n s).
Proof. intros H. destruct (strchr_at_Some s ch n H) as [Hn Hf]. split; [|done]. rewrite <- (take_drop n s) at 1. f_equal. by apply drop_S. Qed.

Lemma line_unique (ch : Z) a b t t' : Forall (fun x => x <> ch /\ x <> 0) a -> Forall (fun x => x <> ch /\ x <> 0) b -> a ++ ch :: t = b ++ ch :: t' -> a = b /\ t = t'.
Proof.
  intros Ha. revert b. induction Ha as [|x a [Hx _] _ IH]; intros b Hb E; destruct Hb as [|y b [Hy _] Hb]; cbn [app] in E; [by injection E|injection E; congruence|injection E; congruence|]. injection E as -> E. destruct (IH b Hb E) as [-> ->]. done.
Qed.

(** A line that is complete is not one that waits for more. *)
Lemma line_not_partial rest text : a_line rest text -> partial_line rest -> False.
Proof.
  intros (x & tail & -> & Ht) [[Hn _]|(text' & E & Ht')]; [by apply Hn, c_string_has|]. change (text' ++ [CR]) with (text' ++ CR :: []) in E. apply line_unique in E as [_ E]; done.
Qed.

Lemma long_not_partial rest : CR ∉ c_string rest -> PROTO_INLINE_MAX_SIZE < Z.of_nat (length rest) -> partial_line rest -> False.
Proof. intros Hn Hl [[_ H]|(text & -> & Ht)]; [lia|]. by apply Hn, c_string_has. Qed.

(** A client that waits has sent nothing malformed. *)
Lemma waiting_well_formed cfg c e : waiting c -> malformed cfg c e -> False.
Proof.
  intros Hw Hm. destruct Hm as [R Hn Hl|l tail R E Hf _|R M Hn Hl|num R M Hl _|num ll R M Hl _ _ _|R M B Hn Hl|text R M B Hl _|num R M B Hl _|num ll R M B Hl _ _ _];
    destruct Hw as [W1 _|W1 W2 W3|W1 W2 W3|W1 W2 W3 W4|W1 W2 W3 W4]; try congruence; try lia; try (by eapply line_not_partial); try (by eapply long_not_partial). apply W2. rewrite E. by apply c_string_has.
Qed.

Lemma read_line_spec c l : pos_ok c -> read_line c = Some l ->
  match l with NoLine => CR ∉ c_string (todo c) | Partial => partial_line (todo c) | Line text _ => a_line (todo c) text end.
Proof.
  intros Hp. unfold read_line. rewrite unparsed_ok by done. cbn [mbind option_bind]. destruct (strchr_at (todo c) CR) as [n|] eqn:E; [|intros [= <-]; by apply strchr_at_absent]. destruct (strchr_at_split _ _ _ E) as [Es Hf]. pose proof (left_todo c Hp) as Hl. unfold left_ in Hl.
  destruct (strchr_at_Some _ _ _ E) as [Hn _]. apply lookup_lt_Some in Hn. destruct (Z.gtb_spec (Z.of_nat n) (sdslen c - qb_pos c - 2)); intros [= <-].
  - right. exists (take n (todo c)). split; [|done]. rewrite Es at 1. by rewrite drop_ge by lia.
  - destruct (drop (S n) (todo c)) as [|x tail] eqn:Ed; [apply (f_equal length) in Ed; rewrite length_drop in Ed; cbn in Ed; lia|]. by exists x, tail.
Qed.

(** The fields that tell where the parser is. *)
Definition same_place (c c' : client) : Prop := todo c' = todo c /\ reqtype c' = reqtype c /\ multibulklen c' = multibulklen c /\ bulklen c' = bulklen c.

Lemma malformed_place cfg c c' e : same_place c c' -> malformed cfg c e -> malformed cfg c' e.
Proof.
  intros (Et & Er & Em & Eb). destruct 1; rewrite <- ?Et, <- ?Er, <- ?Em, <- ?Eb in *; [by eapply long_inline|by eapply unbalanced|by eapply long_count|by eapply wrong_count|by eapply unauth_count|by eapply long_length|by eapply no_dollar|by eapply wrong_length|by eapply unauth_length].
Qed.

Lemma waiting_place c c' : same_place c c' -> waiting c -> waiting c'.
Proof.
  intros (Et & Er & Em & Eb). destruct 1; rewrite <- ?Et, <- ?Er, <- ?Em, <- ?Eb in *; [by eapply wait_request|by eapply wait_inline|by eapply wait_count|by eapply wait_length|by eapply wait_argument].
Qed.

Lemma malformed_error cfg c e e' : malformed cfg c e -> malformed cfg (set_error c e') e.
Proof. by apply malformed_place. Qed.

Section Parser.
Variable cfg : config.
Context (Hm : master cfg = false).

Lemma bulk_length_verdict c o : mid c -> bulklen c = -1 -> bulk_length cfg c = Some o ->
  match o with Return c' _ => exists e, read_error c' = Some e /\ malformed cfg c' e | Break _ => waiting c | Next c' => read_error c' = read_error c end.
Proof.
  intros H Hb. pose proof H as [Hp Ht Hc _ _ _ _]. pose proof (left_todo c Hp) as Hleft. unfold left_ in Hleft. unfold bulk_length. destruct (read_line c) as [l|] eqn:El; [|done]. apply (read_line_spec c l Hp) in El. cbn [mbind option_bind]. rewrite Hm. cbn [negb andb]. destruct l as [| |text next].
  - destruct (Z.gtb_spec (sdslen c - qb_pos c) PROTO_INLINE_MAX_SIZE); intros [= <-]; [eexists; split; [done|]; apply malformed_error; by apply long_length; [..|lia]|]. apply wait_length; [done..|]. left. split; [done|lia].
  - intros [= <-]. by apply wait_length.
  - destruct text as [|ty num]; [intros [= <-]; eexists; split; [done|]; apply malformed_error; by eapply no_dollar|]. destruct (Z.eqb_spec ty DOLLAR) as [->|Hd]; cbn [negb]; [|intros [= <-]; eexists; split; [done|]; apply malformed_error; eapply no_dollar; [done..|]; cbn; congruence].
    destruct (string2ll num) as [ll|] eqn:En; [|intros [= <-]; eexists; split; [done|]; apply malformed_error; eapply wrong_length; [done..|]; intros ll E; congruence].
    destruct ((ll <? 0) || (ll >? proto_max_bulk_len cfg)) eqn:E1; [intros [= <-]; eexists; split; [done|]; apply malformed_error; eapply wrong_length; [done..|]; intros ll' E; rewrite En in E; injection E as <-; apply orb_true_iff in E1 as [?%Z.ltb_lt|?%Z.gtb_lt]; lia|].
    apply orb_false_iff in E1 as [E1 E2]. destruct ((ll >? 16384) && authRequired cfg) eqn:E3; [intros [= <-]; eexists; split; [done|]; apply malformed_error; apply andb_true_iff in E3 as [?%Z.gtb_lt ?]; eapply unauth_length; [done..| |done]; rewrite Z.gtb_ltb, Z.ltb_ge in E2; lia|].
    intros [= <-]. cbn [read_error set_net set_bulk]. by destruct ((ll >=? PROTO_MBULK_BIG_ARG) && _).
Qed.

Lemma bulk_argument_verdict c o : mid c -> 0 <= bulklen c -> bulk_argument cfg c = Some o -> match o with Return _ _ => False | Break c' => c' = c /\ waiting c | Next c' => read_error c' = read_error c end.
Proof.
  intros H Hb. pose proof H as [Hp Ht Hc _ _ _ _]. pose proof (left_todo c Hp) as Hleft. unfold left_ in Hleft. unfold bulk_argument. destruct (Z.ltb_spec (sdslen c - qb_pos c) (bulklen c + 2)) as [|Hge]; [intros [= <-]; split; [done|]; by apply wait_argument; [..|lia]|].
  destruct (if argc c >=? argv_len c then _ else _) as [len|]; [|done]. cbn [mbind option_bind]. destruct (argc c <? len); [|done]. cbn [guard mbind option_bind]. destruct (_ && _); [by intros [= <-]|]. destruct (unparsed c); [|done]. by intros [= <-].
Qed.

Lemma mbulk_loop_verdict fuel : forall c c' ok, mid c -> read_error c = None -> mbulk_loop cfg fuel c = Some (c', ok) -> if ok : bool then read_error c' = None else verdict_ok cfg c'.
Proof.
  induction fuel as [|fuel IH]; intros c c' ok H He; cbn [mbulk_loop]; pose proof (md_count _ H) as Hc; rewrite (proj2 (Z.eqb_neq (multibulklen c) 0)) by lia; [done|].
  assert (Hend : forall c, 0 < multibulklen c -> mbulk_end c = (c, false)) by (intros c0 H0; unfold mbulk_end; by rewrite (proj2 (Z.eqb_neq _ 0)) by lia).
  set (o := if bulklen c =? -1 then bulk_length cfg c else _).
  assert (Ho : exists r, o = Some r /\ match r with Return c' ok => ok = false /\ verdict_ok cfg c' | Break c' => c' = c /\ waiting c | Next c' => mid c' /\ 0 <= bulklen c' /\ read_error c' = None end).
  { subst o. destruct (Z.eqb_spec (bulklen c) (-1)) as [E|E].
    - destruct (bulk_length_ok cfg c H E) as (r & Hr & Hok). pose proof (bulk_length_verdict c r H E Hr) as Hv. exists r. split; [done|]. destruct r as [c1 ok1|c1|c1]; [split; [apply Hok|]; destruct Hv as (e & He1 & Hv); unfold verdict_ok; by rewrite He1|split_and!; [apply Hok..|congruence]|by split].
    - eexists. split; [done|]. pose proof (md_bulk _ H). split_and!; [done|lia|done]. }
  destruct Ho as (r & -> & Hr). cbn [mbind option_bind]. destruct r as [c1 ok1|c1|c1].
  - destruct Hr as [-> Hv]. by intros [= <- <-].
  - destruct Hr as (H1 & Hb1 & He1). destruct (bulk_argument_ok cfg c1 H1 Hb1) as (r & Hr & Hok). pose proof (bulk_argument_verdict c1 r H1 Hb1 Hr) as Hv. rewrite Hr. cbn [mbind option_bind]. destruct r as [c2 ok2|c2|c2]; [done| |].
    + destruct Hok as (Q1 & Q2 & Q3 & Q4 & Q5 & Q6 & Q7 & Q8). destruct H1 as [M1 M2 M3 M4 M5 M6 M7]. destruct (decide (multibulklen c2 = 0)) as [E|E].
      * destruct fuel; cbn [mbulk_loop]; rewrite E; cbn [Z.eqb]; unfold mbulk_end; rewrite E; cbn; intros [= <- <-]; cbn; congruence.
      * apply IH; [split; [done|congruence|lia|lia|done|unfold argc in *; lia|lia]|congruence].
    + destruct Hv as [-> Hw]. rewrite Hend by apply H1. intros [= <- <-]. unfold verdict_ok. by rewrite He1.
  - destruct Hr as [-> Hw]. rewrite Hend by done. intros [= <- <-]. unfold verdict_ok. by rewrite He.
Qed.

Lemma mbulk_count_verdict c c' r : idle c -> reqtype c = Some PROTO_REQ_MULTIBULK -> read_error c = None -> mbulk_count cfg c = Some (c', r) ->
  match r with Some false => verdict_ok cfg c' | _ => read_error c' = None end.
Proof.
  intros [Hp Ha Hc Hb Hl Hs] Ht He. pose proof (left_todo c Hp) as Hleft. unfold left_ in Hleft. unfold mbulk_count. unfold argc at 1. rewrite Ha. cbn [length Z.of_nat Z.eqb guard mbind option_bind]. destruct (read_line c) as [l|] eqn:El; [|done]. apply (read_line_spec c l Hp) in El. cbn [mbind option_bind].
  destruct l as [| |text next].
  - intros [= <- <-]. unfold verdict_ok. destruct (Z.gtb_spec (sdslen c - qb_pos c) PROTO_INLINE_MAX_SIZE); cbn [read_error set_error]; [apply malformed_error; by apply long_count; [..|lia]|]. rewrite He. apply wait_count; [done..|]. left. split; [done|lia].
  - intros [= <- <-]. unfold verdict_ok. rewrite He. by apply wait_count.
  - destruct text as [|ty num]; [done|]. destruct (Z.eqb_spec ty STAR) as [->|]; [|done]. cbn [guard mbind option_bind]. destruct (string2ll num) as [ll|] eqn:En; [|intros [= <- <-]; apply malformed_error; apply (wrong_count _ _ num); [done..|]; intros ll E; congruence].
    destruct (Z.gtb_spec ll INT_MAX) as [Hmax|Hmax]; [intros [= <- <-]; apply malformed_error; apply (wrong_count _ _ num); [done..|]; intros ll' E; rewrite En in E; injection E as <-; lia|]. destruct ((ll >? 10) && authRequired cfg) eqn:E3; [intros [= <- <-]; apply andb_true_iff in E3 as [?%Z.gtb_lt ?]; apply malformed_error; apply (unauth_count _ _ num ll); [done..|lia|done]|].
    destruct (ll <=? 0); intros [= <- <-]; done.
Qed.

Lemma processMultibulk_verdict c c' ok : halted c = false -> reqtype c = Some PROTO_REQ_MULTIBULK -> mid c \/ idle c -> read_error c = None -> processMultibulkBuffer cfg c = Some (c', ok) -> if ok : bool then read_error c' = None else verdict_ok cfg c'.
Proof.
  intros Hh Ht H He. unfold processMultibulkBuffer. destruct H as [H|H].
  - pose proof (md_count _ H). rewrite (proj2 (Z.eqb_neq (multibulklen c) 0)) by lia. cbn [mbind option_bind]. destruct (multibulklen c >? 0); [|done]. cbn [guard mbind option_bind]. by apply mbulk_loop_verdict.
  - rewrite (id_count _ H). cbn [Z.eqb]. destruct (mbulk_count_ok cfg c H Ht) as (c1 & r & Hr & _ & Hok). pose proof (mbulk_count_verdict c c1 r H Ht He Hr) as Hv. rewrite Hr. cbn [mbind option_bind]. destruct r as [b|]; [intros [= <- <-]; by destruct b|].
    destruct (multibulklen c1 >? 0); [|done]. cbn [guard mbind option_bind]. apply mbulk_loop_verdict; [apply Hok|done].
Qed.

(** The line of an inline request as the parser cuts it. *)
Lemma strip_cr_cut rest n b : rest !! n = Some LF -> Forall (fun x => x <> LF /\ x <> 0) (take n rest) -> (if bool_decide (n = 0%nat) then Some 0 else rest !! (n - 1)%nat) = Some b ->
  let '(q, _) := if negb (bool_decide (n = 0%nat)) && (b =? CR) then ((n - 1)%nat, 2%nat) else (n, 1%nat) in c_string (take q rest) = strip_cr (take n rest).
Proof.
  intros Hn Hf Hb. pose proof (lookup_lt_Some _ _ _ Hn) as Hlt. assert (Hz : Forall (fun x => x <> 0) (take n rest)) by (eapply Forall_impl; [exact Hf|]; by intros x [_ ?]). unfold strip_cr. rewrite last_lookup, length_take, Nat.min_l by lia. destruct (bool_decide_reflect (n = 0%nat)) as [->|H0]; cbn [negb andb].
  - by rewrite take_0.
  - replace (Nat.pred n) with (n - 1)%nat by lia. rewrite lookup_take_lt, Hb by lia. destruct (Z.eqb_spec b CR) as [->|Hne].
    + rewrite decide_True by done. assert (Et : take (n - 1) (take n rest) = take (n - 1) rest) by (rewrite take_take; f_equal; lia). rewrite Et. apply c_string_id. rewrite <- Et. by apply Forall_take.
    + rewrite decide_False by congruence. by apply c_string_id.
Qed.

Lemma processInline_verdict c c' ok : idle c -> reqtype c = Some PROTO_REQ_INLINE -> read_error c = None -> processInlineBuffer cfg c = Some (c', ok) -> if ok : bool then read_error c' = None else verdict_ok cfg c'.
Proof.
  intros [Hp _ _ _ _ _] Ht He. pose proof (left_todo c Hp) as Hleft. unfold left_ in Hleft. unfold processInlineBuffer. rewrite unparsed_ok by done. cbn [mbind option_bind]. destruct (strchr_at (todo c) LF) as [n|] eqn:E.
  - destruct (strchr_at_Some _ _ _ E) as [Hn Hf]. destruct (strchr_at_split _ _ _ E) as [Es _]. destruct (if bool_decide (n = 0%nat) then _ else _) as [b|] eqn:Eb; [|done]. cbn [mbind option_bind]. pose proof (strip_cr_cut (todo c) n b Hn Hf Eb) as Hcut.
    destruct (if negb _ && _ then _ else _) as [q lf]. rewrite Hcut. destruct (sdssplitargs (strip_cr (take n (todo c)))) as [[args|]|] eqn:Ea; cbn [mbind option_bind]; [| |done].
    + rewrite Hm, andb_false_r. destruct (if negb (_ =? 0) then _ else _) as [len sum]. intros [= <- <-]. cbn. by destruct (bool_decide (q = 0%nat) && slave cfg).
    + intros [= <- <-]. unfold verdict_ok. cbn [read_error set_error]. apply malformed_error. by eapply unbalanced.
  - apply strchr_at_absent in E. intros [= <- <-]. unfold verdict_ok. destruct (Z.gtb_spec (sdslen c - qb_pos c) PROTO_INLINE_MAX_SIZE); cbn [read_error set_error]; [apply malformed_error; by apply long_inline; [..|lia]|]. rewrite He. apply wait_inline; [done..|lia].
Qed.

End Parser.

(** * Reads *)

Section Input.
Variable processCommand : list (list bytes) -> list bytes -> verdict.
Variable settings : list (list bytes) -> config.
Context (not_master : forall before, master (settings before) = false).

(** What a client reports after a read: the connection is closed, the buffer is over its limit, or the request is malformed. *)
Definition over_limit (cfg : config) (c : client) : Prop :=
  client_max_querybuf_len cfg < mstate_sums cfg + sdslen c \/ (1024 * 1024 < mstate_sums cfg + sdslen c /\ authRequired cfg = true).

Definition reported (cfg : config) (r : option conn_read) (c : client) (e : read_error_t) : Prop :=
  match e with
  | CLIENT_READ_CONN_DISCONNECTED => r = Some Disconnected
  | CLIENT_READ_CONN_CLOSED => r = Some (Data [])
  | CLIENT_READ_REACHED_MAX_QUERYBUF => over_limit cfg c
  | e => malformed cfg c e
  end.

Definition report_ok (r : option conn_read) (c : client) (done : list executed) : Prop :=
  match read_error c with
  | None => halted c = false -> waiting c
  | Some e => halted c = true /\ reported (settings (fst <$> done)) r c e
  end.

Lemma malformed_reported cfg r c e : malformed cfg c e -> reported cfg r c e.
Proof. intros H. destruct H; cbn; [by eapply long_inline|by eapply unbalanced|by eapply long_count|by eapply wrong_count|by eapply unauth_count|by eapply long_length|by eapply no_dollar|by eapply wrong_length|by eapply unauth_length]. Qed.

(** The loop on the requests stops where the client waits, where something is malformed, or where a command has stopped the client. *)
Lemma input_loop_verdict fuel : forall c done c' done', inv c -> read_error c = None -> (halted c = false -> todo c = [] -> waiting c) -> input_loop processCommand settings fuel c done = Some (c', done', true) ->
  (halted c' = true /\ read_error c' = None) \/ verdict_ok (settings (fst <$> done')) c'.
Proof.
  induction fuel as [|fuel IH]; intros c done c' done' H He Hw.
  all: cbn [input_loop]; destruct (negb (qb_pos c <? sdslen c) || halted c) eqn:E.
  1, 3: intros [= <- <-]; destruct (halted c) eqn:Eh; [by left|right]; rewrite orb_false_r in E; apply negb_true_iff, Z.ltb_ge in E; unfold verdict_ok; rewrite He; apply Hw; [done|]; unfold todo; apply drop_ge; unfold sdslen in E; lia.
  1: done.
  apply orb_false_elim in E as [E Eh]. apply negb_false_iff, Z.ltb_lt in E. destruct H as [H|H]; [congruence|].
  destruct (querybuf c !! Z.to_nat (qb_pos c)) as [x|] eqn:Hx; [|done]. cbn [mbind option_bind]. set (ty := match reqtype c with Some t => t | None => _ end).
  assert (Hhead : head (todo c) = Some x) by (unfold todo; rewrite (drop_S _ _ _ Hx); done).
  assert (Hc1 : mid c /\ ty = PROTO_REQ_MULTIBULK /\ set_reqtype c (Some ty) = c \/ idle (set_reqtype c (Some ty))).
  { destruct H as [H|H]; [left|right].
    - assert (Et : ty = PROTO_REQ_MULTIBULK) by (unfold ty; by rewrite (md_type _ H)). split_and!; [done|done|]. rewrite Et. destruct c. cbn. pose proof (md_type _ H) as Ht. cbn in Ht. by subst.
    - apply idle_reqtype; [done|]. unfold ty. destruct (reqtype c) as [t|] eqn:Er; [intros ->; by apply H|]. destruct (Z.eqb_spec x STAR) as [->|]; done. }
  set (c1 := set_reqtype c (Some ty)) in *. assert (Ht1 : reqtype c1 = Some ty) by done. assert (He1 : read_error c1 = None) by done. assert (Hh1 : halted c1 = false) by done. set (cfg := settings (fst <$> done)).
  set (run := match ty with PROTO_REQ_INLINE => _ | PROTO_REQ_MULTIBULK => _ end).
  assert (Hr : exists c2 ok, run = Some (c2, ok) /\ (if ok : bool then complete c1 c2 /\ read_error c2 = None else verdict_ok cfg c2)).
  { clearbody c1. unfold run. destruct ty eqn:Et.
    - destruct Hc1 as [(_ & ? & _)|Hc1]; [done|]. destruct (processInline_ok cfg c1 Hc1 Ht1 Hh1) as (c2 & ok & Hrun & Hok). exists c2, ok. split; [done|]. pose proof (processInline_verdict cfg (not_master _) c1 c2 ok Hc1 Ht1 He1 Hrun) as Hv. destruct ok; done.
    - assert (Hmi : mid c1 \/ idle c1) by (destruct Hc1 as [(Hc1 & _ & ->)|Hc1]; [by left|by right]). destruct (processMultibulk_ok cfg c1 Hh1 Ht1 Hmi) as (c2 & ok & Hrun & Hok). exists c2, ok. split; [done|]. pose proof (processMultibulk_verdict cfg (not_master _) c1 c2 ok Hh1 Ht1 Hmi He1 Hrun) as Hv. destruct ok; done. }
  clearbody c1 run. destruct Hr as (c2 & ok & -> & Hr). cbn [mbind option_bind]. destruct ok; cbn [negb]; [|intros [= <- <-]; by right]. destruct Hr as [(P1 & P2 & P3 & P4) He2].
  assert (Hfresh : forall c3, reqtype c3 = None -> halted c3 = false -> todo c3 = [] -> waiting c3) by (intros c3 ? _ ?; by apply wait_request).
  destruct (Z.eqb_spec (argc c2) 0) as [E0|E0]; [apply IH; [right; right; by apply reset_idle|done|by apply Hfresh]|].
  unfold processCommandAndResetClient. destruct (processCommand _ _); [apply IH; [right; right; by apply reset_client_idle|done|by apply Hfresh]|apply IH; [by left|done|done]|apply IH; [by left|done|done]|done].
Qed.

Lemma verdict_place cfg c c' : same_place c c' -> read_error c' = read_error c -> verdict_ok cfg c -> verdict_ok cfg c'.
Proof. intros Hp He. unfold verdict_ok. rewrite He. destruct (read_error c); [by apply malformed_place|by apply waiting_place]. Qed.

Lemma trim_place c : same_place c (set_buf c (drop (Z.to_nat (qb_pos c)) (querybuf c)) 0).
Proof. by split_and!. Qed.

(** The client after a verdict of the parser. *)
Lemma handled_report r c done : (halted c = true /\ read_error c = None) \/ verdict_ok (settings (fst <$> done)) c -> report_ok r (handleClientReadError c) done.
Proof.
  unfold report_ok, handleClientReadError, verdict_ok. intros [[Hh He]|Hv]; [rewrite He, He; congruence|]. destruct (read_error c) as [e|] eqn:He; [|rewrite He; by intros _].
  assert (Hrep : halted (set_halted c true) = true /\ reported (settings (fst <$> done)) r (set_halted c true) e) by (split; [done|]; apply malformed_reported; by apply (malformed_place _ c)).
  destruct Hv; cbn [read_error set_halted]; rewrite He; exact Hrep.
Qed.

Lemma read_report c r done lastr c' done' : rest_ok c -> report_ok lastr c done -> readQueryFromClient processCommand settings c r done = Some (c', done', true) -> report_ok (Some r) c' done'.
Proof.
  intros [H Hq] Hrep. unfold readQueryFromClient. assert (Hw : halted c = false -> waiting c) by (unfold report_ok in Hrep; destruct (read_error c); [by intros Hh; destruct Hrep; congruence|done]). set (c0 := clear_error c). assert (H0 : inv c0) by (by apply clear_error_inv). assert (Hw0 : halted c0 = false -> waiting c0) by (intros Hh; by apply (waiting_place c), Hw).
  assert (He0 : read_error c0 = None) by done. assert (Hq0 : qb_pos c0 = 0) by done. clearbody c0.
  assert (Hclosed : forall e, reported (settings (fst <$> done)) (Some r) (freeClientAsync (set_error c0 e)) e -> e = CLIENT_READ_CONN_DISCONNECTED \/ e = CLIENT_READ_CONN_CLOSED -> report_ok (Some r) (handleClientReadError (freeClientAsync (set_error c0 e))) done) by (intros e Hr [->| ->]; by split).
  unfold read_and_process. destruct r as [[|x chunk]| |].
  - cbn [mbind option_bind qb_pos freeClientAsync set_halted set_error]. rewrite Hq0. cbn [Z.eqb guard mbind option_bind]. intros [= <- <-]. by apply Hclosed; [|right].
  - set (c2 := set_buf c0 _ _). assert (H2 : inv c2) by (by apply append_inv). assert (Hne : todo c2 <> []) by (unfold todo, c2; cbn; rewrite Hq0; by destruct (querybuf c0)). assert (He2 : read_error c2 = None) by done. assert (Hq2 : qb_pos c2 = 0) by done. clearbody c2. destruct (negb (master _) && _) eqn:Elim.
    + cbn [mbind option_bind qb_pos freeClientAsync set_halted set_error]. rewrite Hq2. cbn [Z.eqb guard mbind option_bind]. intros [= <- <-]. split; [done|]. unfold reported, over_limit. change (sdslen _) with (sdslen c2). apply andb_true_iff in Elim as [_ Elim]. apply orb_true_iff in Elim as [?%Z.gtb_lt|[?%Z.gtb_lt ?]%andb_true_iff]; [left; lia|right; split; [lia|done]].
    + unfold processInputBuffer. destruct (input_loop _ _ _ _ _) as [[[c3 done3] alive]|] eqn:E3; [|done]. cbn [mbind option_bind]. destruct alive; cbn [negb]; [|done]. pose proof (input_loop_verdict _ _ _ _ _ H2 He2 ltac:(by intros _ ?) E3) as Hv. destruct (negb (qb_pos c3 =? 0)); cbn [mbind option_bind].
      * cbn [qb_pos set_buf Z.eqb guard mbind option_bind]. intros [= <- <-]. apply handled_report. destruct Hv as [Hv|Hv]; [by left|right]. by apply (verdict_place _ c3); [apply trim_place|..].
      * destruct (qb_pos c3 =? 0); [|done]. cbn [guard mbind option_bind]. intros [= <- <-]. by apply handled_report.
  - cbn [mbind option_bind]. rewrite Hq0. cbn [Z.eqb guard mbind option_bind]. intros [= <- <-]. unfold report_ok, handleClientReadError. rewrite He0, He0. done.
  - cbn [mbind option_bind qb_pos freeClientAsync set_halted set_error]. rewrite Hq0. cbn [Z.eqb guard mbind option_bind]. intros [= <- <-]. by apply Hclosed; [|left].
Qed.

Lemma read_all_report reads : forall c done lastr c' done', rest_ok c -> commands_ok done -> report_ok lastr c done -> read_all processCommand settings c reads done = Some (c', done', true) ->
  report_ok (match last reads with Some r => Some r | None => lastr end) c' done'.
Proof.
  induction reads as [|r reads IH]; intros c done lastr c' done' H Hd Hrep; cbn [read_all]; [by intros [= <- <-]|]. destruct (readQuery_ok processCommand settings c r done H Hd) as (c1 & done1 & alive & Hrun & Hi & Hd1). rewrite Hrun. cbn [mbind option_bind]. destruct alive; cbn [negb]; [|done].
  intros Hall. pose proof (IH c1 done1 (Some r) c' done' (Hi eq_refl) Hd1 (read_report c r done lastr c1 done1 H Hrep Hrun) Hall) as HR. destruct reads as [|r' reads]; [exact HR|]. rewrite last_cons_cons. destruct (last (r' :: reads)) as [r1|] eqn:El; [exact HR|]. by apply last_None in El.
Qed.

(** A client that was stopped executes nothing more. *)
Lemma halted_read c r done : halted c = true -> qb_pos c = 0 -> exists c', readQueryFromClient processCommand settings c r done = Some (c', done, true) /\ halted c' = true /\ qb_pos c' = 0.
Proof.
  intros Hh Hq. unfold readQueryFromClient. assert (Hrun : exists c1, read_and_process processCommand settings (clear_error c) r done = Some (c1, done, true) /\ halted c1 = true /\ qb_pos c1 = 0).
  { unfold read_and_process. destruct r as [[|x chunk]| |]; [eexists; split; [done|by split]| |eexists; split; [done|by split]|eexists; split; [done|by split]]. destruct (negb (master _) && _); [eexists; split; [done|by split]|]. unfold processInputBuffer. cbn [input_loop halted set_buf clear_error]. rewrite Hh, orb_true_r. cbn [mbind option_bind negb]. cbn [qb_pos set_buf clear_error]. rewrite Hq. cbn [Z.eqb negb]. eexists. split; [done|by split]. }
  destruct Hrun as (c1 & -> & Hh1 & Hq1). cbn [mbind option_bind]. rewrite Hq1. cbn [Z.eqb guard mbind option_bind]. eexists. split; [done|]. unfold handleClientReadError. destruct (read_error c1) as [[]|]; done.
Qed.

Lemma halted_read_all reads : forall c done, halted c = true -> qb_pos c = 0 -> exists c', read_all processCommand settings c reads done = Some (c', done, true) /\ halted c' = true.
Proof.
  induction reads as [|r reads IH]; intros c done Hh Hq; cbn [read_all]; [by exists c|]. destruct (halted_read c r done Hh Hq) as (c1 & -> & Hh1 & Hq1). cbn [mbind option_bind negb]. by apply IH.
Qed.

(** C15. The parser is safe and reports errors on every input.  Whatever bytes a client that is not a master sends, however they are cut into
    reads, and whatever the commands do to the client and to the settings, reading never looks past the query buffer, never writes
    past the argument array, never fails an assertion and always ends, and no command without arguments is executed.  If a client is still
    there and the last read left an error, the client is stopped and the error is what happened: the connection was closed or lost, the
    buffer is over its limit, or the bytes at the position of the parser are malformed in the way the error says.  If it
    left no error and nothing stopped the client, these bytes are the beginning of a request that is not complete, in which nothing
    is malformed.  A client that is stopped executes nothing of what it sends later. *)
Theorem parser_reports_errors reads : exists c done alive, read_all processCommand settings new_client reads [] = Some (c, done, alive) /\ Forall (fun e => e.1 <> []) done /\
  (alive = true -> match read_error c with
    | Some e => halted c = true /\ reported (settings (fst <$> done)) (last reads) c e
    | None => halted c = false -> waiting c /\ forall cfg e, ~ malformed cfg c e
    end /\
    (halted c = true -> forall more, exists c', read_all processCommand settings c more done = Some (c', done, true) /\ halted c' = true)).
Proof.
  assert (H0 : rest_ok new_client) by (split; [|done]; right; right; by split). assert (Hd0 : commands_ok []) by constructor. destruct (read_all_ok processCommand settings reads new_client [] H0 Hd0) as (c & done & alive & Hrun & Hi & Hd). exists c, done, alive. split_and!; [done|done|]. intros ->.
  destruct (Hi eq_refl) as [_ Hq]. pose proof (read_all_report reads new_client [] None c done H0 Hd0 ltac:(intros _; by apply wait_request) Hrun) as Hrep. split; [|intros Hh more; by apply halted_read_all]. unfold report_ok in Hrep. destruct (read_error c) as [e|].
  - destruct Hrep as [Hh Hrep]. split; [done|]. destruct (last reads); done.
  - intros Hh. specialize (Hrep Hh). split; [done|]. intros cfg e Hbad. by eapply waiting_well_formed.
Qed.

End Input.

Module Sample.

(** A command in two reads, then a request with a length that is no number. *)
Lemma parser_reports_errors_witness : exists c done alive,
  read_all sample_command sample_settings new_client [Data [42; 49; 13]; Again; Data [10; 36; 49; 13; 10; 65; 13; 10; 42; 120; 13; 10]] [] = Some (c, done, alive) /\ Forall (fun e => e.1 <> []) done /\
  (alive = true -> match read_error c with
    | Some e => halted c = true /\ reported (sample_settings (fst <$> done)) (Some (Data [10; 36; 49; 13; 10; 65; 13; 10; 42; 120; 13; 10])) c e
    | None => halted c = false -> waiting c /\ forall cfg e, ~ malformed cfg c e
    end /\
    (halted c = true -> forall more, exists c', read_all sample_command sample_settings c more done = Some (c', done, true) /\ halted c' = true)).
Proof. apply (parser_reports_errors sample_command sample_settings). done. Defined.

Example wrong_count_reported : option_map (fun '(c, done, _) => (read_error c, halted c, map fst done)) (read_all sample_command sample_settings new_client [Data [42; 49; 13; 10; 36; 49; 13; 10; 65; 13; 10; 42; 120; 13; 10]] []) =
  Some (Some CLIENT_READ_INVALID_MULTIBUCK_LENGTH, true, [[[65]]]).
Proof. by vm_compute. Qed.

End Sample.

End RespError.
