(* ===== verification/RespStream.v ===== *)
(** A stream of commands in the protocol is executed command by command, however it
    is cut into reads; and quoted arguments sent as an inline request are
    executed with these arguments. *)

From S2P Require Import Prelude Util Sds SdsSpec SdsSplit Resp RespSpec.

Module RespStream.
Import Util SdsSpec SdsSplit Resp RespSpec.

(** * The encoding of commands *)

Definition CRLF : bytes := [CR; LF].
Definition number (n : nat) : bytes := sdec (Z.of_nat n).
Definition enc_arg (a : bytes) : bytes := (DOLLAR :: number (length a)) ++ CRLF ++ a ++ CRLF.
Definition enc_args (l : list bytes) : bytes := concat (map enc_arg l).
Definition enc_cmd (cmd : list bytes) : bytes := (STAR :: number (length cmd)) ++ CRLF ++ enc_args cmd.
Definition enc_cmds (cmds : list (list bytes)) : bytes := concat (map enc_cmd cmds).

Lemma number_digits n : Forall (fun x => x <> CR /\ x <> 0) (number n).
Proof.
  unfold number, sdec. rewrite (proj2 (Z.ltb_ge _ _)) by lia. destruct n as [|n].
  { change (udec (Z.of_nat 0)) with [48]. apply Forall_singleton. done. }
  destruct (udec_canonical (Z.of_nat (S n)) ltac:(lia)) as [[Hd _] _].
  eapply Forall_impl; [exact Hd|]. cbn. intros x Hx. apply is_digit_spec in Hx. unfold CR. lia.
Qed.

Lemma number_length n : Z.of_nat n < 2 ^ 62 -> (length (number n) <= 20)%nat.
Proof. intros Hn. apply sdec_length_le. unfold srange. lia. Qed.

Lemma number_parse n : Z.of_nat n < 2 ^ 62 -> string2ll (number n) = Some (Z.of_nat n).
Proof. intros Hn. apply string2ll_complete. unfold srange. lia. Qed.

(** * Lines that are received in part *)

Lemma prefix_split (u f a b : bytes) : u ++ f = a ++ b -> (length a <= length u)%nat -> exists u', u = a ++ u' /\ u' ++ f = b.
Proof.
  intros E Hl. exists (drop (length a) u). assert (Ht : take (length a) u = a).
  { apply (f_equal (take (length a))) in E. by rewrite take_app_le, take_app_length in E by lia. }
  split; [by rewrite <- Ht at 1; rewrite take_drop|]. apply (f_equal (drop (length a))) in E. by rewrite drop_app_le, drop_app_length in E by lia.
Qed.

Lemma prefix_short (u f a b : bytes) : u ++ f = a ++ b -> (length u <= length a)%nat -> u = take (length u) a.
Proof. intros E Hl. apply (f_equal (take (length u))) in E. by rewrite take_app_length, take_app_le in E by lia. Qed.

Lemma read_line_prefix c text more f : pos_ok c -> todo c ++ f = text ++ CRLF ++ more -> Forall (fun x => x <> CR /\ x <> 0) text ->
  (exists u, todo c = text ++ CRLF ++ u /\ u ++ f = more /\ read_line c = Some (Line text (qb_pos c + Z.of_nat (length text) + 2))) \/
  (f <> [] /\ left_ c <= Z.of_nat (length text) + 1 /\ (read_line c = Some NoLine \/ read_line c = Some Partial)).
Proof.
  intros Hp E Ht. pose proof (left_todo c Hp) as Hl. unfold read_line. rewrite unparsed_ok by done. cbn [mbind option_bind]. fold (left_ c).
  destruct (decide (length text + 2 <= length (todo c))%nat) as [Hge|Hlt].
  - left. rewrite app_assoc in E. destruct (prefix_split _ _ _ _ E) as (u & Hu & Hf); [rewrite length_app; cbn; lia|]. rewrite <- app_assoc in Hu. exists u. split_and!; [done|done|].
    rewrite Hu at 1. cbn [CRLF app]. rewrite strchr_at_found by done. destruct (Z.gtb_spec (Z.of_nat (length text)) (left_ c - 2)); [lia|].
    rewrite Hu. by rewrite take_app_length.
  - right. split_and!.
    + intros ->. rewrite app_nil_r in E. apply Hlt. rewrite E, !length_app. cbn. lia.
    + lia.
    + destruct (decide (length (todo c) <= length text)%nat) as [Hs|Hs].
      * left. rewrite (prefix_short _ _ _ _ E Hs). rewrite strchr_at_none; [done|]. by apply Forall_take.
      * right. assert (Eu : todo c = text ++ [CR]).
        { change (text ++ CRLF ++ more) with (text ++ [CR] ++ ([LF] ++ more)) in E. rewrite app_assoc in E. destruct (prefix_split _ _ _ _ E) as (u & Hu & _); [rewrite length_app; cbn; lia|].
          assert (u = []) as ->; [|by rewrite app_nil_r in Hu]. apply (f_equal length) in Hu. rewrite !length_app in Hu. cbn in Hu. destruct u; [done|cbn in Hu; lia]. }
        rewrite Eu. rewrite strchr_at_found by done. destruct (Z.gtb_spec (Z.of_nat (length text)) (left_ c - 2)); [done|]. rewrite Eu, length_app in Hl. cbn in Hl. lia.
Qed.

Section Stream.
(** The length of the longest argument. *)
Variable limit : Z.

(** Commands and arguments within the limits. *)
Definition arg_fits (a : bytes) : Prop := Z.of_nat (length a) <= limit /\ Z.of_nat (length a) < 2 ^ 62.
Definition cmd_fits (cmd : list bytes) : Prop := cmd <> [] /\ Z.of_nat (length cmd) <= INT_MAX /\ Forall arg_fits cmd.

(** ** A request that is read in part *)

Definition sizes (l : list bytes) : Z := Z.of_nat (sum_list (length <$> l)).
Definition lines (l : list bytes) : Z := Z.of_nat (sum_list ((fun a => length (number (length a)) + 3)%nat <$> l)).

(** [rest] are the arguments to read, the first one from its contents when [open] is
    true, [R] what comes after them, and [f] what is not received yet. *)
Record pending (c : client) (cmd done rest : list bytes) (open : bool) (R f : bytes) : Prop := {
  pd_mid : mid c;
  pd_cmd : cmd = done ++ rest;
  pd_fits : Forall arg_fits rest;
  pd_argv : argv c = done;
  pd_count : multibulklen c = Z.of_nat (length rest);
  pd_sum : argv_len_sum c = sizes done;
  pd_error : read_error c = None;
  pd_halted : halted c = false;
  pd_bytes : match rest with
    | a :: tl => if open then bulklen c = Z.of_nat (length a) /\ todo c ++ f = a ++ CRLF ++ enc_args tl ++ R else bulklen c = -1 /\ todo c ++ f = enc_arg a ++ enc_args tl ++ R
    | [] => False end;
  pd_net : net_input_bytes_curr_cmd c = Z.of_nat (length (number (length cmd))) + 3 + lines done +
    match rest with a :: _ => if open then Z.of_nat (length (number (length a))) + 3 else 0 | [] => 0 end
}.

(** A request that is complete. *)
Record ready (c : client) (cmd : list bytes) (R f : bytes) : Prop := {
  rd_pos : pos_ok c;
  rd_argv : argv c = cmd;
  rd_len : 0 <= argv_len c;
  rd_error : read_error c = None;
  rd_halted : halted c = false;
  rd_bytes : todo c ++ f = R;
  rd_net : net_input_bytes_curr_cmd c = Z.of_nat (length (enc_cmd cmd))
}.

Lemma sizes_snoc l a : sizes (l ++ [a]) = sizes l + Z.of_nat (length a).
Proof. unfold sizes. rewrite fmap_app. induction l as [|b l IH]; cbn in *; lia. Qed.

Lemma lines_snoc l a : lines (l ++ [a]) = lines l + (Z.of_nat (length (number (length a))) + 3).
Proof. unfold lines. rewrite fmap_app. induction l as [|b l IH]; cbn in *; lia. Qed.

Lemma enc_cmd_length cmd : Z.of_nat (length (enc_cmd cmd)) = Z.of_nat (length (number (length cmd))) + 3 + lines cmd + (sizes cmd + Z.of_nat (length cmd) * 2).
Proof.
  assert (H : Z.of_nat (length (enc_args cmd)) = lines cmd + (sizes cmd + Z.of_nat (length cmd) * 2)).
  { unfold enc_args, lines, sizes. induction cmd as [|a l IH]; [done|]. rewrite !fmap_cons. cbn [map concat length sum_list_with id]. unfold enc_arg at 1. rewrite !length_app. cbn [length CRLF]. change (enc_arg <$> l) with (map enc_arg l). lia. }
  unfold enc_cmd. rewrite !length_app. cbn [length CRLF]. lia.
Qed.

(** ** Streams *)

(** The client is reading [cmds], of which [f] is not received yet. *)
Definition stream (c : client) (cmds : list (list bytes)) (f : bytes) : Prop :=
  (idle c /\ read_error c = None /\ halted c = false /\ net_input_bytes_curr_cmd c = 0 /\ reqtype c <> Some PROTO_REQ_INLINE /\ todo c ++ f = enc_cmds cmds) \/
  exists cmd cmds' done rest open, cmds = cmd :: cmds' /\ pending c cmd done rest open (enc_cmds cmds') f.

(** ** Parsing, with settings that admit these arguments *)

Section Parser.
Variable cfg : config.
Hypothesis not_master : master cfg = false.
Hypothesis no_auth : authRequired cfg = false.
Hypothesis long_enough : limit <= proto_max_bulk_len cfg.

Lemma bulk_length_prefix c cmd done a tl R f : pending c cmd done (a :: tl) false R f ->
  (bulk_length cfg c = Some (Break c) /\ f <> []) \/ exists c', bulk_length cfg c = Some (Next c') /\ pending c' cmd done (a :: tl) true R f.
Proof.
  intros [Hm Hc Hf Ha Hk Hs He Hh [Hb Hbytes] Hn]. pose proof (md_pos _ Hm) as Hp. apply Forall_cons in Hf as [Hfa Hftl]. pose proof Hfa as [Hfa1 Hfa2].
  assert (Hd : Forall (fun x => x <> CR /\ x <> 0) (DOLLAR :: number (length a))) by (constructor; [done|apply number_digits]).
  unfold enc_arg in Hbytes. rewrite <- !app_assoc in Hbytes. unfold bulk_length. pose proof (number_length (length a) Hfa2) as Hnl.
  destruct (read_line_prefix c _ _ f Hp Hbytes Hd) as [(u & Hu & Hr & ->)|(Hne & Hl & [->| ->])]; cbn [mbind option_bind].
  - right. cbn [Z.eqb Pos.eqb DOLLAR negb]. rewrite number_parse by done. rewrite (proj2 (Z.ltb_ge _ 0)) by lia. rewrite not_master. cbn [negb andb orb].
    destruct (Z.gtb_spec (Z.of_nat (length a)) (proto_max_bulk_len cfg)); [lia|]. rewrite no_auth, andb_false_r. cbn [length].
    set (next := qb_pos c + Z.of_nat (S (length (number (length a)))) + 2). set (c1 := if _ && _ then _ else set_pos c next). eexists. split; [done|].
    assert (Hnp : todo (set_pos c next) = u /\ pos_ok (set_pos c next)).
    { pose proof (left_todo c Hp) as Hlt. unfold left_, todo, pos_ok, sdslen, next in *. cbn [qb_pos set_pos querybuf]. rewrite Hu in Hlt. rewrite !length_app in Hlt. cbn [length CRLF] in Hlt. split; [|lia].
      replace (Z.to_nat _) with (Z.to_nat (qb_pos c) + length ((DOLLAR :: number (length a)) ++ CRLF))%nat by (rewrite length_app; cbn; lia).
      rewrite <- drop_drop, Hu, app_assoc. by rewrite drop_app_length. }
    assert (H1 : todo c1 = u /\ pos_ok c1 /\ argv c1 = done /\ multibulklen c1 = multibulklen c /\ reqtype c1 = reqtype c /\ argv_len c1 = argv_len c /\ argv_len_sum c1 = argv_len_sum c /\
      read_error c1 = None /\ halted c1 = false /\ net_input_bytes_curr_cmd c1 = net_input_bytes_curr_cmd c).
    { unfold c1. destruct Hnp as [Hn1 Hn2]. destruct (_ && _); [|by split_and!]. set (c2 := set_buf _ _ _). assert (H2 : todo c2 = u /\ pos_ok c2).
      { split; [unfold c2, todo in *; cbn in *; by rewrite Hn1|]. unfold c2, pos_ok, sdslen. cbn. lia. }
      split_and!; done || apply H2. }
    clearbody c1. destruct H1 as (P1 & P2 & P3 & P4 & P5 & P6 & P7 & P8 & P9 & P10). destruct Hm as [M1 M2 M3 M4 M5 M6 M7]. unfold argc in *.
    split; cbn [argv multibulklen argv_len_sum read_error halted net_input_bytes_curr_cmd bulklen set_net set_bulk]; try done; try congruence.
    + split; unfold argc; cbn [argv multibulklen reqtype argv_len bulklen set_net set_bulk]; [exact P2|congruence|lia|by rewrite P3, P4, <- Ha|by rewrite P3, P6, <- Ha|lia|lia].
    + by constructor.
    + split; [done|]. change (todo (set_net _ _)) with (todo c1). by rewrite P1.
    + rewrite P10, Hn. cbn. lia.
  - left. split; [|done]. unfold left_ in Hl. destruct (Z.gtb_spec (sdslen c - qb_pos c) PROTO_INLINE_MAX_SIZE); [unfold PROTO_INLINE_MAX_SIZE in *; cbn [length] in Hl; lia|done].
  - left. done.
Qed.

Lemma bulk_argument_prefix c cmd done a tl R f : pending c cmd done (a :: tl) true R f ->
  (bulk_argument cfg c = Some (Break c) /\ f <> []) \/ exists c', bulk_argument cfg c = Some (Next c') /\ argv c' = done ++ [a] /\ argv_len_sum c' = sizes (done ++ [a]) /\
    read_error c' = None /\ todo c' ++ f = enc_args tl ++ R /\ net_input_bytes_curr_cmd c' = Z.of_nat (length (number (length cmd))) + 3 + lines (done ++ [a]).
Proof.
  intros [Hm Hc Hf Ha Hk Hs He Hh [Hb Hbytes] Hn]. pose proof (md_pos _ Hm) as Hp. pose proof (left_todo c Hp) as Hl.
  destruct (bulk_argument_ok cfg c Hm ltac:(lia)) as (o & Ho & Hr). revert Ho. unfold bulk_argument. fold (left_ c). destruct (Z.ltb_spec (left_ c) (bulklen c + 2)) as [Hlt|Hge].
  - intros _. left. split; [done|]. intros ->. rewrite app_nil_r in Hbytes. rewrite Hbytes, length_app in Hl. cbn in Hl. lia.
  - intros Ho. right. revert Ho. rewrite app_assoc in Hbytes. destruct (prefix_split _ _ _ _ Hbytes) as (u & Hu & Hrest); [rewrite length_app; cbn; lia|].
    assert (Hnet : net_input_bytes_curr_cmd c = Z.of_nat (length (number (length cmd))) + 3 + lines (done ++ [a])) by (rewrite Hn, lines_snoc; lia).
    destruct (if argc c >=? argv_len c then _ else _) as [len|]; [|done]. cbn [mbind option_bind] in *. destruct (guard _) as [g|]; [|done]. cbn [mbind option_bind] in *.
    destruct (negb (master cfg) && _ && _ && _) eqn:E.
    + intros _. eexists. split; [done|]. cbn [argv argv_len_sum read_error net_input_bytes_curr_cmd set_bulk set_buf set_argv]. apply andb_prop in E as [E E4]. apply andb_prop in E as [E E3]. apply andb_prop in E as [E1 E2].
      apply Z.eqb_eq in E2, E4. assert (Hq : todo c = querybuf c) by (unfold todo; by rewrite E2). assert (Hu0 : u = []).
      { rewrite Hu, !length_app in Hl. cbn in Hl. unfold left_ in Hl. destruct u; [done|cbn in Hl; lia]. }
      subst u. rewrite app_nil_r in Hu. split_and!; [|rewrite sizes_snoc; lia|done|done|done]. rewrite Ha. f_equal. f_equal. rewrite <- Hq, Hu.
      rewrite length_app. cbn [length CRLF]. replace (length a + 2 - 2)%nat with (length a) by lia. by rewrite take_app_length.
    + rewrite unparsed_ok by done. cbn [mbind option_bind]. intros _. eexists. split; [done|]. cbn [argv argv_len_sum read_error net_input_bytes_curr_cmd set_bulk set_pos set_argv].
      split_and!; [|rewrite sizes_snoc; lia|done| |done].
      * rewrite Ha, Hb, Nat2Z.id, Hu, <- app_assoc. by rewrite take_app_length.
      * rewrite <- Hrest. f_equal. unfold todo in *. cbn [qb_pos querybuf set_bulk set_pos set_argv]. destruct Hp.
        replace (Z.to_nat _) with (Z.to_nat (qb_pos c) + length (a ++ CRLF))%nat by (rewrite length_app; cbn; lia). rewrite <- drop_drop, Hu. by rewrite drop_app_length.
Qed.

(** The loop stops in the middle of a request only when bytes are missing. *)
Lemma mbulk_loop_stream fuel c cmd done rest open R f c' ok : pending c cmd done rest open R f -> mbulk_loop cfg fuel c = Some (c', ok) ->
  if ok then ready c' cmd R f else f <> [] /\ exists done' rest' open', pending c' cmd done' rest' open' R f.
Proof.
  revert c done rest open. induction fuel as [|fuel IH]; intros c done rest open H; cbn [mbulk_loop].
  { pose proof (md_count _ (pd_mid _ _ _ _ _ _ _ H)). by rewrite (proj2 (Z.eqb_neq (multibulklen c) 0)) by lia. }
  pose proof (md_count _ (pd_mid _ _ _ _ _ _ _ H)) as Hcount. rewrite (proj2 (Z.eqb_neq (multibulklen c) 0)) by lia.
  assert (Hend : forall c, 0 < multibulklen c -> mbulk_end c = (c, false)) by (intros c0 H0; unfold mbulk_end; by rewrite (proj2 (Z.eqb_neq _ 0)) by lia).
  destruct rest as [|a tl]; [by destruct (pd_bytes _ _ _ _ _ _ _ H)|].
  set (o := if bulklen c =? -1 then bulk_length cfg c else _).
  assert (Ho : (o = Some (Break c) /\ f <> []) \/ exists c1, o = Some (Next c1) /\ pending c1 cmd done (a :: tl) true R f).
  { subst o. destruct open.
    - right. exists c. split; [|done]. destruct (pd_bytes _ _ _ _ _ _ _ H) as [Hb _]. by rewrite (proj2 (Z.eqb_neq (bulklen c) (-1))) by lia.
    - destruct (pd_bytes _ _ _ _ _ _ _ H) as [-> _]. by apply bulk_length_prefix. }
  destruct Ho as [[-> Hf]|(c1 & -> & H1)]; cbn [mbind option_bind].
  { rewrite Hend by done. intros [= <- <-]. split; [done|]. by exists done, (a :: tl), open. }
  pose proof (pd_mid _ _ _ _ _ _ _ H1) as M1. destruct (pd_bytes _ _ _ _ _ _ _ H1) as [Hb1 _].
  destruct (bulk_argument_prefix _ _ _ _ _ _ _ H1) as [[-> Hf]|(c2 & E2 & A1 & A2 & A3 & A4 & A5)]; cbn [mbind option_bind].
  { rewrite Hend by apply M1. intros [= <- <-]. split; [done|]. by exists done, (a :: tl), true. }
  destruct (bulk_argument_ok cfg c1 M1 ltac:(lia)) as (r & E2' & Hr). rewrite E2 in E2'. injection E2' as <-. destruct Hr as (Q1 & Q2 & Q3 & Q4 & Q5 & Q6 & Q7 & Q8).
  rewrite E2. cbn [mbind option_bind]. destruct H1 as [_ B1 B2 B3 B4 B5 B6 B7 _ _]. apply Forall_cons in B2 as [_ B2]. cbn [length] in B4.
  assert (Hc2 : cmd = (done ++ [a]) ++ tl) by (by rewrite <- app_assoc). destruct M1 as [M1 M2 M3 M4 M5 M6 M7].
  destruct tl as [|a' tl].
  - rewrite app_nil_r in Hc2. assert (E0 : multibulklen c2 = 0) by (cbn in B4; lia).
    assert (El : mbulk_loop cfg fuel c2 = Some (mbulk_end c2)) by (destruct fuel; cbn [mbulk_loop]; by rewrite E0). rewrite El. unfold mbulk_end. rewrite E0. cbn [Z.eqb]. intros [= <- <-].
    split; cbn [argv argv_len read_error halted net_input_bytes_curr_cmd set_net]; [exact Q1|congruence|unfold argc in *; lia|done|congruence|exact A4|].
    rewrite enc_cmd_length, A5, A2, Hc2. unfold argc. rewrite A1. lia.
  - intros Hloop. cbn [length] in B4. apply (IH c2 (done ++ [a]) (a' :: tl) false); [|exact Hloop]. split; try done; [|cbn [length]; lia|congruence| |lia].
    + split; [done|congruence|lia|lia|done|unfold argc in *; lia|lia].
    + split; [done|]. by rewrite A4, app_assoc.
Qed.

Lemma mbulk_count_prefix c cmd R f : idle c -> reqtype c = Some PROTO_REQ_MULTIBULK -> cmd_fits cmd -> read_error c = None -> halted c = false ->
  net_input_bytes_curr_cmd c = 0 -> todo c ++ f = enc_cmd cmd ++ R ->
  (mbulk_count cfg c = Some (c, Some false) /\ f <> []) \/ exists c', mbulk_count cfg c = Some (c', None) /\ pending c' cmd [] cmd false R f.
Proof.
  intros Hi Ht (Hne & Hmax & Hfit) He Hh Hn Hbytes. pose proof Hi as [Hp Ha Hc Hb Hl _]. pose proof (left_todo c Hp) as Hlt.
  assert (Hd : Forall (fun x => x <> CR /\ x <> 0) (STAR :: number (length cmd))) by (constructor; [done|apply number_digits]).
  assert (H62 : Z.of_nat (length cmd) < 2 ^ 62) by (unfold INT_MAX in Hmax; lia). pose proof (number_length (length cmd) H62) as Hnl.
  unfold enc_cmd in Hbytes. rewrite <- !app_assoc in Hbytes. destruct (mbulk_count_ok cfg c Hi Ht) as (c' & r & Hcnt & _ & Hr). revert Hcnt. unfold mbulk_count, argc. rewrite Ha. cbn [length Z.of_nat Z.eqb guard mbind option_bind].
  destruct (read_line_prefix c _ _ f Hp Hbytes Hd) as [(u & Hu & Hf & ->)|(Hnf & Hll & [->| ->])]; cbn [mbind option_bind]; [|intros _; left; split; [|done]|intros _; by left].
  - cbn [Z.eqb Pos.eqb STAR guard mbind option_bind]. rewrite number_parse by done. destruct (Z.gtb_spec (Z.of_nat (length cmd)) INT_MAX); [lia|]. rewrite no_auth, andb_false_r.
    assert (Hpos : 0 < Z.of_nat (length cmd)) by (destruct cmd; [done|cbn; lia]). rewrite (proj2 (Z.leb_gt _ 0)) by lia. intros E. injection E as <- <-. right. eexists. split; [done|].
    destruct Hr as (Hm & _ & _). split; cbn [argv multibulklen argv_len_sum read_error halted net_input_bytes_curr_cmd bulklen set_net set_bulk set_argv set_pos]; try done; [|rewrite Hn; change (lines []) with 0; destruct cmd; lia].
    destruct cmd as [|a tl]; [done|]. split; [done|]. change (enc_arg a ++ enc_args tl ++ R) with (enc_arg a ++ (enc_args tl ++ R)). rewrite app_assoc. change (enc_arg a ++ enc_args tl) with (enc_args (a :: tl)). rewrite <- Hf. f_equal.
    unfold todo in *. cbn [qb_pos querybuf set_net set_bulk set_argv set_pos]. destruct Hp.
    replace (Z.to_nat _) with (Z.to_nat (qb_pos c) + length ((STAR :: number (length (a :: tl))) ++ CRLF))%nat by (rewrite length_app; cbn [length CRLF]; lia).
    rewrite <- drop_drop, Hu, app_assoc. by rewrite drop_app_length.
  - unfold left_ in Hll. cbn [length] in Hll. destruct (Z.gtb_spec (sdslen c - qb_pos c) PROTO_INLINE_MAX_SIZE); [unfold PROTO_INLINE_MAX_SIZE in *; lia|done].
Qed.

Lemma processMultibulk_stream c cmd cmds f c' ok : stream c (cmd :: cmds) f -> cmd_fits cmd -> reqtype c = Some PROTO_REQ_MULTIBULK ->
  processMultibulkBuffer cfg c = Some (c', ok) -> if ok then ready c' cmd (enc_cmds cmds) f else f <> [] /\ stream c' (cmd :: cmds) f.
Proof.
  intros H Hfit Ht. unfold processMultibulkBuffer.
  assert (Hloop : forall c1 done rest open, pending c1 cmd done rest open (enc_cmds cmds) f -> (x ← guard (multibulklen c1 >? 0); mbulk_loop cfg (S (length (querybuf c1))) c1) = Some (c', ok) ->
    if ok then ready c' cmd (enc_cmds cmds) f else f <> [] /\ stream c' (cmd :: cmds) f).
  { intros c1 done rest open H1. destruct (guard _) as [g|]; [|done]. cbn [mbind option_bind]. intros Hl. pose proof (mbulk_loop_stream _ _ _ _ _ _ _ _ _ _ H1 Hl) as Hr. destruct ok; [done|].
    destruct Hr as (Hf & d & r & o & Hr). split; [done|]. right. by exists cmd, cmds, d, r, o. }
  destruct H as [H|(cmd' & cmds' & done & rest & open & [= <- <-] & H)].
  - pose proof H as (Hi & He & Hh & Hn & _ & Hb). rewrite (id_count _ Hi). cbn [Z.eqb].
    destruct (mbulk_count_prefix c cmd (enc_cmds cmds) f Hi Ht Hfit He Hh Hn Hb) as [[-> Hf]|(c1 & -> & H1)]; cbn [mbind option_bind].
    + intros [= <- <-]. split; [done|]. by left.
    + by apply (Hloop c1 _ _ _ H1).
  - pose proof (md_count _ (pd_mid _ _ _ _ _ _ _ H)). rewrite (proj2 (Z.eqb_neq (multibulklen c) 0)) by lia. cbn [mbind option_bind]. by apply (Hloop c _ _ _ H).
Qed.

End Parser.

Lemma enc_cmds_star cmds x u : enc_cmds cmds = x :: u -> x = STAR /\ exists cmd cmds', cmds = cmd :: cmds'.
Proof. destruct cmds as [|cmd cmds]; [done|]. intros [= <- _]. split; [done|]. by eexists _, _. Qed.

Lemma pending_bytes c cmd done rest open R f : pending c cmd done rest open R f -> todo c ++ f <> [] /\ (length (todo c ++ f) <= length (enc_cmd cmd ++ R))%nat.
Proof.
  intros [_ -> _ _ _ _ _ _ Hb _]. destruct rest as [|a tl]; [done|]. unfold enc_cmd, enc_args. rewrite map_app, concat_app. cbn [map concat]. destruct open; destruct Hb as [_ ->]; unfold enc_args, enc_arg.
  - split; [by destruct a|]. rewrite !length_app. cbn [length CRLF]. lia.
  - split; [done|]. rewrite !length_app. cbn [length CRLF]. lia.
Qed.

Lemma stream_length c cmds f : stream c cmds f -> (length (todo c ++ f) <= length (enc_cmds cmds))%nat /\ (todo c ++ f = [] -> cmds = []).
Proof.
  intros [(_ & _ & _ & _ & _ & ->)|(cmd & cmds' & done & rest & open & -> & H)].
  - split; [done|]. by destruct cmds.
  - destruct (pending_bytes _ _ _ _ _ _ _ H) as [H1 H2]. done.
Qed.

Lemma stream_facts c cmds f : stream c cmds f -> inv c /\ pos_ok c /\ read_error c = None /\ halted c = false /\ reqtype c <> Some PROTO_REQ_INLINE.
Proof.
  intros [(Hi & ? & ? & _ & ? & _)|(cmd & cmds' & done & rest & open & -> & H)].
  - split_and!; [by right; right|apply Hi|done|done|done].
  - destruct H as [Hm _ _ _ _ _ He Hh _ _]. split_and!; [by right; left|apply Hm|done|done|by rewrite (md_type _ Hm)].
Qed.

(** What the client does with the bytes: same requests, other buffer. *)
Lemma stream_todo c c' cmds f f' : stream c cmds f -> pos_ok c' -> todo c' ++ f' = todo c ++ f -> (todo c <> [] -> head (todo c') = head (todo c)) ->
  c' = set_buf c (querybuf c') (qb_pos c') -> stream c' cmds f'.
Proof.
  intros H Hp Hb Hh Hc. assert (Hfields : reqtype c' = reqtype c /\ argv c' = argv c /\ argv_len c' = argv_len c /\ argv_len_sum c' = argv_len_sum c /\ multibulklen c' = multibulklen c /\
    bulklen c' = bulklen c /\ net_input_bytes_curr_cmd c' = net_input_bytes_curr_cmd c /\ read_error c' = read_error c /\ halted c' = halted c) by (rewrite Hc; by split_and!).
  clear Hc. destruct Hfields as (F1 & F2 & F3 & F4 & F5 & F6 & F7 & F8 & F9). destruct H as [([I1 I2 I3 I4 I5 I6] & He & Hx & Hn & Ht & Ht2)|(cmd & cmds' & done & rest & open & -> & H)].
  - left. split_and!; try congruence. split; try congruence. intros Hs. rewrite F1 in Hs. specialize (I6 Hs). rewrite Hh; [done|]. by destruct (todo c).
  - right. exists cmd, cmds', done, rest, open. split; [done|]. destruct H as [[M1 M2 M3 M4 M5 M6 M7] P1 P2 P3 P4 P5 P6 P7 P8 P9].
    split; try congruence; [|by rewrite F6, Hb]. unfold argc in *. split; unfold argc; rewrite ?F2; congruence || (rewrite ?F3, ?F5, ?F6; done).
Qed.

(** ** The input buffer *)

Section Input.
Variable processCommand : list (list bytes) -> list bytes -> verdict.
Variable settings : list (list bytes) -> config.
Hypothesis continues : forall before cmd, processCommand before cmd = Continue.
Hypothesis not_master : forall before, master (settings before) = false.
Hypothesis no_auth : forall before, authRequired (settings before) = false.
Hypothesis long_enough : forall before, limit <= proto_max_bulk_len (settings before).

(** The size of the stream, for which there is room. *)
Variable total : Z.
Hypothesis room : forall before, mstate_sums (settings before) + total <= client_max_querybuf_len (settings before).

(** A command and its size on the network, as they are executed. *)
Definition logged (cmd : list bytes) : executed := (cmd, Z.of_nat (length (enc_cmd cmd))).

Lemma input_loop_stream fuel c cmds f done c' done' alive : stream c cmds f -> Forall cmd_fits cmds ->
  input_loop processCommand settings fuel c done = Some (c', done', alive) ->
  alive = true /\ exists l rest, cmds = l ++ rest /\ done' = done ++ map logged l /\ stream c' rest f /\ (f = [] -> rest = [] /\ todo c' = []).
Proof.
  revert c cmds done. induction fuel as [|fuel IH]; intros c cmds done H Hfit; cbn [input_loop];
    pose proof (stream_facts _ _ _ H) as (Hinv & Hp & He & Hh & Ht); rewrite Hh, orb_false_r.
  { destruct (negb _) eqn:E; [|done]. intros [= <- <- <-]. split; [done|]. exists [], cmds. split_and!; [done|by rewrite app_nil_r|done|]. intros ->.
    assert (Hnil : todo c = []) by (apply negb_true_iff, Z.ltb_ge in E; apply nil_length_inv; pose proof (left_todo c Hp); unfold left_ in *; lia).
    split; [|done]. apply (stream_length _ _ _ H). by rewrite Hnil. }
  destruct (negb _) eqn:E.
  { intros [= <- <- <-]. split; [done|]. exists [], cmds. split_and!; [done|by rewrite app_nil_r|done|]. intros ->.
    assert (Hnil : todo c = []) by (apply negb_true_iff, Z.ltb_ge in E; apply nil_length_inv; pose proof (left_todo c Hp); unfold left_ in *; lia).
    split; [|done]. apply (stream_length _ _ _ H). by rewrite Hnil. }
  apply negb_false_iff, Z.ltb_lt in E. destruct (querybuf c !! Z.to_nat (qb_pos c)) as [x|] eqn:Hx; [|done]. cbn [mbind option_bind].
  assert (Hhead : exists u, todo c = x :: u) by (eexists; unfold todo; by rewrite (drop_S _ _ _ Hx)). destruct Hhead as [u Hu].
  set (ty := match reqtype c with Some t => t | None => _ end).
  assert (Hcmd : ty = PROTO_REQ_MULTIBULK /\ exists cmd cmds', cmds = cmd :: cmds' /\ stream (set_reqtype c (Some ty)) (cmd :: cmds') f).
  { destruct H as [(Hi & _ & _ & Hn & _ & Hb)|(cmd & cmds' & d & r & o & -> & H)].
    - rewrite Hu in Hb. symmetry in Hb. destruct (enc_cmds_star _ _ _ Hb) as (-> & cmd & cmds' & ->). assert (Ety : ty = PROTO_REQ_MULTIBULK) by (unfold ty; by destruct (reqtype c) as [[]|]).
      split; [done|]. exists cmd, cmds'. split; [done|]. left. rewrite Ety. split_and!; try done; [|change (todo (set_reqtype c _)) with (todo c); by rewrite Hu, Hb]. apply idle_reqtype; [done|by rewrite Hu].
    - pose proof (md_type _ (pd_mid _ _ _ _ _ _ _ H)) as Hm. assert (Ety : ty = PROTO_REQ_MULTIBULK) by (unfold ty; by rewrite Hm). split; [done|]. exists cmd, cmds'. split; [done|].
      assert (Ec : set_reqtype c (Some ty) = c) by (rewrite Ety, <- Hm; by destruct c). rewrite Ec. right. by exists cmd, cmds', d, r, o. }
  destruct Hcmd as (Ety & cmd & cmds' & -> & H1). rewrite Ety in *. clear Ety ty. apply Forall_cons in Hfit as [Hfc Hfit].
  destruct (processMultibulkBuffer (settings (fst <$> done)) (set_reqtype c (Some PROTO_REQ_MULTIBULK))) as [[c2 ok]|] eqn:E2; [|done]. cbn [mbind option_bind].
  pose proof (processMultibulk_stream _ (not_master _) (no_auth _) (long_enough _) _ _ _ _ _ _ H1 Hfc eq_refl E2) as Hr. destruct ok; cbn [negb].
  - destruct Hr as [R1 R2 R3 R4 R5 R6 R7]. rewrite (proj2 (Z.eqb_neq (argc c2) 0)) by (unfold argc; rewrite R2; destruct Hfc as [? _]; destruct cmd; [done|cbn; lia]).
    unfold processCommandAndResetClient. rewrite continues, R2, R7. fold (logged cmd). intros Hloop.
    destruct (IH (resetClientInternal c2) cmds' _ ltac:(left; split_and!; try done; by apply reset_client_idle) Hfit Hloop) as (Ha & l & rest & -> & -> & Hs & Hf).
    split; [done|]. exists (cmd :: l), rest. split_and!; [done|by rewrite <- app_assoc|done|done].
  - intros [= <- <- <-]. destruct Hr as [Hf Hs]. split; [done|]. exists [], (cmd :: cmds'). split_and!; [done|by rewrite app_nil_r|done|done].
Qed.

Lemma logged_ok l : Forall cmd_fits l -> commands_ok (map logged l).
Proof. intros H. apply Forall_fmap. eapply Forall_impl; [exact H|]. intros cmd [Hne _]. exact Hne. Qed.

(** What a read gives, for a connection that stays open. *)
Definition data (r : conn_read) : bytes := match r with Data chunk => chunk | _ => [] end.
Definition open_ (r : conn_read) : Prop := match r with Data chunk => chunk <> [] | Again => True | Disconnected => False end.

Lemma read_and_process_stream c cmds r f done : commands_ok done -> open_ r -> stream c cmds (data r ++ f) -> qb_pos c = 0 -> Forall cmd_fits cmds ->
  Z.of_nat (length (enc_cmds cmds)) <= total -> (data r = [] -> f = [] -> cmds = [] /\ todo c = []) ->
  exists c' l rest, read_and_process processCommand settings c r done = Some (c', done ++ map logged l, true) /\ cmds = l ++ rest /\ stream c' rest f /\ qb_pos c' = 0 /\
    (f = [] -> rest = [] /\ todo c' = []).
Proof.
  intros Hdone Ho H Hq Hfit Hmax Hnil. unfold read_and_process. destruct r as [chunk| |]; [|exists c, [], cmds; cbn [map]; rewrite app_nil_r; split_and!; try done; by apply Hnil|done].
  destruct chunk as [|x chunk]; [done|]. cbn [data] in *. set (ch := x :: chunk) in *. clear Ho Hnil. pose proof (stream_facts _ _ _ H) as (Hinv & Hp & _).
  set (c2 := set_buf c _ _). assert (Ht2 : todo c2 = todo c ++ ch) by (unfold c2, todo; cbn; by rewrite Hq).
  assert (H2 : stream c2 cmds f).
  { apply (stream_todo c c2 cmds (ch ++ f) f H); [|by rewrite Ht2, <- app_assoc|rewrite Ht2; by destruct (todo c)|done]. unfold pos_ok, sdslen, c2 in *. cbn. rewrite length_app. lia. }
  assert (Hq2 : qb_pos c2 = 0) by done. clearbody c2. pose proof (stream_facts _ _ _ H2) as (_ & Hp2 & _). rewrite not_master, no_auth, andb_false_r, orb_false_r. cbn [negb andb].
  assert (Hs : sdslen c2 <= Z.of_nat (length (enc_cmds cmds))).
  { destruct (stream_length _ _ _ H2) as [Hl2 _]. pose proof (left_todo c2 Hp2) as Hlt. unfold left_ in Hlt. rewrite length_app in Hl2. lia. }
  pose proof (room (fst <$> done)) as Hroom. destruct (Z.gtb_spec (mstate_sums (settings (fst <$> done)) + sdslen c2) (client_max_querybuf_len (settings (fst <$> done)))); [lia|]. unfold processInputBuffer.
  destruct (input_loop_ok processCommand settings (S (length (querybuf c2))) c2 done) as (c3 & done3 & alive & E3 & _); [apply (stream_facts _ _ _ H2)|intros _; unfold left_, sdslen in *; lia|done|]. rewrite E3.
  destruct (input_loop_stream _ _ _ _ _ _ _ _ H2 Hfit E3) as (-> & l & rest & -> & -> & H3 & Hf3). cbn [mbind option_bind negb].
  destruct (Z.eqb_spec (qb_pos c3) 0) as [E0|E0]; cbn [negb]; eexists _, l, rest; (split; [done|]); (split; [done|]); [done|].
  split_and!; [|done|done]. pose proof (stream_facts _ _ _ H3) as (_ & Hp3 & _). apply (stream_todo c3 _ rest f f H3); try done. unfold pos_ok, sdslen. cbn. lia.
Qed.

Lemma read_all_stream reads c cmds done : commands_ok done -> Forall open_ reads -> stream c cmds (concat (map data reads)) -> qb_pos c = 0 -> Forall cmd_fits cmds ->
  Z.of_nat (length (enc_cmds cmds)) <= total -> (concat (map data reads) = [] -> cmds = [] /\ todo c = []) ->
  exists c', read_all processCommand settings c reads done = Some (c', done ++ map logged cmds, true) /\ read_error c' = None /\ querybuf c' = [].
Proof.
  revert c cmds done. induction reads as [|r reads IH]; intros c cmds done Hd Ho H Hq Hfit Hmax Hnil; cbn [read_all].
  - destruct (Hnil eq_refl) as [-> Ht]. exists c. cbn [map]. rewrite app_nil_r. split_and!; [done|apply (stream_facts _ _ _ H)|]. unfold todo in Ht. by rewrite Hq in Ht.
  - cbn [map concat] in *. apply Forall_cons in Ho as [Hr Ho]. pose proof (stream_facts _ _ _ H) as (_ & _ & He & _).
    assert (Ec : clear_error c = c) by (destruct c; cbn in He; by subst). unfold readQueryFromClient. rewrite Ec.
    destruct (read_and_process_stream c cmds r (concat (map data reads)) done Hd Hr H Hq Hfit Hmax) as (c' & l & rest & -> & -> & H' & Hq' & Hf'); [intros E1 E2; apply Hnil; by rewrite E1, E2|].
    cbn [mbind option_bind]. rewrite Hq'. cbn [Z.eqb guard mbind option_bind negb].
    pose proof (stream_facts _ _ _ H') as (_ & _ & He' & _). unfold handleClientReadError. rewrite He'. apply Forall_app in Hfit as [Hfl Hfit].
    destruct (IH c' rest (done ++ map logged l) ltac:(apply Forall_app; split; [done|by apply logged_ok]) Ho H' Hq' Hfit) as (c'' & -> & R1 & R2); [|done|].
    { unfold enc_cmds in *. rewrite map_app, concat_app, length_app in Hmax. lia. }
    exists c''. by rewrite map_app, app_assoc.
Qed.

(** C5. A stream of commands: when a client that is not a master and is authenticated
    sends the commands [cmds], each written as [*<count>] and for every argument
    [$<length>] and its bytes, and the bytes are received in any cut into reads, the
    server executes these commands, with these arguments, in this order, and
    with the size each had on the network; it reports no error and keeps no
    byte. *)
Theorem resp_stream cmds reads :
  Forall cmd_fits cmds -> Z.of_nat (length (enc_cmds cmds)) <= total -> Forall open_ reads -> concat (map data reads) = enc_cmds cmds ->
  exists c, read_all processCommand settings new_client reads [] = Some (c, map logged cmds, true) /\ read_error c = None /\ querybuf c = [].
Proof.
  intros Hfit Hmax Ho Hcat. apply (read_all_stream reads new_client cmds []); try done.
  - constructor.
  - left. split_and!; try done.
  - rewrite Hcat. by destruct cmds.
Qed.

(** ** Inline requests *)

Definition printable (x : Z) : bool := (32 <=? x) && (x <=? 126).

Lemma repr_byte_printable c : urange 8 c -> forallb printable (repr_byte c) = true.
Proof. revert c. apply (byte_forall (fun c => forallb printable (repr_byte c) = true)). by vm_compute. Qed.

Lemma repr_printable a : bytes_ok a -> forallb printable (repr a) = true.
Proof.
  intros Ha. unfold repr. cbn [forallb]. rewrite forallb_app. cbn. rewrite andb_true_r. induction Ha as [|x a Hx _ IH]; [done|]. cbn [map concat]. by rewrite forallb_app, repr_byte_printable.
Qed.

(** The line of an inline request with the quoted arguments [args]. *)
Definition inline_line (args : list bytes) : bytes := join [32] (map repr args).

Lemma inline_line_bytes args : Forall bytes_ok args -> Forall (fun x => 32 <= x <= 126) (inline_line args).
Proof.
  intros H. assert (Hf : forallb printable (inline_line args) = true).
  { unfold inline_line. destruct H as [|a l Ha Hl]; [done|]. cbn [map]. rewrite join_cons, forallb_app, repr_printable by done. cbn [andb].
    induction Hl as [|b l Hb _ IH]; [done|]. cbn [map concat]. by rewrite !forallb_app, repr_printable. }
  apply Forall_forall. intros x Hx. apply list_elem_of_In in Hx. rewrite forallb_forall in Hf. specialize (Hf x Hx). unfold printable in Hf. lia.
Qed.

Lemma processInline_line cfg c line args : master cfg = false -> pos_ok c -> todo c = line ++ CRLF -> Forall (fun x => 32 <= x <= 126) line -> sdssplitargs (c_string line) = Some (Some args) ->
  exists c', processInlineBuffer cfg c = Some (c', true) /\ argv c' = args /\ querybuf c' = querybuf c /\ qb_pos c' = sdslen c /\ read_error c' = read_error c /\ halted c' = halted c.
Proof.
  intros Hm Hp Ht Hl Hs. pose proof (left_todo c Hp) as Hlt. rewrite Ht, length_app in Hlt. cbn [length CRLF] in Hlt. unfold processInlineBuffer. rewrite unparsed_ok by done. cbn [mbind option_bind].
  assert (Hn : strchr_at (todo c) LF = Some (S (length line))).
  { rewrite Ht. change CRLF with ([CR] ++ [LF]). rewrite app_assoc, strchr_at_found; [rewrite length_app; f_equal; cbn; lia|]. apply Forall_app. split; [|by apply Forall_singleton].
    eapply Forall_impl; [exact Hl|]. unfold LF. cbn. lia. }
  rewrite Hn. rewrite bool_decide_eq_false_2 by done. replace (S (length line) - 1)%nat with (length line) by lia. cbn [negb andb].
  assert (Hcr : todo c !! length line = Some CR) by (rewrite Ht, lookup_app_r by lia; by rewrite Nat.sub_diag). rewrite Hcr. cbn [mbind option_bind Z.eqb Pos.eqb CR].
  assert (Htake : take (length line) (todo c) = line) by (rewrite Ht; by rewrite take_app_length). rewrite Htake, Hs. cbn [mbind option_bind]. rewrite Hm, andb_false_r.
  set (c1 := if _ && slave cfg then _ else c). assert (H1 : querybuf c1 = querybuf c /\ qb_pos c1 = qb_pos c /\ read_error c1 = read_error c /\ halted c1 = halted c) by (unfold c1; destruct (_ && _); split_and!; done).
  clearbody c1. destruct H1 as (I1 & I2 & I3 & I4). destruct (if negb (Z.of_nat (length args) =? 0) then _ else _) as [len sum]. eexists. split; [done|]. cbn.
  unfold left_ in Hlt. split_and!; [done|done|lia|done|done].
Qed.

(** Inline requests: a line of quoted arguments, as [sdscatrepr] writes them,
    sent to a new client is executed as one command with these arguments,
    whatever bytes the arguments have. *)
Theorem inline_request args : Forall bytes_ok args -> args <> [] -> Z.of_nat (length (inline_line args)) + 2 <= total ->
  exists c size, readQueryFromClient processCommand settings new_client (Data (inline_line args ++ CRLF)) [] = Some (c, [(args, size)], true) /\ read_error c = None /\ querybuf c = [].
Proof.
  intros Hb Hne Hmax. pose proof (inline_line_bytes args Hb) as Hp. unfold readQueryFromClient, read_and_process. set (line := inline_line args) in *.
  assert (Hsplit : sdssplitargs (c_string line) = Some (Some args)) by (rewrite c_string_id by (eapply Forall_impl; [exact Hp|cbn; lia]); by apply split_args_repr).
  assert (Hhead : exists u, line = DQ :: u) by (unfold line, inline_line; destruct args as [|a l]; [done|]; cbn [map]; rewrite join_cons; by eexists). destruct Hhead as [u Hu].
  destruct (line ++ CRLF) as [|x ch] eqn:Hcons; [by rewrite Hu in Hcons|].
  set (c1 := set_buf _ _ _). assert (H1 : querybuf c1 = line ++ CRLF /\ qb_pos c1 = 0 /\ reqtype c1 = None /\ read_error c1 = None /\ halted c1 = false) by (by rewrite Hcons).
  clearbody c1. destruct H1 as (B1 & B2 & B3 & B4 & B5). assert (Hlen : sdslen c1 = Z.of_nat (length line) + 2) by (unfold sdslen; rewrite B1, length_app; cbn; lia).
  rewrite not_master, no_auth, andb_false_r, orb_false_r, Hlen. cbn [negb andb]. pose proof (room []) as Hroom. cbn [fmap list_fmap].
  destruct (Z.gtb_spec (mstate_sums (settings []) + (Z.of_nat (length line) + 2)) (client_max_querybuf_len (settings []))); [lia|].
  unfold processInputBuffer. assert (Hfuel : exists k, length (querybuf c1) = S k) by (rewrite B1, Hu; by eexists). destruct Hfuel as [k ->]. set (fuel := S k). cbn [input_loop]. rewrite B2, B5, Hlen, (proj2 (Z.ltb_lt 0 _)) by lia. cbn [negb orb].
  assert (Hfirst : querybuf c1 !! Z.to_nat 0 = Some DQ) by (by rewrite B1, Hu). rewrite Hfirst, B3. cbn [mbind option_bind Z.eqb Pos.eqb DQ STAR].
  destruct (processInline_line (settings []) (set_reqtype c1 (Some PROTO_REQ_INLINE)) line args) as (c2 & E & E1 & E2 & E3 & E4 & E5); [done| |unfold todo; cbn; by rewrite B2, B1|done|done|].
  { unfold pos_ok, sdslen. cbn. rewrite B2. lia. }
  cbn [fmap list_fmap]. rewrite E. cbn [mbind option_bind negb]. rewrite (proj2 (Z.eqb_neq (argc c2) 0)) by (unfold argc; rewrite E1; destruct args; [done|cbn; lia]).
  unfold processCommandAndResetClient. rewrite continues, E1. unfold fuel. cbn [input_loop]. cbn in E2, E3. unfold sdslen in *. cbn [qb_pos resetClientInternal reset_request set_net set_bulk set_reqtype set_argv querybuf].
  cbn in E3. rewrite E2, E3, Z.ltb_irrefl. cbn [negb orb mbind option_bind]. cbn [qb_pos resetClientInternal reset_request set_net set_bulk set_reqtype set_argv querybuf]. rewrite E3.
  rewrite (proj2 (Z.eqb_neq _ 0)) by lia. cbn in E4. cbn [negb mbind option_bind set_buf qb_pos Z.eqb guard]. unfold handleClientReadError. cbn [read_error set_buf resetClientInternal reset_request set_net set_bulk set_reqtype set_argv].
  rewrite E4, B4. eexists _, _. split; [done|]. cbn. split; [congruence|]. rewrite E2, Nat2Z.id. apply drop_all.
Qed.

End Input.

End Stream.

(** * Samples *)

Module Sample.

Definition settings (before : list (list bytes)) : config := mkConfig false false false 1024 4096 0 0.
Definition run (before : list (list bytes)) (cmd : list bytes) : verdict := Continue.

(** [GET k] with a key of binary bytes, then [PING], received in three reads. *)
Definition cmds : list (list bytes) := [[[71; 69; 84]; [13; 10; 0]]; [[80; 73; 78; 71]]].
Definition reads : list conn_read := [Data (take 1 (enc_cmds cmds)); Data (take 14 (drop 1 (enc_cmds cmds))); Again; Data (drop 15 (enc_cmds cmds))].

Lemma resp_stream_witness : exists c, read_all run settings new_client reads [] = Some (c, map logged cmds, true) /\ read_error c = None /\ querybuf c = [].
Proof.
  apply (resp_stream 1024 run settings (fun _ _ => eq_refl) (fun _ => eq_refl) (fun _ => eq_refl) ltac:(intros b; by vm_compute) 100 ltac:(intros b; by vm_compute) cmds reads).
  - repeat constructor; by vm_compute.
  - by vm_compute.
  - repeat constructor; by vm_compute.
  - by vm_compute.
Defined.

Lemma inline_request_witness : exists c size, readQueryFromClient run settings new_client (Data (inline_line [[71; 69; 84]; [10; 0; 34]] ++ CRLF)) [] =
  Some (c, [([[71; 69; 84]; [10; 0; 34]], size)], true) /\ read_error c = None /\ querybuf c = [].
Proof.
  apply (inline_request run settings (fun _ _ => eq_refl) (fun _ => eq_refl) (fun _ => eq_refl) 100 ltac:(intros b; by vm_compute) [[71; 69; 84]; [10; 0; 34]]).
  - repeat constructor; by vm_compute.
  - done.
  - by vm_compute.
Defined.

End Sample.

End RespStream.
