(* ===== verification/Glob.v ===== *)
(** Glob-style patterns: [stringmatchlen] and [prefixmatch] of util.c.

    A pattern and a string are their bytes; a pointer into one is an offset, and the
    length that goes with it in the code is what is left from this offset, since
    the code moves both together.  A read past the terminator is [None]. *)

From S2P Require Import Prelude Sds SdsSpec SdsSplit.

Module Glob.
Import Sds SdsSpec SdsSplit.

Definition ASTERISK : Z := 42.
Definition QUESTION : Z := 63.
Definition LBRACKET : Z := 91.
Definition BACKSLASH : Z := 92.
Definition RBRACKET : Z := 93.
Definition CARET : Z := 94.
Definition MINUS : Z := 45.

(** A [char] as an [int]: plain [char] is signed. *)
Definition sc (b : Z) : Z := if b <? 128 then b else b - 256.

Section Match.
Variable nocase : bool.

(** The three tests of a character in a class. *)
Definition in_range (a b x : Z) : bool :=
  let '(start, stop) := if sc a >? sc b then (sc b, sc a) else (sc a, sc b) in
  let '(start, stop, c) := if nocase then (tolower start, tolower stop, tolower (sc x)) else (start, stop, sc x) in
  (c >=? start) && (c <=? stop).

Definition same_char (a x : Z) : bool := if nocase then tolower (sc a) =? tolower (sc x) else a =? x.

Variable pattern : bytes.

(** [patternLen] at the offset [p]. *)
Definition patternLen (p : nat) : nat := length pattern - p.

(** [while (patternLen && pattern[1] == '*')]. *)
Fixpoint skip_stars (fuel : nat) (p : nat) : option nat :=
  if bool_decide (patternLen p = 0%nat) then Some p
  else
    c ← ch pattern (p + 1);
    if c =? ASTERISK then match fuel with O => None | S fuel => skip_stars fuel (p + 1) end else Some p.

(** [while(patternLen && *pattern == '*')]. *)
Fixpoint skip_trailing (fuel : nat) (p : nat) : option nat :=
  if bool_decide (patternLen p = 0%nat) then Some p
  else
    c ← ch pattern p;
    if c =? ASTERISK then match fuel with O => None | S fuel => skip_trailing fuel (p + 1) end else Some p.

(** The loop on a class, for the character [x] of the string. *)
Fixpoint class_loop (fuel : nat) (p : nat) (x : Z) (found : bool) : option (nat * bool) :=
  match fuel with
  | O => None
  | S fuel =>
    c ← ch pattern p;
    if (2 <=? Z.of_nat (patternLen p)) && (c =? BACKSLASH) then
      e ← ch pattern (p + 1);
      class_loop fuel (p + 2) x (found || (e =? x))
    else if bool_decide (patternLen p = 0%nat) then Some ((p - 1)%nat, found)
    else if c =? RBRACKET then Some (p, found)
    else
      d ← ch pattern (p + 1);
      if (3 <=? Z.of_nat (patternLen p)) && (d =? MINUS) then
        e ← ch pattern (p + 2);
        class_loop fuel (p + 3) x (found || in_range c e x)
      else class_loop fuel (p + 1) x (found || same_char c x)
  end.

(** The cases of the [switch] other than a star: the position in the pattern before the
    last increment, or [return 0]. *)
Definition one_char (p : nat) (c x : Z) : option (option nat) :=
  if c =? QUESTION then Some (Some p)
  else if c =? LBRACKET then
    let p := (p + 1)%nat in
    h ← ch pattern p;
    let neg := negb (bool_decide (patternLen p = 0%nat)) && (h =? CARET) in
    let p := if neg then (p + 1)%nat else p in
    '(p, found) ← class_loop (S (patternLen p)) p x false;
    Some (if (if neg then negb found else found) then Some p else None)
  else
    let p := if (c =? BACKSLASH) && (2 <=? Z.of_nat (patternLen p)) then (p + 1)%nat else p in
    c ← ch pattern p;
    Some (if same_char c x then Some p else None).

Variable string : bytes.
Definition stringLen (q : nat) : nat := length string - q.

(** [while(stringLen)] in the case of a star: [rec] is the recursive call. *)
Fixpoint star_loop (rec : nat -> nat -> bool -> option (bool * bool)) (fuel : nat) (p q : nat) (skip : bool) : option (bool * bool) :=
  if bool_decide (stringLen q = 0%nat) then Some (false, true)
  else match fuel with
  | O => None
  | S fuel =>
    '(r, skip) ← rec (p + 1)%nat q skip;
    if r : bool then Some (true, skip)
    else if skip : bool then Some (false, skip)
    else star_loop rec fuel p (q + 1) skip
  end.

(** The main loop: the value returned and [*skipLongerMatches]. *)
Fixpoint match_loop (rec : nat -> nat -> bool -> option (bool * bool)) (fuel : nat) (p q : nat) (skip : bool) : option (bool * bool) :=
  if bool_decide (patternLen p = 0%nat) || bool_decide (stringLen q = 0%nat)
  then Some (bool_decide (patternLen p = 0%nat) && bool_decide (stringLen q = 0%nat), skip)
  else match fuel with
  | O => None
  | S fuel =>
    c ← ch pattern p;
    x ← ch string q;
    if c =? ASTERISK then
      p ← skip_stars (patternLen p) p;
      if bool_decide (patternLen p = 1%nat) then Some (true, skip)
      else star_loop rec (stringLen q) p q skip
    else
      r ← one_char p c x;
      match r with
      | None => Some (false, skip)
      | Some p =>
        let p := (p + 1)%nat in
        let q := (q + 1)%nat in
        if bool_decide (stringLen q = 0%nat) then
          p ← skip_trailing (patternLen p) p;
          Some (bool_decide (patternLen p = 0%nat), skip)
        else match_loop rec fuel p q skip
      end
  end.

(** The nesting is at most 1000: [depth] is what is left of it. *)
Fixpoint stringmatchlen_impl (depth : nat) (p q : nat) (skip : bool) : option (bool * bool) :=
  match depth with
  | O => Some (false, skip)
  | S depth => match_loop (stringmatchlen_impl depth) (patternLen p) p q skip
  end.

End Match.

Definition max_nesting : nat := 1001.

Definition stringmatchlen (pattern string : bytes) (nocase : bool) : option bool :=
  fst <$> stringmatchlen_impl nocase pattern string max_nesting 0 0 false.

Definition stringmatch (pattern string : bytes) (nocase : bool) : option bool := stringmatchlen (c_string pattern) (c_string string) nocase.

(** The backslashes before the position [i], counted backwards. *)
Fixpoint backslashes (pattern : bytes) (i : nat) : option nat :=
  match i with
  | O => Some 0%nat
  | S i => c ← ch pattern i; if c =? BACKSLASH then S <$> backslashes pattern i else Some 0%nat
  end.

Definition prefixmatch (pattern prefixStr : bytes) (nocase : bool) : option bool :=
  r ← stringmatchlen pattern prefixStr nocase;
  if negb r then Some false
  else if bool_decide (length pattern = 0%nat) then Some false
  else
    c ← ch pattern (length pattern - 1);
    if negb (c =? ASTERISK) then Some false
    else n ← backslashes pattern (length pattern - 1); Some (Nat.even n).


End Glob.
