(* ===== verification/GlobSpec.v ===== *)
(** Glob-style patterns: [stringmatchlen] decides the language of the pattern, and
    [prefixmatch] is sound when the pattern ends with a star. *)

From S2P Require Import Prelude Sds SdsSpec SdsSplit Glob.

Module GlobSpec.
Import Sds SdsSpec SdsSplit Glob.

(** * The language of a pattern *)

(** An element of a class: an escaped character, a range, or a character. *)
Inductive item := Esc (c : Z) | Range (a b : Z) | Char (c : Z).
Inductive token := Star | Any | Class (neg : bool) (l : list item) | Lit (c : Z).

(** The elements of a class, and what follows its closing bracket. *)
Fixpoint items (l : bytes) : list item * bytes :=
  match l with
  | [] => ([], [])
  | c :: l1 =>
    match l1 with
    | e :: l2 =>
      if c =? BACKSLASH then let '(i, r) := items l2 in (Esc e :: i, r)
      else if c =? RBRACKET then ([], l1)
      else match l2 with
      | b :: l3 => if e =? MINUS then let '(i, r) := items l3 in (Range c b :: i, r) else let '(i, r) := items l1 in (Char c :: i, r)
      | [] => let '(i, r) := items l1 in (Char c :: i, r)
      end
    | [] => if c =? RBRACKET then ([], []) else ([Char c], [])
    end
  end.

Definition next (c : Z) (r : bytes) : token * bytes :=
  if c =? ASTERISK then (Star, r)
  else if c =? QUESTION then (Any, r)
  else if c =? LBRACKET then
    match r with
    | h :: r' => if h =? CARET then let '(i, r) := items r' in (Class true i, r) else let '(i, r) := items r in (Class false i, r)
    | [] => (Class false [], [])
    end
  else if c =? BACKSLASH then match r with e :: r' => (Lit e, r') | [] => (Lit c, []) end
  else (Lit c, r).

Fixpoint tokens (fuel : nat) (l : bytes) : list token :=
  match fuel, l with
  | S fuel, c :: r => let '(t, r) := next c r in t :: tokens fuel r
  | _, _ => []
  end.

Definition parse (l : bytes) : list token := tokens (length l) l.

Definition item_ok (nocase : bool) (x : Z) (i : item) : bool :=
  match i with Esc e => e =? x | Range a b => in_range nocase a b x | Char c => same_char nocase c x end.

Definition accepts (nocase : bool) (t : token) (x : Z) : bool :=
  match t with
  | Star => false | Any => true | Lit c => same_char nocase c x
  | Class neg l => if neg then negb (existsb (item_ok nocase x) l) else existsb (item_ok nocase x) l
  end.

(** The strings of a list of tokens: a star stands for any string. *)
Inductive glob (nocase : bool) : list token -> bytes -> Prop :=
| glob_nil : glob nocase [] []
| glob_one t ts x s : accepts nocase t x = true -> glob nocase ts s -> glob nocase (t :: ts) (x :: s)
| glob_star ts u s : glob nocase ts s -> glob nocase (Star :: ts) (u ++ s).

Fixpoint stars (ts : list token) : nat :=
  match ts with [] => 0%nat | Star :: ts => S (stars ts) | _ :: ts => stars ts end.

(** ** Parsing *)

Lemma items_rest n l : (length l <= n)%nat -> (length (items l).2 <= length l)%nat.
Proof.
  revert l. induction n as [|n IH]; intros l Hl; [by destruct l; cbn in *; [|lia]|].
  assert (Hpair : forall i l', (length l' <= n)%nat -> (length (let '(j, r) := items l' in (i :: j, r)).2 <= length l')%nat).
  { intros i l' Hl'. specialize (IH l' Hl'). by destruct (items l'). }
  destruct l as [|c [|e [|b l3]]]; cbn [items]; [done|by destruct (_ =? _); cbn; lia| |].
  - repeat destruct (_ =? _); cbn; lia.
  - cbn [length] in *. destruct (_ =? BACKSLASH); [specialize (Hpair (Esc e) (b :: l3)); cbn [length] in *; cbn [items] in Hpair; lia|].
    destruct (_ =? RBRACKET); [cbn; lia|]. destruct (_ =? MINUS).
    + specialize (Hpair (Range c b) l3). lia.
    + specialize (Hpair (Char c) (e :: b :: l3)). cbn [length] in *. cbn [items] in Hpair. lia.
Qed.

Lemma next_rest c r : (length (next c r).2 <= length r)%nat.
Proof.
  unfold next. repeat (destruct (_ =? _); [try done|]); try done.
  - destruct r as [|h r']; [done|]. pose proof (items_rest _ r' (le_n _)). pose proof (items_rest _ (h :: r') (le_n _)).
    destruct (_ =? _); [destruct (items r')|destruct (items (h :: r'))]; cbn in *; lia.
  - destruct r; cbn; lia.
Qed.

Lemma tokens_enough f l : (length l <= f)%nat -> tokens f l = parse l.
Proof.
  unfold parse. remember (length l) as n eqn:En. assert (Hn : (length l <= n)%nat) by lia. clear En. intros Hf. revert f l Hf Hn. induction n as [|n IH]; intros f l Hf Hn.
  - destruct l; [|cbn in Hn; lia]. by destruct f.
  - destruct f as [|f]; [lia|]. destruct l as [|c r]; [done|]. cbn [tokens]. pose proof (next_rest c r) as Hr. destruct (next c r) as [t r']. cbn in *. f_equal. apply IH; lia.
Qed.

Lemma parse_cons c r : parse (c :: r) = (next c r).1 :: parse (next c r).2.
Proof. unfold parse at 1. cbn [length tokens]. pose proof (next_rest c r) as Hr. destruct (next c r) as [t r']. cbn in *. by rewrite tokens_enough. Qed.

Lemma parse_star r : parse (ASTERISK :: r) = Star :: parse r.
Proof. by rewrite parse_cons. Qed.

Lemma next_not_star c r : c <> ASTERISK -> (next c r).1 <> Star.
Proof.
  intros Hc. unfold next. rewrite (proj2 (Z.eqb_neq c ASTERISK)) by done. repeat (destruct (_ =? _); [try done|]); try done.
  - destruct r as [|h r']; [done|]. destruct (_ =? _); [by destruct (items r')|by destruct (items (h :: r'))].
  - by destruct r.
Qed.

(** ** Matching *)

Section Lang.
Context {nocase : bool}.

Lemma glob_star_inv ts s : glob nocase (Star :: ts) s <-> exists q, (q <= length s)%nat /\ glob nocase ts (drop q s).
Proof.
  split.
  - intros H. inversion H as [|t ts' x s' Hx|ts' u s' Hg]; subst; [done|]. exists (length u). rewrite length_app, drop_app_length. split; [lia|done].
  - intros (q & Hq & H). rewrite <- (take_drop q s). by constructor.
Qed.

Lemma glob_one_inv t ts s : t <> Star -> glob nocase (t :: ts) s <-> exists x s', s = x :: s' /\ accepts nocase t x = true /\ glob nocase ts s'.
Proof.
  intros Ht. split.
  - intros H. inversion H; subst; [|done]. by eexists _, _.
  - intros (x & s' & -> & Hx & H). by constructor.
Qed.

Lemma glob_nil_inv s : glob nocase [] s <-> s = [].
Proof. split; [by inversion 1|intros ->; constructor]. Qed.

Lemma glob_star_star ts s : glob nocase (Star :: Star :: ts) s <-> glob nocase (Star :: ts) s.
Proof.
  rewrite !glob_star_inv. split.
  - intros (q & Hq & H). rewrite glob_star_inv in H. destruct H as (q' & Hq' & H). rewrite drop_drop in H. exists (q + q')%nat. rewrite length_drop in Hq'. split; [lia|done].
  - intros (q & Hq & H). exists q. split; [done|]. rewrite glob_star_inv. exists 0%nat. split; [lia|done].
Qed.

End Lang.

(** * The pointers *)

Lemma ch_cons l p c r : drop p l = c :: r -> ch l p = Some c /\ drop (p + 1) l = r /\ (p < length l)%nat.
Proof.
  intros E. assert (Hl : l !! p = Some c) by (rewrite <- (Nat.add_0_r p), <- lookup_drop, E; done). pose proof (lookup_lt_Some _ _ _ Hl). unfold ch. rewrite lookup_app_l by done.
  split_and!; [done| |done]. rewrite <- drop_drop, E. done.
Qed.

Lemma ch_end l p : (p <= length l)%nat -> drop p l = [] -> ch l p = Some 0 /\ p = length l.
Proof. intros Hp E. assert (p = length l) as -> by (apply (f_equal length) in E; rewrite length_drop in E; cbn in E; lia). unfold ch. by rewrite lookup_app_r, Nat.sub_diag by lia. Qed.

Section Pointers.
Variables (nocase : bool) (pattern : bytes).
Local Abbreviation P p := (drop p pattern).

Lemma patternLen_drop p : patternLen pattern p = length (P p).
Proof. unfold patternLen. by rewrite length_drop. Qed.

Lemma skip_stars_ok fuel p r : P p = ASTERISK :: r -> (length r < fuel)%nat -> exists p' r', skip_stars pattern fuel p = Some p' /\ P p' = ASTERISK :: r' /\ head r' <> Some ASTERISK /\
  (p <= p')%nat /\ (forall s, glob nocase (parse (ASTERISK :: r)) s <-> glob nocase (parse (ASTERISK :: r')) s) /\ (stars (parse (ASTERISK :: r')) <= stars (parse (ASTERISK :: r)))%nat.
Proof.
  revert p r. induction fuel as [|fuel IH]; intros p r E Hf; [lia|]. cbn [skip_stars]. rewrite patternLen_drop, E. rewrite bool_decide_eq_false_2 by done. destruct (ch_cons _ _ _ _ E) as (_ & E1 & Hp).
  destruct r as [|d r].
  - destruct (ch_end pattern (p + 1)) as [-> _]; [lia|done|]. cbn. exists p, []. by split_and!.
  - destruct (ch_cons _ _ _ _ E1) as (-> & _ & _). cbn [mbind option_bind]. destruct (Z.eqb_spec d ASTERISK) as [->|Hd]; [|exists p, (d :: r); split_and!; try done; intros [= ?]; done].
    destruct (IH (p + 1)%nat r E1 ltac:(cbn in Hf; lia)) as (p' & r' & -> & H1 & H2 & H3 & H4 & H5). exists p', r'. split_and!; try done; [lia| |].
    + intros s. rewrite <- H4. rewrite !parse_star. apply glob_star_star.
    + rewrite (parse_star (ASTERISK :: r)). cbn [stars]. lia.
Qed.

Lemma skip_trailing_ok fuel p : (p <= length pattern)%nat -> (length (P p) <= fuel)%nat -> exists p', skip_trailing pattern fuel p = Some p' /\
  (bool_decide (patternLen pattern p' = 0%nat) = true <-> glob nocase (parse (P p)) []).
Proof.
  revert p. induction fuel as [|fuel IH]; intros p Hp Hf; cbn [skip_trailing]; rewrite patternLen_drop; destruct (P p) as [|c r] eqn:E; cbn [length] in *.
  1, 3: exists p; rewrite bool_decide_eq_true_2 by done; (split; [done|]); rewrite patternLen_drop, E; split; [constructor|done].
  - lia.
  - rewrite bool_decide_eq_false_2 by done. destruct (ch_cons _ _ _ _ E) as (-> & E1 & Hlt). cbn [mbind option_bind]. destruct (Z.eqb_spec c ASTERISK) as [->|Hc].
    + destruct (IH (p + 1)%nat) as (p' & -> & H); [lia|rewrite E1; lia|]. exists p'. split; [done|]. rewrite H, E1, parse_star, glob_star_inv. split; [intros Hg; exists 0%nat; by split|].
      intros (q & Hq & Hg). by rewrite drop_nil in Hg.
    + exists p. split; [done|]. rewrite patternLen_drop, E. split; [done|]. rewrite parse_cons, glob_one_inv by (by apply next_not_star). intros (x & s' & ? & _). done.
Qed.

Lemma class_loop_ok fuel p x found : (1 <= p <= length pattern)%nat -> (length (P p) < fuel)%nat -> exists p',
  class_loop nocase pattern fuel p x found = Some (p', found || existsb (item_ok nocase x) (items (P p)).1) /\ P (p' + 1) = (items (P p)).2 /\ (p <= p' + 1)%nat /\ (p' < length pattern)%nat.
Proof.
  revert p found. induction fuel as [|fuel IH]; intros p found Hp Hf; [lia|]. cbn [class_loop]. rewrite patternLen_drop. destruct (P p) as [|c r] eqn:E.
  { destruct (ch_end pattern p) as [-> Hend]; [lia|done|]. cbn. exists (p - 1)%nat. rewrite orb_false_r. replace (p - 1 + 1)%nat with p by lia. split_and!; [done|done|lia|lia]. }
  destruct (ch_cons _ _ _ _ E) as (-> & E1 & Hlt). cbn [mbind option_bind length]. rewrite (bool_decide_eq_false_2 (S _ = _)) by done.
  assert (Hstep : forall k i l', (1 <= k)%nat -> (p + k <= length pattern)%nat -> P (p + k) = l' -> (length l' < length (c :: r))%nat -> exists p', class_loop nocase pattern fuel (p + k) x (found || item_ok nocase x i) =
    Some (p', found || existsb (item_ok nocase x) (let '(j, r0) := items l' in (i :: j, r0)).1) /\ P (p' + 1) = (let '(j, r0) := items l' in (i :: j, r0)).2 /\ (p <= p' + 1)%nat /\ (p' < length pattern)%nat).
  { intros k i l' Hk Hk2 E' Hl'. destruct (IH (p + k)%nat (found || item_ok nocase x i)) as (p' & -> & H1 & H2 & H3); [lia|rewrite E'; lia|]. rewrite E' in *. exists p'. destruct (items l') as [j r0]. cbn [fst snd existsb] in *.
    split_and!; [by rewrite orb_assoc|done|lia|done]. }
  destruct r as [|e [|b l3]]; cbn [length].
  - replace (2 <=? Z.of_nat 1) with false by done. cbn [andb items]. destruct (Z.eqb_spec c RBRACKET) as [->|Hc].
    + exists p. rewrite orb_false_r. split_and!; [done|done|lia|done].
    + destruct (ch_end pattern (p + 1)) as [-> _]; [lia|done|]. cbn [mbind option_bind]. replace (3 <=? Z.of_nat 1) with false by done. cbn [andb]. apply (Hstep 1%nat (Char c) []); [lia|lia|done|cbn; lia].
  - destruct (ch_cons _ _ _ _ E1) as (-> & E2 & Hlt2). replace (2 <=? Z.of_nat 2) with true by done. cbn [andb mbind option_bind]. change (items [c; e]) with (if c =? BACKSLASH then ([Esc e], []) else if c =? RBRACKET then ([], [e]) else let '(i, r) := items [e] in (Char c :: i, r)).
    replace (p + 1 + 1)%nat with (p + 2)%nat in E2 by lia. destruct (c =? BACKSLASH); [apply (Hstep 2%nat (Esc e) []); [lia|lia|done|cbn; lia]|].
    destruct (c =? RBRACKET); [exists p; rewrite orb_false_r; split_and!; [done|done|lia|done]|]. replace (3 <=? Z.of_nat 2) with false by done. cbn [andb]. apply (Hstep 1%nat (Char c) [e]); [lia|lia|done|cbn; lia].
  - destruct (ch_cons _ _ _ _ E1) as (-> & E2 & Hlt2). destruct (ch_cons _ _ _ _ E2) as (He & E3 & Hlt3). replace (p + 1 + 1)%nat with (p + 2)%nat in * by lia. replace (p + 2 + 1)%nat with (p + 3)%nat in * by lia.
    rewrite (proj2 (Z.leb_le 2 _)), (proj2 (Z.leb_le 3 _)) by lia. cbn [andb mbind option_bind].
    change (items (c :: e :: b :: l3)) with (if c =? BACKSLASH then let '(i, r) := items (b :: l3) in (Esc e :: i, r) else if c =? RBRACKET then ([], e :: b :: l3) else
      if e =? MINUS then let '(i, r) := items l3 in (Range c b :: i, r) else let '(i, r) := items (e :: b :: l3) in (Char c :: i, r)).
    destruct (c =? BACKSLASH); [apply (Hstep 2%nat (Esc e) (b :: l3)); [lia|lia|done|cbn; lia]|]. destruct (c =? RBRACKET); [exists p; rewrite orb_false_r; split_and!; [done|done|lia|done]|].
    destruct (e =? MINUS); [rewrite He; cbn [mbind option_bind]; apply (Hstep 3%nat (Range c b) l3); [lia|lia|done|cbn; lia]|]. apply (Hstep 1%nat (Char c) (e :: b :: l3)); [lia|lia|done|cbn; lia].
Qed.

Lemma one_char_ok p c r x : P p = c :: r -> c <> ASTERISK -> exists p', one_char nocase pattern p c x = Some (if accepts nocase (next c r).1 x then Some p' else None) /\
  P (p' + 1) = (next c r).2 /\ (p <= p' < length pattern)%nat.
Proof.
  intros E Hc. destruct (ch_cons _ _ _ _ E) as (Hch & E1 & Hlt). unfold one_char, next. rewrite (proj2 (Z.eqb_neq c ASTERISK)) by done.
  destruct (c =? QUESTION); [exists p; by split_and!|]. destruct (Z.eqb_spec c LBRACKET) as [->|Hb].
  - rewrite patternLen_drop, E1. destruct r as [|h r'].
    + destruct (ch_end pattern (p + 1)) as [-> Hend]; [lia|done|]. cbn [mbind option_bind length]. rewrite bool_decide_eq_true_2 by done. cbn [negb andb]. destruct (class_loop_ok (S (patternLen pattern (p + 1))) (p + 1) x false) as (p' & -> & H1 & H2 & H3); [lia|rewrite patternLen_drop; lia|].
      rewrite E1 in *. cbn [mbind option_bind orb items fst snd] in *. exists p'. split_and!; [done|done|lia|done].
    + destruct (ch_cons _ _ _ _ E1) as (-> & E2 & Hlt2). cbn [mbind option_bind length]. rewrite bool_decide_eq_false_2 by done. cbn [negb andb]. destruct (h =? CARET).
      * destruct (class_loop_ok (S (patternLen pattern (p + 1 + 1))) (p + 1 + 1) x false) as (p' & -> & H1 & H2 & H3); [lia|rewrite patternLen_drop; lia|]. rewrite E2 in *. cbn [mbind option_bind orb]. destruct (items r') as [i rr]. cbn [fst snd accepts] in *.
        exists p'. split_and!; [done|done|lia|done].
      * destruct (class_loop_ok (S (patternLen pattern (p + 1))) (p + 1) x false) as (p' & -> & H1 & H2 & H3); [lia|rewrite patternLen_drop; lia|]. rewrite E1 in *. cbn [mbind option_bind orb]. destruct (items (h :: r')) as [i rr]. cbn [fst snd accepts] in *.
        exists p'. split_and!; [done|done|lia|done].
  - rewrite patternLen_drop, E. destruct (Z.eqb_spec c BACKSLASH) as [->|Hs]; cbn [andb].
    + destruct r as [|e r']; cbn [length].
      * replace (2 <=? Z.of_nat 1) with false by done. rewrite Hch. exists p. by split_and!.
      * rewrite (proj2 (Z.leb_le 2 _)) by lia. destruct (ch_cons _ _ _ _ E1) as (-> & E2 & Hlt2). exists (p + 1)%nat. split_and!; [done|done|lia|done].
    + rewrite Hch. exists p. by split_and!.
Qed.

(** ** The loops *)

Variable string : bytes.
Local Abbreviation S_ q := (drop q string).
Local Abbreviation call := (nat -> nat -> bool -> option (bool * bool)).

Lemma stringLen_drop q : stringLen string q = length (S_ q).
Proof. unfold stringLen. by rewrite length_drop. Qed.

(** What a call returns at [p] and [q]: whether the rest of the string matches; and the
    flag is only set when no end of the string matches. *)
Definition exact (p q : nat) (b skip : bool) : Prop :=
  (b = true <-> glob nocase (parse (P p)) (S_ q)) /\
  (b = false -> skip = true -> forall q', (q <= q')%nat -> ~ glob nocase (parse (P p)) (S_ q')).

(** [rec] is exact for the patterns with less than [d] stars. *)
Definition call_ok (rec : call) (d : nat) : Prop := forall p q, (p <= length pattern)%nat -> (q < length string)%nat ->
  exists b skip, rec p q false = Some (b, skip) /\ ((stars (parse (P p)) < d)%nat -> exact p q b skip).

Lemma star_loop_ok rec d fuel p q : call_ok rec d -> (p < length pattern)%nat -> (q <= length string)%nat -> (length (S_ q) <= fuel)%nat ->
  exists b skip, star_loop string rec fuel p q false = Some (b, skip) /\
    ((stars (parse (P (p + 1))) < d)%nat -> (b = true <-> exists q', (q <= q' < length string)%nat /\ glob nocase (parse (P (p + 1))) (S_ q'))).
Proof.
  intros Hrec Hp. revert q. induction fuel as [|fuel IH]; intros q Hq Hf; cbn [star_loop]; rewrite stringLen_drop, length_drop in *.
  { rewrite bool_decide_eq_true_2 by lia. eexists _, _. split; [done|]. intros _. split; [done|]. intros (q' & ? & _). lia. }
  destruct (bool_decide_reflect (length string - q = 0)%nat) as [E|E].
  { eexists _, _. split; [done|]. intros _. split; [done|]. intros (q' & ? & _). lia. }
  destruct (Hrec (p + 1)%nat q ltac:(lia) ltac:(lia)) as (b & skip & -> & Hex). cbn [mbind option_bind]. destruct b.
  - eexists _, _. split; [done|]. intros Hs. destruct (Hex Hs) as [[H1 _] _]. split; [|done]. intros _. exists q. split; [lia|by apply H1].
  - destruct skip.
    + eexists _, _. split; [done|]. intros Hs. destruct (Hex Hs) as [_ H2]. split; [done|]. intros (q' & Hq' & Hg). exfalso. by apply (H2 eq_refl eq_refl q'); [lia|].
    + destruct (IH (q + 1)%nat ltac:(lia) ltac:(rewrite length_drop; lia)) as (b & skip & -> & Hr). eexists _, _. split; [done|]. intros Hs. destruct (Hex Hs) as [[_ H1] _]. rewrite (Hr Hs).
      split; intros (q' & Hq' & Hg); exists q'; (split; [|done]); [lia|]. destruct (decide (q' = q)) as [->|]; [by apply H1 in Hg|lia].
Qed.

(** A star before a pattern that starts with another token. *)
Lemma star_exact p r q b skip : P p = ASTERISK :: r -> r <> [] -> head r <> Some ASTERISK -> (q <= length string)%nat ->
  (b = true <-> exists q', (q <= q' < length string)%nat /\ glob nocase (parse r) (S_ q')) -> exact p q b skip.
Proof.
  intros E Hr Hh Hq H. assert (Hshift : forall q0, (q0 <= length string)%nat -> glob nocase (parse (P p)) (S_ q0) <-> exists q', (q0 <= q' < length string)%nat /\ glob nocase (parse r) (S_ q')).
  { intros q0 Hq0. rewrite E, parse_star, glob_star_inv. setoid_rewrite drop_drop. rewrite length_drop. split; [|intros (q' & ? & Hg); exists (q' - q0)%nat; split; [lia|by replace (q0 + (q' - q0))%nat with q' by lia]].
    intros (k & Hk & Hg). exists (q0 + k)%nat. split; [|done]. split; [lia|]. destruct (decide (q0 + k = length string)%nat) as [Ek|]; [|lia]. exfalso. rewrite Ek, drop_all in Hg.
    destruct r as [|c r]; [done|]. rewrite parse_cons, glob_one_inv in Hg by (apply next_not_star; intros ->; done). destruct Hg as (? & ? & ? & _). done. }
  split; [by rewrite Hshift|]. intros -> _ q' Hq' Hg. destruct (decide (q' <= length string)%nat) as [Hle|Hgt].
  - rewrite Hshift in Hg by done. destruct Hg as (q2 & ? & Hg). assert (false = true) by (apply H; exists q2; split; [lia|done]). done.
  - rewrite (drop_ge string q') in Hg by lia. rewrite <- (drop_all string), Hshift in Hg by done. destruct Hg as (q2 & ? & _). lia.
Qed.

Lemma exact_step p q c r x p' b skip : P p = c :: r -> c <> ASTERISK -> string !! q = Some x -> accepts nocase (next c r).1 x = true -> P p' = (next c r).2 -> exact p' (q + 1) b skip -> exact p q b skip.
Proof.
  intros E Hc Hx Ha Ep [H1 H2]. assert (Hns := next_not_star c r Hc). unfold exact. rewrite E, parse_cons, <- Ep.
  split.
  - rewrite H1, (glob_one_inv _ _ _ Hns), (drop_S _ _ _ Hx), Nat.add_1_r. split; [intros Hg; eexists _, _; by split_and!|]. intros (y & s' & [= <- <-] & _ & Hg). done.
  - intros Hb Hs q' Hq' Hg. apply (glob_one_inv _ _ _ Hns) in Hg as (y & s' & Ey & _ & Hg). apply (H2 Hb Hs (q' + 1)%nat); [lia|]. rewrite <- drop_drop, Ey. done.
Qed.

Lemma match_loop_ok rec d fuel p q : call_ok rec d -> (p <= length pattern)%nat -> (q < length string)%nat -> (length (P p) <= fuel)%nat ->
  exists b skip, match_loop nocase pattern string rec fuel p q false = Some (b, skip) /\ ((stars (parse (P p)) < S d)%nat -> exact p q b skip).
Proof.
  intros Hrec. revert p q. induction fuel as [|fuel IH]; intros p q Hp Hq Hf; cbn [match_loop]; rewrite patternLen_drop, stringLen_drop, (length_drop string); rewrite (bool_decide_eq_false_2 (_ - q = _)%nat) by lia;
    rewrite orb_false_r, andb_false_r; destruct (P p) as [|c r] eqn:E; cbn [length] in *.
  1, 3: rewrite bool_decide_eq_true_2 by done; eexists _, _; (split; [done|]); intros _; unfold exact; (split; [|done]); rewrite E; (split; [done|]); intros Hg; apply glob_nil_inv, (f_equal length) in Hg; rewrite length_drop in Hg; cbn in Hg; lia.
  { lia. }
  rewrite bool_decide_eq_false_2 by done. destruct (ch_cons _ _ _ _ E) as (-> & E1 & Hlt). destruct (lookup_lt_is_Some_2 string q Hq) as [x Hx].
  assert (Hchx : ch string q = Some x) by (unfold ch; by rewrite lookup_app_l). rewrite Hchx. cbn [mbind option_bind]. destruct (Z.eqb_spec c ASTERISK) as [->|Hc].
  - destruct (skip_stars_ok (S (length r)) p r E) as (p' & r' & -> & Ep' & Hh & Hpp & Hg & Hst); [cbn; lia|]. cbn [mbind option_bind]. rewrite patternLen_drop, Ep'.
    destruct (ch_cons _ _ _ _ Ep') as (_ & Ep1 & Hlt'). assert (Htrans : forall b sk, exact p' q b sk -> exact p q b sk) by (intros b sk [X1 X2]; unfold exact in *; rewrite E, Ep' in *; split; [by rewrite Hg|intros Hb Hs q' Hq'; rewrite Hg; by apply X2]).
    destruct r' as [|d' r'].
    + rewrite bool_decide_eq_true_2 by done. eexists _, _. split; [done|]. intros _. apply Htrans. split; [|done]. split; [|done]. intros _. rewrite Ep', parse_star. change (parse []) with (@nil token).
      rewrite <- (app_nil_r (S_ q)). constructor. constructor.
    + rewrite bool_decide_eq_false_2 by done. destruct (star_loop_ok rec d (length string - q) p' q Hrec Hlt' ltac:(lia) ltac:(rewrite length_drop; lia)) as (b & skip & -> & Hr). eexists _, _. split; [done|]. intros Hs.
      apply Htrans. apply (star_exact p' (d' :: r')); [done|done|done|lia|]. rewrite Ep1 in Hr. apply Hr. rewrite parse_star in Hst at 1. cbn [stars] in Hst. lia.
  - destruct (one_char_ok p c r x E Hc) as (p' & -> & Ep' & Hp'). cbn [mbind option_bind]. destruct (accepts nocase (next c r).1 x) eqn:Ha.
    + assert (Hns := next_not_star c r Hc). assert (Hrest : (length (P (p' + 1)) <= fuel)%nat) by (rewrite Ep'; pose proof (next_rest c r); lia).
      rewrite stringLen_drop, length_drop. destruct (bool_decide_reflect (length string - (q + 1) = 0)%nat) as [E0|E0].
      * rewrite patternLen_drop. destruct (skip_trailing_ok (length (P (p' + 1))) (p' + 1)) as (p2 & -> & Ht); [lia|lia|]. cbn [mbind option_bind]. eexists _, _. split; [done|]. intros _.
        apply (exact_step p q c r x (p' + 1) _ _ E Hc Hx Ha Ep'). split; [|done]. rewrite Ht. by rewrite (drop_ge string (q + 1)) by lia.
      * destruct (IH (p' + 1)%nat (q + 1)%nat ltac:(lia) ltac:(lia) Hrest) as (b & skip & -> & Hex). eexists _, _. split; [done|]. intros Hs. apply (exact_step p q c r x (p' + 1) _ _ E Hc Hx Ha Ep'). apply Hex.
        rewrite parse_cons in Hs. rewrite Ep'. destruct (next c r).1; cbn [stars] in Hs; [done|lia..].
    + eexists _, _. split; [done|]. intros _. split; [|done]. split; [done|]. rewrite E, parse_cons, (glob_one_inv _ _ _ (next_not_star c r Hc)), (drop_S _ _ _ Hx). intros (y & s' & [= <- <-] & Hy & _). congruence.
Qed.

Lemma impl_ok depth : call_ok (stringmatchlen_impl nocase pattern string depth) depth.
Proof.
  induction depth as [|depth IH]; intros p q Hp Hq; cbn [stringmatchlen_impl]; [eexists _, _; split; [done|lia]|].
  apply (match_loop_ok _ depth); [done|done|done|]. by rewrite patternLen_drop.
Qed.

End Pointers.

Lemma matchlen_ok pattern string nocase : exists b, stringmatchlen pattern string nocase = Some b /\
  if bool_decide (string = []) then b = bool_decide (pattern = []) else (stars (parse pattern) <= 1000)%nat -> (b = true <-> glob nocase (parse pattern) string).
Proof.
  unfold stringmatchlen. case_bool_decide as Hs.
  - subst. unfold max_nesting. cbn [stringmatchlen_impl]. destruct pattern as [|c r]; cbn; eexists; (split; [done|]); [by rewrite bool_decide_eq_true_2|by rewrite bool_decide_eq_false_2].
  - destruct (impl_ok nocase pattern string max_nesting 0%nat 0%nat) as (b & skip & -> & H); [lia|destruct string; [done|cbn; lia]|]. exists b. split; [done|]. intros Hst. destruct H as [H _]; [rewrite drop_0; unfold max_nesting; lia|]. by rewrite !drop_0 in H.
Qed.

(** * Prefixes *)

(** The backslashes at the start of a list. *)
Fixpoint lead (l : bytes) : nat := match l with c :: l => if c =? BACKSLASH then S (lead l) else 0%nat | [] => 0%nat end.

Lemma backslashes_lead pattern i : (i <= length pattern)%nat -> backslashes pattern i = Some (lead (reverse (take i pattern))).
Proof.
  induction i as [|i IH]; intros Hi; [done|]. cbn [backslashes]. destruct (lookup_lt_is_Some_2 pattern i) as [c Hc]; [lia|]. unfold ch. rewrite lookup_app_l, Hc by lia. cbn [mbind option_bind].
  rewrite (take_S_r _ _ _ Hc), reverse_snoc. cbn [lead]. rewrite IH by lia. by destruct (c =? BACKSLASH).
Qed.

Lemma lead_snoc m c : c <> BACKSLASH -> lead (m ++ [c]) = lead m.
Proof. intros Hc. induction m as [|d m IH]; cbn; [by rewrite (proj2 (Z.eqb_neq c _))|]. by rewrite IH. Qed.

Lemma lead_pair m e : Nat.even (lead (m ++ [e; BACKSLASH])) = Nat.even (lead m).
Proof.
  assert (H : exists k, lead (m ++ [e; BACKSLASH]) = (lead m + k)%nat /\ Nat.even k = true); [|destruct H as (k & -> & Hk); rewrite Nat.even_add, Hk; by destruct (Nat.even (lead m))].
  induction m as [|d m (k & IH & Hk)]; cbn.
  - destruct (e =? BACKSLASH); [by exists 2%nat|by exists 0%nat].
  - destruct (d =? BACKSLASH); [|by exists 0%nat]. exists k. rewrite IH. split; [lia|done].
Qed.

(** A last star that is not escaped is a star, outside of a class. *)
Lemma last_star n body : (length body <= n)%nat -> LBRACKET ∉ body -> Nat.even (lead (reverse body)) = true -> last (parse (body ++ [ASTERISK])) = Some Star.
Proof.
  revert body. induction n as [|n IH]; intros body Hn Hb He; [by destruct body; [|cbn in Hn; lia]|]. destruct body as [|c b]; [done|]. apply not_elem_of_cons in Hb as [Hc Hb].
  assert (Hcons : forall t l, last l = Some Star -> last (t :: l) = Some Star) by (intros t [|]; done). cbn [length] in Hn. change ((c :: b) ++ [ASTERISK]) with (c :: (b ++ [ASTERISK])). rewrite parse_cons. apply Hcons. rewrite reverse_cons in He.
  destruct (Z.eqb_spec c BACKSLASH) as [->|Hs].
  - destruct b as [|e b]; [done|]. apply not_elem_of_cons in Hb as [_ Hb]. change (next BACKSLASH ((e :: b) ++ [ASTERISK])).2 with (b ++ [ASTERISK]). apply IH; [cbn in Hn; lia|done|].
    rewrite reverse_cons, <- app_assoc in He. cbn [app] in He. by rewrite lead_pair in He.
  - rewrite lead_snoc in He by done. assert (E : (next c (b ++ [ASTERISK])).2 = b ++ [ASTERISK]); [|rewrite E; apply IH; [lia|done|done]].
    unfold next. rewrite (proj2 (Z.eqb_neq c LBRACKET)), (proj2 (Z.eqb_neq c BACKSLASH)) by done. by repeat destruct (_ =? _).
Qed.

Lemma glob_extend nocase ts s t : last ts = Some Star -> glob nocase ts s -> glob nocase ts (s ++ t).
Proof.
  intros Hl H. induction H as [|t0 ts x s Hx H IH|ts u s H IH]; [done| |].
  - cbn. constructor; [done|]. apply IH. destruct ts; [|done]. cbn in Hl. injection Hl as ->. done.
  - destruct ts; [|rewrite <- app_assoc; constructor; by apply IH]. apply glob_nil_inv in H. subst. rewrite app_nil_r. rewrite <- (app_nil_r (u ++ t)). constructor. constructor.
Qed.

(** C29. Patterns: [stringmatchlen] ends on every pattern and string without reading past
    their terminators.  On a string that is not empty it decides the language of the
    pattern, when the pattern has no more than 1000 stars (the limit of the nesting): the
    shortcut that skips longer matches after a failure never loses a match.  The empty
    string is matched by the empty pattern only. *)
Theorem stringmatchlen_exact pattern string nocase : exists b, stringmatchlen pattern string nocase = Some b /\
  if bool_decide (string = []) then b = bool_decide (pattern = []) else (stars (parse pattern) <= 1000)%nat -> (b = true <-> glob nocase (parse pattern) string).
Proof. apply matchlen_ok. Qed.

(** Prefixes: when [prefixmatch] accepts a prefix for a pattern without classes,
    every string that starts with the prefix matches the pattern. *)
Theorem prefixmatch_sound pattern prefix nocase rest : LBRACKET ∉ pattern -> (stars (parse pattern) <= 1000)%nat -> prefixmatch pattern prefix nocase = Some true ->
  stringmatchlen pattern (prefix ++ rest) nocase = Some true.
Proof.
  intros Hb Hs. unfold prefixmatch. destruct (matchlen_ok pattern prefix nocase) as (b & -> & H). cbn [mbind option_bind]. destruct b; [|done]. cbn [negb].
  destruct (bool_decide_reflect (length pattern = 0%nat)) as [|Hl]; [done|]. destruct (lookup_lt_is_Some_2 pattern (length pattern - 1)) as [c Hc]; [lia|]. unfold ch. rewrite lookup_app_l, Hc by lia. cbn [mbind option_bind].
  destruct (Z.eqb_spec c ASTERISK) as [->|]; [|done]. cbn [negb]. rewrite backslashes_lead by lia. cbn [mbind option_bind]. intros [= He].
  destruct (matchlen_ok pattern (prefix ++ rest) nocase) as (b & -> & H'). f_equal. destruct (decide (prefix = [])) as [->|Hp]; [rewrite bool_decide_eq_true_2 in H by done; symmetry in H; apply bool_decide_eq_true in H; by subst|].
  rewrite (bool_decide_eq_false_2 (prefix = [])) in H by done. rewrite bool_decide_eq_false_2 in H' by (by destruct prefix). apply (H' Hs). apply glob_extend; [|by apply (H Hs)].
  assert (Ep : pattern = take (length pattern - 1) pattern ++ [ASTERISK]) by (rewrite <- (take_S_r _ _ _ Hc); rewrite take_ge; [done|lia]).
  rewrite Ep. apply (last_star _ _ (le_n _)); [|done]. intros Hin. apply Hb. rewrite Ep. apply elem_of_app. by left.
Qed.

Lemma prefixmatch_sound_witness : prefixmatch [117; 63; 92; 92; 42] [117; 49; 92] false = Some true /\ stringmatchlen [117; 63; 92; 92; 42] ([117; 49; 92] ++ [58; 120]) false = Some true.
Proof.
  split; [by vm_compute|]. apply (prefixmatch_sound [117; 63; 92; 92; 42] [117; 49; 92] false [58; 120]); [|by vm_compute; lia|by vm_compute].
  intros H. repeat (apply elem_of_cons in H as [H|H]; [done|]). by apply not_elem_of_nil in H.
Defined.

(** With a class that is not closed the last star is a member of the class. *)
Example prefixmatch_open_class : prefixmatch [91; 97; 42] [97] false = Some true /\ stringmatchlen [91; 97; 42] [97; 98] false = Some false.
Proof. by vm_compute. Qed.

(** A star does not match the empty string. *)
Example star_empty : stringmatchlen [42] [] false = Some false.
Proof. by vm_compute. Qed.

End GlobSpec.
