(* ===== verification/Bitfield.v ===== *)
(** Bit fields: the set and get functions of bitops.c, the overflow checks, and the
    operations of the BITFIELD command on a string.

    Bit 0 of a string is the most significant bit of its first byte.  Values are kept
    at 64 bits; an access out of the string is [None]. *)

From S2P Require Import Prelude Bits.

Module Bitfield.

(** * Reading and writing a field *)

(** [n] iterations are left of the [bits]. *)
Fixpoint set_loop (n : nat) (p : bytes) (offset bits value : Z) : option bytes :=
  match n with
  | O => Some p
  | S n' =>
    let bitval := b2z (negb (Z.land value (u64 (Z.shiftl 1 (Z.of_nat n'))) =? 0)) in
    let byte := Z.to_nat (Z.shiftr offset 3) in
    let bit := 7 - Z.land offset 7 in
    byteval ← p !! byte;
    let byteval := Z.land byteval (Z.lnot (Z.shiftl 1 bit)) in
    let byteval := Z.lor byteval (Z.shiftl bitval bit) in
    set_loop n' (<[byte := Z.land byteval 255]> p) (u64 (offset + 1)) bits value
  end.

Definition setUnsignedBitfield (p : bytes) (offset bits value : Z) : option bytes := set_loop (Z.to_nat bits) p offset bits value.

Definition setSignedBitfield (p : bytes) (offset bits value : Z) : option bytes := setUnsignedBitfield p offset bits (u64 value).

Fixpoint get_loop (n : nat) (p : bytes) (offset value : Z) : option Z :=
  match n with
  | O => Some value
  | S n' =>
    let byte := Z.to_nat (Z.shiftr offset 3) in
    let bit := 7 - Z.land offset 7 in
    byteval ← p !! byte;
    let bitval := Z.land (Z.shiftr byteval bit) 1 in
    get_loop n' p (u64 (offset + 1)) (Z.lor (u64 (Z.shiftl value 1)) bitval)
  end.

Definition getUnsignedBitfield (p : bytes) (offset bits : Z) : option Z := get_loop (Z.to_nat bits) p offset 0.

Definition getSignedBitfield (p : bytes) (offset bits : Z) : option Z :=
  u ← getUnsignedBitfield p offset bits;
  let value := s64 u in
  Some (if (bits <? 64) && negb (Z.land (u64 value) (u64 (Z.shiftl 1 (bits - 1))) =? 0)
        then s64 (Z.lor (u64 value) (u64 (Z.shiftl (2 ^ 64 - 1) bits))) else value).

(** * Overflow *)

Inductive owtype := BFOVERFLOW_WRAP | BFOVERFLOW_SAT | BFOVERFLOW_FAIL.

(** The value returned, and [*limit] when it is set. *)
Definition checkUnsignedBitfieldOverflow (value incr bits : Z) (ow : owtype) : Z * option Z :=
  let max := if bits =? 64 then 2 ^ 64 - 1 else u64 (Z.shiftl 1 bits) - 1 in
  let maxincr := s64 (u64 (max - value)) in
  let minincr := s64 (u64 (- value)) in
  let wrap :=
    let mask := u64 (Z.shiftl (2 ^ 64 - 1) bits) in
    let res := u64 (value + incr) in
    (1, Some (Z.land res (Z.lnot mask))) in
  if (value >? max) || ((incr >? 0) && (incr >? maxincr)) then
    match ow with BFOVERFLOW_WRAP => wrap | BFOVERFLOW_SAT => (1, Some max) | BFOVERFLOW_FAIL => (1, None) end
  else if (incr <? 0) && (incr <? minincr) then
    match ow with BFOVERFLOW_WRAP => wrap | BFOVERFLOW_SAT => (-1, Some 0) | BFOVERFLOW_FAIL => (-1, None) end
  else (0, None).

Definition checkSignedBitfieldOverflow (value incr bits : Z) (ow : owtype) : Z * option Z :=
  let max := if bits =? 64 then 2 ^ 63 - 1 else s64 (Z.shiftl 1 (bits - 1)) - 1 in
  let min := (- max) - 1 in
  let maxincr := s64 (u64 max - value) in
  let minincr := s64 (min - value) in
  let wrap :=
    let msb := u64 (Z.shiftl 1 (bits - 1)) in
    let c := u64 (u64 value + u64 incr) in
    let c :=
      if bits <? 64 then
        let mask := u64 (Z.shiftl (2 ^ 64 - 1) bits) in
        if negb (Z.land c msb =? 0) then Z.lor c mask else Z.land c (Z.lnot mask)
      else c in
    (1, Some (s64 c)) in
  if (value >? max) || (negb (bits =? 64) && (incr >? maxincr)) || ((value >=? 0) && (incr >? 0) && (incr >? maxincr)) then
    match ow with BFOVERFLOW_WRAP => wrap | BFOVERFLOW_SAT => (1, Some max) | BFOVERFLOW_FAIL => (1, None) end
  else if (value <? min) || (negb (bits =? 64) && (incr <? minincr)) || ((value <? 0) && (incr <? 0) && (incr <? minincr)) then
    match ow with BFOVERFLOW_WRAP => wrap | BFOVERFLOW_SAT => (-1, Some min) | BFOVERFLOW_FAIL => (-1, None) end
  else (0, None).

(** * The BITFIELD command *)

Inductive opcode_t := BITFIELDOP_GET | BITFIELDOP_SET | BITFIELDOP_INCRBY.

Record bitfieldOp := mkOp { op_offset : Z; op_i64 : Z; op_code : opcode_t; op_owtype : owtype; op_bits : Z; op_sign : bool }.

(** An overflow that fails leaves [wrapped] as it is; the result is then not used. *)
Definition chosen (overflow : Z) (limit : option Z) (other : Z) : Z :=
  if negb (overflow =? 0) then match limit with Some w => w | None => 0 end else other.

(** SET and INCRBY: the string, the reply, which is null when the operation fails, and
    whether the operation counts as a change; [grew] is whether the command has made the
    string longer. *)
Definition bitfield_write (grew : bool) (p : bytes) (op : bitfieldOp) : option (bytes * option Z * bool) :=
  let '(mkOp offset i64 opcode ow bits sign) := op in
  oldval ← (if sign then getSignedBitfield p offset bits else getUnsignedBitfield p offset bits);
  let '(newval, retval, overflow) :=
    match opcode with
    | BITFIELDOP_INCRBY =>
      let '(overflow, limit) := if sign then checkSignedBitfieldOverflow oldval i64 bits ow else checkUnsignedBitfieldOverflow oldval i64 bits ow in
      let newval := chosen overflow limit (if sign then s64 (oldval + i64) else u64 (oldval + i64)) in
      (newval, newval, overflow)
    | _ =>
      let newval := if sign then i64 else u64 i64 in
      let '(overflow, limit) := if sign then checkSignedBitfieldOverflow newval 0 bits ow else checkUnsignedBitfieldOverflow newval 0 bits ow in
      (chosen overflow limit newval, oldval, overflow)
    end in
  if negb (negb (overflow =? 0) && match ow with BFOVERFLOW_FAIL => true | _ => false end) then
    p ← (if sign then setSignedBitfield p offset bits newval else setUnsignedBitfield p offset bits newval);
    Some (p, Some (if sign then retval else s64 retval), grew || negb (oldval =? newval))
  else Some (p, None, false).

(** GET copies up to 9 bytes to a buffer of zeroes and reads the field there. *)
Fixpoint copy_bytes (n : nat) (src : bytes) (byte : nat) : bytes :=
  match n with O => [] | S n => match src !! byte with Some b => b :: copy_bytes n src (byte + 1) | None => replicate (S n) 0 end end.

Definition bitfield_get (p : bytes) (op : bitfieldOp) : option (option Z) :=
  let '(mkOp offset _ _ _ bits sign) := op in
  let byte := Z.shiftr offset 3 in
  let buf := copy_bytes 9 p (Z.to_nat byte) in
  val ← (if sign then getSignedBitfield buf (offset - byte * 8) bits else getUnsignedBitfield buf (offset - byte * 8) bits);
  Some (Some (if sign then val else s64 val)).

Definition bitfield_op (grew : bool) (p : bytes) (op : bitfieldOp) : option (bytes * option Z * bool) :=
  match op_code op with
  | BITFIELDOP_GET => r ← bitfield_get p op; Some (p, r, false)
  | _ => bitfield_write grew p op
  end.

(** The operations, in order: the string, the replies and the changes. *)
Fixpoint bitfield_ops (grew : bool) (p : bytes) (ops : list bitfieldOp) : option (bytes * list (option Z) * Z) :=
  match ops with
  | [] => Some (p, [], 0)
  | op :: ops =>
    '(p, r, change) ← bitfield_op grew p op;
    '(p, rs, changes) ← bitfield_ops grew p ops;
    Some (p, r :: rs, b2z change + changes)
  end.

(** [sdsgrowzero] to the last bit that is written. *)
Definition highest_write_offset (ops : list bitfieldOp) : Z :=
  fold_left (fun h op => match op_code op with BITFIELDOP_GET => h | _ => if h <? op_offset op + op_bits op - 1 then op_offset op + op_bits op - 1 else h end) ops 0.

Definition grow_zero (p : bytes) (len : nat) : bytes := p ++ replicate (len - length p) 0.

Definition readonly (ops : list bitfieldOp) : bool := forallb (fun op => match op_code op with BITFIELDOP_GET => true | _ => false end) ops.

(** A key of the database, as these commands see it. *)
Inductive value := Absent | Str (s : bytes) | OtherType.

Definition contents (v : value) : bytes := match v with Str s => s | _ => [] end.

Inductive bf_error := SyntaxErr | OverflowErr | TypeErr | OffsetErr | NotIntegerErr | ReadOnlyErr | WrongTypeErr.

(** The reply: an error, or an array of numbers and nulls. *)
Inductive bf_reply := Failed (e : bf_error) | Replies (rs : list (option Z)).

(** [bitfieldGeneric] once the arguments are parsed: the reply, the value of the key and
    what is added to [server.dirty].  [read_only] is BITFIELD_RO. *)
Definition bitfield_run (read_only : bool) (v : value) (ops : list bitfieldOp) : option (bf_reply * value * Z) :=
  if readonly ops then
    match v with
    | OtherType => Some (Failed WrongTypeErr, v, 0)
    | _ => '(_, rs, changes) ← bitfield_ops false (contents v) ops; Some (Replies rs, v, changes)
    end
  else if read_only then Some (Failed ReadOnlyErr, v, 0)
  else
    match v with
    | OtherType => Some (Failed WrongTypeErr, v, 0)
    | _ =>
      let p := grow_zero (contents v) (Z.to_nat (Z.shiftr (highest_write_offset ops) 3) + 1) in
      '(p, rs, changes) ← bitfield_ops (bool_decide (length (contents v) < length p)%nat) p ops;
      Some (Replies rs, Str p, changes)
    end.

End Bitfield.
