(* ===== verification/BitfieldSpec.v ===== *)
(** Bit fields: what is written is read back, the overflow checks are exact, and
    the operations of BITFIELD do arithmetic on the fields of an infinite string of bits. *)

From S2P Require Import Prelude Bits Bitfield.

Module BitfieldSpec.
Import Bitfield.

(** * Strings of bits *)

(** Bit [i] of a string followed by zeroes. *)
Definition bit_at (p : bytes) (i : Z) : bool :=
  match p !! Z.to_nat (i / 8) with Some b => Z.testbit b (7 - i mod 8) | None => false end.

(** The [n] bits from [offset] on as a number, the first bit being the highest one. *)
Fixpoint field (f : Z -> bool) (n : nat) (offset : Z) : Z :=
  match n with O => 0 | S n => 2 * field f n offset + b2z (f (offset + Z.of_nat n)) end.

Lemma b2z_range b : 0 <= b2z b <= 1.
Proof. destruct b; cbn; lia. Qed.

Lemma field_range f n offset : urange (Z.of_nat n) (field f n offset).
Proof.
  unfold urange. induction n as [|n IH]; [cbn; lia|]. cbn [field]. rewrite Nat2Z.inj_succ, Z.pow_succ_r by lia. pose proof (b2z_range (f (offset + Z.of_nat n))). lia.
Qed.

Lemma field_bit f n offset k : 0 <= k < Z.of_nat n -> Z.testbit (field f n offset) k = f (offset + Z.of_nat n - 1 - k).
Proof.
  revert k. induction n as [|n IH]; intros k Hk; [lia|]. cbn [field]. destruct (decide (k = 0)) as [->|].
  - rewrite Z.add_comm. destruct (f (offset + Z.of_nat n)) eqn:E; cbn [b2z].
    + rewrite Z.add_comm, Z.testbit_odd_0. rewrite <- E. f_equal. lia.
    + rewrite Z.add_0_l, Z.testbit_even_0. rewrite <- E. f_equal. lia.
  - replace k with (Z.succ (k - 1)) at 1 by lia. destruct (f (offset + Z.of_nat n)); cbn [b2z].
    + rewrite Z.testbit_odd_succ by lia. rewrite IH by lia. f_equal. lia.
    + rewrite Z.add_0_r, Z.testbit_even_succ by lia. rewrite IH by lia. f_equal. lia.
Qed.

Lemma field_ext f g n offset : (forall i, offset <= i < offset + Z.of_nat n -> f i = g i) -> field f n offset = field g n offset.
Proof. intros H. induction n as [|n IH]; [done|]. cbn [field]. rewrite IH by (intros i Hi; apply H; lia). by rewrite H by lia. Qed.

(** [v] written on [n] bits from [offset] on. *)
Definition write (f : Z -> bool) (offset : Z) (n : nat) (v : Z) (i : Z) : bool :=
  if (offset <=? i) && (i <? offset + Z.of_nat n) then Z.testbit v (Z.of_nat n - 1 - (i - offset)) else f i.

Lemma field_write f offset n v : field (write f offset n v) n offset = uwrap (Z.of_nat n) v.
Proof.
  apply (bits_eq (Z.of_nat n)); [lia|apply field_range|apply uwrap_range; lia|]. intros k Hk. rewrite field_bit, uwrap_bits by done. unfold write.
  rewrite (proj2 (Z.leb_le _ _)), (proj2 (Z.ltb_lt _ _)) by lia. cbn [andb]. f_equal. lia.
Qed.

(** ** One bit of a byte *)

Lemma bit_test value k : 0 <= k < 64 -> negb (Z.land value (u64 (Z.shiftl 1 k)) =? 0) = Z.testbit value k.
Proof.
  intros Hk. rewrite Z.shiftl_1_l. rewrite uwrap_small by (split; [lia|apply Z.pow_lt_mono_r; lia]). destruct (Z.testbit value k) eqn:E.
  - destruct (Z.eqb_spec (Z.land value (2 ^ k)) 0) as [E0|]; [|done]. apply (f_equal (fun z => Z.testbit z k)) in E0. rewrite Z.land_spec, E, Z.pow2_bits_true, Z.bits_0 in E0 by lia. done.
  - destruct (Z.eqb_spec (Z.land value (2 ^ k)) 0) as [|E0]; [done|]. exfalso. apply E0, Z.bits_inj'. intros i Hi. rewrite Z.land_spec, Z.bits_0, Z.pow2_bits_eqb by lia.
    destruct (Z.eqb_spec k i) as [<-|]; [by rewrite E|by rewrite andb_false_r].
Qed.

Lemma new_byte b k (v : bool) : urange 8 b -> 0 <= k < 8 -> let x := Z.land (Z.lor (Z.land b (Z.lnot (Z.shiftl 1 k))) (Z.shiftl (b2z v) k)) 255 in
  urange 8 x /\ forall m, 0 <= m < 8 -> Z.testbit x m = if m =? k then v else Z.testbit b m.
Proof.
  intros Hb Hk x. split; [apply urange_land_r; [lia|by vm_compute]|]. intros m Hm. unfold x. change 255 with (Z.ones 8). rewrite Z.land_spec, Z.ones_spec_low, andb_true_r, Z.lor_spec, Z.land_spec, Z.lnot_spec, Z.shiftl_1_l, Z.pow2_bits_eqb by lia.
  rewrite Z.shiftl_spec by lia. destruct (Z.eqb_spec m k) as [->|Hne].
  - rewrite Z.eqb_refl, Z.sub_diag. cbn [negb]. rewrite andb_false_r. by destruct v.
  - rewrite (proj2 (Z.eqb_neq k m)) by lia. cbn [negb]. rewrite andb_true_r. destruct (Z.ltb_spec m k); [rewrite (Z.testbit_neg_r _ (m - k)) by lia; apply orb_false_r|].
    replace (Z.testbit (b2z v) (m - k)) with false; [apply orb_false_r|]. destruct v; cbn [b2z]; [|by rewrite Z.bits_0]. symmetry. change 1 with (2 ^ 0). rewrite Z.pow2_bits_eqb by lia. apply Z.eqb_neq. lia.
Qed.

Lemma insert_bit p byte b x offset v i : p !! byte = Some b -> 0 <= offset -> 0 <= i -> byte = Z.to_nat (offset / 8) ->
  (forall m, 0 <= m < 8 -> Z.testbit x m = if m =? 7 - offset mod 8 then v else Z.testbit b m) -> bit_at (<[byte := x]> p) i = if i =? offset then v else bit_at p i.
Proof.
  intros Hb Ho Hi -> Hx. unfold bit_at. pose proof (lookup_lt_Some _ _ _ Hb) as Hlt. destruct (decide (Z.to_nat (i / 8) = Z.to_nat (offset / 8))) as [E|E].
  - rewrite E, list_lookup_insert_eq by done. rewrite Hb. pose proof (Z.mod_pos_bound i 8). rewrite Hx by lia. assert (Eq : i / 8 = offset / 8) by (apply Z2Nat.inj; [apply Z.div_pos; lia..|done]).
    destruct (Z.eqb_spec i offset) as [->|Hne]; [by rewrite Z.eqb_refl|]. destruct (Z.eqb_spec (7 - i mod 8) (7 - offset mod 8)) as [Em|]; [|done].
    exfalso. apply Hne. rewrite (Z.div_mod i 8), (Z.div_mod offset 8) by lia. lia.
  - rewrite list_lookup_insert_ne by done. destruct (Z.eqb_spec i offset) as [->|]; done.
Qed.

(** ** The loops *)

Lemma shift3 x : Z.shiftr x 3 = x / 8.
Proof. by rewrite Z.shiftr_div_pow2. Qed.
Lemma land7 x : Z.land x 7 = x mod 8.
Proof. exact (Z.land_ones x 3 ltac:(lia)). Qed.

Lemma byte_in (p : bytes) offset : 0 <= offset < 8 * Z.of_nat (length p) -> exists b, p !! Z.to_nat (offset / 8) = Some b.
Proof. intros H. apply lookup_lt_is_Some_2. apply Nat2Z.inj_lt. rewrite Z2Nat.id by (apply Z.div_pos; lia). apply Z.div_lt_upper_bound; lia. Qed.

Lemma set_loop_ok n p offset bits value : (n <= 64)%nat -> bytes_ok p -> 0 <= offset -> offset + Z.of_nat n <= 8 * Z.of_nat (length p) < 2 ^ 64 ->
  exists p', set_loop n p offset bits value = Some p' /\ bytes_ok p' /\ length p' = length p /\ forall i, 0 <= i -> bit_at p' i = write (bit_at p) offset n value i.
Proof.
  revert p offset. induction n as [|n IH]; intros p offset Hn Hp Ho Hl.
  { exists p. split_and!; try done. intros i Hi. unfold write. destruct (Z.leb_spec offset i), (Z.ltb_spec i (offset + Z.of_nat 0)); cbn [andb]; try done. lia. }
  cbn [set_loop]. rewrite shift3, land7. destruct (byte_in p offset ltac:(lia)) as [b Hb]. rewrite Hb. cbn [mbind option_bind]. rewrite bit_test by lia.
  pose proof (Z.mod_pos_bound offset 8 ltac:(lia)) as Hm. pose proof (Forall_lookup_1 _ _ _ _ Hp Hb) as Hbr.
  destruct (new_byte b (7 - offset mod 8) (Z.testbit value (Z.of_nat n)) Hbr ltac:(lia)) as [Hx1 Hx2]. set (x := Z.land _ 255) in *. rewrite uwrap_small by (unfold urange; lia).
  destruct (IH (<[Z.to_nat (offset / 8) := x]> p) (offset + 1)) as (p' & -> & H1 & H2 & H3); [lia|by apply Forall_insert|lia|rewrite length_insert; lia|].
  exists p'. rewrite length_insert in H2. split_and!; [done|done|done|]. intros i Hi. rewrite H3 by done. unfold write. rewrite (insert_bit _ _ b x offset (Z.testbit value (Z.of_nat n)) i Hb Ho Hi eq_refl Hx2).
  destruct (Z.leb_spec (offset + 1) i), (Z.ltb_spec i (offset + 1 + Z.of_nat n)), (Z.leb_spec offset i), (Z.ltb_spec i (offset + Z.of_nat (S n))); cbn [andb]; try lia.
  - f_equal. lia.
  - by rewrite (proj2 (Z.eqb_neq i offset)) by lia.
  - assert (i = offset) as -> by lia. rewrite Z.eqb_refl. f_equal. lia.
  - by rewrite (proj2 (Z.eqb_neq i offset)) by lia.
Qed.

Lemma bit_of b k : 0 <= k -> Z.land (Z.shiftr b k) 1 = b2z (Z.testbit b k).
Proof. intros Hk. change 1 with (Z.ones 1). rewrite Z.land_ones, <- Z.bit0_mod, Z.shiftr_spec by lia. rewrite Z.add_0_l. by destruct (Z.testbit b k). Qed.

Lemma get_loop_ok n p offset value : (n <= 64)%nat -> 0 <= offset -> offset + Z.of_nat n <= 8 * Z.of_nat (length p) < 2 ^ 64 -> urange (64 - Z.of_nat n) value ->
  get_loop n p offset value = Some (value * 2 ^ Z.of_nat n + field (bit_at p) n offset).
Proof.
  revert offset value. induction n as [|n IH]; intros offset value Hn Ho Hl Hv; [cbn; f_equal; lia|].
  cbn [get_loop]. rewrite shift3, land7. destruct (byte_in p offset ltac:(lia)) as [b Hb]. rewrite Hb. cbn [mbind option_bind]. pose proof (Z.mod_pos_bound offset 8 ltac:(lia)) as Hm.
  rewrite bit_of by lia. assert (E : Z.testbit b (7 - offset mod 8) = bit_at p offset) by (unfold bit_at; by rewrite Hb). rewrite E. rewrite (uwrap_small 64 (offset + 1)) by (unfold urange; lia).
  unfold urange in Hv. assert (Hv2 : 2 * value < 2 ^ (64 - Z.of_nat n)) by (replace (64 - Z.of_nat n) with (Z.succ (64 - Z.of_nat (S n))) by lia; rewrite Z.pow_succ_r by lia; lia).
  assert (Hle : 2 ^ (64 - Z.of_nat n) <= 2 ^ 64) by (apply Z.pow_le_mono_r; lia).
  rewrite Z.shiftl_mul_pow2, uwrap_small by (unfold urange; lia). rewrite Z.lor_comm, (lor_add _ _ 1) by (pose proof (b2z_range (bit_at p offset)); lia).
  rewrite IH; [|lia|lia|lia|]. 2:{ unfold urange. assert (0 < 64 - Z.of_nat n) by lia. assert (Hev : 2 ^ (64 - Z.of_nat n) = 2 * 2 ^ (64 - Z.of_nat n - 1)) by (by apply pow2_half). pose proof (b2z_range (bit_at p offset)). lia. }
  f_equal. assert (Hf : forall m o, field (bit_at p) (S m) o = b2z (bit_at p o) * 2 ^ Z.of_nat m + field (bit_at p) m (o + 1)).
  { clear. intros m. induction m as [|m IH]; intros o; [cbn; rewrite Z.add_0_r; lia|]. rewrite Nat2Z.inj_succ, Z.pow_succ_r by lia. change (field (bit_at p) (S (S m)) o) with (2 * field (bit_at p) (S m) o + b2z (bit_at p (o + Z.of_nat (S m)))).
    rewrite IH. cbn [field]. replace (o + Z.of_nat (S m)) with (o + 1 + Z.of_nat m) by lia. lia. }
  rewrite Hf. rewrite Nat2Z.inj_succ, Z.pow_succ_r by lia. lia.
Qed.

(** * Fields *)

(** A field of [bits] bits at [offset] is in the string. *)
Record in_string (p : bytes) (offset bits : Z) : Prop := {
  in_bytes : bytes_ok p;
  in_bits : 1 <= bits <= 64;
  in_offset : 0 <= offset;
  in_end : offset + bits <= 8 * Z.of_nat (length p) < 2 ^ 64
}.

Lemma getUnsigned_ok p offset bits : in_string p offset bits -> getUnsignedBitfield p offset bits = Some (field (bit_at p) (Z.to_nat bits) offset).
Proof.
  intros [Hp Hb Ho He]. unfold getUnsignedBitfield. rewrite get_loop_ok by (lia || (unfold urange; split; [lia|apply Z.pow_pos_nonneg; lia])). done.
Qed.

Lemma setUnsigned_ok p offset bits value : in_string p offset bits -> exists p', setUnsignedBitfield p offset bits value = Some p' /\ in_string p' offset bits /\ length p' = length p /\
  forall i, 0 <= i -> bit_at p' i = write (bit_at p) offset (Z.to_nat bits) value i.
Proof.
  intros [Hp Hb Ho He]. destruct (set_loop_ok (Z.to_nat bits) p offset bits value) as (p' & H1 & H2 & H3 & H4); [lia|done|lia|lia|]. exists p'. split_and!; [done|by split; rewrite ?H3|done|done].
Qed.

(** The mask of the high bits. *)
Lemma mask_eq bits : 0 <= bits < 64 -> u64 (Z.shiftl (2 ^ 64 - 1) bits) = 2 ^ 64 - 2 ^ bits.
Proof.
  intros Hb. rewrite Z.shiftl_mul_pow2 by lia. assert (Hp : 0 < 2 ^ bits < 2 ^ 64) by (split; [apply Z.pow_pos_nonneg; lia|apply Z.pow_lt_mono_r; lia]).
  unfold uwrap. symmetry. apply (Z.mod_unique _ _ (2 ^ bits - 1)); lia.
Qed.

Lemma high_bits bits : 0 <= bits <= 64 -> 2 ^ 64 - 2 ^ bits = (2 ^ (64 - bits) - 1) * 2 ^ bits.
Proof. intros Hb. rewrite Z.mul_sub_distr_r, <- Z.pow_add_r by lia. replace (64 - bits + bits) with 64 by lia. lia. Qed.

Lemma land_low c bits : 0 <= bits < 64 -> urange 64 c -> Z.land c (Z.lnot (2 ^ 64 - 2 ^ bits)) = uwrap bits c.
Proof.
  intros Hb Hc. apply (bits_eq 64); [lia|by apply urange_land_l| |].
  { pose proof (uwrap_range bits c ltac:(lia)) as [? ?]. assert (2 ^ bits <= 2 ^ 64) by (apply Z.pow_le_mono_r; lia). unfold urange. lia. }
  intros i Hi. rewrite Z.land_spec, Z.lnot_spec, high_bits by lia. rewrite <- Z.shiftl_mul_pow2 by lia. unfold uwrap. rewrite mod_pow2_bits by lia. destruct (Z.ltb_spec i bits).
  - rewrite Z.shiftl_spec_low by done. by rewrite andb_true_r.
  - rewrite Z.shiftl_spec by lia. replace (2 ^ (64 - bits) - 1) with (Z.ones (64 - bits)) by (rewrite Z.ones_equiv; lia). rewrite Z.ones_spec_low by lia. by rewrite andb_false_r.
Qed.

Lemma lor_high u bits : 0 <= bits < 64 -> urange bits u -> Z.lor u (2 ^ 64 - 2 ^ bits) = u + 2 ^ 64 - 2 ^ bits.
Proof. intros Hb Hu. rewrite high_bits by lia. rewrite lor_add by (unfold urange in Hu; lia). rewrite <- high_bits by lia. lia. Qed.

Lemma top_bit u bits : 1 <= bits -> urange bits u -> Z.testbit u (bits - 1) = bool_decide (2 ^ (bits - 1) <= u).
Proof.
  intros Hb Hu. unfold urange in Hu. rewrite pow2_half in Hu by lia. assert (Hp : 0 < 2 ^ (bits - 1)) by (apply Z.pow_pos_nonneg; lia). case_bool_decide as Hc.
  - rewrite Z.testbit_true by lia. assert (u / 2 ^ (bits - 1) = 1) as ->; [|done]. symmetry. apply (Z.div_unique _ _ _ (u - 2 ^ (bits - 1))); lia.
  - rewrite Z.testbit_false by lia. by rewrite Z.div_small by lia.
Qed.

Lemma swrap_small_or w u : 1 <= w -> urange w u -> swrap w u = if bool_decide (2 ^ (w - 1) <= u) then u - 2 ^ w else u.
Proof.
  intros Hw Hu. unfold urange in Hu. pose proof (pow2_half w ltac:(lia)) as Hh. unfold swrap. case_bool_decide as Hc.
  - rewrite <- (Z.mod_unique (u + 2 ^ (w - 1)) (2 ^ w) 1 (u - 2 ^ (w - 1))); lia.
  - rewrite Z.mod_small; lia.
Qed.

Lemma uwrap_uwrap a b x : 0 <= a <= b -> uwrap a (uwrap b x) = uwrap a x.
Proof. intros H. unfold uwrap. apply Z.mod_mod_divide. exists (2 ^ (b - a)). rewrite <- Z.pow_add_r by lia. f_equal. lia. Qed.

(** Sign extension. *)
Lemma extend_ok u bits : 1 <= bits <= 64 -> urange bits u ->
  (if (bits <? 64) && negb (Z.land (u64 (s64 u)) (u64 (Z.shiftl 1 (bits - 1))) =? 0) then s64 (Z.lor (u64 (s64 u)) (u64 (Z.shiftl (2 ^ 64 - 1) bits))) else s64 u) = swrap bits u.
Proof.
  intros Hb Hu. pose proof Hu as Hu'. unfold urange in Hu'. assert (Hle : 2 ^ bits <= 2 ^ 64) by (apply Z.pow_le_mono_r; lia). assert (Hu64 : urange 64 u) by (unfold urange; lia).
  assert (Eu : u64 (s64 u) = u) by (rewrite (swrap_small_or 64 u) by (lia || done); case_bool_decide; [replace (u - 2 ^ 64) with (u + -1 * 2 ^ 64) by lia; unfold uwrap; rewrite Z_mod_plus_full|]; by apply uwrap_small).
  rewrite Eu, bit_test by lia. destruct (Z.ltb_spec bits 64) as [Hlt|Hge]; [|by replace bits with 64 by lia]. cbn [andb]. rewrite top_bit by (lia || done). rewrite (swrap_small_or bits u) by (lia || done).
  assert (H2 : 2 ^ bits <= 2 ^ 63) by (apply Z.pow_le_mono_r; lia). case_bool_decide as Hc.
  - rewrite mask_eq, lor_high by (lia || done). rewrite (swrap_small_or 64) by (unfold urange; lia). rewrite bool_decide_eq_true_2 by (change (2 ^ (64 - 1)) with (2 ^ 63); lia). lia.
  - rewrite (swrap_small_or 64) by (lia || done). rewrite bool_decide_eq_false_2; [done|]. change (2 ^ (64 - 1)) with (2 ^ 63). pose proof (pow2_half bits ltac:(lia)). lia.
Qed.

Lemma getSigned_ok p offset bits : in_string p offset bits -> getSignedBitfield p offset bits = Some (swrap bits (field (bit_at p) (Z.to_nat bits) offset)).
Proof.
  intros H. unfold getSignedBitfield. rewrite getUnsigned_ok by done. cbn [mbind option_bind]. f_equal. destruct H as [_ Hb _ _]. apply extend_ok; [done|].
  pose proof (field_range (bit_at p) (Z.to_nat bits) offset) as Hr. by rewrite Z2Nat.id in Hr by lia.
Qed.

(** Round trip of bit fields: after a value is written in a field that is inside the
    string, the field reads back as the value modulo [2 ^ bits], with or without sign,
    and every bit outside of the field is unchanged. *)
Theorem bitfield_set_get p offset bits value : in_string p offset bits -> exists p', setSignedBitfield p offset bits value = Some p' /\ setUnsignedBitfield p offset bits (u64 value) = Some p' /\
  getUnsignedBitfield p' offset bits = Some (uwrap bits value) /\ getSignedBitfield p' offset bits = Some (swrap bits value) /\
  length p' = length p /\ forall i, 0 <= i -> ~ (offset <= i < offset + bits) -> bit_at p' i = bit_at p i.
Proof.
  intros H. destruct (setUnsigned_ok p offset bits (u64 value) H) as (p' & H1 & H2 & H3 & H4). exists p'. pose proof H as [_ Hb Ho He].
  assert (Hf : field (bit_at p') (Z.to_nat bits) offset = uwrap bits value).
  { rewrite (field_ext _ (write (bit_at p) offset (Z.to_nat bits) (u64 value))) by (intros i Hi; apply H4; lia). rewrite field_write, Z2Nat.id by lia. apply uwrap_uwrap. lia. }
  rewrite getUnsigned_ok, getSigned_ok, Hf, swrap_uwrap by (done || lia). split_and!; try done. intros i Hi Hout. rewrite H4 by done. unfold write.
  destruct (Z.leb_spec offset i), (Z.ltb_spec i (offset + Z.of_nat (Z.to_nat bits))); try done. lia.
Qed.

(** * Overflow *)

Definition tmin (sign : bool) (bits : Z) : Z := if sign then - 2 ^ (bits - 1) else 0.
Definition tmax (sign : bool) (bits : Z) : Z := if sign then 2 ^ (bits - 1) - 1 else 2 ^ bits - 1.
Definition twrap (sign : bool) (bits t : Z) : Z := if sign then swrap bits t else uwrap bits t.

(** What the checks say of a result [t]. *)
Definition check_spec (sign : bool) (bits : Z) (ow : owtype) (t : Z) : Z * option Z :=
  if t >? tmax sign bits then (1, match ow with BFOVERFLOW_WRAP => Some (twrap sign bits t) | BFOVERFLOW_SAT => Some (tmax sign bits) | BFOVERFLOW_FAIL => None end)
  else if t <? tmin sign bits then
    (match ow with BFOVERFLOW_WRAP => 1 | _ => -1 end, match ow with BFOVERFLOW_WRAP => Some (twrap sign bits t) | BFOVERFLOW_SAT => Some (tmin sign bits) | BFOVERFLOW_FAIL => None end)
  else (0, None).

Lemma checkUnsigned_ok value incr bits ow : 1 <= bits <= 63 -> urange 64 value -> srange 64 incr -> value <= tmax false bits \/ incr = 0 ->
  checkUnsignedBitfieldOverflow value incr bits ow = check_spec false bits ow (value + incr).
Proof.
  intros Hb Hv Hi Hor. unfold checkUnsignedBitfieldOverflow, check_spec, tmin, tmax, twrap in *. rewrite (proj2 (Z.eqb_neq bits 64)) by lia. rewrite Z.shiftl_1_l.
  assert (Hp : 1 <= 2 ^ bits <= 2 ^ 63) by (split; [apply (Z.pow_le_mono_r 2 0); lia|apply Z.pow_le_mono_r; lia]). unfold urange, srange in *. change (2 ^ (64 - 1)) with (2 ^ 63) in *. rewrite (uwrap_small 64 (2 ^ bits)) by (unfold urange; lia).
  rewrite mask_eq, land_low by (lia || apply uwrap_range; lia). rewrite uwrap_uwrap by lia. set (M := 2 ^ bits) in *. clearbody M.
  destruct (Z.gtb_spec value (M - 1)) as [Hgt|Hle]; cbn [orb].
  { assert (incr = 0) as -> by lia. rewrite Z.add_0_r. rewrite (proj2 (Z.gtb_lt value (M - 1))) by lia. by destruct ow. }
  rewrite (uwrap_small 64 (M - 1 - value)) by (unfold urange; lia). rewrite (swrap_small 64 (M - 1 - value)) by (unfold srange; lia). rewrite swrap_uwrap, (swrap_small 64 (- value)) by (unfold srange; lia).
  destruct (Z.gtb_spec (value + incr) (M - 1)), (Z.gtb_spec incr 0), (Z.gtb_spec incr (M - 1 - value)); cbn [andb]; try lia; try (by destruct ow);
    destruct (Z.ltb_spec (value + incr) 0), (Z.ltb_spec incr 0), (Z.ltb_spec incr (- value)); cbn [andb]; try lia; by destruct ow.
Qed.

Lemma lor_clear c m : Z.lor c m = Z.lor (Z.land c (Z.lnot m)) m.
Proof. apply Z.bits_inj'. intros i Hi. rewrite !Z.lor_spec, Z.land_spec, Z.lnot_spec by done. by destruct (Z.testbit c i), (Z.testbit m i). Qed.

Lemma signed_wrap value incr bits c : 1 <= bits <= 64 -> c = u64 (u64 value + u64 incr) ->
  s64 (if bits <? 64 then if negb (Z.land c (u64 (Z.shiftl 1 (bits - 1))) =? 0) then Z.lor c (u64 (Z.shiftl (2 ^ 64 - 1) bits)) else Z.land c (Z.lnot (u64 (Z.shiftl (2 ^ 64 - 1) bits))) else c) = swrap bits (value + incr).
Proof.
  intros Hb Hdef. assert (Ec : c = u64 (value + incr)) by (rewrite Hdef; unfold uwrap; by rewrite <- Z.add_mod by lia). clear Hdef. subst c. assert (Hc : urange 64 (u64 (value + incr))) by (apply uwrap_range; lia).
  destruct (Z.ltb_spec bits 64) as [Hlt|Hge]; [|replace bits with 64 by lia; apply swrap_uwrap; lia]. rewrite bit_test, mask_eq by lia. rewrite lor_clear, land_low by (lia || done). rewrite uwrap_uwrap by lia.
  assert (Et : Z.testbit (u64 (value + incr)) (bits - 1) = Z.testbit (uwrap bits (value + incr)) (bits - 1)) by (by rewrite !uwrap_bits by lia).
  rewrite Et. rewrite <- (swrap_uwrap bits (value + incr)) by lia. set (u := uwrap bits (value + incr)). assert (Hu : urange bits u) by (apply uwrap_range; lia). clearbody u. clear Hc Et.
  rewrite top_bit by (lia || done). rewrite lor_high by (lia || done). rewrite (swrap_small_or bits u) by (lia || done). unfold urange in Hu.
  assert (H2 : 2 ^ bits <= 2 ^ 63) by (apply Z.pow_le_mono_r; lia). pose proof (pow2_half bits ltac:(lia)). case_bool_decide as Hcase; rewrite (swrap_small_or 64) by (unfold urange; lia); change (2 ^ (64 - 1)) with (2 ^ 63).
  - rewrite bool_decide_eq_true_2 by lia. lia.
  - by rewrite bool_decide_eq_false_2 by lia.
Qed.

Lemma checkSigned_ok value incr bits ow : 1 <= bits <= 64 -> srange 64 value -> srange 64 incr -> srange bits value \/ (incr = 0 /\ tmax true bits - 2 ^ 63 < value) ->
  checkSignedBitfieldOverflow value incr bits ow = check_spec true bits ow (value + incr).
Proof.
  intros Hb Hv Hi Hor. unfold checkSignedBitfieldOverflow. cbv zeta. rewrite (signed_wrap value incr bits _ Hb eq_refl). unfold check_spec, tmin, tmax, twrap in *. rewrite Z.shiftl_1_l.
  assert (Hmax : (if bits =? 64 then 2 ^ 63 - 1 else s64 (2 ^ (bits - 1)) - 1) = 2 ^ (bits - 1) - 1).
  { destruct (Z.eqb_spec bits 64) as [->|]; [done|]. assert (2 ^ (bits - 1) <= 2 ^ 62) by (apply Z.pow_le_mono_r; lia). assert (0 < 2 ^ (bits - 1)) by (apply Z.pow_pos_nonneg; lia). rewrite swrap_small; [done|lia|]. unfold srange. change (2 ^ (64 - 1)) with (2 ^ 63). lia. }
  rewrite Hmax. assert (Hp : 1 <= 2 ^ (bits - 1) <= 2 ^ 63) by (split; [apply (Z.pow_le_mono_r 2 0); lia|apply Z.pow_le_mono_r; lia]).
  assert (H64 : if bits =? 64 then 2 ^ (bits - 1) = 2 ^ 63 else 2 ^ (bits - 1) <= 2 ^ 62) by (destruct (Z.eqb_spec bits 64) as [->|]; [done|apply Z.pow_le_mono_r; lia]).
  unfold srange in *. change (2 ^ (64 - 1)) with (2 ^ 63) in *. set (M := 2 ^ (bits - 1)) in *. clearbody M. rewrite (uwrap_small 64 (M - 1)) by (unfold urange; lia). replace (- (M - 1) - 1) with (- M) by lia.
  assert (Hs : forall z, - 2 ^ 63 <= z < 2 ^ 63 -> s64 z = z) by (intros z Hz; apply swrap_small; [lia|exact Hz]).
  assert (Hfin : forall o u : bool, (o = true <-> value + incr > M - 1) -> (o = false -> (u = true <-> value + incr < - M)) ->
    (if o then match ow with BFOVERFLOW_WRAP => (1, Some (swrap bits (value + incr))) | BFOVERFLOW_SAT => (1, Some (M - 1)) | BFOVERFLOW_FAIL => (1, None) end
     else if u then match ow with BFOVERFLOW_WRAP => (1, Some (swrap bits (value + incr))) | BFOVERFLOW_SAT => (-1, Some (- M)) | BFOVERFLOW_FAIL => (-1, None) end else (0, None)) =
    (if value + incr >? M - 1 then (1, match ow with BFOVERFLOW_WRAP => Some (swrap bits (value + incr)) | BFOVERFLOW_SAT => Some (M - 1) | BFOVERFLOW_FAIL => None end)
     else if value + incr <? - M then (match ow with BFOVERFLOW_WRAP => 1 | _ => -1 end, match ow with BFOVERFLOW_WRAP => Some (swrap bits (value + incr)) | BFOVERFLOW_SAT => Some (- M) | BFOVERFLOW_FAIL => None end) else (0, None))).
  { intros o u Ho Hu. destruct (Z.gtb_spec (value + incr) (M - 1)).
    - assert (o = true) as -> by (apply Ho; lia). by destruct ow.
    - assert (o = false) as -> by (destruct o; [exfalso; assert (value + incr > M - 1) by (by apply Ho); lia|done]). specialize (Hu eq_refl). destruct (Z.ltb_spec (value + incr) (- M)).
      + assert (u = true) as -> by (by apply Hu). by destruct ow.
      + assert (u = false) as -> by (destruct u; [exfalso; assert (value + incr < - M) by (by apply Hu); lia|done]). by destruct ow. }
  apply Hfin; clear Hfin.
  - destruct (Z.eqb_spec bits 64); cbn [negb andb]; rewrite !orb_true_iff, ?andb_true_iff, !Z.gtb_lt, Z.geb_le.
    + destruct (Z.leb_spec 0 value); [rewrite Hs by lia|]; lia.
    + destruct (Z.leb_spec value (M - 1)); [rewrite Hs by lia|]; lia.
  - destruct (Z.eqb_spec bits 64); cbn [negb andb]; rewrite !orb_false_iff; intros [[Hgt _] _]; rewrite !orb_true_iff, ?andb_true_iff, !Z.ltb_lt.
    + destruct (Z.ltb_spec value 0); [rewrite Hs by lia|]; lia.
    + destruct (Z.leb_spec (- M) value); [|lia]. destruct (Z.leb_spec value (M - 1)); [rewrite Hs by lia|]; lia.
Qed.

(** A value so low that the difference with the maximum does not fit in 64 bits is taken
    for one that is too large. *)
Lemma checkSigned_low value bits ow : 1 <= bits <= 64 -> srange 64 value -> value <= tmax true bits - 2 ^ 63 -> ~ srange bits value ->
  checkSignedBitfieldOverflow value 0 bits ow = (1, match ow with BFOVERFLOW_WRAP => Some (swrap bits value) | BFOVERFLOW_SAT => Some (tmax true bits) | BFOVERFLOW_FAIL => None end).
Proof.
  intros Hb Hv Hlow Hout. unfold checkSignedBitfieldOverflow. cbv zeta. rewrite (signed_wrap value 0 bits _ Hb eq_refl), Z.add_0_r. unfold tmax, srange in *. change (2 ^ (64 - 1)) with (2 ^ 63) in *.
  destruct (Z.eqb_spec bits 64) as [->|Hne]; [exfalso; apply Hout; exact Hv|]. assert (Hp : 1 <= 2 ^ (bits - 1) <= 2 ^ 62) by (split; [apply (Z.pow_le_mono_r 2 0); lia|apply Z.pow_le_mono_r; lia]).
  rewrite Z.shiftl_1_l, (swrap_small 64 (2 ^ (bits - 1))) by (unfold srange; lia). set (M := 2 ^ (bits - 1)) in *. clearbody M. rewrite (uwrap_small 64 (M - 1)) by (unfold urange; lia).
  assert (Hs : s64 (M - 1 - value) = M - 1 - value - 2 ^ 64) by (rewrite (swrap_small_or 64) by (unfold urange; lia); by rewrite bool_decide_eq_true_2 by (change (2 ^ (64 - 1)) with (2 ^ 63); lia)).
  rewrite Hs. cbn [negb andb]. assert (E : ((value >? M - 1) || (0 >? M - 1 - value - 2 ^ 64)) = true) by lia. rewrite E. cbn [orb]. by destruct ow.
Qed.

(** * The operations *)

(** A signed SET of an amount so low that the check mistakes it for one that is too high ([checkSigned_low]). *)
Definition misjudged (op : bitfieldOp) : bool :=
  op_sign op && match op_code op with BITFIELDOP_SET => true | _ => false end && (op_i64 op <=? tmax true (op_bits op) - 2 ^ 63).

(** The arithmetic of an operation on a field that has the value [old]: a value out of the range of the field wraps around, is the nearest
    bound of the range, or fails; only the nearest bound of a [misjudged] amount is the wrong one. *)
Definition new_value (op : bitfieldOp) (old : Z) : option Z :=
  let low := misjudged op in
  let '(mkOp _ i64 code ow bits sign) := op in
  let t := match code with BITFIELDOP_INCRBY => old + i64 | _ => if sign then i64 else u64 i64 end in
  let wrapped := match ow with BFOVERFLOW_WRAP => Some (twrap sign bits t) | BFOVERFLOW_SAT => Some (if (t >? tmax sign bits) || low then tmax sign bits else tmin sign bits) | BFOVERFLOW_FAIL => None end in
  if (t >? tmax sign bits) || (t <? tmin sign bits) then wrapped else Some t.

Definition spec_op (f : Z -> bool) (op : bitfieldOp) : (Z -> bool) * option Z :=
  let old := twrap (op_sign op) (op_bits op) (field f (Z.to_nat (op_bits op)) (op_offset op)) in
  match op_code op with
  | BITFIELDOP_GET => (f, Some old)
  | code =>
    match new_value op old with
    | None => (f, None)
    | Some v => (write f (op_offset op) (Z.to_nat (op_bits op)) v, Some (match code with BITFIELDOP_INCRBY => v | _ => old end))
    end
  end.

Fixpoint spec_ops (f : Z -> bool) (ops : list bitfieldOp) : (Z -> bool) * list (option Z) :=
  match ops with
  | [] => (f, [])
  | op :: ops => let '(f, r) := spec_op f op in let '(f, rs) := spec_ops f ops in (f, r :: rs)
  end.

(** The operations the command parses: [i1] to [i64] and [u1] to [u63]. *)
Record valid_op (op : bitfieldOp) : Prop := {
  vo_bits : 1 <= op_bits op <= if op_sign op then 64 else 63;
  vo_offset : 0 <= op_offset op < 2 ^ 63;
  vo_i64 : srange 64 (op_i64 op)
}.

Lemma write_wrap f offset n v i : (n <= 64)%nat -> write f offset n (u64 v) i = write f offset n v i.
Proof. intros Hn. unfold write. destruct (Z.leb_spec offset i), (Z.ltb_spec i (offset + Z.of_nat n)); cbn [andb]; try done. apply uwrap_bits. lia. Qed.

Lemma twrap_range sign bits t : 1 <= bits -> tmin sign bits <= twrap sign bits t <= tmax sign bits.
Proof.
  intros Hb. unfold tmin, tmax, twrap. destruct sign; [pose proof (swrap_range bits t ltac:(lia)) as H; unfold srange in H|pose proof (uwrap_range bits t ltac:(lia)) as H; unfold urange in H]; lia.
Qed.

(** The check and the choice of the new value, whatever the old one. *)
Lemma choose_ok op old : valid_op op -> op_code op <> BITFIELDOP_GET -> tmin (op_sign op) (op_bits op) <= old <= tmax (op_sign op) (op_bits op) ->
  let '(mkOp _ i64 code ow bits sign) := op in
  let value := match code with BITFIELDOP_INCRBY => old | _ => if sign then i64 else u64 i64 end in
  let incr := match code with BITFIELDOP_INCRBY => i64 | _ => 0 end in
  let '(overflow, limit) := if sign then checkSignedBitfieldOverflow value incr bits ow else checkUnsignedBitfieldOverflow value incr bits ow in
  let other := if sign then s64 (value + incr) else u64 (value + incr) in
  negb (negb (overflow =? 0) && match ow with BFOVERFLOW_FAIL => true | _ => false end) = match new_value op old with Some _ => true | None => false end /\
  forall v, new_value op old = Some v -> chosen overflow limit other = v /\ tmin sign bits <= v <= tmax sign bits.
Proof.
  destruct op as [offset i64 code ow bits sign]. intros [Hb Ho Hi] Hcode Hold. unfold new_value. set (low := misjudged _). cbn [op_bits op_offset op_i64 op_sign op_code op_owtype] in *.
  set (value := match code with BITFIELDOP_INCRBY => old | _ => _ end). set (incr := match code with BITFIELDOP_INCRBY => i64 | _ => 0 end). set (t := match code with BITFIELDOP_INCRBY => old + i64 | _ => _ end).
  assert (Et : t = value + incr) by (unfold t, value, incr; destruct code; lia). assert (Hb' : 1 <= bits <= 64) by (destruct sign; lia).
  assert (Hother : tmin sign bits <= t <= tmax sign bits -> (if sign then s64 (value + incr) else u64 (value + incr)) = t).
  { rewrite Et. unfold tmin, tmax. intros Ht. destruct sign.
    - assert (2 ^ (bits - 1) <= 2 ^ 63) by (apply Z.pow_le_mono_r; lia). apply swrap_small; [lia|]. unfold srange. change (2 ^ (64 - 1)) with (2 ^ 63). lia.
    - assert (2 ^ bits <= 2 ^ 63) by (apply Z.pow_le_mono_r; lia). apply uwrap_small. unfold urange. lia. }
  assert (Hmm : tmin sign bits <= tmax sign bits) by (pose proof (twrap_range sign bits 0 ltac:(lia)); lia).
  destruct (low && (t <? tmin sign bits)) eqn:Elow.
  { apply andb_true_iff in Elow as [El Ht%Z.ltb_lt]. unfold low, misjudged in El. cbn [op_bits op_i64 op_sign op_code] in El. apply andb_true_iff in El as [[-> Ec]%andb_true_iff Hle%Z.leb_le]. assert (Hc : code = BITFIELDOP_SET) by (by destruct code). subst code. unfold value, incr in *.
    replace low with true by (unfold low, misjudged; cbn; symmetry; by apply Z.leb_le). rewrite orb_true_r. rewrite checkSigned_low; [|done|done|done|unfold srange, tmin, t in *; lia]. rewrite (proj2 (Z.ltb_lt t _)), orb_true_r by done. pose proof (twrap_range true bits t ltac:(lia)) as Hw.
    destruct ow; cbn; (split; [done|]); intros v [= <-]; split; try done; lia. }
  assert (Hcheck : forall r, r = (if sign then checkSignedBitfieldOverflow value incr bits ow else checkUnsignedBitfieldOverflow value incr bits ow) ->
    (negb (r.1 =? 0), r.2) = (negb ((check_spec sign bits ow t).1 =? 0), (check_spec sign bits ow t).2)).
  { intros r ->. destruct sign.
    - assert (Hv : srange 64 value) by (unfold value; destruct code; try done; unfold tmin, tmax, srange in *; change (2 ^ (64 - 1)) with (2 ^ 63) in *; assert (2 ^ (bits - 1) <= 2 ^ 63) by (apply Z.pow_le_mono_r; lia); lia).
      assert (Hin : srange 64 incr) by (unfold incr; destruct code; try done; by vm_compute).
      destruct (decide (srange bits value)) as [Hr|Hr]; [by rewrite checkSigned_ok, <- Et by (done || by left)|]. assert (Hi0 : incr = 0) by (unfold incr; destruct code; try done; exfalso; apply Hr; unfold value, srange, tmin, tmax in *; lia).
      destruct (Z.ltb_spec (tmax true bits - 2 ^ 63) value) as [Hlt|Hge]; [by rewrite checkSigned_ok, <- Et by (done || by right)|].
      exfalso. assert (Hc : code = BITFIELDOP_SET) by (destruct code; try done; exfalso; apply Hr; unfold value, srange, tmin, tmax in *; lia). assert (Hp : 2 ^ (bits - 1) <= 2 ^ 63) by (apply Z.pow_le_mono_r; lia).
      assert (El : low = true) by (unfold low, misjudged; cbn [op_bits op_i64 op_sign op_code]; rewrite Hc; cbn; apply Z.leb_le; unfold value in Hge; by rewrite Hc in Hge). rewrite El, Et, Hi0, Z.add_0_r in Elow. apply Z.ltb_ge in Elow. apply Hr. unfold srange, tmin, tmax in *. lia.
    - rewrite checkUnsigned_ok, <- Et; [done|lia| | |].
      + unfold value. destruct code; try (apply uwrap_range; lia). unfold tmin, tmax, urange in *. assert (2 ^ bits <= 2 ^ 63) by (apply Z.pow_le_mono_r; lia). lia.
      + unfold incr. destruct code; try done; by vm_compute.
      + unfold value, incr. destruct code; [by right|by right|left; lia]. }
  destruct (if sign then checkSignedBitfieldOverflow value incr bits ow else checkUnsignedBitfieldOverflow value incr bits ow) as [overflow limit].
  specialize (Hcheck _ eq_refl). cbn [fst snd] in Hcheck. injection Hcheck as Ho1 Ho2. unfold chosen. rewrite Ho1, Ho2. clear Ho1 Ho2 overflow limit. unfold check_spec.
  pose proof (twrap_range sign bits t ltac:(lia)) as Hw.
  destruct (Z.gtb_spec t (tmax sign bits)) as [Hgt|Hle]; cbn [orb].
  - destruct ow; cbn; (split; [done|]); intros v [= <-]; split; try done; lia.
  - destruct (Z.ltb_spec t (tmin sign bits)) as [Hlt|Hge]; cbn [orb].
    + rewrite andb_true_r in Elow. rewrite Elow. destruct ow; cbn; (split; [done|]); intros v [= <-]; split; try done; lia.
    + cbn. split; [done|]. intros v [= <-]. split; [apply Hother; lia|lia].
Qed.

Lemma uwrap_swrap w z : uwrap w (swrap w z) = uwrap w z.
Proof. unfold uwrap, swrap. rewrite Zminus_mod_idemp_l. f_equal. lia. Qed.

(** To write what is read changes nothing. *)
Lemma write_same f sign n offset i : (1 <= n)%nat -> write f offset n (twrap sign (Z.of_nat n) (field f n offset)) i = f i.
Proof.
  intros Hn. unfold write. destruct (Z.leb_spec offset i), (Z.ltb_spec i (offset + Z.of_nat n)); cbn [andb]; try done. set (k := Z.of_nat n - 1 - (i - offset)).
  assert (E : Z.testbit (twrap sign (Z.of_nat n) (field f n offset)) k = Z.testbit (field f n offset) k).
  { rewrite <- (uwrap_bits (Z.of_nat n)) by (unfold k; lia). f_equal. assert (Hu := uwrap_small _ _ (field_range f n offset)). unfold twrap. destruct sign; [|by rewrite !Hu].
    rewrite uwrap_swrap. exact Hu. }
  rewrite E, field_bit by (unfold k; lia). f_equal. unfold k. lia.
Qed.

Lemma field_write_ok grew p op : valid_op op -> op_code op <> BITFIELDOP_GET -> in_string p (op_offset op) (op_bits op) ->
  exists p' ch, bitfield_write grew p op = Some (p', (spec_op (bit_at p) op).2, ch) /\ bytes_ok p' /\ length p' = length p /\
    (forall i, 0 <= i -> bit_at p' i = (spec_op (bit_at p) op).1 i) /\ (ch = false -> forall i, 0 <= i -> bit_at p' i = bit_at p i).
Proof.
  intros Hv Hcode Hin. set (old := twrap (op_sign op) (op_bits op) (field (bit_at p) (Z.to_nat (op_bits op)) (op_offset op))).
  assert (Hold : tmin (op_sign op) (op_bits op) <= old <= tmax (op_sign op) (op_bits op)) by (apply twrap_range, Hin).
  pose proof (choose_ok op old Hv Hcode Hold) as Hch. destruct op as [offset i64 code ow bits sign]. unfold spec_op, bitfield_write. cbn [op_bits op_offset op_i64 op_sign op_code op_owtype] in *. fold old.
  assert (Hget : (if sign then getSignedBitfield p offset bits else getUnsignedBitfield p offset bits) = Some old).
  { unfold old, twrap. destruct sign; [by apply getSigned_ok|]. rewrite getUnsigned_ok by done. f_equal. symmetry. apply uwrap_small. pose proof (field_range (bit_at p) (Z.to_nat bits) offset) as Hr. destruct Hin as [_ ? _ _]. by rewrite Z2Nat.id in Hr by lia. }
  rewrite Hget. cbn [mbind option_bind]. set (nv := new_value _ old) in *.
  assert (Hreply : forall z, tmin sign bits <= z <= tmax sign bits -> (if sign then z else s64 z) = z).
  { intros z Hz. destruct sign; [done|]. destruct Hv as [Hb _ _]. cbn in Hb. unfold tmin, tmax in Hz. assert (2 ^ bits <= 2 ^ 63) by (apply Z.pow_le_mono_r; lia). apply swrap_small; [lia|]. unfold srange. change (2 ^ (64 - 1)) with (2 ^ 63). lia. }
  assert (Hset : forall v, exists p', (if sign then setSignedBitfield p offset bits v else setUnsignedBitfield p offset bits v) = Some p' /\ bytes_ok p' /\ length p' = length p /\ forall i, 0 <= i -> bit_at p' i = write (bit_at p) offset (Z.to_nat bits) v i).
  { intros v. pose proof Hin as [_ ? _ _]. destruct sign.
    - destruct (setUnsigned_ok p offset bits (u64 v) Hin) as (p' & H1 & H2 & H3 & H4). exists p'. split_and!; [done|apply H2|done|]. intros i Hi. rewrite H4 by done. apply write_wrap. lia.
    - destruct (setUnsigned_ok p offset bits v Hin) as (p' & H1 & H2 & H3 & H4). exists p'. split_and!; [done|apply H2|done|done]. }
  assert (Hsame : exists p' ch, Some (p, None, false) = Some (p', @None Z, ch) /\ bytes_ok p' /\ length p' = length p /\ (forall i, 0 <= i -> bit_at p' i = bit_at p i) /\ (ch = false -> forall i, 0 <= i -> bit_at p' i = bit_at p i))
    by (exists p, false; split_and!; try done; apply Hin).
  assert (Hkeep : forall p' v i, (forall i, 0 <= i -> bit_at p' i = write (bit_at p) offset (Z.to_nat bits) v i) -> grew || negb (old =? v) = false -> 0 <= i -> bit_at p' i = bit_at p i).
  { intros p' v i Hw [_ E%negb_false_iff%Z.eqb_eq]%orb_false_elim Hi. rewrite Hw, <- E by done. unfold old. pose proof Hin as [_ ? _ _]. rewrite <- (Z2Nat.id bits) at 2 by lia. apply write_same. lia. }
  destruct code; [done| |].
  - rewrite Z.add_0_r in Hch. assert (Hsu : (if sign then s64 (if sign then i64 else u64 i64) else u64 (if sign then i64 else u64 i64)) = (if sign then i64 else u64 i64)).
    { destruct sign; [apply swrap_small; [lia|apply Hv]|apply uwrap_small, uwrap_range; lia]. }
    rewrite Hsu in Hch. destruct (if sign then checkSignedBitfieldOverflow _ _ _ _ else _) as [overflow limit]. destruct Hch as [-> Hnew]. destruct nv as [v|]; [|done]. destruct (Hnew v eq_refl) as [-> Hvr].
    destruct (Hset v) as (p' & -> & H2 & H3 & H4). cbn [mbind option_bind]. rewrite Hreply by done. exists p', (grew || negb (old =? v)). split_and!; eauto.
  - destruct (if sign then checkSignedBitfieldOverflow _ _ _ _ else _) as [overflow limit]. destruct Hch as [-> Hnew]. destruct nv as [v|]; [|done]. destruct (Hnew v eq_refl) as [-> Hvr].
    destruct (Hset v) as (p' & -> & H2 & H3 & H4). cbn [mbind option_bind]. rewrite Hreply by done. exists p', (grew || negb (old =? v)). split_and!; eauto.
Qed.

(** ** GET *)

Lemma copy_bytes_length n src k : length (copy_bytes n src k) = n.
Proof. revert k. induction n as [|n IH]; intros k; [done|]. cbn [copy_bytes]. destruct (src !! k); [cbn; by rewrite IH|by rewrite length_replicate]. Qed.

Lemma copy_bytes_lookup n src k i : (i < n)%nat -> copy_bytes n src k !! i = Some (default 0 (src !! (k + i)%nat)).
Proof.
  revert k i. induction n as [|n IH]; intros k i Hi; [lia|]. cbn [copy_bytes]. destruct (src !! k) as [b|] eqn:E.
  - destruct i as [|i]; [by rewrite Nat.add_0_r, E|]. cbn [lookup list_lookup]. rewrite IH by lia. do 3 f_equal. lia.
  - rewrite lookup_replicate_2 by done. apply lookup_ge_None in E. by rewrite lookup_ge_None_2 by lia.
Qed.

Lemma copy_bytes_ok n src k : bytes_ok src -> bytes_ok (copy_bytes n src k).
Proof.
  intros H. apply Forall_lookup. intros i b Hb. pose proof (lookup_lt_Some _ _ _ Hb) as Hlt. rewrite copy_bytes_length in Hlt. rewrite copy_bytes_lookup in Hb by done. injection Hb as <-.
  destruct (src !! (k + i)%nat) as [b|] eqn:E; [exact (Forall_lookup_1 _ _ _ _ H E)|by vm_compute].
Qed.

Lemma copy_bytes_bit n src k i : 0 <= k -> 0 <= i < 8 * Z.of_nat n -> bit_at (copy_bytes n src (Z.to_nat k)) i = bit_at src (k * 8 + i).
Proof.
  intros Hk Hi. unfold bit_at. assert (0 <= i / 8 < Z.of_nat n) by (split; [apply Z.div_pos; lia|apply Z.div_lt_upper_bound; lia]). rewrite copy_bytes_lookup by lia.
  rewrite (Z.add_comm (k * 8)), Z.div_add, Z.mod_add by lia. replace (Z.to_nat (i / 8 + k)) with (Z.to_nat k + Z.to_nat (i / 8))%nat by lia. destruct (src !! _); [done|]. cbn. apply Z.bits_0.
Qed.

Lemma field_shift f g n o o' : (forall i, 0 <= i < Z.of_nat n -> f (o + i) = g (o' + i)) -> field f n o = field g n o'.
Proof. intros H. induction n as [|n IH]; [done|]. cbn [field]. rewrite IH by (intros i Hi; apply H; lia). by rewrite H by lia. Qed.

Lemma get_ok p op : valid_op op -> bytes_ok p ->
  bitfield_get p op = Some (Some (twrap (op_sign op) (op_bits op) (field (bit_at p) (Z.to_nat (op_bits op)) (op_offset op)))).
Proof.
  destruct op as [offset i64 code ow bits sign]. intros [Hb Ho _] Hp. cbn [op_bits op_offset op_sign] in *. unfold bitfield_get. rewrite shift3. assert (Hb' : 1 <= bits <= 64) by (destruct sign; lia).
  pose proof (Z.div_mod offset 8 ltac:(lia)) as Hdm. pose proof (Z.mod_pos_bound offset 8 ltac:(lia)) as Hmod. assert (Hbyte : 0 <= offset / 8) by (apply Z.div_pos; lia).
  assert (Hin : in_string (copy_bytes 9 p (Z.to_nat (offset / 8))) (offset - offset / 8 * 8) bits).
  { split; [by apply copy_bytes_ok|done|lia|]. rewrite copy_bytes_length. change (Z.of_nat 9) with 9. lia. }
  assert (Hf : field (bit_at (copy_bytes 9 p (Z.to_nat (offset / 8)))) (Z.to_nat bits) (offset - offset / 8 * 8) = field (bit_at p) (Z.to_nat bits) offset).
  { apply field_shift. intros i Hi. rewrite copy_bytes_bit by (change (Z.of_nat 9) with 9; lia). f_equal. lia. }
  pose proof (field_range (bit_at p) (Z.to_nat bits) offset) as Hr. rewrite Z2Nat.id in Hr by lia. unfold twrap. destruct sign.
  - rewrite getSigned_ok by done. by rewrite Hf.
  - rewrite getUnsigned_ok by done. cbn [mbind option_bind]. rewrite Hf. do 2 f_equal. rewrite (uwrap_small bits) by done. apply swrap_small; [lia|]. unfold urange, srange in *. assert (2 ^ bits <= 2 ^ 63) by (apply Z.pow_le_mono_r; lia). change (2 ^ (64 - 1)) with (2 ^ 63). lia.
Qed.

(** ** Sequences of operations *)

(** Two strings of bits that are equal from bit 0 on. *)
Definition same_bits (f g : Z -> bool) : Prop := forall i, 0 <= i -> f i = g i.

Lemma spec_op_ext f g op : valid_op op -> same_bits f g -> (spec_op f op).2 = (spec_op g op).2 /\ same_bits (spec_op f op).1 (spec_op g op).1.
Proof.
  intros Hv H. unfold spec_op. rewrite (field_ext f g) by (intros i Hi; apply H; pose proof (vo_offset _ Hv); lia). set (old := twrap _ _ _).
  assert (Hw : forall v, same_bits (write f (op_offset op) (Z.to_nat (op_bits op)) v) (write g (op_offset op) (Z.to_nat (op_bits op)) v)) by (intros v i Hi; unfold write; by rewrite (H i Hi)).
  destruct (op_code op); [done| |]; destruct (new_value op old); (split; [done|]); (apply Hw || exact H).
Qed.

Lemma spec_ops_ext ops f g : Forall valid_op ops -> same_bits f g -> (spec_ops f ops).2 = (spec_ops g ops).2 /\ same_bits (spec_ops f ops).1 (spec_ops g ops).1.
Proof.
  intros Hv. revert f g. induction Hv as [|op ops Hop _ IH]; intros f g H; [done|]. cbn [spec_ops]. destruct (spec_op_ext f g op Hop H) as [H1 H2].
  destruct (spec_op f op) as [f1 r1], (spec_op g op) as [g1 r2]. cbn in *. subst r2. destruct (IH f1 g1 H2) as [H3 H4]. destruct (spec_ops f1 ops), (spec_ops g1 ops). cbn in *. by subst.
Qed.

(** A string that is long enough for the operations that write. *)
Definition room (p : bytes) (op : bitfieldOp) : Prop := op_code op <> BITFIELDOP_GET -> op_offset op + op_bits op <= 8 * Z.of_nat (length p).

Lemma ops_ok grew ops p : Forall valid_op ops -> bytes_ok p -> Forall (room p) ops -> 8 * Z.of_nat (length p) < 2 ^ 64 ->
  exists p' n, bitfield_ops grew p ops = Some (p', (spec_ops (bit_at p) ops).2, n) /\ bytes_ok p' /\ length p' = length p /\ same_bits (bit_at p') (spec_ops (bit_at p) ops).1 /\ 0 <= n /\ (n = 0 -> same_bits (bit_at p') (bit_at p)).
Proof.
  intros Hv. revert p. induction Hv as [|op ops Hop Hops IH]; intros p Hp Hroom Hlen; [by exists p, 0|]. apply Forall_cons in Hroom as [Hr Hroom]. cbn [bitfield_ops spec_ops].
  assert (H1 : exists p1 ch, bitfield_op grew p op = Some (p1, (spec_op (bit_at p) op).2, ch) /\ bytes_ok p1 /\ length p1 = length p /\ same_bits (bit_at p1) (spec_op (bit_at p) op).1 /\ (ch = false -> same_bits (bit_at p1) (bit_at p))).
  { assert (Hw : op_code op <> BITFIELDOP_GET -> in_string p (op_offset op) (op_bits op)) by (intros Hc; specialize (Hr Hc); pose proof (vo_bits _ Hop); split; [done|destruct (op_sign op); lia|apply Hop|lia]).
    unfold bitfield_op. destruct (op_code op) eqn:Ec; [|apply field_write_ok; [done|by rewrite Ec|by apply Hw]..].
    exists p, false. rewrite get_ok by done. unfold spec_op. rewrite Ec. by split_and!. }
  destruct H1 as (p1 & ch & -> & Hp1 & Hl1 & Hs1 & Hc1). destruct (spec_op (bit_at p) op) as [f1 r1]. cbn [fst snd mbind option_bind] in *.
  destruct (IH p1 Hp1) as (p2 & n & -> & Hp2 & Hl2 & Hs2 & Hn & Hc2); [|lia|]. { eapply Forall_impl; [exact Hroom|]. unfold room. intros o Ho Hc. rewrite Hl1. by apply Ho. }
  cbn [mbind option_bind]. destruct (spec_ops_ext ops (bit_at p1) f1 Hops Hs1) as [E1 E2]. rewrite E1. exists p2, (b2z ch + n). destruct (spec_ops f1 ops) as [f2 rs]. cbn in *. pose proof (b2z_range ch). split_and!; [done|done|lia| |lia|].
  - intros i Hi. rewrite Hs2 by done. by apply E2.
  - intros H0. destruct ch; cbn in H0; [lia|]. intros i Hi. rewrite Hc2 by (done || lia). by apply Hc1.
Qed.

Lemma grow_zero_bits p n : same_bits (bit_at (grow_zero p n)) (bit_at p).
Proof.
  intros i Hi. unfold bit_at, grow_zero. destruct (p !! Z.to_nat (i / 8)) as [b|] eqn:E; [by rewrite (lookup_app_l_Some _ _ _ _ E)|]. apply lookup_ge_None in E. rewrite lookup_app_r by done.
  destruct (replicate _ 0 !! _) as [b|] eqn:E2; [|done]. apply lookup_replicate in E2 as [-> _]. apply Z.bits_0.
Qed.

Lemma highest_ge ops h op : h <= fold_left (fun h op => match op_code op with BITFIELDOP_GET => h | _ => if h <? op_offset op + op_bits op - 1 then op_offset op + op_bits op - 1 else h end) ops h /\
  (op ∈ ops -> op_code op <> BITFIELDOP_GET -> op_offset op + op_bits op - 1 <= fold_left (fun h op => match op_code op with BITFIELDOP_GET => h | _ => if h <? op_offset op + op_bits op - 1 then op_offset op + op_bits op - 1 else h end) ops h).
Proof.
  revert h. induction ops as [|o ops IH]; intros h; cbn [fold_left]; [split; [lia|by intros ?%elem_of_nil]|]. set (h' := match op_code o with BITFIELDOP_GET => h | _ => _ end). destruct (IH h') as [H1 H2].
  assert (Hh : h <= h' /\ (op_code o <> BITFIELDOP_GET -> op_offset o + op_bits o - 1 <= h')) by (unfold h'; destruct (op_code o); [by split; [lia|]| |]; destruct (Z.ltb_spec h (op_offset o + op_bits o - 1)); split; lia).
  split; [lia|]. intros [->|Hin]%elem_of_cons Hc; [destruct Hh as [_ Hh]; specialize (Hh Hc); lia|by apply H2].
Qed.

Lemma highest_lt ops : Forall valid_op ops -> highest_write_offset ops < 2 ^ 63 + 64.
Proof.
  unfold highest_write_offset. assert (H0 : 0 < 2 ^ 63 + 64) by lia. revert H0. generalize 0 as h. intros h Hh Hv. revert h Hh. induction Hv as [|op ops Hop _ IH]; intros h Hh; cbn [fold_left]; [done|]. apply IH.
  destruct Hop as [Hb Ho _]. assert (op_bits op <= 64) by (destruct (op_sign op); lia). destruct (op_code op); [done| |]; destruct (h <? _); lia.
Qed.

Lemma readonly_room ops p : readonly ops = true -> Forall (room p) ops.
Proof.
  intros Er. apply Forall_forall. intros op Hop Hc. exfalso. apply Hc. unfold readonly in Er. rewrite forallb_forall in Er. specialize (Er op ltac:(by apply list_elem_of_In)). by destruct (op_code op).
Qed.

Lemma grown_room ops p : bytes_ok p -> 8 * Z.of_nat (length p) < 2 ^ 63 -> Forall valid_op ops ->
  let g := grow_zero p (Z.to_nat (Z.shiftr (highest_write_offset ops) 3) + 1) in bytes_ok g /\ 8 * Z.of_nat (length g) < 2 ^ 64 /\ Forall (room g) ops.
Proof.
  intros Hp Hlen Hv. set (h := highest_write_offset ops). intros g. assert (Hh0 : 0 <= h) by (exact (proj1 (highest_ge ops 0 (mkOp 0 0 BITFIELDOP_GET BFOVERFLOW_WRAP 1 false)))). pose proof (highest_lt ops Hv) as Hh1. fold h in Hh1.
  assert (Hd : h < 8 * (h / 8) + 8 <= h + 8) by (pose proof (Z.div_mod h 8 ltac:(lia)); pose proof (Z.mod_pos_bound h 8 ltac:(lia)); lia). assert (Hd0 : 0 <= h / 8) by (apply Z.div_pos; lia).
  assert (Hgl : h < 8 * Z.of_nat (length g) < 2 ^ 64) by (unfold g, grow_zero; rewrite length_app, length_replicate, shift3; lia).
  split_and!; [unfold g, grow_zero; apply Forall_app; split; [done|]; apply Forall_replicate; by vm_compute|lia|].
  apply Forall_forall. intros op Hop Hc. destruct (highest_ge ops 0 op) as [_ Hge]. specialize (Hge Hop Hc). fold (highest_write_offset ops) in Hge. fold h in Hge. lia.
Qed.

(** The operations on a key: the replies and the bits are those of the specification, and
    an execution that counts no change leaves the bits as they were. *)
Lemma field_run_ok read_only v ops : v <> OtherType -> bytes_ok (contents v) -> 8 * Z.of_nat (length (contents v)) < 2 ^ 63 -> Forall valid_op ops -> (readonly ops = false -> read_only = false) ->
  exists v' n, bitfield_run read_only v ops = Some (Replies (spec_ops (bit_at (contents v)) ops).2, v', n) /\ v' <> OtherType /\ bytes_ok (contents v') /\
    same_bits (bit_at (contents v')) (spec_ops (bit_at (contents v)) ops).1 /\ 0 <= n /\ (n = 0 -> same_bits (bit_at (contents v')) (bit_at (contents v))) /\ (readonly ops = true -> v' = v).
Proof.
  intros Ht Hp Hlen Hv Hro. unfold bitfield_run. destruct (readonly ops) eqn:Er.
  - destruct (ops_ok false ops (contents v) Hv Hp (readonly_room _ _ Er) ltac:(lia)) as (p' & n & He & _ & _ & Hs & Hn & Hc).
    assert (Hsame : forall f, same_bits (spec_ops f ops).1 f).
    { clear -Er Hv. induction Hv as [|op ops Hop _ IH]; intros f; [done|]. cbn [readonly forallb] in Er. apply andb_true_iff in Er as [E1 E2]. cbn [spec_ops]. unfold spec_op. destruct (op_code op); [|done..]. specialize (IH E2 f). by destruct (spec_ops f ops). }
    rewrite He. cbn [mbind option_bind]. exists v, n. destruct v; try done; (split_and!; try done; intros i Hi; symmetry; by apply Hsame).
  - rewrite Hro by done. destruct (grown_room ops (contents v) Hp Hlen Hv) as (Hg1 & Hg2 & Hg3). set (g := grow_zero _ _) in *.
    destruct (ops_ok (bool_decide (length (contents v) < length g)%nat) ops g Hv Hg1 Hg3 Hg2) as (p' & n & He & Hok & _ & Hs & Hn & Hc). rewrite He. cbn [mbind option_bind].
    destruct (spec_ops_ext ops (bit_at g) (bit_at (contents v)) Hv (grow_zero_bits _ _)) as [E1 E2]. rewrite E1. exists (Str p'), n.
    assert (Hbits : same_bits (bit_at p') (spec_ops (bit_at (contents v)) ops).1) by (intros i Hi; rewrite Hs by done; by apply E2).
    assert (Hkeep : n = 0 -> same_bits (bit_at p') (bit_at (contents v))) by (intros H0 i Hi; rewrite Hc by done; by apply grow_zero_bits).
    destruct v; (done || split_and!; done).
Qed.

(** * Samples *)

Lemma bitfield_set_get_witness : exists p', setSignedBitfield [255; 0; 129] 7 5 (-9) = Some p' /\ setUnsignedBitfield [255; 0; 129] 7 5 (u64 (-9)) = Some p' /\
  getUnsignedBitfield p' 7 5 = Some (uwrap 5 (-9)) /\ getSignedBitfield p' 7 5 = Some (swrap 5 (-9)) /\
  length p' = length [255; 0; 129] /\ forall i, 0 <= i -> ~ (7 <= i < 7 + 5) -> bit_at p' i = bit_at [255; 0; 129] i.
Proof. apply (bitfield_set_get [255; 0; 129] 7 5 (-9)). split; [repeat constructor; by vm_compute|lia|lia|cbn; lia]. Defined.

(** A SET of an [i8] that saturates writes the largest value for the lowest ones. *)
Example saturate_low : bitfield_run false (Str [0]) [mkOp 0 (- 2 ^ 63) BITFIELDOP_SET BFOVERFLOW_SAT 8 true] = Some (Replies [Some 0], Str [127], 1) /\
  bitfield_run false (Str [0]) [mkOp 0 (- 2 ^ 62) BITFIELDOP_SET BFOVERFLOW_SAT 8 true] = Some (Replies [Some 0], Str [128], 1).
Proof. by vm_compute. Qed.

(** A SET that fails creates the key or makes it longer, without counting a change. *)
Example failed_write_grows : bitfield_run false Absent [mkOp 16 300 BITFIELDOP_SET BFOVERFLOW_FAIL 8 false] = Some (Replies [None], Str [0; 0; 0], 0).
Proof. by vm_compute. Qed.

End BitfieldSpec.
