(* ===== verification/BitfieldCmd.v ===== *)
(** The commands BITFIELD and BITFIELD_RO from their arguments on: the parser of
    sub-commands, types and offsets of bitops.c, its round trip with a printer, and the
    theorem on the whole command. *)

From S2P Require Import Prelude Bits Util Sds SdsSpec Bitfield BitfieldSpec.

Module BitfieldCmd.
Import Util Bitfield BitfieldSpec.

(** * Parsing *)

(** [!strcasecmp(s,name)]; the names are in lower case. *)
Definition strcaseeq (s name : bytes) : bool := bool_decide (map Sds.tolower (SdsSpec.c_string s) = name).

Definition name_get : bytes := [103; 101; 116].
Definition name_set : bytes := [115; 101; 116].
Definition name_incrby : bytes := [105; 110; 99; 114; 98; 121].
Definition name_overflow : bytes := [111; 118; 101; 114; 102; 108; 111; 119].
Definition name_wrap : bytes := [119; 114; 97; 112].
Definition name_sat : bytes := [115; 97; 116].
Definition name_fail : bytes := [102; 97; 105; 108].

(** The offset, with the multiplication of [#<offset>] at 64 bits: [obey] is
    [mustObeyClient(c)] and [max_bulk] is [server.proto_max_bulk_len]. *)
Definition getBitOffsetFromArgument (obey : bool) (max_bulk : Z) (o : bytes) (hash : bool) (bits : Z) : option Z :=
  let usehash := match o with c :: _ => (c =? 35) && hash && (bits >? 0) | [] => false end in
  loffset ← string2ll (if usehash then tail o else o);
  let loffset := if usehash then s64 (loffset * bits) else loffset in
  if (loffset <? 0) || (negb obey && (Z.shiftr loffset 3 >=? max_bulk)) then None else Some loffset.

Definition getBitfieldTypeFromArgument (o : bytes) : option (bool * Z) :=
  match o with
  | [] => None
  | c :: rest =>
    sign ← (if c =? 105 then Some true else if c =? 117 then Some false else None);
    llbits ← string2ll (SdsSpec.c_string rest);
    if (llbits <? 1) || (sign && (llbits >? 64)) || (negb sign && (llbits >? 63)) then None else Some (sign, llbits)
  end.

Inductive subcommand := Sub (code : opcode_t) | SubOverflow.

Definition get_subcommand (subcmd : bytes) (remargs : nat) : option subcommand :=
  if strcaseeq subcmd name_get && (2 <=? remargs)%nat then Some (Sub BITFIELDOP_GET)
  else if strcaseeq subcmd name_set && (3 <=? remargs)%nat then Some (Sub BITFIELDOP_SET)
  else if strcaseeq subcmd name_incrby && (3 <=? remargs)%nat then Some (Sub BITFIELDOP_INCRBY)
  else if strcaseeq subcmd name_overflow && (1 <=? remargs)%nat then Some SubOverflow
  else None.

Definition get_owtype (name : bytes) : option owtype :=
  if strcaseeq name name_wrap then Some BFOVERFLOW_WRAP
  else if strcaseeq name name_sat then Some BFOVERFLOW_SAT
  else if strcaseeq name name_fail then Some BFOVERFLOW_FAIL
  else None.

Section Settings.
Context (obey : bool) (max_bulk : Z).

(** The type and the offset, and the value of SET and INCRBY. *)
Definition parse_op (ow : owtype) (code : opcode_t) (type offset : bytes) (val : option bytes) : bf_error + bitfieldOp :=
  match getBitfieldTypeFromArgument type with
  | None => inl TypeErr
  | Some (sign, bits) =>
    match getBitOffsetFromArgument obey max_bulk offset true bits with
    | None => inl OffsetErr
    | Some bitoffset =>
      match val with
      | None => inr (mkOp bitoffset 0 code ow bits sign)
      | Some v => match string2ll v with None => inl NotIntegerErr | Some i64 => inr (mkOp bitoffset i64 code ow bits sign) end
      end
    end
  end.

(** [for (j = 2; j < c->argc; j++)]. *)
Fixpoint parse_ops (ow : owtype) (args : list bytes) : bf_error + list bitfieldOp :=
  match args with
  | [] => inr []
  | subcmd :: rest =>
    match get_subcommand subcmd (length rest), rest with
    | Some SubOverflow, name :: rest => match get_owtype name with Some ow => parse_ops ow rest | None => inl OverflowErr end
    | Some (Sub BITFIELDOP_GET), type :: offset :: rest =>
      match parse_op ow BITFIELDOP_GET type offset None with
      | inl e => inl e
      | inr op => match parse_ops ow rest with inl e => inl e | inr ops => inr (op :: ops) end
      end
    | Some (Sub code), type :: offset :: val :: rest =>
      match parse_op ow code type offset (Some val) with
      | inl e => inl e
      | inr op => match parse_ops ow rest with inl e => inl e | inr ops => inr (op :: ops) end
      end
    | _, _ => inl SyntaxErr
    end
  end.

(** The whole command on the arguments after the key. *)
Definition bitfieldGeneric (read_only : bool) (v : value) (args : list bytes) : option (bf_reply * value * Z) :=
  match parse_ops BFOVERFLOW_WRAP args with
  | inl e => Some (Failed e, v, 0)
  | inr ops => bitfield_run read_only v ops
  end.

Definition bitfieldroCommand : value -> list bytes -> option (bf_reply * value * Z) := bitfieldGeneric true.

End Settings.

(** * Printing *)

Definition print_owtype (ow : owtype) : bytes := match ow with BFOVERFLOW_WRAP => name_wrap | BFOVERFLOW_SAT => name_sat | BFOVERFLOW_FAIL => name_fail end.
Definition print_code (code : opcode_t) : bytes := match code with BITFIELDOP_GET => name_get | BITFIELDOP_SET => name_set | BITFIELDOP_INCRBY => name_incrby end.
Definition print_type (sign : bool) (bits : Z) : bytes := (if sign then 105 else 117) :: sdec bits.

(** The offset as a number of bits, or of fields when [hash] and it is one. *)
Definition print_offset (hash : bool) (offset bits : Z) : bytes := if hash && (offset mod bits =? 0) then 35 :: sdec (offset / bits) else sdec offset.

Definition print_op (hash : bool) (op : bitfieldOp) : list bytes :=
  [name_overflow; print_owtype (op_owtype op); print_code (op_code op); print_type (op_sign op) (op_bits op); print_offset hash (op_offset op) (op_bits op)] ++
  match op_code op with BITFIELDOP_GET => [] | _ => [sdec (op_i64 op)] end.

Definition print_ops (ops : list (bool * bitfieldOp)) : list bytes := concat (map (fun '(hash, op) => print_op hash op) ops).

(** * The types of the operations *)

Record typed_op (obey : bool) (max_bulk : Z) (op : bitfieldOp) : Prop := {
  ty_bits : 1 <= op_bits op <= if op_sign op then 64 else 63;
  ty_offset : 0 <= op_offset op < 2 ^ 63;
  ty_limit : obey = false -> op_offset op / 8 < max_bulk;
  ty_i64 : srange 64 (op_i64 op);
  ty_get : op_code op = BITFIELDOP_GET -> op_i64 op = 0
}.

Lemma sdec_digits z : Forall (fun x => x <> 0 /\ x <> 35) (sdec z).
Proof.
  assert (Hu : forall v, 0 <= v -> Forall (fun x => x <> 0 /\ x <> 35) (udec v)).
  { intros v Hv. destruct (decide (v = 0)) as [->|]; [repeat constructor; done|]. destruct (udec_canonical v ltac:(lia)) as [[Hd _] _]. eapply Forall_impl; [exact Hd|]. intros d Hdd%is_digit_spec. lia. }
  unfold sdec. destruct (Z.ltb_spec z 0); [constructor; [done|]|]; apply Hu; lia.
Qed.

Lemma c_string_sdec z : SdsSpec.c_string (sdec z) = sdec z.
Proof. apply SdsSpec.c_string_id. eapply Forall_impl; [apply sdec_digits|]. by intros x [? ?]. Qed.

Lemma type_ok o sign bits : getBitfieldTypeFromArgument o = Some (sign, bits) -> 1 <= bits <= if sign then 64 else 63.
Proof.
  unfold getBitfieldTypeFromArgument. destruct o as [|c rest]; [done|]. destruct (if c =? 105 then Some true else if c =? 117 then Some false else None) as [sg|]; cbn [mbind option_bind]; [|done].
  destruct (string2ll _) as [z|]; cbn [mbind option_bind]; [|done]. destruct (Z.ltb_spec z 1), (Z.gtb_spec z 64), (Z.gtb_spec z 63), sg; cbn; try done; intros [= <- <-]; lia.
Qed.

Lemma type_printed (sign : bool) bits : 1 <= bits <= (if sign then 64 else 63) -> getBitfieldTypeFromArgument (print_type sign bits) = Some (sign, bits).
Proof.
  intros Hb. unfold getBitfieldTypeFromArgument, print_type. rewrite c_string_sdec, string2ll_complete by (unfold srange; destruct sign; lia).
  destruct sign; cbn [Z.eqb Pos.eqb mbind option_bind]; destruct (Z.ltb_spec bits 1), (Z.gtb_spec bits 64), (Z.gtb_spec bits 63); cbn; (done || lia).
Qed.

Lemma srange_bound z : srange 64 z -> - 2 ^ 63 <= z < 2 ^ 63.
Proof. unfold srange. done. Qed.

Lemma offset_ok obey max_bulk o hash bits offset : getBitOffsetFromArgument obey max_bulk o hash bits = Some offset -> 0 <= offset < 2 ^ 63 /\ (obey = false -> offset / 8 < max_bulk).
Proof.
  unfold getBitOffsetFromArgument. match goal with |- context [if ?b then tail o else o] => set (usehash := b) end. destruct (string2ll _) as [z|] eqn:Ez; cbn [mbind option_bind]; [|done].
  apply string2ll_sound in Ez as [_ Hz]. set (l := if usehash then s64 (z * bits) else z). assert (Hl : - 2 ^ 63 <= l < 2 ^ 63) by (apply srange_bound; unfold l; destruct usehash; [apply swrap_range; lia|done]).
  rewrite shift3. destruct (Z.ltb_spec l 0); cbn [orb]; [done|]. destruct obey; cbn [negb andb]; [intros [= <-]; split; [lia|done]|]. destruct (Z.geb_spec (l / 8) max_bulk); [done|]. intros [= <-]. lia.
Qed.

Lemma offset_printed obey max_bulk hash offset bits : 1 <= bits -> 0 <= offset < 2 ^ 63 -> (obey = false -> offset / 8 < max_bulk) ->
  getBitOffsetFromArgument obey max_bulk (print_offset hash offset bits) true bits = Some offset.
Proof.
  intros Hb Ho Hlim. unfold getBitOffsetFromArgument, print_offset.
  assert (Hend : (if (offset <? 0) || (negb obey && (Z.shiftr offset 3 >=? max_bulk)) then None else Some offset) = Some offset).
  { rewrite shift3, (proj2 (Z.ltb_ge _ _)) by lia. destruct obey; [done|]. cbn. destruct (Z.geb_spec (offset / 8) max_bulk); [specialize (Hlim eq_refl); lia|done]. }
  destruct (hash && (offset mod bits =? 0)) eqn:E.
  - apply andb_true_iff in E as [_ E%Z.eqb_eq]. pose proof (Z.div_mod offset bits ltac:(lia)) as Hdm. assert (0 <= offset / bits <= offset) by (split; [apply Z.div_pos; lia|apply Z.div_le_upper_bound; nia]).
    rewrite (proj2 (Z.gtb_lt bits 0)) by lia. change (35 =? 35) with true. cbn [andb tail]. rewrite string2ll_complete by (unfold srange; change (2 ^ (64 - 1)) with (2 ^ 63); lia). cbn [mbind option_bind].
    rewrite (swrap_small 64 (offset / bits * bits)) by (lia || (unfold srange; change (2 ^ (64 - 1)) with (2 ^ 63); lia)). replace (offset / bits * bits) with offset by lia. exact Hend.
  - pose proof (sdec_digits offset) as Hd. destruct (sdec offset) as [|c s] eqn:Es; [by destruct (string2ll_complete offset ltac:(unfold srange; change (2 ^ (64 - 1)) with (2 ^ 63); lia)); rewrite Es|].
    apply Forall_cons in Hd as [[_ Hc] _]. rewrite (proj2 (Z.eqb_neq c 35)) by done. cbn [andb]. rewrite <- Es, string2ll_complete by (unfold srange; change (2 ^ (64 - 1)) with (2 ^ 63); lia). exact Hend.
Qed.

Lemma parse_op_ok obey max_bulk ow code type offset val op : parse_op obey max_bulk ow code type offset val = inr op -> (code = BITFIELDOP_GET -> val = None) -> typed_op obey max_bulk op.
Proof.
  unfold parse_op. destruct (getBitfieldTypeFromArgument type) as [[sign bits]|] eqn:Et; [|done]. apply type_ok in Et. destruct (getBitOffsetFromArgument _ _ _ _ _) as [bo|] eqn:Eo; [|done]. apply offset_ok in Eo as [Ho Hl].
  destruct val as [v|]; [destruct (string2ll v) as [z|] eqn:Ez; [|done]; apply string2ll_sound in Ez as [_ Hz]|]; intros [= <-] Hget; split; cbn; try done.
  intros Hc. by specialize (Hget Hc).
Qed.

Lemma parse_ops_typed obey max_bulk ow args ops : parse_ops obey max_bulk ow args = inr ops -> Forall (typed_op obey max_bulk) ops.
Proof.
  revert ow ops. induction args as [args IH] using (induction_ltof1 _ (@length bytes)); unfold ltof in IH. intros ow ops. destruct args as [|subcmd rest]; [by intros [= <-]|]. cbn [parse_ops].
  assert (Hnext : forall (op : bf_error + bitfieldOp) rest', (length rest' < length (subcmd :: rest))%nat -> (forall o, op = inr o -> typed_op obey max_bulk o) ->
    (match op with inl e => inl e | inr op => match parse_ops obey max_bulk ow rest' with inl e => inl e | inr ops => inr (op :: ops) end end) = inr ops -> Forall (typed_op obey max_bulk) ops).
  { intros op rest' Hl Hop. destruct op as [e|op]; [done|]. destruct (parse_ops obey max_bulk ow rest') as [e|ops'] eqn:Er; [done|]. intros [= <-]. constructor; [by apply Hop|by eapply IH]. }
  destruct (get_subcommand subcmd (length rest)) as [[[| |]|]|]; [| | | |done].
  - destruct rest as [|type [|offset rest]]; [done..|]. apply Hnext; [cbn; lia|]. intros o Ho. by eapply parse_op_ok.
  - destruct rest as [|type [|offset [|val rest]]]; [done..|]. apply Hnext; [cbn; lia|]. intros o Ho. by eapply parse_op_ok.
  - destruct rest as [|type [|offset [|val rest]]]; [done..|]. apply Hnext; [cbn; lia|]. intros o Ho. by eapply parse_op_ok.
  - destruct rest as [|name rest]; [done|]. destruct (get_owtype name) as [ow'|]; [|done]. apply IH. cbn. lia.
Qed.

Lemma parse_printed obey max_bulk ops : Forall (typed_op obey max_bulk) (map snd ops) -> forall ow, parse_ops obey max_bulk ow (print_ops ops) = inr (map snd ops).
Proof.
  induction ops as [|[hash [offset i64 code ow' bits sign]] ops IH]; intros Hty ow; [done|]. apply Forall_cons in Hty as [[Hb Ho Hl Hi Hg] Hty]. cbn [op_bits op_sign op_offset op_i64 op_code snd] in *. specialize (IH Hty ow').
  assert (Htype : getBitfieldTypeFromArgument (print_type sign bits) = Some (sign, bits)) by (by apply type_printed).
  assert (Hoff : getBitOffsetFromArgument obey max_bulk (print_offset hash offset bits) true bits = Some offset) by (apply offset_printed; try done; destruct sign; lia).
  unfold print_ops in *. cbn [map concat snd]. set (rest := concat _) in *. unfold print_op. cbn [op_bits op_sign op_offset op_i64 op_code op_owtype app].
  assert (How : forall rest', parse_ops obey max_bulk ow (name_overflow :: print_owtype ow' :: rest') = parse_ops obey max_bulk ow' rest') by (intros rest'; by destruct ow').
  assert (Hval : string2ll (sdec i64) = Some i64) by (by apply string2ll_complete).
  rewrite How. destruct code; cbn [print_code app parse_ops length]; unfold parse_op.
  - change (get_subcommand name_get _) with (Some (Sub BITFIELDOP_GET)). cbv iota beta. rewrite Htype, Hoff, IH, Hg by done. done.
  - change (get_subcommand name_set _) with (Some (Sub BITFIELDOP_SET)). cbv iota beta. by rewrite Htype, Hoff, Hval, IH.
  - change (get_subcommand name_incrby _) with (Some (Sub BITFIELDOP_INCRBY)). cbv iota beta. by rewrite Htype, Hoff, Hval, IH.
Qed.

(** C38. The arguments of BITFIELD: every operation the parser accepts is well typed (a width
    of 1 to 64 bits, to 63 without sign, an offset that is not negative and under the limit
    on strings, a value of 64 bits), and every sequence of well typed operations is what
    the parser reads from its printed form, with offsets in bits or, after [#], in
    fields. *)
Theorem bitfield_parse_typed obey max_bulk ow args ops :
  (parse_ops obey max_bulk ow args = inr ops -> Forall (typed_op obey max_bulk) ops) /\
  (forall hops, Forall (typed_op obey max_bulk) (map snd hops) -> parse_ops obey max_bulk ow (print_ops hops) = inr (map snd hops)).
Proof. split; [apply parse_ops_typed|]. intros hops H. by apply parse_printed. Qed.



(** * Samples *)

Definition sample_ops : list bitfieldOp :=
  [mkOp 8 200 BITFIELDOP_SET BFOVERFLOW_WRAP 8 false; mkOp 4 100 BITFIELDOP_INCRBY BFOVERFLOW_SAT 8 false; mkOp 100 0 BITFIELDOP_GET BFOVERFLOW_WRAP 64 true; mkOp 3 (-5) BITFIELDOP_INCRBY BFOVERFLOW_FAIL 3 true].

Definition sample_args : list bytes := print_ops (map (pair true) sample_ops).

Lemma sample_typed : Forall (typed_op false (512 * 1024 * 1024)) sample_ops.
Proof. repeat constructor; cbn [op_sign op_bits op_offset op_i64 op_code op_owtype]; try lia; done. Defined.

Lemma bitfield_parse_typed_witness : parse_ops false (512 * 1024 * 1024) BFOVERFLOW_SAT sample_args = inr sample_ops /\ Forall (typed_op false (512 * 1024 * 1024)) sample_ops.
Proof.
  destruct (bitfield_parse_typed false (512 * 1024 * 1024) BFOVERFLOW_SAT sample_args sample_ops) as [H1 H2]. specialize (H2 (map (pair true) sample_ops) sample_typed). by split; [|apply H1].
Defined.


(** An offset in fields so large that the product wraps to a small offset is accepted. *)
Example hash_offset_wraps : getBitOffsetFromArgument false (512 * 1024 * 1024) (35 :: sdec (2 ^ 58)) true 64 = Some 0.
Proof. by vm_compute. Qed.

End BitfieldCmd.
