(* ===== verification/Bitmap.v ===== *)
(** Bitmaps: counting bits and searching for a bit in a string, and the commands SETBIT,
    GETBIT, BITCOUNT and BITPOS of bitops.c once their arguments are parsed.

    A pointer and the count of the bytes left are the list of these bytes; [addr] is
    the address, on which the alignment loops depend.  Words are read as a little
    endian machine does. *)

From S2P Require Import Prelude Bits Bitfield.

Module Bitmap.

(** * Counting *)

(** [bitsinbyte]. *)
Definition bitsinbyte : list Z :=
  [0;1;1;2;1;2;2;3;1;2;2;3;2;3;3;4;1;2;2;3;2;3;3;4;2;3;3;4;3;4;4;5;1;2;2;3;2;3;3;4;2;3;3;4;3;4;4;5;2;3;3;4;3;4;4;5;3;4;4;5;4;5;5;6;
   1;2;2;3;2;3;3;4;2;3;3;4;3;4;4;5;2;3;3;4;3;4;4;5;3;4;4;5;4;5;5;6;2;3;3;4;3;4;4;5;3;4;4;5;4;5;5;6;3;4;4;5;4;5;5;6;4;5;5;6;5;6;6;7;
   1;2;2;3;2;3;3;4;2;3;3;4;3;4;4;5;2;3;3;4;3;4;4;5;3;4;4;5;4;5;5;6;2;3;3;4;3;4;4;5;3;4;4;5;4;5;5;6;3;4;4;5;4;5;5;6;4;5;5;6;5;6;6;7;
   2;3;3;4;3;4;4;5;3;4;4;5;4;5;5;6;3;4;4;5;4;5;5;6;4;5;5;6;5;6;6;7;3;4;4;5;4;5;5;6;4;5;5;6;5;6;6;7;4;5;5;6;5;6;6;7;5;6;6;7;6;7;7;8].

Fixpoint count_aligned (addr align : Z) (p : bytes) (bits : Z) : option (Z * bytes) :=
  match p with
  | b :: p' =>
    if negb (Z.land addr align =? 0) then v ← bitsinbyte !! Z.to_nat b; count_aligned (addr + 1) align p' (bits + v)
    else Some (bits, p)
  | [] => Some (bits, [])
  end.

(** [__builtin_popcountll]. *)
Fixpoint popcount (n : nat) (x : Z) : Z := match n with O => 0 | S n => b2z (Z.testbit x (Z.of_nat n)) + popcount n x end.
Definition builtin_popcountll (x : Z) : Z := popcount 64 x.

Definition word64 (p : bytes) (i : nat) : Z := le_val (take 8 (drop i p)).
Definition word32 (p : bytes) (i : nat) : Z := le_val (take 4 (drop i p)).

(** [while (count >= 32)], with the four counters. *)
Fixpoint count_popcnt (fuel : nat) (p : bytes) (c0 c1 c2 c3 : Z) : option (Z * Z * Z * Z * bytes) :=
  if negb (32 <=? Z.of_nat (length p)) then Some (c0, c1, c2, c3, p)
  else match fuel with
  | O => None
  | S fuel =>
    count_popcnt fuel (drop 32 p) (u64 (c0 + builtin_popcountll (word64 p 0))) (u64 (c1 + builtin_popcountll (word64 p 8)))
      (u64 (c2 + builtin_popcountll (word64 p 16))) (u64 (c3 + builtin_popcountll (word64 p 24)))
  end.

(** The steps on a word of 32 bits. *)
Definition pairs (aux : Z) : Z := u32 (aux - Z.land (Z.shiftr aux 1) 0x55555555).
Definition nibbles (aux : Z) : Z := u32 (Z.land aux 0x33333333 + Z.land (Z.shiftr aux 2) 0x33333333).
Definition octets (aux : Z) : Z := Z.land (u32 (aux + Z.shiftr aux 4)) 0x0F0F0F0F.
Definition reduce (aux : Z) : Z := octets (nibbles (pairs aux)).

(** [while(count>=28)]. *)
Fixpoint count_words (fuel : nat) (p : bytes) (bits : Z) : option (Z * bytes) :=
  if negb (28 <=? Z.of_nat (length p)) then Some (bits, p)
  else match fuel with
  | O => None
  | S fuel =>
    let sum := u32 (u32 (u32 (u32 (u32 (u32 (reduce (word32 p 0) + reduce (word32 p 4)) + reduce (word32 p 8)) + reduce (word32 p 12)) +
      reduce (word32 p 16)) + reduce (word32 p 20)) + reduce (word32 p 24)) in
    count_words fuel (drop 28 p) (bits + Z.shiftr (u32 (sum * 0x01010101)) 24)
  end.

Fixpoint count_rest (p : bytes) (bits : Z) : option Z :=
  match p with b :: p => v ← bitsinbyte !! Z.to_nat b; count_rest p (bits + v) | [] => Some bits end.

Definition redisPopcount (use_popcnt : bool) (addr : Z) (s : bytes) : option Z :=
  '(bits, p) ← count_aligned addr (if use_popcnt then 7 else 3) s 0;
  if use_popcnt then
    '(c0, c1, c2, c3, p) ← count_popcnt (length p) p 0 0 0 0;
    count_rest p (bits + u64 (u64 (u64 (c0 + c1) + c2) + c3))
  else
    '(bits, p) ← count_words (length p) p bits;
    count_rest p bits.

(** * Searching *)

Section Bitpos.
Variable bit : bool.

Definition skip_byte : Z := if bit then 0 else 255.
Definition skip_word : Z := if bit then 0 else 2 ^ 64 - 1.

Fixpoint pos_aligned (addr : Z) (c : bytes) (pos : Z) : bool * bytes * Z :=
  match c with
  | b :: c' =>
    if negb (Z.land addr 7 =? 0) then if negb (b =? skip_byte) then (true, c, pos) else pos_aligned (addr + 1) c' (pos + 8)
    else (false, c, pos)
  | [] => (false, [], pos)
  end.

Fixpoint pos_words (fuel : nat) (l : bytes) (pos : Z) : option (bytes * Z) :=
  if negb (8 <=? Z.of_nat (length l)) then Some (l, pos)
  else if negb (word64 l 0 =? skip_word) then Some (l, pos)
  else match fuel with O => None | S fuel => pos_words fuel (drop 8 l) (pos + 64) end.

(** The bytes that are left, or zeroes, as a big endian word. *)
Fixpoint load_word (j : nat) (c : bytes) (word : Z) : Z :=
  match j with
  | O => word
  | S j => let word := u64 (Z.shiftl word 8) in match c with b :: c => load_word j c (Z.lor word b) | [] => load_word j [] word end
  end.

(** The last loop; after it the code panics. *)
Fixpoint scan_word (fuel : nat) (one word pos : Z) : option Z :=
  match fuel with
  | O => None
  | S fuel =>
    if one =? 0 then None
    else if Bool.eqb (negb (Z.land one word =? 0)) bit then Some pos
    else scan_word fuel (Z.shiftr one 1) word (pos + 1)
  end.

Definition redisBitpos (addr : Z) (s : bytes) : option Z :=
  let '(found, c, pos) := pos_aligned addr s 0 in
  '(c, pos) ← (if found : bool then Some (c, pos) else pos_words (length c) c pos);
  let word := load_word 8 c 0 in
  if bit && (word =? 0) then Some (-1)
  else
    let one := u64 (Z.lnot (Z.shiftr (2 ^ 64 - 1) 1)) in
    scan_word 65 one word pos.

End Bitpos.

(** * The commands *)

(** The string of an object that may not exist, and the bytes from [start] to [end]. *)
Definition slice (p : bytes) (start stop : Z) : option bytes :=
  _ ← guard ((0 <=? start) && (start <=? stop) && (stop <? Z.of_nat (length p)));
  Some (take (Z.to_nat (stop - start + 1)) (drop (Z.to_nat start) p)).

Record range := mkRange { r_start : Z; r_end : Z; r_first_mask : Z; r_last_mask : Z }.

(** The conversion of indexes, and the masks of the bits out of the range in the first
    and the last byte. *)
Definition normalize (strlen start stop : Z) (isbit : bool) : range :=
  let totlen := if isbit then Z.shiftl strlen 3 else strlen in
  let start := if start <? 0 then totlen + start else start in
  let stop := if stop <? 0 then totlen + stop else stop in
  let start := if start <? 0 then 0 else start in
  let stop := if stop <? 0 then 0 else stop in
  let stop := if stop >=? totlen then totlen - 1 else stop in
  if isbit && (start <=? stop) then
    mkRange (Z.shiftr start 3) (Z.shiftr stop 3)
      (u8 (Z.land (Z.lnot (Z.shiftl 1 (8 - Z.land start 7) - 1)) 255)) (u8 (Z.shiftl 1 (7 - Z.land stop 7) - 1))
  else mkRange start stop 0 0.

(** BITCOUNT key [start end [BIT|BYTE]]: [cpu] and the addresses are those of the calls. *)
Definition bitcountCommand (cpu : bool) (addr addr2 : Z) (o : option bytes) (args : option (Z * Z * bool)) : option Z :=
  match o with
  | None => Some 0
  | Some p =>
    let strlen := Z.of_nat (length p) in
    _ ← guard (match args with Some _ => strlen <=? Z.shiftr (2 ^ 63 - 1) 3 | None => true end);
    let empty := match args with Some (start, stop, _) => (start <? 0) && (stop <? 0) && (start >? stop) | None => false end in
    let '(mkRange start stop m1 m2) := match args with Some (start, stop, isbit) => normalize strlen start stop isbit | None => mkRange 0 (strlen - 1) 0 0 end in
    if empty || (start >? stop) then Some 0
    else
      s ← slice p start stop;
      count ← redisPopcount cpu (addr + start) s;
      if negb (m1 =? 0) || negb (m2 =? 0) then
        first ← p !! Z.to_nat start;
        last ← p !! Z.to_nat stop;
        let firstlast := [if negb (m1 =? 0) then Z.land first m1 else 0; if negb (m2 =? 0) then Z.land last m2 else 0] in
        n ← redisPopcount cpu addr2 firstlast;
        Some (count - n)
      else Some count
  end.

(** The search of BITPOS from a first byte that is whole: the position, the first byte and
    the count of bytes at the label [result]. *)
Definition bitpos_last (bit : bool) (addr addr2 : Z) (p : bytes) (stop m2 start bytes : Z) : option (Z * Z * Z) :=
  let curbytes := bytes - (if negb (m2 =? 0) then 1 else 0) in
  r ← (if curbytes >? 0 then
      s ← slice p start (start + curbytes - 1);
      pos ← redisBitpos bit (addr + start) s;
      Some (if (bytes =? curbytes) || (negb (pos =? -1) && negb (pos =? Z.shiftl curbytes 3)) then inl (pos, start, bytes)
            else inr (start + curbytes, bytes - curbytes))
    else Some (inr (start, bytes)));
  match r with
  | inl found => Some found
  | inr (start, bytes) =>
    e ← p !! Z.to_nat stop;
    let tmpchar := u8 (if bit then Z.land e (Z.lnot m2) else Z.lor e m2) in
    pos ← redisBitpos bit addr2 [tmpchar];
    Some (pos, start, bytes)
  end.

Definition bitpos_search (bit : bool) (addr addr2 : Z) (p : bytes) (start stop m1 m2 : Z) : option (Z * Z * Z) :=
  let bytes := stop - start + 1 in
  if negb (m1 =? 0) then
    b ← p !! Z.to_nat start;
    let tmpchar := u8 (if bit then Z.land b (Z.lnot m1) else Z.lor b m1) in
    let tmpchar := if negb (m2 =? 0) && (bytes =? 1) then u8 (if bit then Z.land tmpchar (Z.lnot m2) else Z.lor tmpchar m2) else tmpchar in
    pos ← redisBitpos bit addr2 [tmpchar];
    if (bytes =? 1) || (negb (pos =? -1) && negb (pos =? 8)) then Some (pos, start, bytes)
    else bitpos_last bit addr addr2 p stop m2 (start + 1) (bytes - 1)
  else bitpos_last bit addr addr2 p stop m2 start bytes.

(** BITPOS key bit [start [end [BIT|BYTE]]]. *)
Inductive bitpos_args := Whole | From (start : Z) | Between (start stop : Z) (isbit : bool).

Definition bitposCommand (bit : bool) (addr addr2 : Z) (o : option bytes) (args : bitpos_args) : option Z :=
  match o with
  | None => Some (if bit then -1 else 0)
  | Some p =>
    let strlen := Z.of_nat (length p) in
    _ ← guard (match args with Whole => true | _ => strlen <=? Z.shiftr (2 ^ 63 - 1) 3 end);
    let '(mkRange start stop m1 m2) :=
      match args with
      | Whole => mkRange 0 (strlen - 1) 0 0
      | From start => normalize strlen start (strlen - 1) false
      | Between start stop isbit => normalize strlen start stop isbit
      end in
    if start >? stop then Some (-1)
    else
      '(pos, start, bytes) ← bitpos_search bit addr addr2 p start stop m1 m2;
      let end_given := match args with Between _ _ _ => true | _ => false end in
      if end_given && negb bit && (pos =? Z.shiftl bytes 3) then Some (-1)
      else Some (if negb (pos =? -1) then pos + Z.shiftl start 3 else pos)
  end.

(** SETBIT: the string and the bit that was there. *)
Definition setbitCommand (o : option bytes) (bitoffset : Z) (on : bool) : option (bytes * Z) :=
  let byte := Z.to_nat (Z.shiftr bitoffset 3) in
  let old := default [] o in
  let p := Bitfield.grow_zero old (byte + 1) in
  byteval ← p !! byte;
  let bit := 7 - Z.land bitoffset 7 in
  let bitval := Z.land byteval (Z.shiftl 1 bit) in
  if bool_decide (length old < length p)%nat || negb (Bool.eqb (negb (bitval =? 0)) on) then
    let byteval := Z.land byteval (Z.lnot (Z.shiftl 1 bit)) in
    let byteval := Z.lor byteval (Z.shiftl (b2z on) bit) in
    Some (<[byte := u8 byteval]> p, b2z (negb (bitval =? 0)))
  else Some (p, b2z (negb (bitval =? 0))).

(** GETBIT, on the bytes of the value. *)
Definition getbitCommand (o : option bytes) (bitoffset : Z) : Z :=
  match o with
  | None => 0
  | Some p =>
    match p !! Z.to_nat (Z.shiftr bitoffset 3) with
    | Some byteval => b2z (negb (Z.land byteval (Z.shiftl 1 (7 - Z.land bitoffset 7)) =? 0))
    | None => 0
    end
  end.

End Bitmap.
