(* ===== verification/BitmapSpec.v ===== *)
(** Bitmaps: the optimised counts agree with counting bit by bit, whatever the alignment
    and the instructions of the processor, and so does BITCOUNT on a range. *)

From S2P Require Import Prelude Bits Bitfield BitfieldSpec Bitmap.

Module BitmapSpec.
Import Bitfield BitfieldSpec Bitmap.

(** * Counting *)

(** The bits of [f] that are set among the [n] from [lo] on. *)
Fixpoint count_bits (f : Z -> bool) (lo : Z) (n : nat) : Z := match n with O => 0 | S n => count_bits f lo n + b2z (f (lo + Z.of_nat n)) end.

Definition weight (s : bytes) : Z := foldr (fun b w => popcount 8 b + w) 0 s.

Lemma weight_app s t : weight (s ++ t) = weight s + weight t.
Proof. induction s as [|b s IH]; [done|]. cbn [weight app foldr] in *. unfold weight in *. lia. Qed.

Lemma popcount_bound n x : 0 <= popcount n x <= Z.of_nat n.
Proof. induction n as [|n IH]; cbn [popcount]; [lia|]. pose proof (b2z_range (Z.testbit x (Z.of_nat n))). lia. Qed.

Lemma weight_bound s : 0 <= weight s <= 8 * Z.of_nat (length s).
Proof. induction s as [|b s IH]; cbn [weight foldr length] in *; [lia|]. unfold weight in IH. pose proof (popcount_bound 8 b) as H. change (Z.of_nat 8) with 8 in H. lia. Qed.

Lemma byte_table b : urange 8 b -> bitsinbyte !! Z.to_nat b = Some (popcount 8 b).
Proof. revert b. apply (byte_forall (fun b => bitsinbyte !! Z.to_nat b = Some (popcount 8 b))). by vm_compute. Qed.

(** ** Words *)

Lemma testbit_low a y i : 0 <= a < 256 -> 0 <= i < 8 -> Z.testbit (a + 256 * y) i = Z.testbit a i.
Proof. intros Ha Hi. rewrite Z.mul_comm. change 256 with (2 ^ 8). rewrite <- (lor_add a y 8) by (done || lia). rewrite <- Z.shiftl_mul_pow2, Z.lor_spec, Z.shiftl_spec_low by lia. apply orb_false_r. Qed.

Lemma testbit_high a y i : 0 <= a < 256 -> 8 <= i -> Z.testbit (a + 256 * y) i = Z.testbit y (i - 8).
Proof.
  intros Ha Hi. rewrite Z.mul_comm. change 256 with (2 ^ 8). rewrite <- (lor_add a y 8) by (done || lia). rewrite <- Z.shiftl_mul_pow2, Z.lor_spec, Z.shiftl_spec by lia.
  rewrite (testbit_above 8 a) by (exact Ha || lia). done.
Qed.

Lemma popcount_split n a y : 0 <= a < 256 -> popcount (8 + n) (a + 256 * y) = popcount 8 a + popcount n y.
Proof.
  intros Ha. induction n as [|n IH].
  - rewrite Nat.add_0_r. cbn [popcount]. rewrite !testbit_low by lia. lia.
  - rewrite <- plus_n_Sm. change (popcount (S (8 + n)) (a + 256 * y)) with (b2z (Z.testbit (a + 256 * y) (Z.of_nat (8 + n))) + popcount (8 + n) (a + 256 * y)). rewrite IH. cbn [popcount].
    rewrite testbit_high by lia. replace (Z.of_nat (8 + n) - 8) with (Z.of_nat n) by lia. lia.
Qed.

Lemma popcount_word bs : bytes_ok bs -> popcount (8 * length bs) (le_val bs) = weight bs.
Proof.
  induction 1 as [|b bs Hb _ IH]; [done|]. cbn [length]. replace (8 * S (length bs))%nat with (8 + 8 * length bs)%nat by lia. cbn [le_val weight foldr].
  rewrite popcount_split by exact Hb. unfold weight in IH. by rewrite IH.
Qed.

(** A mask that acts on each byte. *)
Lemma land_byte k a y m M : 0 <= k -> 0 <= a < 256 -> 0 <= m < 2 ^ (8 - k) -> k <= 8 ->
  Z.land (Z.shiftr (a + 256 * y) k) (m + 256 * M) = Z.land (Z.shiftr a k) m + 256 * Z.land (Z.shiftr y k) M.
Proof.
  intros Hk Ha Hm Hk8. assert (Hm8 : 0 <= m < 256) by (assert (2 ^ (8 - k) <= 2 ^ 8) by (apply Z.pow_le_mono_r; lia); change 256 with (2 ^ 8); lia).
  assert (Hl : 0 <= Z.land (Z.shiftr a k) m < 256) by (apply (urange_land_r 8); [lia|exact Hm8]).
  apply Z.bits_inj'. intros i Hi. rewrite Z.land_spec, Z.shiftr_spec by lia. destruct (Z.ltb_spec i 8) as [Hlt|Hge].
  - rewrite (testbit_low m M i) by lia. rewrite (testbit_low (Z.land _ _) _ i) by lia. rewrite Z.land_spec, Z.shiftr_spec by lia. destruct (Z.ltb_spec (i + k) 8); [by rewrite testbit_low by lia|].
    rewrite (testbit_above (8 - k) m i) by (exact Hm || lia). by rewrite !andb_false_r.
  - rewrite !testbit_high by lia. rewrite Z.land_spec, Z.shiftr_spec by lia. do 2 f_equal. lia.
Qed.

(** Four bytes as a word. *)
Definition four (a b c d : Z) : Z := a + 256 * (b + 256 * (c + 256 * d)).

Lemma land_four k m a b c d : 0 <= k <= 8 -> 0 <= m < 2 ^ (8 - k) -> 0 <= a < 256 -> 0 <= b < 256 -> 0 <= c < 256 -> 0 <= d < 256 ->
  Z.land (Z.shiftr (four a b c d) k) (four m m m m) = four (Z.land (Z.shiftr a k) m) (Z.land (Z.shiftr b k) m) (Z.land (Z.shiftr c k) m) (Z.land (Z.shiftr d k) m).
Proof. intros Hk Hm Ha Hb Hc Hd. unfold four. rewrite !land_byte by lia. done. Qed.

(** One byte of the first two steps, and what is left to add. *)
Definition pair8 (a : Z) : Z := a - Z.land (Z.shiftr a 1) 0x55.
Definition nibble8 (a : Z) : Z := Z.land a 0x33 + Z.land (Z.shiftr a 2) 0x33.
Definition swar_ok (a : Z) : bool :=
  let p := pair8 a in let v := nibble8 p in
  (0 <=? p) && (p <? 256) && (0 <=? v) && (v <? 256) && (v mod 16 <=? 4) && (v / 16 <=? 4) && (v mod 16 + v / 16 =? popcount 8 a).

Lemma swar_bytes a : urange 8 a -> swar_ok a = true.
Proof. revert a. apply (byte_forall (fun a => swar_ok a = true)). by vm_compute. Qed.

Lemma four_small a b c d : 0 <= a < 256 -> 0 <= b < 256 -> 0 <= c < 256 -> 0 <= d < 256 -> u32 (four a b c d) = four a b c d.
Proof. intros. apply uwrap_small. unfold urange, four. lia. Qed.

Lemma reduce_four a b c d : urange 8 a -> urange 8 b -> urange 8 c -> urange 8 d -> reduce (four a b c d) = four (popcount 8 a) (popcount 8 b) (popcount 8 c) (popcount 8 d).
Proof.
  intros Ha Hb Hc Hd. pose proof (swar_bytes a Ha) as Sa. pose proof (swar_bytes b Hb) as Sb. pose proof (swar_bytes c Hc) as Sc. pose proof (swar_bytes d Hd) as Sd. unfold swar_ok in *. cbv zeta in *. unfold urange in *.
  assert (Hp : pairs (four a b c d) = four (pair8 a) (pair8 b) (pair8 c) (pair8 d)).
  { unfold pairs. change 0x55555555 with (four 0x55 0x55 0x55 0x55). rewrite land_four by (cbn; lia). rewrite <- (four_small (pair8 a) (pair8 b) (pair8 c) (pair8 d)) by lia. f_equal. unfold four, pair8. lia. }
  assert (Hn : nibbles (four (pair8 a) (pair8 b) (pair8 c) (pair8 d)) = four (nibble8 (pair8 a)) (nibble8 (pair8 b)) (nibble8 (pair8 c)) (nibble8 (pair8 d))).
  { unfold nibbles. change 0x33333333 with (four 0x33 0x33 0x33 0x33). rewrite <- (Z.shiftr_0_r (four (pair8 a) _ _ _)) at 1. rewrite !land_four by (cbn; lia). rewrite !Z.shiftr_0_r.
    rewrite <- (four_small (nibble8 (pair8 a)) (nibble8 (pair8 b)) (nibble8 (pair8 c)) (nibble8 (pair8 d))) by lia. f_equal. unfold four, nibble8. lia. }
  unfold reduce. rewrite Hp, Hn. clear Hp Hn. set (va := nibble8 (pair8 a)) in *. set (vb := nibble8 (pair8 b)) in *. set (vc := nibble8 (pair8 c)) in *. set (vd := nibble8 (pair8 d)) in *. clearbody va vb vc vd.
  assert (Hdm : forall v, v = 16 * (v / 16) + v mod 16 /\ 0 <= v mod 16) by (intros v; pose proof (Z.div_mod v 16 ltac:(lia)); pose proof (Z.mod_pos_bound v 16 ltac:(lia)); lia).
  pose proof (Hdm va). pose proof (Hdm vb). pose proof (Hdm vc). pose proof (Hdm vd). set (la := va mod 16) in *. set (ha := va / 16) in *. set (lb := vb mod 16) in *. set (hb := vb / 16) in *.
  set (lc := vc mod 16) in *. set (hc := vc / 16) in *. set (ld := vd mod 16) in *. set (hd_ := vd / 16) in *. clearbody la ha lb hb lc hc ld hd_.
  unfold octets. assert (Hs : Z.shiftr (four va vb vc vd) 4 = ha + 16 * (vb + 256 * (vc + 256 * vd))).
  { rewrite Z.shiftr_div_pow2 by lia. symmetry. apply (Z.div_unique _ _ _ la); unfold four; change (2 ^ 4) with 16; lia. }
  assert (Hsum : four va vb vc vd + Z.shiftr (four va vb vc vd) 4 = four (la + ha + 16 * (ha + lb)) (lb + hb + 16 * (hb + lc)) (lc + hc + 16 * (hc + ld)) (ld + hd_ + 16 * hd_)) by (rewrite Hs; unfold four; lia).
  rewrite Hsum, four_small by lia. rewrite <- (Z.shiftr_0_r (four _ _ _ _)). change 0x0F0F0F0F with (four 15 15 15 15). rewrite land_four by (cbn; lia). rewrite !Z.shiftr_0_r.
  assert (Hland : forall x y, 0 <= x < 16 -> Z.land (x + 16 * y) 15 = x) by (intros x y Hx; change 15 with (Z.ones 4); rewrite Z.land_ones by lia; symmetry; apply (Z.mod_unique _ _ y); change (2 ^ 4) with 16; lia).
  rewrite !Hland by lia. f_equal; lia.
Qed.

Lemma word32_reduce p i : bytes_ok p -> (i + 4 <= length p)%nat -> exists a b c d, take 4 (drop i p) = [a; b; c; d] /\ reduce (word32 p i) = four (popcount 8 a) (popcount 8 b) (popcount 8 c) (popcount 8 d).
Proof.
  intros Hp Hi. assert (Hl : length (take 4 (drop i p)) = 4%nat) by (rewrite length_take, length_drop; lia). assert (Hb : bytes_ok (take 4 (drop i p))) by (by apply Forall_take, Forall_drop).
  unfold word32. destruct (take 4 (drop i p)) as [|a [|b [|c [|d [|]]]]]; try done. exists a, b, c, d. split; [done|]. unfold bytes_ok in Hb. rewrite !Forall_cons in Hb. destruct Hb as (? & ? & ? & ? & _).
  rewrite <- reduce_four by done. f_equal. unfold four. cbn [le_val]. lia.
Qed.

Lemma four_sum a b c d : 0 <= a <= 56 -> 0 <= b <= 56 -> 0 <= c <= 56 -> 0 <= d <= 56 -> Z.shiftr (u32 (four a b c d * 0x01010101)) 24 = a + b + c + d.
Proof.
  intros Ha Hb Hc Hd. assert (E : u32 (four a b c d * 0x01010101) = four a (a + b) (a + b + c) (a + b + c + d)).
  { unfold uwrap. symmetry. apply (Z.mod_unique _ _ (b + c + d + 256 * (c + d) + 65536 * d)); unfold four; lia. }
  rewrite E, Z.shiftr_div_pow2 by lia. symmetry. apply (Z.div_unique _ _ _ (a + 256 * (a + b) + 65536 * (a + b + c))); unfold four; change (2 ^ 24) with 16777216; lia.
Qed.

Lemma four_add a b c d a' b' c' d' : 0 <= a <= 48 -> 0 <= b <= 48 -> 0 <= c <= 48 -> 0 <= d <= 48 -> 0 <= a' <= 8 -> 0 <= b' <= 8 -> 0 <= c' <= 8 -> 0 <= d' <= 8 ->
  u32 (four a b c d + four a' b' c' d') = four (a + a') (b + b') (c + c') (d + d').
Proof. intros. rewrite <- (four_small (a + a')) by lia. f_equal. unfold four. lia. Qed.

(** ** The loops *)

Lemma count_aligned_ok addr align p bits : bytes_ok p -> exists d r, count_aligned addr align p bits = Some (bits + weight d, r) /\ p = d ++ r.
Proof.
  intros Hp. revert addr bits. induction Hp as [|b p Hb _ IH]; intros addr bits; cbn [count_aligned]; [exists [], []; cbn; by rewrite Z.add_0_r|].
  destruct (negb _); [|exists [], (b :: p); cbn; by rewrite Z.add_0_r]. rewrite byte_table by done. cbn [mbind option_bind]. destruct (IH (addr + 1) (bits + popcount 8 b)) as (d & r & -> & ->).
  exists (b :: d), r. split; [|done]. cbn [weight foldr]. unfold weight. do 2 f_equal. lia.
Qed.

Lemma count_rest_ok p bits : bytes_ok p -> count_rest p bits = Some (bits + weight p).
Proof.
  intros Hp. revert bits. induction Hp as [|b p Hb _ IH]; intros bits; cbn [count_rest]; [cbn; by rewrite Z.add_0_r|]. rewrite byte_table by done. cbn [mbind option_bind]. rewrite IH.
  cbn [weight foldr]. unfold weight. f_equal. lia.
Qed.

Lemma take_split4 (n i : nat) (p : bytes) : (i + n <= length p)%nat -> take (i + n) p = take i p ++ take n (drop i p).
Proof. intros H. by rewrite take_take_drop. Qed.

Lemma word64_count p i : bytes_ok p -> (i + 8 <= length p)%nat -> builtin_popcountll (word64 p i) = weight (take 8 (drop i p)) /\ 0 <= weight (take 8 (drop i p)) <= 64.
Proof.
  intros Hp Hi. assert (Hl : length (take 8 (drop i p)) = 8%nat) by (rewrite length_take, length_drop; lia). assert (Hb : bytes_ok (take 8 (drop i p))) by (by apply Forall_take, Forall_drop).
  split; [|pose proof (weight_bound (take 8 (drop i p))) as Hw; rewrite Hl in Hw; change (Z.of_nat 8) with 8 in Hw; lia]. unfold builtin_popcountll, word64. pose proof (popcount_word _ Hb) as H. rewrite Hl in H. exact H.
Qed.

Lemma count_popcnt_ok fuel p c0 c1 c2 c3 : (length p <= fuel)%nat -> bytes_ok p -> 0 <= c0 -> 0 <= c1 -> 0 <= c2 -> 0 <= c3 -> c0 + c1 + c2 + c3 + 8 * Z.of_nat (length p) < 2 ^ 64 ->
  exists d r x0 x1 x2 x3, count_popcnt fuel p c0 c1 c2 c3 = Some (x0, x1, x2, x3, r) /\ p = d ++ r /\ x0 + x1 + x2 + x3 = c0 + c1 + c2 + c3 + weight d /\ 0 <= x0 /\ 0 <= x1 /\ 0 <= x2 /\ 0 <= x3.
Proof.
  revert p c0 c1 c2 c3. induction fuel as [|fuel IH]; intros p c0 c1 c2 c3 Hf Hp H0 H1 H2 H3 Hs; cbn [count_popcnt]; destruct (Z.leb_spec 32 (Z.of_nat (length p))) as [Hge|Hlt]; cbn [negb].
  1: lia. 1, 3: exists [], p, c0, c1, c2, c3; cbn; split_and!; try done; lia.
  destruct (word64_count p 0 Hp ltac:(lia)) as [-> B0]. destruct (word64_count p 8 Hp ltac:(lia)) as [-> B1]. destruct (word64_count p 16 Hp ltac:(lia)) as [-> B2]. destruct (word64_count p 24 Hp ltac:(lia)) as [-> B3].
  assert (Ht : take 32 p = take 8 (drop 0 p) ++ take 8 (drop 8 p) ++ take 8 (drop 16 p) ++ take 8 (drop 24 p)).
  { rewrite drop_0. rewrite (take_split4 8 24 p : _ -> take 32 p = _), (take_split4 8 16 p : _ -> take 24 p = _), (take_split4 8 8 p : _ -> take 16 p = _) by lia. by rewrite <- !app_assoc. }
  assert (Hw : weight (take 32 p) = weight (take 8 (drop 0 p)) + weight (take 8 (drop 8 p)) + weight (take 8 (drop 16 p)) + weight (take 8 (drop 24 p))) by (rewrite Ht, !weight_app; lia).
  pose proof (weight_bound (take 32 p)) as Hwb. rewrite length_take in Hwb. rewrite !uwrap_small by (unfold urange; lia).
  destruct (IH (drop 32 p) (c0 + weight (take 8 (drop 0 p))) (c1 + weight (take 8 (drop 8 p))) (c2 + weight (take 8 (drop 16 p))) (c3 + weight (take 8 (drop 24 p)))) as (d & r & x0 & x1 & x2 & x3 & -> & E & Hx & ?);
    [rewrite length_drop; lia|by apply Forall_drop|lia|lia|lia|lia|rewrite length_drop; lia|].
  exists (take 32 p ++ d), r, x0, x1, x2, x3. rewrite <- app_assoc, <- E, take_drop, weight_app, Hx. split_and!; try done; try tauto. lia.
Qed.

Lemma count_words_ok fuel p bits : (length p <= fuel)%nat -> bytes_ok p -> exists d r, count_words fuel p bits = Some (bits + weight d, r) /\ p = d ++ r.
Proof.
  revert p bits. induction fuel as [|fuel IH]; intros p bits Hf Hp; cbn [count_words]; destruct (Z.leb_spec 28 (Z.of_nat (length p))) as [Hge|Hlt]; cbn [negb].
  1: lia. 1, 3: exists [], p; cbn; by rewrite Z.add_0_r.
  assert (Ht : take 28 p = take 4 (drop 0 p) ++ take 4 (drop 4 p) ++ take 4 (drop 8 p) ++ take 4 (drop 12 p) ++ take 4 (drop 16 p) ++ take 4 (drop 20 p) ++ take 4 (drop 24 p)).
  { rewrite drop_0. rewrite (take_split4 4 24 p : _ -> take 28 p = _), (take_split4 4 20 p : _ -> take 24 p = _), (take_split4 4 16 p : _ -> take 20 p = _), (take_split4 4 12 p : _ -> take 16 p = _), (take_split4 4 8 p : _ -> take 12 p = _), (take_split4 4 4 p : _ -> take 8 p = _) by lia. by rewrite <- !app_assoc. }
  assert (Hw4 : forall a b c d, weight [a; b; c; d] = popcount 8 a + popcount 8 b + popcount 8 c + popcount 8 d) by (intros; unfold weight; cbn [foldr]; lia).
  assert (Hb8 : forall x, 0 <= popcount 8 x <= 8) by (intros x; pose proof (popcount_bound 8 x) as Hx; change (Z.of_nat 8) with 8 in Hx; exact Hx).
  destruct (word32_reduce p 0 Hp ltac:(lia)) as (a0 & b0 & c0 & d0 & E0 & ->). destruct (word32_reduce p 4 Hp ltac:(lia)) as (a1 & b1 & c1 & d1 & E1 & ->). destruct (word32_reduce p 8 Hp ltac:(lia)) as (a2 & b2 & c2 & d2 & E2 & ->).
  destruct (word32_reduce p 12 Hp ltac:(lia)) as (a3 & b3 & c3 & d3 & E3 & ->). destruct (word32_reduce p 16 Hp ltac:(lia)) as (a4 & b4 & c4 & d4 & E4 & ->). destruct (word32_reduce p 20 Hp ltac:(lia)) as (a5 & b5 & c5 & d5 & E5 & ->).
  destruct (word32_reduce p 24 Hp ltac:(lia)) as (a6 & b6 & c6 & d6 & E6 & ->). rewrite E0, E1, E2, E3, E4, E5, E6 in Ht.
  assert (Hw : weight (take 28 p) = weight [a0; b0; c0; d0] + weight [a1; b1; c1; d1] + weight [a2; b2; c2; d2] + weight [a3; b3; c3; d3] + weight [a4; b4; c4; d4] + weight [a5; b5; c5; d5] + weight [a6; b6; c6; d6]) by (rewrite Ht, !weight_app; lia).
  rewrite !Hw4 in Hw. clear Ht E0 E1 E2 E3 E4 E5 E6 Hw4.
  repeat match goal with |- context [popcount 8 ?x] => let n := fresh "n" in pose proof (Hb8 x); set (n := popcount 8 x) in *; clearbody n end.
  match goal with |- context [count_words fuel _ (bits + ?z)] => assert (Ez : z = weight (take 28 p)) end.
  { rewrite !four_add by lia.
    rewrite four_sum by lia. lia. }
  rewrite Ez. destruct (IH (drop 28 p) (bits + weight (take 28 p))) as (d & r & -> & E); [rewrite length_drop; lia|by apply Forall_drop|].
  exists (take 28 p ++ d), r. rewrite <- app_assoc, <- E, take_drop, weight_app. split; [|done]. do 2 f_equal. lia.
Qed.

Lemma popcount_ok cpu addr s : bytes_ok s -> 8 * Z.of_nat (length s) < 2 ^ 64 -> redisPopcount cpu addr s = Some (weight s).
Proof.
  intros Hs Hl. unfold redisPopcount. destruct (count_aligned_ok addr (if cpu then 7 else 3) s 0 Hs) as (d & r & -> & ->). cbn [mbind option_bind]. apply Forall_app in Hs as [_ Hr]. rewrite length_app in Hl. destruct cpu.
  - destruct (count_popcnt_ok (length r) r 0 0 0 0) as (d2 & r2 & x0 & x1 & x2 & x3 & -> & -> & Hx & H0 & H1 & H2 & H3); [lia|done|lia|lia|lia|lia|lia|]. cbn [mbind option_bind]. apply Forall_app in Hr as [_ Hr].
    rewrite count_rest_ok by done. rewrite length_app in Hl. pose proof (weight_bound d2). rewrite (uwrap_small 64 (x0 + x1)), (uwrap_small 64 (x0 + x1 + x2)), (uwrap_small 64 (x0 + x1 + x2 + x3)) by (unfold urange; lia). rewrite !weight_app. f_equal. lia.
  - destruct (count_words_ok (length r) r (0 + weight d)) as (d2 & r2 & -> & ->); [lia|done|]. cbn [mbind option_bind]. apply Forall_app in Hr as [_ Hr]. rewrite count_rest_ok by done. rewrite !weight_app. f_equal. lia.
Qed.

(** ** Ranges of bits *)

Lemma count_bits_app f lo m n : count_bits f lo (m + n) = count_bits f lo m + count_bits f (lo + Z.of_nat m) n.
Proof. induction n as [|n IH]; [rewrite Nat.add_0_r; cbn; lia|]. rewrite <- plus_n_Sm. cbn [count_bits]. rewrite IH. replace (lo + Z.of_nat (m + n)) with (lo + Z.of_nat m + Z.of_nat n) by lia. lia. Qed.

Lemma count_bits_shift f g n a b : (forall i, 0 <= i < Z.of_nat n -> f (a + i) = g (b + i)) -> count_bits f a n = count_bits g b n.
Proof. intros H. induction n as [|n IH]; [done|]. cbn [count_bits]. rewrite IH by (intros i Hi; apply H; lia). by rewrite H by lia. Qed.

(** The bits of one byte, the highest first. *)
Definition byte_bit (b i : Z) : bool := Z.testbit b (7 - i).

Lemma popcount_byte b : popcount 8 b = count_bits (byte_bit b) 0 8.
Proof.
  unfold byte_bit. cbn [popcount count_bits]. znat. repeat match goal with |- context [7 - (0 + ?k)] => let r := eval compute in (7 - (0 + k)) in change (7 - (0 + k)) with r end. lia.
Qed.

Lemma bit_at_byte p k b i : p !! k = Some b -> 0 <= i < 8 -> bit_at p (8 * Z.of_nat k + i) = byte_bit b i.
Proof.
  intros Hb Hi. unfold bit_at, byte_bit. assert (E1 : (8 * Z.of_nat k + i) / 8 = Z.of_nat k) by (symmetry; apply (Z.div_unique _ _ _ i); lia).
  assert (E2 : (8 * Z.of_nat k + i) mod 8 = i) by (symmetry; apply (Z.mod_unique _ _ (Z.of_nat k)); lia). by rewrite E1, E2, Nat2Z.id, Hb.
Qed.

Lemma weight_bits p k n : (k + n <= length p)%nat -> weight (take n (drop k p)) = count_bits (bit_at p) (8 * Z.of_nat k) (8 * n).
Proof.
  induction n as [|n IH]; intros Hk; [done|]. destruct (lookup_lt_is_Some_2 p (k + n) ltac:(lia)) as [b Hb]. assert (Hb' : drop k p !! n = Some b) by (by rewrite lookup_drop). rewrite (take_S_r _ _ _ Hb'), weight_app, IH by lia.
  replace (8 * S n)%nat with (8 * n + 8)%nat by lia. rewrite count_bits_app. f_equal. cbn [weight foldr]. rewrite popcount_byte, Z.add_0_r. apply count_bits_shift. intros i Hi. change (Z.of_nat 8) with 8 in Hi.
  rewrite <- (bit_at_byte p (k + n) b (0 + i) Hb) by lia. f_equal. lia.
Qed.

(** The masks of the bits of a byte before [k], and after it. *)
Definition masks_ok (b : Z) : bool :=
  forallb (fun k => (popcount 8 (Z.land b (u8 (Z.land (Z.lnot (Z.shiftl 1 (8 - k) - 1)) 255))) =? count_bits (byte_bit b) 0 (Z.to_nat k)) &&
    (popcount 8 (Z.land b (u8 (Z.shiftl 1 (7 - k) - 1))) =? count_bits (byte_bit b) (k + 1) (Z.to_nat (7 - k)))) (seqZ 0 8).

Lemma masks_bytes b k : urange 8 b -> 0 <= k < 8 ->
  popcount 8 (Z.land b (u8 (Z.land (Z.lnot (Z.shiftl 1 (8 - k) - 1)) 255))) = count_bits (byte_bit b) 0 (Z.to_nat k) /\
  popcount 8 (Z.land b (u8 (Z.shiftl 1 (7 - k) - 1))) = count_bits (byte_bit b) (k + 1) (Z.to_nat (7 - k)).
Proof.
  intros Hb Hk. assert (H : masks_ok b = true) by (revert b Hb; apply (byte_forall (fun b => masks_ok b = true)); by vm_compute). unfold masks_ok in H. rewrite forallb_forall in H.
  specialize (H k ltac:(apply list_elem_of_In, elem_of_seqZ; lia)). apply andb_prop in H as [H1 H2]. by apply Z.eqb_eq in H1, H2.
Qed.

(** The first and the last bit that a command looks at. *)
Definition bit_range (strlen start stop : Z) (isbit : bool) : Z * Z :=
  let tot := if isbit then 8 * strlen else strlen in
  let a := Z.max 0 (if start <? 0 then tot + start else start) in
  let b := Z.min (tot - 1) (Z.max 0 (if stop <? 0 then tot + stop else stop)) in
  if isbit then (a, b) else (8 * a, 8 * b + 7).

(** The range the code computes: bytes, and the bits of the first and the last one that
    are in the range. *)
Lemma normalize_ok strlen start stop isbit : 0 <= strlen -> let '(lo, hi) := bit_range strlen start stop isbit in let r := normalize strlen start stop isbit in
  0 <= lo /\ hi < 8 * strlen /\ (r_start r <= r_end r <-> lo <= hi) /\
  (lo <= hi -> r_start r = lo / 8 /\ r_end r = hi / 8 /\ r_first_mask r = u8 (Z.land (Z.lnot (Z.shiftl 1 (8 - lo mod 8) - 1)) 255) /\ r_last_mask r = u8 (Z.shiftl 1 (7 - hi mod 8) - 1)).
Proof.
  intros Hl. unfold bit_range, normalize. rewrite Z.shiftl_mul_pow2 by lia. change (2 ^ 3) with 8. rewrite (Z.mul_comm strlen 8). set (tot := if isbit then 8 * strlen else strlen).
  set (s1 := if start <? 0 then tot + start else start). set (e1 := if stop <? 0 then tot + stop else stop). set (a := Z.max 0 s1). set (b := Z.min (tot - 1) (Z.max 0 e1)).
  assert (Ea : (if s1 <? 0 then 0 else s1) = a) by (unfold a; destruct (Z.ltb_spec s1 0); lia). rewrite Ea. set (e2 := if e1 <? 0 then 0 else e1). assert (Ee : e2 = Z.max 0 e1) by (unfold e2; destruct (Z.ltb_spec e1 0); lia).
  assert (Eb : (if e2 >=? tot then tot - 1 else e2) = b) by (unfold b; rewrite Ee; destruct (Z.geb_spec (Z.max 0 e1) tot); lia). rewrite Eb. assert (Ha : 0 <= a) by lia. assert (Hb : b <= tot - 1) by lia. clearbody a b. clear Ea Eb Ee. destruct isbit; cbn [andb].
  - subst tot. destruct (Z.leb_spec a b) as [Hab|Hab]; cbn [r_start r_end r_first_mask r_last_mask].
    + rewrite !shift3, !land7. split_and!; try lia; try done. assert (a / 8 <= b / 8) by (apply Z.div_le_mono; lia). lia.
    + split_and!; lia.
  - subst tot. cbn [r_start r_end r_first_mask r_last_mask]. split_and!; [lia|lia|lia|]. intros Hab. rewrite (Z.mul_comm 8 a), (Z.mul_comm 8 b), Z.mod_mul, Z.div_mul by lia.
    rewrite Z.div_add_l by lia. rewrite (Z.add_comm (b * 8)), Z.mod_add by lia. change (7 / 8) with 0. change (7 mod 8) with 7. split_and!; try done; lia.
Qed.

Definition bitcount_spec (f : Z -> bool) (strlen : Z) (args : option (Z * Z * bool)) : Z :=
  match args with
  | None => count_bits f 0 (Z.to_nat (8 * strlen))
  | Some (start, stop, isbit) =>
    let '(lo, hi) := bit_range strlen start stop isbit in
    if (start <? 0) && (stop <? 0) && (start >? stop) then 0 else count_bits f lo (Z.to_nat (hi - lo + 1))
  end.

Lemma div_split x : x = 8 * (x / 8) + x mod 8 /\ 0 <= x mod 8 < 8.
Proof. pose proof (Z.div_mod x 8 ltac:(lia)). pose proof (Z.mod_pos_bound x 8 ltac:(lia)). lia. Qed.

(** Counting whole bytes and subtracting the bits out of the range. *)
Lemma count_range cpu addr addr2 p lo hi : bytes_ok p -> Z.of_nat (length p) < 2 ^ 60 -> 0 <= lo <= hi -> hi < 8 * Z.of_nat (length p) ->
  let m1 := u8 (Z.land (Z.lnot (Z.shiftl 1 (8 - lo mod 8) - 1)) 255) in let m2 := u8 (Z.shiftl 1 (7 - hi mod 8) - 1) in
  (s ← slice p (lo / 8) (hi / 8);
   count ← redisPopcount cpu (addr + lo / 8) s;
   if negb (m1 =? 0) || negb (m2 =? 0) then
     first ← p !! Z.to_nat (lo / 8);
     last ← p !! Z.to_nat (hi / 8);
     n ← redisPopcount cpu addr2 [if negb (m1 =? 0) then Z.land first m1 else 0; if negb (m2 =? 0) then Z.land last m2 else 0];
     Some (count - n)
   else Some count) = Some (count_bits (bit_at p) lo (Z.to_nat (hi - lo + 1))).
Proof.
  intros Hp Hl Hlo Hhi m1 m2. destruct (div_split lo) as [El Ml]. destruct (div_split hi) as [Eh Mh]. assert (Hd : 0 <= lo / 8 <= hi / 8) by (split; [apply Z.div_pos; lia|apply Z.div_le_mono; lia]).
  unfold slice. rewrite (proj2 (Z.leb_le 0 _)), (proj2 (Z.leb_le (lo / 8) _)), (proj2 (Z.ltb_lt (hi / 8) _)) by lia. cbn [andb guard mbind option_bind].
  set (a := Z.to_nat (lo / 8)). set (c := Z.to_nat (hi / 8)). set (n := Z.to_nat (hi / 8 - lo / 8 + 1)). assert (Hn : (a + n = c + 1 /\ c < length p)%nat) by (unfold a, c, n; lia).
  rewrite popcount_ok by (first [by apply Forall_take, Forall_drop|rewrite length_take; lia]). cbn [mbind option_bind]. rewrite weight_bits by lia.
  destruct (lookup_lt_is_Some_2 p a ltac:(lia)) as [first Hf]. destruct (lookup_lt_is_Some_2 p c ltac:(lia)) as [last Hla]. pose proof (Forall_lookup_1 _ _ _ _ Hp Hf) as Rf. pose proof (Forall_lookup_1 _ _ _ _ Hp Hla) as Rl. cbn in Rf, Rl.
  destruct (masks_bytes first (lo mod 8) Rf Ml) as [M1 _]. destruct (masks_bytes last (hi mod 8) Rl Mh) as [_ M2]. fold m1 in M1. fold m2 in M2.
  assert (Hm1 : (if negb (m1 =? 0) then Z.land first m1 else 0) = Z.land first m1) by (destruct (Z.eqb_spec m1 0) as [->|]; [by rewrite Z.land_0_r|done]).
  assert (Hm2 : (if negb (m2 =? 0) then Z.land last m2 else 0) = Z.land last m2) by (destruct (Z.eqb_spec m2 0) as [->|]; [by rewrite Z.land_0_r|done]).
  assert (Hcount : count_bits (bit_at p) (8 * Z.of_nat a) (8 * n) = popcount 8 (Z.land first m1) + count_bits (bit_at p) lo (Z.to_nat (hi - lo + 1)) + popcount 8 (Z.land last m2)).
  { rewrite M1, M2. replace (8 * n)%nat with (Z.to_nat (lo mod 8) + (Z.to_nat (hi - lo + 1) + Z.to_nat (7 - hi mod 8)))%nat by lia. rewrite !count_bits_app.
    rewrite (count_bits_shift (bit_at p) (byte_bit first) _ (8 * Z.of_nat a) 0) by (intros i Hi; rewrite (bit_at_byte p a first) by (done || lia); f_equal; lia).
    rewrite (count_bits_shift (bit_at p) (byte_bit last) (Z.to_nat (7 - hi mod 8)) _ (hi mod 8 + 1)).
    - replace (8 * Z.of_nat a + Z.of_nat (Z.to_nat (lo mod 8))) with lo by lia. lia.
    - intros i Hi. rewrite <- (bit_at_byte p c last) by (done || lia). f_equal. lia. }
  destruct (negb (m1 =? 0) || negb (m2 =? 0)) eqn:E.
  - rewrite Hf, Hla. cbn [mbind option_bind]. rewrite Hm1, Hm2. rewrite popcount_ok; [|apply Forall_cons; split; [|apply Forall_singleton]; apply urange_land_l; (lia || done)|cbn; lia]. cbn [mbind option_bind weight foldr]. f_equal. lia.
  - apply orb_false_elim in E as [E1 E2]. apply negb_false_iff, Z.eqb_eq in E1, E2. rewrite E1, E2, !Z.land_0_r in Hcount. rewrite Hcount. f_equal. change (popcount 8 0) with 0. lia.
Qed.

(** The assertion of the commands on the length. *)
Lemma length_assert n : n < 2 ^ 60 -> (n <=? Z.shiftr (2 ^ 63 - 1) 3) = true.
Proof. intros Hn. change (Z.shiftr (2 ^ 63 - 1) 3) with (2 ^ 60 - 1). lia. Qed.

(** C35. Counting bits: BITCOUNT gives the number of bits that are set in the range, for
    indexes of bits and of bytes, negative ones and ones past the end; the count by
    bytes, by words with carry save additions or by the instruction of the processor is
    the same for every alignment of the string. *)
Theorem bitcount_exact cpu addr addr2 p args : bytes_ok p -> Z.of_nat (length p) < 2 ^ 60 ->
  bitcountCommand cpu addr addr2 (Some p) args = Some (bitcount_spec (bit_at p) (Z.of_nat (length p)) args) /\ bitcountCommand cpu addr addr2 None args = Some 0.
Proof.
  intros Hp Hl. split; [|done]. unfold bitcountCommand, bitcount_spec. rewrite length_assert by done. replace (guard _) with (Some tt) by (by destruct args). cbn [mbind option_bind]. destruct args as [[[start stop] isbit]|].
  - pose proof (normalize_ok (Z.of_nat (length p)) start stop isbit ltac:(lia)) as Hn. destruct (bit_range _ _ _ _) as [lo hi]. destruct (normalize _ _ _ _) as [rs re rm1 rm2]. cbn [r_start r_end r_first_mask r_last_mask] in Hn.
    destruct Hn as (H1 & H2 & H3 & H4). destruct ((start <? 0) && (stop <? 0) && (start >? stop)); [done|]. cbn [orb]. destruct (Z.gtb_spec rs re) as [Hgt|Hle].
    + replace (Z.to_nat (hi - lo + 1)) with 0%nat by lia. done.
    + destruct (H4 ltac:(lia)) as (-> & -> & -> & ->). apply count_range; [done|done|lia|lia].
  - destruct (Z.gtb_spec 0 (Z.of_nat (length p) - 1)) as [Hgt|Hle]; cbn [orb].
    + destruct p; [done|cbn in Hgt; lia].
    + pose proof (count_range cpu addr addr2 p 0 (8 * Z.of_nat (length p) - 1) Hp Hl ltac:(lia) ltac:(lia)) as H. cbv zeta in H.
      assert (E1 : (8 * Z.of_nat (length p) - 1) / 8 = Z.of_nat (length p) - 1) by (symmetry; apply (Z.div_unique _ _ _ 7); lia). assert (E2 : (8 * Z.of_nat (length p) - 1) mod 8 = 7) by (symmetry; apply (Z.mod_unique _ _ (Z.of_nat (length p) - 1)); lia).
      rewrite E1, E2 in H. replace (8 * Z.of_nat (length p) - 1 - 0 + 1) with (8 * Z.of_nat (length p)) in H by lia. exact H.
Qed.

Lemma bitcount_exact_witness : bitcountCommand false 5 3 (Some (replicate 40 171)) (Some (-300, 200, true)) = Some (bitcount_spec (bit_at (replicate 40 171)) 40 (Some (-300, 200, true))) /\
  bitcountCommand false 5 3 None (Some (-300, 200, true)) = Some 0.
Proof. apply (bitcount_exact false 5 3 (replicate 40 171) (Some (-300, 200, true))); [apply Forall_replicate; by vm_compute|by vm_compute]. Defined.

End BitmapSpec.
