(* ===== verification/BitposSpec.v ===== *)
(** Bitmaps: the search for the first bit with a value, by words and in a range, and the
    commands that read and write one bit. *)

From S2P Require Import Prelude Bits Bitfield BitfieldSpec Bitmap BitmapSpec.

Module BitposSpec.
Import Bitfield BitfieldSpec Bitmap BitmapSpec.

(** * The first bit *)

Definition no_bit (f : Z -> bool) (bit : bool) (lo hi : Z) : Prop := forall i, lo <= i < hi -> f i <> bit.
Definition first_bit (f : Z -> bool) (bit : bool) (lo hi i : Z) : Prop := lo <= i < hi /\ f i = bit /\ no_bit f bit lo i.

(** The first position from [lo] on among [n], if there is one. *)
Fixpoint find_bit (f : Z -> bool) (bit : bool) (lo : Z) (n : nat) : option Z :=
  match n with O => None | S n => if Bool.eqb (f lo) bit then Some lo else find_bit f bit (lo + 1) n end.

Lemma find_bit_cases f bit lo n : match find_bit f bit lo n with Some i => first_bit f bit lo (lo + Z.of_nat n) i | None => no_bit f bit lo (lo + Z.of_nat n) end.
Proof.
  revert lo. induction n as [|n IH]; intros lo; cbn [find_bit]; [intros i Hi; lia|]. destruct (Bool.eqb (f lo) bit) eqn:E.
  - apply eqb_prop in E. split_and!; [lia|lia|done|]. intros j Hj. lia.
  - apply eqb_false_iff in E. specialize (IH (lo + 1)). destruct (find_bit f bit (lo + 1) n) as [i|].
    + destruct IH as (H1 & H2 & H3). split_and!; [lia|lia|done|]. intros j Hj. destruct (decide (j = lo)) as [->|]; [done|]. apply H3. lia.
    + intros j Hj. destruct (decide (j = lo)) as [->|]; [done|]. apply IH. lia.
Qed.

Lemma find_bit_first f bit lo n i : first_bit f bit lo (lo + Z.of_nat n) i -> find_bit f bit lo n = Some i.
Proof.
  intros (H1 & H2 & H3). pose proof (find_bit_cases f bit lo n) as H. destruct (find_bit f bit lo n) as [j|]; [|exfalso; by apply (H i)].
  destruct H as (J1 & J2 & J3). f_equal. destruct (Z.lt_total i j) as [Hlt|[->|Hlt]]; [exfalso; by apply (J3 i); [lia|]|done|exfalso; by apply (H3 j); [lia|]].
Qed.

Lemma find_bit_none f bit lo n : no_bit f bit lo (lo + Z.of_nat n) -> find_bit f bit lo n = None.
Proof. intros H. pose proof (find_bit_cases f bit lo n) as Hc. destruct (find_bit f bit lo n) as [j|]; [|done]. destruct Hc as (J1 & J2 & _). exfalso. by apply (H j). Qed.

Lemma first_exists f bit lo hi i : lo <= i < hi -> f i = bit -> exists j, first_bit f bit lo hi j /\ j <= i.
Proof.
  intros Hi Hf. pose proof (find_bit_cases f bit lo (Z.to_nat (i + 1 - lo))) as H. replace (lo + Z.of_nat (Z.to_nat (i + 1 - lo))) with (i + 1) in H by lia.
  destruct (find_bit f bit lo _) as [j|]; [|exfalso; apply (H i); [lia|done]]. destruct H as (H1 & H2 & H3). exists j. split; [|lia]. split_and!; [lia|lia|done|done].
Qed.

(** * Searching a string *)

Section Search.
Variable bit : bool.

(** A byte that is skipped has no bit with the value. *)
Lemma skip_bits b : urange 8 b -> if b =? skip_byte bit then forall i, 0 <= i < 8 -> byte_bit b i <> bit else exists i, 0 <= i < 8 /\ byte_bit b i = bit.
Proof.
  intros Hb. destruct (Z.eqb_spec b (skip_byte bit)) as [->|Hne].
  - intros i Hi. unfold byte_bit, skip_byte. destruct bit; [by rewrite Z.bits_0|]. change 255 with (Z.ones 8). by rewrite Z.ones_spec_low by lia.
  - pose proof (find_bit_cases (byte_bit b) bit 0 8) as H. destruct (find_bit _ _ _ _) as [i|]; [destruct H as (H1 & H2 & _); by exists i|]. exfalso. apply Hne.
    apply (bits_eq 8); [lia|done|unfold skip_byte; by destruct bit; vm_compute|]. intros k Hk. specialize (H (7 - k) ltac:(change (Z.of_nat 8) with 8; lia)). unfold byte_bit in H. replace (7 - (7 - k)) with k in H by lia.
    unfold skip_byte. destruct bit; [rewrite Z.bits_0; by destruct (Z.testbit b k)|]. change 255 with (Z.ones 8). rewrite Z.ones_spec_low by lia. by destruct (Z.testbit b k).
Qed.

Lemma pos_aligned_ok addr s pos : exists d c found, pos_aligned bit addr s pos = (found, c, pos + 8 * Z.of_nat (length d)) /\ s = d ++ c /\ Forall (fun b => b = skip_byte bit) d /\
  (found = true -> exists b c', c = b :: c' /\ b <> skip_byte bit).
Proof.
  revert addr pos. induction s as [|b s IH]; intros addr pos; cbn [pos_aligned]; [exists [], [], false; cbn; by rewrite Z.add_0_r|].
  destruct (negb (Z.land addr 7 =? 0)); [|exists [], (b :: s), false; cbn; by rewrite Z.add_0_r]. destruct (Z.eqb_spec b (skip_byte bit)) as [->|Hne]; cbn [negb].
  - destruct (IH (addr + 1) (pos + 8)) as (d & c & found & -> & -> & Hd & Hf). exists (skip_byte bit :: d), c, found. split_and!; [|done|by constructor|done]. cbn [length]. f_equal. lia.
  - exists [], (b :: s), true. cbn. rewrite Z.add_0_r. split_and!; try done. intros _. by exists b, s.
Qed.

Lemma skip_word_bytes bs : bytes_ok bs -> length bs = 8%nat -> le_val bs = skip_word bit -> bs = replicate 8 (skip_byte bit).
Proof. intros Hb Hl E. rewrite <- (le_bytes_val bs Hb), Hl, E. unfold skip_word, skip_byte. by destruct bit. Qed.

Lemma pos_words_ok fuel l pos : bytes_ok l -> (length l <= fuel)%nat -> exists d c, pos_words bit fuel l pos = Some (c, pos + 8 * Z.of_nat (length d)) /\ l = d ++ c /\ Forall (fun b => b = skip_byte bit) d /\
  ((length c < 8)%nat \/ exists k b, (k < 8)%nat /\ c !! k = Some b /\ b <> skip_byte bit).
Proof.
  revert l pos. induction fuel as [|fuel IH]; intros l pos Hl Hf; cbn [pos_words]; destruct (Z.leb_spec 8 (Z.of_nat (length l))) as [Hge|Hlt]; cbn [negb].
  1: lia. 1, 3: exists [], l; cbn; rewrite Z.add_0_r; split_and!; try done; left; lia.
  assert (Hl8 : length (take 8 l) = 8%nat) by (rewrite length_take; lia). assert (Hb8 : bytes_ok (take 8 l)) by (by apply Forall_take). unfold word64. rewrite drop_0.
  destruct (Z.eqb_spec (le_val (take 8 l)) (skip_word bit)) as [E|Hne]; cbn [negb].
  - pose proof (skip_word_bytes _ Hb8 Hl8 E) as Et. destruct (IH (drop 8 l) (pos + 64)) as (d & c & -> & Ed & Hd & Hc); [by apply Forall_drop|rewrite length_drop; lia|].
    exists (take 8 l ++ d), c. rewrite <- app_assoc, <- Ed, take_drop. split_and!; [|done|apply Forall_app; split; [rewrite Et; by apply Forall_replicate|done]|done]. rewrite length_app, Hl8. do 2 f_equal. lia.
  - exists [], l. cbn. rewrite Z.add_0_r. split_and!; try done. right.
    destruct (decide (Forall (fun b => b = skip_byte bit) (take 8 l))) as [Hall|Hex].
    + exfalso. apply Hne. assert (Et : take 8 l = replicate 8 (skip_byte bit)) by (symmetry; apply replicate_as_Forall_2; [done|]; eapply Forall_impl; [exact Hall|]; done). rewrite Et. unfold skip_word, skip_byte. by destruct bit.
    + apply not_Forall_Exists, Exists_exists in Hex as (b & Hin & Hb); [|intros x; solve_decision]. apply list_elem_of_lookup in Hin as [k Hk]. pose proof (lookup_lt_Some _ _ _ Hk). exists k, b. split_and!; [lia| |done]. by rewrite lookup_take_lt in Hk by lia.
Qed.

Lemma bit_at_app_r d c i : 0 <= i -> bit_at (d ++ c) (8 * Z.of_nat (length d) + i) = bit_at c i.
Proof.
  intros Hi. unfold bit_at. assert (Hd : 0 <= i / 8) by (apply Z.div_pos; lia). rewrite (Z.mul_comm 8), Z.div_add_l, (Z.add_comm (_ * 8)), Z.mod_add by lia.
  replace (Z.to_nat (Z.of_nat (length d) + i / 8)) with (length d + Z.to_nat (i / 8))%nat by lia. by rewrite lookup_app_r, Nat.add_sub' by lia.
Qed.

Lemma bit_at_app_l d c i : 0 <= i < 8 * Z.of_nat (length d) -> bit_at (d ++ c) i = bit_at d i.
Proof. intros Hi. unfold bit_at. destruct (byte_in d i Hi) as [b Hb]. by rewrite Hb, (lookup_app_l_Some _ _ _ _ Hb). Qed.

Lemma bit_at_end c i : 8 * Z.of_nat (length c) <= i -> bit_at c i = false.
Proof. intros Hi. unfold bit_at. rewrite lookup_ge_None_2; [done|]. assert (Z.of_nat (length c) <= i / 8) by (apply Z.div_le_lower_bound; lia). lia. Qed.

Lemma skipped_no_bit d : Forall (fun b => b = skip_byte bit) d -> no_bit (bit_at d) bit 0 (8 * Z.of_nat (length d)).
Proof.
  intros Hd i Hi. destruct (byte_in d i Hi) as [b Hb]. pose proof (Forall_lookup_1 _ _ _ _ Hd Hb) as Eb. cbn in Eb. destruct (div_split i) as [Ei Mi]. assert (0 <= i / 8) by (apply Z.div_pos; lia).
  replace i with (8 * Z.of_nat (Z.to_nat (i / 8)) + i mod 8) by lia. rewrite (bit_at_byte d _ b) by (done || lia). subst b. pose proof (skip_bits (skip_byte bit)) as Hs. rewrite Z.eqb_refl in Hs. apply Hs; [unfold skip_byte; by destruct bit; vm_compute|done].
Qed.

(** ** The last word *)

Lemma field_split f m n o : field f (m + n) o = field f m o * 2 ^ Z.of_nat n + field f n (o + Z.of_nat m).
Proof.
  induction n as [|n IH]; [rewrite Nat.add_0_r; cbn; lia|]. rewrite <- plus_n_Sm. cbn [field]. rewrite IH, Nat2Z.inj_succ, Z.pow_succ_r by lia. replace (o + Z.of_nat (m + n)) with (o + Z.of_nat m + Z.of_nat n) by lia. lia.
Qed.

Lemma byte_field b c : urange 8 b -> field (bit_at (b :: c)) 8 0 = b.
Proof.
  intros Hb. apply (bits_eq 8); [lia|exact (field_range _ 8 0)|done|]. intros k Hk. rewrite field_bit by (change (Z.of_nat 8) with 8; lia). change (Z.of_nat 8) with 8.
  pose proof (bit_at_byte (b :: c) 0 b (7 - k) eq_refl ltac:(lia)) as H. unfold byte_bit in H. replace (7 - (7 - k)) with k in H by lia. rewrite <- H. f_equal; lia.
Qed.

Lemma load_word_ok j c word : (j <= 8)%nat -> bytes_ok c -> urange (64 - 8 * Z.of_nat j) word -> load_word j c word = word * 2 ^ (8 * Z.of_nat j) + field (bit_at c) (8 * j) 0.
Proof.
  revert c word. induction j as [|j IH]; intros c word Hj Hc Hw; [cbn; lia|]. cbn [load_word]. unfold urange in Hw.
  assert (Hp : 2 ^ (64 - 8 * Z.of_nat j) = 256 * 2 ^ (64 - 8 * Z.of_nat (S j))) by (change 256 with (2 ^ 8); rewrite <- Z.pow_add_r by lia; f_equal; lia).
  assert (Hle : 2 ^ (64 - 8 * Z.of_nat j) <= 2 ^ 64) by (apply Z.pow_le_mono_r; lia). rewrite Z.shiftl_mul_pow2 by lia. rewrite uwrap_small by (unfold urange; change (2 ^ 8) with 256; lia).
  assert (Hp2 : 2 ^ (8 * Z.of_nat (S j)) = 2 ^ 8 * 2 ^ (8 * Z.of_nat j)) by (rewrite <- Z.pow_add_r by lia; f_equal; lia).
  replace (8 * S j)%nat with (8 + 8 * j)%nat by lia. rewrite field_split. replace (Z.of_nat (8 * j)) with (8 * Z.of_nat j) by lia. destruct c as [|b c].
  - rewrite IH; [|lia|done|unfold urange; change (2 ^ 8) with 256; lia].
    assert (H0 : forall n o, 0 <= o -> field (bit_at []) n o = 0) by (intros n; induction n as [|n IHn]; intros o Ho; [done|]; cbn [field]; rewrite IHn by done; rewrite bit_at_end by (cbn; lia); done).
    rewrite !H0 by lia. rewrite Hp2. lia.
  - apply Forall_cons in Hc as [Hb Hc]. rewrite Z.lor_comm, lor_add by (unfold urange in Hb; lia). rewrite IH; [|lia|done|unfold urange in *; change (2 ^ 8) with 256 in *; lia].
    rewrite byte_field by done. rewrite (field_shift (bit_at (b :: c)) (bit_at c) (8 * j) _ 0); [rewrite Hp2; lia|]. intros i Hi. change (0 + Z.of_nat 8) with (8 * Z.of_nat (length [b])). rewrite Z.add_0_l. apply (bit_at_app_r [b] c). lia.
Qed.

Lemma scan_word_step fuel one w pos : scan_word bit (S fuel) one w pos =
  if one =? 0 then None else if Bool.eqb (negb (Z.land one w =? 0)) bit then Some pos else scan_word bit fuel (Z.shiftr one 1) w (pos + 1).
Proof. done. Qed.

Lemma scan_word_ok m w pos i : first_bit (fun i => Z.testbit w (Z.of_nat m - 1 - i)) bit 0 (Z.of_nat m) i -> scan_word bit (S m) (2 ^ (Z.of_nat m - 1)) w pos = Some (pos + i).
Proof.
  revert pos i. induction m as [|m IH]; intros pos i (H1 & H2 & H3); [lia|]. rewrite scan_word_step. replace (Z.of_nat (S m) - 1) with (Z.of_nat m) in * by lia.
  rewrite (proj2 (Z.eqb_neq (2 ^ Z.of_nat m) 0)) by (pose proof (Z.pow_pos_nonneg 2 (Z.of_nat m)); lia).
  assert (Ht : negb (Z.land (2 ^ Z.of_nat m) w =? 0) = Z.testbit w (Z.of_nat m)).
  { destruct (Z.eqb_spec (Z.land (2 ^ Z.of_nat m) w) 0) as [E|E].
    - apply (f_equal (fun z => Z.testbit z (Z.of_nat m))) in E. rewrite Z.land_spec, Z.pow2_bits_true, Z.bits_0 in E by lia. exact (eq_sym E).
    - destruct (Z.testbit w (Z.of_nat m)) eqn:Et; [done|]. exfalso. apply E, Z.bits_inj'. intros k Hk. rewrite Z.land_spec, Z.bits_0, Z.pow2_bits_eqb by lia. destruct (Z.eqb_spec (Z.of_nat m) k) as [<-|]; [by rewrite Et|done]. }
  rewrite Ht. destruct (Bool.eqb (Z.testbit w (Z.of_nat m)) bit) eqn:E.
  - apply eqb_prop in E. destruct (decide (i = 0)) as [->|]; [by rewrite Z.add_0_r|]. exfalso. apply (H3 0); [lia|]. by rewrite Z.sub_0_r.
  - apply eqb_false_iff in E. assert (i <> 0) by (intros ->; rewrite Z.sub_0_r in H2; done). destruct m as [|m]; [lia|].
    assert (Es : Z.shiftr (2 ^ Z.of_nat (S m)) 1 = 2 ^ (Z.of_nat (S m) - 1)) by (rewrite Z.shiftr_div_pow2 by lia; rewrite pow2_half by lia; rewrite Z.mul_comm; by rewrite Z.div_mul by lia).
    rewrite Es, (IH (pos + 1) (i - 1)); [f_equal; lia|]. split_and!; [lia|lia|rewrite <- H2; f_equal; lia|]. intros j Hj. specialize (H3 (j + 1) ltac:(lia)). intros Hx. apply H3. rewrite <- Hx. f_equal. lia.
Qed.

Lemma word_bits c : bytes_ok c -> urange 64 (load_word 8 c 0) /\ forall i, 0 <= i < 64 -> Z.testbit (load_word 8 c 0) (63 - i) = bit_at c i.
Proof.
  intros Hc. rewrite load_word_ok by (first [lia|done|by vm_compute]). rewrite Z.add_0_l. pose proof (field_range (bit_at c) (8 * 8) 0) as Hr. replace (Z.of_nat (8 * 8)) with 64 in Hr by done. split; [exact Hr|].
  intros i Hi. rewrite field_bit by lia. f_equal. lia.
Qed.

Lemma scan_first w pos j : first_bit (fun i => Z.testbit w (63 - i)) bit 0 64 j -> scan_word bit 65 (u64 (Z.lnot (Z.shiftr (2 ^ 64 - 1) 1))) w pos = Some (pos + j).
Proof.
  intros (H1 & H2 & H3). replace (u64 (Z.lnot (Z.shiftr (2 ^ 64 - 1) 1))) with (2 ^ (Z.of_nat 64 - 1)) by (by vm_compute). apply scan_word_ok. replace (Z.of_nat 64) with 64 by done. split_and!; [lia|lia|rewrite <- H2; f_equal; lia|].
  intros i Hi. replace (64 - 1 - i) with (63 - i) by lia. by apply H3.
Qed.

(** What a search from [lo] to [hi] returns, with the position of [lo] subtracted. *)
Lemma bitpos_ok addr s : bytes_ok s -> exists r, redisBitpos bit addr s = Some r /\
  (first_bit (bit_at s) bit 0 (8 * Z.of_nat (length s)) r \/ (no_bit (bit_at s) bit 0 (8 * Z.of_nat (length s)) /\ r = if bit then -1 else 8 * Z.of_nat (length s))).
Proof.
  intros Hs. unfold redisBitpos. destruct (pos_aligned_ok addr s 0) as (d & c & found & -> & -> & Hd & Hfound). rewrite Z.add_0_l. apply Forall_app in Hs as [_ Hc].
  assert (H2 : exists d2 c2, (if found then Some (c, 8 * Z.of_nat (length d)) else pos_words bit (length c) c (8 * Z.of_nat (length d))) = Some (c2, 8 * Z.of_nat (length (d ++ d2))) /\ c = d2 ++ c2 /\ Forall (fun b => b = skip_byte bit) d2 /\
    ((length c2 < 8)%nat \/ exists k b, (k < 8)%nat /\ c2 !! k = Some b /\ b <> skip_byte bit)).
  { destruct found.
    - destruct (Hfound eq_refl) as (b & c' & -> & Hb). exists [], (b :: c'). rewrite app_nil_r. split_and!; try done. right. exists 0%nat, b. split_and!; [lia|done|done].
    - destruct (pos_words_ok (length c) c (8 * Z.of_nat (length d)) Hc (le_n _)) as (d2 & c2 & -> & H1 & H2 & H3). exists d2, c2. split_and!; [|done|done|done]. rewrite length_app. do 2 f_equal. lia. }
  destruct H2 as (d2 & c2 & -> & -> & Hd2 & Hend). cbn [mbind option_bind]. apply Forall_app in Hc as [_ Hc]. rewrite app_assoc. assert (Hdd : Forall (fun b => b = skip_byte bit) (d ++ d2)) by (by apply Forall_app).
  set (dd := d ++ d2) in *. clearbody dd. clear d d2 Hd Hd2 Hfound found. pose proof (skipped_no_bit dd Hdd) as Hskip. rewrite length_app.
  destruct (word_bits c2 Hc) as [Hwr Hw]. set (w := load_word 8 c2 0) in *. clearbody w.
  assert (Hbyte : forall k b, c2 !! k = Some b -> b <> skip_byte bit -> exists i, 8 * Z.of_nat k <= i < 8 * Z.of_nat k + 8 /\ bit_at c2 i = bit).
  { intros k b Hk Hb. pose proof (Forall_lookup_1 _ _ _ _ Hc Hk) as Hbr. cbn in Hbr. pose proof (skip_bits b Hbr) as Hsk. rewrite (proj2 (Z.eqb_neq b _)) in Hsk by done. destruct Hsk as (i & Hi & Hbi). exists (8 * Z.of_nat k + i). split; [lia|]. by rewrite (bit_at_byte c2 k b) by done. }
  destruct (bit && (w =? 0)) eqn:Ez.
  - apply andb_prop in Ez as [Ebit Ew]. apply Z.eqb_eq in Ew. eexists. split; [done|]. right. rewrite Ebit in *. split; [|done]. assert (Hz : forall i, 0 <= i < 64 -> bit_at c2 i = false) by (intros i Hi; rewrite <- Hw by done; rewrite Ew; apply Z.bits_0).
    intros i Hi. destruct (Z.ltb_spec i (8 * Z.of_nat (length dd))) as [Hlt|Hge]; [rewrite bit_at_app_l by lia; apply Hskip; lia|].
    replace i with (8 * Z.of_nat (length dd) + (i - 8 * Z.of_nat (length dd))) by lia. rewrite bit_at_app_r by lia. destruct Hend as [Hshort|(k & b & Hk & Hkb & Hb)]; [by rewrite Hz by lia|].
    destruct (Hbyte k b Hkb Hb) as (i' & Hi' & Hb'). rewrite Hz in Hb' by lia. done.
  - assert (Hex : exists i, 0 <= i < 64 /\ bit_at c2 i = bit).
    { destruct Hend as [Hshort|(k & b & Hk & Hkb & Hb)].
      - destruct bit eqn:Eb; [|exists (8 * Z.of_nat (length c2)); split; [lia|]; by apply bit_at_end].
        pose proof (find_bit_cases (bit_at c2) true 0 64) as Hfc. destruct (find_bit _ _ _ _) as [i|]; [destruct Hfc as (H1 & H2 & _); by exists i|]. cbn [andb] in Ez. apply Z.eqb_neq in Ez. exfalso. apply Ez.
        apply (bits_eq 64); [lia|exact Hwr|by vm_compute|]. intros k Hk. rewrite Z.bits_0. replace k with (63 - (63 - k)) by lia. rewrite Hw by lia. specialize (Hfc (63 - k) ltac:(change (Z.of_nat 64) with 64; lia)). by destruct (bit_at c2 (63 - k)).
      - destruct (Hbyte k b Hkb Hb) as (i & Hi & Hbi). exists i. split; [lia|done]. }
    destruct Hex as (i & Hi & Hbi). destruct (first_exists (bit_at c2) bit 0 64 i Hi Hbi) as (j & (J1 & J2 & J3) & Hji).
    rewrite (scan_first w _ j); [|split_and!; [lia|lia|by rewrite Hw|intros k Hk; rewrite Hw by lia; by apply J3]].
    eexists. split; [done|]. destruct (Z.ltb_spec j (8 * Z.of_nat (length c2))) as [Hlt|Hge].
    + left. split_and!; [lia|lia|by rewrite bit_at_app_r by lia|]. intros k Hk. destruct (Z.ltb_spec k (8 * Z.of_nat (length dd))); [rewrite bit_at_app_l by lia; apply Hskip; lia|].
      replace k with (8 * Z.of_nat (length dd) + (k - 8 * Z.of_nat (length dd))) by lia. rewrite bit_at_app_r by lia. apply J3. lia.
    + right. rewrite (bit_at_end c2 j Hge) in J2. assert (Ej : j = 8 * Z.of_nat (length c2)).
      { destruct (decide (j = 8 * Z.of_nat (length c2))); [done|]. exfalso. apply (J3 (8 * Z.of_nat (length c2))); [lia|]. rewrite <- J2. apply bit_at_end. lia. }
      rewrite <- J2 in *. split; [|lia]. intros k Hk. destruct (Z.ltb_spec k (8 * Z.of_nat (length dd))); [rewrite bit_at_app_l by lia; apply Hskip; lia|].
      replace k with (8 * Z.of_nat (length dd) + (k - 8 * Z.of_nat (length dd))) by lia. rewrite bit_at_app_r by lia. apply J3. lia.
Qed.

(** ** Parts of bytes *)

Lemma single_ok addr t : urange 8 t -> exists r, redisBitpos bit addr [t] = Some r /\ (first_bit (byte_bit t) bit 0 8 r \/ (no_bit (byte_bit t) bit 0 8 /\ r = if bit then -1 else 8)).
Proof.
  intros Ht. destruct (bitpos_ok addr [t] ltac:(by apply Forall_singleton)) as (r & -> & H). exists r. split; [done|]. replace (8 * Z.of_nat (length [t])) with 8 in H by done.
  assert (E : forall i, 0 <= i < 8 -> bit_at [t] i = byte_bit t i) by (intros i Hi; rewrite <- (bit_at_byte [t] 0 t i) by done; f_equal; lia).
  destruct H as [(H1 & H2 & H3)|[H1 H2]]; [left|right].
  - split_and!; [lia|lia|by rewrite <- E|]. intros i Hi. rewrite <- E by lia. by apply H3.
  - split; [|done]. intros i Hi. rewrite <- E by lia. by apply H1.
Qed.

Definition first_mask (k : Z) : Z := u8 (Z.land (Z.lnot (Z.shiftl 1 (8 - k) - 1)) 255).
Definition last_mask (h : Z) : Z := u8 (Z.shiftl 1 (7 - h) - 1).
Definition clear (b m : Z) : Z := u8 (if bit then Z.land b (Z.lnot m) else Z.lor b m).

Definition clear_ok (b : Z) : bool :=
  forallb (fun k => forallb (fun i =>
    Bool.eqb (byte_bit (clear b (first_mask k)) i) (if i <? k then negb bit else byte_bit b i) &&
    Bool.eqb (byte_bit (clear b (last_mask k)) i) (if k <? i then negb bit else byte_bit b i)) (seqZ 0 8)) (seqZ 0 8).

Lemma clear_bits b k i : urange 8 b -> 0 <= k < 8 -> 0 <= i < 8 ->
  byte_bit (clear b (first_mask k)) i = (if i <? k then negb bit else byte_bit b i) /\ byte_bit (clear b (last_mask k)) i = if k <? i then negb bit else byte_bit b i.
Proof.
  intros Hb Hk Hi. assert (H : clear_ok b = true).
  { revert b Hb. apply (byte_forall (fun b => clear_ok b = true)). unfold clear_ok, clear. by destruct bit; vm_compute. }
  unfold clear_ok in H. rewrite forallb_forall in H. specialize (H k ltac:(apply list_elem_of_In, elem_of_seqZ; lia)). rewrite forallb_forall in H. specialize (H i ltac:(apply list_elem_of_In, elem_of_seqZ; lia)).
  apply andb_prop in H as [H1 H2]. by apply eqb_prop in H1, H2.
Qed.

Lemma clear_range b m : urange 8 (clear b m).
Proof. apply uwrap_range. lia. Qed.

Lemma mask_zero k : 0 <= k < 8 -> (first_mask k =? 0) = (k =? 0) /\ (last_mask k =? 0) = (k =? 7).
Proof.
  intros Hk. assert (H : forallb (fun k => Bool.eqb (first_mask k =? 0) (k =? 0) && Bool.eqb (last_mask k =? 0) (k =? 7)) (seqZ 0 8) = true) by (by vm_compute). rewrite forallb_forall in H.
  specialize (H k ltac:(apply list_elem_of_In, elem_of_seqZ; lia)). apply andb_prop in H as [H1 H2]. by apply eqb_prop in H1, H2.
Qed.

(** ** Ranges *)

Variable p : bytes.
Hypothesis p_bytes : bytes_ok p.

Lemma slice_ok a b : 0 <= a <= b -> b < Z.of_nat (length p) -> exists s, slice p a b = Some s /\ bytes_ok s /\ Z.of_nat (length s) = b - a + 1 /\ forall i, 0 <= i < 8 * (b - a + 1) -> bit_at s i = bit_at p (8 * a + i).
Proof.
  intros Ha Hb. unfold slice. rewrite (proj2 (Z.leb_le 0 a)), (proj2 (Z.leb_le a b)), (proj2 (Z.ltb_lt b _)) by lia. cbn [andb guard mbind option_bind]. eexists. split; [done|].
  assert (Hl : Z.of_nat (length (take (Z.to_nat (b - a + 1)) (drop (Z.to_nat a) p))) = b - a + 1) by (rewrite length_take, length_drop; lia). split_and!; [by apply Forall_take, Forall_drop|done|].
  intros i Hi. rewrite <- (take_drop (Z.to_nat a) p) at 2. assert (Hta : 8 * a = 8 * Z.of_nat (length (take (Z.to_nat a) p))) by (rewrite length_take; lia). rewrite Hta, bit_at_app_r by lia.
  rewrite <- (take_drop (Z.to_nat (b - a + 1)) (drop (Z.to_nat a) p)) at 2. by rewrite bit_at_app_l by lia.
Qed.

(** The result of a search in the bits from [lo] to [hi]: the position from the byte
    [st], for [by] bytes. *)
Definition found_at (lo hi pos st n : Z) : Prop :=
  (exists i, first_bit (bit_at p) bit lo (hi + 1) i /\ pos = i - 8 * st /\ 0 <= pos < 8 * n) \/
  (no_bit (bit_at p) bit lo (hi + 1) /\ pos = (if bit then -1 else 8 * n) /\ st + n = hi / 8 + 1 /\ 0 < n).

(** A search in the part of one byte from [a] to [b]. *)
Lemma part_ok addr c t a b lo hi : p !! Z.to_nat (lo / 8) = Some c -> 0 <= lo <= hi -> lo / 8 = hi / 8 -> a = lo mod 8 -> b = hi mod 8 -> urange 8 t ->
  (forall i, 0 <= i < 8 -> byte_bit t i = if (i <? a) || (b <? i) then negb bit else byte_bit c i) ->
  exists r, redisBitpos bit addr [t] = Some r /\ found_at lo hi r (lo / 8) 1 /\ (r = -1 \/ r = 8 <-> no_bit (bit_at p) bit lo (hi + 1)).
Proof.
  intros Hc Hlo Hsame Ea Eb Ht Hbits. destruct (div_split lo) as [El Ml]. destruct (div_split hi) as [Eh Mh]. assert (H0 : 0 <= lo / 8) by (apply Z.div_pos; lia).
  assert (Hp : forall i, 0 <= i < 8 -> bit_at p (8 * (lo / 8) + i) = byte_bit c i) by (intros i Hi; rewrite <- (bit_at_byte p (Z.to_nat (lo / 8)) c i) by done; f_equal; lia).
  destruct (single_ok addr t Ht) as (r & -> & H). exists r. split; [done|]. destruct H as [(H1 & H2 & H3)|[H1 H2]].
  - rewrite Hbits in H2 by lia. destruct ((r <? a) || (b <? r)) eqn:E; [by destruct bit|]. apply orb_false_elim in E as [E1 E2]. apply Z.ltb_ge in E1, E2.
    assert (Hf : first_bit (bit_at p) bit lo (hi + 1) (8 * (lo / 8) + r)).
    { split_and!; [lia|lia|by rewrite Hp by lia|]. intros j Hj. replace j with (8 * (lo / 8) + (j - 8 * (lo / 8))) by lia. rewrite Hp by lia. specialize (H3 (j - 8 * (lo / 8)) ltac:(lia)). rewrite Hbits in H3 by lia.
      rewrite (proj2 (Z.ltb_ge _ a)), (proj2 (Z.ltb_ge b _)) in H3 by lia. done. }
    split; [left; eexists; split_and!; [exact Hf|lia|lia|lia]|]. split; [lia|]. intros Hno. exfalso. destruct Hf as (F1 & F2 & _). by apply (Hno _ F1).
  - assert (Hno : no_bit (bit_at p) bit lo (hi + 1)).
    { intros j Hj. replace j with (8 * (lo / 8) + (j - 8 * (lo / 8))) by lia. rewrite Hp by lia. specialize (H1 (j - 8 * (lo / 8)) ltac:(lia)). rewrite Hbits in H1 by lia.
      rewrite (proj2 (Z.ltb_ge _ a)), (proj2 (Z.ltb_ge b _)) in H1 by lia. done. }
    split; [right; split_and!; [done|by destruct bit|lia|lia]|]. split; [done|]. intros _. rewrite H2. destruct bit; lia.
Qed.

Lemma found_extend lo mid hi pos st n : lo <= mid <= hi + 1 -> no_bit (bit_at p) bit lo mid -> found_at mid hi pos st n -> found_at lo hi pos st n.
Proof.
  intros Hm Hno [(i & (H1 & H2 & H3) & H4)|(H1 & H2)]; [left|right].
  - exists i. split; [|done]. split_and!; [lia|lia|done|]. intros j Hj. destruct (Z.ltb_spec j mid); [apply Hno; lia|apply H3; lia].
  - split; [|done]. intros j Hj. destruct (Z.ltb_spec j mid); [apply Hno; lia|apply H1; lia].
Qed.

Lemma last_ok addr addr2 start hi : 0 <= 8 * start <= hi -> hi < 8 * Z.of_nat (length p) ->
  exists pos st n, bitpos_last bit addr addr2 p (hi / 8) (last_mask (hi mod 8)) start (hi / 8 - start + 1) = Some (pos, st, n) /\ found_at (8 * start) hi pos st n.
Proof.
  intros Hs Hhi. destruct (div_split hi) as [Eh Mh]. assert (Hd : 0 <= start <= hi / 8) by lia. unfold bitpos_last. destruct (mask_zero (hi mod 8) Mh) as [_ Hz]. rewrite Hz.
  set (nb := hi / 8 - start + 1). set (one := if negb (hi mod 8 =? 7) then 1 else 0).
  assert (Hpart : forall st, st = hi / 8 -> 8 * start <= 8 * st -> no_bit (bit_at p) bit (8 * start) (8 * st) -> exists pos, (e ← p !! Z.to_nat (hi / 8); pos ← redisBitpos bit addr2 [u8 (if bit then Z.land e (Z.lnot (last_mask (hi mod 8))) else Z.lor e (last_mask (hi mod 8)))]; Some (pos, st, 1)) = Some (pos, st, 1) /\
    found_at (8 * start) hi pos st 1).
  { intros st -> Hle Hno. destruct (lookup_lt_is_Some_2 p (Z.to_nat (hi / 8)) ltac:(lia)) as [e He]. rewrite He. cbn [mbind option_bind]. fold (clear e (last_mask (hi mod 8))).
    assert (E8 : 8 * (hi / 8) / 8 = hi / 8) by (rewrite Z.mul_comm; by rewrite Z.div_mul by lia). assert (M8 : (8 * (hi / 8)) mod 8 = 0) by (rewrite Z.mul_comm; by rewrite Z.mod_mul by lia).
    pose proof (Forall_lookup_1 _ _ _ _ p_bytes He) as Hb. cbn in Hb.
    destruct (part_ok addr2 e (clear e (last_mask (hi mod 8))) 0 (hi mod 8) (8 * (hi / 8)) hi) as (r & -> & Hf & _); [by rewrite E8|lia|done|done|done|apply clear_range| |].
    - intros i Hi. rewrite (proj2 (clear_bits e (hi mod 8) i Hb Mh Hi)). rewrite (proj2 (Z.ltb_ge i 0)) by lia. done.
    - exists r. split; [done|]. rewrite E8 in Hf. by apply (found_extend _ (8 * (hi / 8))); [lia| |]. }
  assert (Hcur : nb - one = hi / 8 - one - start + 1) by (unfold nb; lia). assert (Hone : one = if hi mod 8 =? 7 then 0 else 1) by (unfold one; by destruct (hi mod 8 =? 7)).
  destruct (Z.gtb_spec (nb - one) 0) as [Hgt|Hle].
  - destruct (slice_ok start (start + (nb - one) - 1)) as (s & -> & Hsb & Hsl & Hbits); [lia|destruct (Z.eqb_spec (hi mod 8) 7); lia|]. cbn [mbind option_bind]. destruct (bitpos_ok (addr + start) s Hsb) as (r & -> & Hr). cbn [mbind option_bind].
    replace (start + (nb - one) - 1 - start + 1) with (nb - one) in * by lia. rewrite Hsl in Hr. rewrite Z.shiftl_mul_pow2 by lia. change (2 ^ 3) with 8.
    destruct Hr as [(R1 & R2 & R3)|[R1 R2]].
    + assert (Hfirst : first_bit (bit_at p) bit (8 * start) (hi + 1) (8 * start + r)).
      { split_and!; [lia|destruct (Z.eqb_spec (hi mod 8) 7); lia|by rewrite <- Hbits by lia|]. intros j Hj. replace j with (8 * start + (j - 8 * start)) by lia. rewrite <- Hbits by lia. apply R3. lia. }
      rewrite (proj2 (Z.eqb_neq r (-1))), (proj2 (Z.eqb_neq r ((nb - one) * 8))) by lia. cbn [negb andb]. rewrite orb_true_r. eexists _, _, _. split; [done|]. left. eexists. split_and!; [exact Hfirst|lia|lia|destruct (hi mod 8 =? 7); lia].
    + assert (Hno : no_bit (bit_at p) bit (8 * start) (8 * start + 8 * (nb - one))).
      { intros j Hj. replace j with (8 * start + (j - 8 * start)) by lia. rewrite <- Hbits by lia. apply R1. lia. }
      assert (Hr : negb (r =? -1) && negb (r =? (nb - one) * 8) = false) by (rewrite R2; destruct bit; lia). rewrite Hr, orb_false_r. destruct (Z.eqb_spec (hi mod 8) 7) as [E7|E7].
      * rewrite (proj2 (Z.eqb_eq nb (nb - one))) by lia. eexists _, _, _. split; [done|]. right. split_and!; [|by rewrite R2; destruct bit; lia|unfold nb; lia|lia]. replace (hi + 1) with (8 * start + 8 * (nb - one)) by lia. done.
      * rewrite (proj2 (Z.eqb_neq nb (nb - one))) by lia. replace (nb - (nb - one)) with 1 by lia. destruct (Hpart (start + (nb - one))) as (pos & -> & Hf); [unfold nb; lia|lia|by replace (8 * (start + (nb - one))) with (8 * start + 8 * (nb - one)) by lia|]. by eexists _, _, _.
  - cbn [mbind option_bind]. assert (Enb : nb = 1) by (destruct (hi mod 8 =? 7); unfold nb in *; lia). rewrite Enb. destruct (Hpart start) as (pos & -> & Hf); [unfold nb in Enb; lia|lia|intros j Hj; lia|]. by eexists _, _, _.
Qed.

Lemma search_range_ok addr addr2 lo hi : 0 <= lo <= hi -> hi < 8 * Z.of_nat (length p) ->
  exists pos st n, bitpos_search bit addr addr2 p (lo / 8) (hi / 8) (first_mask (lo mod 8)) (last_mask (hi mod 8)) = Some (pos, st, n) /\ found_at lo hi pos st n.
Proof.
  intros Hlo Hhi. destruct (div_split lo) as [El Ml]. destruct (div_split hi) as [Eh Mh]. assert (Hd : 0 <= lo / 8 <= hi / 8) by (split; [apply Z.div_pos; lia|apply Z.div_le_mono; lia]).
  unfold bitpos_search. destruct (mask_zero (lo mod 8) Ml) as [Hz1 _]. destruct (mask_zero (hi mod 8) Mh) as [_ Hz2]. rewrite Hz1, Hz2. destruct (Z.eqb_spec (lo mod 8) 0) as [E0|E0]; cbn [negb].
  { destruct (last_ok addr addr2 (lo / 8) hi) as (pos & st & n & -> & Hf); [lia|done|]. eexists _, _, _. split; [done|]. by replace lo with (8 * (lo / 8)) by lia. }
  destruct (lookup_lt_is_Some_2 p (Z.to_nat (lo / 8)) ltac:(lia)) as [c Hc]. rewrite Hc. cbn [mbind option_bind]. pose proof (Forall_lookup_1 _ _ _ _ p_bytes Hc) as Hb. cbn in Hb.
  fold (clear c (first_mask (lo mod 8))). set (t1 := clear c (first_mask (lo mod 8))). fold (clear t1 (last_mask (hi mod 8))). assert (Ht1 : urange 8 t1) by apply clear_range.
  assert (Hb1 : forall i, 0 <= i < 8 -> byte_bit t1 i = if i <? lo mod 8 then negb bit else byte_bit c i) by (intros i Hi; apply (clear_bits c (lo mod 8) i Hb Ml Hi)).
  destruct (Z.eqb_spec (hi / 8 - lo / 8 + 1) 1) as [E1|E1].
  - rewrite andb_true_r. cbn [orb]. destruct (part_ok addr2 c (if negb (hi mod 8 =? 7) then clear t1 (last_mask (hi mod 8)) else t1) (lo mod 8) (hi mod 8) lo hi) as (r & -> & Hf & _); [done|done|lia|done|done|destruct (negb (hi mod 8 =? 7)); [apply clear_range|done]| |].
    + intros i Hi. destruct (Z.eqb_spec (hi mod 8) 7) as [E7|E7]; cbn [negb].
      * rewrite Hb1 by done. rewrite E7, (proj2 (Z.ltb_ge 7 i)) by lia. by rewrite orb_false_r.
      * rewrite (proj2 (clear_bits t1 (hi mod 8) i Ht1 Mh Hi)), Hb1 by done. by destruct (i <? lo mod 8), (hi mod 8 <? i).
    + cbn [mbind option_bind]. rewrite E1. by eexists _, _, _.
  - rewrite andb_false_r. cbn [orb]. assert (Hend : lo / 8 * 8 + 7 <= hi) by lia.
    assert (E2 : (8 * (lo / 8) + 7) / 8 = lo / 8) by (symmetry; apply (Z.div_unique _ _ _ 7); lia). assert (M2 : (8 * (lo / 8) + 7) mod 8 = 7) by (symmetry; apply (Z.mod_unique _ _ (lo / 8)); lia).
    destruct (part_ok addr2 c t1 (lo mod 8) 7 lo (8 * (lo / 8) + 7)) as (r & -> & Hf & Hno); [done|lia|done|done|done|done|intros i Hi; rewrite Hb1 by done; rewrite (proj2 (Z.ltb_ge 7 i)) by lia; by rewrite orb_false_r|].
    cbn [mbind option_bind]. destruct (negb (r =? -1) && negb (r =? 8)) eqn:Er.
    + eexists _, _, _. split; [done|]. destruct Hf as [(i & (F1 & F2 & F3) & F4)|(F1 & F2 & _)].
      * left. exists i. split_and!; [split_and!; [lia|lia|done|done]|lia|lia|lia].
      * rewrite F2 in Er. by destruct bit.
    + assert (Hn : no_bit (bit_at p) bit lo (8 * (lo / 8) + 7 + 1)) by (apply Hno; apply andb_false_iff in Er as [Er|Er]; apply negb_false_iff, Z.eqb_eq in Er; [by left|by right]).
      replace (hi / 8 - lo / 8 + 1 - 1) with (hi / 8 - (lo / 8 + 1) + 1) by lia. destruct (last_ok addr addr2 (lo / 8 + 1) hi) as (pos & st & n & -> & Hf2); [lia|done|]. eexists _, _, _. split; [done|].
      apply (found_extend _ (8 * (lo / 8 + 1))); [lia|by replace (8 * (lo / 8 + 1)) with (8 * (lo / 8) + 7 + 1) by lia|done].
Qed.

End Search.

(** * The command *)

Definition bitpos_spec (f : Z -> bool) (bit : bool) (strlen : Z) (args : bitpos_args) : Z :=
  let '(lo, hi) := match args with Whole => (0, 8 * strlen - 1) | From start => bit_range strlen start (strlen - 1) false | Between start stop isbit => bit_range strlen start stop isbit end in
  match find_bit f bit lo (Z.to_nat (hi - lo + 1)) with
  | Some i => i
  | None => match args with Between _ _ _ => -1 | _ => if bit || (hi <? lo) then -1 else 8 * strlen end
  end.

Lemma finish_ok (bit : bool) p lo hi pos st n (given : bool) : 0 <= lo <= hi -> found_at bit p lo hi pos st n ->
  (if given && negb bit && (pos =? Z.shiftl n 3) then -1 else if negb (pos =? -1) then pos + Z.shiftl st 3 else pos) =
  match find_bit (bit_at p) bit lo (Z.to_nat (hi - lo + 1)) with Some i => i | None => if bit || given then -1 else 8 * (hi / 8 + 1) end.
Proof.
  intros Hlo H. rewrite !Z.shiftl_mul_pow2 by lia. change (2 ^ 3) with 8. assert (Ehi : lo + Z.of_nat (Z.to_nat (hi - lo + 1)) = hi + 1) by lia. destruct H as [(i & Hf & -> & Hp)|(Hno & -> & Hsum & Hn)].
  - rewrite (find_bit_first _ _ _ _ i) by (by rewrite Ehi). rewrite (proj2 (Z.eqb_neq _ (n * 8))), (proj2 (Z.eqb_neq _ (-1))) by lia. rewrite andb_false_r. cbn [negb]. lia.
  - rewrite find_bit_none by (by rewrite Ehi). destruct bit; cbn [negb andb orb].
    + rewrite andb_false_r. done.
    + rewrite andb_true_r. rewrite (proj2 (Z.eqb_eq (8 * n) (n * 8))) by lia. rewrite andb_true_r. destruct given; [done|]. rewrite (proj2 (Z.eqb_neq _ (-1))) by lia. cbn [negb]. lia.
Qed.

Lemma range_end n start : 0 <= n -> (bit_range n start (n - 1) false).2 = 8 * n - 1.
Proof. intros Hn. unfold bit_range. cbn [snd]. destruct (Z.ltb_spec (n - 1) 0); lia. Qed.

(** Searching for a bit: BITPOS gives the position of the first bit with the value in
    the range, for indexes of bits and of bytes, or -1 when there is none; without an
    end of the range, a string of ones is followed by a zero.  The search by words
    never reads out of the string, never reaches the panic at its end, and does not
    depend on the alignment. *)
Theorem bitpos_exact bit addr addr2 p args : bytes_ok p -> Z.of_nat (length p) < 2 ^ 60 ->
  bitposCommand bit addr addr2 (Some p) args = Some (bitpos_spec (bit_at p) bit (Z.of_nat (length p)) args) /\ bitposCommand bit addr addr2 None args = Some (if bit then -1 else 0).
Proof.
  intros Hp Hl. split; [|done]. unfold bitposCommand, bitpos_spec. rewrite length_assert by done. replace (guard _) with (Some tt) by (by destruct args). cbn [mbind option_bind]. set (n := Z.of_nat (length p)).
  assert (Hmain : forall lo hi rs re m1 m2 (given : bool) none, 0 <= lo -> hi < 8 * n -> (rs <= re <-> lo <= hi) -> (lo <= hi -> rs = lo / 8 /\ re = hi / 8 /\ m1 = first_mask (lo mod 8) /\ m2 = last_mask (hi mod 8)) ->
    (lo <= hi -> (if bit || given then -1 else 8 * (hi / 8 + 1)) = none) -> (hi < lo -> none = -1) ->
    (if rs >? re then Some (-1) else '(pos, start, bytes) ← bitpos_search bit addr addr2 p rs re m1 m2; if given && negb bit && (pos =? Z.shiftl bytes 3) then Some (-1) else Some (if negb (pos =? -1) then pos + Z.shiftl start 3 else pos)) =
    Some (match find_bit (bit_at p) bit lo (Z.to_nat (hi - lo + 1)) with Some i => i | None => none end)).
  { intros lo hi rs re m1 m2 given none Hlo Hhi Hiff Heq Hnone Hempty. destruct (Z.gtb_spec rs re) as [Hgt|Hle]; [replace (Z.to_nat (hi - lo + 1)) with 0%nat by lia; cbn [find_bit]; rewrite Hempty by lia; done|].
    destruct (Heq ltac:(lia)) as (-> & -> & -> & ->). destruct (search_range_ok bit p Hp addr addr2 lo hi) as (pos & st & k & -> & Hf); [lia|done|]. cbn [mbind option_bind].
    rewrite <- Hnone by lia. rewrite <- (finish_ok bit p lo hi pos st k given) by (done || lia). by destruct (given && _ && _). }
  destruct args as [|start|start stop isbit].
  - apply (Hmain 0 (8 * n - 1) 0 (n - 1) 0 0 false); [lia|lia|lia| | |].
    + intros H. assert (E1 : (8 * n - 1) / 8 = n - 1) by (symmetry; apply (Z.div_unique _ _ _ 7); lia). assert (E2 : (8 * n - 1) mod 8 = 7) by (symmetry; apply (Z.mod_unique _ _ (n - 1)); lia). by rewrite E1, E2.
    + intros H. assert (E1 : (8 * n - 1) / 8 = n - 1) by (symmetry; apply (Z.div_unique _ _ _ 7); lia). rewrite E1, (proj2 (Z.ltb_ge _ 0)) by lia. rewrite !orb_false_r. destruct bit; lia.
    + intros H. rewrite (proj2 (Z.ltb_lt _ 0)) by lia. by rewrite orb_true_r.
  - pose proof (normalize_ok n start (n - 1) false ltac:(lia)) as Hn. pose proof (range_end n start ltac:(lia)) as He. destruct (bit_range _ _ _ _) as [lo hi]. destruct (normalize _ _ _ _) as [rs re m1 m2]. cbn [r_start r_end r_first_mask r_last_mask snd] in *. destruct Hn as (H1 & H2 & H3 & H4).
    apply (Hmain lo hi rs re m1 m2 false); [done|done|done|done| |].
    + intros H. rewrite (proj2 (Z.ltb_ge hi lo)) by lia. rewrite !orb_false_r. assert (E1 : hi / 8 = n - 1) by (symmetry; apply (Z.div_unique _ _ _ 7); lia). rewrite E1. destruct bit; lia.
    + intros H. rewrite (proj2 (Z.ltb_lt hi lo)) by lia. by rewrite orb_true_r.
  - pose proof (normalize_ok n start stop isbit ltac:(lia)) as Hn. destruct (bit_range _ _ _ _) as [lo hi]. destruct (normalize _ _ _ _) as [rs re m1 m2]. cbn [r_start r_end r_first_mask r_last_mask] in Hn. destruct Hn as (H1 & H2 & H3 & H4).
    apply (Hmain lo hi rs re m1 m2 true); [done|done|done|done| |done]. intros _. by rewrite orb_true_r.
Qed.

Lemma bitpos_exact_witness : bitposCommand false 5 3 (Some [255; 253; 0]) (Between 3 (-9) true) = Some (bitpos_spec (bit_at [255; 253; 0]) false 3 (Between 3 (-9) true)) /\
  bitposCommand false 5 3 None (Between 3 (-9) true) = Some 0.
Proof. apply (bitpos_exact false 5 3 [255; 253; 0] (Between 3 (-9) true)); [repeat constructor; by vm_compute|by vm_compute]. Defined.

(** * Single bits *)

Lemma getbit_ok p bitoffset : 0 <= bitoffset -> getbitCommand (Some p) bitoffset = b2z (bit_at p bitoffset).
Proof.
  intros Ho. unfold getbitCommand, bit_at. rewrite shift3, land7. destruct (p !! _) as [b|]; [|done]. pose proof (Z.mod_pos_bound bitoffset 8 ltac:(lia)).
  rewrite <- (bit_test b) by lia. rewrite Z.shiftl_1_l, uwrap_small; [done|]. split; [lia|apply Z.pow_lt_mono_r; lia].
Qed.

Lemma setbit_ok o bitoffset on : bytes_ok (default [] o) -> 0 <= bitoffset ->
  exists p, setbitCommand o bitoffset on = Some (p, b2z (bit_at (default [] o) bitoffset)) /\ bitoffset < 8 * Z.of_nat (length p) /\ forall i, 0 <= i -> bit_at p i = if i =? bitoffset then on else bit_at (default [] o) i.
Proof.
  intros Hp Ho. unfold setbitCommand. rewrite shift3, land7. set (old := default [] o) in *. set (byte := Z.to_nat (bitoffset / 8)). set (p := grow_zero old (byte + 1)). pose proof (Z.mod_pos_bound bitoffset 8 ltac:(lia)) as Hm.
  assert (Hg : same_bits (bit_at p) (bit_at old)) by apply grow_zero_bits. assert (Hpb : bytes_ok p) by (apply Forall_app; split; [done|apply Forall_replicate; by vm_compute]).
  destruct (lookup_lt_is_Some_2 p byte) as [b Hb]; [unfold p, grow_zero; rewrite length_app, length_replicate; lia|]. rewrite Hb. cbn [mbind option_bind]. pose proof (Forall_lookup_1 _ _ _ _ Hpb Hb) as Hbr. cbn in Hbr.
  assert (Hbit : negb (Z.land b (Z.shiftl 1 (7 - bitoffset mod 8)) =? 0) = bit_at old bitoffset).
  { rewrite <- Hg by done. unfold bit_at. fold byte. rewrite Hb. rewrite <- (bit_test b) by lia. rewrite Z.shiftl_1_l, uwrap_small; [done|]. split; [lia|apply Z.pow_lt_mono_r; lia]. }
  rewrite Hbit. destruct (new_byte b (7 - bitoffset mod 8) on Hbr ltac:(lia)) as [Hx1 Hx2]. rewrite land_255 in Hx2. assert (Hlen : bitoffset < 8 * Z.of_nat (length p)) by (pose proof (Z.div_mod bitoffset 8 ltac:(lia)); apply lookup_lt_Some in Hb; unfold byte in Hb; assert (0 <= bitoffset / 8) by (apply Z.div_pos; lia); lia).
  destruct (bool_decide _ || negb _) eqn:E.
  - eexists. split_and!; [done|by rewrite length_insert|]. intros i Hi. rewrite <- Hg by done. apply (insert_bit p byte b _ bitoffset on i Hb Ho Hi eq_refl). exact Hx2.
  - eexists. split_and!; [done|done|]. intros i Hi. rewrite Hg by done. destruct (Z.eqb_spec i bitoffset) as [->|]; [|done]. apply orb_false_elim in E as [_ E]. apply negb_false_iff, eqb_prop in E. done.
Qed.

(** A string of bits with one bit changed. *)
Definition set_bit (f : Z -> bool) (offset : Z) (on : bool) (i : Z) : bool := if i =? offset then on else f i.

(** SETBIT and GETBIT: SETBIT replies what GETBIT would, and after it GETBIT reads the
    new bit at this offset and what it read before at every other one, the string being
    extended with zeroes as needed and a missing key being an empty string. *)
Theorem setbit_getbit o bitoffset on : bytes_ok (default [] o) -> 0 <= bitoffset ->
  exists p, setbitCommand o bitoffset on = Some (p, getbitCommand o bitoffset) /\ bitoffset < 8 * Z.of_nat (length p) /\
    forall i, 0 <= i -> getbitCommand o i = b2z (bit_at (default [] o) i) /\ getbitCommand (Some p) i = b2z (set_bit (bit_at (default [] o)) bitoffset on i).
Proof.
  intros Hp Ho. destruct (setbit_ok o bitoffset on Hp Ho) as (p & He & Hl & Hb). assert (Hget : forall i, 0 <= i -> getbitCommand o i = b2z (bit_at (default [] o) i)) by (intros i Hi; destruct o; [by apply getbit_ok|done]).
  exists p. rewrite He, Hget by done. split_and!; [done|done|]. intros i Hi. split; [by apply Hget|]. by rewrite getbit_ok, Hb by done.
Qed.

Lemma setbit_getbit_witness : exists p, setbitCommand (Some [7]) 21 true = Some (p, 0) /\ 21 < 8 * Z.of_nat (length p) /\
  forall i, 0 <= i -> getbitCommand (Some [7]) i = b2z (bit_at [7] i) /\ getbitCommand (Some p) i = b2z (set_bit (bit_at [7]) 21 true i).
Proof. apply (setbit_getbit (Some [7]) 21 true); [repeat constructor; by vm_compute|lia]. Defined.

End BitposSpec.
