(* ===== verification/Bitop.v ===== *)
(** The BITOP command of bitops.c: the path by registers of 256 bits, the path by words of
    64 bits, and the loop by bytes.

    A block is 32 bytes: one register of 256 bits, or four words of 64 bits.  An access
    out of a string and a failed assertion are [None]. *)

From S2P Require Import Prelude Bits.

Module Bitop.

Inductive bitop := BITOP_AND | BITOP_OR | BITOP_XOR | BITOP_NOT | BITOP_DIFF | BITOP_DIFF1 | BITOP_ANDOR | BITOP_ONE.

Definition is_diff (op : bitop) : bool := match op with BITOP_DIFF | BITOP_DIFF1 | BITOP_ANDOR => true | _ => false end.

(** * Blocks *)

(** [n] words of [w] bytes at [off]. *)
Fixpoint load_words (w n : nat) (m : bytes) (off : nat) : option (list Z) :=
  match n with
  | O => Some []
  | S n => b ← load m off w; ws ← load_words w n m (off + w); Some (le_val b :: ws)
  end.

Fixpoint store_words (w : nat) (m : bytes) (off : nat) (ws : list Z) : option bytes :=
  match ws with
  | [] => Some m
  | x :: ws => m ← store m off (le_bytes w x); store_words w m (off + w) ws
  end.

(** The body of the first loop on the words of the result and of the keys but the first. *)
Definition block_main (op : bitop) (bits : Z) (lres : list Z) (keys : list (list Z)) : list Z :=
  match op with
  | BITOP_AND => foldl (zip_with Z.land) lres keys
  | BITOP_OR | BITOP_DIFF | BITOP_DIFF1 | BITOP_ANDOR => foldl (zip_with Z.lor) lres keys
  | BITOP_XOR => foldl (zip_with Z.lxor) lres keys
  | BITOP_NOT => map (fun x => uwrap bits (Z.lnot x)) lres
  | BITOP_ONE =>
    let '(lres, common) := foldl (fun '(lres, common) key => (zip_with Z.lxor lres key, zip_with Z.lor common (zip_with Z.land lres key))) (lres, replicate (length lres) 0) keys in
    zip_with (fun x c => Z.land x (uwrap bits (Z.lnot c))) lres common
  end.

(** The second loop, with the words of the first key. *)
Definition block_final (op : bitop) (bits : Z) (lres first : list Z) : list Z :=
  match op with
  | BITOP_DIFF => zip_with (fun x f => Z.land f (uwrap bits (Z.lnot x))) lres first
  | BITOP_DIFF1 => zip_with (fun x f => Z.land (uwrap bits (Z.lnot f)) x) lres first
  | BITOP_ANDOR => zip_with (fun x f => Z.land f x) lres first
  | _ => lres
  end.

Definition step : nat := 32.

(** [while(minlen >= step)]: the result, and the bytes processed. *)
Fixpoint main_loop (op : bitop) (w n fuel : nat) (res : bytes) (keys : list bytes) (j minlen : nat) : option (bytes * nat) :=
  if negb (step <=? minlen)%nat then Some (res, j)
  else match fuel with
  | O => None
  | S fuel =>
    lres ← load_words w n res j;
    lkeys ← mapM (fun key => load_words w n key j) keys;
    res ← store_words w res j (block_main op (8 * Z.of_nat w) lres lkeys);
    main_loop op w n fuel res keys (j + step) (minlen - step)
  end.

(** [for (i = 0; i < processed; i += step)]. *)
Fixpoint final_loop (op : bitop) (w n fuel : nat) (res first : bytes) (i processed : nat) : option bytes :=
  if negb (bool_decide (i < processed)%nat) then Some res
  else match fuel with
  | O => None
  | S fuel =>
    lres ← load_words w n res i;
    lfirst ← load_words w n first i;
    res ← store_words w res i (block_final op (8 * Z.of_nat w) lres lfirst);
    final_loop op w n fuel res first (i + step) processed
  end.

(** The path by blocks, for a [minlen] that has one at least. *)
Definition fast_path (op : bitop) (w n : nat) (res : bytes) (first : bytes) (keys : list bytes) (minlen : nat) : option (bytes * nat) :=
  res ← (if is_diff op then Some res else b ← load first 0 minlen; store res 0 b);
  '(res, processed) ← main_loop op w n minlen res keys 0 minlen;
  if is_diff op then res ← final_loop op w n processed res first 0 processed; Some (res, processed) else Some (res, processed).

Definition bitopCommandAVX (op : bitop) (res first : bytes) (keys : list bytes) (minlen : nat) : option (bytes * nat) :=
  if (minlen <? step)%nat then Some (res, 0%nat) else fast_path op 32 1 res first keys minlen.

(** * Bytes *)

(** The loop on the keys but the first at one byte, which stops when nothing can change. *)
Fixpoint byte_loop (op : bitop) (bs : list Z) (output disjunction common_bits : Z) : Z * Z * Z :=
  match bs with
  | [] => (output, disjunction, common_bits)
  | byte :: bs =>
    let '(output, disjunction, common_bits, skip) :=
      match op with
      | BITOP_AND => let output := Z.land output byte in (output, disjunction, common_bits, output =? 0)
      | BITOP_OR => let output := Z.lor output byte in (output, disjunction, common_bits, output =? 255)
      | BITOP_XOR => (Z.lxor output byte, disjunction, common_bits, false)
      | BITOP_DIFF | BITOP_DIFF1 | BITOP_ANDOR => let disjunction := Z.lor disjunction byte in (output, disjunction, common_bits, disjunction =? 255)
      | BITOP_ONE =>
        let common_bits := Z.lor common_bits (Z.land output byte) in
        let output := Z.lxor output byte in
        (Z.land output (u8 (Z.lnot common_bits)), disjunction, common_bits, common_bits =? 255)
      | BITOP_NOT => (output, disjunction, common_bits, false)
      end in
    if skip : bool then (output, disjunction, common_bits) else byte_loop op bs output disjunction common_bits
  end.

Definition byte_result (op : bitop) (first : Z) (bs : list Z) : Z :=
  let output := match op with BITOP_NOT => u8 (Z.lnot first) | _ => first end in
  let '(output, disjunction, _) := byte_loop op bs output 0 0 in
  match op with
  | BITOP_DIFF => Z.land output (u8 (Z.lnot disjunction))
  | BITOP_DIFF1 => Z.land (u8 (Z.lnot output)) disjunction
  | BITOP_ANDOR => Z.land output disjunction
  | _ => output
  end.

(** [(len[i] <= j) ? 0 : src[i][j]]. *)
Definition byte_or_zero (s : bytes) (j : nat) : Z := default 0 (s !! j).

(** [for (; j < maxlen; j++)]. *)
Fixpoint bytes_loop (op : bitop) (fuel : nat) (res first : bytes) (keys : list bytes) (j maxlen : nat) : option bytes :=
  if negb (bool_decide (j < maxlen)%nat) then Some res
  else match fuel with
  | O => None
  | S fuel =>
    res ← store res j [byte_result op (byte_or_zero first j) (map (fun key => byte_or_zero key j) keys)];
    bytes_loop op fuel res first keys (j + 1) maxlen
  end.

(** * The command *)

(** The lengths of the strings, a key that does not exist being [None]. *)
Fixpoint lengths (j : nat) (src : list (option bytes)) (minlen maxlen : nat) : nat * nat :=
  match src with
  | [] => (minlen, maxlen)
  | None :: src => lengths (j + 1) src 0 maxlen
  | Some s :: src =>
    lengths (j + 1) src (if (j =? 0)%nat || (length s <? minlen)%nat then length s else minlen) (if (maxlen <? length s)%nat then length s else maxlen)
  end.

(** The string for the target, which is empty when all the sources are; [avx2] is
    whether the processor has these instructions, [aligned] whether words have to be
    aligned. *)
Definition bitopCommand (avx2 aligned : bool) (op : bitop) (src : list (option bytes)) : option bytes :=
  let '(minlen, maxlen) := lengths 0 src 0 0 in
  if (maxlen =? 0)%nat then Some []
  else
    let res := replicate maxlen 0 in
    match map (default []) src with
    | [] => None
    | first :: keys =>
      '(res, j) ← (if avx2 then bitopCommandAVX op res first keys minlen else Some (res, 0%nat));
      _ ← guard (bool_decide (j <= minlen)%nat);
      let minlen := (minlen - j)%nat in
      '(res, j) ← (if negb aligned && (step <=? minlen)%nat then _ ← guard (negb avx2); fast_path op 8 4 res first keys minlen else Some (res, j));
      bytes_loop op (maxlen - j) res first keys j maxlen
    end.

End Bitop.
