(* ===== verification/BitopSpec.v ===== *)
(** The BITOP command: whichever path it takes, the result is the operation applied to
    the bits of the sources one position at a time, the shorter sources being followed
    by zeroes. *)

From S2P Require Import Prelude Bits Bitfield BitfieldSpec Bitmap BitmapSpec Bitop.

Module BitopSpec.
Import BitfieldSpec BitmapSpec Bitop.

(** * The specification *)

Definition ones (bs : list bool) : nat := length (filter (eq true) bs).

(** What an operation computes from the bits of the sources at one position. *)
Definition bit_op (op : bitop) (bs : list bool) : bool :=
  match op with
  | BITOP_AND => forallb id bs
  | BITOP_OR => existsb id bs
  | BITOP_XOR => Nat.odd (ones bs)
  | BITOP_NOT => negb (default false (head bs))
  | BITOP_DIFF => default false (head bs) && negb (existsb id (tail bs))
  | BITOP_DIFF1 => negb (default false (head bs)) && existsb id (tail bs)
  | BITOP_ANDOR => default false (head bs) && existsb id (tail bs)
  | BITOP_ONE => (ones bs =? 1)%nat
  end.

(** * The bits of bytes and of words *)

(** Bit [b] of byte [k], the lowest bit first, in a string followed by zeroes. *)
Definition mb (m : bytes) (k : nat) (b : Z) : bool := Z.testbit (byte_or_zero m k) b.

Lemma word_bit bs r b : bytes_ok bs -> (r < length bs)%nat -> 0 <= b < 8 -> Z.testbit (le_val bs) (8 * Z.of_nat r + b) = mb bs r b.
Proof.
  intros Hok. revert r. induction Hok as [|x bs Hx _ IH]; intros r Hr Hb; cbn [length le_val] in *; [lia|]. destruct r as [|r].
  - by rewrite testbit_low by (exact Hx || lia).
  - rewrite testbit_high by (exact Hx || lia). replace (8 * Z.of_nat (S r) + b - 8) with (8 * Z.of_nat r + b) by lia. rewrite IH by lia. done.
Qed.

Lemma le_bytes_bit w x r b : (r < w)%nat -> 0 <= b < 8 -> mb (le_bytes w x) r b = Z.testbit x (8 * Z.of_nat r + b).
Proof.
  intros Hr Hb. rewrite <- word_bit by (apply le_bytes_ok || rewrite ?le_bytes_length; lia). rewrite le_val_bytes. apply uwrap_bits. lia.
Qed.

Lemma store_bit m off bs m' k b : store m off bs = Some m' ->
  mb m' k b = if bool_decide (off <= k < off + length bs)%nat then mb bs (k - off) b else mb m k b.
Proof.
  unfold store, mb, byte_or_zero. case_decide as Hin; [|done]. intros [= <-].
  assert (Ht : length (take off m) = off) by (rewrite length_take; lia). case_bool_decide as Hk.
  - rewrite lookup_app_r, Ht, lookup_app_l by lia. done.
  - destruct (Nat.lt_ge_cases k off).
    + by rewrite lookup_app_l, lookup_take_lt by lia.
    + rewrite lookup_app_r, Ht, lookup_app_r, lookup_drop by lia. do 3 f_equal. lia.
Qed.

Lemma store_bytes_ok m off bs m' : bytes_ok m -> bytes_ok bs -> store m off bs = Some m' -> bytes_ok m'.
Proof. unfold store. case_decide; [|done]. intros Hm Hbs [= <-]. repeat apply Forall_app_2; auto using Forall_take, Forall_drop. Qed.

Lemma load_bit m off n bs k b : load m off n = Some bs -> (k < n)%nat -> mb bs k b = mb m (off + k) b.
Proof. unfold load, mb, byte_or_zero. case_decide; [|done]. intros [= <-] Hk. by rewrite lookup_take_lt, lookup_drop by lia. Qed.

Lemma load_bytes_ok m off n bs : bytes_ok m -> load m off n = Some bs -> bytes_ok bs.
Proof. unfold load. case_decide; [|done]. intros Hm [= <-]. by apply Forall_take, Forall_drop. Qed.

(** The words [ws] have the bits of the string from [off] on. *)
Definition words_at (w : nat) (m : bytes) (off : nat) (ws : list Z) : Prop :=
  forall q r b, (q < length ws)%nat -> (r < w)%nat -> 0 <= b < 8 -> mb m (off + q * w + r) b = Z.testbit (byte_or_zero ws q) (8 * Z.of_nat r + b).

Lemma load_words_ok w n m off : bytes_ok m -> (off + n * w <= length m)%nat ->
  exists ws, load_words w n m off = Some ws /\ length ws = n /\ words_at w m off ws.
Proof.
  intros Hm. revert off. induction n as [|n IH]; intros off Hlen; cbn [load_words]; [by exists []; split_and!; [..|intros q r b Hq; cbn in Hq; lia]|].
  assert (Hl := load_Some m off w ltac:(lia)). set (bs := take w (drop off m)) in *. rewrite Hl. cbn [mbind option_bind].
  pose proof (load_length _ _ _ _ Hl) as Hlb. pose proof (load_bytes_ok _ _ _ _ Hm Hl) as Hbs.
  destruct (IH (off + w)%nat ltac:(lia)) as (ws & -> & <- & Hws). cbn [mbind option_bind]. exists (le_val bs :: ws). split_and!; [done..|].
  intros [|q] r b Hq Hr Hb; cbn [length] in Hq.
  - cbn. rewrite word_bit by (done || lia). rewrite (load_bit _ _ _ _ _ _ Hl) by lia. f_equal. lia.
  - specialize (Hws q r b ltac:(lia) Hr Hb). replace (off + S q * w + r)%nat with (off + w + q * w + r)%nat by lia. exact Hws.
Qed.

Lemma store_words_ok w m off ws : (off + length ws * w <= length m)%nat ->
  exists m', store_words w m off ws = Some m' /\ length m' = length m /\ (bytes_ok m -> bytes_ok m') /\ words_at w m' off ws /\
    forall k b, ~ (off <= k < off + length ws * w)%nat -> mb m' k b = mb m k b.
Proof.
  revert m off. induction ws as [|x ws IH]; intros m off Hlen; cbn [store_words length] in *; [by exists m; split_and!; [..|intros q r b Hq; cbn in Hq; lia|]|].
  pose proof (store_Some m off (le_bytes w x) ltac:(rewrite le_bytes_length; lia)) as Hs. set (m1 := take off m ++ _) in *. clearbody m1. rewrite Hs. cbn [mbind option_bind].
  pose proof (store_length _ _ _ _ Hs) as Hl1. destruct (IH m1 (off + w)%nat ltac:(lia)) as (m' & -> & Hl & Hok & Hws & Hout). exists m'. split_and!; [done|lia| | |].
  - intros Hm. apply Hok. by apply (store_bytes_ok _ _ _ _ Hm (le_bytes_ok w x) Hs).
  - intros [|q] r b Hq Hr Hb; cbn [length] in Hq.
    + rewrite Hout, (store_bit _ _ _ _ _ _ Hs), bool_decide_true by (rewrite ?le_bytes_length; lia). rewrite <- (le_bytes_bit w) by lia. cbn. f_equal. lia.
    + specialize (Hws q r b ltac:(lia) Hr Hb). replace (off + S q * w + r)%nat with (off + w + q * w + r)%nat by lia. exact Hws.
  - intros k b Hk. rewrite Hout, (store_bit _ _ _ _ _ _ Hs), bool_decide_false by (rewrite ?le_bytes_length; lia). done.
Qed.

(** * The operations on blocks *)

(** The two loops of the paths by blocks on one bit. *)
Definition main_bit (op : bitop) (x : bool) (ys : list bool) : bool :=
  match op with
  | BITOP_AND => foldl andb x ys
  | BITOP_OR | BITOP_DIFF | BITOP_DIFF1 | BITOP_ANDOR => foldl orb x ys
  | BITOP_XOR => foldl xorb x ys
  | BITOP_NOT => negb x
  | BITOP_ONE => let '(x, c) := foldl (fun '(x, c) y => (xorb x y, orb c (andb x y))) (x, false) ys in x && negb c
  end.

Definition final_bit (op : bitop) (x f : bool) : bool :=
  match op with BITOP_DIFF => f && negb x | BITOP_DIFF1 => negb f && x | BITOP_ANDOR => f && x | _ => x end.

Lemma zip_cell f xs ys q : (q < length xs)%nat -> length ys = length xs -> byte_or_zero (zip_with f xs ys) q = f (byte_or_zero xs q) (byte_or_zero ys q).
Proof.
  intros Hq Hl. unfold byte_or_zero. destruct (lookup_lt_is_Some_2 xs q Hq) as [x Hx]. destruct (lookup_lt_is_Some_2 ys q ltac:(lia)) as [y Hy].
  by rewrite lookup_zip_with, Hx, Hy.
Qed.

Lemma zip_length (f : Z -> Z -> Z) xs ys : length ys = length xs -> length (zip_with f xs ys) = length xs.
Proof. intros Hl. rewrite length_zip_with. lia. Qed.

Lemma not_bit bits x i : 0 <= i < bits -> Z.testbit (uwrap bits (Z.lnot x)) i = negb (Z.testbit x i).
Proof. intros Hi. by rewrite uwrap_bits, Z.lnot_spec by lia. Qed.

(** An operation on words that is [g] on the bits [i]. *)
Lemma fold_bit f g i q keys : (forall x y, Z.testbit (f x y) i = g (Z.testbit x i) (Z.testbit y i)) ->
  forall xs, (q < length xs)%nat -> Forall (fun key => length key = length xs) keys ->
  length (foldl (zip_with f) xs keys) = length xs /\
  Z.testbit (byte_or_zero (foldl (zip_with f) xs keys) q) i = foldl g (Z.testbit (byte_or_zero xs q) i) (map (fun key => Z.testbit (byte_or_zero key q) i) keys).
Proof.
  intros Hf. induction keys as [|key keys IH]; intros xs Hq Hall; cbn [foldl map]; [done|]. apply Forall_cons in Hall as [Hl Hall].
  destruct (IH (zip_with f xs key)) as [H1 H2]; [by rewrite zip_length|by rewrite zip_length|]. split; [by rewrite H1, zip_length|].
  by rewrite H2, zip_cell, Hf.
Qed.

Lemma fold_one_bit i q keys : forall xs cs, (q < length xs)%nat -> length cs = length xs -> Forall (fun key => length key = length xs) keys ->
  let r := foldl (fun '(lres, common) key => (zip_with Z.lxor lres key, zip_with Z.lor common (zip_with Z.land lres key))) (xs, cs) keys in
  length r.1 = length xs /\ length r.2 = length xs /\
  (Z.testbit (byte_or_zero r.1 q) i, Z.testbit (byte_or_zero r.2 q) i) =
    foldl (fun '(x, c) y => (xorb x y, orb c (andb x y))) (Z.testbit (byte_or_zero xs q) i, Z.testbit (byte_or_zero cs q) i) (map (fun key => Z.testbit (byte_or_zero key q) i) keys).
Proof.
  induction keys as [|key keys IH]; intros xs cs Hq Hc Hall; cbn [foldl map]; [done|]. apply Forall_cons in Hall as [Hl Hall].
  assert (Hlx : length (zip_with Z.lxor xs key) = length xs) by (by apply zip_length). assert (Hla : length (zip_with Z.land xs key) = length xs) by (by apply zip_length).
  destruct (IH (zip_with Z.lxor xs key) (zip_with Z.lor cs (zip_with Z.land xs key))) as (H1 & H2 & H3); rewrite ?Hlx; [done|rewrite zip_length; congruence|done|].
  rewrite Hlx in H1, H2. split_and!; [done..|]. rewrite H3, !zip_cell by congruence. by rewrite Z.lxor_spec, Z.lor_spec, Z.land_spec.
Qed.

Lemma block_main_ok op bits xs keys q i : (q < length xs)%nat -> Forall (fun key => length key = length xs) keys -> 0 <= i < bits ->
  length (block_main op bits xs keys) = length xs /\
  Z.testbit (byte_or_zero (block_main op bits xs keys) q) i = main_bit op (Z.testbit (byte_or_zero xs q) i) (map (fun key => Z.testbit (byte_or_zero key q) i) keys).
Proof.
  intros Hq Hall Hi. destruct op; cbn [block_main main_bit].
  all: try (apply fold_bit; [intros; first [apply Z.land_spec|apply Z.lor_spec|apply Z.lxor_spec]|done..]).
  - split; [apply length_map|]. unfold byte_or_zero. rewrite list_lookup_fmap. destruct (lookup_lt_is_Some_2 xs q Hq) as [x ->]. by apply not_bit.
  - pose proof (fold_one_bit i q keys xs (replicate (length xs) 0) Hq (length_replicate _ _) Hall) as H. cbn zeta in H. destruct (foldl _ (xs, _) keys) as [ys cs].
    destruct H as (H1 & H2 & H3). cbn [fst snd] in *. assert (E : byte_or_zero (replicate (length xs) 0) q = 0) by (unfold byte_or_zero; by rewrite lookup_replicate_2).
    rewrite E, Z.bits_0 in H3. rewrite <- H3. split; [by rewrite zip_length; congruence|]. by rewrite zip_cell, Z.land_spec, not_bit by congruence.
Qed.

Lemma block_final_ok op bits xs ys q i : (q < length xs)%nat -> length ys = length xs -> 0 <= i < bits ->
  length (block_final op bits xs ys) = length xs /\
  Z.testbit (byte_or_zero (block_final op bits xs ys) q) i = final_bit op (Z.testbit (byte_or_zero xs q) i) (Z.testbit (byte_or_zero ys q) i).
Proof.
  intros Hq Hl Hi. destruct op; cbn [block_final final_bit]; try done; (split; [by apply zip_length|]); by rewrite zip_cell, Z.land_spec, ?not_bit.
Qed.

(** * The loops on blocks *)

Lemma words_bits w m off ws k b : words_at w m off ws -> (off <= k < off + length ws * w)%nat -> 0 <= b < 8 ->
  ((k - off) / w < length ws)%nat /\ 0 <= 8 * Z.of_nat ((k - off) mod w) + b < 8 * Z.of_nat w /\
  mb m k b = Z.testbit (byte_or_zero ws ((k - off) / w)) (8 * Z.of_nat ((k - off) mod w) + b).
Proof.
  intros Hws Hk Hb. assert (w <> 0)%nat by (intros ->; lia). assert (Hr : ((k - off) mod w < w)%nat) by (by apply Nat.mod_upper_bound).
  assert (Hq : ((k - off) / w < length ws)%nat) by (apply Nat.Div0.div_lt_upper_bound; lia). split; [done|]. split; [lia|]. rewrite <- Hws by done. f_equal.
  pose proof (Nat.div_mod_eq (k - off) w). lia.
Qed.

Lemma mapM_words w n j (keys : list bytes) : Forall bytes_ok keys -> Forall (fun key => j + n * w <= length key)%nat keys ->
  exists ls, mapM (fun key => load_words w n key j) keys = Some ls /\ Forall2 (fun key ws => length ws = n /\ words_at w key j ws) keys ls.
Proof.
  induction 1 as [|key keys Hk _ IH]; intros Hl; [by exists []|]. apply Forall_cons in Hl as [Hl1 Hl2].
  destruct (load_words_ok w n key j Hk Hl1) as (ws & H1 & H2 & H3). destruct (IH Hl2) as (ls & H4 & H5). exists (ws :: ls). cbn. rewrite H1. cbn. rewrite H4. cbn. split; [done|by constructor].
Qed.

Section Paths.
Context (op : bitop) (w n : nat) (Hblock : (n * w = step)%nat).

(** One block of the first loop. *)
Lemma main_block res keys j : bytes_ok res -> Forall bytes_ok keys -> (j + step <= length res)%nat -> Forall (fun key => j + step <= length key)%nat keys ->
  exists lres lkeys res', load_words w n res j = Some lres /\ mapM (fun key => load_words w n key j) keys = Some lkeys /\
    store_words w res j (block_main op (8 * Z.of_nat w) lres lkeys) = Some res' /\ bytes_ok res' /\ length res' = length res /\
    forall k b, 0 <= b < 8 -> mb res' k b = if bool_decide (j <= k < j + step)%nat then main_bit op (mb res k b) (map (fun key => mb key k b) keys) else mb res k b.
Proof.
  intros Hres Hkeys Hlen Hlens. rewrite <- Hblock in *. destruct (load_words_ok w n res j Hres Hlen) as (lres & H1 & <- & Hlres). destruct (mapM_words w _ j keys Hkeys Hlens) as (lkeys & H2 & Hlkeys).
  assert (Hall : Forall (fun ws => length ws = length lres) lkeys) by (clear -Hlkeys; induction Hlkeys as [|? ? ? ? [] ? IH]; by constructor).
  assert (Hlm : length (block_main op (8 * Z.of_nat w) lres lkeys) = length lres).
  { unfold step in Hblock. apply (block_main_ok op (8 * Z.of_nat w) lres lkeys 0 0); [lia|done|lia]. }
  destruct (store_words_ok w res j (block_main op (8 * Z.of_nat w) lres lkeys)) as (res' & H3 & Hl & Hok & Hin & Hout); [by rewrite Hlm|].
  exists lres, lkeys, res'. split_and!; [done..|by apply Hok|done|]. intros k b Hb. rewrite Hlm in Hout. case_bool_decide as Hk; [|by apply Hout].
  destruct (words_bits w res' j _ k b Hin ltac:(by rewrite Hlm) Hb) as (Hq & Hi & ->). rewrite Hlm in Hq. rewrite (proj2 (block_main_ok op _ lres lkeys _ _ Hq Hall Hi)).
  f_equal; [by rewrite (proj2 (proj2 (words_bits w res j lres k b Hlres Hk Hb)))|]. clear -Hlkeys Hk Hb.
  induction Hlkeys as [|key ws keys lkeys [Hl Hws] _ IH]; cbn [map]; [done|]. rewrite IH. f_equal. rewrite <- Hl in Hk. by rewrite (proj2 (proj2 (words_bits w key j ws k b Hws Hk Hb))).
Qed.

Lemma main_loop_ok fuel : forall res keys j minlen, (minlen <= fuel)%nat -> bytes_ok res -> Forall bytes_ok keys -> (j + minlen <= length res)%nat -> Forall (fun key => j + minlen <= length key)%nat keys ->
  exists res' t, main_loop op w n fuel res keys j minlen = Some (res', j + t * step)%nat /\ (t * step <= minlen < t * step + step)%nat /\ bytes_ok res' /\ length res' = length res /\
    forall k b, 0 <= b < 8 -> mb res' k b = if bool_decide (j <= k < j + t * step)%nat then main_bit op (mb res k b) (map (fun key => mb key k b) keys) else mb res k b.
Proof.
  induction fuel as [|fuel IH]; intros res keys j minlen Hfuel Hres Hkeys Hlen Hlens; cbn [main_loop]; destruct (Nat.leb_spec step minlen) as [Hs|Hs]; cbn [negb].
  1: unfold step in Hs; lia.
  1,3: exists res, 0%nat; split_and!; [f_equal; f_equal; lia|lia|lia|done|done|intros k b _; by rewrite bool_decide_false by lia].
  destruct (main_block res keys j) as (lres & lkeys & res1 & -> & Hk & H3 & Hok1 & Hl1 & Hb1); [done|done|lia|eapply Forall_impl; [exact Hlens|cbn; lia]|].
  cbn [mbind option_bind] in *. rewrite Hk. cbn [mbind option_bind]. rewrite H3. cbn [mbind option_bind].
  destruct (IH res1 keys (j + step)%nat (minlen - step)%nat) as (res' & t & -> & Ht & Hok & Hl & Hb); [unfold step in *; lia|done|done|lia|eapply Forall_impl; [exact Hlens|cbn; lia]|].
  exists res', (S t). split_and!; [f_equal; f_equal; lia|lia|lia|done|lia|]. intros k b Hkb. rewrite Hb, Hb1 by done. repeat case_bool_decide; (done || lia).
Qed.

Lemma final_loop_ok t : forall fuel res first i, (t <= fuel)%nat -> bytes_ok res -> bytes_ok first -> (i + t * step <= length res)%nat -> (i + t * step <= length first)%nat ->
  exists res', final_loop op w n fuel res first i (i + t * step) = Some res' /\ bytes_ok res' /\ length res' = length res /\
    forall k b, 0 <= b < 8 -> mb res' k b = if bool_decide (i <= k < i + t * step)%nat then final_bit op (mb res k b) (mb first k b) else mb res k b.
Proof.
  induction t as [|t IH]; intros fuel res first i Hfuel Hres Hfirst Hl1 Hl2.
  { exists res. split_and!; [|done|done|intros k b _; by rewrite bool_decide_false by lia]. destruct fuel; cbn [final_loop]; by rewrite bool_decide_false by lia. }
  destruct fuel as [|fuel]; [lia|]. cbn [final_loop]. rewrite bool_decide_true by (unfold step; lia). cbn [negb].
  destruct (load_words_ok w n res i Hres ltac:(lia)) as (lres & -> & Hn1 & Hlres). destruct (load_words_ok w n first i Hfirst ltac:(lia)) as (lfirst & -> & Hn2 & Hlf). cbn [mbind option_bind].
  assert (Hlm : length (block_final op (8 * Z.of_nat w) lres lfirst) = n) by (rewrite <- Hn1; unfold step in Hblock; apply (block_final_ok op (8 * Z.of_nat w) lres lfirst 0 0); lia).
  destruct (store_words_ok w res i (block_final op (8 * Z.of_nat w) lres lfirst)) as (res1 & -> & Hlr & Hok1 & Hin & Hout); [rewrite Hlm; lia|]. cbn [mbind option_bind].
  destruct (IH fuel res1 first (i + step)%nat) as (res' & He & Hok & Hl & Hb); [lia|by apply Hok1|done|lia|lia|].
  exists res'. replace (i + S t * step)%nat with (i + step + t * step)%nat by lia. split_and!; [done|done|lia|]. intros k b Hkb. rewrite Hb by done. case_bool_decide as Hk.
  { rewrite (bool_decide_true (i <= k < _)%nat) by lia. by rewrite Hout by (rewrite Hlm; lia). }
  case_bool_decide as Hk'; [|apply Hout; rewrite Hlm; lia]. assert (Hk2 : (i <= k < i + length lres * w)%nat) by (rewrite Hn1; lia).
  destruct (words_bits w res i lres k b Hlres Hk2 Hkb) as (Hq & Hi & ->). rewrite (proj2 (proj2 (words_bits w first i lfirst k b Hlf ltac:(rewrite Hn2; lia) Hkb))).
  rewrite (proj2 (proj2 (words_bits w res1 i _ k b Hin ltac:(rewrite Hlm; lia) Hkb))). apply block_final_ok; (done || lia).
Qed.

End Paths.

(** * The operations on bits *)

Lemma ones_cons x ys : ones (x :: ys) = ((if x then 1 else 0) + ones ys)%nat.
Proof. unfold ones. rewrite filter_cons. case_decide; destruct x; done. Qed.

Lemma fold_and x ys : foldl andb x ys = forallb id (x :: ys).
Proof. revert x. induction ys as [|y ys IH]; intros x; cbn [foldl]; [by destruct x|]. rewrite IH. cbn. by rewrite andb_assoc. Qed.

Lemma fold_or x ys : foldl orb x ys = existsb id (x :: ys).
Proof. revert x. induction ys as [|y ys IH]; intros x; cbn [foldl]; [by destruct x|]. rewrite IH. cbn. by rewrite orb_assoc. Qed.

Lemma fold_xor x ys : foldl xorb x ys = Nat.odd (ones (x :: ys)).
Proof.
  revert x. induction ys as [|y ys IH]; intros x; cbn [foldl]; [by destruct x|]. rewrite IH, !ones_cons. rewrite !Nat.odd_add. by destruct x, y, (Nat.odd (ones ys)).
Qed.

(** The pass of the paths by blocks keeps the parity and whether two bits were seen. *)
Lemma fold_one ys : forall m, foldl (fun '(x, c) y => (xorb x y, orb c (andb x y))) (Nat.odd m, (1 <? m)%nat) ys = (Nat.odd (m + ones ys), (1 <? m + ones ys)%nat).
Proof.
  induction ys as [|y ys IH]; intros m; cbn [foldl]; [by rewrite Nat.add_0_r|]. rewrite ones_cons, Nat.add_assoc, <- IH. f_equal. destruct y; [|by rewrite andb_false_r, orb_false_r, xorb_false_r, Nat.add_0_r].
  rewrite andb_true_r, Nat.odd_add. f_equal. destruct m as [|[|m]]; [done..|]. by destruct (Nat.odd (S (S m))).
Qed.

(** The pass by bytes keeps whether exactly one was seen and whether two were. *)
Definition one_step (s : bool * bool) (y : bool) : bool * bool := let c := orb s.2 (andb s.1 y) in (xorb s.1 y && negb c, c).

Lemma fold_one_step ys : forall m, foldl one_step ((m =? 1)%nat, (1 <? m)%nat) ys = ((m + ones ys =? 1)%nat, (1 <? m + ones ys)%nat).
Proof.
  induction ys as [|y ys IH]; intros m; cbn [foldl]; [by rewrite Nat.add_0_r|]. rewrite ones_cons, Nat.add_assoc, <- IH. f_equal. unfold one_step. cbn [fst snd].
  destruct y, m as [|[|m]]; cbn; rewrite ?Nat.add_0_r; done.
Qed.

Lemma bool_odd (x : bool) : (x, false) = (Nat.odd (if x then 1 else 0), (1 <? (if x then 1 else 0))%nat).
Proof. by destruct x. Qed.
Lemma bool_one (x : bool) : (x, false) = (((if x then 1 else 0) =? 1)%nat, (1 <? (if x then 1 else 0))%nat).
Proof. by destruct x. Qed.

Lemma odd_one m : Nat.odd m && negb (1 <? m)%nat = (m =? 1)%nat.
Proof. destruct m as [|[|m]]; [done..|]. apply andb_false_r. Qed.

Lemma block_bit op f ys : (if is_diff op then final_bit op (main_bit op false ys) f else main_bit op f ys) = bit_op op (f :: ys).
Proof.
  destruct op; cbn [is_diff final_bit main_bit bit_op head tail default]; rewrite ?fold_and, ?fold_or, ?fold_xor; try done.
  rewrite bool_odd, fold_one, ones_cons. apply odd_one.
Qed.

(** * The loop on bytes *)

Lemma bits_255 i : 0 <= i < 8 -> Z.testbit 255 i = true.
Proof. intros Hi. change 255 with (Z.ones 8). by apply Z.ones_spec_low. Qed.

Lemma fold_absorb {A B} (g : A -> B -> A) a ys : (forall y, g a y = a) -> foldl g a ys = a.
Proof. intros H. induction ys as [|y ys IH]; cbn [foldl]; [done|]. by rewrite H. Qed.

(** The loop stops early only when the other sources cannot change the byte. *)
Lemma byte_loop_ok op i bs : 0 <= i < 8 -> forall o d c, let r := byte_loop op bs o d c in let ys := map (fun y => Z.testbit y i) bs in
  match op with
  | BITOP_AND => Z.testbit r.1.1 i = foldl andb (Z.testbit o i) ys
  | BITOP_OR => Z.testbit r.1.1 i = foldl orb (Z.testbit o i) ys
  | BITOP_XOR => Z.testbit r.1.1 i = foldl xorb (Z.testbit o i) ys
  | BITOP_NOT => r.1.1 = o
  | BITOP_DIFF | BITOP_DIFF1 | BITOP_ANDOR => r.1.1 = o /\ Z.testbit r.1.2 i = foldl orb (Z.testbit d i) ys
  | BITOP_ONE => (Z.testbit r.1.1 i, Z.testbit r.2 i) = foldl one_step (Z.testbit o i, Z.testbit c i) ys
  end.
Proof.
  intros Hi. induction bs as [|y bs IH]; intros o d c; [by destruct op|].
  destruct op; cbn [byte_loop map foldl]; [..|set (c' := Z.lor c (Z.land o y)); set (o' := Z.land (Z.lxor o y) (u8 (Z.lnot c')))].
  5-7: destruct (Z.eqb_spec (Z.lor d y) 255) as [E|E]; [|rewrite <- Z.lor_spec; apply IH]; cbn [fst snd]; split; [done|]; rewrite <- Z.lor_spec, E, bits_255 by done; symmetry; by apply fold_absorb.
  - destruct (Z.eqb_spec (Z.land o y) 0) as [E|E]; [|rewrite IH; by rewrite Z.land_spec]. cbn [fst]. rewrite <- Z.land_spec, E, Z.bits_0. symmetry. by apply fold_absorb.
  - destruct (Z.eqb_spec (Z.lor o y) 255) as [E|E]; [|rewrite IH; by rewrite Z.lor_spec]. cbn [fst]. rewrite <- Z.lor_spec, E, bits_255 by done. symmetry. by apply fold_absorb.
  - rewrite IH. by rewrite Z.lxor_spec.
  - by rewrite IH.
  - assert (Hstep : one_step (Z.testbit o i, Z.testbit c i) (Z.testbit y i) = (Z.testbit o' i, Z.testbit c' i)).
    { unfold one_step, o', c'. cbn [fst snd]. by rewrite Z.land_spec, not_bit, Z.lxor_spec, !Z.lor_spec, Z.land_spec by done. }
    rewrite Hstep. destruct (Z.eqb_spec c' 255) as [E|E]; [|apply IH]. cbn [fst snd]. symmetry. apply fold_absorb. intros b.
    unfold o'. rewrite Z.land_spec, not_bit, E, bits_255, andb_false_r by done. by destruct b.
Qed.

Lemma byte_result_bit op f bs i : 0 <= i < 8 -> Z.testbit (byte_result op f bs) i = bit_op op (Z.testbit f i :: map (fun y => Z.testbit y i) bs).
Proof.
  intros Hi. unfold byte_result. set (o := match op with BITOP_NOT => _ | _ => f end). pose proof (byte_loop_ok op i bs Hi o 0 0) as H. cbn zeta in H. rewrite !Z.bits_0 in H.
  destruct (byte_loop op bs o 0 0) as [[o' d'] c']. unfold o in H. cbn [fst snd] in H. destruct op; cbn [bit_op head tail default].
  - by rewrite H, fold_and.
  - by rewrite H, fold_or.
  - by rewrite H, fold_xor.
  - rewrite H. by apply not_bit.
  - destruct H as [-> H]. by rewrite Z.land_spec, not_bit, H, fold_or by done.
  - destruct H as [-> H]. by rewrite Z.land_spec, not_bit, H, fold_or by done.
  - destruct H as [-> H]. by rewrite Z.land_spec, H, fold_or.
  - rewrite bool_one, fold_one_step, <- ones_cons in H. by injection H.
Qed.

Lemma byte_result_ok op f bs : urange 8 f -> Forall (urange 8) bs -> urange 8 (byte_result op f bs).
Proof.
  intros Hf Hbs. assert (H0 : urange 8 0) by (unfold urange; lia).
  assert (Hloop : forall o d c, urange 8 o -> urange 8 d -> urange 8 c -> urange 8 (byte_loop op bs o d c).1.1 /\ urange 8 (byte_loop op bs o d c).1.2).
  { induction Hbs as [|y bs Hy _ IH]; intros o d c Ho Hd Hc; cbn [byte_loop]; [done|].
    destruct op; cbn beta iota zeta; repeat match goal with |- context [if ?b then _ else _] => destruct b end; try apply IH; cbn [fst snd]; split_and?; auto 6 using urange_land_r, urange_lor, urange_lxor, urange_land_l with lia. }
  unfold byte_result. set (o := match op with BITOP_NOT => _ | _ => f end). assert (Ho : urange 8 o) by (unfold o; destruct op; try done; by apply uwrap_range).
  specialize (Hloop o 0 0 Ho H0 H0). destruct (byte_loop op bs o 0 0) as [[o' d'] c']. cbn [fst snd] in Hloop. destruct Hloop. destruct op; try done; by apply urange_land_r + apply urange_land_l.
Qed.

Lemma byte_or_zero_ok m k : bytes_ok m -> urange 8 (byte_or_zero m k).
Proof. intros Hm. unfold byte_or_zero. destruct (m !! k) eqn:E; [by apply (Forall_lookup_1 _ _ _ _ Hm E)|]. cbn. unfold urange. lia. Qed.

Lemma bytes_loop_ok op fuel : forall res first keys j maxlen, (maxlen - j <= fuel)%nat -> length res = maxlen -> bytes_ok res -> bytes_ok first -> Forall bytes_ok keys ->
  exists res', bytes_loop op fuel res first keys j maxlen = Some res' /\ bytes_ok res' /\ length res' = maxlen /\
    forall k b, 0 <= b < 8 -> (k < maxlen)%nat -> mb res' k b = if bool_decide (j <= k)%nat then bit_op op (mb first k b :: map (fun key => mb key k b) keys) else mb res k b.
Proof.
  induction fuel as [|fuel IH]; intros res first keys j maxlen Hfuel Hl Hres Hfirst Hkeys; cbn [bytes_loop]; destruct (decide (j < maxlen)%nat) as [Hj|Hj].
  1: lia.
  1,3: rewrite bool_decide_false by done; exists res; split_and!; [done..|]; intros k b _ Hk; by rewrite bool_decide_false by lia.
  rewrite bool_decide_true by done. cbn [negb]. set (x := byte_result op _ _).
  assert (Hx : urange 8 x) by (apply byte_result_ok; [by apply byte_or_zero_ok|]; apply Forall_map; eapply Forall_impl; [exact Hkeys|]; intros key; apply byte_or_zero_ok).
  pose proof (store_Some res j [x] ltac:(cbn; lia)) as Hs. set (res1 := take j res ++ _) in *. clearbody res1. rewrite Hs. cbn [mbind option_bind].
  destruct (IH res1 first keys (j + 1)%nat maxlen) as (res' & -> & Hok & Hl' & Hb); [lia|by rewrite (store_length _ _ _ _ Hs)|by apply (store_bytes_ok _ _ _ _ Hres (proj2 (Forall_singleton _ _) Hx) Hs)|done|done|].
  exists res'. split_and!; [done..|]. intros k b Hb8 Hk. rewrite Hb, (store_bit _ _ _ _ _ _ Hs) by done. cbn [length]. repeat case_bool_decide; try (done || lia).
  assert (k = j) as -> by lia. rewrite Nat.sub_diag. unfold mb at 1. cbn. unfold x. rewrite byte_result_bit, map_map by done. done.
Qed.

(** * The command *)

Lemma lengths_ok src : forall j mn mx, exists mn', lengths j src mn mx = (mn', foldr Nat.max mx (map length (map (default []) src))) /\
  Forall (fun s => mn' <= length s)%nat (map (default []) src) /\ (j <> 0%nat -> mn' <= mn)%nat.
Proof.
  induction src as [|[s|] src IH]; intros j mn mx; cbn [lengths map foldr from_option id]; [by exists mn| |].
  - destruct (IH (j + 1)%nat (if (j =? 0)%nat || (length s <? mn)%nat then length s else mn) (if (mx <? length s)%nat then length s else mx)) as (mn' & -> & Hall & Hmn). specialize (Hmn ltac:(lia)).
    exists mn'. split_and!.
    + f_equal. destruct (Nat.ltb_spec mx (length s)); generalize (map length (map (default []) src)); intros ls; induction ls as [|l ls IHl]; cbn [foldr]; unfold id in *; lia.
    + constructor; [|done]. destruct (Nat.eqb_spec j 0), (Nat.ltb_spec (length s) mn); cbn [orb] in Hmn; lia.
    + intros Hj. destruct (Nat.eqb_spec j 0), (Nat.ltb_spec (length s) mn); cbn [orb] in Hmn; lia.
  - destruct (IH (j + 1)%nat 0%nat mx) as (mn' & -> & Hall & Hmn). specialize (Hmn ltac:(lia)). exists mn'. split_and!; [by f_equal; lia|by constructor; [cbn; lia|]|lia].
Qed.

Lemma zeroes_bit n k b : mb (replicate n 0) k b = false.
Proof.
  unfold mb, byte_or_zero. destruct (replicate n 0 !! k) eqn:E; [|apply Z.bits_0]. apply lookup_replicate in E as [-> _]. apply Z.bits_0.
Qed.

(** Both paths by blocks compute the operation on the bytes they report as processed. *)
Lemma fast_path_ok op w n res first keys minlen : (n * w = step)%nat -> bytes_ok res -> (forall k b, mb res k b = false) -> bytes_ok first -> Forall bytes_ok keys ->
  (minlen <= length res)%nat -> (minlen <= length first)%nat -> Forall (fun key => minlen <= length key)%nat keys ->
  exists res' t, fast_path op w n res first keys minlen = Some (res', t * step)%nat /\ (t * step <= minlen < t * step + step)%nat /\ bytes_ok res' /\ length res' = length res /\
    forall k b, 0 <= b < 8 -> (k < t * step)%nat -> mb res' k b = bit_op op (mb first k b :: map (fun key => mb key k b) keys).
Proof.
  intros Hblock Hres Hzero Hfirst Hkeys Hl Hlf Hlk. unfold fast_path.
  assert (H0 : exists res0, (if is_diff op then Some res else b ← load first 0 minlen; store res 0 b) = Some res0 /\ bytes_ok res0 /\ length res0 = length res /\
    forall k b, (k < minlen)%nat -> mb res0 k b = if is_diff op then false else mb first k b).
  { destruct (is_diff op); [by exists res|]. assert (Hload := load_Some first 0 minlen Hlf). set (bs := take minlen _) in *. clearbody bs. rewrite Hload. cbn [mbind option_bind].
    pose proof (load_length _ _ _ _ Hload) as Hlb. pose proof (store_Some res 0 bs ltac:(lia)) as Hs. set (res0 := take 0 res ++ _) in *. clearbody res0. exists res0. split_and!; [done|by apply (store_bytes_ok _ _ _ _ Hres (load_bytes_ok _ _ _ _ Hfirst Hload) Hs)|by apply (store_length _ _ _ _ Hs)|].
    intros k b Hk. rewrite (store_bit _ _ _ _ _ _ Hs), bool_decide_true, Nat.sub_0_r by lia. by apply (load_bit _ _ _ _ _ _ Hload). }
  destruct H0 as (res0 & -> & Hok0 & Hl0 & Hb0). cbn [mbind option_bind].
  destruct (main_loop_ok op w n Hblock minlen res0 keys 0 minlen) as (res1 & t & -> & Ht & Hok1 & Hl1 & Hb1); [lia|done|done|lia|done|]. cbn [mbind option_bind Nat.add].
  assert (Hb1' : forall k b, 0 <= b < 8 -> (k < t * step)%nat -> mb res1 k b = main_bit op (if is_diff op then false else mb first k b) (map (fun key => mb key k b) keys)).
  { intros k b Hb Hk. rewrite Hb1, bool_decide_true, Hb0 by (done || lia). done. }
  destruct (is_diff op) eqn:Ed.
  - destruct (final_loop_ok op w n Hblock t (t * step) res1 first 0) as (res' & He & Hok & Hl' & Hb); [unfold step; lia|done|done|lia|lia|]. cbn [Nat.add] in He. rewrite He. cbn [mbind option_bind].
    exists res', t. split_and!; [done|lia|lia|done|congruence|]. intros k b Hb8 Hk. rewrite <- block_bit, Ed, Hb, bool_decide_true, Hb1' by (done || lia). done.
  - exists res1, t. split_and!; [done|lia|lia|done|congruence|]. intros k b Hb8 Hk. rewrite <- block_bit, Ed. by apply Hb1'.
Qed.

Lemma bitop_bytes avx2 aligned op src first keys : map (default []) src = first :: keys -> Forall bytes_ok (first :: keys) ->
  exists res, bitopCommand avx2 aligned op src = Some res /\ bytes_ok res /\ length res = foldr Nat.max 0%nat (map length (first :: keys)) /\
    forall k b, 0 <= b < 8 -> (k < length res)%nat -> mb res k b = bit_op op (map (fun key => mb key k b) (first :: keys)).
Proof.
  intros Hsrc Hok. unfold bitopCommand. destruct (lengths_ok src 0 0 0) as (minlen & -> & Hmin & _). rewrite Hsrc in *. set (maxlen := foldr _ _ _).
  destruct (Nat.eqb_spec maxlen 0) as [E|E]; [exists []; split_and!; [done|constructor|done|intros k b _ Hk; cbn in Hk; lia]|].
  pose proof Hok as Hok'. apply Forall_cons in Hok' as [Hfirst Hkeys]. apply Forall_cons in Hmin as [Hm1 Hm2]. assert (Hmm : (minlen <= maxlen)%nat) by (unfold maxlen; cbn [map foldr]; lia).
  set (res0 := replicate maxlen 0). assert (Hres0 : bytes_ok res0) by (apply Forall_replicate; unfold urange; lia). assert (Hl0 : length res0 = maxlen) by apply length_replicate.
  assert (Hfast : forall w n, (n * w = step)%nat -> _) by exact (fun w n H => fast_path_ok op w n res0 first keys minlen H Hres0 (zeroes_bit maxlen) Hfirst Hkeys ltac:(lia) Hm1 Hm2).
  set (done_to := fun j res => bytes_ok res /\ length res = maxlen /\ forall k b, 0 <= b < 8 -> (k < j)%nat -> mb res k b = bit_op op (mb first k b :: map (fun key => mb key k b) keys)).
  assert (Hdone0 : done_to 0%nat res0) by (unfold done_to; split_and!; [done..|intros; lia]).
  assert (Havx : exists res j, (if avx2 then bitopCommandAVX op res0 first keys minlen else Some (res0, 0%nat)) = Some (res, j) /\ (j <= minlen)%nat /\ done_to j res /\ (if avx2 then minlen < j + step else j = 0 /\ res = res0)%nat).
  { destruct avx2; [|exists res0, 0%nat; split_and!; (done || lia)]. unfold bitopCommandAVX. destruct (Nat.ltb_spec minlen step); [exists res0, 0%nat; split_and!; (done || lia)|].
    destruct (Hfast 32%nat 1%nat eq_refl) as (res & t & -> & Ht & H1 & H2 & H3). exists res, (t * step)%nat. split_and!; [done|lia|unfold done_to; split_and!; (done || congruence)|lia]. }
  destruct Havx as (res1 & j1 & -> & Hj1 & Hdone1 & Havx). cbn [mbind option_bind]. rewrite bool_decide_true by done. cbn [guard mbind option_bind].
  assert (Hwords : exists res j, (if negb aligned && (step <=? minlen - j1)%nat then _ ← guard (negb avx2); fast_path op 8 4 res1 first keys (minlen - j1) else Some (res1, j1)) = Some (res, j) /\ done_to j res).
  { destruct (negb aligned && (step <=? minlen - j1)%nat) eqn:Eb; [|by exists res1, j1]. apply andb_true_iff in Eb as [_ Eb]. apply Nat.leb_le in Eb. destruct avx2; [lia|]. destruct Havx as [-> ->].
    cbn [negb guard mbind option_bind]. rewrite Nat.sub_0_r. destruct (Hfast 8%nat 4%nat eq_refl) as (res & t & -> & Ht & H1 & H2 & H3). exists res, (t * step)%nat. unfold done_to. split_and!; (done || congruence). }
  destruct Hwords as (res2 & j2 & He & Hok2 & Hl2 & Hb2). cbn [mbind option_bind] in He. rewrite He. cbn [mbind option_bind].
  destruct (bytes_loop_ok op (maxlen - j2) res2 first keys j2 maxlen) as (res & -> & Hokr & Hlr & Hb); [done..|]. exists res. split_and!; [done..|].
  intros k b Hb8 Hk. rewrite Hb by lia. cbn [map]. case_bool_decide; [done|]. apply Hb2; [done|lia].
Qed.

Lemma bit_at_mb m i : bit_at m i = mb m (Z.to_nat (i / 8)) (7 - i mod 8).
Proof. unfold bit_at, mb, byte_or_zero. destruct (m !! _); cbn; [done|by rewrite Z.bits_0]. Qed.

(** C26. BITOP is exact: for every operation and all sources (a missing key is the empty
    string), with the instructions on registers of 256 bits or without, on machines that
    need aligned accesses or not, the command stays in the strings and passes its
    assertions, the result is as long as the longest source, and each of its bits is the
    operation on the bits of the sources at that position, where a shorter source is
    followed by zeroes. *)
Theorem bitop_exact avx2 aligned op src : Forall bytes_ok (map (default []) src) ->
  exists res, bitopCommand avx2 aligned op src = Some res /\ bytes_ok res /\ length res = foldr Nat.max 0%nat (map length (map (default []) src)) /\
    forall i, 0 <= i < 8 * Z.of_nat (length res) -> bit_at res i = bit_op op (map (fun key => bit_at key i) (map (default []) src)).
Proof.
  intros Hok. destruct (map (default []) src) as [|first keys] eqn:E.
  { assert (src = []) as -> by (by destruct src). exists []. split_and!; [done|constructor|done|]. intros i Hi. cbn in Hi. lia. }
  destruct (bitop_bytes avx2 aligned op src first keys E Hok) as (res & H1 & H2 & H3 & H4). exists res. split_and!; [done..|].
  intros i Hi. rewrite bit_at_mb, H4; [|pose proof (Z.mod_pos_bound i 8); lia|pose proof (Z.div_lt_upper_bound i 8 (Z.of_nat (length res))); pose proof (Z.div_pos i 8); lia].
  f_equal. apply map_ext. intros key. symmetry. apply bit_at_mb.
Qed.

Lemma bitop_exact_witness : exists res, bitopCommand true false BITOP_ONE [Some (replicate 70 195); None; Some (replicate 40 165)] = Some res /\ bytes_ok res /\ length res = 70%nat /\
    forall i, 0 <= i < 8 * Z.of_nat (length res) -> bit_at res i = bit_op BITOP_ONE (map (fun key => bit_at key i) [replicate 70 195; []; replicate 40 165]).
Proof. apply (bitop_exact true false BITOP_ONE [Some (replicate 70 195); None; Some (replicate 40 165)]). apply (bool_decide_unpack _). vm_compute. exact I. Defined.

End BitopSpec.
