(* ===== verification/Rdb.v ===== *)
(** Strings in RDB files: the length encodings, the integer and LZF encodings and the plain
    form of strings, types, times and binary doubles of rdb.c.

    A stream that is written is the bytes written so far and the room that is left in the
    device ([rioWrite] fails when there is not enough); the functions also take a null
    stream, for which they only compute the size.  A stream that is read is the bytes that
    are left.  An access out of bounds in the compressor, the decompressor or a buffer is
    [None].  A report of corrupted data returns or ends the process ([Exited]), by the context
    the loading happens in. *)

From S2P Require Import Prelude Endian Util Lzf.

Module Rdb.
Import Util Lzf.

Section Rdb.
Context `{Host}.

(** * Writing *)

Record rio := mkRio { written : bytes; rio_room : nat }.

Definition rdbWriteRaw (rdb : option rio) (p : bytes) : option rio * Z :=
  match rdb with
  | Some r => if (rio_room r <? length p)%nat then (Some r, -1) else (Some (mkRio (written r ++ p) (rio_room r - length p)), Z.of_nat (length p))
  | None => (None, Z.of_nat (length p))
  end.

(** [if ((n = ...) == -1) return -1;] *)
Definition and_then (r : option rio * Z) (k : option rio -> Z -> option rio * Z) : option rio * Z := if r.2 =? -1 then (r.1, -1) else k r.1 r.2.

Definition rdbSaveType (rdb : option rio) (type : Z) : option rio * Z := rdbWriteRaw rdb [type].

Definition rdbSaveMillisecondTime (rdb : option rio) (t : Z) : option rio * Z := rdbWriteRaw rdb (memrev64ifbe (host_bytes 8 t)).

(** A double is its memory representation. *)
Definition rdbSaveBinaryDoubleValue (rdb : option rio) (val : bytes) : option rio * Z := rdbWriteRaw rdb (memrev64ifbe val).

Definition RDB_6BITLEN : Z := 0.
Definition RDB_14BITLEN : Z := 1.
Definition RDB_32BITLEN : Z := 0x80.
Definition RDB_64BITLEN : Z := 0x81.
Definition RDB_ENCVAL : Z := 3.
Definition RDB_LENERR : Z := 2 ^ 64 - 1.
Definition RDB_ENC_INT8 : Z := 0.
Definition RDB_ENC_INT16 : Z := 1.
Definition RDB_ENC_INT32 : Z := 2.
Definition RDB_ENC_LZF : Z := 3.

Definition htonl (v : Z) : Z := if big_endian then v else intrev32 v.
Definition htonu64 (v : Z) : Z := if big_endian then v else intrev64 v.

Definition rdbSaveLen (rdb : option rio) (len : Z) : option rio * Z :=
  if len <? Z.shiftl 1 6 then
    and_then (rdbWriteRaw rdb [u8 (Z.lor (Z.land len 255) (Z.shiftl RDB_6BITLEN 6))]) (fun rdb _ => (rdb, 1))
  else if len <? Z.shiftl 1 14 then
    and_then (rdbWriteRaw rdb [u8 (Z.lor (Z.land (Z.shiftr len 8) 255) (Z.shiftl RDB_14BITLEN 6)); Z.land len 255]) (fun rdb _ => (rdb, 2))
  else if len <=? 2 ^ 32 - 1 then
    and_then (rdbWriteRaw rdb [RDB_32BITLEN]) (fun rdb _ =>
    and_then (rdbWriteRaw rdb (host_bytes 4 (htonl len))) (fun rdb _ => (rdb, 1 + 4)))
  else
    and_then (rdbWriteRaw rdb [RDB_64BITLEN]) (fun rdb _ =>
    and_then (rdbWriteRaw rdb (host_bytes 8 (htonu64 len))) (fun rdb _ => (rdb, 1 + 8))).

(** The bytes stored in [enc]; none for a value that is not encoded. *)
Definition rdbEncodeInteger (value : Z) : bytes :=
  if (value >=? - Z.shiftl 1 7) && (value <=? Z.shiftl 1 7 - 1) then
    [Z.lor (Z.shiftl RDB_ENCVAL 6) RDB_ENC_INT8; Z.land value 255]
  else if (value >=? - Z.shiftl 1 15) && (value <=? Z.shiftl 1 15 - 1) then
    [Z.lor (Z.shiftl RDB_ENCVAL 6) RDB_ENC_INT16; Z.land value 255; Z.land (Z.shiftr value 8) 255]
  else if (value >=? - Z.shiftl 1 31) && (value <=? Z.shiftl 1 31 - 1) then
    [Z.lor (Z.shiftl RDB_ENCVAL 6) RDB_ENC_INT32; Z.land value 255; Z.land (Z.shiftr value 8) 255; Z.land (Z.shiftr value 16) 255; Z.land (Z.shiftr value 24) 255]
  else [].

Definition rdbTryIntegerEncoding (s : bytes) : bytes := match string2ll s with Some value => rdbEncodeInteger value | None => [] end.

Definition rdbSaveLzfBlob (rdb : option rio) (data : bytes) (compress_len original_len : Z) : option rio * Z :=
  and_then (rdbWriteRaw rdb [Z.lor (Z.shiftl RDB_ENCVAL 6) RDB_ENC_LZF]) (fun rdb n1 =>
  and_then (rdbSaveLen rdb compress_len) (fun rdb n2 =>
  and_then (rdbSaveLen rdb original_len) (fun rdb n3 =>
  and_then (rdbWriteRaw rdb data) (fun rdb n4 => (rdb, n1 + n2 + n3 + n4))))).

(** What is not in the code that is read: the memory a new block holds, the table of the
    compressor on the stack and the address of its input, and which allocations succeed. *)
Context (junk : nat -> bytes) (htab : Z -> Z) (in_data : Z) (can_alloc : Z -> bool).

Definition rdbSaveLzfStringObject (rdb : option rio) (s : bytes) : option (option rio * Z) :=
  let len := Z.of_nat (length s) in
  if len <=? 4 then Some (rdb, 0)
  else
    '(comprlen, out) ← lzf_compress htab in_data s (junk (length s - 4));
    if comprlen =? 0 then Some (rdb, 0)
    else data ← load out 0 (Z.to_nat comprlen); Some (rdbSaveLzfBlob rdb data comprlen len).

(** [rdb_compression] is the setting of the server. *)
Definition rdbSaveRawString (rdb_compression : bool) (rdb : option rio) (s : bytes) : option (option rio * Z) :=
  let len := Z.of_nat (length s) in
  let enc := if len <=? 11 then rdbTryIntegerEncoding s else [] in
  if negb (Z.of_nat (length enc) =? 0) then Some (and_then (rdbWriteRaw rdb enc) (fun rdb _ => (rdb, Z.of_nat (length enc))))
  else
    '(rdb, n) ← (if rdb_compression && (len >? 20) then rdbSaveLzfStringObject rdb s else Some (rdb, 0));
    if n =? -1 then Some (rdb, -1)
    else if n >? 0 then Some (rdb, n)
    else Some (and_then (rdbSaveLen rdb len) (fun rdb n =>
      if len >? 0 then and_then (rdbWriteRaw rdb s) (fun rdb _ => (rdb, n + len)) else (rdb, n))).

Definition rdbSaveLongLongAsStringObject (rdb : option rio) (value : Z) : option (option rio * Z) :=
  let enc := rdbEncodeInteger value in
  if Z.of_nat (length enc) >? 0 then Some (rdbWriteRaw rdb enc)
  else
    '(buf, enclen) ← ll2string (junk 32) 32 value;
    _ ← guard (enclen <? 32);
    data ← load buf 0 (Z.to_nat enclen);
    Some (and_then (rdbSaveLen rdb enclen) (fun rdb n1 => and_then (rdbWriteRaw rdb data) (fun rdb n2 => (rdb, n1 + n2)))).

(** A string object: an integer, or the bytes of a string. *)
Inductive sobj := IntObj (z : Z) | RawObj (s : bytes).

Definition rdbSaveStringObject (rdb_compression : bool) (rdb : option rio) (obj : sobj) : option (option rio * Z) :=
  match obj with
  | IntObj z => rdbSaveLongLongAsStringObject rdb z
  | RawObj s => rdbSaveRawString rdb_compression rdb s
  end.

(** * Reading *)

(** Why a loader returns [NULL]: there are no more bytes (or the length is [RDB_LENERR]), the
    input is corrupted and that was reported, or memory could not be allocated.  A report may
    also end the process. *)
Inductive load_error := IOError | CorruptRDB | NoMemory.

Inductive loaded (A : Type) := Loaded (a : A) (rest : bytes) | LoadFailed (e : load_error) | Exited.
Arguments Loaded {A}.
Arguments LoadFailed {A}.
Arguments Exited {A}.

(** What a loader does with what another one gives it. *)
Definition on_loaded {A B} (x : loaded A) (k : A -> bytes -> loaded B) : loaded B :=
  match x with Loaded a rest => k a rest | LoadFailed e => LoadFailed e | Exited => Exited end.

(** The identifier of [server.current_client] when there is one, [rdbCheckMode], and
    [rdbFileBeingLoaded] when it is set, as whether that file is a FIFO. *)
Record load_context := mkContext { current_client : option Z; rdbCheckMode : bool; rdbFileBeingLoaded : option bool }.

Definition CLIENT_ID_AOF : Z := 2 ^ 64 - 1.

Definition isRestoreContext (srv : load_context) : bool :=
  match current_client srv with None => false | Some id => negb (id =? CLIENT_ID_AOF) end.

Inductive report := ReportReturns | ReportExits.

(** The messages that are logged and printed are left out; [redis_check_rdb_main] without an
    open file ends the process. *)
Definition rdbReportError (srv : load_context) (corruption_error : bool) : report :=
  if isRestoreContext srv then ReportReturns
  else if rdbCheckMode srv then ReportExits
  else match rdbFileBeingLoaded srv with
  | Some fifo => if fifo : bool then ReportReturns else ReportExits
  | None => if corruption_error then ReportExits else ReportReturns
  end.

(** [rdbReportCorruptRDB(...); return an error;] *)
Definition rdbReportCorruptRDB {A} (srv : load_context) : loaded A :=
  match rdbReportError srv true with ReportReturns => LoadFailed CorruptRDB | ReportExits => Exited end.

Context (srv : load_context).

Definition rioRead (rdb : bytes) (len : Z) : loaded bytes :=
  if Z.of_nat (length rdb) <? len then LoadFailed IOError else Loaded (take (Z.to_nat len) rdb) (drop (Z.to_nat len) rdb).

Definition rdbLoadType (rdb : bytes) : loaded Z :=
  on_loaded (rioRead rdb 1) (fun b rest => Loaded (host_val b) rest).

Definition rdbLoadMillisecondTime (rdb : bytes) (rdbver : Z) : loaded Z :=
  on_loaded (rioRead rdb 8) (fun b rest => Loaded (s64 (host_val (if rdbver >=? 9 then memrev64ifbe b else b))) rest).

Definition rdbLoadBinaryDoubleValue (rdb : bytes) : loaded bytes :=
  on_loaded (rioRead rdb 8) (fun b rest => Loaded (memrev64ifbe b) rest).

(** [*isencoded] and [*lenptr]. *)
Definition rdbLoadLenByRef (rdb : bytes) : loaded (bool * Z) :=
  match rioRead rdb 1 with
  | Loaded [b0] rdb =>
    let type := Z.shiftr (Z.land b0 0xC0) 6 in
    if type =? RDB_ENCVAL then Loaded (true, Z.land b0 0x3F) rdb
    else if type =? RDB_6BITLEN then Loaded (false, Z.land b0 0x3F) rdb
    else if type =? RDB_14BITLEN then
      match rioRead rdb 1 with
      | Loaded [b1] rdb => Loaded (false, Z.lor (Z.shiftl (Z.land b0 0x3F) 8) b1) rdb
      | _ => LoadFailed IOError
      end
    else if b0 =? RDB_32BITLEN then
      on_loaded (rioRead rdb 4) (fun b rdb => Loaded (false, htonl (host_val b)) rdb)
    else if b0 =? RDB_64BITLEN then
      on_loaded (rioRead rdb 8) (fun b rdb => Loaded (false, htonu64 (host_val b)) rdb)
    else rdbReportCorruptRDB srv
  | _ => LoadFailed IOError
  end.

(** [RDB_LENERR] is returned for an error, and also when it is the length that is read;
    the callers fail on it. *)
Definition rdbLoadLen (rdb : bytes) : loaded (bool * Z) :=
  on_loaded (rdbLoadLenByRef rdb) (fun '(isencoded, len) rest => if len =? RDB_LENERR then LoadFailed IOError else Loaded (isencoded, len) rest).

(** What is asked for: an object, an object that may be an integer, or bytes (the flags
    for plain memory, a string and a hash field). *)
Inductive load_flags := RDB_LOAD_NONE | RDB_LOAD_ENC | RDB_LOAD_BYTES.

(** The bytes of the decimal string of [val], by [ll2string] in a buffer on the stack. *)
Definition decimal_string (val : Z) : option bytes :=
  '(buf, len) ← ll2string (junk (Z.to_nat LONG_STR_SIZE)) LONG_STR_SIZE val;
  load buf 0 (Z.to_nat len).

Definition rdbLoadIntegerObject (rdb : bytes) (enctype : Z) (flags : load_flags) : option (loaded sobj) :=
  let value :=
    if enctype =? RDB_ENC_INT8 then
      match rioRead rdb 1 with Loaded [e0] rdb => Loaded (s8 e0) rdb | _ => LoadFailed IOError end
    else if enctype =? RDB_ENC_INT16 then
      match rioRead rdb 2 with Loaded [e0; e1] rdb => Loaded (s16 (Z.lor e0 (Z.shiftl e1 8))) rdb | _ => LoadFailed IOError end
    else if enctype =? RDB_ENC_INT32 then
      match rioRead rdb 4 with
      | Loaded [e0; e1; e2; e3] rdb => Loaded (s32 (Z.lor (Z.lor (Z.lor e0 (Z.shiftl e1 8)) (Z.shiftl e2 16)) (Z.shiftl e3 24))) rdb
      | _ => LoadFailed IOError
      end
    else rdbReportCorruptRDB srv in
  match value with
  | LoadFailed e => Some (LoadFailed e)
  | Exited => Some Exited
  | Loaded val rdb =>
    match flags with
    | RDB_LOAD_ENC => Some (Loaded (IntObj val) rdb)
    | _ => s ← decimal_string val; Some (Loaded (RawObj s) rdb)
    end
  end.

Definition rdbLoadLzfStringObject (rdb : bytes) : option (loaded sobj) :=
  match rdbLoadLen rdb with
  | LoadFailed e => Some (LoadFailed e)
  | Exited => Some Exited
  | Loaded (_, clen) rdb =>
    match rdbLoadLen rdb with
    | LoadFailed e => Some (LoadFailed e)
    | Exited => Some Exited
    | Loaded (_, len) rdb =>
      if negb (can_alloc clen) || negb (can_alloc len) then Some (LoadFailed NoMemory)
      else match rioRead rdb clen with
      | LoadFailed e => Some (LoadFailed e)
      | Exited => Some Exited
      | Loaded c rdb =>
        '(n, val) ← lzf_decompress c (junk (Z.to_nat len));
        if negb (n =? len) then Some (rdbReportCorruptRDB srv) else Some (Loaded (RawObj val) rdb)
      end
    end
  end.

Definition rdbGenericLoadStringObject (rdb : bytes) (flags : load_flags) : option (loaded sobj) :=
  match rdbLoadLen rdb with
  | LoadFailed e => Some (LoadFailed e)
  | Exited => Some Exited
  | Loaded (isencoded, len) rdb =>
    if isencoded : bool then
      if (len =? RDB_ENC_INT8) || (len =? RDB_ENC_INT16) || (len =? RDB_ENC_INT32) then rdbLoadIntegerObject rdb len flags
      else if len =? RDB_ENC_LZF then rdbLoadLzfStringObject rdb
      else Some (rdbReportCorruptRDB srv)
    else if negb (can_alloc len) then Some (LoadFailed NoMemory)
    else match (if negb (len =? 0) then rioRead rdb len else Loaded [] rdb) with
    | LoadFailed e => Some (LoadFailed e)
    | Exited => Some Exited
    | Loaded s rdb => Some (Loaded (RawObj s) rdb)
    end
  end.

Definition rdbLoadStringObject (rdb : bytes) : option (loaded sobj) := rdbGenericLoadStringObject rdb RDB_LOAD_NONE.
Definition rdbLoadEncodedStringObject (rdb : bytes) : option (loaded sobj) := rdbGenericLoadStringObject rdb RDB_LOAD_ENC.

End Rdb.

Arguments Loaded {A}.
Arguments LoadFailed {A}.
Arguments Exited {A}.

End Rdb.
