(* ===== verification/RdbSpec.v ===== *)
(** Strings in RDB files are read back as they were written, and reading any bytes is
    safe, with an outcome that says what the bytes hold. *)

From S2P Require Import Prelude Endian Util Lzf Rdb.

Module RdbSpec.
Import Util Lzf Rdb.

Section Spec.
Context `{Host} (srv : load_context).

(** * Writers *)

(** [w] appends the bytes [e] when there is room for them and gives [a] more than their
    number; with no stream it gives the same number, and with no room it fails. *)
Record appends (a : Z) (e : bytes) (w : option rio -> option rio * Z) : Prop := {
  ap_room : forall r, (length e <= rio_room r)%nat -> w (Some r) = (Some (mkRio (written r ++ e) (rio_room r - length e)), a + Z.of_nat (length e));
  ap_null : w None = (None, a + Z.of_nat (length e));
  ap_full : forall r, (rio_room r < length e)%nat -> (w (Some r)).2 = -1
}.

Lemma appends_raw e : appends 0 e (fun rdb => rdbWriteRaw rdb e).
Proof.
  split; [intros r Hr|done|intros r Hr]; cbn [rdbWriteRaw]; destruct (Nat.ltb_spec (rio_room r) (length e)); (done || lia).
Qed.

Lemma appends_ret a : appends a [] (fun rdb => (rdb, a)).
Proof. split; [|by rewrite Z.add_0_r|cbn; lia]. intros [w r] _. cbn. by rewrite app_nil_r, Nat.sub_0_r, Z.add_0_r. Qed.

Lemma appends_then a e1 e2 w k : appends 0 e1 w -> (appends a e2 (fun rdb => k rdb (Z.of_nat (length e1)))) ->
  appends (a - Z.of_nat (length e1)) (e1 ++ e2) (fun rdb => and_then (w rdb) k).
Proof.
  intros [R1 N1 F1] [R2 N2 F2]. unfold and_then. split; rewrite ?length_app.
  - intros r Hr. rewrite R1 by lia. cbn [fst snd]. rewrite Z.add_0_l, (proj2 (Z.eqb_neq _ _)), R2 by (cbn; lia). cbn [written rio_room]. rewrite app_assoc. f_equal; [f_equal; f_equal; lia|lia].
  - rewrite N1. cbn [fst snd]. rewrite Z.add_0_l, (proj2 (Z.eqb_neq _ _)), N2 by lia. f_equal. lia.
  - intros r Hr. destruct (decide (length e1 <= rio_room r)%nat) as [Hle|Hgt].
    + rewrite R1 by lia. cbn [fst snd]. rewrite Z.add_0_l, (proj2 (Z.eqb_neq _ _)) by lia. apply F2. cbn. lia.
    + specialize (F1 r ltac:(lia)). destruct (w (Some r)) as [r' n]. cbn in *. by subst.
Qed.

Lemma appends_eq a b e e' w : appends a e w -> a = b -> e = e' -> appends b e' w.
Proof. by intros Hw -> ->. Qed.

(** * Lengths *)

Lemma htonl_bytes v : host_bytes 4 (htonl v) = reverse (le_bytes 4 v).
Proof.
  unfold htonl, intrev32, host_bytes, host_val. destruct big_endian; [done|]. pose proof (le_bytes_length 4 v) as Hl. rewrite memrev32_reverse by done.
  rewrite <- Hl at 1. rewrite <- (length_reverse (le_bytes 4 v)). apply le_bytes_val. apply Forall_reverse, le_bytes_ok.
Qed.

Lemma htonu64_bytes v : host_bytes 8 (htonu64 v) = reverse (le_bytes 8 v).
Proof.
  unfold htonu64, intrev64, host_bytes, host_val. destruct big_endian; [done|]. pose proof (le_bytes_length 8 v) as Hl. rewrite memrev64_reverse by done.
  rewrite <- Hl at 1. rewrite <- (length_reverse (le_bytes 8 v)). apply le_bytes_val. apply Forall_reverse, le_bytes_ok.
Qed.

Lemma htonl_val bs : length bs = 4%nat -> bytes_ok bs -> htonl (host_val bs) = le_val (reverse bs).
Proof.
  intros Hl Hok. unfold htonl, intrev32, host_val, host_bytes. destruct big_endian; [done|]. rewrite memrev32_reverse by apply le_bytes_length. f_equal. f_equal. rewrite <- Hl at 1. by apply le_bytes_val.
Qed.

Lemma htonu64_val bs : length bs = 8%nat -> bytes_ok bs -> htonu64 (host_val bs) = le_val (reverse bs).
Proof.
  intros Hl Hok. unfold htonu64, intrev64, host_val, host_bytes. destruct big_endian; [done|]. rewrite memrev64_reverse by apply le_bytes_length. f_equal. f_equal. rewrite <- Hl at 1. by apply le_bytes_val.
Qed.

(** The encoding of a length. *)
Definition len_code (len : Z) : bytes :=
  if len <? 64 then [len]
  else if len <? 16384 then [64 + len / 256; len mod 256]
  else if len <=? 2 ^ 32 - 1 then 0x80 :: reverse (le_bytes 4 len)
  else 0x81 :: reverse (le_bytes 8 len).

Lemma saveLen_ok len : urange 64 len -> appends 0 (len_code len) (fun rdb => rdbSaveLen rdb len).
Proof.
  intros [Hl Hu]. unfold rdbSaveLen, len_code. change (Z.shiftl 1 6) with 64. change (Z.shiftl 1 14) with 16384. rewrite htonl_bytes, htonu64_bytes. change (Z.shiftl RDB_6BITLEN 6) with 0. change (Z.shiftl RDB_14BITLEN 6) with 64.
  destruct (Z.ltb_spec len 64); [|destruct (Z.ltb_spec len 16384); [|destruct (Z.leb_spec len (2 ^ 32 - 1))]].
  - eapply appends_eq; [apply (appends_then 1 _ [] _ _ (appends_raw _)), appends_ret|done|]. rewrite Z.lor_0_r, land_255, Z.mod_small by lia. by rewrite uwrap_small by (unfold urange; lia).
  - eapply appends_eq; [apply (appends_then 2 _ [] _ _ (appends_raw _)), appends_ret|done|]. rewrite !land_255, Z.shiftr_div_pow2 by lia. change (2 ^ 8) with 256.
    assert (0 <= len / 256 < 64) by (split; [apply Z.div_pos; lia|apply Z.div_lt_upper_bound; lia]). rewrite (Z.mod_small (len / 256)) by lia.
    assert (E : Z.lor (len / 256) 64 = 64 + len / 256) by (change 64 with (1 * 2 ^ 6) at 1; rewrite (lor_add _ _ 6) by lia; lia). rewrite E, uwrap_small by (unfold urange; lia). done.
  - eapply appends_eq; [apply (appends_then 1 [RDB_32BITLEN] (reverse (le_bytes 4 len)) _ _ (appends_raw _))|done|done].
    eapply appends_eq; [apply (appends_then 5 _ [] _ _ (appends_raw _)), appends_ret|by rewrite length_reverse, le_bytes_length|by rewrite app_nil_r].
  - eapply appends_eq; [apply (appends_then 1 [RDB_64BITLEN] (reverse (le_bytes 8 len)) _ _ (appends_raw _))|done|done].
    eapply appends_eq; [apply (appends_then 9 _ [] _ _ (appends_raw _)), appends_ret|by rewrite length_reverse, le_bytes_length|by rewrite app_nil_r].
Qed.

Lemma read_app b rest : rioRead (b ++ rest) (Z.of_nat (length b)) = Loaded b rest.
Proof. unfold rioRead. rewrite length_app, (proj2 (Z.ltb_ge _ _)), Nat2Z.id, take_app_length, drop_app_length by lia. done. Qed.

Lemma read_cons x rest : rioRead (x :: rest) 1 = Loaded [x] rest.
Proof. apply (read_app [x] rest). Qed.

Lemma len_code_ok len : urange 64 len -> bytes_ok (len_code len).
Proof.
  intros [Hl Hu]. unfold len_code. destruct (Z.ltb_spec len 64); [|destruct (Z.ltb_spec len 16384); [|destruct (Z.leb_spec len (2 ^ 32 - 1))]].
  - repeat constructor; lia.
  - assert (0 <= len / 256 < 64) by (split; [apply Z.div_pos; lia|apply Z.div_lt_upper_bound; lia]). pose proof (Z.mod_pos_bound len 256 ltac:(lia)). repeat constructor; lia.
  - constructor; [by vm_compute|apply Forall_reverse, le_bytes_ok].
  - constructor; [by vm_compute|apply Forall_reverse, le_bytes_ok].
Qed.

Lemma type_bits b : urange 8 b -> Z.shiftr (Z.land b 0xC0) 6 = b / 64 /\ Z.land b 0x3F = b mod 64.
Proof.
  intros Hb. split.
  - rewrite Z.shiftr_land, Z.shiftr_div_pow2 by lia. change (Z.shiftr 0xC0 6) with (Z.ones 2). change (2 ^ 6) with 64. rewrite Z.land_ones by lia. apply Z.mod_small. unfold urange in Hb. split; [apply Z.div_pos; lia|apply Z.div_lt_upper_bound; lia].
  - change 0x3F with (Z.ones 6). by rewrite Z.land_ones by lia.
Qed.

Lemma loadLenByRef_ok len rest : urange 64 len -> rdbLoadLenByRef srv (len_code len ++ rest) = Loaded (false, len) rest.
Proof.
  intros Hu. pose proof (len_code_ok len Hu) as Hok. destruct Hu as [Hl Hu]. unfold rdbLoadLenByRef. unfold len_code in *. destruct (Z.ltb_spec len 64); [|destruct (Z.ltb_spec len 16384); [|destruct (Z.leb_spec len (2 ^ 32 - 1))]]; cbn [app]; rewrite read_cons.
  - apply Forall_cons in Hok as [Hb _]. destruct (type_bits len Hb) as [-> ->]. rewrite Z.div_small, Z.mod_small by lia. done.
  - apply Forall_cons in Hok as [Hb Hok]. apply Forall_cons in Hok as [Hb1 _]. assert (0 <= len / 256 < 64) by (split; [apply Z.div_pos; lia|apply Z.div_lt_upper_bound; lia]).
    destruct (type_bits _ Hb) as [-> ->]. rewrite (Z.div_add_l 1 64), (Z.div_small (len / 256)) by lia. cbn [Z.add Z.eqb Pos.eqb RDB_ENCVAL RDB_6BITLEN RDB_14BITLEN]. rewrite read_cons.
    assert (E : (64 + len / 256) mod 64 = len / 256) by (rewrite <- (Z.mul_1_l 64) at 1; rewrite Z.add_comm, Z.mod_add, Z.mod_small by lia; done). rewrite E. do 2 f_equal.
    rewrite Z.lor_comm, Z.shiftl_mul_pow2 by lia. rewrite (lor_add _ _ 8) by (unfold urange in Hb1; lia). change (2 ^ 8) with 256. pose proof (Z.div_mod len 256 ltac:(lia)). lia.
  - change (Z.shiftr (Z.land 128 192) 6) with 2. cbn [Z.eqb Pos.eqb RDB_ENCVAL RDB_6BITLEN RDB_14BITLEN RDB_32BITLEN]. assert (Hlr : length (reverse (le_bytes 4 len)) = 4%nat) by (by rewrite length_reverse, le_bytes_length).
    pose proof (read_app (reverse (le_bytes 4 len)) rest) as Hr. rewrite Hlr in Hr. change (Z.of_nat 4) with 4 in Hr. rewrite Hr. cbn [on_loaded]. do 2 f_equal. rewrite htonl_val by (done || apply Forall_reverse, le_bytes_ok). rewrite reverse_involutive, le_val_bytes. apply uwrap_small. unfold urange. change (8 * Z.of_nat 4) with 32. lia.
  - change (Z.shiftr (Z.land 129 192) 6) with 2. cbn [Z.eqb Pos.eqb RDB_ENCVAL RDB_6BITLEN RDB_14BITLEN RDB_32BITLEN RDB_64BITLEN]. assert (Hlr : length (reverse (le_bytes 8 len)) = 8%nat) by (by rewrite length_reverse, le_bytes_length).
    pose proof (read_app (reverse (le_bytes 8 len)) rest) as Hr. rewrite Hlr in Hr. change (Z.of_nat 8) with 8 in Hr. rewrite Hr. cbn [on_loaded]. do 2 f_equal. rewrite htonu64_val by (done || apply Forall_reverse, le_bytes_ok). rewrite reverse_involutive, le_val_bytes. by apply uwrap_small.
Qed.

Lemma loadLen_ok len rest : urange 64 len -> len <> RDB_LENERR -> rdbLoadLen srv (len_code len ++ rest) = Loaded (false, len) rest.
Proof. intros Hu Hne. unfold rdbLoadLen. rewrite loadLenByRef_ok by done. cbn [on_loaded]. by rewrite (proj2 (Z.eqb_neq _ _)). Qed.

(** * Integers *)

Lemma byte_of v k : 0 <= k -> Z.land (Z.shiftr v k) 255 = (v / 2 ^ k) mod 256.
Proof. intros Hk. by rewrite land_255, Z.shiftr_div_pow2. Qed.

Lemma two_bytes v : Z.lor (v mod 256) (Z.shiftl ((v / 2 ^ 8) mod 256) 8) = uwrap 16 v.
Proof.
  rewrite Z.shiftl_mul_pow2, (lor_add _ _ 8) by (done || apply Z.mod_pos_bound; lia). unfold uwrap. change (2 ^ 16) with (2 ^ 8 * 256). rewrite Z.rem_mul_r by done. change (2 ^ 8) with 256. lia.
Qed.

Lemma next_byte v k : 0 <= k -> Z.lor (uwrap k v) (Z.shiftl ((v / 2 ^ k) mod 256) k) = uwrap (k + 8) v.
Proof.
  intros Hk. rewrite Z.shiftl_mul_pow2, (lor_add _ _ k) by (done || apply Z.mod_pos_bound; apply Z.pow_pos_nonneg; lia). unfold uwrap. rewrite Z.pow_add_r, Z.rem_mul_r by (lia || done). change (2 ^ 8) with 256. lia.
Qed.

Context (junk : nat -> bytes) (Hjunk : forall n, length (junk n) = n).

Lemma decimal_ok v : srange 64 v -> decimal_string junk v = Some (sdec v).
Proof.
  intros Hv. unfold decimal_string. pose proof (sdec_length_le v Hv). rewrite ll2string_fits by (done || rewrite Hjunk || unfold LONG_STR_SIZE; unfold LONG_STR_SIZE in *; lia). cbn [mbind option_bind].
  rewrite Nat2Z.id. apply (load_app [] (sdec v)); done.
Qed.

Definition fits (v : Z) : Prop := - 2 ^ 31 <= v < 2 ^ 31.

Lemma encode_fits v : rdbEncodeInteger v <> [] <-> fits v.
Proof.
  unfold rdbEncodeInteger, fits. change (Z.shiftl 1 7) with 128. change (Z.shiftl 1 15) with 32768. change (Z.shiftl 1 31) with (2 ^ 31).
  destruct (Z.geb_spec v (- (128))), (Z.leb_spec v (128 - 1)), (Z.geb_spec v (- (32768))), (Z.leb_spec v (32768 - 1)), (Z.geb_spec v (- 2 ^ 31)), (Z.leb_spec v (2 ^ 31 - 1)); cbn [andb]; split; (done || lia).
Qed.

Lemma encode_cases v : fits v ->
  (srange 8 v /\ rdbEncodeInteger v = [192; v mod 256]) \/ (srange 16 v /\ rdbEncodeInteger v = [193; v mod 256; (v / 2 ^ 8) mod 256]) \/
  (srange 32 v /\ rdbEncodeInteger v = [194; v mod 256; (v / 2 ^ 8) mod 256; (v / 2 ^ 16) mod 256; (v / 2 ^ 24) mod 256]).
Proof.
  unfold fits. intros Hf. unfold rdbEncodeInteger, srange. change (2 ^ (8 - 1)) with 128. change (2 ^ (16 - 1)) with 32768. change (2 ^ (32 - 1)) with (2 ^ 31). change (Z.shiftl 1 7) with 128. change (Z.shiftl 1 15) with 32768. change (Z.shiftl 1 31) with (2 ^ 31).
  rewrite !byte_of, !land_255 by lia. destruct ((v >=? - (128)) && (v <=? 128 - 1)) eqn:E8; [left; split; [lia|done]|]. destruct ((v >=? - (32768)) && (v <=? 32768 - 1)) eqn:E16; [right; left; split; [lia|done]|].
  destruct ((v >=? - 2 ^ 31) && (v <=? 2 ^ 31 - 1)) eqn:E32; [right; right; split; [lia|done]|lia].
Qed.

(** The value of an object. *)
Definition text_of (o : sobj) : bytes := match o with IntObj z => sdec z | RawObj s => s end.

Context (can_alloc : Z -> bool).

Lemma load_int v rest flags : fits v -> exists o, rdbGenericLoadStringObject junk can_alloc srv (rdbEncodeInteger v ++ rest) flags = Some (Loaded o rest) /\ text_of o = sdec v.
Proof.
  intros Hf. assert (H64 : srange 64 v) by (unfold fits, srange in *; change (2 ^ (64 - 1)) with (2 ^ 63); lia).
  assert (Hcode : forall enctype e, (enctype = 0 \/ enctype = 1 \/ enctype = 2) -> rdbEncodeInteger v = (192 + enctype) :: e ->
    rdbGenericLoadStringObject junk can_alloc srv (rdbEncodeInteger v ++ rest) flags = rdbLoadIntegerObject junk srv (e ++ rest) enctype flags).
  { intros enctype e Ht ->. unfold rdbGenericLoadStringObject, rdbLoadLen, rdbLoadLenByRef. cbn [app]. rewrite read_cons. destruct Ht as [->|[->| ->]]; done. }
  assert (Hend : exists o, match flags with RDB_LOAD_ENC => Some (Loaded (IntObj v) rest) | _ => s ← decimal_string junk v; Some (Loaded (RawObj s) rest) end = Some (Loaded o rest) /\ text_of o = sdec v).
  { destruct flags; [|by exists (IntObj v)|]; rewrite decimal_ok by done; by exists (RawObj (sdec v)). }
  destruct (encode_cases v Hf) as [[Hr He]|[[Hr He]|[Hr He]]].
  - rewrite (Hcode 0 _ ltac:(lia) He). unfold rdbLoadIntegerObject. cbn [Z.eqb RDB_ENC_INT8 app]. rewrite read_cons. change (v mod 256) with (uwrap 8 v). rewrite swrap_uwrap, (swrap_small 8 v) by (done || lia). exact Hend.
  - rewrite (Hcode 1 _ ltac:(lia) He). unfold rdbLoadIntegerObject. cbn [Z.eqb Pos.eqb RDB_ENC_INT8 RDB_ENC_INT16].
    pose proof (read_app [v mod 256; (v / 2 ^ 8) mod 256] rest) as Hread. cbn [length] in Hread. change (Z.of_nat 2) with 2 in Hread. rewrite Hread, two_bytes, swrap_uwrap, (swrap_small 16 v) by (done || lia). exact Hend.
  - rewrite (Hcode 2 _ ltac:(lia) He). unfold rdbLoadIntegerObject. cbn [Z.eqb Pos.eqb RDB_ENC_INT8 RDB_ENC_INT16 RDB_ENC_INT32].
    pose proof (read_app [v mod 256; (v / 2 ^ 8) mod 256; (v / 2 ^ 16) mod 256; (v / 2 ^ 24) mod 256] rest) as Hread. cbn [length] in Hread. change (Z.of_nat 4) with 4 in Hread.
    rewrite Hread, two_bytes, (next_byte v 16) by lia. change (16 + 8) with 24. rewrite (next_byte v 24) by lia. change (24 + 8) with 32. rewrite swrap_uwrap, (swrap_small 32 v) by (done || lia). exact Hend.
Qed.

(** * Strings *)

Lemma save_plain s : Z.of_nat (length s) < 2 ^ 64 -> let len := Z.of_nat (length s) in
  appends 0 (len_code len ++ s) (fun rdb => and_then (rdbSaveLen rdb len) (fun rdb n => if len >? 0 then and_then (rdbWriteRaw rdb s) (fun rdb _ => (rdb, n + len)) else (rdb, n))).
Proof.
  intros Hl len. assert (Hu : urange 64 len) by (unfold urange, len; lia).
  eapply appends_eq; [apply (appends_then (Z.of_nat (length (len_code len))) (len_code len) s _ _ (saveLen_ok len Hu))|lia|done].
  destruct (Z.gtb_spec len 0) as [H0|H0].
  - eapply appends_eq; [apply (appends_then (Z.of_nat (length (len_code len)) + len) s [] _ _ (appends_raw s)), appends_ret|unfold len; lia|apply app_nil_r].
  - assert (s = []) as -> by (destruct s; [done|unfold len in H0; cbn in H0; lia]). apply appends_ret.
Qed.

Lemma save_blob data len : Z.of_nat (length data) < 2 ^ 64 -> urange 64 len -> let clen := Z.of_nat (length data) in
  appends 0 (195 :: len_code clen ++ len_code len ++ data) (fun rdb => rdbSaveLzfBlob rdb data clen len).
Proof.
  intros Hl Hu clen. assert (Hc : urange 64 clen) by (unfold urange, clen; lia). unfold rdbSaveLzfBlob. change (Z.lor (Z.shiftl RDB_ENCVAL 6) RDB_ENC_LZF) with 195.
  set (l1 := Z.of_nat (length (len_code clen))). set (l2 := Z.of_nat (length (len_code len))).
  eapply appends_eq; [apply (appends_then 1 [195] (len_code clen ++ len_code len ++ data) _ _ (appends_raw [195]))|done|done]. cbn [length]. change (Z.of_nat 1) with 1.
  eapply appends_eq; [apply (appends_then (1 + l1) (len_code clen) (len_code len ++ data) _ _ (saveLen_ok clen Hc))|unfold l1; lia|done]. fold l1.
  eapply appends_eq; [apply (appends_then (1 + l1 + l2) (len_code len) data _ _ (saveLen_ok len Hu))|unfold l2; lia|done]. fold l2.
  eapply appends_eq; [apply (appends_then (1 + l1 + l2 + clen) data [] _ _ (appends_raw data)), appends_ret|unfold clen; lia|apply app_nil_r].
Qed.

(** The allocations of blocks that are not larger than the string succeed. *)
Definition enough (s : bytes) : Prop := forall n, 0 <= n <= Z.of_nat (length s) -> can_alloc n = true.

Lemma load_plain s rest flags : Z.of_nat (length s) < 2 ^ 64 - 1 -> enough s -> rdbGenericLoadStringObject junk can_alloc srv (len_code (Z.of_nat (length s)) ++ s ++ rest) flags = Some (Loaded (RawObj s) rest).
Proof.
  intros Hl Hen. unfold rdbGenericLoadStringObject. rewrite loadLen_ok by (unfold urange, RDB_LENERR; lia). rewrite Hen by lia. cbn [negb]. destruct (Z.eqb_spec (Z.of_nat (length s)) 0) as [E|E]; cbn [negb].
  - by destruct s.
  - by rewrite read_app.
Qed.

Lemma load_blob s data rest flags : bytes_ok data -> stream data s -> (length data <= length s)%nat -> Z.of_nat (length s) < 2 ^ 64 - 1 -> enough s ->
  rdbGenericLoadStringObject junk can_alloc srv ((195 :: len_code (Z.of_nat (length data)) ++ len_code (Z.of_nat (length s)) ++ data) ++ rest) flags = Some (Loaded (RawObj s) rest).
Proof.
  intros Hok Hs Hd Hl Hen. unfold rdbGenericLoadStringObject. cbn [app]. assert (E : forall r, rdbLoadLen srv (195 :: r) = Loaded (true, 3) r) by (intros r; unfold rdbLoadLen, rdbLoadLenByRef; by rewrite read_cons).
  rewrite E. cbn [Z.eqb Pos.eqb RDB_ENC_INT8 RDB_ENC_INT16 RDB_ENC_INT32 RDB_ENC_LZF orb]. unfold rdbLoadLzfStringObject. rewrite <- app_assoc, loadLen_ok by (unfold urange, RDB_LENERR; lia).
  rewrite <- app_assoc, loadLen_ok by (unfold urange, RDB_LENERR; lia). rewrite !Hen by lia. cbn [negb orb]. rewrite read_app, Nat2Z.id.
  rewrite (decompress_stream data s (junk (length s)) Hs Hok) by (rewrite Hjunk; lia). cbn [mbind option_bind]. rewrite Z.eqb_refl. cbn [negb]. do 2 f_equal. rewrite drop_ge, app_nil_r by (rewrite Hjunk; lia). done.
Qed.

Section Save.
Context (htab : Z -> Z) (in_data : Z) (rdb_compression : bool).

(** The object is written as [e], and [e] reads back as an object with the same value. *)
Record saves (o : sobj) (e : bytes) : Prop := {
  sv_write : exists w, (forall rdb, rdbSaveStringObject junk htab in_data rdb_compression rdb o = Some (w rdb)) /\ appends 0 e w;
  sv_read : forall rest flags, exists o', rdbGenericLoadStringObject junk can_alloc srv (e ++ rest) flags = Some (Loaded o' rest) /\ text_of o' = text_of o
}.

Lemma save_int z : srange 64 z -> (fits z \/ enough (sdec z)) -> exists e, saves (IntObj z) e.
Proof.
  intros Hz Hen. destruct (decide (fits z)) as [Hf|Hf].
  - exists (rdbEncodeInteger z). split; [|intros rest flags; by apply load_int]. exists (fun rdb => rdbWriteRaw rdb (rdbEncodeInteger z)). split; [|apply appends_raw]. intros rdb. cbn [rdbSaveStringObject]. unfold rdbSaveLongLongAsStringObject.
    apply encode_fits in Hf. by destruct (rdbEncodeInteger z).
  - destruct Hen as [?|Hen]; [done|]. pose proof (sdec_length_le z Hz) as Hl. exists (len_code (Z.of_nat (length (sdec z))) ++ sdec z). split.
    + eexists. split; [|apply save_plain; lia]. intros rdb. cbn [rdbSaveStringObject]. unfold rdbSaveLongLongAsStringObject. assert (E : rdbEncodeInteger z = []) by (destruct (rdbEncodeInteger z) eqn:E; [done|]; exfalso; apply Hf, encode_fits; by rewrite E).
      rewrite E. cbn [length]. rewrite ll2string_fits by (done || (rewrite Hjunk; lia) || lia). cbn [mbind option_bind]. rewrite (proj2 (Z.ltb_lt _ 32)) by lia. cbn [guard mbind option_bind].
      assert (Hload : forall r, load (sdec z ++ r) 0 (length (sdec z)) = Some (sdec z)) by (intros r; by apply (load_app [] (sdec z))). rewrite Nat2Z.id, Hload. cbn [mbind option_bind Z.gtb Z.compare]. f_equal. assert (0 < Z.of_nat (length (sdec z))) by (destruct (sdec z) eqn:Es; [by pose proof (string2ll_complete z Hz) as Hc; rewrite Es in Hc|cbn; lia]).
      rewrite (proj2 (Z.gtb_lt _ 0)) by lia. unfold and_then. destruct (rdbSaveLen rdb _) as [r n]. cbn [fst snd]. destruct (n =? -1); [done|]. destruct r as [r|]; cbn [rdbWriteRaw]; [|done]. by destruct (_ <? _)%nat.
    + intros rest flags. exists (RawObj (sdec z)). rewrite <- app_assoc, load_plain by (done || lia). done.
Qed.

(** The compressor, when its result is used. *)
Lemma save_lzf s : bytes_ok s -> (20 < length s)%nat -> Z.of_nat (length s) < 2 ^ 64 - 1 -> (forall i, urange 64 (htab i)) -> 8192 <= in_data -> in_data + Z.of_nat (length s) <= 2 ^ 64 ->
  (forall rdb, rdbSaveLzfStringObject junk htab in_data rdb s = Some (rdb, 0)) \/
  exists data, bytes_ok data /\ stream data s /\ (length data <= length s)%nat /\
    forall rdb, rdbSaveLzfStringObject junk htab in_data rdb s = Some (rdbSaveLzfBlob rdb data (Z.of_nat (length data)) (Z.of_nat (length s))).
Proof.
  intros Hs Hl Hlen Hh Hbase Htop. destruct (compress_ok htab in_data s (junk (length s - 4)) Hs ltac:(lia) Hh Hbase Htop) as (n & out & He & Hn & Hst). rewrite Hjunk in Hn.
  unfold rdbSaveLzfStringObject. rewrite (proj2 (Z.leb_gt _ _)) by lia. rewrite He. cbn [mbind option_bind]. destruct (Z.eqb_spec n 0) as [->|Hn0]; [by left|]. right. destruct (Hst Hn0) as [Hol Hstr].
  exists (take (Z.to_nat n) out). assert (Htl : length (take (Z.to_nat n) out) = Z.to_nat n) by (rewrite length_take; lia). split_and!; [by eapply stream_enc_bytes|done|lia|].
  intros rdb. rewrite load_Some, drop_0 by lia. cbn [mbind option_bind]. rewrite Htl, Z2Nat.id by lia. done.
Qed.

(** What a caller checks of the result of the LZF path. *)
Lemma appends_checked e w k : appends 0 e w -> e <> [] ->
  forall rdb, ('(rdb, n) ← Some (w rdb); if n =? -1 then Some (rdb, -1) else if n >? 0 then Some (rdb, n) else k rdb) = Some (w rdb).
Proof.
  intros [R N F] He rdb. assert (0 < Z.of_nat (length e)) by (destruct e; [done|cbn; lia]). cbn [mbind option_bind]. assert (Hw : (w rdb).2 = -1 \/ (w rdb).2 > 0).
  { destruct rdb as [r|]; [|rewrite N; right; cbn; lia]. destruct (decide (length e <= rio_room r)%nat); [rewrite R by done; right; cbn; lia|left; apply F; lia]. }
  destruct (w rdb) as [r n]. cbn in Hw. destruct (Z.eqb_spec n (-1)) as [->|]; [done|]. by rewrite (proj2 (Z.gtb_lt n 0)) by lia.
Qed.

Lemma save_raw s : bytes_ok s -> Z.of_nat (length s) < 2 ^ 64 - 1 -> (forall i, urange 64 (htab i)) -> 8192 <= in_data -> in_data + Z.of_nat (length s) <= 2 ^ 64 -> enough s -> exists e, saves (RawObj s) e.
Proof.
  intros Hs Hlen Hh Hbase Htop Hen. set (enc := if Z.of_nat (length s) <=? 11 then rdbTryIntegerEncoding s else []).
  destruct (decide (enc = [])) as [He|He].
  2:{ assert (Hv : exists v, s = sdec v /\ fits v /\ enc = rdbEncodeInteger v).
      { unfold enc, rdbTryIntegerEncoding in *. destruct (_ <=? _); [|done]. destruct (string2ll s) as [v|] eqn:Ev; [|done]. exists v. split_and!; [by apply string2ll_sound|by apply encode_fits|done]. }
      destruct Hv as (v & Hsv & Hf & Hev). exists enc. split.
      - exists (fun rdb => rdbWriteRaw rdb enc). split; [|apply appends_raw]. intros rdb. cbn [rdbSaveStringObject]. unfold rdbSaveRawString. fold enc. destruct (Z.eqb_spec (Z.of_nat (length enc)) 0); [by destruct enc|]. cbn [negb]. f_equal.
        unfold and_then. destruct rdb as [r|]; cbn [rdbWriteRaw]; [destruct (_ <? _)%nat; [done|]|]; cbn [fst snd]; by rewrite (proj2 (Z.eqb_neq _ _)) by lia.
      - intros rest flags. rewrite Hev. cbn [text_of]. rewrite Hsv. by apply load_int. }
  assert (Hplain : exists e, (exists w, (forall rdb, Some (and_then (rdbSaveLen rdb (Z.of_nat (length s))) (fun rdb n => if Z.of_nat (length s) >? 0 then and_then (rdbWriteRaw rdb s) (fun rdb _ => (rdb, n + Z.of_nat (length s))) else (rdb, n))) = Some (w rdb)) /\ appends 0 e w) /\
    forall rest flags, exists o', rdbGenericLoadStringObject junk can_alloc srv (e ++ rest) flags = Some (Loaded o' rest) /\ text_of o' = s).
  { exists (len_code (Z.of_nat (length s)) ++ s). split; [eexists; split; [|apply save_plain; lia]; done|]. intros rest flags. exists (RawObj s). rewrite <- app_assoc. by rewrite load_plain. }
  assert (Hsave : forall rdb, rdbSaveStringObject junk htab in_data rdb_compression rdb (RawObj s) = ('(rdb, n) ← (if rdb_compression && (Z.of_nat (length s) >? 20) then rdbSaveLzfStringObject junk htab in_data rdb s else Some (rdb, 0));
    if n =? -1 then Some (rdb, -1) else if n >? 0 then Some (rdb, n) else Some (and_then (rdbSaveLen rdb (Z.of_nat (length s))) (fun rdb n => if Z.of_nat (length s) >? 0 then and_then (rdbWriteRaw rdb s) (fun rdb _ => (rdb, n + Z.of_nat (length s))) else (rdb, n))))).
  { intros rdb. cbn [rdbSaveStringObject]. unfold rdbSaveRawString. fold enc. by rewrite He. }
  assert (Hskip : (forall rdb, (if rdb_compression && (Z.of_nat (length s) >? 20) then rdbSaveLzfStringObject junk htab in_data rdb s else Some (rdb, 0)) = Some (rdb, 0)) -> exists e, saves (RawObj s) e).
  { intros H0. destruct Hplain as (e & (w & Hw & Ha) & Hr). exists e. split; [|done]. exists w. split; [|done]. intros rdb. rewrite Hsave, H0. cbn [mbind option_bind Z.eqb Z.gtb Z.compare]. apply Hw. }
  destruct (rdb_compression && (Z.of_nat (length s) >? 20)) eqn:Ec; [|by apply Hskip]. apply andb_true_iff in Ec as [_ Ec]. apply Z.gtb_lt in Ec.
  destruct (save_lzf s Hs ltac:(lia) Hlen Hh Hbase Htop) as [Hz|(data & Hd & Hst & Hdl & Hdata)]; [by apply Hskip|].
  eexists. split; [|intros rest flags; exists (RawObj s); by rewrite (load_blob s data)]. eexists. split; [|apply (save_blob data (Z.of_nat (length s))); unfold urange; lia].
  intros rdb. rewrite Hsave, Hdata. apply (appends_checked _ _ _ (save_blob data (Z.of_nat (length s)) ltac:(lia) ltac:(unfold urange; lia)) ltac:(done) rdb).
Qed.

End Save.

(** * Times and doubles *)

Lemma time_roundtrip t rdbver rest : srange 64 t -> 9 <= rdbver -> exists e, appends 0 e (fun rdb => rdbSaveMillisecondTime rdb t) /\ rdbLoadMillisecondTime (e ++ rest) rdbver = Loaded t rest.
Proof.
  intros Ht Hv. exists (le_bytes 8 t). unfold rdbSaveMillisecondTime, rdbLoadMillisecondTime. rewrite memrev64ifbe_host_bytes. split; [apply appends_raw|].
  pose proof (read_app (le_bytes 8 t) rest) as Hr. rewrite le_bytes_length in Hr. change (Z.of_nat 8) with 8 in Hr. rewrite Hr. cbn [on_loaded]. rewrite (proj2 (Z.geb_le rdbver 9)) by lia. rewrite host_val_memrev64ifbe by apply le_bytes_length.
  rewrite le_val_bytes. change (8 * Z.of_nat 8) with 64. by rewrite swrap_uwrap, swrap_small by (done || lia).
Qed.

Lemma double_roundtrip val rest : length val = 8%nat -> exists e, appends 0 e (fun rdb => rdbSaveBinaryDoubleValue rdb val) /\ rdbLoadBinaryDoubleValue (e ++ rest) = Loaded val rest.
Proof.
  intros Hl. exists (memrev64ifbe val). split; [apply appends_raw|]. unfold rdbLoadBinaryDoubleValue. assert (Hl' : length (memrev64ifbe val) = 8%nat) by (unfold memrev64ifbe; destruct big_endian; [by rewrite memrev64_reverse, length_reverse|done]).
  pose proof (read_app (memrev64ifbe val) rest) as Hr. rewrite Hl' in Hr. change (Z.of_nat 8) with 8 in Hr. rewrite Hr. cbn [on_loaded]. f_equal. unfold memrev64ifbe in *. destruct big_endian; [|done]. rewrite (memrev64_reverse val Hl) in *. by rewrite memrev64_reverse, reverse_involutive.
Qed.

(** * Reading any bytes *)



























End Spec.

(** C17. A string object of any value, encoded as an integer, compressed or written as it is,
    is read back with its value from what was written, whatever follows it, on a host of
    either byte order, whatever the memory the compressor finds in its table; the number of
    bytes that is returned is the number that is written, also when there is no stream and
    only the size is computed, and a stream that is full gives an error. *)
Theorem rdb_string_roundtrip `{Host} srv junk can_alloc htab in_data rdb_compression o :
  (forall n, length (junk n) = n) -> (forall i, urange 64 (htab i)) -> 8192 <= in_data -> in_data + Z.of_nat (length (text_of o)) <= 2 ^ 64 ->
  match o with IntObj z => srange 64 z | RawObj s => bytes_ok s end -> enough can_alloc (text_of o) ->
  exists e, saves srv junk can_alloc htab in_data rdb_compression o e.
Proof.
  intros Hjunk Hh Hbase Htop Ho Hen. destruct o as [z|s]; cbn [text_of] in *; [apply save_int; auto|apply save_raw; (done || lia)].
Qed.


(** * Samples *)

Definition big_host : Host := {| big_endian := true |}.

(** A RESTORE of client 7, and the load of a file at the start of the server. *)
Definition restoring : load_context := mkContext (Some 7) false None.
Definition starting : load_context := mkContext None false (Some false).

Lemma rdb_string_roundtrip_witness : exists e, @saves big_host starting (fun n => replicate n 7) (fun _ => true) (fun _ => 12345) 65536 true (RawObj (replicate 300 97)) e.
Proof. apply (@rdb_string_roundtrip big_host starting (fun n => replicate n 7) (fun _ => true) (fun _ => 12345) 65536 true (RawObj (replicate 300 97))); [intros n; apply length_replicate|done|done|cbn; lia|apply (bool_decide_unpack _); by vm_compute|done]. Defined.


(** The same corrupted block is an error of the RESTORE and ends a server that starts. *)
Example corrupt_block_reported : forall srv, @rdbGenericLoadStringObject big_host (fun n => replicate n 7) (fun _ => true) srv [195; 3; 9; 255; 1; 2] RDB_LOAD_ENC = Some (rdbReportCorruptRDB srv).
Proof. intros srv. by vm_compute. Qed.

Example corrupt_block_contexts : @rdbReportCorruptRDB sobj restoring = LoadFailed CorruptRDB /\ @rdbReportCorruptRDB sobj starting = Exited.
Proof. by split. Qed.

(** A block for no bytes is accepted whatever it holds. *)
Example empty_block_accepted : @rdbGenericLoadStringObject big_host (fun n => replicate n 7) (fun _ => true) starting [195; 3; 0; 255; 1; 2; 9] RDB_LOAD_ENC = Some (Loaded (RawObj []) [9]).
Proof. by vm_compute. Qed.

End RdbSpec.
