(* ===== verification/Dict.v ===== *)
(** Hash tables with incremental rehashing: dict.c.

    A dictionary has two tables of chains; while it is being resized, the
    chains of the first are moved to the second a few at a time by the other
    operations.  The theorem is that, whatever the interleaving of operations,
    rehashing steps and changes of the resize policy, a dictionary behaves as a
    finite map. *)

From S2P Require Import Prelude.

(** The callbacks and flags of a dictionary's type (dictType). Keys are stored
    as they are given and [keyCompare] decides equality of keys. *)
Class DictType (K : Type) := {
  hashFunction : K -> Z;
  keyCompare : K -> K -> bool;
  (** [moreMem], then the used ratio as the number of entries and of buckets. *)
  resizeAllowed : option (Z -> Z -> Z -> bool);
  force_full_rehash : bool
}.

Class DictLaws (K : Type) `{DictType K} := {
  hashFunction_range k : urange 64 (hashFunction k);
  keyCompare_eq k1 k2 : keyCompare k1 k2 = true <-> k1 = k2
}.

Module Dict.

Definition DICT_HT_INITIAL_EXP : Z := 2.
Definition DICT_HT_INITIAL_SIZE : Z := Z.shiftl 1 DICT_HT_INITIAL_EXP.
Definition HASHTABLE_MIN_FILL : Z := 8.
Definition dict_force_resize_ratio : Z := 4.
Definition LONG_MAX : Z := 2 ^ 63 - 1.

(** The global [dict_can_resize]. *)
Inductive dictResizeEnable := DICT_RESIZE_ENABLE | DICT_RESIZE_AVOID | DICT_RESIZE_FORBID.

Definition resize_eqb (a b : dictResizeEnable) : bool :=
  match a, b with
  | DICT_RESIZE_ENABLE, DICT_RESIZE_ENABLE | DICT_RESIZE_AVOID, DICT_RESIZE_AVOID
  | DICT_RESIZE_FORBID, DICT_RESIZE_FORBID => true
  | _, _ => false
  end.

Definition DICTHT_SIZE (exp : Z) : Z := if exp =? -1 then 0 else Z.shiftl 1 exp.
Definition DICTHT_SIZE_MASK (exp : Z) : Z := if exp =? -1 then 0 else DICTHT_SIZE exp - 1.

Definition _dictNextExp (size : Z) : Z :=
  if size <=? DICT_HT_INITIAL_SIZE then DICT_HT_INITIAL_EXP
  else if size >=? LONG_MAX then 8 * 8 - 1
  else 8 * 8 - (63 - Z.log2 (size - 1)).

Section Dict.
Context {K V : Type} `{DT : DictType K}.

(** An entry with its value, and a chain of entries; NULL is the empty chain. *)
Abbreviation dictEntry := (K * V)%type.

(** [ht_table[i]], [ht_used[i]] and [ht_size_exp[i]]; a NULL table is []. *)
Record ht := mkHt { ht_table : list (list dictEntry); ht_used : Z; ht_size_exp : Z }.

Record dict := mkDict {
  ht0 : ht; ht1 : ht; rehashidx : Z; pauserehash : Z; pauseAutoResize : Z
}.

Definition ht_of (d : dict) (t : bool) : ht := if t then ht1 d else ht0 d.

Definition with_ht0 (d : dict) (h : ht) : dict :=
  mkDict h (ht1 d) (rehashidx d) (pauserehash d) (pauseAutoResize d).
Definition with_ht1 (d : dict) (h : ht) : dict :=
  mkDict (ht0 d) h (rehashidx d) (pauserehash d) (pauseAutoResize d).
Definition with_ht (d : dict) (t : bool) (h : ht) : dict := if t then with_ht1 d h else with_ht0 d h.
Definition with_rehashidx (d : dict) (i : Z) : dict :=
  mkDict (ht0 d) (ht1 d) i (pauserehash d) (pauseAutoResize d).
Definition with_pauserehash (d : dict) (n : Z) : dict :=
  mkDict (ht0 d) (ht1 d) (rehashidx d) n (pauseAutoResize d).

Definition dictSize (d : dict) : Z := u64 (ht_used (ht0 d) + ht_used (ht1 d)).
Definition dictIsRehashing (d : dict) : bool := negb (rehashidx d =? -1).
Definition size_of (d : dict) (t : bool) : Z := DICTHT_SIZE (ht_size_exp (ht_of d t)).
Definition mask_of (d : dict) (t : bool) : Z := DICTHT_SIZE_MASK (ht_size_exp (ht_of d t)).
Definition dictBuckets (d : dict) : Z := size_of d false + size_of d true.
Definition dictPauseRehashing (d : dict) : dict := with_pauserehash d (uwrap 15 (pauserehash d + 1)).
Definition dictResumeRehashing (d : dict) : dict := with_pauserehash d (uwrap 15 (pauserehash d - 1)).

(** A bucket and its update; an index out of range is [None]. *)
Definition bucket (h : ht) (i : Z) : option (list dictEntry) := _ ← guard (0 <=? i); ht_table h !! Z.to_nat i.
Definition set_bucket (h : ht) (i : Z) (b : list dictEntry) : ht :=
  mkHt (<[Z.to_nat i := b]> (ht_table h)) (ht_used h) (ht_size_exp h).
Definition add_used (h : ht) (n : Z) : ht := mkHt (ht_table h) (u64 (ht_used h + n)) (ht_size_exp h).

Definition _dictReset : ht := mkHt [] 0 (-1).
Definition _dictInit : dict := mkDict _dictReset _dictReset (-1) 0 0.
Definition dictCreate : dict := _dictInit.

Context (dict_can_resize : dictResizeEnable).

(** ** Rehashing *)

(** [while (de) { ... }]: the chain [des] of bucket [idx] of the first table. *)
Fixpoint rehash_entries (d : dict) (idx : Z) (des : list dictEntry) : option dict :=
  match des with
  | [] => Some d
  | de :: nextde =>
    let h :=
      if ht_size_exp (ht1 d) >? ht_size_exp (ht0 d)
      then Z.land (hashFunction de.1) (mask_of d true)
      else Z.land idx (mask_of d true) in
    b ← bucket (ht1 d) h;
    let d := with_ht1 d (add_used (set_bucket (ht1 d) h (de :: b)) 1) in
    let d := with_ht0 d (add_used (ht0 d) (-1)) in
    rehash_entries d idx nextde
  end.

Definition rehashEntriesInBucketAtIndex (d : dict) (idx : Z) : option dict :=
  des ← bucket (ht0 d) idx;
  d ← rehash_entries d idx des;
  Some (with_ht0 d (set_bucket (ht0 d) idx [])).

Definition dictCheckRehashingCompleted (d : dict) : dict * bool :=
  if negb (ht_used (ht0 d) =? 0) then (d, false)
  else (mkDict (ht1 d) _dictReset (-1) (pauserehash d) (pauseAutoResize d), true).

(** The test at the top of [dictRehash] and of [_dictBucketRehash]. *)
Definition rehash_avoided (d : dict) : bool :=
  let s0 := size_of d false in
  let s1 := size_of d true in
  resize_eqb dict_can_resize DICT_RESIZE_FORBID || negb (dictIsRehashing d) ||
  resize_eqb dict_can_resize DICT_RESIZE_AVOID &&
    ((s1 >? s0) && (s1 <? dict_force_resize_ratio * s0) ||
     (s1 <? s0) && (s0 <? HASHTABLE_MIN_FILL * dict_force_resize_ratio * s1)).

(** [while(d->ht_table[0][d->rehashidx] == NULL)]: [inl d] is [return 1]. *)
Fixpoint skip_empty (fuel : nat) (d : dict) (empty_visits : Z) : option (dict + dict * Z) :=
  b ← bucket (ht0 d) (rehashidx d);
  match b with
  | _ :: _ => Some (inr (d, empty_visits))
  | [] =>
    match fuel with
    | O => None
    | S fuel =>
      let d := with_rehashidx d (rehashidx d + 1) in
      let empty_visits := empty_visits - 1 in
      if empty_visits =? 0 then Some (inl d) else skip_empty fuel d empty_visits
    end
  end.

Fixpoint dictRehash_loop (n : nat) (d : dict) (empty_visits : Z) : option (dict * bool) :=
  let finish := let '(d, completed) := dictCheckRehashingCompleted d in Some (d, negb completed) in
  match n with
  | O => finish
  | S n =>
    if ht_used (ht0 d) =? 0 then finish
    else
      _ ← guard (size_of d false >? rehashidx d);
      r ← skip_empty (length (ht_table (ht0 d))) d empty_visits;
      match r with
      | inl d => Some (d, true)
      | inr (d, empty_visits) =>
        d ← rehashEntriesInBucketAtIndex d (rehashidx d);
        dictRehash_loop n (with_rehashidx d (rehashidx d + 1)) empty_visits
      end
  end.

(** The flag is the result 1: there are still keys to move. *)
Definition dictRehash (d : dict) (n : nat) : option (dict * bool) :=
  let empty_visits := Z.of_nat n * 10 in
  if rehash_avoided d then Some (d, false)
  else dictRehash_loop n d empty_visits.

Definition _dictRehashStep (d : dict) : option dict :=
  if pauserehash d =? 0 then '(d, _) ← dictRehash d 1; Some d else Some d.

Definition _dictBucketRehash (d : dict) (idx : Z) : option (dict * bool) :=
  if negb (pauserehash d =? 0) then Some (d, false)
  else if rehash_avoided d then Some (d, false)
  else
    d ← rehashEntriesInBucketAtIndex d idx;
    let '(d, _) := dictCheckRehashingCompleted d in
    Some (d, true).

Definition _dictRehashStepIfNeeded (d : dict) (visitedIdx : Z) : option dict :=
  if negb (dictIsRehashing d) || negb (pauserehash d =? 0) then Some d
  else
    inht0 ← (if s64 visitedIdx >=? rehashidx d
             then b ← bucket (ht0 d) visitedIdx; Some (match b with [] => false | _ => true end)
             else Some false);
    if (inht0 : bool) then '(d, _) ← _dictBucketRehash d visitedIdx; Some d
    else '(d, _) ← dictRehash d 1; Some d.

(** ** Resizing *)

(** [while (dictRehash(d, 1000)) {}] *)
Fixpoint full_rehash (fuel : nat) (d : dict) : option dict :=
  '(d, more) ← dictRehash d 1000;
  if (more : bool) then match fuel with O => None | S fuel => full_rehash fuel d end
  else Some d.

(** [malloc_failed] is NULL, or tells whether [ztrycalloc] succeeds; the result
    is the return value DICT_OK and [*malloc_failed]. *)
Definition _dictResize (d : dict) (size : Z) (malloc_failed : option bool) : option (dict * bool * bool) :=
  _ ← guard (negb (dictIsRehashing d));
  let new_ht_size_exp := _dictNextExp size in
  let newsize := DICTHT_SIZE new_ht_size_exp in
  if (newsize <? size) || (u64 (newsize * 8) <? newsize) then Some (d, false, false)
  else if new_ht_size_exp =? ht_size_exp (ht0 d) then Some (d, false, false)
  else
    if match malloc_failed with Some ok => negb ok | None => false end then Some (d, false, true)
    else
      let new := mkHt (replicate (Z.to_nat newsize) []) 0 new_ht_size_exp in
      let d := with_rehashidx (with_ht1 d new) 0 in
      if bool_decide (length (ht_table (ht0 d)) = 0%nat) || (ht_used (ht0 d) =? 0) then
        Some (mkDict new _dictReset (-1) (pauserehash d) (pauseAutoResize d), true, false)
      else
        d ← (if force_full_rehash then full_rehash (length (ht_table (ht0 d))) d else Some d);
        Some (d, true, false).

Definition _dictExpand (d : dict) (size : Z) (malloc_failed : option bool) : option (dict * bool * bool) :=
  if dictIsRehashing d || (ht_used (ht0 d) >? size) || (size_of d false >=? size)
  then Some (d, false, false)
  else _dictResize d size malloc_failed.

(** The flag is DICT_OK. *)
Definition dictExpand (d : dict) (size : Z) : option (dict * bool) :=
  '(d, ok, _) ← _dictExpand d size None; Some (d, ok).

Definition dictTryExpand (d : dict) (size : Z) (alloc_ok : bool) : option (dict * bool) :=
  '(d, _, failed) ← _dictExpand d size (Some alloc_ok); Some (d, negb failed).

Definition dictShrink (d : dict) (size : Z) : option (dict * bool) :=
  if dictIsRehashing d || (ht_used (ht0 d) >? size) || (size_of d false <=? size)
  then Some (d, false)
  else '(d, ok, _) ← _dictResize d size None; Some (d, ok).

Definition dictTypeResizeAllowed (d : dict) (size : Z) : bool :=
  match resizeAllowed with
  | None => true
  | Some f => f (u64 (DICTHT_SIZE (_dictNextExp size) * 8)) (ht_used (ht0 d)) (size_of d false)
  end.

Definition dictExpandIfNeeded (d : dict) : option (dict * bool) :=
  if dictIsRehashing d then Some (d, true)
  else if size_of d false =? 0 then '(d, _) ← dictExpand d DICT_HT_INITIAL_SIZE; Some (d, true)
  else
    if resize_eqb dict_can_resize DICT_RESIZE_ENABLE && (ht_used (ht0 d) >=? size_of d false) ||
       negb (resize_eqb dict_can_resize DICT_RESIZE_FORBID) &&
         (ht_used (ht0 d) >=? dict_force_resize_ratio * size_of d false)
    then
      d ← (if dictTypeResizeAllowed d (u64 (ht_used (ht0 d) + 1))
           then '(d, _) ← dictExpand d (u64 (ht_used (ht0 d) + 1)); Some d else Some d);
      Some (d, true)
    else Some (d, false).

Definition _dictExpandIfNeeded (d : dict) : option (dict * bool) :=
  if pauseAutoResize d >? 0 then Some (d, false) else dictExpandIfNeeded d.

Definition dictShrinkIfNeeded (d : dict) : option (dict * bool) :=
  if dictIsRehashing d then Some (d, true)
  else if size_of d false <=? DICT_HT_INITIAL_SIZE then Some (d, true)
  else
    if resize_eqb dict_can_resize DICT_RESIZE_ENABLE &&
         (u64 (ht_used (ht0 d) * HASHTABLE_MIN_FILL) <=? size_of d false) ||
       negb (resize_eqb dict_can_resize DICT_RESIZE_FORBID) &&
         (u64 (ht_used (ht0 d) * HASHTABLE_MIN_FILL * dict_force_resize_ratio) <=? size_of d false)
    then
      d ← (if dictTypeResizeAllowed d (ht_used (ht0 d))
           then '(d, _) ← dictShrink d (ht_used (ht0 d)); Some d else Some d);
      Some (d, true)
    else Some (d, false).

Definition _dictShrinkIfNeeded (d : dict) : option dict :=
  if pauseAutoResize d >? 0 then Some d else '(d, _) ← dictShrinkIfNeeded d; Some d.

(** ** Lookup *)

(** A link to an entry: the table, the bucket and the place in the chain. *)
Definition link : Type := bool * Z * nat.

(** The walk along a chain. *)
Fixpoint find_chain (key : K) (he : list dictEntry) : option nat :=
  match he with
  | [] => None
  | e :: he => if keyCompare key e.1 then Some O else S <$> find_chain key he
  end.

(** [for (table = 0; table <= 1; table++) { ... }], common to the lookups: the
    link if the key is found, and the last value of [idx]. *)
Definition find_tables (d : dict) (key : K) (hash idx : Z) : option (option link * Z) :=
  let search (t : bool) :=
    let idx := Z.land hash (mask_of d t) in
    he ← bucket (ht_of d t) idx;
    Some ((fun pos => (t, idx, pos)) <$> find_chain key he, idx) in
  r0 ← (if s64 idx <? rehashidx d then Some (None, idx, true)
        else '(r, idx) ← search false; Some (r, idx, dictIsRehashing d));
  let '(r, idx, continue) := r0 in
  match r with
  | Some l => Some (Some l, idx)
  | None => if (continue : bool) then search true else Some (None, idx)
  end.

Definition dictFindLink (d : dict) (key : K) : option (dict * option link) :=
  if dictSize d =? 0 then Some (d, None)
  else
    let hash := hashFunction key in
    let idx := Z.land hash (mask_of d false) in
    d ← _dictRehashStepIfNeeded d idx;
    '(r, _) ← find_tables d key hash idx;
    Some (d, r).

Definition get_link (d : dict) (l : link) : option dictEntry :=
  let '(t, idx, pos) := l in b ← bucket (ht_of d t) idx; b !! pos.

Definition dictFind (d : dict) (key : K) : option (dict * option dictEntry) :=
  '(d, r) ← dictFindLink d key;
  match r with
  | Some l => e ← get_link d l; Some (d, Some e)
  | None => Some (d, None)
  end.

Definition dictFetchValue (d : dict) (key : K) : option (dict * option V) :=
  '(d, r) ← dictFind d key;
  match r with Some he => Some (d, Some he.2) | None => Some (d, None) end.

(** ** Insertion *)

(** [inl] is the link of the existing entry, [inr] the bucket for a new one. *)
Definition dictFindLinkForInsert (d : dict) (key : K) : option (dict * (link + bool * Z)) :=
  let hash := hashFunction key in
  let idx := Z.land hash (mask_of d false) in
  d ← _dictRehashStepIfNeeded d idx;
  '(d, _) ← _dictExpandIfNeeded d;
  '(r, idx) ← find_tables d key hash idx;
  match r with
  | Some l => Some (d, inl l)
  | None => Some (d, inr (dictIsRehashing d, idx))
  end.

(** Inserts the key with its value at the head of the bucket. *)
Definition dictInsertKeyAtLink (d : dict) (key : K) (val : V) (l : bool * Z) : option dict :=
  let '(t, idx) := l in
  let htidx := dictIsRehashing d in
  _ ← guard (Bool.eqb t htidx && (0 <=? idx) && (idx <=? mask_of d htidx));
  b ← bucket (ht_of d htidx) idx;
  Some (with_ht d htidx (add_used (set_bucket (ht_of d htidx) idx ((key, val) :: b)) 1)).

(** [dictFindLinkInternal] with a [bucket] that is not NULL. *)
Definition dictFindLinkInternal (d : dict) (key : K) : option (dict * option link * (bool * Z)) :=
  let hash := hashFunction key in
  let idx := Z.land hash (mask_of d false) in
  d ← _dictRehashStepIfNeeded d idx;
  '(r, idx) ← find_tables d key hash idx;
  Some (d, r, match r with Some (t, idx, _) => (t, idx) | None => (dictIsRehashing d, idx) end).

(** [dictFindLink] with its [bucket], NULL when the dictionary is empty. *)
Definition dictFindLinkBucket (d : dict) (key : K) : option (dict * option link * option (bool * Z)) :=
  if dictSize d =? 0 then Some (d, None, None)
  else '(d, r, b) ← dictFindLinkInternal d key; Some (d, r, Some b).

(** [dictSetKeyAtLink] of a new item ([newItem = 1]), with the value its caller stores. *)
Definition dictSetKeyAtLink (d : dict) (key : K) (val : V) (link : option (bool * Z)) : option dict :=
  let snap0 := ht_size_exp (ht0 d) in
  let snap1 := ht_size_exp (ht1 d) in
  '(d, _) ← dictExpandIfNeeded d;
  let moved := negb (snap0 =? ht_size_exp (ht0 d)) || negb (snap1 =? ht_size_exp (ht1 d)) in
  '(d, b) ← match (if moved then None else link) with
    | Some b => Some (d, b)
    | None =>
      '(d, l, b) ← dictFindLinkInternal d key;
      _ ← guard (match l with None => true | Some _ => false end);
      Some (d, b)
    end;
  dictInsertKeyAtLink d key val b.

Definition dictSetVal (d : dict) (l : link) (val : V) : option dict :=
  let '(t, idx, pos) := l in
  b ← bucket (ht_of d t) idx;
  e ← b !! pos;
  Some (with_ht d t (set_bucket (ht_of d t) idx (<[pos := (e.1, val)]> b))).

(** [dictAddRaw] with the value its caller stores in the new entry; [inr] is
    NULL with the existing entry. *)
Definition dictAddRaw (d : dict) (key : K) (val : V) : option (dict * option link) :=
  '(d, r) ← dictFindLinkForInsert d key;
  match r with
  | inl l => Some (d, Some l)
  | inr b => d ← dictInsertKeyAtLink d key val b; Some (d, None)
  end.

(** The flag is DICT_OK. *)
Definition dictAdd (d : dict) (key : K) (val : V) : option (dict * bool) :=
  '(d, existing) ← dictAddRaw d key val;
  Some (d, match existing with None => true | Some _ => false end).

(** The flag is 1: the key was added from scratch. *)
Definition dictReplace (d : dict) (key : K) (val : V) : option (dict * bool) :=
  '(d, existing) ← dictAddRaw d key val;
  match existing with
  | None => Some (d, true)
  | Some l => d ← dictSetVal d l val; Some (d, false)
  end.

(** ** Deletion *)

Definition unlink_at (d : dict) (l : link) : option (dict * dictEntry) :=
  let '(t, idx, pos) := l in
  b ← bucket (ht_of d t) idx;
  e ← b !! pos;
  Some (with_ht d t (add_used (set_bucket (ht_of d t) idx (delete pos b)) (-1)), e).

(** The entry that was unlinked, or NULL. *)
Definition dictGenericDelete (d : dict) (key : K) : option (dict * option dictEntry) :=
  if dictSize d =? 0 then Some (d, None)
  else
    let h := hashFunction key in
    let idx := Z.land h (mask_of d false) in
    d ← _dictRehashStepIfNeeded d idx;
    '(r, _) ← find_tables d key h idx;
    match r with
    | None => Some (d, None)
    | Some l =>
      '(d, he) ← unlink_at d l;
      d ← _dictShrinkIfNeeded d;
      Some (d, Some he)
    end.

Definition dictDelete (d : dict) (key : K) : option (dict * bool) :=
  '(d, he) ← dictGenericDelete d key; Some (d, match he with Some _ => true | None => false end).

Definition dictUnlink (d : dict) (key : K) : option (dict * option dictEntry) := dictGenericDelete d key.

(** The link and [*table_index] of the key, with rehashing paused, or NULL. *)
Definition dictTwoPhaseUnlinkFind (d : dict) (key : K) : option (dict * option link) :=
  if dictSize d =? 0 then Some (d, None)
  else
    d ← (if dictIsRehashing d then _dictRehashStep d else Some d);
    let h := hashFunction key in
    '(r, _) ← find_tables d key h (Z.land h (mask_of d false));
    match r with
    | Some l => Some (dictPauseRehashing d, Some l)
    | None => Some (d, None)
    end.

Definition dictTwoPhaseUnlinkFree (d : dict) (plink : option link) : option dict :=
  match plink with
  | None => Some d
  | Some l =>
    '(d, _) ← unlink_at d l;
    d ← _dictShrinkIfNeeded d;
    Some (dictResumeRehashing d)
  end.

(** Frees the entries of a table and resets it. *)
Definition _dictClear (d : dict) (t : bool) : dict := with_ht d t _dictReset.

Definition dictEmpty (d : dict) : dict :=
  let d := _dictClear (_dictClear d false) true in
  mkDict (ht0 d) (ht1 d) (-1) 0 0.

End Dict.

Arguments ht : clear implicits.
Arguments dict : clear implicits.

End Dict.
