(* ===== verification/DictSpec.v ===== *)
(** A dictionary is a finite map: the correctness of dict.c.

    The invariant of the two tables, its preservation by every operation, and
    the refinement of a finite map by any sequence of operations. *)

From S2P Require Import Prelude Dict.

Module DictSpec.
Import Dict.

(** * Masks *)

Lemma DICTHT_SIZE_pow e : 0 <= e -> DICTHT_SIZE e = 2 ^ e.
Proof.
  intros He. unfold DICTHT_SIZE. destruct (Z.eqb_spec e (-1)); [lia|].
  by rewrite Z.shiftl_mul_pow2, Z.mul_1_l by done.
Qed.

Lemma land_mask h e : 0 <= e -> Z.land h (DICTHT_SIZE_MASK e) = h mod 2 ^ e.
Proof.
  intros He. unfold DICTHT_SIZE_MASK. destruct (Z.eqb_spec e (-1)); [lia|].
  rewrite DICTHT_SIZE_pow by done. replace (2 ^ e - 1) with (Z.ones e) by (rewrite Z.ones_equiv; lia).
  by apply Z.land_ones.
Qed.

Lemma land_mask_range h e : 0 <= e -> 0 <= Z.land h (DICTHT_SIZE_MASK e) < 2 ^ e.
Proof. intros He. rewrite land_mask by done. apply Z.mod_pos_bound, pow2_pos, He. Qed.

(** The bucket in the smaller table follows from the one in the larger. *)
Lemma land_mask_trans h e e' : 0 <= e' <= e ->
  Z.land (Z.land h (DICTHT_SIZE_MASK e)) (DICTHT_SIZE_MASK e') = Z.land h (DICTHT_SIZE_MASK e').
Proof.
  intros He. rewrite !land_mask by lia. apply Z.mod_mod_divide.
  exists (2 ^ (e - e')). rewrite <- Z.pow_add_r by lia. f_equal. lia.
Qed.

(** * One bucket of a table *)

Lemma concat_bucket {T} (t : list (list T)) i b : t !! i = Some b ->
  exists x y, concat t = x ++ b ++ y /\ forall b', concat (<[i := b']> t) = x ++ b' ++ y.
Proof.
  intros Hi. exists (concat (take i t)), (concat (drop (S i) t)). split.
  - rewrite <- (take_drop_middle t i b Hi) at 1. by rewrite concat_app.
  - intros b'. rewrite insert_take_drop by (by eapply lookup_lt_Some). by rewrite concat_app.
Qed.

Lemma delete_insert_at {T} (l : list T) i x : delete i (<[i := x]> l) = delete i l.
Proof. revert i. induction l as [|y l IH]; intros [|i]; cbn; [done..|]. f_equal. apply IH. Qed.

Section Invariant.
Context {K V : Type} `{DT : DictType K} `{DL : !DictLaws K}.

Abbreviation dict := (dict K V).
Abbreviation ht := (ht K V).
Abbreviation dictEntry := (K * V)%type.

Definition ht_entries (h : ht) : list dictEntry := concat (ht_table h).
Definition entries (d : dict) : list dictEntry := ht_entries (ht0 d) ++ ht_entries (ht1 d).

Definition hash_idx (e : Z) (k : K) : Z := Z.land (hashFunction k) (DICTHT_SIZE_MASK e).

(** A table that is allocated: every entry is in the bucket of its hash. *)
Record ht_ok (h : ht) : Prop := {
  hk_exp : 2 <= ht_size_exp h <= 60;
  hk_len : Z.of_nat (length (ht_table h)) = 2 ^ ht_size_exp h;
  hk_used : ht_used h = Z.of_nat (length (ht_entries h));
  hk_pos i b x : ht_table h !! i = Some b -> x ∈ b -> hash_idx (ht_size_exp h) x.1 = Z.of_nat i
}.

(** The tables during a rehashing: the buckets before [rehashidx] are empty. *)
Record rehashing (d : dict) : Prop := {
  rh_ht0 : ht_ok (ht0 d);
  rh_ht1 : ht_ok (ht1 d);
  rh_idx : 0 <= rehashidx d <= 2 ^ ht_size_exp (ht0 d);
  rh_empty i : (Z.of_nat i < rehashidx d) -> ht_table (ht0 d) !! i = Some []
}.

Definition steady (d : dict) : Prop :=
  rehashidx d = -1 /\ ht1 d = _dictReset /\ (ht0 d = _dictReset \/ ht_ok (ht0 d)).

Definition max_entries : Z := 2 ^ 62.

Record dict_ok (d : dict) : Prop := {
  dk_count : Z.of_nat (length (entries d)) <= max_entries;
  dk_nodup : NoDup (map fst (entries d));
  dk_state : steady d \/ (rehashing d /\ rehashidx d < 2 ^ ht_size_exp (ht0 d))
}.

Lemma bucket_ok h k : ht_ok h ->
  exists b, bucket h (hash_idx (ht_size_exp h) k) = Some b.
Proof.
  intros Hh. pose proof (hk_exp _ Hh) as He. unfold bucket, hash_idx.
  pose proof (land_mask_range (hashFunction k) (ht_size_exp h) ltac:(lia)).
  rewrite (proj2 (Z.leb_le _ _)) by lia. cbn [guard mbind option_bind].
  apply lookup_lt_is_Some_2. pose proof (hk_len _ Hh). lia.
Qed.

Lemma bucket_lookup (h : ht) i b : bucket h i = Some b <-> 0 <= i /\ ht_table h !! Z.to_nat i = Some b.
Proof.
  unfold bucket. destruct (Z.leb_spec 0 i); cbn [guard mbind option_bind]; [|split; [done|lia]]. tauto.
Qed.

(** Putting an entry in its bucket. *)
Lemma push_ok h x b : ht_ok h -> bucket h (hash_idx (ht_size_exp h) x.1) = Some b ->
  ht_used h + 1 < 2 ^ 64 ->
  let h' := add_used (set_bucket h (hash_idx (ht_size_exp h) x.1) (x :: b)) 1 in
  ht_ok h' /\ ht_size_exp h' = ht_size_exp h /\ ht_entries h' ≡ₚ x :: ht_entries h.
Proof.
  intros Hh Hb Hu h'. apply bucket_lookup in Hb as [Hi Hb].
  destruct (concat_bucket _ _ _ Hb) as (p & q & Hc & Hc').
  assert (Hp : ht_entries h' ≡ₚ x :: ht_entries h).
  { unfold ht_entries, h', add_used, set_bucket. cbn [ht_table]. rewrite Hc, Hc'. solve_Permutation. }
  split_and!; [|done|done]. split.
  - apply Hh.
  - unfold h', add_used, set_bucket. cbn [ht_table ht_size_exp]. rewrite length_insert. apply Hh.
  - unfold h' at 1, add_used, set_bucket. cbn [ht_used]. rewrite Hp. cbn [length].
    rewrite uwrap_small, (hk_used _ Hh); [lia|]. pose proof (hk_used _ Hh). unfold urange. lia.
  - unfold h', add_used, set_bucket. cbn [ht_table ht_size_exp]. intros i c y Hc2 Hy.
    apply list_lookup_insert_Some in Hc2 as [(<- & <- & _)|[_ Hc2]]; [|by eapply (hk_pos _ Hh)].
    rewrite Z2Nat.id by done. apply elem_of_cons in Hy as [->|Hy]; [done|].
    rewrite (hk_pos _ Hh _ _ _ Hb Hy). lia.
Qed.

(** * Rehashing *)

Lemma rehash_entries_ok idx des : forall d, ht_ok (ht1 d) -> 2 <= ht_size_exp (ht0 d) ->
  (forall x, x ∈ des -> hash_idx (ht_size_exp (ht0 d)) x.1 = idx) ->
  Z.of_nat (length des) <= ht_used (ht0 d) < 2 ^ 64 ->
  ht_used (ht1 d) + Z.of_nat (length des) < 2 ^ 64 ->
  exists h1, rehash_entries d idx des
      = Some (mkDict (mkHt (ht_table (ht0 d)) (ht_used (ht0 d) - Z.of_nat (length des)) (ht_size_exp (ht0 d)))
                h1 (rehashidx d) (pauserehash d) (pauseAutoResize d)) /\
    ht_ok h1 /\ ht_size_exp h1 = ht_size_exp (ht1 d) /\
    ht_entries h1 ≡ₚ des ++ ht_entries (ht1 d).
Proof.
  induction des as [|x des IH]; intros d H1 He Hpos Hu0 Hu1; cbn [rehash_entries].
  { exists (ht1 d). split_and!; [|done..]. destruct d as [[] ? ? ? ?]. cbn. do 2 f_equal. f_equal. lia. }
  assert (Hh : (if ht_size_exp (ht1 d) >? ht_size_exp (ht0 d)
     then Z.land (hashFunction x.1) (mask_of d true) else Z.land idx (mask_of d true))
     = hash_idx (ht_size_exp (ht1 d)) x.1).
  { unfold mask_of, ht_of, hash_idx. destruct (Z.gtb_spec (ht_size_exp (ht1 d)) (ht_size_exp (ht0 d))) as [|Hle]; [done|].
    rewrite <- (Hpos x) by (by left). unfold hash_idx. apply land_mask_trans. pose proof (hk_exp _ H1). lia. }
  rewrite Hh. destruct (bucket_ok (ht1 d) x.1 H1) as [b Hb]. rewrite Hb. cbn [mbind option_bind].
  cbn [length] in Hu0, Hu1. destruct (push_ok (ht1 d) x b H1 Hb ltac:(lia)) as (Hok & Hexp & Hperm).
  set (h1 := add_used _ 1) in *. set (d' := with_ht0 _ _).
  assert (Hused : u64 (ht_used (ht0 d) + -1) = ht_used (ht0 d) - 1) by (apply uwrap_small; unfold urange; lia).
  destruct (IH d') as (h1' & Heq & Hok' & Hexp' & Hperm').
  - done.
  - done.
  - intros y Hy. apply Hpos. by right.
  - unfold d'. cbn. rewrite Hused. lia.
  - unfold d', h1. cbn. rewrite uwrap_small; [lia|]. pose proof (hk_used _ H1). unfold urange. lia.
  - exists h1'. split_and!; [|done|by rewrite Hexp'|].
    + rewrite Heq. unfold d'. cbn. rewrite Hused. do 2 f_equal. f_equal. lia.
    + rewrite Hperm'. unfold d'. cbn [ht1 with_ht0 with_ht1]. rewrite Hperm. solve_Permutation.
Qed.

(** Emptying a bucket of the first table. *)
Lemma clear_bucket_ok h i b : ht_ok h -> ht_table h !! i = Some b ->
  let h' := mkHt (<[i := []]> (ht_table h)) (ht_used h - Z.of_nat (length b)) (ht_size_exp h) in
  ht_ok h' /\ ht_entries h ≡ₚ b ++ ht_entries h'.
Proof.
  intros Hh Hb h'. destruct (concat_bucket _ _ _ Hb) as (p & q & Hc & Hc').
  assert (Hp : ht_entries h ≡ₚ b ++ ht_entries h').
  { unfold ht_entries, h'. cbn [ht_table]. rewrite Hc, Hc'. solve_Permutation. }
  split; [|done]. split.
  - apply Hh.
  - cbn. rewrite length_insert. apply Hh.
  - change (ht_used h - Z.of_nat (length b) = Z.of_nat (length (ht_entries h'))).
    pose proof (Permutation_length Hp) as E. rewrite length_app in E. rewrite (hk_used _ Hh). lia.
  - cbn. intros j c y [(<- & <- & _)|[_ Hc2]]%list_lookup_insert_Some Hy; [by apply not_elem_of_nil in Hy|].
    by eapply (hk_pos _ Hh).
Qed.

Definition same_conf (d d' : dict) : Prop :=
  pauserehash d' = pauserehash d /\ pauseAutoResize d' = pauseAutoResize d.

Lemma bucket_rehash_ok d i b : rehashing d -> Z.of_nat (length (entries d)) <= max_entries ->
  ht_table (ht0 d) !! i = Some b ->
  exists d', rehashEntriesInBucketAtIndex d (Z.of_nat i) = Some d' /\
    rehashing d' /\ entries d' ≡ₚ entries d /\ same_conf d d' /\
    rehashidx d' = rehashidx d /\ ht_size_exp (ht0 d') = ht_size_exp (ht0 d) /\
    ht_size_exp (ht1 d') = ht_size_exp (ht1 d) /\
    ht_table (ht0 d') = <[i := []]> (ht_table (ht0 d)).
Proof.
  intros [H0 H1 Hidx Hemp] Hc Hb. unfold rehashEntriesInBucketAtIndex, bucket.
  rewrite (proj2 (Z.leb_le _ _)) by lia. cbn [guard mbind option_bind]. rewrite Nat2Z.id, Hb. cbn [mbind option_bind].
  pose proof (hk_used _ H0) as Hu0. pose proof (hk_used _ H1) as Hu1. unfold entries, max_entries in Hc.
  rewrite length_app in Hc. destruct (clear_bucket_ok _ _ _ H0 Hb) as [Hok0 Hp0].
  assert (Hlen : (length b <= length (ht_entries (ht0 d)))%nat) by (rewrite Hp0, length_app; lia).
  destruct (rehash_entries_ok (Z.of_nat i) b d H1) as (h1 & Heq & Hok1 & Hexp1 & Hp1).
  - pose proof (hk_exp _ H0). lia.
  - intros x Hx. by eapply (hk_pos _ H0).
  - lia.
  - lia.
  - rewrite Heq. cbn [mbind option_bind]. eexists. split; [done|]. unfold set_bucket, with_ht0. cbn. rewrite Nat2Z.id.
    split_and!; try done.
    + split; [done|done|done|]. cbn. intros j Hj. destruct (decide (i = j)) as [->|].
      * apply list_lookup_insert_eq. by eapply lookup_lt_Some.
      * rewrite list_lookup_insert_ne by done. by apply Hemp.
    + unfold entries. cbn. rewrite Hp1, Hp0. solve_Permutation.
Qed.

(** While there are entries in the first table, there is a bucket to move. *)
Lemma nonempty_bucket d : rehashing d -> ht_used (ht0 d) <> 0 ->
  exists j x b, ht_table (ht0 d) !! j = Some (x :: b) /\ rehashidx d <= Z.of_nat j /\
    Z.of_nat j < 2 ^ ht_size_exp (ht0 d).
Proof.
  intros [H0 H1 Hidx Hemp] Hu. rewrite (hk_used _ H0) in Hu.
  destruct (ht_entries (ht0 d)) as [|x l] eqn:He; [done|].
  assert (Hx : In x (concat (ht_table (ht0 d)))) by (unfold ht_entries in He; rewrite He; by left).
  apply in_concat in Hx as (b & Hb & Hx). apply list_elem_of_In, list_elem_of_lookup in Hb as [j Hj].
  destruct b as [|y b]; [done|]. exists j, y, b. split_and!; [done| |].
  - destruct (Z.lt_decidable (Z.of_nat j) (rehashidx d)) as [Hlt|]; [|lia]. rewrite (Hemp j Hlt) in Hj. done.
  - pose proof (hk_len _ H0). apply lookup_lt_Some in Hj. lia.
Qed.

Lemma with_rehashidx_same (d : dict) : with_rehashidx d (rehashidx d) = d.
Proof. by destruct d. Qed.

Lemma skip_empty_ok fuel : forall d j x b ev, rehashing d -> ht_table (ht0 d) !! j = Some (x :: b) ->
  rehashidx d <= Z.of_nat j -> (Z.to_nat (Z.of_nat j - rehashidx d) <= fuel)%nat ->
  exists i, rehashidx d <= i <= Z.of_nat j /\ rehashing (with_rehashidx d i) /\
    (skip_empty fuel d ev = Some (inl (with_rehashidx d i)) /\ rehashidx d < i \/
     exists ev' c, skip_empty fuel d ev = Some (inr (with_rehashidx d i, ev')) /\
       ht_table (ht0 d) !! Z.to_nat i = Some c).
Proof.
  induction fuel as [|fuel IH]; intros d j x b ev Hd Hj Hle Hf; pose proof (rh_idx _ Hd) as Hidx.
  - assert (E : rehashidx d = Z.of_nat j) by lia. exists (rehashidx d). rewrite with_rehashidx_same.
    split_and!; [lia..|done|right]. exists ev, (x :: b). rewrite E, Nat2Z.id. split; [|done].
    cbn [skip_empty]. unfold bucket. rewrite E, (proj2 (Z.leb_le _ _)) by lia. cbn [guard mbind option_bind].
    by rewrite Nat2Z.id, Hj.
  - assert (Hlt : Z.of_nat j < 2 ^ ht_size_exp (ht0 d)).
    { pose proof (hk_len _ (rh_ht0 _ Hd)). apply lookup_lt_Some in Hj. lia. }
    destruct (lookup_lt_is_Some_2 (ht_table (ht0 d)) (Z.to_nat (rehashidx d))) as [c Hc].
    { pose proof (hk_len _ (rh_ht0 _ Hd)). lia. }
    cbn [skip_empty]. unfold bucket. rewrite (proj2 (Z.leb_le _ _)) by lia. cbn [guard mbind option_bind].
    rewrite Hc. cbn [mbind option_bind]. destruct c as [|y c].
    + assert (Hne : rehashidx d <> Z.of_nat j) by (intros E; rewrite E, Nat2Z.id in Hc; congruence).
      set (d1 := with_rehashidx d (rehashidx d + 1)).
      assert (Hd1 : rehashing d1).
      { split; [apply Hd|apply Hd|cbn; lia|]. cbn. intros k Hk.
        destruct (decide (Z.of_nat k = rehashidx d)) as [Ek|]; [|apply Hd; lia].
        rewrite <- Ek, Nat2Z.id in Hc. exact Hc. }
      destruct (ev - 1 =? 0).
      * exists (rehashidx d + 1). split_and!; [lia..|done|left; split; [done|lia]].
      * destruct (IH d1 j x b (ev - 1) Hd1 Hj) as (i & Hi & Hri & Hcase); [cbn; lia..|].
        exists i. cbn in Hi, Hcase. split_and!; [lia..|done|].
        destruct Hcase as [[Hc1 Hc2]|Hc1]; [left; split; [exact Hc1|lia]|right; exact Hc1].
    + exists (rehashidx d). rewrite with_rehashidx_same. split_and!; [lia..|done|right]. by exists ev, (y :: c).
Qed.

(** What a rehashing function leaves: the same entries in a right dictionary,
    and the sizes of the tables unless the rehashing is over. *)
Record rehashed (d d' : dict) : Prop := {
  re_ok : dict_ok d';
  re_perm : entries d' ≡ₚ entries d;
  re_conf : same_conf d d';
  re_exp : rehashidx d' = -1 \/
    (ht_size_exp (ht0 d') = ht_size_exp (ht0 d) /\ ht_size_exp (ht1 d') = ht_size_exp (ht1 d) /\
     dictIsRehashing d' = dictIsRehashing d);
  re_alloc : ht_ok (ht0 d) -> ht_ok (ht0 d')
}.

Lemma nodup_perm (l l' : list dictEntry) : l' ≡ₚ l -> NoDup (map fst l) -> NoDup (map fst l').
Proof. intros Hp. by rewrite Hp. Qed.

Lemma check_completed_ok d : rehashing d -> Z.of_nat (length (entries d)) <= max_entries ->
  NoDup (map fst (entries d)) ->
  let '(d', completed) := dictCheckRehashingCompleted d in
  rehashed d d' /\ (completed = true <-> rehashidx d' = -1).
Proof.
  intros Hd Hc Hn. unfold dictCheckRehashingCompleted. destruct (Z.eqb_spec (ht_used (ht0 d)) 0) as [Hu|Hu]; cbn [negb].
  - assert (He : ht_entries (ht0 d) = []).
    { rewrite (hk_used _ (rh_ht0 _ Hd)) in Hu. apply nil_length_inv. lia. }
    set (d' := mkDict (ht1 d) _dictReset (-1) (pauserehash d) (pauseAutoResize d)).
    assert (Hp : entries d' = entries d).
    { unfold entries. rewrite He. cbn. apply app_nil_r. }
    split; [|done]. split; [|by rewrite Hp|done|by left|intros _; apply Hd].
    split; [by rewrite Hp..|left]. split; [done|]. split; [done|]. right. apply Hd.
  - destruct (nonempty_bucket d Hd Hu) as (j & x & b & Hj & Hle & Hlt). pose proof (rh_idx _ Hd).
    split; [|split; [done|lia]]. split; [|done|done|by right|done]. split; [done..|]. right. split; [done|lia].
Qed.

Lemma dictRehash_loop_ok n : forall d ev, rehashing d -> Z.of_nat (length (entries d)) <= max_entries ->
  NoDup (map fst (entries d)) ->
  exists d' more, dictRehash_loop n d ev = Some (d', more) /\ rehashed d d' /\
    (more = false -> rehashidx d' = -1) /\
    (more = true -> rehashidx d <= rehashidx d' /\ ((0 < n)%nat -> rehashidx d < rehashidx d')).
Proof.
  induction n as [|n IH]; intros d ev Hd Hc Hn.
  { cbn [dictRehash_loop]. pose proof (check_completed_ok d Hd Hc Hn) as H.
    destruct (dictCheckRehashingCompleted d) as [d' c] eqn:Hd'. destruct H as [H Hcd]. eexists _, _. split; [done|].
    split; [done|]. split; [intros E; apply Hcd; by destruct c|].
    unfold dictCheckRehashingCompleted in Hd'. intros ->%negb_true_iff. destruct (ht_used (ht0 d) =? 0); [done|].
    injection Hd' as <-. split; lia. }
  cbn [dictRehash_loop]. destruct (Z.eqb_spec (ht_used (ht0 d)) 0) as [Hu|Hu].
  { pose proof (check_completed_ok d Hd Hc Hn) as H. unfold dictCheckRehashingCompleted in *. rewrite Hu in *.
    cbn in *. eexists _, _. split; [done|]. split; [apply H|]. split; [done|done]. }
  destruct (nonempty_bucket d Hd Hu) as (j & x & b & Hj & Hle & Hlt). pose proof (rh_idx _ Hd) as Hidx.
  pose proof (hk_exp _ (rh_ht0 _ Hd)) as Hexp. pose proof (hk_len _ (rh_ht0 _ Hd)) as Hlen.
  assert (Hg : (size_of d false >? rehashidx d) = true).
  { unfold size_of, ht_of. rewrite DICTHT_SIZE_pow by lia. destruct (Z.gtb_spec (2 ^ ht_size_exp (ht0 d)) (rehashidx d)); lia. }
  rewrite Hg. cbn [guard mbind option_bind].
  destruct (skip_empty_ok (length (ht_table (ht0 d))) d j x b ev Hd Hj Hle ltac:(lia)) as (i & Hi & Hri & Hcase).
  destruct Hcase as [Hs|(ev' & c & Hs & Hbi)].
  - destruct Hs as [Hs Hprog]. rewrite Hs. cbn [mbind option_bind]. exists (with_rehashidx d i), true.
    split; [done|]. split; [|split; [done|cbn; lia]]. split; [|done|done| |done].
    2: { right. split_and!; [done..|]. unfold dictIsRehashing. cbn. lia. }
    split; [done|done|]. right. split; [done|cbn; lia].
  - rewrite Hs. cbn [mbind option_bind]. set (d1 := with_rehashidx d i) in *.
    assert (Hi0 : 0 <= i) by lia.
    destruct (bucket_rehash_ok d1 (Z.to_nat i) c Hri Hc Hbi) as (d2 & Heq & Hr2 & Hp2 & Hconf & Hidx2 & Hexp2 & Hexp21 & Ht2).
    rewrite Z2Nat.id in Heq by done. change (rehashidx d1) with i. rewrite Heq. cbn [mbind option_bind].
    set (d3 := with_rehashidx d2 (rehashidx d2 + 1)).
    assert (Hr3 : rehashing d3).
    { split; [apply Hr2|apply Hr2| |].
      - unfold d3. cbn. rewrite Hidx2, Hexp2. unfold d1. cbn. lia.
      - intros k Hk. unfold d3 in *. cbn in *. destruct (decide (k = Z.to_nat i)) as [->|].
        + rewrite Ht2. apply list_lookup_insert_eq. by eapply lookup_lt_Some.
        + apply Hr2. rewrite Hidx2 in *. unfold d1 in *. cbn in *. lia. }
    assert (Hp3 : entries d3 ≡ₚ entries d) by exact Hp2.
    destruct (IH d3 ev' Hr3) as (d' & more & Heq' & [Hok' Hp' Hcf' Hex' Hal'] & Hm1 & Hm2).
    { by rewrite Hp3. } { eapply nodup_perm; [exact Hp3|done]. }
    exists d', more. split; [done|]. split; [split|split].
    + done.
    + by rewrite Hp', Hp3.
    + destruct Hcf' as [E1 E2], Hconf as [F1 F2]. split; [rewrite E1; exact F1|rewrite E2; exact F2].
    + destruct Hex' as [|(E1 & E2 & E3)]; [by left|right]. rewrite E1, E2, E3. split_and!; [exact Hexp2|exact Hexp21|].
      unfold d3, dictIsRehashing. cbn. rewrite Hidx2. unfold d1. cbn. lia.
    + intros _. apply Hal', Hr3.
    + done.
    + intros Hmt. destruct (Hm2 Hmt) as [Hm3 _]. unfold d3, d1 in *. cbn in *. rewrite Hidx2 in Hm3. cbn in Hm3. lia.
Qed.

Lemma rehashed_refl (d : dict) : dict_ok d -> rehashed d d.
Proof. intros Hd. split; [done|done|done|by right|done]. Qed.

Lemma rehashed_trans d1 d2 d3 : rehashed d1 d2 -> rehashed d2 d3 -> rehashed d1 d3.
Proof.
  intros [H1 P1 [C1 C1'] E1 A1] [H2 P2 [C2 C2'] E2 A2]. split; [done|by rewrite P2|by split; congruence| |by auto].
  destruct E2 as [|(E2 & E2' & E2'')]; [by left|]. destruct E1 as [E1|(E1 & E1' & E1'')]; [|right; split_and!; congruence].
  left. unfold dictIsRehashing in E2''. rewrite E1 in E2''. cbn in E2''. lia.
Qed.

(** A dictionary that is being rehashed. *)
Lemma dict_ok_rehashing d : dict_ok d -> dictIsRehashing d = true ->
  rehashing d /\ rehashidx d < 2 ^ ht_size_exp (ht0 d).
Proof.
  intros [_ _ [[Hr _]|?]] Hi; [|done]. unfold dictIsRehashing in Hi. rewrite Hr in Hi. done.
Qed.

Lemma dict_ok_steady d : dict_ok d -> dictIsRehashing d = false -> steady d.
Proof.
  intros [_ _ [?|[Hr _]]] Hi; [done|]. pose proof (rh_idx _ Hr). unfold dictIsRehashing in Hi. lia.
Qed.

Section Mode.
Context (mode : dictResizeEnable).

Lemma avoided_false (d : dict) : rehash_avoided mode d = false -> dictIsRehashing d = true.
Proof.
  unfold rehash_avoided. destruct (dictIsRehashing d); [done|]. by destruct (resize_eqb mode DICT_RESIZE_FORBID).
Qed.

Lemma avoided_same (d d' : dict) : dictIsRehashing d' = dictIsRehashing d ->
  ht_size_exp (ht0 d') = ht_size_exp (ht0 d) -> ht_size_exp (ht1 d') = ht_size_exp (ht1 d) ->
  rehash_avoided mode d' = rehash_avoided mode d.
Proof. intros E1 E2 E3. unfold rehash_avoided, size_of, ht_of. by rewrite E1, E2, E3. Qed.

Lemma dictRehash_ok (d : dict) n : dict_ok d ->
  exists d' more, dictRehash mode d n = Some (d', more) /\ rehashed d d' /\
    (rehash_avoided mode d = true -> d' = d /\ more = false) /\
    (rehash_avoided mode d = false ->
       (more = false -> rehashidx d' = -1) /\ (more = true -> (0 < n)%nat -> rehashidx d < rehashidx d')).
Proof.
  intros Hd. unfold dictRehash. destruct (rehash_avoided mode d) eqn:Ha.
  - exists d, false. split; [done|]. split; [by apply rehashed_refl|]. split; [done|done].
  - destruct (dict_ok_rehashing d Hd (avoided_false d Ha)) as [Hr _].
    destruct (dictRehash_loop_ok n d (Z.of_nat n * 10) Hr (dk_count _ Hd) (dk_nodup _ Hd)) as (d' & more & Heq & Hre & H1 & H2).
    exists d', more. split; [done|]. split; [done|]. split; [done|]. intros _. split; [done|].
    intros Hm Hn. destruct (H2 Hm) as [_ H3]. by apply H3.
Qed.

Lemma rehashStep_ok (d : dict) : dict_ok d -> exists d', _dictRehashStep mode d = Some d' /\ rehashed d d'.
Proof.
  intros Hd. unfold _dictRehashStep. destruct (pauserehash d =? 0); [|exists d; split; [done|by apply rehashed_refl]].
  destruct (dictRehash_ok d 1 Hd) as (d' & more & -> & Hr & _). by exists d'.
Qed.

Lemma bucketRehash_ok (d : dict) i : dict_ok d -> dictIsRehashing d = true ->
  0 <= i < 2 ^ ht_size_exp (ht0 d) ->
  exists d' b, _dictBucketRehash mode d i = Some (d', b) /\ rehashed d d'.
Proof.
  intros Hd Hi Hr. unfold _dictBucketRehash.
  destruct (pauserehash d =? 0); cbn [negb]; [|exists d, false; split; [done|by apply rehashed_refl]].
  destruct (rehash_avoided mode d); [exists d, false; split; [done|by apply rehashed_refl]|].
  destruct (dict_ok_rehashing d Hd Hi) as [Hrh Hlt].
  destruct (lookup_lt_is_Some_2 (ht_table (ht0 d)) (Z.to_nat i)) as [b Hb].
  { pose proof (hk_len _ (rh_ht0 _ Hrh)). lia. }
  destruct (bucket_rehash_ok d (Z.to_nat i) b Hrh (dk_count _ Hd) Hb) as (d1 & Heq & Hr1 & Hp1 & Hcf & Hidx & He0 & He1 & _).
  rewrite Z2Nat.id in Heq by lia. rewrite Heq. cbn [mbind option_bind].
  pose proof (check_completed_ok d1 Hr1) as Hc. specialize (Hc ltac:(rewrite Hp1; apply Hd)).
  specialize (Hc ltac:(eapply nodup_perm; [exact Hp1|apply Hd])).
  destruct (dictCheckRehashingCompleted d1) as [d2 c]. destruct Hc as [[Hok P C E A] _].
  exists d2, true. split; [done|]. split; [done|by rewrite P| | |intros _; apply A, Hr1].
  - destruct C, Hcf. split; congruence.
  - destruct E as [|(E1 & E2 & E3)]; [by left|right]. rewrite E1, E2, E3. split_and!; [done..|].
    unfold dictIsRehashing. by rewrite Hidx.
Qed.

Lemma rehashStepIfNeeded_ok (d : dict) k : dict_ok d ->
  exists d', _dictRehashStepIfNeeded mode d (Z.land (hashFunction k) (mask_of d false)) = Some d' /\ rehashed d d'.
Proof.
  intros Hd. unfold _dictRehashStepIfNeeded. destruct (dictIsRehashing d) eqn:Hi; cbn [negb orb];
    [|exists d; split; [done|by apply rehashed_refl]].
  destruct (pauserehash d =? 0); cbn [negb]; [|exists d; split; [done|by apply rehashed_refl]].
  destruct (dict_ok_rehashing d Hd Hi) as [Hr Hlt]. pose proof (hk_exp _ (rh_ht0 _ Hr)) as Hexp.
  set (i := Z.land _ _). assert (Hir : 0 <= i < 2 ^ ht_size_exp (ht0 d)).
  { apply land_mask_range. cbn. lia. }
  destruct (dictRehash_ok d 1 Hd) as (d1 & m1 & Hd1 & Hr1 & _).
  destruct (bucketRehash_ok d i Hd Hi Hir) as (d2 & b2 & Hd2 & Hr2).
  destruct (bucket_ok (ht0 d) k (rh_ht0 _ Hr)) as [c Hc]. change (hash_idx _ k) with i in Hc.
  destruct (s64 i >=? rehashidx d).
  - rewrite Hc. cbn [mbind option_bind]. destruct c as [|x c].
    + rewrite Hd1. by exists d1. + rewrite Hd2. by exists d2.
  - cbn [mbind option_bind]. rewrite Hd1. by exists d1.
Qed.

(** * Resizing *)

(** The size is rounded up to a power of two; the check for an overflow of the
    table's size in bytes bounds the exponent. *)
Lemma nextExp_ok size : 0 <= size ->
  (DICTHT_SIZE (_dictNextExp size) <? size) || (u64 (DICTHT_SIZE (_dictNextExp size) * 8) <? DICTHT_SIZE (_dictNextExp size)) = false ->
  2 <= _dictNextExp size <= 60 /\ size <= 2 ^ _dictNextExp size.
Proof.
  intros Hs. assert (Hlo : 2 <= _dictNextExp size <= 64).
  { unfold _dictNextExp, DICT_HT_INITIAL_SIZE, DICT_HT_INITIAL_EXP, LONG_MAX. change (Z.shiftl 1 2) with 4.
    destruct (Z.leb_spec size 4); [lia|]. destruct (Z.geb_spec size (2 ^ 63 - 1)); [lia|].
    pose proof (Z.log2_le_mono 2 (size - 1) ltac:(lia)) as Hl. change (Z.log2 2) with 1 in Hl.
    pose proof (Z.log2_lt_pow2 (size - 1) 63 ltac:(lia)) as [Hu _]. specialize (Hu ltac:(lia)). lia. }
  rewrite DICTHT_SIZE_pow by lia. intros [H1%Z.ltb_ge H2%Z.ltb_ge]%orb_false_iff. split; [|done]. split; [lia|].
  destruct (decide (_dictNextExp size <= 60)) as [|Hgt]; [done|exfalso].
  replace (2 ^ _dictNextExp size * 8) with (2 ^ 64 * 2 ^ (_dictNextExp size - 61)) in H2.
  2: { rewrite <- Z.pow_add_r by lia. change 8 with (2 ^ 3). rewrite <- Z.pow_add_r by lia. f_equal. lia. }
  unfold u64, uwrap in H2. rewrite Z.mul_comm, Z.mod_mul in H2 by done.
  pose proof (Z.pow_pos_nonneg 2 (_dictNextExp size) ltac:(lia) ltac:(lia)). lia.
Qed.

Lemma concat_replicate_nil {T} n : concat (replicate n ([] : list T)) = [].
Proof. by induction n. Qed.

Lemma new_ht_ok e : 2 <= e <= 60 -> ht_ok (mkHt (replicate (Z.to_nat (2 ^ e)) []) 0 e).
Proof.
  intros He. split; cbn.
  - done.
  - rewrite length_replicate. lia.
  - unfold ht_entries. cbn. by rewrite concat_replicate_nil.
  - intros i b x [-> _]%lookup_replicate Hx. by apply not_elem_of_nil in Hx.
Qed.

Lemma full_rehash_avoided fuel (d : dict) : dict_ok d -> rehash_avoided mode d = true ->
  full_rehash mode fuel d = Some d.
Proof.
  intros Hd Ha. destruct (dictRehash_ok d 1000 Hd) as (d1 & more & Heq & _ & Hav & _).
  destruct (Hav Ha) as [-> ->]. destruct fuel; cbn [full_rehash]; by rewrite Heq.
Qed.

Lemma full_rehash_completes fuel : forall (d : dict), dict_ok d -> rehash_avoided mode d = false ->
  2 ^ ht_size_exp (ht0 d) - rehashidx d <= Z.of_nat fuel ->
  exists d', full_rehash mode fuel d = Some d' /\ rehashed d d' /\ rehashidx d' = -1.
Proof.
  induction fuel as [|fuel IH]; intros d Hd Hav Hf; cbn [full_rehash];
    destruct (dictRehash_ok d 1000 Hd) as (d1 & more & -> & Hr & _ & Hna); cbn [mbind option_bind];
    destruct (Hna Hav) as [Hdone Hmore];
    (destruct more; [|exists d1; by split_and!; [| |apply Hdone]]);
    specialize (Hmore eq_refl ltac:(lia));
    destruct (dict_ok_rehashing d Hd (avoided_false d Hav)) as [Hrd Hlt]; pose proof (rh_idx _ Hrd) as Hidx.
  { lia. }
  destruct (re_exp _ _ Hr) as [?|(E0 & E1 & Er)]; [lia|].
  destruct (IH d1 (re_ok _ _ Hr)) as (d' & -> & Hr' & Hend).
  { by rewrite (avoided_same d). } { rewrite E0. lia. }
  exists d'. split; [done|]. split; [by eapply rehashed_trans|done].
Qed.

Lemma full_rehash_ok fuel (d : dict) : dict_ok d -> 2 ^ ht_size_exp (ht0 d) - rehashidx d <= Z.of_nat fuel ->
  exists d', full_rehash mode fuel d = Some d' /\ rehashed d d' /\ (rehashidx d' = -1 \/ d' = d).
Proof.
  intros Hd Hf. destruct (rehash_avoided mode d) eqn:Ha.
  - exists d. split_and!; [by apply full_rehash_avoided|by apply rehashed_refl|by right].
  - destruct (full_rehash_completes fuel d Hd Ha Hf) as (d' & ? & ? & ?). exists d'. by split_and!; [| |left].
Qed.

(** What a resizing function leaves. *)
Record resized (d d' : dict) : Prop := {
  rz_ok : dict_ok d';
  rz_perm : entries d' ≡ₚ entries d;
  rz_conf : same_conf d d';
  rz_idx : rehashidx d' <= 0 \/ d' = d;
  rz_alloc : ht_ok (ht0 d) -> ht_ok (ht0 d')
}.

Lemma resized_refl (d : dict) : dict_ok d -> resized d d.
Proof. intros Hd. by split; [| | |right|]. Qed.

Lemma dict_ok_ht0 (d : dict) : dict_ok d -> ht0 d = _dictReset \/ ht_ok (ht0 d).
Proof. intros [_ _ [(_ & _ & H)|[H _]]]; [done|right; apply H]. Qed.

(** A new table next to the first one. *)
Lemma start_rehash_ok (d : dict) e : dict_ok d -> steady d -> ht_ok (ht0 d) -> 2 <= e <= 60 ->
  let d' := with_rehashidx (with_ht1 d (mkHt (replicate (Z.to_nat (2 ^ e)) []) 0 e)) 0 in
  dict_ok d' /\ entries d' = entries d.
Proof.
  intros Hd (Hi & H1 & _) H0 He d'. assert (E : entries d' = entries d).
  { unfold entries, d', ht_entries. cbn. by rewrite H1, concat_replicate_nil. }
  split; [|done]. split; [rewrite E; apply Hd|rewrite E; apply Hd|]. right.
  pose proof (pow2_pos (ht_size_exp (ht0 d)) ltac:(pose proof (hk_exp _ H0); lia)).
  split; [|cbn; lia]. split; [done|by apply new_ht_ok|cbn; lia|cbn; lia].
Qed.

Lemma dictResize_ok (d : dict) size mf : dict_ok d -> dictIsRehashing d = false -> 0 <= size ->
  exists d' ok failed, _dictResize mode d size mf = Some (d', ok, failed) /\ resized d d' /\
    (ok = true -> ht_ok (ht0 d')).
Proof.
  intros Hd Hi Hs. unfold _dictResize. rewrite Hi. cbn [negb guard mbind option_bind].
  destruct (_ || _) eqn:Hov; [exists d, false, false; by split_and!; [|apply resized_refl|]|].
  destruct (nextExp_ok size Hs Hov) as [He Hle].
  destruct (_dictNextExp size =? _); [exists d, false, false; by split_and!; [|apply resized_refl|]|].
  destruct (match mf with Some ok => negb ok | None => false end); [exists d, false, true; by split_and!; [|apply resized_refl|]|].
  rewrite DICTHT_SIZE_pow by lia. set (new := mkHt _ _ _). pose proof (dict_ok_steady d Hd Hi) as Hst.
  assert (Hnew : ht_ok new) by (by apply new_ht_ok). set (e := _dictNextExp size) in *.
  destruct (bool_decide _ || _) eqn:Hempty.
  - eexists _, true, false. split; [done|]. cbn. split; [|by auto].
    destruct Hst as (_ & H1 & H0). assert (Hent : entries d = []).
    { unfold entries. rewrite H1. cbn. rewrite app_nil_r. apply orb_true_iff in Hempty as [Hl%bool_decide_eq_true|Hu].
      - cbn in Hl. apply nil_length_inv in Hl. unfold ht_entries. by rewrite Hl.
      - cbn in Hu. destruct H0 as [->|H0]; [done|]. rewrite (hk_used _ H0) in Hu. apply nil_length_inv. lia. }
    set (d' := mkDict _ _ _ _ _). assert (E : entries d' = []).
    { unfold entries, d', ht_entries. cbn. by rewrite concat_replicate_nil. }
    split; [|by rewrite E, Hent|done|left; cbn; lia|done].
    split; [by rewrite E|rewrite E; constructor|]. left. split; [done|]. split; [done|]. by right.
  - assert (H0 : ht_ok (ht0 d)).
    { destruct (dict_ok_ht0 d Hd) as [E|]; [|done]. cbn in Hempty. by rewrite E in Hempty. }
    destruct (start_rehash_ok d e Hd Hst H0 He) as [Hd1 He1]. fold new in Hd1, He1.
    set (d1 := with_rehashidx (with_ht1 d new) 0) in *. cbn [ht0 with_rehashidx with_ht1] in *.
    assert (Hfull : exists d', (if force_full_rehash then full_rehash mode (length (ht_table (ht0 d1))) d1 else Some d1) = Some d' /\
      rehashed d1 d' /\ (rehashidx d' = -1 \/ d' = d1)).
    { destruct force_full_rehash; [|exists d1; by split_and!; [|apply rehashed_refl|right]].
      apply full_rehash_ok; [done|]. pose proof (hk_len _ H0). cbn. lia. }
    destruct Hfull as (d' & Hf & Hr & Hend).
    exists d', true, false. split; [by etransitivity; [apply (f_equal (fun x => d2 ← x; Some (d2, true, false)) Hf)|]|].
    assert (H0' : ht_ok (ht0 d')).
    { destruct Hend as [Hend| ->]; [|done]. destruct (dict_ok_ht0 d' (re_ok _ _ Hr)) as [E|]; [|done].
      exfalso. pose proof (re_perm _ _ Hr) as Hp. rewrite He1 in Hp. cbn in Hempty.
      assert (Hst' : steady d') by (apply dict_ok_steady; [apply Hr|unfold dictIsRehashing; by rewrite Hend]).
      destruct Hst' as (_ & E1 & _). unfold entries in Hp at 1. rewrite E, E1 in Hp. cbn in Hp.
      symmetry in Hp. apply Permutation_nil_r in Hp. unfold entries in Hp. apply app_nil in Hp as [Hp _].
      pose proof (hk_used _ H0) as Hu. rewrite Hp in Hu. cbn in Hu. rewrite Hu, orb_true_r in Hempty. done. }
    split; [|done]. split; [apply Hr|by rewrite (re_perm _ _ Hr), He1|apply (re_conf _ _ Hr)| |done].
    left. destruct Hend as [-> | ->]; [lia|done].
Qed.

Lemma dictExpand_raw_ok (d : dict) size mf : dict_ok d -> 0 <= size ->
  exists d' ok failed, _dictExpand mode d size mf = Some (d', ok, failed) /\ resized d d'.
Proof.
  intros Hd Hs. unfold _dictExpand. destruct (dictIsRehashing d) eqn:Hi; cbn [orb].
  { exists d, false, false. by split; [|apply resized_refl]. }
  destruct (_ || _); [exists d, false, false; by split; [|apply resized_refl]|].
  destruct (dictResize_ok d size mf Hd Hi Hs) as (d' & ok & f & -> & Hr & _). by exists d', ok, f.
Qed.

Lemma dictExpand_ok (d : dict) size : dict_ok d -> 0 <= size ->
  exists d' ok, dictExpand mode d size = Some (d', ok) /\ resized d d'.
Proof.
  intros Hd Hs. unfold dictExpand. destruct (dictExpand_raw_ok d size None Hd Hs) as (d' & ok & f & -> & Hr).
  by exists d', ok.
Qed.

Lemma dictTryExpand_ok (d : dict) size b : dict_ok d -> 0 <= size ->
  exists d' ok, dictTryExpand mode d size b = Some (d', ok) /\ resized d d'.
Proof.
  intros Hd Hs. unfold dictTryExpand. destruct (dictExpand_raw_ok d size (Some b) Hd Hs) as (d' & ok & f & -> & Hr).
  by exists d', (negb f).
Qed.

Lemma dictShrink_ok (d : dict) size : dict_ok d -> 0 <= size ->
  exists d' ok, dictShrink mode d size = Some (d', ok) /\ resized d d'.
Proof.
  intros Hd Hs. unfold dictShrink. destruct (dictIsRehashing d) eqn:Hi; cbn [orb].
  { exists d, false. by split; [|apply resized_refl]. }
  destruct (_ || _); [exists d, false; by split; [|apply resized_refl]|].
  destruct (dictResize_ok d size None Hd Hi Hs) as (d' & ok & f & -> & Hr & _). by exists d', ok.
Qed.

(** The first table is allocated by an expansion to the initial size. *)
Lemma dictExpand_initial (d : dict) : dict_ok d -> ht0 d = _dictReset -> dictIsRehashing d = false ->
  exists d', dictExpand mode d DICT_HT_INITIAL_SIZE = Some (d', true) /\ resized d d' /\ ht_ok (ht0 d').
Proof.
  intros Hd H0 Hi. unfold dictExpand, _dictExpand, size_of, ht_of. rewrite Hi, H0. cbn [orb].
  change (_ || _) with false. cbv iota.
  destruct (dictResize_ok d DICT_HT_INITIAL_SIZE None Hd Hi ltac:(done)) as (d' & ok & f & Heq & Hr & Hok).
  assert (ok = true) as ->.
  { revert Heq. unfold _dictResize. rewrite Hi, H0. change (_dictNextExp DICT_HT_INITIAL_SIZE) with 2.
    change ((DICTHT_SIZE 2 <? _) || _) with false. change (2 =? _) with false. cbn. rewrite H0. rewrite bool_decide_eq_true_2 by done. cbn. congruence. }
  rewrite Heq. exists d'. by split_and!; [| |apply Hok].
Qed.

Lemma size_of_reset (d : dict) : dict_ok d -> ht0 d = _dictReset \/ ht_ok (ht0 d) /\ 4 <= size_of d false.
Proof.
  intros Hd. destruct (dict_ok_ht0 d Hd) as [|H]; [by left|right]. split; [done|].
  pose proof (hk_exp _ H). unfold size_of, ht_of. rewrite DICTHT_SIZE_pow by lia.
  change 4 with (2 ^ 2). apply Z.pow_le_mono_r; lia.
Qed.

Lemma dictExpandIfNeeded_ok (d : dict) : dict_ok d ->
  exists d' b, dictExpandIfNeeded mode d = Some (d', b) /\ resized d d' /\ ht_ok (ht0 d').
Proof.
  intros Hd. unfold dictExpandIfNeeded. destruct (dictIsRehashing d) eqn:Hi.
  { exists d, true. split_and!; [done|by apply resized_refl|]. by apply dict_ok_rehashing. }
  destruct (size_of_reset d Hd) as [H0|[H0 Hsz]].
  { destruct (dictExpand_initial d Hd H0 Hi) as (d' & Heq & Hr & Hok). unfold size_of, ht_of. rewrite H0. cbn -[dictExpand].
    rewrite Heq. by exists d', true. }
  destruct (Z.eqb_spec (size_of d false) 0); [lia|]. destruct (_ || _).
  - destruct (dictTypeResizeAllowed d _).
    + destruct (dictExpand_ok d (u64 (ht_used (ht0 d) + 1)) Hd) as (d' & ok & -> & Hr).
      { by apply uwrap_range. } exists d', true. split_and!; [done..|by apply (rz_alloc _ _ Hr)].
    + exists d, true. by split_and!; [|apply resized_refl|].
  - exists d, false. by split_and!; [|apply resized_refl|].
Qed.

Lemma dictShrinkIfNeeded_ok (d : dict) : dict_ok d ->
  exists d' b, dictShrinkIfNeeded mode d = Some (d', b) /\ resized d d'.
Proof.
  intros Hd. unfold dictShrinkIfNeeded. destruct (dictIsRehashing d) eqn:Hi.
  { exists d, true. by split; [|apply resized_refl]. }
  destruct (_ <=? _); [exists d, true; by split; [|apply resized_refl]|].
  destruct (_ || _); [|exists d, false; by split; [|apply resized_refl]].
  destruct (dictTypeResizeAllowed d _); [|exists d, true; by split; [|apply resized_refl]].
  destruct (dictShrink_ok d (ht_used (ht0 d)) Hd) as (d' & ok & -> & Hr); [|by exists d', true].
  destruct (dict_ok_ht0 d Hd) as [->|H0]; [done|]. rewrite (hk_used _ H0). lia.
Qed.

Lemma autoShrink_ok (d : dict) : dict_ok d -> exists d', _dictShrinkIfNeeded mode d = Some d' /\ resized d d'.
Proof.
  intros Hd. unfold _dictShrinkIfNeeded. destruct (pauseAutoResize d >? 0); [exists d; by split; [|apply resized_refl]|].
  destruct (dictShrinkIfNeeded_ok d Hd) as (d' & b & -> & Hr). by exists d'.
Qed.

(** Automatic resizing allocates the first table, unless it is paused. *)
Lemma autoExpand_ok (d : dict) : dict_ok d -> ht_ok (ht0 d) \/ pauseAutoResize d <= 0 ->
  exists d' b, _dictExpandIfNeeded mode d = Some (d', b) /\ resized d d' /\ ht_ok (ht0 d').
Proof.
  intros Hd Ha. unfold _dictExpandIfNeeded. destruct (Z.gtb_spec (pauseAutoResize d) 0).
  - exists d, false. split_and!; [done|by apply resized_refl|]. by destruct Ha; [|lia].
  - by apply dictExpandIfNeeded_ok.
Qed.

End Mode.

(** * Lookup *)

(** Every entry is in the bucket of its hash. *)
Lemma in_bucket h x b : ht_ok h -> bucket h (hash_idx (ht_size_exp h) x.1) = Some b ->
  x ∈ ht_entries h -> x ∈ b.
Proof.
  intros Hh [_ Hb]%bucket_lookup Hx. apply list_elem_of_In, in_concat in Hx as (c & Hc & Hx%list_elem_of_In).
  apply list_elem_of_In, list_elem_of_lookup in Hc as [i Hc].
  rewrite (hk_pos _ Hh _ _ _ Hc Hx), Nat2Z.id in Hb. assert (E : Some b = Some c) by (etransitivity; [symmetry; exact Hb|exact Hc]). by injection E as ->.
Qed.

Lemma find_chain_spec k (b : list dictEntry) :
  match find_chain k b with
  | Some i => exists e, b !! i = Some e /\ e.1 = k
  | None => k ∉ map fst b
  end.
Proof.
  induction b as [|e b IH]; cbn [find_chain]; [apply not_elem_of_nil|].
  destruct (keyCompare k e.1) eqn:Hk.
  - apply keyCompare_eq in Hk. by exists e.
  - assert (k <> e.1) by (intros E; apply keyCompare_eq in E; congruence).
    destruct (find_chain k b); cbn; [done|]. rewrite not_elem_of_cons. done.
Qed.

(** The entry a link points to. *)
Definition link_at (d : dict) (l : link) (e : dictEntry) : Prop :=
  let '(t, i, pos) := l in
  ht_ok (ht_of d t) /\ (t = true -> dictIsRehashing d = true) /\
  exists b, bucket (ht_of d t) i = Some b /\ b !! pos = Some e.

(** The value of [idx] the lookups start from: it is compared to [rehashidx]. *)
Definition idx_ok (d : dict) (hash idx : Z) : Prop :=
  0 <= idx < 2 ^ 63 /\ (rehashidx d <= 0 \/ idx = Z.land hash (mask_of d false)).

Lemma search_table_ok (d : dict) t k : ht_ok (ht_of d t) -> (t = true -> dictIsRehashing d = true) ->
  exists b, bucket (ht_of d t) (Z.land (hashFunction k) (mask_of d t)) = Some b /\
    match find_chain k b with
    | Some pos => exists e, link_at d (t, Z.land (hashFunction k) (mask_of d t), pos) e /\ e.1 = k
    | None => k ∉ map fst (ht_entries (ht_of d t))
    end.
Proof.
  intros Hh Ht. destruct (bucket_ok (ht_of d t) k Hh) as [b Hb].
  change (hash_idx _ k) with (Z.land (hashFunction k) (mask_of d t)) in Hb. exists b. split; [done|].
  pose proof (find_chain_spec k b) as Hf. destruct (find_chain k b) as [pos|].
  - destruct Hf as (e & Hp & He). exists e. split; [|done]. split; [done|]. split; [done|]. by exists b.
  - intros (x & Hx & Hin)%list_elem_of_fmap. apply Hf. subst k. apply (in_bucket _ x b Hh Hb) in Hin.
    by apply list_elem_of_fmap_2.
Qed.

(** The lookups skip the first table only if the bucket was moved already. *)
Lemma skipped_table (d : dict) k idx : dict_ok d -> ht_ok (ht0 d) -> idx_ok d (hashFunction k) idx ->
  (s64 idx <? rehashidx d) = true ->
  dictIsRehashing d = true /\ k ∉ map fst (ht_entries (ht0 d)).
Proof.
  intros Hd H0 [Hr Hi] Hlt. rewrite swrap_small in Hlt by (unfold srange; lia).
  apply Z.ltb_lt in Hlt. destruct Hi as [|Hi]; [lia|].
  assert (Hreh : dictIsRehashing d = true) by (unfold dictIsRehashing; lia).
  split; [done|]. destruct (dict_ok_rehashing d Hd Hreh) as [Hrh _].
  assert (Hb : bucket (ht0 d) (hash_idx (ht_size_exp (ht0 d)) k) = Some []).
  { apply bucket_lookup. change (hash_idx _ k) with (Z.land (hashFunction k) (mask_of d false)). rewrite <- Hi.
    split; [lia|]. apply (rh_empty _ Hrh). lia. }
  intros (x & -> & Hin)%list_elem_of_fmap. apply (in_bucket _ x [] H0 Hb) in Hin. by apply not_elem_of_nil in Hin.
Qed.

Lemma find_tables_ok (d : dict) k idx : dict_ok d -> ht_ok (ht0 d) -> idx_ok d (hashFunction k) idx ->
  exists r i, find_tables d k (hashFunction k) idx = Some (r, i) /\
    match r with
    | Some l => exists e, link_at d l e /\ e.1 = k
    | None => (k ∉ map fst (entries d)) /\ i = Z.land (hashFunction k) (mask_of d (dictIsRehashing d))
    end.
Proof.
  intros Hd H0 Hi. unfold find_tables.
  assert (Hboth : k ∉ map fst (ht_entries (ht0 d)) -> k ∉ map fst (ht_entries (ht1 d)) -> k ∉ map fst (entries d)).
  { intros. unfold entries. by rewrite map_app, not_elem_of_app. }
  assert (Hsecond : dictIsRehashing d = true -> k ∉ map fst (ht_entries (ht0 d)) ->
    exists r i, (he ← bucket (ht_of d true) (Z.land (hashFunction k) (mask_of d true));
       Some ((fun pos => (true, Z.land (hashFunction k) (mask_of d true), pos)) <$> (find_chain k he),
             Z.land (hashFunction k) (mask_of d true))) = Some (r, i) /\
    match r with
    | Some l => exists e, link_at d l e /\ e.1 = k
    | None => (k ∉ map fst (entries d)) /\ i = Z.land (hashFunction k) (mask_of d (dictIsRehashing d))
    end).
  { intros Hreh Hn. destruct (dict_ok_rehashing d Hd Hreh) as [Hrh _].
    destruct (search_table_ok d true k (rh_ht1 _ Hrh) (fun _ => Hreh)) as (b & -> & Hb). cbn [mbind option_bind].
    eexists _, _. split; [done|]. rewrite Hreh. destruct (find_chain k b); cbn; [done|]. by auto. }
  destruct (s64 idx <? rehashidx d) eqn:Hsk; cbn [mbind option_bind].
  - destruct (skipped_table d k idx Hd H0 Hi Hsk) as [Hreh Hn]. by apply Hsecond.
  - destruct (search_table_ok d false k H0 ltac:(done)) as (b & Hb & Hfc). rewrite Hb. cbn [mbind option_bind].
    destruct (find_chain k b) as [pos|]; cbn [fmap option_fmap option_map].
    + eexists _, _. split; [done|]. exact Hfc.
    + destruct (dictIsRehashing d) eqn:Hreh; [by apply Hsecond|].
      eexists _, _. split; [done|]. split; [|done]. apply Hboth; [done|].
      destruct (dict_ok_steady d Hd Hreh) as (_ & -> & _). apply not_elem_of_nil.
Qed.

(** * Changing a bucket *)

Lemma update_ht_ok h i b b' : ht_ok h -> bucket h i = Some b ->
  (forall x, x ∈ b' -> hash_idx (ht_size_exp h) x.1 = i) ->
  let h' := mkHt (<[Z.to_nat i := b']> (ht_table h)) (ht_used h + Z.of_nat (length b') - Z.of_nat (length b)) (ht_size_exp h) in
  ht_ok h' /\ exists rest, ht_entries h ≡ₚ b ++ rest /\ ht_entries h' ≡ₚ b' ++ rest.
Proof.
  intros Hh [Hi Hb]%bucket_lookup Hpos h'. destruct (concat_bucket _ _ _ Hb) as (p & q & Hc & Hc').
  assert (Hp : ht_entries h ≡ₚ b ++ p ++ q) by (unfold ht_entries; rewrite Hc; solve_Permutation).
  assert (Hp' : ht_entries h' ≡ₚ b' ++ p ++ q) by (unfold ht_entries, h'; cbn [ht_table]; rewrite Hc'; solve_Permutation).
  split; [|by exists (p ++ q)]. split.
  - apply Hh.
  - cbn. rewrite length_insert. apply Hh.
  - change (ht_used h') with (ht_used h + Z.of_nat (length b') - Z.of_nat (length b)).
    rewrite (hk_used _ Hh), Hp, Hp', !length_app. lia.
  - cbn. intros j c y [(<- & <- & _)|[_ Hc2]]%list_lookup_insert_Some Hy; [rewrite (Hpos _ Hy); lia|].
    by eapply (hk_pos _ Hh).
Qed.

Lemma update_ok (d : dict) t i b b' : dict_ok d -> ht_ok (ht_of d t) -> (t = true -> dictIsRehashing d = true) ->
  bucket (ht_of d t) i = Some b -> (t = false -> dictIsRehashing d = true -> b <> []) ->
  (forall x, x ∈ b' -> hash_idx (ht_size_exp (ht_of d t)) x.1 = i) ->
  let h' := mkHt (<[Z.to_nat i := b']> (ht_table (ht_of d t)))
              (ht_used (ht_of d t) + Z.of_nat (length b') - Z.of_nat (length b)) (ht_size_exp (ht_of d t)) in
  exists rest, entries d ≡ₚ b ++ rest /\ entries (with_ht d t h') ≡ₚ b' ++ rest /\
    (Z.of_nat (length (b' ++ rest)) <= max_entries -> NoDup (map fst (b' ++ rest)) -> dict_ok (with_ht d t h')).
Proof.
  intros Hd Hh Ht Hb Hne Hpos h'. destruct (update_ht_ok _ i b b' Hh Hb Hpos) as [Hok (rest & Hr & Hr')]. fold h' in Hok, Hr'.
  assert (Hstate : steady (with_ht d t h') \/ (rehashing (with_ht d t h') /\ rehashidx (with_ht d t h') < 2 ^ ht_size_exp (ht0 (with_ht d t h')))).
  { destruct (dictIsRehashing d) eqn:Hreh.
    - right. destruct (dict_ok_rehashing d Hd Hreh) as [Hrh Hlt]. destruct t; (split; [|done]).
      + split; [apply Hrh|done|apply Hrh|apply Hrh].
      + split; [done|apply Hrh|apply Hrh|]. cbn. intros j Hj. rewrite list_lookup_insert_ne; [by apply (rh_empty _ Hrh)|].
        intros <-. apply bucket_lookup in Hb as [Hi Hb]. cbn in Hb. rewrite (rh_empty _ Hrh) in Hb by done.
        injection Hb as <-. by apply Hne.
    - left. destruct t; [by specialize (Ht eq_refl)|]. destruct (dict_ok_steady d Hd Hreh) as (? & ? & _).
      split; [done|]. split; [done|]. by right. }
  destruct t; cbn [ht_of] in *.
  - exists (ht_entries (ht0 d) ++ rest).
    assert (P : entries (with_ht1 d h') ≡ₚ b' ++ ht_entries (ht0 d) ++ rest).
    { change (ht_entries (ht0 d) ++ ht_entries h' ≡ₚ b' ++ ht_entries (ht0 d) ++ rest). rewrite Hr'. solve_Permutation. }
    split_and!; [unfold entries; rewrite Hr; solve_Permutation|done|].
    intros Hc Hn. by split; [rewrite P|rewrite P|].
  - exists (rest ++ ht_entries (ht1 d)).
    assert (P : entries (with_ht0 d h') ≡ₚ b' ++ rest ++ ht_entries (ht1 d)).
    { change (ht_entries h' ++ ht_entries (ht1 d) ≡ₚ b' ++ rest ++ ht_entries (ht1 d)). rewrite Hr'. solve_Permutation. }
    split_and!; [unfold entries; rewrite Hr; solve_Permutation|done|].
    intros Hc Hn. by split; [rewrite P|rewrite P|].
Qed.

(** A new entry at the head of the bucket of its hash. *)
Lemma insert_ok (d : dict) k v : dict_ok d -> ht_ok (ht0 d) -> k ∉ map fst (entries d) ->
  Z.of_nat (length (entries d)) < max_entries ->
  exists d', dictInsertKeyAtLink d k v (dictIsRehashing d, Z.land (hashFunction k) (mask_of d (dictIsRehashing d))) = Some d' /\
    dict_ok d' /\ entries d' ≡ₚ (k, v) :: entries d /\ same_conf d d'.
Proof.
  intros Hd H0 Hk Hc. set (t := dictIsRehashing d) in *.
  assert (Hh : ht_ok (ht_of d t)).
  { subst t. destruct (dictIsRehashing d) eqn:E; [|done]. by apply dict_ok_rehashing. }
  destruct (bucket_ok (ht_of d t) k Hh) as [b Hb]. change (hash_idx _ k) with (Z.land (hashFunction k) (mask_of d t)) in Hb.
  set (i := Z.land _ _) in *. pose proof (hk_exp _ Hh) as Hexp.
  pose proof (land_mask_range (hashFunction k) (ht_size_exp (ht_of d t)) ltac:(lia)) as Hi. change (Z.land _ _) with i in Hi.
  unfold dictInsertKeyAtLink. fold t. rewrite eqb_reflx, (proj2 (Z.leb_le 0 i)) by lia.
  assert (Hm : (i <=? mask_of d t) = true).
  { unfold mask_of, DICTHT_SIZE_MASK. destruct (Z.eqb_spec (ht_size_exp (ht_of d t)) (-1)); [lia|]. rewrite DICTHT_SIZE_pow by lia. lia. }
  rewrite Hm. cbn [andb guard mbind option_bind]. rewrite Hb. cbn [mbind option_bind].
  destruct (update_ok d t i b ((k, v) :: b) Hd Hh) as (rest & Hr & Hr' & Hok).
  - by subst t; intros ->.
  - done.
  - subst t. by intros ->.
  - intros x [->|Hx]%elem_of_cons; [done|]. apply bucket_lookup in Hb as [_ Hb]. rewrite (hk_pos _ Hh _ _ _ Hb Hx). lia.
  - cbn [app length map fst] in *. set (h' := mkHt _ _ _) in *.
    assert (Hu : add_used (set_bucket (ht_of d t) i ((k, v) :: b)) 1 = h').
    { unfold add_used, set_bucket, h'. cbn. f_equal.
      assert (E : (length (ht_entries (ht_of d t)) <= length (entries d))%nat).
      { unfold entries. rewrite length_app. destruct t; cbn; lia. }
      unfold max_entries in Hc. rewrite (hk_used _ Hh). rewrite uwrap_small by (unfold urange; lia). lia. }
    rewrite Hu. eexists. split; [done|]. assert (Hp : entries (with_ht d t h') ≡ₚ (k, v) :: entries d) by (by rewrite Hr', Hr).
    assert (Hd' : dict_ok (with_ht d t h')).
    { apply Hok.
      - rewrite Hr in Hc. lia.
      - constructor; [|rewrite <- Hr; apply Hd]. by rewrite <- Hr. }
    split_and!; [done..|by destruct t].
Qed.

Lemma nonempty_alloc (d : dict) : dict_ok d -> dictSize d <> 0 -> ht_ok (ht0 d).
Proof.
  intros [_ _ [(_ & H1 & [H0|H0])|[H _]]] Hs; [|done|apply H]. unfold dictSize in Hs. by rewrite H0, H1 in Hs.
Qed.

(** [dictSize] is the number of entries. *)
Lemma dictSize_ok (d : dict) : dict_ok d -> dictSize d = Z.of_nat (length (entries d)).
Proof.
  intros [Hc _ Hs]. unfold dictSize. assert (E : ht_used (ht0 d) + ht_used (ht1 d) = Z.of_nat (length (entries d))).
  { unfold entries. rewrite length_app. destruct Hs as [(_ & -> & [->|H0])|[H _]]; [done| |].
    - rewrite (hk_used _ H0). cbn. lia.
    - rewrite (hk_used _ (rh_ht0 _ H)), (hk_used _ (rh_ht1 _ H)). lia. }
  rewrite E. unfold max_entries in Hc. apply uwrap_small. unfold urange. lia.
Qed.

(** What a link points to can be read, written and unlinked. *)
Lemma get_link_ok (d : dict) l e : link_at d l e -> get_link d l = Some e.
Proof. destruct l as [[t i] pos]. intros (_ & _ & b & Hb & He). unfold get_link. rewrite Hb. exact He. Qed.

Lemma link_update (d : dict) t i pos e b b' : dict_ok d -> link_at d (t, i, pos) e ->
  bucket (ht_of d t) i = Some b -> (forall x, x ∈ b' -> x.1 ∈ map fst b) ->
  let h' := mkHt (<[Z.to_nat i := b']> (ht_table (ht_of d t)))
              (ht_used (ht_of d t) + Z.of_nat (length b') - Z.of_nat (length b)) (ht_size_exp (ht_of d t)) in
  exists rest, entries d ≡ₚ b ++ rest /\ entries (with_ht d t h') ≡ₚ b' ++ rest /\
    (Z.of_nat (length (b' ++ rest)) <= max_entries -> NoDup (map fst (b' ++ rest)) -> dict_ok (with_ht d t h')).
Proof.
  intros Hd (Hh & Ht & b0 & Hb0 & He) Hb Hsub. rewrite Hb0 in Hb. injection Hb as ->. apply (update_ok d t i b b'); try done.
  - intros _ _ ->. done.
  - intros x (y & E & Hy)%Hsub%list_elem_of_fmap. apply bucket_lookup in Hb0 as [? Hb0].
    rewrite E, (hk_pos _ Hh _ _ _ Hb0 Hy). lia.
Qed.

Lemma setVal_ok (d : dict) l e v : dict_ok d -> link_at d l e ->
  exists d' rest, dictSetVal d l v = Some d' /\ dict_ok d' /\ same_conf d d' /\
    entries d ≡ₚ e :: rest /\ entries d' ≡ₚ (e.1, v) :: rest.
Proof.
  destruct l as [[t i] pos]. intros Hd Hl. pose proof Hl as (Hh & Ht & b & Hb & He).
  unfold dictSetVal. rewrite Hb. cbn [mbind option_bind]. rewrite He. cbn [mbind option_bind].
  pose proof (delete_Permutation _ _ _ He) as Hp.
  assert (Hp' : <[pos := (e.1, v)]> b ≡ₚ (e.1, v) :: delete pos b).
  { assert (Hl' : <[pos := (e.1, v)]> b !! pos = Some (e.1, v)) by (apply list_lookup_insert_eq; by eapply lookup_lt_Some).
    rewrite (delete_Permutation _ _ _ Hl'). by rewrite delete_insert_at. }
  remember (delete pos b) as r eqn:Hdel. clear Hdel.
  destruct (link_update d t i pos e b (<[pos := (e.1, v)]> b) Hd Hl Hb) as (rest & Hr & Hr' & Hok).
  { intros x. rewrite Hp', Hp. intros [->|Hx]%elem_of_cons; cbn; [by left|right]. by apply list_elem_of_fmap_2. }
  rewrite length_insert, Z.add_simpl_r in Hr', Hok. eexists _, (r ++ rest). split; [done|].
  assert (E1 : entries d ≡ₚ e :: r ++ rest) by (rewrite Hr, Hp; done).
  split_and!; [|by destruct t|done|unfold set_bucket; rewrite Hr', Hp'; done].
  pose proof (dk_nodup _ Hd) as Hn. pose proof (dk_count _ Hd) as Hc. rewrite E1 in Hn, Hc. apply Hok; by rewrite Hp'.
Qed.

Lemma unlink_ok (d : dict) l e : dict_ok d -> link_at d l e ->
  exists d', unlink_at d l = Some (d', e) /\ dict_ok d' /\ same_conf d d' /\ entries d ≡ₚ e :: entries d'.
Proof.
  destruct l as [[t i] pos]. intros Hd Hl. pose proof Hl as (Hh & Ht & b & Hb & He).
  unfold unlink_at. rewrite Hb. cbn [mbind option_bind]. rewrite He. cbn [mbind option_bind].
  pose proof (delete_Permutation _ _ _ He) as Hp. remember (delete pos b) as r eqn:Hdel. clear Hdel. pose proof (Permutation_length Hp) as Hlen. cbn in Hlen.
  destruct (link_update d t i pos e b (r) Hd Hl Hb) as (rest & Hr & Hr' & Hok).
  { intros x Hx. rewrite Hp. right. by apply list_elem_of_fmap_2. }
  set (h' := mkHt _ _ _) in *.
  assert (E1 : entries d ≡ₚ e :: r ++ rest) by (rewrite Hr, Hp; done).
  pose proof (dk_nodup _ Hd) as Hn. pose proof (dk_count _ Hd) as Hc. rewrite E1 in Hn, Hc. cbn [map] in Hn.
  apply NoDup_cons in Hn as [_ Hn]. cbn [length] in Hc.
  assert (Hu : add_used (set_bucket (ht_of d t) i (r)) (-1) = h').
  { unfold add_used, set_bucket, h'. cbn. f_equal.
    assert (E : (length b <= length (ht_entries (ht_of d t)))%nat).
    { destruct (update_ht_ok _ i b [] Hh Hb) as [_ (r2 & Hr2 & _)]; [by intros x Hx%not_elem_of_nil|]. rewrite Hr2, length_app. lia. }
    assert (E2 : (length (ht_entries (ht_of d t)) <= length (entries d))%nat).
    { unfold entries. rewrite length_app. destruct t; cbn; lia. }
    pose proof (dk_count _ Hd) as Hc2. unfold max_entries in Hc2. rewrite (hk_used _ Hh). rewrite uwrap_small by (unfold urange; lia). lia. }
  rewrite Hu. eexists. split; [done|]. split_and!; [apply Hok; [lia|done]|by destruct t|by rewrite Hr', E1].
Qed.

End Invariant.
(** * The finite map of a dictionary *)

Section Map.
Context {K V : Type} `{Countable K} `{DT : DictType K} `{DL : !DictLaws K}.
Context (mode : dictResizeEnable).

Abbreviation dict := (dict K V).

Definition dmap (d : dict) : gmap K V := list_to_map (entries d).

(** The dictionary [d'] is right and holds the map [m]. *)
Record holds (d d' : dict) (m : gmap K V) : Prop := {
  ho_ok : dict_ok d';
  ho_map : dmap d' = m;
  ho_auto : pauseAutoResize d' = pauseAutoResize d
}.

Lemma dmap_perm (d d' : dict) : dict_ok d -> entries d' ≡ₚ entries d -> dmap d' = dmap d.
Proof.
  intros Hd Hp. apply list_to_map_proper; [|done]. apply (nodup_perm _ _ Hp). apply Hd.
Qed.

Lemma dmap_elem (d : dict) k v : dict_ok d -> dmap d !! k = Some v <-> (k, v) ∈ entries d.
Proof. intros Hd. symmetry. apply elem_of_list_to_map. apply Hd. Qed.

Lemma dmap_none (d : dict) k : dmap d !! k = None <-> k ∉ map fst (entries d).
Proof. symmetry. apply not_elem_of_list_to_map. Qed.

Lemma dom_entries (d : dict) : dom (dmap d) = list_to_set (C := gset K) (map fst (entries d)).
Proof. unfold dmap. apply dom_list_to_map_L. Qed.

Lemma dmap_cons (d d' : dict) k v : dict_ok d' -> entries d' ≡ₚ (k, v) :: entries d -> dmap d' = <[k := v]> (dmap d).
Proof.
  intros Hd Hp. unfold dmap. rewrite <- list_to_map_cons. apply list_to_map_proper; [apply Hd|done].
Qed.

Lemma dmap_size (d : dict) : dict_ok d -> dictSize d = Z.of_nat (size (dmap d)).
Proof. intros Hd. rewrite dictSize_ok by done. unfold dmap. rewrite map_size_list_to_map; [done|apply Hd]. Qed.

Lemma rehashed_holds (d d' : dict) : dict_ok d -> rehashed d d' -> holds d d' (dmap d).
Proof. intros Hd [H1 H2 [_ H3] _]. split; [done|by apply dmap_perm|done]. Qed.

Lemma resized_holds (d d' : dict) : dict_ok d -> resized d d' -> holds d d' (dmap d).
Proof. intros Hd [H1 H2 [_ H3] _ _]. split; [done|by apply dmap_perm|done]. Qed.

Lemma holds_refl (d : dict) : dict_ok d -> holds d d (dmap d).
Proof. done. Qed.

Lemma holds_trans (d1 d2 d3 : dict) m : holds d1 d2 (dmap d1) -> holds d2 d3 m -> holds d1 d3 m.
Proof. intros [? ? E1] [? ? E2]. split; [done|done|congruence]. Qed.

(** The index computed before a rehashing step is right for the search after it,
    and after a resizing. *)
Lemma idx_ok_rehashed (d d' : dict) k : dict_ok d -> rehashed d d' ->
  idx_ok d' (hashFunction k) (Z.land (hashFunction k) (mask_of d false)).
Proof.
  intros Hd [_ _ _ Hr]. split.
  - destruct (dict_ok_ht0 d Hd) as [H0|H0].
    { unfold mask_of, ht_of. rewrite H0. cbn. rewrite Z.land_0_r. lia. }
    pose proof (hk_exp _ H0) as He.
    pose proof (land_mask_range (hashFunction k) (ht_size_exp (ht0 d)) ltac:(lia)) as Hi.
    change (Z.land _ _) with (Z.land (hashFunction k) (mask_of d false)) in Hi.
    pose proof (Z.pow_lt_mono_r 2 (ht_size_exp (ht0 d)) 63 ltac:(lia) ltac:(lia) ltac:(lia)). lia.
  - destruct Hr as [->|(E & _ & _)]; [left; lia|right]. unfold mask_of, ht_of. by rewrite E.
Qed.

Lemma idx_ok_resized (d d' : dict) h i : idx_ok d h i -> resized d d' -> idx_ok d' h i.
Proof. intros [Hi H0] [_ _ _ [Hr| ->] _]; [|done]. split; [done|by left]. Qed.

Lemma link_elem (d : dict) l e : link_at d l e -> e ∈ entries d.
Proof.
  destruct l as [[t i] pos]. intros (_ & _ & b & [_ Hb]%bucket_lookup & He). unfold entries. apply elem_of_app.
  assert (Hin : e ∈ ht_entries (ht_of d t)).
  { apply list_elem_of_In, in_concat. exists b. split; apply list_elem_of_In; by eapply list_elem_of_lookup_2. }
  destruct t; [by right|by left].
Qed.

(** The common start of the lookups. *)
Lemma lookup_start (d : dict) k : dict_ok d -> dictSize d <> 0 ->
  exists d1 r i, _dictRehashStepIfNeeded mode d (Z.land (hashFunction k) (mask_of d false)) = Some d1 /\
    holds d d1 (dmap d) /\
    find_tables d1 k (hashFunction k) (Z.land (hashFunction k) (mask_of d false)) = Some (r, i) /\
    match r with
    | Some l => exists v, link_at d1 l (k, v) /\ dmap d !! k = Some v
    | None => dmap d !! k = None
    end.
Proof.
  intros Hd Hs. destruct (rehashStepIfNeeded_ok mode d k Hd) as (d1 & Heq & Hr).
  pose proof (rehashed_holds d d1 Hd Hr) as Hh. pose proof (ho_ok _ _ _ Hh) as Hd1.
  assert (Hs1 : dictSize d1 <> 0) by (rewrite dmap_size, (ho_map _ _ _ Hh), <- dmap_size by done; done).
  destruct (find_tables_ok d1 k _ Hd1 (nonempty_alloc _ Hd1 Hs1) (idx_ok_rehashed d d1 k Hd Hr)) as (r & i & Hf & Hres).
  exists d1, r, i. split_and!; [done..|]. rewrite <- (ho_map _ _ _ Hh). destruct r as [l|].
  - destruct Hres as ([k' v] & Hl & <-). exists v. split; [done|]. apply dmap_elem; [done|]. by eapply link_elem.
  - by apply dmap_none, Hres.
Qed.

Lemma unlink_shrink_ok (d : dict) l k v : dict_ok d -> link_at d l (k, v) ->
  exists d1 d2, unlink_at d l = Some (d1, (k, v)) /\ _dictShrinkIfNeeded mode d1 = Some d2 /\
    holds d d2 (delete k (dmap d)).
Proof.
  intros Hd Hl. destruct (unlink_ok d l (k, v) Hd Hl) as (d1 & Hu & Hd1 & Hc & Hp).
  destruct (autoShrink_ok mode d1 Hd1) as (d2 & Hs & Hr). exists d1, d2. split_and!; [done..|].
  pose proof (resized_holds d1 d2 Hd1 Hr) as [? Hm ?]. split; [done| |by rewrite <- (proj2 Hc)].
  rewrite Hm. symmetry. rewrite (dmap_cons d1 d k v) by done. apply delete_insert_id, dmap_none.
  pose proof (dk_nodup _ Hd) as Hn. rewrite Hp in Hn. by apply NoDup_cons in Hn as [? _].
Qed.

Lemma empty_lookup (d : dict) k : dict_ok d -> dictSize d = 0 -> dmap d !! k = None.
Proof. intros Hd Hs. rewrite dmap_size in Hs by done. assert (dmap d = ∅) as -> by (apply map_size_empty_inv; lia). done. Qed.

Lemma dictFind_ok (d : dict) k : dict_ok d ->
  exists d', dictFind mode d k = Some (d', pair k <$> dmap d !! k) /\ holds d d' (dmap d).
Proof.
  intros Hd. unfold dictFind, dictFindLink. destruct (Z.eqb_spec (dictSize d) 0) as [Hs|Hs].
  { exists d. rewrite empty_lookup by done. done. }
  destruct (lookup_start d k Hd Hs) as (d1 & r & i & -> & Hh & Hf & Hres). cbn [mbind option_bind]. rewrite Hf. cbn [mbind option_bind].
  exists d1. destruct r as [l|].
  - destruct Hres as (v & Hl & ->). rewrite (get_link_ok _ _ _ Hl). done.
  - by rewrite Hres.
Qed.

Lemma dictFetchValue_ok (d : dict) k : dict_ok d ->
  exists d', dictFetchValue mode d k = Some (d', dmap d !! k) /\ holds d d' (dmap d).
Proof.
  intros Hd. unfold dictFetchValue. destruct (dictFind_ok d k Hd) as (d' & -> & Hh). exists d'. split; [|done].
  by destruct (dmap d !! k).
Qed.

Lemma dictGenericDelete_ok (d : dict) k : dict_ok d ->
  exists d', dictGenericDelete mode d k = Some (d', pair k <$> dmap d !! k) /\ holds d d' (delete k (dmap d)).
Proof.
  intros Hd. unfold dictGenericDelete. destruct (Z.eqb_spec (dictSize d) 0) as [Hs|Hs].
  { exists d. pose proof (empty_lookup d k Hd Hs) as Hn. by rewrite delete_id, Hn. }
  destruct (lookup_start d k Hd Hs) as (d1 & r & i & -> & Hh & Hf & Hres). cbn [mbind option_bind]. rewrite Hf. cbn [mbind option_bind].
  destruct r as [l|]; [|exists d1; by rewrite Hres, delete_id by done].
  destruct Hres as (v & Hl & Hv). rewrite Hv.
  destruct (unlink_shrink_ok d1 l k v (ho_ok _ _ _ Hh) Hl) as (d2 & d3 & -> & Heq & Hh3). cbn [mbind option_bind].
  rewrite Heq. exists d3. split; [done|]. rewrite (ho_map _ _ _ Hh) in Hh3. by eapply holds_trans.
Qed.

(** [dictAddRaw] finds the entry of the key, or adds it. *)
(** The lookup that also gives the bucket of the key. *)
Lemma findLinkInternal_ok (d : dict) k : dict_ok d -> ht_ok (ht0 d) ->
  exists d1 r b, dictFindLinkInternal mode d k = Some (d1, r, b) /\ holds d d1 (dmap d) /\ ht_ok (ht0 d1) /\
    match r with
    | Some _ => dmap d !! k <> None
    | None => dmap d !! k = None /\ b = (dictIsRehashing d1, Z.land (hashFunction k) (mask_of d1 (dictIsRehashing d1)))
    end.
Proof.
  intros Hd H0. unfold dictFindLinkInternal. destruct (rehashStepIfNeeded_ok mode d k Hd) as (d1 & -> & Hr). cbn [mbind option_bind].
  pose proof (rehashed_holds d d1 Hd Hr) as Hh. pose proof (ho_ok _ _ _ Hh) as Hd1.
  pose proof (re_alloc _ _ Hr H0) as H01.
  destruct (find_tables_ok d1 k _ Hd1 H01 (idx_ok_rehashed d d1 k Hd Hr)) as (r & i & -> & Hres). cbn [mbind option_bind].
  eexists d1, r, _. split; [done|]. split_and!; [done|done|]. rewrite <- (ho_map _ _ _ Hh). destruct r as [l|].
  - destruct Hres as ([k' v] & Hl & <-). intros Hn. apply dmap_none in Hn. apply Hn. apply link_elem in Hl. by apply list_elem_of_fmap_2 with (f := fst) in Hl.
  - destruct Hres as [Hn ->]. split; [by apply dmap_none|done].
Qed.

(** Whether a dictionary is being rehashed can be told from the sizes of its tables. *)
Lemma rehashing_exp (d : dict) : dict_ok d -> dictIsRehashing d = negb (ht_size_exp (ht1 d) =? -1).
Proof.
  intros Hd. destruct (dictIsRehashing d) eqn:E.
  - destruct (dict_ok_rehashing d Hd E) as [Hr _]. pose proof (hk_exp _ (rh_ht1 _ Hr)). by rewrite (proj2 (Z.eqb_neq _ _)) by lia.
  - destruct (dict_ok_steady d Hd E) as (_ & -> & _). done.
Qed.

Lemma insert_new_ok (d d1 : dict) k v b : holds d d1 (dmap d) -> ht_ok (ht0 d1) -> dmap d !! k = None -> Z.of_nat (size (dmap d)) < max_entries ->
  b = (dictIsRehashing d1, Z.land (hashFunction k) (mask_of d1 (dictIsRehashing d1))) ->
  exists d2, dictInsertKeyAtLink d1 k v b = Some d2 /\ holds d d2 (<[k := v]> (dmap d)).
Proof.
  intros Hh H0 Hn Hc ->. pose proof (ho_ok _ _ _ Hh) as Hd1. assert (Hk : k ∉ map fst (entries d1)) by (apply dmap_none; by rewrite (ho_map _ _ _ Hh)).
  destruct (insert_ok d1 k v Hd1 H0 Hk) as (d2 & -> & Hd2 & Hp & Hcf); [by rewrite <- dictSize_ok, dmap_size, (ho_map _ _ _ Hh)|].
  exists d2. split; [done|]. split; [done|by rewrite (dmap_cons d1 d2 k v), (ho_map _ _ _ Hh)|rewrite (proj2 Hcf); apply Hh].
Qed.

Lemma dictSetKeyAtLink_ok (d d1 : dict) k v b : holds d d1 (dmap d) -> dmap d !! k = None -> Z.of_nat (size (dmap d)) < max_entries ->
  match b with Some b => b = (dictIsRehashing d1, Z.land (hashFunction k) (mask_of d1 (dictIsRehashing d1))) | None => True end ->
  exists d2, dictSetKeyAtLink mode d1 k v b = Some d2 /\ holds d d2 (<[k := v]> (dmap d)).
Proof.
  intros Hh Hn Hc Hb. unfold dictSetKeyAtLink. pose proof (ho_ok _ _ _ Hh) as Hd1. destruct (dictExpandIfNeeded_ok mode d1 Hd1) as (d2 & e & -> & Hz & H0).
  cbn [mbind option_bind]. pose proof (resized_holds d1 d2 Hd1 Hz) as Hh2. rewrite (ho_map _ _ _ Hh) in Hh2. pose proof (holds_trans _ _ _ _ Hh Hh2) as Hh3.
  pose proof (ho_ok _ _ _ Hh2) as Hd2. destruct (if negb _ || negb _ then None else b) as [b'|] eqn:E.
  - destruct (Z.eqb_spec (ht_size_exp (ht0 d1)) (ht_size_exp (ht0 d2))) as [E0|]; [|done].
    destruct (Z.eqb_spec (ht_size_exp (ht1 d1)) (ht_size_exp (ht1 d2))) as [E1|]; [|done]. cbn [negb orb] in E. subst b. cbn [mbind option_bind].
    apply insert_new_ok; [done..|]. rewrite Hb, (rehashing_exp d1), (rehashing_exp d2), E1 by done. f_equal. unfold mask_of. f_equal. destruct (negb _); cbn; by rewrite ?E0, ?E1.
  - destruct (findLinkInternal_ok d2 k Hd2 H0) as (d3 & r & b3 & -> & Hh4 & H03 & Hr). cbn [mbind option_bind]. rewrite (ho_map _ _ _ Hh2) in Hh4, Hr.
    destruct r as [l|]; [done|]. destruct Hr as [_ ->]. cbn [guard mbind option_bind]. apply insert_new_ok; [by eapply holds_trans|done..].
Qed.

(** A lookup, then the insertion of a key that was not found at the bucket that it gave. *)
Lemma findLink_set_ok (d : dict) k v : dict_ok d -> Z.of_nat (size (dmap d)) < max_entries ->
  exists d1 r b, dictFindLinkBucket mode d k = Some (d1, r, b) /\ holds d d1 (dmap d) /\
    match r with
    | Some _ => dmap d !! k <> None
    | None => dmap d !! k = None /\ exists d2, dictSetKeyAtLink mode d1 k v b = Some d2 /\ holds d d2 (<[k := v]> (dmap d))
    end.
Proof.
  intros Hd Hc. unfold dictFindLinkBucket. destruct (Z.eqb_spec (dictSize d) 0) as [Hs|Hs].
  - pose proof (empty_lookup d k Hd Hs) as Hn. pose proof (holds_refl d Hd) as Hh. eexists d, None, None. split_and!; [done|done|done|]. by apply dictSetKeyAtLink_ok.
  - destruct (findLinkInternal_ok d k Hd (nonempty_alloc _ Hd Hs)) as (d1 & r & b & -> & Hh & H01 & Hr). cbn [mbind option_bind]. eexists d1, r, _. split; [done|]. split; [done|].
    destruct r as [l|]; [done|]. destruct Hr as [Hn ->]. split; [done|]. by apply dictSetKeyAtLink_ok.
Qed.

Lemma dictAddRaw_ok (d : dict) k v : dict_ok d -> pauseAutoResize d <= 0 ->
  Z.of_nat (size (dmap d)) < max_entries ->
  exists d' r, dictAddRaw mode d k v = Some (d', r) /\
    match r with
    | Some l => exists v0, dmap d !! k = Some v0 /\ link_at d' l (k, v0) /\ holds d d' (dmap d)
    | None => dmap d !! k = None /\ holds d d' (<[k := v]> (dmap d))
    end.
Proof.
  intros Hd Ha Hc. unfold dictAddRaw, dictFindLinkForInsert.
  destruct (rehashStepIfNeeded_ok mode d k Hd) as (d1 & -> & Hr). cbn [mbind option_bind].
  pose proof (rehashed_holds d d1 Hd Hr) as Hh1. pose proof (ho_ok _ _ _ Hh1) as Hd1.
  destruct (autoExpand_ok mode d1 Hd1) as (d2 & b & -> & Hz & H0). { right. by rewrite (ho_auto _ _ _ Hh1). }
  cbn [mbind option_bind]. pose proof (resized_holds d1 d2 Hd1 Hz) as Hh2. pose proof (ho_ok _ _ _ Hh2) as Hd2.
  rewrite (ho_map _ _ _ Hh1) in Hh2. pose proof (holds_trans _ _ _ _ Hh1 Hh2) as Hh.
  destruct (find_tables_ok d2 k _ Hd2 H0 (idx_ok_resized d1 d2 _ _ (idx_ok_rehashed d d1 k Hd Hr) Hz)) as (r & i & -> & Hres).
  cbn [mbind option_bind]. destruct r as [l|].
  - destruct Hres as ([k' v0] & Hl & <-). exists d2, (Some l). split; [done|]. exists v0. split_and!; [|done|done].
    rewrite <- (ho_map _ _ _ Hh). apply dmap_elem; [done|]. by eapply link_elem.
  - destruct Hres as [Hk ->]. cbn [mbind option_bind].
    assert (Hc2 : Z.of_nat (length (entries d2)) < max_entries).
    { rewrite <- dictSize_ok, dmap_size, (ho_map _ _ _ Hh) by done. done. }
    destruct (insert_ok d2 k v Hd2 H0 Hk Hc2) as (d3 & -> & Hd3 & Hp & Hcf). cbn [mbind option_bind].
    exists d3, None. split; [done|]. pose proof Hk as Hn. apply dmap_none in Hn. rewrite (ho_map _ _ _ Hh) in Hn. split; [done|].
    split; [done| |rewrite (proj2 Hcf); apply Hh]. by rewrite (dmap_cons d2 d3 k v), (ho_map _ _ _ Hh).
Qed.

Lemma dictAdd_ok (d : dict) k v : dict_ok d -> pauseAutoResize d <= 0 -> Z.of_nat (size (dmap d)) < max_entries ->
  exists d', dictAdd mode d k v = Some (d', bool_decide (dmap d !! k = None)) /\
    holds d d' (if bool_decide (dmap d !! k = None) then <[k := v]> (dmap d) else dmap d).
Proof.
  intros Hd Ha Hc. unfold dictAdd. destruct (dictAddRaw_ok d k v Hd Ha Hc) as (d' & [l|] & -> & Hr); exists d'.
  - destruct Hr as (v0 & -> & _ & Hh). done.
  - destruct Hr as [-> Hh]. done.
Qed.

Lemma dictReplace_ok (d : dict) k v : dict_ok d -> pauseAutoResize d <= 0 -> Z.of_nat (size (dmap d)) < max_entries ->
  exists d', dictReplace mode d k v = Some (d', bool_decide (dmap d !! k = None)) /\ holds d d' (<[k := v]> (dmap d)).
Proof.
  intros Hd Ha Hc. unfold dictReplace. destruct (dictAddRaw_ok d k v Hd Ha Hc) as (d1 & [l|] & -> & Hr).
  2: { destruct Hr as [-> Hh]. by exists d1. }
  destruct Hr as (v0 & Hv0 & Hl & Hh). pose proof (ho_ok _ _ _ Hh) as Hd1. cbn [mbind option_bind].
  destruct (setVal_ok d1 l (k, v0) v Hd1 Hl) as (d2 & rest & -> & Hd2 & Hcf & Hp1 & Hp2). cbn in Hp2. cbn [mbind option_bind].
  exists d2. rewrite Hv0. split; [done|]. split; [done| |rewrite (proj2 Hcf); apply Hh].
  rewrite <- (ho_map _ _ _ Hh). unfold dmap. 
  rewrite (list_to_map_proper (entries d2) _ (dk_nodup _ Hd2) Hp2), (list_to_map_proper (entries d1) _ (dk_nodup _ Hd1) Hp1).
  cbn. by rewrite insert_insert_eq.
Qed.

Lemma dict_ok_pause (d : dict) n : dict_ok d -> dict_ok (with_pauserehash d n).
Proof.
  intros [? ? Hst]. split; [done|done|]. destruct Hst as [|[Hrh ?]]; [by left|right]. split; [|done].
  split; [apply Hrh..|]. apply (rh_empty _ Hrh).
Qed.

Lemma twoPhase_ok (d : dict) k : dict_ok d ->
  exists d1 r d2, dictTwoPhaseUnlinkFind mode d k = Some (d1, r) /\ dictTwoPhaseUnlinkFree mode d1 r = Some d2 /\
    holds d d2 (delete k (dmap d)) /\
    match r with
    | Some l => exists v, get_link d1 l = Some (k, v) /\ dmap d !! k = Some v
    | None => dmap d !! k = None
    end.
Proof.
  intros Hd. unfold dictTwoPhaseUnlinkFind, dictTwoPhaseUnlinkFree. destruct (Z.eqb_spec (dictSize d) 0) as [Hs|Hs].
  { pose proof (empty_lookup d k Hd Hs) as Hn. exists d, None, d. by rewrite delete_id. }
  assert (Hst : exists d1, (if dictIsRehashing d then _dictRehashStep mode d else Some d) = Some d1 /\ rehashed d d1).
  { destruct (dictIsRehashing d); [by apply rehashStep_ok|]. exists d. by split; [|apply rehashed_refl]. }
  destruct Hst as (d1 & -> & Hr). cbn [mbind option_bind].
  pose proof (rehashed_holds d d1 Hd Hr) as Hh. pose proof (ho_ok _ _ _ Hh) as Hd1.
  assert (Hs1 : dictSize d1 <> 0) by (rewrite dmap_size, (ho_map _ _ _ Hh), <- dmap_size by done; done).
  destruct (find_tables_ok d1 k _ Hd1 (nonempty_alloc _ Hd1 Hs1) (idx_ok_rehashed d1 d1 k Hd1 (rehashed_refl d1 Hd1))) as (r & i & -> & Hres).
  cbn [mbind option_bind]. destruct r as [l|].
  2: { destruct Hres as [Hn _]. apply dmap_none in Hn. rewrite (ho_map _ _ _ Hh) in Hn.
       exists d1, None, d1. by rewrite delete_id by done. }
  destruct Hres as ([k' v] & Hl & <-). cbn [fst] in *.
  assert (Hl' : link_at (dictPauseRehashing d1) l (k', v)) by exact Hl.
  pose proof (dict_ok_pause d1 (uwrap 15 (pauserehash d1 + 1)) Hd1) as Hdp.
  destruct (unlink_shrink_ok (dictPauseRehashing d1) l k' v Hdp Hl') as (d2 & d3 & Hu & Hsh & Hh3).
  exists (dictPauseRehashing d1), (Some l), (dictResumeRehashing d3). split; [done|].
  rewrite Hu. cbn [mbind option_bind]. rewrite Hsh. split; [done|]. destruct Hh3 as [Hok3 Hm3 Ha3].
  split.
  - split; [by apply dict_ok_pause| |etransitivity; [exact Ha3|apply Hh]].
    etransitivity; [exact Hm3|]. f_equal. apply Hh.
  - exists v. split; [by apply get_link_ok|]. rewrite <- (ho_map _ _ _ Hh). apply dmap_elem; [done|]. by eapply link_elem.
Qed.

Lemma dictEmpty_ok (d : dict) : dict_ok (dictEmpty d) /\ dmap (dictEmpty d) = ∅.
Proof. split; [|done]. split; [done|constructor|left]. split; [done|]. split; [done|by left]. Qed.

End Map.

(** Closes the case of an operation that leaves the map of [Hh]. *)
Ltac finish_step Hgo Hh :=
  eexists _, _; split; [done|];
  let E := fresh "E" in
  destruct (Hgo _ _ Hh) as (E & ? & ?);
  first [ by rewrite <- E
        | match goal with |- context [?m !! ?k] => rewrite E; by destruct (m !! k) end ].

(** * Any sequence of operations *)

Section Run.
Context {K V : Type} `{Countable K} `{DT : DictType K} `{DL : !DictLaws K}.

(** The operations, and what they return to the caller. *)
Inductive dict_op :=
| Add (k : K) (v : V) | Replace (k : K) (v : V) | Fetch (k : K) | Find (k : K) | Delete (k : K) | Unlink (k : K)
| TwoPhaseUnlink (k : K) | Empty | Rehash (n : nat) | Expand (size : Z) | TryExpand (size : Z) (alloc_ok : bool)
| Shrink (size : Z) | ExpandIfNeeded | ShrinkIfNeeded | PauseRehashing | ResumeRehashing.

Inductive answer := Bool (b : bool) | Value (v : option V) | Entry (e : option (K * V)) | Done.

(** Only an expansion or a shrinking has an argument that must be in range. *)
Definition op_valid (op : dict_op) : bool :=
  match op with Expand n | TryExpand n _ | Shrink n => (0 <=? n) && (n <? 2 ^ 64) | _ => true end.

Definition dict_step (mode : dictResizeEnable) (d : dict K V) (op : dict_op) : option (dict K V * answer) :=
  match op with
  | Add k v => '(d, b) ← dictAdd mode d k v; Some (d, Bool b)
  | Replace k v => '(d, b) ← dictReplace mode d k v; Some (d, Bool b)
  | Fetch k => '(d, v) ← dictFetchValue mode d k; Some (d, Value v)
  | Find k => '(d, e) ← dictFind mode d k; Some (d, Entry e)
  | Delete k => '(d, b) ← dictDelete mode d k; Some (d, Bool b)
  | Unlink k => '(d, e) ← dictUnlink mode d k; Some (d, Entry e)
  | TwoPhaseUnlink k =>
    '(d, l) ← dictTwoPhaseUnlinkFind mode d k;
    e ← match l with Some l => e ← get_link d l; Some (Some e) | None => Some None end;
    d ← dictTwoPhaseUnlinkFree mode d l; Some (d, Entry e)
  | Empty => Some (dictEmpty d, Done)
  | Rehash n => '(d, _) ← dictRehash mode d n; Some (d, Done)
  | Expand n => '(d, _) ← dictExpand mode d n; Some (d, Done)
  | TryExpand n ok => '(d, _) ← dictTryExpand mode d n ok; Some (d, Done)
  | Shrink n => '(d, _) ← dictShrink mode d n; Some (d, Done)
  | ExpandIfNeeded => '(d, _) ← dictExpandIfNeeded mode d; Some (d, Done)
  | ShrinkIfNeeded => '(d, _) ← dictShrinkIfNeeded mode d; Some (d, Done)
  | PauseRehashing => Some (dictPauseRehashing d, Done)
  | ResumeRehashing => Some (dictResumeRehashing d, Done)
  end.

(** The same operations on a finite map. *)
Definition map_step (m : gmap K V) (op : dict_op) : gmap K V * answer :=
  match op with
  | Add k v =>
    let absent := bool_decide (m !! k = None) in (if absent then <[k := v]> m else m, Bool absent)
  | Replace k v => (<[k := v]> m, Bool (bool_decide (m !! k = None)))
  | Fetch k => (m, Value (m !! k))
  | Find k => (m, Entry (pair k <$> m !! k))
  | Delete k => (delete k m, Bool (bool_decide (is_Some (m !! k))))
  | Unlink k | TwoPhaseUnlink k => (delete k m, Entry (pair k <$> m !! k))
  | Empty => (∅, Done)
  | _ => (m, Done)
  end.

(** Each operation runs under the resize policy of the moment. *)
Fixpoint dict_run (d : dict K V) (ops : list (dictResizeEnable * dict_op)) : option (dict K V * list answer) :=
  match ops with
  | [] => Some (d, [])
  | (mode, op) :: ops =>
    '(d, a) ← dict_step mode d op;
    '(d, l) ← dict_run d ops;
    Some (d, a :: l)
  end.

Fixpoint map_run (m : gmap K V) (ops : list (dictResizeEnable * dict_op)) : gmap K V * list answer :=
  match ops with
  | [] => (m, [])
  | (_, op) :: ops =>
    let '(m, a) := map_step m op in
    let '(m, l) := map_run m ops in
    (m, a :: l)
  end.

Lemma dict_step_ok mode d op : dict_ok d -> pauseAutoResize d = 0 -> op_valid op = true ->
  Z.of_nat (size (dmap d)) < max_entries ->
  exists d' a, dict_step mode d op = Some (d', a) /\ map_step (dmap d) op = (dmap d', a) /\
    dict_ok d' /\ pauseAutoResize d' = 0.
Proof.
  intros Hd Ha Hv Hc. assert (Ha' : pauseAutoResize d <= 0) by lia.
  assert (Hgo : forall d' m, holds d d' m -> m = dmap d' /\ dict_ok d' /\ pauseAutoResize d' = 0).
  { intros d' m [H1 <- H3]. split_and!; [done..|congruence]. }
  destruct op as [k v|k v|k|k|k|k|k| |n|n|n b|n| | | |]; cbn [dict_step map_step op_valid] in *; try (apply andb_true_iff in Hv as [Hv _]; apply Z.leb_le in Hv).
  - destruct (dictAdd_ok mode d k v Hd Ha' Hc) as (d' & -> & Hh). finish_step Hgo Hh.
  - destruct (dictReplace_ok mode d k v Hd Ha' Hc) as (d' & -> & Hh). finish_step Hgo Hh.
  - destruct (dictFetchValue_ok mode d k Hd) as (d' & -> & Hh). finish_step Hgo Hh.
  - destruct (dictFind_ok mode d k Hd) as (d' & -> & Hh). finish_step Hgo Hh.
  - unfold dictDelete. destruct (dictGenericDelete_ok mode d k Hd) as (d' & -> & Hh). finish_step Hgo Hh.
  - destruct (dictGenericDelete_ok mode d k Hd) as (d' & Heq & Hh). unfold dictUnlink. rewrite Heq. finish_step Hgo Hh.
  - destruct (twoPhase_ok mode d k Hd) as (d1 & r & d' & -> & Hfree & Hh & Hr). cbn [mbind option_bind]. destruct (Hgo _ _ Hh) as (-> & ? & ?).
    destruct r as [l|].
    + destruct Hr as (v & -> & ->). cbn [mbind option_bind]. rewrite Hfree. by eexists _, _.
    + rewrite Hr. cbn [mbind option_bind]. rewrite Hfree. by eexists _, _.
  - eexists _, _. split; [done|]. destruct (dictEmpty_ok d) as [? ->]. done.
  - destruct (dictRehash_ok mode d n Hd) as (d' & b & -> & Hr & _). eexists _, _. split; [done|]. destruct (Hgo _ _ (rehashed_holds d d' Hd Hr)) as (E & ? & ?). by rewrite <- E.
  - destruct (dictExpand_ok mode d n Hd Hv) as (d' & b & -> & Hr). eexists _, _. split; [done|]. destruct (Hgo _ _ (resized_holds d d' Hd Hr)) as (E & ? & ?). by rewrite <- E.
  - destruct (dictTryExpand_ok mode d n b Hd Hv) as (d' & b' & -> & Hr). eexists _, _. split; [done|]. destruct (Hgo _ _ (resized_holds d d' Hd Hr)) as (E & ? & ?). by rewrite <- E.
  - destruct (dictShrink_ok mode d n Hd Hv) as (d' & b & -> & Hr). eexists _, _. split; [done|]. destruct (Hgo _ _ (resized_holds d d' Hd Hr)) as (E & ? & ?). by rewrite <- E.
  - destruct (dictExpandIfNeeded_ok mode d Hd) as (d' & b & -> & Hr & _). eexists _, _. split; [done|]. destruct (Hgo _ _ (resized_holds d d' Hd Hr)) as (E & ? & ?). by rewrite <- E.
  - destruct (dictShrinkIfNeeded_ok mode d Hd) as (d' & b & -> & Hr). eexists _, _. split; [done|]. destruct (Hgo _ _ (resized_holds d d' Hd Hr)) as (E & ? & ?). by rewrite <- E.
  - eexists _, _. split; [done|]. split_and!; [done|by apply dict_ok_pause|done].
  - eexists _, _. split; [done|]. split_and!; [done|by apply dict_ok_pause|done].
Qed.

Lemma map_step_size (m : gmap K V) op : (size (map_step m op).1 <= S (size m))%nat.
Proof.
  assert (Hi : forall k v, (size (<[k := v]> m) <= S (size m))%nat).
  { intros k v. rewrite map_size_insert. destruct (m !! k); cbn; lia. }
  assert (Hd : forall k, (size (delete k m) <= S (size m))%nat).
  { intros k. rewrite map_size_delete. destruct (m !! k); cbn; lia. }
  destruct op; cbn [map_step fst]; try (rewrite map_size_empty; lia); auto with lia.
  destruct (bool_decide _); [apply Hi|lia].
Qed.

Lemma dict_run_ok ops : forall d, dict_ok d -> pauseAutoResize d = 0 ->
  forallb (fun o => op_valid o.2) ops = true ->
  Z.of_nat (size (dmap d)) + Z.of_nat (length ops) <= max_entries ->
  exists d' l, dict_run d ops = Some (d', l) /\ map_run (dmap d) ops = (dmap d', l) /\ dict_ok d'.
Proof.
  induction ops as [|[mode op] ops IH]; intros d Hd Ha Hv Hc; cbn [dict_run map_run].
  { by exists d, []. }
  cbn [forallb snd] in Hv. apply andb_true_iff in Hv as [Hv Hvs]. cbn [length] in Hc.
  destruct (dict_step_ok mode d op Hd Ha Hv ltac:(lia)) as (d1 & a & -> & Hm & Hd1 & Ha1).
  pose proof (map_step_size (dmap d) op) as Hsz. rewrite Hm in Hsz |- *. cbn [fst mbind option_bind] in *.
  destruct (IH d1 Hd1 Ha1 Hvs ltac:(lia)) as (d' & l & -> & Hm' & Hd'). cbn [mbind option_bind]. rewrite Hm'.
  by exists d', (a :: l).
Qed.

Lemma dictCreate_ok : dict_ok (dictCreate : dict K V) /\ dmap (dictCreate : dict K V) = ∅.
Proof. split; [|done]. split; [done|constructor|left]. split; [done|]. split; [done|by left]. Qed.

(** The dictionary after a sequence of operations. *)
Definition state_after (ops : list (dictResizeEnable * dict_op)) : dict K V :=
  match dict_run dictCreate ops with Some (d, _) => d | None => dictCreate end.

Lemma state_after_ok ops : forallb (fun o => op_valid o.2) ops = true -> Z.of_nat (length ops) <= max_entries ->
  dict_ok (state_after ops).
Proof.
  intros Hv Hc. destruct dictCreate_ok as [Hok Hm]. unfold state_after.
  destruct (dict_run_ok ops dictCreate Hok eq_refl Hv) as (d & l & -> & _ & Hd); [|done].
  rewrite Hm, map_size_empty. lia.
Qed.

(** C7. A dictionary is a finite map: from an empty dictionary, any sequence of
    fewer than 2^62 operations (additions, replacements, lookups, deletions in
    one or two phases, emptying, rehashing steps of any length, expansions and
    shrinkings whether they are explicit or automatic, pauses of the rehashing),
    each under any resize policy of its own, runs without an access out of a
    table or a failed assertion, gives the answers of the same operations on a
    finite map and leaves a dictionary that holds that map and whose [dictSize]
    is the number of its keys. *)
Theorem dict_refines_map (ops : list (dictResizeEnable * dict_op)) :
  forallb (fun o => op_valid o.2) ops = true -> Z.of_nat (length ops) <= max_entries ->
  exists d l, dict_run dictCreate ops = Some (d, l) /\ map_run ∅ ops = (dmap d, l) /\
    dictSize d = Z.of_nat (size (dmap d)) /\ dict_ok d.
Proof.
  intros Hv Hc. destruct dictCreate_ok as [Hok Hm].
  destruct (dict_run_ok ops dictCreate Hok eq_refl Hv) as (d & l & Hr & Hmr & Hd).
  { rewrite Hm, map_size_empty. lia. }
  rewrite Hm in Hmr. exists d, l. split_and!; [done..|by apply dmap_size|done].
Qed.

End Run.

(** A dictionary type on integers: the hash is the key itself. *)
Module Sample.

#[export] Instance z_dict : DictType Z := {
  hashFunction k := u64 k; keyCompare := Z.eqb; resizeAllowed := None; force_full_rehash := false
}.

#[export] Instance z_laws : DictLaws Z.
Proof. split; [intros k; by apply uwrap_range|apply Z.eqb_eq]. Qed.

(** Enough additions for an expansion, and deletions for a shrinking. *)
Definition sample_ops : list (dictResizeEnable * dict_op (V := Z)) :=
  map (fun i => (DICT_RESIZE_ENABLE, Add (Z.of_nat i * 3) (Z.of_nat i))) (seq 0 40) ++
  [(DICT_RESIZE_AVOID, Replace 6 7); (DICT_RESIZE_FORBID, Fetch 6); (DICT_RESIZE_ENABLE, Add 9 0);
   (DICT_RESIZE_ENABLE, TwoPhaseUnlink 9); (DICT_RESIZE_ENABLE, Expand 100); (DICT_RESIZE_ENABLE, Rehash 3)] ++
  map (fun i => (DICT_RESIZE_ENABLE, Delete (Z.of_nat i * 3))) (seq 0 38) ++
  [(DICT_RESIZE_ENABLE, Fetch 117)].

Lemma dict_refines_map_witness :
  exists d l, dict_run dictCreate sample_ops = Some (d, l) /\ map_run ∅ sample_ops = (dmap d, l) /\
    dictSize d = Z.of_nat (size (dmap d)) /\ dict_ok d.
Proof. apply (dict_refines_map sample_ops); [by vm_compute|done]. Defined.

End Sample.

End DictSpec.
