(* ===== verification/DictScan.v ===== *)
(** Iterating over a dictionary: the stateless cursor of dictScan, and the
    iterators of dict.c.

    The cursor is incremented from its highest bit, so that it goes through the
    reversed hashes in increasing order whatever the sizes of the tables: a key
    that is present all along an iteration is returned, even if the dictionary
    is resized and rehashed between the calls. *)

From S2P Require Import Prelude Bits Dict DictSpec.

Module DictScan.
Import Dict DictSpec.

(** * The code *)

(** [while ((s >>= 1) > 0) { ... }] *)
Fixpoint rev_loop (fuel : nat) (s mask v : Z) : Z :=
  match fuel with
  | O => v
  | S fuel =>
    let s := Z.shiftr s 1 in
    if s >? 0 then
      let mask := Z.lxor mask (u64 (Z.shiftl mask s)) in
      let v := Z.lor (Z.land (Z.shiftr v s) mask) (Z.land (u64 (Z.shiftl v s)) (u64 (Z.lnot mask))) in
      rev_loop fuel s mask v
    else v
  end.

Definition rev (v : Z) : Z := rev_loop 7 (8 * 8) (u64 (Z.lnot 0)) v.

(** [v |= ~m; v = rev(v); v++; v = rev(v);] *)
Definition cursor_next (v m : Z) : Z := rev (u64 (rev (Z.lor v (u64 (Z.lnot m))) + 1)).

Section Scan.
Context {K V : Type} `{DT : DictType K}.

Abbreviation dict := (dict K V).
Abbreviation dictEntry := (K * V)%type.

(** The callback gets the entries of the bucket in order; the result is what it
    was given, for a callback that does not change the dictionary. *)
Definition dictScanDefragBucket (d : dict) (t : bool) (i : Z) : option (list dictEntry) := bucket (ht_of d t) i.

(** [do { ... } while (v & (m0 ^ m1))] *)
Fixpoint scan_larger (fuel : nat) (d : dict) (t : bool) (m0 m1 v : Z) : option (Z * list dictEntry) :=
  es ← dictScanDefragBucket d t (Z.land v m1);
  let v := cursor_next v m1 in
  if Z.land v (Z.lxor m0 m1) =? 0 then Some (v, es)
  else match fuel with
       | O => None
       | S fuel => '(v, es') ← scan_larger fuel d t m0 m1 v; Some (v, es ++ es')
       end.

Definition dictScanDefrag (d : dict) (v : Z) : option (dict * Z * list dictEntry) :=
  if dictSize d =? 0 then Some (d, 0, [])
  else
    let d := dictPauseRehashing d in
    '(v, es) ← (if negb (dictIsRehashing d) then
        let m0 := mask_of d false in
        es ← dictScanDefragBucket d false (Z.land v m0);
        Some (cursor_next v m0, es)
      else
        let htidx0 := size_of d false >? size_of d true in
        let htidx1 := negb htidx0 in
        let m0 := mask_of d htidx0 in
        let m1 := mask_of d htidx1 in
        es0 ← dictScanDefragBucket d htidx0 (Z.land v m0);
        '(v, es1) ← scan_larger (length (ht_table (ht_of d htidx1))) d htidx1 m0 m1 v;
        Some (v, es0 ++ es1));
    Some (dictResumeRehashing d, v, es).

Definition dictScan (d : dict) (v : Z) : option (dict * Z * list dictEntry) := dictScanDefrag d v.

End Scan.

(** * Bit reversal *)

Lemma forall64 (P : Z -> bool) : forallb P (seqZ 0 64) = true -> forall i, 0 <= i < 64 -> P i = true.
Proof. intros H i Hi. rewrite forallb_forall in H. apply H, list_elem_of_In, elem_of_seqZ. lia. Qed.

Definition rev_step (s mask v : Z) : Z :=
  Z.lor (Z.land (Z.shiftr v s) mask) (Z.land (u64 (Z.shiftl v s)) (u64 (Z.lnot mask))).

(** With the mask of the bits whose position has a zero where [s] has its one,
    a step exchanges the bits at distance [s]. *)
Lemma rev_step_bits s mask v i : 0 <= s ->
  forallb (fun i => Bool.eqb (Z.testbit mask i) (Z.lxor i s =? i + s) &&
    ((Z.lxor i s =? i + s) || (Z.lxor i s =? i - s)) && (0 <=? Z.lxor i s)) (seqZ 0 64) = true ->
  0 <= i < 64 -> Z.testbit (rev_step s mask v) i = Z.testbit v (Z.lxor i s).
Proof.
  intros Hs Hall Hi. pose proof (forall64 _ Hall i Hi) as H. cbv beta in H.
  apply andb_true_iff in H as [H Hnn]. apply andb_true_iff in H as [Hm Hx]. apply eqb_prop in Hm. apply Z.leb_le in Hnn.
  unfold rev_step, u64, uwrap. rewrite Z.lor_spec, !Z.land_spec, Z.shiftr_spec by lia.
  rewrite !Z.mod_pow2_bits_low by lia. rewrite Z.shiftl_spec, Z.lnot_spec by lia. rewrite Hm.
  destruct (Z.eqb_spec (Z.lxor i s) (i + s)) as [->|_]; cbn [negb orb] in *; rewrite ?andb_true_r, ?andb_false_r, ?orb_false_r; [done|].
  apply Z.eqb_eq in Hx as ->. done.
Qed.

Lemma rev_unfold v : rev v =
  rev_step 1 0x5555555555555555 (rev_step 2 0x3333333333333333 (rev_step 4 0x0f0f0f0f0f0f0f0f
    (rev_step 8 0x00ff00ff00ff00ff (rev_step 16 0x0000ffff0000ffff (rev_step 32 0x00000000ffffffff v))))).
Proof. reflexivity. Qed.

Lemma rev_bits v i : 0 <= i < 64 -> Z.testbit (rev v) i = Z.testbit v (63 - i).
Proof.
  intros Hi. rewrite rev_unfold.
  assert (Hx : forall j s, 0 <= j < 64 -> 0 <= s < 64 -> 0 <= Z.lxor j s < 64).
  { intros j s Hj Hs.
    pose proof (forall64 (fun j => forallb (fun s => (0 <=? Z.lxor j s) && (Z.lxor j s <? 64)) (seqZ 0 64)) ltac:(by vm_compute) j Hj) as Hall.
    pose proof (forall64 _ Hall s Hs) as E. cbv beta in E. lia. }
  rewrite !rev_step_bits by (first [by vm_compute|lia|repeat (apply Hx; [|lia]); lia]).
  f_equal. clear Hx. pose proof (forall64 (fun i => Z.lxor (Z.lxor (Z.lxor (Z.lxor (Z.lxor (Z.lxor i 1) 2) 4) 8) 16) 32 =? 63 - i) ltac:(by vm_compute) i Hi) as E.
  by apply Z.eqb_eq.
Qed.

#[global] Opaque rev.

Lemma rev_step_range s mask v : urange 64 mask -> urange 64 (rev_step s mask v).
Proof. intros H. apply urange_lor; [done|by apply urange_land_r|]. by apply urange_land_r, uwrap_range. Qed.

Lemma rev_range v : urange 64 (rev v).
Proof. rewrite rev_unfold. by apply rev_step_range. Qed.

Lemma rev_rev v : urange 64 v -> rev (rev v) = v.
Proof.
  intros Hv. apply (bits_eq 64); [done|apply rev_range|done|]. intros i Hi.
  rewrite !rev_bits by lia. f_equal. lia.
Qed.

Lemma rev_0 v : urange 64 v -> rev v = 0 -> v = 0.
Proof. intros Hv E. by rewrite <- (rev_rev v Hv), E. Qed.

(** The high bits of the reversed word are the low bits of the word. *)
Lemma rev_div_eq e x y : 0 <= e <= 64 -> x mod 2 ^ e = y mod 2 ^ e <-> rev x / 2 ^ (64 - e) = rev y / 2 ^ (64 - e).
Proof.
  intros He. split; intros H; apply Z.bits_inj'; intros i Hi.
  - rewrite !div_pow2_bits by lia. destruct (Z.ltb_spec (i + (64 - e)) 64).
    + rewrite !rev_bits by lia. apply (f_equal (fun z => Z.testbit z (63 - (i + (64 - e))))) in H.
      rewrite !mod_pow2_bits in H by lia. rewrite (proj2 (Z.ltb_lt _ _)) in H by lia. exact H.
    + by rewrite !(testbit_above 64) by (first [apply rev_range|done]).
  - rewrite !mod_pow2_bits by lia. destruct (Z.ltb_spec i e); cbn [andb]; [|done].
    apply (f_equal (fun z => Z.testbit z (e - 1 - i))) in H. rewrite !div_pow2_bits, !rev_bits in H by lia.
    by replace (63 - (e - 1 - i + (64 - e))) with i in H by lia.
Qed.

(** The cursor goes to the next block of [2 ^ (64 - e)] reversed words. *)
Lemma rev_cursor_next e v : 0 <= e <= 63 ->
  rev (cursor_next v (2 ^ e - 1)) = ((rev v / 2 ^ (64 - e) + 1) * 2 ^ (64 - e)) mod 2 ^ 64.
Proof.
  intros He. unfold cursor_next. rewrite rev_rev by (by apply uwrap_range). 
  change (u64 (rev (Z.lor v (u64 (Z.lnot (2 ^ e - 1)))) + 1)) with ((rev (Z.lor v (uwrap 64 (Z.lnot (2 ^ e - 1)))) + 1) mod 2 ^ 64). f_equal.
  replace (2 ^ e - 1) with (Z.ones e) by (rewrite Z.ones_equiv; lia).
  assert (E : rev (Z.lor v (uwrap 64 (Z.lnot (Z.ones e)))) = Z.lor (Z.ones (64 - e)) (rev v / 2 ^ (64 - e) * 2 ^ (64 - e))).
  { pose proof (rev_range v) as Hr. apply (bits_eq 64); [done|apply rev_range| |].
    - apply urange_lor; [done| |].
      + unfold urange. rewrite Z.ones_equiv. pose proof (pow2_pos (64 - e) ltac:(lia)).
        pose proof (Z.pow_le_mono_r 2 (64 - e) 64 ltac:(lia) ltac:(lia)). lia.
      + unfold urange in *. pose proof (pow2_pos (64 - e) ltac:(lia)).
        pose proof (Z.mul_div_le (rev v) (2 ^ (64 - e)) ltac:(lia)). pose proof (Z.div_pos (rev v) (2 ^ (64 - e)) ltac:(lia) ltac:(lia)). nia.
    - intros i Hi. rewrite rev_bits, Z.lor_spec, Z.lor_spec, uwrap_bits, Z.lnot_spec by lia.
      rewrite Z.mul_pow2_bits by lia. destruct (Z.ltb_spec i (64 - e)) as [Hlt|Hge].
      + rewrite Z.ones_spec_high, Z.ones_spec_low by lia. by rewrite orb_true_r.
      + rewrite Z.ones_spec_low, Z.ones_spec_high, orb_false_r by lia. cbn [orb].
        rewrite div_pow2_bits, rev_bits by lia. f_equal. lia. }
  rewrite E, Z.ones_equiv, lor_add by (pose proof (pow2_pos (64 - e) ltac:(lia)); lia). lia.
Qed.

(** * One call *)

Lemma bits_zero x : x = 0 <-> forall i, 0 <= i -> Z.testbit x i = false.
Proof.
  split; [intros -> i _; apply Z.bits_0|]. intros H. apply Z.bits_inj'. intros i Hi. rewrite Z.bits_0. by apply H.
Qed.

(** The test of the loop over the larger table: the bits of the cursor between
    the two masks. *)
Lemma mask_diff_zero e0 e1 v : 0 <= e0 <= e1 -> e1 <= 64 ->
  Z.land v (Z.lxor (2 ^ e0 - 1) (2 ^ e1 - 1)) = 0 <-> (rev v / 2 ^ (64 - e1)) mod 2 ^ (e1 - e0) = 0.
Proof.
  intros He He1. replace (2 ^ e0 - 1) with (Z.ones e0) by (rewrite Z.ones_equiv; lia).
  replace (2 ^ e1 - 1) with (Z.ones e1) by (rewrite Z.ones_equiv; lia). rewrite !bits_zero. split; intros H i Hi.
  - rewrite mod_pow2_bits by lia. destruct (Z.ltb_spec i (e1 - e0)); cbn [andb]; [|done].
    rewrite div_pow2_bits, rev_bits by lia. replace (63 - (i + (64 - e1))) with (e1 - 1 - i) by lia.
    specialize (H (e1 - 1 - i) ltac:(lia)). rewrite Z.land_spec, Z.lxor_spec, Z.ones_spec_high, Z.ones_spec_low, andb_true_r in H by lia. done.
  - rewrite Z.land_spec, Z.lxor_spec. destruct (Z.ltb_spec i e0); [rewrite !Z.ones_spec_low by lia; apply andb_false_r|].
    destruct (Z.ltb_spec i e1); [|rewrite !Z.ones_spec_high by lia; apply andb_false_r].
    specialize (H (e1 - 1 - i) ltac:(lia)). rewrite mod_pow2_bits in H by lia. rewrite (proj2 (Z.ltb_lt _ _)) in H by lia. cbn [andb] in H.
    rewrite div_pow2_bits, rev_bits in H by lia. replace (63 - (e1 - 1 - i + (64 - e1))) with i in H by lia. by rewrite H.
Qed.

Section OneCall.
Context {K V : Type} `{DT : DictType K} `{DL : !DictLaws K}.

Abbreviation dict := (dict K V).

(** The place of a key in the order of the iteration. *)
Definition place (k : K) : Z := rev (hashFunction k).

Lemma mask_of_pow (d : dict) t : ht_ok (ht_of d t) -> mask_of d t = 2 ^ ht_size_exp (ht_of d t) - 1.
Proof.
  intros Hh. pose proof (hk_exp _ Hh). unfold mask_of, DICTHT_SIZE_MASK.
  destruct (Z.eqb_spec (ht_size_exp (ht_of d t)) (-1)); [lia|]. by rewrite DICTHT_SIZE_pow by lia.
Qed.

(** The bucket of the cursor has the entries of its block. *)
Lemma scan_bucket_ok (d : dict) t v : ht_ok (ht_of d t) ->
  exists es, dictScanDefragBucket d t (Z.land v (mask_of d t)) = Some es /\
    (forall x, x ∈ es -> x ∈ ht_entries (ht_of d t)) /\
    (forall x, x ∈ ht_entries (ht_of d t) ->
       place x.1 / 2 ^ (64 - ht_size_exp (ht_of d t)) = rev v / 2 ^ (64 - ht_size_exp (ht_of d t)) -> x ∈ es).
Proof.
  intros Hh. pose proof (hk_exp _ Hh) as He. set (e := ht_size_exp (ht_of d t)) in *.
  unfold dictScanDefragBucket. pose proof (land_mask_range v e ltac:(lia)) as Hr.
  change (Z.land v (DICTHT_SIZE_MASK e)) with (Z.land v (mask_of d t)) in Hr.
  destruct (lookup_lt_is_Some_2 (ht_table (ht_of d t)) (Z.to_nat (Z.land v (mask_of d t)))) as [es Hes].
  { pose proof (hk_len _ Hh) as Hl. fold e in Hl. lia. }
  exists es. split; [apply bucket_lookup; split; [lia|done]|]. split.
  - intros x Hx. apply list_elem_of_In, in_concat. exists es. split; apply list_elem_of_In; [by eapply list_elem_of_lookup_2|done].
  - intros x Hx Hp. apply (in_bucket _ x es Hh); [|done]. apply bucket_lookup.
    assert (E : hash_idx e x.1 = Z.land v (mask_of d t)).
    { unfold hash_idx. change (mask_of d t) with (DICTHT_SIZE_MASK e). rewrite !land_mask by lia. apply rev_div_eq; [lia|done]. }
    fold e. rewrite E. split; [lia|done].
Qed.

(** Blocks of the larger table inside a block of the smaller one; [c] is their
    number. *)
Lemma block_step q c : 0 < c -> 0 <= q ->
  ((q + 1) mod c = 0 -> q + 1 = (q / c + 1) * c) /\
  ((q + 1) mod c <> 0 -> (q + 1) / c = q / c /\ q + 1 < (q / c + 1) * c).
Proof.
  intros Hc Hq. pose proof (Z.div_mod q c ltac:(lia)) as E. pose proof (Z.mod_pos_bound q c Hc) as Hb.
  set (r := q mod c) in *. set (k := q / c) in *. destruct (Z.eqb_spec (r + 1) c) as [Hr|Hr].
  - assert (E1 : q + 1 = (k + 1) * c) by lia. rewrite E1, Z.mod_mul by lia. split; [done|lia].
  - assert (E1 : q + 1 = r + 1 + k * c) by lia. rewrite E1, Z.mod_add, Z.div_add, (Z.mod_small (r + 1)), (Z.div_small (r + 1)) by lia.
    split; [lia|]. intros _. lia.
Qed.

Lemma cursor_next_range v m : urange 64 (cursor_next v m).
Proof. apply rev_range. Qed.

(** A step of the loop over the larger table: the cursor goes to the next of its
    blocks, and the test tells whether it is at the end of the smaller table's. *)
Lemma cursor_block e0 e1 v : 2 <= e0 <= e1 -> e1 <= 60 ->
  let B := 2 ^ (64 - e1) in let c := 2 ^ (e1 - e0) in let q := rev v / B in
  let n0 := (q / c + 1) * c in let v1 := cursor_next v (2 ^ e1 - 1) in
  0 < B /\ 0 < c /\ 0 <= q /\
  (Z.land v1 (Z.lxor (2 ^ e0 - 1) (2 ^ e1 - 1)) = 0 -> q + 1 = n0 /\ rev v1 = (n0 * B) mod 2 ^ 64) /\
  (Z.land v1 (Z.lxor (2 ^ e0 - 1) (2 ^ e1 - 1)) <> 0 -> q + 1 < n0 /\ rev v1 = (q + 1) * B /\ (q + 1) / c = q / c).
Proof.
  intros He Hexp B c q n0 v1. pose proof (rev_cursor_next e1 v ltac:(lia)) as Hnext. fold v1 B q in Hnext.
  assert (HB : 0 < B) by (apply pow2_pos; lia). assert (Hc : 0 < c) by (apply pow2_pos; lia).
  pose proof (rev_range v) as [Hr0 Hr1]. assert (Hq : 0 <= q) by (by apply Z.div_pos).
  destruct (block_step q c Hc Hq) as [Hb1 Hb2].
  assert (HBe : 2 ^ 64 = 2 ^ e1 * B) by (unfold B; rewrite <- Z.pow_add_r by lia; f_equal; lia).
  assert (Hce : 2 ^ e1 = 2 ^ e0 * c) by (unfold c; rewrite <- Z.pow_add_r by lia; f_equal; lia).
  assert (Hmod : (rev v1 / B) mod c = (q + 1) mod c).
  { rewrite Hnext, HBe, Z.mul_mod_distr_r, Z.div_mul by lia. apply Z.mod_mod_divide. by exists (2 ^ e0). }
  pose proof (mask_diff_zero e0 e1 v1 ltac:(lia) ltac:(lia)) as Hm. fold B c in Hm. rewrite Hmod in Hm. rewrite Hm. split_and!; [done..| |].
  - intros Hz. specialize (Hb1 Hz). fold n0 in Hb1. split; [done|]. by rewrite <- Hb1.
  - intros Hz. destruct (Hb2 Hz) as [E Hlt]. fold n0 in Hlt. split_and!; [done| |done].
    assert (Hq' : q / c < 2 ^ e0).
    { apply Z.div_lt_upper_bound; [done|]. apply Z.div_lt_upper_bound; [done|]. rewrite Z.mul_comm, (Z.mul_comm c), <- Hce, <- HBe. done. }
    rewrite Hnext. apply Z.mod_small. assert (n0 <= 2 ^ e1) by (unfold n0; rewrite Hce; nia). nia.
Qed.

Lemma scan_larger_ok (d : dict) t e0 fuel : forall v, ht_ok (ht_of d t) -> 2 <= e0 <= ht_size_exp (ht_of d t) ->
  let e1 := ht_size_exp (ht_of d t) in
  let n0 := (rev v / 2 ^ (64 - e1) / 2 ^ (e1 - e0) + 1) * 2 ^ (e1 - e0) in
  n0 - rev v / 2 ^ (64 - e1) - 1 <= Z.of_nat fuel ->
  exists v' es, scan_larger fuel d t (2 ^ e0 - 1) (mask_of d t) v = Some (v', es) /\
    urange 64 v' /\ rev v' = (n0 * 2 ^ (64 - e1)) mod 2 ^ 64 /\
    (forall x, x ∈ es -> x ∈ ht_entries (ht_of d t)) /\
    (forall x, x ∈ ht_entries (ht_of d t) -> rev v <= place x.1 < n0 * 2 ^ (64 - e1) -> x ∈ es).
Proof.
  induction fuel as [|fuel IH]; intros v Hh He e1 n0 Hf; cbn [scan_larger];
    destruct (scan_bucket_ok d t v Hh) as (es & -> & Hsub & Hin); cbn [mbind option_bind];
    pose proof (hk_exp _ Hh) as Hexp; rewrite (mask_of_pow d t Hh) in *; fold e1 in He, Hin, Hexp |- *;
    destruct (cursor_block e0 e1 v He ltac:(lia)) as (HB & Hc & Hq & Hz & Hnz);
    set (v1 := cursor_next v (2 ^ e1 - 1)) in *; set (B := 2 ^ (64 - e1)) in *; set (c := 2 ^ (e1 - e0)) in *;
    set (q := rev v / B) in *; fold n0 in Hz, Hnz;
    assert (Hblock : forall x, x ∈ ht_entries (ht_of d t) -> rev v <= place x.1 < (q + 1) * B -> x ∈ es) by
      (intros x Hx [Hl Hu]; apply (Hin x Hx); apply Z.le_antisymm;
       [apply Zlt_succ_le, Z.div_lt_upper_bound; lia|by apply Z.div_le_mono]);
    destruct (Z.eqb_spec (Z.land v1 (Z.lxor (2 ^ e0 - 1) (2 ^ e1 - 1))) 0) as [E|E].
  1,3: destruct (Hz E) as [Hn0 Hv1]; exists v1, es; rewrite Hn0 in Hblock;
    (split_and!; [done|apply cursor_next_range|done|done|done]).
  - destruct (Hnz E) as (Hlt & _). lia.
  - destruct (Hnz E) as (Hlt & Hv1 & Hdiv). assert (Hq1 : rev v1 / B = q + 1) by (rewrite Hv1, Z.div_mul by lia; done).
    destruct (IH v1 Hh He) as (v' & es' & Heq & Hr & Hv' & Hsub' & Hin').
    { fold e1 B c. rewrite Hq1, Hdiv. fold n0. lia. }
    fold e1 B c in Hv', Hin'. rewrite Hq1, Hdiv in Hv', Hin'. fold n0 in Hv', Hin'.
    fold e1 in Heq. rewrite Heq. cbn [mbind option_bind]. exists v', (es ++ es'). split_and!; [done..| |].
    + intros x [Hx|Hx]%elem_of_app; auto.
    + intros x Hx Hp. apply elem_of_app. destruct (Z.lt_ge_cases (place x.1) ((q + 1) * B)); [left|right].
      * apply Hblock; [done|lia].
      * apply Hin'; [done|]. rewrite Hv1. lia.
Qed.

(** What a call gives: the next cursor, which is below the size of the first table, and the
    entries between the two cursors. *)
Definition scanned (d : dict) (v v' : Z) (es : list (K * V)) : Prop :=
  urange 64 v' /\ (v' = 0 \/ rev v < rev v') /\ (forall x, x ∈ es -> x ∈ entries d) /\
  (forall x, x ∈ entries d -> rev v <= place x.1 -> v' = 0 \/ place x.1 < rev v' -> x ∈ es) /\
  (v' = 0 \/ v' < 2 ^ ht_size_exp (ht0 d)).

(** A cursor at the start of a block has no bits above the size of the table. *)
Lemma cursor_small e v : 0 <= e <= 64 -> urange 64 v -> rev v mod 2 ^ (64 - e) = 0 -> v < 2 ^ e.
Proof.
  intros He Hv Hm. apply (urange_bits e); [lia|]. intros i Hi. destruct (Z.lt_ge_cases i 64) as [Hlt|Hge]; [|by apply (testbit_above 64)].
  replace i with (63 - (63 - i)) by lia. rewrite <- rev_bits by lia.
  apply (f_equal (fun z => Z.testbit z (63 - i))) in Hm. rewrite mod_pow2_bits, Z.bits_0, (proj2 (Z.ltb_lt (63 - i) (64 - e))) in Hm by lia. done.
Qed.

(** The end of a block that is the whole space wraps to the cursor 0. *)
Lemma scanned_intro (d : dict) v v' es e q : let n := q * 2 ^ (64 - e) in
  2 <= e <= ht_size_exp (ht0 d) -> e <= 64 -> urange 64 v' -> rev v' = n mod 2 ^ 64 -> rev v < n <= 2 ^ 64 ->
  (forall x, x ∈ es -> x ∈ entries d) ->
  (forall x, x ∈ entries d -> rev v <= place x.1 < n -> x ∈ es) -> scanned d v v' es.
Proof.
  intros n He He64 Hr Hv' Hn Hsub Hin. pose proof (rev_range v) as [Hv0 _]. unfold scanned. split_and!; [done| |done| |].
  - destruct (Z.eqb_spec n (2 ^ 64)) as [->|]; [left; by apply rev_0|right]. rewrite Hv', Z.mod_small by lia. lia.
  - intros x Hx Hl Hu. apply (Hin x Hx). pose proof (rev_range (hashFunction x.1)) as [_ Hp]. change (rev _) with (place x.1) in Hp.
    destruct (Z.eqb_spec n (2 ^ 64)) as [->|]; [lia|]. rewrite Z.mod_small in Hv' by lia.
    destruct Hu as [->|]; [|lia]. change (rev 0) with 0 in Hv'. lia.
  - right. apply Z.lt_le_trans with (2 ^ e); [|apply Z.pow_le_mono_r; lia]. apply cursor_small; [lia|done|].
    rewrite Hv'. replace (2 ^ 64) with (2 ^ e * 2 ^ (64 - e)) by (rewrite <- Z.pow_add_r by lia; f_equal; lia). unfold n.
    rewrite Z.mul_mod_distr_r by (apply Z.pow_nonzero; lia). apply Z.mod_mul, Z.pow_nonzero; lia.
Qed.

(** A block of a table of [2 ^ e] buckets. *)
Lemma block_bounds e v : 0 <= e <= 64 -> let B := 2 ^ (64 - e) in
  0 < B /\ rev v < (rev v / B + 1) * B <= 2 ^ 64 /\ rev v / B * B <= rev v.
Proof.
  intros He B. assert (HB : 0 < B) by (apply pow2_pos; lia). pose proof (rev_range v) as [H0 H1].
  pose proof (Z.div_mod (rev v) B ltac:(lia)) as E. pose proof (Z.mod_pos_bound (rev v) B HB).
  assert (HBe : 2 ^ 64 = 2 ^ e * B) by (unfold B; rewrite <- Z.pow_add_r by lia; f_equal; lia).
  assert (rev v / B < 2 ^ e) by (apply Z.div_lt_upper_bound; lia). split_and!; nia.
Qed.

Lemma steady_scan_ok (d : dict) v : dict_ok d -> ht_ok (ht0 d) -> dictIsRehashing d = false ->
  exists es, dictScanDefragBucket d false (Z.land v (mask_of d false)) = Some es /\
    scanned d v (cursor_next v (mask_of d false)) es.
Proof.
  intros Hd H0 Hr. destruct (scan_bucket_ok d false v H0) as (es & Hes & Hsub & Hin). exists es. split; [done|].
  destruct (dict_ok_steady d Hd Hr) as (_ & H1 & _).
  assert (E : entries d = ht_entries (ht0 d)) by (unfold entries; rewrite H1; apply app_nil_r).
  pose proof (hk_exp _ H0) as He. rewrite (mask_of_pow d false H0). cbn [ht_of] in *.
  destruct (block_bounds (ht_size_exp (ht0 d)) v ltac:(lia)) as (HB & Hn & Hlo).
  eapply scanned_intro; [split; [|reflexivity]; lia|lia|apply cursor_next_range|apply rev_cursor_next; lia|done|by rewrite E|].
  rewrite E. intros x Hx Hp. apply (Hin x Hx). apply Z.le_antisymm; [apply Zlt_succ_le, Z.div_lt_upper_bound; lia|apply Z.div_le_mono; lia].
Qed.

Lemma rehashing_scan_ok (d : dict) v t : rehashing d -> ht_size_exp (ht_of d t) <= ht_size_exp (ht_of d (negb t)) ->
  exists es0 v' es1, dictScanDefragBucket d t (Z.land v (mask_of d t)) = Some es0 /\
    scan_larger (length (ht_table (ht_of d (negb t)))) d (negb t) (mask_of d t) (mask_of d (negb t)) v = Some (v', es1) /\
    scanned d v v' (es0 ++ es1).
Proof.
  intros Hr Hle. assert (Hok : forall b, ht_ok (ht_of d b)) by (intros []; apply Hr).
  destruct (scan_bucket_ok d t v (Hok t)) as (es0 & Hes0 & Hsub0 & Hin0).
  pose proof (hk_exp _ (Hok t)) as He0. pose proof (hk_exp _ (Hok (negb t))) as He1.
  set (e0 := ht_size_exp (ht_of d t)) in *. set (e1 := ht_size_exp (ht_of d (negb t))) in *.
  destruct (cursor_block e0 e1 v ltac:(lia) ltac:(lia)) as (HB & Hc & Hq & _).
  assert (HBc : 2 ^ (64 - e1) * 2 ^ (e1 - e0) = 2 ^ (64 - e0)) by (rewrite <- Z.pow_add_r by lia; f_equal; lia).
  assert (Hn : rev v / 2 ^ (64 - e1) / 2 ^ (e1 - e0) = rev v / 2 ^ (64 - e0)) by (rewrite Z.div_div, HBc by lia; done).
  destruct (scan_larger_ok d (negb t) e0 (length (ht_table (ht_of d (negb t)))) v (Hok _)) as (v' & es1 & Heq & Hv & Hrv & Hsub1 & Hin1).
  { fold e1. lia. }
  { fold e1. pose proof (hk_len _ (Hok (negb t))) as Hl. fold e1 in Hl. rewrite Hl.
    pose proof (Z.pow_le_mono_r 2 (e1 - e0) e1 ltac:(lia) ltac:(lia)).
    pose proof (Z.mul_div_le (rev v / 2 ^ (64 - e1)) (2 ^ (e1 - e0)) Hc). nia. }
  fold e1 in Hrv, Hin1. rewrite Hn, <- Z.mul_assoc, (Z.mul_comm (2 ^ (e1 - e0))), HBc in Hrv, Hin1.
  rewrite (mask_of_pow d t (Hok t)). fold e0. rewrite (mask_of_pow d t (Hok t)) in Hes0. fold e0 in Hes0.
  exists es0, v', es1. split_and!; [done..|]. destruct (block_bounds e0 v ltac:(lia)) as (HB0 & Hbn & Hlo).
  assert (Hmem : forall x, x ∈ entries d <-> x ∈ ht_entries (ht_of d t) \/ x ∈ ht_entries (ht_of d (negb t))).
  { intros x. unfold entries. rewrite elem_of_app. destruct t; cbn; tauto. }
  assert (He00 : e0 <= ht_size_exp (ht0 d)) by (subst e0 e1; destruct t; cbn [ht_of negb] in *; lia).
  eapply scanned_intro; [split; [|exact He00]; lia|lia|done|exact Hrv|done| |].
  - intros x [Hx|Hx]%elem_of_app; apply Hmem; auto.
  - intros x [Hx|Hx]%Hmem Hp; apply elem_of_app; [left|right; by apply Hin1].
    apply (Hin0 x Hx), Z.le_antisymm; [apply Zlt_succ_le, Z.div_lt_upper_bound; lia|apply Z.div_le_mono; lia].
Qed.

Lemma scan_call_ok (d : dict) v : dict_ok d ->
  exists d' v' es, dictScan d v = Some (d', v', es) /\ scanned d v v' es /\
    dict_ok d' /\ entries d' = entries d /\ pauseAutoResize d' = pauseAutoResize d.
Proof.
  intros Hd. unfold dictScan, dictScanDefrag. destruct (Z.eqb_spec (dictSize d) 0) as [Hs|Hs].
  - exists d, 0, []. split_and!; [done| |done..]. rewrite dictSize_ok in Hs by done.
    assert (entries d = []) as E by (apply nil_length_inv; lia). unfold scanned. rewrite E.
    split_and!; [done|by left|done| |by left]. by intros x ?%not_elem_of_nil.
  - set (dp := dictPauseRehashing d). assert (Hdp : dict_ok dp) by (by apply dict_ok_pause).
    assert (H0 : ht_ok (ht0 dp)) by (by apply (nonempty_alloc d)).
    destruct (dictIsRehashing dp) eqn:Hr; cbn [negb].
    + destruct (dict_ok_rehashing dp Hdp Hr) as [Hrh _].
      assert (Hgt : (size_of dp false >? size_of dp true) = (ht_size_exp (ht0 dp) >? ht_size_exp (ht1 dp))).
      { pose proof (hk_exp _ (rh_ht0 _ Hrh)). pose proof (hk_exp _ (rh_ht1 _ Hrh)). unfold size_of, ht_of.
        rewrite !DICTHT_SIZE_pow by lia. apply eq_true_iff_eq. rewrite !Z.gtb_lt. symmetry. apply Z.pow_lt_mono_r_iff; lia. }
      rewrite Hgt. set (t := ht_size_exp (ht0 dp) >? ht_size_exp (ht1 dp)).
      destruct (rehashing_scan_ok dp v t Hrh) as (es0 & v' & es1 & -> & Hl & Hsc).
      { subst t. destruct (Z.gtb_spec (ht_size_exp (ht0 dp)) (ht_size_exp (ht1 dp))); cbn [ht_of negb]; lia. }
      cbn [mbind option_bind]. rewrite Hl. cbn [mbind option_bind]. eexists _, _, _. split_and!; [done..|by apply dict_ok_pause|done|done].
    + destruct (steady_scan_ok dp v Hdp H0 Hr) as (es & -> & Hsc). cbn [mbind option_bind]. eexists _, _, _. split_and!; [done..|by apply dict_ok_pause|done|done].
Qed.

(** * A whole iteration *)

(** Calls of [dictScan] on the states the dictionary has at the times of the
    calls, from the cursor [v], until the cursor 0 is returned or the states are
    exhausted: the last cursor, and what the callback was given. *)
Fixpoint scan_run (ds : list dict) (v : Z) : option (Z * list (K * V)) :=
  match ds with
  | [] => Some (v, [])
  | d :: ds =>
    '(_, v, es) ← dictScan d v;
    if v =? 0 then Some (0, es)
    else '(v, es') ← scan_run ds v; Some (v, es ++ es')
  end.

Lemma scan_run_ok ds : forall v, Forall dict_ok ds -> ds <> [] ->
  exists v' es, scan_run ds v = Some (v', es) /\
    (v' = 0 \/ rev v + Z.of_nat (length ds) <= rev v' < 2 ^ 64) /\
    (forall x, x ∈ es -> exists d, d ∈ ds /\ x ∈ entries d) /\
    (v' = 0 -> forall k, rev v <= place k -> (forall d, d ∈ ds -> k ∈ map fst (entries d)) -> k ∈ map fst es).
Proof.
  induction ds as [|d ds IH]; intros v Hds Hne; [done|]. cbn [scan_run]. apply Forall_cons in Hds as [Hd Hds].
  destruct (scan_call_ok d v Hd) as (d' & v1 & es & -> & (Hr1 & Hprog & Hsub & Hin & _) & _). cbn [mbind option_bind].
  assert (Hk : forall k, rev v <= place k -> v1 = 0 \/ place k < rev v1 -> k ∈ map fst (entries d) -> k ∈ map fst es).
  { intros k Hp Hu (x & -> & Hx)%list_elem_of_fmap. apply list_elem_of_fmap_2. by apply Hin. }
  destruct (Z.eqb_spec v1 0) as [->|Hv1].
  { exists 0, es. split_and!; [done|by left| |].
    - intros x Hx. exists d. split; [by left|by apply Hsub].
    - intros _ k Hp Hall. apply Hk; [done|by left|]. apply Hall. by left. }
  destruct Hprog as [|Hprog]; [done|]. pose proof (rev_range v1) as [_ Hmax].
  destruct ds as [|d2 ds].
  { exists v1, es. cbn [scan_run mbind option_bind]. rewrite app_nil_r. split_and!; [done| | |done].
    - right. cbn [length]. lia.
    - intros x Hx. exists d. split; [by left|by apply Hsub]. }
  destruct (IH v1 Hds ltac:(done)) as (v' & es' & -> & Hprog' & Hsub' & Hin'). cbn [mbind option_bind].
  exists v', (es ++ es'). split_and!; [done| | |].
  - destruct Hprog' as [|Hp]; [by left|right]. cbn [length] in *. lia.
  - intros x [Hx|Hx]%elem_of_app; [exists d; split; [by left|by apply Hsub]|].
    destruct (Hsub' x Hx) as (d0 & Hd0 & ?). exists d0. split; [by right|done].
  - intros Hz k Hp Hall. rewrite map_app, elem_of_app. destruct (Z.lt_ge_cases (place k) (rev v1)).
    + left. apply Hk; [done|by right|]. apply Hall. by left.
    + right. apply Hin'; [done|done|]. intros d0 Hd0. apply Hall. by right.
Qed.

(** C13. The guarantee of [dictScan]: an iteration from the cursor 0, over any
    states of the dictionary (it may be resized, be in the middle of a rehashing
    and gain or lose keys between the calls), never accesses a table out of
    range and gives the callback entries of the dictionary only; when it is back
    at the cursor 0, it has given every key that was present all along.  It does
    come back to 0: otherwise the reversed cursor has grown by one at least
    with each call, and it is below 2^64. *)
Theorem dictScan_complete (ds : list dict) : Forall dict_ok ds -> ds <> [] ->
  exists v es, scan_run ds 0 = Some (v, es) /\
    (v = 0 \/ Z.of_nat (length ds) <= rev v < 2 ^ 64) /\
    (forall x, x ∈ es -> exists d, d ∈ ds /\ x ∈ entries d) /\
    (v = 0 -> forall k, (forall d, d ∈ ds -> k ∈ map fst (entries d)) -> k ∈ map fst es).
Proof.
  intros Hds Hne. destruct (scan_run_ok ds 0 Hds Hne) as (v & es & Heq & Hprog & Hsub & Hin).
  exists v, es. split_and!; [done| |done|].
  - destruct Hprog as [|Hp]; [by left|right]. change (rev 0) with 0 in Hp. lia.
  - intros Hz k Hall. apply Hin; [done| |done]. change (rev 0) with 0. apply rev_range.
Qed.

End OneCall.

(** * Iterators *)

Section Iterator.
Context {K V : Type} `{DT : DictType K}.

Abbreviation dict := (dict K V).
Abbreviation dictEntry := (K * V)%type.

(** The addresses of the two tables, for the fingerprint. *)
Context (table_address : list (list dictEntry) -> Z).

(** One round of the hash of the fingerprint. *)
Definition fingerprint_round (hash integer : Z) : Z :=
  let hash := u64 (hash + integer) in
  let hash := u64 (u64 (Z.lnot hash) + u64 (Z.shiftl hash 21)) in
  let hash := Z.lxor hash (Z.shiftr hash 24) in
  let hash := u64 (u64 (hash + u64 (Z.shiftl hash 3)) + u64 (Z.shiftl hash 8)) in
  let hash := Z.lxor hash (Z.shiftr hash 14) in
  let hash := u64 (u64 (hash + u64 (Z.shiftl hash 2)) + u64 (Z.shiftl hash 4)) in
  let hash := Z.lxor hash (Z.shiftr hash 28) in
  u64 (hash + u64 (Z.shiftl hash 31)).

Definition dictFingerprint (d : dict) : Z :=
  fold_left fingerprint_round
    [u64 (table_address (ht_table (ht0 d))); u64 (ht_size_exp (ht0 d)); ht_used (ht0 d);
     u64 (table_address (ht_table (ht1 d))); u64 (ht_size_exp (ht1 d)); ht_used (ht1 d)] 0.

(** [entry] and [nextEntry] are rests of chains, [] is NULL. *)
Record dictIterator := mkIter {
  it_index : Z; it_table : bool; it_safe : bool; it_entry : list dictEntry; it_nextEntry : list dictEntry; it_fingerprint : Z
}.

Definition dictInitIterator (safe : bool) : dictIterator := mkIter (-1) false safe [] [] 0.

(** A round of the loop, up to the test of [iter->entry]; the flag is [break]. *)
Definition next_round (d : dict) (it : dictIterator) : option (dict * dictIterator * bool) :=
  match it_entry it with
  | [] =>
    let first := (it_index it =? -1) && negb (it_table it) in
    let d' := if first && it_safe it then dictPauseRehashing d else d in
    let fp := if first && negb (it_safe it) then dictFingerprint d else it_fingerprint it in
    let index := if first && dictIsRehashing d then rehashidx d - 1 else it_index it in
    let index := index + 1 in
    let next_table := (index >=? size_of d (it_table it)) && (dictIsRehashing d && negb (it_table it)) in
    if (index >=? size_of d (it_table it)) && negb next_table
    then Some (d', mkIter index (it_table it) (it_safe it) [] (it_nextEntry it) fp, true)
    else
      let table := if next_table then true else it_table it in
      let index := if next_table then 0 else index in
      entry ← bucket (ht_of d table) index;
      Some (d', mkIter index table (it_safe it) entry (it_nextEntry it) fp, false)
  | _ :: _ =>
    Some (d, mkIter (it_index it) (it_table it) (it_safe it) (it_nextEntry it) (it_nextEntry it) (it_fingerprint it), false)
  end.

(** [while (1) { ... }] *)
Fixpoint dictNext_loop (fuel : nat) (d : dict) (it : dictIterator) : option (dict * dictIterator * option dictEntry) :=
  '(d, it, stop) ← next_round d it;
  if (stop : bool) then Some (d, it, None)
  else
    match it_entry it with
    | e :: next => Some (d, mkIter (it_index it) (it_table it) (it_safe it) (it_entry it) next (it_fingerprint it), Some e)
    | [] => match fuel with O => None | S fuel => dictNext_loop fuel d it end
    end.

Definition dictNext (d : dict) (it : dictIterator) : option (dict * dictIterator * option dictEntry) :=
  dictNext_loop (S (length (ht_table (ht0 d)) + length (ht_table (ht1 d)))) d it.

Definition dictResetIterator (d : dict) (it : dictIterator) : option dict :=
  if (it_index it =? -1) && negb (it_table it) then Some d
  else if it_safe it then Some (dictResumeRehashing d)
  else _ ← guard (it_fingerprint it =? dictFingerprint d); Some d.

(** Calls of [dictNext] until NULL, then the release of the iterator. *)
Fixpoint iterate (fuel : nat) (d : dict) (it : dictIterator) : option (dict * dictIterator * list dictEntry) :=
  '(d, it, e) ← dictNext d it;
  match e with
  | None => Some (d, it, [])
  | Some e =>
    match fuel with
    | O => None
    | S fuel => '(d, it, l) ← iterate fuel d it; Some (d, it, e :: l)
    end
  end.

Definition iterate_all (d : dict) (safe : bool) : option (dict * list dictEntry) :=
  '(d, it, l) ← iterate (length (entries d)) d (dictInitIterator safe);
  d ← dictResetIterator d it;
  Some (d, l).

(** ** What is left to visit *)

Context `{DL : !DictLaws K}.

(** The entries from bucket [i] of a table on. *)
Definition rest_buckets (d : dict) (t : bool) (i : Z) : list dictEntry :=
  concat (drop (Z.to_nat i) (ht_table (ht_of d t))) ++
  (if t then [] else if dictIsRehashing d then ht_entries (ht1 d) else []).

Definition fresh (it : dictIterator) : bool := (it_index it =? -1) && negb (it_table it).

Definition rem (d : dict) (it : dictIterator) : list dictEntry :=
  match it_entry it with
  | [] => if fresh it then entries d else rest_buckets d (it_table it) (it_index it + 1)
  | _ :: _ => it_nextEntry it ++ rest_buckets d (it_table it) (it_index it + 1)
  end.

(** The number of buckets from bucket [i] of a table on. *)
Definition buckets_from (d : dict) (t : bool) (i : Z) : nat :=
  (length (ht_table (ht_of d t)) - Z.to_nat i + if t then 0 else length (ht_table (ht1 d)))%nat.

Definition it_ok (d : dict) (it : dictIterator) : Prop :=
  (fresh it = true /\ it_entry it = []) \/
  (0 <= it_index it /\ (it_table it = true -> dictIsRehashing d = true)).

Lemma size_of_len (d : dict) t : dict_ok d -> (t = true -> dictIsRehashing d = true) ->
  size_of d t = Z.of_nat (length (ht_table (ht_of d t))).
Proof.
  intros Hd Ht. assert (Hh : ht_of d t = _dictReset \/ ht_ok (ht_of d t)).
  { destruct t; cbn; [right; by apply dict_ok_rehashing; [|apply Ht]|by apply dict_ok_ht0]. }
  destruct Hh as [E|Hh]; unfold size_of; [by rewrite E|]. pose proof (hk_exp _ Hh).
  rewrite DICTHT_SIZE_pow by lia. symmetry. apply (hk_len _ Hh).
Qed.

(** The next bucket to read from bucket [i] of table [t], or the end. *)
Lemma next_bucket (d : dict) t i : dict_ok d -> (t = true -> dictIsRehashing d = true) -> 0 <= i ->
  let next_table := (i >=? size_of d t) && (dictIsRehashing d && negb t) in
  if (i >=? size_of d t) && negb next_table then rest_buckets d t i = []
  else
    let t' := if next_table then true else t in
    let i' := if next_table then 0 else i in
    exists b, bucket (ht_of d t') i' = Some b /\ rest_buckets d t i = b ++ rest_buckets d t' (i' + 1) /\
      (buckets_from d t' (i' + 1) < buckets_from d t i)%nat /\ (t' = true -> dictIsRehashing d = true) /\ 0 <= i'.
Proof.
  intros Hd Ht Hi. cbv zeta. rewrite (size_of_len d t Hd Ht). destruct (Z.geb_spec i (Z.of_nat (length (ht_table (ht_of d t))))) as [Hge|Hlt]; cbn [andb].
  - assert (Hdrop : drop (Z.to_nat i) (ht_table (ht_of d t)) = []) by (apply drop_ge; lia).
    destruct (dictIsRehashing d) eqn:Hr; [destruct t|]; cbn [andb negb]; unfold rest_buckets.
    + by rewrite Hdrop.
    + destruct (dict_ok_rehashing d Hd Hr) as [Hrh _]. pose proof (hk_len _ (rh_ht1 _ Hrh)) as Hl.
      pose proof (pow2_pos (ht_size_exp (ht1 d)) ltac:(pose proof (hk_exp _ (rh_ht1 _ Hrh)); lia)).
      rewrite Hdrop, Hr. unfold buckets_from, bucket, ht_entries. cbn [ht_of guard mbind option_bind Z.leb].
      destruct (ht_table (ht1 d)) as [|b l]; [cbn in Hl; lia|]. exists b. cbn. rewrite app_nil_r. split_and!; [done..|lia|done|lia].
    + rewrite Hdrop, Hr. by destruct t.
  - destruct (lookup_lt_is_Some_2 (ht_table (ht_of d t)) (Z.to_nat i)) as [b Hb]; [lia|]. exists b.
    split_and!; [by apply bucket_lookup| | |done|done].
    + unfold rest_buckets. rewrite (drop_S _ _ _ Hb), (Z2Nat.inj_add i 1), Nat.add_1_r by lia. cbn. by rewrite app_assoc.
    + unfold buckets_from. lia.
Qed.

Ltac iter_cbn := cbn [it_index it_table it_safe it_entry it_nextEntry it_fingerprint].

(** The dictionary and the fingerprint after the first call. *)
Definition started (d : dict) (it : dictIterator) : dict :=
  if fresh it && it_safe it then dictPauseRehashing d else d.
Definition start_fp (d : dict) (it : dictIterator) : Z :=
  if fresh it && negb (it_safe it) then dictFingerprint d else it_fingerprint it.

(** Where the iterator reads next when it is not inside a chain. *)
Definition next_index (d : dict) (it : dictIterator) : Z :=
  (if fresh it && dictIsRehashing d then rehashidx d - 1 else it_index it) + 1.

Lemma next_index_ok (d : dict) it : dict_ok d -> it_ok d it -> it_entry it = [] ->
  0 <= next_index d it /\ (it_table it = true -> dictIsRehashing d = true) /\
  rem d it = rest_buckets d (it_table it) (next_index d it) /\
  (buckets_from d (it_table it) (next_index d it) <= length (ht_table (ht0 d)) + length (ht_table (ht1 d)))%nat.
Proof.
  intros Hd Hit He. unfold rem, next_index. rewrite He.
  assert (Hbf : forall t i, (buckets_from d t i <= length (ht_table (ht0 d)) + length (ht_table (ht1 d)))%nat).
  { intros t i. unfold buckets_from. destruct t; cbn; lia. }
  destruct (fresh it) eqn:Hf; cbn [andb].
  - unfold fresh in Hf. apply andb_true_iff in Hf as [Hi%Z.eqb_eq Ht%negb_true_iff]. rewrite Ht.
    destruct (dictIsRehashing d) eqn:Hr.
    + destruct (dict_ok_rehashing d Hd Hr) as [Hrh Hlt]. pose proof (rh_idx _ Hrh) as Hidx. rewrite Z.sub_add.
      split_and!; [lia|done| |apply Hbf]. unfold entries, rest_buckets. cbn [ht_of]. rewrite Hr. f_equal.
      unfold ht_entries. rewrite <- (take_drop (Z.to_nat (rehashidx d)) (ht_table (ht0 d))) at 1. rewrite concat_app.
      assert (E : concat (take (Z.to_nat (rehashidx d)) (ht_table (ht0 d))) = []); [|by rewrite E].
      apply concat_nil_Forall, Forall_lookup. intros j b Hj.
      apply lookup_take_Some in Hj as [Hj Hlt']. rewrite (rh_empty _ Hrh) in Hj by lia. congruence.
    + rewrite Hi. split_and!; [lia|done| |apply Hbf]. unfold entries, rest_buckets. cbn. rewrite Hr.
      destruct (dict_ok_steady d Hd Hr) as (_ & -> & _). done.
  - destruct Hit as [[? _]|[H0 Ht]]; [congruence|]. split_and!; [lia|done|done|apply Hbf].
Qed.

(** The rounds an iterator may need. *)
Definition need (d : dict) (it : dictIterator) : nat :=
  match it_entry it with
  | [] => buckets_from d (it_table it) (next_index d it)
  | _ :: _ => S (buckets_from d (it_table it) (it_index it + 1))
  end.

Lemma next_round_ok (d : dict) it : dict_ok d -> it_ok d it ->
  exists it' stop, next_round d it = Some (started d it, it', stop) /\
    it_safe it' = it_safe it /\ it_fingerprint it' = start_fp d it /\ fresh it' = false /\
    if (stop : bool) then rem d it = []
    else rem d it = it_entry it' ++ rest_buckets d (it_table it') (it_index it' + 1) /\
      (buckets_from d (it_table it') (it_index it' + 1) < need d it)%nat /\
      0 <= it_index it' /\ (it_table it' = true -> dictIsRehashing d = true).
Proof.
  intros Hd Hit. unfold next_round. destruct (it_entry it) as [|e chain] eqn:He.
  - destruct (next_index_ok d it Hd Hit He) as (Hi & Ht & Hrem & _). fold (fresh it). fold (next_index d it).
    pose proof (next_bucket d (it_table it) (next_index d it) Hd Ht Hi) as Hnb. cbv zeta in Hnb.
    unfold need. rewrite He.
    set (nt := (next_index d it >=? size_of d (it_table it)) && (dictIsRehashing d && negb (it_table it))) in *.
    destruct ((next_index d it >=? size_of d (it_table it)) && negb nt).
    + eexists _, true. split; [done|]. rewrite Hrem, Hnb. split_and!; [done..| |done]. unfold fresh. iter_cbn. lia.
    + destruct Hnb as (b & -> & Hrest & Hlt & Ht' & Hi'). cbn [mbind option_bind]. eexists _, false. split; [done|].
      iter_cbn. split_and!; [done..|unfold fresh; iter_cbn; lia|by rewrite Hrem|done|done|done].
  - destruct Hit as [[_ ?]|[Hi Ht]]; [congruence|]. assert (Hf : fresh it = false) by (unfold fresh; lia).
    eexists _, false. unfold started, start_fp, rem, need. rewrite Hf, He. split; [done|]. iter_cbn.
    split_and!; [done..|unfold fresh; iter_cbn; lia|done|lia|done|done].
Qed.

Lemma started_same (d : dict) it it' : dict_ok d -> fresh it' = false ->
  dict_ok (started d it) /\ started (started d it) it' = started d it /\
  start_fp (started d it) it' = it_fingerprint it' /\ rem (started d it) it' = rem d it' /\
  need (started d it) it' = need d it'.
Proof.
  intros Hd Hf. unfold started, start_fp. rewrite Hf. cbn [andb]. destruct (fresh it && it_safe it); [|done].
  by split_and!; [apply dict_ok_pause|..].
Qed.

Lemma dictNext_loop_ok fuel : forall (d : dict) it, dict_ok d -> it_ok d it -> (need d it <= fuel)%nat ->
  exists it' r, dictNext_loop fuel d it = Some (started d it, it', r) /\
    it_safe it' = it_safe it /\ it_fingerprint it' = start_fp d it /\ fresh it' = false /\
    match rem d it with
    | [] => r = None
    | x :: l => r = Some x /\ it_ok d it' /\ rem d it' = l
    end.
Proof.
  induction fuel as [|fuel IH]; intros d it Hd Hit Hfuel; cbn [dictNext_loop];
    destruct (next_round_ok d it Hd Hit) as (it1 & stop & -> & Hs & Hfp & Hf & Hst); cbn [mbind option_bind];
    (destruct stop; [exists it1, None; by rewrite Hst|]); destruct Hst as (Hrem & Hlt & Hi & Ht);
    (destruct (it_entry it1) as [|e next] eqn:He;
     [|eexists _, _; split; [done|]; rewrite Hrem; cbn [app]; split_and!; [done..|by right|done]]).
  - lia.
  - destruct (started_same d it it1 Hd Hf) as (Hd1 & Hst1 & Hfp1 & Hrem1 & Hneed1).
    assert (Hr1 : rem d it1 = rem d it) by (rewrite Hrem; unfold rem; by rewrite He, Hf).
    destruct (IH (started d it) it1 Hd1) as (it' & r & Heq & Hs' & Hfp' & Hf' & Hm).
    + right. split; [done|]. unfold started. by destruct (fresh it && it_safe it).
    + rewrite Hneed1. unfold need at 1. rewrite He. unfold next_index. rewrite Hf. cbn [andb]. lia.
    + exists it', r. rewrite Heq, Hst1. rewrite Hrem1, Hr1 in Hm. split_and!; [done|congruence|congruence|done|].
      destruct (rem d it) as [|x l]; [done|]. destruct Hm as (-> & Hok & Hl). split_and!; [done| |].
      * destruct Hok as [?|[? Ht']]; [by left|right]. split; [done|]. unfold started in Ht'. by destruct (fresh it && it_safe it).
      * rewrite <- Hl. unfold started. by destruct (fresh it && it_safe it).
Qed.

Lemma dictNext_ok (d : dict) it : dict_ok d -> it_ok d it ->
  exists it' r, dictNext d it = Some (started d it, it', r) /\
    it_safe it' = it_safe it /\ it_fingerprint it' = start_fp d it /\ fresh it' = false /\
    match rem d it with
    | [] => r = None
    | x :: l => r = Some x /\ it_ok d it' /\ rem d it' = l
    end.
Proof.
  intros Hd Hit. apply dictNext_loop_ok; [done|done|]. unfold need. destruct (it_entry it) eqn:He.
  - destruct (next_index_ok d it Hd Hit He) as (_ & _ & _ & Hle). lia.
  - unfold buckets_from. destruct (it_table it); cbn; lia.
Qed.

Lemma iterate_ok fuel : forall (d : dict) it, dict_ok d -> it_ok d it -> (length (rem d it) <= fuel)%nat ->
  exists it', iterate fuel d it = Some (started d it, it', rem d it) /\ fresh it' = false /\
    it_safe it' = it_safe it /\ it_fingerprint it' = start_fp d it.
Proof.
  induction fuel as [|fuel IH]; intros d it Hd Hit Hl; cbn [iterate];
    destruct (dictNext_ok d it Hd Hit) as (it1 & r & -> & Hs & Hfp & Hf & Hm); cbn [mbind option_bind];
    (destruct (rem d it) as [|x l] eqn:Hrem; [subst r; by exists it1|]); [cbn in Hl; lia|].
  destruct Hm as (-> & Hok & Hl1). destruct (started_same d it it1 Hd Hf) as (Hd1 & Hst1 & Hfp1 & Hrem1 & _).
  destruct (IH (started d it) it1 Hd1) as (it' & -> & Hf' & Hs' & Hfp').
  - destruct Hok as [?|[? Ht']]; [by left|right]. split; [done|]. unfold started. by destruct (fresh it && it_safe it).
  - rewrite Hrem1, Hl1. cbn in Hl. lia.
  - cbn [mbind option_bind]. rewrite Hst1, Hrem1, Hl1. exists it'. split_and!; [done..|congruence|congruence].
Qed.

Lemma resume_pause (d : dict) : urange 15 (pauserehash d) -> dictResumeRehashing (dictPauseRehashing d) = d.
Proof.
  destruct d as [h0 h1 i p a]. intros Hp. unfold dictResumeRehashing, dictPauseRehashing, with_pauserehash. cbn in *. f_equal.
  unfold uwrap. rewrite Zminus_mod_idemp_l, Z.add_simpl_r. by apply Z.mod_small.
Qed.

(** An iterator, safe or not, visits every entry of a dictionary exactly
    once, also in the middle of a rehashing: the calls of [dictNext] return the
    entries of the first table and then of the second, each once, and NULL, and
    the release of the iterator succeeds (the fingerprint of an unsafe iterator
    is unchanged) and leaves the dictionary as it was. *)
Theorem iterator_complete (d : dict) (safe : bool) : dict_ok d -> urange 15 (pauserehash d) ->
  iterate_all d safe = Some (d, entries d) /\ NoDup (map fst (entries d)).
Proof.
  intros Hd Hp. split; [|apply Hd]. unfold iterate_all. set (it := dictInitIterator safe).
  destruct (iterate_ok (length (entries d)) d it Hd) as (it' & -> & Hf & Hs & Hfp); [by left|done|]. cbn [mbind option_bind].
  unfold dictResetIterator. fold (fresh it'). rewrite Hf, Hs, Hfp. change (rem d it) with (entries d).
  unfold started, start_fp. change (fresh it) with true. destruct safe; cbn [it_safe it dictInitIterator andb negb].
  - cbn [mbind option_bind]. by rewrite resume_pause.
  - rewrite Z.eqb_refl. done.
Qed.

End Iterator.

(** * Concrete iterations *)

Import Sample.

(** The states of a dictionary that grows, is rehashed and shrinks while it is
    scanned. *)
Definition sample_states : list (dict Z Z) :=
  map (fun n => state_after (take n sample_ops)) ([38; 39; 40; 41; 45]%nat ++ seq 50 30).

Lemma sample_state_ok n : dict_ok (state_after (take n sample_ops)).
Proof.
  apply state_after_ok.
  - apply forallb_forall. intros x Hx%list_elem_of_In%elem_of_take. destruct Hx as (i & Hx & _).
    assert (Hv : forallb (fun o => op_valid o.2) sample_ops = true) by (by vm_compute).
    rewrite forallb_forall in Hv. apply Hv, list_elem_of_In. by eapply list_elem_of_lookup_2.
  - rewrite length_take. change (length sample_ops) with 85%nat. unfold max_entries. lia.
Qed.

Lemma dictScan_complete_witness :
  exists v es, scan_run sample_states 0 = Some (v, es) /\
    (v = 0 \/ Z.of_nat (length sample_states) <= rev v < 2 ^ 64) /\
    (forall x, x ∈ es -> exists d, d ∈ sample_states /\ x ∈ entries d) /\
    (v = 0 -> forall k, (forall d, d ∈ sample_states -> k ∈ map fst (entries d)) -> k ∈ map fst es).
Proof.
  apply (dictScan_complete sample_states); [|done]. apply Forall_forall.
  intros d (n & -> & _)%list_elem_of_fmap. apply sample_state_ok.
Defined.

(** The scan of these states ends, and finds the keys 114 and 117. *)
Lemma sample_scan :
  match scan_run sample_states 0 with
  | Some (v, es) => v = 0 /\ existsb (Z.eqb 114) (map fst es) = true /\ existsb (Z.eqb 117) (map fst es) = true
  | None => False
  end.
Proof. by vm_compute. Qed.

Lemma iterator_complete_witness :
  iterate_all (fun _ => 0) (state_after (take 41 sample_ops)) false
    = Some (state_after (take 41 sample_ops), entries (state_after (take 41 sample_ops))) /\
  NoDup (map fst (entries (state_after (take 41 sample_ops)))).
Proof. apply (iterator_complete (fun _ => 0)); [apply sample_state_ok|by vm_compute]. Defined.

End DictScan.
