(* ===== verification/Kvstore.v ===== *)
(** The key-value store of a database: an array of dictionaries, one for each slot of a
    cluster, with a binary indexed tree of their sizes: kvstore.c.

    The tree is the array [dict_size_index]; an access out of an array, a dictionary that is
    NULL where the code dereferences it and a failed assertion are [None].  The operations
    take the resize policy of the moment, as those of the dictionaries do. *)

From S2P Require Import Prelude Dict DictScan.

Module Kvstore.
Import Dict DictScan.

(** * The binary indexed tree *)

(** [idx & -idx] *)
Definition lowbit (idx : Z) : Z := Z.land idx (- idx).

Definition index_at (index : list Z) (idx : Z) : option Z := _ ← guard (0 <=? idx); index !! Z.to_nat idx.

(** [while (idx > 0)] *)
Fixpoint index_read (fuel : nat) (index : list Z) (idx sum : Z) : option Z :=
  if negb (idx >? 0) then Some sum
  else match fuel with
  | O => None
  | S fuel => v ← index_at index idx; index_read fuel index (idx - lowbit idx) (u64 (sum + v))
  end.

(** [while (idx <= kvs->num_dicts)] *)
Fixpoint index_add (fuel : nat) (index : list Z) (num_dicts idx delta : Z) : option (list Z) :=
  if negb (idx <=? num_dicts) then Some index
  else match fuel with
  | O => None
  | S fuel =>
    v ← index_at index idx;
    _ ← guard (negb (delta <? 0) || (v >=? Z.abs delta));
    index_add fuel (<[Z.to_nat idx := u64 (v + delta)]> index) num_dicts (idx + lowbit idx) delta
  end.

(** [for (int i = bit_mask; i != 0; i >>= 1)]; [i] is a power of two. *)
Fixpoint index_find (fuel : nat) (index : list Z) (i result target : Z) : option Z :=
  if i =? 0 then Some result
  else match fuel with
  | O => None
  | S fuel =>
    let current := result + i in
    v ← index_at index current;
    if target >? v then index_find fuel index (Z.shiftr i 1) current (target - v)
    else index_find fuel index (Z.shiftr i 1) result target
  end.

Section Kvstore.
Context {K V : Type} `{DT : DictType K}.

Abbreviation dict := (dict K V).
Abbreviation dictEntry := (K * V)%type.

(** The flags are [KVSTORE_ALLOCATE_DICTS_ON_DEMAND] and [KVSTORE_FREE_EMPTY_DICTS]; an
    index that is not allocated is []. *)
Record kvstore := mkKvs {
  on_demand : bool; free_empty : bool;
  dicts : list (option dict); num_dicts : Z; num_dicts_bits : Z;
  resize_cursor : Z; allocated_dicts : Z; non_empty_dicts : Z; key_count : Z; dict_size_index : list Z
}.

Definition with_dict (kvs : kvstore) (didx : Z) (d : option dict) : kvstore :=
  mkKvs (on_demand kvs) (free_empty kvs) (<[Z.to_nat didx := d]> (dicts kvs)) (num_dicts kvs) (num_dicts_bits kvs)
    (resize_cursor kvs) (allocated_dicts kvs) (non_empty_dicts kvs) (key_count kvs) (dict_size_index kvs).
Definition with_allocated (kvs : kvstore) (n : Z) : kvstore :=
  mkKvs (on_demand kvs) (free_empty kvs) (dicts kvs) (num_dicts kvs) (num_dicts_bits kvs)
    (resize_cursor kvs) n (non_empty_dicts kvs) (key_count kvs) (dict_size_index kvs).
Definition with_counts (kvs : kvstore) (non_empty count : Z) (index : list Z) : kvstore :=
  mkKvs (on_demand kvs) (free_empty kvs) (dicts kvs) (num_dicts kvs) (num_dicts_bits kvs)
    (resize_cursor kvs) (allocated_dicts kvs) non_empty count index.
Definition with_resize_cursor (kvs : kvstore) (c : Z) : kvstore :=
  mkKvs (on_demand kvs) (free_empty kvs) (dicts kvs) (num_dicts kvs) (num_dicts_bits kvs)
    c (allocated_dicts kvs) (non_empty_dicts kvs) (key_count kvs) (dict_size_index kvs).

Definition kvstoreGetDict (kvs : kvstore) (didx : Z) : option (option dict) := _ ← guard (0 <=? didx); dicts kvs !! Z.to_nat didx.

Definition kvstoreDictSize (kvs : kvstore) (didx : Z) : option Z :=
  d ← kvstoreGetDict kvs didx; Some (match d with Some d => dictSize d | None => 0 end).

Definition dictIsRehashingPaused (d : dict) : bool := pauserehash d >? 0.

Definition kvstoreSize (kvs : kvstore) : option Z := if negb (num_dicts kvs =? 1) then Some (key_count kvs) else kvstoreDictSize kvs 0.

Definition kvstoreNumNonEmptyDicts (kvs : kvstore) : Z := non_empty_dicts kvs.
Definition kvstoreNumAllocatedDicts (kvs : kvstore) : Z := allocated_dicts kvs.
Definition kvstoreNumDicts (kvs : kvstore) : Z := num_dicts kvs.

Definition cumulativeKeyCountRead (kvs : kvstore) (didx : Z) : option Z :=
  if num_dicts kvs =? 1 then _ ← guard (didx =? 0); kvstoreSize kvs
  else index_read (Z.to_nat (didx + 1)) (dict_size_index kvs) (didx + 1) 0.

Definition cumulativeKeyCountAdd (kvs : kvstore) (didx delta : Z) : option kvstore :=
  let count := u64 (key_count kvs + delta) in
  d ← kvstoreGetDict kvs didx;
  d ← d;
  let dsize := dictSize d in
  let non_empty_dicts_delta := if (dsize =? 1) && (delta >? 0) then 1 else if dsize =? 0 then -1 else 0 in
  let non_empty := non_empty_dicts kvs + non_empty_dicts_delta in
  if num_dicts kvs =? 1 then Some (with_counts kvs non_empty count (dict_size_index kvs))
  else
    index ← index_add (Z.to_nat (num_dicts kvs)) (dict_size_index kvs) (num_dicts kvs) (didx + 1) delta;
    Some (with_counts kvs non_empty count index).

Definition createDictIfNeeded (kvs : kvstore) (didx : Z) : option (kvstore * dict) :=
  d ← kvstoreGetDict kvs didx;
  match d with
  | Some d => Some (kvs, d)
  | None => Some (with_allocated (with_dict kvs didx (Some dictCreate)) (allocated_dicts kvs + 1), dictCreate)
  end.

Definition freeDictIfNeeded (kvs : kvstore) (didx : Z) : option kvstore :=
  d ← kvstoreGetDict kvs didx;
  match d with
  | None => Some kvs
  | Some d =>
    if negb (free_empty kvs) || negb (dictSize d =? 0) || dictIsRehashingPaused d then Some kvs
    else Some (with_allocated (with_dict kvs didx None) (allocated_dicts kvs - 1))
  end.

(** * Creation and emptying *)

Fixpoint create_dicts (n : nat) (kvs : kvstore) (i : Z) : option kvstore :=
  match n with O => Some kvs | S n => '(kvs, _) ← createDictIfNeeded kvs i; create_dicts n kvs (i + 1) end.

Definition kvstoreCreate (bits : Z) (on_demand free_empty : bool) : option kvstore :=
  _ ← guard (bits <=? 16);
  let n := Z.shiftl 1 bits in
  let kvs := mkKvs on_demand free_empty (replicate (Z.to_nat n) None) n bits 0 0 0 0 (if n >? 1 then replicate (Z.to_nat (n + 1)) 0 else []) in
  if negb on_demand then create_dicts (Z.to_nat n) kvs 0 else Some kvs.

Fixpoint empty_dicts (n : nat) (kvs : kvstore) (didx : Z) : option kvstore :=
  match n with
  | O => Some kvs
  | S n =>
    d ← kvstoreGetDict kvs didx;
    kvs ← match d with None => Some kvs | Some d => freeDictIfNeeded (with_dict kvs didx (Some (dictEmpty d))) didx end;
    empty_dicts n kvs (didx + 1)
  end.

Definition kvstoreEmpty (kvs : kvstore) : option kvstore :=
  kvs ← empty_dicts (Z.to_nat (num_dicts kvs)) kvs 0;
  let index := match dict_size_index kvs with [] => [] | _ => replicate (Z.to_nat (num_dicts kvs + 1)) 0 end in
  Some (with_resize_cursor (with_counts kvs 0 0 index) 0).

(** * The dictionary of a key index *)

Definition kvstoreFindDictIndexByKeyIndex (kvs : kvstore) (target : Z) : option Z :=
  size ← kvstoreSize kvs;
  if (num_dicts kvs =? 1) || (size =? 0) then Some 0
  else
    _ ← guard (target <=? size);
    index_find (Z.to_nat (num_dicts_bits kvs + 1)) (dict_size_index kvs) (Z.shiftl 1 (num_dicts_bits kvs)) 0 target.

Definition kvstoreGetFirstNonEmptyDictIndex (kvs : kvstore) : option Z := kvstoreFindDictIndexByKeyIndex kvs 1.

Definition kvstoreGetNextNonEmptyDictIndex (kvs : kvstore) (didx : Z) : option Z :=
  if num_dicts kvs =? 1 then _ ← guard (didx =? 0); Some (-1)
  else
    n ← cumulativeKeyCountRead kvs didx;
    let next_key := u64 (n + 1) in
    size ← kvstoreSize kvs;
    if next_key <=? size then kvstoreFindDictIndexByKeyIndex kvs next_key else Some (-1).

(** [random] is the number [randomULong] gives. *)
Definition kvstoreGetFairRandomDictIndex (kvs : kvstore) (random : Z) : option Z :=
  size ← kvstoreSize kvs;
  kvstoreFindDictIndexByKeyIndex kvs (if negb (size =? 0) then random mod size + 1 else 0).

(** * Scanning *)

Definition addDictIndexToCursor (kvs : kvstore) (didx cursor : Z) : Z :=
  if (num_dicts kvs =? 1) || (didx <? 0) then cursor else Z.lor (u64 (Z.shiftl cursor (num_dicts_bits kvs))) didx.

Definition getAndClearDictIndexFromCursor (kvs : kvstore) (cursor : Z) : Z * Z :=
  if num_dicts kvs =? 1 then (0, cursor) else (Z.land cursor (num_dicts kvs - 1), Z.shiftr cursor (num_dicts_bits kvs)).

(** The rest of [kvstoreScan], from the dictionary [didx] and the position [cursor] in it:
    the new cursor and the entries the callback was given, for a callback that does not change
    the store; [skip_cb] is whether a dictionary is to be skipped. *)
Definition scan_dict (kvs : kvstore) (didx cursor onlydidx : Z) (skip_cb : dict -> bool) : option (kvstore * Z * list dictEntry) :=
  d ← kvstoreGetDict kvs didx;
  '(kvs, cursor, es, skip) ← match d with
    | None => Some (kvs, 0, [], true)
    | Some d =>
      if skip_cb d then Some (kvs, 0, [], true)
      else
        '(d, cursor, es) ← dictScan d cursor;
        kvs ← freeDictIfNeeded (with_dict kvs didx (Some d)) didx;
        Some (kvs, cursor, es, false)
    end;
  if (cursor =? 0) || skip : bool then
    if onlydidx >=? 0 then Some (kvs, 0, es)
    else
      didx ← kvstoreGetNextNonEmptyDictIndex kvs didx;
      if didx =? -1 then Some (kvs, 0, es) else Some (kvs, addDictIndexToCursor kvs didx cursor, es)
  else Some (kvs, addDictIndexToCursor kvs didx cursor, es).

Definition kvstoreScan (kvs : kvstore) (cursor onlydidx : Z) (skip_cb : dict -> bool) : option (kvstore * Z * list dictEntry) :=
  let '(didx, cursor) := getAndClearDictIndexFromCursor kvs cursor in
  if (onlydidx >=? 0) && (didx <? onlydidx) then
    _ ← guard (onlydidx <? num_dicts kvs);
    scan_dict kvs onlydidx 0 onlydidx skip_cb
  else if (onlydidx >=? 0) && (didx >? onlydidx) then Some (kvs, 0, [])
  else scan_dict kvs didx cursor onlydidx skip_cb.

(** * Operations on the keys *)

Context (mode : dictResizeEnable).

(** With the value the caller stores in the new entry; the flag is whether there is one. *)
Definition kvstoreDictAddRaw (kvs : kvstore) (didx : Z) (key : K) (val : V) : option (kvstore * bool) :=
  '(kvs, d) ← createDictIfNeeded kvs didx;
  '(d, existing) ← dictAddRaw mode d key val;
  let kvs := with_dict kvs didx (Some d) in
  match existing with
  | None => kvs ← cumulativeKeyCountAdd kvs didx 1; Some (kvs, true)
  | Some _ => Some (kvs, false)
  end.

Definition kvstoreDictFind (kvs : kvstore) (didx : Z) (key : K) : option (kvstore * option dictEntry) :=
  d ← kvstoreGetDict kvs didx;
  match d with
  | None => Some (kvs, None)
  | Some d => '(d, e) ← dictFind mode d key; Some (with_dict kvs didx (Some d), e)
  end.

Definition kvstoreDictFetchValue (kvs : kvstore) (didx : Z) (key : K) : option (kvstore * option V) :=
  d ← kvstoreGetDict kvs didx;
  match d with
  | None => Some (kvs, None)
  | Some d => '(d, v) ← dictFetchValue mode d key; Some (with_dict kvs didx (Some d), v)
  end.

Definition kvstoreDictDelete (kvs : kvstore) (didx : Z) (key : K) : option (kvstore * bool) :=
  d ← kvstoreGetDict kvs didx;
  match d with
  | None => Some (kvs, false)
  | Some d =>
    '(d, ret) ← dictDelete mode d key;
    let kvs := with_dict kvs didx (Some d) in
    if ret : bool then
      kvs ← cumulativeKeyCountAdd kvs didx (-1);
      kvs ← freeDictIfNeeded kvs didx;
      Some (kvs, true)
    else Some (kvs, false)
  end.

Definition kvstoreDictTwoPhaseUnlinkFind (kvs : kvstore) (didx : Z) (key : K) : option (kvstore * option link) :=
  d ← kvstoreGetDict kvs didx;
  match d with
  | None => Some (kvs, None)
  | Some d => '(d, l) ← dictTwoPhaseUnlinkFind mode d key; Some (with_dict kvs didx (Some d), l)
  end.

Definition kvstoreDictTwoPhaseUnlinkFree (kvs : kvstore) (didx : Z) (l : link) : option kvstore :=
  d ← kvstoreGetDict kvs didx;
  d ← d;
  d ← dictTwoPhaseUnlinkFree mode d (Some l);
  kvs ← cumulativeKeyCountAdd (with_dict kvs didx (Some d)) didx (-1);
  freeDictIfNeeded kvs didx.

(** * Resizing *)

Definition kvstoreDictExpand (kvs : kvstore) (didx size : Z) : option (kvstore * bool) :=
  d ← kvstoreGetDict kvs didx;
  match d with
  | None => Some (kvs, false)
  | Some d => '(d, ok) ← dictExpand mode d size; Some (with_dict kvs didx (Some d), ok)
  end.

(** [alloc_ok] is whether the allocations of [dictTryExpand] succeed. *)
Fixpoint expand_dicts (n : nat) (kvs : kvstore) (newsize : Z) (try_expand alloc_ok : bool) (skip_cb : Z -> bool) (i : Z) : option (kvstore * bool) :=
  match n with
  | O => Some (kvs, true)
  | S n =>
    d ← kvstoreGetDict kvs i;
    match d with
    | None => expand_dicts n kvs newsize try_expand alloc_ok skip_cb (i + 1)
    | Some d =>
      if skip_cb i then expand_dicts n kvs newsize try_expand alloc_ok skip_cb (i + 1)
      else
        '(d, ok) ← (if try_expand then dictTryExpand mode d newsize alloc_ok else dictExpand mode d newsize);
        let kvs := with_dict kvs i (Some d) in
        if try_expand && negb ok then Some (kvs, false) else expand_dicts n kvs newsize try_expand alloc_ok skip_cb (i + 1)
    end
  end.

Definition kvstoreExpand (kvs : kvstore) (newsize : Z) (try_expand alloc_ok : bool) (skip_cb : Z -> bool) : option (kvstore * bool) :=
  expand_dicts (Z.to_nat (num_dicts kvs)) kvs newsize try_expand alloc_ok skip_cb 0.

Fixpoint resize_dicts (n : nat) (kvs : kvstore) : option kvstore :=
  match n with
  | O => Some kvs
  | S n =>
    let didx := resize_cursor kvs in
    d ← kvstoreGetDict kvs didx;
    kvs ← match d with
      | None => Some kvs
      | Some d =>
        '(d, ok) ← dictShrinkIfNeeded mode d;
        d ← (if ok : bool then Some d else '(d, _) ← dictExpandIfNeeded mode d; Some d);
        Some (with_dict kvs didx (Some d))
      end;
    resize_dicts n (with_resize_cursor kvs ((didx + 1) mod num_dicts kvs))
  end.

Definition kvstoreTryResizeDicts (kvs : kvstore) (limit : Z) : option kvstore :=
  resize_dicts (Z.to_nat (if limit >? num_dicts kvs then num_dicts kvs else limit)) kvs.

End Kvstore.

Arguments kvstore : clear implicits.

End Kvstore.
