(* ===== verification/KvIndexSpec.v ===== *)
(** The binary indexed tree of a key-value store: the cell [j] of [dict_size_index] holds the
    number of keys of the dictionaries [j - lowbit j .. j - 1]; reading, updating and searching
    the tree are the prefix sums of the sizes, their update and their search. *)

From S2P Require Import Prelude Kvstore.

Module KvIndexSpec.
Import Kvstore.

(** * The lowest bit of an index *)

Lemma lowbit_odd m : Z.land (2 * m + 1) (- (2 * m + 1)) = 1.
Proof.
  replace (- (2 * m + 1)) with (Z.lnot (2 * m)) by (unfold Z.lnot; lia). apply Z.bits_inj'. intros i Hi.
  rewrite Z.land_spec, Z.lnot_spec by done. destruct (Z.eq_dec i 0) as [->|Hn].
  - by rewrite Z.testbit_odd_0, Z.testbit_even_0.
  - replace i with (Z.succ (i - 1)) by lia. rewrite Z.testbit_odd_succ, Z.testbit_even_succ by lia.
    rewrite andb_negb_r. change 1 with (2 * 0 + 1). by rewrite Z.testbit_odd_succ, Z.bits_0 by lia.
Qed.

Lemma lowbit_pow m k : 0 <= k -> lowbit ((2 * m + 1) * 2 ^ k) = 2 ^ k.
Proof.
  intros Hk. unfold lowbit. rewrite <- Z.mul_opp_l, <- !Z.shiftl_mul_pow2, <- Z.shiftl_land, lowbit_odd, Z.shiftl_mul_pow2 by done. lia.
Qed.

(** An index is an odd multiple of its lowest bit. *)
Definition odd_at (j m k : Z) : Prop := 0 <= m /\ 0 <= k /\ j = (2 * m + 1) * 2 ^ k /\ lowbit j = 2 ^ k.

Lemma lowbit_spec j : 0 < j -> exists m k, odd_at j m k.
Proof.
  intros Hj. enough (exists m k, 0 <= m /\ 0 <= k /\ j = (2 * m + 1) * 2 ^ k) as (m & k & ? & ? & ->).
  { exists m, k. split_and!; [done..|by apply lowbit_pow]. }
  assert (H0 : 0 <= j) by lia. revert Hj. pattern j. apply Z_lt_induction; [|done]. clear j H0. intros j IH Hj.
  destruct (Z.Even_or_Odd j) as [[i ->]|[i ->]].
  - destruct (IH i) as (m & k & ? & ? & E); [lia..|]. exists m, (k + 1). rewrite Z.pow_add_r, E by lia. split_and!; [lia..|ring].
  - exists i, 0. split_and!; lia.
Qed.

Lemma lowbit_bounds j : 0 < j -> 0 < lowbit j <= j.
Proof. intros Hj. destruct (lowbit_spec j Hj) as (m & k & ? & ? & -> & ->). pose proof (pow2_pos k). nia. Qed.

(** The cells after [p] that cover [p] are those that cover the next index of the update. *)
Lemma next_covers p j : 0 < p -> p < j -> j - lowbit j < p <-> (p + lowbit p <= j /\ j - lowbit j < p + lowbit p).
Proof.
  intros Hp Hj. destruct (lowbit_spec p Hp) as (m & k & ? & ? & Ep & ->). destruct (lowbit_spec j) as (a & b & ? & ? & Ej & ->); [lia|].
  pose proof (pow2_pos k ltac:(done)). pose proof (pow2_pos b ltac:(done)).
  destruct (Z.lt_ge_cases k b) as [Hkb|Hkb].
  - replace b with (k + 1 + (b - k - 1)) in * by lia. rewrite !Z.pow_add_r in * by lia. change (2 ^ 1) with 2 in *.
    set (c := 2 ^ (b - k - 1)) in *. set (q := 2 ^ k) in *.
    assert (E1 : j = (2 * ((2 * a + 1) * c)) * q) by (rewrite Ej; ring).
    assert (E2 : j - q * 2 * c = (2 * (2 * a * c)) * q) by (rewrite Ej; ring).
    assert (E3 : p + q = (2 * m + 2) * q) by (rewrite Ep; ring).
    rewrite E2, E3. rewrite E1, Ep in Hj |- *. apply Z.mul_lt_mono_pos_r in Hj; [|done].
    rewrite <- !Z.mul_lt_mono_pos_r, <- Z.mul_le_mono_pos_r by done. lia.
  - replace k with (b + (k - b)) in * by lia. rewrite Z.pow_add_r in * by lia.
    set (c := 2 ^ (k - b)) in *. set (q := 2 ^ b) in *.
    assert (E1 : p = ((2 * m + 1) * c) * q) by (rewrite Ep; ring).
    assert (E2 : p + q * c = (2 * ((m + 1) * c)) * q) by (rewrite Ep; ring).
    assert (E3 : j - q = (2 * a) * q) by (rewrite Ej; ring).
    rewrite E2, E3. rewrite E1, Ej in Hj |- *. apply Z.mul_lt_mono_pos_r in Hj; [|done].
    rewrite <- !Z.mul_lt_mono_pos_r, <- Z.mul_le_mono_pos_r by done. lia.
Qed.

(** * Prefix sums *)

Definition pre (l : list Z) (j : Z) : Z := total (take (Z.to_nat j) l).

Lemma pre_insert l i x y j : l !! i = Some x -> 0 <= j ->
  pre (<[i := y]> l) j = pre l j + (if Z.of_nat i <? j then y - x else 0).
Proof.
  intros Hi Hj. unfold pre. destruct (Z.ltb_spec (Z.of_nat i) j) as [Hlt|Hge].
  - rewrite take_insert_lt by lia. apply total_insert. rewrite lookup_take_lt by lia. done.
  - rewrite take_insert_ge by lia. lia.
Qed.

Lemma pre_step l i x : l !! i = Some x -> pre l (Z.of_nat i + 1) = pre l (Z.of_nat i) + x.
Proof.
  intros Hi. unfold pre. replace (Z.to_nat (Z.of_nat i + 1)) with (S i) by lia. rewrite Nat2Z.id.
  rewrite (take_S_r _ _ _ Hi), total_app. cbn. lia.
Qed.

Lemma pre_mono l i j : Forall (Z.le 0) l -> i <= j -> pre l i <= pre l j.
Proof.
  intros Hl Hij. unfold pre. replace (Z.to_nat j) with (Z.to_nat i + (Z.to_nat j - Z.to_nat i))%nat by lia.
  rewrite <- take_take_drop, total_app.
  assert (0 <= total (take (Z.to_nat j - Z.to_nat i) (drop (Z.to_nat i) l))); [|lia].
  by apply total_nonneg, Forall_take, Forall_drop.
Qed.

Lemma pre_0 l : pre l 0 = 0.
Proof. done. Qed.

Lemma pre_all l j : Z.of_nat (length l) <= j -> pre l j = total l.
Proof. intros Hj. unfold pre. by rewrite take_ge by lia. Qed.

Lemma pre_bounds l j : Forall (Z.le 0) l -> 0 <= pre l j <= total l.
Proof.
  intros Hl. split; [by apply total_nonneg, Forall_take|].
  rewrite <- (pre_all l (Z.max j (Z.of_nat (length l)))) by lia. apply pre_mono; [done|lia].
Qed.

(** * The tree of the sizes *)

Definition cell (l : list Z) (j : Z) : Z := pre l j - pre l (j - lowbit j).

Record index_ok (n : Z) (sizes index : list Z) : Prop := {
  ix_sizes : Z.of_nat (length sizes) = n;
  ix_length : Z.of_nat (length index) = n + 1;
  ix_nonneg : Forall (Z.le 0) sizes;
  ix_total : total sizes <= 2 ^ 62;
  ix_cell j : 1 <= j <= n -> index_at index j = Some (cell sizes j)
}.

Lemma cell_bounds l j : Forall (Z.le 0) l -> 0 < j -> 0 <= cell l j <= total l.
Proof.
  intros Hl Hj. unfold cell. pose proof (lowbit_bounds j Hj). pose proof (pre_mono l (j - lowbit j) j Hl).
  pose proof (pre_bounds l j Hl). pose proof (pre_bounds l (j - lowbit j) Hl). lia.
Qed.

Lemma index_read_ok n sizes index fuel : index_ok n sizes index -> forall idx sum, 0 <= idx <= n -> idx <= Z.of_nat fuel ->
  0 <= sum -> sum + pre sizes idx <= 2 ^ 62 ->
  index_read fuel index idx sum = Some (sum + pre sizes idx).
Proof.
  intros Hix. induction fuel as [|fuel IH]; intros idx sum Hi Hf Hs Ht; cbn [index_read];
    (destruct (Z.gtb_spec idx 0); cbn [negb]; [|replace idx with 0 in * by lia; rewrite pre_0; f_equal; lia]); [lia|].
  pose proof (lowbit_bounds idx ltac:(lia)). pose proof (cell_bounds sizes idx (ix_nonneg _ _ _ Hix) ltac:(lia)) as Hc.
  pose proof (pre_bounds sizes (idx - lowbit idx) (ix_nonneg _ _ _ Hix)).
  rewrite (ix_cell _ _ _ Hix) by lia. cbn [mbind option_bind]. unfold cell in *.
  rewrite uwrap_small by (unfold urange; lia). rewrite IH by lia. f_equal. lia.
Qed.

Lemma index_at_insert index i x j : 0 <= i < Z.of_nat (length index) -> 0 <= j ->
  index_at (<[Z.to_nat i := x]> index) j = if j =? i then Some x else index_at index j.
Proof.
  intros Hi Hj. unfold index_at. rewrite (proj2 (Z.leb_le 0 j) Hj). cbn [guard mbind option_bind]. destruct (Z.eqb_spec j i) as [->|Hn].
  - apply list_lookup_insert_eq. lia.
  - apply list_lookup_insert_ne. lia.
Qed.

(** The update changes the cells from [idx] on that cover [idx]. *)
Lemma index_add_ok n delta fuel : forall index idx (f : Z -> Z), 0 < idx -> n - idx < Z.of_nat fuel ->
  Z.of_nat (length index) = n + 1 ->
  (forall j, 1 <= j <= n -> index_at index j = Some (f j)) ->
  (forall j, 1 <= j <= n -> idx <= j -> j - lowbit j < idx -> 0 <= f j <= 2 ^ 62 /\ 0 <= f j + delta <= 2 ^ 62) ->
  exists index', index_add fuel index n idx delta = Some index' /\ Z.of_nat (length index') = n + 1 /\
    forall j, 1 <= j <= n -> index_at index' j = Some (f j + (if (idx <=? j) && (j - lowbit j <? idx) then delta else 0)).
Proof.
  induction fuel as [|fuel IH]; intros index idx f Hi Hf Hlen Hat Hr; cbn [index_add];
    (destruct (Z.leb_spec idx n) as [Hle|Hgt]; cbn [negb];
      [|exists index; split_and!; [done..|]; intros j Hj; rewrite Hat, (proj2 (Z.leb_gt idx j)) by lia; cbn; f_equal; lia]); [lia|].
  pose proof (lowbit_bounds idx Hi) as Hl.
  destruct (Hr idx ltac:(lia) ltac:(lia) ltac:(lia)) as [Hb1 Hb2].
  rewrite Hat by lia. cbn [mbind option_bind].
  assert (Hg : negb (delta <? 0) || (f idx >=? Z.abs delta) = true).
  { destruct (Z.ltb_spec delta 0); [|done]. cbn. rewrite Z.geb_leb. apply Z.leb_le. lia. }
  rewrite Hg. cbn [guard mbind option_bind]. rewrite uwrap_small by (unfold urange; lia).
  destruct (IH (<[Z.to_nat idx := f idx + delta]> index) (idx + lowbit idx) (fun j => if j =? idx then f idx + delta else f j)) as (index' & -> & Hlen' & Hat');
    [lia|lia|by rewrite length_insert| | |].
  - intros j Hj. rewrite index_at_insert by lia. destruct (j =? idx); [done|by apply Hat].
  - intros j Hj Hij Hc. rewrite (proj2 (Z.eqb_neq j idx)) by lia. apply Hr; [done|lia|]. apply next_covers; [lia..|done].
  - exists index'. split_and!; [done..|]. intros j Hj. rewrite Hat' by done. f_equal.
    destruct (Z.eqb_spec j idx) as [->|Hn].
    + rewrite (proj2 (Z.leb_gt (idx + lowbit idx) idx)), (Z.leb_refl idx), (proj2 (Z.ltb_lt (idx - lowbit idx) idx)) by lia. cbn. lia.
    + f_equal. destruct (Z.leb_spec idx j) as [Hle'|?]; [|by rewrite (proj2 (Z.leb_gt (idx + lowbit idx) j)) by lia].
      pose proof (next_covers idx j Hi ltac:(lia)) as Hnc. cbn [andb].
      destruct (Z.ltb_spec (j - lowbit j) idx), (Z.leb_spec (idx + lowbit idx) j), (Z.ltb_spec (j - lowbit j) (idx + lowbit idx)); cbn; try done; lia.
Qed.

(** Updating the tree by the change of one size. *)
Lemma index_update n sizes index d x y : index_ok n sizes index -> sizes !! d = Some x -> 0 <= y ->
  total sizes + (y - x) <= 2 ^ 62 ->
  exists index', index_add (Z.to_nat n) index n (Z.of_nat d + 1) (y - x) = Some index' /\ index_ok n (<[d := y]> sizes) index'.
Proof.
  intros [H1 H2 H3 H4 H5] Hd Hy Ht. pose proof (lookup_lt_Some _ _ _ Hd) as Hlt. rewrite <- (total_insert _ _ _ y Hd) in Ht.
  assert (H3' : Forall (Z.le 0) (<[d := y]> sizes)) by (by apply Forall_insert).
  assert (Hcell : forall j, 1 <= j -> cell (<[d := y]> sizes) j = cell sizes j + (if (Z.of_nat d + 1 <=? j) && (j - lowbit j <? Z.of_nat d + 1) then y - x else 0)).
  { intros j Hj. unfold cell. pose proof (lowbit_bounds j ltac:(lia)). rewrite !(pre_insert _ _ _ y _ Hd) by lia.
    destruct (Z.ltb_spec (Z.of_nat d) j), (Z.ltb_spec (Z.of_nat d) (j - lowbit j)), (Z.leb_spec (Z.of_nat d + 1) j), (Z.ltb_spec (j - lowbit j) (Z.of_nat d + 1)); cbn; lia. }
  destruct (index_add_ok n (y - x) (Z.to_nat n) index (Z.of_nat d + 1) (cell sizes)) as (index' & -> & Hlen & Hat); [lia|lia|done|done| |].
  - intros j Hj Hle Hlt'. pose proof (cell_bounds sizes j H3 ltac:(lia)). pose proof (cell_bounds _ j H3' ltac:(lia)) as Hb.
    rewrite Hcell, (proj2 (Z.leb_le _ _) Hle), (proj2 (Z.ltb_lt _ _) Hlt') in Hb by lia. cbn in Hb. lia.
  - exists index'. split; [done|]. split; [by rewrite length_insert|done..|]. intros j Hj. rewrite Hat, Hcell by lia. done.
Qed.

(** The search goes down the bits of the answer. *)
Lemma index_find_ok bits sizes index T : index_ok (2 ^ bits) sizes index -> 1 <= T <= total sizes -> 0 <= bits ->
  forall b r, 0 <= b <= bits + 1 -> 0 <= r -> r * 2 ^ b < 2 ^ bits -> (pre sizes (r * 2 ^ b) < T <= pre sizes ((r + 1) * 2 ^ b)) ->
  exists res, index_find (Z.to_nat b) index (Z.shiftr (2 ^ b) 1) (r * 2 ^ b) (T - pre sizes (r * 2 ^ b)) = Some res /\
    0 <= res < 2 ^ bits /\ pre sizes res < T <= pre sizes (res + 1).
Proof.
  intros Hix HT Hbits. set (n := 2 ^ bits) in *.
  enough (HH : forall b : nat, Z.of_nat b <= bits + 1 -> forall r, 0 <= r -> r * 2 ^ Z.of_nat b < n ->
    (pre sizes (r * 2 ^ Z.of_nat b) < T <= pre sizes ((r + 1) * 2 ^ Z.of_nat b)) ->
    exists res, index_find b index (Z.shiftr (2 ^ Z.of_nat b) 1) (r * 2 ^ Z.of_nat b) (T - pre sizes (r * 2 ^ Z.of_nat b)) = Some res /\
      0 <= res < n /\ pre sizes res < T <= pre sizes (res + 1)).
  { intros b r Hb Hr Hlt Hpre. replace b with (Z.of_nat (Z.to_nat b)) in * by lia. rewrite Nat2Z.id. by apply HH; [lia|..]. }
  induction b as [|b IH]; intros Hb r Hr Hlt Hpre.
  - change (2 ^ Z.of_nat 0) with 1 in *. rewrite !Z.mul_1_r in *. exists r. split; [done|lia].
  - assert (E : 2 ^ Z.of_nat (S b) = 2 * 2 ^ Z.of_nat b) by (rewrite Nat2Z.inj_succ; apply Z.pow_succ_r; lia).
    rewrite E in *. pose proof (pow2_pos (Z.of_nat b) ltac:(lia)) as Hp.
    assert (Esh : Z.shiftr (2 * 2 ^ Z.of_nat b) 1 = 2 ^ Z.of_nat b).
    { rewrite Z.shiftr_div_pow2 by lia. change (2 ^ 1) with 2. rewrite Z.mul_comm. by apply Z.div_mul. }
    rewrite Esh. cbn [index_find]. rewrite (proj2 (Z.eqb_neq _ 0)) by lia.
    assert (Hn : n = 2 ^ (bits - Z.of_nat b) * 2 ^ Z.of_nat b).
    { destruct (Z.eq_dec (Z.of_nat b) bits) as [Eb|]; unfold n; rewrite <- Z.pow_add_r by lia; f_equal; lia. }
    assert (Ec : r * (2 * 2 ^ Z.of_nat b) + 2 ^ Z.of_nat b = (2 * r + 1) * 2 ^ Z.of_nat b) by ring.
    assert (Hle : (2 * r + 1) * 2 ^ Z.of_nat b <= n).
    { rewrite Z.mul_assoc, Hn in Hlt. apply Z.mul_lt_mono_pos_r in Hlt; [|done]. rewrite Hn. apply Z.mul_le_mono_pos_r; lia. }
    rewrite Ec, (ix_cell _ _ _ Hix) by nia. cbn [mbind option_bind]. unfold cell. rewrite lowbit_pow by lia.
    replace ((2 * r + 1) * 2 ^ Z.of_nat b - 2 ^ Z.of_nat b) with (r * (2 * 2 ^ Z.of_nat b)) by ring.
    set (q := 2 ^ Z.of_nat b) in *.
    destruct (Z.gtb_spec (T - pre sizes (r * (2 * q))) (pre sizes ((2 * r + 1) * q) - pre sizes (r * (2 * q)))) as [Hgt|Hng].
    + replace (T - pre sizes (r * (2 * q)) - (pre sizes ((2 * r + 1) * q) - pre sizes (r * (2 * q)))) with (T - pre sizes ((2 * r + 1) * q)) by lia.
      apply IH; [lia..| |].
      * destruct (Z.eq_dec ((2 * r + 1) * q) n) as [En|]; [|lia].
        rewrite En, (pre_all sizes n) in Hgt by (rewrite (ix_sizes _ _ _ Hix); lia). lia.
      * split; [lia|]. replace ((2 * r + 1 + 1) * q) with ((r + 1) * (2 * q)) by ring. lia.
    + replace (r * (2 * q)) with (2 * r * q) in * by ring. apply IH; [lia..|]. split; lia.
Qed.

(** The dictionary of the key [T], counted from 1. *)
Lemma index_find_spec bits sizes index T : index_ok (2 ^ bits) sizes index -> 1 <= T <= total sizes -> 0 <= bits ->
  exists res, index_find (Z.to_nat (bits + 1)) index (Z.shiftl 1 bits) 0 T = Some res /\
    0 <= res < 2 ^ bits /\ pre sizes res < T <= pre sizes (res + 1).
Proof.
  intros Hix HT Hb. destruct (index_find_ok bits sizes index T Hix HT Hb (bits + 1) 0) as (res & Hf & Hres); [lia..| |].
  - split; [rewrite Z.mul_0_l, pre_0; lia|]. rewrite pre_all; [lia|]. rewrite (ix_sizes _ _ _ Hix), Z.mul_1_l. apply Z.pow_le_mono_r; lia.
  - exists res. split; [|done]. rewrite <- Hf. rewrite Z.mul_0_l, pre_0, Z.sub_0_r, Z.shiftr_div_pow2, Z.shiftl_1_l by lia. f_equal.
    rewrite Z.pow_add_r by lia. symmetry. by apply Z.div_mul.
Qed.

(** The tree of a store with no keys. *)
Lemma index_ok_zero n : 0 <= n -> index_ok n (replicate (Z.to_nat n) 0) (replicate (Z.to_nat (n + 1)) 0).
Proof.
  assert (Ht : forall k, total (replicate k 0) = 0) by (unfold total; induction k; cbn in *; lia).
  intros Hn. split; [rewrite length_replicate; lia..| | |].
  - apply Forall_replicate. lia.
  - rewrite Ht. done.
  - intros j Hj. unfold index_at, cell, pre. rewrite (proj2 (Z.leb_le 0 j)), !take_replicate, !Ht by lia. cbn [guard mbind option_bind].
    apply lookup_replicate_2. lia.
Qed.

End KvIndexSpec.
