(* ===== verification/KvstoreSpec.v ===== *)
(** A key-value store is an array of finite maps: the invariant that ties the counters and the
    binary indexed tree of kvstore.c to the dictionaries, its preservation by every operation,
    and the refinement of the array of maps by any sequence of operations. *)

From S2P Require Import Prelude Dict DictSpec Kvstore KvIndexSpec.

Module KvstoreSpec.
Import Dict DictSpec Kvstore KvIndexSpec.

Section Invariant.
Context {K V : Type} `{Countable K} `{DT : DictType K} `{DL : !DictLaws K}.

Abbreviation dict := (dict K V).
Abbreviation kvstore := (kvstore K V).

Definition slot_ok (od : option dict) (m : gmap K V) : Prop :=
  match od with Some d => dict_ok d /\ pauseAutoResize d = 0 /\ dmap d = m | None => m = ∅ end.

Definition sizes (ms : list (gmap K V)) : list Z := map (fun m => Z.of_nat (size m)) ms.
Definition count {A} (p : A -> bool) (l : list A) : Z := total (map (fun x => b2z (p x)) l).
Definition non_empty (m : gmap K V) : bool := negb (Z.of_nat (size m) =? 0).
Definition allocated (od : option dict) : bool := match od with Some _ => true | None => false end.

(** The dictionaries hold the maps [ms]. *)
Record slots_ok (kvs : kvstore) (ms : list (gmap K V)) : Prop := {
  ks_bits : 0 <= num_dicts_bits kvs <= 16;
  ks_num : num_dicts kvs = 2 ^ num_dicts_bits kvs;
  ks_len : Z.of_nat (length ms) = num_dicts kvs;
  ks_slots : Forall2 slot_ok (dicts kvs) ms;
  ks_alloc : allocated_dicts kvs = count allocated (dicts kvs);
  ks_cursor : 0 <= resize_cursor kvs < num_dicts kvs
}.

(** The counters and the tree are those of the maps. *)
Record counts_ok (kvs : kvstore) (ms : list (gmap K V)) : Prop := {
  kc_count : key_count kvs = total (sizes ms);
  kc_max : total (sizes ms) <= max_entries;
  kc_non_empty : non_empty_dicts kvs = count non_empty ms;
  kc_index : if num_dicts kvs =? 1 then dict_size_index kvs = [] else index_ok (num_dicts kvs) (sizes ms) (dict_size_index kvs)
}.

Definition kvs_ok (kvs : kvstore) (ms : list (gmap K V)) : Prop := slots_ok kvs ms /\ counts_ok kvs ms.

(** What the operations on the dictionaries leave alone. *)
Definition same_counts (kvs kvs' : kvstore) : Prop :=
  num_dicts kvs' = num_dicts kvs /\ key_count kvs' = key_count kvs /\ non_empty_dicts kvs' = non_empty_dicts kvs /\
  dict_size_index kvs' = dict_size_index kvs.

Lemma counts_same kvs kvs' ms : same_counts kvs kvs' -> counts_ok kvs ms -> counts_ok kvs' ms.
Proof. intros (E1 & E2 & E3 & E4) [? ? ? ?]. split; [by rewrite E2|done|by rewrite E3|by rewrite E1, E4]. Qed.

Lemma sizes_nonneg ms : Forall (Z.le 0) (sizes ms).
Proof. apply Forall_fmap, Forall_true. intros m. cbn. lia. Qed.

Lemma sizes_lookup ms i m : ms !! i = Some m -> sizes ms !! i = Some (Z.of_nat (size m)).
Proof. intros Hm. unfold sizes. by rewrite list_lookup_fmap, Hm. Qed.

Lemma sizes_insert ms i m : sizes (<[i := m]> ms) = <[i := Z.of_nat (size m)]> (sizes ms).
Proof. exact (list_fmap_insert (fun m => Z.of_nat (size m)) ms i m). Qed.

Lemma count_insert {A} (p : A -> bool) l i x y : l !! i = Some x ->
  count p (<[i := y]> l) = count p l + (b2z (p y) - b2z (p x)).
Proof.
  intros Hx. unfold count. 
  change (total (b2z ∘ p <$> <[i := y]> l) = total (b2z ∘ p <$> l) + (b2z (p y) - b2z (p x))).
  rewrite list_fmap_insert. apply total_insert. by rewrite list_lookup_fmap, Hx.
Qed.

Lemma size_le_total ms i m : ms !! i = Some m -> Z.of_nat (size m) <= total (sizes ms).
Proof.
  intros Hm. pose proof (pre_step _ _ _ (sizes_lookup _ _ _ Hm)). pose proof (pre_bounds (sizes ms) (Z.of_nat i) (sizes_nonneg ms)).
  pose proof (pre_bounds (sizes ms) (Z.of_nat i + 1) (sizes_nonneg ms)). lia.
Qed.

Lemma slot_holds (d d' : dict) m : pauseAutoResize d = 0 -> holds d d' m -> slot_ok (Some d') m.
Proof. intros Ha [? ? ?]. split_and!; [done|congruence|done]. Qed.

(** * Access to the dictionaries *)

Lemma kv_get_ok kvs ms didx : slots_ok kvs ms -> 0 <= didx < num_dicts kvs ->
  exists od m, kvstoreGetDict kvs didx = Some od /\ dicts kvs !! Z.to_nat didx = Some od /\ ms !! Z.to_nat didx = Some m /\ slot_ok od m.
Proof.
  intros Hs Hd. destruct (lookup_lt_is_Some_2 ms (Z.to_nat didx)) as [m Hm]; [pose proof (ks_len _ _ Hs); lia|].
  destruct (Forall2_lookup_r _ _ _ _ _ (ks_slots _ _ Hs) Hm) as (od & Hod & Hok). exists od, m. split_and!; [|done..].
  unfold kvstoreGetDict. by rewrite (proj2 (Z.leb_le 0 didx)) by lia.
Qed.

Lemma get_at_ok kvs ms didx m : slots_ok kvs ms -> 0 <= didx < num_dicts kvs -> ms !! Z.to_nat didx = Some m ->
  exists od, kvstoreGetDict kvs didx = Some od /\ dicts kvs !! Z.to_nat didx = Some od /\ slot_ok od m.
Proof.
  intros Hs Hd Hm. destruct (kv_get_ok _ _ _ Hs Hd) as (od & m' & Hg & Hl & Hm' & Hok). rewrite Hm in Hm'. injection Hm' as <-. by exists od.
Qed.

Lemma put_ok kvs ms didx od d' m' : slots_ok kvs ms -> dicts kvs !! Z.to_nat didx = Some od -> slot_ok d' m' ->
  slots_ok (with_allocated (with_dict kvs didx d') (allocated_dicts kvs + (b2z (allocated d') - b2z (allocated od)))) (<[Z.to_nat didx := m']> ms).
Proof.
  intros [H1 H2 H3 H4 H5 H6] Hd Hok. split; cbn [num_dicts_bits num_dicts dicts allocated_dicts resize_cursor with_allocated with_dict];
    [done|done|by rewrite length_insert|by apply Forall2_insert| |done].
  by rewrite (count_insert _ _ _ _ _ Hd), H5.
Qed.

Lemma with_allocated_same (kvs : kvstore) : with_allocated kvs (allocated_dicts kvs) = kvs.
Proof. by destruct kvs. Qed.

(** Storing the dictionary again after a change. *)
Lemma set_ok kvs ms didx (d d' : dict) m' : slots_ok kvs ms -> dicts kvs !! Z.to_nat didx = Some (Some d) -> slot_ok (Some d') m' ->
  slots_ok (with_dict kvs didx (Some d')) (<[Z.to_nat didx := m']> ms).
Proof.
  intros Hs Hd Hok. pose proof (put_ok _ _ _ _ _ _ Hs Hd Hok) as Hp. cbn in Hp. rewrite Z.add_0_r in Hp.
  by rewrite <- (with_allocated_same (with_dict _ _ _)).
Qed.

(** A change of a dictionary that keeps its map. *)
Lemma set_same_ok kvs ms didx (d d' : dict) m : kvs_ok kvs ms -> dicts kvs !! Z.to_nat didx = Some (Some d) ->
  ms !! Z.to_nat didx = Some m -> slot_ok (Some d') m -> kvs_ok (with_dict kvs didx (Some d')) ms.
Proof.
  intros [Hs Hc] Hd Hm Hok. split; [|by apply (counts_same kvs)]. rewrite <- (list_insert_id ms (Z.to_nat didx) m Hm).
  by eapply set_ok.
Qed.

Lemma createDictIfNeeded_ok kvs ms didx : kvs_ok kvs ms -> 0 <= didx < num_dicts kvs ->
  exists kvs' d m, createDictIfNeeded kvs didx = Some (kvs', d) /\ kvs_ok kvs' ms /\ num_dicts kvs' = num_dicts kvs /\
    dicts kvs' !! Z.to_nat didx = Some (Some d) /\ ms !! Z.to_nat didx = Some m /\ slot_ok (Some d) m.
Proof.
  intros [Hs Hc] Hd. destruct (kv_get_ok _ _ _ Hs Hd) as (od & m & Hg & Hl & Hm & Hok). unfold createDictIfNeeded. rewrite Hg. cbn [mbind option_bind].
  destruct od as [d|]; [by exists kvs, d, m|]. cbn in Hok. subst m.
  assert (Hn : slot_ok (Some dictCreate) ∅) by (destruct (dictCreate_ok (K:=K) (V:=V)); done).
  eexists _, dictCreate, ∅. split; [done|]. split_and!; [|done| |done|done].
  - split; [|by apply (counts_same kvs)]. rewrite <- (list_insert_id ms (Z.to_nat didx) ∅ Hm).
    exact (put_ok _ _ _ _ _ _ Hs Hl Hn).
  - cbn. apply list_lookup_insert_eq. by eapply lookup_lt_Some.
Qed.

Lemma freeDictIfNeeded_ok kvs ms didx : slots_ok kvs ms -> 0 <= didx < num_dicts kvs ->
  exists kvs', freeDictIfNeeded kvs didx = Some kvs' /\ slots_ok kvs' ms /\ same_counts kvs kvs'.
Proof.
  intros Hs Hd. destruct (kv_get_ok _ _ _ Hs Hd) as (od & m & Hg & Hl & Hm & Hok). unfold freeDictIfNeeded. rewrite Hg. cbn [mbind option_bind].
  destruct od as [d|]; [|by exists kvs]. destruct (_ || _ || _) eqn:E; [by exists kvs|].
  apply orb_false_iff in E as [E _]. apply orb_false_iff in E as [_ E]. apply negb_false_iff, Z.eqb_eq in E.
  destruct Hok as (Hdk & _ & <-). rewrite dmap_size in E by done.
  assert (Em : dmap d = ∅) by (apply map_size_empty_inv; lia). rewrite Em in Hm.
  eexists. split; [done|]. split; [|done]. rewrite <- (list_insert_id ms (Z.to_nat didx) ∅ Hm).
  exact (put_ok kvs ms didx (Some d) None ∅ Hs Hl eq_refl).
Qed.

(** * The counters *)

Lemma size_slot (d : dict) m : slot_ok (Some d) m -> dictSize d = Z.of_nat (size m).
Proof. intros (Hd & _ & <-). by apply dmap_size. Qed.

Lemma kvstoreDictSize_ok kvs ms didx : slots_ok kvs ms -> 0 <= didx < num_dicts kvs ->
  exists m, ms !! Z.to_nat didx = Some m /\ kvstoreDictSize kvs didx = Some (Z.of_nat (size m)).
Proof.
  intros Hs Hd. destruct (kv_get_ok _ _ _ Hs Hd) as (od & m & Hg & Hl & Hm & Hok). exists m. split; [done|].
  unfold kvstoreDictSize. rewrite Hg. cbn [mbind option_bind]. destruct od as [d|]; [by rewrite (size_slot _ _ Hok)|].
  cbn in Hok. by subst m.
Qed.

Lemma one_map kvs ms : slots_ok kvs ms -> num_dicts kvs = 1 -> exists m, ms = [m].
Proof. intros Hs E. pose proof (ks_len _ _ Hs) as Hl. rewrite E in Hl. destruct ms as [|m [|? ?]]; cbn in *; [lia|by exists m|lia]. Qed.

Lemma kvstoreSize_ok kvs ms : kvs_ok kvs ms -> kvstoreSize kvs = Some (total (sizes ms)).
Proof.
  intros [Hs Hc]. unfold kvstoreSize. destruct (Z.eqb_spec (num_dicts kvs) 1) as [E|]; cbn [negb]; [|by rewrite (kc_count _ _ Hc)].
  destruct (kvstoreDictSize_ok kvs ms 0 Hs ltac:(lia)) as (m & Hm & ->). destruct (one_map _ _ Hs E) as [m' ->].
  change (Z.to_nat 0) with O in Hm. cbn in Hm. simplify_eq. f_equal. symmetry. apply Z.add_0_r.
Qed.

(** After the map of a dictionary has got or lost a key. *)
Lemma cumulativeKeyCountAdd_ok kvs ms didx d m m' delta : 0 <= didx -> slots_ok kvs (<[Z.to_nat didx := m']> ms) -> counts_ok kvs ms ->
  ms !! Z.to_nat didx = Some m -> dicts kvs !! Z.to_nat didx = Some (Some d) ->
  Z.of_nat (size m') = Z.of_nat (size m) + delta -> delta = 1 \/ delta = -1 -> total (sizes ms) + delta <= max_entries ->
  exists kvs', cumulativeKeyCountAdd kvs didx delta = Some kvs' /\ kvs_ok kvs' (<[Z.to_nat didx := m']> ms) /\ num_dicts kvs' = num_dicts kvs.
Proof.
  intros H0 Hs Hc Hm Hd Hsz Hdelta Hmax. pose proof (lookup_lt_Some _ _ _ Hm) as Hlt.
  assert (Hl' : <[Z.to_nat didx := m']> ms !! Z.to_nat didx = Some m') by (by apply list_lookup_insert_eq).
  assert (Hsd : dictSize d = Z.of_nat (size m')).
  { apply size_slot. pose proof (Forall2_lookup_lr _ _ _ _ _ _ (ks_slots _ _ Hs) Hd Hl'). done. }
  pose proof (sizes_lookup _ _ _ Hm) as Hsl.
  assert (Ht : total (sizes (<[Z.to_nat didx := m']> ms)) = total (sizes ms) + delta).
  { rewrite sizes_insert, (total_insert _ _ _ _ Hsl). lia. }
  pose proof (total_nonneg _ (sizes_nonneg (<[Z.to_nat didx := m']> ms))) as Hpos. unfold max_entries in *.
  set (ne := non_empty_dicts kvs + (if (dictSize d =? 1) && (delta >? 0) then 1 else if dictSize d =? 0 then -1 else 0)).
  assert (Hne : ne = count non_empty (<[Z.to_nat didx := m']> ms)).
  { subst ne. rewrite (count_insert _ _ _ _ _ Hm), (kc_non_empty _ _ Hc), Hsd. unfold non_empty, b2z.
    destruct (Z.eqb_spec (Z.of_nat (size m')) 1), (Z.eqb_spec (Z.of_nat (size m')) 0), (Z.eqb_spec (Z.of_nat (size m)) 0), (Z.gtb_spec delta 0); cbn; lia. }
  unfold cumulativeKeyCountAdd, kvstoreGetDict. rewrite (proj2 (Z.leb_le 0 didx)) by lia. cbn [guard mbind option_bind].
  rewrite Hd. cbn [mbind option_bind]. rewrite (kc_count _ _ Hc), uwrap_small by (unfold urange; lia). fold ne.
  pose proof (kc_index _ _ Hc) as Hix. destruct (Z.eqb_spec (num_dicts kvs) 1) as [E1|E1].
  - eexists. split; [done|]. split; [|done]. split; [by destruct Hs|]. split; cbn; [lia|unfold max_entries; lia|done|].
    by rewrite E1.
  - destruct (index_update _ _ _ _ _ (dictSize d) Hix Hsl ltac:(lia)) as (index' & Ha & Hix'); [lia|]. rewrite Hsd in Ha, Hix'.
    match type of Ha with index_add _ _ _ _ ?x = _ => replace x with delta in Ha by lia end. rewrite Z2Nat.id in Ha by done. rewrite Ha. cbn [mbind option_bind].
    eexists. split; [done|]. split; [|done]. split; [by destruct Hs|]. split; cbn; [lia|unfold max_entries; lia|done|].
    rewrite (proj2 (Z.eqb_neq _ 1)) by done. by rewrite sizes_insert.
Qed.

(** * The dictionary of a key index *)

(** The map that holds the key [T], counted from 1 in the order of the maps. *)
Fixpoint locate (ms : list (gmap K V)) (T : Z) : Z :=
  match ms with
  | [] => 0
  | m :: ms => let s := Z.of_nat (size m) in if T <=? s then 0 else 1 + locate ms (T - s)
  end.

(** The first map from [i] on that is not empty. *)
Definition next_from (ms : list (gmap K V)) (i : Z) : Z :=
  match list_find (fun m => non_empty m = true) (drop (Z.to_nat i) ms) with Some (j, _) => i + Z.of_nat j | None => -1 end.

Lemma pre_cons m ms j : 0 < j -> pre (sizes (m :: ms)) j = Z.of_nat (size m) + pre (sizes ms) (j - 1).
Proof. intros Hj. unfold pre. by replace (Z.to_nat j) with (S (Z.to_nat (j - 1))) by lia. Qed.

Lemma locate_unique ms : forall T i, 0 <= i < Z.of_nat (length ms) -> pre (sizes ms) i < T <= pre (sizes ms) (i + 1) -> locate ms T = i.
Proof.
  induction ms as [|m ms IH]; intros T i Hi Hp; cbn [locate length] in *; [lia|].
  rewrite (pre_cons m ms (i + 1)) in Hp by lia. replace (i + 1 - 1) with i in Hp by lia.
  destruct (Z.leb_spec T (Z.of_nat (size m))) as [Hle|Hgt].
  - destruct (Z.eq_dec i 0) as [|Hn]; [done|]. rewrite pre_cons in Hp by lia.
    pose proof (pre_bounds (sizes ms) (i - 1) (sizes_nonneg ms)). lia.
  - destruct (Z.eq_dec i 0) as [->|Hn]; [rewrite !pre_0 in Hp; lia|]. rewrite pre_cons in Hp by lia.
    rewrite (IH (T - Z.of_nat (size m)) (i - 1)); [lia|lia|]. replace (i - 1 + 1) with i by lia. lia.
Qed.

Lemma next_from_unique ms i j m : 0 <= i <= j -> ms !! Z.to_nat j = Some m -> size m <> O ->
  pre (sizes ms) j = pre (sizes ms) i -> next_from ms i = j.
Proof.
  intros Hij Hm Hs Hp. unfold next_from. 
  enough (list_find (fun m => non_empty m = true) (drop (Z.to_nat i) ms) = Some (Z.to_nat (j - i), m)) as -> by lia.
  apply list_find_Some. split_and!.
  - rewrite lookup_drop. by replace (Z.to_nat i + Z.to_nat (j - i))%nat with (Z.to_nat j) by lia.
  - unfold non_empty. apply negb_true_iff, Z.eqb_neq. lia.
  - intros k y Hy Hk Hne. rewrite lookup_drop in Hy. apply negb_true_iff, Z.eqb_neq in Hne.
    pose proof (pre_step _ _ _ (sizes_lookup _ _ _ Hy)) as Hst. pose proof (sizes_nonneg ms) as Hn.
    pose proof (pre_mono (sizes ms) i (Z.of_nat (Z.to_nat i + k)) Hn ltac:(lia)).
    pose proof (pre_mono (sizes ms) (Z.of_nat (Z.to_nat i + k) + 1) j Hn ltac:(lia)). lia.
Qed.

Lemma next_from_none ms i : 0 <= i -> pre (sizes ms) i = total (sizes ms) -> next_from ms i = -1.
Proof.
  intros Hi Hp. unfold next_from. destruct (list_find _ _) as [[j m]|] eqn:E; [exfalso|done].
  apply list_find_Some in E as (Hl & Hne & _). rewrite lookup_drop in Hl. apply negb_true_iff, Z.eqb_neq in Hne.
  pose proof (pre_step _ _ _ (sizes_lookup _ _ _ Hl)) as Hst. pose proof (sizes_nonneg ms) as Hn.
  pose proof (pre_mono (sizes ms) i (Z.of_nat (Z.to_nat i + j)) Hn ltac:(lia)).
  pose proof (pre_bounds (sizes ms) (Z.of_nat (Z.to_nat i + j) + 1) Hn). lia.
Qed.

Lemma kvstoreFindDictIndexByKeyIndex_ok kvs ms T : kvs_ok kvs ms -> 1 <= T <= total (sizes ms) ->
  exists i, kvstoreFindDictIndexByKeyIndex kvs T = Some i /\ 0 <= i < num_dicts kvs /\ pre (sizes ms) i < T <= pre (sizes ms) (i + 1).
Proof.
  intros Hk HT. unfold kvstoreFindDictIndexByKeyIndex. rewrite (kvstoreSize_ok _ _ Hk). cbn [mbind option_bind]. destruct Hk as [Hs Hc].
  rewrite (proj2 (Z.eqb_neq (total _) 0)), orb_false_r by lia. pose proof (kc_index _ _ Hc) as Hix.
  destruct (Z.eqb_spec (num_dicts kvs) 1) as [E|E].
  - exists 0. split; [done|]. split; [lia|]. rewrite pre_0, pre_all; [lia|].
    unfold sizes. rewrite length_map. pose proof (ks_len _ _ Hs). lia.
  - rewrite (proj2 (Z.leb_le T _)) by lia. cbn [guard mbind option_bind].
    rewrite (ks_num _ _ Hs) in *. apply index_find_spec; [done|lia|apply Hs].
Qed.

Lemma locate_ok kvs ms T : kvs_ok kvs ms -> 1 <= T <= total (sizes ms) ->
  kvstoreFindDictIndexByKeyIndex kvs T = Some (locate ms T).
Proof.
  intros Hk HT. destruct (kvstoreFindDictIndexByKeyIndex_ok kvs ms T Hk HT) as (i & -> & Hi & Hp). destruct Hk as [Hs _].
  rewrite (locate_unique ms T i); [done| |done]. by rewrite (ks_len _ _ Hs).
Qed.

(** With the keys that come before [i] skipped, the search gives the next dictionary that has keys. *)
Lemma kv_find_next kvs ms i : kvs_ok kvs ms -> 0 <= i -> pre (sizes ms) i < total (sizes ms) ->
  kvstoreFindDictIndexByKeyIndex kvs (pre (sizes ms) i + 1) = Some (next_from ms i) /\ i <= next_from ms i < num_dicts kvs.
Proof.
  intros Hk Hi Hp. pose proof (sizes_nonneg ms) as Hn. pose proof (pre_bounds (sizes ms) i Hn).
  destruct (kvstoreFindDictIndexByKeyIndex_ok kvs ms (pre (sizes ms) i + 1) Hk ltac:(lia)) as (j & -> & Hj & Hpj). destruct Hk as [Hs _].
  destruct (lookup_lt_is_Some_2 ms (Z.to_nat j)) as [m Hm]; [pose proof (ks_len _ _ Hs); lia|].
  pose proof (pre_step _ _ _ (sizes_lookup _ _ _ Hm)) as Hst. rewrite Z2Nat.id in Hst by lia.
  assert (Hij : i <= j). { destruct (Z.le_gt_cases i j); [done|]. pose proof (pre_mono (sizes ms) (j + 1) i Hn ltac:(lia)). lia. }
  pose proof (pre_mono (sizes ms) i j Hn Hij).
  rewrite (next_from_unique ms i j m); [split; [done|lia]|lia|done| |lia]. intros Hz. rewrite Hz in Hst. lia.
Qed.

(** What [kvstoreGetFirstNonEmptyDictIndex] gives. *)
Definition first_index (ms : list (gmap K V)) : Z := if total (sizes ms) =? 0 then 0 else next_from ms 0.

Lemma kvstoreGetFirstNonEmptyDictIndex_ok kvs ms : kvs_ok kvs ms -> kvstoreGetFirstNonEmptyDictIndex kvs = Some (first_index ms).
Proof.
  intros Hk. unfold kvstoreGetFirstNonEmptyDictIndex, first_index. destruct (Z.eqb_spec (total (sizes ms)) 0) as [E|E].
  - unfold kvstoreFindDictIndexByKeyIndex. rewrite (kvstoreSize_ok _ _ Hk), E. cbn [mbind option_bind]. by rewrite orb_true_r.
  - pose proof (total_nonneg _ (sizes_nonneg ms)). apply (kv_find_next kvs ms 0 Hk); [done|]. rewrite pre_0. lia.
Qed.

Lemma cumulativeKeyCountRead_ok kvs ms didx : kvs_ok kvs ms -> 0 <= didx < num_dicts kvs ->
  cumulativeKeyCountRead kvs didx = Some (pre (sizes ms) (didx + 1)).
Proof.
  intros Hk Hd. unfold cumulativeKeyCountRead. pose proof (kc_index _ _ (proj2 Hk)) as Hix. pose proof (kc_max _ _ (proj2 Hk)) as Hmax.
  destruct (Z.eqb_spec (num_dicts kvs) 1) as [E|E].
  - replace didx with 0 by lia. rewrite (kvstoreSize_ok _ _ Hk). cbn [Z.eqb guard mbind option_bind]. f_equal.
    rewrite pre_all; [done|]. unfold sizes. rewrite length_map. pose proof (ks_len _ _ (proj1 Hk)). lia.
  - rewrite (index_read_ok _ _ _ _ Hix); [by rewrite Z.add_0_l|lia|lia|lia|].
    pose proof (pre_bounds (sizes ms) (didx + 1) (sizes_nonneg ms)). unfold max_entries in *. lia.
Qed.

Lemma kvstoreGetNextNonEmptyDictIndex_ok kvs ms didx : kvs_ok kvs ms -> 0 <= didx < num_dicts kvs ->
  kvstoreGetNextNonEmptyDictIndex kvs didx = Some (next_from ms (didx + 1)).
Proof.
  intros Hk Hd. unfold kvstoreGetNextNonEmptyDictIndex. pose proof (sizes_nonneg ms) as Hn. pose proof (kc_max _ _ (proj2 Hk)) as Hmax.
  pose proof (pre_bounds (sizes ms) (didx + 1) Hn) as Hb. destruct (Z.eqb_spec (num_dicts kvs) 1) as [E|E].
  - replace didx with 0 by lia. cbn [Z.eqb guard mbind option_bind]. rewrite next_from_none; [done|done|].
    rewrite pre_all; [done|]. unfold sizes. rewrite length_map. pose proof (ks_len _ _ (proj1 Hk)). lia.
  - rewrite (cumulativeKeyCountRead_ok _ _ _ Hk Hd), (kvstoreSize_ok _ _ Hk). cbn [mbind option_bind]. unfold max_entries in *.
    rewrite uwrap_small by (unfold urange; lia). destruct (Z.leb_spec (pre (sizes ms) (didx + 1) + 1) (total (sizes ms))) as [Hle|Hgt].
    + apply (kv_find_next kvs ms (didx + 1) Hk); lia.
    + rewrite next_from_none; [done|lia|lia].
Qed.

(** * The operations on the keys *)

Section Ops.
Context (mode : dictResizeEnable).

Lemma with_dict_twice (kvs : kvstore) didx d d' : with_dict (with_dict kvs didx d) didx d' = with_dict kvs didx d'.
Proof. unfold with_dict. cbn [on_demand free_empty dicts num_dicts num_dicts_bits resize_cursor allocated_dicts non_empty_dicts key_count dict_size_index]. by rewrite list_insert_insert_eq. Qed.

Lemma with_dict_lookup (kvs : kvstore) didx od d : dicts kvs !! Z.to_nat didx = Some od ->
  dicts (with_dict kvs didx d) !! Z.to_nat didx = Some d.
Proof. intros Hl. apply list_lookup_insert_eq. by eapply lookup_lt_Some. Qed.

Lemma kvstoreDictAddRaw_ok kvs ms didx m k v : kvs_ok kvs ms -> 0 <= didx < num_dicts kvs -> ms !! Z.to_nat didx = Some m ->
  total (sizes ms) < max_entries ->
  let absent := bool_decide (m !! k = None) in
  exists kvs', kvstoreDictAddRaw mode kvs didx k v = Some (kvs', absent) /\
    kvs_ok kvs' (if absent then <[Z.to_nat didx := <[k := v]> m]> ms else ms).
Proof.
  intros Hk Hd Hm Ht absent. unfold kvstoreDictAddRaw.
  destruct (createDictIfNeeded_ok kvs ms didx Hk Hd) as (kvs1 & d & m1 & -> & Hk1 & En & Hl & Hm1 & Hok). cbn [mbind option_bind].
  rewrite Hm in Hm1. injection Hm1 as <-. pose proof (size_le_total _ _ _ Hm) as Hsm. destruct Hok as (Hdk & Ha & Em).
  destruct (dictAddRaw_ok mode d k v Hdk ltac:(lia)) as (d' & r & -> & Hr); [rewrite Em; lia|]. cbn [mbind option_bind]. rewrite Em in Hr.
  subst absent. destruct r as [l|].
  - destruct Hr as (v0 & -> & _ & Hh). eexists. split; [done|]. cbn.
    eapply set_same_ok; [done..|]. by eapply slot_holds.
  - destruct Hr as [Hn Hh]. rewrite Hn. cbn [bool_decide decide_rel]. pose proof (set_ok _ _ _ _ _ _ (proj1 Hk1) Hl (slot_holds _ _ _ Ha Hh)) as Hs2.
    destruct (cumulativeKeyCountAdd_ok (with_dict kvs1 didx (Some d')) ms didx d' m (<[k := v]> m) 1) as (kvs2 & -> & Hk2 & _);
      [lia|done|by apply (counts_same kvs1), Hk1|done|by eapply with_dict_lookup| |by left|lia|by exists kvs2].
    rewrite map_size_insert, Hn. lia.
Qed.

(** The end of a deletion, in one phase or in two. *)
Lemma remove_ok kvs ms didx (d d' : dict) m k v : kvs_ok kvs ms -> 0 <= didx < num_dicts kvs -> ms !! Z.to_nat didx = Some m ->
  dicts kvs !! Z.to_nat didx = Some (Some d) -> slot_ok (Some d') (delete k m) -> m !! k = Some v ->
  exists kvs1 kvs2, cumulativeKeyCountAdd (with_dict kvs didx (Some d')) didx (-1) = Some kvs1 /\ freeDictIfNeeded kvs1 didx = Some kvs2 /\
    kvs_ok kvs2 (<[Z.to_nat didx := delete k m]> ms).
Proof.
  intros [Hs Hc] Hd Hm Hl Hok Hv. pose proof (set_ok _ _ _ _ _ _ Hs Hl Hok) as Hs1. pose proof (kc_max _ _ Hc).
  destruct (cumulativeKeyCountAdd_ok (with_dict kvs didx (Some d')) ms didx d' m (delete k m) (-1)) as (kvs1 & -> & [Hs2 Hc2] & En);
    [lia|done|by apply (counts_same kvs)|done|by eapply with_dict_lookup| |by right|lia|].
  { rewrite map_size_delete, Hv. pose proof (map_size_ne_0_lookup_2 m k ltac:(by eexists)). lia. }
  destruct (freeDictIfNeeded_ok kvs1 _ didx Hs2) as (kvs2 & Hf & Hs3 & Hsc); [rewrite En; done|].
  exists kvs1, kvs2. split_and!; [done..|]. split; [done|by apply (counts_same kvs1)].
Qed.

Lemma kvstoreDictDelete_ok kvs ms didx m k : kvs_ok kvs ms -> 0 <= didx < num_dicts kvs -> ms !! Z.to_nat didx = Some m ->
  exists kvs', kvstoreDictDelete mode kvs didx k = Some (kvs', bool_decide (is_Some (m !! k))) /\ kvs_ok kvs' (<[Z.to_nat didx := delete k m]> ms).
Proof.
  intros Hk Hd Hm. unfold kvstoreDictDelete. destruct (get_at_ok _ _ _ _ (proj1 Hk) Hd Hm) as (od & -> & Hl & Hok).
  cbn [mbind option_bind]. destruct od as [d|].
  2: { cbn in Hok. subst m. exists kvs. by rewrite delete_empty, list_insert_id by done. }
  destruct Hok as (Hdk & Ha & Em). unfold dictDelete. destruct (dictGenericDelete_ok mode d k Hdk) as (d' & -> & Hh). cbn [mbind option_bind].
  rewrite Em in *. pose proof (slot_holds _ _ _ Ha Hh) as Hok'. destruct (m !! k) as [v|] eqn:Hv; cbn [fmap option_fmap option_map].
  - destruct (remove_ok kvs ms didx d d' m k v Hk Hd Hm Hl Hok' Hv) as (kvs1 & kvs2 & -> & Hf & Hk2).
    cbn [mbind option_bind]. rewrite Hf. by exists kvs2.
  - eexists. split; [done|]. rewrite delete_id in Hok' |- * by done. rewrite list_insert_id by done. by eapply set_same_ok.
Qed.

(** The two phases of an unlinking, with the entry the caller sees in between. *)
Definition two_phase (kvs : kvstore) (didx : Z) (k : K) : option (kvstore * option (K * V)) :=
  '(kvs, l) ← kvstoreDictTwoPhaseUnlinkFind mode kvs didx k;
  match l with
  | None => Some (kvs, None)
  | Some l =>
    d ← kvstoreGetDict kvs didx;
    d ← d;
    e ← get_link d l;
    kvs ← kvstoreDictTwoPhaseUnlinkFree mode kvs didx l;
    Some (kvs, Some e)
  end.

Lemma two_phase_ok kvs ms didx m k : kvs_ok kvs ms -> 0 <= didx < num_dicts kvs -> ms !! Z.to_nat didx = Some m ->
  exists kvs', two_phase kvs didx k = Some (kvs', pair k <$> m !! k) /\ kvs_ok kvs' (<[Z.to_nat didx := delete k m]> ms).
Proof.
  intros Hk Hd Hm. unfold two_phase, kvstoreDictTwoPhaseUnlinkFind.
  destruct (get_at_ok _ _ _ _ (proj1 Hk) Hd Hm) as (od & -> & Hl & Hok).
  cbn [mbind option_bind]. destruct od as [d|].
  2: { cbn in Hok. subst m. exists kvs. by rewrite delete_empty, list_insert_id by done. }
  destruct Hok as (Hdk & Ha & Em). destruct (twoPhase_ok mode d k Hdk) as (d1 & r & d2 & -> & Hfree & Hh & Hr).
  cbn [mbind option_bind]. rewrite Em in *. pose proof (slot_holds _ _ _ Ha Hh) as Hok'. destruct r as [l|].
  - destruct Hr as (v & Hgl & Hv). rewrite Hv. cbn [fmap option_fmap option_map].
    pose proof (with_dict_lookup kvs didx _ (Some d1) Hl) as Hl1. unfold kvstoreDictTwoPhaseUnlinkFree, kvstoreGetDict.
    rewrite (proj2 (Z.leb_le 0 didx)) by lia. cbn [guard mbind option_bind]. rewrite Hl1. cbn [mbind option_bind].
    rewrite Hgl. cbn [mbind option_bind]. rewrite Hfree. cbn [mbind option_bind]. rewrite with_dict_twice.
    destruct (remove_ok kvs ms didx d d2 m k v Hk Hd Hm Hl Hok' Hv) as (kvs1 & kvs2 & -> & Hf & Hk2).
    cbn [mbind option_bind]. rewrite Hf. by exists kvs2.
  - injection Hfree as <-. eexists. rewrite Hr. split; [done|]. rewrite delete_id in Hok' |- * by done.
    rewrite list_insert_id by done. by eapply set_same_ok.
Qed.

(** The lookups, which may rehash the dictionary. *)
Lemma kvstoreDictFind_ok kvs ms didx m k : kvs_ok kvs ms -> 0 <= didx < num_dicts kvs -> ms !! Z.to_nat didx = Some m ->
  exists kvs', kvstoreDictFind mode kvs didx k = Some (kvs', pair k <$> m !! k) /\ kvs_ok kvs' ms.
Proof.
  intros Hk Hd Hm. unfold kvstoreDictFind. destruct (get_at_ok _ _ _ _ (proj1 Hk) Hd Hm) as (od & -> & Hl & Hok).
  cbn [mbind option_bind]. destruct od as [d|]; [|cbn in Hok; subst m; by exists kvs].
  destruct Hok as (Hdk & Ha & Em). destruct (dictFind_ok mode d k Hdk) as (d' & -> & Hh). rewrite Em in *. eexists. split; [done|].
  eapply set_same_ok; [done..|]. by eapply slot_holds.
Qed.

Lemma kvstoreDictFetchValue_ok kvs ms didx m k : kvs_ok kvs ms -> 0 <= didx < num_dicts kvs -> ms !! Z.to_nat didx = Some m ->
  exists kvs', kvstoreDictFetchValue mode kvs didx k = Some (kvs', m !! k) /\ kvs_ok kvs' ms.
Proof.
  intros Hk Hd Hm. unfold kvstoreDictFetchValue. destruct (get_at_ok _ _ _ _ (proj1 Hk) Hd Hm) as (od & -> & Hl & Hok).
  cbn [mbind option_bind]. destruct od as [d|]; [|cbn in Hok; subst m; by exists kvs].
  destruct Hok as (Hdk & Ha & Em). destruct (dictFetchValue_ok mode d k Hdk) as (d' & -> & Hh). rewrite Em in *. eexists. split; [done|].
  eapply set_same_ok; [done..|]. by eapply slot_holds.
Qed.

(** * Resizing and emptying *)

Lemma resized_ok kvs ms didx (d d' : dict) m : kvs_ok kvs ms -> dicts kvs !! Z.to_nat didx = Some (Some d) ->
  ms !! Z.to_nat didx = Some m -> slot_ok (Some d) m -> resized d d' -> kvs_ok (with_dict kvs didx (Some d')) ms.
Proof.
  intros Hk Hl Hm (Hdk & Ha & Em) Hz. eapply set_same_ok; [done..|]. rewrite <- Em. eapply slot_holds; [done|]. by apply resized_holds.
Qed.

Lemma kvstoreDictExpand_ok kvs ms didx n : kvs_ok kvs ms -> 0 <= didx < num_dicts kvs -> 0 <= n ->
  exists kvs' b, kvstoreDictExpand mode kvs didx n = Some (kvs', b) /\ kvs_ok kvs' ms.
Proof.
  intros Hk Hd Hn. unfold kvstoreDictExpand. destruct (kv_get_ok _ _ _ (proj1 Hk) Hd) as (od & m & -> & Hl & Hm & Hok).
  cbn [mbind option_bind]. destruct od as [d|]; [|by exists kvs, false].
  destruct (dictExpand_ok mode d n (proj1 Hok) Hn) as (d' & b & -> & Hz). eexists _, b. split; [done|]. by eapply resized_ok.
Qed.

Lemma expand_dicts_ok newsize try_expand alloc_ok skip_cb n : forall kvs ms i, kvs_ok kvs ms -> 0 <= i ->
  i + Z.of_nat n <= Z.of_nat (length ms) -> 0 <= newsize ->
  exists kvs' b, expand_dicts mode n kvs newsize try_expand alloc_ok skip_cb i = Some (kvs', b) /\ kvs_ok kvs' ms.
Proof.
  induction n as [|n IH]; intros kvs ms i Hk Hi Hn Hz; cbn [expand_dicts]; [by exists kvs, true|].
  pose proof (ks_len _ _ (proj1 Hk)). destruct (kv_get_ok _ _ i (proj1 Hk) ltac:(lia)) as (od & m & -> & Hl & Hm & Hok).
  cbn [mbind option_bind]. destruct od as [d|]; [|apply IH; [done|lia..]]. destruct (skip_cb i); [apply IH; [done|lia..]|].
  assert (He : exists d' ok, (if try_expand then dictTryExpand mode d newsize alloc_ok else dictExpand mode d newsize) = Some (d', ok) /\ resized d d').
  { destruct try_expand; [apply dictTryExpand_ok|apply dictExpand_ok]; by try apply Hok. }
  destruct He as (d' & ok & -> & Hr). cbn [mbind option_bind]. pose proof (resized_ok _ _ _ _ _ _ Hk Hl Hm Hok Hr) as Hk'.
  destruct (try_expand && negb ok); [by eexists _, _|]. apply IH; [done|lia..].
Qed.

Lemma resize_dicts_ok n : forall kvs ms, kvs_ok kvs ms -> exists kvs', resize_dicts mode n kvs = Some kvs' /\ kvs_ok kvs' ms.
Proof.
  induction n as [|n IH]; intros kvs ms Hk; cbn [resize_dicts]; [by exists kvs|].
  pose proof (ks_cursor _ _ (proj1 Hk)) as Hcur. destruct (kv_get_ok _ _ _ (proj1 Hk) Hcur) as (od & m & -> & Hl & Hm & Hok). cbn [mbind option_bind].
  assert (Hc : forall kvs1, kvs_ok kvs1 ms -> kvs_ok (with_resize_cursor kvs1 ((resize_cursor kvs + 1) mod num_dicts kvs1)) ms).
  { intros kvs1 [Hs1 Hc1]. split; [|by apply (counts_same kvs1)]. destruct Hs1 as [? ? ? ? ? ?]. split; [done..|]. cbn. apply Z.mod_pos_bound. lia. }
  destruct od as [d|]; [|cbn [mbind option_bind]; by apply IH, Hc].
  destruct (dictShrinkIfNeeded_ok mode d (proj1 Hok)) as (d1 & ok & -> & Hz1). cbn [mbind option_bind].
  pose proof (resized_ok _ _ _ _ _ _ Hk Hl Hm Hok Hz1) as Hk1.
  destruct ok; cbn [mbind option_bind]; [by apply IH, Hc|].
  assert (Hok1 : slot_ok (Some d1) m).
  { destruct Hok as (Hdk & Ha & <-). eapply slot_holds; [exact Ha|]. by apply resized_holds. }
  destruct (dictExpandIfNeeded_ok mode d1 (proj1 Hok1)) as (d2 & b & -> & Hz2 & _). cbn [mbind option_bind].
  apply IH, Hc. rewrite <- (with_dict_twice kvs _ (Some d1)). eapply resized_ok; [done| |done..]. by eapply with_dict_lookup.
Qed.

End Ops.

Lemma empty_dicts_ok n : forall kvs ms i, slots_ok kvs ms -> 0 <= i -> i + Z.of_nat n = Z.of_nat (length ms) ->
  exists kvs', empty_dicts n kvs i = Some kvs' /\ slots_ok kvs' (take (Z.to_nat i) ms ++ replicate n ∅) /\ same_counts kvs kvs'.
Proof.
  induction n as [|n IH]; intros kvs ms i Hs Hi Hn; cbn [empty_dicts replicate].
  { exists kvs. by rewrite app_nil_r, take_ge by lia. }
  pose proof (ks_len _ _ Hs) as Hlen. destruct (kv_get_ok _ _ i Hs ltac:(lia)) as (od & m & -> & Hl & Hm & Hok). cbn [mbind option_bind].
  assert (Hgo : exists kvs1, match od with None => Some kvs | Some d => freeDictIfNeeded (with_dict kvs i (Some (dictEmpty d))) i end = Some kvs1 /\
    slots_ok kvs1 (<[Z.to_nat i := ∅]> ms) /\ same_counts kvs kvs1).
  { destruct od as [d|]; [|cbn in Hok; subst m; exists kvs; by rewrite list_insert_id].
    assert (He : slot_ok (Some (dictEmpty d)) ∅) by (destruct (dictEmpty_ok d); by destruct Hok as (_ & Ha & _)).
    by destruct (freeDictIfNeeded_ok _ _ i (set_ok _ _ _ _ _ _ Hs Hl He)) as (kvs1 & -> & Hs1 & Hsc); [cbn; lia|exists kvs1]. }
  destruct Hgo as (kvs1 & -> & Hs1 & (E1 & E2 & E3 & E4)). cbn [mbind option_bind].
  destruct (IH kvs1 _ (i + 1) Hs1 ltac:(lia)) as (kvs' & -> & Hs' & (F1 & F2 & F3 & F4)); [rewrite length_insert; lia|].
  exists kvs'. split; [done|]. split; [|unfold same_counts; split_and!; congruence].
  rewrite cons_middle, (assoc_L (++)). replace (Z.to_nat (i + 1)) with (S (Z.to_nat i)) in Hs' by lia.
  rewrite (take_S_r _ _ ∅), take_insert_ge in Hs' by (done || (apply list_lookup_insert_eq; lia)). done.
Qed.

Lemma zero_sizes n : sizes (replicate n ∅) = replicate n 0.
Proof. unfold sizes. rewrite fmap_replicate. done. Qed.

Lemma total_zero n : total (replicate n 0) = 0.
Proof. unfold total. induction n; cbn in *; lia. Qed.

Lemma count_replicate {A} (p : A -> bool) n x : p x = false -> count p (replicate n x) = 0.
Proof. intros Hp. unfold count. rewrite fmap_replicate, Hp. apply total_zero. Qed.

(** A store whose counters are zero. *)
Lemma zero_counts kvs n : num_dicts kvs = Z.of_nat n -> key_count kvs = 0 -> non_empty_dicts kvs = 0 ->
  dict_size_index kvs = (if num_dicts kvs =? 1 then [] else replicate (Z.to_nat (num_dicts kvs + 1)) 0) -> counts_ok kvs (replicate n ∅).
Proof.
  intros Hn H1 H2 H3. assert (Hz : total (sizes (replicate n ∅)) = 0) by (rewrite zero_sizes; apply total_zero).
  split; [lia|rewrite Hz; done|by rewrite count_replicate|].
  rewrite H3. destruct (num_dicts kvs =? 1); [done|]. rewrite zero_sizes, Hn. rewrite <- (Nat2Z.id n) at 2. apply index_ok_zero. lia.
Qed.

Lemma kvstoreEmpty_ok kvs ms : kvs_ok kvs ms -> exists kvs', kvstoreEmpty kvs = Some kvs' /\ kvs_ok kvs' (replicate (length ms) ∅).
Proof.
  intros [Hs Hc]. unfold kvstoreEmpty. pose proof (ks_len _ _ Hs) as Hlen.
  destruct (empty_dicts_ok (Z.to_nat (num_dicts kvs)) kvs ms 0 Hs) as (kvs1 & -> & Hs1 & (E1 & E2 & E3 & E4)); [done|lia|].
  cbn [mbind option_bind]. eexists. split; [done|]. change (take (Z.to_nat 0) ms) with (@nil (gmap K V)) in Hs1. rewrite app_nil_l in Hs1.
  replace (Z.to_nat (num_dicts kvs)) with (length ms) in Hs1 by lia. destruct Hs1 as [? ? ? ? ? ?]. split.
  - split; [done..|]. cbn. lia.
  - apply zero_counts; cbn; [lia|done|done|]. pose proof (kc_index _ _ Hc) as Hix. rewrite E4, E1.
    destruct (num_dicts kvs =? 1); [by rewrite Hix|]. pose proof (ix_length _ _ _ Hix). destruct (dict_size_index kvs); [cbn in *; lia|done].
Qed.

(** * Creation *)

Lemma create_dicts_ok n : forall kvs ms i, kvs_ok kvs ms -> 0 <= i -> i + Z.of_nat n <= Z.of_nat (length ms) ->
  exists kvs', create_dicts n kvs i = Some kvs' /\ kvs_ok kvs' ms.
Proof.
  induction n as [|n IH]; intros kvs ms i Hk Hi Hn; cbn [create_dicts]; [by exists kvs|]. pose proof (ks_len _ _ (proj1 Hk)).
  destruct (createDictIfNeeded_ok kvs ms i Hk ltac:(lia)) as (kvs' & d & m & -> & Hk' & _). cbn [mbind option_bind]. apply IH; [done|lia..].
Qed.

Lemma kvstoreCreate_ok bits od fe : 0 <= bits <= 16 ->
  exists kvs, kvstoreCreate bits od fe = Some kvs /\ kvs_ok kvs (replicate (Z.to_nat (2 ^ bits)) ∅).
Proof.
  intros Hb. unfold kvstoreCreate. rewrite (proj2 (Z.leb_le bits 16)), Z.shiftl_1_l by lia. cbn [guard mbind option_bind].
  pose proof (pow2_pos bits ltac:(lia)) as Hp.
  match goal with |- context [mkKvs ?a ?b ?c ?d ?e ?f ?g ?h ?i ?j] => set (kvs := mkKvs a b c d e f g h i j) end.
  assert (Hk : kvs_ok kvs (replicate (Z.to_nat (2 ^ bits)) ∅)).
  { split.
    - split; subst kvs; cbn [num_dicts_bits num_dicts dicts allocated_dicts resize_cursor];
        [done|done|rewrite length_replicate; lia|by apply Forall2_replicate|by rewrite count_replicate|lia].
    - apply zero_counts; cbn; [lia|done|done|]. destruct (Z.gtb_spec (2 ^ bits) 1), (Z.eqb_spec (2 ^ bits) 1); done || lia. }
  destruct od; cbn [negb]; [by exists kvs|]. apply create_dicts_ok; [done|lia|]. rewrite length_replicate. lia.
Qed.

End Invariant.

(** * Any sequence of operations *)

Section Run.
Context {K V : Type} `{Countable K} `{DT : DictType K} `{DL : !DictLaws K}.

Abbreviation kvstore := (kvstore K V).

Inductive kvs_op :=
| DictAdd (didx : Z) (k : K) (v : V) | DictFind (didx : Z) (k : K) | DictFetch (didx : Z) (k : K) | DictDelete (didx : Z) (k : K)
| DictTwoPhaseUnlink (didx : Z) (k : K) | DictExpand (didx size : Z) | ExpandAll (newsize : Z) (try_expand alloc_ok : bool) (skip_cb : Z -> bool)
| TryResizeDicts (limit : Z) | EmptyAll | Size | DictSize (didx : Z) | NumNonEmptyDicts | FindDictIndexByKeyIndex (target : Z)
| GetFairRandomDictIndex (random : Z) | GetFirstNonEmptyDictIndex | GetNextNonEmptyDictIndex (didx : Z).

Inductive kvs_answer := KBool (b : bool) | KEntry (e : option (K * V)) | KValue (v : option V) | KNum (n : Z) | KDone.

Definition kvs_step (mode : dictResizeEnable) (kvs : kvstore) (op : kvs_op) : option (kvstore * kvs_answer) :=
  match op with
  | DictAdd i k v => '(kvs, b) ← kvstoreDictAddRaw mode kvs i k v; Some (kvs, KBool b)
  | DictFind i k => '(kvs, e) ← kvstoreDictFind mode kvs i k; Some (kvs, KEntry e)
  | DictFetch i k => '(kvs, v) ← kvstoreDictFetchValue mode kvs i k; Some (kvs, KValue v)
  | DictDelete i k => '(kvs, b) ← kvstoreDictDelete mode kvs i k; Some (kvs, KBool b)
  | DictTwoPhaseUnlink i k => '(kvs, e) ← two_phase mode kvs i k; Some (kvs, KEntry e)
  | DictExpand i n => '(kvs, _) ← kvstoreDictExpand mode kvs i n; Some (kvs, KDone)
  | ExpandAll n t a s => '(kvs, _) ← kvstoreExpand mode kvs n t a s; Some (kvs, KDone)
  | TryResizeDicts n => kvs ← kvstoreTryResizeDicts mode kvs n; Some (kvs, KDone)
  | EmptyAll => kvs ← kvstoreEmpty kvs; Some (kvs, KDone)
  | Size => n ← kvstoreSize kvs; Some (kvs, KNum n)
  | DictSize i => n ← kvstoreDictSize kvs i; Some (kvs, KNum n)
  | NumNonEmptyDicts => Some (kvs, KNum (kvstoreNumNonEmptyDicts kvs))
  | FindDictIndexByKeyIndex t => n ← kvstoreFindDictIndexByKeyIndex kvs t; Some (kvs, KNum n)
  | GetFairRandomDictIndex r => n ← kvstoreGetFairRandomDictIndex kvs r; Some (kvs, KNum n)
  | GetFirstNonEmptyDictIndex => n ← kvstoreGetFirstNonEmptyDictIndex kvs; Some (kvs, KNum n)
  | GetNextNonEmptyDictIndex i => n ← kvstoreGetNextNonEmptyDictIndex kvs i; Some (kvs, KNum n)
  end.

(** The same operations on an array of finite maps. *)
Definition at_map (ms : list (gmap K V)) (i : Z) : gmap K V := default ∅ (ms !! Z.to_nat i).
Definition set_map (ms : list (gmap K V)) (i : Z) (m : gmap K V) : list (gmap K V) := <[Z.to_nat i := m]> ms.

Definition maps_step (ms : list (gmap K V)) (op : kvs_op) : list (gmap K V) * kvs_answer :=
  match op with
  | DictAdd i k v =>
    let absent := bool_decide (at_map ms i !! k = None) in
    (if absent then set_map ms i (<[k := v]> (at_map ms i)) else ms, KBool absent)
  | DictFind i k => (ms, KEntry (pair k <$> at_map ms i !! k))
  | DictFetch i k => (ms, KValue (at_map ms i !! k))
  | DictDelete i k => (set_map ms i (delete k (at_map ms i)), KBool (bool_decide (is_Some (at_map ms i !! k))))
  | DictTwoPhaseUnlink i k => (set_map ms i (delete k (at_map ms i)), KEntry (pair k <$> at_map ms i !! k))
  | EmptyAll => (replicate (length ms) ∅, KDone)
  | Size => (ms, KNum (total (sizes ms)))
  | DictSize i => (ms, KNum (Z.of_nat (size (at_map ms i))))
  | NumNonEmptyDicts => (ms, KNum (count non_empty ms))
  | FindDictIndexByKeyIndex t => (ms, KNum (locate ms t))
  | GetFairRandomDictIndex r => (ms, KNum (if total (sizes ms) =? 0 then 0 else locate ms (r mod total (sizes ms) + 1)))
  | GetFirstNonEmptyDictIndex => (ms, KNum (first_index ms))
  | GetNextNonEmptyDictIndex i => (ms, KNum (next_from ms (i + 1)))
  | DictExpand _ _ | ExpandAll _ _ _ _ | TryResizeDicts _ => (ms, KDone)
  end.

(** The index of a dictionary is in range, and the key that is looked for is one of the store. *)
Definition kvs_op_valid (ms : list (gmap K V)) (op : kvs_op) : bool :=
  let in_range i := (0 <=? i) && (i <? Z.of_nat (length ms)) in
  match op with
  | DictAdd i _ _ | DictFind i _ | DictFetch i _ | DictDelete i _ | DictTwoPhaseUnlink i _ | DictSize i | GetNextNonEmptyDictIndex i => in_range i
  | DictExpand i n => in_range i && (0 <=? n)
  | ExpandAll n _ _ _ => 0 <=? n
  | FindDictIndexByKeyIndex t => (1 <=? t) && (t <=? total (sizes ms))
  | _ => true
  end.

Fixpoint kvs_run (kvs : kvstore) (ops : list (dictResizeEnable * kvs_op)) : option (kvstore * list kvs_answer) :=
  match ops with
  | [] => Some (kvs, [])
  | (mode, op) :: ops => '(kvs, a) ← kvs_step mode kvs op; '(kvs, l) ← kvs_run kvs ops; Some (kvs, a :: l)
  end.

Fixpoint maps_run (ms : list (gmap K V)) (ops : list (dictResizeEnable * kvs_op)) : list (gmap K V) * list kvs_answer :=
  match ops with
  | [] => (ms, [])
  | (_, op) :: ops => let '(ms, a) := maps_step ms op in let '(ms, l) := maps_run ms ops in (ms, a :: l)
  end.

Fixpoint ops_valid (ms : list (gmap K V)) (ops : list (dictResizeEnable * kvs_op)) : bool :=
  match ops with [] => true | (_, op) :: ops => kvs_op_valid ms op && ops_valid (maps_step ms op).1 ops end.

Lemma range_ok kvs ms i : kvs_ok kvs ms -> (0 <=? i) && (i <? Z.of_nat (length ms)) = true ->
  0 <= i < num_dicts kvs /\ ms !! Z.to_nat i = Some (at_map ms i).
Proof.
  intros [Hs _] Hi. apply andb_true_iff in Hi as [Hi1 Hi2]. apply Z.leb_le in Hi1. apply Z.ltb_lt in Hi2.
  pose proof (ks_len _ _ Hs). split; [lia|]. unfold at_map. destruct (lookup_lt_is_Some_2 ms (Z.to_nat i)) as [m ->]; [lia|done].
Qed.

Lemma kvs_step_ok mode kvs ms op : kvs_ok kvs ms -> kvs_op_valid ms op = true -> total (sizes ms) < max_entries ->
  exists kvs' a, kvs_step mode kvs op = Some (kvs', a) /\ maps_step ms op = ((maps_step ms op).1, a) /\ kvs_ok kvs' (maps_step ms op).1.
Proof.
  intros Hk Hv Ht. destruct op as [i k v|i k|i k|i k|i k|i n|n t al sk|n| | |i| |T|r| |i]; cbn [kvs_step maps_step kvs_op_valid fst] in *.
  1-5: destruct (range_ok _ _ _ Hk Hv) as [Hi Hm].
  - destruct (kvstoreDictAddRaw_ok mode kvs ms i _ k v Hk Hi Hm Ht) as (kvs' & -> & Hk'). by eexists _, _.
  - destruct (kvstoreDictFind_ok mode kvs ms i _ k Hk Hi Hm) as (kvs' & -> & Hk'). by eexists _, _.
  - destruct (kvstoreDictFetchValue_ok mode kvs ms i _ k Hk Hi Hm) as (kvs' & -> & Hk'). by eexists _, _.
  - destruct (kvstoreDictDelete_ok mode kvs ms i _ k Hk Hi Hm) as (kvs' & -> & Hk'). by eexists _, _.
  - destruct (two_phase_ok mode kvs ms i _ k Hk Hi Hm) as (kvs' & -> & Hk'). by eexists _, _.
  - apply andb_true_iff in Hv as [Hv Hn]. destruct (range_ok _ _ _ Hk Hv) as [Hi _]. apply Z.leb_le in Hn.
    destruct (kvstoreDictExpand_ok mode kvs ms i n Hk Hi Hn) as (kvs' & b & -> & Hk'). by eexists _, _.
  - apply Z.leb_le in Hv. pose proof (ks_len _ _ (proj1 Hk)). unfold kvstoreExpand.
    destruct (expand_dicts_ok mode n t al sk (Z.to_nat (num_dicts kvs)) kvs ms 0 Hk) as (kvs' & b & -> & Hk'); [lia..|]. by eexists _, _.
  - destruct (resize_dicts_ok mode (Z.to_nat (if n >? num_dicts kvs then num_dicts kvs else n)) kvs ms Hk) as (kvs' & Hr & Hk').
    unfold kvstoreTryResizeDicts. rewrite Hr. by eexists _, _.
  - destruct (kvstoreEmpty_ok kvs ms Hk) as (kvs' & -> & Hk'). by eexists _, _.
  - rewrite (kvstoreSize_ok _ _ Hk). by eexists _, _.
  - destruct (range_ok _ _ _ Hk Hv) as [Hi Hm]. destruct (kvstoreDictSize_ok kvs ms i (proj1 Hk) Hi) as (m & Hm' & ->).
    rewrite Hm in Hm'. injection Hm' as <-. by eexists _, _.
  - rewrite <- (kc_non_empty _ _ (proj2 Hk)). by eexists _, _.
  - apply andb_true_iff in Hv as [H1 H2]. apply Z.leb_le in H1. apply Z.leb_le in H2. rewrite (locate_ok _ _ _ Hk) by lia. by eexists _, _.
  - unfold kvstoreGetFairRandomDictIndex. rewrite (kvstoreSize_ok _ _ Hk). cbn [mbind option_bind]. pose proof (total_nonneg _ (sizes_nonneg ms)).
    destruct (Z.eqb_spec (total (sizes ms)) 0) as [E|E]; cbn [negb].
    + unfold kvstoreFindDictIndexByKeyIndex. rewrite (kvstoreSize_ok _ _ Hk), E. cbn [mbind option_bind]. rewrite orb_true_r. by eexists _, _.
    + pose proof (Z.mod_pos_bound r (total (sizes ms)) ltac:(lia)). rewrite (locate_ok _ _ _ Hk) by lia. by eexists _, _.
  - rewrite (kvstoreGetFirstNonEmptyDictIndex_ok _ _ Hk). by eexists _, _.
  - destruct (range_ok _ _ _ Hk Hv) as [Hi _]. rewrite (kvstoreGetNextNonEmptyDictIndex_ok _ _ _ Hk Hi). by eexists _, _.
Qed.

Lemma kv_set_total ms i m : (Z.of_nat (size m) <= Z.of_nat (size (at_map ms i)) + 1) -> total (sizes (set_map ms i m)) <= total (sizes ms) + 1.
Proof.
  intros Hs. unfold set_map, at_map in *. destruct (ms !! Z.to_nat i) as [m0|] eqn:E; cbn in Hs.
  - rewrite sizes_insert, (total_insert _ _ _ _ (sizes_lookup _ _ _ E)). lia.
  - rewrite list_insert_ge by (by apply lookup_ge_None). lia.
Qed.

Lemma maps_step_total ms op : total (sizes (maps_step ms op).1) <= total (sizes ms) + 1.
Proof.
  pose proof (total_nonneg _ (sizes_nonneg ms)).
  destruct op; cbn [maps_step fst]; try lia.
  - destruct (bool_decide _); [|lia]. apply kv_set_total. rewrite map_size_insert. destruct (_ !! _); cbn; lia.
  - apply kv_set_total. rewrite map_size_delete. destruct (_ !! _); cbn; lia.
  - apply kv_set_total. rewrite map_size_delete. destruct (_ !! _); cbn; lia.
  - rewrite zero_sizes, total_zero. lia.
Qed.

Lemma kvs_run_ok ops : forall kvs ms, kvs_ok kvs ms -> ops_valid ms ops = true -> total (sizes ms) + Z.of_nat (length ops) <= max_entries ->
  exists kvs' l ms', kvs_run kvs ops = Some (kvs', l) /\ maps_run ms ops = (ms', l) /\ kvs_ok kvs' ms'.
Proof.
  induction ops as [|[mode op] ops IH]; intros kvs ms Hk Hv Ht; cbn [kvs_run maps_run]; [by exists kvs, [], ms|].
  cbn [ops_valid length] in *. apply andb_true_iff in Hv as [Hv Hvs].
  destruct (kvs_step_ok mode kvs ms op Hk Hv ltac:(lia)) as (kvs1 & a & -> & -> & Hk1). cbn [mbind option_bind].
  pose proof (maps_step_total ms op). destruct (IH kvs1 (maps_step ms op).1 Hk1 Hvs ltac:(lia)) as (kvs' & l & ms' & -> & -> & Hk'). by eexists _, _, _.
Qed.

(** C8. A key-value store is an array of finite maps: from a store of 2^bits dictionaries, whether
    they are allocated on demand and freed when empty or not, any sequence of fewer than 2^62
    operations runs without an access out of an array, a NULL dereference or a failed assertion
    and gives the answers of the same operations on 2^bits finite maps: additions, lookups,
    deletions in one or two phases, the number of keys of the store and of a dictionary, the
    number of dictionaries that are not empty, the dictionary of the n-th key (the search in the
    binary indexed tree), the one of a random key, and the first and the next that are not empty.
    At the end the dictionaries, the counters and the tree are those of the maps. *)
Theorem kvstore_refines_maps (bits : Z) (on_demand free_empty : bool) (ops : list (dictResizeEnable * kvs_op)) : 0 <= bits <= 16 ->
  ops_valid (replicate (Z.to_nat (2 ^ bits)) ∅) ops = true -> Z.of_nat (length ops) <= max_entries ->
  exists kvs0 kvs l ms, kvstoreCreate bits on_demand free_empty = Some kvs0 /\ kvs_run kvs0 ops = Some (kvs, l) /\
    maps_run (replicate (Z.to_nat (2 ^ bits)) ∅) ops = (ms, l) /\ kvs_ok kvs ms.
Proof.
  intros Hb Hv Hl. destruct (kvstoreCreate_ok (K := K) (V := V) bits on_demand free_empty Hb) as (kvs0 & Hc0 & Hk0).
  destruct (kvs_run_ok ops kvs0 _ Hk0 Hv) as (kvs & l & ms & Hr & Hm & Hk); [rewrite zero_sizes, total_zero; lia|]. by exists kvs0, kvs, l, ms.
Qed.

End Run.

Module Sample.
Import DictSpec.Sample.

Definition sample_ops : list (dictResizeEnable * kvs_op (K := Z) (V := Z)) :=
  map (fun i => (DICT_RESIZE_ENABLE, DictAdd (i mod 5) (i * 7) i)) (seqZ 0 30) ++
  map (pair DICT_RESIZE_ENABLE) [Size; DictSize 3; FindDictIndexByKeyIndex 13; GetFairRandomDictIndex 1000; DictDelete 2 14;
    DictTwoPhaseUnlink 2 49; DictFind 1 7; NumNonEmptyDicts; GetFirstNonEmptyDictIndex; GetNextNonEmptyDictIndex 2;
    GetNextNonEmptyDictIndex 4; TryResizeDicts 16; ExpandAll 64 true true (fun i => i =? 1); EmptyAll; Size].

Lemma kvstore_refines_maps_witness :
  exists kvs0 kvs l ms, kvstoreCreate 3 true true = Some kvs0 /\ kvs_run kvs0 sample_ops = Some (kvs, l) /\
    maps_run (replicate (Z.to_nat (2 ^ 3)) ∅) sample_ops = (ms, l) /\ kvs_ok kvs ms.
Proof. apply (kvstore_refines_maps 3 true true sample_ops); [lia|by vm_compute|done]. Defined.

(** The store of the sample finds the dictionaries of its keys. *)
Lemma sample_answers : option_map snd (kvs0 ← kvstoreCreate 3 true true; kvs_run kvs0 sample_ops) =
  Some (repeat (KBool true) 30 ++ [KNum 30; KNum 6; KNum 2; KNum 1; KBool true; KEntry (Some (49, 7)); KEntry (Some (7, 1)); KNum 5; KNum 0; KNum 3; KNum (-1);
    KDone; KDone; KDone; KNum 0]).
Proof. by vm_compute. Qed.

End Sample.

End KvstoreSpec.
