(* ===== verification/KvScanSpec.v ===== *)
(** The guarantee of [kvstoreScan] (kvstore.c): the cursor, which holds the index of a dictionary
    in its low bits and the position in the dictionary above them, goes through all the
    dictionaries of the store. *)

From S2P Require Import Prelude Bits Dict DictSpec DictScan Kvstore KvIndexSpec KvstoreSpec.

Module KvScanSpec.
Import Dict DictSpec DictScan Kvstore KvIndexSpec KvstoreSpec.

Section Scan.
Context {K V : Type} `{Countable K} `{DT : DictType K} `{DL : !DictLaws K}.

Abbreviation dict := (dict K V).
Abbreviation kvstore := (kvstore K V).

(** * Cursors *)

(** The place of a cursor in the order of the iteration: the dictionaries in order, and the
    reversed cursor in each. *)
Definition position (bits c : Z) : Z := c mod 2 ^ bits * 2 ^ 64 + rev (c / 2 ^ bits).

Definition key_position (i : Z) (k : K) : Z := i * 2 ^ 64 + place k.

Lemma place_range k : 0 <= place k < 2 ^ 64.
Proof. apply rev_range. Qed.

Lemma get_cursor_ok (kvs : kvstore) ms c : slots_ok kvs ms ->
  getAndClearDictIndexFromCursor kvs c = (c mod 2 ^ num_dicts_bits kvs, c / 2 ^ num_dicts_bits kvs).
Proof.
  intros Hs. unfold getAndClearDictIndexFromCursor. pose proof (ks_bits _ _ Hs) as Hb. rewrite (ks_num _ _ Hs).
  destruct (Z.eqb_spec (2 ^ num_dicts_bits kvs) 1) as [E|E]; [by rewrite E, Z.mod_1_r, Z.div_1_r|].
  rewrite Z.shiftr_div_pow2 by lia. rewrite Z.sub_1_r, <- Z.ones_equiv, land_ones_mod by lia. done.
Qed.

Lemma add_cursor_ok (kvs : kvstore) ms didx v : slots_ok kvs ms -> 0 <= didx < num_dicts kvs -> 0 <= v < 2 ^ (64 - num_dicts_bits kvs) ->
  addDictIndexToCursor kvs didx v = v * 2 ^ num_dicts_bits kvs + didx.
Proof.
  intros Hs Hd Hv. unfold addDictIndexToCursor. pose proof (ks_bits _ _ Hs) as Hb. rewrite (ks_num _ _ Hs) in *.
  rewrite (proj2 (Z.ltb_ge didx 0)), orb_false_r by lia. destruct (Z.eqb_spec (2 ^ num_dicts_bits kvs) 1) as [E|E]; [rewrite E in *; lia|].
  rewrite Z.shiftl_mul_pow2 by lia. rewrite uwrap_small.
  - rewrite Z.lor_comm, lor_add by lia. lia.
  - unfold urange. replace 64 with (64 - num_dicts_bits kvs + num_dicts_bits kvs) by lia. rewrite Z.pow_add_r by lia.
    pose proof (pow2_pos (num_dicts_bits kvs) ltac:(lia)). nia.
Qed.

Lemma position_encode bits didx v : 0 <= bits -> 0 <= didx < 2 ^ bits -> position bits (v * 2 ^ bits + didx) = didx * 2 ^ 64 + rev v.
Proof.
  intros Hb Hd. unfold position. rewrite (Z.add_comm (v * _)), Z.mod_add, Z.div_add, Z.mod_small, Z.div_small by lia. done.
Qed.

(** * The next dictionary *)

Lemma next_from_spec (ms : list (gmap K V)) i j m : 0 <= i -> ms !! Z.to_nat j = Some m -> i <= j -> m <> ∅ ->
  i <= next_from ms i <= j /\ next_from ms i < Z.of_nat (length ms).
Proof.
  intros Hi Hm Hij Hne. assert (Hn : non_empty m = true).
  { unfold non_empty. apply negb_true_iff, Z.eqb_neq. intros E. apply Hne, map_size_empty_inv. lia. }
  assert (Hl : drop (Z.to_nat i) ms !! Z.to_nat (j - i) = Some m).
  { rewrite lookup_drop. by replace (Z.to_nat i + Z.to_nat (j - i))%nat with (Z.to_nat j) by lia. }
  unfold next_from. destruct (list_find _ _) as [[n m']|] eqn:E.
  - apply list_find_Some in E as (Hl' & _ & Hfirst). pose proof (lookup_lt_Some _ _ _ Hl') as Hlt. rewrite length_drop in Hlt.
    destruct (Nat.le_gt_cases n (Z.to_nat (j - i))); [split; lia|]. by destruct (Hfirst _ _ Hl).
  - apply list_find_None in E. rewrite Forall_lookup in E. by destruct (E _ _ Hl).
Qed.

Lemma next_from_range (ms : list (gmap K V)) i : 0 <= i -> next_from ms i = -1 \/ i <= next_from ms i < Z.of_nat (length ms).
Proof.
  intros Hi. unfold next_from. destruct (list_find _ _) as [[n m]|] eqn:E; [right|by left].
  apply list_find_Some in E as (Hl & _). apply lookup_lt_Some in Hl. rewrite length_drop in Hl. lia.
Qed.

(** * One call *)

Context (onlydidx : Z) (skip_cb : dict -> bool).

(** The entry is in a dictionary the scan is asked for. *)
Definition present (kvs : kvstore) (i : Z) (x : K * V) : Prop :=
  (onlydidx < 0 \/ i = onlydidx) /\ 0 <= i /\ exists d, dicts kvs !! Z.to_nat i = Some (Some d) /\ skip_cb d = false /\ x ∈ entries d.

(** The tables leave room for the index of the dictionary in a 64-bit cursor. *)
Definition cursor_room (kvs : kvstore) : Prop :=
  forall i d, dicts kvs !! i = Some (Some d) -> ht_size_exp (ht0 d) + num_dicts_bits kvs <= 64.

Lemma present_slot kvs ms i x : slots_ok kvs ms -> present kvs i x ->
  exists m, ms !! Z.to_nat i = Some m /\ m <> ∅ /\ i < num_dicts kvs.
Proof.
  intros Hs (_ & Hi & d & Hd & _ & Hx). destruct (Forall2_lookup_l _ _ _ _ _ (ks_slots _ _ Hs) Hd) as (m & Hm & Hdk & _ & E).
  exists m. split; [done|]. split; [|apply lookup_lt_Some in Hm; pose proof (ks_len _ _ Hs); lia].
  rewrite <- E. intros Ee. destruct x as [k v]. apply (dmap_elem _ _ _ Hdk) in Hx. by rewrite Ee in Hx.
Qed.

(** The move to the next dictionary, once [didx] has been scanned to its end. *)
Lemma next_dict_ok kvs kvs1 ms didx (es : list (K * V)) : slots_ok kvs ms -> kvs_ok kvs1 ms -> num_dicts_bits kvs1 = num_dicts_bits kvs ->
  0 <= didx < num_dicts kvs -> onlydidx < 0 \/ didx = onlydidx ->
  exists c', (if onlydidx >=? 0 then Some (kvs1, 0, es)
    else didx ← kvstoreGetNextNonEmptyDictIndex kvs1 didx; if didx =? -1 then Some (kvs1, 0, es) else Some (kvs1, addDictIndexToCursor kvs1 didx 0, es))
      = Some (kvs1, c', es) /\
    (c' = 0 \/ (didx + 1) * 2 ^ 64 <= position (num_dicts_bits kvs) c') /\
    forall i x, present kvs i x -> didx < i -> c' <> 0 /\ position (num_dicts_bits kvs) c' <= key_position i x.1.
Proof.
  intros Hs Hk Eb Hd Ho. assert (En : num_dicts kvs1 = num_dicts kvs) by (by rewrite (ks_num _ _ (proj1 Hk)), Eb, (ks_num _ _ Hs)).
  destruct (Z.geb_spec onlydidx 0) as [Hge|Hlt].
  { exists 0. split; [done|]. split; [by left|]. intros i x (Hi & _). lia. }
  rewrite (kvstoreGetNextNonEmptyDictIndex_ok _ _ _ Hk) by lia. cbn [mbind option_bind].
  pose proof (ks_len _ _ Hs) as Hlen. pose proof (ks_bits _ _ Hs). pose proof (ks_num _ _ Hs) as Hnum.
  destruct (next_from_range ms (didx + 1) ltac:(lia)) as [E|Hr].
  - exists 0. rewrite E. split; [done|]. split; [by left|]. intros i x Hx Hi. destruct (present_slot _ _ _ _ Hs Hx) as (m & Hm & Hne & _).
    pose proof (next_from_spec ms (didx + 1) i m ltac:(lia) Hm ltac:(lia) Hne). lia.
  - rewrite (proj2 (Z.eqb_neq _ (-1))) by lia.
    rewrite (add_cursor_ok kvs1 ms _ 0 (proj1 Hk)); [|lia|split; [done|apply pow2_pos; rewrite Eb; lia]]. rewrite Eb.
    eexists. split; [done|]. rewrite position_encode by lia. change (rev 0) with 0. split; [right; lia|].
    intros i x Hx Hi. destruct (present_slot _ _ _ _ Hs Hx) as (m & Hm & Hne & _).
    pose proof (next_from_spec ms (didx + 1) i m ltac:(lia) Hm ltac:(lia) Hne). pose proof (place_range x.1). unfold key_position. split; nia.
Qed.

(** What the scan of one dictionary and the move to the next give, from the position [p]. *)
Definition scanned_from (kvs : kvstore) (p c' : Z) (es : list (K * V)) : Prop :=
  (c' = 0 \/ p < position (num_dicts_bits kvs) c') /\
  (forall x, x ∈ es -> exists i, present kvs i x) /\
  (forall i x, present kvs i x -> p <= key_position i x.1 -> c' = 0 \/ key_position i x.1 < position (num_dicts_bits kvs) c' -> x ∈ es).

Lemma key_before i j k p : i < j -> 0 <= p -> key_position i k < j * 2 ^ 64 + p.
Proof. intros Hij Hp. unfold key_position. pose proof (place_range k). nia. Qed.

(** The dictionary has been scanned to its end, or has nothing for the callback. *)
Lemma dict_done kvs kvs1 ms didx v (es : list (K * V)) : slots_ok kvs ms -> kvs_ok kvs1 ms -> num_dicts_bits kvs1 = num_dicts_bits kvs ->
  0 <= didx < num_dicts kvs -> onlydidx < 0 \/ didx = onlydidx ->
  (forall x, x ∈ es -> present kvs didx x) -> (forall x, present kvs didx x -> rev v <= place x.1 -> x ∈ es) ->
  exists c', (if onlydidx >=? 0 then Some (kvs1, 0, es)
    else didx ← kvstoreGetNextNonEmptyDictIndex kvs1 didx; if didx =? -1 then Some (kvs1, 0, es) else Some (kvs1, addDictIndexToCursor kvs1 didx 0, es))
      = Some (kvs1, c', es) /\ scanned_from kvs (didx * 2 ^ 64 + rev v) c' es.
Proof.
  intros Hs Hk Eb Hd Ho Hsub Hin. destruct (next_dict_ok kvs kvs1 ms didx es Hs Hk Eb Hd Ho) as (c' & Heq & Hpos & Hnext).
  exists c'. split; [done|]. pose proof (rev_range v) as [Hv0 Hv1]. split_and!.
  - destruct Hpos; [by left|right; lia].
  - intros x Hx. exists didx. by apply Hsub.
  - intros i x Hx Hp Hu. destruct (Z.lt_trichotomy i didx) as [Hlt|[->|Hgt]].
    + pose proof (key_before i didx x.1 (rev v) Hlt Hv0). lia.
    + apply Hin; [done|]. unfold key_position in Hp. lia.
    + destruct (Hnext i x Hx Hgt). lia.
Qed.

Lemma scan_dict_ok kvs ms didx v : kvs_ok kvs ms -> cursor_room kvs -> 0 <= didx < num_dicts kvs -> onlydidx < 0 \/ didx = onlydidx ->
  exists kvs' c' es, scan_dict kvs didx v onlydidx skip_cb = Some (kvs', c', es) /\ kvs_ok kvs' ms /\
    scanned_from kvs (didx * 2 ^ 64 + rev v) c' es.
Proof.
  intros Hk Hroom Hd Ho. pose proof (proj1 Hk) as Hs. unfold scan_dict. destruct (kv_get_ok _ _ _ Hs Hd) as (od & m & -> & Hl & Hm & Hok).
  cbn [mbind option_bind].
  assert (Hnone : (forall x, ~ present kvs didx x) -> exists kvs' c' es,
    (if onlydidx >=? 0 then Some (kvs, 0, [])
     else didx ← kvstoreGetNextNonEmptyDictIndex kvs didx; if didx =? -1 then Some (kvs, 0, []) else Some (kvs, addDictIndexToCursor kvs didx 0, []))
      = Some (kvs', c', es) /\ kvs_ok kvs' ms /\ scanned_from kvs (didx * 2 ^ 64 + rev v) c' es).
  { intros Hno. destruct (dict_done kvs kvs ms didx v [] Hs Hk eq_refl Hd Ho) as (c' & -> & Hsc);
      [by intros x ?%not_elem_of_nil|intros x Hx; by destruct (Hno x)|by exists kvs, c', []]. }
  destruct od as [d|]; [|apply Hnone; intros x (_ & _ & d & Hd' & _); congruence].
  destruct (skip_cb d) eqn:Hskip; [apply Hnone; intros x (_ & _ & d' & Hd' & ? & _); congruence|]. clear Hnone.
  pose proof Hok as (Hdk & Ha & Em). destruct (scan_call_ok d v Hdk) as (d' & v' & es & -> & (Hr & Hprog & Hsub & Hin & Hsmall) & Hdk' & Ee & Ea).
  cbn [mbind option_bind].
  assert (Hok' : slot_ok (Some d') m) by (split_and!; [done|congruence|rewrite <- Em; unfold dmap; by rewrite Ee]).
  destruct (freeDictIfNeeded_ok _ _ didx (proj1 (set_same_ok _ _ _ _ _ _ Hk Hl Hm Hok')) Hd) as (kvs1 & -> & Hs1 & Hsc). cbn [mbind option_bind].
  assert (Hk1 : kvs_ok kvs1 ms) by (split; [done|]; apply (counts_same _ _ _ Hsc), (set_same_ok _ _ _ _ _ _ Hk Hl Hm Hok')).
  assert (Eb : num_dicts_bits kvs1 = num_dicts_bits kvs).
  { destruct Hsc as (En & _). cbn [num_dicts with_dict] in En. rewrite (ks_num _ _ Hs), (ks_num _ _ Hs1) in En.
    apply (Z.pow_inj_r 2) in En; [done|lia|apply Hs1|apply Hs]. }
  assert (Hpre : forall x, present kvs didx x <-> x ∈ entries d).
  { intros x. split; [intros (_ & _ & d0 & Hd0 & _ & Hx); congruence|]. intros Hx. split; [lia|]. split; [lia|]. by exists d. }
  destruct (Z.eqb_spec v' 0) as [->|Hv']; cbn [orb].
  - destruct (dict_done kvs kvs1 ms didx v es Hs Hk1 Eb Hd Ho) as (c' & -> & Hc'); [| |by exists kvs1, c', es].
    + intros x Hx. by apply Hpre, Hsub.
    + intros x Hx Hp. apply Hin; [by apply Hpre|done|by left].
  - destruct Hprog as [|Hprog]; [done|]. destruct Hsmall as [|Hsmall]; [done|]. pose proof (Hroom _ _ Hl) as Hrm. pose proof (ks_bits _ _ Hs).
    pose proof (ks_num _ _ Hs). rewrite (add_cursor_ok kvs1 ms didx v' Hs1).
    2: { by rewrite (proj1 Hsc). }
    2: { rewrite Eb. split; [apply Hr|]. eapply Z.lt_le_trans; [exact Hsmall|]. apply Z.pow_le_mono_r; lia. }
    rewrite Eb. eexists _, _, es. split; [done|]. split; [done|]. pose proof (pow2_pos (num_dicts_bits kvs) ltac:(lia)) as Hp2.
    pose proof (rev_range v') as [Hv0 Hv1]. pose proof (rev_range v) as [Hw0 Hw1]. destruct Hr as [Hr0 _].
    unfold scanned_from. rewrite position_encode by lia. split_and!; [right; lia|intros x Hx; exists didx; by apply Hpre, Hsub|].
    intros i x Hx Hp [Hz|Hu]; [nia|]. destruct (Z.lt_trichotomy i didx) as [Hlt|[->|Hgt]].
    + pose proof (key_before i didx x.1 (rev v) Hlt Hw0). lia.
    + unfold key_position in *. apply Hin; [by apply Hpre|lia|right; lia].
    + pose proof (place_range x.1). unfold key_position in Hu. nia.
Qed.

Lemma kvstoreScan_ok kvs ms c : kvs_ok kvs ms -> cursor_room kvs -> onlydidx < num_dicts kvs ->
  exists kvs' c' es, kvstoreScan kvs c onlydidx skip_cb = Some (kvs', c', es) /\ kvs_ok kvs' ms /\
    scanned_from kvs (position (num_dicts_bits kvs) c) c' es.
Proof.
  intros Hk Hroom Ho. pose proof (proj1 Hk) as Hs. unfold kvstoreScan. rewrite (get_cursor_ok _ _ _ Hs). unfold position.
  pose proof (ks_bits _ _ Hs). pose proof (ks_num _ _ Hs) as Hn. pose proof (pow2_pos (num_dicts_bits kvs) ltac:(lia)) as Hp2.
  pose proof (Z.mod_pos_bound c (2 ^ num_dicts_bits kvs) Hp2) as Hb. set (didx := c mod _) in *. set (v := c / _) in *.
  pose proof (rev_range v) as [Hv0 Hv1]. destruct (Z.geb_spec onlydidx 0) as [Hge|Hlt]; cbn [andb]; [|apply scan_dict_ok; [done|done|lia|lia]].
  destruct (Z.ltb_spec didx onlydidx) as [Hl|Hl].
  - rewrite (proj2 (Z.ltb_lt _ _) Ho). cbn [guard mbind option_bind].
    destruct (scan_dict_ok kvs ms onlydidx 0 Hk Hroom) as (kvs' & c' & es & -> & Hk' & (H1 & H2 & H3)); [lia|by right|].
    eexists _, _, _. split; [done|]. split; [done|]. change (rev 0) with 0 in *. split_and!; [destruct H1; [by left|right; lia]|done|].
    intros i x Hx Hp Hu. apply (H3 i x Hx); [|done]. destruct Hx as ([?| ->] & _); [lia|]. unfold key_position. pose proof (place_range x.1). lia.
  - destruct (Z.gtb_spec didx onlydidx) as [Hg|Hg]; [|apply scan_dict_ok; [done|done|lia|right; lia]].
    exists kvs, 0, []. split; [done|]. split; [done|]. split_and!; [by left|by intros x ?%not_elem_of_nil|].
    intros i x ([?| ->] & _) Hp _; [lia|]. pose proof (key_before onlydidx didx x.1 (rev v) Hg Hv0). lia.
Qed.

(** * A whole iteration *)

(** Calls of [kvstoreScan] on the states the store has at the times of the calls, until the
    cursor 0 is returned or the states are exhausted. *)
Fixpoint kvs_scan_run (kvss : list kvstore) (c : Z) : option (Z * list (K * V)) :=
  match kvss with
  | [] => Some (c, [])
  | kvs :: kvss =>
    '(_, c, es) ← kvstoreScan kvs c onlydidx skip_cb;
    if c =? 0 then Some (0, es) else '(c, es') ← kvs_scan_run kvss c; Some (c, es ++ es')
  end.

(** A state the store may have: the dictionaries are not too large for the cursor. *)
Definition state_ok (bits : Z) (kvs : kvstore) : Prop :=
  num_dicts_bits kvs = bits /\ cursor_room kvs /\ exists ms, kvs_ok kvs ms.

Lemma position_range bits c : 0 <= bits -> 0 <= position bits c < 2 ^ (64 + bits).
Proof.
  intros Hb. unfold position. pose proof (rev_range (c / 2 ^ bits)) as [? ?]. pose proof (pow2_pos bits Hb).
  pose proof (Z.mod_pos_bound c (2 ^ bits) ltac:(done)). rewrite Z.pow_add_r by lia. nia.
Qed.

Lemma kvs_scan_run_ok bits kvss : forall c, Forall (state_ok bits) kvss -> kvss <> [] -> onlydidx < 2 ^ bits ->
  exists c' es, kvs_scan_run kvss c = Some (c', es) /\
    (c' = 0 \/ position bits c + Z.of_nat (length kvss) <= position bits c') /\
    (forall x, x ∈ es -> exists kvs i, kvs ∈ kvss /\ present kvs i x) /\
    (c' = 0 -> forall i k, position bits c <= key_position i k ->
       (forall kvs, kvs ∈ kvss -> exists v, present kvs i (k, v)) -> k ∈ map fst es).
Proof.
  induction kvss as [|kvs kvss IH]; intros c Hst Hne Ho; [done|]. cbn [kvs_scan_run]. apply Forall_cons in Hst as [(Eb & Hroom & ms & Hk) Hst].
  destruct (kvstoreScan_ok kvs ms c Hk Hroom) as (kvs' & c1 & es & -> & _ & (Hprog & Hsub & Hin)); [by rewrite (ks_num _ _ (proj1 Hk)), Eb|].
  rewrite Eb in *. cbn [mbind option_bind].
  assert (Hfst : forall i k, position bits c <= key_position i k -> c1 = 0 \/ key_position i k < position bits c1 ->
    (exists v, present kvs i (k, v)) -> k ∈ map fst es).
  { intros i k Hp Hu (v & Hv). apply list_elem_of_fmap. exists (k, v). split; [done|]. by apply (Hin i). }
  assert (Hhere : forall x, x ∈ es -> exists kvs0 i, kvs0 ∈ kvs :: kvss /\ present kvs0 i x).
  { intros x Hx. destruct (Hsub x Hx) as [i Hi]. exists kvs, i. split; [by left|done]. }
  destruct (Z.eqb_spec c1 0) as [->|Hc1].
  { exists 0, es. split_and!; [done|by left|done|]. intros _ i k Hp Hall. apply (Hfst i k Hp); [by left|]. apply Hall. by left. }
  destruct Hprog as [|Hprog]; [done|]. destruct kvss as [|kvs2 kvss].
  { exists c1, es. cbn [kvs_scan_run mbind option_bind length]. rewrite app_nil_r. split_and!; [done|right; lia|done|done]. }
  destruct (IH c1 Hst ltac:(done) Ho) as (c' & es' & -> & Hprog' & Hsub' & Hin'). cbn [mbind option_bind].
  exists c', (es ++ es'). split_and!; [done|destruct Hprog'; [by left|right; cbn [length] in *; lia]| |].
  - intros x [Hx|Hx]%elem_of_app; [by apply Hhere|]. destruct (Hsub' x Hx) as (kvs0 & i & ? & ?). exists kvs0, i. split; [by right|done].
  - intros Hz i k Hp Hall. rewrite map_app, elem_of_app. destruct (Z.lt_ge_cases (key_position i k) (position bits c1)).
    + left. apply (Hfst i k Hp); [by right|]. apply Hall. by left.
    + right. apply (Hin' Hz i k); [done|]. intros kvs0 Hkvs0. apply Hall. by right.
Qed.

(** C14. The guarantee of [kvstoreScan]: an iteration from the cursor 0, over any states of the
    store (its dictionaries may be resized, be rehashed, gain and lose keys, be freed and
    allocated between the calls), over all the dictionaries or over one of them, without those
    the callback skips, never goes out of an array; it gives entries of the dictionaries that
    are asked for, and when it is back at the cursor 0 it has given every key that was all along
    in such a dictionary.  It does come back: otherwise its position, the index of the dictionary
    and then the reversed cursor in it, has grown by one at least with each call, and it is below
    2^(64 + bits). *)
Theorem kvstoreScan_complete (bits : Z) (kvss : list kvstore) : 0 <= bits -> Forall (state_ok bits) kvss -> kvss <> [] -> onlydidx < 2 ^ bits ->
  exists c es, kvs_scan_run kvss 0 = Some (c, es) /\
    (c = 0 \/ Z.of_nat (length kvss) <= position bits c < 2 ^ (64 + bits)) /\
    (forall x, x ∈ es -> exists kvs i, kvs ∈ kvss /\ present kvs i x) /\
    (c = 0 -> forall i k, (forall kvs, kvs ∈ kvss -> exists v, present kvs i (k, v)) -> k ∈ map fst es).
Proof.
  intros Hb Hst Hne Ho. destruct (kvs_scan_run_ok bits kvss 0 Hst Hne Ho) as (c & es & Heq & Hprog & Hsub & Hin).
  assert (E0 : position bits 0 = 0) by (unfold position; rewrite Z.mod_0_l, Z.div_0_l by (apply Z.pow_nonzero; lia); done).
  rewrite E0 in *. exists c, es. split_and!; [done| |done|].
  - pose proof (position_range bits c Hb). destruct Hprog; [by left|right; lia].
  - intros Hz i k Hall. apply (Hin Hz i k); [|done]. destruct kvss as [|kvs kvss]; [done|].
    destruct (Hall kvs ltac:(by left)) as (v & _ & Hi & _). unfold key_position. pose proof (place_range k). lia.
Qed.

End Scan.

(** * A concrete iteration *)

Module Sample.
Import DictSpec.Sample KvstoreSpec.Sample.

(** The states of a store of eight dictionaries while keys are added and deleted. *)
Definition store_after (n : nat) : Kvstore.kvstore Z Z :=
  match kvs0 ← kvstoreCreate 3 true true; kvs_run kvs0 (take n sample_ops) with
  | Some (kvs, _) => kvs
  | None => mkKvs true true [] 0 0 0 0 0 0 []
  end.

Definition sample_stores : list (Kvstore.kvstore Z Z) := map store_after (seq 20 24).

Definition room_ok (kvs : Kvstore.kvstore Z Z) : bool :=
  (num_dicts_bits kvs =? 3) && forallb (fun od => match od with Some d => ht_size_exp (ht0 d) <=? 61 | None => true end) (dicts kvs).

Lemma store_after_ok n : (n <= 45)%nat -> ops_valid (replicate (Z.to_nat (2 ^ 3)) ∅) (take n sample_ops) = true ->
  room_ok (store_after n) = true -> state_ok 3 (store_after n).
Proof.
  intros Hn Hv Hr. unfold store_after in *. destruct (kvstoreCreate_ok (K := Z) (V := Z) 3 true true ltac:(lia)) as (kvs0 & E0 & Hk0).
  rewrite E0 in *. cbn [mbind option_bind] in *.
  destruct (kvs_run_ok (take n sample_ops) kvs0 _ Hk0 Hv) as (kvs & l & ms & E & _ & Hk).
  { rewrite zero_sizes, total_zero, length_take. unfold max_entries. lia. }
  rewrite E in *. apply andb_true_iff in Hr as [Hb Hr]. apply Z.eqb_eq in Hb. split; [done|]. split; [|by exists ms].
  intros i d Hd. rewrite forallb_forall in Hr. specialize (Hr (Some d)). cbn in Hr.
  assert (Hin : In (Some d) (dicts kvs)) by (by eapply list_elem_of_In, list_elem_of_lookup_2). specialize (Hr Hin). apply Z.leb_le in Hr. lia.
Qed.

Lemma kvstoreScan_complete_witness :
  exists c es, kvs_scan_run (-1) (fun _ => false) sample_stores 0 = Some (c, es) /\
    (c = 0 \/ Z.of_nat (length sample_stores) <= position 3 c < 2 ^ (64 + 3)) /\
    (forall x, x ∈ es -> exists kvs i, kvs ∈ sample_stores /\ present (-1) (fun _ => false) kvs i x) /\
    (c = 0 -> forall i k, (forall kvs, kvs ∈ sample_stores -> exists v, present (-1) (fun _ => false) kvs i (k, v)) -> k ∈ map fst es).
Proof.
  apply (kvstoreScan_complete (-1) (fun _ => false) 3 sample_stores); [lia| |done|lia].
  assert (Hall : forallb (fun n => ops_valid (replicate (Z.to_nat (2 ^ 3)) ∅) (take n sample_ops) && room_ok (store_after n)) (seq 20 24) = true) by (by vm_compute).
  apply Forall_forall. intros kvs (n & -> & Hn)%list_elem_of_fmap. apply elem_of_seq in Hn as Hr. rewrite forallb_forall in Hall.
  apply list_elem_of_In, Hall, andb_true_iff in Hn as [? ?]. apply store_after_ok; [lia|done|done].
Defined.

(** The scan of these states ends, and finds the keys that stayed. *)
Lemma sample_kvs_scan :
  match kvs_scan_run (-1) (fun _ => false) sample_stores 0 with
  | Some (c, es) => c = 0 /\ forallb (fun k => existsb (Z.eqb k) (map fst es)) [0; 7; 21; 28; 35] = true
  | None => False
  end.
Proof. by vm_compute. Qed.

End Sample.

End KvScanSpec.
