(* ===== verification/Rax.v ===== *)
(** Radix trees: insertion, lookup and removal of rax.c.

    A node is a key or not, with its value ([None] is the pointer NULL, [isnull] in the code),
    and has either one edge labelled by several bytes ([iscompr]) or one edge for each byte of
    [data].  The pointers to the children are the subtrees; a pointer to the field of a parent
    that holds a child ([parentlink], and the stack of [raxLowWalk]) is the parent and the index
    of the child, so that writing through it rebuilds the nodes above.  Memory is [zmalloc]'s,
    which does not return on failure.  The layout of a node in memory is not modelled.  A failed
    assertion, an access out of a node and a write past the end of an allocated node are [None]. *)

From S2P Require Import Prelude.

#[local] Set Warnings "-register-all".

Module Rax.

Definition RAX_NODE_MAX_SIZE : Z := Z.shiftl 1 29 - 1.

Section Rax.
Context {V : Type}.

Inductive raxNode := RaxNode (key : option (option V)) (iscompr : bool) (data : bytes) (children : list raxNode).

Definition key (n : raxNode) : option (option V) := let '(RaxNode k _ _ _) := n in k.
Definition iskey (n : raxNode) : bool := match key n with Some _ => true | None => false end.
Definition iscompr (n : raxNode) : bool := let '(RaxNode _ c _ _) := n in c.
Definition data (n : raxNode) : bytes := let '(RaxNode _ _ d _) := n in d.
Definition children (n : raxNode) : list raxNode := let '(RaxNode _ _ _ cs) := n in cs.
Definition size (n : raxNode) : nat := length (data n).

Record rax := mkRax { head : raxNode; numele : Z; numnodes : Z }.

(** A node with no children, as [raxNewNode(0, 0)] gives it. *)
Definition raxNewNode : raxNode := RaxNode None false [] [].

Definition raxNew : rax := mkRax raxNewNode 0 1.

Definition raxSetData (n : raxNode) (d : option V) : raxNode := RaxNode (Some d) (iscompr n) (data n) (children n).

(** [h->iskey = 0] *)
Definition clear_key (n : raxNode) : raxNode := RaxNode None (iscompr n) (data n) (children n).

Definition set_child (n : raxNode) (j : nat) (c : raxNode) : raxNode := RaxNode (key n) (iscompr n) (data n) (<[j := c]> (children n)).

(** The parents of a node, from the last to the head, each with the index of the child. *)
Definition raxStack : Type := list (raxNode * nat).

(** The tree once the node at the end of the stack is [n]. *)
Fixpoint plug (ts : raxStack) (n : raxNode) : raxNode :=
  match ts with [] => n | (p, j) :: ts => plug ts (set_child p j n) end.

(** * Walking down the tree *)

(** [for (j = 0; j < h->size && i < len; j++, i++) if (v[j] != s[i]) break;] *)
Fixpoint match_length (v s : bytes) : nat :=
  match v, s with
  | x :: v, y :: s => if x =? y then S (match_length v s) else O
  | _, _ => O
  end.

(** [for (j = 0; j < h->size; j++) if (v[j] == s[i]) break;] *)
Fixpoint edge_index (v : bytes) (c : Z) : nat :=
  match v with x :: v => if x =? c then O else S (edge_index v c) | [] => O end.

(** What the walk gives: [s + i], what is left of the string, the node it stopped at, the index
    [*splitpos] of the byte it stopped at in a compressed node, and the stack. *)
Record stop := mkStop { rest : bytes; stopnode : raxNode; splitpos : nat; ts : raxStack }.

Fixpoint low_walk (fuel : nat) (h : raxNode) (s : bytes) (ts : raxStack) : option stop :=
  match fuel with
  | O => None
  | S fuel =>
    if (size h =? 0)%nat || (length s =? 0)%nat then Some (mkStop s h 0 ts)
    else if iscompr h then
      let j := match_length (data h) s in
      if negb (j =? size h)%nat then Some (mkStop (drop j s) h j ts)
      else c ← children h !! O; low_walk fuel c (drop j s) ((h, O) :: ts)
    else
      c ← s !! O;
      let j := edge_index (data h) c in
      if (j =? size h)%nat then Some (mkStop s h 0 ts)
      else ch ← children h !! j; low_walk fuel ch (drop 1 s) ((h, j) :: ts)
  end.

Definition raxLowWalk (r : rax) (s : bytes) : option stop := low_walk (S (length s)) (head r) s [].

(** Whether the walk stopped at the node of the string itself. *)
Definition at_node (w : stop) : bool := (length (rest w) =? 0)%nat && (negb (iscompr (stopnode w)) || (splitpos w =? 0)%nat).

Definition raxFind (r : rax) (s : bytes) : option (option (option V)) :=
  w ← raxLowWalk r s;
  Some (if negb (at_node w) || negb (iskey (stopnode w)) then None else key (stopnode w)).

(** * Insertion *)

(** The position of a new edge: [for (pos = 0; pos < n->size; pos++) if (n->data[pos] > c) break;] *)
Fixpoint edge_pos (v : bytes) (c : Z) : nat :=
  match v with x :: v => if x >? c then O else S (edge_pos v c) | [] => O end.

(** The new node and the position of the new child, [parentlink]. *)
Definition raxAddChild (n : raxNode) (c : Z) : option (raxNode * nat) :=
  _ ← guard (negb (iscompr n));
  let pos := edge_pos (data n) c in
  Some (RaxNode (key n) false (take pos (data n) ++ c :: drop pos (data n)) (take pos (children n) ++ raxNewNode :: drop pos (children n)), pos).

Definition raxCompressNode (n : raxNode) (s : bytes) : option raxNode :=
  _ ← guard ((size n =? 0)%nat && negb (iscompr n));
  Some (RaxNode (key n) true s [raxNewNode]).

(** A node with the bytes [d] before the child [c]: one byte is not compressed. *)
Definition chain_node (k : option (option V)) (d : bytes) (c : raxNode) : raxNode := RaxNode k (1 <? length d)%nat d [c].

(** Algorithm 1, a mismatch in a compressed node: the split node, the stack above it, and the
    number of nodes. *)
Definition split_mismatch (h : raxNode) (j : nat) (ts : raxStack) (numnodes : Z) : option (raxNode * raxStack * Z) :=
  next ← children h !! O;
  c ← data h !! j;
  let postfix := drop (S j) (data h) in
  let '(post, numnodes) := if negb (length postfix =? 0)%nat then (chain_node None postfix next, u64 (numnodes + 1)) else (next, numnodes) in
  if (j =? 0)%nat then Some (RaxNode (key h) false [c] [post], ts, numnodes)
  else Some (RaxNode None false [c] [post], (chain_node (key h) (take j (data h)) raxNewNode, O) :: ts, u64 (numnodes + 1)).

(** Algorithm 2, the string ends in a compressed node. *)
Definition split_inside (h : raxNode) (j : nat) (d : option V) : option raxNode :=
  next ← children h !! O;
  Some (chain_node (key h) (take j (data h)) (chain_node (Some d) (drop j (data h)) next)).

Context (max_size : Z).

(** [while (i < len)] *)
Fixpoint add_nodes (fuel : nat) (h : raxNode) (s : bytes) (ts : raxStack) (numnodes : Z) : option (raxNode * raxStack * Z) :=
  match s with
  | [] => Some (h, ts, numnodes)
  | c :: _ =>
    match fuel with
    | O => None
    | S fuel =>
      if (size h =? 0)%nat && (1 <? length s)%nat then
        let comprsize := if Z.of_nat (length s) >? max_size then Z.to_nat max_size else length s in
        h ← raxCompressNode h (take comprsize s);
        add_nodes fuel raxNewNode (drop comprsize s) ((h, O) :: ts) (u64 (numnodes + 1))
      else
        '(h, pos) ← raxAddChild h c;
        add_nodes fuel raxNewNode (drop 1 s) ((h, pos) :: ts) (u64 (numnodes + 1))
    end
  end.

(** The tree, what the function returns, and [*old] when it is set. *)
Definition raxGenericInsert (r : rax) (s : bytes) (d : option V) (overwrite : bool) : option (rax * bool * option (option V)) :=
  w ← raxLowWalk r s;
  let h := stopnode w in
  if at_node w then
    if iskey h then Some (if overwrite then mkRax (plug (ts w) (raxSetData h d)) (numele r) (numnodes r) else r, false, key h)
    else Some (mkRax (plug (ts w) (raxSetData h d)) (u64 (numele r + 1)) (numnodes r), true, None)
  else if iscompr h && (length (rest w) =? 0)%nat then
    h ← split_inside h (splitpos w) d;
    Some (mkRax (plug (ts w) h) (u64 (numele r + 1)) (u64 (numnodes r + 1)), true, None)
  else
    '(h, ts, numnodes) ← (if iscompr h then split_mismatch h (splitpos w) (ts w) (numnodes r) else Some (h, ts w, numnodes r));
    '(h, ts, numnodes) ← add_nodes (length (rest w)) h (rest w) ts numnodes;
    Some (mkRax (plug ts (raxSetData h d)) (if negb (iskey h) then u64 (numele r + 1) else numele r) numnodes, true, None).

Definition raxInsert (r : rax) (s : bytes) (d : option V) : option (rax * bool * option (option V)) := raxGenericInsert r s d true.
Definition raxTryInsert (r : rax) (s : bytes) (d : option V) : option (rax * bool * option (option V)) := raxGenericInsert r s d false.

(** * Removal *)

(** The child [j] of the node is no longer there. *)
Definition raxRemoveChild (parent : raxNode) (j : nat) : raxNode :=
  if iscompr parent then RaxNode (key parent) false [] []
  else RaxNode (key parent) false (delete j (data parent)) (delete j (children parent)).

(** [h->iskey || (!h->iscompr && h->size != 1)] *)
Definition is_stop (h : raxNode) : bool := iskey h || (negb (iscompr h) && negb (size h =? 1)%nat).

(** [while (h != rax->head)]: the first node above that is kept, the index of its child that
    is freed if there is one, and the stack above it. *)
Fixpoint free_up (ts : raxStack) (h : raxNode) (child : option nat) (numnodes : Z) : raxNode * option nat * raxStack * Z :=
  match ts with
  | [] => (h, child, [], numnodes)
  | (p, j) :: ts =>
    let numnodes := u64 (numnodes - 1) in
    if is_stop p then (p, Some j, ts, numnodes) else free_up ts p (Some j) numnodes
  end.

(** The first node that may be compressed, and the stack above it. *)
Fixpoint go_up (ts : raxStack) (h : raxNode) : raxNode * raxStack :=
  match ts with
  | [] => (h, [])
  | (p, j) :: ts' => if is_stop p then (h, ts) else go_up ts' (set_child p j h)
  end.

(** Scan of the chain of nodes that can be compressed: the bytes and the number of nodes. *)
Fixpoint scan_chain (h : raxNode) (comprsize : Z) (nodes : Z) : Z * Z :=
  match h with
  | RaxNode _ _ _ [c] =>
    if is_stop c then (comprsize, nodes)
    else if comprsize + Z.of_nat (size c) >? max_size then (comprsize, nodes)
    else scan_chain c (comprsize + Z.of_nat (size c)) (nodes + 1)
  | _ => (comprsize, nodes)
  end.

(** The second scan, which copies the chain in a node of [room] bytes: the bytes, the first node
    that is not copied and the number of nodes. *)
Fixpoint copy_chain (h : raxNode) (room : Z) (buf : bytes) (numnodes : Z) : option (bytes * raxNode * Z) :=
  match h with
  | RaxNode _ _ d [c] =>
    let buf := buf ++ d in
    _ ← guard (Z.of_nat (length buf) <=? room);
    let numnodes := u64 (numnodes - 1) in
    if is_stop c then Some (buf, c, numnodes) else copy_chain c room buf numnodes
  | _ => Some (buf, h, numnodes)
  end.

(** Recompression, from the node [h] that changed. *)
Definition recompress (ts : raxStack) (h : raxNode) (numnodes : Z) : option (raxNode * Z) :=
  let '(start, ts) := go_up ts h in
  let '(comprsize, nodes) := scan_chain start (Z.of_nat (size start)) 1 in
  if nodes >? 1 then
    '(buf, h, numnodes) ← copy_chain start comprsize [] (u64 (numnodes + 1));
    Some (plug ts (RaxNode None true buf [h]), numnodes)
  else Some (plug ts start, numnodes).

(** The tree, and the value of the key that was removed if there was one. *)
Definition raxRemove (r : rax) (s : bytes) : option (rax * option (option V)) :=
  w ← raxLowWalk r s;
  let h := stopnode w in
  match (if at_node w then key h else None) with
  | None => Some (r, None)
  | Some old =>
    let h := clear_key h in
    let numele := u64 (numele r - 1) in
    if (size h =? 0)%nat then
      let '(h, child, ts, numnodes) := free_up (ts w) h None (numnodes r) in
      match child with
      | None => Some (mkRax (plug ts h) numele numnodes, Some old)
      | Some j =>
        let new := raxRemoveChild h j in
        if (size new =? 1)%nat && negb (iskey new) then
          '(t, numnodes) ← recompress ts new numnodes;
          Some (mkRax t numele numnodes, Some old)
        else Some (mkRax (plug ts new) numele numnodes, Some old)
      end
    else if (size h =? 1)%nat then
      '(t, numnodes) ← recompress (ts w) h (numnodes r);
      Some (mkRax t numele numnodes, Some old)
    else Some (mkRax (plug (ts w) h) numele (numnodes r), Some old)
  end.

Definition raxSize (r : rax) : Z := numele r.

(** * Freeing *)

(** The number of nodes that is left, and the values given to the callback. *)
Fixpoint raxRecursiveFree (n : raxNode) (numnodes : Z) : Z * list V :=
  match n with
  | RaxNode k _ _ cs =>
    let '(numnodes, freed) := (fix free_all (cs : list raxNode) : Z * list V :=
      match cs with
      | [] => (numnodes, [])
      | c :: cs =>
        let '(numnodes, freed) := free_all cs in
        let '(numnodes, freed') := raxRecursiveFree c numnodes in
        (numnodes, freed ++ freed')
      end) cs in
    (u64 (numnodes - 1), freed ++ match k with Some (Some v) => [v] | _ => [] end)
  end.

Definition raxFreeWithCallback (r : rax) : option (list V) :=
  let '(numnodes, freed) := raxRecursiveFree (head r) (numnodes r) in
  _ ← guard (numnodes =? 0);
  Some freed.

End Rax.

Arguments raxNode : clear implicits.
Arguments rax : clear implicits.
Arguments raxStack : clear implicits.

End Rax.
