(* ===== verification/RaxSpec.v ===== *)
(** A radix tree is a finite map from strings: the meaning of a tree, the invariant of its shape,
    and the refinement of the map by insertions, lookups and removals. *)

From S2P Require Import Prelude Rax.

#[local] Set Warnings "-register-all".

Module RaxSpec.
Import Rax.

Section Tree.
Context {V : Type}.

Abbreviation raxNode := (raxNode V).

(** Induction with a hypothesis for each child. *)
Lemma node_ind (P : raxNode -> Prop) : (forall k c d cs, Forall P cs -> P (RaxNode k c d cs)) -> forall n, P n.
Proof.
  intros HP. fix IH 1. intros [k c d cs]. apply HP. induction cs as [|x cs IHcs]; constructor; [apply IH|apply IHcs].
Qed.

(** * The meaning of a tree *)

Fixpoint strip (d s : bytes) : option bytes :=
  match d, s with
  | [], _ => Some s
  | x :: d, y :: s => if x =? y then strip d s else None
  | _ :: _, [] => None
  end.

(** The value of a string: [None] when it is not a key. *)
Fixpoint tfind (n : raxNode) (s : bytes) : option (option V) :=
  match n with
  | RaxNode k compr d cs =>
    match s with
    | [] => k
    | c :: s' =>
      if compr then match cs, strip d s with ch :: _, Some r => tfind ch r | _, _ => None end
      else
        (fix edge (d : bytes) (cs : list raxNode) {struct cs} : option (option V) :=
           match d, cs with
           | x :: d, ch :: cs => if x =? c then tfind ch s' else edge d cs
           | _, _ => None
           end) d cs
    end
  end.

Lemma strip_app d r : strip d (d ++ r) = Some r.
Proof. induction d as [|x d IH]; [done|]. cbn. by rewrite Z.eqb_refl. Qed.

Lemma strip_Some d s r : strip d s = Some r <-> s = d ++ r.
Proof.
  split; [|intros ->; apply strip_app]. revert s. induction d as [|x d IH]; intros s Hs; cbn in *; [by simplify_eq|].
  destruct s as [|y s]; [done|]. destruct (Z.eqb_spec x y) as [->|]; [|done]. by rewrite (IH s Hs).
Qed.

Lemma strip_app_l d1 d2 s : strip (d1 ++ d2) s = match strip d1 s with Some r => strip d2 r | None => None end.
Proof. revert s. induction d1 as [|x d1 IH]; intros [|y s]; cbn; try done. destruct (x =? y); [apply IH|done]. Qed.

Lemma edge_index_spec d c : (edge_index d c = length d /\ c ∉ d) \/ d !! edge_index d c = Some c.
Proof.
  induction d as [|x d IH]; cbn; [left; split; [done|apply not_elem_of_nil]|]. destruct (Z.eqb_spec x c) as [->|Hn]; [by right|].
  destruct IH as [[E Hc]|Hl]; [left|by right]. split; [by rewrite E|]. by apply not_elem_of_cons.
Qed.

Lemma edge_index_at d c j : NoDup d -> d !! j = Some c -> edge_index d c = j.
Proof.
  intros Hd Hj. destruct (edge_index_spec d c) as [[_ Hc]|Hl]; [by destruct Hc; eapply list_elem_of_lookup_2|]. by eapply NoDup_lookup.
Qed.

Lemma tfind_branch k d cs c s : length cs = length d ->
  tfind (RaxNode k false d cs) (c :: s) = match cs !! edge_index d c with Some ch => tfind ch s | None => None end.
Proof.
  cbn. revert cs. induction d as [|x d IH]; intros [|ch cs] Hl; try done. cbn. destruct (x =? c); [done|]. apply IH. by injection Hl.
Qed.

Lemma tfind_compr k d ch s : tfind (RaxNode k true d [ch]) s = match s with [] => k | _ => match strip d s with Some r => tfind ch r | None => None end end.
Proof. by destruct s. Qed.

(** * The shape of a tree *)

Context (max_size : Z).

Definition shape_ok (compr : bool) (d : bytes) (cs : list raxNode) : Prop :=
  if compr then (2 <= length d)%nat /\ Z.of_nat (length d) <= max_size /\ length cs = 1%nat
  else length cs = length d /\ StronglySorted Z.lt d.

(** A node without children is a key, unless it is the head of an empty tree. *)
Inductive wf (root : bool) : raxNode -> Prop :=
| wf_node k compr d cs : shape_ok compr d cs -> (root = true \/ d <> [] \/ k <> None) -> Forall (wf false) cs -> wf root (RaxNode k compr d cs).

Lemma wf_root root n : wf root n -> wf true n.
Proof. intros [k c d cs Hs _ Hcs]. constructor; [done|by left|done]. Qed.

Lemma wf_children root n : wf root n -> Forall (wf false) (children n).
Proof. by intros [k c d cs _ _ Hcs]. Qed.

Lemma wf_shape root n : wf root n -> shape_ok (iscompr n) (data n) (children n).
Proof. by intros [k c d cs Hs _ _]. Qed.

Lemma wf_key root n : wf root n -> root = true \/ data n <> [] \/ key n <> None.
Proof. by intros [k c d cs _ Hk _]. Qed.

Lemma wf_intro root n : shape_ok (iscompr n) (data n) (children n) -> root = true \/ data n <> [] \/ key n <> None ->
  Forall (wf false) (children n) -> wf root n.
Proof. destruct n. by constructor. Qed.

Lemma sorted_nodup d : StronglySorted Z.lt d -> NoDup d.
Proof. induction 1 as [|x d Hd IH Hx]; constructor; [|done]. intros Hin. rewrite Forall_forall in Hx. apply Hx in Hin. lia. Qed.

(** The bytes on the edge to the child [j]. *)
Definition label (p : raxNode) (j : nat) : bytes := if iscompr p then data p else match data p !! j with Some c => [c] | None => [] end.

Definition frame_ok (root : bool) (p : raxNode) (j : nat) : Prop :=
  shape_ok (iscompr p) (data p) (children p) /\ (j < length (children p))%nat /\
  (forall i c, i <> j -> children p !! i = Some c -> wf false c).

Definition is_nil {A} (l : list A) : bool := match l with [] => true | _ => false end.

Fixpoint ctx_ok (ts : raxStack V) : Prop :=
  match ts with [] => True | (p, j) :: ts => frame_ok (is_nil ts) p j /\ ctx_ok ts end.

Fixpoint path (ts : raxStack V) : bytes := match ts with [] => [] | (p, j) :: ts => path ts ++ label p j end.

Lemma frame_data root p j : frame_ok root p j -> data p <> [] /\ label p j <> [].
Proof.
  intros (Hs & Hj & _). destruct p as [k c d cs]. unfold label, shape_ok in *. cbn in *. destruct c.
  - destruct Hs as (Hl & _). destruct d; [cbn in *; lia|done].
  - destruct Hs as [Hl _]. destruct (lookup_lt_is_Some_2 d j ltac:(lia)) as [x Hx]. rewrite Hx. split; [by intros ->|done].
Qed.

Lemma compr_frame p j root : frame_ok root p j -> iscompr p = true -> j = O /\ exists c, children p = [c].
Proof.
  intros (Hs & Hj & _) Hc. unfold shape_ok in Hs. rewrite Hc in Hs. destruct Hs as (_ & _ & Hl).
  destruct (children p) as [|c [|? ?]]; cbn in *; try lia. split; [lia|by exists c].
Qed.

(** Below the edge, the child; elsewhere, the rest of the node. *)
Lemma frame_find root p j n r : frame_ok root p j -> tfind (set_child p j n) (label p j ++ r) = tfind n r.
Proof.
  intros Hf. pose proof (frame_data _ _ _ Hf) as [Hd Hlab]. pose proof Hf as (Hs & Hj & _). destruct p as [k c d cs].
  unfold set_child, label in *. cbn [key iscompr data children] in *. destruct c; cbn in Hs.
  - destruct (compr_frame _ _ _ Hf eq_refl) as [-> [ch E]]. cbn in E. subst cs. cbn [insert list_insert].
    change (tfind (RaxNode k true d [n]) (d ++ r) = tfind n r). rewrite tfind_compr, strip_app. by destruct d.
  - destruct Hs as [Hl Hsort]. destruct (d !! j) as [c|] eqn:Ec; [|done]. change ([c] ++ r) with (c :: r).
    rewrite tfind_branch by (by rewrite length_insert). rewrite (edge_index_at d c j (sorted_nodup d Hsort) Ec).
    by rewrite list_lookup_insert_eq.
Qed.

Lemma frame_other root p j n n' s : frame_ok root p j -> strip (label p j) s = None -> tfind (set_child p j n) s = tfind (set_child p j n') s.
Proof.
  intros Hf Hst. pose proof Hf as (Hs & Hj & _). destruct p as [k c d cs]. unfold set_child, label in *. cbn [key iscompr data children] in *.
  destruct s as [|x s]; [done|]. destruct c; cbn in Hs.
  - destruct (compr_frame _ _ _ Hf eq_refl) as [-> [ch E]]. cbn in E. subst cs. cbn [insert list_insert].
    change (tfind (RaxNode k true d [n]) (x :: s) = tfind (RaxNode k true d [n']) (x :: s)). rewrite !tfind_compr. by rewrite Hst.
  - destruct Hs as [Hl Hsort]. destruct (d !! j) as [c|] eqn:Ec; [|done].
    change (tfind (RaxNode k false d (<[j := n]> cs)) (x :: s) = tfind (RaxNode k false d (<[j := n']> cs)) (x :: s)).
    rewrite !tfind_branch by (by rewrite length_insert). rewrite !list_lookup_insert_ne; [done|intros ->..];
      (destruct (edge_index_spec d x) as [[E _]|E]; [lia|]; rewrite Ec in E; injection E as ->; cbn in Hst; by rewrite Z.eqb_refl in Hst).
Qed.

Lemma plug_find ts : forall n r, ctx_ok ts -> tfind (plug ts n) (path ts ++ r) = tfind n r.
Proof.
  induction ts as [|[p j] ts IH]; intros n r Hc; [done|]. destruct Hc as [Hf Hc]. cbn [plug path]. rewrite <- app_assoc, IH by done. by eapply frame_find.
Qed.

Lemma plug_other ts : forall n n' s, ctx_ok ts -> strip (path ts) s = None -> tfind (plug ts n) s = tfind (plug ts n') s.
Proof.
  induction ts as [|[p j] ts IH]; intros n n' s Hc Hs; [done|]. destruct Hc as [Hf Hc]. cbn [plug path] in *. rewrite strip_app_l in Hs.
  destruct (strip (path ts) s) as [r|] eqn:E; [|by apply IH]. apply strip_Some in E as ->. rewrite !plug_find by done. by eapply frame_other.
Qed.

(** A local change is a change of the map below the path. *)
Lemma plug_update ts n n' r x : ctx_ok ts -> (forall r', tfind n' r' = if decide (r' = r) then x else tfind n r') ->
  forall s, tfind (plug ts n') s = if decide (s = path ts ++ r) then x else tfind (plug ts n) s.
Proof.
  intros Hc Hn s. destruct (strip (path ts) s) as [r'|] eqn:E.
  - apply strip_Some in E as ->. rewrite !plug_find, Hn by done. destruct (decide (r' = r)) as [->|Hne]; [by rewrite decide_True|].
    rewrite decide_False; [done|]. by intros ?%(inj (app _)).
  - rewrite decide_False; [by apply plug_other|]. intros ->. by rewrite strip_app in E.
Qed.

Lemma plug_ext ts n n' : ctx_ok ts -> (forall r, tfind n' r = tfind n r) -> forall s, tfind (plug ts n') s = tfind (plug ts n) s.
Proof.
  intros Hc Hn s. destruct (strip (path ts) s) as [r'|] eqn:E; [|by apply plug_other]. apply strip_Some in E as ->. by rewrite !plug_find.
Qed.

Lemma wf_frame root p j n : frame_ok root p j -> wf false n -> wf root (set_child p j n).
Proof.
  intros Hf Hn. pose proof (frame_data _ _ _ Hf) as [Hd _]. destruct Hf as (Hs & Hj & Ho). apply wf_intro; cbn.
  - unfold shape_ok in *. by rewrite length_insert.
  - by right; left.
  - apply Forall_lookup. intros i c Hi. destruct (decide (i = j)) as [->|Hne].
    + rewrite list_lookup_insert_eq in Hi by done. by injection Hi as <-.
    + rewrite list_lookup_insert_ne in Hi by done. by eapply Ho.
Qed.

Lemma wf_plug ts : forall n, ctx_ok ts -> wf (is_nil ts) n -> wf true (plug ts n).
Proof.
  induction ts as [|[p j] ts IH]; intros n Hc Hn; [done|]. destruct Hc as [Hf Hc]. cbn [plug]. apply IH; [done|]. by apply wf_frame.
Qed.

Lemma wf_unframe root p j c : wf root p -> children p !! j = Some c -> frame_ok root p j /\ wf false c.
Proof.
  intros Hp Hj. pose proof (wf_children _ _ Hp) as Hcs. rewrite Forall_lookup in Hcs. split; [|by eapply Hcs].
  split; [by eapply wf_shape|]. split; [by eapply lookup_lt_Some|]. intros i c' _ Hi. by eapply Hcs.
Qed.

Lemma set_child_id (p : raxNode) j c : children p !! j = Some c -> set_child p j c = p.
Proof. destruct p. intros Hj. unfold set_child. cbn in *. by rewrite list_insert_id. Qed.

(** * The walk *)

(** Where the walk stops: [r] is what is left of the string from the node on. *)
Record stopped (t : raxNode) (s : bytes) (w : stop) (r : bytes) : Prop := {
  st_ctx : ctx_ok (ts w);
  st_wf : wf (is_nil (ts w)) (stopnode w);
  st_tree : plug (ts w) (stopnode w) = t;
  st_path : s = path (ts w) ++ r;
  st_rest : r = take (splitpos w) (data (stopnode w)) ++ rest w;
  st_compr : if iscompr (stopnode w)
    then (splitpos w < size (stopnode w))%nat /\ (rest w = [] \/ exists c c' r', rest w = c :: r' /\ data (stopnode w) !! splitpos w = Some c' /\ c <> c')
    else splitpos w = O /\ (rest w = [] \/ exists c r', rest w = c :: r' /\ c ∉ data (stopnode w))
}.

Lemma match_length_spec v : forall s, let j := match_length v s in
  take j v = take j s /\ (j <= length v)%nat /\ (j <= length s)%nat /\
  (j = length v \/ j = length s \/ exists c c', s !! j = Some c /\ v !! j = Some c' /\ c <> c').
Proof.
  induction v as [|x v IH]; intros [|y s]; cbn; try (split_and!; [done|lia|lia|by auto]).
  destruct (Z.eqb_spec x y) as [->|Hn].
  - destruct (IH s) as (E & H1 & H2 & H3). cbn. rewrite E. split_and!; [done|lia|lia|]. destruct H3 as [->|[->|H3]]; auto.
  - split_and!; [done|lia|lia|]. right; right. by exists y, x.
Qed.

Lemma low_walk_ok fuel : forall h s ts, ctx_ok ts -> wf (is_nil ts) h -> (length s < fuel)%nat ->
  exists w r, low_walk fuel h s ts = Some w /\ stopped (plug ts h) (path ts ++ s) w r.
Proof.
  induction fuel as [|fuel IH]; intros h s ts Hc Hh Hf; [lia|]. cbn [low_walk]. pose proof (wf_shape _ _ Hh) as Hs. unfold shape_ok in Hs.
  destruct (Nat.eqb_spec (size h) 0) as [H0|H0]; cbn [orb].
  { exists (mkStop s h 0 ts), s. split; [done|]. split; cbn; [done..|]. unfold size in H0. destruct (iscompr h); [lia|]. split; [done|].
    destruct s as [|c s]; [by left|right]. exists c, s. split; [done|]. destruct (data h); [apply not_elem_of_nil|done]. }
  destruct (Nat.eqb_spec (length s) 0) as [Hs0|Hs0].
  { destruct s; [|done]. exists (mkStop [] h 0 ts), []. split; [done|]. split; cbn; [done..|]. destruct (iscompr h); (split; [lia|by left]). }
  assert (Hdown : forall j c s', children h !! j = Some c -> s = label h j ++ s' -> (length s' < length s)%nat ->
    exists w r, low_walk fuel c s' ((h, j) :: ts) = Some w /\ stopped (plug ts h) (path ts ++ s) w r).
  { intros j c s' Hj -> Hl. destruct (wf_unframe _ _ _ _ Hh Hj) as [Hfr Hwc].
    destruct (IH c s' ((h, j) :: ts)) as (w & r & -> & Hw); [done|done|lia|]. exists w, r. split; [done|].
    cbn [plug path] in Hw. by rewrite (set_child_id _ _ _ Hj), <- app_assoc in Hw. }
  destruct (iscompr h) eqn:Ec.
  - destruct Hs as (H2 & Hmax & Hl1). destruct (match_length_spec (data h) s) as (Et & Hj1 & Hj2 & Hj3). set (j := match_length _ _) in *.
    unfold size. destruct (Nat.eqb_spec j (length (data h))) as [Hj|Hj]; cbn [negb].
    + destruct (children h) as [|c [|? ?]] eqn:Ecs; cbn in Hl1; try lia. cbn [lookup list_lookup mbind option_bind].
      assert (Es : s = data h ++ drop j s) by (rewrite <- (take_drop j s) at 1; f_equal; rewrite <- Et; apply take_ge; lia).
      apply Hdown; [done|unfold label; by rewrite Ec|rewrite length_drop; lia].
    + exists (mkStop (drop j s) h j ts), s. split; [done|]. split; cbn; [done..|by rewrite Et, take_drop|]. rewrite Ec. unfold size. split; [lia|].
      destruct Hj3 as [?|[E|(c & c' & H1 & H2' & Hne)]]; [lia|left; rewrite drop_ge; [done|lia]|right]. exists c, c', (drop (S j) s).
      split; [by apply drop_S|done].
  - destruct Hs as [Hl Hsort]. destruct s as [|c s]; [done|]. cbn [lookup list_lookup mbind option_bind]. unfold size.
    destruct (edge_index_spec (data h) c) as [[E Hnc]|E].
    + rewrite (proj2 (Nat.eqb_eq _ _) E). exists (mkStop (c :: s) h 0 ts), (c :: s). split; [done|]. split; cbn; [done..|]. rewrite Ec. split; [done|].
      right. by exists c, s.
    + pose proof (lookup_lt_Some _ _ _ E) as Hlt. rewrite (proj2 (Nat.eqb_neq _ _)) by lia.
      destruct (lookup_lt_is_Some_2 (children h) (edge_index (data h) c)) as [ch Hch]; [lia|]. rewrite Hch. cbn [mbind option_bind].
      apply (Hdown _ ch); [done|unfold label; by rewrite Ec, E|cbn; rewrite drop_0; lia].
Qed.

Lemma raxLowWalk_ok r s : wf true (head r) -> exists w q, raxLowWalk r s = Some w /\ stopped (head r) s w q.
Proof. intros Hr. apply (low_walk_ok (S (length s)) (head r) s []); [done|done|lia]. Qed.

(** The value of the string is that of what is left in the node. *)
Lemma stopped_find t s w r : stopped t s w r -> tfind t s = tfind (stopnode w) r.
Proof. intros [Hc _ <- -> _ _]. by apply plug_find. Qed.

Lemma stopped_at t s w r : stopped t s w r -> at_node w = true -> r = [].
Proof.
  intros [_ _ _ _ -> Hst] Ha. unfold at_node in Ha. apply andb_true_iff in Ha as [H1 H2]. apply Nat.eqb_eq, nil_length_inv in H1. rewrite H1, app_nil_r.
  destruct (iscompr (stopnode w)); [|by destruct Hst as [-> _]]. cbn in H2. by apply Nat.eqb_eq in H2 as ->.
Qed.

Lemma stopped_not_at t s w r : stopped t s w r -> at_node w = false -> r <> [] /\ tfind (stopnode w) r = None.
Proof.
  intros [_ Hwf _ _ Hr Hst] Ha. unfold at_node in Ha. pose proof (wf_shape _ _ Hwf) as Hs. set (h := stopnode w) in *. destruct h as [k [|] d cs]; cbn in *.
  - destruct Hs as (H2 & _ & Hl). destruct cs as [|ch [|? ?]]; try done. destruct Hst as [Hj Hst]. unfold size in Hj. cbn in Hj.
    assert (Hne : r <> []).
    { intros ->. symmetry in Hr. apply app_nil in Hr as [Ht Hrest]. rewrite Hrest in Ha. cbn in Ha. destruct (splitpos w); [done|]. destruct d; [cbn in H2; lia|done]. }
    split; [done|]. change (tfind (RaxNode k true d [ch]) r = None). rewrite tfind_compr. destruct r as [|x r0] eqn:Er; [done|]. rewrite <- Er in *. clear Er.
    destruct (strip d r) as [q|] eqn:E; [exfalso|done]. apply strip_Some in E. rewrite Hr in E.
    assert (Ed : rest w = drop (splitpos w) d ++ q).
    { rewrite <- (take_drop (splitpos w) d) in E at 2. rewrite <- app_assoc in E. by apply (inj (app _)) in E. }
    destruct Hst as [Hnil|(c & c' & r' & E1 & E2 & Hcc)].
    + rewrite Hnil in Ed. symmetry in Ed. apply app_nil in Ed as [Ed _]. apply (f_equal length) in Ed. rewrite length_drop in Ed. cbn in Ed. lia.
    + rewrite E1, (drop_S _ _ _ E2) in Ed. by injection Ed as ->.
  - destruct Hs as [Hl _]. destruct Hst as [Hj Hst]. rewrite Hj in Hr. cbn in Hr. subst r. rewrite andb_true_r in Ha.
    destruct Hst as [E|(c & r' & E & Hc)]; rewrite E in *; [done|]. clear E. split; [done|].
    change (tfind (RaxNode k false d cs) (c :: r') = None). rewrite tfind_branch by done.
    destruct (edge_index_spec d c) as [[E _]|E]; [|by destruct Hc; eapply list_elem_of_lookup_2]. rewrite E, <- Hl.
    by rewrite (lookup_ge_None_2 cs) by done.
Qed.

Lemma raxFind_ok r s : wf true (head r) -> raxFind r s = Some (tfind (head r) s).
Proof.
  intros Hr. unfold raxFind. destruct (raxLowWalk_ok r s Hr) as (w & q & -> & Hst). cbn [mbind option_bind]. rewrite (stopped_find _ _ _ _ Hst).
  destruct (at_node w) eqn:Ea; cbn [negb orb].
  - rewrite (stopped_at _ _ _ _ Hst Ea). unfold iskey. destruct (stopnode w) as [[x|] c d cs]; done.
  - by destruct (stopped_not_at _ _ _ _ Hst Ea) as [_ ->].
Qed.

(** * The number of nodes *)

Fixpoint nodes (n : raxNode) : Z := match n with RaxNode _ _ _ cs => 1 + total (map nodes cs) end.

Lemma nodes_eq n : nodes n = 1 + total (map nodes (children n)).
Proof. by destruct n. Qed.

Lemma nodes_set_child (p : raxNode) j n n' : (j < length (children p))%nat -> nodes (set_child p j n) = nodes (set_child p j n') + (nodes n - nodes n').
Proof.
  intros Hj. rewrite (nodes_eq (set_child p j n)), (nodes_eq (set_child p j n')). cbn [children set_child]. change (map nodes (<[j := ?x]> (children p))) with (nodes <$> <[j := x]> (children p)).
  rewrite !list_fmap_insert. destruct (lookup_lt_is_Some_2 (nodes <$> children p) j) as [x Hx]; [by rewrite length_fmap|].
  rewrite !(total_insert _ _ _ _ Hx). lia.
Qed.

Lemma nodes_plug ts : forall n n', ctx_ok ts -> nodes (plug ts n) = nodes (plug ts n') + (nodes n - nodes n').
Proof.
  induction ts as [|[p j] ts IH]; intros n n' Hc; cbn [plug]; [lia|]. destruct Hc as [(_ & Hj & _) Hc].
  rewrite (IH _ (set_child p j n')), (nodes_set_child p j n n') by done. lia.
Qed.

End Tree.
End RaxSpec.
