(* ===== verification/RaxInsertSpec.v ===== *)
(** Insertion in a radix tree: [raxGenericInsert] (rax.c) changes the map at the key, keeps the
    shape of the tree and the number of its nodes. *)

From S2P Require Import Prelude Rax RaxSpec.

Module RaxInsertSpec.
Import Rax RaxSpec.

Section Insert.
Context {V : Type} (max_size : Z) (Hmax : 2 <= max_size).

Abbreviation raxNode := (raxNode V).
Abbreviation wf := (wf (V := V) max_size).
Abbreviation ctx_ok := (ctx_ok (V := V) max_size).

(** * Nodes with one edge *)

(** The value of a string in the tree [next], below the bytes [d]. *)
Definition follow (d : bytes) (next : raxNode) (s : bytes) : option (option V) := match strip d s with Some r => tfind next r | None => None end.

Lemma tfind_chain k d (c : raxNode) s : d <> [] -> tfind (chain_node k d c) s = match s with [] => k | _ => follow d c s end.
Proof.
  intros Hd. unfold chain_node, follow. destruct (Nat.ltb_spec 1 (length d)) as [H1|H1]; [apply tfind_compr|].
  destruct d as [|x [|? ?]]; [done| |cbn in H1; lia]. destruct s as [|y s]; [done|]. rewrite tfind_branch by done. cbn. by destruct (x =? y).
Qed.

(** One edge after another is one edge. *)
Lemma chain_chain k d1 d2 (c next : raxNode) s : d1 <> [] -> (forall r, tfind c r = follow d2 next r) ->
  tfind (chain_node k d1 c) s = match s with [] => k | _ => follow (d1 ++ d2) next s end.
Proof.
  intros Hd Hc. rewrite tfind_chain by done. destruct s as [|y s]; [done|]. unfold follow at 1 2. rewrite strip_app_l.
  destruct (strip d1 (y :: s)); [by rewrite Hc|done].
Qed.

Lemma follow_nil d (c : raxNode) : d <> [] -> follow d c [] = None.
Proof. by destruct d. Qed.

Lemma chain_shape k d (c : raxNode) : d <> [] -> Z.of_nat (length d) <= max_size ->
  shape_ok max_size (iscompr (chain_node k d c)) (data (chain_node k d c)) (children (chain_node k d c)).
Proof.
  intros Hd Hl. unfold chain_node, shape_ok. cbn [iscompr data children]. destruct (Nat.ltb_spec 1 (length d)); [by split_and!; [lia|lia|]|].
  destruct d as [|x [|? ?]]; [done| |cbn in *; lia]. split; [done|]. by repeat constructor.
Qed.

Lemma wf_chain root k d c : d <> [] -> Z.of_nat (length d) <= max_size -> wf false c -> wf root (chain_node k d c).
Proof. intros Hd Hl Hc. apply wf_intro; [by apply chain_shape|right; left; exact Hd|by apply (Forall_singleton _ c)]. Qed.

Lemma chain_frame root k d (c : raxNode) : d <> [] -> Z.of_nat (length d) <= max_size -> frame_ok max_size root (chain_node k d c) O.
Proof. intros Hd Hl. split; [by apply chain_shape|]. split; [cbn; lia|]. intros [|i] c' Hi Hl'; done. Qed.

Lemma chain_label k d (c : raxNode) : d <> [] -> label (chain_node k d c) O = d.
Proof.
  intros Hd. unfold label, chain_node. cbn [iscompr data children]. destruct (Nat.ltb_spec 1 (length d)); [done|]. destruct d as [|x [|? ?]]; [done|done|cbn in *; lia].
Qed.

Lemma nodes_chain k d (c : raxNode) : nodes (chain_node k d c) = nodes c + 1.
Proof. rewrite nodes_eq. cbn. unfold total. cbn. lia. Qed.

Lemma compr_chain root (h : raxNode) : wf root h -> iscompr h = true -> exists next, children h = [next] /\ h = chain_node (key h) (data h) next /\
  wf false next /\ (2 <= length (data h))%nat /\ Z.of_nat (length (data h)) <= max_size.
Proof.
  intros [k c d cs Hs _ Hcs] Hc. cbn in *. subst c. destruct Hs as (H2 & Hl & H1). destruct cs as [|next [|? ?]]; [done| |done].
  exists next. apply Forall_cons in Hcs as [Hn _]. split_and!; [done| |done|done|done]. unfold chain_node. by rewrite (proj2 (Nat.ltb_lt 1 (length d))) by lia.
Qed.

(** * The splits of a compressed node *)

(** Algorithm 1 keeps the map, and gives a node with the byte of the mismatch as its only edge. *)
Lemma split_mismatch_ok ts h j c nn : ctx_ok ts -> wf (is_nil ts) h -> iscompr h = true -> data h !! j = Some c ->
  nn = u64 (nodes (plug ts h)) ->
  exists h' ts' nn', split_mismatch h j ts nn = Some (h', ts', nn') /\ ctx_ok ts' /\ wf (is_nil ts') h' /\ iscompr h' = false /\ data h' = [c] /\
    path ts' = path ts ++ take j (data h) /\ (forall s, tfind (plug ts' h') s = tfind (plug ts h) s) /\ nn' = u64 (nodes (plug ts' h')).
Proof.
  intros Hc Hh Hcp Hj Hnn. destruct (compr_chain _ h Hh Hcp) as (next & Ecs & Eh & Hwn & H2 & Hlm). pose proof (lookup_lt_Some _ _ _ Hj) as Hlt.
  unfold split_mismatch. rewrite Ecs, Hj. cbn [lookup list_lookup mbind option_bind]. set (d := data h) in *. set (k := key h) in *.
  set (postfix := drop (S j) d). assert (Ed : d = take j d ++ [c] ++ postfix) by (symmetry; by apply take_drop_middle).
  set (post := if negb (length postfix =? 0)%nat then chain_node None postfix next else next).
  set (nn1 := if negb (length postfix =? 0)%nat then u64 (nn + 1) else nn).
  replace (if negb (length postfix =? 0)%nat then (chain_node None postfix next, u64 (nn + 1)) else (next, nn)) with (post, nn1)
    by (subst post nn1; by destruct (negb _)).
  assert (Hpost : (forall r, tfind post r = follow postfix next r) /\ wf false post /\ nn1 = u64 (nn + (nodes post - nodes next))).
  { subst post nn1. destruct (Nat.eqb_spec (length postfix) 0) as [E|E]; cbn [negb].
    - apply nil_length_inv in E as ->. split_and!; [done|done|]. rewrite Z.sub_diag, Z.add_0_r, Hnn. symmetry. by apply uwrap_small, uwrap_range.
    - assert (postfix <> []) by (by destruct postfix). split_and!; [|apply wf_chain; [done| |done]|rewrite nodes_chain; f_equal; lia].
      + intros r. rewrite tfind_chain by done. destruct r; [|done]. by rewrite follow_nil.
      + unfold postfix. rewrite length_drop. lia. }
  destruct Hpost as (Hpost & Hwp & Hnn1). rewrite Eh in Hnn. rewrite Hnn, uwrap_add_l in Hnn1.
  assert (Hold : forall s, tfind h s = match s with [] => k | _ => follow d next s end) by (intros s; rewrite Eh; apply tfind_chain; intros E; rewrite E in Hlt; cbn in Hlt; lia).
  assert (Hone : Z.of_nat (length [c]) <= max_size) by (cbn; lia).
  assert (Hsplit : forall kk s, tfind (chain_node kk [c] post) s = match s with [] => kk | _ => follow (c :: postfix) next s end)
    by (intros kk s; apply (chain_chain kk [c] postfix); done).
  destruct (Nat.eqb_spec j 0) as [->|Hj0].
  - exists (chain_node k [c] post), ts, nn1. split_and!; [done|done|by apply wf_chain|done|done|by rewrite take_0, app_nil_r| |].
    + apply plug_ext with (max_size := max_size); [done|]. intros r. rewrite Hsplit, Hold. by rewrite Ed.
    + rewrite Hnn1. f_equal. rewrite (nodes_plug max_size ts (chain_node k [c] post) (chain_node k d next) Hc), !nodes_chain. lia.
  - assert (Ht : take j d <> []) by (intros E; apply (f_equal length) in E; rewrite length_take in E; cbn in E; lia).
    assert (Htl : Z.of_nat (length (take j d)) <= max_size) by (rewrite length_take; lia).
    exists (chain_node None [c] post), ((chain_node k (take j d) raxNewNode, O) :: ts), (u64 (nn1 + 1)).
    split_and!; [done| |by apply wf_chain|done|done| | |].
    + split; [by apply chain_frame|done].
    + cbn [path]. by rewrite chain_label.
    + cbn [plug]. apply plug_ext with (max_size := max_size); [done|]. intros r. change (set_child _ _ _) with (chain_node k (take j d) (chain_node None [c] post)).
      rewrite (chain_chain k (take j d) (c :: postfix) _ next), Hold; [change (c :: postfix) with ([c] ++ postfix); by rewrite <- Ed|done|]. intros q. rewrite Hsplit. by destruct q.
    + rewrite Hnn1, uwrap_add_l. f_equal. cbn [plug]. change (set_child _ _ _) with (chain_node k (take j d) (chain_node None [c] post)).
      rewrite (nodes_plug max_size ts (chain_node k (take j d) (chain_node None [c] post)) (chain_node k d next) Hc), !nodes_chain. lia.
Qed.

(** Algorithm 2 makes the node the key of the string. *)
Lemma split_inside_ok ts h j d nn : ctx_ok ts -> wf (is_nil ts) h -> iscompr h = true -> (0 < j < size h)%nat -> nn = u64 (nodes (plug ts h)) ->
  exists h', split_inside h j d = Some h' /\ wf (is_nil ts) h' /\
    (forall r, tfind h' r = if decide (r = take j (data h)) then Some d else tfind h r) /\ u64 (nn + 1) = u64 (nodes (plug ts h')).
Proof.
  intros Hc Hh Hcp Hj Hnn. destruct (compr_chain _ h Hh Hcp) as (next & Ecs & Eh & Hwn & H2 & Hlm). unfold split_inside, size in *. rewrite Ecs.
  cbn [lookup list_lookup mbind option_bind]. set (dt := data h) in *. set (k := key h) in *.
  assert (Ht : take j dt <> []) by (intros E; apply (f_equal length) in E; rewrite length_take in E; cbn in E; lia).
  assert (Hd : drop j dt <> []) by (intros E; apply (f_equal length) in E; rewrite length_drop in E; cbn in E; lia).
  eexists. split; [done|]. split_and!.
  - apply wf_chain; [done|rewrite length_take; lia|]. apply wf_chain; [done|rewrite length_drop; lia|done].
  - intros r. rewrite Eh, !tfind_chain by (done || (intros E; rewrite E in H2; cbn in H2; lia)). destruct r as [|x r].
    + by rewrite decide_False.
    + unfold follow. replace (strip dt (x :: r)) with (strip (take j dt ++ drop j dt) (x :: r)) by (by rewrite take_drop). rewrite strip_app_l. destruct (strip (take j dt) (x :: r)) as [q|] eqn:E.
      * apply strip_Some in E. rewrite E, tfind_chain by done. destruct q as [|y q]; [by rewrite app_nil_r, decide_True|].
        rewrite decide_False; [done|]. intros F. rewrite <- (app_nil_r (take j dt)) in F at 2. by apply (inj (app _)) in F.
      * rewrite decide_False; [done|]. intros F. rewrite F in E. pose proof (strip_app (take j dt) []) as G. rewrite app_nil_r in G. congruence.
  - rewrite Hnn, uwrap_add_l, Eh. f_equal. rewrite (nodes_plug max_size ts (chain_node k (take j dt) _) (chain_node k dt next) Hc), !nodes_chain. lia.
Qed.

(** * New edges *)

Lemma edge_pos_le d c : (edge_pos d c <= length d)%nat.
Proof. induction d as [|x d IH]; cbn; [lia|]. destruct (x >? c); lia. Qed.

Lemma edge_pos_sorted d c : StronglySorted Z.lt d -> c ∉ d -> StronglySorted Z.lt (take (edge_pos d c) d ++ c :: drop (edge_pos d c) d).
Proof.
  induction 1 as [|x d Hd IH Hx]; intros Hc; cbn; [by repeat constructor|]. apply not_elem_of_cons in Hc as [Hne Hc].
  destruct (Z.gtb_spec x c) as [Hgt|Hle].
  - repeat constructor; [done|done|lia|]. eapply Forall_impl; [exact Hx|]. cbn. lia.
  - cbn. constructor; [by apply IH|]. rewrite <- (take_drop (edge_pos d c) d) in Hx.
    apply Forall_app in Hx as [H1 H2]. apply Forall_app. split; [done|]. constructor; [lia|done].
Qed.

(** The child of an edge. *)
Fixpoint edges (d : bytes) (cs : list raxNode) (x : Z) : option raxNode :=
  match d, cs with y :: d, ch :: cs => if y =? x then Some ch else edges d cs x | _, _ => None end.

Lemma edges_find k d cs x s : tfind (RaxNode k false d cs) (x :: s) = match edges d cs x with Some ch => tfind ch s | None => None end.
Proof. cbn. revert cs. induction d as [|y d IH]; intros [|ch cs]; try done. cbn. destruct (y =? x); [done|]. apply IH. Qed.

Lemma edges_none d cs x : x ∉ d -> edges d cs x = None.
Proof.
  revert cs. induction d as [|y d IH]; intros [|ch cs] Hx; cbn; try done. apply not_elem_of_cons in Hx as [Hne Hx].
  rewrite (proj2 (Z.eqb_neq y x)) by done. by apply IH.
Qed.

Lemma edges_insert d1 : forall d2 c1 c2 c n x, length c1 = length d1 -> c ∉ d1 ->
  edges (d1 ++ c :: d2) (c1 ++ n :: c2) x = if x =? c then Some n else edges (d1 ++ d2) (c1 ++ c2) x.
Proof.
  induction d1 as [|y d1 IH]; intros d2 [|ch c1] c2 c n x Hl Hc; try done; cbn in *; [by rewrite Z.eqb_sym|].
  apply not_elem_of_cons in Hc as [Hne Hc]. destruct (Z.eqb_spec y x) as [->|]; [|by apply IH; [lia|]].
  by rewrite (proj2 (Z.eqb_neq x c)).
Qed.

Lemma tfind_new (r : bytes) : tfind (raxNewNode : raxNode) r = None.
Proof. by destruct r. Qed.

Lemma raxAddChild_ok root h c : wf true h -> iscompr h = false -> c ∉ data h ->
  exists h' pos, raxAddChild h c = Some (h', pos) /\ frame_ok max_size root h' pos /\ label h' pos = [c] /\ set_child h' pos raxNewNode = h' /\
    (forall r, tfind h' r = tfind h r) /\ nodes h' = nodes h + 1.
Proof.
  intros Hh Hcp Hc. unfold raxAddChild. rewrite Hcp. cbn [negb guard mbind option_bind]. pose proof (wf_shape _ _ _ Hh) as Hs. pose proof (wf_children _ _ _ Hh) as Hcs.
  destruct h as [k cp d cs]. cbn [key iscompr data children] in *. subst cp. destruct Hs as [Hl Hsort].
  pose proof (edge_pos_le d c) as Hp. set (pos := edge_pos d c) in *.
  assert (Hlt : length (take pos cs) = pos) by (rewrite length_take; lia). assert (Hld : length (take pos d) = pos) by (rewrite length_take; lia).
  eexists _, pos. split; [done|]. split_and!.
  - split_and!; cbn [iscompr data children].
    + split; [rewrite !length_app; cbn; rewrite !length_take, !length_drop; lia|by apply edge_pos_sorted].
    + rewrite length_app. cbn. lia.
    + intros i ch Hi Hch. rewrite Forall_forall in Hcs. apply Hcs.
      apply lookup_app_Some in Hch as [Hch|[Hge Hch]]; [apply lookup_take_Some in Hch as [Hch _]; by eapply list_elem_of_lookup_2|].
      rewrite Hlt in *. destruct (i - pos)%nat as [|q] eqn:E; [lia|]. change (drop pos cs !! q = Some ch) in Hch. rewrite lookup_drop in Hch. by eapply list_elem_of_lookup_2.
  - unfold label. cbn [iscompr data]. rewrite lookup_app_r, Hld, Nat.sub_diag by lia. done.
  - unfold set_child. cbn [key iscompr data children]. f_equal. rewrite insert_app_r_alt, Hlt, Nat.sub_diag by lia. done.
  - intros [|x r]; [done|]. rewrite !edges_find, edges_insert, !take_drop; [|lia|intros (i & Hi & _)%elem_of_take; by eapply Hc, list_elem_of_lookup_2].
    destruct (Z.eqb_spec x c) as [->|]; [|done]. by rewrite edges_none, tfind_new.
  - rewrite (nodes_eq (RaxNode k false d cs)), nodes_eq. cbn [children]. rewrite !map_app, total_app. cbn [map].
    rewrite <- (take_drop pos cs) at 3. rewrite map_app, total_app. unfold total. cbn. lia.
Qed.

Lemma wf_new : wf true (raxNewNode : raxNode).
Proof. constructor; [split; [done|constructor]|by left|constructor]. Qed.

Lemma leaf_find (h : raxNode) x r : data h = [] -> iscompr h = false -> tfind h (x :: r) = None.
Proof. destruct h as [k c d cs]. cbn. intros -> ->. by destruct cs. Qed.

(** The missing nodes: the map does not change until the last node is a key. *)
Lemma add_nodes_ok fuel : forall h s ts nn, ctx_ok ts -> wf true h -> iscompr h = false ->
  (forall c s', s = c :: s' -> c ∉ data h) -> (length s <= fuel)%nat -> nn = u64 (nodes (plug ts h)) ->
  exists h' ts' nn', add_nodes max_size fuel h s ts nn = Some (h', ts', nn') /\ ctx_ok ts' /\ wf true h' /\ (s <> [] -> h' = raxNewNode) /\
    path ts' = path ts ++ s /\ (forall x, tfind (plug ts' h') x = tfind (plug ts h) x) /\ nn' = u64 (nodes (plug ts' h')).
Proof.
  induction fuel as [|fuel IH]; intros h s ts nn Hc Hh Hcp Hs Hf Hnn;
    (destruct s as [|c s]; [exists h, ts, nn; cbn [add_nodes]; rewrite app_nil_r; by split_and!|]); [cbn in Hf; lia|].
  assert (Hgo : forall h1 pos s1, frame_ok max_size (is_nil ts) h1 pos -> set_child h1 pos raxNewNode = h1 -> c :: s = label h1 pos ++ s1 ->
    (forall r, tfind h1 r = tfind h r) -> nodes h1 = nodes h + 1 ->
    exists h' ts' nn', add_nodes max_size fuel raxNewNode s1 ((h1, pos) :: ts) (u64 (nn + 1)) = Some (h', ts', nn') /\ ctx_ok ts' /\ wf true h' /\
      (c :: s <> [] -> h' = raxNewNode) /\ path ts' = path ts ++ c :: s /\ (forall x, tfind (plug ts' h') x = tfind (plug ts h) x) /\ nn' = u64 (nodes (plug ts' h'))).
  { intros h1 pos s1 Hfr Hset Es Hfind Hn. pose proof (frame_data _ _ _ _ Hfr) as [_ Hlab].
    destruct (IH raxNewNode s1 ((h1, pos) :: ts) (u64 (nn + 1))) as (h' & ts' & nn' & Ha & Hc' & Hw & Hnew & Hp & Hf' & Hnn').
    - done.
    - apply wf_new.
    - done.
    - intros c' s' _. apply not_elem_of_nil.
    - apply (f_equal length) in Es. rewrite length_app in Es. cbn in Es, Hf. destruct (label h1 pos); [done|]. cbn in Es. lia.
    - cbn [plug]. rewrite Hset, Hnn, uwrap_add_l. f_equal. rewrite (nodes_plug max_size ts h1 h Hc), Hn. lia.
    - exists h', ts', nn'. cbn [path plug] in *. rewrite Hset in *. split_and!; [done|done|done| |by rewrite Hp, Es, app_assoc| |done].
      + intros _. destruct s1; [|by apply Hnew]. cbn in Ha. destruct fuel; cbn in Ha; by simplify_eq.
      + intros x. rewrite Hf'. revert x. by apply plug_ext with (max_size := max_size). }
  cbn [add_nodes]. destruct ((size h =? 0)%nat && (1 <? length (c :: s))%nat) eqn:E.
  - apply andb_true_iff in E as [E1 E2]. apply Nat.eqb_eq in E1. apply Nat.ltb_lt in E2.
    assert (Hd : data h = []) by (by apply nil_length_inv). set (cs := if _ >? _ then _ else _).
    assert (Hcs : (2 <= cs <= length (c :: s))%nat /\ Z.of_nat cs <= max_size) by (subst cs; destruct (Z.gtb_spec (Z.of_nat (length (c :: s))) max_size); lia).
    unfold raxCompressNode. rewrite (proj2 (Nat.eqb_eq _ _) E1), Hcp. cbn [andb negb guard mbind option_bind].
    assert (Hl : length (take cs (c :: s)) = cs) by (rewrite length_take; lia).
    assert (Hlab : label (RaxNode (key h) true (take cs (c :: s)) [raxNewNode : raxNode]) O = take cs (c :: s)) by done.
    apply Hgo; [|done|by rewrite Hlab, take_drop| |].
    + split; [split_and!; cbn [data children]; rewrite ?Hl; (lia || done)|]. split; [cbn; lia|]. by intros [|i] ? ?.
    + intros r. rewrite tfind_compr. destruct r as [|x r]; [by destruct h|]. rewrite leaf_find by done. destruct (strip _ _); [apply tfind_new|done].
    + rewrite (nodes_eq h), nodes_eq. pose proof (wf_shape _ _ _ Hh) as Hsh. rewrite Hcp, Hd in Hsh. destruct Hsh as [Hl0 _].
      apply nil_length_inv in Hl0 as ->. done.
  - destruct (raxAddChild_ok (is_nil ts) h c Hh Hcp) as (h1 & pos & -> & Hfr & Hlab & Hset & Hfind & Hn); [by eapply Hs|]. cbn [mbind option_bind].
    apply Hgo; [done|done|by rewrite Hlab|done|done].
Qed.

(** * Insertion *)

Lemma set_data_find (h : raxNode) d r : tfind (raxSetData h d) r = if decide (r = []) then Some d else tfind h r.
Proof. destruct h as [k c dt cs]. by destruct r. Qed.

Lemma set_data_wf root root' h d : wf root h -> wf root' (raxSetData h d).
Proof. intros [k c dt cs Hs _ Hcs]. constructor; [done|by right; right|done]. Qed.

Lemma set_data_nodes ts (h : raxNode) d : ctx_ok ts -> nodes (plug ts (raxSetData h d)) = nodes (plug ts h).
Proof. intros Hc. rewrite (nodes_plug max_size ts (raxSetData h d) h Hc), (nodes_eq h), nodes_eq. cbn. lia. Qed.

(** The key of the node the walk stopped at gets the value. *)
Definition updated (t t' : raxNode) (s : bytes) (d : option V) : Prop :=
  forall s', tfind t' s' = if decide (s' = s) then Some d else tfind t s'.

Record tree_ok (r : rax V) : Prop := { tr_wf : wf true (head r); tr_nodes : numnodes r = u64 (nodes (head r)) }.

Lemma raxGenericInsert_ok r s d overwrite : tree_ok r ->
  let old := tfind (head r) s in
  let absent := bool_decide (old = None) in
  exists r', raxGenericInsert max_size r s d overwrite = Some (r', absent, old) /\ tree_ok r' /\
    numele r' = (if absent then u64 (numele r + 1) else numele r) /\
    (if absent || overwrite then updated (head r) (head r') s d else r' = r).
Proof.
  intros [Hr Hnn] old absent. unfold raxGenericInsert. destruct (raxLowWalk_ok max_size r s Hr) as (w & q & -> & Hst). cbn [mbind option_bind].
  pose proof (stopped_find _ _ _ _ _ Hst) as Hfind. fold old in Hfind. pose proof Hst as [Hc Hw Ht Hp Hrest Hcase]. set (h := stopnode w) in *.
  destruct (at_node w) eqn:Ea.
  { pose proof (stopped_at _ _ _ _ _ Hst Ea) as ->. rewrite app_nil_r in Hp. assert (Ek : old = key h) by (rewrite Hfind; by destruct h).
    assert (Hset : forall n, tree_ok (mkRax (plug (ts w) (raxSetData h d)) n (numnodes r)) /\ updated (head r) (plug (ts w) (raxSetData h d)) s d).
    { intros n. split; [split; cbn [head numnodes]|].
      - apply wf_plug; [done|]. by eapply set_data_wf.
      - by rewrite set_data_nodes, Ht.
      - intros s'. rewrite (plug_update max_size (ts w) h (raxSetData h d) [] (Some d) Hc), Ht, app_nil_r, <- Hp; [done|]. intros r'. rewrite set_data_find. by repeat case_decide. }
    unfold iskey. subst absent. rewrite Ek. destruct (key h) as [x|].
    - rewrite bool_decide_false by done. destruct overwrite; cbn [orb]; (eexists; split; [done|]).
      + split; [apply Hset|]. split; [done|]. by apply (Hset (numele r)).
      + by split_and!.
    - rewrite bool_decide_true by done. cbn [orb]. eexists. split; [done|]. split; [apply Hset|]. split; [done|]. by apply (Hset (numele r)). }
  destruct (stopped_not_at _ _ _ _ _ Hst Ea) as [Hq Hnone]. fold h in Hnone. rewrite Hnone in Hfind. subst absent. rewrite Hfind, bool_decide_true by done. cbn [orb].
  destruct (iscompr h) eqn:Ecp; cbn [andb].
  - destruct Hcase as [Hj Hcase]. destruct (Nat.eqb_spec (length (rest w)) 0) as [El|El].
    + apply nil_length_inv in El. rewrite El, app_nil_r in Hrest.
      assert (Hj0 : (0 < splitpos w < size h)%nat) by (split; [|done]; destruct (splitpos w); [|lia]; by rewrite take_0 in Hrest).
      destruct (split_inside_ok (ts w) h (splitpos w) d (numnodes r) Hc Hw Ecp Hj0) as (h' & -> & Hw' & Hf' & Hn'); [by rewrite Ht|]. cbn [mbind option_bind].
      eexists. split; [done|]. split; [split; cbn [head numnodes]; [by apply wf_plug|by rewrite Hn']|]. split; [done|].
      intros s'. cbn [head]. rewrite (plug_update max_size (ts w) h h' q (Some d) Hc), Ht, <- Hp; [done|]. intros r'. by rewrite Hf', Hrest.
    + destruct Hcase as [E|(c & c' & r' & Er & Ec' & Hne)]; [by rewrite E in El|].
      destruct (split_mismatch_ok (ts w) h (splitpos w) c' (numnodes r) Hc Hw Ecp Ec') as (h1 & ts1 & nn1 & -> & Hc1 & Hw1 & Hcp1 & Hd1 & Hp1 & Hf1 & Hn1); [by rewrite Ht|].
      cbn [mbind option_bind]. destruct (add_nodes_ok (length (rest w)) h1 (rest w) ts1 nn1) as (h2 & ts2 & nn2 & -> & Hc2 & Hw2 & Hnew & Hp2 & Hf2 & Hn2);
        [done|by eapply wf_root|done| |done|done|].
      { rewrite Hd1, Er. intros ? ? [= <- <-]. intros ?%list_elem_of_singleton. done. }
      cbn [mbind option_bind]. rewrite Hnew by (by rewrite Er). cbn [iskey key raxNewNode negb]. eexists. split; [done|].
      assert (Hpath : s = path ts2) by (by rewrite Hp2, Hp1, <- app_assoc, <- Hrest).
      split; [split; cbn [head numnodes]; [apply wf_plug; [done|]; by eapply set_data_wf, wf_new|by rewrite Hn2, set_data_nodes, Hnew by (done || by rewrite Er)]|].
      split; [done|]. intros s'. cbn [head]. rewrite (plug_update max_size ts2 raxNewNode (raxSetData raxNewNode d) [] (Some d) Hc2), app_nil_r, <- Hpath by (intros ?; rewrite set_data_find; by repeat case_decide).
      rewrite <- (Hnew ltac:(by rewrite Er)), Hf2, Hf1, Ht. done.
  - destruct Hcase as [Hj Hcase]. rewrite Hj, take_0, app_nil_l in Hrest. destruct Hcase as [E|(c & r' & Er & Hnc)]; [by rewrite Hrest, E in Hq|].
    cbn [mbind option_bind].
    destruct (add_nodes_ok (length (rest w)) h (rest w) (ts w) (numnodes r)) as (h2 & ts2 & nn2 & -> & Hc2 & Hw2 & Hnew & Hp2 & Hf2 & Hn2);
      [done|by eapply wf_root|done| |done|by rewrite Ht|].
    { rewrite Er. by intros ? ? [= <- <-]. }
    cbn [mbind option_bind]. rewrite Hnew by (by rewrite Er). cbn [iskey key raxNewNode negb]. eexists. split; [done|].
    assert (Hpath : s = path ts2) by (by rewrite Hp2, <- Hrest).
    split; [split; cbn [head numnodes]; [apply wf_plug; [done|]; by eapply set_data_wf, wf_new|by rewrite Hn2, set_data_nodes, Hnew by (done || by rewrite Er)]|].
    split; [done|]. intros s'. cbn [head]. rewrite (plug_update max_size ts2 raxNewNode (raxSetData raxNewNode d) [] (Some d) Hc2), app_nil_r, <- Hpath by (intros ?; rewrite set_data_find; by repeat case_decide).
    rewrite <- (Hnew ltac:(by rewrite Er)), Hf2, Ht. done.
Qed.

End Insert.
End RaxInsertSpec.
