(* ===== verification/RaxRemoveSpec.v ===== *)
(** Removal from a radix tree: [raxRemove] (rax.c) deletes the key from the map, frees the nodes
    that are not used any more and merges the chains of nodes with one edge. *)

From S2P Require Import Prelude Rax RaxSpec RaxInsertSpec.

Module RaxRemoveSpec.
Import Rax RaxSpec RaxInsertSpec.

Section Remove.
Context {V : Type} (max_size : Z) (Hmax : 2 <= max_size).

Abbreviation raxNode := (raxNode V).
Abbreviation wf := (wf (V := V) max_size).
Abbreviation ctx_ok := (ctx_ok (V := V) max_size).
Abbreviation frame_ok := (frame_ok (V := V) max_size).

(** A node that is not the head of an empty tree has a key below it. *)
Lemma has_key (n : raxNode) : forall root, wf root n -> root = false \/ data n <> [] -> exists s, tfind n s <> None.
Proof.
  induction n as [k c d cs IH] using node_ind. intros root Hn Hr. destruct (decide (d = [])) as [->|Hd].
  - exists []. destruct Hr as [->|]; [|done]. by destruct (wf_key _ _ _ Hn) as [|[|]].
  - assert (Hj : exists c0, cs !! O = Some c0).
    { pose proof (wf_shape _ _ _ Hn) as Hs. cbn in Hs. apply lookup_lt_is_Some_2. destruct c; [destruct Hs as (_ & _ & ->); lia|].
      destruct Hs as [-> _]. destruct d; [done|cbn; lia]. }
    destruct Hj as [c0 Hj]. destruct (wf_unframe _ _ _ O c0 Hn Hj) as [Hf Hw]. rewrite Forall_lookup in IH.
    destruct (IH O c0 Hj false Hw) as [s Hs]; [by left|]. exists (label (RaxNode k c d cs) O ++ s).
    by rewrite <- (set_child_id (RaxNode k c d cs) O c0 Hj), (frame_find max_size root) at 1.
Qed.

(** * Removal of a child *)

Lemma edges_delete (d : bytes) (cs : list raxNode) j c y : NoDup d -> length cs = length d -> d !! j = Some c ->
  edges (delete j d) (delete j cs) y = if y =? c then None else edges d cs y.
Proof.
  intros Hd Hl Hj. pose proof (lookup_lt_Some _ _ _ Hj) as Hlt. destruct (lookup_lt_is_Some_2 cs j ltac:(lia)) as [n Hn].
  rewrite !delete_take_drop. rewrite <- (take_drop_middle d j c Hj) in Hd. apply NoDup_app in Hd as (_ & Hd1 & Hd2).
  assert (Hc1 : c ∉ take j d) by (intros Hin; apply (Hd1 c Hin); by left).
  assert (Hc2 : c ∉ drop (S j) d) by (by inversion Hd2).
  rewrite <- (take_drop_middle d j c Hj) at 3. rewrite <- (take_drop_middle cs j n Hn) at 3.
  rewrite edges_insert by (rewrite ?length_take; (lia || done)).
  destruct (Z.eqb_spec y c) as [->|]; [|done]. apply edges_none. rewrite elem_of_app. tauto.
Qed.

Lemma edges_set (d : bytes) (cs : list raxNode) j c n y : NoDup d -> length cs = length d -> d !! j = Some c ->
  edges d (<[j := n]> cs) y = if y =? c then Some n else edges (delete j d) (delete j cs) y.
Proof.
  intros Hd Hl Hj. pose proof (lookup_lt_Some _ _ _ Hj) as Hlt. rewrite !delete_take_drop, insert_take_drop by lia.
  rewrite <- (take_drop_middle d j c Hj) at 1. rewrite <- (take_drop_middle d j c Hj) in Hd. apply NoDup_app in Hd as (_ & Hd1 & _).
  apply edges_insert; [rewrite !length_take; lia|]. intros Hin. apply (Hd1 c Hin). by left.
Qed.

Lemma remove_child_find root (p : raxNode) j x : frame_ok root p j -> (forall r, tfind x r = None) ->
  forall r, tfind (raxRemoveChild p j) r = tfind (set_child p j x) r.
Proof.
  intros Hf Hx r. pose proof Hf as (Hs & Hj & _). unfold raxRemoveChild. destruct p as [k c d cs]. cbn [iscompr key data children] in *.
  destruct r as [|y r]; [by destruct c|]. destruct c.
  - destruct (compr_frame _ _ _ _ Hf eq_refl) as [-> [ch E]]. cbn in E. subst cs. unfold set_child. cbn [key iscompr data children insert list_insert].
    change (tfind (RaxNode k true d [x]) (y :: r)) with (match strip d (y :: r) with Some q => tfind x q | None => None end).
    by destruct (strip d (y :: r)); [rewrite Hx|].
  - destruct Hs as [Hl Hsort]. unfold set_child. cbn [key iscompr data children]. rewrite !edges_find.
    destruct (lookup_lt_is_Some_2 d j ltac:(lia)) as [c Hc]. pose proof (sorted_nodup d Hsort) as Hnd.
    rewrite (edges_set d cs j c x y Hnd Hl Hc), (edges_delete d cs j c y Hnd Hl Hc). destruct (y =? c); [by rewrite Hx|done].
Qed.

Lemma remove_child_nodes root (p : raxNode) j : frame_ok root p j -> nodes (raxRemoveChild p j) = nodes (set_child p j raxNewNode) - 1.
Proof.
  intros Hf. pose proof Hf as (Hs & Hj & _). rewrite !nodes_eq. unfold raxRemoveChild. destruct p as [k c d cs]. cbn [iscompr key data children set_child] in *.
  destruct c; cbn [children].
  - destruct (compr_frame _ _ _ _ Hf eq_refl) as [-> [ch E]]. cbn in E. by subst cs.
  - rewrite delete_take_drop, insert_take_drop, !map_app, !total_app by done. cbn [map]. unfold total at 3. cbn. unfold total. lia.
Qed.

Lemma remove_child_wf root (p : raxNode) j : frame_ok root p j -> (data (raxRemoveChild p j) = [] -> root = true \/ key p <> None) ->
  wf root (raxRemoveChild p j).
Proof.
  intros Hf Hk. pose proof Hf as (Hs & Hj & Ho). unfold raxRemoveChild in *. destruct p as [k c d cs]. cbn [iscompr key data children] in *. destruct c.
  - constructor; [split; [done|constructor]| |constructor]. destruct (Hk eq_refl); auto.
  - destruct Hs as [Hl Hsort]. constructor.
    + split; [rewrite !length_delete by (apply lookup_lt_is_Some_2; lia); lia|rewrite delete_take_drop; by apply sorted_delete].
    + cbn [data] in Hk. destruct (delete j d) eqn:E; [|by right; left]. destruct (Hk eq_refl); auto.
    + apply Forall_lookup. intros i c Hi. destruct (decide (i < j)%nat).
      * rewrite list_lookup_delete_lt in Hi by done. by apply (Ho i); [lia|].
      * rewrite list_lookup_delete_ge in Hi by lia. by apply (Ho (S i)); [lia|].
Qed.

(** * Freeing the nodes above *)

(** A node with one edge that is not a key. *)
Lemma not_stop (h : raxNode) : shape_ok max_size (iscompr h) (data h) (children h) -> is_stop h = false ->
  exists c, h = chain_node None (data h) c /\ data h <> [] /\ Z.of_nat (length (data h)) <= max_size.
Proof.
  intros Hs Hst. unfold is_stop, iskey, size in Hst. destruct h as [k c d cs]. cbn [iscompr key data children] in *. destruct k; [done|]. cbn in Hst. destruct c.
  - destruct Hs as (H2 & Hl & H1). destruct cs as [|ch [|? ?]]; try done. exists ch. split_and!; [|intros ->; cbn in H2; lia|done].
    unfold chain_node. by rewrite (proj2 (Nat.ltb_lt 1 (length d))) by lia.
  - destruct Hs as [Hl _]. cbn in Hst. apply negb_false_iff, Nat.eqb_eq in Hst. destruct d as [|x [|? ?]]; try done. destruct cs as [|ch [|? ?]]; try done.
    exists ch. split_and!; [done|done|cbn; lia].
Qed.

Lemma free_up_ok ts : forall h child nn x, ctx_ok ts -> ts <> [] -> (forall r, tfind x r = None) -> nn = u64 (nodes (plug ts raxNewNode)) ->
  exists q j ts' nn', free_up ts h child nn = (q, Some j, ts', nn') /\ ctx_ok ts' /\ frame_ok (is_nil ts') q j /\ (is_stop q = true \/ ts' = []) /\
    (forall s, tfind (plug ts' (raxRemoveChild q j)) s = tfind (plug ts x) s) /\ nn' = u64 (nodes (plug ts' (raxRemoveChild q j))).
Proof.
  induction ts as [|[p j] ts IH]; intros h child nn x Hc Hne Hx Hnn; [done|]. destruct Hc as [Hf Hc]. cbn [free_up plug] in *.
  assert (Hhere : (forall s, tfind (plug ts (raxRemoveChild p j)) s = tfind (plug ts (set_child p j x)) s) /\
    u64 (nn - 1) = u64 (nodes (plug ts (raxRemoveChild p j)))).
  { split.
    - apply plug_ext with (max_size := max_size); [done|]. by eapply remove_child_find.
    - rewrite Hnn. change (?a - 1) with (a + -1). rewrite uwrap_add_l. f_equal.
      rewrite (nodes_plug max_size ts (raxRemoveChild p j) (set_child p j raxNewNode) Hc), (remove_child_nodes _ p j Hf). lia. }
  destruct Hhere as [Hh1 Hh2]. destruct (is_stop p) eqn:Est.
  { exists p, j, ts, (u64 (nn - 1)). split_and!; [done|done|done|by left|done|done]. }
  destruct ts as [|f ts].
  { exists p, j, [], (u64 (nn - 1)). split_and!; [done|done|done|by right|done|done]. }
  destruct (IH p (Some j) (u64 (nn - 1)) (set_child p j x) Hc ltac:(done)) as (q & j' & ts' & nn' & H1 & H2); [| |by exists q, j', ts', nn'].
  - intros r. destruct (not_stop p (proj1 Hf) Est) as (ch & Ep & Hd & _). rewrite Ep. change (set_child _ _ _) with (RaxNode None (1 <? length (data p))%nat (data p) (<[j := x]> [ch])).
    destruct Hf as (_ & Hj & _). rewrite Ep in Hj. cbn in Hj. replace j with O by lia. change (tfind (chain_node None (data p) x) r = None).
    rewrite tfind_chain by done. destruct r; [done|]. unfold follow. by destruct (strip _ _); [rewrite Hx|].
  - rewrite Hh2. f_equal. rewrite (nodes_plug max_size (f :: ts) (raxRemoveChild p j) raxNewNode Hc), (remove_child_nodes _ p j Hf).
    destruct (not_stop p (proj1 Hf) Est) as (ch & Ep & _ & _). destruct Hf as (_ & Hj & _). rewrite Ep in Hj |- *. cbn in Hj. replace j with O by lia.
    change (set_child (chain_node None (data p) ch) 0 raxNewNode) with (chain_node None (data p) (raxNewNode : raxNode)). rewrite nodes_chain. lia.
Qed.

(** * Recompression *)

Lemma go_up_ok ts : forall h, ctx_ok ts -> wf (is_nil ts) h -> is_stop h = false ->
  let '(start, ts') := go_up ts h in ctx_ok ts' /\ wf (is_nil ts') start /\ is_stop start = false /\ plug ts' start = plug ts h.
Proof.
  induction ts as [|[p j] ts IH]; intros h Hc Hh Hs; cbn [go_up plug]; [done|]. destruct (is_stop p) eqn:E; [done|]. destruct Hc as [Hf Hc].
  apply IH; [done|by apply wf_frame|]. by destruct p.
Qed.

(** The bytes of the chain of nodes from [h] on, the node it leads to and the number of nodes. *)
Fixpoint chain (h : raxNode) : bytes * raxNode * Z :=
  match h with
  | RaxNode _ _ d [c] => if is_stop c then (d, c, 1) else let '(D, e, k) := chain c in (d ++ D, e, k + 1)
  | _ => ([], h, 0)
  end.

Lemma chain_of k cp d (c : raxNode) : chain (RaxNode k cp d [c]) = if is_stop c then (d, c, 1) else let '(D, e, k) := chain c in (d ++ D, e, k + 1).
Proof. done. Qed.

Lemma chain_ok (h : raxNode) : forall root, wf root h -> is_stop h = false ->
  let '(D, e, k) := chain h in
  D <> [] /\ (forall r, tfind h r = follow D e r) /\ wf false e /\ nodes h = nodes e + k /\ 1 <= k /\
  (size h <= length D)%nat /\ (1 < k -> (2 <= length D)%nat).
Proof.
  induction h as [k0 cp d cs IH] using node_ind. intros root Hh Hs. destruct (not_stop _ (wf_shape _ _ _ Hh) Hs) as (c & E & Hd & _). cbn [data] in *.
  injection E as -> -> ->. apply Forall_cons in IH as [IH _]. pose proof (wf_children _ _ _ Hh) as Hw. cbn [children] in Hw. apply Forall_cons in Hw as [Hw _].
  change (RaxNode None (1 <? length d)%nat d [c]) with (chain_node None d c) in *. unfold chain_node at 1. rewrite chain_of. fold (chain_node None d c).
  assert (Hl : (1 <= length d)%nat) by (destruct d; [done|cbn; lia]).
  assert (Hf : forall r, tfind (chain_node None d c) r = follow d c r) by (intros r; rewrite tfind_chain by done; destruct r; [by rewrite follow_nil|done]).
  destruct (is_stop c) eqn:Ec.
  - split_and!; [done|done|done|by rewrite nodes_chain|lia|unfold size; cbn; lia|lia].
  - specialize (IH false Hw eq_refl). destruct (chain c) as [[D e] k]. destruct IH as (HD & Hfc & Hwe & Hn & Hk & Hsz & _). split_and!.
    + by destruct d.
    + intros r. rewrite Hf. unfold follow. rewrite strip_app_l. destruct (strip d r); [apply Hfc|done].
    + done.
    + rewrite nodes_chain. lia.
    + lia.
    + unfold size. cbn [data chain_node]. rewrite length_app. lia.
    + intros _. rewrite length_app. destruct D; [done|cbn; lia].
Qed.

(** The first scan finds the chain, when it is not too long for a node. *)
Lemma scan_chain_ok (h : raxNode) : forall root comprsize nn, wf root h -> is_stop h = false ->
  let '(D, e, k) := chain h in
  comprsize + Z.of_nat (length D) - Z.of_nat (size h) <= max_size ->
  scan_chain max_size h comprsize nn = (comprsize + Z.of_nat (length D) - Z.of_nat (size h), nn + k - 1).
Proof.
  induction h as [k0 cp d cs IH] using node_ind. intros root comprsize nn Hh Hs. destruct (not_stop _ (wf_shape _ _ _ Hh) Hs) as (c & E & Hd & _). cbn [data] in *.
  injection E as -> -> ->. apply Forall_cons in IH as [IH _]. pose proof (wf_children _ _ _ Hh) as Hw. cbn [children] in Hw. apply Forall_cons in Hw as [Hw _].
  rewrite chain_of. cbn [scan_chain]. change (size (RaxNode _ _ d [c])) with (length d). destruct (is_stop c) eqn:Ec.
  - intros _. f_equal; lia.
  - specialize (IH false (comprsize + Z.of_nat (size c)) (nn + 1) Hw eq_refl). pose proof (chain_ok c false Hw Ec) as Hc. destruct (chain c) as [[D e] k].
    destruct Hc as (_ & _ & _ & _ & _ & Hsz & _). rewrite length_app. intros Hle.
    destruct (Z.gtb_spec (comprsize + Z.of_nat (size c)) max_size) as [?|_]; [lia|]. rewrite IH by lia. f_equal; lia.
Qed.

(** The second scan copies it in the room there is. *)
Lemma copy_chain_ok (h : raxNode) : forall root room buf nn, wf root h -> is_stop h = false -> urange 64 nn ->
  let '(D, e, k) := chain h in
  Z.of_nat (length buf) + Z.of_nat (length D) <= room -> copy_chain h room buf nn = Some (buf ++ D, e, u64 (nn - k)).
Proof.
  induction h as [k0 cp d cs IH] using node_ind. intros root room buf nn Hh Hs Hnn. destruct (not_stop _ (wf_shape _ _ _ Hh) Hs) as (c & E & Hd & _). cbn [data] in *.
  injection E as -> -> ->. apply Forall_cons in IH as [IH _]. pose proof (wf_children _ _ _ Hh) as Hw. cbn [children] in Hw. apply Forall_cons in Hw as [Hw _].
  rewrite chain_of. cbn [copy_chain]. destruct (is_stop c) eqn:Ec.
  - intros Hle. rewrite (proj2 (Z.leb_le _ _)) by (rewrite length_app; lia). done.
  - specialize (IH false room (buf ++ d) (u64 (nn - 1)) Hw eq_refl ltac:(by apply uwrap_range)). destruct (chain c) as [[D e] k].
    rewrite !length_app. intros Hle. rewrite (proj2 (Z.leb_le _ _)) by lia. cbn [guard mbind option_bind].
    
    rewrite IH by (rewrite length_app; lia). assert (E : u64 (u64 (nn - 1) - k) = u64 (nn - (k + 1))); [|by rewrite E, app_assoc].
    change (u64 (nn - 1) - k) with (u64 (nn - 1) + - k). rewrite uwrap_add_l. f_equal. lia.
Qed.

(** No key is longer than what a node can hold. *)
Definition keys_fit (t : raxNode) : Prop := forall s, tfind t s <> None -> Z.of_nat (length s) <= max_size.

Lemma recompress_ok ts h nn : ctx_ok ts -> wf (is_nil ts) h -> is_stop h = false -> keys_fit (plug ts h) -> nn = u64 (nodes (plug ts h)) ->
  exists t nn', recompress max_size ts h nn = Some (t, nn') /\ wf true t /\ (forall s, tfind t s = tfind (plug ts h) s) /\ nn' = u64 (nodes t).
Proof.
  intros Hc Hh Hs Hfit Hnn. unfold recompress. pose proof (go_up_ok ts h Hc Hh Hs) as Hup. destruct (go_up ts h) as [start ts'].
  destruct Hup as (Hc' & Hw & Hst & Epl). rewrite <- Epl in *. clear Epl. pose proof (chain_ok start _ Hw Hst) as Hch. pose proof (scan_chain_ok start _ (Z.of_nat (size start)) 1 Hw Hst) as Hsc.
  pose proof (fun room buf nn => copy_chain_ok start (is_nil ts') room buf nn Hw Hst) as Hcp. destruct (chain start) as [[D e] k]. destruct Hch as (HD & Hf & Hwe & Hn & Hk & Hsz & H2).
  assert (Hlen : Z.of_nat (length D) <= max_size).
  { destruct (has_key e false Hwe ltac:(by left)) as [s0 Hs0]. specialize (Hfit (path ts' ++ D ++ s0)).
    rewrite (plug_find max_size ts' start (D ++ s0) Hc'), Hf in Hfit. unfold follow in Hfit. rewrite strip_app in Hfit. specialize (Hfit Hs0).
    rewrite !length_app in Hfit. lia. }
  rewrite Hsc by lia. destruct (Z.gtb_spec (1 + k - 1) 1) as [Hgt|Hle].
  - rewrite Hcp by (by apply uwrap_range || (cbn; lia)). cbn [mbind option_bind app]. eexists _, _. split; [done|].
    assert (Hnew : forall r, tfind (RaxNode None true D [e]) r = tfind start r).
    { intros r. rewrite tfind_compr, Hf. destruct r; [by rewrite follow_nil|done]. }
    split_and!.
    + apply wf_plug; [done|]. constructor; [split_and!; [apply H2; lia|lia|done]|by right; left|by apply Forall_singleton].
    + apply plug_ext with (max_size := max_size); [done|]. exact Hnew.
    + rewrite Hnn, uwrap_add_l. change (?a - k) with (a + - k). rewrite uwrap_add_l. f_equal.
      rewrite (nodes_plug max_size ts' (RaxNode None true D [e]) start Hc'), Hn, (nodes_eq (RaxNode None true D [e])). cbn [children map]. unfold total. cbn. lia.
  - eexists _, _. split; [done|]. split_and!; [by apply wf_plug|done|done].
Qed.

(** * Removal *)

Lemma clear_key_find (h : raxNode) r : tfind (clear_key h) r = match r with [] => None | _ => tfind h r end.
Proof. destruct h. by destruct r. Qed.

Lemma clear_key_wf root root' h : wf root h -> root' = true \/ data h <> [] -> wf root' (clear_key h).
Proof. intros [k c d cs Hs _ Hcs] Hd. cbn in Hd. constructor; [done|tauto|done]. Qed.

Definition deleted (t t' : raxNode) (s : bytes) : Prop := forall s', tfind t' s' = if decide (s' = s) then None else tfind t s'.

Lemma deleted_fit t t' s : deleted t t' s -> keys_fit t -> keys_fit t'.
Proof. intros Hd Hf s' Hs'. rewrite Hd in Hs'. case_decide; [done|by apply Hf]. Qed.

Lemma raxRemove_ok r s : tree_ok max_size r -> keys_fit (head r) ->
  let old := tfind (head r) s in
  exists r', raxRemove max_size r s = Some (r', old) /\ tree_ok max_size r' /\ numele r' = (match old with Some _ => u64 (numele r - 1) | None => numele r end) /\
    deleted (head r) (head r') s.
Proof.
  intros [Hr Hnn] Hfit old. unfold raxRemove. destruct (raxLowWalk_ok max_size r s Hr) as (w & q & -> & Hst). cbn [mbind option_bind].
  pose proof (stopped_find _ _ _ _ _ Hst) as Hfind. fold old in Hfind. pose proof Hst as [Hc Hw Ht Hp _ _].
  assert (Hold : (if at_node w then key (stopnode w) else None) = old).
  { destruct (at_node w) eqn:Ea.
    - rewrite (stopped_at _ _ _ _ _ Hst Ea) in Hfind. rewrite Hfind. by destruct (stopnode w).
    - destruct (stopped_not_at _ _ _ _ _ Hst Ea) as [_ Hn]. congruence. }
  rewrite Hold. destruct old as [x|] eqn:Eold.
  2: { exists r. split_and!; [done|done|done|]. intros s'. case_decide as E; [|done]. by subst s'. }
  destruct (at_node w) eqn:Ea; [|done]. pose proof (stopped_at _ _ _ _ _ Hst Ea) as Eq. rewrite Eq, app_nil_r in Hp. set (h := stopnode w) in *.
  assert (Hdel : deleted (head r) (plug (ts w) (clear_key h)) s).
  { intros s'. rewrite (plug_update max_size (ts w) h (clear_key h) [] None Hc), Ht, app_nil_r, <- Hp; [done|].
    intros r'. rewrite clear_key_find. destruct r'; [by rewrite decide_True|by rewrite decide_False]. }
  assert (Hn0 : nodes (plug (ts w) (clear_key h)) = nodes (head r)).
  { rewrite <- Ht, (nodes_plug max_size (ts w) (clear_key h) h Hc), (nodes_eq h), (nodes_eq (clear_key h)). change (children (clear_key h)) with (children h). lia. }
  assert (Hdone : forall t nn, wf true t -> (forall s', tfind t s' = tfind (plug (ts w) (clear_key h)) s') -> nn = u64 (nodes t) ->
    tree_ok max_size (mkRax t (u64 (numele r - 1)) nn) /\ deleted (head r) t s).
  { intros t nn H1 H2 H3. split; [done|]. intros s'. by rewrite H2. }
  change (size (clear_key h)) with (size h). destruct (Nat.eqb_spec (size h) 0) as [H0|H0].
  - assert (Hd : data h = []) by (by apply nil_length_inv). assert (Hcl : forall r', tfind (clear_key h) r' = None).
    { intros r'. rewrite clear_key_find. destruct r' as [|y r']; [done|]. apply leaf_find; [done|].
      pose proof (wf_shape _ _ _ Hw) as Hs. destruct (iscompr h); [rewrite Hd in Hs; cbn in Hs; lia|done]. }
    destruct (ts w) as [|f ts] eqn:Ets.
    + cbn [free_up plug] in *. eexists. split; [done|]. edestruct (Hdone (clear_key h) (numnodes r)) as [? ?];
        [eapply clear_key_wf; [done|by left]|done|congruence|]. split_and!; done.
    + destruct (free_up_ok (f :: ts) (clear_key h) None (numnodes r) (clear_key h) Hc ltac:(done) Hcl) as (p & j & ts' & nn' & -> & Hc' & Hf & Hstop & Hfd & Hn').
      { rewrite Hnn, <- Hn0. f_equal. rewrite (nodes_plug max_size (f :: ts) (clear_key h) raxNewNode Hc), (nodes_eq (clear_key h)). cbn [children clear_key].
        pose proof (wf_shape _ _ _ Hw) as Hs. rewrite Hd in Hs. destruct (iscompr h); [cbn in Hs; lia|]. destruct Hs as [Hl _].
        apply nil_length_inv in Hl as ->. cbn. lia. }
      assert (Hwn : wf (is_nil ts') (raxRemoveChild p j)).
      { apply remove_child_wf; [done|]. intros He. destruct Hstop as [Hstop| ->]; [|by left]. right. unfold is_stop, iskey in Hstop. destruct (key p); [done|].
        exfalso. cbn in Hstop. unfold raxRemoveChild in He. destruct (iscompr p) eqn:Ecp; [done|]. cbn in Hstop, He. apply negb_true_iff, Nat.eqb_neq in Hstop.
        apply (f_equal length) in He. destruct Hf as (Hs & Hj & _). rewrite Ecp in Hs. destruct Hs as [Hl _].
        rewrite length_delete in He by (apply lookup_lt_is_Some_2; lia). unfold size in Hstop. cbn in He. lia. }
      destruct ((size (raxRemoveChild p j) =? 1)%nat && negb (iskey (raxRemoveChild p j))) eqn:E.
      * apply andb_true_iff in E as [E1 E2]. apply negb_true_iff in E2.
        destruct (recompress_ok ts' (raxRemoveChild p j) nn' Hc' Hwn) as (t & nn2 & -> & Hwt & Hft & Hnt); [by unfold is_stop; rewrite E2, E1, andb_false_r| |done|].
        { intros s' Hs'. rewrite Hfd in Hs'. by eapply (deleted_fit _ _ _ Hdel Hfit). }
        cbn [mbind option_bind]. eexists. split; [done|]. destruct (Hdone t nn2) as [? ?]; [done|intros s'; by rewrite Hft|done|]. by split_and!.
      * eexists. split; [done|]. destruct (Hdone (plug ts' (raxRemoveChild p j)) nn') as [? ?]; [by apply wf_plug|done|done|]. by split_and!.
  - assert (Hwc : wf (is_nil (ts w)) (clear_key h)) by (eapply clear_key_wf; [done|right; intros E; apply H0; unfold size; by rewrite E]).
    destruct (Nat.eqb_spec (size h) 1) as [H1|H1].
    + destruct (recompress_ok (ts w) (clear_key h) (numnodes r) Hc Hwc) as (t & nn2 & -> & Hwt & Hft & Hnt).
      * unfold is_stop. cbn. unfold size in *. cbn. rewrite H1. by rewrite andb_false_r.
      * by eapply deleted_fit.
      * by rewrite Hn0.
      * cbn [mbind option_bind]. eexists. split; [done|]. destruct (Hdone t nn2) as [? ?]; [done|done|done|]. by split_and!.
    + eexists. split; [done|]. destruct (Hdone (plug (ts w) (clear_key h)) (numnodes r)) as [? ?]; [by apply wf_plug|done|by rewrite Hn0|]. by split_and!.
Qed.

End Remove.
End RaxRemoveSpec.
