(* ===== verification/RaxMapSpec.v ===== *)
(** Radix trees as finite maps: the entries of a tree in the order of their keys, and any sequence
    of insertions, lookups and removals followed by the release of the tree (rax.c). *)

From S2P Require Import Prelude Rax RaxSpec RaxInsertSpec RaxRemoveSpec.

Module RaxMapSpec.
Import Rax RaxSpec RaxInsertSpec RaxRemoveSpec.

(** * The order of strings *)

(** The order of [memcmp], a prefix first. *)
Fixpoint slt (a b : bytes) : bool :=
  match a, b with
  | _, [] => false
  | [], _ :: _ => true
  | x :: a, y :: b => (x <? y) || ((x =? y) && slt a b)
  end.

Lemma slt_irrefl a : slt a a = false.
Proof. induction a as [|x a IH]; cbn; [done|]. by rewrite Z.ltb_irrefl, Z.eqb_refl, IH. Qed.

Lemma slt_trans a : forall b c, slt a b = true -> slt b c = true -> slt a c = true.
Proof.
  induction a as [|x a IH]; intros [|y b] [|z c] H1 H2; cbn in *; try done.
  destruct (Z.ltb_spec x y) as [Hxy|Hxy], (Z.ltb_spec y z) as [Hyz|Hyz], (Z.eqb_spec x y) as [Exy|Exy], (Z.eqb_spec y z) as [Eyz|Eyz];
    try done; cbn in *; destruct (Z.ltb_spec x z) as [Hxz|Hxz]; try done; destruct (Z.eqb_spec x z); cbn; try lia; by eapply IH.
Qed.

Lemma slt_total a : forall b, a = b \/ slt a b = true \/ slt b a = true.
Proof.
  induction a as [|x a IH]; intros [|y b]; cbn; auto. destruct (Z.lt_trichotomy x y) as [Hlt|[->|Hgt]].
  - right; left. by rewrite (proj2 (Z.ltb_lt x y)).
  - rewrite Z.ltb_irrefl, Z.eqb_refl. cbn. destruct (IH b) as [->|[H|H]]; auto.
  - right; right. by rewrite (proj2 (Z.ltb_lt y x)).
Qed.

Lemma slt_app p a b : slt (p ++ a) (p ++ b) = slt a b.
Proof. induction p as [|x p IH]; [done|]. cbn. by rewrite Z.ltb_irrefl, Z.eqb_refl, IH. Qed.

Lemma slt_nil a : a <> [] -> slt [] a = true.
Proof. by destruct a. Qed.

Section Entries.
Context {V : Type} (max_size : Z).

Abbreviation raxNode := (raxNode V).
Abbreviation wf := (wf (V := V) max_size).

(** * The entries of a tree *)

Definition below (l : bytes) (es : list (bytes * option V)) : list (bytes * option V) := map (fun e => (l ++ e.1, e.2)) es.

Definition own (k : option (option V)) : list (bytes * option V) := match k with Some x => [([], x)] | None => [] end.

Fixpoint entries (n : raxNode) : list (bytes * option V) :=
  match n with
  | RaxNode k compr d cs =>
    own k ++
    if compr then match cs with ch :: _ => below d (entries ch) | [] => [] end
    else (fix edge (d : bytes) (cs : list raxNode) {struct cs} : list (bytes * option V) :=
            match d, cs with x :: d, ch :: cs => below [x] (entries ch) ++ edge d cs | _, _ => [] end) d cs
  end.

(** The edges of a node with their children. *)
Definition branches (n : raxNode) : list (bytes * raxNode) :=
  if iscompr n then match children n with ch :: _ => [(data n, ch)] | [] => [] end else zip (map (fun x => [x]) (data n)) (children n).

Definition edge_entries (b : bytes * raxNode) : list (bytes * option V) := below b.1 (entries b.2).

Lemma entries_eq n : entries n = own (key n) ++ concat (map edge_entries (branches n)).
Proof.
  destruct n as [k [|] d cs]; unfold branches; cbn [key iscompr data children].
  - destruct cs as [|ch cs]; [done|]. cbn. by rewrite app_nil_r.
  - cbn. f_equal. revert cs. induction d as [|x d IH]; intros [|ch cs]; cbn; [done..|]. by rewrite <- IH.
Qed.

Lemma branch_at n l ch : shape_ok max_size (iscompr n) (data n) (children n) ->
  (l, ch) ∈ branches n <-> exists j, children n !! j = Some ch /\ label n j = l.
Proof.
  intros Hs. unfold branches, label. destruct (iscompr n).
  - destruct Hs as (_ & _ & Hl). destruct (children n) as [|c [|? ?]]; [done| |done]. rewrite list_elem_of_singleton. split.
    + intros [= -> ->]. by exists O.
    + intros ([|j] & Hj & <-); [|done]. by injection Hj as ->.
  - destruct Hs as [Hl _]. split.
    + intros (j & Hj)%list_elem_of_lookup. apply lookup_zip_with_Some in Hj as (l' & c & [= -> ->] & Hd & Hc). exists j. split; [done|].
      rewrite list_lookup_fmap in Hd. destruct (data n !! j); [|done]. by injection Hd as <-.
    + intros (j & Hj & <-). apply list_elem_of_lookup. exists j. apply lookup_zip_with_Some. destruct (lookup_lt_is_Some_2 (data n) j) as [x Hx].
      { rewrite <- Hl. by eapply lookup_lt_Some. }
      exists [x], ch. rewrite Hx. split; [done|]. by rewrite list_lookup_fmap, Hx.
Qed.

(** The entries are the values of the tree. *)
Lemma entries_find n : forall root, wf root n -> forall s x, (s, x) ∈ entries n <-> tfind n s = Some x.
Proof.
  induction n as [k c d cs IH] using node_ind. intros root Hn s x. set (n := RaxNode k c d cs). pose proof (wf_shape _ _ _ Hn) as Hs.
  rewrite entries_eq, elem_of_app. rewrite Forall_lookup in IH.
  assert (Hdown : forall j ch, children n !! j = Some ch -> forall r y, tfind n (label n j ++ r) = Some y <-> (r, y) ∈ entries ch).
  { intros j ch Hj r y. destruct (wf_unframe _ _ _ _ _ Hn Hj) as [Hf Hw]. rewrite (IH j ch Hj false Hw).
    rewrite <- (set_child_id n j ch Hj) at 1. by rewrite (frame_find max_size root). }
  split.
  - intros [Ho|Hb].
    + unfold own in Ho. cbn [key n] in Ho. destruct k; [|by apply not_elem_of_nil in Ho]. apply list_elem_of_singleton in Ho. by simplify_eq.
    + apply list_elem_of_In, in_concat in Hb as (es & (b & <- & Hb)%in_map_iff & Hin). apply list_elem_of_In in Hin, Hb. destruct b as [l ch].
      apply (branch_at n l ch Hs) in Hb as (j & Hj & <-). apply list_elem_of_fmap in Hin as ([r y] & [= -> ->] & Hin). by apply (Hdown j ch).
  - intros Hf. destruct s as [|z s']; [left; cbn in Hf; subst k; by left|right].
    assert (Hj : exists j ch r, children n !! j = Some ch /\ z :: s' = label n j ++ r).
    { unfold n in *. unfold label. cbn [iscompr data children] in *. destruct c.
      - destruct cs as [|ch cs]; [done|]. cbn in Hf. change (match strip d (z :: s') with Some r => tfind ch r | None => None end = Some x) in Hf.
        destruct (strip d (z :: s')) as [r|] eqn:E; [|done]. apply strip_Some in E. by exists O, ch, r.
      - destruct Hs as [Hl _]. cbn in Hl. rewrite (tfind_branch k d cs z s' Hl) in Hf. destruct (cs !! edge_index d z) as [ch|] eqn:E; [|done].
        destruct (edge_index_spec d z) as [[E' _]|E']; [apply lookup_lt_Some in E; lia|]. exists (edge_index d z), ch, s'. by rewrite E'. }
    destruct Hj as (j & ch & r & Hj & E). rewrite E in *. apply (Hdown j ch Hj) in Hf. apply list_elem_of_In, in_concat.
    exists (edge_entries (label n j, ch)). split.
    + apply in_map, list_elem_of_In, branch_at; [done|]. by exists j.
    + apply list_elem_of_In, list_elem_of_fmap. by exists (r, x).
Qed.

Definition sorted_keys (es : list (bytes * option V)) : Prop := StronglySorted (fun a b => slt a b = true) (map fst es).

Lemma below_sorted l es : sorted_keys es -> sorted_keys (below l es).
Proof.
  unfold sorted_keys, below. induction es as [|e es IH]; cbn; intros Hs; [constructor|]. apply StronglySorted_inv in Hs as [Hs He].
  constructor; [by apply IH|]. rewrite map_map. apply Forall_map. apply Forall_map in He. eapply Forall_impl; [exact He|]. cbn. intros e'. by rewrite slt_app.
Qed.

Lemma sorted_app (es1 es2 : list (bytes * option V)) : sorted_keys es1 -> sorted_keys es2 ->
  (forall a b, a ∈ map fst es1 -> b ∈ map fst es2 -> slt a b = true) -> sorted_keys (es1 ++ es2).
Proof. intros H1 H2 H. unfold sorted_keys. rewrite map_app. apply StronglySorted_app. split_and!; done. Qed.

Lemma below_keys l es a : a ∈ map fst (below l es) -> exists r, a = l ++ r.
Proof. unfold below. rewrite map_map. intros (e & -> & _)%list_elem_of_fmap. by exists e.1. Qed.

(** The keys are in the order of the edges. *)
Lemma entries_sorted n : forall root, wf root n -> sorted_keys (entries n).
Proof.
  induction n as [k c d cs IH] using node_ind. intros root Hn. pose proof (wf_shape _ _ _ Hn) as Hs. pose proof (wf_children _ _ _ Hn) as Hw.
  rewrite entries_eq. cbn [key]. cbn [children data iscompr] in Hs, Hw.
  assert (Hbr : sorted_keys (concat (map edge_entries (branches (RaxNode k c d cs)))) /\
    forall a, a ∈ map fst (concat (map edge_entries (branches (RaxNode k c d cs)))) -> a <> []).
  { unfold branches. cbn [iscompr data children]. destruct c.
    - destruct Hs as (H2 & _ & _). destruct cs as [|ch cs]; [split; [constructor|by intros a ?%not_elem_of_nil]|]. apply Forall_cons in IH as [IH _]. apply Forall_cons in Hw as [Hw _].
      cbn [map concat]. rewrite app_nil_r. split; [by eapply below_sorted, IH|]. intros a (r & ->)%below_keys. destruct d; [cbn in H2; lia|done].
    - destruct Hs as [Hl Hsort]. clear Hn. revert cs Hl IH Hw. induction Hsort as [|x d Hd IHd Hx]; intros [|ch cs] Hl IH Hw; try done; [split; [constructor|by intros a ?%not_elem_of_nil]|].
      apply Forall_cons in IH as [IH1 IH]. apply Forall_cons in Hw as [Hw1 Hw]. cbn in Hl. destruct (IHd cs ltac:(lia) IH Hw) as [Hs1 Hs2]. cbn [zip_with map concat]. split.
      + apply sorted_app; [by eapply below_sorted, IH1|done|]. intros a b (r & ->)%below_keys Hb.
        apply list_elem_of_fmap in Hb as (e & -> & Hb). apply list_elem_of_In, in_concat in Hb as (es & (br & <- & Hb)%in_map_iff & Hin).
        apply list_elem_of_In, (list_elem_of_fmap_2 fst) in Hin. apply below_keys in Hin as (r' & ->). apply list_elem_of_In, list_elem_of_lookup in Hb as (j & Hj).
        apply lookup_zip_with_Some in Hj as (l & c' & -> & Hdj & _). rewrite list_lookup_fmap in Hdj. destruct (d !! j) as [y|] eqn:Ey; [|done]. injection Hdj as <-.
        rewrite Forall_lookup in Hx. apply Hx in Ey. cbn. by rewrite (proj2 (Z.ltb_lt x y)).
      + intros a Ha. rewrite map_app, elem_of_app in Ha. destruct Ha as [(r & ->)%below_keys|Ha]; [done|by apply Hs2]. }
  destruct Hbr as [Hb1 Hb2]. apply sorted_app; [destruct k; repeat constructor|done|].
  intros a b Ha Hb. assert (a = []) as -> by (destruct k; [by apply list_elem_of_singleton in Ha|by apply not_elem_of_nil in Ha]). by apply slt_nil, Hb2.
Qed.

Lemma sorted_nodup_keys es : sorted_keys es -> NoDup (map fst es).
Proof.
  unfold sorted_keys. induction 1 as [|a l Hl IH Ha]; constructor; [|done]. intros Hin. rewrite Forall_forall in Ha. apply Ha in Hin. by rewrite slt_irrefl in Hin.
Qed.

(** A tree and a map with the same values have the same entries. *)
Lemma entries_map (n : raxNode) (m : gmap bytes (option V)) root : wf root n -> (forall s, m !! s = tfind n s) -> map_to_list m ≡ₚ entries n.
Proof.
  intros Hn Hm. apply NoDup_Permutation.
  - apply NoDup_map_to_list.
  - eapply NoDup_fmap_1, sorted_nodup_keys, entries_sorted, Hn.
  - intros [s x]. by rewrite elem_of_map_to_list, Hm, (entries_find n root Hn).
Qed.

(** * Release *)

Definition values (es : list (bytes * option V)) : list V := omap snd es.

Lemma values_below l es : values (below l es) = values es.
Proof. unfold values, below. induction es as [|e es IH]; cbn; [done|]. by destruct e.2; rewrite IH. Qed.

Lemma values_app es1 es2 : values (es1 ++ es2) = values es1 ++ values es2.
Proof. apply omap_app. Qed.

(** The children are freed from the last to the first. *)
Definition free_all (nn : Z) : list raxNode -> Z * list V := fix free_all (cs : list raxNode) : Z * list V :=
  match cs with
  | [] => (nn, [])
  | c :: cs => let '(nn, freed) := free_all cs in let '(nn, freed') := raxRecursiveFree c nn in (nn, freed ++ freed')
  end.

Lemma raxRecursiveFree_eq k c d (cs : list raxNode) nn : raxRecursiveFree (RaxNode k c d cs) nn =
  let '(nn, freed) := free_all nn cs in (u64 (nn - 1), freed ++ match k with Some (Some v) => [v] | _ => [] end).
Proof. done. Qed.

(** The callback gets each value that is not NULL, and the count goes down by the number of nodes. *)
Lemma raxRecursiveFree_ok n : forall root nn, wf root n -> urange 64 nn ->
  exists freed, raxRecursiveFree n nn = (u64 (nn - nodes n), freed) /\ freed ≡ₚ values (entries n).
Proof.
  induction n as [k c d cs IH] using node_ind. intros root nn Hn Hnn. pose proof (wf_children _ _ _ Hn) as Hw. pose proof (wf_shape _ _ _ Hn) as Hs. cbn [children data iscompr] in *.
  rewrite raxRecursiveFree_eq. assert (Hall : exists freed, free_all nn cs = (u64 (nn - total (map nodes cs)), freed) /\ freed ≡ₚ concat (map (fun ch => values (entries ch)) cs)).
  { clear Hn Hs. induction cs as [|ch cs IHcs].
    - exists []. split; [|done]. cbn. rewrite Z.sub_0_r, uwrap_small by done. done.
    - apply Forall_cons in IH as [IH1 IH]. apply Forall_cons in Hw as [Hw1 Hw]. destruct (IHcs IH Hw) as (f1 & E1 & Hf1).
      change (free_all nn (ch :: cs)) with (let '(nn, freed) := free_all nn cs in let '(nn, freed') := raxRecursiveFree ch nn in (nn, freed ++ freed')).
      rewrite E1. destruct (IH1 false (u64 (nn - total (map nodes cs))) Hw1 ltac:(by apply uwrap_range)) as (f2 & -> & Hf2).
      exists (f1 ++ f2). split; [|cbn; rewrite Hf1, Hf2; apply Permutation_app_comm].
      change (u64 (nn - total (map nodes cs)) - nodes ch) with (u64 (nn - total (map nodes cs)) + - nodes ch). rewrite uwrap_add_l. do 2 f_equal. cbn [map]. unfold total. cbn. lia. }
  destruct Hall as (freed & -> & Hf). eexists. split.
  - change (u64 (nn - total (map nodes cs)) - 1) with (u64 (nn - total (map nodes cs)) + -1). rewrite uwrap_add_l, nodes_eq. do 2 f_equal. cbn [children]. lia.
  - rewrite entries_eq, values_app, Hf. cbn [key]. rewrite Permutation_app_comm. apply Permutation_app.
    + unfold own. by destruct k as [[v|]|].
    + clear -Hs. assert (E : values (concat (map edge_entries (branches (RaxNode k c d cs)))) = concat (map (fun ch => values (entries ch)) cs)); [|by rewrite E].
      unfold branches. cbn [iscompr data children]. destruct c.
      * destruct Hs as (_ & _ & Hl). destruct cs as [|ch [|? ?]]; try done. cbn [map concat]. by rewrite values_app, !app_nil_r || rewrite !app_nil_r; apply values_below.
      * destruct Hs as [Hl _]. revert cs Hl. induction d as [|x d IHd]; intros [|ch cs] Hl; try done. cbn [map zip_with concat].
        rewrite values_app, IHd by (cbn in Hl; lia). unfold edge_entries at 1. cbn [fst snd]. by rewrite values_below.
Qed.

End Entries.

(** * Any sequence of operations *)

Section Refine.
Context {V : Type} (max_size : Z) (Hmax : 2 <= max_size).

Abbreviation rax := (rax V).
Abbreviation smap := (gmap bytes (option V)).

Record repr (r : rax) (m : smap) : Prop := {
  rp_tree : tree_ok max_size r;
  rp_find s : m !! s = tfind (head r) s;
  rp_size : numele r = u64 (Z.of_nat (base.size m));
  rp_fit : map_Forall (fun s _ => Z.of_nat (length s) <= max_size) m
}.

Inductive rax_op := Insert (s : bytes) (d : option V) | TryInsert (s : bytes) (d : option V) | Find (s : bytes) | Remove (s : bytes) | Size.

(** What an insertion, a lookup or a removal tells of the old value, and a number of elements. *)
Inductive rax_answer := Old (found : bool) (old : option (option V)) | Value (v : option (option V)) | Number (n : Z).

Definition rax_step (r : rax) (op : rax_op) : option (rax * rax_answer) :=
  match op with
  | Insert s d => '(r, b, old) ← raxInsert max_size r s d; Some (r, Old b old)
  | TryInsert s d => '(r, b, old) ← raxTryInsert max_size r s d; Some (r, Old b old)
  | Find s => v ← raxFind r s; Some (r, Value v)
  | Remove s => '(r, old) ← raxRemove max_size r s; Some (r, Value old)
  | Size => Some (r, Number (raxSize r))
  end.

Definition smap_step (m : smap) (op : rax_op) : smap * rax_answer :=
  match op with
  | Insert s d => (<[s := d]> m, Old (bool_decide (m !! s = None)) (m !! s))
  | TryInsert s d => (if bool_decide (m !! s = None) then <[s := d]> m else m, Old (bool_decide (m !! s = None)) (m !! s))
  | Find s => (m, Value (m !! s))
  | Remove s => (delete s m, Value (m !! s))
  | Size => (m, Number (u64 (Z.of_nat (base.size m))))
  end.

Definition op_fits (op : rax_op) : bool := match op with Insert s _ | TryInsert s _ => Z.of_nat (length s) <=? max_size | _ => true end.

Fixpoint rax_run (r : rax) (ops : list rax_op) : option (rax * list rax_answer) :=
  match ops with [] => Some (r, []) | op :: ops => '(r, a) ← rax_step r op; '(r, l) ← rax_run r ops; Some (r, a :: l) end.

Fixpoint smap_run (m : smap) (ops : list rax_op) : smap * list rax_answer :=
  match ops with [] => (m, []) | op :: ops => let '(m, a) := smap_step m op in let '(m, l) := smap_run m ops in (m, a :: l) end.

Lemma repr_insert r m s d overwrite : repr r m -> Z.of_nat (length s) <= max_size ->
  exists r', raxGenericInsert max_size r s d overwrite = Some (r', bool_decide (m !! s = None), m !! s) /\
    repr r' (if bool_decide (m !! s = None) || overwrite then <[s := d]> m else m).
Proof.
  intros [Ht Hf Hn Hfit] Hl. destruct (raxGenericInsert_ok max_size Hmax r s d overwrite Ht) as (r' & -> & Ht' & Hn' & Hu). rewrite <- Hf in *.
  exists r'. split; [done|]. destruct (bool_decide (m !! s = None) || overwrite) eqn:E; [|by subst r'].
  split; [done| | |].
  - intros s'. rewrite Hu, <- Hf. case_decide as Es; [subst s'; by rewrite lookup_insert_eq|by rewrite lookup_insert_ne by congruence].
  - rewrite Hn', Hn, map_size_insert. destruct (m !! s) as [x|] eqn:Ex; [done|]. rewrite bool_decide_true, uwrap_add_l by done. f_equal. lia.
  - by apply map_Forall_insert_2.
Qed.

Lemma repr_fit r m : repr r m -> keys_fit max_size (head r).
Proof. intros [_ Hf _ Hfit] s Hs. rewrite <- Hf in Hs. destruct (m !! s) as [x|] eqn:E; [|done]. by apply (Hfit s x). Qed.

Lemma repr_remove r m s : repr r m -> exists r', raxRemove max_size r s = Some (r', m !! s) /\ repr r' (delete s m).
Proof.
  intros Hr. pose proof (repr_fit r m Hr) as Hk. destruct Hr as [Ht Hf Hn Hfit]. destruct (raxRemove_ok max_size Hmax r s Ht Hk) as (r' & -> & Ht' & Hn' & Hd).
  rewrite <- Hf in *. exists r'. split; [done|]. split; [done| | |].
  - intros s'. rewrite Hd, <- Hf. case_decide as Es; [subst s'; by rewrite lookup_delete_eq|by rewrite lookup_delete_ne by congruence].
  - rewrite Hn', Hn, map_size_delete. destruct (m !! s) as [x|] eqn:Ex; [|done]. change (?a - 1) with (a + -1). rewrite uwrap_add_l. f_equal.
    pose proof (map_size_ne_0_lookup_2 m s ltac:(by eexists)). lia.
  - by apply map_Forall_delete.
Qed.

Lemma rax_step_ok r m op : repr r m -> op_fits op = true ->
  exists r' a, rax_step r op = Some (r', a) /\ smap_step m op = ((smap_step m op).1, a) /\ repr r' (smap_step m op).1.
Proof.
  intros Hr Hop. destruct op as [s d|s d|s|s|]; cbn [rax_step smap_step op_fits fst] in *; unfold raxInsert, raxTryInsert.
  - apply Z.leb_le in Hop. destruct (repr_insert r m s d true Hr Hop) as (r' & -> & Hr'). rewrite orb_true_r in Hr'. by eexists _, _.
  - apply Z.leb_le in Hop. destruct (repr_insert r m s d false Hr Hop) as (r' & -> & Hr'). rewrite orb_false_r in Hr'. by eexists _, _.
  - rewrite (raxFind_ok max_size r s (tr_wf _ _ (rp_tree _ _ Hr))), <- (rp_find _ _ Hr). by eexists _, _.
  - destruct (repr_remove r m s Hr) as (r' & -> & Hr'). by eexists _, _.
  - rewrite <- (rp_size _ _ Hr). by eexists _, _.
Qed.

Lemma rax_run_ok ops : forall r m, repr r m -> forallb op_fits ops = true ->
  exists r' l m', rax_run r ops = Some (r', l) /\ smap_run m ops = (m', l) /\ repr r' m'.
Proof.
  induction ops as [|op ops IH]; intros r m Hr Hops; cbn [rax_run smap_run]; [by exists r, [], m|]. cbn [forallb] in Hops. apply andb_true_iff in Hops as [Hop Hops].
  destruct (rax_step_ok r m op Hr Hop) as (r1 & a & -> & Hm & Hr1). rewrite Hm. cbn [mbind option_bind]. destruct (IH r1 (smap_step m op).1 Hr1 Hops) as (r' & l & m' & -> & -> & Hr').
  by eexists _, _, _.
Qed.

Lemma repr_new : repr raxNew ∅.
Proof. split; [split; [apply wf_new|done]|intros s; rewrite lookup_empty; symmetry; apply tfind_new|done|apply map_Forall_empty]. Qed.

(** The release of a tree gives the values that are not NULL to the callback. *)
Lemma free_ok r m : repr r m -> exists freed, raxFreeWithCallback r = Some freed /\ freed ≡ₚ omap snd (map_to_list m).
Proof.
  intros [[Hw Hn] Hf _ _]. unfold raxFreeWithCallback. destruct (raxRecursiveFree_ok max_size (head r) true (numnodes r) Hw) as (freed & -> & Hp).
  { rewrite Hn. by apply uwrap_range. }
  exists freed. rewrite Hn. change (?a - nodes ?b) with (a + - nodes b). rewrite uwrap_add_l, Z.add_opp_diag_r. split; [done|].
  rewrite Hp. unfold values. by rewrite (entries_map max_size (head r) m true Hw Hf).
Qed.

(** C9. A radix tree is a finite map from strings to values that may be NULL: from an empty tree,
    any sequence of insertions with or without overwriting, lookups and removals of keys no
    longer than a node can hold ([max_size], 2^29 - 1 in the code) runs without an access out of a
    node or a failed assertion and gives the answers of the same operations on a finite map, the
    number of elements included; nodes are split, extended, freed and merged on the way.  At the end
    the tree holds the map, and releasing it satisfies the assertion that no node is left and gives
    the callback each value that is not NULL, once. *)
Theorem rax_refines_map (ops : list rax_op) : forallb op_fits ops = true ->
  exists r l m freed, rax_run raxNew ops = Some (r, l) /\ smap_run ∅ ops = (m, l) /\ (forall s, raxFind r s = Some (m !! s)) /\
    raxFreeWithCallback r = Some freed /\ freed ≡ₚ omap snd (map_to_list m).
Proof.
  intros Hops. destruct (rax_run_ok ops raxNew ∅ repr_new Hops) as (r & l & m & Hr & Hm & Hrep). destruct (free_ok r m Hrep) as (freed & Hf & Hp).
  exists r, l, m, freed. split_and!; [done|done| |done|done]. intros s. by rewrite (raxFind_ok max_size r s (tr_wf _ _ (rp_tree _ _ Hrep))), (rp_find _ _ Hrep).
Qed.

End Refine.

Module Sample.

(** The strings of the comments of rax.c. *)
Definition ANNIBALE : bytes := [65; 78; 78; 73; 66; 65; 76; 69].
Definition ANNIENTARE : bytes := [65; 78; 78; 73; 69; 78; 84; 65; 82; 69].
Definition ANNIBALI : bytes := [65; 78; 78; 73; 66; 65; 76; 73].
Definition AGO : bytes := [65; 71; 79].
Definition CIAO : bytes := [67; 73; 65; 79].
Definition ANNI : bytes := [65; 78; 78; 73].
Definition FOO : bytes := [70; 79; 79].
Definition FOOBAR : bytes := [70; 79; 79; 66; 65; 82].
Definition FOOTER : bytes := [70; 79; 79; 84; 69; 82].

Definition sample_ops : list (rax_op (V := Z)) :=
  [Insert ANNIBALE (Some 1); Insert ANNIENTARE (Some 2); TryInsert ANNIBALI None; Insert AGO (Some 3); Insert CIAO (Some 4); Insert ANNI (Some 5);
   Insert ANNI (Some 6); TryInsert CIAO (Some 7); Insert [] None; Find ANNIBALI; Find [65]; Remove ANNIBALE; Remove AGO; Remove [65]; Size; Remove ANNIENTARE; Find ANNI].

Lemma rax_refines_map_witness : forallb (op_fits RAX_NODE_MAX_SIZE) sample_ops = true /\
  exists r l m freed, rax_run RAX_NODE_MAX_SIZE raxNew sample_ops = Some (r, l) /\ smap_run ∅ sample_ops = (m, l) /\ (forall s, raxFind r s = Some (m !! s)) /\
    raxFreeWithCallback r = Some freed /\ freed ≡ₚ omap snd (map_to_list m).
Proof. split; [by vm_compute|]. apply (rax_refines_map RAX_NODE_MAX_SIZE ltac:(done) sample_ops). by vm_compute. Defined.

Definition tree_after (ops : list (rax_op (V := Z))) : option (raxNode Z) := option_map (fun x => head x.1) (rax_run RAX_NODE_MAX_SIZE raxNew ops).

(** The second example of the comment on recompression: without FOOTER, FOOBAR is one node. *)
Lemma sample_recompress : tree_after [Insert FOOBAR (Some 1); Insert FOOTER (Some 2); Remove FOOTER] = Some (RaxNode None true FOOBAR [RaxNode (Some (Some 1)) false [] []]).
Proof. by vm_compute. Qed.

(** In the first one the node of the key FOO is compressed, and it is not merged with the node above it. *)
Lemma sample_no_recompress : tree_after [Insert FOO (Some 1); Insert FOOBAR (Some 2); Remove FOO] =
  Some (RaxNode None true FOO [RaxNode None true [66; 65; 82] [RaxNode (Some (Some 2)) false [] []]]).
Proof. by vm_compute. Qed.

(** With keys longer than a node can hold, the second scan of the recompression copies nodes the
    first one has left out: here a limit of 4 bytes in place of [RAX_NODE_MAX_SIZE]. *)
Lemma sample_overflow : rax_run 4 raxNew [Insert [1; 2; 3; 4; 5; 6; 7; 8] (Some 1); Insert [1; 9] (Some 2); Remove [1; 9]] = None.
Proof. by vm_compute. Qed.

End Sample.

End RaxMapSpec.
