(* ===== verification/RaxIter.v ===== *)
(** Iterators on radix trees: seeking an element and moving to the next and the previous one,
    rax.c.

    The stack of an iterator holds the parents of its node, from the last to the head; the node
    is the head of the tree when the stack is empty.  [key_buf] is the buffer of the current key
    and [key_len] the length of the key: bytes past it are those of former keys.  Iterators without
    a node callback are modelled. *)

From S2P Require Import Prelude Sds Rax.

Module RaxIter.
Import Sds Rax.

Section Iter.
Context {V : Type}.

Abbreviation raxNode := (raxNode V).
Abbreviation rax := (rax V).

Record raxIterator := mkIter {
  flag_eof : bool; flag_just_seeked : bool; key_buf : bytes; key_len : nat; it_data : option V; node : option raxNode; stack : list raxNode
}.

Definition raxStart : raxIterator := mkIter true false [] 0 None None [].

Definition set_flags (it : raxIterator) (eof js : bool) : raxIterator := mkIter eof js (key_buf it) (key_len it) (it_data it) (node it) (stack it).

Definition set_key_len (it : raxIterator) (len : nat) : raxIterator :=
  mkIter (flag_eof it) (flag_just_seeked it) (key_buf it) len (it_data it) (node it) (stack it).

Definition set_node (it : raxIterator) (n : raxNode) (st : list raxNode) : raxIterator :=
  mkIter (flag_eof it) (flag_just_seeked it) (key_buf it) (key_len it) (it_data it) (Some n) st.

(** [it->data = raxGetData(it->node)] *)
Definition get_data (it : raxIterator) : raxIterator :=
  mkIter (flag_eof it) (flag_just_seeked it) (key_buf it) (key_len it)
    (match node it with Some n => match key n with Some x => x | None => None end | None => None end) (node it) (stack it).

Definition raxIteratorAddChars (it : raxIterator) (s : bytes) : raxIterator :=
  mkIter (flag_eof it) (flag_just_seeked it) (take (key_len it) (key_buf it) ++ s ++ drop (key_len it + length s) (key_buf it)) (key_len it + length s)
    (it_data it) (node it) (stack it).

Definition raxIteratorDelChars (it : raxIterator) (count : nat) : raxIterator := set_key_len it (key_len it - count).

(** [it->node->iscompr ? it->node->size : 1] *)
Definition edge_size (n : raxNode) : nat := if iscompr n then size n else 1%nat.

Definition prev_byte (it : raxIterator) : option Z := _ ← guard (0 <? key_len it)%nat; key_buf it !! (key_len it - 1)%nat.

(** The iterator at the end: its key, its stack and its node are those of the start of the step. *)
Definition at_eof (it orig : raxIterator) : raxIterator :=
  mkIter true (flag_just_seeked it) (key_buf it) (key_len orig) (it_data it) (node orig) (stack orig).

(** The first edge after a byte, and the last one before it. *)
Fixpoint next_edge (d : bytes) (c : Z) : nat := match d with x :: d => if x >? c then O else S (next_edge d c) | [] => O end.

Fixpoint prev_edge (d : bytes) (c : Z) : option nat :=
  match d with
  | [] => None
  | x :: d => match prev_edge d c with Some i => Some (S i) | None => if x <? c then Some O else None end
  end.

(** How a search upward ends. *)
Inductive up := AtEof (it : raxIterator) | AtKey (it : raxIterator) | AtNode (it : raxIterator).

(** The inner [while(1)] of [raxIteratorNextStep]. *)
Fixpoint next_up (fuel : nat) (it orig : raxIterator) (noup : bool) : option up :=
  match fuel with
  | O => None
  | S fuel =>
    match noup, stack it with
    | false, [] => Some (AtEof (at_eof it orig))
    | _, _ =>
      prevchild ← prev_byte it;
      '(n, st) ← (if noup then n ← node it; Some (n, stack it) else match stack it with p :: st => Some (p, st) | [] => None end);
      let it := raxIteratorDelChars (set_node it n st) (edge_size n) in
      let i := next_edge (data n) prevchild in
      if negb (iscompr n) && ((if noup then 0 else 1) <? size n)%nat && negb (i =? size n)%nat then
        c ← data n !! i;
        ch ← children n !! i;
        let it := set_node (raxIteratorAddChars it [c]) ch (n :: st) in
        Some (if iskey ch then AtKey (get_data it) else AtNode it)
      else next_up fuel it orig false
    end
  end.

(** The outer [while(1)]; [fuel] bounds the nodes that are visited. *)
Fixpoint next_loop (fuel : nat) (it orig : raxIterator) (noup : bool) : option raxIterator :=
  match fuel with
  | O => None
  | S fuel =>
    n ← node it;
    let numchildren := if iscompr n then 1%nat else size n in
    if negb noup && negb (numchildren =? 0)%nat then
      ch ← children n !! O;
      let it := set_node (raxIteratorAddChars it (take (edge_size n) (data n))) ch (n :: stack it) in
      if iskey ch then Some (get_data it) else next_loop fuel it orig noup
    else
      u ← next_up (S (S (length (stack it)))) it orig noup;
      match u with
      | AtEof it | AtKey it => Some it
      | AtNode it => next_loop fuel it orig false
      end
  end.

(** The number of nodes of a tree. *)
Fixpoint count_nodes (n : raxNode) : nat := match n with RaxNode _ _ _ cs => S (sum_list_with count_nodes cs) end.

Definition raxIteratorNextStep (rt : rax) (it : raxIterator) (noup : bool) : option raxIterator :=
  if flag_eof it then Some it
  else if flag_just_seeked it then Some (set_flags it (flag_eof it) false)
  else next_loop (S (count_nodes (head rt))) it it noup.

(** [while(it->node->size)] *)
Fixpoint seek_greatest (fuel : nat) (it : raxIterator) : option raxIterator :=
  n ← node it;
  if (size n =? 0)%nat then Some it
  else match fuel with
  | O => None
  | S fuel =>
    let s := if iscompr n then data n else drop (size n - 1) (data n) in
    ch ← last (children n);
    seek_greatest fuel (set_node (raxIteratorAddChars it s) ch (n :: stack it))
  end.

Definition raxSeekGreatest (rt : rax) (it : raxIterator) : option raxIterator := seek_greatest (count_nodes (head rt)) it.

(** The [while(1)] of [raxIteratorPrevStep]. *)
Fixpoint prev_loop (fuel : nat) (rt : rax) (it orig : raxIterator) (noup : bool) : option raxIterator :=
  match fuel with
  | O => None
  | S fuel =>
    match noup, stack it with
    | false, [] => Some (at_eof it orig)
    | _, _ =>
      prevchild ← prev_byte it;
      '(n, st) ← (if noup then n ← node it; Some (n, stack it) else match stack it with p :: st => Some (p, st) | [] => None end);
      let it := raxIteratorDelChars (set_node it n st) (edge_size n) in
      it ← (if negb (iscompr n) && ((if noup then 0 else 1) <? size n)%nat then
          match prev_edge (data n) prevchild with
          | Some i =>
            c ← data n !! i;
            ch ← children n !! i;
            raxSeekGreatest rt (set_node (raxIteratorAddChars it [c]) ch (n :: st))
          | None => Some it
          end
        else Some it);
      n ← node it;
      if iskey n then Some (get_data it) else prev_loop fuel rt it orig false
    end
  end.

Definition raxIteratorPrevStep (rt : rax) (it : raxIterator) (noup : bool) : option raxIterator :=
  if flag_eof it then Some it
  else if flag_just_seeked it then Some (set_flags it (flag_eof it) false)
  else prev_loop (S (S (length (stack it)))) rt it it noup.

(** * Seeking *)

(** The operator: [lt], [gt] and [eq], or the first or the last element. *)
Record seek_op := mkOp { op_eq : bool; op_lt : bool; op_gt : bool; op_first : bool; op_last : bool }.

(** The characters of the operator, a byte 0 after them. *)
Definition seek_operator (op : bytes) : option seek_op :=
  let c0 := default 0 (op !! O) in
  let e := default 0 (op !! 1%nat) =? 61 in
  if c0 =? 62 then Some (mkOp e false true false false)
  else if c0 =? 60 then Some (mkOp e true false false false)
  else if c0 =? 61 then Some (mkOp true false false false false)
  else if c0 =? 94 then Some (mkOp false false false true false)
  else if c0 =? 36 then Some (mkOp false false false false true)
  else None.

(** The step from the place the walk stopped at, with [JUST_SEEKED] off before it and on after. *)
Definition seek_step (it : raxIterator) (step : raxIterator -> option raxIterator) : option raxIterator :=
  it ← step (set_flags it (flag_eof it) false);
  Some (set_flags it (flag_eof it) true).

(** The key of the node the walk stopped at is the current one: a step from it, by where the walk
    stopped. *)
Definition seek_from (rt : rax) (it : raxIterator) (op : seek_op) (w : stop (V := V)) : option raxIterator :=
  let n := stopnode w in
  match rest w with
  | keychar :: _ =>
    if negb (iscompr n) then
      seek_step (raxIteratorAddChars it [keychar]) (fun it =>
        it ← (if op_lt op then raxIteratorPrevStep rt it true else Some it);
        if op_gt op then raxIteratorNextStep rt it true else Some it)
    else
      nodechar ← data n !! splitpos w;
      seek_step it (fun it =>
        it ← (if op_gt op then
            if nodechar >? keychar then raxIteratorNextStep rt it false
            else raxIteratorNextStep rt (raxIteratorAddChars it (data n)) true
          else Some it);
        if op_lt op then
          if nodechar <? keychar then it ← raxSeekGreatest rt it; Some (get_data it)
          else raxIteratorPrevStep rt (raxIteratorAddChars it (data n)) true
        else Some it)
  | [] =>
    seek_step it (fun it =>
      if iscompr n && iskey n && negb (splitpos w =? 0)%nat && op_lt op then Some (get_data it)
      else
        it ← (if op_gt op then raxIteratorNextStep rt it false else Some it);
        if op_lt op then raxIteratorPrevStep rt it false else Some it)
  end.

(** [raxSeek] from the lookup on. *)
Definition seek_key (rt : rax) (it : raxIterator) (op : seek_op) (ele : bytes) : option raxIterator :=
  w ← raxLowWalk rt ele;
  let n := stopnode w in
  let it := set_node it n (map fst (ts w)) in
  if op_eq op && at_node w && iskey n then Some (get_data (raxIteratorAddChars it ele))
  else if op_lt op || op_gt op then
    let i := (length ele - length (rest w))%nat in
    seek_from rt (raxIteratorAddChars it (take (i - splitpos w) ele)) op w
  else Some (set_flags it true (flag_just_seeked it)).

(** The iterator, or [None] in the second place for an operator that is not known. *)
Definition raxSeek (rt : rax) (it : raxIterator) (op : bytes) (ele : bytes) : option (raxIterator * bool) :=
  let it := mkIter false true (key_buf it) 0 (it_data it) None [] in
  match seek_operator op with
  | None => Some (it, false)
  | Some op =>
    if numele rt =? 0 then Some (set_flags it true true, true)
    else if op_first op then
      it ← seek_key rt it (mkOp true false true false false) [];
      Some (it, true)
    else if op_last op then
      it ← raxSeekGreatest rt (set_node it (head rt) []);
      n ← node it;
      _ ← guard (iskey n);
      Some (get_data it, true)
    else
      it ← seek_key rt it op ele;
      Some (it, true)
  end.

Definition raxNext (rt : rax) (it : raxIterator) : option (raxIterator * bool) :=
  it ← raxIteratorNextStep rt it false; Some (it, negb (flag_eof it)).

Definition raxPrev (rt : rax) (it : raxIterator) : option (raxIterator * bool) :=
  it ← raxIteratorPrevStep rt it false; Some (it, negb (flag_eof it)).

Definition raxEOF (it : raxIterator) : bool := flag_eof it.

(** Whether the current key is as the operator says with regard to another key. *)
Definition raxCompare (it : raxIterator) (op key : bytes) : bool :=
  let o0 := default 0 (op !! O) in
  let o1 := default 0 (op !! 1%nat) in
  let eq := (o0 =? 61) || (o1 =? 61) in
  let gt := o0 =? 62 in
  let lt := negb gt && (o0 =? 60) in
  if negb gt && negb lt && negb (o1 =? 61) then false
  else
    let minlen := Nat.min (length key) (key_len it) in
    let cmp := memcmp (take minlen (key_buf it)) (take minlen key) in
    if negb lt && negb gt then (cmp =? 0) && (length key =? key_len it)%nat
    else if cmp =? 0 then
      if eq && (length key =? key_len it)%nat then true
      else if lt then (key_len it <? length key)%nat
      else (length key <? key_len it)%nat
    else if cmp >? 0 then gt
    else lt.

(** The current key. *)
Definition it_key (it : raxIterator) : bytes := take (key_len it) (key_buf it).

End Iter.

Arguments raxIterator : clear implicits.

End RaxIter.
