(* ===== verification/RaxIterSpec.v ===== *)
(** Iterators on radix trees: the place of an iterator splits the entries of the tree in those
    before it and those after it; seeking and moving follow the order of the keys (rax.c). *)

From S2P Require Import Prelude Rax RaxSpec RaxInsertSpec RaxRemoveSpec RaxMapSpec RaxIter.

Module RaxIterSpec.
Import Rax RaxSpec RaxInsertSpec RaxRemoveSpec RaxMapSpec RaxIter.

Section Place.
Context {V : Type} (max_size : Z).

Abbreviation raxNode := (raxNode V).
Abbreviation raxIterator := (raxIterator V).
Abbreviation wf := (wf (V := V) max_size).
Abbreviation ctx_ok := (ctx_ok (V := V) max_size).
Abbreviation frame_ok := (frame_ok (V := V) max_size).
Abbreviation entry := (bytes * option V)%type.

(** * The entries around a place *)

Definition branch_entries (bs : list (bytes * raxNode)) : list entry := concat (map edge_entries bs).

Fixpoint before_of (ts : raxStack V) : list entry :=
  match ts with
  | [] => []
  | (p, j) :: ts => before_of ts ++ below (path ts) (own (key p) ++ branch_entries (take j (branches p)))
  end.

Fixpoint after_of (ts : raxStack V) : list entry :=
  match ts with [] => [] | (p, j) :: ts => below (path ts) (branch_entries (drop (S j) (branches p))) ++ after_of ts end.

(** What comes after the key of the node [n] itself. *)
Definition rest_of (n : raxNode) (ts : raxStack V) : list entry := below (path ts) (branch_entries (branches n)) ++ after_of ts.

Lemma below_app l (es1 es2 : list entry) : below l (es1 ++ es2) = below l es1 ++ below l es2.
Proof. apply map_app. Qed.

Lemma below_below l1 l2 (es : list entry) : below l1 (below l2 es) = below (l1 ++ l2) es.
Proof. unfold below. rewrite map_map. apply map_ext. intros e. cbn. by rewrite app_assoc. Qed.

Lemma below_own l (k : option (option V)) : below l (own k) = match k with Some x => [(l, x)] | None => [] end.
Proof. destruct k; [|done]. cbn. by rewrite app_nil_r. Qed.

Lemma branch_entries_app bs1 bs2 : branch_entries (bs1 ++ bs2) = branch_entries bs1 ++ branch_entries bs2.
Proof. unfold branch_entries. by rewrite map_app, concat_app. Qed.

Lemma branches_length (p : raxNode) : shape_ok max_size (iscompr p) (data p) (children p) -> length (branches p) = length (children p).
Proof.
  intros Hs. unfold branches. destruct (iscompr p); [destruct Hs as (_ & _ & Hl); by destruct (children p) as [|c [|? ?]]|].
  destruct Hs as [Hl _]. rewrite length_zip_with, length_map. lia.
Qed.

Lemma branches_lookup (p : raxNode) j ch : shape_ok max_size (iscompr p) (data p) (children p) -> children p !! j = Some ch ->
  branches p !! j = Some (label p j, ch).
Proof.
  intros Hs Hj. unfold branches, label. destruct (iscompr p).
  - destruct Hs as (_ & _ & Hl). destruct (children p) as [|c [|? ?]]; try done. destruct j; [|done]. by injection Hj as ->.
  - destruct Hs as [Hl _]. apply lookup_zip_with_Some. destruct (lookup_lt_is_Some_2 (data p) j) as [x Hx]; [rewrite <- Hl; by eapply lookup_lt_Some|].
    exists [x], ch. by rewrite Hx, list_lookup_fmap, Hx.
Qed.

Lemma branches_set (p : raxNode) j n : shape_ok max_size (iscompr p) (data p) (children p) -> (j < length (children p))%nat ->
  branches (set_child p j n) = <[j := (label p j, n)]> (branches p).
Proof.
  intros Hs Hj. assert (Hs' : shape_ok max_size (iscompr (set_child p j n)) (data (set_child p j n)) (children (set_child p j n))).
  { unfold shape_ok in *. cbn [iscompr data children set_child]. by rewrite length_insert. }
  apply list_eq. intros i. destruct (decide (i = j)) as [->|Hne].
  - rewrite list_lookup_insert_eq by (by rewrite branches_length). rewrite (branches_lookup _ j n Hs'); [done|]. by apply list_lookup_insert_eq.
  - rewrite list_lookup_insert_ne by done. destruct (children p !! i) as [ch|] eqn:E.
    + rewrite (branches_lookup p i ch Hs E). apply (branches_lookup _ i ch Hs'). cbn [children set_child]. by rewrite list_lookup_insert_ne.
    + apply lookup_ge_None in E. rewrite !lookup_ge_None_2; [done|by rewrite branches_length|]. rewrite branches_length by done. cbn [children set_child]. by rewrite length_insert.
Qed.

Lemma entries_set (p : raxNode) j n : shape_ok max_size (iscompr p) (data p) (children p) -> (j < length (children p))%nat ->
  entries (set_child p j n) = (own (key p) ++ branch_entries (take j (branches p))) ++ below (label p j) (entries n) ++ branch_entries (drop (S j) (branches p)).
Proof.
  intros Hs Hj. rewrite entries_eq. fold (branch_entries (branches (set_child p j n))). rewrite (branches_set p j n Hs Hj).
  rewrite insert_take_drop by (by rewrite branches_length). rewrite branch_entries_app. cbn [key set_child]. by rewrite <- app_assoc.
Qed.

(** The entries of the tree, from a place in it. *)
Lemma entries_plug ts : forall n, ctx_ok ts -> entries (plug ts n) = before_of ts ++ below (path ts) (entries n) ++ after_of ts.
Proof.
  induction ts as [|[p j] ts IH]; intros n Hc; cbn [plug before_of after_of path].
  - rewrite app_nil_r. unfold below. symmetry. rewrite <- (map_id (entries n)) at 2. apply map_ext. by intros [].
  - destruct Hc as [(Hs & Hj & _) Hc]. rewrite IH, (entries_set p j n Hs Hj), !below_app, below_below, <- !app_assoc by done. done.
Qed.

Lemma place_entries n ts : ctx_ok ts -> entries (plug ts n) = before_of ts ++ below (path ts) (own (key n)) ++ rest_of n ts.
Proof. intros Hc. rewrite entries_plug, entries_eq, below_app, <- app_assoc by done. done. Qed.

Lemma key_entries n ts x : ctx_ok ts -> key n = Some x -> entries (plug ts n) = before_of ts ++ (path ts, x) :: rest_of n ts.
Proof. intros Hc Hk. by rewrite place_entries, Hk, below_own. Qed.

(** * Moving the iterator *)

(** The stack holds the parents of the node. *)
Fixpoint linked (ts : raxStack V) (n : raxNode) : Prop :=
  match ts with [] => True | (p, j) :: ts => children p !! j = Some n /\ linked ts p end.

Lemma walk_linked fuel : forall h s ts w, linked ts h -> low_walk fuel h s ts = Some w -> linked (Rax.ts w) (stopnode w).
Proof.
  induction fuel as [|fuel IH]; intros h s ts w Hl Hw; [done|]. cbn [low_walk] in Hw. destruct (_ || _); [injection Hw as <-; exact Hl|]. destruct (iscompr h).
  - destruct (negb _); [injection Hw as <-; exact Hl|]. destruct (children h !! O) as [c|] eqn:E; [|done]. cbn [mbind option_bind] in Hw. eapply IH; [|exact Hw]. by split.
  - destruct (s !! O) as [c|]; [|done]. cbn [mbind option_bind] in Hw. destruct (_ =? _)%nat; [injection Hw as <-; exact Hl|].
    destruct (children h !! edge_index (data h) c) as [ch|] eqn:E; [|done]. cbn [mbind option_bind] in Hw. eapply IH; [|exact Hw]. by split.
Qed.

Record at_place (t : raxNode) (it : raxIterator) (n : raxNode) (ts : raxStack V) : Prop := {
  ap_ctx : ctx_ok ts;
  ap_wf : wf (is_nil ts) n;
  ap_tree : plug ts n = t;
  ap_linked : linked ts n;
  ap_node : node it = Some n;
  ap_stack : stack it = map fst ts;
  ap_key : it_key it = path ts;
  ap_len : (key_len it <= length (key_buf it))%nat
}.

Lemma key_length (it : raxIterator) : (key_len it <= length (key_buf it))%nat -> key_len it = length (it_key it).
Proof. intros Hl. unfold it_key. rewrite length_take. lia. Qed.

Lemma add_chars (it : raxIterator) s : (key_len it <= length (key_buf it))%nat ->
  it_key (raxIteratorAddChars it s) = it_key it ++ s /\ (key_len (raxIteratorAddChars it s) <= length (key_buf (raxIteratorAddChars it s)))%nat.
Proof.
  intros Hl. unfold raxIteratorAddChars, it_key. cbn [key_len key_buf]. split.
  - rewrite app_assoc. apply take_app_length'. rewrite length_app, length_take. lia.
  - rewrite !length_app, length_take. lia.
Qed.

Lemma del_chars (it : raxIterator) k l : (key_len it <= length (key_buf it))%nat -> it_key it = k ++ l ->
  it_key (raxIteratorDelChars it (length l)) = k /\ (key_len (raxIteratorDelChars it (length l)) <= length (key_buf (raxIteratorDelChars it (length l))))%nat.
Proof.
  intros Hl Hk. pose proof (key_length it Hl) as E. rewrite Hk, length_app in E. unfold raxIteratorDelChars, set_key_len, it_key. cbn [key_len key_buf].
  split; [|lia]. replace (key_len it - length l)%nat with (length k) by lia. unfold it_key in Hk. apply (f_equal (take (length k))) in Hk.
  rewrite take_take, take_app_length in Hk. etransitivity; [|exact Hk]. f_equal. lia.
Qed.

Lemma prev_byte_ok (it : raxIterator) k c : (key_len it <= length (key_buf it))%nat -> it_key it = k ++ [c] -> prev_byte it = Some c.
Proof.
  intros Hl Hk. pose proof (key_length it Hl) as E. rewrite Hk, length_app in E. cbn in E. unfold prev_byte. rewrite (proj2 (Nat.ltb_lt 0 _)) by lia.
  cbn [guard mbind option_bind]. unfold it_key in Hk. apply (f_equal (fun l => l !! length k)) in Hk. rewrite lookup_take_lt in Hk by lia.
  rewrite list_lookup_middle in Hk by done. rewrite <- Hk. f_equal. lia.
Qed.

(** Down to the child [j]. *)
Lemma down_ok t it it' n ts j ch : at_place t it n ts -> children n !! j = Some ch -> it_key it' = it_key it ++ label n j ->
  (key_len it' <= length (key_buf it'))%nat -> at_place t (set_node it' ch (n :: stack it)) ch ((n, j) :: ts).
Proof.
  intros [Hc Hw Ht Hln Hn Hst Hk Hl] Hj Hk' Hl'. destruct (wf_unframe _ _ _ _ _ Hw Hj) as [Hf Hwc].
  split; [done|done|cbn [plug]; by rewrite (set_child_id _ _ _ Hj)|done|done|cbn [stack set_node map fst]; by rewrite Hst| |done].
  cbn [path]. rewrite <- Hk, <- Hk'. done.
Qed.

Lemma label_length root (p : raxNode) j : frame_ok root p j -> length (label p j) = edge_size p.
Proof.
  intros (Hs & Hj & _). unfold label, edge_size, size. destruct (iscompr p); [done|]. destruct Hs as [Hl _].
  by destruct (lookup_lt_is_Some_2 (data p) j ltac:(lia)) as [x ->].
Qed.

(** Up to the parent. *)
Lemma up_ok t it n p j ts : at_place t it n ((p, j) :: ts) ->
  at_place t (raxIteratorDelChars (set_node it p (map fst ts)) (edge_size p)) p ts.
Proof.
  intros [Hc Hw Ht [Hj Hln] Hn Hst Hk Hl]. destruct Hc as [Hf Hc]. cbn [path plug] in *. rewrite (set_child_id _ _ _ Hj) in Ht.
  assert (Hwp : wf (is_nil ts) p) by (rewrite <- (set_child_id _ _ _ Hj); by apply wf_frame).
  rewrite <- (label_length _ p j Hf). destruct (del_chars (set_node it p (map fst ts)) (path ts) (label p j) Hl Hk) as [Hk' Hl']. by split.
Qed.

(** * The next element *)

Definition same_flags (it it' : raxIterator) : Prop := flag_eof it' = flag_eof it /\ flag_just_seeked it' = flag_just_seeked it.

Lemma next_edge_spec d c : (next_edge d c <= length d)%nat /\ (forall i x, (i < next_edge d c)%nat -> d !! i = Some x -> x <= c) /\
  (next_edge d c = length d \/ exists x, d !! next_edge d c = Some x /\ c < x).
Proof.
  induction d as [|y d IH]; cbn; [by split_and!; [lia|intros; lia|left]|]. destruct (Z.gtb_spec y c) as [Hgt|Hle].
  - split_and!; [lia|intros; lia|right]. by exists y.
  - destruct IH as (H1 & H2 & H3). split_and!; [lia| |destruct H3 as [->|H3]; [by left|by right]].
    intros [|i] x Hi Hx; [cbn in Hx; simplify_eq; lia|]. apply (H2 i); [lia|done].
Qed.

Lemma next_edge_at d c j : StronglySorted Z.lt d -> d !! j = Some c -> next_edge d c = S j.
Proof.
  intros Hs Hj. destruct (next_edge_spec d c) as (H1 & H2 & H3). pose proof (lookup_lt_Some _ _ _ Hj) as Hlt.
  destruct (Nat.lt_trichotomy (next_edge d c) (S j)) as [Hl|[|Hg]]; [exfalso|done|exfalso].
  - destruct H3 as [E|(x & Hx & Hc)]; [lia|]. destruct (decide (next_edge d c = j)) as [E|]; [rewrite E in Hx; rewrite Hj in Hx; simplify_eq; lia|].
    pose proof (sorted_lookup d (next_edge d c) j x c Hs Hx Hj ltac:(lia)). lia.
  - destruct (lookup_lt_is_Some_2 d (S j)) as [y Hy]; [lia|]. pose proof (H2 (S j) y ltac:(lia) Hy). pose proof (sorted_lookup d j (S j) c y Hs Hj Hy ltac:(lia)). lia.
Qed.

(** The number of nodes that are still to be visited. *)
Fixpoint left_after (ts : raxStack V) : nat :=
  match ts with [] => O | (p, j) :: ts => (sum_list_with count_nodes (drop (S j) (children p)) + left_after ts)%nat end.
Definition left_of (n : raxNode) (ts : raxStack V) : nat := (sum_list_with count_nodes (children n) + left_after ts)%nat.

Lemma count_nodes_eq (n : raxNode) : count_nodes n = S (sum_list_with count_nodes (children n)).
Proof. by destruct n. Qed.

Lemma sum_drop {A} (f : A -> nat) l j x : l !! j = Some x -> sum_list_with f (drop j l) = (f x + sum_list_with f (drop (S j) l))%nat.
Proof. intros Hj. by rewrite (drop_S _ _ _ Hj). Qed.

Lemma left_bound ts : forall n, linked ts n -> ctx_ok ts -> (left_of n ts < count_nodes (plug ts n))%nat.
Proof.
  induction ts as [|[p j] ts IH]; intros n Hl Hc; cbn [plug].
  - rewrite count_nodes_eq. unfold left_of. cbn. lia.
  - destruct Hl as [Hj Hl]. destruct Hc as [_ Hc]. rewrite (set_child_id _ _ _ Hj). specialize (IH p Hl Hc). unfold left_of in *. cbn [left_after].
    rewrite <- (take_drop j (children p)), sum_list_with_app in IH. rewrite (sum_drop _ _ _ _ Hj), (count_nodes_eq n) in IH. lia.
Qed.

(** The next child of the parent. *)
Lemma after_next p j ts ch : shape_ok max_size (iscompr p) (data p) (children p) -> children p !! S j = Some ch ->
  below (path ((p, S j) :: ts)) (entries ch) ++ after_of ((p, S j) :: ts) = after_of ((p, j) :: ts) /\
  (count_nodes ch + left_after ((p, S j) :: ts))%nat = left_after ((p, j) :: ts).
Proof.
  intros Hs Hj. cbn [after_of path left_after]. rewrite (drop_S (branches p) _ _ (branches_lookup p (S j) ch Hs Hj)).
  change (branch_entries (?x :: ?l)) with (edge_entries x ++ branch_entries l). rewrite below_app, <- app_assoc. unfold edge_entries. rewrite below_below. split; [done|].
  rewrite (sum_drop _ _ _ _ Hj). lia.
Qed.

Lemma after_last p j ts : shape_ok max_size (iscompr p) (data p) (children p) -> (length (children p) <= S j)%nat ->
  after_of ((p, j) :: ts) = after_of ts /\ left_after ((p, j) :: ts) = left_after ts.
Proof. intros Hs Hj. cbn [after_of left_after]. by rewrite !drop_ge by (rewrite ?branches_length; done). Qed.

Lemma first_next n ts ch : shape_ok max_size (iscompr n) (data n) (children n) -> children n !! O = Some ch ->
  below (path ((n, O) :: ts)) (entries ch) ++ after_of ((n, O) :: ts) = rest_of n ts /\ left_of n ts = S (left_of ch ((n, O) :: ts)).
Proof.
  intros Hs Hj. unfold rest_of, left_of. cbn [after_of path left_after]. pose proof (branches_lookup n O ch Hs Hj) as Hb.
  destruct (branches n) as [|b bs]; [done|]. injection Hb as ->. destruct (children n) as [|c cs]; [done|]. injection Hj as ->. cbn [drop sum_list_with]. rewrite !drop_0.
  change (branch_entries (?x :: ?l)) with (edge_entries x ++ branch_entries l). rewrite below_app, <- app_assoc. unfold edge_entries. rewrite below_below. split; [done|].
  rewrite count_nodes_eq. lia.
Qed.

(** What the search upward gives, for what is left of the entries. *)
Definition up_found (t : raxNode) (it : raxIterator) (l : list entry) (left : nat) (u : up) : Prop :=
  (l = [] /\ exists it', u = AtEof it' /\ flag_eof it' = true /\ flag_just_seeked it' = flag_just_seeked it) \/
  exists it' ch ts, at_place t it' ch ts /\ same_flags it it' /\ u = (if iskey ch then AtKey (get_data it') else AtNode it') /\
    l = below (path ts) (entries ch) ++ after_of ts /\ left = S (left_of ch ts).

Lemma up_child t it n ts i x ch : at_place t it n ts -> iscompr n = false -> data n !! i = Some x -> children n !! i = Some ch ->
  at_place t (set_node (raxIteratorAddChars it [x]) ch (n :: stack it)) ch ((n, i) :: ts).
Proof.
  intros Hp Hcp Hx Hch. destruct (add_chars it [x] (ap_len _ _ _ _ Hp)) as [Hk Hl]. eapply down_ok; [done|done| |done].
  rewrite Hk. unfold label. by rewrite Hcp, Hx.
Qed.

(** The last byte of the key is that of the edge to the node. *)
Lemma place_byte t it n p j ts : at_place t it n ((p, j) :: ts) -> exists c, prev_byte it = Some c /\ (iscompr p = false -> data p !! j = Some c).
Proof.
  intros Hp. destruct (ap_ctx _ _ _ _ Hp) as [Hfr _]. pose proof (frame_data _ _ _ _ Hfr) as [_ Hlab]. destruct (exists_last Hlab) as (ex & c & El). exists c. split.
  - eapply prev_byte_ok; [apply Hp|]. rewrite (ap_key _ _ _ _ Hp). cbn [path]. by rewrite El, app_assoc.
  - intros Hcp. unfold label in El. rewrite Hcp in El. destruct (data p !! j) as [y|]; [|by destruct ex]. destruct ex; [by simplify_eq/=|by destruct ex].
Qed.

Lemma next_up_ok fuel : forall t it orig n ts, at_place t it n ts -> (length ts < fuel)%nat ->
  exists u, next_up fuel it orig false = Some u /\ up_found t it (after_of ts) (left_after ts) u.
Proof.
  induction fuel as [|fuel IH]; intros t it orig n ts Hp Hf; [lia|]. cbn [next_up]. rewrite (ap_stack _ _ _ _ Hp). destruct ts as [|[p j] ts]; cbn [map fst].
  { eexists. split; [done|]. left. split; [done|]. by eexists. }
  pose proof (up_ok _ _ _ _ _ _ Hp) as Hup. destruct (ap_ctx _ _ _ _ Hp) as [Hfr _]. pose proof Hfr as (Hs & Hj & _). pose proof (ap_linked _ _ _ _ Hp) as [Hpj _].
  destruct (place_byte _ _ _ _ _ _ Hp) as (c & -> & Hc). cbn [mbind option_bind]. set (it1 := raxIteratorDelChars _ _) in *.
  destruct (negb (iscompr p) && (1 <? size p)%nat && negb (next_edge (data p) c =? size p)%nat) eqn:E.
  - apply andb_true_iff in E as [E E3]. apply andb_true_iff in E as [E1 _]. apply negb_true_iff in E1, E3. apply Nat.eqb_neq in E3. unfold size in E3.
    pose proof Hs as Hs'. rewrite E1 in Hs'. destruct Hs' as [Hl Hsort]. specialize (Hc E1). rewrite (next_edge_at _ _ _ Hsort Hc) in *. pose proof (lookup_lt_Some _ _ _ Hc).
    destruct (lookup_lt_is_Some_2 (data p) (S j)) as [x Hx]; [lia|]. destruct (lookup_lt_is_Some_2 (children p) (S j)) as [ch Hch]; [lia|].
    rewrite Hx, Hch. cbn [mbind option_bind]. eexists. split; [done|]. right. pose proof (up_child _ _ _ _ _ _ _ Hup E1 Hx Hch) as Hpl.
    destruct (after_next p j ts ch Hs Hch) as [Ha Hn]. eexists _, ch, _. split; [exact Hpl|]. split; [done|]. split; [done|]. split; [by rewrite Ha|].
    unfold left_of. rewrite <- Hn, count_nodes_eq. lia.
  - assert (Hlast : (length (children p) <= S j)%nat).
    { unfold shape_ok in Hs. destruct (iscompr p) eqn:E1; [destruct Hs as (_ & _ & ->); lia|]. destruct Hs as [Hl Hsort]. cbn [negb andb] in E. rewrite (next_edge_at _ _ _ Hsort (Hc eq_refl)) in E.
      unfold size in E. apply andb_false_iff in E as [E|E]; [apply Nat.ltb_ge in E; lia|]. apply negb_false_iff, Nat.eqb_eq in E. lia. }
    destruct (after_last p j ts Hs Hlast) as [-> ->]. apply (IH t it1 orig p ts Hup). cbn in Hf. lia.
Qed.

(** The edges of [n] from [i] on. *)
Definition from_edge (n : raxNode) (i : nat) (ts : raxStack V) : list entry := below (path ts) (branch_entries (drop i (branches n))) ++ after_of ts.
Definition left_from (n : raxNode) (i : nat) (ts : raxStack V) : nat := (sum_list_with count_nodes (drop i (children n)) + left_after ts)%nat.

Lemma from_edge_child n i ts ch : shape_ok max_size (iscompr n) (data n) (children n) -> children n !! i = Some ch ->
  from_edge n i ts = below (path ((n, i) :: ts)) (entries ch) ++ after_of ((n, i) :: ts) /\ left_from n i ts = S (left_of ch ((n, i) :: ts)).
Proof.
  intros Hs Hj. unfold from_edge, left_from, left_of. cbn [after_of path left_after]. rewrite (drop_S (branches n) _ _ (branches_lookup n i ch Hs Hj)).
  change (branch_entries (?x :: ?l)) with (edge_entries x ++ branch_entries l). rewrite below_app, <- app_assoc. unfold edge_entries. rewrite below_below. split; [done|].
  rewrite (sum_drop _ _ _ _ Hj), count_nodes_eq. lia.
Qed.

Lemma from_edge_end n i ts : shape_ok max_size (iscompr n) (data n) (children n) -> (length (children n) <= i)%nat ->
  from_edge n i ts = after_of ts /\ left_from n i ts = left_after ts.
Proof. intros Hs Hi. unfold from_edge, left_from. by rewrite !drop_ge by (rewrite ?branches_length; done). Qed.

(** An iterator whose key has the bytes [ex] after the path to its node: the search starts in the
    node itself, after the last of these bytes. *)
Record past_place (t : raxNode) (it : raxIterator) (n : raxNode) (ts : raxStack V) (ex : bytes) (c : Z) : Prop := {
  pp_base : at_place t (raxIteratorDelChars (set_node it n (stack it)) (edge_size n)) n ts;
  pp_node : node it = Some n;
  pp_stack : stack it = map fst ts;
  pp_byte : prev_byte it = Some c;
  pp_edge : iscompr n = false -> ex = []
}.

Lemma past_intro t it n ts ex c : at_place t it n ts -> length (ex ++ [c]) = edge_size n -> (iscompr n = false -> ex = []) ->
  past_place t (raxIteratorAddChars it (ex ++ [c])) n ts ex c.
Proof.
  intros Hp Hl He. destruct (add_chars it (ex ++ [c]) (ap_len _ _ _ _ Hp)) as [Hk Hl']. rewrite (ap_key _ _ _ _ Hp) in Hk.
  destruct Hp as [Hc Hw Ht Hln Hn Hst _ _]. split; [|done|done| |done].
  - rewrite <- Hl. set (it' := set_node _ _ _). destruct (del_chars it' (path ts) (ex ++ [c])) as [Hk2 Hl2]; [done|done|]. by split.
  - eapply prev_byte_ok; [done|]. by rewrite Hk, app_assoc.
Qed.

(** The first edge after the byte, for a node that is not compressed. *)
Definition edge_after (n : raxNode) (c : Z) : nat := if iscompr n then 1%nat else next_edge (data n) c.

Lemma next_up_noup fuel t it orig n ts ex c : past_place t it n ts ex c -> (S (length ts) < fuel)%nat ->
  exists u, next_up fuel it orig true = Some u /\ up_found t it (from_edge n (edge_after n c) ts) (left_from n (edge_after n c) ts) u.
Proof.
  intros [Hp Hn Hst Hb _] Hf. destruct fuel as [|fuel]; [lia|]. cbn [next_up]. rewrite Hb, Hn. cbn [mbind option_bind].
  set (it1 := raxIteratorDelChars _ _) in *. pose proof (wf_shape _ _ _ (ap_wf _ _ _ _ Hp)) as Hs. unfold edge_after.
  assert (Hskip : from_edge n (edge_after n c) ts = after_of ts /\ left_from n (edge_after n c) ts = left_after ts ->
    exists u, next_up fuel it1 orig false = Some u /\ up_found t it (from_edge n (edge_after n c) ts) (left_from n (edge_after n c) ts) u).
  { intros [-> ->]. apply (next_up_ok fuel t it1 orig n ts Hp). lia. }
  unfold edge_after in Hskip. destruct (iscompr n) eqn:Ec; cbn [negb andb].
  { apply Hskip, from_edge_end; [by rewrite Ec|]. destruct Hs as (_ & _ & ->). lia. }
  pose proof Hs as [Hl Hsort]. destruct (next_edge_spec (data n) c) as (Hle & _ & Hx). set (i := next_edge (data n) c) in *. unfold size.
  destruct (Nat.eqb_spec i (length (data n))) as [E|E]; cbn [negb].
  { rewrite andb_false_r. apply Hskip, from_edge_end; [by rewrite Ec|lia]. }
  destruct Hx as [|(x & Hx & _)]; [done|]. rewrite (proj2 (Nat.ltb_lt 0 _)) by lia. cbn [andb]. rewrite Hx. destruct (lookup_lt_is_Some_2 (children n) i) as [ch Hch]; [lia|].
  rewrite Hch. cbn [mbind option_bind]. eexists. split; [done|]. right. pose proof (up_child _ _ _ _ _ _ _ Hp Ec Hx Hch) as Hpl.
  destruct (from_edge_child n i ts ch ltac:(by rewrite Ec) Hch) as [Ha Hn']. eexists _, ch, _. split; [exact Hpl|]. done.
Qed.

(** What a step gives, for the entries that are left. *)
Definition moved (t : raxNode) (it : raxIterator) (l : list entry) (it' : raxIterator) : Prop :=
  (l = [] /\ flag_eof it' = true /\ flag_just_seeked it' = flag_just_seeked it) \/
  exists n ts x, at_place t it' n ts /\ same_flags it it' /\ key n = Some x /\ it_data it' = x /\ l = (path ts, x) :: rest_of n ts.

Lemma at_data t it n ts : at_place t it n ts -> at_place t (get_data it) n ts /\ it_data (get_data it) = match key n with Some x => x | None => None end.
Proof. intros [Hc Hw Ht Hln Hn Hst Hk Hl]. split; [by split|]. cbn. by rewrite Hn. Qed.

Lemma child_rest ch ts : below (path ts) (entries ch) ++ after_of ts = match key ch with Some x => (path ts, x) :: rest_of ch ts | None => rest_of ch ts end.
Proof. rewrite entries_eq, below_app, <- app_assoc, below_own. by destruct (key ch). Qed.

Lemma moved_key t it0 it ch ts x : at_place t it ch ts -> same_flags it0 it -> key ch = Some x -> moved t it0 (below (path ts) (entries ch) ++ after_of ts) (get_data it).
Proof.
  intros Hp Hf Hk. right. destruct (at_data _ _ _ _ Hp) as [Hp' Hd]. rewrite Hk in Hd. exists ch, ts, x. split_and!; [done|done|done|done|]. by rewrite child_rest, Hk.
Qed.

Lemma moved_flags t it it1 l it' : same_flags it it1 -> moved t it1 l it' -> moved t it l it'.
Proof.
  intros [E1 E2] [(H1 & H2 & H3)|(n & ts & x & Hp & [F1 F2] & Hr)]; [left; split_and!; congruence|right]. exists n, ts, x. split; [done|]. split; [|done]. split; congruence.
Qed.

Lemma up_loop t it l left u (loop : raxIterator -> option raxIterator) : up_found t it l left u ->
  (forall it' ch ts, at_place t it' ch ts -> same_flags it it' -> key ch = None -> (left = S (left_of ch ts))%nat -> exists it'', loop it' = Some it'' /\ moved t it' (rest_of ch ts) it'') ->
  exists it', match u with AtEof it | AtKey it => Some it | AtNode it => loop it end = Some it' /\ moved t it l it'.
Proof.
  intros [(-> & it' & -> & He & Hj)|(it' & ch & ts & Hp & Hf & -> & -> & Hleft)] Hloop.
  - exists it'. split; [done|]. by left.
  - unfold iskey. destruct (key ch) as [x|] eqn:Ek.
    + eexists. split; [done|]. by eapply moved_key.
    + destruct (Hloop it' ch ts Hp Hf Ek Hleft) as (it'' & -> & Hm). exists it''. split; [done|]. rewrite child_rest, Ek. by eapply moved_flags.
Qed.

Lemma next_loop_ok fuel : forall t it orig n ts, at_place t it n ts -> (left_of n ts < fuel)%nat ->
  exists it', next_loop fuel it orig false = Some it' /\ moved t it (rest_of n ts) it'.
Proof.
  induction fuel as [|fuel IH]; intros t it orig n ts Hp Hf; [lia|]. cbn [next_loop]. rewrite (ap_node _ _ _ _ Hp). cbn [mbind option_bind negb andb].
  pose proof (wf_shape _ _ _ (ap_wf _ _ _ _ Hp)) as Hs.
  assert (Hnum : (if iscompr n then 1%nat else size n) = length (children n)) by (unfold shape_ok, size in *; destruct (iscompr n); [by destruct Hs as (_ & _ & ->)|by destruct Hs as [-> _]]).
  rewrite Hnum. destruct (Nat.eqb_spec (length (children n)) 0) as [E|E]; cbn [negb].
  - rewrite (ap_stack _ _ _ _ Hp), length_map. destruct (next_up_ok (S (S (length ts))) t it orig n ts Hp ltac:(lia)) as (u & -> & Hu). cbn [mbind option_bind].
    destruct (from_edge_end n 0 ts Hs ltac:(lia)) as [Ea El]. unfold rest_of, left_of, from_edge, left_from in *. rewrite drop_0 in Ea. rewrite drop_0 in El. rewrite Ea. rewrite El in Hf.
    eapply up_loop; [done|]. intros it' ch ts' Hp' _ _ Hl. apply IH; [done|]. unfold left_of in *. lia.
  - destruct (lookup_lt_is_Some_2 (children n) 0) as [ch Hch]; [lia|]. rewrite Hch. cbn [mbind option_bind].
    destruct (wf_unframe _ _ _ _ _ (ap_wf _ _ _ _ Hp) Hch) as [Hfr _]. destruct (first_next n ts ch Hs Hch) as [Ha Hl].
    assert (Hlab : take (edge_size n) (data n) = label n O).
    { unfold edge_size, label, size. destruct (iscompr n); [by apply take_ge|]. destruct (data n) as [|x d] eqn:Ed; [|done]. pose proof (frame_data _ _ _ _ Hfr) as [Hd _]. by rewrite Ed in Hd. }
    rewrite Hlab. destruct (add_chars it (label n O) (ap_len _ _ _ _ Hp)) as [Hk Hlen]. pose proof (down_ok _ it (raxIteratorAddChars it (label n O)) n ts O ch Hp Hch Hk Hlen) as Hd.
    rewrite <- Ha. unfold iskey. destruct (key ch) as [x|] eqn:Ek.
    + eexists. split; [done|]. by eapply moved_key.
    + destruct (IH t _ orig ch _ Hd ltac:(lia)) as (it' & -> & Hm). exists it'. split; [done|]. rewrite child_rest, Ek. by eapply moved_flags.
Qed.

Lemma next_loop_noup fuel t it orig n ts ex c : past_place t it n ts ex c -> (left_from n (edge_after n c) ts < fuel)%nat ->
  exists it', next_loop fuel it orig true = Some it' /\ moved t it (from_edge n (edge_after n c) ts) it'.
Proof.
  intros Hp Hf. destruct fuel as [|fuel]; [lia|]. cbn [next_loop]. rewrite (pp_node _ _ _ _ _ _ Hp). cbn [mbind option_bind negb andb].
  rewrite (pp_stack _ _ _ _ _ _ Hp), length_map. destruct (next_up_noup (S (S (length ts))) t it orig n ts ex c Hp ltac:(lia)) as (u & -> & Hu). cbn [mbind option_bind].
  eapply up_loop; [done|]. intros it' ch ts' Hp' _ _ Hl. apply next_loop_ok; [done|]. lia.
Qed.

(** The step forward from the node of the iterator. *)
Lemma next_step_ok rt it n ts : at_place (head rt) it n ts -> flag_eof it = false -> flag_just_seeked it = false ->
  exists it', raxIteratorNextStep rt it false = Some it' /\ moved (head rt) it (rest_of n ts) it'.
Proof.
  intros Hp He Hj. unfold raxIteratorNextStep. rewrite He, Hj. apply next_loop_ok; [done|].
  pose proof (left_bound ts n (ap_linked _ _ _ _ Hp) (ap_ctx _ _ _ _ Hp)) as Hb. rewrite (ap_tree _ _ _ _ Hp) in Hb. lia.
Qed.

Lemma sum_drop_le {A} (f : A -> nat) l i : (sum_list_with f (drop i l) <= sum_list_with f l)%nat.
Proof. rewrite <- (take_drop i l) at 2. rewrite sum_list_with_app. lia. Qed.

(** The step forward that starts among the edges of the node. *)
Lemma next_step_noup rt it n ts ex c : past_place (head rt) it n ts ex c -> flag_eof it = false -> flag_just_seeked it = false ->
  exists it', raxIteratorNextStep rt it true = Some it' /\ moved (head rt) it (from_edge n (edge_after n c) ts) it'.
Proof.
  intros Hp He Hj. unfold raxIteratorNextStep. rewrite He, Hj. eapply next_loop_noup; [done|]. pose proof (pp_base _ _ _ _ _ _ Hp) as Hb.
  pose proof (left_bound ts n (ap_linked _ _ _ _ Hb) (ap_ctx _ _ _ _ Hb)) as Hl. rewrite (ap_tree _ _ _ _ Hb) in Hl.
  unfold left_of, left_from in *. pose proof (sum_drop_le count_nodes (children n) (edge_after n c)). lia.
Qed.

(** * The previous element *)

(** What a step backward gives, for the entries that are before. *)
Definition moved_back (t : raxNode) (it : raxIterator) (l : list entry) (it' : raxIterator) : Prop :=
  (l = [] /\ flag_eof it' = true /\ flag_just_seeked it' = flag_just_seeked it) \/
  exists n ts x, at_place t it' n ts /\ same_flags it it' /\ key n = Some x /\ it_data it' = x /\ l = before_of ts ++ [(path ts, x)].

Lemma moved_back_key t it0 it n ts x : at_place t it n ts -> same_flags it0 it -> key n = Some x ->
  moved_back t it0 (before_of ts ++ below (path ts) (own (key n))) (get_data it).
Proof.
  intros Hp Hf Hk. right. destruct (at_data _ _ _ _ Hp) as [Hp' Hd]. rewrite Hk in Hd. exists n, ts, x. split_and!; [done|done|done|done|]. by rewrite Hk, below_own.
Qed.

Lemma moved_back_flags t it it1 l it' : same_flags it it1 -> moved_back t it1 l it' -> moved_back t it l it'.
Proof.
  intros [E1 E2] [(H1 & H2 & H3)|(n & ts & x & Hp & [F1 F2] & Hr)]; [left; split_and!; congruence|right]. exists n, ts, x. split; [done|]. split; [|done]. split; congruence.
Qed.

(** The entries up to the child [i] of [n], and all of those of its subtree. *)
Lemma before_child n i ts ch : shape_ok max_size (iscompr n) (data n) (children n) -> children n !! i = Some ch ->
  before_of ((n, i) :: ts) ++ below (path ((n, i) :: ts)) (entries ch) = before_of ts ++ below (path ts) (own (key n) ++ branch_entries (take (S i) (branches n))).
Proof.
  intros Hs Hi. cbn [before_of path]. rewrite (take_S_r (branches n) _ _ (branches_lookup n i ch Hs Hi)), branch_entries_app.
  unfold branch_entries at 3. cbn [map concat]. rewrite app_nil_r. unfold edge_entries. cbn [fst snd]. by rewrite app_assoc, !below_app, below_below, <- !app_assoc.
Qed.

Lemma last_child n ts ch : shape_ok max_size (iscompr n) (data n) (children n) -> last (children n) = Some ch ->
  let i := (length (children n) - 1)%nat in
  children n !! i = Some ch /\ before_of ((n, i) :: ts) ++ below (path ((n, i) :: ts)) (entries ch) = before_of ts ++ below (path ts) (entries n).
Proof.
  intros Hs Hl i. rewrite last_lookup in Hl. replace (Nat.pred _) with i in Hl by (unfold i; lia). split; [done|].
  rewrite (before_child n i ts ch Hs Hl), entries_eq. pose proof (lookup_lt_Some _ _ _ Hl). rewrite take_ge by (rewrite branches_length by done; unfold i; lia). done.
Qed.

Lemma seek_greatest_ok fuel : forall t it n ts, at_place t it n ts -> (count_nodes n <= S fuel)%nat ->
  exists it' n' ts', seek_greatest fuel it = Some it' /\ at_place t it' n' ts' /\ same_flags it it' /\ (length ts <= length ts')%nat /\ data n' = [] /\
    before_of ts' ++ below (path ts') (own (key n')) = before_of ts ++ below (path ts) (entries n).
Proof.
  induction fuel as [|fuel IH]; intros t it n ts Hp Hf; cbn [seek_greatest]; rewrite (ap_node _ _ _ _ Hp); cbn [mbind option_bind];
    pose proof (wf_shape _ _ _ (ap_wf _ _ _ _ Hp)) as Hs.
  all: assert (Hsize : size n = 0%nat -> data n = [] /\ entries n = own (key n)) by
    (intros E; apply nil_length_inv in E; rewrite entries_eq; unfold branches, shape_ok in *; rewrite E in *; destruct (iscompr n); [cbn in Hs; lia|]; by rewrite app_nil_r).
  all: destruct (Nat.eqb_spec (size n) 0) as [E|E]; [destruct (Hsize E) as [Hd He]; exists it, n, ts; by rewrite He|].
  all: assert (Hlen : children n <> []) by (intros E'; unfold shape_ok, size in *; rewrite E' in Hs; destruct (iscompr n); cbn in Hs; [lia|destruct Hs; lia]).
  - rewrite count_nodes_eq in Hf. destruct (children n) as [|[k c d cs] ?]; [done|]. cbn in Hf. lia.
  - destruct (last (children n)) as [ch|] eqn:El; [|by apply last_None in El]. cbn [mbind option_bind].
    destruct (last_child n ts ch Hs El) as [Hch Hb]. set (i := (length (children n) - 1)%nat) in *.
    assert (Hlab : (if iscompr n then data n else drop (size n - 1) (data n)) = label n i).
    { unfold label. unfold shape_ok, size in *. destruct (iscompr n); [done|]. destruct Hs as [Hl _].
      destruct (lookup_lt_is_Some_2 (data n) i) as [x Hx]; [unfold i; lia|]. rewrite Hx. replace (length (data n) - 1)%nat with i by (unfold i; lia).
      rewrite (drop_S _ _ _ Hx), drop_ge by (unfold i; lia). done. }
    rewrite Hlab. destruct (add_chars it (label n i) (ap_len _ _ _ _ Hp)) as [Hk Hlen']. pose proof (down_ok _ it (raxIteratorAddChars it (label n i)) n ts i ch Hp Hch Hk Hlen') as Hd.
    destruct (IH t _ ch _ Hd) as (it' & n' & ts' & -> & Hp' & Hfl & Hts & Hd' & He).
    { rewrite count_nodes_eq in Hf. pose proof (sum_drop_le count_nodes (children n) i) as Hsum. rewrite (sum_drop _ _ _ _ Hch) in Hsum. lia. }
    exists it', n', ts'. cbn [length] in Hts. split_and!; [done|done|done|lia|done|]. by rewrite He, Hb.
Qed.

Lemma count_place ts : forall n, linked ts n -> (count_nodes n <= count_nodes (plug ts n))%nat.
Proof.
  induction ts as [|[p j] ts IH]; intros n Hl; cbn [plug]; [lia|]. destruct Hl as [Hj Hl]. rewrite (set_child_id _ _ _ Hj). specialize (IH p Hl).
  rewrite (count_nodes_eq p) in IH. pose proof (sum_drop_le count_nodes (children p) j) as Hsum. rewrite (sum_drop _ _ _ _ Hj) in Hsum. lia.
Qed.

Lemma raxSeekGreatest_ok rt it n ts : at_place (head rt) it n ts -> ts <> [] \/ entries n <> [] \/ data n <> [] ->
  exists it' n', raxSeekGreatest rt it = Some it' /\ node it' = Some n' /\ iskey n' = true /\
    moved_back (head rt) it (before_of ts ++ below (path ts) (entries n)) (get_data it').
Proof.
  intros Hp Hne. destruct (seek_greatest_ok (count_nodes (head rt)) _ it n ts Hp) as (it' & n' & ts' & Hr & Hp' & Hf & Hts & Hd & He).
  { pose proof (count_place ts n (ap_linked _ _ _ _ Hp)) as Hc. rewrite (ap_tree _ _ _ _ Hp) in Hc. lia. }
  exists it', n'. split; [done|]. split; [apply Hp'|]. assert (Hk : key n' <> None).
  { intros Hk. destruct (wf_key _ _ _ (ap_wf _ _ _ _ Hp')) as [Hroot|[?|?]]; [|done|done]. destruct ts'; [|done]. destruct ts; [|cbn in Hts; lia].
    rewrite Hk in He. cbn in He. destruct Hne as [?|[Hne|Hne]]; [done|by destruct (entries n)|].
    pose proof (ap_tree _ _ _ _ Hp) as E. rewrite <- (ap_tree _ _ _ _ Hp') in E. cbn in E. by subst n'. }
  unfold iskey. destruct (key n') as [x|] eqn:Ek; [|done]. split; [done|]. rewrite <- He, <- Ek. by eapply moved_back_key.
Qed.

Lemma prev_edge_spec d c : StronglySorted Z.lt d ->
  match prev_edge d c with
  | Some i => (exists x, d !! i = Some x /\ x < c) /\ forall j x, (i < j)%nat -> d !! j = Some x -> c <= x
  | None => forall j x, d !! j = Some x -> c <= x
  end.
Proof.
  induction 1 as [|y d Hd IH Hy]; cbn; [by intros ? ? ?|]. destruct (prev_edge d c) as [i|].
  - destruct IH as [(x & Hx & Hlt) IH]. split; [by exists x|]. intros [|j] z Hj Hz; [lia|]. apply (IH j z); [lia|done].
  - destruct (Z.ltb_spec y c) as [Hlt|Hge].
    + split; [by exists y|]. intros [|j] z Hj Hz; [lia|]. by apply (IH j z).
    + intros [|j] z Hz; [cbn in Hz; by simplify_eq|by apply (IH j z)].
Qed.

(** The number of edges before a byte. *)
Definition edges_before (n : raxNode) (c : Z) : nat := if iscompr n then O else match prev_edge (data n) c with Some i => S i | None => O end.

Lemma edges_before_at n c j : shape_ok max_size (iscompr n) (data n) (children n) -> iscompr n = false -> data n !! j = Some c -> edges_before n c = j.
Proof.
  intros Hs Hc Hj. unfold edges_before. unfold shape_ok in Hs. rewrite Hc in *. destruct Hs as [_ Hs]. pose proof (prev_edge_spec (data n) c Hs) as Hp.
  destruct (prev_edge (data n) c) as [i|].
  - destruct Hp as [(x & Hx & Hlt) Hp]. destruct (Nat.lt_trichotomy (S i) j) as [Hl|[|Hg]]; [exfalso|done|exfalso].
    + destruct (lookup_lt_is_Some_2 (data n) (S i)) as [y Hy]; [apply lookup_lt_Some in Hj; lia|]. pose proof (Hp (S i) y ltac:(lia) Hy).
      pose proof (sorted_lookup _ _ _ _ _ Hs Hy Hj ltac:(lia)). lia.
    + destruct (decide (i = j)) as [->|]; [rewrite Hj in Hx; simplify_eq; lia|]. pose proof (sorted_lookup _ _ _ _ _ Hs Hj Hx ltac:(lia)). lia.
  - destruct j as [|j]; [done|]. destruct (lookup_lt_is_Some_2 (data n) 0) as [y Hy]; [apply lookup_lt_Some in Hj; lia|]. pose proof (Hp 0%nat y Hy).
    pose proof (sorted_lookup _ _ _ _ _ Hs Hy Hj ltac:(lia)). lia.
Qed.

(** One turn of the loop, from the node whose edges are looked at. *)
Definition prev_turn (rt : rax V) (it : raxIterator) (n : raxNode) (c : Z) (least : nat) (up : raxIterator -> option raxIterator) : option raxIterator :=
  it ← (if negb (iscompr n) && (least <? size n)%nat then
      match prev_edge (data n) c with
      | Some i =>
        c ← data n !! i;
        ch ← children n !! i;
        raxSeekGreatest rt (set_node (raxIteratorAddChars it [c]) ch (n :: stack it))
      | None => Some it
      end
    else Some it);
  n ← node it;
  if iskey n then Some (get_data it) else up it.

Lemma prev_turn_ok rt it n ts c least up : at_place (head rt) it n ts -> ((size n <= least)%nat -> edges_before n c = O) ->
  (exists it', up it = Some it' /\ moved_back (head rt) it (before_of ts) it') ->
  exists it', prev_turn rt it n c least up = Some it' /\
    moved_back (head rt) it (before_of ts ++ below (path ts) (own (key n) ++ branch_entries (take (edges_before n c) (branches n)))) it'.
Proof.
  intros Hp Hleast Hup. pose proof (wf_shape _ _ _ (ap_wf _ _ _ _ Hp)) as Hs. unfold prev_turn.
  assert (Hhere : edges_before n c = O -> exists it', (n ← node it; if iskey n then Some (get_data it) else up it) = Some it' /\
    moved_back (head rt) it (before_of ts ++ below (path ts) (own (key n) ++ branch_entries (take (edges_before n c) (branches n)))) it').
  { intros ->. cbn [take]. change (branch_entries []) with (@nil entry). rewrite app_nil_r, (ap_node _ _ _ _ Hp). cbn [mbind option_bind]. unfold iskey.
    destruct (key n) as [x|] eqn:Ek; [|by rewrite app_nil_r]. eexists. split; [done|]. rewrite <- Ek. by eapply moved_back_key. }
  unfold edges_before in Hleast, Hhere. unfold edges_before. destruct (iscompr n) eqn:Ec; cbn [negb andb]; [by apply Hhere|].
  destruct (Nat.ltb_spec least (size n)) as [Hlt|Hge]; [|by apply Hhere, Hleast]. pose proof Hs as [Hl Hsort]. pose proof (prev_edge_spec _ c Hsort) as Hpe.
  destruct (prev_edge (data n) c) as [i|]; [|by apply Hhere]. destruct Hpe as [(x & Hx & _) _]. pose proof (lookup_lt_Some _ _ _ Hx). rewrite Hx. cbn [mbind option_bind].
  destruct (lookup_lt_is_Some_2 (children n) i) as [ch Hch]; [lia|]. rewrite Hch. cbn [mbind option_bind].
  pose proof (up_child _ _ _ _ _ _ _ Hp Ec Hx Hch) as Hd. destruct (raxSeekGreatest_ok rt _ ch _ Hd ltac:(by left)) as (it' & n' & -> & Hn & Hk & Hm).
  cbn [mbind option_bind]. rewrite Hn. cbn [mbind option_bind]. rewrite Hk. eexists. split; [done|]. rewrite <- (before_child n i ts ch ltac:(by rewrite Ec) Hch). by eapply moved_back_flags.
Qed.

Lemma prev_loop_ok fuel : forall rt it orig n ts, at_place (head rt) it n ts -> (length ts < fuel)%nat ->
  exists it', prev_loop fuel rt it orig false = Some it' /\ moved_back (head rt) it (before_of ts) it'.
Proof.
  induction fuel as [|fuel IH]; intros rt it orig n ts Hp Hf; [lia|]. cbn [prev_loop]. rewrite (ap_stack _ _ _ _ Hp). destruct ts as [|[p j] ts]; cbn [map fst].
  { eexists. split; [done|]. by left. }
  pose proof (up_ok _ _ _ _ _ _ Hp) as Hup. destruct (ap_ctx _ _ _ _ Hp) as [Hfr _]. pose proof Hfr as (Hs & Hj & _).
  destruct (place_byte _ _ _ _ _ _ Hp) as (c & -> & Hc). cbn [mbind option_bind].
  assert (Hb : edges_before p c = j).
  { destruct (iscompr p) eqn:E; [|apply edges_before_at; [by rewrite E|done|by apply Hc]]. unfold edges_before. rewrite E. symmetry. by eapply compr_frame. }
  destruct (prev_turn_ok rt _ p ts c 1 (fun it => prev_loop fuel rt it orig false) Hup) as (it' & Hr & Hm).
  - intros Hsz. rewrite Hb. unfold shape_ok, size in *. destruct (iscompr p); [destruct Hs as (_ & _ & Hl); lia|destruct Hs as [Hl _]; lia].
  - apply (IH rt _ orig p ts Hup). cbn in Hf. lia.
  - exists it'. split; [exact Hr|]. cbn [before_of]. rewrite <- Hb. by eapply moved_back_flags.
Qed.

Lemma prev_step_ok rt it n ts : at_place (head rt) it n ts -> flag_eof it = false -> flag_just_seeked it = false ->
  exists it', raxIteratorPrevStep rt it false = Some it' /\ moved_back (head rt) it (before_of ts) it'.
Proof. intros Hp He Hj. unfold raxIteratorPrevStep. rewrite He, Hj. apply (prev_loop_ok _ _ _ _ n); [done|]. rewrite (ap_stack _ _ _ _ Hp), length_map. lia. Qed.

(** The step backward that starts among the edges of the node. *)
Lemma prev_step_noup rt it n ts ex c : past_place (head rt) it n ts ex c -> flag_eof it = false -> flag_just_seeked it = false ->
  exists it', raxIteratorPrevStep rt it true = Some it' /\
    moved_back (head rt) it (before_of ts ++ below (path ts) (own (key n) ++ branch_entries (take (edges_before n c) (branches n)))) it'.
Proof.
  intros [Hp Hn Hst Hb _] He Hj. unfold raxIteratorPrevStep. rewrite He, Hj. cbn [prev_loop]. rewrite Hb, Hn. cbn [mbind option_bind].
  destruct (prev_turn_ok rt _ n ts c 0 (fun it' => prev_loop (S (length (stack it))) rt it' it false) Hp) as (it' & Hr & Hm).
  - intros Hsz. unfold edges_before, size in *. destruct (iscompr n); [done|]. by destruct (data n); [|cbn in Hsz; lia].
  - eapply prev_loop_ok; [done|]. rewrite Hst, length_map. lia.
  - exists it'. split; [exact Hr|]. by eapply moved_back_flags.
Qed.

(** * The order around a place *)

Definition keys_lt (l : list entry) (s : bytes) : Prop := forall e, e ∈ l -> slt e.1 s = true.
Definition keys_gt (l : list entry) (s : bytes) : Prop := forall e, e ∈ l -> slt s e.1 = true.

Lemma keys_lt_app l1 l2 s : keys_lt l1 s -> keys_lt l2 s -> keys_lt (l1 ++ l2) s.
Proof. intros H1 H2 e [He|He]%elem_of_app; [by apply H1|by apply H2]. Qed.

Lemma keys_gt_app l1 l2 s : keys_gt l1 s -> keys_gt l2 s -> keys_gt (l1 ++ l2) s.
Proof. intros H1 H2 e [He|He]%elem_of_app; [by apply H1|by apply H2]. Qed.

Lemma keys_lt_below p l s : keys_lt l s -> keys_lt (below p l) (p ++ s).
Proof. intros H e (e' & -> & He)%list_elem_of_fmap. cbn. rewrite slt_app. by apply H. Qed.

Lemma keys_gt_below p l s : keys_gt l s -> keys_gt (below p l) (p ++ s).
Proof. intros H e (e' & -> & He)%list_elem_of_fmap. cbn. rewrite slt_app. by apply H. Qed.

Lemma own_lt (k : option (option V)) s : s <> [] -> keys_lt (own k) s.
Proof. intros Hs e He. destruct k; [|by apply not_elem_of_nil in He]. apply list_elem_of_singleton in He as ->. by apply slt_nil. Qed.

Lemma branch_entries_elem bs e : e ∈ branch_entries bs -> exists i b q, bs !! i = Some b /\ e.1 = b.1 ++ q.
Proof.
  intros He. apply list_elem_of_In, in_concat in He as (l & (b & <- & Hb)%in_map_iff & He). apply list_elem_of_In in Hb, He. apply list_elem_of_lookup in Hb as [i Hi]. exists i, b.
  unfold edge_entries, below in He. apply list_elem_of_fmap in He as (e' & -> & _). by exists e'.1.
Qed.

Lemma slt_head x a y b : x < y -> slt (x :: a) (y :: b) = true.
Proof. intros H. cbn. by rewrite (proj2 (Z.ltb_lt _ _) H). Qed.

(** The edges of a node that is not compressed, before and after a byte. *)
Lemma branch_data (n : raxNode) i b : shape_ok max_size (iscompr n) (data n) (children n) -> iscompr n = false -> branches n !! i = Some b -> exists x, data n !! i = Some x /\ b.1 = [x].
Proof.
  intros Hs Hc Hb. unfold branches in Hb. rewrite Hc in Hb. apply lookup_zip_with_Some in Hb as (l & ch & -> & Hl & _). rewrite list_lookup_fmap in Hl.
  destruct (data n !! i) as [x|]; [|done]. exists x. split; [done|]. by injection Hl as <-.
Qed.

Lemma edges_lt (n : raxNode) k c s : shape_ok max_size (iscompr n) (data n) (children n) -> iscompr n = false ->
  (forall i x, (i < k)%nat -> data n !! i = Some x -> x < c) -> keys_lt (branch_entries (take k (branches n))) (c :: s).
Proof.
  intros Hs Hc Hk e (i & b & q & Hb & ->)%branch_entries_elem. apply lookup_take_Some in Hb as [Hb Hi].
  destruct (branch_data n i b Hs Hc Hb) as (x & Hx & ->). by apply slt_head, (Hk i).
Qed.

Lemma edges_gt (n : raxNode) k c s : shape_ok max_size (iscompr n) (data n) (children n) -> iscompr n = false ->
  (forall i x, (k <= i)%nat -> data n !! i = Some x -> c < x) -> keys_gt (branch_entries (drop k (branches n))) (c :: s).
Proof.
  intros Hs Hc Hk e (i & b & q & Hb & ->)%branch_entries_elem. rewrite lookup_drop in Hb.
  destruct (branch_data n _ b Hs Hc Hb) as (x & Hx & ->). apply slt_head, (Hk (k + i)%nat); [lia|done].
Qed.

Lemma around ts : forall r, ctx_ok ts -> keys_lt (before_of ts) (path ts ++ r) /\ keys_gt (after_of ts) (path ts ++ r).
Proof.
  induction ts as [|[p j] ts IH]; intros r Hc; cbn [before_of after_of path]; [by split; intros e He; apply not_elem_of_nil in He|].
  destruct Hc as [Hf Hc]. pose proof Hf as (Hs & Hj & _). destruct (IH (label p j ++ r) Hc) as [H1 H2]. rewrite <- app_assoc. pose proof (frame_data _ _ _ _ Hf) as [_ Hlab].
  assert (Hb : keys_lt (branch_entries (take j (branches p))) (label p j ++ r) /\ keys_gt (branch_entries (drop (S j) (branches p))) (label p j ++ r)).
  { destruct (iscompr p) eqn:E.
    - destruct (compr_frame _ _ _ _ Hf E) as [-> (ch & Hch)]. unfold branches. rewrite E, Hch. by split; intros e He; apply not_elem_of_nil in He.
    - unfold label in *. rewrite E in *. destruct (data p !! j) as [c|] eqn:Ec; [|done]. destruct Hs as [_ Hsort]. cbn [app].
      split; [apply edges_lt|apply edges_gt]; try done; try (apply Hf); intros i x Hi Hx.
      + by apply (sorted_lookup _ i j x c Hsort).
      + by apply (sorted_lookup _ j i c x Hsort). }
  destruct Hb as [Hb1 Hb2]. split.
  - apply keys_lt_app; [done|]. apply keys_lt_below, keys_lt_app; [|done]. apply own_lt. by destruct (label p j).
  - apply keys_gt_app; [|done]. by apply keys_gt_below.
Qed.

End Place.
End RaxIterSpec.
