(* ===== verification/RaxSeekSpec.v ===== *)
(** Seeking in radix trees: any sequence of [raxSeek], [raxNext] and [raxPrev] follows a cursor on
    the entries of the tree in the order of their keys (rax.c). *)

From S2P Require Import Prelude Sds Rax RaxSpec RaxInsertSpec RaxRemoveSpec RaxMapSpec RaxIter RaxIterSpec.

Module RaxSeekSpec.
Import Sds Rax RaxSpec RaxInsertSpec RaxRemoveSpec RaxMapSpec RaxIter RaxIterSpec.

(** * A cursor on a list of entries *)

Section Cursor.
Context {V : Type}.
Abbreviation entry := (bytes * option V)%type.

(** The first and the last entry whose key satisfies a test. *)
Fixpoint first_where (f : bytes -> bool) (es : list entry) : option nat :=
  match es with [] => None | e :: es => if f e.1 then Some O else option_map S (first_where f es) end.

Fixpoint last_where (f : bytes -> bool) (es : list entry) : option nat :=
  match es with
  | [] => None
  | e :: es => match last_where f es with Some i => Some (S i) | None => if f e.1 then Some O else None end
  end.

Lemma first_where_skip f l1 l2 : (forall e, e ∈ l1 -> f e.1 = false) -> first_where f (l1 ++ l2) = option_map (fun i => (length l1 + i)%nat) (first_where f l2).
Proof.
  induction l1 as [|e l1 IH]; intros H; cbn; [by destruct (first_where f l2)|]. rewrite H by left. rewrite IH by (intros; apply H; by right). by destruct (first_where f l2).
Qed.

Lemma first_where_none f (l : list entry) : (forall e, e ∈ l -> f e.1 = false) -> first_where f l = None.
Proof. intros H. pose proof (first_where_skip f l [] H) as E. by rewrite app_nil_r in E. Qed.

Lemma last_where_none f (l : list entry) : (forall e, e ∈ l -> f e.1 = false) -> last_where f l = None.
Proof. induction l as [|e l IH]; intros H; cbn; [done|]. rewrite IH by (intros; apply H; by right). by rewrite H by left. Qed.

Lemma last_where_skip f l1 l2 : (forall e, e ∈ l2 -> f e.1 = false) -> last_where f (l1 ++ l2) = last_where f l1.
Proof. intros H. induction l1 as [|e l1 IH]; cbn; [by apply last_where_none|]. by rewrite IH. Qed.

Lemma last_where_last f (l : list entry) e : f e.1 = true -> last_where f (l ++ [e]) = Some (length l).
Proof. intros H. induction l as [|e' l IH]; cbn; [by rewrite H|]. by rewrite IH. Qed.

(** The head and the last of a list, by position. *)
Definition head_at (k : nat) (l : list entry) : option nat := match l with [] => None | _ => Some k end.
Definition last_at (l : list entry) : option nat := match l with [] => None | _ => Some (length l - 1)%nat end.

Lemma first_where_head f l1 l2 : (forall e, e ∈ l1 -> f e.1 = false) -> (forall e, e ∈ l2 -> f e.1 = true) -> first_where f (l1 ++ l2) = head_at (length l1) l2.
Proof. intros H1 H2. rewrite first_where_skip by done. destruct l2 as [|e l2]; [done|]. cbn. rewrite H2 by left. cbn. by rewrite Nat.add_0_r. Qed.

Lemma last_where_at f l1 l2 : (forall e, e ∈ l1 -> f e.1 = true) -> (forall e, e ∈ l2 -> f e.1 = false) -> last_where f (l1 ++ l2) = last_at l1.
Proof.
  intros H1 H2. rewrite last_where_skip by done. destruct l1 as [|e l1 _] using rev_ind; [done|]. rewrite last_where_last by (apply H1; set_solver).
  unfold last_at. rewrite length_app. cbn. destruct (l1 ++ [e]) eqn:E; [by destruct l1|]. f_equal. lia.
Qed.

(** The entry an operator asks for. *)
Definition target (op : seek_op) (s : bytes) (es : list entry) : option nat :=
  if op_first op then first_where (fun _ => true) es
  else if op_last op then last_where (fun _ => true) es
  else if op_gt op then first_where (fun k => slt s k || (op_eq op && bool_decide (k = s))) es
  else if op_lt op then last_where (fun k => slt k s || (op_eq op && bool_decide (k = s))) es
  else first_where (fun k => bool_decide (k = s)) es.

(** The entry of a string, between those before it and those after it. *)
Definition at_key (s : bytes) (o : option (option V)) : list entry := match o with Some x => [(s, x)] | None => [] end.

Lemma slt_asym a b : slt a b = true -> slt b a = false.
Proof. intros H. destruct (slt b a) eqn:E; [|done]. pose proof (slt_trans _ _ _ H E) as H'. by rewrite slt_irrefl in H'. Qed.

Lemma slt_ne a b : slt a b = true -> a <> b.
Proof. intros H ->. by rewrite slt_irrefl in H. Qed.

Lemma cut_gt s l1 o l2 e : keys_lt l1 s -> keys_gt l2 s -> let es := l1 ++ at_key s o ++ l2 in
  first_where (fun k => slt s k || (e && bool_decide (k = s))) es = if e then head_at (length l1) (at_key s o ++ l2) else head_at (length (l1 ++ at_key s o)) l2.
Proof.
  intros H1 H2 es. unfold es. destruct e; [apply first_where_head|rewrite app_assoc; apply first_where_head]; intros x Hx.
  - rewrite (slt_asym _ _ (H1 x Hx)). apply bool_decide_false. by apply slt_ne, H1.
  - apply elem_of_app in Hx as [Hx|Hx]; [|by rewrite (H2 x Hx)]. destruct o; [|by apply not_elem_of_nil in Hx]. apply list_elem_of_singleton in Hx as ->.
    cbn. by rewrite bool_decide_true, orb_true_r.
  - rewrite orb_false_r. apply elem_of_app in Hx as [Hx|Hx]; [by apply slt_asym, H1|]. destruct o; [|by apply not_elem_of_nil in Hx].
    apply list_elem_of_singleton in Hx as ->. apply slt_irrefl.
  - by rewrite (H2 x Hx).
Qed.

Lemma cut_lt s l1 o l2 e : keys_lt l1 s -> keys_gt l2 s -> let es := l1 ++ at_key s o ++ l2 in
  last_where (fun k => slt k s || (e && bool_decide (k = s))) es = if e then last_at (l1 ++ at_key s o) else last_at l1.
Proof.
  intros H1 H2 es. unfold es. destruct e; [rewrite app_assoc; apply last_where_at|apply last_where_at]; intros x Hx.
  - apply elem_of_app in Hx as [Hx|Hx]; [by rewrite (H1 x Hx)|]. destruct o; [|by apply not_elem_of_nil in Hx]. apply list_elem_of_singleton in Hx as ->.
    cbn. by rewrite bool_decide_true, orb_true_r.
  - rewrite (slt_asym _ _ (H2 x Hx)). apply bool_decide_false. by apply not_eq_sym, slt_ne, H2.
  - by rewrite (H1 x Hx).
  - rewrite orb_false_r. apply elem_of_app in Hx as [Hx|Hx]; [|by apply slt_asym, H2]. destruct o; [|by apply not_elem_of_nil in Hx].
    apply list_elem_of_singleton in Hx as ->. apply slt_irrefl.
Qed.

Lemma cut_eq s l1 o l2 : keys_lt l1 s -> keys_gt l2 s ->
  first_where (fun k => bool_decide (k = s)) (l1 ++ at_key s o ++ l2) = match o with Some _ => Some (length l1) | None => None end.
Proof.
  intros H1 H2. rewrite first_where_skip by (intros e He; apply bool_decide_false; by apply slt_ne, H1). destruct o as [x|]; cbn [at_key app first_where].
  - by rewrite bool_decide_true; cbn; rewrite ?Nat.add_0_r.
  - rewrite first_where_none; [done|]. intros e He. apply bool_decide_false. by apply not_eq_sym, slt_ne, H2.
Qed.

End Cursor.

(** * Seeking *)

Section Seek.
Context {V : Type} (max_size : Z).

Abbreviation raxNode := (raxNode V).
Abbreviation rax := (rax V).
Abbreviation raxIterator := (raxIterator V).
Abbreviation wf := (wf (V := V) max_size).
Abbreviation at_place := (at_place (V := V) max_size).
Abbreviation entry := (bytes * option V)%type.

(** The iterator is on the entry [p] of the tree, or at the end. *)
Definition on (t : raxNode) (it : raxIterator) (p : nat) : Prop :=
  exists n ts x, at_place t it n ts /\ key n = Some x /\ it_data it = x /\ p = length (before_of ts).

Definition shows (t : raxNode) (it : raxIterator) (o : option nat) : Prop :=
  match o with Some p => flag_eof it = false /\ on t it p | None => flag_eof it = true end.

Lemma moved_shows t it l1 l it' : flag_eof it = false -> entries t = l1 ++ l -> moved max_size t it l it' ->
  shows t it' (head_at (length l1) l) /\ flag_just_seeked it' = flag_just_seeked it.
Proof.
  intros He Ht [(-> & H1 & H2)|(n & ts & x & Hp & [F1 F2] & Hk & Hd & ->)]; [done|]. split; [|done]. split; [congruence|]. exists n, ts, x. split_and!; [done|done|done|].
  f_equal. pose proof (key_entries max_size n ts x (ap_ctx _ _ _ _ _ Hp) Hk) as E. rewrite (ap_tree _ _ _ _ _ Hp), Ht in E. by apply app_inv_tail in E.
Qed.

Lemma moved_back_shows t it l it' : flag_eof it = false -> moved_back max_size t it l it' ->
  shows t it' (last_at l) /\ flag_just_seeked it' = flag_just_seeked it.
Proof.
  intros He [(-> & H1 & H2)|(n & ts & x & Hp & [F1 F2] & Hk & Hd & ->)]; [done|]. split; [|done]. unfold last_at. destruct (before_of ts ++ _) eqn:E; [by destruct (before_of ts)|].
  rewrite <- E. split; [congruence|]. exists n, ts, x. split_and!; [done|done|done|]. rewrite length_app. cbn. lia.
Qed.

(** The entries of the tree around a string, from those of the node it leads to. *)
Lemma place_cut (n : raxNode) (ts : raxStack V) r bl o br : ctx_ok max_size ts -> entries n = bl ++ at_key r o ++ br -> keys_lt bl r -> keys_gt br r ->
  let l1 := before_of ts ++ below (path ts) bl in let l2 := below (path ts) br ++ after_of ts in
  entries (plug ts n) = l1 ++ at_key (path ts ++ r) o ++ l2 /\ keys_lt l1 (path ts ++ r) /\ keys_gt l2 (path ts ++ r).
Proof.
  intros Hc He Hl Hg l1 l2. destruct (around max_size ts r Hc) as [H1 H2]. split_and!.
  - rewrite (entries_plug max_size) by done. rewrite He, !below_app. unfold l1, l2. rewrite <- !app_assoc. by destruct o.
  - apply keys_lt_app; [done|by apply keys_lt_below].
  - apply keys_gt_app; [by apply keys_gt_below|done].
Qed.

(** * The entries of the node the walk stops at *)

Abbreviation shaped n := (shape_ok max_size (iscompr n) (data n) (children n)).

Lemma bool_cases (b : bool) : b = true \/ b = false.
Proof. destruct b; auto. Qed.

Lemma compr_branches (n : raxNode) : shaped n -> iscompr n = true -> exists ch, branches n = [(data n, ch)] /\ data n <> [].
Proof.
  intros Hs Hc. unfold shape_ok in Hs. rewrite Hc in Hs. destruct Hs as (H2 & _ & Hl). unfold branches. rewrite Hc. destruct (children n) as [|ch [|? ?]]; try done.
  exists ch. split; [done|]. intros E. rewrite E in H2. cbn in H2. lia.
Qed.

Lemma compr_elem (n : raxNode) e : shaped n -> iscompr n = true -> e ∈ branch_entries (branches n) -> exists q, e.1 = data n ++ q.
Proof. intros Hs Hc (i & b & q & Hb & E)%branch_entries_elem. destruct (compr_branches n Hs Hc) as (ch & Hbr & _). rewrite Hbr in Hb. destruct i; [|done]. injection Hb as <-. by exists q. Qed.

(** At the node itself. *)
Lemma branches_gt (n : raxNode) : shaped n -> keys_gt (branch_entries (branches n)) [].
Proof.
  intros Hs e He. apply slt_nil. destruct (bool_cases (iscompr n)) as [Ec|Ec].
  - destruct (compr_elem n e Hs Ec He) as (q & ->). destruct (compr_branches n Hs Ec) as (_ & _ & Hd). by destruct (data n).
  - apply branch_entries_elem in He as (i & b & q & Hb & ->). by destruct (branch_data max_size n i b Hs Ec Hb) as (x & _ & ->).
Qed.

(** At a byte that has no edge. *)
Lemma mismatch_edges (n : raxNode) c : shaped n -> iscompr n = false -> c ∉ data n -> edges_before n c = next_edge (data n) c /\
  (forall i x, (i < next_edge (data n) c)%nat -> data n !! i = Some x -> x < c) /\ (forall i x, (next_edge (data n) c <= i)%nat -> data n !! i = Some x -> c < x).
Proof.
  intros Hs Hc Hn. unfold edges_before. unfold shape_ok in Hs. rewrite Hc in *. destruct Hs as [_ Hs]. destruct (next_edge_spec (data n) c) as (H1 & H2 & H3).
  set (k := next_edge (data n) c) in *. assert (Hne : forall i x, data n !! i = Some x -> x <> c) by (intros i x Hi ->; apply Hn; by eapply list_elem_of_lookup_2).
  assert (Hgt : forall i x, (k <= i)%nat -> data n !! i = Some x -> c < x).
  { intros i x Hi Hx. pose proof (lookup_lt_Some _ _ _ Hx). destruct H3 as [|(y & Hy & Hcy)]; [lia|]. destruct (decide (i = k)) as [->|]; [by simplify_eq|].
    pose proof (sorted_lookup _ _ _ _ _ Hs Hy Hx ltac:(lia)). lia. }
  assert (Hlt : forall i x, (i < k)%nat -> data n !! i = Some x -> x < c) by (intros i x Hi Hx; pose proof (H2 i x Hi Hx); pose proof (Hne i x Hx); lia).
  split_and!; [|done|done]. pose proof (prev_edge_spec (data n) c Hs) as Hp. destruct (prev_edge (data n) c) as [i|].
  - destruct Hp as [(x & Hx & Hlx) Hp]. assert (Hik : (i < k)%nat) by (destruct (decide (i < k)%nat); [done|]; pose proof (Hgt i x ltac:(lia) Hx); lia).
    destruct (decide (S i = k)) as [|Hk]; [done|]. destruct (lookup_lt_is_Some_2 (data n) (S i)) as [y Hy]; [lia|]. pose proof (Hp (S i) y ltac:(lia) Hy). pose proof (Hlt (S i) y ltac:(lia) Hy). lia.
  - destruct (decide (k = 0%nat)) as [|Hk]; [done|]. destruct (lookup_lt_is_Some_2 (data n) 0) as [y Hy]; [lia|]. pose proof (Hp 0%nat y Hy). pose proof (Hlt 0%nat y ltac:(lia) Hy). lia.
Qed.

Lemma mismatch_cut (n : raxNode) c r : shaped n -> iscompr n = false -> c ∉ data n -> let k := next_edge (data n) c in
  entries n = (own (key n) ++ branch_entries (take k (branches n))) ++ branch_entries (drop k (branches n)) /\
  keys_lt (own (key n) ++ branch_entries (take k (branches n))) (c :: r) /\ keys_gt (branch_entries (drop k (branches n))) (c :: r).
Proof.
  intros Hs Hc Hn k. destruct (mismatch_edges n c Hs Hc Hn) as (_ & H1 & H2). split_and!.
  - rewrite <- app_assoc, <- branch_entries_app, take_drop. apply entries_eq.
  - apply keys_lt_app; [by apply own_lt|by eapply edges_lt].
  - by eapply edges_gt.
Qed.

(** In the string of a compressed node. *)
Lemma compr_mismatch (n : raxNode) j c c' r : shaped n -> iscompr n = true -> data n !! j = Some c' -> c <> c' ->
  if c' <? c then keys_lt (entries n) (take j (data n) ++ c :: r) else keys_gt (branch_entries (branches n)) (take j (data n) ++ c :: r).
Proof.
  intros Hs Hc Hj Hne. assert (Hel : forall e, e ∈ branch_entries (branches n) -> exists q, e.1 = take j (data n) ++ c' :: q).
  { intros e He. destruct (compr_elem n e Hs Hc He) as (q & ->). exists (drop (S j) (data n) ++ q). rewrite <- (take_drop j (data n)) at 1. rewrite (drop_S _ _ _ Hj), <- app_assoc. done. }
  destruct (Z.ltb_spec c' c) as [Hlt|Hge].
  - rewrite entries_eq. apply keys_lt_app; [apply own_lt; by destruct (take j (data n))|]. intros e He. destruct (Hel e He) as (q & ->). rewrite slt_app. by apply slt_head.
  - intros e He. destruct (Hel e He) as (q & ->). rewrite slt_app. apply slt_head. lia.
Qed.

Lemma compr_inside (n : raxNode) j : shaped n -> iscompr n = true -> (j < length (data n))%nat -> keys_gt (branch_entries (branches n)) (take j (data n)).
Proof.
  intros Hs Hc Hj e He. destruct (compr_elem n e Hs Hc He) as (q & ->). rewrite <- (take_drop j (data n)) at 2. rewrite <- app_assoc, <- (app_nil_r (take j (data n))) at 1.
  rewrite slt_app. apply slt_nil. intros E. apply (f_equal length) in E. rewrite length_app, length_drop in E. cbn in E. lia.
Qed.

(** * A step from where the walk stops *)

(** The four ways to stop. *)
Inductive stop_case (w : stop (V := V)) (q : bytes) : Prop :=
| case_at : at_node w = true -> rest w = [] -> splitpos w = O -> q = [] -> stop_case w q
| case_edge c r : iscompr (stopnode w) = false -> rest w = c :: r -> q = c :: r -> c ∉ data (stopnode w) -> stop_case w q
| case_compr c c' r : iscompr (stopnode w) = true -> rest w = c :: r -> q = take (splitpos w) (data (stopnode w)) ++ c :: r ->
    data (stopnode w) !! splitpos w = Some c' -> c <> c' -> stop_case w q
| case_inside : iscompr (stopnode w) = true -> rest w = [] -> q = take (splitpos w) (data (stopnode w)) ->
    (0 < splitpos w < length (data (stopnode w)))%nat -> stop_case w q.

Lemma stop_cases t s w q : stopped max_size t s w q -> stop_case w q /\ (splitpos w <= length (data (stopnode w)))%nat.
Proof.
  intros [_ _ _ _ Hr Hst]. destruct (bool_cases (iscompr (stopnode w))) as [Ec|Ec]; rewrite Ec in Hst.
  - unfold size in Hst. destruct Hst as [Hj Hst]. split; [|lia]. destruct Hst as [E|(c & c' & r & E & Hc' & Hne)].
    + rewrite E, app_nil_r in Hr. destruct (decide (splitpos w = O)) as [E0|]; [|apply case_inside; [done..|lia]].
      apply case_at; [|done|done|by rewrite Hr, E0]. unfold at_node. by rewrite E, Ec, E0.
    + rewrite E in Hr. by eapply case_compr.
  - destruct Hst as [E0 Hst]. split; [|lia]. rewrite E0 in Hr. cbn in Hr. destruct Hst as [E|(c & r & E & Hn)].
    + apply case_at; [|done|done|by rewrite Hr]. unfold at_node. by rewrite E, Ec.
    + rewrite E in Hr. by eapply case_edge.
Qed.

Lemma place_flags t it n ts e j : at_place t it n ts -> at_place t (set_flags it e j) n ts.
Proof. intros [Hc Hw Ht Hl Hn Hst Hk Hlen]. by split. Qed.

Lemma shows_flags t it o : shows t it o -> shows t (set_flags it (flag_eof it) true) o.
Proof. destruct o as [p|]; [|done]. intros (He & n & ts & x & Hp & Hk & Hd & ->). split; [done|]. exists n, ts, x. by split_and!; [apply place_flags|..]. Qed.

Lemma seek_step_shows t it step it' o : step (set_flags it (flag_eof it) false) = Some it' -> shows t it' o ->
  exists it'', seek_step it step = Some it'' /\ flag_just_seeked it'' = true /\ shows t it'' o.
Proof. intros Hs Ho. unfold seek_step. rewrite Hs. cbn [mbind option_bind]. eexists. split; [done|]. split; [done|by apply shows_flags]. Qed.

(** A place whose iterator was given one byte, or the string of a compressed node, in addition. *)
Lemma past_byte t it n ts c : at_place t it n ts -> iscompr n = false -> past_place max_size t (raxIteratorAddChars it [c]) n ts [] c.
Proof. intros Hp Hc. apply (past_intro max_size t it n ts [] c Hp); [unfold edge_size; by rewrite Hc|done]. Qed.

Lemma past_string t it n ts : at_place t it n ts -> iscompr n = true -> exists ex c, past_place max_size t (raxIteratorAddChars it (data n)) n ts ex c.
Proof.
  intros Hp Hc. destruct (compr_branches n (wf_shape _ _ _ (ap_wf _ _ _ _ _ Hp)) Hc) as (_ & _ & Hd). destruct (exists_last Hd) as (ex & c & E). exists ex, c. rewrite E.
  apply past_intro; [done| |by rewrite Hc]. unfold edge_size, size. by rewrite Hc, E.
Qed.

Lemma seek_next t it step it0 it' l1 l : step (set_flags it (flag_eof it) false) = Some it' -> moved max_size t it0 l it' -> flag_eof it0 = false -> entries t = l1 ++ l ->
  exists it'', seek_step it step = Some it'' /\ flag_just_seeked it'' = true /\ shows t it'' (head_at (length l1) l).
Proof. intros Hs Hm He0 Ht. destruct (moved_shows t it0 l1 l it' He0 Ht Hm) as [Ho _]. by eapply seek_step_shows. Qed.

Lemma seek_prev t it step it0 it' l : step (set_flags it (flag_eof it) false) = Some it' -> moved_back max_size t it0 l it' -> flag_eof it0 = false ->
  exists it'', seek_step it step = Some it'' /\ flag_just_seeked it'' = true /\ shows t it'' (last_at l).
Proof. intros Hs Hm He0. destruct (moved_back_shows t it0 l it' He0 Hm) as [Ho _]. by eapply seek_step_shows. Qed.

(** The steps from the place of a stop, for the entries [bl] before and [br] after it in the node. *)
Record steps (rt : rax) (w : stop (V := V)) (bl mid br : list entry) : Prop := {
  steps_gt it op : at_place (head rt) it (stopnode w) (ts w) -> flag_eof it = false -> op_gt op = true -> op_lt op = false ->
    exists it', seek_from rt it op w = Some it' /\ flag_just_seeked it' = true /\
      shows (head rt) it' (head_at (length (before_of (ts w) ++ below (path (ts w)) (bl ++ mid))) (below (path (ts w)) br ++ after_of (ts w)));
  steps_lt it op : at_place (head rt) it (stopnode w) (ts w) -> flag_eof it = false -> op_lt op = true -> op_gt op = false ->
    exists it', seek_from rt it op w = Some it' /\ flag_just_seeked it' = true /\
      shows (head rt) it' (last_at (before_of (ts w) ++ below (path (ts w)) bl))
}.

Lemma place_split t it n ts es br : at_place t it n ts -> entries n = es ++ br ->
  entries t = (before_of ts ++ below (path ts) es) ++ below (path ts) br ++ after_of ts.
Proof. intros Hp He. rewrite <- (ap_tree _ _ _ _ _ Hp), (entries_plug max_size), He, below_app, <- !app_assoc; [done|apply Hp]. Qed.

Lemma bind_some {A} (e : option A) x : e = Some x -> (y ← e; Some y) = Some x.
Proof. by intros ->. Qed.

Ltac start_steps Er := split; intros it op Hp He H1 H2; unfold seek_from; rewrite Er, H1, H2; cbn [negb andb];
  pose proof (place_flags _ _ _ _ (flag_eof it) false Hp) as Hpf.

Lemma steps_at rt w : rest w = [] -> splitpos w = O -> steps rt w [] (own (key (stopnode w))) (branch_entries (branches (stopnode w))).
Proof.
  intros Er E0. start_steps Er; rewrite E0; cbn [Nat.eqb negb]; rewrite andb_false_r; cbn [andb].
  - destruct (next_step_ok max_size rt _ _ _ Hpf He eq_refl) as (it' & Hn & Hm). eapply seek_next; [by rewrite Hn|exact Hm|exact He|].
    eapply (place_split _ _ _ _ (own (key (stopnode w)))); [exact Hp|apply entries_eq].
  - destruct (prev_step_ok max_size rt _ _ _ Hpf He eq_refl) as (it' & Hn & Hm). rewrite app_nil_r. eapply seek_prev; [by cbn; rewrite Hn|exact Hm|exact He].
Qed.

Lemma steps_edge rt w c r : rest w = c :: r -> iscompr (stopnode w) = false -> c ∉ data (stopnode w) -> let n := stopnode w in let k := next_edge (data n) c in
  steps rt w (own (key n) ++ branch_entries (take k (branches n))) [] (branch_entries (drop k (branches n))).
Proof.
  intros Er Ec Hc n k. start_steps Er; rewrite Ec; cbn [negb]; pose proof (wf_shape _ _ _ (ap_wf _ _ _ _ _ Hp)) as Hs;
    pose proof (past_byte _ _ _ _ c Hpf Ec) as Hpast; destruct (mismatch_cut n c [] Hs Ec Hc) as (Hcut & _); destruct (mismatch_edges n c Hs Ec Hc) as (Hk & _).
  - destruct (next_step_noup max_size rt _ _ _ _ _ Hpast He eq_refl) as (it' & Hn & Hm). unfold edge_after in Hm. rewrite Ec in Hm. rewrite app_nil_r.
    eapply seek_next; [exact Hn|exact Hm|exact He|]. by eapply place_split.
  - destruct (prev_step_noup max_size rt _ _ _ _ _ Hpast He eq_refl) as (it' & Hn & Hm). fold n in Hm. rewrite Hk in Hm. eapply seek_prev; [apply bind_some; exact Hn|exact Hm|exact He].
Qed.

Lemma steps_compr rt w c c' r : rest w = c :: r -> iscompr (stopnode w) = true -> data (stopnode w) !! splitpos w = Some c' -> c <> c' -> let n := stopnode w in
  steps rt w (if c' <? c then entries n else own (key n)) [] (if c' <? c then [] else branch_entries (branches n)).
Proof.
  intros Er Ec Hc' Hne n. start_steps Er; rewrite Ec, Hc'; cbn [negb mbind option_bind]; pose proof (wf_shape _ _ _ (ap_wf _ _ _ _ _ Hp)) as Hs;
    destruct (past_string _ _ _ _ Hpf Ec) as (ex & b & Hpast); rewrite ?Z.gtb_ltb; destruct (Z.ltb_spec c' c) as [Hlt|Hge].
  - rewrite (proj2 (Z.ltb_ge c c')) by lia. destruct (next_step_noup max_size rt _ _ _ _ _ Hpast He eq_refl) as (it' & Hn & Hm). unfold edge_after in Hm. rewrite Ec in Hm.
    destruct (compr_branches n Hs Ec) as (ch & Hbr & _). destruct (from_edge_end max_size n 1 (ts w) Hs) as [Hfe _]; [by rewrite <- (branches_length max_size), Hbr by done|]. fold n in Hm. rewrite Hfe in Hm.
    rewrite app_nil_r. eapply seek_next; [apply bind_some; exact Hn|exact Hm|exact He|]. eapply (place_split _ _ _ _ _ []); [exact Hp|by rewrite app_nil_r].
  - rewrite (proj2 (Z.ltb_lt c c')) by lia. destruct (next_step_ok max_size rt _ _ _ Hpf He eq_refl) as (it' & Hn & Hm). rewrite app_nil_r.
    eapply seek_next; [apply bind_some; exact Hn|exact Hm|exact He|]. eapply place_split; [exact Hp|apply entries_eq].
  - destruct (raxSeekGreatest_ok max_size rt _ _ _ Hpf) as (it' & n' & Hn & _ & _ & Hm).
    { right; right. by destruct (compr_branches n Hs Ec) as (_ & _ & Hd). }
    eapply seek_prev; [cbn [mbind option_bind]; rewrite Hn; reflexivity|exact Hm|exact He].
  - destruct (prev_step_noup max_size rt _ _ _ _ _ Hpast He eq_refl) as (it' & Hn & Hm). unfold edges_before in Hm. rewrite Ec in Hm. cbn [take] in Hm.
    change (branch_entries []) with (@nil entry) in Hm. rewrite app_nil_r in Hm. eapply seek_prev; [exact Hn|exact Hm|exact He].
Qed.

Lemma steps_inside rt w : rest w = [] -> iscompr (stopnode w) = true -> (0 < splitpos w)%nat -> let n := stopnode w in
  steps rt w (own (key n)) [] (branch_entries (branches n)).
Proof.
  intros Er Ec Hpos n. start_steps Er; rewrite Ec, (proj2 (Nat.eqb_neq _ 0)) by lia; cbn [negb andb]; rewrite ?andb_true_r, ?andb_false_r.
  - destruct (next_step_ok max_size rt _ _ _ Hpf He eq_refl) as (it' & Hn & Hm). rewrite app_nil_r.
    eapply seek_next; [apply bind_some; exact Hn|exact Hm|exact He|]. eapply place_split; [exact Hp|apply entries_eq].
  - fold n. destruct (bool_cases (iskey n)) as [Ek|Ek]; rewrite Ek.
    + unfold iskey in Ek. destruct (key n) as [x|] eqn:E; [|done]. rewrite <- E.
      refine (seek_prev _ _ _ (set_flags it (flag_eof it) false) _ _ eq_refl _ He). by eapply moved_back_key.
    + destruct (prev_step_ok max_size rt _ _ _ Hpf He eq_refl) as (it' & Hn & Hm). unfold iskey in Ek. destruct (key n); [done|].
      rewrite app_nil_r. eapply seek_prev; [exact Hn|exact Hm|exact He].
Qed.

(** What is at the place of the stop. *)
Definition found (w : stop (V := V)) : option (option V) := if at_node w then key (stopnode w) else None.

Lemma stop_steps rt s w q : stopped max_size (head rt) s w q ->
  exists bl br, entries (stopnode w) = bl ++ at_key q (found w) ++ br /\ keys_lt bl q /\ keys_gt br q /\ steps rt w bl (at_key q (found w)) br.
Proof.
  intros Hst. pose proof (wf_shape _ _ _ (st_wf _ _ _ _ _ Hst)) as Hs. destruct (stop_cases _ _ _ _ Hst) as [[Ha Er E0 ->|c r Ec Er -> Hc|c c' r Ec Er -> Hc' Hne|Ec Er -> Hpos] _]; unfold found.
  - rewrite Ha. exists [], (branch_entries (branches (stopnode w))). split_and!; [|by intros e He%not_elem_of_nil|by apply branches_gt|by apply steps_at]. apply entries_eq.
  - replace (at_node w) with false by (unfold at_node; by rewrite Er). destruct (mismatch_cut _ c r Hs Ec Hc) as (He & Hl & Hg). eexists _, _.
    split_and!; [exact He|exact Hl|exact Hg|by eapply steps_edge].
  - replace (at_node w) with false by (unfold at_node; by rewrite Er). pose proof (compr_mismatch _ _ c c' r Hs Ec Hc' Hne) as Hm. pose proof (steps_compr rt w c c' r Er Ec Hc' Hne) as Hst'.
    eexists _, _. split_and!; [| | |exact Hst'].
    + destruct (c' <? c); [by rewrite app_nil_r|apply entries_eq].
    + destruct (c' <? c); [done|]. apply own_lt. by destruct (take _ _).
    + destruct (c' <? c); [by intros e He%not_elem_of_nil|done].
  - replace (at_node w) with false by (unfold at_node; rewrite Ec, (proj2 (Nat.eqb_neq (splitpos w) 0)) by lia; by rewrite andb_false_r).
    exists (own (key (stopnode w))), (branch_entries (branches (stopnode w))). split_and!; [apply entries_eq| |apply compr_inside; [done|done|lia]|apply steps_inside; [done|done|lia]].
    apply own_lt. intros E. apply (f_equal length) in E. rewrite length_take in E. cbn in E. lia.
Qed.

(** The iterator at the place of the stop. *)
Lemma seek_place t it n ts : ctx_ok max_size ts -> wf (is_nil ts) n -> plug ts n = t -> linked ts n -> key_len it = O ->
  at_place t (raxIteratorAddChars (set_node it n (map fst ts)) (path ts)) n ts.
Proof.
  intros Hc Hw Ht Hl H0. destruct (add_chars (set_node it n (map fst ts)) (path ts)) as [Hk Hlen]; [cbn; lia|].
  split; [done|done|done|done|done|done| |done]. rewrite Hk. unfold it_key, set_node. cbn [key_len]. by rewrite H0.
Qed.

Lemma below_at_key p q (o : option (option V)) : below p (at_key q o) = at_key (p ++ q) o.
Proof. by destruct o. Qed.

Definition directed (op : seek_op) : bool :=
  negb (op_first op) && negb (op_last op) && negb (op_lt op && op_gt op) && (op_eq op || op_lt op || op_gt op).

(** The targets, for the entries around the string. *)
Lemma target_cut op s (l1 : list entry) o l2 : keys_lt l1 s -> keys_gt l2 s -> directed op = true -> target op s (l1 ++ at_key s o ++ l2) =
  match o with
  | Some _ => if op_eq op then Some (length l1) else if op_gt op then head_at (length (l1 ++ at_key s o)) l2 else last_at l1
  | None => if op_gt op then head_at (length l1) l2 else if op_lt op then last_at l1 else None
  end.
Proof.
  intros Hl Hg Hd. unfold target, directed in *. destruct op as [e lt gt fi la]; cbn [op_eq op_lt op_gt op_first op_last] in *. destruct fi, la; try done. cbn [negb andb] in Hd.
  rewrite cut_gt, cut_lt, cut_eq by done. unfold last_at. destruct gt, lt, e, o as [x|]; cbn [at_key]; rewrite ?app_nil_r; try done.
  rewrite length_app. cbn. destruct (l1 ++ _) eqn:E; [by destruct l1|]. f_equal. lia.
Qed.

Lemma seek_key_ok rt it op s : wf true (head rt) -> directed op = true -> flag_eof it = false -> flag_just_seeked it = true -> key_len it = O ->
  exists it', seek_key rt it op s = Some it' /\ flag_just_seeked it' = true /\ shows (head rt) it' (target op s (entries (head rt))).
Proof.
  intros Hw Hd He Hj H0. destruct (raxLowWalk_ok max_size rt s Hw) as (w & q & Hwalk & Hst). unfold seek_key. rewrite Hwalk. cbn [mbind option_bind].
  pose proof (walk_linked _ _ _ _ _ (I : linked [] (head rt)) Hwalk) as Hln. destruct (stop_cases _ _ _ _ Hst) as [_ Hsp].
  destruct (stop_steps rt s w q Hst) as (bl & br & Hent & Hbl & Hbr & Hgt & Hlt). pose proof Hst as [Hc Hwn Ht Hs Hr _].
  pose proof (seek_place _ it _ _ Hc Hwn Ht Hln H0) as Hp. destruct (place_cut _ _ _ _ _ _ Hc Hent Hbl Hbr) as (Hcut & Hl & Hg). rewrite Ht, <- Hs in Hcut. rewrite <- Hs in Hl, Hg.
  assert (Hpath : take (length s - length (rest w) - splitpos w) s = path (ts w)).
  { rewrite Hs, Hr, !length_app, length_take, Nat.min_l by done. apply take_app_length'. lia. }
  rewrite Hpath, Hcut, target_cut by done. rewrite below_app, below_at_key, <- Hs, app_assoc in Hgt. unfold found in *.
  destruct (op_eq op && at_node w && iskey (stopnode w)) eqn:Ehit.
  - apply andb_true_iff in Ehit as [Eh Ek]. apply andb_true_iff in Eh as [Eq Ea]. pose proof (stopped_at _ _ _ _ _ Hst Ea) as ->. rewrite app_nil_r in Hs.
    rewrite Ea, Eq. unfold iskey in Ek. destruct (key (stopnode w)) as [x|] eqn:Ekey; [|done]. destruct (at_data _ _ _ _ _ Hp) as [Hpd Hdat]. rewrite Ekey, <- Hs in Hdat. rewrite <- Hs in Hpd.
    eexists. split; [done|]. split; [exact Hj|]. split; [exact He|]. exists (stopnode w), (ts w), x. split_and!; [exact Hpd|done|exact Hdat|].
    destruct bl as [|e bl]; [by rewrite app_nil_r|]. specialize (Hbl e ltac:(left)). by destruct e as [[|? ?] ?].
  - assert (Hn : op_eq op = true -> (if at_node w then key (stopnode w) else None) = None).
    { intros Eq. rewrite Eq in Ehit. cbn [andb] in Ehit. destruct (at_node w); [|done]. unfold iskey in Ehit. by destruct (key (stopnode w)). }
    set (o := if at_node w then _ else _) in *. unfold directed in Hd. destruct (op_gt op) eqn:Egt.
    + destruct (op_lt op) eqn:Elt; [by rewrite andb_false_r in Hd|]. destruct (Hgt _ op Hp He Egt Elt) as (it' & Hr' & Hj' & Ho). cbn [orb]. exists it'. split; [exact Hr'|]. split; [done|].
      destruct o; [|by rewrite app_nil_r in Ho]. destruct (op_eq op); [by specialize (Hn eq_refl)|done].
    + destruct (op_lt op) eqn:Elt; cbn [orb].
      * destruct (Hlt _ op Hp He Elt Egt) as (it' & Hr' & Hj' & Ho). exists it'. split; [exact Hr'|]. split; [done|]. destruct o; [|done]. destruct (op_eq op); [by specialize (Hn eq_refl)|done].
      * destruct (op_eq op); [|by rewrite andb_false_r in Hd]. rewrite (Hn eq_refl). eexists. split; [done|]. by split.
Qed.

(** * Sequences of operations *)

Inductive iter_op := Seek (op s : bytes) | Next | Prev.

Definition current (it : raxIterator) : option entry := if raxEOF it then None else Some (it_key it, it_data it).

Definition iter_step (rt : rax) (it : raxIterator) (op : iter_op) : option (raxIterator * option entry) :=
  match op with
  | Seek op s => '(it, ok) ← raxSeek rt it op s; _ ← guard ok; Some (it, current it)
  | Next => '(it, ok) ← raxNext rt it; Some (it, if (ok : bool) then Some (it_key it, it_data it) else None)
  | Prev => '(it, ok) ← raxPrev rt it; Some (it, if (ok : bool) then Some (it_key it, it_data it) else None)
  end.

Fixpoint iter_run (rt : rax) (it : raxIterator) (ops : list iter_op) : option (list (option entry)) :=
  match ops with [] => Some [] | op :: ops => '(it, a) ← iter_step rt it op; l ← iter_run rt it ops; Some (a :: l) end.

(** A cursor: the end, or a position in the list and whether it is that of a seek that no step
    followed yet. *)
Definition cursor : Type := option (nat * bool).

Definition cursor_step (es : list entry) (c : cursor) (op : iter_op) : cursor :=
  match op with
  | Seek op s => o ← seek_operator op; p ← target o s es; Some (p, true)
  | Next => match c with Some (p, seeked) => if seeked then Some (p, false) else if (S p <? length es)%nat then Some (S p, false) else None | None => None end
  | Prev => match c with Some (p, seeked) => if seeked then Some (p, false) else match p with O => None | S p => Some (p, false) end | None => None end
  end.

Fixpoint cursor_run (es : list entry) (c : cursor) (ops : list iter_op) : list (option entry) :=
  match ops with [] => [] | op :: ops => let c := cursor_step es c op in match c with Some (p, _) => es !! p | None => None end :: cursor_run es c ops end.

Definition op_known (op : iter_op) : bool := match op with Seek op _ => bool_decide (seek_operator op <> None) | _ => true end.

Definition tracks (t : raxNode) (it : raxIterator) (c : cursor) : Prop :=
  match c with Some (p, seeked) => shows t it (Some p) /\ flag_just_seeked it = seeked | None => flag_eof it = true end.

Lemma on_entry t it p : on t it p -> entries t !! p = Some (it_key it, it_data it).
Proof.
  intros (n & ts & x & Hp & Hk & Hd & ->). rewrite <- (ap_tree _ _ _ _ _ Hp), (key_entries max_size n ts x (ap_ctx _ _ _ _ _ Hp) Hk), (ap_key _ _ _ _ _ Hp), Hd.
  by apply list_lookup_middle.
Qed.

Lemma tracks_current t it c : tracks t it c -> current it = match c with Some (p, _) => entries t !! p | None => None end.
Proof. unfold current, raxEOF. destruct c as [[p j]|]; cbn; [|by intros ->]. intros [[-> Ho] _]. by rewrite (on_entry _ _ _ Ho). Qed.

Lemma shows_tracks t it o : shows t it o -> flag_just_seeked it = true -> tracks t it (p ← o; Some (p, true)).
Proof. destruct o; [|done]. by intros [? ?] ?. Qed.

(** The element the iterator is on. *)
Lemma next_step_tracks rt it c : tracks (head rt) it c ->
  exists it', raxIteratorNextStep rt it false = Some it' /\ tracks (head rt) it' (cursor_step (entries (head rt)) c Next).
Proof.
  destruct c as [[p [|]]|]; cbn [cursor_step tracks].
  - intros [[He Ho] Hj]. unfold raxIteratorNextStep. rewrite He, Hj. eexists. split; [done|]. split; [|done]. split; [done|]. destruct Ho as (n & ts & x & Hp & Hr). exists n, ts, x. by split; [apply place_flags|].
  - intros [[He Ho] Hj]. destruct Ho as (n & ts & x & Hp & Hk & Hd & ->). destruct (next_step_ok max_size rt it n ts Hp He Hj) as (it' & -> & Hm). exists it'. split; [done|].
    pose proof (key_entries max_size n ts x (ap_ctx _ _ _ _ _ Hp) Hk) as Hes. rewrite (ap_tree _ _ _ _ _ Hp) in Hes. rewrite cons_middle, app_assoc in Hes.
    destruct (moved_shows _ _ _ _ _ He Hes Hm) as [Ho' Hj']. rewrite Hes, !length_app. rewrite length_app in Ho'. cbn [length] in *. rewrite Nat.add_1_r in *. rewrite Hj in Hj'.
    destruct (rest_of n ts) as [|e l]; cbn [head_at] in Ho'; cbn [length].
    + by rewrite (proj2 (Nat.ltb_ge _ _)) by lia.
    + by rewrite (proj2 (Nat.ltb_lt _ _)) by lia.
  - intros He. unfold raxIteratorNextStep. rewrite He. by eexists.
Qed.

Lemma prev_step_tracks rt it c : tracks (head rt) it c ->
  exists it', raxIteratorPrevStep rt it false = Some it' /\ tracks (head rt) it' (cursor_step (entries (head rt)) c Prev).
Proof.
  destruct c as [[p [|]]|]; cbn [cursor_step tracks].
  - intros [[He Ho] Hj]. unfold raxIteratorPrevStep. rewrite He, Hj. eexists. split; [done|]. split; [|done]. split; [done|]. destruct Ho as (n & ts & x & Hp & Hr). exists n, ts, x. by split; [apply place_flags|].
  - intros [[He Ho] Hj]. destruct Ho as (n & ts & x & Hp & Hk & Hd & ->). destruct (prev_step_ok max_size rt it n ts Hp He Hj) as (it' & -> & Hm). exists it'. split; [done|].
    destruct (moved_back_shows _ _ _ _ He Hm) as [Ho' Hj']. rewrite Hj in Hj'. destruct (before_of ts) as [|e l]; cbn [length last_at] in *; [done|]. by rewrite Nat.sub_1_r in Ho'.
  - intros He. unfold raxIteratorPrevStep. rewrite He. by eexists.
Qed.

Lemma target_nil op s : target op s ([] : list entry) = None.
Proof. destruct op as [e lt gt fi la]. unfold target. cbn. by destruct fi, la, gt, lt. Qed.

Lemma parse_directed op o : seek_operator op = Some o -> op_first o = false -> op_last o = false -> directed o = true.
Proof.
  unfold seek_operator, directed. intros Hp Hf Hl. rewrite Hf, Hl. cbn [negb andb]. repeat (destruct (_ =? _); [by injection Hp as <-; rewrite ?orb_true_r|]). done.
Qed.

Lemma first_target (es : list entry) : target (mkOp true false true false false) [] es = first_where (fun _ => true) es.
Proof.
  unfold target. cbn [op_first op_last op_gt op_eq]. rewrite !(first_where_head _ [] es); [done|by intros e He%not_elem_of_nil|done|by intros e He%not_elem_of_nil|].
  intros [k x] _. by destruct k.
Qed.

Lemma raxSeek_tracks rt it op s o : wf true (head rt) -> (numele rt = 0 <-> entries (head rt) = []) -> seek_operator op = Some o ->
  exists it', raxSeek rt it op s = Some (it', true) /\ tracks (head rt) it' (p ← target o s (entries (head rt)); Some (p, true)).
Proof.
  intros Hw Hn Ho. unfold raxSeek. rewrite Ho. set (it0 := mkIter false true _ _ _ _ _). destruct (Z.eqb_spec (numele rt) 0) as [E|E].
  { rewrite (proj1 Hn E), target_nil. by eexists. }
  assert (Hseek : forall o' s', directed o' = true -> exists it', seek_key rt it0 o' s' = Some it' /\ tracks (head rt) it' (p ← target o' s' (entries (head rt)); Some (p, true))).
  { intros o' s' Hd. destruct (seek_key_ok rt it0 o' s' Hw Hd eq_refl eq_refl eq_refl) as (it' & -> & Hj & Hs). exists it'. split; [done|by apply shows_tracks]. }
  destruct (op_first o) eqn:Ef; [|destruct (op_last o) eqn:El].
  - destruct (Hseek (mkOp true false true false false) [] eq_refl) as (it' & -> & Ht). exists it'. split; [done|]. rewrite first_target in Ht. unfold target. by rewrite Ef.
  - assert (Hp : at_place (head rt) (set_node it0 (head rt) []) (head rt) []) by (split; try done; cbn; lia).
    destruct (raxSeekGreatest_ok max_size rt _ _ _ Hp) as (it' & n & -> & Hn0 & Hk & Hm); [right; left; by intros ?%Hn|].
    cbn [mbind option_bind]. rewrite Hn0. cbn [mbind option_bind]. rewrite Hk. cbn [mbind option_bind guard].
    eexists. split; [done|]. destruct (moved_back_shows _ (set_node it0 (head rt) []) _ _ eq_refl Hm) as [Hs Hj]. apply shows_tracks; [|exact Hj]. unfold target. rewrite Ef, El.
    rewrite <- (app_nil_r (entries (head rt))), last_where_at; [|done|by intros e He%not_elem_of_nil]. cbn [before_of path app] in Hs.
    replace (entries (head rt)) with (below [] (entries (head rt))); [done|]. unfold below. rewrite <- (map_id (entries (head rt))) at 2. apply map_ext. by intros [].
  - destruct (Hseek o s (parse_directed op o Ho Ef El)) as (it' & -> & Ht). by exists it'.
Qed.

Lemma iter_step_tracks rt it c op : wf true (head rt) -> (numele rt = 0 <-> entries (head rt) = []) -> op_known op = true -> tracks (head rt) it c ->
  exists it', let c' := cursor_step (entries (head rt)) c op in
    iter_step rt it op = Some (it', match c' with Some (p, _) => entries (head rt) !! p | None => None end) /\ tracks (head rt) it' c'.
Proof.
  intros Hw Hn Hk Ht. destruct op as [op s| |].
  - cbn [op_known] in Hk. apply bool_decide_eq_true in Hk. destruct (seek_operator op) as [o|] eqn:Eo; [|done]. destruct (raxSeek_tracks rt it op s o Hw Hn Eo) as (it' & Hs & Ht').
    exists it'. cbn [cursor_step iter_step]. rewrite Hs, Eo. cbn [mbind option_bind guard]. split; [|done]. by rewrite (tracks_current _ _ _ Ht').
  - destruct (next_step_tracks rt it c Ht) as (it' & Hs & Ht'). exists it'. cbn [iter_step]. unfold raxNext. rewrite Hs. cbn [mbind option_bind]. split; [|done].
    rewrite <- (tracks_current _ _ _ Ht'). unfold current, raxEOF. by destruct (flag_eof it').
  - destruct (prev_step_tracks rt it c Ht) as (it' & Hs & Ht'). exists it'. cbn [iter_step]. unfold raxPrev. rewrite Hs. cbn [mbind option_bind]. split; [|done].
    rewrite <- (tracks_current _ _ _ Ht'). unfold current, raxEOF. by destruct (flag_eof it').
Qed.

Lemma iter_run_tracks rt ops : wf true (head rt) -> (numele rt = 0 <-> entries (head rt) = []) -> forallb op_known ops = true ->
  forall it c, tracks (head rt) it c -> iter_run rt it ops = Some (cursor_run (entries (head rt)) c ops).
Proof.
  intros Hw Hn. induction ops as [|op ops IH]; intros Hk it c Ht; [done|]. cbn [forallb] in Hk. apply andb_true_iff in Hk as [Hk Hks].
  destruct (iter_step_tracks rt it c op Hw Hn Hk Ht) as (it' & Hs & Ht'). cbn [iter_run cursor_run]. rewrite Hs. cbn [mbind option_bind]. by rewrite (IH Hks it' _ Ht').
Qed.

Lemma size_insert_le (m : gmap bytes (option V)) s d : (base.size (<[s := d]> m) <= S (base.size m))%nat.
Proof. rewrite map_size_insert. destruct (m !! s); cbn; lia. Qed.

Lemma smap_run_size ops : forall m, (base.size (smap_run (V := V) m ops).1 <= base.size m + length ops)%nat.
Proof.
  induction ops as [|op ops IH]; intros m; cbn [smap_run length]; [cbn; lia|]. destruct (smap_step m op) as [m1 a] eqn:E. specialize (IH m1). destruct (smap_run m1 ops) as [m2 l]. cbn [fst] in *.
  enough (base.size m1 <= S (base.size m))%nat by lia. pose proof (fun s d => size_insert_le m s d) as Hi. replace m1 with (smap_step m op).1 by (by rewrite E).
  destruct op as [s d|s d|s|s|]; cbn [smap_step fst]; [apply Hi|destruct (bool_decide _); [apply Hi|lia]|lia| |lia]. rewrite map_size_delete. destruct (m !! s); cbn; lia.
Qed.

(** C10. The iterator of a radix tree is a cursor on the entries in the order of their keys: in a
    tree made by any sequence of insertions, lookups and removals, any sequence of seeks, with the
    operators [>], [>=], [<], [<=], [=], [^] and [$] at any string, of steps forward and of steps
    backward gives, without an access out of the key or a node and with enough fuel in each loop,
    the keys and the values of a cursor on the sorted list of the elements of the map: a seek goes
    to the first element after the string or the last one before it, the first step after a seek
    stays there, and an iterator at the end stays at the end until the next seek. *)
Theorem rax_iterator_cursor (Hmax : 2 <= max_size) (ops : list rax_op) (iops : list iter_op) : forallb (op_fits max_size) ops = true ->
  Z.of_nat (length ops) < 2 ^ 64 -> forallb op_known iops = true ->
  exists r l m es, rax_run max_size raxNew ops = Some (r, l) /\ smap_run ∅ ops = (m, l) /\ es ≡ₚ map_to_list m /\ sorted_keys es /\
    iter_run r raxStart iops = Some (cursor_run es None iops).
Proof.
  intros Hops Hlen Hk. destruct (rax_run_ok max_size Hmax ops raxNew ∅ (repr_new max_size) Hops) as (r & l & m & Hr & Hm & Hrep).
  pose proof Hrep as [[Hw _] Hf Hn _]. pose proof (entries_map max_size (head r) m true Hw Hf) as Hperm.
  exists r, l, m, (entries (head r)). split_and!; [done|done|done|by eapply entries_sorted|]. apply iter_run_tracks; [done| |done|done].
  pose proof (smap_run_size ops ∅) as Hsz. rewrite Hm, map_size_empty in Hsz. cbn [fst] in Hsz. rewrite Hn, uwrap_small by (unfold urange; lia).
  rewrite <- (length_map_to_list m), Hperm. split; [intros E; apply nil_length_inv; lia|by intros ->].
Qed.

End Seek.

(** * Comparing the current key *)

Lemma memcmp_slt a : forall b, let cmp := memcmp (take (Nat.min (length b) (length a)) a) (take (Nat.min (length b) (length a)) b) in
  slt a b = (if cmp =? 0 then (length a <? length b)%nat else cmp <? 0) /\ slt b a = (if cmp =? 0 then (length b <? length a)%nat else cmp >? 0) /\
  bool_decide (a = b) = (cmp =? 0) && (length b =? length a)%nat.
Proof.
  induction a as [|x a IH]; intros [|y b]; cbn; try by split_and!. destruct (IH b) as (Hs & Hg & He). cbn in Hs, Hg, He. rewrite Z.gtb_ltb in *.
  rewrite (bool_decide_ext _ (x = y /\ a = b)) by (split; [by intros [= -> ->]|by intros [-> ->]]). rewrite bool_decide_and, He, (Z.eqb_sym y x). destruct (Z.eqb_spec x y) as [->|Hne].
  - rewrite Z.ltb_irrefl, bool_decide_true by done. cbn [orb andb]. by rewrite Hs, Hg.
  - rewrite (proj2 (Z.eqb_neq (x - y) 0)), bool_decide_false by (done || lia). cbn [andb]. rewrite !orb_false_r.
    split_and!; [destruct (Z.ltb_spec x y), (Z.ltb_spec (x - y) 0)|destruct (Z.ltb_spec y x), (Z.ltb_spec 0 (x - y))|]; lia || done.
Qed.

(** [raxCompare] with the operators of a seek. *)
Lemma raxCompare_ok {V} (it : raxIterator V) op o key : (key_len it <= length (key_buf it))%nat -> seek_operator op = Some o -> op_lt o || op_gt o = true ->
  raxCompare it op key = (if op_gt o then slt key (it_key it) else slt (it_key it) key) || (op_eq o && bool_decide (it_key it = key)).
Proof.
  intros Hl Ho Hd. pose proof (key_length it Hl) as E. destruct (memcmp_slt (it_key it) key) as (Hs & Hg & He). rewrite Hs, Hg, He, <- E. unfold raxCompare.
  replace (take _ (key_buf it)) with (take (Nat.min (length key) (key_len it)) (it_key it)) by (unfold it_key; rewrite take_take; f_equal; lia).
  set (cmp := memcmp _ _). rewrite !Z.gtb_ltb. unfold seek_operator in Ho. set (o0 := default 0 (op !! 0%nat)) in *. set (o1 := default 0 (op !! 1%nat)) in *.
  destruct (Z.eqb_spec o0 62) as [->|]; [injection Ho as <-|destruct (Z.eqb_spec o0 60) as [->|]; [injection Ho as <-|]]; cbn [op_gt op_lt op_eq negb andb orb Z.eqb] in *.
  - destruct (o1 =? 61), (Z.eqb_spec cmp 0), (Nat.eqb_spec (length key) (key_len it)); cbn [andb orb]; rewrite ?orb_true_r, ?orb_false_r; try done; destruct (0 <? cmp); done.
  - destruct (o1 =? 61), (Z.eqb_spec cmp 0), (Nat.eqb_spec (length key) (key_len it)); cbn [andb orb]; rewrite ?orb_true_r, ?orb_false_r; try done;
      destruct (Z.ltb_spec 0 cmp), (Z.ltb_spec cmp 0); lia || done.
  - repeat (destruct (_ =? _); [by injection Ho as <-|]). done.
Qed.

(** With [==]. *)
Lemma raxCompare_eq {V} (it : raxIterator V) key : (key_len it <= length (key_buf it))%nat -> raxCompare it [61; 61] key = bool_decide (it_key it = key).
Proof.
  intros Hl. pose proof (key_length it Hl) as E. destruct (memcmp_slt (it_key it) key) as (_ & _ & He). rewrite He, <- E. unfold raxCompare.
  by replace (take _ (key_buf it)) with (take (Nat.min (length key) (key_len it)) (it_key it)) by (unfold it_key; rewrite take_take; f_equal; lia).
Qed.

Module Sample.
Import RaxMapSpec.Sample.

(** The tree of the comment at the top of rax.h: "foo", "foobar" and "footer", and a key before. *)
Definition tree_ops : list (rax_op (V := Z)) :=
  [Insert FOOBAR (Some 1); Insert FOO (Some 2); Insert FOOTER None; Insert AGO (Some 3); Insert CIAO (Some 4); Remove CIAO].

Definition iter_ops : list iter_op :=
  [Next; Seek [94] []; Next; Next; Next; Prev; Next; Next; Next; Prev;
   Seek [62; 61] [70; 79]; Prev; Prev; Seek [60] [70; 79; 79; 67]; Next; Seek [62] FOO; Seek [60; 61] [70; 79; 79; 66; 66]; Seek [61] ANNI; Next; Seek [36] []; Prev; Prev].

Definition es : list (bytes * option Z) := [(AGO, Some 3); (FOO, Some 2); (FOOBAR, Some 1); (FOOTER, None)].

(** What the iterator answers. *)
Lemma sample_iteration : (x ← rax_run RAX_NODE_MAX_SIZE raxNew tree_ops; iter_run x.1 raxStart iter_ops) = Some (cursor_run es None iter_ops) /\
  cursor_run es None iter_ops =
    map (fun i => match i with Some i => es !! i | None => None end)
      [None; Some 0; Some 0; Some 1; Some 2; Some 1; Some 2; Some 3; None; None;
       Some 1; Some 1; Some 0; Some 2; Some 2; Some 2; Some 2; None; None; Some 3; Some 3; Some 2]%nat.
Proof. split; vm_compute; reflexivity. Qed.

Lemma rax_iterator_cursor_witness : forallb (op_fits RAX_NODE_MAX_SIZE) tree_ops = true /\ forallb op_known iter_ops = true /\
  exists r l m es, rax_run RAX_NODE_MAX_SIZE raxNew tree_ops = Some (r, l) /\ smap_run ∅ tree_ops = (m, l) /\ es ≡ₚ map_to_list m /\ sorted_keys es /\
    iter_run r raxStart iter_ops = Some (cursor_run es None iter_ops).
Proof.
  split; [reflexivity|]. split; [reflexivity|]. apply (rax_iterator_cursor RAX_NODE_MAX_SIZE); [done|reflexivity|reflexivity|reflexivity].
Defined.

End Sample.

End RaxSeekSpec.
