(* ===== verification/SetType.v ===== *)
(** Set objects: the operations on sets of t_set.c, over intsets, listpacks and hash tables.

    A set object has one of three encodings and changes it when a limit of the configuration is
    reached.  An element is given as a string or, when [str] is NULL, as an integer; whether the
    string is an sds string ([str_is_sds]) only decides about copies of it and is left out.  A
    function that only reads a set may move entries of a hash table that is being rehashed or fill
    in the length of a listpack, so the functions give the object back.  A NULL listpack in the
    object, a failed assertion and an access out of bounds are [None]. *)

From S2P Require Import Prelude Endian Util ListpackEnc Listpack ListpackOps ListpackFind Intset Dict DictSpec DictScan.

Module SetType.
Import Util Lp Listpack LpOps LpFind.

(** The settings of the server. *)
Record set_config := mkSetConfig { set_max_intset_entries : Z; set_max_listpack_entries : Z; set_max_listpack_value : Z }.

(** The object with its encoding; a hash table has no values. *)
Inductive robj := IntsetObj (iset : Intset.intset) | ListpackObj (lp : bytes) | HtObj (d : Dict.dict bytes unit).

Inductive encoding := OBJ_ENCODING_HT | OBJ_ENCODING_LISTPACK.

(** An element: [str] and [len], or [llval]. *)
Inductive set_value := StrVal (s : bytes) | IntVal (llval : Z).

(** Where an iterator is. *)
Inductive setTypeIterator := HtIter (di : DictScan.dictIterator (K := bytes) (V := unit)) | IntsetIter (ii : Z) | ListpackIter (lpi : option nat).

Section SetType.
Context `{Host} {A : Allocator} `{DT : DictType bytes}.
(** [addr] gives the addresses of the tables, for the fingerprint of an iterator. *)
Context (mode : Dict.dictResizeEnable) (addr : list (list (bytes * unit)) -> Z) (fill : Z) (server : set_config).

(** The string of a [long long], in a buffer that is not initialised. *)
Definition ll_string (llval : Z) : option bytes :=
  '(tmpbuf, len) ← ll2string (junk (Z.to_nat LONG_STR_SIZE)) LONG_STR_SIZE llval;
  Some (take (Z.to_nat len) tmpbuf).

Definition value_str (v : set_value) : option bytes := match v with StrVal s => Some s | IntVal z => ll_string z end.

(** A string with the length that is left of a [size_t] in a [uint32_t]. *)
Definition u32_str (s : bytes) : bytes := take (Z.to_nat (u32 (Z.of_nat (length s)))) s.

(** [lp] is not NULL. *)
Definition not_null (r : option (option (bytes * option nat))) : option bytes := r ← r; '(lp, _) ← r; Some lp.

Definition isSdsRepresentableAsLongLong (s : bytes) : bool := match string2ll s with Some _ => true | None => false end.

Definition createSetListpackObject : option robj := lp ← lpNew 0; Some (ListpackObj lp).
Definition createIntsetObject : robj := IntsetObj Intset.intsetNew.
Definition createSetObject : robj := HtObj Dict.dictCreate.

Definition setTypeCreate (v : bytes) (size_hint : Z) : option robj :=
  if isSdsRepresentableAsLongLong v && (size_hint <=? set_max_intset_entries server) then Some createIntsetObject
  else if size_hint <=? set_max_listpack_entries server then createSetListpackObject
  else '(d, _) ← Dict.dictExpand mode Dict.dictCreate size_hint; Some (HtObj d).

Definition setTypeSize (o : robj) : option (robj * Z) :=
  match o with
  | HtObj d => Some (o, Dict.dictSize d)
  | IntsetObj iset => Some (o, Intset.intsetLen iset)
  | ListpackObj lp => '(lp, n) ← lpLength lp; Some (ListpackObj lp, n)
  end.

(** * Iteration *)

Definition setTypeInitIterator (o : robj) : setTypeIterator :=
  match o with HtObj _ => HtIter (DictScan.dictInitIterator false) | IntsetObj _ => IntsetIter 0 | ListpackObj _ => ListpackIter None end.

(** The next element, or [None] for the return value -1. *)
Definition setTypeNext (o : robj) (si : setTypeIterator) : option (robj * setTypeIterator * option set_value) :=
  match o, si with
  | HtObj d, HtIter di =>
    '(d, di, de) ← DictScan.dictNext addr d di;
    Some (HtObj d, HtIter di, option_map (fun de => StrVal de.1) de)
  | IntsetObj iset, IntsetIter ii =>
    r ← Intset.intsetGet iset (u32 ii);
    Some (o, IntsetIter (ii + 1), option_map IntVal r)
  | ListpackObj lp, ListpackIter lpi =>
    p ← match lpi with None => lpFirst lp | Some lpi => lpNext lp lpi end;
    match p with
    | None => Some (o, si, None)
    | Some p =>
      v ← lpGetValue lp p;
      v ← match v with inl (off, l) => s ← load lp off (Z.to_nat l); Some (StrVal s) | inr llele => Some (IntVal llele) end;
      Some (o, ListpackIter (Some p), Some v)
    end
  | _, _ => None
  end.

Definition setTypeReleaseIterator (o : robj) (si : setTypeIterator) : option robj :=
  match o, si with HtObj d, HtIter di => d ← DictScan.dictResetIterator addr d di; Some (HtObj d) | _, _ => Some o end.

(** [while (setTypeNext(si, ...) != -1) { ... }] with a body that changes the state [st] and tells
    whether the loop goes on. *)
Fixpoint iterate_set {S} (fuel : nat) (o : robj) (si : setTypeIterator) (body : S -> set_value -> option (S * bool)) (st : S) : option (robj * setTypeIterator * S) :=
  '(o, si, v) ← setTypeNext o si;
  match v with
  | None => Some (o, si, st)
  | Some v =>
    match fuel with
    | O => None
    | Datatypes.S fuel =>
      '(st, continue) ← body st v;
      if (continue : bool) then iterate_set fuel o si body st else Some (o, si, st)
    end
  end.

(** A bound on the number of elements. *)
Definition iter_bound (o : robj) : nat :=
  match o with HtObj d => length (DictSpec.entries d) | IntsetObj iset => Z.to_nat (Intset.intsetLen iset) | ListpackObj lp => length lp end.

(** From [setTypeInitIterator] to [setTypeReleaseIterator]. *)
Definition set_foreach {S} (o : robj) (body : S -> set_value -> option (S * bool)) (st : S) : option (robj * S) :=
  '(o, si, st) ← iterate_set (iter_bound o) o (setTypeInitIterator o) body st;
  o ← setTypeReleaseIterator o si;
  Some (o, st).

(** * Changing the encoding *)

(** The capacity of the listpack a set is converted to. *)
Definition listpack_estcap (o : robj) (cap : Z) : option Z :=
  match o with
  | IntsetObj iset =>
    if Intset.intsetLen iset >? 0 then
      min ← Intset.intsetMin iset;
      max ← Intset.intsetMax iset;
      Some (Z.max (lpEstimateBytesRepeatedInteger min cap) (lpEstimateBytesRepeatedInteger max cap))
    else Some (u64 (cap * 2))
  | _ => Some (u64 (cap * 2))
  end.

(** With [panic = 1].  The object is freed, so what the iteration leaves of it is dropped. *)
Definition setTypeConvertAndExpand (o : robj) (enc : encoding) (cap : Z) : option robj :=
  match enc with
  | OBJ_ENCODING_HT =>
    _ ← guard (match o with HtObj _ => false | _ => true end);
    '(d, _) ← Dict.dictExpand mode Dict.dictCreate cap;
    '(_, d) ← set_foreach o (fun d v =>
      element ← value_str v;
      '(d, ok) ← Dict.dictAdd mode d element tt;
      _ ← guard ok;
      Some (d, true)) d;
    Some (HtObj d)
  | OBJ_ENCODING_LISTPACK =>
    _ ← guard (match o with ListpackObj _ => false | _ => true end);
    estcap ← listpack_estcap o cap;
    lp ← lpNew (Z.to_nat estcap);
    '(_, lp) ← set_foreach o (fun lp v =>
      lp ← not_null (match v with StrVal s => lpAppend lp (u32_str s) | IntVal llele => lpAppendInteger lp llele end);
      Some (lp, true)) lp;
    Some (ListpackObj lp)
  end.

Definition setTypeConvert (o : robj) (enc : encoding) : option robj :=
  '(o, n) ← setTypeSize o;
  setTypeConvertAndExpand o enc n.

Definition setTypeMaybeConvert (o : robj) (size_hint : Z) : option robj :=
  if match o with
    | ListpackObj _ => size_hint >? set_max_listpack_entries server
    | IntsetObj _ => size_hint >? set_max_intset_entries server
    | HtObj _ => false
    end
  then setTypeConvertAndExpand o OBJ_ENCODING_HT size_hint
  else Some o.

Definition intsetMaxEntries : Z :=
  let max_entries := set_max_intset_entries server in
  if max_entries >=? Z.shiftl 1 30 then Z.shiftl 1 30 else max_entries.

Definition maybeConvertIntset (o : robj) : option robj :=
  match o with
  | IntsetObj iset => if Intset.intsetLen iset >? intsetMaxEntries then setTypeConvert o OBJ_ENCODING_HT else Some o
  | _ => None
  end.

Definition maybeConvertToIntset (o : robj) : option robj :=
  match o with
  | IntsetObj _ => Some o
  | _ =>
    '(o, n) ← setTypeSize o;
    if n >? intsetMaxEntries then Some o
    else
      '(_, iset) ← set_foreach o (fun iset v =>
        llval ← match v with StrVal s => string2ll s | IntVal llval => Some llval end;
        '(iset, success) ← Intset.intsetAdd fill iset llval;
        _ ← guard success;
        Some (iset, true)) Intset.intsetNew;
      Some (IntsetObj iset)
  end.

(** * Adding, removing and testing an element *)

(** [intsetAdd], then the conversion of an intset that got too large. *)
Definition intset_add (iset : Intset.intset) (llval : Z) : option (robj * bool) :=
  '(iset, success) ← Intset.intsetAdd fill iset llval;
  o ← (if (success : bool) then maybeConvertIntset (IntsetObj iset) else Some (IntsetObj iset));
  Some (o, success).

(** [lpFirst], then [lpFind] if the listpack is not empty. *)
Definition listpack_find (lp : bytes) (s : bytes) : option (option nat) :=
  p ← lpFirst lp;
  match p with None => Some None | Some p => lpFind lp (Some p) (u32_str s) 0 end.

(** The bounds of an intset as a listpack: [maxelelen] and [totsize]. *)
Definition intset_bounds (iset : Intset.intset) : option (Z * Z) :=
  let n := Intset.intsetLen iset in
  if n =? 0 then Some (0, 0)
  else
    max ← Intset.intsetMax iset;
    min ← Intset.intsetMin iset;
    Some (Z.max (sdigits10 max) (sdigits10 min), Z.max (lpEstimateBytesRepeatedInteger max n) (lpEstimateBytesRepeatedInteger min n)).

(** A hash table that an element is added to by [dictAdd], as it is known to be new. *)
Definition add_new (o : robj) (s : bytes) : option (robj * bool) :=
  match o with
  | HtObj d => '(d, ok) ← Dict.dictAdd mode d s tt; _ ← guard ok; Some (HtObj d, true)
  | _ => None
  end.

(** The set, and whether the element was added. *)
Definition setTypeAddAux (o : robj) (v : set_value) : option (robj * bool) :=
  match v, o with
  | IntVal llval, IntsetObj iset => intset_add iset llval
  | _, _ =>
    str ← value_str v;
    let len := Z.of_nat (length str) in
    match o with
    | HtObj ht =>
      '(ht, link, bucket) ← Dict.dictFindLinkBucket mode ht str;
      match link with
      | None => ht ← Dict.dictSetKeyAtLink mode ht str tt bucket; Some (HtObj ht, true)
      | Some _ => Some (HtObj ht, false)
      end
    | ListpackObj lp =>
      p ← listpack_find lp str;
      match p with
      | Some _ => Some (ListpackObj lp, false)
      | None =>
        '(lp, n) ← lpLength lp;
        safe ← lpSafeToAdd (Some lp) len;
        if (n <? set_max_listpack_entries server) && (len <=? set_max_listpack_value server) && safe then
          lp ← not_null (match v with IntVal llval => lpAppendInteger lp llval | StrVal _ => lpAppend lp (u32_str str) end);
          Some (ListpackObj lp, true)
        else
          o ← setTypeConvertAndExpand (ListpackObj lp) OBJ_ENCODING_HT (n + 1);
          add_new o str
      end
    | IntsetObj iset =>
      match string2ll str with
      | Some value => intset_add iset value
      | None =>
        '(maxelelen, totsize) ← intset_bounds iset;
        let n := Intset.intsetLen iset in
        safe ← lpSafeToAdd None (u64 (totsize + len));
        if (n <? set_max_listpack_entries server) && (len <=? set_max_listpack_value server) && (maxelelen <=? set_max_listpack_value server) && safe then
          o ← setTypeConvertAndExpand o OBJ_ENCODING_LISTPACK (n + 1);
          match o with
          | ListpackObj lp =>
            lp ← not_null (lpAppend lp (u32_str str));
            lp ← lpShrinkToFit lp;
            Some (ListpackObj lp, true)
          | _ => None
          end
        else
          o ← setTypeConvertAndExpand o OBJ_ENCODING_HT (n + 1);
          add_new o str
      end
    end
  end.

Definition setTypeAdd (o : robj) (s : bytes) : option (robj * bool) := setTypeAddAux o (StrVal s).

Definition setTypeRemoveAux (o : robj) (v : set_value) : option (robj * bool) :=
  match v, o with
  | IntVal llval, IntsetObj iset => '(iset, success) ← Intset.intsetRemove fill iset llval; Some (IntsetObj iset, success)
  | _, _ =>
    str ← value_str v;
    match o with
    | HtObj d => '(d, deleted) ← Dict.dictDelete mode d str; Some (HtObj d, deleted)
    | ListpackObj lp =>
      p ← listpack_find lp str;
      match p with
      | Some p => lp ← not_null (lpDelete lp p); Some (ListpackObj lp, true)
      | None => Some (o, false)
      end
    | IntsetObj iset =>
      match string2ll str with
      | Some llval => '(iset, success) ← Intset.intsetRemove fill iset llval; Some (IntsetObj iset, success)
      | None => Some (o, false)
      end
    end
  end.

Definition setTypeRemove (o : robj) (s : bytes) : option (robj * bool) := setTypeRemoveAux o (StrVal s).

Definition setTypeIsMemberAux (o : robj) (v : set_value) : option (robj * bool) :=
  match v, o with
  | IntVal llval, IntsetObj iset => b ← Intset.intsetFind iset llval; Some (o, b)
  | _, _ =>
    str ← value_str v;
    match o with
    | ListpackObj lp => p ← listpack_find lp str; Some (o, match p with Some _ => true | None => false end)
    | IntsetObj iset =>
      match string2ll str with
      | Some llval => b ← Intset.intsetFind iset llval; Some (o, b)
      | None => Some (o, false)
      end
    | HtObj d => '(d, de) ← Dict.dictFind mode d str; Some (HtObj d, match de with Some _ => true | None => false end)
    end
  end.

Definition setTypeIsMember (o : robj) (s : bytes) : option (robj * bool) := setTypeIsMemberAux o (StrVal s).

(** The object, and its copy. *)
Definition setTypeDup (o : robj) : option (robj * robj) :=
  match o with
  | IntsetObj iset =>
    c ← load (Intset.contents iset) 0 (Z.to_nat (Intset.intsetBlobLen iset - Intset.sizeof_intset));
    Some (o, IntsetObj (Intset.mkIntset (Intset.encoding iset) (Intset.len iset) c))
  | ListpackObj lp => new_lp ← lpDup lp; Some (o, ListpackObj new_lp)
  | HtObj d =>
    '(new, _) ← Dict.dictExpand mode Dict.dictCreate (Dict.dictSize d);
    set_foreach o (fun set v => str ← value_str v; '(set, _) ← setTypeAdd set str; Some (set, true)) (HtObj new)
  end.

End SetType.
End SetType.
