(* ===== verification/SetTypeSpec.v ===== *)
(** Set objects refine finite sets of strings, whatever their encoding (t_set.c). *)

From S2P Require Import Prelude Endian Util ListpackEnc Listpack ListpackOps ListpackFind Intset Dict DictSpec DictScan SetType.

Module SetTypeSpec.
Import Util Lp Listpack LpOps LpFind SetType.

Section Spec.
Context `{Host} {A : Allocator} `{DT : DictType bytes} `{DL : !DictLaws bytes}.
Context (mode : Dict.dictResizeEnable) (addr : list (list (bytes * unit)) -> Z) (fill : Z) (server : set_config).

Abbreviation setTypeNext := (setTypeNext addr).
Abbreviation setTypeReleaseIterator := (setTypeReleaseIterator addr).
Abbreviation iterate_set := (iterate_set addr).
Abbreviation set_foreach := (set_foreach addr).

(** * Elements *)

(** The string an element stands for. *)
Definition vstr (v : set_value) : bytes := match v with StrVal s => s | IntVal z => sdec z end.

Definition elem_ok (s : bytes) : Prop := bytes_ok s /\ Z.of_nat (length s) < 2 ^ 32.
Definition val_ok (v : set_value) : Prop := match v with StrVal s => elem_ok s | IntVal z => srange 64 z end.

Lemma ll_string_ok z : srange 64 z -> ll_string z = Some (sdec z).
Proof.
  intros Hz. unfold ll_string. pose proof (sdec_length_le z Hz) as Hl. rewrite (ll2string_fits _ _ _ Hz) by (rewrite ?junk_length; unfold LONG_STR_SIZE; lia).
  cbn [mbind option_bind]. rewrite Nat2Z.id. f_equal. apply take_app_length.
Qed.

Lemma value_str_ok v : val_ok v -> value_str v = Some (vstr v).
Proof. destruct v as [s|z]; [done|]. intros Hz. by apply ll_string_ok. Qed.

Lemma vstr_ok v : val_ok v -> elem_ok (vstr v).
Proof. destruct v as [s|z]; [done|]. intros Hz. split; [apply sdec_bytes|]. pose proof (sdec_length_le z Hz). cbn [vstr]. lia. Qed.

Lemma u32_str_ok s : Z.of_nat (length s) < 2 ^ 32 -> u32_str s = s.
Proof. intros Hl. unfold u32_str. rewrite uwrap_small by (unfold urange; lia). rewrite Nat2Z.id. by apply take_ge. Qed.

Lemma string2ll_iff s z : string2ll s = Some z <-> s = sdec z /\ srange 64 z.
Proof. split; [apply string2ll_sound|]. intros [-> Hz]. by apply string2ll_complete. Qed.

Lemma sdec_inj z1 z2 : srange 64 z1 -> srange 64 z2 -> sdec z1 = sdec z2 -> z1 = z2.
Proof. intros H1 H2 E. apply string2ll_complete in H1, H2. rewrite E in H1. congruence. Qed.

(** * Representation *)

(** The element in an entry of a listpack. *)
Definition ent_value (e : bytes) : set_value := match ent_val e with Some (inl s) => StrVal s | Some (inr z) => IntVal z | None => StrVal [] end.

Lemma ent_value_str e : vstr (ent_value e) = ent_str e.
Proof. unfold ent_value, ent_str. by destruct (ent_val e) as [[s|z]|]. Qed.

Definition set_rep (o : robj) (s : gset bytes) : Prop :=
  set_Forall elem_ok s /\
  match o with
  | IntsetObj iset => exists e xs, Intset.intset_rep iset e xs /\ Z.of_nat (length xs) <= set_max_intset_entries server /\ s = list_to_set (map sdec xs)
  | ListpackObj lp => exists ps num, lp_rep lp ps num /\ NoDup (map ent_str ps) /\ s = list_to_set (map ent_str ps)
  | HtObj d => DictSpec.dict_ok d /\ Dict.pauseAutoResize d = 0 /\ s = dom (DictSpec.dmap d)
  end.

Lemma rep_intset iset e xs s : Intset.intset_rep iset e xs -> Z.of_nat (length xs) <= set_max_intset_entries server -> set_Forall elem_ok s -> s = list_to_set (map sdec xs) ->
  set_rep (IntsetObj iset) s.
Proof. intros R Hl Hok Hs. split; [done|]. by exists e, xs. Qed.

Lemma rep_listpack lp ps num s : lp_rep lp ps num -> NoDup (map ent_str ps) -> set_Forall elem_ok s -> s = list_to_set (map ent_str ps) -> set_rep (ListpackObj lp) s.
Proof. intros R Hn Hok Hs. split; [done|]. by exists ps, num. Qed.

Lemma rep_ht (d d' : Dict.dict bytes unit) m s : Dict.pauseAutoResize d = 0 -> DictSpec.holds d d' m -> set_Forall elem_ok s -> s = dom m -> set_rep (HtObj d') s.
Proof. intros Hp Hh Hok Hs. split; [done|]. split_and!; [apply Hh|by rewrite (DictSpec.ho_auto _ _ _ Hh)|by rewrite (DictSpec.ho_map _ _ _ Hh)]. Qed.

(** * Iteration *)

(** The elements in the order of the iteration. *)
Definition values_of (o : robj) (vs : list set_value) : Prop :=
  match o with
  | IntsetObj iset => exists e xs, Intset.intset_rep iset e xs /\ vs = map IntVal xs
  | ListpackObj lp => exists ps num, lp_rep lp ps num /\ vs = map ent_value ps
  | HtObj d => DictSpec.dict_ok d /\ vs = map (fun e => StrVal e.1) (DictSpec.entries d)
  end.

(** Where an iterator is: the elements that are left. *)
Definition iter_at (o : robj) (si : setTypeIterator) (vs : list set_value) : Prop :=
  match o, si with
  | IntsetObj iset, IntsetIter ii => exists e xs i, Intset.intset_rep iset e xs /\ ii = Z.of_nat i /\ vs = map IntVal (drop i xs) /\ (i <= length xs)%nat
  | ListpackObj lp, ListpackIter lpi => exists ps num, lp_rep lp ps num /\
      ((lpi = None /\ vs = map ent_value ps) \/ exists i, lpi = Some (off (take i (ents ps))) /\ (i < length ps)%nat /\ vs = map ent_value (drop (S i) ps))
  | HtObj d, HtIter di => DictSpec.dict_ok d /\ DictScan.it_ok d di /\ DictScan.it_safe di = false /\
      (DictScan.fresh di = false -> DictScan.it_fingerprint di = DictScan.dictFingerprint addr d) /\ vs = map (fun e => StrVal e.1) (DictScan.rem d di)
  | _, _ => False
  end.

Lemma iter_start o vs : values_of o vs -> iter_at o (setTypeInitIterator o) vs.
Proof.
  destruct o as [iset|lp|d]; cbn [values_of iter_at setTypeInitIterator].
  - intros (e & xs & R & ->). exists e, xs, 0%nat. split_and!; [done|done|done|lia].
  - intros (ps & num & R & ->). exists ps, num. split; [done|]. by left.
  - intros [Hd ->]. split_and!; [done|by left|done|done|done].
Qed.

Lemma int_range iset e xs : Intset.intset_rep iset e xs -> Forall (srange 64) xs.
Proof.
  intros R. eapply Forall_impl; [apply (Intset.rep_values _ _ _ R)|]. intros z Hz. destruct (Intset.rep_valid _ _ _ R) as [-> | [-> | ->]]; unfold srange in *; cbn in *; lia.
Qed.

Lemma payload_small lp ps num i e : lp_rep lp ps num -> ps !! i = Some e -> enc_ok e /\ Z.of_nat (length e) < 2 ^ 32.
Proof.
  intros R Hi. split; [eapply Forall_lookup_1; [apply R|done]|]. pose proof (rep_total _ _ _ R) as Ht.
  rewrite <- (take_drop_middle _ _ _ Hi) in Ht.
  change (take i ps ++ e :: drop (S i) ps) with (take i ps ++ [e] ++ drop (S i) ps) in Ht. rewrite total_split in Ht.
  change (body (ents [e])) with (ent (mkent e) ++ []) in Ht. rewrite app_nil_r, ent_length in Ht. cbn [mkent fst] in Ht. lia.
Qed.

(** The value that [lpGetValue] reads at an entry. *)
Lemma get_value lp ps num i e : lp_rep lp ps num -> ps !! i = Some e ->
  exists v, lpGetValue lp (off (take i (ents ps))) = Some v /\
    match v with inl (p, l) => s ← load lp p (Z.to_nat l); Some (StrVal s) | inr z => Some (IntVal z) end = Some (ent_value e) /\ val_ok (ent_value e).
Proof.
  intros R Hi. pose proof (rep_wf _ _ _ R) as W. destruct (payload_small _ _ _ _ _ R Hi) as [He Hl].
  assert (Hx : ents ps !! i = Some (mkent e)) by (unfold ents; by rewrite list_lookup_fmap, Hi).
  destruct (wf_get lp _ num i _ W Hx) as (v & w & Hv & _ & Hw & Hm). cbn [mkent fst] in Hw. unfold lpGetValue. rewrite Hv. cbn [mbind option_bind].
  unfold ent_value. rewrite Hw. destruct v as [o n|z], w as [s|z']; try done.
  - destruct Hm as [-> Hload]. assert (Hs : (length s <= length e)%nat /\ bytes_ok s).
    { unfold ent_val in Hw. destruct (lpGet e 0) as [[o' n'|z']|]; [|done|done]. cbn [mbind option_bind] in Hw. destruct (load e o' (Z.to_nat n')) as [s'|] eqn:El; [|done].
      injection Hw as <-. unfold load in El. case_decide as Hle; [|done]. injection El as <-. split; [rewrite length_take, length_drop; lia|]. apply Forall_take, Forall_drop, He. }
    destruct Hs as [Hs Hb]. rewrite uwrap_small by (unfold urange; lia). eexists. split; [done|]. cbn beta iota. rewrite Nat2Z.id, Hload. split; [done|]. split; [done|lia].
  - destruct Hm as [-> Hz]. eexists. split; [done|]. split; [done|done].
Qed.

(** One call of [setTypeNext], and the release of the iterator after it. *)
Definition next_spec (o : robj) (si : setTypeIterator) (vs : list set_value) : Prop :=
  exists si', setTypeNext o si = Some (o, si', head vs) /\ setTypeReleaseIterator o si' = Some o /\ match vs with [] => True | _ :: vs => iter_at o si' vs end.

Lemma next_intset iset ii vs : iter_at (IntsetObj iset) (IntsetIter ii) vs -> next_spec (IntsetObj iset) (IntsetIter ii) vs.
Proof.
  intros (e & xs & i & R & -> & -> & Hi). pose proof (Intset.rep_bound _ _ _ R) as Hb. unfold next_spec. cbn [SetType.setTypeNext SetType.setTypeReleaseIterator]. unfold Intset.intsetGet.
  rewrite uwrap_small by (unfold urange; lia). rewrite (Intset.rep_get_len _ _ _ R). destruct (Z.ltb_spec (Z.of_nat i) (Z.of_nat (length xs))) as [Hlt|Hge].
  - destruct (lookup_lt_is_Some_2 xs i) as [z Hz]; [lia|]. rewrite swrap_small by (unfold srange; cbn; lia). rewrite (Intset.rep_get _ _ _ _ _ R Hz). cbn [mbind option_bind option_map].
    rewrite (drop_S _ _ _ Hz). eexists. split; [done|]. split; [done|]. exists e, xs, (S i). split_and!; [done|lia|done|lia].
  - cbn [mbind option_bind option_map]. rewrite drop_ge by lia. by eexists.
Qed.

Lemma next_listpack lp lpi vs : iter_at (ListpackObj lp) (ListpackIter lpi) vs -> next_spec (ListpackObj lp) (ListpackIter lpi) vs.
Proof.
  intros (ps & num & R & Hcase). pose proof (rep_wf _ _ _ R) as W. unfold next_spec. cbn [SetType.setTypeNext].
  assert (Hp : exists j, (j <= length ps)%nat /\ vs = map ent_value (drop j ps) /\ match lpi with None => lpFirst lp | Some lpi => lpNext lp lpi end = Some (nth_ptr (ents ps) j)).
  { destruct Hcase as [[-> ->]|(i & -> & Hi & ->)]; [exists 0%nat|exists (S i)]; (split; [lia|split; [done|]]); [apply (wf_first W)|apply (wf_next W); by rewrite ents_length]. }
  destruct Hp as (j & Hj & -> & ->). cbn [mbind option_bind]. destruct (decide (j < length ps)%nat) as [Hlt|Hge].
  - rewrite nth_ptr_Some by (by rewrite ents_length). destruct (lookup_lt_is_Some_2 ps j Hlt) as [e He]. destruct (get_value _ _ _ _ _ R He) as (v & -> & Hv & _).
    cbn [mbind option_bind]. rewrite Hv. cbn [mbind option_bind]. rewrite (drop_S _ _ _ He). eexists. split; [done|]. split; [done|]. exists ps, num. split; [done|]. right. by exists j.
  - rewrite nth_ptr_None by (rewrite ents_length; lia). rewrite drop_ge by lia. by eexists.
Qed.

Lemma next_ht d di vs : iter_at (HtObj d) (HtIter di) vs -> next_spec (HtObj d) (HtIter di) vs.
Proof.
  intros (Hd & Hit & Hsafe & Hfp & ->). unfold next_spec. cbn [SetType.setTypeNext]. destruct (DictScan.dictNext_ok addr d di Hd Hit) as (di' & r & -> & Hs & Hfp' & Hf & Hm).
  cbn [mbind option_bind]. assert (Hst : DictScan.started d di = d) by (unfold DictScan.started; by rewrite Hsafe, andb_false_r). rewrite Hst.
  assert (Hfp2 : DictScan.it_fingerprint di' = DictScan.dictFingerprint addr d).
  { rewrite Hfp'. unfold DictScan.start_fp. rewrite Hsafe. cbn [negb]. rewrite andb_true_r. destruct (DictScan.fresh di) eqn:E; [done|by apply Hfp]. }
  assert (Hrel : setTypeReleaseIterator (HtObj d) (HtIter di') = Some (HtObj d)).
  { cbn [SetType.setTypeReleaseIterator]. unfold DictScan.dictResetIterator. fold (DictScan.fresh di'). rewrite Hf, Hs, Hsafe, Hfp2, Z.eqb_refl. done. }
  destruct (DictScan.rem d di) as [|x l]; [subst r; by eexists|]. destruct Hm as (-> & Hok & Hl). eexists. split; [done|]. split; [done|].
  split_and!; [done|done|congruence|done|by rewrite Hl].
Qed.

Lemma next_ok o si vs : iter_at o si vs -> next_spec o si vs.
Proof. destruct o, si; try done; [apply next_intset|apply next_listpack|apply next_ht]. Qed.

(** The body of a loop on the elements, one after the other. *)
Fixpoint run_body {S} (body : S -> set_value -> option (S * bool)) (vs : list set_value) (st : S) : option S :=
  match vs with [] => Some st | v :: vs => '(st, c) ← body st v; if (c : bool) then run_body body vs st else Some st end.

Lemma set_iterate_ok {S} (body : S -> set_value -> option (S * bool)) fuel : forall o si vs st st', iter_at o si vs -> (length vs <= fuel)%nat -> run_body body vs st = Some st' ->
  exists si', iterate_set fuel o si body st = Some (o, si', st') /\ setTypeReleaseIterator o si' = Some o.
Proof.
  induction fuel as [|fuel IH]; intros o si vs st st' Hit Hl Hrun; cbn [SetType.iterate_set]; destruct (next_ok o si vs Hit) as (si' & -> & Hrel & Hn); cbn [mbind option_bind];
    (destruct vs as [|v vs]; cbn [head run_body] in *; [injection Hrun as <-; by exists si'|]); [cbn in Hl; lia|].
  destruct (body st v) as [[st1 c]|]; [|done]. cbn [mbind option_bind] in *. destruct c; [|injection Hrun as <-; by exists si']. apply (IH o si' vs st1 st'); [done|cbn in Hl; lia|done].
Qed.

Lemma bound_ok o vs : values_of o vs -> (length vs <= iter_bound o)%nat.
Proof.
  destruct o as [iset|lp|d]; cbn [values_of iter_bound].
  - intros (e & xs & R & ->). unfold Intset.intsetLen. rewrite (Intset.rep_get_len _ _ _ R), length_map. lia.
  - intros (ps & num & R & ->). destruct (wf_count (rep_wf _ _ _ R)) as [Hc _]. rewrite ents_length in Hc. rewrite length_map. lia.
  - intros [_ ->]. by rewrite length_map.
Qed.

Lemma foreach_ok {S} o vs (body : S -> set_value -> option (S * bool)) st st' : values_of o vs -> run_body body vs st = Some st' -> set_foreach o body st = Some (o, st').
Proof.
  intros Hv Hrun. unfold set_foreach. destruct (set_iterate_ok body (iter_bound o) o _ vs st st' (iter_start o vs Hv) (bound_ok o vs Hv) Hrun) as (si & -> & Hrel). cbn [mbind option_bind].
  by rewrite Hrel.
Qed.

Lemma sdec_NoDup iset e xs : Intset.intset_rep iset e xs -> NoDup (map sdec xs).
Proof.
  intros R. pose proof (int_range _ _ _ R) as Hr. apply NoDup_fmap_2_strong; [|by apply Intset.sorted_NoDup, (Intset.rep_sorted _ _ _ R)].
  intros x y Hx Hy. rewrite Forall_forall in Hr. apply sdec_inj; by apply Hr.
Qed.

(** The elements of a set object. *)
Lemma object_values o s : set_rep o s -> exists vs, values_of o vs /\ Forall val_ok vs /\ NoDup (map vstr vs) /\ s = list_to_set (map vstr vs).
Proof.
  intros [Hok Ho]. destruct o as [iset|lp|d].
  - destruct Ho as (e & xs & R & _ & ->). exists (map IntVal xs). rewrite map_map. split_and!; [by exists e, xs|by eapply Forall_fmap, int_range|by eapply sdec_NoDup|done].
  - destruct Ho as (ps & num & R & Hn & ->). exists (map ent_value ps). rewrite map_map.
    assert (E : map (fun e => vstr (ent_value e)) ps = map ent_str ps) by (apply map_ext; intros e; apply ent_value_str). rewrite E.
    split_and!; [by exists ps, num| |done|done]. apply Forall_fmap, Forall_lookup. intros i e He. by destruct (get_value _ _ _ _ _ R He) as (_ & _ & _ & Hv).
  - destruct Ho as (Hd & _ & Hs). exists (map (fun e => StrVal e.1) (DictSpec.entries d)). rewrite map_map. cbn [vstr]. split_and!; [done| |apply (DictSpec.dk_nodup _ Hd)|].
    + apply Forall_fmap, Forall_forall. intros e He. apply Hok. rewrite Hs, DictSpec.dom_entries. apply elem_of_list_to_set. by apply list_elem_of_fmap_2 with (f := fst) in He.
    + by rewrite Hs, DictSpec.dom_entries.
Qed.

(** * Testing and removing an element *)

Lemma set_size (l : list bytes) : NoDup l -> size (list_to_set l : gset bytes) = length l.
Proof. intros Hn. by apply size_list_to_set. Qed.

Lemma setTypeSize_ok o s : set_rep o s -> exists o', setTypeSize o = Some (o', Z.of_nat (size s)) /\ set_rep o' s.
Proof.
  intros Hr. destruct (object_values o s Hr) as (vs & Hv & _ & Hn & Hs). destruct Hr as [Hok Ho].
  assert (Hsz : size s = length vs) by (by rewrite Hs, set_size, length_map). rewrite Hsz.
  destruct o as [iset|lp|d]; cbn [values_of setTypeSize] in *.
  - destruct Hv as (e & xs & R & ->). eexists. rewrite length_map. unfold Intset.intsetLen. by rewrite (Intset.rep_get_len _ _ _ R).
  - destruct Ho as (ps & num & R & Hn' & Hs'). destruct (lpLength_spec lp ps num R) as (lp' & num' & -> & R' & _). eexists. cbn [mbind option_bind].
    split; [|by eapply rep_listpack]. do 3 f_equal. rewrite <- (length_map ent_str ps), <- (length_map vstr vs), <- !set_size by done. by rewrite <- Hs, <- Hs'.
  - destruct Hv as [Hd ->]. eexists. rewrite length_map. by rewrite (DictSpec.dictSize_ok d Hd).
Qed.

Lemma listpack_find_ok lp ps num s : lp_rep lp ps num -> Z.of_nat (length s) < 2 ^ 32 ->
  exists r, listpack_find lp s = Some r /\
    match r with
    | Some p => exists i, map ent_str ps !! i = Some s /\ p = off (take i (ents ps)) /\ (i < length ps)%nat
    | None => s ∉ map ent_str ps
    end.
Proof.
  intros R Hl. pose proof (rep_wf _ _ _ R) as W. unfold listpack_find. rewrite (wf_first W). cbn [mbind option_bind]. unfold nth_ptr. rewrite ents_length.
  case_decide as Hp; [|exists None; split; [done|]; destruct ps; [apply not_elem_of_nil|cbn in Hp; lia]].
  rewrite u32_str_ok by done. rewrite (lpFind_ok lp (ents ps) num _ 0 s 0 W) by (first [done | right; split; [done|by rewrite ents_length]]). rewrite drop_0.
  pose proof (find_idx_spec (fun x => bool_decide (ent_str x.1 = s)) (ents ps) 0) as Hf. destruct (find_idx _ _ _ _ _) as [j|]; eexists; (split; [done|]).
  - destruct Hf as (x & _ & Hx & E%bool_decide_eq_true). rewrite Nat.sub_0_r in Hx. unfold ents in Hx. rewrite list_lookup_fmap in Hx. destruct (ps !! j) as [e|] eqn:Ej; [|done].
    injection Hx as <-. exists j. cbn [mkent fst] in E. rewrite list_lookup_fmap, Ej. cbn. split_and!; [by rewrite E|done|by eapply lookup_lt_Some].
  - intros (e & -> & He)%list_elem_of_fmap. rewrite Forall_forall in Hf. specialize (Hf (mkent e) (list_elem_of_fmap_2 mkent _ _ He)). by apply bool_decide_eq_false in Hf.
Qed.

Lemma int_member xs s : Forall (srange 64) xs -> (exists z, s = sdec z /\ srange 64 z /\ z ∈ xs) <-> s ∈ (list_to_set (map sdec xs) : gset bytes).
Proof.
  intros Hr. rewrite elem_of_list_to_set, list_elem_of_fmap. split; [intros (z & -> & _ & Hz); by exists z|]. intros (z & -> & Hz). exists z. rewrite Forall_forall in Hr. by split_and!; [|apply Hr|].
Qed.

Lemma sdec_member xs z : Forall (srange 64) xs -> srange 64 z -> sdec z ∈ (list_to_set (map sdec xs) : gset bytes) <-> z ∈ xs.
Proof.
  intros Hr Hz. rewrite <- (int_member xs _ Hr). split; [|intros Hx; by exists z]. intros (z' & E & Hz' & Hx). by rewrite (sdec_inj z z').
Qed.

(** The integer a string stands for decides membership in an intset. *)
Lemma not_int_member xs s : Forall (srange 64) xs -> string2ll s = None -> s ∉ (list_to_set (map sdec xs) : gset bytes).
Proof. intros Hr Hn (z & -> & Hz & _)%(int_member xs _ Hr). by rewrite string2ll_complete in Hn. Qed.

Lemma found_dom (m : gmap bytes unit) k : match pair k <$> m !! k with Some _ => true | None => false end = bool_decide (k ∈ dom m).
Proof.
  destruct (m !! k) eqn:E; symmetry; [apply bool_decide_true|apply bool_decide_false]; rewrite elem_of_dom, E; [by eexists|]. by intros [].
Qed.

Lemma setTypeIsMemberAux_ok o s v : set_rep o s -> val_ok v ->
  exists o', setTypeIsMemberAux mode o v = Some (o', bool_decide (vstr v ∈ s)) /\ set_rep o' s.
Proof.
  intros Hr Hv. pose proof Hr as [Hok Ho]. pose proof (value_str_ok v Hv) as Hstr. unfold setTypeIsMemberAux.
  destruct o as [iset|lp|d].
  - destruct Ho as (e & xs & R & Hmax & ->). pose proof (int_range _ _ _ R) as Hx. exists (IntsetObj iset). split; [|done].
    assert (Hfind : forall z, srange 64 z -> vstr v = sdec z -> (b ← Intset.intsetFind iset z; Some (IntsetObj iset, b)) = Some (IntsetObj iset, bool_decide (vstr v ∈ (list_to_set (map sdec xs) : gset bytes)))).
    { intros z Hz ->. rewrite (Intset.find_rep iset e xs z R). cbn [mbind option_bind]. do 2 f_equal. apply bool_decide_ext. by rewrite sdec_member. }
    destruct v as [t|z]; [|by apply Hfind]. rewrite Hstr. cbn [mbind option_bind vstr] in *. destruct (string2ll t) as [z|] eqn:E.
    + apply string2ll_iff in E as [-> Hz]. by apply Hfind.
    + rewrite bool_decide_false; [done|]. by apply not_int_member.
  - destruct Ho as (ps & num & R & Hn & ->). pose proof (proj2 (vstr_ok v Hv)) as Hl. destruct (listpack_find_ok lp ps num (vstr v) R Hl) as (r & Hf & Hres). exists (ListpackObj lp). split; [|done].
    assert (E : match r with Some _ => true | None => false end = bool_decide (vstr v ∈ (list_to_set (map ent_str ps) : gset bytes))).
    { destruct r; symmetry; [apply bool_decide_true|apply bool_decide_false]; rewrite elem_of_list_to_set; [|done]. destruct Hres as (i & Hi & _). by eapply list_elem_of_lookup_2. }
    destruct v; rewrite Hstr; cbn [mbind option_bind]; rewrite Hf; cbn [mbind option_bind]; by rewrite E.
  - destruct Ho as (Hd & Hp & Hs). destruct (DictSpec.dictFind_ok mode d (vstr v) Hd) as (d' & Hf & Hh). exists (HtObj d').
    assert (Hres : setTypeIsMemberAux mode (HtObj d) v = Some (HtObj d', bool_decide (vstr v ∈ s))).
    { unfold setTypeIsMemberAux. destruct v; rewrite Hstr; cbn [mbind option_bind]; rewrite Hf; cbn [mbind option_bind]; do 2 f_equal; rewrite Hs; apply found_dom. }
    split; [exact Hres|]. by eapply rep_ht.
Qed.

Context (Hconf : 0 <= set_max_intset_entries server < 2 ^ 29).

Lemma xs_length (xs xs' : list Z) : StronglySorted Z.lt xs' -> xs' ⊆ xs -> (length xs' <= length xs)%nat.
Proof.
  intros Hs Hin. apply NoDup_incl_length; [by apply NoDup_ListNoDup, Intset.sorted_NoDup|]. intros x Hx. apply list_elem_of_In in Hx. apply list_elem_of_In. by apply Hin.
Qed.

(** An intset without an integer. *)
Lemma intset_remove_ok iset z s : set_rep (IntsetObj iset) s -> srange 64 z ->
  exists iset', Intset.intsetRemove fill iset z = Some (iset', bool_decide (sdec z ∈ s)) /\ set_rep (IntsetObj iset') (s ∖ {[sdec z]}).
Proof.
  intros [Hok (e & xs & R & Hmax & ->)] Hz. pose proof (int_range _ _ _ R) as Hx. destruct (Intset.remove_rep fill iset e xs z R) as (iset' & xs' & -> & R' & Hm); [lia|].
  exists iset'. split; [do 2 f_equal; apply bool_decide_ext; by rewrite sdec_member|]. eapply rep_intset; [exact R'| | |].
  - pose proof (xs_length xs xs' (Intset.rep_sorted _ _ _ R') ltac:(intros x [_ ?]%Hm; done)). lia.
  - intros x [Hs _]%elem_of_difference. by apply Hok.
  - pose proof (int_range _ _ _ R') as Hx'. apply set_eq. intros x. rewrite elem_of_difference, elem_of_singleton, <- (int_member xs' x Hx'), <- (int_member xs x Hx). split.
    + intros [(y & -> & Hy & Hin) Hne]. exists y. split_and!; [done|done|]. apply Hm. split; [congruence|done].
    + intros (y & -> & Hy & [Hne Hin]%Hm). split; [by exists y|]. intros E. by apply sdec_inj in E.
Qed.

Lemma list_delete_set (l : list bytes) i x : NoDup l -> l !! i = Some x -> (list_to_set l ∖ {[x]} : gset bytes) = list_to_set (delete i l) /\ NoDup (delete i l).
Proof.
  intros Hn Hi. pose proof (delete_Permutation l i x Hi) as Hp. rewrite Hp in Hn. apply NoDup_cons in Hn as [Hx Hn]. split; [|done]. apply set_eq. intros y.
  assert (Hy : y ∈ l <-> y = x \/ y ∈ delete i l) by (rewrite Hp at 1; apply elem_of_cons). rewrite elem_of_difference, !elem_of_list_to_set, elem_of_singleton, Hy. split; [tauto|].
  intros Hin. split; [by right|]. by intros ->.
Qed.

Lemma setTypeRemoveAux_ok o s v : set_rep o s -> val_ok v ->
  exists o', setTypeRemoveAux mode fill o v = Some (o', bool_decide (vstr v ∈ s)) /\ set_rep o' (s ∖ {[vstr v]}).
Proof.
  intros Hr Hv. pose proof Hr as [Hok Ho]. pose proof (value_str_ok v Hv) as Hstr. unfold setTypeRemoveAux.
  assert (Hrest : set_Forall elem_ok (s ∖ {[vstr v]})) by (intros x [Hx _]%elem_of_difference; by apply Hok).
  assert (Hsame : vstr v ∉ s -> s ∖ {[vstr v]} = s) by (intros Hn; apply difference_disjoint_L, disjoint_singleton_r, Hn).
  destruct o as [iset|lp|d].
  - assert (Hrem : forall z, srange 64 z -> vstr v = sdec z ->
      exists o', ('(iset, success) ← Intset.intsetRemove fill iset z; Some (IntsetObj iset, success)) = Some (o', bool_decide (vstr v ∈ s)) /\ set_rep o' (s ∖ {[vstr v]})).
    { intros z Hz ->. destruct (intset_remove_ok iset z s Hr Hz) as (iset' & -> & Hr'). by exists (IntsetObj iset'). }
    destruct v as [t|z]; [|by apply Hrem]. rewrite Hstr. cbn [mbind option_bind vstr] in *. destruct (string2ll t) as [z|] eqn:E; [apply string2ll_iff in E as [-> Hz]; by apply Hrem|].
    assert (Hn : t ∉ s) by (destruct Ho as (e & xs & R & _ & ->); apply not_int_member; [by eapply int_range|done]).
    exists (IntsetObj iset). rewrite bool_decide_false, Hsame by done. done.
  - destruct Ho as (ps & num & R & Hn & Hs). pose proof (proj2 (vstr_ok v Hv)) as Hl. destruct (listpack_find_ok lp ps num (vstr v) R Hl) as (r & Hf & Hres).
    assert (Hcase : exists o', match r with Some p => lp ← not_null (lpDelete lp p); Some (ListpackObj lp, true) | None => Some (ListpackObj lp, false) end
        = Some (o', bool_decide (vstr v ∈ s)) /\ set_rep o' (s ∖ {[vstr v]})).
    { destruct r as [p|].
      - destruct Hres as (i & Hi & -> & Hlt). destruct (delete_refines lp ps num i R Hlt) as (lp' & newp & -> & ps' & num' & R' & Hps'). exists (ListpackObj lp'). cbn [not_null mbind option_bind].
        destruct (list_delete_set _ _ _ Hn Hi) as [Hd Hnd]. split; [do 2 f_equal; symmetry; apply bool_decide_true; rewrite Hs; apply elem_of_list_to_set; by eapply list_elem_of_lookup_2|].
        eapply rep_listpack; [exact R'|by rewrite Hps'|done|by rewrite Hps', Hs].
      - assert (vstr v ∉ s) by (rewrite Hs; by rewrite elem_of_list_to_set). exists (ListpackObj lp). rewrite bool_decide_false, Hsame by done. done. }
    destruct v; rewrite Hstr; cbn [mbind option_bind]; rewrite Hf; cbn [mbind option_bind]; done.
  - destruct Ho as (Hd & Hp & Hs). destruct (DictSpec.dictGenericDelete_ok mode d (vstr v) Hd) as (d' & Hf & Hh). exists (HtObj d').
    assert (Hres : setTypeRemoveAux mode fill (HtObj d) v = Some (HtObj d', bool_decide (vstr v ∈ s))).
    { unfold setTypeRemoveAux, Dict.dictDelete. destruct v; rewrite Hstr; cbn [mbind option_bind]; rewrite Hf; cbn [mbind option_bind]; do 2 f_equal; rewrite Hs; apply found_dom. }
    split; [exact Hres|]. eapply rep_ht; [exact Hp|exact Hh|done|]. by rewrite Hs, dom_delete_L.
Qed.

(** * Changing the encoding *)

Lemma run_body_app {S} (body : S -> set_value -> option (S * bool)) v vs st st1 : body st v = Some (st1, true) -> run_body body (v :: vs) st = run_body body vs st1.
Proof. intros Hb. cbn [run_body]. by rewrite Hb. Qed.

(** The set that a dictionary holds. *)
Definition ht_rep (d : Dict.dict bytes unit) (s : gset bytes) : Prop := DictSpec.dict_ok d /\ Dict.pauseAutoResize d = 0 /\ s = dom (DictSpec.dmap d).

Lemma ht_size d s : ht_rep d s -> size s = size (DictSpec.dmap d).
Proof. intros (_ & _ & ->). apply size_dom. Qed.

Lemma ht_add d s k : ht_rep d s -> k ∉ s -> Z.of_nat (size s) < DictSpec.max_entries -> exists d', Dict.dictAdd mode d k tt = Some (d', true) /\ ht_rep d' ({[k]} ∪ s).
Proof.
  intros Hr Hk Hsz. rewrite (ht_size _ _ Hr) in Hsz. destruct Hr as (Hd & Hp & ->). rewrite not_elem_of_dom in Hk.
  destruct (DictSpec.dictAdd_ok mode d k tt Hd ltac:(lia) Hsz) as (d' & Hadd & Hh). rewrite bool_decide_true in Hadd, Hh by done. exists d'. split; [done|].
  split_and!; [apply Hh|by rewrite (DictSpec.ho_auto _ _ _ Hh)|]. by rewrite (DictSpec.ho_map _ _ _ Hh), dom_insert_L.
Qed.

Lemma ht_expand n : 0 <= n -> exists d b, Dict.dictExpand mode (Dict.dictCreate : Dict.dict bytes unit) n = Some (d, b) /\ ht_rep d ∅.
Proof.
  intros Hn. destruct (DictSpec.dictCreate_ok (K := bytes) (V := unit)) as [Hd Hm]. destruct (DictSpec.dictExpand_ok mode Dict.dictCreate n Hd Hn) as (d & b & Hx & Hz). exists d, b. split; [done|].
  pose proof (DictSpec.resized_holds _ _ Hd Hz) as Hh. split_and!; [apply Hh|by rewrite (DictSpec.ho_auto _ _ _ Hh)|]. by rewrite (DictSpec.ho_map _ _ _ Hh), Hm, dom_empty_L.
Qed.

(** The strings of a list of elements that are not yet in a hash table. *)
Lemma add_all_ok body vs : (forall d s v, ht_rep d s -> val_ok v -> vstr v ∉ s -> Z.of_nat (size s) < DictSpec.max_entries -> exists d', body d v = Some (d', true) /\ ht_rep d' ({[vstr v]} ∪ s)) ->
  forall d s, ht_rep d s -> Forall val_ok vs -> NoDup (map vstr vs) -> list_to_set (map vstr vs) ## s -> Z.of_nat (size s + length vs) <= DictSpec.max_entries ->
  exists d', run_body body vs d = Some d' /\ ht_rep d' (list_to_set (map vstr vs) ∪ s).
Proof.
  intros Hb. induction vs as [|v vs IH]; intros d s Hd Hok Hn Hdis Hsz; cbn [map list_to_set length] in *; [exists d; split; [done|by rewrite union_empty_l_L]|].
  apply Forall_cons in Hok as [Hv Hok]. apply NoDup_cons in Hn as [Hnin Hn]. assert (Hns : vstr v ∉ s) by set_solver.
  destruct (Hb d s v Hd Hv Hns ltac:(lia)) as (d1 & Hd1 & Hr1). rewrite (run_body_app _ _ _ _ _ Hd1).
  assert (Hs1 : size ({[vstr v]} ∪ s) = Datatypes.S (size s)) by (rewrite size_union, size_singleton by set_solver; done).
  destruct (IH d1 ({[vstr v]} ∪ s) Hr1 Hok Hn) as (d' & Hrun & Hr'); [|rewrite Hs1; lia|].
  { assert (vstr v ∉ (list_to_set (map vstr vs) : gset bytes)) by (by rewrite elem_of_list_to_set). set_solver. }
  exists d'. split; [done|]. replace ({[vstr v]} ∪ list_to_set (map vstr vs) ∪ s) with (list_to_set (map vstr vs) ∪ ({[vstr v]} ∪ s)) by set_solver. done.
Qed.

Lemma convert_values o vs cap : values_of o vs -> Forall val_ok vs -> NoDup (map vstr vs) -> match o with HtObj _ => False | _ => True end -> 0 <= cap ->
  Z.of_nat (length vs) <= DictSpec.max_entries -> exists d, setTypeConvertAndExpand mode addr o OBJ_ENCODING_HT cap = Some (HtObj d) /\ ht_rep d (list_to_set (map vstr vs)).
Proof.
  intros Hv Hok Hn Ho Hcap Hsz. unfold setTypeConvertAndExpand. replace (match o with HtObj _ => false | _ => true end) with true by (by destruct o).
  cbn [guard mbind option_bind]. destruct (ht_expand cap Hcap) as (d & b & -> & Hd). cbn [mbind option_bind].
  set (body := fun (d : Dict.dict bytes unit) (v : set_value) => _). destruct (add_all_ok body vs) with (d := d) (s := (∅ : gset bytes)) as (d' & Hrun & Hd'); try done.
  - intros d0 s0 v H0 Hvok Hns Hsz0. unfold body. rewrite value_str_ok by done. cbn [mbind option_bind]. destruct (ht_add d0 s0 (vstr v) H0 Hns Hsz0) as (d1 & -> & H1). by exists d1.
  - rewrite (foreach_ok o vs body d d' Hv Hrun). cbn [mbind option_bind]. exists d'. split; [done|]. by rewrite <- (union_empty_r_L (list_to_set _)).
Qed.

Lemma convert_ht o s cap : set_rep o s -> match o with HtObj _ => False | _ => True end -> 0 <= cap -> Z.of_nat (size s) <= DictSpec.max_entries ->
  exists d, setTypeConvertAndExpand mode addr o OBJ_ENCODING_HT cap = Some (HtObj d) /\ set_rep (HtObj d) s.
Proof.
  intros Hr Ho Hcap Hsz. destruct (object_values o s Hr) as (vs & Hv & Hok & Hn & Hs). assert (Hlen : length vs = size s) by (by rewrite Hs, set_size, length_map).
  destruct (convert_values o vs cap Hv Hok Hn Ho Hcap ltac:(lia)) as (d & Hc & Hd). exists d. split; [done|]. split; [apply Hr|]. by rewrite Hs.
Qed.

(** ** From an intset to a listpack *)

Lemma total_snoc ps e : total (ents (ps ++ [e])) = total (ents ps) + Z.of_nat (length (ent (mkent e))).
Proof.
  pose proof (total_split ps [e] []) as H1. pose proof (total_split ps [] []) as H2. rewrite !app_nil_r in *. rewrite H1, H2.
  change (body (ents [e])) with (ent (mkent e) ++ []). rewrite app_nil_r. cbn [ents map body concat length]. lia.
Qed.

(** Both [lpAppend] and [lpAppendInteger]. *)
Lemma append_ok m ps num el e : lp_rep m ps num -> el_ok el -> payload el = Some e -> total (ents (ps ++ [e])) <= UINT32_MAX ->
  exists m' num', not_null (p ← eofptr m; lpInsert m (el_str el) (el_int el) p LP_BEFORE) = Some m' /\ lp_rep m' (ps ++ [e]) num'.
Proof.
  intros R Hel He Ht. unfold eofptr. rewrite (wf_get_total (rep_wf _ _ _ R)). cbn [mbind option_bind]. rewrite total_off.
  rewrite (proj2 (Z.leb_le _ _)) by lia. cbn [guard mbind option_bind].
  replace (Z.to_nat _) with (off (take (length ps) (ents ps))) by (rewrite off_all by (by rewrite ents_length); lia).
  assert (Hi : el <> ElDel) by (by intros ->). pose proof (lpInsert_spec m ps num (length ps) el LP_BEFORE R Hel ltac:(by right)) as Hs. cbn zeta in Hs.
  assert (E : ins_list ps el LP_BEFORE (length ps) = ps ++ [e]).
  { unfold ins_list. rewrite He. destruct el; [| |done]; cbn [ins_pos ins_drop option_list]; by rewrite take_ge, drop_ge by lia. }
  rewrite E in Hs. unfold fits in Hs. rewrite (proj2 (Z.leb_le _ _)) in Hs by done. destruct Hs as (m' & -> & R'). eexists m', _. split; [done|exact R'].
Qed.

Lemma int_entry z : srange 64 z -> ent_str (lpEncodeIntegerGetType z) = sdec z.
Proof. intros Hz. unfold ent_str, ent_val. by rewrite (proj2 (lp_enc_int_ok z Hz)). Qed.

(** The space that an integer takes. *)
Lemma int_entry_length z : Z.of_nat (length (ent (mkent (lpEncodeIntegerGetType z)))) = lpEntrySizeInteger z.
Proof. rewrite ent_length. cbn [mkent fst snd]. unfold lpEntrySizeInteger. rewrite Nat2Z.inj_add, lpEncodeBacklen_length. done. Qed.

Lemma int_entry_bound z : 0 <= lpEntrySizeInteger z <= 10.
Proof. unfold lpEntrySizeInteger. pose proof (lpEncodeInteger_length z). unfold lpEncodeBacklenBytes. rewrite (proj2 (Z.leb_le _ _)) by lia. lia. Qed.

Lemma int_len_mono z y : 0 <= z <= y \/ y <= z < 0 -> (length (lpEncodeIntegerGetType z) <= length (lpEncodeIntegerGetType y))%nat.
Proof. intros Hz. unfold lpEncodeIntegerGetType. repeat (case_match; [cbn [length]; repeat case_match; cbn [length]; lia|]). cbn [length]. repeat case_match; cbn [length]; lia. Qed.

(** "In the safe to add check above we assumed all elements in the intset are of size maxelelen.
    This is an upper bound." *)
Lemma int_entry_between lo hi z : lo <= z <= hi -> lpEntrySizeInteger z <= Z.max (lpEntrySizeInteger lo) (lpEntrySizeInteger hi).
Proof.
  intros Hz. assert (Hs : forall y, lpEntrySizeInteger y = Z.of_nat (length (lpEncodeIntegerGetType y)) + 1).
  { intros y. unfold lpEntrySizeInteger. pose proof (lpEncodeInteger_length y). unfold lpEncodeBacklenBytes. by rewrite (proj2 (Z.leb_le _ _)) by lia. }
  rewrite !Hs. destruct (decide (0 <= z)); [pose proof (int_len_mono z hi ltac:(lia))|pose proof (int_len_mono z lo ltac:(lia))]; lia.
Qed.

Lemma append_ints xs : forall lp ps num b body, lp_rep lp ps num -> Forall (srange 64) xs -> Forall (fun z => lpEntrySizeInteger z <= b) xs ->
  total (ents ps) + b * Z.of_nat (length xs) <= UINT32_MAX -> (forall lp z, body lp (IntVal z) = (lp ← not_null (lpAppendInteger lp z); Some (lp, true))) ->
  exists lp' num', run_body body (map IntVal xs) lp = Some lp' /\ lp_rep lp' (ps ++ map lpEncodeIntegerGetType xs) num' /\
    total (ents (ps ++ map lpEncodeIntegerGetType xs)) <= total (ents ps) + b * Z.of_nat (length xs).
Proof.
  induction xs as [|z xs IH]; intros lp ps num b body R Hr Hb Ht Hbody; cbn [map length] in *; [exists lp, num; rewrite app_nil_r; split_and!; [done|done|lia]|].
  apply Forall_cons in Hr as [Hz Hr]. apply Forall_cons in Hb as [Hzb Hb]. pose proof (int_entry_bound z) as Hze. pose proof (total_snoc ps (lpEncodeIntegerGetType z)) as Hsn.
  rewrite int_entry_length in Hsn. destruct (append_ok lp ps num (ElInt z) _ R Hz eq_refl) as (lp1 & num1 & Happ & R1); [nia|].
  change (p ← eofptr lp; lpInsert lp (el_str (ElInt z)) (el_int (ElInt z)) p LP_BEFORE) with (lpAppendInteger lp z) in Happ.
  rewrite (run_body_app body _ _ lp lp1) by (rewrite Hbody, Happ; done). destruct (IH lp1 _ num1 b body R1 Hr Hb) as (lp' & num' & Hrun & R' & Hl); [nia|done|].
  exists lp', num'. rewrite <- app_assoc in R', Hl. split_and!; [done|exact R'|]. cbn [app] in Hl. nia.
Qed.

(** The least and the greatest element of an intset. *)
Lemma intset_extremes iset e xs : Intset.intset_rep iset e xs -> xs <> [] ->
  exists lo hi, Intset.intsetMin iset = Some lo /\ Intset.intsetMax iset = Some hi /\ Forall (fun z => lo <= z <= hi) xs.
Proof.
  intros R Hne. pose proof (Intset.rep_sorted _ _ _ R) as Hs. pose proof (Intset.rep_bound _ _ _ R) as Hb. destruct xs as [|lo xs]; [done|].
  destruct (exists_last Hne) as (ys & hi & E). assert (Hl : length ys = length xs) by (apply (f_equal length) in E; rewrite length_app in E; cbn in E; lia).
  exists lo, hi. unfold Intset.intsetMin, Intset.intsetMax. rewrite (Intset.rep_get_len _ _ _ R). change 0 with (Z.of_nat 0) at 1. rewrite (Intset.rep_get iset e _ 0%nat lo R eq_refl).
  replace (s32 _) with (Z.of_nat (length xs)) by (cbn [length] in *; rewrite uwrap_small, swrap_small by (unfold urange, srange; cbn; lia); lia).
  rewrite (Intset.rep_get iset e _ (length xs) hi R) by (rewrite E, <- Hl; by apply list_lookup_middle). split_and!; [done|done|].
  apply Forall_forall. intros z Hz. split.
  - apply elem_of_cons in Hz as [->|Hz]; [lia|]. apply StronglySorted_inv in Hs as [_ Hs]. rewrite Forall_forall in Hs. specialize (Hs _ Hz). lia.
  - rewrite E in Hs, Hz. apply elem_of_app in Hz as [Hz|Hz%list_elem_of_singleton]; [|lia].
    pose proof (StronglySorted_app_1_elem_of Z.lt ys [hi] z hi Hs Hz ltac:(by apply list_elem_of_singleton)). lia.
Qed.

(** [totsize] bounds the size of the listpack. *)
Lemma intset_bounds_ok iset e xs : Intset.intset_rep iset e xs -> Z.of_nat (length xs) < 2 ^ 29 ->
  exists w t b, intset_bounds iset = Some (w, t) /\ Forall (fun z => lpEntrySizeInteger z <= b) xs /\ 0 <= t < 2 ^ 40 /\ b * Z.of_nat (length xs) <= t.
Proof.
  intros R Hl. unfold intset_bounds, Intset.intsetLen. rewrite (Intset.rep_get_len _ _ _ R). destruct (Z.eqb_spec (Z.of_nat (length xs)) 0) as [Hz|Hz].
  { destruct xs; [|cbn in Hz; lia]. exists 0, 0, 0. split_and!; [done|constructor|lia|lia|cbn; lia]. }
  destruct (intset_extremes _ _ _ R) as (lo & hi & -> & -> & Hf); [by intros ->|]. cbn [mbind option_bind]. eexists _, _, (Z.max (lpEntrySizeInteger lo) (lpEntrySizeInteger hi)).
  split; [done|]. pose proof (int_entry_bound lo) as Hlo. pose proof (int_entry_bound hi) as Hhi. unfold lpEstimateBytesRepeatedInteger, LP_HDR_SIZE.
  rewrite !(uwrap_small 64) by (unfold urange; rewrite ?uwrap_small by (unfold urange; nia); nia).
  split; [eapply Forall_impl; [exact Hf|]; intros z Hz'; by apply int_entry_between|]. nia.
Qed.

(** The listpack of an intset. *)
Lemma convert_listpack iset e xs cap b : Intset.intset_rep iset e xs -> Forall (fun z => lpEntrySizeInteger z <= b) xs -> 7 + b * Z.of_nat (length xs) <= UINT32_MAX ->
  exists lp num, setTypeConvertAndExpand mode addr (IntsetObj iset) OBJ_ENCODING_LISTPACK cap = Some (ListpackObj lp) /\
    lp_rep lp (map lpEncodeIntegerGetType xs) num /\ total (ents (map lpEncodeIntegerGetType xs)) <= 7 + b * Z.of_nat (length xs).
Proof.
  intros R Hb Ht. unfold setTypeConvertAndExpand. cbn [guard mbind option_bind].
  assert (Hcap : exists c, listpack_estcap (IntsetObj iset) cap = Some c).
  { unfold listpack_estcap, Intset.intsetLen. rewrite (Intset.rep_get_len _ _ _ R). destruct (_ >? 0) eqn:E; [|by eexists].
    destruct (intset_extremes _ _ _ R) as (lo & hi & -> & -> & _); [intros ->; done|]. by eexists. }
  destruct Hcap as (c & ->). cbn [mbind option_bind]. destruct (lpNew_rep (Z.to_nat c)) as (m & -> & R0). cbn [mbind option_bind].
  set (body := fun (lp : bytes) (v : set_value) => _).
  destruct (append_ints xs m [] 0 b body R0 (int_range _ _ _ R) Hb Ht ltac:(done)) as (lp & num & Hrun & R' & Hl).
  rewrite (foreach_ok (IntsetObj iset) (map IntVal xs) body m lp) by (first [by exists e, xs | done]). cbn [mbind option_bind]. by exists lp, num.
Qed.

Lemma ints_strings xs : Forall (srange 64) xs -> map ent_str (map lpEncodeIntegerGetType xs) = map sdec xs.
Proof. intros Hr. rewrite map_map. apply map_ext_in. intros z Hz%list_elem_of_In. rewrite Forall_forall in Hr. by apply int_entry, Hr. Qed.

(** * Adding an element *)

Lemma insert_elem (s : gset bytes) k : set_Forall elem_ok s -> elem_ok k -> set_Forall elem_ok ({[k]} ∪ s).
Proof. intros Hs Hk x [->%elem_of_singleton|Hx]%elem_of_union; [done|by apply Hs]. Qed.

Lemma add_new_ok d s k : set_rep (HtObj d) s -> elem_ok k -> k ∉ s -> Z.of_nat (size s) < DictSpec.max_entries ->
  exists o', add_new mode (HtObj d) k = Some (o', true) /\ set_rep o' ({[k]} ∪ s).
Proof.
  intros [Hok Hd] Hk Hn Hsz. cbn [add_new]. destruct (ht_add d s k Hd Hn Hsz) as (d' & -> & Hd'). cbn [guard mbind option_bind]. exists (HtObj d'). split; [done|]. split; [by apply insert_elem|done].
Qed.

Lemma sdec_set_insert xs xs' z : (forall x, x ∈ xs' <-> x = z \/ x ∈ xs) -> (list_to_set (map sdec xs') : gset bytes) = {[sdec z]} ∪ list_to_set (map sdec xs).
Proof.
  intros Hm. apply set_eq. intros s. rewrite elem_of_union, elem_of_singleton, !elem_of_list_to_set, !list_elem_of_fmap. split.
  - intros (y & -> & [->|Hy]%Hm); [by left|right]. by exists y.
  - intros [->|(y & -> & Hy)]; [exists z|exists y]; (split; [done|]); apply Hm; [by left|by right].
Qed.

Lemma intsetMaxEntries_ok : intsetMaxEntries server = set_max_intset_entries server.
Proof. unfold intsetMaxEntries. change (Z.shiftl 1 30) with (2 ^ 30). destruct (Z.geb_spec (set_max_intset_entries server) (2 ^ 30)); lia. Qed.

(** An intset with one element more, which may be too many. *)
Lemma maybeConvertIntset_ok iset e xs s : Intset.intset_rep iset e xs -> set_Forall elem_ok s -> s = list_to_set (map sdec xs) ->
  exists o', maybeConvertIntset mode addr server (IntsetObj iset) = Some o' /\ set_rep o' s.
Proof.
  intros R Hok Hs. cbn [maybeConvertIntset]. unfold Intset.intsetLen. rewrite (Intset.rep_get_len _ _ _ R). pose proof (Intset.rep_bound _ _ _ R) as Hb.
  rewrite intsetMaxEntries_ok. destruct (Z.of_nat (length xs) >? set_max_intset_entries server) eqn:E; [|exists (IntsetObj iset); split; [done|]; eapply rep_intset; [exact R|lia|done|done]].
  unfold setTypeConvert. cbn [setTypeSize mbind option_bind]. unfold Intset.intsetLen. rewrite (Intset.rep_get_len _ _ _ R).
  pose proof (int_range _ _ _ R) as Hr. destruct (convert_values (IntsetObj iset) (map IntVal xs) (Z.of_nat (length xs))) as (d & -> & Hd).
  - by exists e, xs.
  - by apply Forall_fmap.
  - rewrite map_map. by eapply sdec_NoDup.
  - done.
  - lia.
  - rewrite length_map. unfold DictSpec.max_entries. lia.
  - exists (HtObj d). split; [done|]. split; [done|]. rewrite map_map in Hd. by rewrite Hs.
Qed.

Lemma intset_add_ok iset s z : set_rep (IntsetObj iset) s -> srange 64 z ->
  exists o', intset_add mode addr fill server iset z = Some (o', bool_decide (sdec z ∉ s)) /\ set_rep o' ({[sdec z]} ∪ s).
Proof.
  intros [Hok (e & xs & R & Hmax & Hs)] Hz. pose proof (int_range _ _ _ R) as Hx. unfold intset_add.
  destruct (Intset.add_rep fill iset e xs z R) as (iset' & e' & xs' & -> & R' & _ & Hm); [lia|done|]. cbn [mbind option_bind].
  assert (Hin : sdec z ∈ s <-> z ∈ xs) by (rewrite Hs; by apply sdec_member). assert (Hs' : {[sdec z]} ∪ s = list_to_set (map sdec xs')) by (by rewrite Hs, (sdec_set_insert xs xs' z Hm)).
  assert (Hok' : set_Forall elem_ok ({[sdec z]} ∪ s)) by (apply insert_elem; [done|apply (vstr_ok (IntVal z)), Hz]).
  replace (bool_decide (sdec z ∉ s)) with (bool_decide (z ∉ xs)) by (apply bool_decide_ext; by rewrite Hin). case_bool_decide as Hnew.
  - destruct (maybeConvertIntset_ok iset' e' xs' _ R' Hok' Hs') as (o' & -> & Hr). by exists o'.
  - exists (IntsetObj iset'). split; [done|]. eapply rep_intset; [exact R'| |done|done].
    pose proof (xs_length xs xs' (Intset.rep_sorted _ _ _ R') ltac:(intros x [->|?]%Hm; done)). lia.
Qed.

Lemma safe_to_add m ps num n : lp_rep m ps num -> 0 <= n < 2 ^ 32 -> lpSafeToAdd (Some m) n = Some (negb (total (ents ps) + n >? 2 ^ 30)).
Proof.
  intros R Hn. unfold lpSafeToAdd. rewrite (wf_get_total (rep_wf _ _ _ R)). cbn [mbind option_bind]. pose proof (rep_total _ _ _ R) as Ht. rewrite total_off in Ht.
  rewrite total_off, uwrap_small by (unfold urange; lia). done.
Qed.

Lemma NoDup_snoc (l : list bytes) s : NoDup l -> s ∉ l -> NoDup (l ++ [s]).
Proof. intros Hl Hs. apply NoDup_app. split_and!; [done|intros x Hx ->%list_elem_of_singleton; done|apply NoDup_singleton]. Qed.

(** A new string at the end of a listpack that is not too large. *)
Lemma append_string m ps num s l : lp_rep m ps num -> map ent_str ps = l -> elem_ok s -> total (ents ps) + Z.of_nat (length s) <= 2 ^ 31 -> s ∉ l -> NoDup l -> set_Forall elem_ok (list_to_set l : gset bytes) ->
  exists m', not_null (lpAppend m (u32_str s)) = Some m' /\ set_rep (ListpackObj m') ({[s]} ∪ list_to_set l) /\ lp_holds m' (l ++ [s]).
Proof.
  intros R Hps [Hb Hl] Ht Hn Hnd Hok. rewrite u32_str_ok by done. pose proof (total_off (ents ps)) as Hto. assert (Hst : str_ok s) by (split; [done|lia]).
  destruct (append_refines m ps num s R Hst) as [(m' & newp & -> & Hh)|(_ & t & Hlen & Hbig)].
  - rewrite Hps in Hh. exists m'. split; [done|]. split; [|done]. destruct Hh as (ps' & num' & R' & Hps'). eapply rep_listpack; [exact R'| | |].
    + rewrite Hps'. by apply NoDup_snoc.
    + by apply insert_elem.
    + rewrite Hps', list_to_set_app_L. cbn [list_to_set]. set_solver.
  - unfold lpBytes in Hlen. rewrite (wf_get_total (rep_wf _ _ _ R)) in Hlen. injection Hlen as <-. unfold UINT32_MAX in Hbig. lia.
Qed.

Lemma append_value m ps num v s : lp_rep m ps num -> NoDup (map ent_str ps) -> s = list_to_set (map ent_str ps) -> set_Forall elem_ok s -> val_ok v ->
  total (ents ps) + Z.of_nat (length (vstr v)) <= 2 ^ 31 -> vstr v ∉ s ->
  exists m', not_null (match v with IntVal llval => lpAppendInteger m llval | StrVal _ => lpAppend m (u32_str (vstr v)) end) = Some m' /\ set_rep (ListpackObj m') ({[vstr v]} ∪ s).
Proof.
  intros R Hnd Hs Hok Hv Ht Hn. pose proof (vstr_ok v Hv) as He. subst s. rewrite elem_of_list_to_set in Hn. destruct v as [t|z].
  { destruct (append_string m ps num t _ R eq_refl He Ht Hn Hnd Hok) as (m' & Hm & Hr & _). by exists m'. }
  cbn [vstr val_ok] in *. pose proof (total_snoc ps (lpEncodeIntegerGetType z)) as Hsn. rewrite int_entry_length in Hsn. pose proof (int_entry_bound z).
  destruct (append_ok m ps num (ElInt z) _ R Hv eq_refl) as (m' & num' & Hm & R'); [unfold UINT32_MAX; lia|]. exists m'. split; [exact Hm|].
  eapply rep_listpack; [exact R'| | |]; rewrite ?map_app; cbn [map]; rewrite ?int_entry by done.
  - by apply NoDup_snoc.
  - by apply insert_elem.
  - rewrite list_to_set_app_L. cbn [list_to_set]. set_solver.
Qed.

Abbreviation setTypeAddAux := (setTypeAddAux mode addr fill server).

(** The set, and whether the element is new. *)
Definition added (r : option (robj * bool)) (s : gset bytes) (k : bytes) : Prop :=
  exists o', r = Some (o', bool_decide (k ∉ s)) /\ set_rep o' ({[k]} ∪ s).

Lemma added_new (r : option (robj * bool)) s k o' : k ∉ s -> r = Some (o', true) -> set_rep o' ({[k]} ∪ s) -> added r s k.
Proof. intros Hn -> Hr. exists o'. by rewrite bool_decide_true. Qed.

Lemma added_old (r : option (robj * bool)) (s : gset bytes) k o' : k ∈ s -> r = Some (o', false) -> set_rep o' s -> added r s k.
Proof. intros Hn -> Hr. exists o'. rewrite bool_decide_false by (by intros Hnn). split; [done|]. by rewrite (subseteq_union_1_L {[k]} s) by set_solver. Qed.

(** A hash table in the place of a set that got too large. *)
Lemma convert_and_add o s k cap : set_rep o s -> match o with HtObj _ => False | _ => True end -> 0 <= cap -> Z.of_nat (size s) < DictSpec.max_entries -> elem_ok k -> k ∉ s ->
  added (o ← setTypeConvertAndExpand mode addr o OBJ_ENCODING_HT cap; add_new mode o k) s k.
Proof.
  intros Hr Ho Hcap Hsz Hk Hn. destruct (convert_ht o s cap Hr Ho Hcap ltac:(lia)) as (d & -> & Hd). cbn [mbind option_bind].
  destruct (add_new_ok d s k Hd Hk Hn Hsz) as (o' & -> & Hr'). by eapply added_new.
Qed.

Lemma add_ht d s v : set_rep (HtObj d) s -> val_ok v -> Z.of_nat (size s) < DictSpec.max_entries -> added (setTypeAddAux (HtObj d) v) s (vstr v).
Proof.
  intros [Hok Hht] Hv Hsz. pose proof (ht_size d s Hht) as Hds. destruct Hht as (Hd & Hp & Hs).
  destruct (DictSpec.findLink_set_ok mode d (vstr v) tt Hd ltac:(rewrite <- Hds; done)) as (d1 & r & b & Hf & Hh & Hres).
  assert (E : setTypeAddAux (HtObj d) v = match r with None => ht ← Dict.dictSetKeyAtLink mode d1 (vstr v) tt b; Some (HtObj ht, true) | Some _ => Some (HtObj d1, false) end).
  { unfold SetType.setTypeAddAux. destruct v; rewrite value_str_ok by done; cbn [mbind option_bind]; rewrite Hf; done. }
  rewrite E. destruct r as [l|].
  - eapply added_old; [|done|by eapply rep_ht]. rewrite Hs, elem_of_dom. by destruct (DictSpec.dmap d !! vstr v).
  - destruct Hres as (Hn & d2 & -> & Hh2). eapply added_new; [by rewrite Hs, not_elem_of_dom|done|]. eapply rep_ht; [exact Hp|exact Hh2|by apply insert_elem, vstr_ok|]. by rewrite dom_insert_L, Hs.
Qed.

Lemma add_listpack lp s v : set_rep (ListpackObj lp) s -> val_ok v -> Z.of_nat (size s) < DictSpec.max_entries -> added (setTypeAddAux (ListpackObj lp) v) s (vstr v).
Proof.
  intros Hr Hv Hsz. pose proof Hr as [Hok (ps & num & R & Hn & Hs)]. pose proof (vstr_ok v Hv) as [Hb Hl]. destruct (listpack_find_ok lp ps num (vstr v) R Hl) as (r & Hf & Hres).
  destruct (lpLength_spec lp ps num R) as (lp' & num' & Hlen & R' & _). pose proof (safe_to_add lp' ps num' (Z.of_nat (length (vstr v))) R' ltac:(lia)) as Hsafe.
  assert (Hr' : set_rep (ListpackObj lp') s) by (by eapply rep_listpack).
  unfold SetType.setTypeAddAux. rewrite (value_str_ok v Hv). cbn [mbind option_bind]. rewrite Hf. cbn [mbind option_bind].
  destruct r as [p|]; [destruct v; (eapply added_old; [|done|done]; rewrite Hs, elem_of_list_to_set; destruct Hres as (i & Hi & _); by eapply list_elem_of_lookup_2)|].
  assert (Hnin : vstr v ∉ s) by (rewrite Hs; by rewrite elem_of_list_to_set).
  rewrite Hlen. cbn [mbind option_bind]. rewrite Hsafe. cbn [mbind option_bind]. destruct (_ && _ && _) eqn:E.
  - destruct (append_value lp' ps num' v s R' Hn Hs Hok Hv) as (m & Hm & Hr2); [lia|done|].
    destruct v; rewrite Hm; cbn [mbind option_bind]; by eapply added_new.
  - destruct v; apply convert_and_add; (done || lia).
Qed.

(** A string that is not an integer, for an intset. *)
Lemma add_intset_string iset s k : set_rep (IntsetObj iset) s -> elem_ok k -> string2ll k = None -> Z.of_nat (size s) < DictSpec.max_entries ->
  added (setTypeAddAux (IntsetObj iset) (StrVal k)) s k.
Proof.
  intros Hr Hk Hnum Hsz. pose proof Hr as [Hok (e & xs & R & Hmax & Hs)]. pose proof (int_range _ _ _ R) as Hx.
  assert (Hnin : k ∉ s) by (rewrite Hs; by apply not_int_member). destruct (intset_bounds_ok iset e xs R ltac:(lia)) as (w & t & b & Hbnd & Hb & Ht & Hbt).
  unfold SetType.setTypeAddAux. cbn [value_str mbind option_bind]. rewrite Hnum, Hbnd. cbn [mbind option_bind]. unfold Intset.intsetLen. rewrite (Intset.rep_get_len _ _ _ R).
  unfold lpSafeToAdd. cbn [mbind option_bind]. pose proof (proj2 Hk) as Hkl. rewrite !(uwrap_small 64) by (unfold urange; rewrite ?uwrap_small by (unfold urange; lia); lia). cbn [mbind option_bind].
  destruct (_ && _ && _ && _) eqn:E; [|apply convert_and_add; (done || lia)].
  change LISTPACK_MAX_SAFETY_SIZE with (2 ^ 30) in E.
  destruct (convert_listpack iset e xs (Z.of_nat (length xs) + 1) b R Hb ltac:(unfold UINT32_MAX; lia)) as (lp & num & -> & R' & Htot). cbn [mbind option_bind].
  pose proof (sdec_NoDup _ _ _ R) as Hnd. rewrite Hs in Hok, Hnin. rewrite elem_of_list_to_set in Hnin.
  destruct (append_string lp _ num k (map sdec xs) R' (ints_strings xs Hx) Hk ltac:(lia) Hnin Hnd Hok) as (m & -> & [Hok' _] & (ps' & num' & Rm & Hps')). cbn [mbind option_bind].
  destruct (shrink_rep m ps' num' Rm) as (m' & -> & Rm'). cbn [mbind option_bind]. rewrite Hs. eapply added_new; [by rewrite elem_of_list_to_set|done|].
  eapply rep_listpack; [exact Rm'| |done|]; rewrite Hps'; [|rewrite list_to_set_app_L; cbn [list_to_set]; set_solver].
  by apply NoDup_snoc.
Qed.

Lemma setTypeAddAux_ok o s v : set_rep o s -> val_ok v -> Z.of_nat (size s) < DictSpec.max_entries -> added (setTypeAddAux o v) s (vstr v).
Proof.
  intros Hr Hv Hsz. destruct o as [iset|lp|d]; [|by apply add_listpack|by apply add_ht]. destruct v as [k|z]; [|by apply intset_add_ok].
  destruct (string2ll k) as [z|] eqn:E; [|by apply add_intset_string]. unfold SetType.setTypeAddAux. cbn [value_str mbind option_bind vstr]. rewrite E.
  apply string2ll_iff in E as [-> Hz]. by apply intset_add_ok.
Qed.

(** * New sets, copies and the other conversions *)

Lemma empty_set_rep (o : robj) : match o with IntsetObj iset => iset = Intset.intsetNew | ListpackObj lp => exists cap, lpNew cap = Some lp | HtObj d => ht_rep d ∅ end -> set_rep o ∅.
Proof.
  intros Ho. destruct o as [iset|lp|d].
  - subst iset. eapply rep_intset; [apply Intset.new_rep|cbn [length]; lia|done|done].
  - destruct Ho as [cap Hcap]. destruct (lpNew_rep cap) as (m & Hm & R). assert (m = lp) as -> by congruence. eapply rep_listpack; [exact R|constructor|done|done].
  - by split.
Qed.

Lemma setTypeCreate_ok v n : 0 <= n -> exists o, setTypeCreate mode server v n = Some o /\ set_rep o ∅.
Proof.
  intros Hn. unfold setTypeCreate, createSetListpackObject, createIntsetObject. destruct (_ && _); [eexists; split; [done|]; by apply empty_set_rep|]. destruct (_ <=? _).
  - destruct (lpNew_rep 0) as (m & Hm & _). rewrite Hm. eexists. split; [done|]. apply empty_set_rep. by exists 0%nat.
  - destruct (ht_expand n Hn) as (d & b & -> & Hd). eexists. split; [done|]. by apply empty_set_rep.
Qed.

Lemma setTypeMaybeConvert_ok o s n : set_rep o s -> 0 <= n -> Z.of_nat (size s) <= DictSpec.max_entries -> exists o', setTypeMaybeConvert mode addr server o n = Some o' /\ set_rep o' s.
Proof.
  intros Hr Hn Hsz. unfold setTypeMaybeConvert. destruct (match o with ListpackObj _ => _ | IntsetObj _ => _ | HtObj _ => _ end) eqn:E; [|by exists o].
  destruct (convert_ht o s n Hr) as (d & -> & Hd); [by destruct o|done|done|]. by exists (HtObj d).
Qed.

(** Elements added one after the other. *)
Lemma add_each {S} (obj : S -> robj) (body : S -> set_value -> option (S * bool)) :
  (forall st s v, set_rep (obj st) s -> val_ok v -> Z.of_nat (size s) < DictSpec.max_entries -> exists st', body st v = Some (st', true) /\ set_rep (obj st') ({[vstr v]} ∪ s)) ->
  forall vs st s, set_rep (obj st) s -> Forall val_ok vs -> Z.of_nat (size s + length vs) <= DictSpec.max_entries ->
  exists st', run_body body vs st = Some st' /\ set_rep (obj st') (s ∪ list_to_set (map vstr vs)).
Proof.
  intros Hbody. induction vs as [|v vs IH]; intros st s Hr Hok Hsz; cbn [map list_to_set length] in *; [exists st; split; [done|by rewrite union_empty_r_L]|].
  apply Forall_cons in Hok as [Hv Hok]. destruct (Hbody st s v Hr Hv ltac:(lia)) as (st1 & Hb & Hr1). rewrite (run_body_app _ _ _ _ _ Hb).
  assert (Hs1 : (size ({[vstr v]} ∪ s) <= Datatypes.S (size s))%nat) by (rewrite size_union_alt, size_singleton; pose proof (subseteq_size (s ∖ {[vstr v]}) s ltac:(set_solver)); lia).
  destruct (IH st1 _ Hr1 Hok ltac:(lia)) as (st' & Hrun & Hr'). exists st'. split; [done|]. by rewrite union_assoc_L, (union_comm_L s).
Qed.

Lemma setTypeDup_ok o s : set_rep o s -> Z.of_nat (size s) <= DictSpec.max_entries -> exists o', setTypeDup mode addr fill server o = Some (o, o') /\ set_rep o' s.
Proof.
  intros Hr Hsz. destruct (object_values o s Hr) as (vs & Hv & Hok & Hn & Hs). pose proof Hr as [Hes Ho]. destruct o as [iset|lp|d]; cbn [setTypeDup].
  - destruct Ho as (e & xs & R & Hmax & Hs'). pose proof (Intset.rep_contents _ _ _ R) as Hc.
    assert (Hload : load (Intset.contents iset) 0 (Z.to_nat (Intset.intsetBlobLen iset - Intset.sizeof_intset)) = Some (Intset.contents iset)).
    { unfold Intset.intsetBlobLen. rewrite (Intset.rep_get_len _ _ _ R), (Intset.rep_get_enc _ _ _ R), Hc.
      assert (He : 0 <= Z.of_nat e <= 8) by (destruct (Intset.rep_valid _ _ _ R) as [-> | [-> | ->]]; lia). pose proof (Intset.rep_bound _ _ _ R) as Hb.
      assert (Hm : 0 <= Z.of_nat (length xs) * Z.of_nat e <= 8 * 2 ^ 31) by nia. unfold Intset.sizeof_intset.
      rewrite (uwrap_small 64 (_ * _)), uwrap_small by (unfold urange; rewrite ?uwrap_small by (unfold urange; lia); lia).
      rewrite load_Some by (rewrite enc_cells_length; lia). f_equal. rewrite drop_0, take_ge; [done|]. rewrite enc_cells_length. lia. }
    rewrite Hload. cbn [mbind option_bind]. eexists. split; [done|]. by destruct iset.
  - destruct Ho as (ps & num & R & Hn' & Hs'). destruct (lpDup_spec lp ps num R) as (m & -> & R'). exists (ListpackObj m). split; [done|]. by eapply rep_listpack.
  - destruct (ht_expand (Dict.dictSize d)) as (new & b & -> & Hnew); [destruct Ho as (Hd & _ & _); rewrite (DictSpec.dictSize_ok d Hd); lia|]. cbn [mbind option_bind].
    set (body := fun (o : robj) (v : set_value) => _). destruct (add_each id body) with (vs := vs) (st := HtObj new) (s := (∅ : gset bytes)) as (o' & Hrun & Hr'); [|by apply empty_set_rep|done| |].
    + intros o1 s1 v H1 Hvok Hs1. unfold body. rewrite value_str_ok by done. cbn [mbind option_bind]. unfold setTypeAdd.
      destruct (setTypeAddAux_ok o1 s1 (StrVal (vstr v)) H1) as (o2 & -> & H2); [by apply vstr_ok|done|]. by exists o2.
    + rewrite size_empty. assert (length vs = size s) by (by rewrite Hs, set_size, length_map). lia.
    + exists o'. rewrite union_empty_l_L, <- Hs in Hr'. split; [|done]. by apply (foreach_ok (HtObj d) vs body _ o' Hv Hrun).
Qed.

(** The integer of an element. *)
Definition value_int (v : set_value) : option Z := match v with StrVal s => string2ll s | IntVal z => Some z end.

Lemma value_int_ok v : val_ok v -> (exists z, srange 64 z /\ vstr v = sdec z) -> exists z, value_int v = Some z /\ srange 64 z /\ vstr v = sdec z.
Proof.
  intros Hv (z & Hz & E). destruct v as [s|y]; cbn [value_int vstr val_ok] in *; [|by exists y]. exists z. split; [|done]. apply string2ll_iff. by split.
Qed.

(** The integers of a list of elements, all different. *)
Lemma add_ints body : (forall iset v, body iset v = (z ← value_int v; '(iset, success) ← Intset.intsetAdd fill iset z; _ ← guard success; Some (iset, true))) ->
  forall vs iset e xs, Intset.intset_rep iset e xs -> Forall val_ok vs -> Forall (fun v => exists z, srange 64 z /\ vstr v = sdec z) vs -> NoDup (map vstr vs) ->
    (forall x, x ∈ map vstr vs -> x ∉ map sdec xs) -> Z.of_nat (length xs + length vs) < 2 ^ 29 ->
  exists iset' e' xs', run_body body vs iset = Some iset' /\ Intset.intset_rep iset' e' xs' /\ (length xs' <= length xs + length vs)%nat /\
    (list_to_set (map sdec xs') : gset bytes) = list_to_set (map vstr vs) ∪ list_to_set (map sdec xs).
Proof.
  intros Hbody. induction vs as [|v vs IH]; intros iset e xs R Hok Hint Hn Hdis Hl; cbn [map list_to_set length] in *; [exists iset, e, xs; split_and!; [done|done|lia|by rewrite union_empty_l_L]|].
  apply Forall_cons in Hok as [Hv Hok]. apply Forall_cons in Hint as [Hiv Hint]. apply NoDup_cons in Hn as [Hnv Hn]. destruct (value_int_ok v Hv Hiv) as (z & Hz & Hr & E).
  destruct (Intset.add_rep fill iset e xs z R ltac:(lia) Hr) as (iset1 & e1 & xs1 & Hadd & R1 & _ & Hm).
  assert (Hzx : z ∉ xs) by (intros Hin; apply (Hdis (vstr v)); [by left|rewrite E; by apply list_elem_of_fmap_2]). rewrite bool_decide_true in Hadd by done.
  assert (Hs1 : (length xs1 <= length (z :: xs))%nat) by (apply xs_length; [apply R1|intros x Hx%Hm; by apply elem_of_cons]). cbn [length] in Hs1.
  rewrite (run_body_app body v vs iset iset1) by (rewrite Hbody, Hz; cbn [mbind option_bind]; rewrite Hadd; done).
  destruct (IH iset1 e1 xs1 R1 Hok Hint Hn) as (iset' & e' & xs' & Hrun & R' & Hl' & Hs'); [|lia|].
  { intros x Hx (y & -> & [->|Hy]%Hm)%list_elem_of_fmap; [by rewrite <- E in Hx|]. apply (Hdis (sdec y)); [by right|by apply list_elem_of_fmap_2]. }
  exists iset', e', xs'. split_and!; [done|done|lia|]. rewrite Hs', (sdec_set_insert xs xs1 z Hm), E. set_solver.
Qed.

(** A set of integers becomes an intset unless it is too large. *)
Lemma maybeConvertToIntset_ok o s : set_rep o s -> set_Forall (fun x => exists z, srange 64 z /\ x = sdec z) s ->
  exists o', maybeConvertToIntset addr fill server o = Some o' /\ set_rep o' s /\
    (Z.of_nat (size s) <= set_max_intset_entries server -> exists iset, o' = IntsetObj iset).
Proof.
  intros Hr Hint. destruct (setTypeSize_ok o s Hr) as (o1 & Hsz & Hr1).
  assert (Hcase : (exists iset, o = IntsetObj iset) \/ ~ exists iset, o = IntsetObj iset) by (destruct o; [left; by eexists|right; by intros []..]).
  destruct Hcase as [[iset ->]|Hno]; [eexists; split_and!; [done|done|by eexists]|].
  set (body := fun (iset : Intset.intset) (v : set_value) => llval ← match v with StrVal s => string2ll s | IntVal llval => Some llval end;
        '(iset, success) ← Intset.intsetAdd fill iset llval; _ ← guard success; Some (iset, true)).
  assert (E : maybeConvertToIntset addr fill server o = if Z.of_nat (size s) >? set_max_intset_entries server then Some o1 else '(_, iset) ← set_foreach o1 body Intset.intsetNew; Some (IntsetObj iset)).
  { rewrite <- intsetMaxEntries_ok. unfold maybeConvertToIntset. destruct o; [by destruct Hno; eexists| |]; by rewrite Hsz. }
  rewrite E. destruct (Z.of_nat (size s) >? _) eqn:Elt; [exists o1; split_and!; [done|done|lia]|].
  destruct (object_values o1 s Hr1) as (vs & Hv & Hok & Hn & Hs). assert (Hlen : length vs = size s) by (by rewrite Hs, set_size, length_map).
  destruct (add_ints body ltac:(done) vs Intset.intsetNew 2 [] Intset.new_rep Hok) as (iset & e & xs & Hrun & R & Hl & Hset); [|done|intros ?? []%not_elem_of_nil|cbn [length]; lia|].
  { apply Forall_forall. intros v Hin. apply Hint. rewrite Hs. by apply elem_of_list_to_set, list_elem_of_fmap_2. }
  rewrite (foreach_ok o1 vs body _ iset Hv Hrun). cbn [mbind option_bind]. exists (IntsetObj iset). split_and!; [done| |by eexists].
  eapply rep_intset; [exact R|cbn [length] in Hl; lia|apply Hr|]. rewrite Hset, Hs. cbn [map list_to_set]. by rewrite union_empty_r_L.
Qed.

(** * Strings of more than 32 bits of length *)

Lemma u32_str_long e t : Z.of_nat (length e) < 2 ^ 32 -> Z.of_nat (length t) = 2 ^ 32 -> u32_str (e ++ t) = e.
Proof.
  intros He Ht. unfold u32_str. rewrite length_app. replace (u32 _) with (Z.of_nat (length e)); [by rewrite Nat2Z.id, take_app_length|].
  rewrite Nat2Z.inj_add, Ht. unfold uwrap. rewrite <- Zplus_mod_idemp_r, Z_mod_same_full, Z.add_0_r. by rewrite Z.mod_small by lia.
Qed.

(** C39. The length of a string is cut to 32 bits by the calls of [lpFind]: for a set in a listpack, an element followed by
    2^32 bytes of any content, which is not an element, is reported as one and is not added. *)
Theorem listpack_set_long_member lp s e t : set_rep (ListpackObj lp) s -> e ∈ s -> Z.of_nat (length t) = 2 ^ 32 ->
  ((e ++ t) ∉ s) /\ setTypeIsMember mode (ListpackObj lp) (e ++ t) = Some (ListpackObj lp, true) /\ setTypeAdd mode addr fill server (ListpackObj lp) (e ++ t) = Some (ListpackObj lp, false).
Proof.
  intros [Hok (ps & num & R & Hn & Hs)] He Ht. destruct (Hok e He) as [_ Hl]. split.
  { intros Hin. destruct (Hok _ Hin) as [_ Hl']. rewrite length_app in Hl'. lia. }
  assert (Hf : exists p, listpack_find lp (e ++ t) = Some (Some p)).
  { destruct (listpack_find_ok lp ps num e R Hl) as ([p|] & Hf & Hp); [|by rewrite Hs, elem_of_list_to_set in He]. exists p. unfold listpack_find in *. by rewrite (u32_str_long e t Hl Ht), <- (u32_str_ok e Hl). }
  destruct Hf as [p Hf]. unfold setTypeIsMember, setTypeIsMemberAux, setTypeAdd, SetType.setTypeAddAux. cbn [value_str mbind option_bind]. by rewrite Hf.
Qed.

End Spec.

(** * Concrete instances *)

Module Sample.

#[export] Instance bytes_dict : DictType bytes := {
  hashFunction s := u64 (le_val s); keyCompare s1 s2 := bool_decide (s1 = s2); resizeAllowed := None; force_full_rehash := false
}.

#[export] Instance bytes_laws : DictLaws bytes.
Proof. split; [intros k; by apply uwrap_range|intros k1 k2; apply bool_decide_eq_true]. Qed.

#[export] Instance eight_alloc : Allocator := {
  usable := round8; junk n := replicate n 170; usable_ge n := Nat.le_add_r n (8 - n mod 8); junk_length n := length_replicate n 170
}.

#[export] Existing Instance Intset.little.

(** Small limits, so that all the conversions are reached. *)
Definition sample_config : set_config := mkSetConfig 2 3 8.

Lemma config_ok : 0 <= set_max_intset_entries sample_config < 2 ^ 29.
Proof. cbn. lia. Qed.

Definition sample_add (o : robj) (s : bytes) : option (robj * bool) := setTypeAdd Dict.DICT_RESIZE_ENABLE (fun _ => 0) 165 sample_config o s.

(** A listpack with one element. *)
Definition sample_lp : bytes := match (o ← createSetListpackObject; sample_add o [97]) with Some (ListpackObj lp, _) => lp | _ => [] end.

Lemma sample_lp_rep : set_rep sample_config (ListpackObj sample_lp) {[ [97] ]}.
Proof.
  destruct (lpNew_rep 0) as (lp & Hlp & _). assert (Hadd : sample_add (ListpackObj lp) [97] = Some (ListpackObj sample_lp, true)).
  { unfold sample_lp, createSetListpackObject. rewrite Hlp. cbn [mbind option_bind]. vm_compute in Hlp. injection Hlp as <-. by vm_compute. }
  assert (He : val_ok (StrVal [97])) by (split; [constructor; [by vm_compute|constructor]|done]).
  destruct (setTypeAddAux_ok Dict.DICT_RESIZE_ENABLE (fun _ => 0) 165 sample_config config_ok (ListpackObj lp) ∅ (StrVal [97])) as (o & Ho & Hr); [|done|done|].
  { apply (empty_set_rep sample_config config_ok). by exists 0%nat. }
  unfold sample_add, setTypeAdd in Hadd. rewrite Hadd in Ho. assert (o = ListpackObj sample_lp) as -> by congruence. cbn [vstr] in Hr. by rewrite union_empty_r_L in Hr.
Qed.

Lemma listpack_set_long_member_witness :
  let t := replicate (Z.to_nat (2 ^ 32)) 0 in
  (([97] ++ t) ∉ ({[ [97] ]} : gset bytes)) /\ setTypeIsMember Dict.DICT_RESIZE_ENABLE (ListpackObj sample_lp) ([97] ++ t) = Some (ListpackObj sample_lp, true) /\
  sample_add (ListpackObj sample_lp) ([97] ++ t) = Some (ListpackObj sample_lp, false).
Proof.
  intros t. apply (listpack_set_long_member Dict.DICT_RESIZE_ENABLE (fun _ => 0) 165 sample_config sample_lp {[ [97] ]} [97] t sample_lp_rep); [by apply elem_of_singleton|].
  unfold t. rewrite length_replicate. apply Z2Nat.id. lia.
Defined.

End Sample.
End SetTypeSpec.
