(* ===== verification/SetCmd.v ===== *)
(** The set commands of t_set.c on a database.

    A database maps keys to objects; an object is given by its key, so two arguments are the same
    pointer exactly when they are the same key.  Expiration, notifications, statistics and the
    histogram of key sizes are left out; a command gives back the database, with the count of changes
    [dirty], and its reply.  The number of arguments is checked by the command table. *)

From S2P Require Import Prelude Endian Util ListpackEnc Listpack ListpackOps ListpackFind Intset Dict DictSpec DictScan BitfieldCmd SetType.

(** [qsort] of the C library: some permutation, in an order that the comparison function decides. *)
Class Qsort := {
  qsort {X} : (X -> X -> Z) -> list X -> list X;
  qsort_perm {X} (cmp : X -> X -> Z) (l : list X) : qsort cmp l ≡ₚ l
}.

Module SetCmd.
Import Util Lp Listpack LpOps LpFind SetType.

Inductive kvobj := SetObj (o : robj) | OtherObj (id : Z).

Record redisDb := mkDb { keys : gmap bytes kvobj; dirty : Z }.

Inductive error := WrongType | NumkeysError | TooManyKeys | LimitError | SyntaxError.

(** A set is replied with the length that is announced and the elements that follow. *)
Inductive reply := RInt (n : Z) | RArray (l : list Z) | RSet (len : Z) (l : list bytes) | RErr (e : error).

Inductive set_op := SET_OP_UNION | SET_OP_DIFF.

Section SetCmd.
Context `{Host} {A : Allocator} `{DT : DictType bytes} {Q : Qsort}.
Context (mode : Dict.dictResizeEnable) (addr : list (list (bytes * unit)) -> Z) (fill : Z) (server : set_config).

Abbreviation setTypeAddAux := (setTypeAddAux mode addr fill server).
Abbreviation setTypeAdd := (setTypeAdd mode addr fill server).
Abbreviation setTypeRemoveAux := (setTypeRemoveAux mode fill).
Abbreviation setTypeRemove := (setTypeRemove mode fill).
Abbreviation setTypeIsMemberAux := (setTypeIsMemberAux mode).
Abbreviation setTypeIsMember := (setTypeIsMember mode).
Abbreviation setTypeCreate := (setTypeCreate mode server).
Abbreviation set_foreach := (set_foreach addr).

(** * The database *)

(** The set at a key, NULL, or an object that [checkType] refuses. *)
Definition lookupSet (db : redisDb) (key : bytes) : error + option robj :=
  match keys db !! key with None => inr None | Some (SetObj o) => inr (Some o) | Some (OtherObj _) => inl WrongType end.

(** The set behind a pointer that is not NULL. *)
Definition getSet (db : redisDb) (key : bytes) : option robj := match lookupSet db key with inr r => r | inl _ => None end.

Definition putSet (db : redisDb) (key : bytes) (o : robj) : redisDb := mkDb (<[key := SetObj o]> (keys db)) (dirty db).
Definition touch (db : redisDb) (n : Z) : redisDb := mkDb (keys db) (dirty db + n).
Definition dropKey (db : redisDb) (key : bytes) : redisDb := mkDb (delete key (keys db)) (dirty db).

(** [if (dbDelete(c->db,dstkey)) { ...; server.dirty++; }] *)
Definition dbDelete (db : redisDb) (key : bytes) : redisDb :=
  match keys db !! key with Some _ => touch (dropKey db key) 1 | None => db end.

Definition addReplyBulkLongLong (z : Z) : option bytes := '(buf, len) ← ll2string (junk 64) 64 z; Some (take (Z.to_nat len) buf).

Definition addReplyElement (v : set_value) : option bytes := match v with StrVal s => Some s | IntVal z => addReplyBulkLongLong z end.

(** * Single sets *)

Fixpoint add_members (set : robj) (members : list bytes) (added : Z) : option (robj * Z) :=
  match members with
  | [] => Some (set, added)
  | m :: members => '(set, ok) ← setTypeAdd set m; add_members set members (if (ok : bool) then added + 1 else added)
  end.

Definition saddCommand (db : redisDb) (key : bytes) (members : list bytes) : option (redisDb * reply) :=
  let argc := Z.of_nat (length members) in
  match lookupSet db key with
  | inl e => Some (db, RErr e)
  | inr set =>
    set ← match set with
          | None => v ← head members; setTypeCreate v argc
          | Some set => setTypeMaybeConvert mode addr server set argc
          end;
    '(set, added) ← add_members set members 0;
    set ← (if added =? 0 then Some set else '(set, _) ← setTypeSize set; Some set);
    Some (touch (putSet db key set) added, RInt added)
  end.

(** The set, [deleted] and [keyremoved]. *)
Fixpoint rem_members (set : robj) (members : list bytes) (deleted : Z) : option (robj * Z * bool) :=
  match members with
  | [] => Some (set, deleted, false)
  | m :: members =>
    '(set, ok) ← setTypeRemove set m;
    if (ok : bool) then
      '(set, n) ← setTypeSize set;
      if n =? 0 then Some (set, deleted + 1, true) else rem_members set members (deleted + 1)
    else rem_members set members deleted
  end.

Definition sremCommand (db : redisDb) (key : bytes) (members : list bytes) : option (redisDb * reply) :=
  match lookupSet db key with
  | inl e => Some (db, RErr e)
  | inr None => Some (db, RInt 0)
  | inr (Some set) =>
    '(set, _) ← setTypeSize set;
    '(set, deleted, keyremoved) ← rem_members set members 0;
    let db := if (keyremoved : bool) then dropKey db key else putSet db key set in
    Some (touch db deleted, RInt deleted)
  end.

(** SMOVE between different sets. *)
Definition move_element (db : redisDb) (src dst ele : bytes) (srcset : robj) (dstset : option robj) : option (redisDb * reply) :=
  '(srcset, removed) ← setTypeRemove srcset ele;
  if (removed : bool) then
    '(srcset, srcNewLen) ← setTypeSize srcset;
    let db := if srcNewLen =? 0 then dropKey db src else putSet db src srcset in
    dstset ← match dstset with None => setTypeCreate ele 1 | Some dstset => Some dstset end;
    let db := touch db 1 in
    '(dstset, added) ← setTypeAdd dstset ele;
    if (added : bool) then '(dstset, _) ← setTypeSize dstset; Some (touch (putSet db dst dstset) 1, RInt 1)
    else Some (putSet db dst dstset, RInt 1)
  else Some (putSet db src srcset, RInt 0).

Definition smoveCommand (db : redisDb) (src dst ele : bytes) : option (redisDb * reply) :=
  match lookupSet db src with
  | inr None => Some (db, RInt 0)
  | inl e => Some (db, RErr e)
  | inr (Some srcset) =>
    match lookupSet db dst with
    | inl e => Some (db, RErr e)
    | inr dstset =>
      if bool_decide (src = dst) then
        '(srcset, b) ← setTypeIsMember srcset ele;
        Some (putSet db src srcset, RInt (if (b : bool) then 1 else 0))
      else move_element db src dst ele srcset dstset
    end
  end.

Definition sismemberCommand (db : redisDb) (key ele : bytes) : option (redisDb * reply) :=
  match lookupSet db key with
  | inl e => Some (db, RErr e)
  | inr None => Some (db, RInt 0)
  | inr (Some set) => '(set, b) ← setTypeIsMember set ele; Some (putSet db key set, RInt (if (b : bool) then 1 else 0))
  end.

Fixpoint are_members (set : robj) (eles : list bytes) : option (robj * list Z) :=
  match eles with
  | [] => Some (set, [])
  | e :: eles => '(set, b) ← setTypeIsMember set e; '(set, l) ← are_members set eles; Some (set, (if (b : bool) then 1 else 0) :: l)
  end.

Definition smismemberCommand (db : redisDb) (key : bytes) (eles : list bytes) : option (redisDb * reply) :=
  match lookupSet db key with
  | inl e => Some (db, RErr e)
  | inr None => Some (db, RArray (map (fun _ => 0) eles))
  | inr (Some set) => '(set, l) ← are_members set eles; Some (putSet db key set, RArray l)
  end.

Definition scardCommand (db : redisDb) (key : bytes) : option (redisDb * reply) :=
  match lookupSet db key with
  | inl e => Some (db, RErr e)
  | inr None => Some (db, RInt 0)
  | inr (Some set) => '(set, n) ← setTypeSize set; Some (putSet db key set, RInt n)
  end.

(** The elements that are replied, one after the other. *)
Definition reply_elements (set : robj) : option (robj * list bytes) :=
  set_foreach set (fun l v => s ← addReplyElement v; Some (l ++ [s], true)) [].

Definition smembersCommand (db : redisDb) (key : bytes) : option (redisDb * reply) :=
  match lookupSet db key with
  | inl e => Some (db, RErr e)
  | inr None => Some (db, RSet 0 [])
  | inr (Some set) =>
    '(set, length) ← setTypeSize set;
    '(set, l) ← reply_elements set;
    _ ← guard (length =? Z.of_nat (List.length l));
    Some (putSet db key set, RSet length l)
  end.

(** * Several sets *)

(** [sets]: the pointers, NULL for a missing key; no result after [checkType] failed. *)
Fixpoint lookup_sets (db : redisDb) (setkeys : list bytes) : error + list (option bytes) :=
  match setkeys with
  | [] => inr []
  | k :: setkeys =>
    match lookupSet db k with
    | inl e => inl e
    | inr r => match lookup_sets db setkeys with inl e => inl e | inr sets => inr (option_map (fun _ => k) r :: sets) end
    end
  end.

(** [setTypeSize] of every set, 0 for NULL. *)
Fixpoint set_sizes (db : redisDb) (sets : list (option bytes)) : option (redisDb * list (Z * option bytes)) :=
  match sets with
  | [] => Some (db, [])
  | None :: sets => '(db, l) ← set_sizes db sets; Some (db, (0, None) :: l)
  | Some k :: sets => o ← getSet db k; '(o, n) ← setTypeSize o; '(db, l) ← set_sizes (putSet db k o) sets; Some (db, (n, Some k) :: l)
  end.

Definition qsortCompareSetsByCardinality (s1 s2 : Z * option bytes) : Z := if s1.1 >? s2.1 then 1 else if s1.1 <? s2.1 then -1 else 0.
Definition qsortCompareSetsByRevCardinality (s1 s2 : Z * option bytes) : Z := if s1.1 <? s2.1 then 1 else if s1.1 >? s2.1 then -1 else 0.

(** Sorts [sets]; the sizes are only looked at if there is something to compare. *)
Definition sort_sets (cmp : Z * option bytes -> Z * option bytes -> Z) (db : redisDb) (sets : list (option bytes)) : option (redisDb * list (option bytes)) :=
  match sets with
  | _ :: _ :: _ => '(db, l) ← set_sizes db sets; Some (db, map snd (qsort cmp l))
  | _ => Some (db, sets)
  end.

(** ** SINTER, SINTERSTORE and SINTERCARD *)

Definition is_ht (o : robj) : bool := match o with HtObj _ => true | _ => false end.

(** Whether all the other sets have the element of the first one. *)
Fixpoint in_others (db : redisDb) (first : bytes) (others : list bytes) (v : set_value) : option (redisDb * bool) :=
  match others with
  | [] => Some (db, true)
  | k :: others =>
    if bool_decide (k = first) then in_others db first others v
    else
      o ← getSet db k;
      '(o, b) ← setTypeIsMemberAux o v;
      if (b : bool) then in_others (putSet db k o) first others v else Some (putSet db k o, false)
  end.

(** What the loop of [sinterGenericCommand] changes. *)
Record inter_state := mkInter { i_db : redisDb; i_cardinality : Z; i_reply : list bytes; i_dstset : option robj; i_only_integers : bool }.

(** The element as it is added to [dstset], and [only_integers]. *)
Definition as_integer (ht : bool) (dstset : robj) (v : set_value) (only_integers : bool) : set_value * bool :=
  match v with
  | StrVal s =>
    if only_integers then
      match (if ht then string2ll s else None) with
      | Some z => (if is_ht dstset then v else IntVal z, true)
      | None => (v, false)
      end
    else (v, only_integers)
  | IntVal _ => (v, only_integers)
  end.

(** One element of the first set; [dstset] is there exactly with a [dstkey]. *)
Definition inter_step (first : bytes) (others : list bytes) (ht cardinality_only : bool) (limit : Z) (st : inter_state) (v : set_value) : option (inter_state * bool) :=
  '(db, all) ← in_others (i_db st) first others v;
  if (all : bool) then
    if cardinality_only then
      let cardinality := i_cardinality st + 1 in
      Some (mkInter db cardinality (i_reply st) (i_dstset st) (i_only_integers st), negb (negb (limit =? 0) && (cardinality >=? limit)))
    else
      match i_dstset st with
      | None => s ← addReplyElement v; Some (mkInter db (i_cardinality st + 1) (i_reply st ++ [s]) None (i_only_integers st), true)
      | Some dstset =>
        let '(v, only_integers) := as_integer ht dstset v (i_only_integers st) in
        '(dstset, _) ← setTypeAddAux dstset v;
        Some (mkInter db (i_cardinality st) (i_reply st) (Some dstset) only_integers, true)
      end
  else Some (mkInter db (i_cardinality st) (i_reply st) (i_dstset st) (i_only_integers st), true).

(** The set that the result is collected in. *)
Definition inter_dstset (set0 : robj) : option robj :=
  match set0 with
  | IntsetObj _ => Some createIntsetObject
  | ListpackObj lp => n ← lpBytes lp; lp ← lpNew (Z.to_nat n); Some (ListpackObj lp)
  | HtObj _ => createSetListpackObject
  end.

(** A result that is stored: [setKey], or [dbDelete] when it is empty. *)
Definition store_result (db : redisDb) (dstkey : bytes) (dstset : robj) : option (redisDb * reply) :=
  '(dstset, n) ← setTypeSize dstset;
  Some (touch (putSet db dstkey dstset) 1, RInt n).

Definition inter_finish (dstset : robj) (only_integers : bool) : option robj :=
  dstset ← (if only_integers then maybeConvertToIntset addr fill server dstset else Some dstset);
  match dstset with ListpackObj lp => lp ← lpShrinkToFit lp; Some (ListpackObj lp) | _ => Some dstset end.

(** From the sorted sets on. *)
Definition inter_main (db : redisDb) (first : bytes) (others : list bytes) (dstkey : option bytes) (cardinality_only : bool) (limit : Z) : option (redisDb * reply) :=
  set0 ← getSet db first;
  dstset ← match dstkey with Some _ => d ← inter_dstset set0; Some (Some d) | None => Some None end;
  '(set0, st) ← set_foreach set0 (inter_step first others (is_ht set0) cardinality_only limit) (mkInter db 0 [] dstset true);
  let db := putSet (i_db st) first set0 in
  if cardinality_only then Some (db, RInt (i_cardinality st))
  else
    match dstkey, i_dstset st with
    | Some dstkey, Some dstset =>
      '(dstset, n) ← setTypeSize dstset;
      if n >? 0 then dstset ← inter_finish dstset (i_only_integers st); store_result db dstkey dstset
      else Some (dbDelete db dstkey, RInt 0)
    | _, _ => Some (db, RSet (i_cardinality st) (i_reply st))
    end.

Definition is_null (p : option bytes) : bool := match p with None => true | Some _ => false end.

Definition sinterGenericCommand (db : redisDb) (setkeys : list bytes) (dstkey : option bytes) (cardinality_only : bool) (limit : Z) : option (redisDb * reply) :=
  match lookup_sets db setkeys with
  | inl e => Some (db, RErr e)
  | inr sets =>
    if existsb is_null sets then
      match dstkey with
      | Some dstkey => Some (dbDelete db dstkey, RInt 0)
      | None => Some (db, if cardinality_only then RInt 0 else RSet 0 [])
      end
    else
      '(db, sets) ← sort_sets qsortCompareSetsByCardinality db sets;
      match omap id sets with
      | first :: others => inter_main db first others dstkey cardinality_only limit
      | [] => None
      end
  end.

Definition sinterCommand (db : redisDb) (setkeys : list bytes) := sinterGenericCommand db setkeys None false 0.
Definition sinterstoreCommand (db : redisDb) (dstkey : bytes) (setkeys : list bytes) := sinterGenericCommand db setkeys (Some dstkey) false 0.

(** [getRangeLongFromObjectOrReply] *)
Definition getRangeLong (s : bytes) (min max : Z) : option Z := z ← string2ll s; if (z <? min) || (z >? max) then None else Some z.

Definition name_limit : bytes := [108; 105; 109; 105; 116].

(** The options after the keys. *)
Fixpoint sintercard_options (args : list bytes) (limit : Z) : error + Z :=
  match args with
  | [] => inr limit
  | opt :: args =>
    match args with
    | arg :: args =>
      if BitfieldCmd.strcaseeq opt name_limit then
        match getRangeLong arg 0 LLONG_MAX with None => inl LimitError | Some limit => sintercard_options args limit end
      else inl SyntaxError
    | [] => inl SyntaxError
    end
  end.

(** [args] is [argv] from [numkeys] on. *)
Definition sinterCardCommand (db : redisDb) (args : list bytes) : option (redisDb * reply) :=
  numkeys ← head args;
  let args := tail args in
  match getRangeLong numkeys 1 LLONG_MAX with
  | None => Some (db, RErr NumkeysError)
  | Some numkeys =>
    if numkeys >? Z.of_nat (length args) then Some (db, RErr TooManyKeys)
    else
      match sintercard_options (drop (Z.to_nat numkeys) args) 0 with
      | inl e => Some (db, RErr e)
      | inr limit => sinterGenericCommand db (take (Z.to_nat numkeys) args) None true limit
      end
  end.

(** ** SUNION, SDIFF and their STORE variants *)

(** [dstset_encoding] is a hash table. *)
Definition dstset_ht (db : redisDb) (dstkey : option bytes) (sets : list (option bytes)) : bool :=
  match dstkey with
  | Some _ => false
  | None => existsb (fun p => match p with Some k => match getSet db k with Some (IntsetObj _) => false | _ => true end | None => false end) sets
  end.

(** One of the other sets is the first one. *)
Definition same_set (sets : list (option bytes)) : bool :=
  match sets with
  | Some first :: others => existsb (fun p => bool_decide (p = Some first)) others
  | _ => false
  end.

(** [algo_one_work] and [algo_two_work]; [first] is the key of the first set. *)
Fixpoint algo_work (db : redisDb) (first : bytes) (sets : list (option bytes)) (one two : Z) : option (redisDb * Z * Z) :=
  match sets with
  | [] => Some (db, one, two)
  | None :: sets => algo_work db first sets one two
  | Some k :: sets =>
    o ← getSet db first; '(o, n) ← setTypeSize o;
    let db := putSet db first o in
    o ← getSet db k; '(o, m) ← setTypeSize o;
    algo_work (putSet db k o) first sets (s64 (one + n)) (s64 (two + m))
  end.

(** The algorithm, and the sets in the order it takes them. *)
Definition select_diff_algo (db : redisDb) (sets : list (option bytes)) : option (redisDb * Z * list (option bytes)) :=
  match sets with
  | Some first :: others =>
    if same_set sets then Some (db, 1, sets)
    else
      '(db, one, two) ← algo_work db first sets 0 0;
      if Z.quot one 2 <=? two then '(db, others) ← sort_sets qsortCompareSetsByRevCardinality db others; Some (db, 1, Some first :: others)
      else Some (db, 2, sets)
  | _ => Some (db, 1, sets)
  end.

(** Adds the elements of a set to [dstset], or removes them; [cardinality] is an [int]. *)
Definition union_step (st : robj * Z) (v : set_value) : option (robj * Z * bool) :=
  '(dstset, b) ← setTypeAddAux st.1 v; Some (dstset, s32 (st.2 + (if (b : bool) then 1 else 0)), true).
Definition remove_step (st : robj * Z) (v : set_value) : option (robj * Z * bool) :=
  '(dstset, b) ← setTypeRemoveAux st.1 v; Some (dstset, s32 (st.2 - (if (b : bool) then 1 else 0)), true).

Fixpoint union_sets (db : redisDb) (sets : list (option bytes)) (st : robj * Z) : option (redisDb * (robj * Z)) :=
  match sets with
  | [] => Some (db, st)
  | None :: sets => union_sets db sets st
  | Some k :: sets => o ← getSet db k; '(o, st) ← set_foreach o union_step st; union_sets (putSet db k o) sets st
  end.

(** Whether no other set has the element. *)
Fixpoint in_no_other (db : redisDb) (first : bytes) (others : list (option bytes)) (v : set_value) : option (redisDb * bool) :=
  match others with
  | [] => Some (db, true)
  | None :: others => in_no_other db first others v
  | Some k :: others =>
    if bool_decide (k = first) then Some (db, false)
    else
      o ← getSet db k;
      '(o, b) ← setTypeIsMemberAux o v;
      if (b : bool) then Some (putSet db k o, false) else in_no_other (putSet db k o) first others v
  end.

Definition diff_algo_1 (db : redisDb) (first : bytes) (others : list (option bytes)) (st : robj * Z) : option (redisDb * (robj * Z)) :=
  set0 ← getSet db first;
  '(set0, (db, st)) ← set_foreach set0 (fun dst v =>
    '(db, none) ← in_no_other dst.1 first others v;
    if (none : bool) then '(st, _) ← union_step dst.2 v; Some ((db, st), true) else Some ((db, dst.2), true)) (db, st);
  Some (putSet db first set0, st).

(** The loop over the sets from the second on, which ends when the result is empty. *)
Fixpoint remove_sets (db : redisDb) (sets : list (option bytes)) (st : robj * Z) : option (redisDb * (robj * Z)) :=
  match sets with
  | [] => Some (db, st)
  | None :: sets => remove_sets db sets st
  | Some k :: sets =>
    o ← getSet db k;
    '(o, st) ← set_foreach o remove_step st;
    if st.2 =? 0 then Some (putSet db k o, st) else remove_sets (putSet db k o) sets st
  end.

Definition diff_algo_2 (db : redisDb) (first : bytes) (others : list (option bytes)) (st : robj * Z) : option (redisDb * (robj * Z)) :=
  set0 ← getSet db first;
  '(set0, st) ← set_foreach set0 union_step st;
  let db := putSet db first set0 in
  if st.2 =? 0 then Some (db, st) else remove_sets db others st.

Definition sunionDiffGenericCommand (db : redisDb) (setkeys : list bytes) (dstkey : option bytes) (op : set_op) : option (redisDb * reply) :=
  match lookup_sets db setkeys with
  | inl e => Some (db, RErr e)
  | inr sets =>
    let dstset := if dstset_ht db dstkey sets then createSetObject else createIntsetObject in
    let sameset := same_set sets in
    '(db, diff_algo, sets) ← match op with SET_OP_DIFF => select_diff_algo db sets | SET_OP_UNION => Some (db, 1, sets) end;
    '(db, (dstset, cardinality)) ←
      match op with
      | SET_OP_UNION => union_sets db sets (dstset, 0)
      | SET_OP_DIFF =>
        match sets with
        | Some first :: others =>
          if sameset then Some (db, (dstset, 0))
          else if diff_algo =? 1 then diff_algo_1 db first others (dstset, 0)
          else diff_algo_2 db first others (dstset, 0)
        | _ => Some (db, (dstset, 0))
        end
      end;
    match dstkey with
    | None => '(_, l) ← reply_elements dstset; Some (db, RSet cardinality l)
    | Some dstkey => '(dstset, n) ← setTypeSize dstset; if n >? 0 then store_result db dstkey dstset else Some (dbDelete db dstkey, RInt 0)
    end
  end.

Definition sunionCommand (db : redisDb) (setkeys : list bytes) := sunionDiffGenericCommand db setkeys None SET_OP_UNION.
Definition sunionstoreCommand (db : redisDb) (dstkey : bytes) (setkeys : list bytes) := sunionDiffGenericCommand db setkeys (Some dstkey) SET_OP_UNION.
Definition sdiffCommand (db : redisDb) (setkeys : list bytes) := sunionDiffGenericCommand db setkeys None SET_OP_DIFF.
Definition sdiffstoreCommand (db : redisDb) (dstkey : bytes) (setkeys : list bytes) := sunionDiffGenericCommand db setkeys (Some dstkey) SET_OP_DIFF.

End SetCmd.
End SetCmd.
