(* ===== verification/SetCmdSpec.v ===== *)
(** The set commands refine a map from keys to finite sets (t_set.c): SADD, SREM, SMOVE, SISMEMBER,
    SMISMEMBER, SCARD and SMEMBERS, and the algebra of SINTER, SINTERCARD, SUNION, SDIFF and their
    STORE variants, whatever the encodings of the sets are and whichever algorithm is selected. *)

From S2P Require Import Prelude Endian Util ListpackEnc Listpack ListpackOps ListpackFind Intset Dict DictSpec DictScan Sds SdsSpec BitfieldCmd SetType SetTypeSpec SetCmd.

Module SetCmdSpec.
Import Util Lp Listpack LpOps LpFind SetType SetTypeSpec SetCmd.

(** * Specification *)

Inductive sval := SSet (s : gset bytes) | SOther (id : Z).

Inductive sreply := SInt (n : Z) | SArray (l : list Z) | SSetReply (s : gset bytes) | SErr (e : error).

Inductive command :=
  | SADD (key : bytes) (members : list bytes) | SREM (key : bytes) (members : list bytes) | SMOVE (src dst ele : bytes)
  | SISMEMBER (key ele : bytes) | SMISMEMBER (key : bytes) (eles : list bytes) | SCARD (key : bytes) | SMEMBERS (key : bytes)
  | SINTER (ks : list bytes) | SINTERCARD (ks : list bytes) (limit : option Z) | SINTERSTORE (dst : bytes) (ks : list bytes)
  | SUNION (ks : list bytes) | SUNIONSTORE (dst : bytes) (ks : list bytes) | SDIFF (ks : list bytes) | SDIFFSTORE (dst : bytes) (ks : list bytes).

(** The set at a key, which is empty when there is no key. *)
Definition get (m : gmap bytes sval) (k : bytes) : gset bytes := match m !! k with Some (SSet s) => s | _ => ∅ end.
Definition wrong (m : gmap bytes sval) (k : bytes) : bool := match m !! k with Some (SOther _) => true | _ => false end.

(** A set is kept under a key only while it has elements. *)
Definition put (m : gmap bytes sval) (k : bytes) (s : gset bytes) : gmap bytes sval := if decide (s = ∅) then delete k m else <[k := SSet s]> m.

Definition inter_of (m : gmap bytes sval) (ks : list bytes) : gset bytes := match ks with [] => ∅ | k :: ks => foldr (fun k s => get m k ∩ s) (get m k) ks end.
Definition union_of (m : gmap bytes sval) (ks : list bytes) : gset bytes := ⋃ (map (get m) ks).
Definition diff_of (m : gmap bytes sval) (ks : list bytes) : gset bytes := match ks with [] => ∅ | k :: ks => get m k ∖ union_of m ks end.

(** At most [limit], where 0 is no limit. *)
Definition at_most (limit n : Z) : Z := if limit =? 0 then n else Z.min n limit.

Definition z_of_bool (b : bool) : Z := if b then 1 else 0.

(** The database, the reply and the number of changes. *)
Definition spec_store (m : gmap bytes sval) (dst : bytes) (s : gset bytes) : gmap bytes sval * sreply * Z :=
  (put m dst s, SInt (Z.of_nat (size s)), if decide (s = ∅) then z_of_bool (bool_decide (is_Some (m !! dst))) else 1).

Definition spec_sets (m : gmap bytes sval) (ks : list bytes) (r : gmap bytes sval * sreply * Z) : gmap bytes sval * sreply * Z :=
  if existsb (wrong m) ks then (m, SErr WrongType, 0) else r.

Definition spec_cmd (m : gmap bytes sval) (c : command) : gmap bytes sval * sreply * Z :=
  match c with
  | SADD k ms => let s := get m k in let s' := s ∪ list_to_set ms in let n := Z.of_nat (size s') - Z.of_nat (size s) in spec_sets m [k] (put m k s', SInt n, n)
  | SREM k ms => let s := get m k in let n := Z.of_nat (size (s ∩ list_to_set ms)) in spec_sets m [k] (put m k (s ∖ list_to_set ms), SInt n, n)
  | SMOVE src dst e =>
    if decide (m !! src = None) then (m, SInt 0, 0)
    else spec_sets m [src; dst] (
      if decide (e ∈ get m src) then
        if decide (src = dst) then (m, SInt 1, 0)
        else (put (put m src (get m src ∖ {[e]})) dst (get m dst ∪ {[e]}), SInt 1, 1 + z_of_bool (bool_decide (e ∉ get m dst)))
      else (m, SInt 0, 0))
  | SISMEMBER k e => spec_sets m [k] (m, SInt (z_of_bool (bool_decide (e ∈ get m k))), 0)
  | SMISMEMBER k es => spec_sets m [k] (m, SArray (map (fun e => z_of_bool (bool_decide (e ∈ get m k))) es), 0)
  | SCARD k => spec_sets m [k] (m, SInt (Z.of_nat (size (get m k))), 0)
  | SMEMBERS k => spec_sets m [k] (m, SSetReply (get m k), 0)
  | SINTER ks => spec_sets m ks (m, SSetReply (inter_of m ks), 0)
  | SINTERCARD ks limit => spec_sets m ks (m, SInt (at_most (default 0 limit) (Z.of_nat (size (inter_of m ks)))), 0)
  | SINTERSTORE d ks => spec_sets m ks (spec_store m d (inter_of m ks))
  | SUNION ks => spec_sets m ks (m, SSetReply (union_of m ks), 0)
  | SUNIONSTORE d ks => spec_sets m ks (spec_store m d (union_of m ks))
  | SDIFF ks => spec_sets m ks (m, SSetReply (diff_of m ks), 0)
  | SDIFFSTORE d ks => spec_sets m ks (spec_store m d (diff_of m ks))
  end.

(** A set is replied with its size, and each element once. *)
Definition reply_ok (r : reply) (sr : sreply) : Prop :=
  match r, sr with
  | RInt n, SInt n' => n = n'
  | RArray l, SArray l' => l = l'
  | RSet n l, SSetReply s => n = Z.of_nat (size s) /\ NoDup l /\ list_to_set l = s
  | RErr e, SErr e' => e = e'
  | _, _ => False
  end.

(** ** Finite sets *)

Lemma diff_empty (s : gset bytes) : s ∖ ∅ = s.
Proof. set_solver. Qed.

Lemma size_insert (s : gset bytes) k : Z.of_nat (size ({[k]} ∪ s)) = Z.of_nat (size s) + z_of_bool (bool_decide (k ∉ s)).
Proof.
  case_bool_decide as Hk; cbn [z_of_bool]; [|by rewrite subseteq_union_1_L by set_solver; lia]. rewrite size_union, size_singleton by set_solver. lia.
Qed.

Section Spec.
Context `{Host} {A : Allocator} `{DT : DictType bytes} `{DL : !DictLaws bytes} {Q : Qsort}.
Context (mode : Dict.dictResizeEnable) (addr : list (list (bytes * unit)) -> Z) (fill : Z) (server : set_config).
Context (Hconf : 0 <= set_max_intset_entries server < 2 ^ 29).

Abbreviation set_rep := (set_rep server).

(** * Databases *)

Definition val_rep (kv : kvobj) (sv : sval) : Prop :=
  match kv, sv with SetObj o, SSet s => set_rep o s /\ s <> ∅ | OtherObj i, SOther j => i = j | _, _ => False end.

Record db_is (db : redisDb) (m : gmap bytes sval) (d : Z) : Prop := {
  db_keys k : match keys db !! k, m !! k with Some kv, Some sv => val_rep kv sv | None, None => True | _, _ => False end;
  db_dirty : dirty db = d
}.

(** A key with a set. *)
Definition set_key (m : gmap bytes sval) (k : bytes) : Prop := exists s, m !! k = Some (SSet s).

Lemma lookup_ok db m d k : db_is db m d ->
  match m !! k with
  | None => lookupSet db k = inr None
  | Some (SSet s) => exists o, lookupSet db k = inr (Some o) /\ set_rep o s /\ s <> ∅
  | Some (SOther _) => lookupSet db k = inl WrongType
  end.
Proof.
  intros [Hk _]. specialize (Hk k). unfold lookupSet. destruct (keys db !! k) as [[o|i]|], (m !! k) as [[s|j]|]; try done. by exists o.
Qed.

Lemma getSet_ok db m d k : db_is db m d -> set_key m k -> exists o, getSet db k = Some o /\ set_rep o (get m k) /\ get m k <> ∅.
Proof. intros Hdb [s Hs]. pose proof (lookup_ok db m d k Hdb) as Hl. unfold getSet, get. rewrite Hs in *. destruct Hl as (o & -> & Ho). by exists o. Qed.

(** The same set in another representation. *)
Lemma put_same db m d k o : db_is db m d -> set_key m k -> set_rep o (get m k) -> db_is (putSet db k o) m d.
Proof.
  intros [Hk Hd] [s Hs] Ho. split; [|done]. intros k'. cbn [putSet keys]. specialize (Hk k'). destruct (decide (k = k')) as [<-|Hne]; [|by rewrite lookup_insert_ne].
  rewrite lookup_insert_eq, Hs in *. unfold get in Ho. rewrite Hs in Ho. destruct (keys db !! k) as [[o'|]|]; [|done|done]. by destruct Hk.
Qed.

Lemma put_new db m d k o s : db_is db m d -> set_rep o s -> s <> ∅ -> db_is (putSet db k o) (<[k := SSet s]> m) d.
Proof.
  intros [Hk Hd] Ho Hs. split; [|done]. intros k'. cbn [putSet keys]. destruct (decide (k = k')) as [<-|Hne]; [by rewrite !lookup_insert_eq|]. rewrite !lookup_insert_ne by done. apply Hk.
Qed.

Lemma drop_ok db m d k : db_is db m d -> db_is (dropKey db k) (delete k m) d.
Proof.
  intros [Hk Hd]. split; [|done]. intros k'. cbn [dropKey keys]. destruct (decide (k = k')) as [<-|Hne]; [by rewrite !lookup_delete_eq|]. rewrite !lookup_delete_ne by done. apply Hk.
Qed.

Lemma touch_ok db m d n : db_is db m d -> db_is (touch db n) m (d + n).
Proof. intros [Hk Hd]. split; [done|]. cbn [touch dirty]. lia. Qed.

Lemma delete_ok db m d k : db_is db m d -> db_is (dbDelete db k) (delete k m) (d + z_of_bool (bool_decide (is_Some (m !! k)))).
Proof.
  intros Hdb. pose proof (db_keys _ _ _ Hdb k) as Hk. unfold dbDelete. destruct (keys db !! k) as [kv|] eqn:E, (m !! k) as [sv|] eqn:E'; try done.
  - rewrite bool_decide_true by (by eexists). by apply touch_ok, drop_ok.
  - rewrite bool_decide_false by (by intros []). cbn [z_of_bool]. rewrite Z.add_0_r, delete_id; done.
Qed.

(** A set stored under a key, or nothing if it is empty. *)
Lemma put_or_drop db m d k o s : db_is db m d -> set_rep o s -> db_is (if decide (s = ∅) then dropKey db k else putSet db k o) (put m k s) d.
Proof. intros Hdb Ho. unfold put. case_decide; [by apply drop_ok|by apply put_new]. Qed.

Lemma elements_reply v : val_ok v -> addReplyElement v = Some (vstr v).
Proof.
  destruct v as [s|z]; [done|]. intros Hz. cbn [addReplyElement vstr]. unfold addReplyBulkLongLong. pose proof (sdec_length_le z Hz) as Hl.
  rewrite (ll2string_fits _ _ _ Hz) by (rewrite ?junk_length; lia). cbn [mbind option_bind]. rewrite Nat2Z.id. f_equal. apply take_app_length.
Qed.

(** * Single sets *)

Lemma add_members_ok ms : forall o s n, set_rep o s -> Forall elem_ok ms -> Z.of_nat (size s + length ms) <= DictSpec.max_entries ->
  exists o', add_members mode addr fill server o ms n = Some (o', n + (Z.of_nat (size (s ∪ list_to_set ms)) - Z.of_nat (size s))) /\ set_rep o' (s ∪ list_to_set ms).
Proof.
  induction ms as [|k ms IH]; intros o s n Hr Hok Hb; cbn [add_members list_to_set length] in *; [exists o; rewrite union_empty_r_L; split; [do 2 f_equal; lia|done]|].
  apply Forall_cons in Hok as [Hk Hok]. unfold setTypeAdd. destruct (setTypeAddAux_ok mode addr fill server Hconf o s (StrVal k) Hr Hk ltac:(lia)) as (o1 & -> & Hr1). cbn [mbind option_bind vstr] in *.
  pose proof (size_insert s k) as Hs1. destruct (IH o1 _ (if bool_decide (k ∉ s) then n + 1 else n) Hr1 Hok) as (o' & -> & Hr'); [destruct (bool_decide (k ∉ s)); cbn [z_of_bool] in Hs1; lia|].
  exists o'. rewrite (union_assoc_L s), (union_comm_L s). split; [|done]. do 2 f_equal. case_bool_decide; cbn [z_of_bool] in Hs1; lia.
Qed.

Lemma get_missing (m : gmap bytes sval) k : m !! k = None -> get m k = ∅.
Proof. intros Hm. unfold get. by rewrite Hm. Qed.

Lemma get_set (m : gmap bytes sval) k s : m !! k = Some (SSet s) -> get m k = s.
Proof. intros Hm. unfold get. by rewrite Hm. Qed.

(** What a command does: the database and the reply that the specification gives. *)
Definition refines (r : option (redisDb * reply)) (d : Z) (spec : gmap bytes sval * sreply * Z) : Prop :=
  exists db' r', r = Some (db', r') /\ db_is db' spec.1.1 (d + spec.2) /\ reply_ok r' spec.1.2.

(** An unchanged database. *)
Lemma refines_same db m d r r' : db_is db m d -> reply_ok r r' -> refines (Some (db, r)) d (m, r', 0).
Proof. intros Hdb Hr. exists db, r. cbn [fst snd]. rewrite Z.add_0_r. done. Qed.

Lemma sadd_ok db m d k ms : db_is db m d -> Forall elem_ok ms -> ms <> [] -> Z.of_nat (size (get m k) + length ms) <= DictSpec.max_entries ->
  refines (saddCommand mode addr fill server db k ms) d (spec_cmd m (SADD k ms)).
Proof.
  intros Hdb Hok Hne Hb. unfold saddCommand. cbn [spec_cmd]. unfold spec_sets, wrong. cbn [existsb]. pose proof (lookup_ok db m d k Hdb) as Hl.
  assert (Hgo : forall o, set_rep o (get m k) ->
    refines ('(set, added) ← add_members mode addr fill server o ms 0; set ← (if added =? 0 then Some set else '(set, _) ← setTypeSize set; Some set); Some (touch (putSet db k set) added, RInt added)) d
      (let s := get m k in let s' := s ∪ list_to_set ms in let n := Z.of_nat (size s') - Z.of_nat (size s) in (put m k s', SInt n, n))).
  { intros o Ho. cbn zeta. destruct (add_members_ok ms o (get m k) 0 Ho Hok Hb) as (o1 & -> & Ho1). cbn [mbind option_bind]. rewrite Z.add_0_l. set (n := _ - _).
    assert (Hsz : exists o2, (if n =? 0 then Some o1 else '(set, _) ← setTypeSize o1; Some set) = Some o2 /\ set_rep o2 (get m k ∪ list_to_set ms)).
    { destruct (n =? 0); [by exists o1|]. destruct (setTypeSize_ok server o1 _ Ho1) as (o2 & -> & Ho2). by exists o2. }
    destruct Hsz as (o2 & -> & Ho2). cbn [mbind option_bind]. assert (Hnn : get m k ∪ list_to_set ms ≠ ∅) by (destruct ms; [done|cbn [list_to_set]; set_solver]).
    eexists _, _. split; [done|]. cbn [fst snd]. split; [|done]. apply touch_ok. unfold put. rewrite decide_False by done. by apply put_new. }
  destruct (m !! k) as [[s|i]|] eqn:E.
  - destruct Hl as (o & -> & Ho & _). rewrite (get_set _ _ _ E) in *. destruct (setTypeMaybeConvert_ok mode addr server Hconf o s (Z.of_nat (length ms)) Ho) as (o' & -> & Ho'); [lia|lia|]. by apply Hgo.
  - rewrite Hl. by apply refines_same.
  - rewrite Hl. rewrite (get_missing _ _ E) in *. destruct ms as [|v ms]; [done|]. cbn [head mbind option_bind].
    destruct (setTypeCreate_ok mode server Hconf v (Z.of_nat (length (v :: ms)))) as (o & -> & Ho); [lia|]. by apply Hgo.
Qed.

Lemma rem_members_ok ms : forall o s n, set_rep o s -> s <> ∅ -> Forall elem_ok ms ->
  exists o', rem_members mode fill o ms n = Some (o', n + Z.of_nat (size (s ∩ list_to_set ms)), bool_decide (s ∖ list_to_set ms = ∅)) /\ set_rep o' (s ∖ list_to_set ms).
Proof.
  induction ms as [|k ms IH]; intros o s n Hr Hne Hok; cbn [rem_members list_to_set].
  { exists o. rewrite diff_empty, intersection_empty_r_L, size_empty, bool_decide_false by done. split; [do 2 f_equal; f_equal; lia|done]. }
  apply Forall_cons in Hok as [Hk Hok]. unfold setTypeRemove. destruct (setTypeRemoveAux_ok mode fill server Hconf o s (StrVal k) Hr Hk) as (o1 & -> & Hr1). cbn [mbind option_bind vstr] in *.
  assert (Hd : s ∖ ({[k]} ∪ list_to_set ms) = s ∖ {[k]} ∖ list_to_set ms) by set_solver. rewrite Hd. case_bool_decide as Hin.
  - destruct (setTypeSize_ok server o1 _ Hr1) as (o2 & -> & Hr2). cbn [mbind option_bind].
    assert (Hcount : Z.of_nat (size (s ∩ ({[k]} ∪ list_to_set ms))) = 1 + Z.of_nat (size ((s ∖ {[k]}) ∩ list_to_set ms))).
    { replace (s ∩ ({[k]} ∪ list_to_set ms)) with ({[k]} ∪ (s ∖ {[k]}) ∩ list_to_set ms) by (apply set_eq; intros x; destruct (decide (x = k)); set_solver). rewrite size_union, size_singleton by set_solver. lia. }
    rewrite Hcount. destruct (Z.eqb_spec (Z.of_nat (size (s ∖ {[k]}))) 0) as [Hz|Hz].
    + assert (Hemp : s ∖ {[k]} = ∅) by (apply leibniz_equiv, size_empty_inv; lia). exists o2. rewrite Hemp, intersection_empty_l_L, size_empty, bool_decide_true by set_solver.
      split; [do 2 f_equal; f_equal; lia|]. rewrite Hemp in Hr2. by replace (∅ ∖ list_to_set ms) with (∅ : gset bytes) by set_solver.
    + destruct (IH o2 _ (n + 1) Hr2) as (o' & -> & Hr'); [intros E; rewrite E, size_empty in Hz; lia|done|]. exists o'. split; [do 2 f_equal; f_equal; lia|done].
  - assert (Hs : s ∖ {[k]} = s) by set_solver. rewrite Hs in *. destruct (IH o1 s n Hr1 Hne Hok) as (o' & -> & Hr'). exists o'. split; [|done].
    by replace (s ∩ ({[k]} ∪ list_to_set ms)) with (s ∩ list_to_set ms) by set_solver.
Qed.

(** The three cases of a command on one key. *)
Lemma one_key db m d k (f : robj -> option (redisDb * reply)) (none : redisDb * reply) r : db_is db m d ->
  (m !! k = None -> refines (Some none) d r) -> (forall o, set_key m k -> get m k <> ∅ -> set_rep o (get m k) -> refines (f o) d r) ->
  refines (match lookupSet db k with inl e => Some (db, RErr e) | inr None => Some none | inr (Some set) => f set end) d (spec_sets m [k] r).
Proof.
  intros Hdb Hn Hs. pose proof (lookup_ok db m d k Hdb) as Hl. unfold spec_sets, wrong. cbn [existsb]. destruct (m !! k) as [[s|i]|] eqn:E.
  - destruct Hl as (o & -> & Ho & Hne). rewrite <- (get_set m k s E) in Ho, Hne. apply Hs; [by exists s|done|done].
  - rewrite Hl. by apply refines_same.
  - rewrite Hl. by apply Hn.
Qed.

Lemma put_id m k : m !! k = None -> put m k ∅ = m.
Proof. intros Hm. unfold put. rewrite decide_True by done. by apply delete_id. Qed.

Lemma srem_ok db m d k ms : db_is db m d -> Forall elem_ok ms -> refines (sremCommand mode fill db k ms) d (spec_cmd m (SREM k ms)).
Proof.
  intros Hdb Hok. cbn [spec_cmd]. apply (one_key db m d k _ _ _ Hdb).
  - intros Hm. rewrite (get_missing _ _ Hm). replace (∅ ∖ list_to_set ms) with (∅ : gset bytes) by set_solver. rewrite put_id, intersection_empty_l_L, size_empty by done. by apply refines_same.
  - intros o Hk Hne Ho. destruct (setTypeSize_ok server o _ Ho) as (o1 & -> & Ho1). cbn [mbind option_bind]. destruct (rem_members_ok ms o1 _ 0 Ho1 Hne Hok) as (o2 & -> & Ho2).
    cbn [mbind option_bind]. eexists _, _. split; [done|]. cbn [fst snd]. rewrite Z.add_0_l. split; [|done]. apply touch_ok.
    pose proof (put_or_drop db m d k o2 _ Hdb Ho2) as Hp. by destruct (decide (get m k ∖ list_to_set ms = ∅)) as [E|E]; [rewrite bool_decide_true by done|rewrite bool_decide_false by done].
Qed.

Lemma sismember_ok db m d k e : db_is db m d -> elem_ok e -> refines (sismemberCommand mode db k e) d (spec_cmd m (SISMEMBER k e)).
Proof.
  intros Hdb He. cbn [spec_cmd]. apply (one_key db m d k _ _ _ Hdb).
  - intros Hm. rewrite (get_missing _ _ Hm). by apply refines_same.
  - intros o Hk _ Ho. unfold setTypeIsMember. destruct (setTypeIsMemberAux_ok mode server o _ (StrVal e) Ho He) as (o1 & -> & Ho1). cbn [mbind option_bind vstr].
    apply refines_same; [by apply put_same|]. done.
Qed.

Lemma are_members_ok es : forall o s, set_rep o s -> Forall elem_ok es ->
  exists o', are_members mode o es = Some (o', map (fun e => z_of_bool (bool_decide (e ∈ s))) es) /\ set_rep o' s.
Proof.
  induction es as [|e es IH]; intros o s Ho Hok; cbn [are_members map]; [by exists o|]. apply Forall_cons in Hok as [He Hok]. unfold setTypeIsMember.
  destruct (setTypeIsMemberAux_ok mode server o s (StrVal e) Ho He) as (o1 & -> & Ho1). cbn [mbind option_bind]. destruct (IH o1 s Ho1 Hok) as (o2 & -> & Ho2). by exists o2.
Qed.

Lemma smismember_ok db m d k es : db_is db m d -> Forall elem_ok es -> refines (smismemberCommand mode db k es) d (spec_cmd m (SMISMEMBER k es)).
Proof.
  intros Hdb Hes. cbn [spec_cmd]. apply (one_key db m d k _ _ _ Hdb).
  - intros Hm. rewrite (get_missing _ _ Hm). by apply refines_same.
  - intros o Hk _ Ho. destruct (are_members_ok es o _ Ho Hes) as (o1 & -> & Ho1). cbn [mbind option_bind]. apply refines_same; [by apply put_same|done].
Qed.

Lemma scard_ok db m d k : db_is db m d -> refines (scardCommand db k) d (spec_cmd m (SCARD k)).
Proof.
  intros Hdb. cbn [spec_cmd]. apply (one_key db m d k _ _ _ Hdb).
  - intros Hm. rewrite (get_missing _ _ Hm). by apply refines_same.
  - intros o Hk _ Ho. destruct (setTypeSize_ok server o _ Ho) as (o1 & -> & Ho1). cbn [mbind option_bind]. apply refines_same; [by apply put_same|done].
Qed.

(** The elements of a set, each once. *)
Lemma reply_elements_ok o s : set_rep o s -> exists l, reply_elements addr o = Some (o, l) /\ NoDup l /\ list_to_set l = s.
Proof.
  intros Ho. destruct (object_values server o s Ho) as (vs & Hv & Hok & Hn & Hs). exists (map vstr vs). split; [|done]. unfold reply_elements. apply (foreach_ok addr o vs); [done|].
  clear Hv Hn Hs. set (body := fun _ _ => _). enough (Hg : forall acc, run_body body vs acc = Some (acc ++ map vstr vs)) by apply (Hg []). induction vs as [|v vs IH]; intros acc; cbn [map]; [cbn [run_body]; by rewrite app_nil_r|].
  apply Forall_cons in Hok as [Hv Hok]. rewrite (run_body_app body v vs acc (acc ++ [vstr v])) by (unfold body; by rewrite (elements_reply v Hv)). rewrite (IH Hok). by rewrite <- app_assoc.
Qed.

Lemma smembers_ok db m d k : db_is db m d -> refines (smembersCommand addr db k) d (spec_cmd m (SMEMBERS k)).
Proof.
  intros Hdb. cbn [spec_cmd]. apply (one_key db m d k _ _ _ Hdb).
  - intros Hm. rewrite (get_missing _ _ Hm). apply refines_same; [done|]. split_and!; [done|constructor|done].
  - intros o Hk _ Ho. destruct (setTypeSize_ok server o _ Ho) as (o1 & -> & Ho1). cbn [mbind option_bind]. destruct (reply_elements_ok o1 _ Ho1) as (l & -> & Hn & Hl). cbn [mbind option_bind].
    assert (Hlen : length l = size (get m k)) by (by rewrite <- Hl, set_size). rewrite Hlen, Z.eqb_refl. cbn [guard mbind option_bind]. apply refines_same; [by apply put_same|done].
Qed.

Lemma get_put_ne m k k' s : k <> k' -> get (put m k s) k' = get m k'.
Proof. intros Hne. unfold get, put. case_decide; [by rewrite lookup_delete_ne|by rewrite lookup_insert_ne]. Qed.

(** The destination of SMOVE, which gets the element. *)
Lemma move_dst db m d dst e dstset : db_is db m d -> elem_ok e -> set_rep dstset (get m dst) -> Z.of_nat (size (get m dst)) < DictSpec.max_entries ->
  exists db', ('(dstset, added) ← setTypeAdd mode addr fill server dstset e;
     if (added : bool) then '(dstset, _) ← setTypeSize dstset; Some (touch (putSet db dst dstset) 1, RInt 1) else Some (putSet db dst dstset, RInt 1)) = Some (db', RInt 1) /\
    db_is db' (put m dst (get m dst ∪ {[e]})) (d + z_of_bool (bool_decide (e ∉ get m dst))).
Proof.
  intros Hdb He Hd Hb. unfold setTypeAdd. destruct (setTypeAddAux_ok mode addr fill server Hconf dstset _ (StrVal e) Hd He Hb) as (o1 & -> & Ho1). cbn [mbind option_bind vstr] in *.
  assert (Hne : get m dst ∪ {[e]} ≠ ∅) by set_solver. unfold put. rewrite decide_False by done. rewrite (union_comm_L _ {[e]}) in Hne |- *. case_bool_decide as Hin; cbn [z_of_bool].
  - destruct (setTypeSize_ok server o1 _ Ho1) as (o2 & -> & Ho2). cbn [mbind option_bind]. eexists. split; [done|]. by apply touch_ok, put_new.
  - eexists. split; [done|]. rewrite Z.add_0_r. by apply put_new.
Qed.

Lemma move_element_ok db m d src dst e s srcset dstset : db_is db m d -> elem_ok e -> Z.of_nat (size (get m dst)) < DictSpec.max_entries -> src <> dst -> m !! src = Some (SSet s) ->
  set_rep srcset s -> match dstset with Some o => set_rep o (get m dst) | None => get m dst = ∅ end ->
  refines (move_element mode addr fill server db src dst e srcset dstset) d (if decide (e ∈ s) then
    (put (put m src (s ∖ {[e]})) dst (get m dst ∪ {[e]}), SInt 1, 1 + z_of_bool (bool_decide (e ∉ get m dst))) else (m, SInt 0, 0)).
Proof.
  intros Hdb He Hb Hsd Es Ho Hds. unfold move_element, setTypeRemove. destruct (setTypeRemoveAux_ok mode fill server Hconf srcset s (StrVal e) Ho He) as (o2 & -> & Ho2). cbn [mbind option_bind vstr] in *.
  case_decide as Hin; [rewrite bool_decide_true by done|rewrite bool_decide_false by done].
  2: { apply refines_same; [|done]. apply put_same; [done|by exists s|]. rewrite (get_set _ _ _ Es). by replace (s ∖ {[e]}) with s in Ho2 by set_solver. }
  destruct (setTypeSize_ok server o2 _ Ho2) as (o3 & -> & Ho3). cbn [mbind option_bind]. set (db1 := if _ =? 0 then _ else _).
  assert (Hdb1 : db_is db1 (put m src (s ∖ {[e]})) d).
  { pose proof (put_or_drop db m d src o3 _ Hdb Ho3) as Hp. unfold db1. destruct (decide (s ∖ {[e]} = ∅)) as [E|E].
    - rewrite (proj2 (Z.eqb_eq _ _)) by (rewrite E, size_empty; done). done.
    - rewrite (proj2 (Z.eqb_neq _ _)); [done|]. intros Hz. apply E. apply leibniz_equiv, size_empty_inv. lia. }
  assert (Hds2 : exists o4, match dstset with None => setTypeCreate mode server e 1 | Some dstset => Some dstset end = Some o4 /\ set_rep o4 (get m dst)).
  { destruct dstset as [o4|]; [by exists o4|]. rewrite Hds. by apply (setTypeCreate_ok mode server Hconf e 1). }
  destruct Hds2 as (o4 & -> & Ho4). cbn [mbind option_bind]. pose proof (get_put_ne m src dst (s ∖ {[e]}) Hsd) as Hg. rewrite <- Hg in Ho4, Hb.
  destruct (move_dst (touch db1 1) _ (d + 1) dst e o4 (touch_ok _ _ _ 1 Hdb1) He Ho4 Hb) as (db' & -> & Hdb'). exists db', (RInt 1). split; [done|]. cbn [fst snd]. split; [|done].
  rewrite Hg in Hdb'. by rewrite Z.add_assoc.
Qed.

Lemma smove_ok db m d src dst e : db_is db m d -> elem_ok e -> Z.of_nat (size (get m dst)) < DictSpec.max_entries ->
  refines (smoveCommand mode addr fill server db src dst e) d (spec_cmd m (SMOVE src dst e)).
Proof.
  intros Hdb He Hb. unfold smoveCommand. cbn [spec_cmd]. unfold spec_sets, wrong. cbn [existsb]. pose proof (lookup_ok db m d src Hdb) as Hs. pose proof (lookup_ok db m d dst Hdb) as Hd.
  destruct (m !! src) as [[s|i]|] eqn:Es; [|rewrite Hs, decide_False by done; by apply refines_same|rewrite Hs, decide_True by done; by apply refines_same].
  destruct Hs as (o & -> & Ho & Hne). rewrite decide_False by done. cbn [orb]. rewrite (get_set _ _ _ Es).
  assert (Hgo : forall dstset, match dstset with Some o => set_rep o (get m dst) | None => get m dst = ∅ end ->
    refines (if bool_decide (src = dst) then '(srcset, b) ← setTypeIsMember mode o e; Some (putSet db src srcset, RInt (if (b : bool) then 1 else 0)) else move_element mode addr fill server db src dst e o dstset) d
      (if decide (e ∈ s) then if decide (src = dst) then (m, SInt 1, 0) else (put (put m src (s ∖ {[e]})) dst (get m dst ∪ {[e]}), SInt 1, 1 + z_of_bool (bool_decide (e ∉ get m dst))) else (m, SInt 0, 0))).
  { intros dstset Hds. destruct (decide (src = dst)) as [<-|Hsd]; [rewrite bool_decide_true by done|rewrite bool_decide_false by done; by apply move_element_ok].
    unfold setTypeIsMember. destruct (setTypeIsMemberAux_ok mode server o s (StrVal e) Ho He) as (o1 & -> & Ho1). cbn [mbind option_bind vstr].
    case_decide as Hin; [rewrite bool_decide_true by done|rewrite bool_decide_false by done]; (apply refines_same; [|done]); (apply put_same; [done|by exists s|by rewrite (get_set _ _ _ Es)]). }
  destruct (m !! dst) as [[t|i]|] eqn:Ed; [destruct Hd as (od & -> & Hod & _); apply (Hgo (Some od)); by rewrite (get_set _ _ _ Ed)|rewrite Hd; by apply refines_same|rewrite Hd; apply (Hgo None); by apply get_missing].
Qed.

End Spec.
End SetCmdSpec.
