(* ===== verification/SetAlgSpec.v ===== *)
(** SINTER, SINTERCARD, SUNION, SDIFF and their STORE variants compute intersections, unions and
    differences (t_set.c), in whichever order [qsort] leaves the sets and with both algorithms of
    SDIFF; then the theorem on sequences of set commands. *)

From S2P Require Import Prelude Endian Util ListpackEnc Listpack ListpackOps ListpackFind Intset Dict DictSpec DictScan Sds SdsSpec BitfieldCmd SetType SetTypeSpec SetCmd SetCmdSpec.

Module SetAlgSpec.
Import Util Lp Listpack LpOps LpFind SetType SetTypeSpec SetCmd SetCmdSpec.

(** * Finite sets *)

Lemma elem_of_inter m ks x : ks <> [] -> x ∈ inter_of m ks <-> Forall (fun k => x ∈ get m k) ks.
Proof.
  destruct ks as [|k ks]; [done|]. intros _. cbn [inter_of]. induction ks as [|k' ks IH]; cbn [foldr]; [by rewrite Forall_singleton|].
  rewrite elem_of_intersection, IH, !Forall_cons. tauto.
Qed.

Lemma elem_of_unions m ks x : x ∈ union_of m ks <-> exists k, k ∈ ks /\ x ∈ get m k.
Proof.
  unfold union_of. rewrite elem_of_union_list. setoid_rewrite list_elem_of_fmap. split.
  - intros (s & (k & -> & Hk) & Hx). by exists k.
  - intros (k & Hk & Hx). exists (get m k). split; [by exists k|done].
Qed.

Lemma NoDup_map_filter {X Y} (f : X -> Y) (P : X -> Prop) `{!forall x, Decision (P x)} (l : list X) : NoDup (map f l) -> NoDup (map f (filter P l)).
Proof.
  induction l as [|x l IH]; [done|]. cbn [map]. intros [Hx Hl]%NoDup_cons. rewrite filter_cons. case_decide; [|by apply IH]. cbn [map]. apply NoDup_cons. split; [|by apply IH].
  intros (y & E & [_ Hy]%list_elem_of_filter)%list_elem_of_fmap. apply Hx. rewrite E. by apply list_elem_of_fmap_2.
Qed.

Section Spec.
Context `{Host} {A : Allocator} `{DT : DictType bytes} `{DL : !DictLaws bytes} {Q : Qsort}.
Context (mode : Dict.dictResizeEnable) (addr : list (list (bytes * unit)) -> Z) (fill : Z) (server : set_config).
Context (Hconf : 0 <= set_max_intset_entries server < 2 ^ 29).

Abbreviation set_rep := (set_rep server).
Abbreviation db_is := (db_is server).
Abbreviation refines := (refines server).

(** * The sets of a command *)

(** The pointer to the set at a key. *)
Definition ptr (m : gmap bytes sval) (k : bytes) : option bytes := match m !! k with Some (SSet _) => Some k | _ => None end.

Definition ptr_ok (m : gmap bytes sval) (p : option bytes) : Prop := match p with Some k => set_key m k | None => True end.

(** The set behind a pointer. *)
Definition pget (m : gmap bytes sval) (p : option bytes) : gset bytes := match p with Some k => get m k | None => ∅ end.

Lemma lookup_sets_ok db m d ks : db_is db m d -> lookup_sets db ks = if existsb (wrong m) ks then inl WrongType else inr (map (ptr m) ks).
Proof.
  intros Hdb. induction ks as [|k ks IH]; cbn [lookup_sets existsb map]; [done|]. pose proof (lookup_ok server db m d k Hdb) as Hl. rewrite IH.
  assert (Ew : wrong m k = match m !! k with Some (SOther _) => true | _ => false end) by done. assert (Ep : ptr m k = match m !! k with Some (SSet _) => Some k | _ => None end) by done. rewrite Ew, Ep.
  destruct (m !! k) as [[s|i]|]; [destruct Hl as (o & -> & _)|by rewrite Hl|rewrite Hl]; cbn [orb option_map]; by destruct (existsb _ ks).
Qed.

Lemma ptr_ok_ptr m k : ptr_ok m (ptr m k).
Proof. unfold ptr, ptr_ok. destruct (m !! k) as [[s|i]|] eqn:E; [|done|done]. by exists s. Qed.

Lemma pget_ptr m k : pget m (ptr m k) = get m k.
Proof. unfold ptr, get. destruct (m !! k) as [[s|i]|] eqn:E; [|done|done]. cbn [pget]. unfold get. by rewrite E. Qed.

Lemma sizes_ok ps : forall db m d, db_is db m d -> Forall (ptr_ok m) ps -> exists db', set_sizes db ps = Some (db', map (fun p => (Z.of_nat (size (pget m p)), p)) ps) /\ db_is db' m d.
Proof.
  induction ps as [|[k|] ps IH]; intros db m d Hdb Hok; cbn [set_sizes map]; [by exists db| |]; apply Forall_cons in Hok as [Hk Hok].
  - destruct (getSet_ok server db m d k Hdb Hk) as (o & -> & Ho & _). cbn [mbind option_bind]. destruct (setTypeSize_ok server o _ Ho) as (o1 & -> & Ho1). cbn [mbind option_bind].
    destruct (IH (putSet db k o1) m d) as (db' & -> & Hdb'); [by apply put_same|done|]. by exists db'.
  - destruct (IH db m d Hdb Hok) as (db' & -> & Hdb'). exists db'. cbn [mbind option_bind pget]. by rewrite size_empty.
Qed.

Lemma sort_sets_ok cmp db m d ps : db_is db m d -> Forall (ptr_ok m) ps -> exists db' ps', sort_sets cmp db ps = Some (db', ps') /\ db_is db' m d /\ ps' ≡ₚ ps.
Proof.
  intros Hdb Hok. destruct ps as [|p1 [|p2 ps]]; [by exists db, []|by exists db, [p1]|]. cbn [sort_sets]. destruct (sizes_ok _ db m d Hdb Hok) as (db' & -> & Hdb').
  cbn [mbind option_bind]. eexists _, _. split; [done|]. split; [done|]. rewrite qsort_perm, map_map. cbn [snd]. by rewrite map_id.
Qed.

(** * Intersections *)

Lemma in_others_ok others : forall db m d first v, db_is db m d -> Forall (set_key m) others -> val_ok v -> vstr v ∈ get m first ->
  exists db', in_others mode db first others v = Some (db', bool_decide (Forall (fun k => vstr v ∈ get m k) others)) /\ db_is db' m d.
Proof.
  induction others as [|k others IH]; intros db m d first v Hdb Hok Hv Hin; cbn [in_others]; [exists db; by rewrite bool_decide_true by constructor|].
  apply Forall_cons in Hok as [Hk Hok]. case_bool_decide as Hkf.
  - subst k. destruct (IH db m d first v Hdb Hok Hv Hin) as (db' & -> & Hdb'). exists db'. split; [|done]. do 2 f_equal. apply bool_decide_ext. rewrite Forall_cons. tauto.
  - destruct (getSet_ok server db m d k Hdb Hk) as (o & -> & Ho & _). cbn [mbind option_bind]. destruct (setTypeIsMemberAux_ok mode server o _ v Ho Hv) as (o1 & -> & Ho1). cbn [mbind option_bind].
    pose proof (put_same server db m d k o1 Hdb Hk Ho1) as Hp. case_bool_decide as Hm.
    + destruct (IH _ m d first v Hp Hok Hv Hin) as (db' & -> & Hdb'). exists db'. split; [|done]. do 2 f_equal. apply bool_decide_ext. rewrite Forall_cons. tauto.
    + eexists. split; [|exact Hp]. do 2 f_equal. symmetry. apply bool_decide_false. rewrite Forall_cons. tauto.
Qed.

Section Inter.
Context (m : gmap bytes sval) (d : Z) (first : bytes) (others : list bytes) (ht : bool).
Context (Hothers : Forall (set_key m) others).

(** The elements of the first set that all the others have. *)
Definition common (vs : list set_value) : list set_value := filter (fun v => Forall (fun k => vstr v ∈ get m k) others) vs.

Definition elements_of (vs : list set_value) : Prop := Forall val_ok vs /\ Forall (fun v => vstr v ∈ get m first) vs.

Lemma elements_cons v vs : elements_of (v :: vs) -> val_ok v /\ vstr v ∈ get m first /\ elements_of vs.
Proof. intros [[Hv Hok]%Forall_cons [Hi Hin]%Forall_cons]. done. Qed.

(** One element, up to what is done with an element of the intersection. *)
Lemma inter_step_ok st v card limit : db_is (i_db st) m d -> val_ok v -> vstr v ∈ get m first ->
  exists db, db_is db m d /\ inter_step mode addr fill server first others ht card limit st v =
    if decide (Forall (fun k => vstr v ∈ get m k) others) then
      if card then Some (mkInter db (i_cardinality st + 1) (i_reply st) (i_dstset st) (i_only_integers st), negb (negb (limit =? 0) && (i_cardinality st + 1 >=? limit)))
      else match i_dstset st with
        | None => Some (mkInter db (i_cardinality st + 1) (i_reply st ++ [vstr v]) None (i_only_integers st), true)
        | Some dstset =>
          let '(v, only_integers) := as_integer ht dstset v (i_only_integers st) in
          '(dstset, _) ← setTypeAddAux mode addr fill server dstset v;
          Some (mkInter db (i_cardinality st) (i_reply st) (Some dstset) only_integers, true)
        end
    else Some (mkInter db (i_cardinality st) (i_reply st) (i_dstset st) (i_only_integers st), true).
Proof.
  intros Hdb Hv Hin. unfold inter_step. destruct (in_others_ok others (i_db st) m d first v Hdb Hothers Hv Hin) as (db & -> & Hdb'). exists db. split; [done|]. cbn [mbind option_bind].
  case_decide as Hc; [rewrite bool_decide_true by done|by rewrite bool_decide_false by done]. destruct card; [done|]. destruct (i_dstset st); [done|]. by rewrite (elements_reply v Hv).
Qed.

Lemma common_cons_in v vs : Forall (fun k => vstr v ∈ get m k) others -> common (v :: vs) = v :: common vs.
Proof. intros Hv. unfold common. by rewrite filter_cons_True. Qed.

Lemma common_cons_out v vs : ~ Forall (fun k => vstr v ∈ get m k) others -> common (v :: vs) = common vs.
Proof. intros Hv. unfold common. by rewrite filter_cons_False. Qed.

Lemma run_card limit vs : forall st, 0 <= limit -> db_is (i_db st) m d -> elements_of vs -> limit = 0 \/ i_cardinality st < limit ->
  exists st', run_body (inter_step mode addr fill server first others ht true limit) vs st = Some st' /\ db_is (i_db st') m d /\
    i_cardinality st' = at_most limit (i_cardinality st + Z.of_nat (length (common vs))).
Proof.
  unfold at_most. induction vs as [|v vs IH]; intros st Hlim Hdb Hel Hl.
  { exists st. cbn [common filter length run_body]. split_and!; [done|done|]. cbn. destruct (Z.eqb_spec limit 0); lia. }
  apply elements_cons in Hel as (Hv & Hin & Hel). destruct (inter_step_ok st v true limit Hdb Hv Hin) as (db & Hdb' & Hstep). cbn [run_body]. rewrite Hstep. case_decide as Hc; cbn [mbind option_bind].
  - rewrite (common_cons_in v vs Hc). cbn [length]. destruct (negb (limit =? 0) && _) eqn:E; cbn [negb].
    + eexists. split_and!; [done|done|]. cbn [i_cardinality]. destruct (Z.eqb_spec limit 0); [done|]. cbn [negb andb] in E. lia.
    + destruct (IH (mkInter db (i_cardinality st + 1) (i_reply st) (i_dstset st) (i_only_integers st))) as (st' & Hrun & Hst' & Hcard); [done|exact Hdb'|done| |].
      * cbn [i_cardinality]. destruct (Z.eqb_spec limit 0); [by left|right]. cbn [negb andb] in E. lia.
      * exists st'. split; [exact Hrun|]. split; [exact Hst'|]. rewrite Hcard. cbn [i_cardinality]. destruct (limit =? 0); lia.
  - rewrite (common_cons_out v vs Hc). destruct (IH (mkInter db (i_cardinality st) (i_reply st) (i_dstset st) (i_only_integers st))) as (st' & Hrun & Hst' & Hcard); [done|exact Hdb'|done|exact Hl|]. by exists st'.
Qed.

Lemma run_reply vs : forall st, db_is (i_db st) m d -> elements_of vs -> i_dstset st = None ->
  exists st', run_body (inter_step mode addr fill server first others ht false 0) vs st = Some st' /\ db_is (i_db st') m d /\ i_dstset st' = None /\
    i_reply st' = i_reply st ++ map vstr (common vs) /\ i_cardinality st' = i_cardinality st + Z.of_nat (length (common vs)).
Proof.
  induction vs as [|v vs IH]; intros st Hdb Hel Hd; [exists st; cbn; rewrite app_nil_r; split_and!; (done || lia)|].
  apply elements_cons in Hel as (Hv & Hin & Hel). destruct (inter_step_ok st v false 0 Hdb Hv Hin) as (db & Hdb' & Hstep). cbn [run_body]. rewrite Hstep, Hd. case_decide as Hc; cbn [mbind option_bind].
  - rewrite (common_cons_in v vs Hc). destruct (IH (mkInter db (i_cardinality st + 1) (i_reply st ++ [vstr v]) None (i_only_integers st))) as (st' & Hrun & Hst' & Hd' & Hrep & Hcard); [exact Hdb'|done|done|]. exists st'. split_and!; [done|done|done| |].
    + rewrite Hrep. cbn [i_reply map]. by rewrite <- app_assoc.
    + rewrite Hcard. cbn [i_cardinality length]. lia.
  - rewrite (common_cons_out v vs Hc). destruct (IH (mkInter db (i_cardinality st) (i_reply st) None (i_only_integers st))) as (st' & Hrun & Hst' & Hd' & Hrep & Hcard); [exact Hdb'|done|done|]. by exists st'.
Qed.

Definition is_int (x : bytes) : Prop := exists z, srange 64 z /\ x = sdec z.

Lemma as_integer_ok dst v only : val_ok v ->
  val_ok (as_integer ht dst v only).1 /\ vstr (as_integer ht dst v only).1 = vstr v /\ ((as_integer ht dst v only).2 = true -> only = true /\ is_int (vstr v)).
Proof.
  intros Hv. destruct v as [s|z]; cbn [as_integer]; [|cbn [fst snd]; split_and!; [done|done|]; intros Ho; split; [done|by exists z]].
  destruct only; [|done]. destruct (if ht then string2ll s else None) as [z|] eqn:E; [|done]. destruct ht; [|done]. apply string2ll_iff in E as [-> Hz].
  assert (Hi : is_int (sdec z)) by (by exists z). by destruct (is_ht dst).
Qed.

Lemma run_store vs : forall st dst s, db_is (i_db st) m d -> elements_of vs -> i_dstset st = Some dst -> set_rep dst s -> (i_only_integers st = true -> set_Forall is_int s) ->
  Z.of_nat (size s + length vs) <= DictSpec.max_entries ->
  exists st' dst', run_body (inter_step mode addr fill server first others ht false 0) vs st = Some st' /\ db_is (i_db st') m d /\ i_dstset st' = Some dst' /\
    set_rep dst' (s ∪ list_to_set (map vstr (common vs))) /\ (i_only_integers st' = true -> set_Forall is_int (s ∪ list_to_set (map vstr (common vs)))).
Proof.
  induction vs as [|v vs IH]; intros st dst s Hdb Hel Hd Hs Hint Hb; [exists st, dst; cbn; rewrite union_empty_r_L; done|].
  apply elements_cons in Hel as (Hv & Hin & Hel). destruct (inter_step_ok st v false 0 Hdb Hv Hin) as (db & Hdb' & Hstep). cbn [run_body length] in *. rewrite Hstep, Hd. case_decide as Hc; cbn [mbind option_bind].
  - rewrite (common_cons_in v vs Hc). cbn [map list_to_set]. destruct (as_integer_ok dst v (i_only_integers st) Hv) as (Hv' & Hstr & Honly). destruct (as_integer ht dst v _) as [v' only']. cbn [fst snd] in *.
    destruct (setTypeAddAux_ok mode addr fill server Hconf dst s v' Hs Hv' ltac:(lia)) as (dst1 & -> & Hs1). cbn [mbind option_bind]. rewrite Hstr in Hs1. pose proof (size_insert s (vstr v)) as Hsz.
    destruct (IH (mkInter db (i_cardinality st) (i_reply st) (Some dst1) only') dst1 ({[vstr v]} ∪ s)) as (st' & dst' & Hrun & Hst' & Hd' & Hs' & Hint'); [exact Hdb'|done|done|done| | |].
    + cbn [i_only_integers]. intros Ho. destruct (Honly Ho) as [Hold Hiv]. intros x [->%elem_of_singleton|Hx]%elem_of_union; [done|by apply Hint].
    + destruct (bool_decide _); cbn [z_of_bool] in Hsz; lia.
    + exists st', dst'. rewrite (union_assoc_L s), (union_comm_L s). done.
  - rewrite (common_cons_out v vs Hc). destruct (IH (mkInter db (i_cardinality st) (i_reply st) (Some dst) (i_only_integers st)) dst s) as (st' & dst' & Hrun); [exact Hdb'|done|done|done|done|lia|]. by exists st', dst'.
Qed.

(** The intersection, from the elements of the first set. *)
Lemma common_set vs : get m first = list_to_set (map vstr vs) -> NoDup (map vstr vs) ->
  NoDup (map vstr (common vs)) /\ list_to_set (map vstr (common vs)) = inter_of m (first :: others).
Proof.
  intros Hs Hn. split; [by apply NoDup_map_filter|].
  apply set_eq. intros x. rewrite elem_of_list_to_set, list_elem_of_fmap, elem_of_inter, Forall_cons by done. unfold common. split.
  - intros (v & -> & [Hc Hv]%list_elem_of_filter). split; [|done]. rewrite Hs. by apply elem_of_list_to_set, list_elem_of_fmap_2.
  - intros [Hf Hc]. rewrite Hs in Hf. apply elem_of_list_to_set, list_elem_of_fmap in Hf as (v & -> & Hv). exists v. split; [done|]. by apply list_elem_of_filter.
Qed.

End Inter.

(** ** The commands *)

Lemma no_null m ks : existsb is_null (map (ptr m) ks) = false -> Forall (set_key m) ks /\ map (ptr m) ks = map Some ks.
Proof.
  induction ks as [|k ks IH]; [done|]. cbn [map existsb]. intros [Hk Hks]%orb_false_iff. destruct (IH Hks) as [H1 H2]. pose proof (ptr_ok_ptr m k) as Hp.
  destruct (ptr m k) as [k'|] eqn:E; [|done]. assert (k' = k) as -> by (unfold ptr in E; destruct (m !! k) as [[]|]; congruence). rewrite H2. by split; [constructor|].
Qed.

Lemma some_null m ks : existsb is_null (map (ptr m) ks) = true -> ks <> [] /\ inter_of m ks = ∅.
Proof.
  intros Hn. assert (Hne : ks <> []) by (by intros ->). split; [done|]. apply set_eq. intros x. rewrite elem_of_inter by done. split; [|by intros ?%elem_of_empty].
  intros Hf. apply existsb_exists in Hn as (p & Hp%list_elem_of_In & Hnull). apply list_elem_of_fmap in Hp as (k & -> & Hk). rewrite Forall_forall in Hf. specialize (Hf k Hk).
  unfold ptr in Hnull. unfold get in Hf. by destruct (m !! k) as [[]|].
Qed.

Lemma omap_Some_id (l : list bytes) : omap id (map Some l) = l.
Proof. induction l as [|x l IH]; [done|]. cbn. by rewrite IH. Qed.

Lemma inter_perm m ks ks' : ks' ≡ₚ ks -> inter_of m ks' = inter_of m ks.
Proof.
  intros Hp. destruct ks as [|k ks]; [apply Permutation_nil_r in Hp; by rewrite Hp|]. assert (ks' <> []) by (intros ->; by apply Permutation_nil_l in Hp).
  apply set_eq. intros x. rewrite !elem_of_inter by done. by rewrite Hp.
Qed.

(** The sets after sorting: the first one, the others, and the elements of the first one. *)
Record inter_input (db : redisDb) (m : gmap bytes sval) (d : Z) (ks : list bytes) (first : bytes) (others : list bytes) (set0 : robj) (vs : list set_value) : Prop := {
  in_db : db_is db m d;
  in_first : set_key m first;
  in_keys : Forall (set_key m) others;
  in_inter : inter_of m (first :: others) = inter_of m ks;
  in_get : getSet db first = Some set0;
  in_rep : set_rep set0 (get m first);
  in_values : values_of set0 vs;
  in_elements : elements_of m first vs;
  in_nodup : NoDup (map vstr vs);
  in_set : get m first = list_to_set (map vstr vs);
  in_member : first ∈ ks
}.

Lemma inter_start db m d ks : db_is db m d -> Forall (set_key m) ks -> ks <> [] ->
  exists db' sets first others set0 vs, sort_sets qsortCompareSetsByCardinality db (map Some ks) = Some (db', sets) /\ omap id sets = first :: others /\ inter_input db' m d ks first others set0 vs.
Proof.
  intros Hdb Hks Hne. destruct (sort_sets_ok qsortCompareSetsByCardinality db m d (map Some ks) Hdb) as (db' & sets & Hsort & Hdb' & Hp); [by apply Forall_fmap|].
  assert (Hp' : omap id sets ≡ₚ ks) by (rewrite <- (omap_Some_id ks); by apply omap_Permutation). destruct (omap id sets) as [|first others] eqn:E; [by apply Permutation_nil_l in Hp'|].
  assert (Hall : Forall (set_key m) (first :: others)) by (by rewrite Hp'). apply Forall_cons in Hall as [Hf Ho]. destruct (getSet_ok server db' m d first Hdb' Hf) as (set0 & Hget & Hset & _).
  destruct (object_values server set0 _ Hset) as (vs & Hv & Hok & Hn & Hs). exists db', sets, first, others, set0, vs. split; [done|]. split; [done|]. split; try done.
  - by apply inter_perm.
  - split; [done|]. apply Forall_forall. intros v Hin. rewrite Hs. by apply elem_of_list_to_set, list_elem_of_fmap_2.
  - rewrite <- Hp'. by left.
Qed.

Lemma inter_cases (db : redisDb) (m : gmap bytes sval) (d : Z) (ks : list bytes) (dstkey : option bytes) (card : bool) (limit : Z) (r : gmap bytes sval * sreply * Z) : db_is db m d -> ks <> [] ->
  (inter_of m ks = ∅ -> refines (match dstkey with Some k => Some (dbDelete db k, RInt 0) | None => Some (db, if card then RInt 0 else RSet 0 []) end) d r) ->
  (forall db' first others set0 vs, inter_input db' m d ks first others set0 vs -> refines (inter_main mode addr fill server db' first others dstkey card limit) d r) ->
  refines (sinterGenericCommand mode addr fill server db ks dstkey card limit) d (spec_sets m ks r).
Proof.
  intros Hdb Hne Hempty Hmain. unfold sinterGenericCommand, spec_sets. rewrite (lookup_sets_ok db m d ks Hdb). destruct (existsb (wrong m) ks); [by apply refines_same|].
  destruct (existsb is_null (map (ptr m) ks)) eqn:E; [by apply Hempty, some_null|].
  destruct (no_null m ks E) as [Hks ->]. destruct (inter_start db m d ks Hdb Hks Hne) as (db' & sets & first & others & set0 & vs & -> & Hsets & Hin).
  cbn [mbind option_bind]. rewrite Hsets. by apply (Hmain db' first others set0 vs).
Qed.

Lemma set_length (l : list bytes) (s : gset bytes) : NoDup l -> list_to_set l = s -> length l = size s.
Proof. intros Hn <-. by rewrite set_size. Qed.

(** The elements that the loop finds are those of the intersection. *)
Lemma common_ok db m d ks first others set0 vs : inter_input db m d ks first others set0 vs ->
  NoDup (map vstr (common m others vs)) /\ list_to_set (map vstr (common m others vs)) = inter_of m ks /\ Z.of_nat (length (common m others vs)) = Z.of_nat (size (inter_of m ks)).
Proof.
  intros Hin. destruct (common_set m first others vs (in_set _ _ _ _ _ _ _ _ Hin) (in_nodup _ _ _ _ _ _ _ _ Hin)) as [Hnc Hc]. rewrite (in_inter _ _ _ _ _ _ _ _ Hin) in Hc.
  split_and!; [done|done|]. by rewrite <- (set_length _ _ Hnc Hc), length_map.
Qed.

Lemma sinter_ok db m d ks : db_is db m d -> ks <> [] -> refines (sinterCommand mode addr fill server db ks) d (spec_cmd m (SINTER ks)).
Proof.
  intros Hdb Hne. apply (inter_cases db m d ks None false 0 _ Hdb Hne).
  - intros ->. apply refines_same; [done|]. split_and!; [by rewrite size_empty|constructor|done].
  - intros db' first others set0 vs Hin. pose proof (common_ok _ _ _ _ _ _ _ _ Hin) as (Hnc & Hc & Hlen). destruct Hin as [Hdb' Hf Ho Hi Hget Hset Hv Hel Hn Hs _].
    unfold inter_main. rewrite Hget. cbn [mbind option_bind].
    destruct (run_reply m d first others (is_ht set0) Ho vs (mkInter db' 0 [] None true) Hdb' Hel eq_refl) as (st & Hrun & Hst & Hd & Hrep & Hcard).
    rewrite (foreach_ok addr set0 vs _ _ st Hv Hrun). cbn [mbind option_bind]. apply refines_same; [by apply put_same|]. cbn [i_reply i_cardinality app] in Hrep, Hcard.
    rewrite Hrep, Hcard. cbn [reply_ok]. split_and!; [lia|done|done].
Qed.

Lemma sintercard_ok db m d ks limit : db_is db m d -> ks <> [] -> 0 <= limit ->
  refines (sinterGenericCommand mode addr fill server db ks None true limit) d (spec_sets m ks (m, SInt (at_most limit (Z.of_nat (size (inter_of m ks)))), 0)).
Proof.
  intros Hdb Hne Hl. apply (inter_cases db m d ks None true limit _ Hdb Hne).
  - intros ->. apply refines_same; [done|]. rewrite size_empty. cbn [reply_ok]. unfold at_most. destruct (Z.eqb_spec limit 0); lia.
  - intros db' first others set0 vs Hin. pose proof (common_ok _ _ _ _ _ _ _ _ Hin) as (Hnc & Hc & Hlen). destruct Hin as [Hdb' Hf Ho Hi Hget Hset Hv Hel Hn Hs _].
    unfold inter_main. rewrite Hget. cbn [mbind option_bind].
    destruct (run_card m d first others (is_ht set0) Ho limit vs (mkInter db' 0 [] None true) Hl Hdb' Hel ltac:(cbn [i_cardinality]; lia)) as (st & Hrun & Hst & Hcard).
    rewrite (foreach_ok addr set0 vs _ _ st Hv Hrun). cbn [mbind option_bind]. apply refines_same; [by apply put_same|]. cbn [reply_ok]. by rewrite Hcard, Hlen.
Qed.

(** ** Storing a result *)

Lemma store_result_ok db m d dst o s : db_is db m d -> set_rep o s -> s <> ∅ -> refines (store_result db dst o) d (spec_store m dst s).
Proof.
  intros Hdb Ho Hs. unfold store_result, spec_store, put. rewrite !decide_False by done. destruct (setTypeSize_ok server o s Ho) as (o1 & -> & Ho1). cbn [mbind option_bind].
  eexists _, _. split; [done|]. cbn [fst snd]. split; [|done]. by apply touch_ok, put_new.
Qed.

Lemma store_empty_ok db m d dst : db_is db m d -> refines (Some (dbDelete db dst, RInt 0)) d (spec_store m dst ∅).
Proof. intros Hdb. eexists _, _. split; [done|]. unfold spec_store, put. rewrite !decide_True by done. cbn [fst snd]. split; [by apply delete_ok|by rewrite size_empty]. Qed.

Lemma size_pos (s : gset bytes) : (Z.of_nat (size s) >? 0) = negb (bool_decide (s = ∅)).
Proof.
  case_bool_decide as Hs; cbn [negb]; [by rewrite Hs, size_empty|]. assert (size s <> 0%nat) by (intros Hz; apply Hs, leibniz_equiv, size_empty_inv; lia). lia.
Qed.

(** A result that is stored after [f] has put it in its final form. *)
Lemma store_ok db m d dst o s (f : robj -> option robj) : db_is db m d -> set_rep o s -> (forall o, set_rep o s -> exists o', f o = Some o' /\ set_rep o' s) ->
  refines ('(o, n) ← setTypeSize o; if n >? 0 then o ← f o; store_result db dst o else Some (dbDelete db dst, RInt 0)) d (spec_store m dst s).
Proof.
  intros Hdb Ho Hf. destruct (setTypeSize_ok server o s Ho) as (o1 & -> & Ho1). cbn [mbind option_bind]. rewrite size_pos. case_bool_decide as Hs; cbn [negb]; [subst s; by apply store_empty_ok|].
  destruct (Hf o1 Ho1) as (o2 & -> & Ho2). by apply store_result_ok.
Qed.

Lemma inter_finish_ok o s only : set_rep o s -> (only = true -> set_Forall is_int s) -> exists o', inter_finish addr fill server o only = Some o' /\ set_rep o' s.
Proof.
  intros Ho Hint. unfold inter_finish.
  assert (H1 : exists o1, (if only then maybeConvertToIntset addr fill server o else Some o) = Some o1 /\ set_rep o1 s).
  { destruct only; [|by exists o]. destruct (maybeConvertToIntset_ok addr fill server Hconf o s Ho (Hint eq_refl)) as (o1 & -> & Ho1 & _). by exists o1. }
  destruct H1 as (o1 & -> & Ho1). cbn [mbind option_bind]. destruct o1 as [iset|lp|ht]; [by eexists| |by eexists].
  destruct Ho1 as [Hok (ps & num & R & Hn & Hs)]. destruct (shrink_rep lp ps num R) as (lp' & -> & R'). eexists. split; [done|]. by eapply rep_listpack.
Qed.

Lemma inter_dstset_ok o s : set_rep o s -> exists d, inter_dstset o = Some d /\ set_rep d ∅.
Proof.
  intros Ho. destruct o as [iset|lp|ht]; cbn [inter_dstset].
  - eexists. split; [done|]. by apply (empty_set_rep server Hconf).
  - destruct Ho as [_ (ps & num & R & _)]. unfold lpBytes. rewrite (wf_get_total (rep_wf _ _ _ R)). cbn [mbind option_bind]. destruct (lpNew_rep (Z.to_nat (total (ents ps)))) as (m & Hm & _). rewrite Hm.
    eexists. split; [done|]. apply (empty_set_rep server Hconf). by eexists.
  - unfold createSetListpackObject. destruct (lpNew_rep 0) as (m & Hm & _). rewrite Hm. eexists. split; [done|]. apply (empty_set_rep server Hconf). by eexists.
Qed.

Lemma sinterstore_ok db m d dst ks : db_is db m d -> ks <> [] -> (forall k, k ∈ ks -> Z.of_nat (size (get m k)) <= DictSpec.max_entries) ->
  refines (sinterstoreCommand mode addr fill server db dst ks) d (spec_cmd m (SINTERSTORE dst ks)).
Proof.
  intros Hdb Hne Hb. apply (inter_cases db m d ks (Some dst) false 0 _ Hdb Hne).
  - intros ->. by apply store_empty_ok.
  - intros db' first others set0 vs Hin. pose proof (common_ok _ _ _ _ _ _ _ _ Hin) as (_ & Hc & _). destruct Hin as [Hdb' Hf Ho Hi Hget Hset Hv Hel Hn Hs Hmem].
    unfold inter_main. rewrite Hget. cbn [mbind option_bind]. destruct (inter_dstset_ok set0 _ Hset) as (d0 & -> & Hd0). cbn [mbind option_bind].
    assert (Hlen : length vs = size (get m first)) by (rewrite <- (length_map vstr); by apply set_length).
    destruct (run_store m d first others (is_ht set0) Ho vs (mkInter db' 0 [] (Some d0) true) d0 ∅ Hdb' Hel eq_refl Hd0) as (st & d1 & Hrun & Hst & Hd1 & Hr1 & Hint); [done|rewrite size_empty; specialize (Hb first Hmem); lia|].
    rewrite (foreach_ok addr set0 vs _ _ st Hv Hrun). cbn [mbind option_bind]. rewrite Hd1. rewrite union_empty_l_L, Hc in Hr1, Hint.
    apply (store_ok _ m d dst d1 _ (fun o => inter_finish addr fill server o (i_only_integers st))); [by apply put_same|done|]. intros o Hr. by apply inter_finish_ok.
Qed.

(** * Unions and differences *)

(** [dstset] and [cardinality]. *)
Definition acc_is (st : robj * Z) (s : gset bytes) : Prop := set_rep st.1 s /\ st.2 = Z.of_nat (size s).

Lemma size_remove (s : gset bytes) k : Z.of_nat (size (s ∖ {[k]})) = Z.of_nat (size s) - z_of_bool (bool_decide (k ∈ s)).
Proof.
  case_bool_decide as Hk; cbn [z_of_bool]; [|replace (s ∖ {[k]}) with s by set_solver; lia].
  pose proof (size_insert (s ∖ {[k]}) k) as Hs. rewrite bool_decide_true in Hs by set_solver. replace ({[k]} ∪ s ∖ {[k]}) with s in Hs; [cbn [z_of_bool] in Hs; lia|].
  apply set_eq. intros x. destruct (decide (x = k)); set_solver.
Qed.

Lemma union_step_ok st s v : acc_is st s -> val_ok v -> Z.of_nat (size s) + 1 < 2 ^ 31 -> exists st', union_step mode addr fill server st v = Some (st', true) /\ acc_is st' ({[vstr v]} ∪ s).
Proof.
  intros [Hr Hc] Hv Hb. unfold union_step. destruct (setTypeAddAux_ok mode addr fill server Hconf st.1 s v Hr Hv ltac:(unfold DictSpec.max_entries; lia)) as (o & -> & Ho). cbn [mbind option_bind].
  eexists (_, _). split; [done|]. split; [done|]. cbn [snd]. rewrite size_insert, Hc. apply swrap_small; [lia|]. unfold srange. case_bool_decide; cbn; lia.
Qed.

Lemma remove_step_ok st s v : acc_is st s -> val_ok v -> Z.of_nat (size s) < 2 ^ 31 -> exists st', remove_step mode fill st v = Some (st', true) /\ acc_is st' (s ∖ {[vstr v]}).
Proof.
  intros [Hr Hc] Hv Hb. unfold remove_step. destruct (setTypeRemoveAux_ok mode fill server Hconf st.1 s v Hr Hv) as (o & -> & Ho). cbn [mbind option_bind].
  eexists (_, _). split; [done|]. split; [done|]. cbn [snd]. rewrite size_remove, Hc. apply swrap_small; [lia|]. pose proof (size_remove s (vstr v)) as Hs. unfold srange. case_bool_decide; cbn in *; lia.
Qed.

Lemma set_insert_le (s : gset bytes) k : (size ({[k]} ∪ s) <= S (size s))%nat.
Proof. pose proof (size_insert s k) as Hs. destruct (bool_decide _); cbn [z_of_bool] in Hs; lia. Qed.

Lemma size_remove_le (s : gset bytes) k : (size (s ∖ {[k]}) <= size s)%nat.
Proof. pose proof (size_remove s k) as Hs. destruct (bool_decide _); cbn [z_of_bool] in Hs; lia. Qed.

Lemma run_union vs : forall st s, acc_is st s -> Forall val_ok vs -> Z.of_nat (size s + length vs) < 2 ^ 31 ->
  exists st', run_body (union_step mode addr fill server) vs st = Some st' /\ acc_is st' (s ∪ list_to_set (map vstr vs)).
Proof.
  induction vs as [|v vs IH]; intros st s Hst Hok Hb; cbn [map list_to_set length] in *; [exists st; by rewrite union_empty_r_L|]. apply Forall_cons in Hok as [Hv Hok].
  destruct (union_step_ok st s v Hst Hv ltac:(lia)) as (st1 & Hs & Hst1). rewrite (run_body_app _ _ _ _ _ Hs). pose proof (set_insert_le s (vstr v)).
  destruct (IH st1 _ Hst1 Hok ltac:(lia)) as (st' & Hrun & Hst'). exists st'. by rewrite (union_assoc_L s), (union_comm_L s).
Qed.

Lemma run_remove vs : forall st s, acc_is st s -> Forall val_ok vs -> Z.of_nat (size s) < 2 ^ 31 ->
  exists st', run_body (remove_step mode fill) vs st = Some st' /\ acc_is st' (s ∖ list_to_set (map vstr vs)).
Proof.
  induction vs as [|v vs IH]; intros st s Hst Hok Hb; cbn [map list_to_set] in *; [exists st; by rewrite diff_empty|]. apply Forall_cons in Hok as [Hv Hok].
  destruct (remove_step_ok st s v Hst Hv Hb) as (st1 & Hs & Hst1). rewrite (run_body_app _ _ _ _ _ Hs). pose proof (size_remove_le s (vstr v)).
  destruct (IH st1 _ Hst1 Hok ltac:(lia)) as (st' & Hrun & Hst'). exists st'. split; [done|]. by replace (s ∖ ({[vstr v]} ∪ list_to_set (map vstr vs))) with (s ∖ {[vstr v]} ∖ list_to_set (map vstr vs)) by set_solver.
Qed.

(** The union of the sets, and the sum of their sizes. *)
Definition punion (m : gmap bytes sval) (ps : list (option bytes)) : gset bytes := ⋃ (map (pget m) ps).
Definition psum (m : gmap bytes sval) (ps : list (option bytes)) : nat := sum_list_with (fun p => size (pget m p)) ps.

Lemma punion_cons m p ps : punion m (p :: ps) = pget m p ∪ punion m ps.
Proof. done. Qed.

Lemma psum_cons m p ps : psum m (p :: ps) = (size (pget m p) + psum m ps)%nat.
Proof. done. Qed.

(** The set at a pointer with its elements. *)
Lemma open_set db m d k : db_is db m d -> set_key m k -> exists o vs, getSet db k = Some o /\ set_rep o (get m k) /\ values_of o vs /\ Forall val_ok vs /\ NoDup (map vstr vs) /\
  get m k = list_to_set (map vstr vs) /\ length vs = size (get m k).
Proof.
  intros Hdb Hk. destruct (getSet_ok server db m d k Hdb Hk) as (o & Ho & Hr & _). destruct (object_values server o _ Hr) as (vs & Hv & Hok & Hn & Hs). exists o, vs. split_and!; try done.
  rewrite <- (length_map vstr). by apply set_length.
Qed.

Lemma size_union_le (s t : gset bytes) : (size (s ∪ t) <= size s + size t)%nat.
Proof. rewrite size_union_alt. pose proof (subseteq_size (t ∖ s) t ltac:(set_solver)). lia. Qed.

Lemma union_sets_ok ps : forall db m d st s, db_is db m d -> Forall (ptr_ok m) ps -> acc_is st s -> Z.of_nat (size s + psum m ps) < 2 ^ 31 ->
  exists db' st', union_sets mode addr fill server db ps st = Some (db', st') /\ db_is db' m d /\ acc_is st' (s ∪ punion m ps).
Proof.
  induction ps as [|[k|] ps IH]; intros db m d st s Hdb Hok Hst Hb; cbn [union_sets]; rewrite ?punion_cons, ?psum_cons in *; cbn [pget] in *.
  { exists db, st. change (punion m []) with (∅ : gset bytes). by rewrite union_empty_r_L. }
  - apply Forall_cons in Hok as [Hk Hok]. destruct (open_set db m d k Hdb Hk) as (o & vs & -> & Hr & Hv & Hvok & _ & Hs & Hlen). cbn [mbind option_bind].
    destruct (run_union vs st s Hst Hvok ltac:(lia)) as (st1 & Hrun & Hst1). rewrite (foreach_ok addr o vs _ _ st1 Hv Hrun). cbn [mbind option_bind]. rewrite <- Hs in Hst1.
    pose proof (size_union_le s (get m k)). destruct (IH (putSet db k o) m d st1 _ (put_same server db m d k o Hdb Hk Hr) Hok Hst1 ltac:(lia)) as (db' & st' & -> & Hdb' & Hst'). exists db', st'. by rewrite union_assoc_L.
  - apply Forall_cons in Hok as [_ Hok]. destruct (IH db m d st s Hdb Hok Hst ltac:(lia)) as (db' & st' & -> & Hdb' & Hst'). exists db', st'. by rewrite union_empty_l_L.
Qed.

Lemma remove_sets_ok ps : forall db m d st s, db_is db m d -> Forall (ptr_ok m) ps -> acc_is st s -> Z.of_nat (size s) < 2 ^ 31 ->
  exists db' st', remove_sets mode addr fill db ps st = Some (db', st') /\ db_is db' m d /\ acc_is st' (s ∖ punion m ps).
Proof.
  induction ps as [|[k|] ps IH]; intros db m d st s Hdb Hok Hst Hb; cbn [remove_sets]; rewrite ?punion_cons in *; cbn [pget] in *.
  { exists db, st. change (punion m []) with (∅ : gset bytes). by rewrite diff_empty. }
  - apply Forall_cons in Hok as [Hk Hok]. destruct (open_set db m d k Hdb Hk) as (o & vs & -> & Hr & Hv & Hvok & _ & Hs & Hlen). cbn [mbind option_bind].
    destruct (run_remove vs st s Hst Hvok Hb) as (st1 & Hrun & Hst1). rewrite (foreach_ok addr o vs _ _ st1 Hv Hrun). cbn [mbind option_bind]. rewrite <- Hs in Hst1.
    pose proof (put_same server db m d k o Hdb Hk Hr) as Hp. replace (s ∖ (get m k ∪ punion m ps)) with (s ∖ get m k ∖ punion m ps) by set_solver.
    pose proof (subseteq_size (s ∖ get m k) s ltac:(set_solver)) as Hle. destruct (Z.eqb_spec st1.2 0) as [Hz|_]; [|by apply IH; [| | |lia]].
    eexists _, st1. split; [done|]. split; [done|]. assert (s ∖ get m k = ∅) as E by (apply leibniz_equiv, size_empty_inv; destruct Hst1 as [_ Hc]; lia). rewrite E in *.
    by replace (∅ ∖ punion m ps) with (∅ : gset bytes) by set_solver.
  - apply Forall_cons in Hok as [_ Hok]. destruct (IH db m d st s Hdb Hok Hst Hb) as (db' & st' & -> & Hdb' & Hst'). exists db', st'. by rewrite union_empty_l_L.
Qed.

(** ** The two algorithms of SDIFF *)

Lemma in_no_other_ok ps : forall db m d first v, db_is db m d -> Forall (ptr_ok m) ps -> Some first ∉ ps -> val_ok v ->
  exists db', in_no_other mode db first ps v = Some (db', bool_decide (vstr v ∉ punion m ps)) /\ db_is db' m d.
Proof.
  induction ps as [|[k|] ps IH]; intros db m d first v Hdb Hok Hf Hv; cbn [in_no_other]; rewrite ?punion_cons; cbn [pget].
  { exists db. change (punion m []) with (∅ : gset bytes). by rewrite bool_decide_true by (by intros ?%elem_of_empty). }
  - apply Forall_cons in Hok as [Hk Hok]. apply not_elem_of_cons in Hf as [Hkf Hf]. rewrite bool_decide_false by congruence. destruct (getSet_ok server db m d k Hdb Hk) as (o & -> & Ho & _). cbn [mbind option_bind].
    destruct (setTypeIsMemberAux_ok mode server o _ v Ho Hv) as (o1 & -> & Ho1). cbn [mbind option_bind]. pose proof (put_same server db m d k o1 Hdb Hk Ho1) as Hp. case_bool_decide as Hm.
    + eexists. split; [|exact Hp]. rewrite bool_decide_false; [done|]. rewrite elem_of_union. tauto.
    + destruct (IH _ m d first v Hp Hok Hf Hv) as (db' & -> & Hdb'). exists db'. split; [|done]. do 2 f_equal. apply bool_decide_ext. rewrite elem_of_union. tauto.
  - apply Forall_cons in Hok as [_ Hok]. apply not_elem_of_cons in Hf as [_ Hf]. destruct (IH db m d first v Hdb Hok Hf Hv) as (db' & -> & Hdb'). exists db'. by rewrite union_empty_l_L.
Qed.

Lemma diff_algo_1_ok db m d first ps st : db_is db m d -> set_key m first -> Forall (ptr_ok m) ps -> Some first ∉ ps -> acc_is st ∅ -> Z.of_nat (size (get m first)) < 2 ^ 31 ->
  exists db' st', diff_algo_1 mode addr fill server db first ps st = Some (db', st') /\ db_is db' m d /\ acc_is st' (get m first ∖ punion m ps).
Proof.
  intros Hdb Hf Hok Hns Hst Hb. unfold diff_algo_1. destruct (open_set db m d first Hdb Hf) as (o & vs & -> & Hr & Hv & Hvok & _ & Hs & Hlen). cbn [mbind option_bind]. set (body := fun dst v => _).
  assert (Hrun : forall vs db st s, db_is db m d -> acc_is st s -> Forall val_ok vs -> Z.of_nat (size s + length vs) < 2 ^ 31 ->
    exists db' st', run_body body vs (db, st) = Some (db', st') /\ db_is db' m d /\ acc_is st' (s ∪ list_to_set (map vstr vs) ∖ punion m ps)).
  { clear -Hconf DL Hok Hns body. induction vs as [|v vs IH]; intros db st s Hdb Hst Hvok Hb; cbn [map list_to_set length] in *.
    { exists db, st. replace (s ∪ ∅ ∖ punion m ps) with s by set_solver. done. }
    apply Forall_cons in Hvok as [Hv Hvok]. destruct (in_no_other_ok ps db m d first v Hdb Hok Hns Hv) as (db1 & Hin & Hdb1). case_bool_decide as Hno.
    - destruct (union_step_ok st s v Hst Hv ltac:(lia)) as (st1 & Hu & Hst1). rewrite (run_body_app body v vs (db, st) (db1, st1)) by (unfold body; cbn [fst snd]; rewrite Hin; cbn [mbind option_bind]; by rewrite Hu).
      pose proof (set_insert_le s (vstr v)). destruct (IH db1 st1 _ Hdb1 Hst1 Hvok ltac:(lia)) as (db' & st' & Hrun & Hdb' & Hst'). exists db', st'. split_and!; [done|done|].
      replace (s ∪ ({[vstr v]} ∪ list_to_set (map vstr vs)) ∖ punion m ps) with ({[vstr v]} ∪ s ∪ list_to_set (map vstr vs) ∖ punion m ps) by set_solver. done.
    - rewrite (run_body_app body v vs (db, st) (db1, st)) by (unfold body; cbn [fst snd]; by rewrite Hin).
      destruct (IH db1 st s Hdb1 Hst Hvok ltac:(lia)) as (db' & st' & Hrun & Hdb' & Hst'). exists db', st'. split_and!; [done|done|].
      replace (s ∪ ({[vstr v]} ∪ list_to_set (map vstr vs)) ∖ punion m ps) with (s ∪ list_to_set (map vstr vs) ∖ punion m ps) by set_solver. done. }
  destruct (Hrun vs db st ∅ Hdb Hst Hvok) as (db' & st' & Hr' & Hdb' & Hst'); [rewrite size_empty; lia|]. rewrite (foreach_ok addr o vs _ _ (db', st') Hv Hr'). cbn [mbind option_bind].
  eexists _, st'. split; [done|]. split; [by apply put_same|]. by rewrite Hs, <- (union_empty_l_L (list_to_set _ ∖ _)).
Qed.

Lemma diff_algo_2_ok db m d first ps st : db_is db m d -> set_key m first -> Forall (ptr_ok m) ps -> acc_is st ∅ -> Z.of_nat (size (get m first)) < 2 ^ 31 ->
  exists db' st', diff_algo_2 mode addr fill server db first ps st = Some (db', st') /\ db_is db' m d /\ acc_is st' (get m first ∖ punion m ps).
Proof.
  intros Hdb Hf Hok Hst Hb. unfold diff_algo_2. destruct (open_set db m d first Hdb Hf) as (o & vs & -> & Hr & Hv & Hvok & _ & Hs & Hlen). cbn [mbind option_bind].
  destruct (run_union vs st ∅ Hst Hvok ltac:(rewrite size_empty; lia)) as (st1 & Hrun & Hst1). rewrite (foreach_ok addr o vs _ _ st1 Hv Hrun). cbn [mbind option_bind].
  rewrite union_empty_l_L, <- Hs in Hst1. pose proof (put_same server db m d first o Hdb Hf Hr) as Hp. destruct (Z.eqb_spec st1.2 0) as [Hz|_]; [|by apply remove_sets_ok].
  eexists _, st1. split; [done|]. split; [done|]. assert (get m first = ∅) as E by (apply leibniz_equiv, size_empty_inv; destruct Hst1 as [_ Hc]; lia). rewrite E in *.
  by replace (∅ ∖ punion m ps) with (∅ : gset bytes) by set_solver.
Qed.

Lemma algo_work_ok ps : forall db m d first one two, db_is db m d -> set_key m first -> Forall (ptr_ok m) ps ->
  exists db' one' two', algo_work db first ps one two = Some (db', one', two') /\ db_is db' m d.
Proof.
  induction ps as [|[k|] ps IH]; intros db m d first one two Hdb Hf Hok; cbn [algo_work]; [by exists db, one, two| |]; apply Forall_cons in Hok as [Hk Hok]; [|by apply IH].
  destruct (getSet_ok server db m d first Hdb Hf) as (o & -> & Ho & _). cbn [mbind option_bind]. destruct (setTypeSize_ok server o _ Ho) as (o1 & -> & Ho1). cbn [mbind option_bind].
  pose proof (put_same server db m d first o1 Hdb Hf Ho1) as Hp. destruct (getSet_ok server _ m d k Hp Hk) as (o2 & -> & Ho2 & _). cbn [mbind option_bind].
  destruct (setTypeSize_ok server o2 _ Ho2) as (o3 & -> & Ho3). cbn [mbind option_bind]. apply IH; [by apply put_same|done|done].
Qed.

(** The first set stays the first; the others are permuted. *)
Lemma select_ok db m d first ps : db_is db m d -> set_key m first -> Forall (ptr_ok m) ps ->
  exists db' algo ps', select_diff_algo db (Some first :: ps) = Some (db', algo, Some first :: ps') /\ db_is db' m d /\ ps' ≡ₚ ps.
Proof.
  intros Hdb Hf Hok. cbn [select_diff_algo]. destruct (same_set _); [by exists db, 1, ps|]. destruct (algo_work_ok (Some first :: ps) db m d first 0 0 Hdb Hf) as (db1 & one & two & -> & Hdb1); [by constructor|].
  cbn [mbind option_bind]. destruct (_ <=? _); [|by exists db1, 2, ps]. destruct (sort_sets_ok qsortCompareSetsByRevCardinality db1 m d ps Hdb1 Hok) as (db2 & ps' & -> & Hdb2 & Hp). by exists db2, 1, ps'.
Qed.

(** ** The commands *)

Lemma punion_ptr m ks : punion m (map (ptr m) ks) = union_of m ks.
Proof. unfold punion, union_of. rewrite map_map. f_equal. apply map_ext. intros k. apply pget_ptr. Qed.

Lemma punion_perm m ps ps' : ps' ≡ₚ ps -> punion m ps' = punion m ps.
Proof.
  intros Hp. unfold punion. apply set_eq. intros x. rewrite !elem_of_union_list. split; intros (s & Hs & Hx); exists s; (split; [|done]); apply list_elem_of_fmap in Hs as (p & -> & Hin);
    apply list_elem_of_fmap_2; [by rewrite <- Hp|by rewrite Hp].
Qed.

(** The sum of the sizes of the sets that a command reads. *)
Definition keys_size (m : gmap bytes sval) (ks : list bytes) : nat := sum_list_with (fun k => size (get m k)) ks.

Lemma psum_ptr m ks : psum m (map (ptr m) ks) = keys_size m ks.
Proof. induction ks as [|k ks IH]; [done|]. unfold keys_size in *. cbn [map sum_list_with]. by rewrite psum_cons, IH, pget_ptr. Qed.

Lemma ptrs_ok m ks : Forall (ptr_ok m) (map (ptr m) ks).
Proof. apply Forall_fmap, Forall_forall. intros k _. apply ptr_ok_ptr. Qed.

Lemma empty_acc b : acc_is (if (b : bool) then createSetObject else createIntsetObject, 0) ∅.
Proof.
  split; [|by rewrite size_empty]. apply (empty_set_rep server Hconf). cbn [fst]. destruct b; [|done]. destruct (DictSpec.dictCreate_ok (K := bytes) (V := unit)) as [Hd Hm]. split_and!; [done|done|]. by rewrite Hm, dom_empty_L.
Qed.

(** The result is replied, or stored. *)
Definition spec_result (m : gmap bytes sval) (dstkey : option bytes) (s : gset bytes) : gmap bytes sval * sreply * Z :=
  match dstkey with None => (m, SSetReply s, 0) | Some dst => spec_store m dst s end.

Lemma result_ok (db : redisDb) (m : gmap bytes sval) (d : Z) (dstkey : option bytes) o c s : db_is db m d -> acc_is (o, c) s ->
  refines (match dstkey with
    | None => '(_, l) ← reply_elements addr o; Some (db, RSet c l)
    | Some dstkey => '(dstset, n) ← setTypeSize o; if n >? 0 then store_result db dstkey dstset else Some (dbDelete db dstkey, RInt 0)
    end) d (spec_result m dstkey s).
Proof.
  intros Hdb [Ho Hc]. cbn [fst snd] in *. destruct dstkey as [dst|]; cbn [spec_result].
  - apply (store_ok db m d dst o s Some); [done|done|]. intros o' Ho'. by exists o'.
  - destruct (reply_elements_ok addr server o s Ho) as (l & -> & Hn & Hl). cbn [mbind option_bind]. apply refines_same; [done|]. by split_and!.
Qed.

Lemma same_set_In first ps : same_set (Some first :: ps) = bool_decide (Some first ∈ ps).
Proof.
  cbn [same_set]. apply eq_true_iff_eq. rewrite existsb_exists, bool_decide_eq_true. split; [intros (p & Hp%list_elem_of_In & ->%bool_decide_eq_true); done|].
  intros Hin. exists (Some first). by rewrite bool_decide_eq_true, <- list_elem_of_In.
Qed.

(** The set that is left of the first one. *)
Definition diff_sets (db : redisDb) (sets : list (option bytes)) (st : robj * Z) : option (redisDb * (robj * Z)) :=
  '(db, diff_algo, sets') ← select_diff_algo db sets;
  match sets' with
  | Some first :: others => if same_set sets then Some (db, st) else if diff_algo =? 1 then diff_algo_1 mode addr fill server db first others st else diff_algo_2 mode addr fill server db first others st
  | _ => Some (db, st)
  end.

(** Whichever algorithm is selected. *)
Lemma diff_sets_ok db m d p ps st : db_is db m d -> Forall (ptr_ok m) (p :: ps) -> acc_is st ∅ -> Z.of_nat (psum m (p :: ps)) < 2 ^ 31 ->
  exists db' st', diff_sets db (p :: ps) st = Some (db', st') /\ db_is db' m d /\ acc_is st' (pget m p ∖ punion m ps).
Proof.
  intros Hdb [Hf Hok]%Forall_cons Hst Hb. rewrite psum_cons in Hb. unfold diff_sets. destruct p as [first|]; cbn [pget ptr_ok] in *.
  2: { exists db, st. split_and!; [done|done|]. by replace (∅ ∖ punion m ps) with (∅ : gset bytes) by set_solver. }
  destruct (select_ok db m d first ps Hdb Hf Hok) as (db1 & algo & ps' & -> & Hdb1 & Hp). cbn [mbind option_bind]. rewrite same_set_In. rewrite <- (punion_perm m ps ps' Hp). case_bool_decide as Hin.
  { exists db1, st. split_and!; [done|done|]. replace (get m first ∖ punion m ps') with (∅ : gset bytes); [done|]. symmetry. apply set_eq. intros x. split; [|by intros ?%elem_of_empty].
    intros [Hx Hnot]%elem_of_difference. destruct Hnot. unfold punion. apply elem_of_union_list. exists (get m first). split; [|done]. apply list_elem_of_fmap. exists (Some first). split; [done|]. by rewrite Hp. }
  assert (Hok' : Forall (ptr_ok m) ps') by (by rewrite Hp). destruct (algo =? 1); [apply diff_algo_1_ok|apply diff_algo_2_ok]; try done; try lia. by rewrite Hp.
Qed.

Definition op_result (m : gmap bytes sval) (op : set_op) (ks : list bytes) : gset bytes := match op with SET_OP_UNION => union_of m ks | SET_OP_DIFF => diff_of m ks end.

Lemma sunionDiff_ok db m d ks dstkey op : db_is db m d -> Z.of_nat (keys_size m ks) < 2 ^ 31 ->
  refines (sunionDiffGenericCommand mode addr fill server db ks dstkey op) d (spec_sets m ks (spec_result m dstkey (op_result m op ks))).
Proof.
  intros Hdb Hb. unfold sunionDiffGenericCommand, spec_sets. rewrite (lookup_sets_ok db m d ks Hdb). destruct (existsb (wrong m) ks); [by apply refines_same|].
  set (sets := map (ptr m) ks). pose proof (empty_acc (dstset_ht db dstkey sets)) as Hacc. set (dst := if dstset_ht db dstkey sets then _ else _) in *. pose proof (ptrs_ok m ks) as Hps. fold sets in Hps.
  rewrite <- (psum_ptr m ks) in Hb. fold sets in Hb.
  assert (Hcore : exists db' st', match op with SET_OP_UNION => union_sets mode addr fill server db sets (dst, 0) | SET_OP_DIFF => diff_sets db sets (dst, 0) end = Some (db', st') /\
    db_is db' m d /\ acc_is st' (op_result m op ks)).
  { destruct op; cbn [op_result].
    - rewrite <- (punion_ptr m ks), <- (union_empty_l_L (punion _ _)). apply union_sets_ok; [done|done|done|]. rewrite size_empty. done.
    - destruct ks as [|k ks]; [by exists db, (dst, 0)|]. cbn [diff_of]. rewrite <- (punion_ptr m ks), <- (pget_ptr m k). by apply diff_sets_ok. }
  destruct Hcore as (db' & [o c] & Hrun & Hdb' & Hst'). pose proof (result_ok db' m d dstkey o c _ Hdb' Hst') as Hfin. unfold diff_sets in Hrun. destruct op.
  - cbn [mbind option_bind]. rewrite Hrun. exact Hfin.
  - destruct (select_diff_algo db sets) as [[[db1 algo] sets']|]; [|done]. cbn [mbind option_bind] in Hrun |- *. rewrite Hrun. exact Hfin.
Qed.

(** * Sequences of commands *)

(** The arguments of SINTERCARD, from [numkeys] on. *)
Definition sintercard_args (ks : list bytes) (limit : option Z) : list bytes :=
  sdec (Z.of_nat (length ks)) :: ks ++ match limit with Some l => [[76; 73; 77; 73; 84]; sdec l] | None => [] end.

Lemma sintercard_parse db ks limit : Z.of_nat (length ks) < 2 ^ 31 -> ks <> [] -> match limit with Some l => 0 <= l <= LLONG_MAX | None => True end ->
  sinterCardCommand mode addr fill server db (sintercard_args ks limit) = sinterGenericCommand mode addr fill server db ks None true (default 0 limit).
Proof.
  intros Hl Hne Hlim. unfold sinterCardCommand, sintercard_args. cbn [head tail mbind option_bind]. assert (0 < length ks)%nat by (destruct ks; [done|cbn; lia]).
  assert (Hnum : getRangeLong (sdec (Z.of_nat (length ks))) 1 LLONG_MAX = Some (Z.of_nat (length ks))).
  { unfold getRangeLong. rewrite string2ll_complete by (unfold srange; cbn; lia). cbn [mbind option_bind]. unfold LLONG_MAX. destruct (_ || _) eqn:E; [lia|done]. }
  rewrite Hnum, length_app. set (opts := match limit with Some _ => _ | None => _ end). destruct (_ >? _) eqn:E; [lia|]. rewrite Nat2Z.id, drop_app_length, take_app_length.
  assert (Hopt : sintercard_options opts 0 = inr (default 0 limit)).
  { unfold opts. destruct limit as [l|]; [|done]. cbn [sintercard_options default]. replace (BitfieldCmd.strcaseeq _ _) with true by done. unfold getRangeLong. unfold LLONG_MAX in *.
    rewrite string2ll_complete by (unfold srange; cbn; lia). cbn [mbind option_bind]. destruct (_ || _) eqn:E'; [lia|done]. }
  by rewrite Hopt.
Qed.

Definition exec (db : redisDb) (c : command) : option (redisDb * reply) :=
  match c with
  | SADD k ms => saddCommand mode addr fill server db k ms
  | SREM k ms => sremCommand mode fill db k ms
  | SMOVE src dst e => smoveCommand mode addr fill server db src dst e
  | SISMEMBER k e => sismemberCommand mode db k e
  | SMISMEMBER k es => smismemberCommand mode db k es
  | SCARD k => scardCommand db k
  | SMEMBERS k => smembersCommand addr db k
  | SINTER ks => sinterCommand mode addr fill server db ks
  | SINTERCARD ks limit => sinterCardCommand mode addr fill server db (sintercard_args ks limit)
  | SINTERSTORE dst ks => sinterstoreCommand mode addr fill server db dst ks
  | SUNION ks => sunionCommand mode addr fill server db ks
  | SUNIONSTORE dst ks => sunionstoreCommand mode addr fill server db dst ks
  | SDIFF ks => sdiffCommand mode addr fill server db ks
  | SDIFFSTORE dst ks => sdiffstoreCommand mode addr fill server db dst ks
  end.

(** The arguments of a command, and the number of elements it may have to count in an [int]. *)
Definition cmd_ok (m : gmap bytes sval) (c : command) : Prop :=
  match c with
  | SADD k ms => ms <> [] /\ Forall elem_ok ms /\ Z.of_nat (size (get m k) + length ms) < 2 ^ 31
  | SREM _ ms | SMISMEMBER _ ms => Forall elem_ok ms
  | SMOVE _ dst e => elem_ok e /\ Z.of_nat (size (get m dst)) < 2 ^ 31
  | SISMEMBER _ e => elem_ok e
  | SCARD _ | SMEMBERS _ => True
  | SINTERCARD ks limit => ks <> [] /\ Z.of_nat (length ks) < 2 ^ 31 /\ 0 <= default 0 limit <= LLONG_MAX
  | SINTER ks | SINTERSTORE _ ks | SUNION ks | SUNIONSTORE _ ks | SDIFF ks | SDIFFSTORE _ ks => ks <> [] /\ Z.of_nat (keys_size m ks) < 2 ^ 31
  end.

Lemma keys_size_in m ks k : k ∈ ks -> (size (get m k) <= keys_size m ks)%nat.
Proof. unfold keys_size. induction ks as [|k' ks IH]; [by intros ?%not_elem_of_nil|]. cbn [sum_list_with]. intros [->|Hk]%elem_of_cons; [lia|]. specialize (IH Hk). lia. Qed.

Lemma command_ok db m d c : db_is db m d -> cmd_ok m c -> refines (exec db c) d (spec_cmd m c).
Proof.
  intros Hdb Hc. assert (Hmax : 2 ^ 31 <= DictSpec.max_entries) by (by vm_compute). destruct c; cbn [exec cmd_ok] in *.
  - destruct Hc as (Hne & Hok & Hb). apply (sadd_ok mode addr fill server Hconf); (done || lia).
  - by apply (srem_ok mode fill server Hconf).
  - destruct Hc as [He Hb]. apply (smove_ok mode addr fill server Hconf); (done || lia).
  - by apply sismember_ok.
  - by apply smismember_ok.
  - by apply scard_ok.
  - by apply smembers_ok.
  - destruct Hc as [Hne _]. by apply sinter_ok.
  - destruct Hc as (Hne & Hl & Hlim). rewrite sintercard_parse by (first [done | by destruct limit]). apply sintercard_ok; (done || lia).
  - destruct Hc as [Hne Hb]. apply sinterstore_ok; [done|done|]. intros k Hk. pose proof (keys_size_in m ks k Hk). lia.
  - destruct Hc as [_ Hb]. by apply (sunionDiff_ok db m d ks None SET_OP_UNION).
  - destruct Hc as [_ Hb]. by apply (sunionDiff_ok db m d ks (Some dst) SET_OP_UNION).
  - destruct Hc as [_ Hb]. by apply (sunionDiff_ok db m d ks None SET_OP_DIFF).
  - destruct Hc as [_ Hb]. by apply (sunionDiff_ok db m d ks (Some dst) SET_OP_DIFF).
Qed.

Fixpoint run (db : redisDb) (cs : list command) : option (redisDb * list reply) :=
  match cs with [] => Some (db, []) | c :: cs => '(db, r) ← exec db c; '(db, rs) ← run db cs; Some (db, r :: rs) end.

Fixpoint spec_run (m : gmap bytes sval) (d : Z) (cs : list command) : gmap bytes sval * Z * list sreply :=
  match cs with [] => (m, d, []) | c :: cs => let '(m, r, n) := spec_cmd m c in let '(m, d, rs) := spec_run m (d + n) cs in (m, d, r :: rs) end.

Fixpoint commands_ok (m : gmap bytes sval) (cs : list command) : Prop :=
  match cs with [] => True | c :: cs => cmd_ok m c /\ commands_ok (spec_cmd m c).1.1 cs end.

Lemma run_commands_ok db m d cs : db_is db m d -> commands_ok m cs ->
  exists db' rs, run db cs = Some (db', rs) /\ let '(m', d', srs) := spec_run m d cs in db_is db' m' d' /\ Forall2 reply_ok rs srs.
Proof.
  revert db m d. induction cs as [|c cs IH]; intros db m d Hdb Hok; cbn [run spec_run]; [by exists db, []|]. destruct Hok as [Hc Hcs].
  destruct (command_ok db m d c Hdb Hc) as (db1 & r & -> & Hdb1 & Hr). cbn [mbind option_bind]. destruct (spec_cmd m c) as [[m1 sr] n]. cbn [fst snd] in *.
  destruct (IH db1 m1 (d + n) Hdb1 Hcs) as (db' & rs & -> & Hrest). cbn [mbind option_bind]. destruct (spec_run m1 (d + n) cs) as [[m' d'] srs]. exists db', (r :: rs). split; [done|]. destruct Hrest. by split; [|constructor].
Qed.

(** C3. Set commands refine a map from keys to finite sets of strings: any sequence of SADD, SREM, SMOVE, SISMEMBER,
    SMISMEMBER, SCARD, SMEMBERS, SINTER, SINTERCARD, SINTERSTORE, SUNION, SUNIONSTORE, SDIFF and SDIFFSTORE, on a
    database with sets in any of the three encodings and with keys of other types, runs without an assertion failure
    or an access out of bounds; every reply is that of the specification (WRONGTYPE errors and LIMIT included, a set
    with its size and each element once), keys of empty sets are gone, and [dirty] counts the changes. *)
Theorem set_commands_refine db m d cs : db_is db m d -> commands_ok m cs ->
  exists db' rs, run db cs = Some (db', rs) /\ let '(m', d', srs) := spec_run m d cs in db_is db' m' d' /\ Forall2 reply_ok rs srs.
Proof. apply run_commands_ok. Qed.

(** C27. The two algorithms of SDIFF give the same result: the first set without the elements of the others, with the
    number of its elements, and both leave every set of the database as it was. *)
Theorem sdiff_algorithms_agree db m d first others st : db_is db m d -> set_key m first -> Forall (ptr_ok m) others -> Some first ∉ others -> acc_is st ∅ -> Z.of_nat (size (get m first)) < 2 ^ 31 ->
  exists db1 db2 dst1 dst2 n, diff_algo_1 mode addr fill server db first others st = Some (db1, (dst1, n)) /\ diff_algo_2 mode addr fill server db first others st = Some (db2, (dst2, n)) /\
    db_is db1 m d /\ db_is db2 m d /\ set_rep dst1 (get m first ∖ punion m others) /\ set_rep dst2 (get m first ∖ punion m others) /\ n = Z.of_nat (size (get m first ∖ punion m others)).
Proof.
  intros Hdb Hf Hok Hns Hst Hb. destruct (diff_algo_1_ok db m d first others st Hdb Hf Hok Hns Hst Hb) as (db1 & [o1 n1] & H1 & Hdb1 & Hr1 & Hn1).
  destruct (diff_algo_2_ok db m d first others st Hdb Hf Hok Hst Hb) as (db2 & [o2 n2] & H2 & Hdb2 & Hr2 & Hn2). cbn [fst snd] in *.
  exists db1, db2, o1, o2, n1. split_and!; try done. by rewrite Hn1, <- Hn2.
Qed.

End Spec.

(** * Concrete instances *)

Module Sample.
Import SetTypeSpec.Sample.

Definition insert_by {X} (cmp : X -> X -> Z) (x : X) : list X -> list X :=
  fix go l := match l with [] => [x] | y :: l => if cmp x y <=? 0 then x :: y :: l else y :: go l end.

Lemma insert_by_perm {X} (cmp : X -> X -> Z) x l : insert_by cmp x l ≡ₚ x :: l.
Proof. induction l as [|y l IH]; [done|]. cbn [insert_by]. destruct (_ <=? _); [done|]. fold (insert_by cmp x). rewrite IH. constructor. Qed.

Lemma sort_by_perm {X} (cmp : X -> X -> Z) l : foldr (insert_by cmp) [] l ≡ₚ l.
Proof. induction l as [|x l IH]; [done|]. cbn [foldr]. by rewrite insert_by_perm, IH. Qed.

#[local] Instance insertion_sort : Qsort := {| qsort X cmp l := foldr (insert_by cmp) [] l; qsort_perm X cmp l := sort_by_perm cmp l |}.

Definition k_a : bytes := [97].
Definition k_b : bytes := [98].
Definition k_c : bytes := [99].
Definition k_other : bytes := [111].

Definition sample_db : redisDb := mkDb {[k_other := OtherObj 1]} 0.
Definition sample_map : gmap bytes sval := {[k_other := SOther 1]}.

(** Intsets, a listpack, hash tables; integers given as strings; long strings. *)
Definition sample_commands : list command :=
  [SADD k_a [[49]; [50]]; SADD k_a [[120]]; SADD k_b [[50]; [51]]; SADD k_b [[52]]; SMEMBERS k_b; SADD k_a [[121]; [122]]; SCARD k_a;
   SINTER [k_a; k_b]; SINTERCARD [k_a; k_b; k_a] (Some 1); SINTERSTORE k_c [k_a; k_b]; SUNION [k_a; k_b]; SDIFF [k_a; k_b; k_c]; SDIFF [k_b; k_b];
   SUNIONSTORE k_c [k_b; k_a]; SDIFFSTORE k_c [k_c; k_a]; SISMEMBER k_c [51]; SMISMEMBER k_c [[50]; [52]]; SMOVE k_c k_b [51]; SREM k_c [[52]; [53]]; SCARD k_c;
   SADD k_c [[97; 98; 99; 100; 101; 102; 103; 104; 105]; [45; 49]]; SINTER [k_c; k_other]; SUNIONSTORE k_other [k_a; k_c]; SCARD k_other].

#[local] Instance elem_ok_dec s : Decision (elem_ok s).
Proof. unfold elem_ok, bytes_ok. apply _. Defined.

#[local] Instance cmd_ok_dec m c : Decision (cmd_ok m c).
Proof. destruct c; cbn [cmd_ok]; apply _. Defined.

Fixpoint commands_ok_dec (cs : list command) : forall m, Decision (commands_ok m cs).
Proof. destruct cs as [|c cs]; intros m; cbn [commands_ok]; [apply _|]. pose proof (commands_ok_dec cs (spec_cmd m c).1.1). apply _. Defined.

Lemma sample_db_is : db_is sample_config sample_db sample_map 0.
Proof.
  split; [|done]. intros k. unfold sample_db, sample_map. cbn [keys]. destruct (decide (k = k_other)) as [->|Hne]; [by rewrite !lookup_singleton_eq|]. by rewrite !lookup_singleton_ne by done.
Qed.

Lemma sample_commands_ok : commands_ok sample_map sample_commands.
Proof. apply (bool_decide_unpack _ (dec := commands_ok_dec sample_commands sample_map)). by vm_compute. Qed.

(** The replies: the sets have elements of every encoding, and the key of another type is refused, then overwritten. *)
Lemma set_commands_refine_witness :
  let '(_, d, srs) := spec_run sample_map 0 sample_commands in
  take 4 srs = [SInt 2; SInt 1; SInt 2; SInt 1] /\ last srs = Some (SInt 7) /\
  exists db' rs, run Dict.DICT_RESIZE_ENABLE (fun _ => 0) 165 sample_config sample_db sample_commands = Some (db', rs) /\ dirty db' = d /\ Forall2 reply_ok rs srs.
Proof.
  pose proof (set_commands_refine Dict.DICT_RESIZE_ENABLE (fun _ => 0) 165 sample_config config_ok sample_db sample_map 0 sample_commands sample_db_is sample_commands_ok) as Hrun.
  destruct (spec_run sample_map 0 sample_commands) as [[m' d'] srs] eqn:E. split; [|split].
  - change srs with ((m', d', srs).2). rewrite <- E. by vm_compute.
  - change srs with ((m', d', srs).2). rewrite <- E. by vm_compute.
  - destruct Hrun as (db' & rs & Hrun & Hdb & Hrs). exists db', rs. split; [done|]. split; [apply Hdb|done].
Defined.

(** A hash table, and an intset. *)
Definition diff_commands : list command := [SADD k_a [[49]; [50]; [120]; [121]; [122]]; SADD k_b [[50]; [51]]].
Definition diff_db : redisDb := match run Dict.DICT_RESIZE_ENABLE (fun _ => 0) 165 sample_config sample_db diff_commands with Some (db, _) => db | None => sample_db end.
Definition diff_map : gmap bytes sval := (spec_run sample_map 0 diff_commands).1.1.

Lemma diff_db_is : db_is sample_config diff_db diff_map 7.
Proof.
  destruct (run_commands_ok Dict.DICT_RESIZE_ENABLE (fun _ => 0) 165 sample_config config_ok sample_db sample_map 0 diff_commands sample_db_is) as (db & rs & Hrun & Hdb).
  { apply (bool_decide_unpack _ (dec := commands_ok_dec diff_commands sample_map)). by vm_compute. }
  unfold diff_db, diff_map. rewrite Hrun. assert (Hd : (spec_run sample_map 0 diff_commands).1.2 = 7) by (by vm_compute). destruct (spec_run _ _ _) as [[m d] srs]. cbn [fst snd] in *. subst d. apply Hdb.
Qed.

Lemma is_set_key m k : match m !! k with Some (SSet _) => true | _ => false end = true -> set_key m k.
Proof. unfold set_key. destruct (m !! k) as [[s|]|]; [|done|done]. by exists s. Qed.

Lemma sdiff_algorithms_agree_witness :
  exists db1 db2 dst1 dst2,
    diff_algo_1 Dict.DICT_RESIZE_ENABLE (fun _ => 0) 165 sample_config diff_db k_a [Some k_b; None] (createIntsetObject, 0) = Some (db1, (dst1, 4)) /\
    diff_algo_2 Dict.DICT_RESIZE_ENABLE (fun _ => 0) 165 sample_config diff_db k_a [Some k_b; None] (createIntsetObject, 0) = Some (db2, (dst2, 4)) /\
    set_rep sample_config dst1 (get diff_map k_a ∖ punion diff_map [Some k_b; None]) /\ set_rep sample_config dst2 (get diff_map k_a ∖ punion diff_map [Some k_b; None]).
Proof.
  pose proof (is_set_key diff_map k_a ltac:(by vm_compute)) as Ha. pose proof (is_set_key diff_map k_b ltac:(by vm_compute)) as Hb.
  destruct (sdiff_algorithms_agree Dict.DICT_RESIZE_ENABLE (fun _ => 0) 165 sample_config config_ok diff_db diff_map 7 k_a [Some k_b; None] (createIntsetObject, 0) diff_db_is Ha)
    as (db1 & db2 & dst1 & dst2 & n & H1 & H2 & _ & _ & H3 & H4 & Hn).
  - repeat constructor. exact Hb.
  - apply (bool_decide_unpack _). by vm_compute.
  - apply (empty_acc sample_config config_ok false).
  - by vm_compute.
  - assert (E : n = 4) by (rewrite Hn; by vm_compute). rewrite E in H1, H2. exists db1, db2, dst1, dst2. split; [exact H1|]. split; [exact H2|]. split; [exact H3|exact H4].
Defined.

End Sample.
End SetAlgSpec.
