(* ===== verification/Lcs.v ===== *)
(** The longest common subsequence of two strings, as the command LCS computes it (t_string.c).

    The table is a linear array of 32 bit numbers that is filled row by row; the index of a cell is
    computed with 32 bits, as in the macro [LCS(A,B)] of the code.  The string and the ranges of the
    matches are found on the way back from the last cell. *)

From S2P Require Import Prelude.

Module Lcs.

Section Lcs.
Context {A : Allocator}.
Context (a b : bytes).

Definition alen : Z := Z.of_nat (length a).
Definition blen : Z := Z.of_nat (length b).

(** [LCS(A,B)]: the place of a cell in the array. *)
Definition LCS (i j : Z) : nat := Z.to_nat (u32 (j + u32 (i * u32 (blen + 1)))).

Definition char_at (s : bytes) (i : Z) : option Z := s !! Z.to_nat i.

(** The value of a cell, from the cells before it. *)
Definition lcs_cell (lcs : list Z) (i j : Z) : option Z :=
  if (i =? 0) || (j =? 0) then Some 0
  else
    x ← char_at a (i - 1);
    y ← char_at b (j - 1);
    if x =? y then v ← lcs !! LCS (i - 1) (j - 1); Some (u32 (v + 1))
    else
      lcs1 ← lcs !! LCS (i - 1) j;
      lcs2 ← lcs !! LCS i (j - 1);
      Some (if lcs1 >? lcs2 then lcs1 else lcs2).

(** A store in the array. *)
Definition set_lcs (lcs : list Z) (k : nat) (v : Z) : option (list Z) := _ ← guard (k <? length lcs)%nat; Some (<[k := v]> lcs).

(** [n] columns of a row, from column [j] on. *)
Fixpoint fill_columns (n : nat) (i j : Z) (lcs : list Z) : option (list Z) :=
  match n with
  | O => Some lcs
  | S n => v ← lcs_cell lcs i j; lcs ← set_lcs lcs (LCS i j) v; fill_columns n i (j + 1) lcs
  end.

(** [n] rows, from row [i] on. *)
Fixpoint fill_rows (n : nat) (i : Z) (lcs : list Z) : option (list Z) :=
  match n with
  | O => Some lcs
  | S n => lcs ← fill_columns (Z.to_nat (blen + 1)) i 0 lcs; fill_rows n (i + 1) lcs
  end.

Definition fill_table (junk : list Z) : option (list Z) := fill_rows (Z.to_nat (alen + 1)) 0 junk.

(** A range of [a] and the range of [b] that it matches: first and last positions, and [match_len]. *)
Record match_range := mkRange { r_astart : Z; r_aend : Z; r_bstart : Z; r_bend : Z; r_len : Z }.

(** The variables of the loop that goes back through the table. *)
Record back := mkBack {
  bi : Z; bj : Z; idx : Z; result : bytes;
  arange_start : Z; arange_end : Z; brange_start : Z; brange_end : Z;
  emitted : list match_range
}.

(** A step to the cell before on the diagonal: the character, and [emit_range]. *)
Definition match_step (st : back) (x : Z) : option (back * bool) :=
  result ← store (result st) (Z.to_nat (idx st - 1)) [x];
  let i := bi st in
  let j := bj st in
  let '(astart, aend, bstart, bend, emit_range) :=
    if arange_start st =? alen then (i - 1, i - 1, j - 1, j - 1, false)
    else if (arange_start st =? i) && (brange_start st =? j) then (u32 (arange_start st - 1), arange_end st, u32 (brange_start st - 1), brange_end st, false)
    else (arange_start st, arange_end st, brange_start st, brange_end st, true) in
  let emit_range := emit_range || (astart =? 0) || (bstart =? 0) in
  Some (mkBack (i - 1) (j - 1) (idx st - 1) result astart aend bstart bend (emitted st), emit_range).

Definition skip_step (lcs : list Z) (st : back) : option (back * bool) :=
  lcs1 ← lcs !! LCS (bi st - 1) (bj st);
  lcs2 ← lcs !! LCS (bi st) (bj st - 1);
  let '(i, j) := if lcs1 >? lcs2 then (bi st - 1, bj st) else (bi st, bj st - 1) in
  Some (mkBack i j (idx st) (result st) (arange_start st) (arange_end st) (brange_start st) (brange_end st) (emitted st), negb (arange_start st =? alen)).

(** Emits the current range if it is long enough, and restarts. *)
Definition emit (minmatchlen : Z) (st : back) (emit_range : bool) : back :=
  let match_len := u32 (arange_end st - arange_start st + 1) in
  if emit_range then
    let out := if (minmatchlen =? 0) || (match_len >=? minmatchlen)
               then emitted st ++ [mkRange (arange_start st) (arange_end st) (brange_start st) (brange_end st) match_len] else emitted st in
    mkBack (bi st) (bj st) (idx st) (result st) alen (arange_end st) (brange_start st) (brange_end st) out
  else st.

(** [while (computelcs && i > 0 && j > 0)]; every step lowers [i] or [j]. *)
Fixpoint go_back (fuel : nat) (lcs : list Z) (minmatchlen : Z) (st : back) : option back :=
  if (bi st >? 0) && (bj st >? 0) then
    match fuel with
    | O => None
    | S fuel =>
      x ← char_at a (bi st - 1);
      y ← char_at b (bj st - 1);
      '(st, emit_range) ← (if x =? y then match_step st x else skip_step lcs st);
      go_back fuel lcs minmatchlen (emit minmatchlen st emit_range)
    end
  else Some st.

Definition start_back (len : Z) (result : bytes) : back := mkBack alen blen len result alen 0 0 0 [].

(** The length of the subsequence; the subsequence and the ranges if they are asked for. *)
Definition lcs_compute (computelcs : bool) (minmatchlen : Z) : option (Z * bytes * list match_range) :=
  lcs ← fill_table (junk (Z.to_nat ((alen + 1) * (blen + 1))));
  len ← lcs !! LCS alen blen;
  if computelcs then
    st ← go_back (length a + length b) lcs minmatchlen (start_back len (junk (Z.to_nat len)));
    Some (len, result st, emitted st)
  else Some (len, [], []).

End Lcs.
End Lcs.
