(* ===== verification/LcsSpec.v ===== *)
(** The command LCS finds a longest common subsequence, and ranges that make it up (t_string.c). *)

From S2P Require Import Prelude Lcs.

Module LcsSpec.
Import Lcs.

(** * Reference *)

(** The length of a longest common subsequence, by the recursion on the first characters. *)
Fixpoint lcs_len (xs : bytes) : bytes -> nat :=
  fix go ys :=
    match xs, ys with
    | x :: xs', y :: ys' => if x =? y then S (lcs_len xs' ys') else Nat.max (lcs_len xs' ys) (go ys')
    | _, _ => O
    end.

Lemma lcs_len_nil_r xs : lcs_len xs [] = O.
Proof. by destruct xs. Qed.

Lemma lcs_len_cons x xs y ys : lcs_len (x :: xs) (y :: ys) = if x =? y then S (lcs_len xs ys) else Nat.max (lcs_len xs (y :: ys)) (lcs_len (x :: xs) ys).
Proof. done. Qed.

Lemma lcs_len_le xs : forall ys, (lcs_len xs ys <= length xs)%nat.
Proof.
  induction xs as [|x xs IH]; [by intros []|]. induction ys as [|y ys IHy]; [cbn; lia|]. rewrite lcs_len_cons. cbn [length] in *. destruct (x =? y); [specialize (IH ys); lia|].
  specialize (IH (y :: ys)). lia.
Qed.

(** What is left of a subsequence without its first character. *)
Lemma sublist_tail (l : bytes) x xs : l `sublist_of` x :: xs -> tail l `sublist_of` xs.
Proof. intros Hl. inversion Hl; subst; cbn [tail]; [done|]. destruct l as [|z l]; [done|]. cbn [tail]. transitivity (z :: l); [by apply sublist_cons|done]. Qed.

(** No common subsequence is longer. *)
Lemma lcs_len_max xs : forall ys l, l `sublist_of` xs -> l `sublist_of` ys -> (length l <= lcs_len xs ys)%nat.
Proof.
  induction xs as [|x xs IH]; intros ys l Hx Hy; [apply sublist_nil_r in Hx; subst; cbn; lia|]. revert l Hx Hy. induction ys as [|y ys IHy]; intros l Hx Hy; [apply sublist_nil_r in Hy; subst; cbn; lia|].
  rewrite lcs_len_cons. destruct (Z.eqb_spec x y) as [->|Hne].
  - specialize (IH ys (tail l) (sublist_tail _ _ _ Hx) (sublist_tail _ _ _ Hy)). destruct l; cbn [tail length] in *; lia.
  - inversion Hx as [|? l1 ? Hx' Ha Hb|? ? ? Hx']; subst.
    + inversion Hy as [|? ? ? Hy' Hc Hd|? ? ? Hy']; subst; [congruence|]. specialize (IHy (x :: l1) Hx Hy'). lia.
    + specialize (IH (y :: ys) l Hx' Hy). lia.
Qed.

Lemma index_inj w i j i' j' : (j < w)%nat -> (j' < w)%nat -> (i' * w + j' = i * w + j)%nat -> i' = i /\ j' = j.
Proof.
  intros Hj Hj' E. destruct (Nat.lt_trichotomy i i') as [Hlt|[->|Hlt]]; [|lia|]; exfalso; pose proof (Nat.mul_le_mono_r _ _ w Hlt) as Hle; cbn [Nat.mul] in Hle; lia.
Qed.

Section Table.
Context {A : Allocator} (a b : bytes).

Definition width : nat := S (length b).

Context (Hsize : Z.of_nat (S (length a) * width) < 2 ^ 32).

(** The value of a cell: for the first [i] and [j] characters, from their last ones on. *)
Definition P (i j : nat) : nat := lcs_len (reverse (take i a)) (reverse (take j b)).

Lemma P_0_l j : P 0 j = O.
Proof. unfold P. rewrite take_0. change (reverse []) with (@nil Z). by destruct (reverse (take j b)). Qed.

Lemma P_0_r i : P i 0 = O.
Proof. unfold P. rewrite take_0. change (reverse []) with (@nil Z). apply lcs_len_nil_r. Qed.

Lemma P_S i j x y : a !! i = Some x -> b !! j = Some y -> P (S i) (S j) = if x =? y then S (P i j) else Nat.max (P i (S j)) (P (S i) j).
Proof. intros Hx Hy. unfold P. rewrite (take_S_r _ _ _ Hx), (take_S_r _ _ _ Hy), !reverse_snoc. apply lcs_len_cons. Qed.

Lemma P_le i j : (P i j <= i)%nat.
Proof. unfold P. pose proof (lcs_len_le (reverse (take i a)) (reverse (take j b))) as H. rewrite length_reverse, length_take in H. lia. Qed.

Lemma LCS_index i j : (i <= length a)%nat -> (j <= length b)%nat -> LCS b (Z.of_nat i) (Z.of_nat j) = (i * width + j)%nat.
Proof.
  intros Hi Hj. unfold LCS, blen. unfold width in *. assert (Hb : (i * S (length b) + j < S (length a) * S (length b))%nat) by nia.
  assert (Hw : (S (length b) <= S (length a) * S (length b))%nat) by nia.
  rewrite (uwrap_small 32 (Z.of_nat (length b) + 1)) by (unfold urange; lia). rewrite (uwrap_small 32 (Z.of_nat i * _)) by (unfold urange; nia).
  rewrite uwrap_small by (unfold urange; nia). nia.
Qed.

(** The first [k] cells have their values. *)
Record filled (lcs : list Z) (k : nat) : Prop := {
  f_length : length lcs = (S (length a) * width)%nat;
  f_cells i j : (j < width)%nat -> (i * width + j < k)%nat -> lcs !! (i * width + j)%nat = Some (Z.of_nat (P i j))
}.

Lemma cell_ok lcs i j : filled lcs (i * width + j) -> (i <= length a)%nat -> (j <= length b)%nat -> lcs_cell a b lcs (Z.of_nat i) (Z.of_nat j) = Some (Z.of_nat (P i j)).
Proof.
  intros [_ Hf] Hi Hj. unfold lcs_cell. destruct i as [|i]; [by rewrite P_0_l|]. destruct j as [|j]; [rewrite orb_true_r; by rewrite P_0_r|].
  rewrite (proj2 (Z.eqb_neq _ _)), (proj2 (Z.eqb_neq (Z.of_nat (S j)) 0)) by lia. cbn [orb]. unfold char_at.
  replace (Z.of_nat (S i) - 1) with (Z.of_nat i) by lia. replace (Z.of_nat (S j) - 1) with (Z.of_nat j) by lia. rewrite !Nat2Z.id.
  destruct (lookup_lt_is_Some_2 a i) as [x Hx]; [lia|]. destruct (lookup_lt_is_Some_2 b j) as [y Hy]; [lia|]. rewrite Hx, Hy. cbn [mbind option_bind].
  rewrite (P_S i j x y Hx Hy). unfold width in *. destruct (x =? y).
  - rewrite LCS_index by lia. unfold width. rewrite Hf by nia. cbn [mbind option_bind]. f_equal. pose proof (P_le i j). assert (Z.of_nat (length a) < 2 ^ 32) by nia. rewrite uwrap_small by (unfold urange; lia). lia.
  - rewrite !LCS_index by lia. unfold width. rewrite Hf by nia. cbn [mbind option_bind]. rewrite Hf by nia. cbn [mbind option_bind]. f_equal. destruct (_ >? _) eqn:E; lia.
Qed.

(** The next cell. *)
Lemma filled_next lcs i j : filled lcs (i * width + j) -> (i <= length a)%nat -> (j <= length b)%nat ->
  exists lcs', set_lcs lcs (LCS b (Z.of_nat i) (Z.of_nat j)) (Z.of_nat (P i j)) = Some lcs' /\ filled lcs' (i * width + S j).
Proof.
  intros [Hl Hf] Hi Hj. rewrite LCS_index by done. unfold set_lcs. assert (Hk : (i * width + j < length lcs)%nat) by (rewrite Hl; unfold width in *; nia).
  rewrite (proj2 (Nat.ltb_lt _ _)) by done. cbn [guard mbind option_bind]. eexists. split; [done|]. split; [by rewrite length_insert|]. intros i' j' Hj' Hlt.
  destruct (decide (i' * width + j' = i * width + j)%nat) as [E|E]; [|rewrite list_lookup_insert_ne by done; apply Hf; [done|lia]].
  destruct (index_inj width i j i' j') as [-> ->]; [unfold width; lia|done|done|]. by rewrite list_lookup_insert_eq.
Qed.

Lemma fill_columns_ok n : forall j lcs i, filled lcs (i * width + j) -> (i <= length a)%nat -> (j + n = width)%nat ->
  exists lcs', fill_columns a b n (Z.of_nat i) (Z.of_nat j) lcs = Some lcs' /\ filled lcs' (S i * width).
Proof.
  induction n as [|n IH]; intros j lcs i Hf Hi Hj; cbn [fill_columns].
  { exists lcs. split; [done|]. replace (S i * width)%nat with (i * width + j)%nat by lia. done. }
  unfold width in Hj. rewrite (cell_ok lcs i j Hf Hi) by lia. cbn [mbind option_bind]. destruct (filled_next lcs i j Hf Hi ltac:(lia)) as (lcs1 & -> & Hf1). cbn [mbind option_bind].
  replace (Z.of_nat j + 1) with (Z.of_nat (S j)) by lia. apply IH; [done|done|unfold width; lia].
Qed.

Lemma fill_rows_ok n : forall i lcs, filled lcs (i * width) -> (i + n = S (length a))%nat -> exists lcs', fill_rows a b n (Z.of_nat i) lcs = Some lcs' /\ filled lcs' (S (length a) * width).
Proof.
  induction n as [|n IH]; intros i lcs Hf Hi; cbn [fill_rows]; [exists lcs; split; [done|]; by replace (S (length a)) with i by lia|].
  replace (Z.to_nat (blen b + 1)) with width by (unfold width, blen; lia). destruct (fill_columns_ok width 0 lcs i) as (lcs1 & Hr & Hf1); [by rewrite Nat.add_0_r|lia|done|].
  change (Z.of_nat 0) with 0 in Hr. rewrite Hr. cbn [mbind option_bind]. replace (Z.of_nat i + 1) with (Z.of_nat (S i)) by lia. apply IH; [done|lia].
Qed.

Lemma fill_table_ok t : length t = (S (length a) * width)%nat -> exists lcs, fill_table a b t = Some lcs /\ filled lcs (S (length a) * width).
Proof.
  intros Ht. unfold fill_table. replace (Z.to_nat (alen a + 1)) with (S (length a)) by (unfold alen; lia). apply (fill_rows_ok (S (length a)) 0); [|lia]. split; [done|]. intros i j _ Hlt. cbn in Hlt. lia.
Qed.

Lemma table_get lcs i j : filled lcs (S (length a) * width) -> (i <= length a)%nat -> (j <= length b)%nat -> lcs !! LCS b (Z.of_nat i) (Z.of_nat j) = Some (Z.of_nat (P i j)).
Proof. intros [_ Hf] Hi Hj. rewrite LCS_index by done. apply Hf; unfold width; nia. Qed.

(** * The way back *)

Definition subtext (s : bytes) (first last : Z) : bytes := take (Z.to_nat (last - first + 1)) (drop (Z.to_nat first) s).

(** A range in both strings, with the same characters. *)
Record range_ok (r : match_range) : Prop := {
  ra : 0 <= r_astart r <= r_aend r /\ r_aend r < alen a;
  rb : 0 <= r_bstart r <= r_bend r /\ r_bend r < blen b;
  rl : r_len r = r_aend r - r_astart r + 1 /\ r_len r = r_bend r - r_bstart r + 1;
  rs : subtext a (r_astart r) (r_aend r) = subtext b (r_bstart r) (r_bend r)
}.

Definition long_enough (minmatchlen : Z) (r : match_range) : bool := (minmatchlen =? 0) || (r_len r >=? minmatchlen).

(** The characters of the ranges, which are emitted from the last one to the first. *)
Definition ranges_text (rs : list match_range) : bytes := concat (map (fun r => subtext a (r_astart r) (r_aend r)) (reverse rs)).

(** The range in the variables of the loop. *)
Definition in_vars (st : back) (r : match_range) : Prop := arange_start st = r_astart r /\ arange_end st = r_aend r /\ brange_start st = r_bstart r /\ brange_end st = r_bend r.

(** The range that is being extended starts where the next step looks. *)
Definition current (st : back) (i j : nat) (cur : bytes) : Prop :=
  (cur = [] /\ arange_start st = alen a) \/
  (exists r, cur = subtext a (r_astart r) (r_aend r) /\ range_ok r /\ in_vars st r /\ r_astart r = Z.of_nat i /\ r_bstart r = Z.of_nat j /\ (0 < i)%nat /\ (0 < j)%nat).

(** Where the loop is: [suf] is the text found so far, [all] the ranges that are complete. *)
Record back_at (minmatchlen : Z) (st : back) (i j : nat) (suf : bytes) (all : list match_range) : Prop := {
  k_i : bi st = Z.of_nat i /\ (i <= length a)%nat;
  k_j : bj st = Z.of_nat j /\ (j <= length b)%nat;
  k_idx : idx st = Z.of_nat (P i j);
  k_result : exists pre, result st = pre ++ suf /\ length pre = P i j;
  k_a : suf `sublist_of` drop i a;
  k_b : suf `sublist_of` drop j b;
  k_all : Forall range_ok all;
  k_out : emitted st = filter (fun r => long_enough minmatchlen r = true) all
}.

Definition back_ok (minmatchlen : Z) (st : back) (i j : nat) (suf : bytes) (all : list match_range) : Prop :=
  back_at minmatchlen st i j suf all /\ exists cur, current st i j cur /\ suf = cur ++ ranges_text all.

Lemma slice_cons (s : bytes) i last x : s !! i = Some x -> Z.of_nat i < last -> subtext s (Z.of_nat i) last = x :: subtext s (Z.of_nat (S i)) last.
Proof.
  intros Hx Hl. unfold subtext. rewrite !Nat2Z.id, (drop_S _ _ _ Hx). replace (Z.to_nat (last - Z.of_nat i + 1)) with (S (Z.to_nat (last - Z.of_nat (S i) + 1))) by lia. done.
Qed.

Lemma slice_one (s : bytes) i x : s !! i = Some x -> subtext s (Z.of_nat i) (Z.of_nat i) = [x].
Proof. intros Hx. unfold subtext. rewrite Nat2Z.id, (drop_S _ _ _ Hx). replace (Z.to_nat _) with 1%nat by lia. done. Qed.

Lemma ranges_text_snoc rs r : ranges_text (rs ++ [r]) = subtext a (r_astart r) (r_aend r) ++ ranges_text rs.
Proof. unfold ranges_text. by rewrite reverse_snoc. Qed.

Lemma size_a : Z.of_nat (length a) < 2 ^ 32 /\ Z.of_nat (length b) < 2 ^ 32.
Proof. unfold width in Hsize. nia. Qed.

(** A complete range is emitted. *)
Lemma emit_ok m st i j suf all r : back_at m st i j suf all -> in_vars st r -> range_ok r -> suf = subtext a (r_astart r) (r_aend r) ++ ranges_text all ->
  back_ok m (emit a m st true) i j suf (all ++ [r]).
Proof.
  intros [Hi Hj Hidx Hres Ha Hb Hall Hout] (E1 & E2 & E3 & E4) Hr Hs. pose proof size_a as [Hsa _]. pose proof (ra _ Hr) as Hra. pose proof (rl _ Hr) as Hrl.
  assert (Hlen : u32 (arange_end st - arange_start st + 1) = r_len r) by (rewrite E1, E2, uwrap_small by (unfold urange, alen in *; lia); lia).
  assert (Hmk : mkRange (arange_start st) (arange_end st) (brange_start st) (brange_end st) (r_len r) = r) by (rewrite E1, E2, E3, E4; by destruct r).
  unfold emit. rewrite Hlen, Hmk. split; [|exists []; split; [by left|by rewrite ranges_text_snoc]]. split; try done; [apply Forall_app; split; [done|]; by apply Forall_singleton|].
  cbn [emitted]. rewrite filter_app, <- Hout. unfold long_enough at 1. destruct ((m =? 0) || (r_len r >=? m)) eqn:E.
  - rewrite filter_cons_True by done. done.
  - rewrite filter_cons_False by (by rewrite E). by rewrite app_nil_r.
Qed.

(** The range that the loop has extended is emitted, or stays the current one. *)
Lemma settle m st i j suf all r (e : bool) : back_at m st i j suf all -> in_vars st r -> range_ok r -> suf = subtext a (r_astart r) (r_aend r) ++ ranges_text all ->
  r_astart r = Z.of_nat i -> r_bstart r = Z.of_nat j -> e = true \/ (0 < i)%nat /\ (0 < j)%nat -> exists all', back_ok m (emit a m st e) i j suf all'.
Proof.
  intros Hat Hv Hr Hs Hi Hj He. destruct e; [eexists; by eapply emit_ok|]. exists all. destruct He as [|[He1 He2]]; [done|]. split; [done|]. eexists. split; [right; exists r; by split_and!|done].
Qed.

(** A match of two characters. *)
Lemma match_ok m st i j suf all x : back_ok m st (S i) (S j) suf all -> a !! i = Some x -> b !! j = Some x ->
  exists st' e all', match_step a st x = Some (st', e) /\ back_ok m (emit a m st' e) i j (x :: suf) all'.
Proof.
  intros [[[Hi Hil] [Hj Hjl] Hidx (pre & Hres & Hpre) Ha Hb Hall Hout] (cur & Hcur & Hs)] Hx Hy. pose proof size_a as [Hsa Hsb].
  rewrite (P_S i j x x Hx Hy), Z.eqb_refl in Hidx, Hpre. unfold match_step. rewrite Hidx, Hres. replace (Z.to_nat (Z.of_nat (S (P i j)) - 1)) with (P i j) by lia.
  destruct (exists_last (l := pre)) as (pre' & z & ->); [by intros ->|]. rewrite length_app in Hpre. cbn [length] in Hpre. rewrite <- app_assoc.
  rewrite (store_app pre' [z] suf) by (cbn [length]; lia). cbn [mbind option_bind]. rewrite Hi, Hj.
  assert (Hat : forall s t u v, back_at m (mkBack (Z.of_nat (S i) - 1) (Z.of_nat (S j) - 1) (Z.of_nat (S (P i j)) - 1) (pre' ++ [x] ++ suf) s t u v (emitted st)) i j (x :: suf) all).
  { intros s t u v. split; cbn [bi bj idx result emitted]; [lia|lia|lia|exists pre'; split; [done|lia]| | |done|done]; [rewrite (drop_S _ _ _ Hx)|rewrite (drop_S _ _ _ Hy)]; by apply sublist_skip. }
  assert (Hgo : forall r, range_ok r -> r_astart r = Z.of_nat i -> r_bstart r = Z.of_nat j -> x :: suf = subtext a (r_astart r) (r_aend r) ++ ranges_text all ->
    exists st' e all', Some (mkBack (Z.of_nat (S i) - 1) (Z.of_nat (S j) - 1) (Z.of_nat (S (P i j)) - 1) (pre' ++ [x] ++ suf) (r_astart r) (r_aend r) (r_bstart r) (r_bend r) (emitted st), (r_astart r =? 0) || (r_bstart r =? 0)) = Some (st', e) /\ back_ok m (emit a m st' e) i j (x :: suf) all').
  { intros r Hr Hra Hrb Ht. destruct (settle m _ i j (x :: suf) all r ((r_astart r =? 0) || (r_bstart r =? 0)) (Hat (r_astart r) (r_aend r) (r_bstart r) (r_bend r)) ltac:(by split_and!) Hr Ht Hra Hrb) as [all' Hok];
      [|eexists _, _, all'; split; [done|exact Hok]].
    destruct (Z.eqb_spec (r_astart r) 0); [by left|]. destruct (Z.eqb_spec (r_bstart r) 0); [by left|]. right. lia. }
  destruct Hcur as [[-> Hun]|(r & -> & Hr & (E1 & E2 & E3 & E4) & Hri & Hrj & _)].
  - rewrite Hun, Z.eqb_refl. cbn [orb]. apply (Hgo (mkRange (Z.of_nat (S i) - 1) (Z.of_nat (S i) - 1) (Z.of_nat (S j) - 1) (Z.of_nat (S j) - 1) 1)); cbn [r_astart r_aend r_bstart r_bend]; [|lia|lia|].
    + replace (Z.of_nat (S i) - 1) with (Z.of_nat i) by lia. replace (Z.of_nat (S j) - 1) with (Z.of_nat j) by lia.
      split; cbn [r_astart r_aend r_bstart r_bend r_len]; unfold alen, blen; [lia|lia|lia|]. by rewrite (slice_one a i x Hx), (slice_one b j x Hy).
    + replace (Z.of_nat (S i) - 1) with (Z.of_nat i) by lia. rewrite (slice_one a i x Hx), Hs. done.
  - pose proof (ra _ Hr) as Hra. pose proof (rb _ Hr) as Hrb. pose proof (rl _ Hr) as Hrl. pose proof (rs _ Hr) as Hrs. unfold alen, blen in Hra, Hrb. rewrite E1, E2, E3, E4, Hri, Hrj.
    rewrite (proj2 (Z.eqb_neq _ _)) by (unfold alen; lia). rewrite !Z.eqb_refl. cbn [andb orb]. rewrite !(uwrap_small 32) by (unfold urange; lia).
    apply (Hgo (mkRange (Z.of_nat (S i) - 1) (r_aend r) (Z.of_nat (S j) - 1) (r_bend r) (r_len r + 1))); cbn [r_astart r_aend r_bstart r_bend]; [|lia|lia|].
    + replace (Z.of_nat (S i) - 1) with (Z.of_nat i) by lia. replace (Z.of_nat (S j) - 1) with (Z.of_nat j) by lia.
      split; cbn [r_astart r_aend r_bstart r_bend r_len]; unfold alen, blen; [lia|lia|lia|]. rewrite (slice_cons a i _ x Hx), (slice_cons b j _ x Hy) by lia. f_equal. by rewrite <- Hri, <- Hrj.
    + replace (Z.of_nat (S i) - 1) with (Z.of_nat i) by lia. rewrite (slice_cons a i _ x Hx) by lia. rewrite <- Hri, Hs. done.
Qed.

(** A step without a match. *)
Lemma skip_ok m lcs st i j suf all x y : filled lcs (S (length a) * width) -> back_ok m st (S i) (S j) suf all -> a !! i = Some x -> b !! j = Some y -> x <> y ->
  exists st' e i' j' all', skip_step a b lcs st = Some (st', e) /\ back_ok m (emit a m st' e) i' j' suf all' /\ (i' + j' = S (i + j))%nat /\ P i' j' = P (S i) (S j).
Proof.
  intros Hf [[[Hi Hil] [Hj Hjl] Hidx Hres Ha Hb Hall Hout] (cur & Hcur & Hs)] Hx Hy Hne. unfold skip_step. rewrite Hi, Hj.
  replace (Z.of_nat (S i) - 1) with (Z.of_nat i) by lia. replace (Z.of_nat (S j) - 1) with (Z.of_nat j) by lia. rewrite !(table_get lcs) by (done || lia). cbn [mbind option_bind].
  pose proof (P_S i j x y Hx Hy) as HP. rewrite (proj2 (Z.eqb_neq x y)) in HP by done.
  set (lt := _ >? _). assert (Hstep : exists i' j', (if lt then (Z.of_nat i, Z.of_nat (S j)) else (Z.of_nat (S i), Z.of_nat j)) = (Z.of_nat i', Z.of_nat j') /\ (i' + j' = S (i + j))%nat /\
    (i' <= length a)%nat /\ (j' <= length b)%nat /\ P i' j' = P (S i) (S j) /\ suf `sublist_of` drop i' a /\ suf `sublist_of` drop j' b).
  { unfold lt. destruct (_ >? _) eqn:E; [exists i, (S j)|exists (S i), j]; split_and!; try done; try lia.
    - rewrite (drop_S _ _ _ Hx). by apply sublist_cons.
    - rewrite (drop_S _ _ _ Hy). by apply sublist_cons. }
  destruct Hstep as (i' & j' & -> & Hsum & Hi' & Hj' & HP' & Ha' & Hb').
  eexists _, _, i', j'. set (st' := mkBack _ _ _ _ _ _ _ _ _). assert (Hat : back_at m st' i' j' suf all) by (split; cbn [bi bj idx result emitted st']; rewrite ?HP'; done).
  destruct Hcur as [[-> Hun]|(r & -> & Hr & Hv & Hri & Hrj & _)].
  - exists all. split_and!; [done| |done|done]. rewrite (proj2 (Z.eqb_eq (arange_start st) (alen a)) Hun). cbn [negb]. split; [exact Hat|]. exists []. split; [left; by split|done].
  - exists (all ++ [r]). split_and!; [done| |done|done]. pose proof (ra _ Hr) as Hra. destruct Hv as (E1 & E2 & E3 & E4). rewrite (proj2 (Z.eqb_neq (arange_start st) _)) by lia. cbn [negb]. by apply emit_ok.
Qed.

Definition finished (m : Z) (st : back) (i j : nat) (suf : bytes) (r : option back) : Prop :=
  exists st' all' rest, r = Some st' /\ result st' = rest ++ suf /\ length rest = P i j /\ (rest ++ suf) `sublist_of` a /\ (rest ++ suf) `sublist_of` b /\
    Forall range_ok all' /\ rest ++ suf = ranges_text all' /\ emitted st' = filter (fun r => long_enough m r = true) all'.

(** At the start of one of the strings every range is complete. *)
Lemma back_end m st i j suf all (k : option back) : back_ok m st i j suf all -> ~ (0 < i /\ 0 < j)%nat -> finished m st i j suf (if (bi st >? 0) && (bj st >? 0) then k else Some st).
Proof.
  intros [[[Hi _] [Hj _] _ (pre & Hres & Hpre) Ha Hb Hall Hout] (cur & Hcur & Hs)] Hend. replace ((bi st >? 0) && (bj st >? 0)) with false by (rewrite Hi, Hj; destruct i, j; try done; lia).
  destruct Hcur as [[-> _]|(r & _ & _ & _ & _ & _ & Hpos)]; [|lia]. assert (HP : P i j = O) by (destruct i; [apply P_0_l|destruct j; [apply P_0_r|lia]]). rewrite HP in Hpre. destruct pre; [|done].
  exists st, all, []. split_and!; try done; [transitivity (drop i a); [done|apply sublist_drop]|transitivity (drop j b); [done|apply sublist_drop]].
Qed.

(** The loop ends with the whole subsequence. *)
Lemma go_back_ok m lcs fuel : forall st i j suf all, filled lcs (S (length a) * width) -> back_ok m st i j suf all -> (i + j <= fuel)%nat ->
  finished m st i j suf (go_back a b fuel lcs m st).
Proof.
  induction fuel as [|fuel IH]; intros st i j suf all Hf Hst Hl; pose proof Hst as [Hat (cur & Hcur & Hs)]; pose proof (proj1 (k_i _ _ _ _ _ _ Hat)) as Hi; pose proof (proj1 (k_j _ _ _ _ _ _ Hat)) as Hj; cbn [go_back]; rewrite Hi, Hj.
  all: destruct (decide (0 < i /\ 0 < j)%nat) as [[Hi0 Hj0]|Hend]; [|rewrite <- Hi, <- Hj; by eapply back_end].
  - lia.
  - rewrite (proj2 (Z.gtb_lt _ _)), (proj2 (Z.gtb_lt (Z.of_nat j) 0)) by lia. cbn [andb]. destruct i as [|i], j as [|j]; [lia..|].
    pose proof (proj2 (k_i _ _ _ _ _ _ Hat)) as Hil. pose proof (proj2 (k_j _ _ _ _ _ _ Hat)) as Hjl. unfold char_at. replace (Z.of_nat (S i) - 1) with (Z.of_nat i) by lia. replace (Z.of_nat (S j) - 1) with (Z.of_nat j) by lia.
    rewrite !Nat2Z.id. destruct (lookup_lt_is_Some_2 a i) as [x Hx]; [lia|]. destruct (lookup_lt_is_Some_2 b j) as [y Hy]; [lia|]. rewrite Hx, Hy. cbn [mbind option_bind]. destruct (Z.eqb_spec x y) as [<-|Hne].
    + destruct (match_ok m st i j suf all x Hst Hx Hy) as (st1 & e & all1 & -> & Hst1). cbn [mbind option_bind]. destruct (IH _ i j (x :: suf) all1 Hf Hst1 ltac:(lia)) as (st' & all' & rest & Hgo & H1 & H2 & H3 & H4 & H5 & H6 & H7).
      exists st', all', (rest ++ [x]). rewrite <- !app_assoc, length_app, (P_S i j x x Hx Hy), Z.eqb_refl. cbn [app length]. split_and!; (done || lia).
    + destruct (skip_ok m lcs st i j suf all x y Hf Hst Hx Hy Hne) as (st1 & e & i' & j' & all1 & -> & Hst1 & Hsum & HP). cbn [mbind option_bind].
      destruct (IH _ i' j' suf all1 Hf Hst1 ltac:(lia)) as (st' & all' & rest & Hgo & H1 & H2 & H3). exists st', all', rest. split; [done|]. split; [done|]. split; [lia|done].
Qed.

Lemma sublist_rev (l s : bytes) : l `sublist_of` s -> reverse l `sublist_of` reverse s.
Proof.
  induction 1 as [|x l1 l2 _ IH|x l1 l2 _ IH]; [done| |]; rewrite ?reverse_cons.
  - by apply sublist_app.
  - rewrite <- (app_nil_r (reverse l1)). apply sublist_app; [done|apply sublist_nil_l].
Qed.

Lemma P_max l : l `sublist_of` a -> l `sublist_of` b -> (length l <= P (length a) (length b))%nat.
Proof.
  intros Ha Hb. unfold P. rewrite !take_ge by lia. rewrite <- (length_reverse l). by apply lcs_len_max; apply sublist_rev.
Qed.

Lemma lcs_ok minmatchlen : exists r all,
  lcs_compute a b true minmatchlen = Some (Z.of_nat (length r), r, filter (fun g => long_enough minmatchlen g = true) all) /\
  lcs_compute a b false minmatchlen = Some (Z.of_nat (length r), [], []) /\
  r `sublist_of` a /\ r `sublist_of` b /\ (forall l, l `sublist_of` a -> l `sublist_of` b -> (length l <= length r)%nat) /\
  Forall range_ok all /\ r = ranges_text all.
Proof.
  unfold lcs_compute. destruct (fill_table_ok (junk (Z.to_nat ((alen a + 1) * (blen b + 1))))) as (lcs & -> & Hf); [rewrite junk_length; unfold alen, blen, width; nia|].
  cbn [mbind option_bind]. pose proof (table_get lcs (length a) (length b) Hf ltac:(lia) ltac:(lia)) as Hlast. unfold alen, blen. rewrite Hlast. cbn [mbind option_bind].
  set (n := P (length a) (length b)). destruct (go_back_ok minmatchlen lcs (length a + length b) (start_back a b (Z.of_nat n) (junk (Z.to_nat (Z.of_nat n)))) (length a) (length b) [] [] Hf) as (st & all & r & -> & Hres & Hlen & Ha & Hb & Hall & Ht & Hout).
  - split; [|exists []; split; [by left|done]]. split; cbn [start_back bi bj idx result emitted]; [by split|by split|done| |apply sublist_nil_l|apply sublist_nil_l|constructor|done].
    eexists. split; [by rewrite app_nil_r|]. by rewrite junk_length, Nat2Z.id.
  - lia.
  - rewrite app_nil_r in *. cbn [mbind option_bind]. exists r, all. rewrite Hres, Hout, Hlen. split_and!; try done. intros l Hla Hlb. pose proof (P_max l Hla Hlb). lia.
Qed.

(** C28. The command LCS computes a longest common subsequence: the string [r] it replies is a subsequence of both strings,
    its length is the number that LEN gives, and no common subsequence is longer.  The ranges of IDX are those, among
    ranges [all] of equal text in both strings that put together are [r], whose length is at least MINMATCHLEN.  The
    table is filled and read within its bounds and the loops end.  The number of cells has to fit in 32 bits, as the index
    of a cell does. *)
Theorem lcs_exact minmatchlen : exists r all,
  lcs_compute a b true minmatchlen = Some (Z.of_nat (length r), r, filter (fun g => long_enough minmatchlen g = true) all) /\
  lcs_compute a b false minmatchlen = Some (Z.of_nat (length r), [], []) /\
  r `sublist_of` a /\ r `sublist_of` b /\ (forall l, l `sublist_of` a -> l `sublist_of` b -> (length l <= length r)%nat) /\
  Forall range_ok all /\ r = ranges_text all.
Proof. apply lcs_ok. Qed.

End Table.

(** * Concrete instances *)

Module Sample.

#[local] Instance exact_alloc : Allocator := {
  usable n := n; junk n := replicate n 85; usable_ge n := le_n n; junk_length n := length_replicate n 85
}.

(** "ohmytext" and "mynewtext", the example of the documentation of LCS: "mytext", in the ranges 4-7, 5-8 and 2-3, 0-1. *)
Definition text_a : bytes := [111; 104; 109; 121; 116; 101; 120; 116].
Definition text_b : bytes := [109; 121; 110; 101; 119; 116; 101; 120; 116].

Lemma lcs_sample : lcs_compute text_a text_b true 0 = Some (6, [109; 121; 116; 101; 120; 116], [mkRange 4 7 5 8 4; mkRange 2 3 0 1 2]) /\
  lcs_compute text_a text_b true 4 = Some (6, [109; 121; 116; 101; 120; 116], [mkRange 4 7 5 8 4]).
Proof. by vm_compute. Qed.

Lemma lcs_exact_witness : exists r all, lcs_compute text_a text_b true 4 = Some (Z.of_nat (length r), r, filter (fun g => long_enough 4 g = true) all) /\
  r `sublist_of` text_a /\ r `sublist_of` text_b /\ (forall l, l `sublist_of` text_a -> l `sublist_of` text_b -> (length l <= length r)%nat).
Proof.
  destruct (lcs_exact text_a text_b ltac:(by vm_compute) 4) as (r & all & H1 & _ & H3 & H4 & H5 & _). exists r, all. split; [exact H1|]. split; [exact H3|]. split; [exact H4|exact H5].
Defined.

(** With 2^16 columns, the first cell of row 2^16 has the index of the first cell of the table: the index is computed
    with 32 bits. *)
Lemma lcs_index_wraps b : Z.of_nat (length b) = 2 ^ 16 - 1 -> LCS b (2 ^ 16) 0 = LCS b 0 0.
Proof. intros Hb. unfold LCS, blen. by rewrite Hb. Qed.

End Sample.
End LcsSpec.
