(* ===== verification/Db.v ===== *)
(** The keys of a database and the times when they expire (db.c), for the commands of t_string.c, expire.c and db.c.

    [entries] is [db->keys]: a key has an object, with the time when it expires in milliseconds, -1 if it does not.
    [expires] has the keys of [db->expires], which refers to the same objects.  [sdirty] is [server.dirty].  Both
    dictionaries are key-value stores (Kvstore.v); here they are finite maps, which they refine (KvstoreSpec.v).
    The server is a master that is neither loading nor pausing expiration, so a lookup deletes an entry whose time has
    passed.  [now] is [commandTimeSnapshot()].  Notifications, statistics, propagation and the histogram of key sizes
    are left out.  [None] stands for a failed assertion. *)

From S2P Require Import Prelude.

Module Db.

(** An object: a string in one of its two encodings (an sds string is given by its contents), or something else. *)
Inductive strobj := RawStr (s : bytes) | IntStr (value : Z) | NotStr (id : Z).

Record kventry := mkEntry { e_obj : strobj; e_expire : Z }.
Record keydb := mkKeyDb { entries : gmap bytes kventry; expires : gset bytes; sdirty : Z }.

Definition sdirty_add (db : keydb) (n : Z) : keydb := mkKeyDb (entries db) (expires db) (sdirty db + n).

(** [kvobjSetExpire] and the entry of the main dictionary. *)
Definition putEntry (db : keydb) (key : bytes) (e : kventry) : keydb := mkKeyDb (<[key := e]> (entries db)) (expires db) (sdirty db).
Definition addExpires (db : keydb) (key : bytes) : keydb := mkKeyDb (entries db) ({[key]} ∪ expires db) (sdirty db).
Definition dropExpires (db : keydb) (key : bytes) : keydb := mkKeyDb (entries db) (expires db ∖ {[key]}) (sdirty db).

(** Whether there was such a key. *)
Definition dbGenericDelete (db : keydb) (key : bytes) : keydb * bool :=
  match entries db !! key with
  | Some kv =>
    let db := if negb (e_expire kv =? -1) then dropExpires db key else db in
    (mkKeyDb (delete key (entries db)) (expires db) (sdirty db), true)
  | None => (db, false)
  end.

(** [setExpireByLink] *)
Definition setExpire (db : keydb) (key : bytes) (when : Z) : option keydb :=
  kv ← entries db !! key;
  let old_when := e_expire kv in
  let db := putEntry db key (mkEntry (e_obj kv) when) in
  if negb (old_when =? -1) then Some db
  else _ ← guard (bool_decide (key ∉ expires db)); Some (addExpires db key).

(** Whether the key had a time. *)
Definition removeExpire (db : keydb) (key : bytes) : option (keydb * bool) :=
  if bool_decide (key ∈ expires db) then
    kv ← entries db !! key;
    Some (dropExpires (putEntry db key (mkEntry (e_obj kv) (-1))) key, true)
  else Some (db, false).

(** [dbAdd] is [dbAddInternal] without a time. *)
Definition dbAddInternal (db : keydb) (key : bytes) (val : strobj) (expire : Z) : option keydb :=
  let db := putEntry db key (mkEntry val (-1)) in
  if negb (expire =? -1) then setExpire db key expire else Some db.

(** A new value for a key that exists. *)
Definition dbSetValue (db : keydb) (key : bytes) (val : strobj) (keepTTL : bool) : option keydb :=
  old ← entries db !! key;
  let expire := e_expire old in
  if expire >=? 0 then
    if keepTTL then _ ← guard (bool_decide (key ∈ expires db)); Some (putEntry db key (mkEntry val expire))
    else Some (dropExpires (putEntry db key (mkEntry val (-1))) key)
  else Some (putEntry db key (mkEntry val (-1))).

Section Time.
Context (now : Z).

Definition keyIsExpired (kv : kventry) : bool :=
  let when := e_expire kv in
  if when <? 0 then false else now >? when.

(** [expireIfNeeded]; whether the key is deleted. *)
Definition expireIfNeeded (db : keydb) (key : bytes) (kv : kventry) : keydb * bool :=
  if negb (keyIsExpired kv) then (db, false) else ((dbGenericDelete db key).1, true).

Definition lookupKey (db : keydb) (key : bytes) : keydb * option kventry :=
  match entries db !! key with
  | Some val => let '(db, deleted) := expireIfNeeded db key val in (db, if (deleted : bool) then None else Some val)
  | None => (db, None)
  end.

(** [setKeyByLink] once it is known whether the key exists. *)
Definition setKeyByLink (db : keydb) (key : bytes) (val : strobj) (keepTTL exists_ : bool) : option keydb :=
  if exists_ then dbSetValue db key val keepTTL else dbAddInternal db key val (-1).

Definition setKey (db : keydb) (key : bytes) (val : strobj) : option keydb :=
  let '(db, old) := lookupKey db key in
  setKeyByLink db key val false (match old with Some _ => true | None => false end).

(** [checkAlreadyExpired] on a master. *)
Definition checkAlreadyExpired (when : Z) : bool := when <=? now.

End Time.
End Db.
