(* ===== verification/StrCmd.v ===== *)
(** The string commands of t_string.c, on the database of Db.v.

    An sds string is given by its contents (the updates of sds strings are the subject of Sds.v and SdsSpec.v).
    [now] is [commandTimeSnapshot()], [obey] is [mustObeyClient(c)] and [max_bulk] is
    [server.proto_max_bulk_len].  Notifications, propagation and the histogram of key sizes are left out. *)

From S2P Require Import Prelude Util Sds SdsSpec BitfieldCmd Lcs Db.

Module StrCmd.
Import Util Db.

Inductive str_error := StrWrongType | NotInteger | InvalidExpire | StrSyntax | StringTooLong | OffsetRange | ArityError | IncrOverflow | DecrOverflow
  | LcsNotStrings | LcsLenAndIdx | LcsTooLong | LcsMemory | UnsupportedOption | NxIncompatible | GtLtIncompatible | NoSuchKey.

Inductive str_reply := ROk | RNull | RBulk (s : bytes) | RNum (n : Z) | RBulks (l : list (option bytes)) | RMatches (l : list Lcs.match_range) (len : Z) (withmatchlen : bool) | RError (e : str_error).

(** * String objects *)

(** [tryObjectEncoding] of an argument. *)
Definition tryObjectEncoding (s : bytes) : strobj :=
  if (Z.of_nat (length s) <=? 20) then match string2l s with Some value => IntStr value | None => RawStr s end else RawStr s.

Section Strings.
Context {A : Allocator}.

(** The contents of a string object; [strlen] of the buffer. *)
Definition getDecodedObject (o : strobj) : option bytes :=
  match o with
  | RawStr s => Some s
  | IntStr value => '(buf, _) ← ll2string (junk 32) 32 value; Some (SdsSpec.c_string buf)
  | NotStr _ => None
  end.

(** The bytes of a bulk reply; the end of line is written after the digits of an integer. *)
Definition addReplyBulk (o : strobj) : option bytes :=
  match o with
  | RawStr s => Some s
  | IntStr value =>
    '(buf, len) ← ll2string (junk 34) 34 value;
    buf ← put buf len 13;
    buf ← put buf (len + 1) 10;
    Some (take (Z.to_nat len) buf)
  | NotStr _ => None
  end.

Definition stringObjectLen (o : strobj) : option Z :=
  match o with RawStr s => Some (Z.of_nat (length s)) | IntStr value => Some (sdigits10 value) | NotStr _ => None end.

(** [inl] when the string is not an integer; NULL is 0. *)
Definition getLongLongFromObject (o : option strobj) : option (str_error + Z) :=
  match o with
  | None => Some (inr 0)
  | Some (RawStr s) => Some (match string2ll s with Some value => inr value | None => inl NotInteger end)
  | Some (IntStr value) => Some (inr value)
  | Some (NotStr _) => None
  end.

(** An argument of a command. *)
Definition getLongLongArg (s : bytes) : str_error + Z := match string2ll s with Some value => inr value | None => inl NotInteger end.

Context (now : Z) (obey : bool) (max_bulk : Z).

Definition checkStringLength (size append : Z) : bool :=
  if obey then true
  else
    let total := s64 (u64 (u64 size + append)) in
    negb ((total >? max_bulk) || (total <? size) || (total <? append)).

Definition checkType (e : option kventry) : bool := match e with Some e => match e_obj e with NotStr _ => true | _ => false end | None => false end.

(** * GET and SET *)

Definition OBJ_SET_NX : Z := Z.shiftl 1 0.
Definition OBJ_SET_XX : Z := Z.shiftl 1 1.
Definition OBJ_EX : Z := Z.shiftl 1 2.
Definition OBJ_PX : Z := Z.shiftl 1 3.
Definition OBJ_KEEPTTL : Z := Z.shiftl 1 4.
Definition OBJ_SET_GET : Z := Z.shiftl 1 5.
Definition OBJ_EXAT : Z := Z.shiftl 1 6.
Definition OBJ_PXAT : Z := Z.shiftl 1 7.
Definition OBJ_PERSIST : Z := Z.shiftl 1 8.

Definition has (flags f : Z) : bool := negb (Z.land flags f =? 0).

Inductive time_unit := UNIT_SECONDS | UNIT_MILLISECONDS.
Inductive command_type := COMMAND_GET | COMMAND_SET.

(** The database, the reply and C_OK. *)
Definition getGenericCommand (db : keydb) (key : bytes) : option (keydb * str_reply * bool) :=
  let '(db, o) := lookupKey now db key in
  match o with
  | None => Some (db, RNull, true)
  | Some e => if checkType o then Some (db, RError StrWrongType, false) else s ← addReplyBulk (e_obj e); Some (db, RBulk s, true)
  end.

Definition getCommand (db : keydb) (key : bytes) : option (keydb * str_reply) := '(db, r, _) ← getGenericCommand db key; Some (db, r).

Definition getExpireMilliseconds (expire : bytes) (flags : Z) (unit : time_unit) : str_error + Z :=
  match getLongLongArg expire with
  | inl e => inl e
  | inr ms =>
    if (ms <=? 0) || match unit with UNIT_SECONDS => ms >? Z.quot LLONG_MAX 1000 | UNIT_MILLISECONDS => false end then inl InvalidExpire
    else
      let ms := match unit with UNIT_SECONDS => s64 (ms * 1000) | UNIT_MILLISECONDS => ms end in
      let ms := if has flags OBJ_PX || has flags OBJ_EX then s64 (ms + now) else ms in
      if ms <=? 0 then inl InvalidExpire else inr ms
  end.

Definition name_nx : bytes := [110; 120].
Definition name_xx : bytes := [120; 120].
Definition name_getopt : bytes := [103; 101; 116].
Definition name_keepttl : bytes := [107; 101; 101; 112; 116; 116; 108].
Definition name_persist : bytes := [112; 101; 114; 115; 105; 115; 116].
Definition name_ex : bytes := [101; 120].
Definition name_px : bytes := [112; 120].
Definition name_exat : bytes := [101; 120; 97; 116].
Definition name_pxat : bytes := [112; 120; 97; 116].

(** None of the flags. *)
Definition free_of (flags : Z) (l : list Z) : bool := forallb (fun f => negb (has flags f)) l.

Definition is_set (ct : command_type) : bool := match ct with COMMAND_SET => true | COMMAND_GET => false end.

(** [flags], [unit] and [expire], or a syntax error. *)
Fixpoint parseExtendedStringArguments (ct : command_type) (args : list bytes) (flags : Z) (unit : time_unit) (expire : option bytes) : option (Z * time_unit * option bytes) :=
  match args with
  | [] => Some (flags, unit, expire)
  | opt :: args =>
    let opt_is name := BitfieldCmd.strcaseeq opt name in
    if opt_is name_nx && free_of flags [OBJ_SET_XX] && is_set ct then parseExtendedStringArguments ct args (Z.lor flags OBJ_SET_NX) unit expire
    else if opt_is name_xx && free_of flags [OBJ_SET_NX] && is_set ct then parseExtendedStringArguments ct args (Z.lor flags OBJ_SET_XX) unit expire
    else if opt_is name_getopt && is_set ct then parseExtendedStringArguments ct args (Z.lor flags OBJ_SET_GET) unit expire
    else if opt_is name_keepttl && free_of flags [OBJ_PERSIST; OBJ_EX; OBJ_EXAT; OBJ_PX; OBJ_PXAT] && is_set ct then parseExtendedStringArguments ct args (Z.lor flags OBJ_KEEPTTL) unit expire
    else if opt_is name_persist && negb (is_set ct) && free_of flags [OBJ_EX; OBJ_EXAT; OBJ_PX; OBJ_PXAT; OBJ_KEEPTTL] then parseExtendedStringArguments ct args (Z.lor flags OBJ_PERSIST) unit expire
    else
      match args with
      | [] => None
      | next :: args =>
        if opt_is name_ex && free_of flags [OBJ_KEEPTTL; OBJ_PERSIST; OBJ_EXAT; OBJ_PX; OBJ_PXAT] then parseExtendedStringArguments ct args (Z.lor flags OBJ_EX) unit (Some next)
        else if opt_is name_px && free_of flags [OBJ_KEEPTTL; OBJ_PERSIST; OBJ_EX; OBJ_EXAT; OBJ_PXAT] then parseExtendedStringArguments ct args (Z.lor flags OBJ_PX) UNIT_MILLISECONDS (Some next)
        else if opt_is name_exat && free_of flags [OBJ_KEEPTTL; OBJ_PERSIST; OBJ_EX; OBJ_PX; OBJ_PXAT] then parseExtendedStringArguments ct args (Z.lor flags OBJ_EXAT) unit (Some next)
        else if opt_is name_pxat && free_of flags [OBJ_KEEPTTL; OBJ_PERSIST; OBJ_EX; OBJ_EXAT; OBJ_PX] then parseExtendedStringArguments ct args (Z.lor flags OBJ_PXAT) UNIT_MILLISECONDS (Some next)
        else None
      end
  end.

(** [key] is [argv[1]]. *)
Definition setGenericCommand (db : keydb) (flags : Z) (key : bytes) (val : strobj) (expire : option bytes) (unit : time_unit) (ok_reply abort_reply : str_reply) : option (keydb * str_reply) :=
  match (match expire with Some expire => match getExpireMilliseconds expire flags unit with inl e => inl e | inr ms => inr (Some ms) end | None => inr None end) with
  | inl e => Some (db, RError e)
  | inr milliseconds =>
    '(db, got) ← (if has flags OBJ_SET_GET then '(db, r, ok) ← getGenericCommand db key; Some (db, Some (r, ok)) else Some (db, None));
    match got with
    | Some (r, false) => Some (db, r)
    | _ =>
      let reply r := match got with Some (r, _) => r | None => r end in
      let '(db, old) := lookupKey now db key in
      let found := match old with Some _ => true | None => false end in
      if (has flags OBJ_SET_NX && found) || (has flags OBJ_SET_XX && negb found) then Some (db, reply abort_reply)
      else
        let keepTTL := has flags OBJ_KEEPTTL || match expire with Some _ => true | None => false end in
        db ← setKeyByLink db key val keepTTL found;
        db ← match milliseconds with Some when => setExpire db key when | None => Some db end;
        Some (sdirty_add db 1, reply ok_reply)
    end
  end.

Definition setCommand (db : keydb) (key val : bytes) (args : list bytes) : option (keydb * str_reply) :=
  match parseExtendedStringArguments COMMAND_SET args 0 UNIT_SECONDS None with
  | None => Some (db, RError StrSyntax)
  | Some (flags, unit, expire) => setGenericCommand db flags key (tryObjectEncoding val) expire unit ROk RNull
  end.

Definition setnxCommand (db : keydb) (key val : bytes) := setGenericCommand db OBJ_SET_NX key (tryObjectEncoding val) None UNIT_SECONDS (RNum 1) (RNum 0).
Definition setexCommand (db : keydb) (key expire val : bytes) := setGenericCommand db OBJ_EX key (tryObjectEncoding val) (Some expire) UNIT_SECONDS ROk RNull.
Definition psetexCommand (db : keydb) (key expire val : bytes) := setGenericCommand db OBJ_PX key (tryObjectEncoding val) (Some expire) UNIT_MILLISECONDS ROk RNull.

Definition getexCommand (db : keydb) (key : bytes) (args : list bytes) : option (keydb * str_reply) :=
  match parseExtendedStringArguments COMMAND_GET args 0 UNIT_SECONDS None with
  | None => Some (db, RError StrSyntax)
  | Some (flags, unit, expire) =>
    let '(db, o) := lookupKey now db key in
    match o with
    | None => Some (db, RNull)
    | Some e =>
      if checkType o then Some (db, RError StrWrongType)
      else
        match (match expire with Some expire => match getExpireMilliseconds expire flags unit with inl e => inl e | inr ms => inr (Some ms) end | None => inr None end) with
        | inl err => Some (db, RError err)
        | inr milliseconds =>
          s ← addReplyBulk (e_obj e);
          let r := RBulk s in
          if (has flags OBJ_PXAT || has flags OBJ_EXAT) && checkAlreadyExpired now (default 0 milliseconds) then
            let '(db, deleted) := dbGenericDelete db key in
            _ ← guard deleted;
            Some (sdirty_add db 1, r)
          else
            match milliseconds with
            | Some when => db ← setExpire db key when; Some (sdirty_add db 1, r)
            | None =>
              if has flags OBJ_PERSIST then
                '(db, removed) ← removeExpire db key;
                Some (if (removed : bool) then sdirty_add db 1 else db, r)
              else Some (db, r)
            end
        end
    end
  end.

Definition getdelCommand (db : keydb) (key : bytes) : option (keydb * str_reply) :=
  '(db, r, ok) ← getGenericCommand db key;
  if (ok : bool) then
    let '(db, deleted) := dbGenericDelete db key in Some (if (deleted : bool) then sdirty_add db 1 else db, r)
  else Some (db, r).

Definition getsetCommand (db : keydb) (key val : bytes) : option (keydb * str_reply) :=
  '(db, r, ok) ← getGenericCommand db key;
  if (ok : bool) then db ← setKey now db key (tryObjectEncoding val); Some (sdirty_add db 1, r) else Some (db, r).

(** * Ranges *)

(** [dbUnshareStringValue] makes a copy of a string that is encoded or shared; both ways, the entry gets the new string and
    keeps its time. *)

(** The contents after [sdsgrowzero]. *)
Definition growzero (s : bytes) (len : Z) : bytes := s ++ replicate (Z.to_nat (len - Z.of_nat (length s))) 0.

(** [sdsgrowzero], then [memcpy] at the offset. *)
Definition write_range (s : bytes) (offset : Z) (value : bytes) : option bytes :=
  store (growzero s (offset + Z.of_nat (length value))) (Z.to_nat offset) value.

Definition setrangeCommand (db : keydb) (key offset value : bytes) : option (keydb * str_reply) :=
  let value_len := Z.of_nat (length value) in
  match getLongLongArg offset with
  | inl e => Some (db, RError e)
  | inr offset =>
    if offset <? 0 then Some (db, RError OffsetRange)
    else
      let '(db, kv) := lookupKey now db key in
      match kv with
      | None =>
        if value_len =? 0 then Some (db, RNum 0)
        else if negb (checkStringLength offset value_len) then Some (db, RError StringTooLong)
        else
          let newLen := offset + value_len in
          s ← write_range (replicate (Z.to_nat newLen) 0) offset value;
          db ← dbAddInternal db key (RawStr s) (-1);
          Some (sdirty_add db 1, RNum newLen)
      | Some e =>
        if checkType kv then Some (db, RError StrWrongType)
        else
          oldLen ← stringObjectLen (e_obj e);
          if value_len =? 0 then Some (db, RNum oldLen)
          else if negb (checkStringLength offset value_len) then Some (db, RError StringTooLong)
          else
            s ← getDecodedObject (e_obj e);
            let newLen := Z.max oldLen (offset + value_len) in
            s ← write_range s offset value;
            db ← dbSetValue db key (RawStr s) true;
            Some (sdirty_add db 1, RNum newLen)
      end
  end.

(** [start] and [end] after the conversion of negative indexes, at 64 bits. *)
Definition range_bounds (strlen start end_ : Z) : Z * Z :=
  let start := if start <? 0 then s64 (strlen + start) else start in
  let end_ := if end_ <? 0 then s64 (strlen + end_) else end_ in
  let start := if start <? 0 then 0 else start in
  let end_ := if end_ <? 0 then 0 else end_ in
  let end_ := if u64 end_ >=? strlen then s64 (strlen - 1) else end_ in
  (start, end_).

(** The bytes at [str], [strlen] of them. *)
Definition range_text (o : strobj) : option bytes :=
  match o with
  | IntStr value => '(llbuf, strlen) ← ll2string (junk 32) 32 value; Some (take (Z.to_nat strlen) llbuf)
  | RawStr s => Some s
  | NotStr _ => None
  end.

Definition getrangeCommand (db : keydb) (key start end_ : bytes) : option (keydb * str_reply) :=
  match getLongLongArg start, getLongLongArg end_ with
  | inl e, _ => Some (db, RError e)
  | inr _, inl e => Some (db, RError e)
  | inr start, inr end_ =>
    let '(db, o) := lookupKey now db key in
    match o with
    | None => Some (db, RBulk [])
    | Some e =>
      if checkType o then Some (db, RError StrWrongType)
      else
        str ← range_text (e_obj e);
        let strlen := Z.of_nat (length str) in
        if (start <? 0) && (end_ <? 0) && (start >? end_) then Some (db, RBulk [])
        else
          let '(start, end_) := range_bounds strlen start end_ in
          if (start >? end_) || (strlen =? 0) then Some (db, RBulk [])
          else s ← load str (Z.to_nat start) (Z.to_nat (end_ - start + 1)); Some (db, RBulk s)
    end
  end.

(** * Several keys *)

Fixpoint mget_loop (db : keydb) (ks : list bytes) : option (keydb * list (option bytes)) :=
  match ks with
  | [] => Some (db, [])
  | k :: ks =>
    let '(db, o) := lookupKey now db k in
    r ← match o with
        | None => Some None
        | Some e => if checkType o then Some None else s ← addReplyBulk (e_obj e); Some (Some s)
        end;
    '(db, l) ← mget_loop db ks;
    Some (db, r :: l)
  end.

Definition mgetCommand (db : keydb) (ks : list bytes) : option (keydb * str_reply) := '(db, l) ← mget_loop db ks; Some (db, RBulks l).

(** Whether a key exists, and the keys from [argv[1]] on, every other argument. *)
Fixpoint any_exists (db : keydb) (args : list bytes) : keydb * bool :=
  match args with
  | k :: _ :: args => let '(db, o) := lookupKey now db k in match o with Some _ => (db, true) | None => any_exists db args end
  | _ => (db, false)
  end.

Fixpoint mset_loop (db : keydb) (args : list bytes) : option keydb :=
  match args with k :: v :: args => db ← setKey now db k (tryObjectEncoding v); mset_loop db args | _ => Some db end.

(** [args] is [argv] from [argv[1]] on. *)
Definition msetGenericCommand (db : keydb) (args : list bytes) (nx : bool) : option (keydb * str_reply) :=
  let argc := Z.of_nat (length args) + 1 in
  if argc mod 2 =? 0 then Some (db, RError ArityError)
  else
    let '(db, exists_) := if nx then any_exists db args else (db, false) in
    if (exists_ : bool) then Some (db, RNum 0)
    else
      db ← mset_loop db args;
      Some (sdirty_add db ((argc - 1) / 2), if nx then RNum 1 else ROk).

Definition msetCommand (db : keydb) (args : list bytes) := msetGenericCommand db args false.
Definition msetnxCommand (db : keydb) (args : list bytes) := msetGenericCommand db args true.

(** * Counters *)

Definition incrDecrCommand (db : keydb) (key : bytes) (incr : Z) : option (keydb * str_reply) :=
  let '(db, o) := lookupKey now db key in
  if checkType o then Some (db, RError StrWrongType)
  else
    v ← getLongLongFromObject (option_map e_obj o);
    match v with
    | inl e => Some (db, RError e)
    | inr oldvalue =>
      if ((incr <? 0) && (oldvalue <? 0) && (incr <? s64 (LLONG_MIN - oldvalue))) || ((incr >? 0) && (oldvalue >? 0) && (incr >? s64 (LLONG_MAX - oldvalue)))
      then Some (db, RError IncrOverflow)
      else
        let value := s64 (oldvalue + incr) in
        db ← setKeyByLink db key (IntStr value) true (match o with Some _ => true | None => false end);
        Some (sdirty_add db 1, RNum value)
    end.

Definition incrCommand (db : keydb) (key : bytes) := incrDecrCommand db key 1.
Definition decrCommand (db : keydb) (key : bytes) := incrDecrCommand db key (-1).

Definition incrbyCommand (db : keydb) (key incr : bytes) : option (keydb * str_reply) :=
  match getLongLongArg incr with inl e => Some (db, RError e) | inr incr => incrDecrCommand db key incr end.

Definition decrbyCommand (db : keydb) (key incr : bytes) : option (keydb * str_reply) :=
  match getLongLongArg incr with
  | inl e => Some (db, RError e)
  | inr incr => if incr =? LLONG_MIN then Some (db, RError DecrOverflow) else incrDecrCommand db key (s64 (- incr))
  end.

(** * Appending and lengths *)

Definition appendCommand (db : keydb) (key append : bytes) : option (keydb * str_reply) :=
  let '(db, o) := lookupKey now db key in
  match o with
  | None =>
    let new := tryObjectEncoding append in
    totlen ← stringObjectLen new;
    db ← dbAddInternal db key new (-1);
    Some (sdirty_add db 1, RNum totlen)
  | Some e =>
    if checkType o then Some (db, RError StrWrongType)
    else
      len ← stringObjectLen (e_obj e);
      if negb (checkStringLength len (Z.of_nat (length append))) then Some (db, RError StringTooLong)
      else
        s ← getDecodedObject (e_obj e);
        let s := s ++ append in
        db ← dbSetValue db key (RawStr s) true;
        Some (sdirty_add db 1, RNum (Z.of_nat (length s)))
  end.

Definition strlenCommand (db : keydb) (key : bytes) : option (keydb * str_reply) :=
  let '(db, o) := lookupKey now db key in
  match o with
  | None => Some (db, RNum 0)
  | Some e => if checkType o then Some (db, RError StrWrongType) else n ← stringObjectLen (e_obj e); Some (db, RNum n)
  end.

(** * LCS *)

Record lcs_options := mkLcsOptions { getlen : bool; getidx : bool; withmatchlen : bool; minmatchlen : Z }.

Definition name_idx : bytes := [105; 100; 120].
Definition name_len : bytes := [108; 101; 110].
Definition name_withmatchlen : bytes := [119; 105; 116; 104; 109; 97; 116; 99; 104; 108; 101; 110].
Definition name_minmatchlen : bytes := [109; 105; 110; 109; 97; 116; 99; 104; 108; 101; 110].

Fixpoint lcs_arguments (args : list bytes) (o : lcs_options) : str_error + lcs_options :=
  match args with
  | [] => inr o
  | opt :: args =>
    let opt_is name := BitfieldCmd.strcaseeq opt name in
    if opt_is name_idx then lcs_arguments args (mkLcsOptions (getlen o) true (withmatchlen o) (minmatchlen o))
    else if opt_is name_len then lcs_arguments args (mkLcsOptions true (getidx o) (withmatchlen o) (minmatchlen o))
    else if opt_is name_withmatchlen then lcs_arguments args (mkLcsOptions (getlen o) (getidx o) true (minmatchlen o))
    else
      match args with
      | next :: args =>
        if opt_is name_minmatchlen then
          match getLongLongArg next with
          | inl e => inl e
          | inr z => lcs_arguments args (mkLcsOptions (getlen o) (getidx o) (withmatchlen o) (if z <? 0 then 0 else z))
          end
        else inl StrSyntax
      | [] => inl StrSyntax
      end
  end.

(** The string of an operand, empty if there is no key; [None] for another type. *)
Definition lcs_operand (e : option kventry) : option (option bytes) :=
  match e with
  | None => Some (Some [])
  | Some e => match e_obj e with NotStr _ => Some None | o => s ← getDecodedObject o; Some (Some s) end
  end.

(** From the sizes on; the allocation succeeds. *)
Definition lcs_main (a b : bytes) (o : lcs_options) : option str_reply :=
  if getlen o && getidx o then Some (RError LcsLenAndIdx)
  else if (Z.of_nat (length a) >=? 2 ^ 32 - 2) || (Z.of_nat (length b) >=? 2 ^ 32 - 2) then Some (RError LcsTooLong)
  else
    let lcssize := (Z.of_nat (length a) + 1) * (Z.of_nat (length b) + 1) in
    let lcsalloc := u64 (lcssize * 4) in
    if (lcsalloc <? 2 ^ 64 - 1) && (lcsalloc / lcssize =? 4) then
      if lcsalloc >? max_bulk then Some (RError LcsMemory)
      else
        '(len, result, ranges) ← Lcs.lcs_compute a b (getidx o || negb (getlen o)) (minmatchlen o);
        Some (if getidx o then RMatches ranges len (withmatchlen o) else if getlen o then RNum len else RBulk result)
    else Some (RError LcsMemory).

Definition lcsCommand (db : keydb) (key1 key2 : bytes) (args : list bytes) : option (keydb * str_reply) :=
  let '(db, obja) := lookupKey now db key1 in
  let '(db, objb) := lookupKey now db key2 in
  if checkType obja || checkType objb then Some (db, RError LcsNotStrings)
  else
    a ← lcs_operand obja;
    b ← lcs_operand objb;
    match a, b with
    | Some a, Some b =>
      match lcs_arguments args (mkLcsOptions false false false 0) with
      | inl e => Some (db, RError e)
      | inr o => r ← lcs_main a b o; Some (db, r)
      end
    | _, _ => None
    end.

End Strings.
End StrCmd.
