(* ===== verification/KeyCmd.v ===== *)
(** The commands on keys and their times: EXPIRE, TTL, PERSIST and TOUCH (expire.c), DEL, EXISTS and RENAME (db.c), on the
    database of Db.v. *)

From S2P Require Import Prelude Util Sds SdsSpec BitfieldCmd Lcs Db StrCmd.

Module KeyCmd.
Import Util Db StrCmd.

Definition EXPIRE_NX : Z := Z.shiftl 1 0.
Definition EXPIRE_XX : Z := Z.shiftl 1 1.
Definition EXPIRE_GT : Z := Z.shiftl 1 2.
Definition EXPIRE_LT : Z := Z.shiftl 1 3.

Definition name_gt : bytes := [103; 116].
Definition name_lt : bytes := [108; 116].

(** The loop over the options. *)
Fixpoint expire_flags (args : list bytes) (flags : Z) : str_error + Z :=
  match args with
  | [] => inr flags
  | opt :: args =>
    let opt_is name := BitfieldCmd.strcaseeq opt name in
    if opt_is name_nx then expire_flags args (Z.lor flags EXPIRE_NX)
    else if opt_is name_xx then expire_flags args (Z.lor flags EXPIRE_XX)
    else if opt_is name_gt then expire_flags args (Z.lor flags EXPIRE_GT)
    else if opt_is name_lt then expire_flags args (Z.lor flags EXPIRE_LT)
    else inl UnsupportedOption
  end.

Definition parseExtendedExpireArguments (args : list bytes) : str_error + Z :=
  match expire_flags args 0 with
  | inl e => inl e
  | inr flags =>
    let nx := has flags EXPIRE_NX in
    let xx := has flags EXPIRE_XX in
    let gt := has flags EXPIRE_GT in
    let lt := has flags EXPIRE_LT in
    if (nx && xx) || (nx && gt) || (nx && lt) then inl NxIncompatible
    else if gt && lt then inl GtLtIncompatible
    else inr flags
  end.

(** [when], or an error. *)
Definition expire_when (param : bytes) (basetime : Z) (unit : time_unit) : str_error + Z :=
  match getLongLongArg param with
  | inl e => inl e
  | inr when =>
    match (match unit with
           | UNIT_SECONDS => if (when >? Z.quot LLONG_MAX 1000) || (when <? Z.quot LLONG_MIN 1000) then inl InvalidExpire else inr (s64 (when * 1000))
           | UNIT_MILLISECONDS => inr when
           end) with
    | inl e => inl e
    | inr when => if when >? s64 (LLONG_MAX - basetime) then inl InvalidExpire else inr (s64 (when + basetime))
    end
  end.

(** An option holds the command back. *)
Definition expire_refused (flag current_expire when : Z) : bool :=
  (has flag EXPIRE_NX && negb (current_expire =? -1)) ||
  (has flag EXPIRE_XX && (current_expire =? -1)) ||
  (has flag EXPIRE_GT && ((when <=? current_expire) || (current_expire =? -1))) ||
  (has flag EXPIRE_LT && (negb (current_expire =? -1) && (when >=? current_expire))).

Section Keys.
Context (now : Z).

Definition expireGenericCommand (db : keydb) (key param : bytes) (args : list bytes) (basetime : Z) (unit : time_unit) : option (keydb * str_reply) :=
  match parseExtendedExpireArguments args with
  | inl e => Some (db, RError e)
  | inr flag =>
    match expire_when param basetime unit with
    | inl e => Some (db, RError e)
    | inr when =>
      let '(db, kv) := lookupKey now db key in
      match kv with
      | None => Some (db, RNum 0)
      | Some kv =>
        if negb (flag =? 0) && expire_refused flag (e_expire kv) when then Some (db, RNum 0)
        else if checkAlreadyExpired now when then
          let '(db, deleted) := dbGenericDelete db key in
          _ ← guard deleted;
          Some (sdirty_add db 1, RNum 1)
        else
          db ← setExpire db key when;
          Some (sdirty_add db 1, RNum 1)
      end
    end
  end.

Definition expireCommand (db : keydb) (key param : bytes) (args : list bytes) := expireGenericCommand db key param args now UNIT_SECONDS.
Definition expireatCommand (db : keydb) (key param : bytes) (args : list bytes) := expireGenericCommand db key param args 0 UNIT_SECONDS.
Definition pexpireCommand (db : keydb) (key param : bytes) (args : list bytes) := expireGenericCommand db key param args now UNIT_MILLISECONDS.
Definition pexpireatCommand (db : keydb) (key param : bytes) (args : list bytes) := expireGenericCommand db key param args 0 UNIT_MILLISECONDS.

(** Milliseconds rounded to seconds, at 64 bits. *)
Definition round_seconds (ttl : Z) : Z := Z.quot (s64 (ttl + 500)) 1000.

Definition ttlGenericCommand (db : keydb) (key : bytes) (output_ms output_abs : bool) : option (keydb * str_reply) :=
  let '(db, kv) := lookupKey now db key in
  match kv with
  | None => Some (db, RNum (-2))
  | Some kv =>
    let expire := e_expire kv in
    let ttl :=
      if negb (expire =? -1) then
        let ttl := if output_abs then expire else s64 (expire - now) in
        if ttl <? 0 then 0 else ttl
      else -1 in
    Some (db, RNum (if ttl =? -1 then -1 else if output_ms then ttl else round_seconds ttl))
  end.

Definition ttlCommand (db : keydb) (key : bytes) := ttlGenericCommand db key false false.
Definition pttlCommand (db : keydb) (key : bytes) := ttlGenericCommand db key true false.
Definition expiretimeCommand (db : keydb) (key : bytes) := ttlGenericCommand db key false true.
Definition pexpiretimeCommand (db : keydb) (key : bytes) := ttlGenericCommand db key true true.

Definition persistCommand (db : keydb) (key : bytes) : option (keydb * str_reply) :=
  let '(db, kv) := lookupKey now db key in
  match kv with
  | Some _ =>
    '(db, removed) ← removeExpire db key;
    if (removed : bool) then Some (sdirty_add db 1, RNum 1) else Some (db, RNum 0)
  | None => Some (db, RNum 0)
  end.

(** The number of keys that exist. *)
Fixpoint count_keys (db : keydb) (ks : list bytes) (count : Z) : keydb * Z :=
  match ks with
  | [] => (db, count)
  | k :: ks => let '(db, o) := lookupKey now db k in count_keys db ks (match o with Some _ => count + 1 | None => count end)
  end.

Definition touchCommand (db : keydb) (ks : list bytes) : option (keydb * str_reply) := let '(db, touched) := count_keys db ks 0 in Some (db, RNum touched).
Definition existsCommand (db : keydb) (ks : list bytes) : option (keydb * str_reply) := let '(db, count) := count_keys db ks 0 in Some (db, RNum count).

(** [expireIfNeeded] without the object, which is looked up in [db->expires]. *)
Definition expireKeyIfNeeded (db : keydb) (key : bytes) : option (keydb * bool) :=
  if bool_decide (key ∈ expires db) then kv ← entries db !! key; Some (expireIfNeeded now db key kv) else Some (db, false).

Fixpoint del_loop (db : keydb) (ks : list bytes) (numdel : Z) : option (keydb * Z) :=
  match ks with
  | [] => Some (db, numdel)
  | k :: ks =>
    '(db, expired) ← expireKeyIfNeeded db k;
    if (expired : bool) then del_loop db ks numdel
    else
      let '(db, deleted) := dbGenericDelete db k in
      if (deleted : bool) then del_loop (sdirty_add db 1) ks (numdel + 1) else del_loop db ks numdel
  end.

(** DEL and UNLINK; they free the objects at once or later. *)
Definition delGenericCommand (db : keydb) (ks : list bytes) : option (keydb * str_reply) := '(db, numdel) ← del_loop db ks 0; Some (db, RNum numdel).

Definition renameGenericCommand (db : keydb) (src dst : bytes) (nx : bool) : option (keydb * str_reply) :=
  let samekey := bool_decide (src = dst) in
  let '(db, o) := lookupKey now db src in
  match o with
  | None => Some (db, RError NoSuchKey)
  | Some o =>
    if samekey then Some (db, if nx then RNum 0 else ROk)
    else
      let expire := e_expire o in
      let '(db, destval) := lookupKey now db dst in
      let found := match destval with Some _ => true | None => false end in
      if found && nx then Some (db, RNum 0)
      else
        let db := if found then (dbGenericDelete db dst).1 else db in
        let db := (dbGenericDelete db src).1 in
        db ← dbAddInternal db dst (e_obj o) expire;
        Some (sdirty_add db 1, if nx then RNum 1 else ROk)
  end.

Definition renameCommand (db : keydb) (src dst : bytes) := renameGenericCommand db src dst false.
Definition renamenxCommand (db : keydb) (src dst : bytes) := renameGenericCommand db src dst true.

End Keys.
End KeyCmd.
