(* ===== verification/KeySpec.v ===== *)
(** What the commands on strings and on keys do: the abstract database that t_string.c, expire.c and db.c implement.

    The specification knows no encodings and no lazy deletion: a key has a string, or something else, and may have a
    time after which it does not exist any more.  The options of SET, GETEX and EXPIRE are given by their list: which
    options may come together does not depend on the order. *)

From S2P Require Import Prelude Util Sds SdsSpec BitfieldCmd Lcs LcsSpec Db StrCmd KeyCmd.

Module KeySpec.
Import Util Db StrCmd.

(** * The abstract database *)

Inductive aval := AStr (s : bytes) | AOther (id : Z).

Record aentry := mkA { a_val : aval; a_expire : option Z }.

(** The entry, if its time has not passed. *)
Definition live (now : Z) (e : option aentry) : option aentry :=
  match e with Some (mkA _ (Some when)) => if now >? when then None else e | _ => e end.

Definition get (now : Z) (m : gmap bytes aentry) (k : bytes) : option aentry := live now (m !! k).

(** * The options of SET and GETEX *)

(** [EX], [PX], [EXAT] and [PXAT]. *)
Inductive ttl_kind := KEx | KPx | KExat | KPxat.

Inductive str_option := ONx | OXx | OGet | OKeepTtl | OPersist | OTtl (kind : ttl_kind) (arg : bytes).

(** The options one after the other, whatever they are combined with. *)
Fixpoint tokens (ct : command_type) (args : list bytes) : option (list str_option) :=
  match args with
  | [] => Some []
  | opt :: args =>
    let opt_is name := BitfieldCmd.strcaseeq opt name in
    if opt_is name_nx && is_set ct then cons ONx <$> tokens ct args
    else if opt_is name_xx && is_set ct then cons OXx <$> tokens ct args
    else if opt_is name_getopt && is_set ct then cons OGet <$> tokens ct args
    else if opt_is name_keepttl && is_set ct then cons OKeepTtl <$> tokens ct args
    else if opt_is name_persist && negb (is_set ct) then cons OPersist <$> tokens ct args
    else
      match args with
      | [] => None
      | next :: args =>
        if opt_is name_ex then cons (OTtl KEx next) <$> tokens ct args
        else if opt_is name_px then cons (OTtl KPx next) <$> tokens ct args
        else if opt_is name_exat then cons (OTtl KExat next) <$> tokens ct args
        else if opt_is name_pxat then cons (OTtl KPxat next) <$> tokens ct args
        else None
      end
  end.

#[export] Instance ttl_kind_eq_dec : EqDecision ttl_kind.
Proof. solve_decision. Defined.

(** Options that exclude each other: NX and XX, and two different ways to give the time. *)
Definition conflict (a b : str_option) : bool :=
  match a, b with
  | ONx, OXx | OXx, ONx => true
  | OKeepTtl, OPersist | OPersist, OKeepTtl => true
  | OTtl _ _, (OKeepTtl | OPersist) | (OKeepTtl | OPersist), OTtl _ _ => true
  | OTtl k _, OTtl k' _ => bool_decide (k <> k')
  | _, _ => false
  end.

Definition compatible (opts : list str_option) : bool := forallb (fun a => forallb (fun b => negb (conflict a b)) opts) opts.

Definition spec_options (ct : command_type) (args : list bytes) : option (list str_option) :=
  opts ← tokens ct args; if compatible opts then Some opts else None.

Definition has_opt (p : str_option -> bool) (opts : list str_option) : bool := existsb p opts.
Definition o_nx (o : str_option) : bool := match o with ONx => true | _ => false end.
Definition o_xx (o : str_option) : bool := match o with OXx => true | _ => false end.
Definition o_get (o : str_option) : bool := match o with OGet => true | _ => false end.
Definition o_keepttl (o : str_option) : bool := match o with OKeepTtl => true | _ => false end.
Definition o_persist (o : str_option) : bool := match o with OPersist => true | _ => false end.

(** The last time that is given. *)
Fixpoint last_ttl (opts : list str_option) (acc : option (ttl_kind * bytes)) : option (ttl_kind * bytes) :=
  match opts with [] => acc | OTtl k arg :: opts => last_ttl opts (Some (k, arg)) | _ :: opts => last_ttl opts acc end.

(** The time in milliseconds: a positive number that fits in 64 bits. *)
Definition spec_when (now : Z) (kind : ttl_kind) (arg : bytes) : str_error + Z :=
  match string2ll arg with
  | None => inl NotInteger
  | Some n =>
    let ms := match kind with KEx | KExat => n * 1000 | KPx | KPxat => n end in
    let when := match kind with KEx | KPx => ms + now | KExat | KPxat => ms end in
    if (0 <? n) && (when <=? LLONG_MAX) then inr when else inl InvalidExpire
  end.

Definition spec_expire (now : Z) (ttl : option (ttl_kind * bytes)) : str_error + option Z :=
  match ttl with None => inr None | Some (kind, arg) => match spec_when now kind arg with inl e => inl e | inr when => inr (Some when) end end.

(** * The commands *)

Inductive command :=
| GET (k : bytes) | SET (k v : bytes) (args : list bytes) | SETNX (k v : bytes) | SETEX (k seconds v : bytes) | PSETEX (k milliseconds v : bytes)
| GETEX (k : bytes) (args : list bytes) | GETDEL (k : bytes) | GETSET (k v : bytes)
| SETRANGE (k offset v : bytes) | GETRANGE (k start end_ : bytes) | MGET (ks : list bytes) | MSET (args : list bytes) | MSETNX (args : list bytes)
| INCR (k : bytes) | DECR (k : bytes) | INCRBY (k n : bytes) | DECRBY (k n : bytes) | APPEND (k v : bytes) | STRLEN (k : bytes)
| LCS (k1 k2 : bytes) (args : list bytes)
| EXPIRE (k n : bytes) (args : list bytes) | EXPIREAT (k n : bytes) (args : list bytes) | PEXPIRE (k n : bytes) (args : list bytes) | PEXPIREAT (k n : bytes) (args : list bytes)
| TTL (k : bytes) | PTTL (k : bytes) | EXPIRETIME (k : bytes) | PEXPIRETIME (k : bytes) | PERSIST (k : bytes)
| TOUCH (ks : list bytes) | EXISTS (ks : list bytes) | DEL (ks : list bytes) | RENAME (k1 k2 : bytes) | RENAMENX (k1 k2 : bytes).

(** The database after a command, what the reply has to be, and the number of changes. *)
Definition result : Type := gmap bytes aentry * (str_reply -> Prop) * Z.

Section Spec.
Context (now max_bulk : Z).

Definition replies (m : gmap bytes aentry) (r : str_reply) : result := (m, eq r, 0).
Definition changes (m : gmap bytes aentry) (r : str_reply) : result := (m, eq r, 1).

(** [k] on the string of a key, NULL without a key; [WRONGTYPE] for something else. *)
Definition on_string (m : gmap bytes aentry) (k : bytes) (f : option (bytes * option Z) -> result) : result :=
  match get now m k with
  | None => f None
  | Some (mkA (AStr s) when) => f (Some (s, when))
  | Some (mkA (AOther _) _) => replies m (RError StrWrongType)
  end.

Definition bulk_or_null (o : option (bytes * option Z)) : str_reply := match o with Some (s, _) => RBulk s | None => RNull end.

Definition put_str (m : gmap bytes aentry) (k v : bytes) (when : option Z) : gmap bytes aentry := <[k := mkA (AStr v) when]> m.

(** The time a string keeps when it is changed in place. *)
Definition old_ttl (o : option (bytes * option Z)) : option Z := match o with Some (_, when) => when | None => None end.
Definition old_str (o : option (bytes * option Z)) : bytes := match o with Some (s, _) => s | None => [] end.

Definition spec_set (m : gmap bytes aentry) (k v : bytes) (opts : list str_option) (ttl : option (ttl_kind * bytes)) (ok_reply abort_reply : str_reply) : result :=
  match spec_expire now ttl with
  | inl e => replies m (RError e)
  | inr when =>
    let write reply :=
      let old := get now m k in
      let present := match old with Some _ => true | None => false end in
      if (has_opt o_nx opts && present) || (has_opt o_xx opts && negb present) then replies m (default abort_reply reply)
      else
        let kept := match old with Some e => if has_opt o_keepttl opts then a_expire e else None | None => None end in
        changes (put_str m k v (match when with Some _ => when | None => kept end)) (default ok_reply reply) in
    if has_opt o_get opts then on_string m k (fun o => write (Some (bulk_or_null o))) else write None
  end.

Definition spec_getex (m : gmap bytes aentry) (k : bytes) (opts : list str_option) : result :=
  on_string m k (fun o =>
    match o with
    | None => replies m RNull
    | Some (s, old) =>
      match last_ttl opts None with
      | Some (kind, arg) =>
        match spec_when now kind arg with
        | inl e => replies m (RError e)
        | inr when =>
          let absolute := match kind with KExat | KPxat => true | _ => false end in
          if absolute && (when <=? now) then changes (delete k m) (RBulk s) else changes (put_str m k s (Some when)) (RBulk s)
        end
      | None =>
        match old with
        | Some _ => if has_opt o_persist opts then changes (put_str m k s None) (RBulk s) else replies m (RBulk s)
        | None => replies m (RBulk s)
        end
      end
    end).

(** [v] at the offset of [s], which is filled up with zeros. *)
Definition overwrite (s : bytes) (offset : nat) (v : bytes) : bytes :=
  take offset (s ++ replicate (offset - length s) 0) ++ v ++ drop (offset + length v) s.

Definition spec_setrange (m : gmap bytes aentry) (k offset v : bytes) : result :=
  match string2ll offset with
  | None => replies m (RError NotInteger)
  | Some offset =>
    if offset <? 0 then replies m (RError OffsetRange)
    else on_string m k (fun o =>
      if bool_decide (v = []) then replies m (RNum (Z.of_nat (length (old_str o))))
      else if offset + Z.of_nat (length v) >? max_bulk then replies m (RError StringTooLong)
      else let s := overwrite (old_str o) (Z.to_nat offset) v in changes (put_str m k s (old_ttl o)) (RNum (Z.of_nat (length s))))
  end.

(** An index from the end if it is negative. *)
Definition index (len i : Z) : Z := Z.max 0 (if i <? 0 then len + i else i).

Definition spec_slice (s : bytes) (start end_ : Z) : bytes :=
  let len := Z.of_nat (length s) in
  if (start <? 0) && (end_ <? 0) && (start >? end_) then []
  else let first := index len start in let last := Z.min (len - 1) (index len end_) in take (Z.to_nat (last - first + 1)) (drop (Z.to_nat first) s).

Definition spec_getrange (m : gmap bytes aentry) (k start end_ : bytes) : result :=
  match string2ll start, string2ll end_ with
  | Some start, Some end_ => on_string m k (fun o => replies m (RBulk (spec_slice (old_str o) start end_)))
  | _, _ => replies m (RError NotInteger)
  end.

Definition spec_mget (m : gmap bytes aentry) (k : bytes) : option bytes := match get now m k with Some (mkA (AStr s) _) => Some s | _ => None end.

(** The pairs of arguments. *)
Fixpoint pairs (args : list bytes) : option (list (bytes * bytes)) :=
  match args with [] => Some [] | k :: v :: args => cons (k, v) <$> pairs args | _ => None end.

Definition spec_mset (m : gmap bytes aentry) (args : list bytes) (nx : bool) : result :=
  match pairs args with
  | None => replies m (RError ArityError)
  | Some kvs =>
    if nx && existsb (fun kv => bool_decide (is_Some (get now m kv.1))) kvs then replies m (RNum 0)
    else (foldl (fun m kv => put_str m kv.1 kv.2 None) m kvs, eq (if nx then RNum 1 else ROk), Z.of_nat (length kvs))
  end.

Definition spec_incr (m : gmap bytes aentry) (k : bytes) (incr : Z) : result :=
  on_string m k (fun o =>
    match (match o with Some (s, _) => string2ll s | None => Some 0 end) with
    | None => replies m (RError NotInteger)
    | Some old =>
      if bool_decide (srange 64 (old + incr)) then changes (put_str m k (sdec (old + incr)) (old_ttl o)) (RNum (old + incr)) else replies m (RError IncrOverflow)
    end).

Definition spec_append (m : gmap bytes aentry) (k v : bytes) : result :=
  on_string m k (fun o =>
    let s := old_str o ++ v in
    if bool_decide (o <> None) && (Z.of_nat (length s) >? max_bulk) then replies m (RError StringTooLong)
    else changes (put_str m k s (old_ttl o)) (RNum (Z.of_nat (length s)))).

(** The reply of LCS for two strings: a longest common subsequence, its length, or its ranges. *)
Definition lcs_reply_ok (a b : bytes) (o : lcs_options) (r : str_reply) : Prop :=
  exists common all,
    common `sublist_of` a /\ common `sublist_of` b /\ (forall l, l `sublist_of` a -> l `sublist_of` b -> (length l <= length common)%nat) /\
    Forall (LcsSpec.range_ok a b) all /\ common = LcsSpec.ranges_text a all /\
    r = if getidx o then RMatches (filter (fun g => LcsSpec.long_enough (minmatchlen o) g = true) all) (Z.of_nat (length common)) (withmatchlen o)
        else if getlen o then RNum (Z.of_nat (length common)) else RBulk common.

Definition spec_lcs (m : gmap bytes aentry) (k1 k2 : bytes) (args : list bytes) : result :=
  match get now m k1, get now m k2 with
  | Some (mkA (AOther _) _), _ | _, Some (mkA (AOther _) _) => replies m (RError LcsNotStrings)
  | e1, e2 =>
    let str e := match e with Some (mkA (AStr s) _) => s | _ => [] end in
    match lcs_arguments args (mkLcsOptions false false false 0) with
    | inl e => replies m (RError e)
    | inr o =>
      if getlen o && getidx o then replies m (RError LcsLenAndIdx)
      else if (Z.of_nat (length (str e1)) >=? 2 ^ 32 - 2) || (Z.of_nat (length (str e2)) >=? 2 ^ 32 - 2) then replies m (RError LcsTooLong)
      else if (Z.of_nat (length (str e1)) + 1) * (Z.of_nat (length (str e2)) + 1) * 4 >? max_bulk then replies m (RError LcsMemory)
      else (m, lcs_reply_ok (str e1) (str e2) o, 0)
    end
  end.

(** The options of EXPIRE. *)
Inductive expire_option := ENx | EXx | EGt | ELt.

#[export] Instance expire_option_eq_dec : EqDecision expire_option.
Proof. solve_decision. Defined.

Fixpoint expire_tokens (args : list bytes) : option (list expire_option) :=
  match args with
  | [] => Some []
  | opt :: args =>
    let opt_is name := BitfieldCmd.strcaseeq opt name in
    o ← (if opt_is name_nx then Some ENx else if opt_is name_xx then Some EXx else if opt_is KeyCmd.name_gt then Some EGt else if opt_is KeyCmd.name_lt then Some ELt else None);
    cons o <$> expire_tokens args
  end.

Definition spec_expire_options (args : list bytes) : str_error + list expire_option :=
  match expire_tokens args with
  | None => inl UnsupportedOption
  | Some opts =>
    if bool_decide (ENx ∈ opts) && bool_decide (EXx ∈ opts \/ EGt ∈ opts \/ ELt ∈ opts) then inl NxIncompatible
    else if bool_decide (EGt ∈ opts /\ ELt ∈ opts) then inl GtLtIncompatible
    else inr opts
  end.

(** A time that fits in 64 bits. *)
Definition spec_time (n : bytes) (base : Z) (unit : time_unit) : str_error + Z :=
  match string2ll n with
  | None => inl NotInteger
  | Some n =>
    let ms := match unit with UNIT_SECONDS => n * 1000 | UNIT_MILLISECONDS => n end in
    if (LLONG_MIN <=? ms) && (ms + base <=? LLONG_MAX) then inr (ms + base) else inl InvalidExpire
  end.

(** A key without a time never expires: for GT and LT, its time is infinite. *)
Definition expire_allowed (opts : list expire_option) (current : option Z) (when : Z) : bool :=
  forallb (fun o =>
    match o, current with
    | ENx, None => true | ENx, Some _ => false
    | EXx, None => false | EXx, Some _ => true
    | EGt, None => false | EGt, Some t => t <? when
    | ELt, None => true | ELt, Some t => when <? t
    end) opts.

Definition spec_expire_cmd (m : gmap bytes aentry) (k n : bytes) (args : list bytes) (base : Z) (unit : time_unit) : result :=
  match spec_expire_options args with
  | inl e => replies m (RError e)
  | inr opts =>
    match spec_time n base unit with
    | inl e => replies m (RError e)
    | inr when =>
      match get now m k with
      | None => replies m (RNum 0)
      | Some e =>
        if negb (expire_allowed opts (a_expire e) when) then replies m (RNum 0)
        else if when <=? now then changes (delete k m) (RNum 1)
        else changes (<[k := mkA (a_val e) (Some when)]> m) (RNum 1)
      end
    end
  end.

(** The time left or the time itself; -1 without a time, -2 without a key. *)
Definition spec_ttl (m : gmap bytes aentry) (k : bytes) (absolute : bool) (show : Z -> Z) : result :=
  replies m (RNum match get now m k with
                  | None => -2
                  | Some e => match a_expire e with None => -1 | Some when => show (if absolute then when else when - now) end
                  end).

Definition spec_persist (m : gmap bytes aentry) (k : bytes) : result :=
  match get now m k with
  | Some (mkA v (Some _)) => changes (<[k := mkA v None]> m) (RNum 1)
  | _ => replies m (RNum 0)
  end.

Definition spec_count (m : gmap bytes aentry) (ks : list bytes) : Z := Z.of_nat (length (List.filter (fun k => bool_decide (is_Some (get now m k))) ks)).

(** Each key once. *)
Definition spec_del (m : gmap bytes aentry) (ks : list bytes) : result :=
  let n := Z.of_nat (size (filter (fun k => is_Some (get now m k)) (list_to_set ks : gset bytes))) in (foldr delete m ks, eq (RNum n), n).

Definition spec_rename (m : gmap bytes aentry) (k1 k2 : bytes) (nx : bool) : result :=
  match get now m k1 with
  | None => replies m (RError NoSuchKey)
  | Some e =>
    if bool_decide (k1 = k2) then replies m (if nx then RNum 0 else ROk)
    else if nx && bool_decide (is_Some (get now m k2)) then replies m (RNum 0)
    else changes (<[k2 := e]> (delete k1 m)) (if nx then RNum 1 else ROk)
  end.

Definition spec_cmd (m : gmap bytes aentry) (c : command) : result :=
  match c with
  | GET k => on_string m k (fun o => replies m (bulk_or_null o))
  | SET k v args => match spec_options COMMAND_SET args with None => replies m (RError StrSyntax) | Some opts => spec_set m k v opts (last_ttl opts None) ROk RNull end
  | SETNX k v => spec_set m k v [ONx] None (RNum 1) (RNum 0)
  | SETEX k seconds v => spec_set m k v [] (Some (KEx, seconds)) ROk RNull
  | PSETEX k milliseconds v => spec_set m k v [] (Some (KPx, milliseconds)) ROk RNull
  | GETEX k args => match spec_options COMMAND_GET args with None => replies m (RError StrSyntax) | Some opts => spec_getex m k opts end
  | GETDEL k => on_string m k (fun o => match o with Some (s, _) => changes (delete k m) (RBulk s) | None => replies m RNull end)
  | GETSET k v => on_string m k (fun o => changes (put_str m k v None) (bulk_or_null o))
  | SETRANGE k offset v => spec_setrange m k offset v
  | GETRANGE k start end_ => spec_getrange m k start end_
  | MGET ks => replies m (RBulks (map (spec_mget m) ks))
  | MSET args => spec_mset m args false
  | MSETNX args => spec_mset m args true
  | INCR k => spec_incr m k 1
  | DECR k => spec_incr m k (-1)
  | INCRBY k n => match string2ll n with None => replies m (RError NotInteger) | Some n => spec_incr m k n end
  | DECRBY k n => match string2ll n with None => replies m (RError NotInteger) | Some n => if n =? LLONG_MIN then replies m (RError DecrOverflow) else spec_incr m k (- n) end
  | APPEND k v => spec_append m k v
  | STRLEN k => on_string m k (fun o => replies m (RNum (Z.of_nat (length (old_str o)))))
  | LCS k1 k2 args => spec_lcs m k1 k2 args
  | EXPIRE k n args => spec_expire_cmd m k n args now UNIT_SECONDS
  | EXPIREAT k n args => spec_expire_cmd m k n args 0 UNIT_SECONDS
  | PEXPIRE k n args => spec_expire_cmd m k n args now UNIT_MILLISECONDS
  | PEXPIREAT k n args => spec_expire_cmd m k n args 0 UNIT_MILLISECONDS
  | TTL k => spec_ttl m k false KeyCmd.round_seconds
  | PTTL k => spec_ttl m k false id
  | EXPIRETIME k => spec_ttl m k true KeyCmd.round_seconds
  | PEXPIRETIME k => spec_ttl m k true id
  | PERSIST k => spec_persist m k
  | TOUCH ks => replies m (RNum (spec_count m ks))
  | EXISTS ks => replies m (RNum (spec_count m ks))
  | DEL ks => spec_del m ks
  | RENAME k1 k2 => spec_rename m k1 k2 false
  | RENAMENX k1 k2 => spec_rename m k1 k2 true
  end.

End Spec.

End KeySpec.
