(* ===== verification/DbSpec.v ===== *)
(** The operations of db.c on keys and times refine the abstract database of KeySpec.v, and keep [db->expires] in step
    with the times of the objects: the assertions of the code hold. *)

From S2P Require Import Prelude Util Sds SdsSpec BitfieldCmd Lcs LcsSpec Db StrCmd KeyCmd KeySpec.

Module DbSpec.
Import Util Db StrCmd KeySpec.

Definition abs_obj (o : strobj) : aval := match o with RawStr s => AStr s | IntStr z => AStr (sdec z) | NotStr id => AOther id end.
Definition abs_expire (when : Z) : option Z := if when =? -1 then None else Some when.
Definition abs_entry (e : kventry) : aentry := mkA (abs_obj (e_obj e)) (abs_expire (e_expire e)).

Section Refinement.
Context (max_bulk : Z).

(** An encoded integer has 64 bits; no string is longer than [proto_max_bulk_len]. *)
Definition obj_ok (o : strobj) : Prop := match o with RawStr s => Z.of_nat (length s) <= max_bulk | IntStr z => srange 64 z | NotStr _ => True end.

Definition entry_ok (e : kventry) : Prop := obj_ok (e_obj e) /\ -1 <= e_expire e < 2 ^ 63.

(** [db->expires] has the keys with a time. *)
Definition db_ok (db : keydb) : Prop :=
  map_Forall (fun _ e => entry_ok e) (entries db) /\ forall k, k ∈ expires db <-> exists e, entries db !! k = Some e /\ e_expire e <> -1.

(** The entries that have not expired are the same. *)
Definition db_is (now : Z) (db : keydb) (m : gmap bytes aentry) : Prop := (forall k, live now (abs_entry <$> entries db !! k) = live now (m !! k)) /\ db_ok db.

Lemma live_later now now' e : now <= now' -> live now' (live now e) = live now' e.
Proof. intros Hle. destruct e as [[v [when|]]|]; try done. cbn [live]. destruct (Z.gtb_spec now when); [|done]. cbn [live]. by destruct (Z.gtb_spec now' when); [|lia]. Qed.

Lemma db_is_later now now' db m : now <= now' -> db_is now db m -> db_is now' db m.
Proof. intros Hle [Hm Hok]. split; [|done]. intros k. by rewrite <- (live_later now now' _ Hle), Hm, live_later. Qed.

Lemma keyIsExpired_live now e : -1 <= e_expire e -> live now (Some (abs_entry e)) = if keyIsExpired now e then None else Some (abs_entry e).
Proof.
  intros He. unfold keyIsExpired, abs_entry, abs_expire. destruct (Z.eqb_spec (e_expire e) (-1)) as [->|Hne]; [done|]. cbn [live]. destruct (Z.ltb_spec (e_expire e) 0); [lia|]. by destruct (now >? e_expire e).
Qed.

(** An entry that is put in place of another one, and the times that are kept. *)
Lemma db_put now db m k e ex d : db_is now db m -> entry_ok e -> (forall k', k' ∈ ex <-> if decide (k' = k) then e_expire e <> -1 else k' ∈ expires db) ->
  db_is now (mkKeyDb (<[k := e]> (entries db)) ex d) (<[k := abs_entry e]> m).
Proof.
  intros [Hm [Hok Hex]] He Hx. split; [|split]; cbn [entries expires].
  - intros k'. destruct (decide (k = k')) as [<-|Hne]; [by rewrite !lookup_insert_eq|]. by rewrite !lookup_insert_ne.
  - by apply map_Forall_insert_2.
  - intros k'. rewrite Hx. destruct (decide (k' = k)) as [->|Hne]; [rewrite lookup_insert_eq; naive_solver|]. by rewrite lookup_insert_ne, Hex.
Qed.

Lemma db_ok_at db k e : db_ok db -> entries db !! k = Some e -> entry_ok e /\ (k ∈ expires db <-> e_expire e <> -1).
Proof. intros [Hok Hex] He. split; [by apply (Hok k)|]. rewrite Hex. naive_solver. Qed.

Lemma db_ok_none db k : db_ok db -> entries db !! k = None -> k ∉ expires db.
Proof. intros [_ Hex] He. rewrite Hex. naive_solver. Qed.

Lemma dbDelete_ok now db m k : db_is now db m ->
  exists db', dbGenericDelete db k = (db', bool_decide (is_Some (entries db !! k))) /\ db_is now db' (delete k m) /\ sdirty db' = sdirty db /\ entries db' = delete k (entries db).
Proof.
  intros [Hm Hok]. unfold dbGenericDelete. destruct (entries db !! k) as [e|] eqn:E.
  - eexists. split; [by rewrite bool_decide_true by done|]. destruct (db_ok_at db k e Hok E) as [_ Hk]. destruct Hok as [Hok Hex]. cbn [sdirty entries].
    assert (Hd : forall k', k' ∈ expires (if negb (e_expire e =? -1) then dropExpires db k else db) <-> k' <> k /\ k' ∈ expires db).
    { intros k'. destruct (Z.eqb_spec (e_expire e) (-1)) as [He|He]; cbn [negb dropExpires expires]; [split; [|naive_solver]; intros Hin; split; [|done]; intros ->; tauto|set_solver]. }
    replace (entries (if negb (e_expire e =? -1) then dropExpires db k else db)) with (entries db) by (by destruct (negb _)). split; [|by destruct (negb _)]. split; [|split]; cbn [entries expires].
    + intros k'. destruct (decide (k = k')) as [<-|Hne]; [by rewrite !lookup_delete_eq|]. by rewrite !lookup_delete_ne.
    + by apply map_Forall_delete.
    + intros k'. rewrite Hd, Hex. destruct (decide (k = k')) as [<-|Hne]; [rewrite lookup_delete_eq; naive_solver|]. rewrite lookup_delete_ne by done. naive_solver.
  - exists db. split; [by rewrite bool_decide_false by (by intros [? ?])|]. split; [|by rewrite delete_id]. split; [|done]. intros k'. destruct (decide (k = k')) as [<-|Hne]; [by rewrite lookup_delete_eq, E|]. by rewrite lookup_delete_ne.
Qed.

(** What a lookup gives. *)
Definition found (now : Z) (db : keydb) (m : gmap bytes aentry) (k : bytes) (o : option kventry) : Prop :=
  entries db !! k = o /\ get now m k = abs_entry <$> o /\ (forall e, o = Some e -> entry_ok e).

Lemma lookupKey_ok now db m k : db_is now db m ->
  exists db' o, lookupKey now db k = (db', o) /\ db_is now db' m /\ sdirty db' = sdirty db /\ found now db' m k o.
Proof.
  intros Hdb. pose proof Hdb as [Hm Hok]. unfold lookupKey, found, get, expireIfNeeded. pose proof (Hm k) as Hk. destruct (entries db !! k) as [e|] eqn:E; [|exists db, None; split_and!; done].
  destruct (db_ok_at db k e Hok E) as [He _]. cbn [fmap option_fmap option_map] in Hk. rewrite keyIsExpired_live in Hk by apply He. destruct (keyIsExpired now e) eqn:Hx; cbn [negb].
  - destruct (dbDelete_ok now db m k Hdb) as (db' & -> & [Hm' Hok'] & Hd & He'). cbn [fst]. exists db', None. split; [done|]. split; [split; [|done]|split; [done|]].
    + intros k'. rewrite He'. destruct (decide (k = k')) as [<-|Hne]; [by rewrite lookup_delete_eq|]. by rewrite lookup_delete_ne.
    + rewrite He', lookup_delete_eq. done.
  - exists db, (Some e). split; [done|]. split; [done|]. split; [done|]. split; [done|]. split; [done|]. by intros ? [= <-].
Qed.

Lemma setExpire_ok now db m k e when : db_is now db m -> entries db !! k = Some e -> 0 <= when < 2 ^ 63 ->
  exists db', setExpire db k when = Some db' /\ db_is now db' (<[k := mkA (abs_obj (e_obj e)) (Some when)]> m) /\ sdirty db' = sdirty db.
Proof.
  intros Hdb He Hw. destruct (db_ok_at db k e (proj2 Hdb) He) as [[Ho _] Hk]. unfold setExpire. rewrite He. cbn [mbind option_bind].
  assert (Hne : abs_entry (mkEntry (e_obj e) when) = mkA (abs_obj (e_obj e)) (Some when)) by (unfold abs_entry, abs_expire; cbn [e_obj e_expire]; by destruct (Z.eqb_spec when (-1)); [lia|]). rewrite <- Hne.
  assert (Hok : entry_ok (mkEntry (e_obj e) when)) by (split; [done|cbn [e_expire]; lia]). destruct (Z.eqb_spec (e_expire e) (-1)) as [Hx|Hx]; cbn [negb].
  - rewrite bool_decide_true by (cbn [putEntry expires]; tauto). cbn [guard mbind option_bind]. eexists. split; [done|]. split; [|done]. apply db_put; [done|done|]. intros k'. cbn [putEntry expires e_expire]. destruct (decide (k' = k)); [set_solver by lia|set_solver].
  - eexists. split; [done|]. split; [|done]. apply db_put; [done|done|]. intros k'. cbn [e_expire]. destruct (decide (k' = k)) as [->|]; [|done]. split; [lia|tauto].
Qed.

Lemma removeExpire_ok now db m k e : db_is now db m -> entries db !! k = Some e ->
  exists db', removeExpire db k = Some (db', negb (e_expire e =? -1)) /\ sdirty db' = sdirty db /\ if e_expire e =? -1 then db' = db else db_is now db' (<[k := mkA (abs_obj (e_obj e)) None]> m).
Proof.
  intros Hdb He. destruct (db_ok_at db k e (proj2 Hdb) He) as [[Ho _] Hk]. unfold removeExpire. destruct (Z.eqb_spec (e_expire e) (-1)) as [Hx|Hx]; cbn [negb].
  - exists db. rewrite bool_decide_false by tauto. done.
  - rewrite bool_decide_true by tauto. rewrite He. cbn [mbind option_bind]. eexists. split; [done|]. split; [done|]. change (mkA (abs_obj (e_obj e)) None) with (abs_entry (mkEntry (e_obj e) (-1))).
    apply db_put; [done|split; [done|cbn [e_expire]; lia]|]. intros k'. cbn [putEntry expires e_expire]. destruct (decide (k' = k)); set_solver.
Qed.

Lemma dbAdd_ok now db m k o expire : db_is now db m -> entries db !! k = None -> obj_ok o -> -1 <= expire < 2 ^ 63 ->
  exists db', dbAddInternal db k o expire = Some db' /\ db_is now db' (<[k := mkA (abs_obj o) (abs_expire expire)]> m) /\ sdirty db' = sdirty db /\ (expire = -1 -> entries db' !! k = Some (mkEntry o (-1))).
Proof.
  intros Hdb He Ho Hx. pose proof (db_ok_none db k (proj2 Hdb) He) as Hk. unfold dbAddInternal.
  assert (H1 : db_is now (putEntry db k (mkEntry o (-1))) (<[k := mkA (abs_obj o) None]> m)).
  { apply (db_put now db m k (mkEntry o (-1))); [done|split; [done|cbn [e_expire]; lia]|]. intros k'. cbn [e_expire]. destruct (decide (k' = k)) as [->|]; [|done]. tauto. }
  destruct (Z.eqb_spec expire (-1)) as [->|Hne]; cbn [negb].
  - eexists. split; [done|]. split; [done|]. split; [done|]. intros _. apply lookup_insert_eq.
  - destruct (setExpire_ok now _ _ k (mkEntry o (-1)) expire H1) as (db' & -> & H2 & H3); [by apply lookup_insert_eq|lia|]. exists db'. split; [done|]. split; [|done]. cbn [e_obj] in H2. rewrite insert_insert_eq in H2.
    unfold abs_expire. by destruct (Z.eqb_spec expire (-1)).
Qed.

Lemma dbSetValue_ok now db m k e o keep : db_is now db m -> entries db !! k = Some e -> obj_ok o ->
  exists db', dbSetValue db k o keep = Some db' /\ db_is now db' (<[k := mkA (abs_obj o) (if keep then abs_expire (e_expire e) else None)]> m) /\ sdirty db' = sdirty db /\
    exists x, entries db' !! k = Some (mkEntry o x).
Proof.
  intros Hdb He Ho. destruct (db_ok_at db k e (proj2 Hdb) He) as [[_ Hr] Hk]. unfold dbSetValue. rewrite He. cbn [mbind option_bind].
  assert (Hput : forall x, -1 <= x < 2 ^ 63 -> forall ex, (forall k', k' ∈ ex <-> if decide (k' = k) then x <> -1 else k' ∈ expires db) -> db_is now (mkKeyDb (<[k := mkEntry o x]> (entries db)) ex (sdirty db)) (<[k := mkA (abs_obj o) (abs_expire x)]> m)).
  { intros x Hx ex Hex. by apply (db_put now db m k (mkEntry o x)). }
  destruct (Z.geb_spec (e_expire e) 0) as [Hge|Hlt]; [destruct keep|].
  - rewrite bool_decide_true by (apply Hk; lia). cbn [guard mbind option_bind]. eexists. split; [done|]. split; [|split; [done|eexists; apply lookup_insert_eq]]. apply Hput; [done|]. intros k'. destruct (decide (k' = k)) as [->|]; [|done]. tauto.
  - eexists. split; [done|]. split; [|split; [done|eexists; apply lookup_insert_eq]]. apply (Hput (-1)); [lia|]. intros k'. cbn [putEntry expires]. destruct (decide (k' = k)); set_solver.
  - eexists. split; [done|]. split; [|split; [done|eexists; apply lookup_insert_eq]]. replace (if keep then abs_expire (e_expire e) else None) with (abs_expire (-1)) by (replace (e_expire e) with (-1) by lia; by destruct keep).
    apply (Hput (-1)); [lia|]. intros k'. destruct (decide (k' = k)) as [->|]; [|done]. split; [intros Hin; apply Hk in Hin; lia|done].
Qed.

(** The time that a new value has. *)
Definition kept (old : option kventry) (keep : bool) : option Z := match old with Some e => if keep then abs_expire (e_expire e) else None | None => None end.

Lemma setKeyByLink_ok now db m k old o keep : db_is now db m -> entries db !! k = old -> obj_ok o ->
  exists db', setKeyByLink db k o keep (match old with Some _ => true | None => false end) = Some db' /\ db_is now db' (<[k := mkA (abs_obj o) (kept old keep)]> m) /\ sdirty db' = sdirty db /\
    exists x, entries db' !! k = Some (mkEntry o x).
Proof.
  intros Hdb He Ho. unfold setKeyByLink. destruct old as [e|]; [by apply dbSetValue_ok|]. destruct (dbAdd_ok now db m k o (-1) Hdb He Ho ltac:(lia)) as (db' & -> & H1 & H2 & H3). exists db'. split; [done|]. split; [done|]. split; [done|]. exists (-1). by apply H3.
Qed.

End Refinement.
End DbSpec.
