(* ===== verification/StrCmdSpec.v ===== *)
(** The string commands refine the abstract database of KeySpec.v (t_string.c). *)

From S2P Require Import Prelude Util Sds SdsSpec BitfieldCmd Lcs LcsSpec Db StrCmd KeyCmd KeySpec DbSpec.

Module StrCmdSpec.
Import Util Db StrCmd KeySpec DbSpec.

(** * Parsing the options *)

Definition flag_of (o : str_option) : Z :=
  match o with
  | ONx => OBJ_SET_NX | OXx => OBJ_SET_XX | OGet => OBJ_SET_GET | OKeepTtl => OBJ_KEEPTTL | OPersist => OBJ_PERSIST
  | OTtl KEx _ => OBJ_EX | OTtl KPx _ => OBJ_PX | OTtl KExat _ => OBJ_EXAT | OTtl KPxat _ => OBJ_PXAT
  end.

(** [seen] has the options from the last one on. *)
Definition flags_of (seen : list str_option) : Z := foldr (fun o flags => Z.lor flags (flag_of o)) 0 seen.

Fixpoint ttl_of (seen : list str_option) : option (ttl_kind * bytes) :=
  match seen with [] => None | OTtl k arg :: _ => Some (k, arg) | _ :: seen => ttl_of seen end.

Definition unit_of (ttl : option (ttl_kind * bytes)) : time_unit := match ttl with Some (KPx, _) | Some (KPxat, _) => UNIT_MILLISECONDS | _ => UNIT_SECONDS end.

Definition fits (o : str_option) (seen : list str_option) : bool := forallb (fun b => negb (conflict o b)) seen.

Fixpoint fits_all (opts seen : list str_option) : bool := match opts with [] => true | o :: opts => fits o seen && fits_all opts (o :: seen) end.

Lemma has_lor a b f : has (Z.lor a b) f = has a f || has b f.
Proof.
  unfold has. rewrite Z.land_lor_distr_l. destruct (Z.eqb_spec (Z.land a f) 0) as [Ha|Ha], (Z.eqb_spec (Z.land b f) 0) as [Hb|Hb], (Z.eqb_spec (Z.lor (Z.land a f) (Z.land b f)) 0) as [Hc|Hc]; try done;
    rewrite ?Z.lor_eq_0_iff in Hc; tauto.
Qed.

Lemma free_of_lor a b l : free_of (Z.lor a b) l = free_of a l && free_of b l.
Proof. induction l as [|f l IH]; [done|]. cbn [free_of forallb] in *. fold (free_of (Z.lor a b) l) (free_of a l) (free_of b l). rewrite IH, has_lor. destruct (has a f), (has b f), (free_of a l); done. Qed.

(** The flags that exclude an option. *)
Definition excluded (o : str_option) : list Z :=
  match o with
  | ONx => [OBJ_SET_XX] | OXx => [OBJ_SET_NX] | OGet => []
  | OKeepTtl => [OBJ_PERSIST; OBJ_EX; OBJ_EXAT; OBJ_PX; OBJ_PXAT]
  | OPersist => [OBJ_EX; OBJ_EXAT; OBJ_PX; OBJ_PXAT; OBJ_KEEPTTL]
  | OTtl KEx _ => [OBJ_KEEPTTL; OBJ_PERSIST; OBJ_EXAT; OBJ_PX; OBJ_PXAT]
  | OTtl KPx _ => [OBJ_KEEPTTL; OBJ_PERSIST; OBJ_EX; OBJ_EXAT; OBJ_PXAT]
  | OTtl KExat _ => [OBJ_KEEPTTL; OBJ_PERSIST; OBJ_EX; OBJ_PX; OBJ_PXAT]
  | OTtl KPxat _ => [OBJ_KEEPTTL; OBJ_PERSIST; OBJ_EX; OBJ_EXAT; OBJ_PX]
  end.

Lemma free_of_fits o seen : free_of (flags_of seen) (excluded o) = fits o seen.
Proof.
  induction seen as [|b seen IH]; [by destruct o as [| | | | |[]]|]. cbn [flags_of foldr fits forallb]. fold (flags_of seen) (fits o seen). rewrite free_of_lor, IH, andb_comm. f_equal.
  by destruct o as [| | | | |[] ?], b as [| | | | |[] ?].
Qed.

Lemma unit_of_fits k arg seen : fits (OTtl k arg) seen = true ->
  match k with KEx | KExat => unit_of (ttl_of seen) | KPx | KPxat => UNIT_MILLISECONDS end = unit_of (Some (k, arg)).
Proof.
  destruct k; try done; (induction seen as [|b seen IH]; [done|]; cbn [fits forallb]; intros [Hb Hs]%andb_prop; destruct b as [| | | | |[] ?]; cbn [ttl_of unit_of]; first [by apply IH | done]).
Qed.

Definition parsed (seen : list str_option) : Z * time_unit * option bytes := (flags_of seen, unit_of (ttl_of seen), snd <$> ttl_of seen).

(** An option that is accepted if it fits, and the options after it. *)
Lemma parse_accept {X} (f : option (list str_option)) (o : str_option) seen (x : option X) (rest : list str_option -> option X) :
  x = match f with Some opts => if fits_all opts (o :: seen) then rest (rev opts ++ o :: seen) else None | None => None end ->
  (if fits o seen then x else None) = match cons o <$> f with Some opts => if fits_all opts seen then rest (rev opts ++ seen) else None | None => None end.
Proof.
  intros ->. destruct f as [opts|]; cbn [fmap option_fmap option_map fits_all rev]; [|by destruct (fits o seen)]. rewrite <- app_assoc. by destruct (fits o seen).
Qed.

(** The comparisons with the names, once the name is known. *)
Ltac names_known :=
  repeat match goal with |- context [bool_decide (?a = ?b)] =>
    first [ rewrite (bool_decide_false (a = b)) by assumption
          | let v := eval vm_compute in (bool_decide (a = b)) in lazymatch v with true => idtac | false => idtac end; change (bool_decide (a = b)) with v ] end;
  cbn [andb negb orb is_set].

Lemma fits_get seen : fits OGet seen = true.
Proof. induction seen as [|[] seen IH]; done. Qed.

Lemma parse_ok ct : forall n args seen, (length args <= n)%nat ->
  parseExtendedStringArguments ct args (flags_of seen) (unit_of (ttl_of seen)) (snd <$> ttl_of seen)
  = match tokens ct args with Some opts => if fits_all opts seen then Some (parsed (rev opts ++ seen)) else None | None => None end.
Proof.
  induction n as [|n IH]; intros [|opt args] seen Hn; cbn [length] in Hn; [done|lia|done|]. cbn [parseExtendedStringArguments tokens]. unfold BitfieldCmd.strcaseeq.
  set (w := map Sds.tolower (SdsSpec.c_string opt)).
  destruct (decide (w = name_nx)) as [->|H1]; [|destruct (decide (w = name_xx)) as [->|H2]; [|destruct (decide (w = name_getopt)) as [->|H3]; [|destruct (decide (w = name_keepttl)) as [->|H4]; [|destruct (decide (w = name_persist)) as [->|H5]; [|
  destruct (decide (w = name_ex)) as [->|H6]; [|destruct (decide (w = name_px)) as [->|H7]; [|destruct (decide (w = name_exat)) as [->|H8]; [|destruct (decide (w = name_pxat)) as [->|H9]]]]]]]]].
  all: names_known.
  1-5: destruct ct; cbn [andb negb is_set]; rewrite ?andb_true_r, ?andb_false_r; try (by destruct args);
    try replace (match args with [] => None | _ :: _ => None end) with (@None (Z * time_unit * option bytes)) by (by destruct args).
  1: change [OBJ_SET_XX] with (excluded ONx).
  2: change [OBJ_SET_NX] with (excluded OXx).
  4: change [OBJ_PERSIST; OBJ_EX; OBJ_EXAT; OBJ_PX; OBJ_PXAT] with (excluded OKeepTtl).
  5: change [OBJ_EX; OBJ_EXAT; OBJ_PX; OBJ_PXAT; OBJ_KEEPTTL] with (excluded OPersist).
  1, 2, 4, 5: rewrite free_of_fits; apply (parse_accept _ _ seen _ (fun l => Some (parsed l))); match goal with |- context [fits_all _ (?o :: ?l)] => apply (IH _ (o :: l)); lia end.
  1: { rewrite <- (parse_accept _ OGet seen _ (fun l => Some (parsed l)) eq_refl), fits_get. apply (IH args (OGet :: seen)); lia. }
  all: destruct args as [|next args]; [done|]; cbn [length] in Hn.
  1: change [OBJ_KEEPTTL; OBJ_PERSIST; OBJ_EXAT; OBJ_PX; OBJ_PXAT] with (excluded (OTtl KEx next)).
  2: change [OBJ_KEEPTTL; OBJ_PERSIST; OBJ_EX; OBJ_EXAT; OBJ_PXAT] with (excluded (OTtl KPx next)).
  3: change [OBJ_KEEPTTL; OBJ_PERSIST; OBJ_EX; OBJ_PX; OBJ_PXAT] with (excluded (OTtl KExat next)).
  4: change [OBJ_KEEPTTL; OBJ_PERSIST; OBJ_EX; OBJ_EXAT; OBJ_PX] with (excluded (OTtl KPxat next)).
  1-4: rewrite free_of_fits; rewrite <- (parse_accept _ _ seen _ (fun l => Some (parsed l)) eq_refl); destruct (fits _ seen) eqn:Hf; [|done]; apply unit_of_fits in Hf; rewrite ?Hf; match goal with |- context [fits_all _ (?o :: ?l)] => apply (IH _ (o :: l)); lia end.
  done.
Qed.

Lemma conflict_sym a b : conflict a b = conflict b a.
Proof. by destruct a as [| | | | |[] ?], b as [| | | | |[] ?]. Qed.

Lemma conflict_refl a : conflict a a = false.
Proof. by destruct a as [| | | | |[] ?]. Qed.

Lemma fits_in o seen : fits o seen = true <-> forall b, b ∈ seen -> conflict o b = false.
Proof. unfold fits. rewrite forallb_forall. setoid_rewrite negb_true_iff. setoid_rewrite <- list_elem_of_In. done. Qed.

Lemma fits_all_spec opts : forall seen, (forall a b, a ∈ seen -> b ∈ seen -> conflict a b = false) ->
  fits_all opts seen = true <-> forall a b, a ∈ opts ++ seen -> b ∈ opts ++ seen -> conflict a b = false.
Proof.
  induction opts as [|o opts IH]; intros seen Hs; cbn [fits_all app]; [done|]. rewrite andb_true_iff, fits_in. split.
  - intros [Ho Hall]. assert (Hs' : forall a b, a ∈ o :: seen -> b ∈ o :: seen -> conflict a b = false).
    { intros a b [->|Ha]%elem_of_cons [->|Hb]%elem_of_cons; [apply conflict_refl|by apply Ho|rewrite conflict_sym; by apply Ho|by apply Hs]. }
    rewrite (IH _ Hs') in Hall. intros a b Ha Hb. apply Hall; set_solver.
  - intros Hall. assert (Ho : forall b, b ∈ seen -> conflict o b = false) by (intros; apply Hall; set_solver). split; [done|]. apply IH; [|intros; apply Hall; set_solver].
    intros a b [->|Ha]%elem_of_cons [->|Hb]%elem_of_cons; [apply conflict_refl|by apply Ho|rewrite conflict_sym; by apply Ho|by apply Hs].
Qed.

Lemma compatible_spec opts : compatible opts = true <-> forall a b, a ∈ opts -> b ∈ opts -> conflict a b = false.
Proof. unfold compatible. rewrite forallb_forall. setoid_rewrite <- list_elem_of_In. setoid_rewrite fits_in. naive_solver. Qed.

Lemma compatible_fits opts : compatible opts = fits_all opts [].
Proof. apply eq_true_iff_eq. rewrite compatible_spec, fits_all_spec, app_nil_r; [done|]. by intros ? ? ?%not_elem_of_nil. Qed.

(** The parser accepts lists of known options without a conflict. *)
Lemma parse_spec ct args :
  parseExtendedStringArguments ct args 0 UNIT_SECONDS None = (opts ← spec_options ct args; Some (parsed (rev opts))).
Proof.
  pose proof (parse_ok ct (length args) args [] ltac:(lia)) as H. cbn [flags_of foldr ttl_of unit_of fmap option_fmap option_map] in H. rewrite H. unfold spec_options.
  destruct (tokens ct args) as [opts|]; cbn [mbind option_bind]; [|done]. rewrite compatible_fits, app_nil_r. by destruct (fits_all opts []).
Qed.

Lemma existsb_rev {X} (p : X -> bool) l : existsb p (rev l) = existsb p l.
Proof. induction l as [|x l IH]; [done|]. cbn [rev existsb]. rewrite existsb_app, IH. cbn [existsb]. rewrite orb_false_r. apply orb_comm. Qed.

Lemma ttl_of_app a : forall b, ttl_of (a ++ b) = match ttl_of a with Some t => Some t | None => ttl_of b end.
Proof. induction a as [|o a IH]; intros b; [done|]. cbn [app ttl_of]. by destruct o. Qed.

Lemma last_ttl_of opts : forall acc, last_ttl opts acc = match ttl_of (rev opts) with Some t => Some t | None => acc end.
Proof.
  induction opts as [|o opts IH]; intros acc; [done|]. cbn [rev]. rewrite ttl_of_app. destruct o; cbn [last_ttl ttl_of]; rewrite IH; by destruct (ttl_of (rev opts)).
Qed.

Lemma has_flags f p seen : (forall o, has (flag_of o) f = p o) -> has (flags_of seen) f = existsb p seen.
Proof. intros Hp. induction seen as [|o seen IH]; [by destruct f|]. cbn [flags_of foldr existsb]. fold (flags_of seen). by rewrite has_lor, IH, Hp, orb_comm. Qed.

(** Absolute or relative. *)
Definition relative (k : ttl_kind) : bool := match k with KEx | KPx => true | _ => false end.
Definition is_ttl (k : ttl_kind) (o : str_option) : bool := match o with OTtl k' _ => bool_decide (k = k') | _ => false end.

Lemma ttl_of_in seen k arg : ttl_of seen = Some (k, arg) -> OTtl k arg ∈ seen.
Proof. induction seen as [|o seen IH]; [done|]. destruct o; cbn [ttl_of]; intros; simplify_eq; set_solver. Qed.

(** The times are all of the same kind. *)
Lemma ttl_kinds opts k arg k' : compatible opts = true -> last_ttl opts None = Some (k, arg) -> has_opt (is_ttl k') opts = bool_decide (k' = k).
Proof.
  intros Hc Hl. pose proof (proj1 (compatible_spec opts) Hc) as Hall. clear Hc. rename Hall into Hc. rewrite last_ttl_of in Hl. destruct (ttl_of (rev opts)) as [t|] eqn:Ht; [|done]. injection Hl as ->. apply ttl_of_in in Ht. rewrite list_elem_of_In, <- in_rev, <- list_elem_of_In in Ht.
  apply eq_true_iff_eq. unfold has_opt. rewrite existsb_exists, bool_decide_eq_true. split.
  - intros (o & Ho & Hk). rewrite <- list_elem_of_In in Ho. destruct o as [| | | | |k1 arg1]; try done. cbn [is_ttl] in Hk. apply bool_decide_eq_true in Hk as <-. specialize (Hc _ _ Ho Ht). cbn [conflict] in Hc. apply bool_decide_eq_false in Hc. by apply dec_stable.
  - intros ->. exists (OTtl k arg). rewrite <- list_elem_of_In. split; [done|]. by apply bool_decide_eq_true.
Qed.

(** The sum of two times overflows when it is not positive at 64 bits. *)
Lemma time_sum a b : 0 < a < 2 ^ 63 -> 0 <= b < 2 ^ 63 -> (if s64 (a + b) <=? 0 then inl InvalidExpire else inr (s64 (a + b))) = (if a + b <=? LLONG_MAX then inr (a + b) else inl InvalidExpire : str_error + Z).
Proof.
  intros Ha Hb. unfold LLONG_MAX. destruct (Z.leb_spec (a + b) (2 ^ 63 - 1)) as [Hle|Hgt].
  - rewrite (swrap_small 64) by (unfold srange; lia). by destruct (Z.leb_spec (a + b) 0); [lia|].
  - assert (Hs : s64 (a + b) = a + b - 2 ^ 64). { rewrite <- (swrap_small 64 (a + b - 2 ^ 64)) by (unfold srange; lia). rewrite <- (swrap_uwrap 64 (a + b)), <- (swrap_uwrap 64 (a + b - 2 ^ 64)) by lia. f_equal. rewrite <- (uwrap_add_pow 64 (a + b - 2 ^ 64)). f_equal. lia. }
    rewrite Hs. by destruct (Z.leb_spec (a + b - 2 ^ 64) 0); [|lia].
Qed.

Lemma getExpire_ok now k arg flags : 0 <= now < 2 ^ 63 -> has flags OBJ_PX || has flags OBJ_EX = relative k ->
  getExpireMilliseconds now arg flags (unit_of (Some (k, arg))) = spec_when now k arg.
Proof.
  intros Hnow Hrel. unfold getExpireMilliseconds, spec_when, getLongLongArg. destruct (string2ll arg) as [n|] eqn:En; [|done]. apply string2ll_sound in En as [_ Hr]. unfold srange in Hr. rewrite Hrel.
  change (Z.quot LLONG_MAX 1000) with 9223372036854775. destruct (Z.leb_spec n 0) as [Hn|Hn]; cbn [orb]; [by destruct (Z.ltb_spec 0 n); [lia|]|]. destruct (Z.ltb_spec 0 n); [|lia]. cbn [andb].
  destruct k; cbn [unit_of relative]; try (destruct (Z.gtb_spec n 9223372036854775) as [Hbig|Hbig]; [match goal with |- _ = (if ?x <=? LLONG_MAX then _ else _) => destruct (Z.leb_spec x LLONG_MAX); [unfold LLONG_MAX in *; lia|done] end|]);
    rewrite ?(swrap_small 64 (n * 1000)) by (unfold srange; lia); try (apply time_sum; lia).
  all: match goal with |- _ = (if ?x <=? LLONG_MAX then _ else _) => destruct (Z.leb_spec x LLONG_MAX), (Z.leb_spec x 0); (done || unfold LLONG_MAX in *; lia) end.
Qed.

Lemma spec_when_range now kind arg when : 0 <= now -> spec_when now kind arg = inr when -> 0 <= when < 2 ^ 63.
Proof.
  intros Hnow. unfold spec_when. destruct (string2ll arg) as [n|]; [|done]. destruct (_ && _) eqn:E; [|done]. apply andb_true_iff in E as [Hn%Z.ltb_lt Hw%Z.leb_le]. unfold LLONG_MAX in Hw. intros [= <-]. destruct kind; lia.
Qed.

Section Refinement.
Context {A : Allocator} (max_bulk : Z).
Context (Hmax : 2 ^ 20 <= max_bulk < 2 ^ 63).

(** * Objects *)

(** The string of an object, and what the functions on objects give. *)
Record is_string (o : strobj) (s : bytes) : Prop := {
  is_decoded : getDecodedObject o = Some s;
  is_len : stringObjectLen o = Some (Z.of_nat (length s));
  is_short : Z.of_nat (length s) <= max_bulk;
  is_text : range_text o = Some s;
  is_bulk : addReplyBulk o = Some s;
  is_number : getLongLongFromObject (Some o) = Some (match string2ll s with Some v => inr v | None => inl NotInteger end)
}.

Lemma int_buffer z : srange 64 z -> ll2string (junk 32) 32 z = Some (sdec z ++ 0 :: drop (S (length (sdec z))) (junk 32), Z.of_nat (length (sdec z))).
Proof. intros Hz. pose proof (sdec_length_le z Hz). by apply ll2string_fits; [|rewrite junk_length|lia]. Qed.

Lemma sdec_c_string z tail : SdsSpec.c_string (sdec z ++ 0 :: tail) = sdec z.
Proof.
  pose proof (BitfieldCmd.sdec_digits z) as Hd. induction Hd as [|x l [Hx _] _ IH]; [done|]. cbn [app SdsSpec.c_string]. destruct (Z.eqb_spec x 0); [done|]. by rewrite IH.
Qed.

Lemma decode_ok o s : obj_ok max_bulk o -> abs_obj o = AStr s -> is_string o s.
Proof.
  destruct o as [s'|z|id]; cbn [obj_ok abs_obj]; [by intros Hs [= ->]; split| |done]. intros Hz [= <-]. pose proof (sdec_length_le z Hz). split.
  - cbn [getDecodedObject]. rewrite int_buffer by done. cbn [mbind option_bind]. by rewrite sdec_c_string.
  - cbn [stringObjectLen]. by rewrite sdigits10_correct.
  - lia.
  - unfold range_text. rewrite int_buffer by done. cbn [mbind option_bind]. by rewrite Nat2Z.id, take_app_length.
  - unfold addReplyBulk. rewrite (ll2string_fits (junk 34) 34) by (done || rewrite ?junk_length; lia). cbn [mbind option_bind]. rewrite put_app. cbn [mbind option_bind].
    destruct (drop (S (length (sdec z))) (junk 34)) as [|x l] eqn:El; [apply (f_equal length) in El; rewrite length_drop, junk_length in El; cbn [length] in El; lia|].
    replace (Z.of_nat (length (sdec z)) + 1) with (Z.of_nat (length (sdec z ++ [13]))) by (rewrite length_app; cbn [length]; lia). change (sdec z ++ 13 :: x :: l) with (sdec z ++ [13] ++ x :: l). rewrite app_assoc, put_app. cbn [mbind option_bind].
    by rewrite Nat2Z.id, <- app_assoc, take_app_length.
  - cbn [getLongLongFromObject]. by rewrite string2ll_complete.
Qed.

Lemma string2l_eq s : string2l s = string2ll s.
Proof.
  unfold string2l. destruct (string2ll s) as [z|] eqn:E; [|done]. apply string2ll_sound in E as [_ Hr]. unfold srange in Hr. cbn [mbind option_bind]. unfold LLONG_MIN, LLONG_MAX.
  destruct (Z.ltb_spec z (- 2 ^ 63)), (Z.gtb_spec z (2 ^ 63 - 1)); (done || lia).
Qed.

Lemma tryObjectEncoding_ok v : Z.of_nat (length v) <= max_bulk -> abs_obj (tryObjectEncoding v) = AStr v /\ obj_ok max_bulk (tryObjectEncoding v).
Proof.
  intros Hv. unfold tryObjectEncoding. destruct (_ <=? 20); [|done]. rewrite string2l_eq. destruct (string2ll v) as [z|] eqn:E; [|done]. apply string2ll_sound in E as [-> Hr]. done.
Qed.

Lemma checkStringLength_ok size append : 0 <= size < 2 ^ 63 -> 0 <= append <= max_bulk -> checkStringLength false max_bulk size append = (size + append <=? max_bulk).
Proof.
  intros Hs Ha. unfold checkStringLength. rewrite uwrap_add_l. rewrite (swrap_uwrap 64) by lia. destruct (Z.leb_spec (size + append) max_bulk) as [Hle|Hgt].
  - rewrite (swrap_small 64) by (unfold srange; lia). destruct (Z.gtb_spec (size + append) max_bulk), (Z.ltb_spec (size + append) size), (Z.ltb_spec (size + append) append); (done || lia).
  - destruct (decide (size + append < 2 ^ 63)).
    + rewrite (swrap_small 64) by (unfold srange; lia). by destruct (Z.gtb_spec (size + append) max_bulk); [|lia].
    + assert (Hw : s64 (size + append) < 0). { unfold swrap. change (2 ^ (64 - 1)) with (2 ^ 63). rewrite <- (Z.mod_unique (size + append + 2 ^ 63) (2 ^ 64) 1 (size + append + 2 ^ 63 - 2 ^ 64)); [lia|left; lia|lia]. }
      destruct (Z.ltb_spec (s64 (size + append)) size); [|lia]. by rewrite orb_true_r.
Qed.

(** The reply and the database are those of the specification. *)
Definition refines (now : Z) (res : option (keydb * str_reply)) (d : Z) (spec : result) : Prop :=
  exists db' r, res = Some (db', r) /\ db_is max_bulk now db' spec.1.1 /\ sdirty db' = d + spec.2 /\ spec.1.2 r.

(** The three cases of a key. *)
Inductive key_view (now : Z) (m : gmap bytes aentry) (k : bytes) : option kventry -> Prop :=
| NoKey : get now m k = None -> key_view now m k None
| StringKey e s : get now m k = Some (mkA (AStr s) (abs_expire (e_expire e))) -> is_string (e_obj e) s -> checkType (Some e) = false -> key_view now m k (Some e)
| OtherKey e id : get now m k = Some (mkA (AOther id) (abs_expire (e_expire e))) -> e_obj e = NotStr id -> checkType (Some e) = true -> key_view now m k (Some e).

Lemma found_view now db m k o : found max_bulk now db m k o -> key_view now m k o.
Proof.
  intros (_ & Hg & Hok). destruct o as [[o when]|]; [|by constructor]. destruct (Hok _ eq_refl) as [Ho _]. cbn [fmap option_fmap option_map abs_entry e_obj e_expire] in *.
  destruct o as [s|z|id]; [eapply StringKey|eapply StringKey|eapply OtherKey]; cbn [e_obj e_expire]; first [exact Hg | done | by apply decode_ok].
Qed.

(** A reply without a change, and a change of one key. *)
Lemma refines_reply now db d m r : db_is max_bulk now db m -> sdirty db = d -> refines now (Some (db, r)) d (replies m r).
Proof. intros Hdb Hd. exists db, r. split_and!; (done || cbn; lia). Qed.

Lemma refines_change now db d m r : db_is max_bulk now db m -> sdirty db = d -> refines now (Some (sdirty_add db 1, r)) d (changes m r).
Proof. intros Hdb Hd. eexists _, r. split; [done|]. split; [done|]. by rewrite <- Hd. Qed.

(** A lookup, and the three cases of the key. *)
Ltac look Hdb k :=
  let db' := fresh "db" in let o := fresh "o" in let E := fresh "E" in let Hd := fresh "Hd" in let Hf := fresh "Hf" in let Hv := fresh "Hv" in
  destruct (lookupKey_ok _ _ _ _ k Hdb) as (db' & o & E & ? & Hd & Hf); rewrite E; pose proof (found_view _ _ _ _ _ Hf) as Hv; destruct Hv as [Hg|e s Hg Hs Ht|e id Hg Hid Ht]; rewrite ?Ht; unfold on_string; rewrite ?Hg.

Section Command.
Context (now : Z) (db : keydb) (m : gmap bytes aentry).
Context (Hnow : 0 <= now < 2 ^ 63) (Hdb : db_is max_bulk now db m).

Lemma getGeneric_ok k : exists db' o, db_is max_bulk now db' m /\ sdirty db' = sdirty db /\ found max_bulk now db' m k o /\
  match o with
  | None => get now m k = None /\ getGenericCommand now db k = Some (db', RNull, true)
  | Some e =>
    (exists s, get now m k = Some (mkA (AStr s) (abs_expire (e_expire e))) /\ is_string (e_obj e) s /\ getGenericCommand now db k = Some (db', RBulk s, true)) \/
    (exists id, get now m k = Some (mkA (AOther id) (abs_expire (e_expire e))) /\ getGenericCommand now db k = Some (db', RError StrWrongType, false))
  end.
Proof.
  unfold getGenericCommand. look Hdb k; eexists _, _; (split; [done|]); (split; [done|]); (split; [done|]); cbn iota.
  - by split.
  - left. exists s. split; [done|]. split; [done|]. by rewrite (is_bulk _ _ Hs).
  - right. by exists id.
Qed.

Lemma getCommand_ok k : refines now (getCommand now db k) (sdirty db) (spec_cmd now max_bulk m (GET k)).
Proof.
  unfold getCommand. cbn [spec_cmd]. unfold on_string. destruct (getGeneric_ok k) as (db' & [e|] & H1 & H2 & _ & Ho); [destruct Ho as [(s & -> & _ & ->)|(id & -> & ->)]|destruct Ho as [-> ->]]; by apply refines_reply.
Qed.

Lemma strlenCommand_ok k : refines now (strlenCommand now db k) (sdirty db) (spec_cmd now max_bulk m (STRLEN k)).
Proof. unfold strlenCommand. cbn [spec_cmd]. look Hdb k; [by apply refines_reply| |by apply refines_reply]. rewrite (is_len _ _ Hs). by apply refines_reply. Qed.

Lemma getdel_ok k : refines now (getdelCommand now db k) (sdirty db) (spec_cmd now max_bulk m (GETDEL k)).
Proof.
  unfold getdelCommand. cbn [spec_cmd]. unfold on_string. destruct (getGeneric_ok k) as (db' & [e|] & H1 & H2 & (He & _) & Ho).
  - destruct Ho as [(s & -> & _ & ->)|(id & -> & ->)]; cbn [mbind option_bind]; [|by apply refines_reply]. destruct (dbDelete_ok max_bulk now db' m k H1) as (db2 & -> & H3 & H4 & _). rewrite He, bool_decide_true by done. apply refines_change; [done|congruence].
  - destruct Ho as [-> ->]. cbn [mbind option_bind]. unfold dbGenericDelete. rewrite He. by apply refines_reply.
Qed.

(** A new value of the key that was looked up. *)
Lemma refines_set db' k old v o keep r : db_is max_bulk now db' m -> sdirty db' = sdirty db -> entries db' !! k = old -> abs_obj o = AStr v -> obj_ok max_bulk o ->
  refines now (db' ← setKeyByLink db' k o keep (match old with Some _ => true | None => false end); Some (sdirty_add db' 1, r)) (sdirty db) (changes (put_str m k v (kept old keep)) r).
Proof.
  intros H1 H2 He Ho Hok. destruct (setKeyByLink_ok max_bulk now db' m k old o keep H1 He Hok) as (db2 & -> & H3 & H4 & _). cbn [mbind option_bind]. unfold put_str. rewrite <- Ho. apply refines_change; [done|congruence].
Qed.

(** [setKey] makes the key persistent. *)
Lemma refines_setKey db' k v r : db_is max_bulk now db' m -> sdirty db' = sdirty db -> Z.of_nat (length v) <= max_bulk ->
  refines now (db' ← setKey now db' k (tryObjectEncoding v); Some (sdirty_add db' 1, r)) (sdirty db) (changes (put_str m k v None) r).
Proof.
  intros H1 H2 [Hv Hvok]%tryObjectEncoding_ok. unfold setKey. destruct (lookupKey_ok max_bulk now db' m k H1) as (db2 & old & -> & H3 & H4 & (He & _)). replace None with (kept old false) by (by destruct old). apply refines_set; (done || congruence).
Qed.

Lemma getset_ok k v : Z.of_nat (length v) <= max_bulk -> refines now (getsetCommand now db k v) (sdirty db) (spec_cmd now max_bulk m (GETSET k v)).
Proof.
  intros Hv. unfold getsetCommand. cbn [spec_cmd]. unfold on_string. destruct (getGeneric_ok k) as (db' & [e|] & H1 & H2 & _ & Ho).
  - destruct Ho as [(s & -> & _ & ->)|(id & -> & ->)]; cbn [mbind option_bind]; [by apply refines_setKey|by apply refines_reply].
  - destruct Ho as [-> ->]. cbn [mbind option_bind]. by apply refines_setKey.
Qed.

(** The test of the overflow is exact. *)
Lemma incr_overflow old incr : srange 64 old -> srange 64 incr ->
  ((incr <? 0) && (old <? 0) && (incr <? s64 (LLONG_MIN - old))) || ((incr >? 0) && (old >? 0) && (incr >? s64 (LLONG_MAX - old))) = negb (bool_decide (srange 64 (old + incr))).
Proof.
  intros Ho Hi. unfold srange in Ho, Hi. unfold LLONG_MIN, LLONG_MAX. change (2 ^ (64 - 1)) with (2 ^ 63) in *. case_bool_decide as Hr; unfold srange in Hr; change (2 ^ (64 - 1)) with (2 ^ 63) in *; destruct (Z.ltb_spec old 0) as [Hneg|Hpos]; cbn [negb].
  1, 3: rewrite (swrap_small 64 (- 2 ^ 63 - old)) by (unfold srange; lia); destruct (Z.gtb_spec old 0); [lia|]; rewrite (andb_false_r (incr >? 0)); destruct (Z.ltb_spec incr 0), (Z.ltb_spec incr (- 2 ^ 63 - old)); (done || lia).
  all: rewrite (swrap_small 64 (2 ^ 63 - 1 - old)) by (unfold srange; lia); rewrite andb_false_r; cbn [andb orb]; destruct (Z.gtb_spec incr 0), (Z.gtb_spec old 0), (Z.gtb_spec incr (2 ^ 63 - 1 - old)); (done || lia).
Qed.

Lemma incr_step db' k old (o : option kventry) incr : srange 64 old -> srange 64 incr -> db_is max_bulk now db' m -> sdirty db' = sdirty db -> entries db' !! k = o ->
  refines now (if ((incr <? 0) && (old <? 0) && (incr <? s64 (LLONG_MIN - old))) || ((incr >? 0) && (old >? 0) && (incr >? s64 (LLONG_MAX - old))) then Some (db', RError IncrOverflow)
    else db' ← setKeyByLink db' k (IntStr (s64 (old + incr))) true (match o with Some _ => true | None => false end); Some (sdirty_add db' 1, RNum (s64 (old + incr)))) (sdirty db)
  (if bool_decide (srange 64 (old + incr)) then changes (put_str m k (sdec (old + incr)) (kept o true)) (RNum (old + incr)) else replies m (RError IncrOverflow)).
Proof. intros Ho Hi H1 H2 He. rewrite incr_overflow by done. case_bool_decide as Hs; [|by apply refines_reply]. rewrite (swrap_small 64) by done. by apply refines_set. Qed.

Lemma incr_ok k incr : srange 64 incr -> refines now (incrDecrCommand now db k incr) (sdirty db) (spec_incr now m k incr).
Proof.
  intros Hi. unfold incrDecrCommand, spec_incr. look Hdb k; [| |by apply refines_reply]; cbn [option_map]; destruct Hf as [He _].
  - by apply (incr_step _ k 0 None incr).
  - rewrite (is_number _ _ Hs). cbn [mbind option_bind]. destruct (string2ll s) as [old|] eqn:E1; [|by apply refines_reply]. apply string2ll_sound in E1 as [_ Hr]. by apply (incr_step _ k old (Some e) incr).
Qed.

Lemma incrby_ok k n : refines now (incrbyCommand now db k n) (sdirty db) (spec_cmd now max_bulk m (INCRBY k n)).
Proof. unfold incrbyCommand, getLongLongArg. cbn [spec_cmd]. destruct (string2ll n) as [z|] eqn:E; [|by apply refines_reply]. apply string2ll_sound in E as [_ Hr]. by apply incr_ok. Qed.

Lemma decrby_ok k n : refines now (decrbyCommand now db k n) (sdirty db) (spec_cmd now max_bulk m (DECRBY k n)).
Proof.
  unfold decrbyCommand, getLongLongArg. cbn [spec_cmd]. destruct (string2ll n) as [z|] eqn:E; [|by apply refines_reply]. apply string2ll_sound in E as [_ Hr].
  destruct (Z.eqb_spec z LLONG_MIN) as [->|Hne]; [by apply refines_reply|]. unfold srange, LLONG_MIN in *. change (2 ^ (64 - 1)) with (2 ^ 63) in *.
  rewrite (swrap_small 64) by (unfold srange; lia). apply incr_ok. unfold srange. lia.
Qed.

Lemma appendCommand_ok k v : Z.of_nat (length v) <= max_bulk -> refines now (appendCommand now false max_bulk db k v) (sdirty db) (spec_cmd now max_bulk m (APPEND k v)).
Proof.
  intros Hlen. destruct (tryObjectEncoding_ok v Hlen) as [Hv Hvok]. unfold appendCommand. cbn [spec_cmd]. unfold spec_append. look Hdb k; [| |by apply refines_reply].
  - rewrite (is_len _ _ (decode_ok _ _ Hvok Hv)). cbn [mbind option_bind old_str app]. rewrite bool_decide_false by naive_solver. destruct Hf as [He _]. by apply (refines_set _ k None v _ false).
  - rewrite (is_len _ _ Hs), (is_decoded _ _ Hs). cbn [mbind option_bind old_str]. pose proof (is_short _ _ Hs). rewrite checkStringLength_ok, length_app, Nat2Z.inj_add by lia. rewrite bool_decide_true by done. cbn [andb].
    destruct (Z.leb_spec (Z.of_nat (length s) + Z.of_nat (length v)) max_bulk) as [Hle|Hgt], (Z.gtb_spec (Z.of_nat (length s) + Z.of_nat (length v)) max_bulk); try lia; [|by apply refines_reply].
    destruct Hf as [He _]. apply (refines_set _ k (Some e) _ (RawStr (s ++ v)) true); try done. cbn [obj_ok]. rewrite length_app. lia.
Qed.

Lemma write_range_ok s z v : 0 <= z -> write_range s z v = Some (overwrite s (Z.to_nat z) v).
Proof.
  intros Hz. unfold write_range, growzero, overwrite. set (offset := Z.to_nat z). replace (Z.to_nat (z + Z.of_nat (length v) - Z.of_nat (length s))) with (offset + length v - length s)%nat by lia.
  rewrite store_Some by (rewrite length_app, length_replicate; lia). do 2 f_equal.
  - destruct (decide (offset <= length s)%nat); [by rewrite !take_app_le|]. rewrite !take_app_ge by lia. f_equal. rewrite !take_replicate. f_equal. lia.
  - f_equal. destruct (decide (offset + length v <= length s)%nat).
    + replace (offset + length v - length s)%nat with 0%nat by lia. cbn [replicate]. by rewrite app_nil_r.
    + rewrite drop_app_ge, drop_replicate, (drop_ge s) by lia. by replace (offset + length v - length s - (offset + length v - length s))%nat with 0%nat by lia.
Qed.

Lemma overwrite_length s offset v : length (overwrite s offset v) = Nat.max (length s) (offset + length v).
Proof. unfold overwrite. rewrite !length_app, length_take, length_drop, length_app, length_replicate. lia. Qed.

Lemma overwrite_zeros offset v : overwrite (replicate (offset + length v) 0) offset v = overwrite [] offset v.
Proof.
  unfold overwrite. rewrite drop_ge by (rewrite length_replicate; lia). rewrite drop_nil. f_equal. rewrite take_app_le by (rewrite length_replicate; lia). cbn [app length]. rewrite !take_replicate. f_equal. lia.
Qed.

Lemma setrange_ok k offset v : Z.of_nat (length v) <= max_bulk -> refines now (setrangeCommand now false max_bulk db k offset v) (sdirty db) (spec_cmd now max_bulk m (SETRANGE k offset v)).
Proof.
  intros Hlen. unfold setrangeCommand, getLongLongArg. cbn [spec_cmd]. unfold spec_setrange. destruct (string2ll offset) as [z|] eqn:E; [|by apply refines_reply]. apply string2ll_sound in E as [_ Hr]. unfold srange in Hr.
  destruct (Z.ltb_spec z 0) as [Hz|Hz]; [by apply refines_reply|]. assert (Hnil : (Z.of_nat (length v) =? 0) = bool_decide (v = [])) by (by destruct v). rewrite Hnil.
  look Hdb k; [| |by apply refines_reply]; rewrite ?(is_len _ _ Hs), ?(is_decoded _ _ Hs); cbn [mbind option_bind old_str old_ttl]; (destruct (bool_decide (v = [])); [by apply refines_reply|]); rewrite checkStringLength_ok by lia;
    (destruct (Z.leb_spec (z + Z.of_nat (length v)) max_bulk) as [Hle|Hgt], (Z.gtb_spec (z + Z.of_nat (length v)) max_bulk); try lia; [|by apply refines_reply]); cbn [negb].
  - replace (Z.to_nat (z + Z.of_nat (length v))) with (Z.to_nat z + length v)%nat by lia. rewrite write_range_ok, overwrite_zeros by done. cbn [mbind option_bind].
    pose proof (overwrite_length [] (Z.to_nat z) v) as Hl. cbn [length] in Hl. replace (z + Z.of_nat (length v)) with (Z.of_nat (length (overwrite [] (Z.to_nat z) v))) by lia. destruct Hf as [He _]. apply (refines_set _ k None _ (RawStr _) false); try done. cbn [obj_ok]. lia.
  - rewrite write_range_ok by done. cbn [mbind option_bind]. pose proof (overwrite_length s (Z.to_nat z) v) as Hl. pose proof (is_short _ _ Hs).
    replace (Z.max (Z.of_nat (length s)) (z + Z.of_nat (length v))) with (Z.of_nat (length (overwrite s (Z.to_nat z) v))) by lia. destruct Hf as [He _]. apply (refines_set _ k (Some e) _ (RawStr _) true); try done. cbn [obj_ok]. lia.
Qed.

Lemma getrange_slice_ok s start end_ : Z.of_nat (length s) < 2 ^ 63 -> srange 64 start -> srange 64 end_ ->
  (if (start <? 0) && (end_ <? 0) && (start >? end_) then Some []
   else let '(start, end_) := range_bounds (Z.of_nat (length s)) start end_ in
        if (start >? end_) || (Z.of_nat (length s) =? 0) then Some [] else load s (Z.to_nat start) (Z.to_nat (end_ - start + 1))) = Some (spec_slice s start end_).
Proof.
  intros Hlen Hs He. unfold srange in Hs, He. change (2 ^ (64 - 1)) with (2 ^ 63) in *. unfold spec_slice. destruct ((start <? 0) && (end_ <? 0) && (start >? end_)); [done|]. unfold range_bounds.
  assert (Hi : forall i, - 2 ^ 63 <= i < 2 ^ 63 -> (if (if i <? 0 then s64 (Z.of_nat (length s) + i) else i) <? 0 then 0 else if i <? 0 then s64 (Z.of_nat (length s) + i) else i) = index (Z.of_nat (length s)) i).
  { intros i Hi. unfold index. destruct (Z.ltb_spec i 0) as [Hneg|Hpos]; [rewrite (swrap_small 64) by (unfold srange; lia); destruct (Z.ltb_spec (Z.of_nat (length s) + i) 0)|destruct (Z.ltb_spec i 0)]; lia. }
  rewrite !Hi by done. assert (Hpos : forall i, - 2 ^ 63 <= i < 2 ^ 63 -> 0 <= index (Z.of_nat (length s)) i < 2 ^ 63) by (intros i Hr; unfold index; destruct (Z.ltb_spec i 0); lia).
  pose proof (Hpos start Hs) as Hs'. pose proof (Hpos end_ He) as He'. clear Hi Hpos. revert Hs' He'. generalize (index (Z.of_nat (length s)) start) as a, (index (Z.of_nat (length s)) end_) as b. intros a b Ha Hb.
  rewrite (uwrap_small 64 b) by (unfold urange; lia). rewrite (swrap_small 64 (Z.of_nat (length s) - 1)) by (unfold srange; lia).
  replace (if b >=? Z.of_nat (length s) then Z.of_nat (length s) - 1 else b) with (Z.min (Z.of_nat (length s) - 1) b) by (destruct (Z.geb_spec b (Z.of_nat (length s))); lia).
  destruct (Z.gtb_spec a (Z.min (Z.of_nat (length s) - 1) b)) as [Hgt|Hle]; cbn [orb]; [by replace (Z.to_nat (Z.min (Z.of_nat (length s) - 1) b - a + 1)) with 0%nat by lia|].
  destruct (Z.eqb_spec (Z.of_nat (length s)) 0); [lia|]. apply load_Some. lia.
Qed.

Lemma getrange_ok k start end_ : refines now (getrangeCommand now db k start end_) (sdirty db) (spec_cmd now max_bulk m (GETRANGE k start end_)).
Proof.
  unfold getrangeCommand, getLongLongArg. cbn [spec_cmd]. unfold spec_getrange. destruct (string2ll start) as [a|] eqn:Ea; [|by apply refines_reply]. destruct (string2ll end_) as [b|] eqn:Eb; [|by apply refines_reply].
  apply string2ll_sound in Ea as [_ Ha], Eb as [_ Hb]. look Hdb k; [| |by apply refines_reply].
  - replace (spec_slice (old_str None) a b) with (@nil Z); [by apply refines_reply|]. cbn [old_str]. unfold spec_slice. cbn [length]. rewrite drop_nil, take_nil. by destruct (_ && _).
  - rewrite (is_text _ _ Hs). cbn [mbind option_bind old_str]. pose proof (is_short _ _ Hs). pose proof (getrange_slice_ok s a b ltac:(lia) Ha Hb) as Hsl. revert Hsl. destruct ((a <? 0) && (b <? 0) && (a >? b)); [intros [= <-]; by apply refines_reply|].
    destruct (range_bounds (Z.of_nat (length s)) a b) as [i j]. destruct ((i >? j) || (Z.of_nat (length s) =? 0)); [intros [= <-]; by apply refines_reply|]. intros ->. by apply refines_reply.
Qed.

Lemma mget_loop_ok ks : forall db, db_is max_bulk now db m -> exists db', mget_loop now db ks = Some (db', map (spec_mget now m) ks) /\ db_is max_bulk now db' m /\ sdirty db' = sdirty db.
Proof.
  clear Hdb db. induction ks as [|k ks IH]; intros db Hdb; cbn [mget_loop map]; [by exists db|]. unfold spec_mget at 1. look Hdb k; rewrite ?(is_bulk _ _ Hs); cbn [mbind option_bind]; (destruct (IH db0) as (db' & -> & H1 & H2); [done|]); exists db'; (split; [done|]); (split; [done|]); congruence.
Qed.

Lemma mget_ok ks : refines now (mgetCommand now db ks) (sdirty db) (spec_cmd now max_bulk m (MGET ks)).
Proof. unfold mgetCommand. destruct (mget_loop_ok ks db Hdb) as (db' & -> & H1 & H2). cbn [spec_cmd mbind option_bind]. by apply refines_reply. Qed.

Lemma pairs_length n : forall args, (length args <= n)%nat -> match pairs args with Some kvs => length args = (2 * length kvs)%nat | None => Nat.Odd (length args) end.
Proof.
  induction n as [|n IH]; intros [|k [|v args]] Hn; cbn [length] in Hn; try lia; cbn [pairs length]; [done|done|by exists 0%nat|].
  specialize (IH args ltac:(lia)). destruct (pairs args) as [kvs|]; cbn [fmap option_fmap option_map length]; [lia|]. destruct IH as [j ->]. exists (S j). lia.
Qed.

(** Induction on the pairs. *)
Lemma pairs_cons args kv kvs : pairs args = Some (kv :: kvs) -> exists rest, args = kv.1 :: kv.2 :: rest /\ pairs rest = Some kvs.
Proof. destruct args as [|k [|v rest]]; try done. cbn [pairs]. destruct (pairs rest) as [kvs'|] eqn:E; cbn; [|done]. intros [= <- <-]. by exists rest. Qed.

Lemma pairs_nil args : pairs args = Some [] -> args = [].
Proof. destruct args as [|k [|v args]]; try done. cbn [pairs]. by destruct (pairs args). Qed.

Lemma any_exists_ok kvs : forall db args, db_is max_bulk now db m -> pairs args = Some kvs ->
  exists db', any_exists now db args = (db', existsb (fun kv => bool_decide (is_Some (get now m kv.1))) kvs) /\ db_is max_bulk now db' m /\ sdirty db' = sdirty db.
Proof.
  clear Hdb db. induction kvs as [|[k v] kvs IH]; intros db args Hdb Hp.
  - apply pairs_nil in Hp as ->. by exists db.
  - apply pairs_cons in Hp as (rest & -> & Hp). cbn [fst snd any_exists existsb]. look Hdb k; rewrite ?bool_decide_true by done; [|by exists db0..].
    rewrite bool_decide_false by (by intros [? ?]). destruct (IH db0 rest) as (db' & -> & H1 & H2); [done|done|]. exists db'. split; [done|]. split; [done|]. congruence.
Qed.

Lemma mset_loop_ok kvs : forall db m args, db_is max_bulk now db m -> pairs args = Some kvs -> Forall (fun a => Z.of_nat (length a) <= max_bulk) args ->
  exists db', mset_loop now db args = Some db' /\ db_is max_bulk now db' (foldl (fun m kv => put_str m kv.1 kv.2 None) m kvs) /\ sdirty db' = sdirty db.
Proof.
  clear Hdb db m. induction kvs as [|[k v] kvs IH]; intros db m args Hdb Hp Hl.
  - apply pairs_nil in Hp as ->. by exists db.
  - apply pairs_cons in Hp as (rest & -> & Hp). cbn [fst snd] in *. inversion Hl as [|? ? _ Hl1]; subst. inversion Hl1 as [|? ? Hv Hl2]; subst. destruct (tryObjectEncoding_ok v Hv) as [Hvo Hvok]. cbn [mset_loop foldl fst snd].
    unfold setKey. destruct (lookupKey_ok max_bulk now db m k Hdb) as (db2 & old & -> & H1 & H2 & (He & _)). destruct (setKeyByLink_ok max_bulk now db2 m k old _ false H1 He Hvok) as (db3 & -> & H3 & H4 & _). cbn [mbind option_bind].
    rewrite Hvo in H3. replace (kept old false) with (@None Z) in H3 by (by destruct old). destruct (IH db3 (put_str m k v None) rest) as (db' & -> & H5 & H6); [done..|]. exists db'. split; [done|]. split; [done|]. congruence.
Qed.

Lemma mset_ok args nx : Forall (fun a => Z.of_nat (length a) <= max_bulk) args -> refines now (msetGenericCommand now db args nx) (sdirty db) (spec_mset now m args nx).
Proof.
  intros Hl. unfold msetGenericCommand, spec_mset. pose proof (pairs_length (length args) args ltac:(lia)) as Hp. destruct (pairs args) as [kvs|] eqn:E.
  - replace ((Z.of_nat (length args) + 1) mod 2) with 1; [|rewrite Hp; apply (Z.mod_unique _ 2 (Z.of_nat (length kvs))); [left; lia|lia]]. cbn [Z.eqb].
    assert (Hx : exists db', (if nx then any_exists now db args else (db, false)) = (db', nx && existsb (fun kv => bool_decide (is_Some (get now m kv.1))) kvs) /\ db_is max_bulk now db' m /\ sdirty db' = sdirty db).
    { destruct nx; [by apply any_exists_ok|by exists db]. }
    destruct Hx as (db' & -> & H1 & H2). destruct (nx && _); [by apply refines_reply|]. destruct (mset_loop_ok kvs db' m args H1 E Hl) as (db2 & -> & H3 & H4). cbn [mbind option_bind].
    eexists _, _. split; [done|]. split; [done|]. split; [|done]. cbn [sdirty_add sdirty snd]. rewrite H4, H2. f_equal. rewrite Hp. replace (Z.of_nat (2 * length kvs) + 1 - 1) with (Z.of_nat (length kvs) * 2) by lia. by rewrite Z.div_mul.
  - destruct Hp as [j Hj]. replace ((Z.of_nat (length args) + 1) mod 2) with 0; [by apply refines_reply|]. rewrite Hj. apply (Z.mod_unique _ 2 (Z.of_nat j + 1)); [left; lia|lia].
Qed.

(** The arguments of [setGenericCommand] are those of the specification. *)
Record set_args (flags : Z) (val : strobj) (expire : option bytes) (unit : time_unit) (v : bytes) (opts : list str_option) (ttl : option (ttl_kind * bytes)) : Prop := {
  sa_val : abs_obj val = AStr v;
  sa_ok : obj_ok max_bulk val;
  sa_nx : has flags OBJ_SET_NX = has_opt o_nx opts;
  sa_xx : has flags OBJ_SET_XX = has_opt o_xx opts;
  sa_get : has flags OBJ_SET_GET = has_opt o_get opts;
  sa_keep : has flags OBJ_KEEPTTL = has_opt o_keepttl opts;
  sa_expire : expire = snd <$> ttl;
  sa_when : match expire with Some expire => match getExpireMilliseconds now expire flags unit with inl e => inl e | inr ms => inr (Some ms) end | None => inr None end = spec_expire now ttl
}.

Lemma set_write_ok flags val expire unit v opts ttl when k db1 : set_args flags val expire unit v opts ttl -> spec_expire now ttl = inr when -> db_is max_bulk now db1 m -> sdirty db1 = sdirty db -> forall okr abr,
  refines now (let '(db, old) := lookupKey now db1 k in
    let found := match old with Some _ => true | None => false end in
    if (has flags OBJ_SET_NX && found) || (has flags OBJ_SET_XX && negb found) then Some (db, abr)
    else
      let keepTTL := has flags OBJ_KEEPTTL || match expire with Some _ => true | None => false end in
      db ← setKeyByLink db k val keepTTL found;
      db ← match when with Some when => setExpire db k when | None => Some db end;
      Some (sdirty_add db 1, okr)) (sdirty db)
  (let present := match get now m k with Some _ => true | None => false end in
   if (has_opt o_nx opts && present) || (has_opt o_xx opts && negb present) then replies m abr
   else
     let kept := match get now m k with Some e => if has_opt o_keepttl opts then a_expire e else None | None => None end in
     changes (put_str m k v (match when with Some _ => when | None => kept end)) okr).
Proof.
  intros [Hval Hok Hnx Hxx _ Hkeep Hexp _] Hwhen Hdb1 Hd1 okr abr. destruct (lookupKey_ok max_bulk now db1 m k Hdb1) as (db' & old & -> & H1 & H2 & (He & Hg & _)). rewrite Hnx, Hxx, Hkeep, Hg.
  replace (match abs_entry <$> old with Some _ => true | None => false end) with (match old with Some _ => true | None => false end) by (by destruct old). cbv zeta.
  destruct (_ || _); [apply refines_reply; [done|congruence]|]. destruct (setKeyByLink_ok max_bulk now db' m k old val (has_opt o_keepttl opts || match expire with Some _ => true | None => false end) H1 He Hok) as (db2 & -> & H3 & H4 & x & He2). cbn [mbind option_bind].
  rewrite Hval in H3. destruct when as [when|].
  - destruct (setExpire_ok max_bulk now db2 _ k _ when H3 He2) as (db3 & -> & H5 & H6); [destruct ttl as [[kind arg]|]; [|done]; cbn [spec_expire] in Hwhen; destruct (spec_when now kind arg) eqn:Ew; [done|]; simplify_eq; exact (spec_when_range _ _ _ _ (proj1 Hnow) Ew)|].
    cbn [mbind option_bind e_obj] in *. rewrite Hval, insert_insert_eq in H5. apply refines_change; [done|congruence].
  - assert (Hnone : expire = None) by (rewrite Hexp; destruct ttl as [[kind arg]|]; [cbn [spec_expire] in Hwhen; by destruct (spec_when now kind arg)|done]). rewrite Hnone, orb_false_r in H3. cbn [mbind option_bind]. unfold put_str.
    replace (match abs_entry <$> old with Some e => if has_opt o_keepttl opts then a_expire e else None | None => None end) with (kept old (has_opt o_keepttl opts)) by (by destruct old). apply refines_change; [done|congruence].
Qed.

Lemma setGeneric_ok flags val expire unit v opts ttl k okr abr : set_args flags val expire unit v opts ttl ->
  refines now (setGenericCommand now db flags k val expire unit okr abr) (sdirty db) (spec_set now m k v opts ttl okr abr).
Proof.
  intros Ha. unfold setGenericCommand, spec_set. rewrite (sa_when _ _ _ _ _ _ _ Ha). destruct (spec_expire now ttl) as [err|when] eqn:Hwhen; [by apply refines_reply|]. rewrite (sa_get _ _ _ _ _ _ _ Ha).
  destruct (has_opt o_get opts); cbn [mbind option_bind].
  - unfold on_string. destruct (getGeneric_ok k) as (db1 & o & H1 & H2 & _ & Ho).
    assert (Hcase : (exists id when', get now m k = Some (mkA (AOther id) when') /\ getGenericCommand now db k = Some (db1, RError StrWrongType, false)) \/
      (exists o', (forall f, match get now m k with None => f None | Some (mkA (AStr s) w) => f (Some (s, w)) | Some (mkA (AOther _) _) => replies m (RError StrWrongType) end = f o') /\ getGenericCommand now db k = Some (db1, bulk_or_null o', true))).
    { destruct o as [e|]; [destruct Ho as [(s & Hg & _ & ->)|(id & Hg & ->)]|destruct Ho as [Hg ->]]; rewrite Hg; [right; by exists (Some (s, abs_expire (e_expire e)))|left; by exists id, (abs_expire (e_expire e))|right; by exists None]. }
    destruct Hcase as [(id & w & -> & ->)|(o' & Hf & ->)]; cbn [mbind option_bind]; [by apply refines_reply|]. rewrite (Hf (fun o => _)). apply (set_write_ok _ _ _ _ _ _ _ _ _ _ Ha Hwhen H1 H2).
  - apply (set_write_ok _ _ _ _ _ _ _ _ _ _ Ha Hwhen Hdb eq_refl).
Qed.

Lemma flags_has opts f p : (forall o, has (flag_of o) f = p o) -> has (flags_of (rev opts)) f = has_opt p opts.
Proof. intros Hp. unfold has_opt. rewrite <- existsb_rev. by apply has_flags. Qed.

Lemma parsed_ttl opts : ttl_of (rev opts) = last_ttl opts None.
Proof. rewrite last_ttl_of. by destruct (ttl_of (rev opts)). Qed.

(** The time that the parsed options give. *)
Lemma parsed_when opts kind arg : compatible opts = true -> last_ttl opts None = Some (kind, arg) ->
  getExpireMilliseconds now arg (flags_of (rev opts)) (unit_of (Some (kind, arg))) = spec_when now kind arg.
Proof.
  intros Hc Hl. apply getExpire_ok; [done|]. rewrite (flags_has opts OBJ_PX (is_ttl KPx)), (flags_has opts OBJ_EX (is_ttl KEx)) by (by intros [| | | | |[] ?]). rewrite !(ttl_kinds opts kind arg) by done. by destruct kind.
Qed.

Lemma setCommand_ok k v args : Z.of_nat (length v) <= max_bulk -> refines now (setCommand now db k v args) (sdirty db) (spec_cmd now max_bulk m (SET k v args)).
Proof.
  intros [Hv Hvok]%tryObjectEncoding_ok. unfold setCommand. cbn [spec_cmd]. rewrite parse_spec. unfold spec_options. destruct (tokens COMMAND_SET args) as [opts|]; cbn [mbind option_bind]; [|by apply refines_reply].
  destruct (compatible opts) eqn:Hc; cbn [mbind option_bind parsed]; [|by apply refines_reply]. rewrite parsed_ttl. apply setGeneric_ok. split; [done|done|by apply flags_has; intros [| | | | |[] ?]..|done|].
  destruct (last_ttl opts None) as [[kind arg]|] eqn:Hl; [|done]. cbn [fmap option_fmap option_map snd spec_expire]. by rewrite parsed_when.
Qed.

Lemma setnx_ok k v : Z.of_nat (length v) <= max_bulk -> refines now (setnxCommand now db k v) (sdirty db) (spec_cmd now max_bulk m (SETNX k v)).
Proof. intros [Hv Hvok]%tryObjectEncoding_ok. by apply setGeneric_ok. Qed.

Lemma setex_ok k seconds v : Z.of_nat (length v) <= max_bulk -> refines now (setexCommand now db k seconds v) (sdirty db) (spec_cmd now max_bulk m (SETEX k seconds v)).
Proof. intros [Hv Hvok]%tryObjectEncoding_ok. apply setGeneric_ok. split; try done. cbn [spec_expire]. by rewrite <- (getExpire_ok now KEx seconds OBJ_EX). Qed.

Lemma psetex_ok k ms v : Z.of_nat (length v) <= max_bulk -> refines now (psetexCommand now db k ms v) (sdirty db) (spec_cmd now max_bulk m (PSETEX k ms v)).
Proof. intros [Hv Hvok]%tryObjectEncoding_ok. apply setGeneric_ok. split; try done. cbn [spec_expire]. by rewrite <- (getExpire_ok now KPx ms OBJ_PX). Qed.

Lemma no_ttl opts kind : last_ttl opts None = None -> has_opt (is_ttl kind) opts = false.
Proof.
  rewrite last_ttl_of. destruct (ttl_of (rev opts)) eqn:E; [done|]. intros _. unfold has_opt. rewrite <- existsb_rev. induction (rev opts) as [|o l IH]; [done|]. cbn [existsb]. by destruct o; cbn [ttl_of] in E; try done; apply IH.
Qed.

Lemma getex_ok k args : refines now (getexCommand now db k args) (sdirty db) (spec_cmd now max_bulk m (GETEX k args)).
Proof.
  unfold getexCommand. cbn [spec_cmd]. rewrite parse_spec. unfold spec_options. destruct (tokens COMMAND_GET args) as [opts|]; cbn [mbind option_bind]; [|by apply refines_reply].
  destruct (compatible opts) eqn:Hc; cbn [mbind option_bind parsed]; [|by apply refines_reply]. rewrite parsed_ttl. unfold spec_getex. look Hdb k; [by apply refines_reply| |by apply refines_reply].
  destruct Hf as (He & Hge & Hok). specialize (Hok _ eq_refl). rewrite Hg in Hge. injection Hge as Habs. rewrite (is_bulk _ _ Hs).
  rewrite (flags_has opts OBJ_PXAT (is_ttl KPxat)), (flags_has opts OBJ_EXAT (is_ttl KExat)), (flags_has opts OBJ_PERSIST o_persist) by (by intros [| | | | |[] ?]).
  destruct (last_ttl opts None) as [[kind arg]|] eqn:Hl; cbn [fmap option_fmap option_map snd].
  - rewrite parsed_when by done. destruct (spec_when now kind arg) as [err|when] eqn:Ew; [by apply refines_reply|]. cbn [mbind option_bind default]. rewrite !(ttl_kinds opts kind arg) by done. unfold checkAlreadyExpired.
    replace (bool_decide (KPxat = kind) || bool_decide (KExat = kind)) with (match kind with KExat | KPxat => true | _ => false end) by (by destruct kind).
    destruct (_ && _).
    + destruct (dbDelete_ok max_bulk now db0 m k H) as (db2 & -> & H3 & H4 & _). rewrite He, bool_decide_true by done. cbn [guard mbind option_bind]. apply refines_change; [done|congruence].
    + destruct (setExpire_ok max_bulk now db0 m k e when H He) as (db2 & -> & H3 & H4); [exact (spec_when_range _ _ _ _ (proj1 Hnow) Ew)|]. cbn [mbind option_bind]. rewrite <- Habs in H3. apply refines_change; [done|congruence].
  - cbn [mbind option_bind default]. rewrite !no_ttl by done. cbn [orb andb]. destruct (removeExpire_ok max_bulk now db0 m k e H He) as (db2 & -> & H4 & H3). cbn [mbind option_bind]. unfold abs_expire.
    destruct (has_opt o_persist opts), (e_expire e =? -1); cbn [negb]; subst; try by apply refines_reply. rewrite <- Habs in H3. apply refines_change; [done|congruence].
Qed.

(** * LCS *)

Lemma lcs_operand_ok k o db' : found max_bulk now db' m k o ->
  match get now m k with
  | Some (mkA (AOther _) _) => checkType o = true
  | Some (mkA (AStr s) _) => checkType o = false /\ lcs_operand o = Some (Some s) /\ Z.of_nat (length s) <= max_bulk
  | None => checkType o = false /\ lcs_operand o = Some (Some [])
  end.
Proof.
  intros Hf%found_view. destruct Hf as [->|e s -> Hs Ht|e id -> Hid Ht]; [done| |done]. split; [done|]. split; [|apply (is_short _ _ Hs)]. unfold lcs_operand. pose proof (is_decoded _ _ Hs) as Hd. destruct (e_obj e); [..|done]; by rewrite Hd.
Qed.

Lemma lcs_main_ok a b o db' : max_bulk < 2 ^ 34 -> db_is max_bulk now db' m -> sdirty db' = sdirty db ->
  refines now (r ← lcs_main max_bulk a b o; Some (db', r)) (sdirty db)
    (if getlen o && getidx o then replies m (RError LcsLenAndIdx)
     else if (Z.of_nat (length a) >=? 2 ^ 32 - 2) || (Z.of_nat (length b) >=? 2 ^ 32 - 2) then replies m (RError LcsTooLong)
     else if (Z.of_nat (length a) + 1) * (Z.of_nat (length b) + 1) * 4 >? max_bulk then replies m (RError LcsMemory)
     else (m, lcs_reply_ok a b o, 0)).
Proof.
  intros Hm H1 H2. unfold lcs_main. destruct (getlen o && getidx o) eqn:Ho; [by apply refines_reply|]. destruct (_ || _) eqn:Hsz; [by apply refines_reply|]. apply orb_false_iff in Hsz as [Ha Hb]. rewrite Z.geb_leb, Z.leb_gt in Ha, Hb.
  set (lcssize := (Z.of_nat (length a) + 1) * (Z.of_nat (length b) + 1)). assert (Hpos : 0 < lcssize < 2 ^ 64) by (unfold lcssize; nia). cbv zeta.
  destruct (Z.gtb_spec (lcssize * 4) max_bulk) as [Hgt|Hle].
  - assert (Hmem : forall x : option str_reply, (if u64 (lcssize * 4) >? max_bulk then Some (RError LcsMemory) else x) = Some (RError LcsMemory) \/ u64 (lcssize * 4) <> lcssize * 4).
    { intros x. destruct (decide (u64 (lcssize * 4) = lcssize * 4)) as [->|]; [left; by destruct (Z.gtb_spec (lcssize * 4) max_bulk); [|lia]|by right]. }
    destruct ((u64 (lcssize * 4) <? 2 ^ 64 - 1) && (u64 (lcssize * 4) / lcssize =? 4)) eqn:Eal; [|by apply refines_reply]. apply andb_true_iff in Eal as [_ Eq]. apply Z.eqb_eq in Eq.
    match goal with |- context [if _ >? max_bulk then _ else ?x] => destruct (Hmem x) as [->|Hne]; [by apply refines_reply|] end. exfalso. apply Hne.
    pose proof (Z.mul_div_le (u64 (lcssize * 4)) lcssize ltac:(lia)) as Hd. rewrite Eq in Hd. pose proof (Z.mod_le (lcssize * 4) (2 ^ 64) ltac:(lia) ltac:(lia)) as Hd'. unfold uwrap in *. lia.
  - rewrite (uwrap_small 64) by (unfold urange; lia). rewrite Z.mul_comm, Z.div_mul by lia. destruct (Z.ltb_spec (4 * lcssize) (2 ^ 64 - 1)); [|lia]. cbn [andb Z.eqb Pos.eqb]. destruct (Z.gtb_spec (4 * lcssize) max_bulk); [lia|].
    destruct (LcsSpec.lcs_ok a b ltac:(unfold LcsSpec.width; unfold lcssize in *; nia) (minmatchlen o)) as (common & all & Ht & Hf & Hrest & Hrest2 & Hlong & Hr & Htext).
    destruct (getidx o || negb (getlen o)) eqn:Ec; rewrite ?Ht, ?Hf; cbn [mbind option_bind]; eexists _, _; (split; [done|]); (split; [done|]); (split; [cbn; lia|]); exists common, all; split_and!; try done.
    apply orb_false_iff in Ec as [-> Hn]. by destruct (getlen o).
Qed.

Lemma lcs_cmd_ok k1 k2 args : max_bulk < 2 ^ 34 -> refines now (lcsCommand now max_bulk db k1 k2 args) (sdirty db) (spec_cmd now max_bulk m (LCS k1 k2 args)).
Proof.
  intros Hm. unfold lcsCommand. cbn [spec_cmd]. unfold spec_lcs. destruct (lookupKey_ok max_bulk now db m k1 Hdb) as (db1 & o1 & -> & H1 & H2 & Hf1). destruct (lookupKey_ok max_bulk now db1 m k2 H1) as (db2 & o2 & -> & H3 & H4 & Hf2).
  assert (Hd : sdirty db2 = sdirty db) by congruence. apply lcs_operand_ok in Hf1, Hf2.
  destruct (get now m k1) as [[[s1|id1] w1]|]; [destruct Hf1 as (-> & -> & Hs1)| |destruct Hf1 as [-> ->]]; (destruct (get now m k2) as [[[s2|id2] w2]|]; [destruct Hf2 as (-> & -> & Hs2)| |destruct Hf2 as [-> ->]]);
    rewrite ?Hf1, ?Hf2, ?orb_true_r; cbn [orb mbind option_bind]; try (by apply refines_reply); (destruct (lcs_arguments args _) as [err|o]; [by apply refines_reply|]); by apply lcs_main_ok.
Qed.

End Command.

End Refinement.
End StrCmdSpec.
