(* ===== verification/KeyCmdSpec.v ===== *)
(** The commands on keys and times refine the abstract database of KeySpec.v (expire.c, db.c), and so do sequences of all
    the commands. *)

From S2P Require Import Prelude Util Sds SdsSpec BitfieldCmd Lcs LcsSpec Db StrCmd KeyCmd KeySpec DbSpec StrCmdSpec.

Module KeyCmdSpec.
Import Util Db StrCmd KeyCmd KeySpec DbSpec StrCmdSpec.

(** * The options of EXPIRE *)

Definition expire_flag (o : expire_option) : Z := match o with ENx => EXPIRE_NX | EXx => EXPIRE_XX | EGt => EXPIRE_GT | ELt => EXPIRE_LT end.

Lemma expire_flags_ok args : forall flags, match expire_tokens args with
  | None => expire_flags args flags = inl UnsupportedOption
  | Some opts => exists f, expire_flags args flags = inr f /\ forall o, has f (expire_flag o) = has flags (expire_flag o) || bool_decide (o ∈ opts)
  end.
Proof.
  induction args as [|opt args IH]; intros flags; cbn [expire_tokens expire_flags].
  - exists flags. split; [done|]. intros o. rewrite bool_decide_false by apply not_elem_of_nil. by rewrite orb_false_r.
  - assert (Hnext : forall o, match cons o <$> expire_tokens args with
      | None => expire_flags args (Z.lor flags (expire_flag o)) = inl UnsupportedOption
      | Some opts => exists f, expire_flags args (Z.lor flags (expire_flag o)) = inr f /\ forall o', has f (expire_flag o') = has flags (expire_flag o') || bool_decide (o' ∈ opts) end).
    { intros o. specialize (IH (Z.lor flags (expire_flag o))). destruct (expire_tokens args) as [opts|]; [|done]. cbn [fmap option_fmap option_map]. destruct IH as (f & -> & Hf). exists f. split; [done|]. intros o'. rewrite Hf, has_lor, <- orb_assoc. f_equal.
      replace (has (expire_flag o) (expire_flag o')) with (bool_decide (o' = o)) by (by destruct o, o'). rewrite <- bool_decide_or. apply bool_decide_ext. by rewrite elem_of_cons. }
    destruct (BitfieldCmd.strcaseeq opt name_nx); [apply (Hnext ENx)|]. destruct (BitfieldCmd.strcaseeq opt name_xx); [apply (Hnext EXx)|].
    destruct (BitfieldCmd.strcaseeq opt name_gt); [apply (Hnext EGt)|]. destruct (BitfieldCmd.strcaseeq opt name_lt); [apply (Hnext ELt)|done].
Qed.

(** The parsed flags are the options. *)
Lemma expire_options_ok args : match spec_expire_options args with
  | inl e => parseExtendedExpireArguments args = inl e
  | inr opts => exists f, parseExtendedExpireArguments args = inr f /\ (forall o, has f (expire_flag o) = bool_decide (o ∈ opts))
  end.
Proof.
  unfold spec_expire_options, parseExtendedExpireArguments. pose proof (expire_flags_ok args 0) as H. destruct (expire_tokens args) as [opts|]; [|by rewrite H]. destruct H as (f & -> & Hf).
  assert (Hh : forall o, has f (expire_flag o) = bool_decide (o ∈ opts)) by (intros o; rewrite Hf; by destruct o). clear Hf.
  pose proof (Hh ENx) as H1. pose proof (Hh EXx) as H2. pose proof (Hh EGt) as H3. pose proof (Hh ELt) as H4. cbn [expire_flag] in H1, H2, H3, H4. rewrite H1, H2, H3, H4.
  rewrite !bool_decide_or, bool_decide_and. replace (bool_decide (ENx ∈ opts) && (bool_decide (EXx ∈ opts) || (bool_decide (EGt ∈ opts) || bool_decide (ELt ∈ opts)))) with ((bool_decide (ENx ∈ opts) && bool_decide (EXx ∈ opts)) || (bool_decide (ENx ∈ opts) && bool_decide (EGt ∈ opts)) || (bool_decide (ENx ∈ opts) && bool_decide (ELt ∈ opts)))
    by (by destruct (bool_decide (ENx ∈ opts)), (bool_decide (EXx ∈ opts)), (bool_decide (EGt ∈ opts)), (bool_decide (ELt ∈ opts))).
  destruct (_ || _); [done|]. destruct (_ && _); [done|]. by exists f.
Qed.

(** The tests of the options. *)
Lemma expire_refused_ok f opts x when : -1 <= x -> (forall o, has f (expire_flag o) = bool_decide (o ∈ opts)) -> negb (f =? 0) && expire_refused f x when = negb (expire_allowed opts (abs_expire x) when).
Proof.
  intros Hx Hf. unfold expire_refused. pose proof (Hf ENx) as H1. pose proof (Hf EXx) as H2. pose proof (Hf EGt) as H3. pose proof (Hf ELt) as H4. cbn [expire_flag] in *.
  assert (Hz : f = 0 -> opts = []). { intros ->. destruct opts as [|o opts]; [done|]. exfalso. specialize (Hf o). rewrite bool_decide_true in Hf by constructor. by destruct o. }
  destruct (Z.eqb_spec f 0) as [Hf0|Hf0]; cbn [negb andb]; [by rewrite (Hz Hf0)|]. rewrite H1, H2, H3, H4. clear - Hx. unfold expire_allowed, abs_expire.
  set (p := fun o => _). assert (Hall : negb (forallb p opts) = existsb (fun o => negb (p o)) opts) by (induction opts as [|o opts IH]; [done|]; cbn [forallb existsb]; by rewrite negb_andb, IH). rewrite Hall. clear Hall.
  assert (Hex : forall q, existsb q opts = (bool_decide (ENx ∈ opts) && q ENx) || (bool_decide (EXx ∈ opts) && q EXx) || (bool_decide (EGt ∈ opts) && q EGt) || (bool_decide (ELt ∈ opts) && q ELt)).
  { intros q. induction opts as [|o opts IH]; [done|]. cbn [existsb]. rewrite IH. assert (Hb : forall o', bool_decide (o' ∈ o :: opts) = bool_decide (o' = o) || bool_decide (o' ∈ opts)) by (intros o'; rewrite <- bool_decide_or; apply bool_decide_ext; by rewrite elem_of_cons).
    rewrite !Hb. destruct (bool_decide (ENx ∈ opts)), (bool_decide (EXx ∈ opts)), (bool_decide (EGt ∈ opts)), (bool_decide (ELt ∈ opts)), o; cbn; destruct (q ENx), (q EXx), (q EGt), (q ELt); done. }
  rewrite Hex. unfold p. rewrite Z.geb_leb, !Z.leb_antisym. by destruct (Z.eqb_spec x (-1)) as [->|Hne]; cbn [negb andb orb]; rewrite ?orb_true_r, ?andb_true_r, ?orb_false_r, ?andb_false_r, ?orb_false_r.
Qed.

Lemma expire_when_ok n base unit : 0 <= base < 2 ^ 63 -> expire_when n base unit = spec_time n base unit.
Proof.
  intros Hb. unfold expire_when, spec_time, getLongLongArg. destruct (string2ll n) as [z|] eqn:E; [|done]. apply string2ll_sound in E as [_ Hr]. unfold srange in Hr. change (2 ^ (64 - 1)) with (2 ^ 63) in Hr.
  change (Z.quot LLONG_MAX 1000) with 9223372036854775. change (Z.quot LLONG_MIN 1000) with (-9223372036854775). unfold LLONG_MAX, LLONG_MIN. rewrite (swrap_small 64 (2 ^ 63 - 1 - base)) by (unfold srange; lia).
  assert (Hlast : forall ms, - 2 ^ 63 <= ms < 2 ^ 63 -> (if ms >? 2 ^ 63 - 1 - base then inl InvalidExpire else inr (s64 (ms + base))) = (if (- 2 ^ 63 <=? ms) && (ms + base <=? 2 ^ 63 - 1) then inr (ms + base) else inl InvalidExpire : str_error + Z)).
  { intros ms Hms. destruct (Z.leb_spec (- 2 ^ 63) ms); [|lia]. cbn [andb]. destruct (Z.gtb_spec ms (2 ^ 63 - 1 - base)), (Z.leb_spec (ms + base) (2 ^ 63 - 1)); try lia; [done|]. by rewrite (swrap_small 64) by (unfold srange; lia). }
  destruct unit; [|by apply Hlast]. destruct (Z.gtb_spec z 9223372036854775) as [H1|H1]; cbn [orb].
  - destruct (Z.leb_spec (z * 1000 + base) (2 ^ 63 - 1)); [lia|]. by rewrite andb_false_r.
  - destruct (Z.ltb_spec z (-9223372036854775)) as [H2|H2]; [destruct (Z.leb_spec (- 2 ^ 63) (z * 1000)); [lia|done]|]. rewrite (swrap_small 64 (z * 1000)) by (unfold srange; lia). apply Hlast. lia.
Qed.

(** Seconds are rounded, up to half a second before the end of the range. *)
Lemma round_seconds_ok ttl : 0 <= ttl <= LLONG_MAX - 500 -> round_seconds ttl = (ttl + 500) / 1000.
Proof. unfold LLONG_MAX, round_seconds. intros H. rewrite (swrap_small 64) by (unfold srange; lia). apply Z.quot_div_nonneg; lia. Qed.

Lemma round_seconds_wraps : round_seconds LLONG_MAX = -9223372036854775.
Proof. done. Qed.

Lemma get_delete now k m' k' : get now (delete k m') k' = if decide (k' = k) then None else get now m' k'.
Proof. unfold get. destruct (decide (k' = k)) as [->|Hne]; [by rewrite lookup_delete_eq|]. by rewrite lookup_delete_ne. Qed.

(** The keys of a list that exist. *)
Definition existing (now : Z) (m : gmap bytes aentry) (ks : list bytes) : gset bytes := filter (fun k => is_Some (get now m k)) (list_to_set ks : gset bytes).

Lemma existing_cons now m' k ks : Z.of_nat (size (existing now m' (k :: ks))) = (if bool_decide (is_Some (get now m' k)) then 1 else 0) + Z.of_nat (size (existing now (delete k m') ks)).
Proof.
  assert (Hset : existing now m' (k :: ks) ≡ (if bool_decide (is_Some (get now m' k)) then {[k]} else ∅) ∪ existing now (delete k m') ks).
  { intros x. unfold existing. rewrite elem_of_union, !elem_of_filter, get_delete, list_to_set_cons, elem_of_union, elem_of_singleton. case_bool_decide as Hk; destruct (decide (x = k)) as [->|Hne]; set_solver. }
  rewrite (leibniz_equiv _ _ Hset), size_union; [case_bool_decide; rewrite ?size_singleton, ?size_empty; lia|]. intros x Hx Hy. unfold existing in Hy. rewrite elem_of_filter, get_delete in Hy. destruct Hy as [[? Hy] _].
  case_bool_decide; [|by apply elem_of_empty in Hx]. apply elem_of_singleton in Hx as ->. by rewrite decide_True in Hy.
Qed.

Lemma foldr_delete_comm ks : forall (m' : gmap bytes aentry) k, foldr delete (delete k m') ks = delete k (foldr delete m' ks).
Proof. induction ks as [|k' ks IH]; intros m' k; [done|]. cbn [foldr]. rewrite IH. apply delete_delete. Qed.

Section Refinement.
Context {A : Allocator} (max_bulk : Z).
Context (Hmax : 2 ^ 20 <= max_bulk < 2 ^ 63).

Section Command.
Context (now : Z) (db : keydb) (m : gmap bytes aentry).
Context (Hnow : 0 <= now < 2 ^ 63) (Hdb : db_is max_bulk now db m).

Lemma expire_ok k n args base unit : 0 <= base < 2 ^ 63 -> refines max_bulk now (expireGenericCommand now db k n args base unit) (sdirty db) (spec_expire_cmd now m k n args base unit).
Proof.
  intros Hb. unfold expireGenericCommand, spec_expire_cmd. pose proof (expire_options_ok args) as Ho. destruct (spec_expire_options args) as [err|opts]; [rewrite Ho; by apply refines_reply|]. destruct Ho as (f & -> & Hf).
  rewrite expire_when_ok by done. destruct (spec_time n base unit) as [err|when] eqn:Ew; [by apply refines_reply|].
  destruct (lookupKey_ok max_bulk now db m k Hdb) as (db' & o & -> & H1 & H2 & (He & Hg & Hok)). rewrite Hg. destruct o as [e|]; cbn [fmap option_fmap option_map abs_entry a_expire a_val]; [|by apply refines_reply].
  destruct (Hok e eq_refl) as [_ Hx]. rewrite (expire_refused_ok f opts) by (done || lia). destruct (expire_allowed opts _ when); cbn [negb]; [|by apply refines_reply]. unfold checkAlreadyExpired. destruct (Z.leb_spec when now) as [Hle|Hgt].
  - destruct (dbDelete_ok max_bulk now db' m k H1) as (db2 & -> & H3 & H4 & _). rewrite He, bool_decide_true by done. cbn [guard mbind option_bind]. apply refines_change; [done|congruence].
  - destruct (setExpire_ok max_bulk now db' m k e when H1 He) as (db2 & -> & H3 & H4); [|cbn [mbind option_bind]; apply refines_change; [done|congruence]].
    unfold spec_time in Ew. destruct (string2ll n) as [z|]; [|done]. destruct (_ && _) eqn:Eb; [|done]. apply andb_true_iff in Eb as [_ Hw%Z.leb_le]. unfold LLONG_MAX in Hw. injection Ew as <-. lia.
Qed.

Lemma ttl_ok k (ms absolute : bool) : refines max_bulk now (ttlGenericCommand now db k ms absolute) (sdirty db) (spec_ttl now m k absolute (if ms then id else round_seconds)).
Proof.
  unfold ttlGenericCommand, spec_ttl. destruct (lookupKey_ok max_bulk now db m k Hdb) as (db' & o & -> & H1 & H2 & (He & Hg & Hok)). rewrite Hg. destruct o as [e|]; cbn [fmap option_fmap option_map abs_entry a_expire]; [|by apply refines_reply].
  destruct (Hok e eq_refl) as [_ Hx]. assert (Hlive : e_expire e <> -1 -> now <= e_expire e).
  { intros Hne. unfold get in Hg. destruct H1 as [Hm _]. specialize (Hm k). rewrite He, Hg in Hm. cbn [fmap option_fmap option_map] in Hm. rewrite keyIsExpired_live in Hm by lia. unfold keyIsExpired in Hm. destruct (Z.ltb_spec (e_expire e) 0); [lia|]. by destruct (Z.gtb_spec now (e_expire e)); [|lia]. }
  unfold abs_expire. destruct (Z.eqb_spec (e_expire e) (-1)) as [Hn|Hn]; cbn [negb]; [by apply refines_reply|]. specialize (Hlive Hn). rewrite (swrap_small 64 (e_expire e - now)) by (unfold srange; lia).
  assert (Hpos : 0 <= if absolute then e_expire e else e_expire e - now) by (destruct absolute; lia). destruct (Z.ltb_spec (if absolute then e_expire e else e_expire e - now) 0); [lia|]. destruct (Z.eqb_spec (if absolute then e_expire e else e_expire e - now) (-1)); [lia|].
  destruct ms; by apply refines_reply.
Qed.

Lemma persist_ok k : refines max_bulk now (persistCommand now db k) (sdirty db) (spec_persist now m k).
Proof.
  unfold persistCommand, spec_persist. destruct (lookupKey_ok max_bulk now db m k Hdb) as (db' & o & -> & H1 & H2 & (He & Hg & Hok)). rewrite Hg. destruct o as [e|]; cbn [fmap option_fmap option_map abs_entry]; [|by apply refines_reply].
  destruct (removeExpire_ok max_bulk now db' m k e H1 He) as (db2 & -> & H3 & H4). cbn [mbind option_bind]. unfold abs_expire. destruct (e_expire e =? -1); cbn [negb]; [subst; by apply refines_reply|]. apply refines_change; [done|congruence].
Qed.

Lemma count_keys_ok ks : forall db n, db_is max_bulk now db m -> exists db', count_keys now db ks n = (db', n + spec_count now m ks) /\ db_is max_bulk now db' m /\ sdirty db' = sdirty db.
Proof.
  clear Hdb db. induction ks as [|k ks IH]; intros db n Hdb; cbn [count_keys]; unfold spec_count in *; cbn [List.filter]; [exists db; split; [f_equal; cbn; lia|done]|].
  destruct (lookupKey_ok max_bulk now db m k Hdb) as (db1 & o & -> & H1 & H2 & (_ & Hg & _)). rewrite Hg. destruct (IH db1 (match o with Some _ => n + 1 | None => n end) H1) as (db' & -> & H3 & H4). exists db'. split; [|split; [done|congruence]]. f_equal.
  destruct o as [e|]; cbn [fmap option_fmap option_map]; [rewrite bool_decide_true by done; cbn [length]; lia|]. by rewrite bool_decide_false by (by intros [? ?]).
Qed.

Lemma exists_ok ks : refines max_bulk now (existsCommand now db ks) (sdirty db) (replies m (RNum (spec_count now m ks))).
Proof. unfold existsCommand. destruct (count_keys_ok ks db 0 Hdb) as (db' & -> & H1 & H2). by apply refines_reply. Qed.

End Command.

(** [expireIfNeeded] by the key deletes an entry that has expired. *)
Lemma expireKey_ok now m db' k (db1 : keydb) b : db_is max_bulk now db' m -> dbGenericDelete db' k = (db1, b) ->
  expireKeyIfNeeded now db' k = Some (if bool_decide (is_Some (get now m k)) || bool_decide (entries db' !! k = None) then (db', false) else (db1, true)).
Proof.
  intros [Hm Hok] E1. pose proof (Hm k) as Hk. unfold expireKeyIfNeeded, expireIfNeeded, get. rewrite <- Hk. destruct (entries db' !! k) as [e|] eqn:E.
  - destruct (db_ok_at max_bulk db' k e Hok E) as [[_ Hr] Hin]. rewrite E1. cbn [fmap option_fmap option_map fst]. rewrite keyIsExpired_live by lia. rewrite (bool_decide_false (Some e = None)) by done. rewrite orb_false_r.
    case_bool_decide as Hi; cbn [mbind option_bind]; [destruct (keyIsExpired now e); [by rewrite bool_decide_false by (by intros [? ?])|by rewrite bool_decide_true by done]|].
    assert (Hn : keyIsExpired now e = false) by (unfold keyIsExpired; destruct (Z.ltb_spec (e_expire e) 0); [done|]; exfalso; apply Hi, Hin; lia). rewrite Hn. by rewrite bool_decide_true by done.
  - rewrite bool_decide_false by (by apply (db_ok_none max_bulk)). by rewrite orb_true_r.
Qed.

Lemma del_loop_ok now ks : forall db m n, db_is max_bulk now db m ->
  exists db', del_loop now db ks n = Some (db', n + Z.of_nat (size (existing now m ks))) /\ db_is max_bulk now db' (foldr delete m ks) /\ sdirty db' = sdirty db + Z.of_nat (size (existing now m ks)).
Proof.
  induction ks as [|k ks IH]; intros db m n Hdb; cbn [del_loop foldr]; [change (existing now m []) with (∅ : gset bytes); exists db; rewrite !Z.add_0_r; done|].
  rewrite existing_cons, <- foldr_delete_comm. destruct (dbDelete_ok max_bulk now db m k Hdb) as (db1 & E1 & H1 & H2 & _). rewrite (expireKey_ok now m db k db1 _ Hdb E1).
  destruct (bool_decide (is_Some (get now m k))) eqn:Eg; cbn [orb mbind option_bind].
  - assert (Hs : is_Some (entries db !! k)) by (apply bool_decide_eq_true in Eg; unfold get in Eg; rewrite <- (proj1 Hdb k) in Eg; destruct (entries db !! k); [done|by destruct Eg]). rewrite E1, bool_decide_true by done.
    destruct (IH (sdirty_add db1 1) (delete k m) (n + 1)) as (db' & -> & H3 & H4); [done|]. exists db'. split; [by rewrite Z.add_assoc|]. split; [done|]. rewrite H4. cbn [sdirty_add sdirty]. lia.
  - destruct (IH db1 (delete k m) n H1) as (db' & E2 & H3 & H4). exists db'. destruct (bool_decide (entries db !! k = None)) eqn:En; [apply bool_decide_eq_true in En; rewrite E1, bool_decide_false by (rewrite En; by intros [? ?])|]; (rewrite E2; split; [done|split; [done|lia]]).
Qed.

Lemma del_ok now db m ks : db_is max_bulk now db m -> refines max_bulk now (delGenericCommand now db ks) (sdirty db) (spec_del now m ks).
Proof. intros Hdb. unfold delGenericCommand. destruct (del_loop_ok now ks db m 0 Hdb) as (db' & -> & H1 & H2). cbn [mbind option_bind]. by eexists _, _. Qed.

Lemma rename_ok now db m k1 k2 nx : db_is max_bulk now db m -> refines max_bulk now (renameGenericCommand now db k1 k2 nx) (sdirty db) (spec_rename now m k1 k2 nx).
Proof.
  intros Hdb. unfold renameGenericCommand, spec_rename. destruct (lookupKey_ok max_bulk now db m k1 Hdb) as (db1 & o & -> & H1 & H2 & (He & Hg & Hok)). rewrite Hg. destruct o as [e|]; cbn [fmap option_fmap option_map]; [|by apply refines_reply]. destruct (Hok e eq_refl) as [Ho Hx].
  case_bool_decide as Hsame; [by apply refines_reply|]. destruct (lookupKey_ok max_bulk now db1 m k2 H1) as (db2 & o2 & -> & H3 & H4 & (He2 & Hg2 & _)). rewrite Hg2.
  replace (bool_decide (is_Some (abs_entry <$> o2))) with (match o2 with Some _ => true | None => false end) by (destruct o2; [by rewrite bool_decide_true by done|by rewrite bool_decide_false by (by intros [? ?])]).
  rewrite andb_comm. destruct (nx && _); [apply refines_reply; [done|congruence]|].
  assert (Hdst : exists db3, (if match o2 with Some _ => true | None => false end then (dbGenericDelete db2 k2).1 else db2) = db3 /\ db_is max_bulk now db3 (delete k2 m) /\ sdirty db3 = sdirty db /\ entries db3 !! k2 = None).
  { destruct (dbDelete_ok max_bulk now db2 m k2 H3) as (db3 & E3 & H5 & H6 & H7). destruct o2 as [e2|].
    - exists db3. rewrite E3, H7, lookup_delete_eq. split; [done|]. split; [done|]. split; [congruence|done].
    - exists db2. unfold dbGenericDelete in E3. rewrite He2 in E3. assert (db3 = db2) as -> by congruence. split; [done|]. split; [done|]. split; [congruence|done]. }
  destruct Hdst as (db3 & -> & H5 & H6 & H7). destruct (dbDelete_ok max_bulk now db3 _ k1 H5) as (db4 & -> & H8 & H9 & H10). cbn [fst]. destruct (dbAdd_ok max_bulk now db4 _ k2 (e_obj e) (e_expire e) H8) as (db5 & -> & H11 & H12 & _); [by rewrite H10, lookup_delete_ne|done|done|].
  cbn [mbind option_bind]. rewrite delete_delete, insert_delete_eq in H11. apply refines_change; [done|congruence].
Qed.

(** * Sequences of commands *)

(** A command of an ordinary client. *)
Definition exec (now : Z) (db : keydb) (c : command) : option (keydb * str_reply) :=
  match c with
  | GET k => getCommand now db k
  | SET k v args => setCommand now db k v args
  | SETNX k v => setnxCommand now db k v
  | SETEX k seconds v => setexCommand now db k seconds v
  | PSETEX k milliseconds v => psetexCommand now db k milliseconds v
  | GETEX k args => getexCommand now db k args
  | GETDEL k => getdelCommand now db k
  | GETSET k v => getsetCommand now db k v
  | SETRANGE k offset v => setrangeCommand now false max_bulk db k offset v
  | GETRANGE k start end_ => getrangeCommand now db k start end_
  | MGET ks => mgetCommand now db ks
  | MSET args => msetCommand now db args
  | MSETNX args => msetnxCommand now db args
  | INCR k => incrCommand now db k
  | DECR k => decrCommand now db k
  | INCRBY k n => incrbyCommand now db k n
  | DECRBY k n => decrbyCommand now db k n
  | APPEND k v => appendCommand now false max_bulk db k v
  | STRLEN k => strlenCommand now db k
  | LCS k1 k2 args => lcsCommand now max_bulk db k1 k2 args
  | EXPIRE k n args => expireCommand now db k n args
  | EXPIREAT k n args => expireatCommand now db k n args
  | PEXPIRE k n args => pexpireCommand now db k n args
  | PEXPIREAT k n args => pexpireatCommand now db k n args
  | TTL k => ttlCommand now db k
  | PTTL k => pttlCommand now db k
  | EXPIRETIME k => expiretimeCommand now db k
  | PEXPIRETIME k => pexpiretimeCommand now db k
  | PERSIST k => persistCommand now db k
  | TOUCH ks => touchCommand now db ks
  | EXISTS ks => existsCommand now db ks
  | DEL ks => delGenericCommand now db ks
  | RENAME k1 k2 => renameCommand now db k1 k2
  | RENAMENX k1 k2 => renamenxCommand now db k1 k2
  end.

(** The protocol limits the size of arguments; the cells of LCS have to be numbered with 32 bits. *)
Definition cmd_ok (c : command) : Prop :=
  match c with
  | SET _ v _ | SETNX _ v | SETEX _ _ v | PSETEX _ _ v | GETSET _ v | SETRANGE _ _ v | APPEND _ v => Z.of_nat (length v) <= max_bulk
  | MSET args | MSETNX args => Forall (fun a => Z.of_nat (length a) <= max_bulk) args
  | LCS _ _ _ => max_bulk < 2 ^ 34
  | _ => True
  end.

Lemma key_command_ok now db m c : 0 <= now < 2 ^ 63 -> db_is max_bulk now db m -> cmd_ok c -> refines max_bulk now (exec now db c) (sdirty db) (spec_cmd now max_bulk m c).
Proof.
  intros Hnow Hdb. destruct c; cbn [exec cmd_ok]; intros Hc;
    [by apply getCommand_ok|by apply setCommand_ok|by apply setnx_ok|by apply setex_ok|by apply psetex_ok|by apply getex_ok|by apply getdel_ok|by apply getset_ok|by apply setrange_ok|by apply getrange_ok|by apply mget_ok|
     by apply mset_ok|by apply mset_ok|by apply incr_ok|by apply incr_ok|by apply incrby_ok|by apply decrby_ok|by apply appendCommand_ok|by apply strlenCommand_ok|by apply lcs_cmd_ok|
     by apply expire_ok|by apply expire_ok; try lia|by apply expire_ok|by apply expire_ok; try lia|by apply (ttl_ok _ _ _ Hnow Hdb k false false)|by apply (ttl_ok _ _ _ Hnow Hdb k true false)|by apply (ttl_ok _ _ _ Hnow Hdb k false true)|by apply (ttl_ok _ _ _ Hnow Hdb k true true)|
     by apply persist_ok|by apply exists_ok|by apply exists_ok|by apply del_ok|by apply rename_ok|by apply rename_ok].
Qed.

(** Commands with their times. *)
Fixpoint run (db : keydb) (cs : list (Z * command)) : option (keydb * list str_reply) :=
  match cs with [] => Some (db, []) | (now, c) :: cs => '(db, r) ← exec now db c; '(db, rs) ← run db cs; Some (db, r :: rs) end.

Fixpoint spec_run (m : gmap bytes aentry) (cs : list (Z * command)) : gmap bytes aentry * Z * list (str_reply -> Prop) :=
  match cs with [] => (m, 0, []) | (now, c) :: cs => let '(m, p, d) := spec_cmd now max_bulk m c in let '(m, d', ps) := spec_run m cs in (m, d + d', p :: ps) end.

(** The clock does not go back. *)
Fixpoint times_ok (t : Z) (cs : list (Z * command)) : Prop :=
  match cs with [] => True | (now, _) :: cs => t <= now < 2 ^ 63 /\ times_ok now cs end.

Fixpoint end_time (t : Z) (cs : list (Z * command)) : Z := match cs with [] => t | (now, _) :: cs => end_time now cs end.

Lemma key_run_ok cs : forall t db m, 0 <= t -> db_is max_bulk t db m -> times_ok t cs -> Forall (fun c => cmd_ok c.2) cs ->
  exists db' rs, run db cs = Some (db', rs) /\ let '(m', d, ps) := spec_run m cs in db_is max_bulk (end_time t cs) db' m' /\ sdirty db' = sdirty db + d /\ Forall2 (fun r (p : str_reply -> Prop) => p r) rs ps.
Proof.
  induction cs as [|[now c] cs IH]; intros t db m Ht Hdb Htimes Hok; cbn [run spec_run end_time].
  - exists db, []. split; [done|]. split; [done|]. split; [lia|constructor].
  - destruct Htimes as [Hnow Htimes]. inversion Hok as [|? ? Hc Hcs]; subst. destruct (key_command_ok now db m c ltac:(lia) (db_is_later max_bulk t now db m ltac:(lia) Hdb) Hc) as (db1 & r & -> & H1 & H2 & H3).
    destruct (spec_cmd now max_bulk m c) as [[m1 p] d]. cbn [fst snd mbind option_bind] in *. destruct (IH now db1 m1 ltac:(lia) H1 Htimes Hcs) as (db' & rs & -> & Hrest). cbn [mbind option_bind].
    destruct (spec_run m1 cs) as [[m' d'] ps]. destruct Hrest as (H4 & H5 & H6). exists db', (r :: rs). split; [done|]. split; [done|]. split; [lia|by constructor].
Qed.

(** C2. The commands on strings and on keys refine a map from keys to strings with expiration times: any sequence of GET,
    SET (with NX, XX, GET, KEEPTTL, EX, PX, EXAT and PXAT), SETNX, SETEX, PSETEX, GETEX, GETDEL, GETSET, SETRANGE, GETRANGE,
    MGET, MSET, MSETNX, INCR, DECR, INCRBY, DECRBY, APPEND, STRLEN, LCS, EXPIRE, EXPIREAT, PEXPIRE, PEXPIREAT, TTL, PTTL,
    EXPIRETIME, PEXPIRETIME, PERSIST, TOUCH, EXISTS, DEL, RENAME and RENAMENX, of ordinary clients and with a clock that does
    not go back, runs without a failed assertion; every reply is that of the specification, errors included.  A key exists
    until its time, whether or not it has been deleted, and [db->expires] has the keys with a time; integers and strings
    are the same; options are refused exactly when two of them exclude each other; increments fail exactly when the sum
    does not fit in 64 bits; no string becomes longer than [proto_max_bulk_len]; LCS gives a longest common subsequence;
    [dirty] counts the changes. *)
Theorem key_commands_refine t db m cs : 0 <= t -> db_is max_bulk t db m -> times_ok t cs -> Forall (fun c => cmd_ok c.2) cs ->
  exists db' rs, run db cs = Some (db', rs) /\
    let '(m', d, ps) := spec_run m cs in db_is max_bulk (end_time t cs) db' m' /\ sdirty db' = sdirty db + d /\ Forall2 (fun r (p : str_reply -> Prop) => p r) rs ps.
Proof. apply key_run_ok. Qed.

End Refinement.

(** * A concrete sequence *)

Module Sample.

#[local] Instance exact_alloc : Allocator := {
  usable n := n; junk n := replicate n 85; usable_ge n := le_n n; junk_length n := length_replicate n 85
}.

Definition k_a : bytes := [97].
Definition k_b : bytes := [98].
Definition k_c : bytes := [99].
Definition max_bulk : Z := 512 * 2 ^ 20.

Definition sample_db : keydb := mkKeyDb ∅ ∅ 0.

(** A counter with a time, which expires; ranges; options that exclude each other; LCS; times and names of keys. *)
Definition sample_commands : list (Z * command) :=
  [(1000, SET k_a [55] [[69; 88]; [50]]); (1000, INCR k_a); (1500, GETEX k_a [[112; 120]; [49; 48]]); (1600, GET k_a);
   (1600, SETRANGE k_a [50] [120; 121]); (1700, APPEND k_a [122]); (1700, GETRANGE k_a [45; 51] [45; 49]); (1700, SET k_b [120; 121; 120; 122] [[110; 120]; [103; 101; 116]]);
   (1800, SET k_b [49] [[110; 120]; [120; 120]]); (1800, LCS k_a k_b []); (1900, STRLEN k_b); (1900, MGET [k_a; k_b]);
   (2000, EXPIRE k_a [51] [[71; 84]]); (2000, PEXPIRE k_a [50; 48; 48] []); (2100, PTTL k_a); (2100, RENAME k_a k_c); (2150, EXISTS [k_a; k_b; k_b; k_c]); (2150, TTL k_b);
   (2300, GET k_c); (2300, DEL [k_b; k_c; k_b])].

#[local] Instance cmd_ok_dec c : Decision (cmd_ok max_bulk c).
Proof. destruct c; cbn [cmd_ok]; apply _. Defined.

Lemma key_sample_db_is : db_is max_bulk 0 sample_db ∅.
Proof. split; [intros k; by rewrite !lookup_empty|]. split; [apply map_Forall_empty|]. intros k. cbn [expires entries sample_db]. rewrite lookup_empty. set_solver. Qed.

Lemma key_commands_refine_witness :
  exists db' rs, run max_bulk sample_db sample_commands = Some (db', rs) /\ sdirty db' = 9 /\
    Forall2 (fun r (p : str_reply -> Prop) => p r) rs (spec_run max_bulk ∅ sample_commands).2 /\
    rs = [ROk; RNum 8; RBulk [56]; RNull; RNum 4; RNum 5; RBulk [120; 121; 122]; RNull; RError StrSyntax; RBulk [120; 121; 122]; RNum 4; RBulks [Some [0; 0; 120; 121; 122]; Some [120; 121; 120; 122]];
          RNum 0; RNum 1; RNum 100; ROk; RNum 3; RNum (-1); RNull; RNum 1].
Proof.
  destruct (key_commands_refine max_bulk ltac:(by vm_compute) 0 sample_db ∅ sample_commands ltac:(lia) key_sample_db_is) as (db' & rs & Hrun & Hrest).
  - cbn. lia.
  - apply (bool_decide_unpack _). by vm_compute.
  - exists db', rs. destruct (spec_run max_bulk ∅ sample_commands) as [[m' d] ps] eqn:Es. destruct Hrest as (_ & _ & Hr). split; [exact Hrun|]. cbn [snd].
    assert (Hc : (run max_bulk sample_db sample_commands : option _) = Some (db', rs)) by exact Hrun. vm_compute in Hc. injection Hc as <- <-. split; [done|]. split; [exact Hr|done].
Defined.

End Sample.
End KeyCmdSpec.
