(* ===== verification/Hll.v ===== *)
(** HyperLogLogs (hyperloglog.c): sketches of sets in a string, with 16384 registers of 6 bits.

    An object is an sds string of Sds.v with a header of 16 bytes and the registers, either dense or as a sequence of
    opcodes; a pointer into the string is its offset.  [max_bytes] is [server.hll_sparse_max_bytes], and [nallocx] the
    function of the allocator that [sdsResize] asks.  The strings of the database are raw and not shared, so
    [dbUnshareStringValue] leaves them alone.  The estimate that [hllCount] computes in floating point from the
    histogram of the registers is the parameter [estimate].  The versions of the loops for AVX2 are left out. *)

From S2P Require Import Prelude Sds.

Module Hll.
Import Sds.

Definition HLL_P : Z := 14.
Definition HLL_Q : Z := 64 - HLL_P.
Definition HLL_REGISTERS : Z := Z.shiftl 1 HLL_P.
Definition HLL_P_MASK : Z := HLL_REGISTERS - 1.
Definition HLL_BITS : Z := 6.
Definition HLL_REGISTER_MAX : Z := Z.shiftl 1 HLL_BITS - 1.
Definition HLL_HDR_SIZE : Z := 16.
Definition HLL_DENSE_SIZE : Z := HLL_HDR_SIZE + (HLL_REGISTERS * HLL_BITS + 7) / 8.
Definition HLL_DENSE : Z := 0.
Definition HLL_SPARSE : Z := 1.
Definition HLL_MAX_ENCODING : Z := 1.

(** The places of [encoding] and of [card] in the header. *)
Definition hdr_encoding : Z := 4.
Definition hdr_card : Z := 8.

(** * Hashing *)

Definition murmur_m : Z := 0xc6a4a7935bd1e995.
Definition murmur_r : Z := 47.

(** [while(data != end)]: [data] and [end_] are offsets in the key. *)
Fixpoint murmur_words (fuel : nat) (key : bytes) (data : nat) (end_ h : Z) : option (Z * nat) :=
  if Z.of_nat data =? end_ then Some (h, data)
  else match fuel with
  | O => None
  | S fuel =>
    bs ← load key data 8;
    let k := le_val bs in
    let k := u64 (k * murmur_m) in
    let k := Z.lxor k (Z.shiftr k murmur_r) in
    let k := u64 (k * murmur_m) in
    murmur_words fuel key (data + 8) end_ (u64 (Z.lxor h k * murmur_m))
  end.

(** The cases of the switch, from the last byte to the first. *)
Fixpoint murmur_tail (data : bytes) (shift h : Z) : Z :=
  match data with [] => h | b :: data => Z.lxor (murmur_tail data (shift + 8) h) (Z.shiftl b shift) end.

(** [len] is an [int], which may be negative. *)
Definition MurmurHash64A (key : bytes) (len seed : Z) : option Z :=
  let h := Z.lxor seed (u64 (len * murmur_m)) in
  '(h, data) ← murmur_words (length key) key 0 (len - Z.land len 7) h;
  bs ← load key data (Z.to_nat (Z.land len 7));
  let h := match bs with [] => h | _ => u64 (murmur_tail bs 0 h * murmur_m) end in
  let h := Z.lxor h (Z.shiftr h murmur_r) in
  let h := u64 (h * murmur_m) in
  Some (Z.lxor h (Z.shiftr h murmur_r)).

(** [__builtin_ctzll] *)
Fixpoint ctz (fuel : nat) (x : Z) : Z := match fuel with O => 0 | S fuel => if Z.testbit x 0 then 0 else 1 + ctz fuel (Z.shiftr x 1) end.

(** The register and the length of the pattern; the [size_t] becomes the [int] of [MurmurHash64A]. *)
Definition hllPatLen (ele : bytes) : option (Z * Z) :=
  hash ← MurmurHash64A ele (s32 (Z.of_nat (length ele))) 0xadc83b19;
  let index := Z.land hash HLL_P_MASK in
  let hash := Z.shiftr hash HLL_P in
  let hash := Z.lor hash (Z.shiftl 1 HLL_Q) in
  Some (index, ctz 64 hash + 1).

(** * Memory *)

Definition mem_byte (m : bytes) (i : Z) : option Z := _ ← guard (0 <=? i); m !! Z.to_nat i.
Definition mem_set (m : bytes) (i b : Z) : option bytes := _ ← guard (0 <=? i); store m (Z.to_nat i) [b].

(** * Dense registers *)

(** [registers] is the offset of the registers in the string. *)
Definition HLL_DENSE_GET_REGISTER (m : bytes) (registers regnum : Z) : option Z :=
  let byte := regnum * HLL_BITS / 8 in
  let fb := Z.land (regnum * HLL_BITS) 7 in
  let fb8 := 8 - fb in
  b0 ← mem_byte m (registers + byte);
  b1 ← mem_byte m (registers + byte + 1);
  Some (Z.land (Z.lor (Z.shiftr b0 fb) (Z.shiftl b1 fb8)) HLL_REGISTER_MAX).

Definition HLL_DENSE_SET_REGISTER (m : bytes) (registers regnum v : Z) : option bytes :=
  let byte := regnum * HLL_BITS / 8 in
  let fb := Z.land (regnum * HLL_BITS) 7 in
  let fb8 := 8 - fb in
  b0 ← mem_byte m (registers + byte);
  let b0 := Z.land b0 (Z.lnot (Z.shiftl HLL_REGISTER_MAX fb)) in
  m ← mem_set m (registers + byte) (u8 (Z.lor b0 (Z.shiftl v fb)));
  b1 ← mem_byte m (registers + byte + 1);
  let b1 := Z.land b1 (Z.lnot (Z.shiftr HLL_REGISTER_MAX fb8)) in
  mem_set m (registers + byte + 1) (u8 (Z.lor b1 (Z.shiftr v fb8))).

(** The memory and whether the register changed. *)
Definition hllDenseSet (m : bytes) (registers index count : Z) : option (bytes * bool) :=
  oldcount ← HLL_DENSE_GET_REGISTER m registers index;
  if count >? oldcount then m ← HLL_DENSE_SET_REGISTER m registers index count; Some (m, true) else Some (m, false).

(** * Sparse registers *)

Definition HLL_SPARSE_XZERO_BIT : Z := 0x40.
Definition HLL_SPARSE_VAL_BIT : Z := 0x80.
Definition HLL_SPARSE_IS_ZERO (b : Z) : bool := Z.land b 0xc0 =? 0.
Definition HLL_SPARSE_IS_XZERO (b : Z) : bool := Z.land b 0xc0 =? HLL_SPARSE_XZERO_BIT.
Definition HLL_SPARSE_IS_VAL (b : Z) : bool := negb (Z.land b HLL_SPARSE_VAL_BIT =? 0).
Definition HLL_SPARSE_ZERO_LEN (b : Z) : Z := Z.land b 0x3f + 1.
Definition HLL_SPARSE_XZERO_LEN (b b1 : Z) : Z := Z.lor (Z.shiftl (Z.land b 0x3f) 8) b1 + 1.
Definition HLL_SPARSE_VAL_VALUE (b : Z) : Z := Z.land (Z.shiftr b 2) 0x1f + 1.
Definition HLL_SPARSE_VAL_LEN (b : Z) : Z := Z.land b 3 + 1.
Definition HLL_SPARSE_VAL_MAX_VALUE : Z := 32.
Definition HLL_SPARSE_VAL_MAX_LEN : Z := 4.
Definition HLL_SPARSE_ZERO_MAX_LEN : Z := 64.
Definition HLL_SPARSE_XZERO_MAX_LEN : Z := 16384.
Definition HLL_SPARSE_VAL_SET (v len : Z) : bytes := [u8 (Z.lor (Z.lor (Z.shiftl (v - 1) 2) (len - 1)) HLL_SPARSE_VAL_BIT)].
Definition HLL_SPARSE_ZERO_SET (len : Z) : bytes := [u8 (len - 1)].
Definition HLL_SPARSE_XZERO_SET (len : Z) : bytes := let l := len - 1 in [u8 (Z.lor (Z.shiftr l 8) HLL_SPARSE_XZERO_BIT); u8 (Z.land l 0xff)].

(** The loop over the opcodes of [hllSparseToDense], [hllSparseRegHisto] and [hllMerge]: [zero] and [val] are what they do with
    the registers of an opcode.  The result tells [valid] and the number of registers. *)
Fixpoint sparse_walk {X} (fuel : nat) (zero : Z -> X -> option X) (val : Z -> Z -> Z -> X -> option X) (m : bytes) (p end_ idx : Z) (x : X) : option (bool * Z * X) :=
  if p <? end_ then
    match fuel with
    | O => None
    | S fuel =>
      b ← mem_byte m p;
      if HLL_SPARSE_IS_ZERO b then
        let runlen := HLL_SPARSE_ZERO_LEN b in
        if runlen + idx >? HLL_REGISTERS then Some (false, idx, x)
        else x ← zero runlen x; sparse_walk fuel zero val m (p + 1) end_ (idx + runlen) x
      else if HLL_SPARSE_IS_XZERO b then
        b1 ← mem_byte m (p + 1);
        let runlen := HLL_SPARSE_XZERO_LEN b b1 in
        if runlen + idx >? HLL_REGISTERS then Some (false, idx, x)
        else x ← zero runlen x; sparse_walk fuel zero val m (p + 2) end_ (idx + runlen) x
      else
        let runlen := HLL_SPARSE_VAL_LEN b in
        let regval := HLL_SPARSE_VAL_VALUE b in
        if runlen + idx >? HLL_REGISTERS then Some (false, idx, x)
        else x ← val idx runlen regval x; sparse_walk fuel zero val m (p + 1) end_ (idx + runlen) x
    end
  else Some (true, idx, x).

(** [while(runlen--)] of [hllSparseToDense]. *)
Fixpoint set_run (n : nat) (registers idx regval : Z) (m : bytes) : option bytes :=
  match n with O => Some m | S n => m ← HLL_DENSE_SET_REGISTER m registers idx regval; set_run n registers (idx + 1) regval m end.

Section Object.
Context {A : Allocator} (nallocx : option (Z -> Z)) (max_bytes : Z).

Definition hll_encoding (o : sds) : option Z := mem_byte (buf o) hdr_encoding.

(** The object and C_OK. *)
Definition hllSparseToDense (o : sds) : option (sds * bool) :=
  enc ← hll_encoding o;
  if enc =? HLL_DENSE then Some (o, true)
  else
    dense ← sdsnewlen Null HLL_DENSE_SIZE;
    hdr ← load (buf o) 0 (Z.to_nat HLL_HDR_SIZE);
    dense ← put_bytes dense 0 hdr;
    dense ← set_byte dense hdr_encoding HLL_DENSE;
    '(valid, idx, m) ← sparse_walk (length (buf o)) (fun _ m => Some m) (fun idx runlen regval m => set_run (Z.to_nat runlen) HLL_HDR_SIZE idx regval m)
      (buf o) HLL_HDR_SIZE (sdslen o) 0 (buf dense);
    if negb valid || negb (idx =? HLL_REGISTERS) then Some (o, false) else Some (with_buf dense m, true).

(** The loop that looks for the opcode of a register: [p], [first], [prev] and [span]. *)
Fixpoint find_opcode (fuel : nat) (m : bytes) (index p end_ first : Z) (prev : option Z) (span : Z) : option (Z * Z * option Z * Z) :=
  if p <? end_ then
    match fuel with
    | O => None
    | S fuel =>
      b ← mem_byte m p;
      '(span, oplen) ← (if HLL_SPARSE_IS_ZERO b then Some (HLL_SPARSE_ZERO_LEN b, 1)
        else if HLL_SPARSE_IS_VAL b then Some (HLL_SPARSE_VAL_LEN b, 1)
        else b1 ← mem_byte m (p + 1); Some (HLL_SPARSE_XZERO_LEN b b1, 2));
      if index <=? first + span - 1 then Some (p, first, prev, span)
      else find_opcode fuel m index (p + oplen) end_ (first + span) (Some p) span
    end
  else Some (p, first, prev, span).

(** ZERO or XZERO. *)
Definition zero_opcode (len : Z) : bytes := if len >? HLL_SPARSE_ZERO_MAX_LEN then HLL_SPARSE_XZERO_SET len else HLL_SPARSE_ZERO_SET len.

(** [seq]: the opcodes in place of the one that covers [first] to [last]; [curval] if it is a VAL. *)
Definition split_opcode (curval : option Z) (first last index count : Z) : bytes :=
  let run len := match curval with Some v => HLL_SPARSE_VAL_SET v len | None => zero_opcode len end in
  (if negb (index =? first) then run (index - first) else []) ++ HLL_SPARSE_VAL_SET count 1 ++ (if negb (index =? last) then run (last - index) else []).

(** Step 4: adjacent VAL opcodes with the same value are merged. *)
Fixpoint merge_loop (scanlen : nat) (o : sds) (p end_ : Z) : option sds :=
  if p <? end_ then
    match scanlen with
    | O => Some o
    | S scanlen =>
      b ← mem_byte (buf o) p;
      if HLL_SPARSE_IS_XZERO b then merge_loop scanlen o (p + 2) end_
      else if HLL_SPARSE_IS_ZERO b then merge_loop scanlen o (p + 1) end_
      else if p + 1 <? end_ then
        b1 ← mem_byte (buf o) (p + 1);
        let len := HLL_SPARSE_VAL_LEN b + HLL_SPARSE_VAL_LEN b1 in
        if HLL_SPARSE_IS_VAL b1 && (HLL_SPARSE_VAL_VALUE b =? HLL_SPARSE_VAL_VALUE b1) && (len <=? HLL_SPARSE_VAL_MAX_LEN) then
          o ← put_bytes o (p + 1) (HLL_SPARSE_VAL_SET (HLL_SPARSE_VAL_VALUE b) len);
          m ← memmove (buf o) (Z.to_nat p) (Z.to_nat (p + 1)) (Z.to_nat (end_ - p));
          o ← sdsIncrLen (with_buf o m) (-1);
          merge_loop scanlen o p (end_ - 1)
        else merge_loop scanlen o (p + 1) end_
      else merge_loop scanlen o (p + 1) end_
    end
  else Some o.

Definition HLL_INVALIDATE_CACHE (o : sds) : option sds := b ← mem_byte (buf o) (hdr_card + 7); set_byte o (hdr_card + 7) (Z.lor b (Z.shiftl 1 7)).

(** The label [updated]. *)
Definition sparse_updated (o : sds) (prev : option Z) (end_ : Z) : option (sds * Z) :=
  o ← merge_loop 5 o (default HLL_HDR_SIZE prev) end_;
  o ← HLL_INVALIDATE_CACHE o;
  Some (o, 1).

(** The label [promote]. *)
Definition promote (o : sds) (index count : Z) : option (sds * Z) :=
  '(o, ok) ← hllSparseToDense o;
  if negb ok then Some (o, -1)
  else
    '(m, dense_retval) ← hllDenseSet (buf o) HLL_HDR_SIZE index count;
    _ ← guard dense_retval;
    Some (with_buf o m, 1).

(** Room for three more bytes, up to [max_bytes]. *)
Definition sparse_enlarge (o : sds) : option sds :=
  if (sdsalloc o <? max_bytes) && (sdsavail o <? 3) then
    let newlen := sdslen o + 3 in
    let newlen := newlen + Z.min newlen 300 in
    let newlen := if newlen >? max_bytes then max_bytes else newlen in
    sdsResize nallocx o newlen true
  else Some o.

(** Step 3: the new sequence in place of the old opcode. *)
Definition substitute (o : sds) (p : Z) (next : option Z) (end_ : Z) (seq : bytes) (deltalen : Z) : option sds :=
  _ ← guard (sdslen o + deltalen <=? sdsalloc o);
  m ← match next with
      | Some next => if negb (deltalen =? 0) then memmove (buf o) (Z.to_nat (next + deltalen)) (Z.to_nat next) (Z.to_nat (end_ - next)) else Some (buf o)
      | None => Some (buf o)
      end;
  o ← sdsIncrLen (with_buf o m) deltalen;
  put_bytes o p seq.

(** The object and the value returned: 1, 0, or -1 for an invalid representation. *)
Definition hllSparseSet (o : sds) (index count : Z) : option (sds * Z) :=
  if count >? HLL_SPARSE_VAL_MAX_VALUE then promote o index count
  else
    o ← sparse_enlarge o;
    let end_ := sdslen o in
    '(p, first, prev, span) ← find_opcode (length (buf o)) (buf o) index HLL_HDR_SIZE end_ 0 None 0;
    if (span =? 0) || (p >=? end_) then Some (o, -1)
    else
      b ← mem_byte (buf o) p;
      let is_zero := HLL_SPARSE_IS_ZERO b in
      let is_xzero := HLL_SPARSE_IS_XZERO b in
      let is_val := negb is_zero && negb is_xzero in
      let next := if is_xzero then p + 2 else p + 1 in
      let next := if next >=? end_ then None else Some next in
      runlen ← (if is_zero then Some (HLL_SPARSE_ZERO_LEN b) else if is_xzero then b1 ← mem_byte (buf o) (p + 1); Some (HLL_SPARSE_XZERO_LEN b b1) else Some (HLL_SPARSE_VAL_LEN b));
      if is_val && (HLL_SPARSE_VAL_VALUE b >=? count) then Some (o, 0)
      else if (is_val || is_zero) && (runlen =? 1) then
        o ← put_bytes o p (HLL_SPARSE_VAL_SET count 1);
        sparse_updated o prev end_
      else
        let last := first + span - 1 in
        let seq := split_opcode (if is_val then Some (HLL_SPARSE_VAL_VALUE b) else None) first last index count in
        let oldlen := if is_xzero then 2 else 1 in
        let deltalen := Z.of_nat (length seq) - oldlen in
        if (deltalen >? 0) && (sdslen o + deltalen >? max_bytes) then promote o index count
        else
          o ← substitute o p next end_ seq deltalen;
          sparse_updated o prev (end_ + deltalen).

(** [hllDenseAdd] and [hllSparseAdd] after the hash. *)
Definition hllAdd (o : sds) (ele : bytes) : option (sds * Z) :=
  '(index, count) ← hllPatLen ele;
  enc ← hll_encoding o;
  if enc =? HLL_DENSE then '(m, changed) ← hllDenseSet (buf o) HLL_HDR_SIZE index count; Some (with_buf o m, b2z changed)
  else if enc =? HLL_SPARSE then hllSparseSet o index count
  else Some (o, -1).

(** * Merging and counting *)

(** The loop of [hllMergeDense]. *)
Fixpoint merge_dense (n : nat) (m : bytes) (i : Z) (max : bytes) : option bytes :=
  match n with
  | O => Some max
  | S n =>
    val ← HLL_DENSE_GET_REGISTER m HLL_HDR_SIZE i;
    old ← mem_byte max i;
    max ← (if val >? old then mem_set max i val else Some max);
    merge_dense n m (i + 1) max
  end.

(** [while(runlen--)] of [hllMerge]. *)
Fixpoint max_run (n : nat) (i regval : Z) (max : bytes) : option bytes :=
  match n with
  | O => Some max
  | S n =>
    old ← mem_byte max i;
    max ← (if regval >? old then mem_set max i regval else Some max);
    max_run n (i + 1) regval max
  end.

(** [max] and C_OK. *)
Definition hllMerge (max : bytes) (o : sds) : option (bytes * bool) :=
  enc ← hll_encoding o;
  if enc =? HLL_DENSE then max ← merge_dense (Z.to_nat HLL_REGISTERS) (buf o) 0 max; Some (max, true)
  else
    '(valid, i, max) ← sparse_walk (length (buf o)) (fun _ max => Some max) (fun i runlen regval max => max_run (Z.to_nat runlen) i regval max)
      (buf o) HLL_HDR_SIZE (sdslen o) 0 max;
    Some (max, valid && (i =? HLL_REGISTERS)).

(** The loop of [hllDenseCompress]. *)
Fixpoint dense_compress (n : nat) (raw : bytes) (i : Z) (m : bytes) : option bytes :=
  match n with O => Some m | S n => v ← mem_byte raw i; m ← HLL_DENSE_SET_REGISTER m HLL_HDR_SIZE i v; dense_compress n raw (i + 1) m end.

(** [reghisto[i] += n] *)
Definition histo_add (reghisto : list Z) (i n : Z) : option (list Z) := v ← reghisto !! Z.to_nat i; Some (<[Z.to_nat i := v + n]> reghisto).

Fixpoint histo_all (rs : list Z) (reghisto : list Z) : option (list Z) :=
  match rs with [] => Some reghisto | r :: rs => reghisto ← histo_add reghisto r 1; histo_all rs reghisto end.

(** Four registers in three bytes. *)
Definition four_registers (b0 b1 b2 : Z) : list Z :=
  [Z.land b0 63; Z.land (Z.lor (Z.shiftr b0 6) (Z.shiftl b1 2)) 63; Z.land (Z.lor (Z.shiftr b1 4) (Z.shiftl b2 4)) 63; Z.land (Z.shiftr b2 2) 63].

(** The 16 registers of an iteration of [hllDenseRegHisto], at [r]. *)
Definition sixteen_registers (m : bytes) (r : Z) : option (list Z) :=
  match load m (Z.to_nat r) 12 with
  | Some [b0; b1; b2; b3; b4; b5; b6; b7; b8; b9; b10; b11] =>
    Some (four_registers b0 b1 b2 ++ four_registers b3 b4 b5 ++ four_registers b6 b7 b8 ++ four_registers b9 b10 b11)
  | _ => None
  end.

Fixpoint dense_histo (n : nat) (m : bytes) (r : Z) (reghisto : list Z) : option (list Z) :=
  match n with O => Some reghisto | S n => rs ← sixteen_registers m r; reghisto ← histo_all rs reghisto; dense_histo n m (r + 12) reghisto end.

Definition hllDenseRegHisto (m : bytes) (registers : Z) (reghisto : list Z) : option (list Z) := dense_histo 1024 m registers reghisto.

(** The histogram, and [invalid]; [sparselen] is an [int]. *)
Definition hllSparseRegHisto (m : bytes) (sparse sparselen : Z) (reghisto : list Z) : option (list Z * bool) :=
  '(valid, idx, reghisto) ← sparse_walk (length m) (fun runlen h => histo_add h 0 runlen) (fun _ runlen regval h => histo_add h regval runlen) m sparse (sparse + s32 sparselen) 0 reghisto;
  Some (reghisto, negb valid || negb (idx =? HLL_REGISTERS)).

(** Words of 8 registers, which are skipped if they are zero. *)
Fixpoint raw_histo (n : nat) (raw : bytes) (reghisto : list Z) : option (list Z) :=
  match n with
  | O => Some reghisto
  | S n =>
    bs ← load raw 0 8;
    reghisto ← (if le_val bs =? 0 then histo_add reghisto 0 8 else histo_all bs reghisto);
    raw_histo n (drop 8 raw) reghisto
  end.

Definition hllRawRegHisto (raw : bytes) (reghisto : list Z) : option (list Z) := raw_histo (Z.to_nat (HLL_REGISTERS / 8)) raw reghisto.

Context (estimate : list Z -> Z).

Definition empty_histo : list Z := replicate 64 0.

(** [hllCount] of an object, and [invalid]. *)
Definition hllCount (o : sds) : option (Z * bool) :=
  enc ← hll_encoding o;
  if enc =? HLL_DENSE then reghisto ← hllDenseRegHisto (buf o) HLL_HDR_SIZE empty_histo; Some (u64 (estimate reghisto), false)
  else if enc =? HLL_SPARSE then '(reghisto, invalid) ← hllSparseRegHisto (buf o) HLL_HDR_SIZE (sdslen o - HLL_HDR_SIZE) empty_histo; Some (u64 (estimate reghisto), invalid)
  else None.

(** [hllCount] with the encoding [HLL_RAW]. *)
Definition hllCountRaw (raw : bytes) : option Z := reghisto ← hllRawRegHisto raw empty_histo; Some (u64 (estimate reghisto)).

(** * Commands *)

Definition magic : bytes := [72; 89; 76; 76].

(** XZERO opcodes for [aux] registers, from [p] on. *)
Fixpoint xzero_loop (fuel : nat) (s : sds) (p aux : Z) : option (sds * Z) :=
  if aux =? 0 then Some (s, p)
  else
    match fuel with
    | O => None
    | S fuel =>
      let xzero := if HLL_SPARSE_XZERO_MAX_LEN >? aux then aux else HLL_SPARSE_XZERO_MAX_LEN in
      s ← put_bytes s p (HLL_SPARSE_XZERO_SET xzero);
      xzero_loop fuel s (p + 2) (aux - xzero)
    end.

Definition createHLLObject : option sds :=
  let sparselen := HLL_HDR_SIZE + (HLL_REGISTERS + (HLL_SPARSE_XZERO_MAX_LEN - 1)) / HLL_SPARSE_XZERO_MAX_LEN * 2 in
  s ← sdsnewlen Null sparselen;
  '(s, p) ← xzero_loop 1 s HLL_HDR_SIZE HLL_REGISTERS;
  _ ← guard (p =? sparselen);
  s ← put_bytes s 0 magic;
  set_byte s hdr_encoding HLL_SPARSE.

Definition isHLLObject (o : sds) : option bool :=
  if sdslen o <? HLL_HDR_SIZE then Some false
  else
    m ← load (buf o) 0 4;
    enc ← hll_encoding o;
    Some (bool_decide (m = magic) && negb (enc >? HLL_MAX_ENCODING) && negb ((enc =? HLL_DENSE) && negb (sdslen o =? HLL_DENSE_SIZE))).

(** The strings of a database and [server.dirty]. *)
Record pfdb := mkPfDb { pf_keys : gmap bytes sds; pf_dirty : Z }.
Inductive pf_reply := PfInt (n : Z) | PfOk | PfWrongType | PfInvalid.

(** The elements of PFADD; the object, [updated] and whether an error came. *)
Fixpoint add_elements (o : sds) (eles : list bytes) (updated : Z) : option (sds * Z * bool) :=
  match eles with
  | [] => Some (o, updated, false)
  | e :: eles =>
    '(o, retval) ← hllAdd o e;
    if retval =? -1 then Some (o, updated, true) else add_elements o eles (if retval =? 1 then updated + 1 else updated)
  end.

Definition pfaddCommand (db : pfdb) (key : bytes) (eles : list bytes) : option (pfdb * pf_reply) :=
  '(kv, updated, ok) ← match pf_keys db !! key with
    | None => o ← createHLLObject; Some (o, 1, true)
    | Some kv => ok ← isHLLObject kv; Some (kv, 0, ok)
    end;
  if negb ok then Some (db, PfWrongType)
  else
    '(kv, updated, invalid) ← add_elements kv eles updated;
    if (invalid : bool) then Some (mkPfDb (<[key := kv]> (pf_keys db)) (pf_dirty db), PfInvalid)
    else if updated >? 0 then
      kv ← HLL_INVALIDATE_CACHE kv;
      Some (mkPfDb (<[key := kv]> (pf_keys db)) (pf_dirty db + updated), PfInt 1)
    else Some (mkPfDb (<[key := kv]> (pf_keys db)) (pf_dirty db), PfInt 0).

(** The loop of PFCOUNT and PFMERGE over the keys: [max] and [use_dense], or an error. *)
Fixpoint merge_keys (db : pfdb) (ks : list bytes) (max : bytes) (use_dense : bool) : option (pf_reply + bytes * bool) :=
  match ks with
  | [] => Some (inr (max, use_dense))
  | k :: ks =>
    match pf_keys db !! k with
    | None => merge_keys db ks max use_dense
    | Some o =>
      ok ← isHLLObject o;
      if negb ok then Some (inl PfWrongType)
      else
        enc ← hll_encoding o;
        let use_dense := use_dense || (enc =? HLL_DENSE) in
        '(max, ok) ← hllMerge max o;
        if negb ok then Some (inl PfInvalid) else merge_keys db ks max use_dense
    end
  end.

Definition zero_registers : bytes := replicate (Z.to_nat HLL_REGISTERS) 0.

(** The cached cardinality is valid unless the most significant bit is set. *)
Definition HLL_VALID_CACHE (o : sds) : option bool := b ← mem_byte (buf o) (hdr_card + 7); Some (Z.land b (Z.shiftl 1 7) =? 0).

Definition pfcountCommand (db : pfdb) (ks : list bytes) : option (pfdb * pf_reply) :=
  match ks with
  | [k] =>
    match pf_keys db !! k with
    | None => Some (db, PfInt 0)
    | Some o =>
      ok ← isHLLObject o;
      if negb ok then Some (db, PfWrongType)
      else
        valid ← HLL_VALID_CACHE o;
        if (valid : bool) then bs ← load (buf o) (Z.to_nat hdr_card) 8; Some (db, PfInt (s64 (le_val bs)))
        else
          '(card, invalid) ← hllCount o;
          if (invalid : bool) then Some (db, PfInvalid)
          else
            o ← put_bytes o hdr_card (le_bytes 8 card);
            Some (mkPfDb (<[k := o]> (pf_keys db)) (pf_dirty db + 1), PfInt (s64 card))
    end
  | _ =>
    r ← merge_keys db ks zero_registers false;
    match r with
    | inl e => Some (db, e)
    | inr (max, _) => card ← hllCountRaw max; Some (db, PfInt (s64 card))
    end
  end.

(** The loop that writes the registers of the result. *)
Fixpoint merge_write (n : nat) (o : sds) (max : bytes) (j : Z) : option sds :=
  match n with
  | O => Some o
  | S n =>
    v ← mem_byte max j;
    o ← (if v =? 0 then Some o
         else
           enc ← hll_encoding o;
           if enc =? HLL_DENSE then '(m, _) ← hllDenseSet (buf o) HLL_HDR_SIZE j v; Some (with_buf o m)
           else if enc =? HLL_SPARSE then '(o, _) ← hllSparseSet o j v; Some o
           else Some o);
    merge_write n o max (j + 1)
  end.

Definition pfmergeCommand (db : pfdb) (dest : bytes) (srcs : list bytes) : option (pfdb * pf_reply) :=
  r ← merge_keys db (dest :: srcs) zero_registers false;
  match r with
  | inl e => Some (db, e)
  | inr (max, use_dense) =>
    kv ← match pf_keys db !! dest with Some kv => Some kv | None => createHLLObject end;
    '(kv, ok) ← (if (use_dense : bool) then hllSparseToDense kv else Some (kv, true));
    if negb ok then Some (mkPfDb (<[dest := kv]> (pf_keys db)) (pf_dirty db), PfInvalid)
    else
      kv ← (if (use_dense : bool) then m ← dense_compress (Z.to_nat HLL_REGISTERS) max 0 (buf kv); Some (with_buf kv m)
            else merge_write (Z.to_nat HLL_REGISTERS) kv max 0);
      kv ← HLL_INVALIDATE_CACHE kv;
      Some (mkPfDb (<[dest := kv]> (pf_keys db)) (pf_dirty db + 1), PfOk)
  end.

End Object.
End Hll.
