(* ===== verification/HllOps.v ===== *)
(** The opcodes of sparse HyperLogLogs and the bits of dense registers (hyperloglog.c). *)

From S2P Require Import Prelude Bits Sds SdsSpec Hll.

Module HllOps.
Import Sds SdsSpec Hll.

(** * Opcodes *)

Inductive opcode := Zero (n : Z) | XZero (n : Z) | Val (v n : Z).

Definition op_ok (o : opcode) : Prop := match o with Zero n => 1 <= n <= 64 | XZero n => 1 <= n <= 16384 | Val v n => 1 <= v <= 32 /\ 1 <= n <= 4 end.
Definition op_len (o : opcode) : Z := match o with Zero n | XZero n | Val _ n => n end.
Definition op_val (o : opcode) : Z := match o with Val v _ => v | _ => 0 end.
Definition op_enc (o : opcode) : bytes := match o with Zero n => HLL_SPARSE_ZERO_SET n | XZero n => HLL_SPARSE_XZERO_SET n | Val v n => HLL_SPARSE_VAL_SET v n end.
Definition op_size (o : opcode) : Z := match o with XZero _ => 2 | _ => 1 end.

Definition op_regs (o : opcode) : list Z := replicate (Z.to_nat (op_len o)) (op_val o).

Definition ops_enc (ops : list opcode) : bytes := concat (map op_enc ops).
Definition ops_len (ops : list opcode) : Z := foldr (fun o n => op_len o + n) 0 ops.
Definition ops_regs (ops : list opcode) : list Z := concat (map op_regs ops).

Lemma ops_enc_app a b : ops_enc (a ++ b) = ops_enc a ++ ops_enc b.
Proof. unfold ops_enc. by rewrite map_app, concat_app. Qed.

Lemma ops_regs_app a b : ops_regs (a ++ b) = ops_regs a ++ ops_regs b.
Proof. unfold ops_regs. by rewrite map_app, concat_app. Qed.

Lemma ops_len_app a b : ops_len (a ++ b) = ops_len a + ops_len b.
Proof. induction a as [|o a IH]; [done|]. cbn [app ops_len foldr]. unfold ops_len in *. rewrite IH. lia. Qed.

Lemma op_len_pos o : op_ok o -> 1 <= op_len o.
Proof. destruct o; cbn; lia. Qed.

Lemma ops_len_nonneg ops : Forall op_ok ops -> 0 <= ops_len ops.
Proof. induction 1 as [|o ops Ho _ IH]; [done|]. cbn [ops_len foldr]. fold (ops_len ops). pose proof (op_len_pos o Ho). lia. Qed.

Lemma ops_regs_length ops : Forall op_ok ops -> Z.of_nat (length (ops_regs ops)) = ops_len ops.
Proof.
  induction 1 as [|o ops Ho _ IH]; [done|]. unfold ops_regs in *. cbn [map concat ops_len foldr]. fold (ops_len ops). rewrite length_app, Nat2Z.inj_add, IH. unfold op_regs. rewrite length_replicate. pose proof (op_len_pos o Ho). lia.
Qed.

Lemma op_enc_length o : Z.of_nat (length (op_enc o)) = op_size o.
Proof. by destruct o. Qed.

(** What the macros read in the bytes of an opcode. *)
Definition reads (o : opcode) (b b1 : Z) : bool :=
  match o with
  | Zero n => HLL_SPARSE_IS_ZERO b && negb (HLL_SPARSE_IS_XZERO b) && negb (HLL_SPARSE_IS_VAL b) && (HLL_SPARSE_ZERO_LEN b =? n)
  | XZero n => negb (HLL_SPARSE_IS_ZERO b) && HLL_SPARSE_IS_XZERO b && negb (HLL_SPARSE_IS_VAL b) && (HLL_SPARSE_XZERO_LEN b b1 =? n)
  | Val v n => negb (HLL_SPARSE_IS_ZERO b) && negb (HLL_SPARSE_IS_XZERO b) && HLL_SPARSE_IS_VAL b && (HLL_SPARSE_VAL_LEN b =? n) && (HLL_SPARSE_VAL_VALUE b =? v)
  end.

Definition reads_enc (o : opcode) : bool := match op_enc o with [b] => reads o b 0 | [b; b1] => reads o b b1 | _ => false end.

Lemma reads_enc_ok o : op_ok o -> reads_enc o = true.
Proof.
  destruct o as [n|n|v n]; cbn [op_ok]; intros H.
  - apply (check_range 1 64 (fun n => reads_enc (Zero n))); [by vm_compute|lia].
  - apply (check_range 1 16384 (fun n => reads_enc (XZero n))); [by vm_compute|lia].
  - assert (Hv : forallb (fun n => reads_enc (Val v n)) (seqZ 1 4) = true); [|by apply (check_range 1 4 _ Hv); lia].
    apply (check_range 1 32 (fun v => forallb (fun n => reads_enc (Val v n)) (seqZ 1 4))); [by vm_compute|lia].
Qed.

Lemma mem_byte_app a x b : mem_byte (a ++ x :: b) (Z.of_nat (length a)) = Some x.
Proof. unfold mem_byte. rewrite (proj2 (Z.leb_le _ _)) by lia. cbn [guard mbind option_bind]. rewrite Nat2Z.id, lookup_app_r, Nat.sub_diag by lia. done. Qed.

(** The bytes of an opcode in the memory. *)
Lemma op_at a o b : op_ok o -> b <> [] -> exists x, mem_byte (a ++ op_enc o ++ b) (Z.of_nat (length a)) = Some x /\
  exists y, mem_byte (a ++ op_enc o ++ b) (Z.of_nat (length a) + 1) = Some y /\ reads o x y = true.
Proof.
  intros Ho Hb. pose proof (reads_enc_ok o Ho) as Hr. unfold reads_enc in Hr. destruct b as [|z b]; [done|]. destruct (op_enc o) as [|x [|y [|? ?]]] eqn:E; try done.
  - exists x. cbn [app]. rewrite mem_byte_app. split; [done|]. exists z. replace (Z.of_nat (length a) + 1) with (Z.of_nat (length (a ++ [x]))) by (rewrite length_app; cbn; lia).
    change (a ++ x :: z :: b) with (a ++ [x] ++ z :: b). rewrite app_assoc, mem_byte_app. split; [done|]. by destruct o.
  - exists x. cbn [app]. rewrite mem_byte_app. split; [done|]. exists y. replace (Z.of_nat (length a) + 1) with (Z.of_nat (length (a ++ [x]))) by (rewrite length_app; cbn; lia).
    change (a ++ x :: y :: z :: b) with (a ++ [x] ++ y :: z :: b). by rewrite app_assoc, mem_byte_app.
Qed.

(** What a walk does with the opcodes. *)
Fixpoint walk_ops {X} (zero : Z -> X -> option X) (val : Z -> Z -> Z -> X -> option X) (idx : Z) (ops : list opcode) (x : X) : option X :=
  match ops with
  | [] => Some x
  | o :: ops => x ← match o with Val v n => val idx n v x | _ => zero (op_len o) x end; walk_ops zero val (idx + op_len o) ops x
  end.

Lemma sparse_walk_ok {X} (zero : Z -> X -> option X) (val : Z -> Z -> Z -> X -> option X) ops : Forall op_ok ops -> forall fuel a b idx x x', b <> [] -> (length ops <= fuel)%nat ->
  idx + ops_len ops <= HLL_REGISTERS -> walk_ops zero val idx ops x = Some x' ->
  sparse_walk fuel zero val (a ++ ops_enc ops ++ b) (Z.of_nat (length a)) (Z.of_nat (length (a ++ ops_enc ops))) idx x = Some (true, idx + ops_len ops, x').
Proof.
  induction 1 as [|o ops Ho Hops IH]; intros fuel a b idx x x' Hb Hf Hl Hw.
  - cbn [walk_ops] in Hw. injection Hw as ->. destruct fuel; cbn [sparse_walk ops_enc map concat app]; rewrite app_nil_r, Z.ltb_irrefl; do 3 f_equal; cbn; lia.
  - destruct fuel as [|fuel]; [cbn in Hf; lia|]. cbn [sparse_walk length] in *. change (ops_enc (o :: ops)) with (op_enc o ++ ops_enc ops) in *. change (ops_len (o :: ops)) with (op_len o + ops_len ops) in *.
    pose proof (op_enc_length o) as Hel. assert (Hsz : 0 < op_size o) by (by destruct o). rewrite (proj2 (Z.ltb_lt _ _)) by (rewrite !length_app; lia).
    rewrite <- !app_assoc. destruct (op_at a o (ops_enc ops ++ b) Ho) as (b0 & -> & b1 & Hb1 & Hr); [by destruct (ops_enc ops)|]. cbn [mbind option_bind].
    pose proof (ops_len_nonneg ops Hops). cbn [walk_ops] in Hw.
    assert (Hrest : forall x2, walk_ops zero val (idx + op_len o) ops x2 = Some x' -> sparse_walk fuel zero val (a ++ op_enc o ++ ops_enc ops ++ b) (Z.of_nat (length a) + op_size o) (Z.of_nat (length (a ++ op_enc o ++ ops_enc ops))) (idx + op_len o) x2 = Some (true, idx + (op_len o + ops_len ops), x')).
    { intros x2 Hx2. replace (Z.of_nat (length a) + op_size o) with (Z.of_nat (length (a ++ op_enc o))) by (rewrite length_app; lia). rewrite (app_assoc a (op_enc o) (ops_enc ops ++ b)), (app_assoc a (op_enc o) (ops_enc ops)). rewrite Z.add_assoc. apply IH; [done|lia|lia|done]. }
    destruct o as [n|n|v n]; cbn [reads op_len op_size] in *; repeat (apply andb_prop in Hr as [Hr ?]); repeat match goal with H : negb _ = true |- _ => apply negb_true_iff in H | H : (_ =? _) = true |- _ => apply Z.eqb_eq in H end.
    + rewrite Hr. replace (HLL_SPARSE_ZERO_LEN b0) with n. destruct (Z.gtb_spec (n + idx) HLL_REGISTERS); [lia|]. destruct (zero n x) as [x2|]; [|done]. cbn [mbind option_bind] in *. by apply Hrest.
    + rewrite Hr, Hb1. cbn [mbind option_bind]. match goal with H : HLL_SPARSE_IS_XZERO b0 = true |- _ => rewrite H end. replace (HLL_SPARSE_XZERO_LEN b0 b1) with n. destruct (Z.gtb_spec (n + idx) HLL_REGISTERS); [lia|]. destruct (zero n x) as [x2|]; [|done]. cbn [mbind option_bind] in *. by apply Hrest.
    + rewrite Hr. match goal with H : HLL_SPARSE_IS_XZERO b0 = false |- _ => rewrite H end. replace (HLL_SPARSE_VAL_LEN b0) with n. replace (HLL_SPARSE_VAL_VALUE b0) with v. destruct (Z.gtb_spec (n + idx) HLL_REGISTERS); [lia|]. destruct (val idx n v x) as [x2|]; [|done]. cbn [mbind option_bind] in *. by apply Hrest.
Qed.

(** * Dense registers *)

Lemma mem_byte_lookup m i x : 0 <= i -> mem_byte m i = Some x <-> m !! Z.to_nat i = Some x.
Proof. intros Hi. unfold mem_byte. by rewrite (proj2 (Z.leb_le _ _)) by done. Qed.

Lemma mem_byte_some m i : 0 <= i < Z.of_nat (length m) -> exists x, mem_byte m i = Some x /\ m !! Z.to_nat i = Some x.
Proof. intros Hi. destruct (lookup_lt_is_Some_2 m (Z.to_nat i)) as [x Hx]; [lia|]. exists x. split; [|done]. apply mem_byte_lookup; [lia|done]. Qed.

Lemma mem_set_ok m i b : 0 <= i < Z.of_nat (length m) -> mem_set m i b = Some (<[Z.to_nat i := b]> m).
Proof.
  intros Hi. unfold mem_set. rewrite (proj2 (Z.leb_le _ _)) by lia. cbn [guard mbind option_bind]. rewrite store_Some by (cbn; lia). f_equal. cbn [length]. rewrite Nat.add_1_r. symmetry. rewrite insert_take_drop by lia. done.
Qed.

(** A bit of the memory. *)
Definition mbit (m : bytes) (k : Z) : bool := Z.testbit (default 0 (m !! Z.to_nat (k / 8))) (k mod 8).

Lemma testbit_63 x : Z.testbit HLL_REGISTER_MAX x = (0 <=? x) && (x <? 6).
Proof.
  change HLL_REGISTER_MAX with (Z.ones 6). destruct (Z.leb_spec 0 x); [|by rewrite Z.testbit_neg_r]. destruct (Z.ltb_spec x 6); [by rewrite Z.ones_spec_low by lia|by rewrite Z.ones_spec_high by lia].
Qed.

Section Dense.
Context (m : bytes) (base i : Z).
Context (Hm : bytes_ok m) (Hbase : 0 <= base) (Hi : 0 <= i) (Hin : base + i * 6 / 8 + 1 < Z.of_nat (length m)).

Lemma byte_bits x k b : m !! x = Some b -> 8 <= k -> Z.testbit b k = false.
Proof. intros Hb Hk. apply (testbit_above 8); [|done]. by apply (Forall_lookup_1 _ _ _ _ Hm Hb). Qed.

Lemma bit_index n : 0 <= n < 16 -> let fb := (i * 6) mod 8 in fb + n < 16 ->
  (8 * base + i * 6 + n) / 8 = (if fb + n <? 8 then base + i * 6 / 8 else base + i * 6 / 8 + 1) /\ (8 * base + i * 6 + n) mod 8 = if fb + n <? 8 then fb + n else fb + n - 8.
Proof.
  intros Hn fb Hlt. pose proof (Z.div_mod (i * 6) 8 ltac:(lia)) as Hd. pose proof (Z.mod_pos_bound (i * 6) 8 ltac:(lia)). fold fb in Hd. destruct (Z.ltb_spec (fb + n) 8).
  - split; [symmetry; apply (Z.div_unique _ 8 _ (fb + n)); [left; lia|lia]|symmetry; apply (Z.mod_unique _ 8 (base + i * 6 / 8)); [left; lia|lia]].
  - split; [symmetry; apply (Z.div_unique _ 8 _ (fb + n - 8)); [left; lia|lia]|symmetry; apply (Z.mod_unique _ 8 (base + i * 6 / 8 + 1)); [left; lia|lia]].
Qed.

Lemma dense_get_ok : exists v, HLL_DENSE_GET_REGISTER m base i = Some v /\ 0 <= v < 64 /\ forall n, 0 <= n < 6 -> Z.testbit v n = mbit m (8 * base + i * 6 + n).
Proof.
  unfold HLL_DENSE_GET_REGISTER, HLL_BITS. change 7 with (Z.ones 3). rewrite Z.land_ones by lia. change (2 ^ 3) with 8. set (fb := (i * 6) mod 8). pose proof (Z.mod_pos_bound (i * 6) 8 ltac:(lia)) as Hfb. fold fb in Hfb. pose proof (Z.div_pos (i * 6) 8 ltac:(lia) ltac:(lia)).
  destruct (mem_byte_some m (base + i * 6 / 8) ltac:(lia)) as (b0 & -> & H0). destruct (mem_byte_some m (base + i * 6 / 8 + 1) ltac:(lia)) as (b1 & -> & H1). cbn [mbind option_bind]. eexists. split; [done|]. split.
  - change HLL_REGISTER_MAX with (Z.ones 6). rewrite Z.land_ones by lia. apply Z.mod_pos_bound. lia.
  - intros n Hn. rewrite Z.land_spec, Z.lor_spec, Z.shiftr_spec, Z.shiftl_spec, testbit_63 by lia. rewrite (proj2 (Z.leb_le _ _)), (proj2 (Z.ltb_lt n 6)) by lia. cbn [andb]. rewrite andb_true_r.
    unfold mbit. destruct (bit_index n ltac:(lia) ltac:(fold fb; lia)) as [-> ->]. fold fb. destruct (Z.ltb_spec (fb + n) 8) as [Hlt|Hge].
    + rewrite H0. cbn [default from_option id]. rewrite (Z.testbit_neg_r b1) by lia. rewrite orb_false_r. f_equal. lia.
    + rewrite H1. cbn [default from_option id]. rewrite (byte_bits _ _ b0 H0) by lia. cbn [orb]. f_equal. lia.
Qed.

Lemma dense_set_ok v : 0 <= v < 64 -> exists m', HLL_DENSE_SET_REGISTER m base i v = Some m' /\ length m' = length m /\ bytes_ok m' /\
  forall k, 0 <= k -> mbit m' k = if (8 * base + i * 6 <=? k) && (k <? 8 * base + i * 6 + 6) then Z.testbit v (k - (8 * base + i * 6)) else mbit m k.
Proof.
  intros Hv. unfold HLL_DENSE_SET_REGISTER, HLL_BITS. change 7 with (Z.ones 3). rewrite Z.land_ones by lia. change (2 ^ 3) with 8. set (fb := (i * 6) mod 8). pose proof (Z.mod_pos_bound (i * 6) 8 ltac:(lia)) as Hfb. fold fb in Hfb. pose proof (Z.div_pos (i * 6) 8 ltac:(lia) ltac:(lia)) as Hpos.
  pose proof (Z.div_mod (i * 6) 8 ltac:(lia)) as Hdm. fold fb in Hdm. set (q := base + i * 6 / 8) in *.
  destruct (mem_byte_some m q ltac:(lia)) as (b0 & -> & H0). cbn [mbind option_bind]. set (c0 := u8 _). rewrite mem_set_ok by lia. cbn [mbind option_bind].
  destruct (mem_byte_some m (q + 1) ltac:(lia)) as (b1 & _ & H1).
  assert (H1' : mem_byte (<[Z.to_nat q := c0]> m) (q + 1) = Some b1) by (apply mem_byte_lookup; [lia|]; rewrite list_lookup_insert_ne by lia; done). rewrite H1'. cbn [mbind option_bind]. set (c1 := u8 _). rewrite mem_set_ok by (rewrite length_insert; lia).
  eexists. split; [done|]. rewrite !length_insert. split; [done|]. split.
  { apply Forall_insert; [apply Forall_insert; [done|]|]; apply uwrap_range; lia. }
  assert (Hc0 : forall j, 0 <= j < 8 -> Z.testbit c0 j = if (fb <=? j) && (j <? fb + 6) then Z.testbit v (j - fb) else Z.testbit b0 j).
  { intros j Hj. unfold c0. rewrite uwrap_bits by lia. rewrite Z.lor_spec, Z.land_spec, Z.lnot_spec, !Z.shiftl_spec, testbit_63 by lia. destruct (Z.leb_spec fb j), (Z.ltb_spec j (fb + 6)), (Z.leb_spec 0 (j - fb)), (Z.ltb_spec (j - fb) 6); try lia; cbn [andb negb]; rewrite ?andb_false_r, ?andb_true_r; cbn [orb]; try done.
    - rewrite (testbit_above 6 v (j - fb)) by (done || lia). by rewrite orb_false_r.
    - rewrite (Z.testbit_neg_r v) by lia. by rewrite orb_false_r. }
  assert (Hc1 : forall j, 0 <= j < 8 -> Z.testbit c1 j = if j + 8 - fb <? 6 then Z.testbit v (j + 8 - fb) else Z.testbit b1 j).
  { intros j Hj. unfold c1. rewrite uwrap_bits by lia. rewrite Z.lor_spec, Z.land_spec, Z.lnot_spec, !Z.shiftr_spec, testbit_63 by lia. replace (j + (8 - fb)) with (j + 8 - fb) by lia. rewrite (proj2 (Z.leb_le 0 (j + 8 - fb))) by lia. destruct (Z.ltb_spec (j + 8 - fb) 6); cbn [andb negb]; rewrite ?andb_false_r, ?andb_true_r; [done|].
    rewrite (testbit_above 6 v) by (done || lia). by rewrite orb_false_r. }
  intros k Hk. unfold mbit. pose proof (Z.mod_pos_bound k 8 ltac:(lia)) as Hkm. pose proof (Z.div_mod k 8 ltac:(lia)) as Hkd. pose proof (Z.div_pos k 8 Hk ltac:(lia)). unfold q in Hc0, Hc1 |- *.
  destruct (decide (k / 8 = q)) as [E0|N0]; [|destruct (decide (k / 8 = q + 1)) as [E1|N1]].
  - rewrite list_lookup_insert_ne by lia. replace (Z.to_nat (k / 8)) with (Z.to_nat (base + i * 6 / 8)) by lia. rewrite list_lookup_insert_eq by lia. fold q. rewrite H0. cbn [default from_option id]. rewrite Hc0 by done.
    destruct (Z.leb_spec fb (k mod 8)), (Z.ltb_spec (k mod 8) (fb + 6)), (Z.leb_spec (8 * base + i * 6) k), (Z.ltb_spec k (8 * base + i * 6 + 6)); try lia; cbn [andb]; try done. f_equal. lia.
  - replace (Z.to_nat (k / 8)) with (Z.to_nat (base + i * 6 / 8 + 1)) by lia. rewrite list_lookup_insert_eq by (rewrite length_insert; lia). fold q. rewrite H1. cbn [default from_option id]. rewrite Hc1 by done.
    destruct (Z.ltb_spec (k mod 8 + 8 - fb) 6), (Z.leb_spec (8 * base + i * 6) k), (Z.ltb_spec k (8 * base + i * 6 + 6)); try lia; cbn [andb]; try done. f_equal. lia.
  - rewrite !list_lookup_insert_ne by lia. destruct (Z.leb_spec (8 * base + i * 6) k), (Z.ltb_spec k (8 * base + i * 6 + 6)); cbn [andb]; try done. lia.
Qed.

End Dense.

Lemma dense_get_bits m m' base i : bytes_ok m -> bytes_ok m' -> 0 <= base -> 0 <= i -> base + i * 6 / 8 + 1 < Z.of_nat (length m) -> length m' = length m ->
  (forall n, 0 <= n < 6 -> mbit m' (8 * base + i * 6 + n) = mbit m (8 * base + i * 6 + n)) -> HLL_DENSE_GET_REGISTER m' base i = HLL_DENSE_GET_REGISTER m base i.
Proof.
  intros Hm Hm' Hb Hi Hin Hl Hbits. destruct (dense_get_ok m base i Hm Hb Hi Hin) as (v & -> & Hv & Hvb). destruct (dense_get_ok m' base i Hm' Hb Hi ltac:(lia)) as (v' & -> & Hv' & Hvb'). f_equal.
  apply (bits_eq 6); [lia|done|done|]. intros n Hn. rewrite Hvb, Hvb' by lia. by apply Hbits.
Qed.

(** Reading after writing. *)
Lemma dense_get_set m base i v : bytes_ok m -> 0 <= base -> 0 <= i -> base + i * 6 / 8 + 1 < Z.of_nat (length m) -> 0 <= v < 64 ->
  exists m', HLL_DENSE_SET_REGISTER m base i v = Some m' /\ length m' = length m /\ bytes_ok m' /\ HLL_DENSE_GET_REGISTER m' base i = Some v /\
    (forall j, 0 <= j -> j <> i -> base + j * 6 / 8 + 1 < Z.of_nat (length m) -> HLL_DENSE_GET_REGISTER m' base j = HLL_DENSE_GET_REGISTER m base j) /\
    (forall x, (x < Z.to_nat base)%nat -> m' !! x = m !! x) /\ (forall b, (8 * base + i * 6 + 6 <= 8 * b) -> m' !! Z.to_nat b = m !! Z.to_nat b).
Proof.
  intros Hm Hb Hi Hin Hv. destruct (dense_set_ok m base i Hm Hb Hi Hin v Hv) as (m' & Hset & Hl & Hm' & Hbits). exists m'. split; [done|]. split; [done|]. split; [done|]. split; [|split; [|]].
  - destruct (dense_get_ok m' base i Hm' Hb Hi ltac:(lia)) as (v' & -> & Hv' & Hvb'). f_equal. apply (bits_eq 6); [lia|done|done|]. intros n Hn. rewrite Hvb', Hbits by lia.
    destruct (Z.leb_spec (8 * base + i * 6) (8 * base + i * 6 + n)), (Z.ltb_spec (8 * base + i * 6 + n) (8 * base + i * 6 + 6)); try lia; cbn [andb]. f_equal. lia.
  - intros j Hj Hne Hjn. apply dense_get_bits; try done. intros n Hn. rewrite Hbits by lia.
    destruct (Z.leb_spec (8 * base + i * 6) (8 * base + j * 6 + n)), (Z.ltb_spec (8 * base + j * 6 + n) (8 * base + i * 6 + 6)); cbn [andb]; try done. exfalso. nia.
  - assert (Hsame : forall b, 0 <= b -> (forall n, 0 <= n < 8 -> ~ (8 * base + i * 6 <= 8 * b + n < 8 * base + i * 6 + 6)) -> m' !! Z.to_nat b = m !! Z.to_nat b).
    { intros b Hb0 Hout. destruct (m !! Z.to_nat b) as [x|] eqn:Ex; [|apply lookup_ge_None; apply lookup_ge_None in Ex; lia]. destruct (lookup_lt_is_Some_2 m' (Z.to_nat b)) as [y Hy]; [apply lookup_lt_Some in Ex; lia|]. rewrite Hy. f_equal.
      apply (bits_eq 8); [lia|by apply (Forall_lookup_1 _ _ _ _ Hm' Hy)|by apply (Forall_lookup_1 _ _ _ _ Hm Ex)|]. intros n Hn. pose proof (Hbits (8 * b + n) ltac:(lia)) as Hk. unfold mbit in Hk.
      replace ((8 * b + n) / 8) with b in Hk by (apply (Z.div_unique _ 8 _ n); [left; lia|lia]). replace ((8 * b + n) mod 8) with n in Hk by (apply (Z.mod_unique _ 8 b); [left; lia|lia]). rewrite Ex, Hy in Hk. cbn [default from_option id] in Hk. rewrite Hk.
      specialize (Hout n Hn). destruct (Z.leb_spec (8 * base + i * 6) (8 * b + n)), (Z.ltb_spec (8 * b + n) (8 * base + i * 6 + 6)); cbn [andb]; (done || lia). }
    split.
    + intros x Hx. rewrite <- (Nat2Z.id x). apply Hsame; [lia|]. intros n Hn. lia.
    + intros b Hb0. apply Hsame; [lia|]. intros n Hn. lia.
Qed.

End HllOps.
