(* ===== verification/HllSpec.v ===== *)
(** HyperLogLogs stand for their registers (hyperloglog.c): what the operations of Hll.v on an object do to its 16384 registers,
    whichever representation the object has. *)

From S2P Require Import Prelude Bits Sds SdsSpec Hll HllOps.

Module HllSpec.
Import Sds SdsSpec Hll HllOps.

(** * Memory *)

Lemma registers_eq : HLL_REGISTERS = 16384.
Proof. done. Qed.

Lemma dense_size_eq : HLL_DENSE_SIZE = 12304.
Proof. done. Qed.

#[local] Opaque HLL_REGISTERS HLL_DENSE_SIZE.

Lemma mem_byte_app_l m r i : 0 <= i < Z.of_nat (length m) -> mem_byte (m ++ r) i = mem_byte m i.
Proof. intros Hi. unfold mem_byte. rewrite (proj2 (Z.leb_le _ _)) by lia. cbn [guard mbind option_bind]. apply lookup_app_l. lia. Qed.

Lemma mem_set_app_l m r i b m' : mem_set m i b = Some m' -> mem_set (m ++ r) i b = Some (m' ++ r).
Proof.
  unfold mem_set. destruct (Z.leb_spec 0 i); [|done]. cbn [guard mbind option_bind]. unfold store. case_decide as Hd; [|done]. intros [= <-]. rewrite decide_True by (rewrite length_app; lia).
  rewrite take_app_le, drop_app_le by lia. by rewrite <- !app_assoc.
Qed.

Lemma mem_set_length m i b m' : mem_set m i b = Some m' -> length m' = length m.
Proof. unfold mem_set. destruct (guard _); [|done]. cbn [mbind option_bind]. apply store_length. Qed.

(** The registers are in the first part of the memory. *)
Lemma dense_get_app m r base i : 0 <= base -> 0 <= i -> base + i * 6 / 8 + 1 < Z.of_nat (length m) -> HLL_DENSE_GET_REGISTER (m ++ r) base i = HLL_DENSE_GET_REGISTER m base i.
Proof. intros Hb Hi Hin. unfold HLL_DENSE_GET_REGISTER, HLL_BITS. pose proof (Z.div_pos (i * 6) 8 ltac:(lia) ltac:(lia)). by rewrite !mem_byte_app_l by lia. Qed.

Lemma dense_set_app m r base i v m' : 0 <= base -> 0 <= i -> base + i * 6 / 8 + 1 < Z.of_nat (length m) -> HLL_DENSE_SET_REGISTER m base i v = Some m' -> HLL_DENSE_SET_REGISTER (m ++ r) base i v = Some (m' ++ r).
Proof.
  intros Hb Hi Hin. unfold HLL_DENSE_SET_REGISTER, HLL_BITS. pose proof (Z.div_pos (i * 6) 8 ltac:(lia) ltac:(lia)). rewrite mem_byte_app_l by lia. destruct (mem_byte m _) as [b0|]; [|done]. cbn [mbind option_bind].
  destruct (mem_set m _ _) as [m1|] eqn:E1; [|done]. rewrite (mem_set_app_l _ r _ _ _ E1). cbn [mbind option_bind]. rewrite mem_byte_app_l by (rewrite (mem_set_length _ _ _ _ E1); lia). destruct (mem_byte m1 _) as [b1|]; [|done]. cbn [mbind option_bind]. apply mem_set_app_l.
Qed.

(** A byte of the contents of a string. *)
Lemma rep_byte s v i x : rep s v -> v !! i = Some x -> mem_byte (buf s) (Z.of_nat i) = Some x.
Proof.
  intros H Hx. destruct (rp_buf _ _ H) as [tail Hb]. rewrite Hb, mem_byte_app_l by (apply lookup_lt_Some in Hx; lia). apply mem_byte_lookup; [lia|]. by rewrite Nat2Z.id.
Qed.

(** Other contents of the same length. *)
Lemma rep_with_buf s v w tail : rep s v -> length w = length v -> buf s = v ++ 0 :: tail -> rep (with_buf s (w ++ 0 :: tail)) w.
Proof.
  intros [_ Hl Hf Ha Hs] Hw Hb. assert (Hlen : length (w ++ 0 :: tail) = length (buf s)) by (rewrite Hb, !length_app; lia). split; cbn [buf with_buf hdr_len sdsType hdr_alloc]; rewrite ?Hlen, ?Hw; try done. by exists tail.
Qed.

Lemma replace_bytes s x y z y' : rep s (x ++ y ++ z) -> length y' = length y -> exists s', put_bytes s (Z.of_nat (length x)) y' = Some s' /\ rep s' (x ++ y' ++ z) /\ sdsType s' = sdsType s.
Proof.
  intros H Hl. destruct (rp_buf _ _ H) as [tail Hb]. unfold put_bytes. rewrite (proj2 (Z.leb_le _ _)) by lia. cbn [guard mbind option_bind]. rewrite Nat2Z.id.
  assert (Hst : store (buf s) (length x) y' = Some ((x ++ y' ++ z) ++ 0 :: tail)).
  { rewrite Hb. rewrite <- !app_assoc. by apply store_app. }
  rewrite Hst. cbn [mbind option_bind]. eexists. split; [done|]. split; [|done]. apply (rep_with_buf s (x ++ y ++ z)); [done|rewrite !length_app; lia|done].
Qed.

(** * Objects and their registers *)

(** The header, with its encoding. *)
Record header (hdr : bytes) (enc : Z) : Prop := {
  hd_length : length hdr = Z.to_nat HLL_HDR_SIZE;
  hd_magic : take 4 hdr = magic;
  hd_encoding : hdr !! Z.to_nat hdr_encoding = Some enc;
  hd_bytes : bytes_ok hdr
}.

(** The registers of the dense representation, with the null byte after them. *)
Definition dense_regs (m : bytes) (regs : list Z) : Prop :=
  length regs = Z.to_nat HLL_REGISTERS /\ forall i r, regs !! i = Some r -> HLL_DENSE_GET_REGISTER m HLL_HDR_SIZE (Z.of_nat i) = Some r.

Record dense_is (s : sds) (hdr : bytes) (regs : list Z) : Prop := {
  dn_header : header hdr HLL_DENSE;
  dn_body : exists body, rep s (hdr ++ body) /\ Z.of_nat (length (hdr ++ body)) = HLL_DENSE_SIZE /\ bytes_ok body /\ dense_regs ((hdr ++ body) ++ [0]) regs
}.

Record sparse_is (s : sds) (hdr : bytes) (ops : list opcode) : Prop := {
  sp_header : header hdr HLL_SPARSE;
  sp_rep : rep s (hdr ++ ops_enc ops);
  sp_ops : Forall op_ok ops;
  sp_len : ops_len ops = HLL_REGISTERS
}.

(** The object has these registers. *)
Inductive hll_is (s : sds) (hdr : bytes) (regs : list Z) : Prop :=
  | hll_dense : dense_is s hdr regs -> hll_is s hdr regs
  | hll_sparse ops : sparse_is s hdr ops -> regs = ops_regs ops -> hll_is s hdr regs.

Lemma header_encoding s hdr enc v : header hdr enc -> rep s (hdr ++ v) -> hll_encoding s = Some enc.
Proof.
  intros [Hl _ He _] H. unfold hll_encoding. change hdr_encoding with (Z.of_nat (Z.to_nat hdr_encoding)). apply (rep_byte _ _ _ _ H). by rewrite lookup_app_l by (rewrite Hl; unfold HLL_HDR_SIZE, hdr_encoding; lia).
Qed.

(** A register is a value of 6 bits, and 5 bits in sparse objects. *)
Definition regs_ok (regs : list Z) : Prop := length regs = Z.to_nat HLL_REGISTERS /\ Forall (fun r => 0 <= r < 64) regs.

Lemma ops_regs_range ops : Forall op_ok ops -> Forall (fun r => 0 <= r <= 32) (ops_regs ops).
Proof.
  induction 1 as [|o ops Ho _ IH]; [constructor|]. unfold ops_regs in *. cbn [map concat]. apply Forall_app. split; [|done]. apply Forall_replicate. destruct o; cbn in *; lia.
Qed.

Lemma sparse_regs_ok s hdr ops : sparse_is s hdr ops -> regs_ok (ops_regs ops).
Proof.
  intros [_ _ Ho Hl]. split; [pose proof (ops_regs_length ops Ho); lia|]. eapply Forall_impl; [by apply ops_regs_range|]. intros r Hr. cbn in Hr. lia.
Qed.

Lemma dense_index i : (i < Z.to_nat HLL_REGISTERS)%nat -> HLL_HDR_SIZE + Z.of_nat i * 6 / 8 + 1 < HLL_DENSE_SIZE + 1.
Proof. rewrite registers_eq, dense_size_eq. intros Hi. change HLL_HDR_SIZE with 16. pose proof (Z.div_le_mono (Z.of_nat i * 6) (16383 * 6) 8 ltac:(lia) ltac:(lia)). change (16383 * 6 / 8) with 12287 in *. lia. Qed.

Lemma header_bytes hdr enc body : header hdr enc -> bytes_ok body -> bytes_ok ((hdr ++ body) ++ [0]).
Proof. intros [_ _ _ Hb] Hbody. repeat apply Forall_app_2; try done. apply Forall_singleton. unfold urange; lia. Qed.

Lemma dense_regs_range s hdr regs : dense_is s hdr regs -> regs_ok regs.
Proof.
  intros [Hh (body & _ & Hl & Hb & Hr1 & Hr2)]. split; [done|]. apply Forall_lookup. intros i r Hi. assert (Hlt : (i < Z.to_nat HLL_REGISTERS)%nat) by (rewrite <- Hr1; by eapply lookup_lt_Some).
  destruct (dense_get_ok ((hdr ++ body) ++ [0]) HLL_HDR_SIZE (Z.of_nat i)) as (v & Hv & Hv' & _); [by eapply header_bytes|done|lia|rewrite length_app; cbn [length]; pose proof (dense_index i Hlt); lia|]. rewrite (Hr2 i r Hi) in Hv. by injection Hv as ->.
Qed.

Lemma hll_regs_ok s hdr regs : hll_is s hdr regs -> regs_ok regs.
Proof. intros [H|ops H ->]; [by eapply dense_regs_range|by eapply sparse_regs_ok]. Qed.

(** * Dense objects *)

Lemma split_block (m hdr body : bytes) : length m = length ((hdr ++ body) ++ [0]) -> (forall x, (x < length hdr)%nat -> m !! x = ((hdr ++ body) ++ [0]) !! x) -> m !! length (hdr ++ body) = Some 0 ->
  exists body', m = (hdr ++ body') ++ [0] /\ length body' = length body.
Proof.
  intros Hl Hh Hz. rewrite !length_app in *. cbn [length] in *. exists (take (length body) (drop (length hdr) m)). split; [|rewrite length_take, length_drop; lia].
  apply list_eq. intros x. destruct (decide (x < length hdr)%nat) as [Hx|Hx].
  - rewrite Hh by done. by rewrite <- !app_assoc, !lookup_app_l by done.
  - rewrite <- app_assoc, lookup_app_r by lia. destruct (decide (x < length hdr + length body)%nat) as [Hy|Hy].
    + rewrite lookup_app_l by (rewrite length_take, length_drop; lia). rewrite lookup_take_lt, lookup_drop by lia. f_equal. lia.
    + rewrite lookup_app_r by (rewrite length_take, length_drop; lia). rewrite length_take, length_drop. destruct (decide (x = length hdr + length body)%nat) as [->|Hne].
      * rewrite Hz. by replace (_ - _ - _)%nat with 0%nat by lia.
      * rewrite !lookup_ge_None_2; [done|cbn; lia|lia].
Qed.

Lemma dense_buf s v : rep s v -> exists tail, buf s = (v ++ [0]) ++ tail.
Proof. intros H. destruct (rp_buf _ _ H) as [tail Hb]. exists tail. by rewrite <- app_assoc. Qed.

Lemma dense_get s hdr regs i r : dense_is s hdr regs -> regs !! i = Some r -> HLL_DENSE_GET_REGISTER (buf s) HLL_HDR_SIZE (Z.of_nat i) = Some r.
Proof.
  intros [Hh (body & Hrep & Hl & Hb & Hr1 & Hr2)] Hi. destruct (dense_buf _ _ Hrep) as [tail ->]. rewrite dense_get_app; [by apply Hr2|done|lia|].
  rewrite length_app. cbn [length]. pose proof (dense_index i ltac:(rewrite <- Hr1; by eapply lookup_lt_Some)). lia.
Qed.

Lemma dense_store s hdr regs i v : dense_is s hdr regs -> (i < Z.to_nat HLL_REGISTERS)%nat -> 0 <= v < 64 ->
  exists m, HLL_DENSE_SET_REGISTER (buf s) HLL_HDR_SIZE (Z.of_nat i) v = Some m /\ dense_is (with_buf s m) hdr (<[i := v]> regs).
Proof.
  intros [Hh (body & Hrep & Hl & Hb & Hr1 & Hr2)] Hi Hv. pose proof (dense_index i Hi) as Hin. destruct (rp_buf _ _ Hrep) as [tail Htail]. pose proof (hd_length _ _ Hh) as Hhl.
  assert (Hlen : Z.of_nat (length ((hdr ++ body) ++ [0])) = HLL_DENSE_SIZE + 1) by (rewrite length_app; cbn [length]; lia).
  destruct (dense_get_set ((hdr ++ body) ++ [0]) HLL_HDR_SIZE (Z.of_nat i) v) as (m' & Hset & Hml & Hmb & Hget & Hother & Hlow & Hhigh); [by eapply header_bytes|done|lia|lia|done|].
  destruct (split_block m' hdr body) as (body' & -> & Hbl); [done|intros x Hx; apply Hlow; rewrite Hhl in Hx; lia| |].
  { pose proof (Hhigh HLL_DENSE_SIZE) as Hz. replace (Z.to_nat HLL_DENSE_SIZE) with (length (hdr ++ body)) in Hz by lia. rewrite Hz; [by rewrite lookup_app_r, Nat.sub_diag by lia|].
    rewrite registers_eq in Hi. rewrite dense_size_eq. change HLL_HDR_SIZE with 16. lia. }
  exists (((hdr ++ body') ++ [0]) ++ tail). split.
  { replace (buf s) with (((hdr ++ body) ++ [0]) ++ tail) by (rewrite Htail, <- app_assoc; done). apply dense_set_app; [done|lia|lia|done]. }
  split; [done|]. exists body'. split_and!.
  - rewrite <- (app_assoc (hdr ++ body') [0] tail). cbn [app]. apply (rep_with_buf s (hdr ++ body)); [done|rewrite !length_app; lia|done].
  - rewrite length_app, Hbl, <- length_app. done.
  - apply Forall_app in Hmb as [Hmb _]. by apply Forall_app in Hmb as [_ Hmb].
  - split; [by rewrite length_insert|]. intros j r Hj. destruct (decide (j = i)) as [->|Hne].
    + rewrite list_lookup_insert_eq in Hj by lia. by injection Hj as <-.
    + rewrite list_lookup_insert_ne in Hj by done. rewrite Hother; [by apply Hr2|lia|lia|]. pose proof (dense_index j ltac:(rewrite <- Hr1; by eapply lookup_lt_Some)). lia.
Qed.

Lemma hllDenseSet_ok s hdr regs i r count : dense_is s hdr regs -> regs !! i = Some r -> 0 <= count < 64 ->
  exists m, hllDenseSet (buf s) HLL_HDR_SIZE (Z.of_nat i) count = Some (m, count >? r) /\ dense_is (with_buf s m) hdr (<[i := Z.max r count]> regs).
Proof.
  intros H Hi Hc. unfold hllDenseSet. rewrite (dense_get s hdr regs i r H Hi). cbn [mbind option_bind]. destruct (Z.gtb_spec count r) as [Hgt|Hle].
  - rewrite Z.max_r by lia. destruct (dense_store s hdr regs i count H) as (m & -> & Hm); [rewrite <- (proj1 (dense_regs_range _ _ _ H)); by eapply lookup_lt_Some|done|]. cbn [mbind option_bind]. by exists m.
  - rewrite Z.max_l by lia. rewrite list_insert_id by done. exists (buf s). split; [done|]. by destruct s.
Qed.

(** Runs of registers. *)
Lemma set_run_ok n : forall s hdr a old b v, dense_is s hdr (a ++ old ++ b) -> length old = n -> 0 <= v < 64 ->
  exists m, set_run n HLL_HDR_SIZE (Z.of_nat (length a)) v (buf s) = Some m /\ dense_is (with_buf s m) hdr (a ++ replicate n v ++ b).
Proof.
  induction n as [|n IH]; intros s hdr a old b v H Hl Hv; cbn [set_run].
  - exists (buf s). split; [done|]. destruct old; [|done]. by destruct s.
  - destruct old as [|x old]; [done|]. injection Hl as Hl. destruct (dense_store s hdr (a ++ (x :: old) ++ b) (length a) v H) as (m & -> & Hm).
    { rewrite <- (proj1 (dense_regs_range _ _ _ H)), !length_app. cbn [length]. lia. } { done. }
    cbn [mbind option_bind]. cbn [app] in Hm. rewrite insert_app_r_alt, Nat.sub_diag in Hm by lia. cbn [insert list_insert] in Hm.
    change (v :: old ++ b) with ([v] ++ old ++ b) in Hm. rewrite (app_assoc a [v]) in Hm. destruct (IH _ _ _ _ _ _ Hm Hl Hv) as (m2 & Hrun & Hm2).
    rewrite length_app, Nat2Z.inj_add in Hrun. exists m2. split; [done|]. rewrite <- app_assoc in Hm2. done.
Qed.

Lemma zero_block_get n base i : 0 <= base -> 0 <= i -> base + i * 6 / 8 + 1 < Z.of_nat n -> forall hdr, bytes_ok hdr -> Z.of_nat (length hdr) <= base -> HLL_DENSE_GET_REGISTER (hdr ++ replicate (n - length hdr) 0) base i = Some 0.
Proof.
  intros Hb Hi Hin hdr Hh Hl. pose proof (Z.div_pos (i * 6) 8 ltac:(lia) ltac:(lia)). destruct (dense_get_ok (hdr ++ replicate (n - length hdr) 0) base i) as (v & -> & Hv & Hbits).
  { apply Forall_app_2; [done|]. apply Forall_replicate. unfold urange; lia. } { done. } { done. } { rewrite length_app, length_replicate. lia. }
  f_equal. apply (bits_eq 6); [lia|done|done|]. intros k Hk. rewrite Hbits by lia. unfold mbit. rewrite lookup_app_r by (assert (base <= (8 * base + i * 6 + k) / 8) by (apply Z.div_le_lower_bound; lia); lia).
  rewrite Z.bits_0. destruct (replicate _ _ !! _) as [y|] eqn:E; cbn [default from_option id]; [|by rewrite Z.bits_0]. apply lookup_replicate in E as [-> _]. by rewrite Z.bits_0.
Qed.

(** * From sparse to dense *)

Lemma ops_enc_length ops : (length ops <= length (ops_enc ops))%nat.
Proof. induction ops as [|o ops IH]; [done|]. change (ops_enc (o :: ops)) with (op_enc o ++ ops_enc ops). rewrite length_app. cbn [length]. destruct o; cbn; lia. Qed.

(** A walk over a sparse object. *)
Lemma sparse_is_walk {X} (zero : Z -> X -> option X) (val : Z -> Z -> Z -> X -> option X) s hdr ops x x' : sparse_is s hdr ops -> walk_ops zero val 0 ops x = Some x' ->
  sparse_walk (length (buf s)) zero val (buf s) HLL_HDR_SIZE (sdslen s) 0 x = Some (true, HLL_REGISTERS, x').
Proof.
  intros [Hh Hrep Ho Hl] Hw. destruct (rp_buf _ _ Hrep) as [tail Hb]. unfold sdslen. rewrite (rp_len _ _ Hrep), Hb, <- app_assoc. pose proof (hd_length _ _ Hh) as Hhl.
  replace HLL_HDR_SIZE with (Z.of_nat (length hdr)) by (rewrite Hhl; done). rewrite (sparse_walk_ok zero val ops Ho _ hdr (0 :: tail) 0 x x'); [by rewrite Hl|done| |lia|done].
  rewrite !length_app. pose proof (ops_enc_length ops). lia.
Qed.

Lemma ops_regs_cons o ops : ops_regs (o :: ops) = op_regs o ++ ops_regs ops.
Proof. done. Qed.

Lemma walk_dense ops : Forall op_ok ops -> forall s hdr a, dense_is s hdr (a ++ replicate (Z.to_nat (ops_len ops)) 0) ->
  exists m, walk_ops (fun _ m => Some m) (fun idx runlen regval m => set_run (Z.to_nat runlen) HLL_HDR_SIZE idx regval m) (Z.of_nat (length a)) ops (buf s) = Some m /\ dense_is (with_buf s m) hdr (a ++ ops_regs ops).
Proof.
  induction 1 as [|o ops Ho Hops IH]; intros s hdr a H; cbn [walk_ops].
  - exists (buf s). split; [done|]. by destruct s.
  - change (ops_len (o :: ops)) with (op_len o + ops_len ops) in H. pose proof (op_len_pos o Ho). pose proof (ops_len_nonneg ops Hops). rewrite Z2Nat.inj_add, replicate_add in H by lia.
    rewrite ops_regs_cons. assert (Hstep : exists m, match o with Val v n => set_run (Z.to_nat n) HLL_HDR_SIZE (Z.of_nat (length a)) v (buf s) | _ => Some (buf s) end = Some m /\
      dense_is (with_buf s m) hdr ((a ++ op_regs o) ++ replicate (Z.to_nat (ops_len ops)) 0)).
    { destruct o as [n|n|v n]; cbn [op_regs op_len op_val] in *; [exists (buf s); split; [done|]; rewrite <- app_assoc; by destruct s..|].
      destruct (set_run_ok (Z.to_nat n) s hdr a _ _ v H) as (m & Hm & Hd); [by rewrite length_replicate|cbn in Ho; lia|]. exists m. split; [done|]. by rewrite <- app_assoc. }
    destruct Hstep as (m & Hm & Hd). replace (match o with Val v n => _ | _ => _ end) with (Some m) by (rewrite <- Hm; by destruct o). cbn [mbind option_bind].
    destruct (IH _ _ _ Hd) as (m2 & Hw & Hd2). cbn [buf with_buf] in Hw. exists m2. split.
    + rewrite <- Hw. f_equal. rewrite length_app. unfold op_regs. rewrite length_replicate. lia.
    + rewrite <- app_assoc in Hd2. done.
Qed.

Section Alloc.
Context `{A : Allocator} (usable_bound : forall n, Z.of_nat n <= 2 ^ 62 -> Z.of_nat (usable n) < 2 ^ 63).

Lemma header_dense hdr enc : header hdr enc -> header (<[Z.to_nat hdr_encoding := HLL_DENSE]> hdr) HLL_DENSE.
Proof.
  intros [Hl Hm He Hb]. unfold hdr_encoding, HLL_HDR_SIZE in *. split; [by rewrite length_insert|by rewrite take_insert_ge by lia|rewrite list_lookup_insert_eq by lia; done|]. apply Forall_insert; [done|]. unfold urange, HLL_DENSE. lia.
Qed.

(** A new dense object with all its registers zero. *)
Lemma dense_zero s hdr : header hdr HLL_DENSE -> rep s (hdr ++ replicate (Z.to_nat (HLL_DENSE_SIZE - HLL_HDR_SIZE)) 0) -> dense_is s hdr (replicate (Z.to_nat HLL_REGISTERS) 0).
Proof.
  intros Hh Hrep. split; [done|]. pose proof (hd_length _ _ Hh) as Hl. rewrite dense_size_eq in *. unfold HLL_HDR_SIZE in *. eexists. split; [done|]. split; [rewrite length_app, length_replicate; lia|]. split; [apply Forall_replicate; unfold urange; lia|].
  split; [by rewrite length_replicate|]. intros i r Hi. apply lookup_replicate in Hi as [-> Hi]. replace ((hdr ++ replicate _ 0) ++ [0]) with (hdr ++ replicate (Z.to_nat 12305 - length hdr) 0).
  - pose proof (dense_index i Hi) as Hin. rewrite dense_size_eq in Hin. unfold HLL_HDR_SIZE in Hin |- *. apply zero_block_get; [lia|lia|lia|by destruct Hh|rewrite Hl; lia].
  - rewrite <- app_assoc. f_equal. change [0] with (replicate 1 0). rewrite <- replicate_add. f_equal. rewrite Hl. lia.
Qed.

Lemma hllSparseToDense_ok s hdr ops : sparse_is s hdr ops ->
  exists s', hllSparseToDense s = Some (s', true) /\ dense_is s' (<[Z.to_nat hdr_encoding := HLL_DENSE]> hdr) (ops_regs ops).
Proof.
  intros H. pose proof (sp_header _ _ _ H) as Hh. pose proof (sp_rep _ _ _ H) as Hrep. pose proof (hd_length _ _ Hh) as Hhl. unfold hllSparseToDense. rewrite (header_encoding s hdr _ _ Hh Hrep). cbn [mbind option_bind].
  change (HLL_SPARSE =? HLL_DENSE) with false. cbv iota. destruct (sdsnewlen_ok usable_bound Null HLL_DENSE_SIZE) as (d & -> & Hd); [done|rewrite dense_size_eq; lia|cbn [init_bytes]; rewrite length_replicate, dense_size_eq; lia|]. cbn [mbind option_bind init_bytes] in *.
  assert (Hload : load (buf s) 0 (Z.to_nat HLL_HDR_SIZE) = Some hdr) by (rewrite (rep_load s _ _ Hrep) by (rewrite length_app; lia); by rewrite <- Hhl, take_app_length). rewrite Hload. cbn [mbind option_bind].
  replace (replicate (Z.to_nat HLL_DENSE_SIZE) 0) with ([] ++ replicate (length hdr) 0 ++ replicate (Z.to_nat (HLL_DENSE_SIZE - HLL_HDR_SIZE)) 0) in Hd.
  2:{ cbn [app]. rewrite <- replicate_add. f_equal. rewrite Hhl, dense_size_eq. unfold HLL_HDR_SIZE. lia. }
  destruct (replace_bytes d [] _ _ hdr Hd) as (d1 & Hput & Hd1 & _); [by rewrite length_replicate|]. change (Z.of_nat (length [])) with 0 in Hput. rewrite Hput. cbn [mbind option_bind app] in *.
  assert (Hset : exists d2, set_byte d1 hdr_encoding HLL_DENSE = Some d2 /\ rep d2 (<[Z.to_nat hdr_encoding := HLL_DENSE]> hdr ++ replicate (Z.to_nat (HLL_DENSE_SIZE - HLL_HDR_SIZE)) 0)).
  { pose proof (hd_encoding _ _ Hh) as He. rewrite <- (take_drop_middle hdr _ _ He), <- app_assoc in Hd1. cbn [app] in Hd1.
    match type of Hd1 with rep _ (?x ++ ?b :: ?z) => change (x ++ b :: z) with (x ++ [b] ++ z) in Hd1; destruct (replace_bytes d1 x [b] z [HLL_DENSE] Hd1 eq_refl) as (d2 & Hp & Hr & _) end.
    exists d2. rewrite insert_take_drop by (rewrite Hhl; unfold hdr_encoding, HLL_HDR_SIZE; lia). rewrite <- app_assoc. split; [|done]. rewrite length_take, Hhl in Hp. exact Hp. }
  destruct Hset as (d2 & -> & Hd2). cbn [mbind option_bind]. apply dense_zero in Hd2; [|by eapply header_dense].
  rewrite <- (sp_len _ _ _ H) in Hd2. destruct (walk_dense ops (sp_ops _ _ _ H) d2 _ [] Hd2) as (m & Hw & Hm). rewrite (sparse_is_walk _ _ s hdr ops _ m H Hw). cbn [mbind option_bind negb orb]. rewrite Z.eqb_refl. cbn [negb]. by eexists.
Qed.

End Alloc.

End HllSpec.
