(* ===== verification/HllSparse.v ===== *)
(** Updates of sparse HyperLogLogs (hyperloglog.c): [hllSparseSet] raises one register of the object, in whichever representation it
    leaves the object. *)

From S2P Require Import Prelude Bits Sds SdsSpec Hll HllOps HllSpec.

Module HllSparse.
Import Sds SdsSpec Hll HllOps HllSpec.

#[local] Opaque HLL_REGISTERS HLL_DENSE_SIZE.

(** * Strings with room *)

Lemma avail_alloc s v : rep s v -> sdsType s <> SDS_TYPE_5 -> sdsavail s = sdsalloc s - Z.of_nat (length v).
Proof.
  intros [_ Hl Hf Ha Hs] Ht. destruct (Ha Ht) as [Ha1 Ha2]. rewrite max_size in Ha2. unfold sdsavail, sdsalloc. rewrite Hl. destruct (sdsType s); try done; apply uwrap_small; unfold urange; lia.
Qed.

(** [sdsIncrLen] when the memory of the string was changed. *)
Lemma incr_len_ok s v m d : rep s v -> sdsType s <> SDS_TYPE_5 -> length m = length (buf s) -> - 2 ^ 31 <= d < 2 ^ 31 -> 0 <= Z.of_nat (length v) + d <= sdsalloc s ->
  exists s', sdsIncrLen (with_buf s m) d = Some s' /\ rep s' (take (Z.to_nat (Z.of_nat (length v) + d)) m) /\ sdsType s' = sdsType s.
Proof.
  intros [_ Hl Hf Ha Hs] Ht Hm Hd Hn. destruct (Ha Ht) as [Ha1 Ha2]. rewrite max_size in Ha2. unfold sdsalloc in Hn. set (n := Z.of_nat (length v) + d) in *.
  assert (Hn' : 0 <= n <= hdr_alloc s) by (destruct (sdsType s); [done|..]; lia). assert (Hfield : hdr_alloc s < 2 ^ field_bits (sdsType s)) by (destruct (sdsType s); cbn [field_bits] in *; [done|..]; lia).
  unfold sdsIncrLen. cbn [with_buf hdr_len sdsType hdr_alloc]. rewrite Hl. match goal with |- context [guard ?b] => assert (Hg : b = true) end.
  { destruct (sdsType s); [done|..]; cbn [field_bits] in *; destruct (Z.geb_spec d 0), (Z.ltb_spec d 0); try lia; cbn [andb orb];
      rewrite ?(uwrap_small 32 (hdr_alloc s - _)), ?(uwrap_small 64 (hdr_alloc s - _)), ?(uwrap_small 32 d), ?(uwrap_small 64 d), ?(uwrap_small 32 (- d)), ?(uwrap_small 64 (- d)) by (unfold urange; lia);
      rewrite ?orb_false_r; rewrite Z.geb_leb; apply Z.leb_le; lia. }
  rewrite Hg. cbn [guard mbind option_bind]. fold n. unfold sdssetlen. cbn [with_buf hdr_len sdsType hdr_alloc buf]. rewrite uwrap_small by (unfold urange; lia).
  assert (Hlt : length (take (Z.to_nat n) m) = Z.to_nat n) by (rewrite length_take; lia). unfold set_byte. rewrite (proj2 (Z.leb_le _ _)) by lia. cbn [guard mbind option_bind with_buf hdr_len sdsType hdr_alloc buf].
  rewrite store_Some by (cbn [length]; lia). cbn [mbind option_bind length]. eexists. split; [done|]. split; [|done]. split; cbn [buf hdr_len hdr_alloc sdsType with_buf]; rewrite ?Hlt.
  - exists (drop (Z.to_nat n + 1) m). done.
  - lia.
  - lia.
  - intros _. rewrite length_app, Hlt. cbn [app length]. rewrite length_drop, max_size. lia.
  - rewrite length_app, Hlt. cbn [app length]. rewrite length_drop. lia.
Qed.

Section Enlarge.
Context `{A : Allocator} (usable_bound : forall n, Z.of_nat n <= 2 ^ 62 -> Z.of_nat (usable n) < 2 ^ 63).
Context (nallocx : option (Z -> Z)) (nallocx_ge : forall f n, nallocx = Some f -> n <= f n).
Context (max_bytes : Z) (max_bytes_ge : 32 <= max_bytes).

(** Room for three more bytes, or for all the bytes a sparse object may have. *)
Lemma sparse_enlarge_ok s v : rep s v -> Z.of_nat (length v) <= 2 ^ 60 -> exists s', sparse_enlarge nallocx max_bytes s = Some s' /\ rep s' v /\ sdsType s' <> SDS_TYPE_5 /\
  forall d, d <= 3 -> (0 < d -> Z.of_nat (length v) + d <= max_bytes) -> Z.of_nat (length v) + d <= sdsalloc s'.
Proof.
  intros H Hl. unfold sparse_enlarge, sdslen. rewrite (rp_len _ _ H). pose proof (sdsalloc_ge s v H) as [Hal _]. destruct (Z.ltb_spec (sdsalloc s) max_bytes) as [Hmax|Hmax]; cbn [andb]; [destruct (Z.ltb_spec (sdsavail s) 3) as [Hav|Hav]|].
  - set (n := Z.of_nat (length v) + 3 + Z.min (Z.of_nat (length v) + 3) 300). set (n' := if n >? max_bytes then max_bytes else n).
    assert (Hn' : Z.of_nat (length v) <= n' <= 2 ^ 61 /\ n' <= max_bytes /\ (n' = max_bytes \/ Z.of_nat (length v) + 3 <= n')) by (unfold n'; destruct (Z.gtb_spec n max_bytes); unfold n in *; lia).
    destruct (sdsResize_room usable_bound nallocx s v n' true H) as (s' & Hr & Hrep & Hroom); [lia|]. destruct (Hroom eq_refl nallocx_ge) as [Hsz Ht]. exists s'. split; [done|]. rewrite take_ge in Hrep by lia. split; [done|]. split.
    + apply Ht. intros E. destruct (decide (sdsType s = SDS_TYPE_5)) as [E5|E5].
      * pose proof (rp_field _ _ H) as Hf. unfold sdsalloc in E. rewrite E5 in E, Hf. cbn [field_bits] in Hf. rewrite (rp_len _ _ H) in E. lia.
      * rewrite (avail_alloc s v H E5) in Hav. lia.
    + intros d Hd Hd'. destruct (decide (0 < d)); lia.
  - exists s. assert (Ht : sdsType s <> SDS_TYPE_5) by (intros E; unfold sdsavail in Hav; rewrite E in Hav; lia). split_and!; try done. intros d Hd _. rewrite (avail_alloc s v H Ht) in Hav. lia.
  - exists s. split; [done|]. split; [done|]. split.
    + intros E. pose proof (rp_field _ _ H) as Hf. unfold sdsalloc in Hmax. rewrite E in Hmax, Hf. cbn [field_bits] in Hf. rewrite (rp_len _ _ H) in Hmax. lia.
    + intros d Hd Hd'. destruct (decide (0 < d)); lia.
Qed.

End Enlarge.

(** Other bytes in place of [y]. *)
Lemma substitute_ok s x y z y' : rep s (x ++ y ++ z) -> sdsType s <> SDS_TYPE_5 -> let d := Z.of_nat (length y') - Z.of_nat (length y) in let n := Z.of_nat (length (x ++ y ++ z)) in
  (length y <= 5)%nat -> (length y' <= 5)%nat -> n + d <= sdsalloc s -> let next := Z.of_nat (length x) + Z.of_nat (length y) in
  exists s', substitute s (Z.of_nat (length x)) (if next >=? n then None else Some next) n y' d = Some s' /\ rep s' (x ++ y' ++ z) /\ sdsType s' = sdsType s.
Proof.
  intros H Ht d n Hy Hy' Hroom next. pose proof (sdsalloc_ge s _ H) as Hal. fold n in Hal. destruct (rp_buf _ _ H) as [tail Hb]. set (B := buf s) in *. set (dst := (length x + length y')%nat). assert (Hnz : n = Z.of_nat (length x + length y + length z)) by (unfold n; rewrite !length_app; lia).
  unfold substitute, sdslen. rewrite (rp_len _ _ H). fold n. rewrite (proj2 (Z.leb_le _ _)) by done. cbn [guard mbind option_bind].
  assert (HB : take (length x) B = x) by (by rewrite Hb, <- app_assoc, take_app_length).
  set (nx := if next >=? n then None else Some next).
  assert (Hm : (match nx with Some next => if negb (d =? 0) then memmove B (Z.to_nat (next + d)) (Z.to_nat next) (Z.to_nat (n - next)) else Some B | None => Some B end) = Some (take dst B ++ z ++ drop (dst + length z) B)).
  { assert (Hsame : d = 0 \/ z = [] -> Some B = Some (take dst B ++ z ++ drop (dst + length z) B)).
    { intros [Hd|Hz].
      - f_equal. assert (E : B = (x ++ y) ++ z ++ 0 :: tail) by (by rewrite Hb, <- !app_assoc). assert (Hdst : dst = length (x ++ y)) by (rewrite length_app; unfold dst, d in *; lia).
        rewrite Hdst, E, take_app_length. rewrite <- (length_app (x ++ y) z). rewrite (app_assoc (x ++ y) z (0 :: tail)), drop_app_length. by rewrite <- app_assoc.
      - rewrite Hz. cbn [app length]. by rewrite Nat.add_0_r, take_drop. }
    unfold nx. destruct (Z.geb_spec next n) as [Hge|Hlt]; [apply Hsame; right; apply nil_length_inv; unfold next in *; lia|]. destruct (Z.eqb_spec d 0) as [Hd|Hd]; cbn [negb]; [by apply Hsame; left|].
    unfold memmove. assert (Hload : load B (Z.to_nat next) (Z.to_nat (n - next)) = Some z).
    { replace B with ((x ++ y) ++ z ++ 0 :: tail) by (by rewrite Hb, <- !app_assoc). apply load_app; [rewrite length_app; unfold next; lia|unfold next; lia]. }
    rewrite Hload. cbn [mbind option_bind]. replace (Z.to_nat (next + d)) with dst by (unfold dst, next, d; lia). apply store_Some. unfold dst. lia. }
  fold B. rewrite Hm. cbn [mbind option_bind]. assert (Hlen : length (take dst B ++ z ++ drop (dst + length z) B) = length B) by (rewrite !length_app, length_take, length_drop; unfold dst; lia).
  destruct (incr_len_ok s _ _ d H Ht Hlen) as (s1 & -> & Hr1 & Ht1); [unfold d; lia|fold n; unfold d; lia|]. cbn [mbind option_bind]. fold n in Hr1.
  assert (E : take (Z.to_nat (n + d)) (take dst B ++ z ++ drop (dst + length z) B) = x ++ take (length y') (drop (length x) B) ++ z).
  { rewrite app_assoc. rewrite take_app_length' by (rewrite length_app, length_take; unfold dst, d; lia). rewrite app_assoc. f_equal. unfold dst. by rewrite <- take_take_drop, HB. }
  rewrite E in Hr1. destruct (replace_bytes s1 _ _ _ y' Hr1) as (s' & Hp & Hr & Ht'); [rewrite length_take, length_drop; lia|]. exists s'. split; [done|]. split; [done|]. by rewrite Ht'.
Qed.

(** * Looking for the opcode of a register *)

(** What the macros read is rewritten in the goal. *)
Ltac rewrite_reads :=
  repeat match goal with
    | E : HLL_SPARSE_IS_ZERO _ = _ |- _ => progress rewrite !E
    | E : HLL_SPARSE_IS_XZERO _ = _ |- _ => progress rewrite !E
    | E : HLL_SPARSE_IS_VAL _ = _ |- _ => progress rewrite !E
    | E : HLL_SPARSE_ZERO_LEN _ = _ |- _ => progress rewrite !E
    | E : HLL_SPARSE_XZERO_LEN _ _ = _ |- _ => progress rewrite !E
    | E : HLL_SPARSE_VAL_LEN _ = _ |- _ => progress rewrite !E
    | E : HLL_SPARSE_VAL_VALUE _ = _ |- _ => progress rewrite !E
    end.

Ltac use_reads H :=
  repeat (apply andb_prop in H as [H ?]);
  repeat match goal with E : negb _ = true |- _ => apply negb_true_iff in E | E : (_ =? _) = true |- _ => apply Z.eqb_eq in E end;
  rewrite_reads.

Lemma op_size_pos o : 1 <= op_size o.
Proof. destruct o; cbn; lia. Qed.

Lemma ops_enc_cons o ops : ops_enc (o :: ops) = op_enc o ++ ops_enc ops.
Proof. done. Qed.

(** Every register has an opcode. *)
Lemma ops_split ops k : Forall op_ok ops -> 0 <= k < ops_len ops -> exists a o b, ops = a ++ o :: b /\ ops_len a <= k < ops_len a + op_len o.
Proof.
  intros Ho. revert k. induction Ho as [|o ops Ho Hops IH]; intros k Hk; [cbn in Hk; lia|]. change (ops_len (o :: ops)) with (op_len o + ops_len ops) in Hk. destruct (decide (k < op_len o)) as [Hlt|Hge].
  - exists [], o, ops. split; [done|]. cbn. lia.
  - destruct (IH (k - op_len o) ltac:(lia)) as (a & o' & b & -> & Hk'). exists (o :: a), o', b. split; [done|]. change (ops_len (o :: a)) with (op_len o + ops_len a). lia.
Qed.

(** The loop stops at the opcode of the register; the previous opcode is the last one of [a]. *)
Lemma find_opcode_ok a : Forall op_ok a -> forall o b x rest fuel first k prev span, op_ok o -> rest <> [] -> (length (a ++ o :: b) <= fuel)%nat -> ops_len a <= k < ops_len a + op_len o ->
  exists prev', find_opcode fuel (x ++ ops_enc (a ++ o :: b) ++ rest) (first + k) (Z.of_nat (length x)) (Z.of_nat (length (x ++ ops_enc (a ++ o :: b)))) first prev span
    = Some (Z.of_nat (length (x ++ ops_enc a)), first + ops_len a, prev', op_len o) /\
    (a = [] /\ prev' = prev \/ exists a1 l, a = a1 ++ [l] /\ prev' = Some (Z.of_nat (length (x ++ ops_enc a1)))).
Proof.
  induction 1 as [|o' a Ho' Ha IH]; intros o b x rest fuel first k prev span Ho Hrest Hf Hk.
  - cbn [app ops_enc map concat] in *. fold (ops_enc b). destruct fuel as [|fuel]; [cbn in Hf; lia|]. cbn [find_opcode]. pose proof (op_enc_length o). pose proof (op_size_pos o). rewrite (proj2 (Z.ltb_lt _ _)) by (rewrite !length_app; lia).
    rewrite <- app_assoc. destruct (op_at x o (ops_enc b ++ rest) Ho) as (b0 & -> & b1 & Hb1 & Hr); [by destruct (ops_enc b)|]. cbn [mbind option_bind]. exists prev. split; [|by left]. rewrite app_nil_r. cbn [ops_len foldr] in *.
    destruct o as [n|n|v n]; cbn [reads op_len] in *; use_reads Hr; rewrite ?Hb1; cbn [mbind option_bind]; rewrite_reads; (destruct (Z.leb_spec (first + k) (first + n - 1)); [|lia]); do 4 f_equal; lia.
  - change (ops_len (o' :: a)) with (op_len o' + ops_len a) in *. destruct fuel as [|fuel]; [cbn in Hf; lia|]. cbn [app] in *. cbn [find_opcode length] in *. rewrite ops_enc_cons. pose proof (op_enc_length o'). pose proof (op_size_pos o'). pose proof (ops_len_nonneg a Ha).
    rewrite (proj2 (Z.ltb_lt _ _)) by (rewrite !length_app; lia). rewrite <- (app_assoc (op_enc o')).
    destruct (op_at x o' (ops_enc (a ++ o :: b) ++ rest) Ho') as (b0 & -> & b1 & Hb1 & Hr); [by destruct (ops_enc (a ++ o :: b))|]. cbn [mbind option_bind].
    destruct (IH o b (x ++ op_enc o') rest fuel (first + op_len o') (k - op_len o') (Some (Z.of_nat (length x))) (op_len o') Ho Hrest ltac:(lia) ltac:(lia)) as (prev' & HIH & Hprev).
    rewrite <- !(app_assoc x (op_enc o')) in HIH. replace (first + op_len o' + (k - op_len o')) with (first + k) in HIH by lia. rewrite (length_app x (op_enc o')), Nat2Z.inj_add, op_enc_length in HIH.
    exists prev'. split.
    + rewrite ops_enc_cons. replace (first + (op_len o' + ops_len a)) with (first + op_len o' + ops_len a) by lia. rewrite <- HIH.
      destruct o' as [n|n|v n]; cbn [reads op_len op_size] in *; use_reads Hr; rewrite ?Hb1; cbn [mbind option_bind]; rewrite_reads; (destruct (Z.leb_spec (first + k) (first + n - 1)); [lia|]); done.
    + right. destruct Hprev as [[-> ->]|(a1 & l & -> & ->)]; [exists [], o'; split; [done|]; by rewrite app_nil_r|]. exists (o' :: a1), l. split; [done|]. rewrite ops_enc_cons, app_assoc. done.
Qed.

(** * Merging opcodes *)

Lemma rep_tail s v : rep s v -> exists tail, buf s = v ++ 0 :: tail /\ 0 :: tail <> [].
Proof. intros H. destruct (rp_buf _ _ H) as [tail Hb]. by exists tail. Qed.

(** Two VAL opcodes become one. *)
Lemma merge_step s x v n1 n2 z : rep s (x ++ op_enc (Val v n1) ++ op_enc (Val v n2) ++ z) ->
  exists s1 m s', put_bytes s (Z.of_nat (length x) + 1) (op_enc (Val v (n1 + n2))) = Some s1 /\
    memmove (buf s1) (length x) (S (length x)) (S (S (length z))) = Some m /\ sdsIncrLen (with_buf s1 m) (-1) = Some s' /\ rep s' (x ++ op_enc (Val v (n1 + n2)) ++ z).
Proof.
  intros H. rewrite app_assoc in H. destruct (replace_bytes s _ _ _ (op_enc (Val v (n1 + n2))) H eq_refl) as (s1 & Hp & Hr & _). rewrite length_app in Hp. exists s1. destruct (rp_buf _ _ Hr) as [tail Hb].
  set (e := op_enc (Val v (n1 + n2))) in *. set (e1 := op_enc (Val v n1)) in *. assert (He : length e1 = 1%nat) by done.
  assert (Hm : memmove (buf s1) (length x) (S (length x)) (S (S (length z))) = Some ((x ++ e ++ z ++ [0]) ++ 0 :: tail)).
  { unfold memmove. rewrite Hb. assert (E1 : ((x ++ e1) ++ e ++ z) ++ 0 :: tail = (x ++ e1) ++ (e ++ z ++ [0]) ++ tail) by (by rewrite <- !app_assoc). rewrite E1. rewrite load_app; [|rewrite length_app; lia|rewrite !length_app; cbn; lia]. cbn [mbind option_bind].
    assert (E2 : exists w, (x ++ e1) ++ (e ++ z ++ [0]) ++ tail = x ++ w ++ 0 :: tail /\ length w = length (e ++ z ++ [0])).
    { exists (e1 ++ e ++ z). split; [by rewrite <- !app_assoc|]. rewrite !length_app. cbn [length]. lia. }
    destruct E2 as (w & -> & Hw). rewrite store_app by done. by rewrite <- !app_assoc. }
  exists ((x ++ e ++ z ++ [0]) ++ 0 :: tail). assert (Hl : length (x ++ e ++ z ++ [0]) = length ((x ++ e1) ++ e ++ z)) by (rewrite !length_app; cbn [length]; lia).
  pose proof (rep_with_buf s1 _ (x ++ e ++ z ++ [0]) tail Hr Hl Hb) as Hr2. pose proof (rp_size _ _ Hr2) as Hsz. cbn [buf with_buf] in Hsz.
  destruct (sdsIncrLen_neg _ _ 1 Hr2) as (s' & Hi & Hr3); [rewrite !length_app; cbn [length]; lia|rewrite length_app in Hsz; lia|]. exists s'. split_and!; [by rewrite He, Nat2Z.inj_add in Hp|done|done|].
  replace (take _ _) with (x ++ e ++ z) in Hr3; [done|]. rewrite (app_assoc e z), (app_assoc x (e ++ z)). symmetry. apply take_app_length'. rewrite !length_app. cbn [length]. lia.
Qed.

Lemma merge_loop_ok n : forall s x ops, rep s (x ++ ops_enc ops) -> Forall op_ok ops ->
  exists s' ops', merge_loop n s (Z.of_nat (length x)) (Z.of_nat (length (x ++ ops_enc ops))) = Some s' /\ rep s' (x ++ ops_enc ops') /\ Forall op_ok ops' /\ ops_regs ops' = ops_regs ops.
Proof.
  induction n as [|n IH]; intros s x ops H Ho; cbn [merge_loop].
  { exists s, ops. split_and!; try done. by destruct (_ <? _). }
  destruct ops as [|o ops].
  { exists s, []. split_and!; try done. cbn [ops_enc map concat]. by rewrite app_nil_r, Z.ltb_irrefl. }
  apply Forall_cons in Ho as [Ho Hops]. rewrite ops_enc_cons in *. pose proof (op_enc_length o) as Hel. pose proof (op_size_pos o). rewrite (proj2 (Z.ltb_lt _ _)) by (rewrite !length_app; lia).
  destruct (rep_tail _ _ H) as (tail & Hb & Htail). assert (Hbuf : buf s = x ++ op_enc o ++ (ops_enc ops ++ 0 :: tail)) by (by rewrite Hb, <- !app_assoc).
  destruct (op_at x o (ops_enc ops ++ 0 :: tail) Ho) as (b0 & Hb0 & b1 & Hb1 & Hr); [by destruct (ops_enc ops)|]. rewrite <- Hbuf in Hb0, Hb1. rewrite Hb0. cbn [mbind option_bind].
  assert (Hskip : exists s' ops', merge_loop n s (Z.of_nat (length x) + op_size o) (Z.of_nat (length (x ++ op_enc o ++ ops_enc ops))) = Some s' /\ rep s' (x ++ ops_enc ops') /\ Forall op_ok ops' /\ ops_regs ops' = ops_regs (o :: ops)).
  { rewrite app_assoc in H. destruct (IH s (x ++ op_enc o) ops H Hops) as (s' & ops' & Hl & Hr' & Ho' & Hregs). exists s', (o :: ops'). rewrite length_app, Nat2Z.inj_add, Hel, <- app_assoc in Hl. rewrite <- app_assoc in Hr'. split_and!; [done|done|by constructor|]. by rewrite !ops_regs_cons, Hregs. }
  destruct o as [k|k|v k]; cbn [reads op_size] in *; [use_reads Hr; exact Hskip..|]. clear Hb0 Hb1. use_reads Hr.
  destruct (Z.ltb_spec (Z.of_nat (length x) + 1) (Z.of_nat (length (x ++ op_enc (Val v k) ++ ops_enc ops)))) as [Hlt|Hge]; [|exact Hskip].
  destruct ops as [|o2 ops]; [rewrite !length_app in Hlt; cbn [ops_enc map concat length op_enc HLL_SPARSE_VAL_SET] in Hlt; lia|]. apply Forall_cons in Hops as [Ho2 Hops].
  rewrite ops_enc_cons in *. destruct (op_at (x ++ op_enc (Val v k)) o2 (ops_enc ops ++ 0 :: tail) Ho2) as (c0 & Hc0 & c1 & Hc1 & Hr2); [by destruct (ops_enc ops)|].
  assert (Hbuf2 : buf s = (x ++ op_enc (Val v k)) ++ op_enc o2 ++ ops_enc ops ++ 0 :: tail) by (by rewrite Hb, <- !app_assoc). rewrite <- Hbuf2, length_app, Nat2Z.inj_add, Hel in Hc0. rewrite Hc0. cbn [mbind option_bind].
  destruct o2 as [k2|k2|v2 k2]; cbn [reads] in Hr2; use_reads Hr2; cbn [andb]; [exact Hskip..|].
  destruct (Z.eqb_spec v v2) as [<-|]; cbn [andb]; [|exact Hskip]. destruct (Z.leb_spec (k + k2) HLL_SPARSE_VAL_MAX_LEN) as [Hlen|]; [|exact Hskip]. clear Hskip.
  destruct (merge_step s x v k k2 (ops_enc ops) H) as (s1 & m & s2 & Hp & Hmove & Hincr & Hrep). change (HLL_SPARSE_VAL_SET v (k + k2)) with (op_enc (Val v (k + k2))). rewrite Hp. cbn [mbind option_bind].
  assert (Hn : length (x ++ op_enc (Val v k) ++ op_enc (Val v k2) ++ ops_enc ops) = (length x + S (S (length (ops_enc ops))))%nat) by (rewrite !length_app; done).
  rewrite Nat2Z.id. replace (Z.to_nat (Z.of_nat (length x) + 1)) with (S (length x)) by lia. replace (Z.to_nat (Z.of_nat _ - _)) with (S (S (length (ops_enc ops)))) by lia. rewrite Hmove. cbn [mbind option_bind]. rewrite Hincr. cbn [mbind option_bind].
  destruct (IH s2 x (Val v (k + k2) :: ops) Hrep) as (s' & ops' & Hl & Hr' & Ho' & Hregs); [constructor; [|done]; cbn in *; unfold HLL_SPARSE_VAL_MAX_LEN in Hlen; lia|].
  exists s', ops'. split; [rewrite <- Hl; f_equal; rewrite ops_enc_cons, Hn, !length_app; cbn [op_enc HLL_SPARSE_VAL_SET length]; lia|]. split; [done|]. split; [done|]. rewrite Hregs, !ops_regs_cons, app_assoc. f_equal. unfold op_regs. cbn [op_len op_val]. cbn in Ho, Ho2.
  rewrite <- replicate_add. f_equal. lia.
Qed.

(** * Splitting an opcode *)

Definition curval (o : opcode) : option Z := match o with Val v _ => Some v | _ => None end.
Definition run_op (c : option Z) (len : Z) : opcode := match c with Some v => Val v len | None => if len >? HLL_SPARSE_ZERO_MAX_LEN then XZero len else Zero len end.

Lemma run_op_ok o len : op_ok o -> 1 <= len <= op_len o -> op_ok (run_op (curval o) len) /\ op_len (run_op (curval o) len) = len /\ op_val (run_op (curval o) len) = op_val o /\ op_size (run_op (curval o) len) <= op_size o.
Proof. intros Ho Hl. destruct o as [n|n|v n]; cbn in *; [unfold HLL_SPARSE_ZERO_MAX_LEN; destruct (Z.gtb_spec len 64); cbn; lia..|lia]. Qed.

Lemma run_op_enc c len : op_enc (run_op c len) = match c with Some v => HLL_SPARSE_VAL_SET v len | None => zero_opcode len end.
Proof. unfold run_op, zero_opcode. destruct c; [done|]. by destruct (_ >? _). Qed.

Definition split_ops (o : opcode) (k count : Z) : list opcode :=
  (if negb (k =? 0) then [run_op (curval o) k] else []) ++ [Val count 1] ++ (if negb (k =? op_len o - 1) then [run_op (curval o) (op_len o - 1 - k)] else []).

Lemma split_opcode_enc o first k count : split_opcode (curval o) first (first + op_len o - 1) (first + k) count = ops_enc (split_ops o k count).
Proof.
  unfold split_opcode, split_ops. rewrite !ops_enc_app. replace (first + k - first) with k by lia. replace (first + op_len o - 1 - (first + k)) with (op_len o - 1 - k) by lia.
  replace (first + k =? first) with (k =? 0) by (destruct (Z.eqb_spec k 0), (Z.eqb_spec (first + k) first); done || lia).
  replace (first + k =? first + op_len o - 1) with (k =? op_len o - 1) by (destruct (Z.eqb_spec k (op_len o - 1)), (Z.eqb_spec (first + k) (first + op_len o - 1)); done || lia).
  f_equal; [|f_equal]; destruct (negb _); try done; unfold ops_enc; cbn [map concat]; by rewrite app_nil_r, run_op_enc.
Qed.

Lemma split_ops_ok o k count : op_ok o -> 0 <= k < op_len o -> 1 <= count <= 32 ->
  Forall op_ok (split_ops o k count) /\ ops_regs (split_ops o k count) = <[Z.to_nat k := count]> (op_regs o) /\ Z.of_nat (length (ops_enc (split_ops o k count))) <= 2 * op_size o + 1.
Proof.
  intros Ho Hk Hc. unfold split_ops. assert (H1 : forall l, 1 <= l <= op_len o -> Forall op_ok [run_op (curval o) l] /\ ops_regs [run_op (curval o) l] = replicate (Z.to_nat l) (op_val o) /\ Z.of_nat (length (ops_enc [run_op (curval o) l])) <= op_size o).
  { intros l Hl. destruct (run_op_ok o l Ho Hl) as (R1 & R2 & R3 & R4). split; [by constructor|]. unfold ops_regs, ops_enc, op_regs. cbn [map concat]. rewrite !app_nil_r, op_enc_length. by rewrite R2, R3. }
  assert (H2 : forall (b : bool) l, 0 <= l <= op_len o -> b = negb (l =? 0) -> Forall op_ok (if b then [run_op (curval o) l] else []) /\ ops_regs (if b then [run_op (curval o) l] else []) = replicate (Z.to_nat l) (op_val o) /\ Z.of_nat (length (ops_enc (if b then [run_op (curval o) l] else []))) <= op_size o).
  { intros b l Hl ->. destruct (Z.eqb_spec l 0) as [->|]; cbn [negb]; [|apply H1; lia]. split; [constructor|]. split; [done|]. cbn. pose proof (op_size_pos o). lia. }
  destruct (H2 (negb (k =? 0)) k) as (A1 & A2 & A3); [lia|done|]. destruct (H2 (negb (k =? op_len o - 1)) (op_len o - 1 - k)) as (B1 & B2 & B3); [lia|destruct (Z.eqb_spec k (op_len o - 1)), (Z.eqb_spec (op_len o - 1 - k) 0); done || lia|].
  split_and!.
  - apply Forall_app_2; [done|]. apply Forall_app_2; [|done]. constructor; [cbn; lia|done].
  - rewrite !ops_regs_app, A2, B2. unfold op_regs. rewrite insert_replicate_lt by lia. change (ops_regs [Val count 1]) with [count]. cbn [app]. repeat f_equal. lia.
  - rewrite !ops_enc_app, !length_app. change (length (ops_enc [Val count 1])) with 1%nat. lia.
Qed.

(** * Raising a register *)

Lemma ops_regs_at a o b k : Forall op_ok a -> op_ok o -> ops_len a <= k < ops_len a + op_len o -> ops_regs (a ++ o :: b) !! Z.to_nat k = Some (op_val o).
Proof.
  intros Ha Ho Hk. pose proof (ops_regs_length a Ha) as Hl. pose proof (ops_len_nonneg a Ha). rewrite ops_regs_app, ops_regs_cons, lookup_app_r by lia. rewrite lookup_app_l by (unfold op_regs; rewrite length_replicate; lia). apply lookup_replicate_2. lia.
Qed.

Lemma ops_regs_put a o b seq k v : Forall op_ok a -> op_ok o -> ops_len a <= k < ops_len a + op_len o -> ops_regs seq = <[Z.to_nat (k - ops_len a) := v]> (op_regs o) -> ops_regs (a ++ seq ++ b) = <[Z.to_nat k := v]> (ops_regs (a ++ o :: b)).
Proof.
  intros Ha Ho Hk Hseq. pose proof (ops_regs_length a Ha) as Hl. pose proof (ops_len_nonneg a Ha). rewrite !ops_regs_app, ops_regs_cons, Hseq. rewrite insert_app_r_alt by lia. f_equal. rewrite insert_app_l by (unfold op_regs; rewrite length_replicate; lia). do 2 f_equal. lia.
Qed.

Lemma sparse_intro s hdr ops ops' : header hdr HLL_SPARSE -> rep s (hdr ++ ops_enc ops') -> Forall op_ok ops' -> Forall op_ok ops -> ops_len ops = HLL_REGISTERS -> length (ops_regs ops') = length (ops_regs ops) -> sparse_is s hdr ops'.
Proof. intros Hh Hr Ho' Ho Hl Hregs. split; try done. rewrite <- Hl, <- !ops_regs_length by done. by rewrite Hregs. Qed.

Lemma header_split (hdr : bytes) i x b : hdr !! i = Some x -> exists p q, hdr = p ++ [x] ++ q /\ length p = i /\ <[i := b]> hdr = p ++ [b] ++ q.
Proof.
  intros Hx. exists (take i hdr), (drop (S i) hdr). pose proof (lookup_lt_Some _ _ _ Hx). split; [by rewrite <- (take_drop_middle hdr i x Hx) at 1|]. split; [rewrite length_take; lia|]. by apply insert_take_drop.
Qed.

(** A byte of the header. *)
Lemma set_header s hdr v i x b : rep s (hdr ++ v) -> hdr !! i = Some x -> exists s', set_byte s (Z.of_nat i) b = Some s' /\ rep s' (<[i := b]> hdr ++ v) /\ sdsType s' = sdsType s.
Proof.
  intros H Hx. destruct (header_split hdr i x b Hx) as (p & q & -> & Hp & ->). rewrite <- !app_assoc in *. destruct (replace_bytes s p [x] (q ++ v) [b] H eq_refl) as (s' & Hput & Hr & Ht). exists s'. rewrite <- Hp. by split_and!.
Qed.

Definition card_byte : nat := 15.

(** The cache of the cardinality is marked invalid. *)
Definition invalidated (hdr : bytes) : bytes := <[card_byte := Z.lor (default 0 (hdr !! card_byte)) 128]> hdr.

Lemma header_invalidated hdr enc : header hdr enc -> header (invalidated hdr) enc.
Proof.
  intros [Hl Hm He Hb]. unfold invalidated, card_byte. split; [by rewrite length_insert|by rewrite take_insert_ge by lia|by rewrite list_lookup_insert_ne by (unfold hdr_encoding; lia)|]. apply Forall_insert; [done|].
  apply urange_lor; [lia| |unfold urange; lia]. destruct (hdr !! 15%nat) as [x|] eqn:E; cbn; [by apply (Forall_lookup_1 _ _ _ _ Hb E)|unfold urange; lia].
Qed.

Lemma header_card hdr enc : header hdr enc -> exists x, hdr !! card_byte = Some x.
Proof. intros [Hl _ _ _]. apply lookup_lt_is_Some_2. rewrite Hl. unfold card_byte, HLL_HDR_SIZE. lia. Qed.

Lemma HLL_INVALIDATE_CACHE_ok s hdr enc v : header hdr enc -> rep s (hdr ++ v) -> exists s', HLL_INVALIDATE_CACHE s = Some s' /\ rep s' (invalidated hdr ++ v).
Proof.
  intros Hh H. destruct (header_card hdr enc Hh) as [x Hx]. unfold HLL_INVALIDATE_CACHE, invalidated. rewrite Hx. cbn [default from_option id]. change (hdr_card + 7) with (Z.of_nat card_byte).
  rewrite (rep_byte s (hdr ++ v) card_byte x H) by (by rewrite lookup_app_l by (by eapply lookup_lt_Some)). cbn [mbind option_bind]. destruct (set_header s hdr v card_byte x (Z.lor x 128) H Hx) as (s' & Hs & Hr & _). by exists s'.
Qed.

(** The end of an update, from the opcode at [prev]. *)
Lemma sparse_updated_ok s hdr a1 ops prev end_ : header hdr HLL_SPARSE -> rep s (hdr ++ ops_enc (a1 ++ ops)) -> Forall op_ok (a1 ++ ops) -> ops_len (a1 ++ ops) = HLL_REGISTERS ->
  default HLL_HDR_SIZE prev = Z.of_nat (length (hdr ++ ops_enc a1)) -> end_ = Z.of_nat (length (hdr ++ ops_enc (a1 ++ ops))) ->
  exists s' ops', sparse_updated s prev end_ = Some (s', 1) /\ sparse_is s' (invalidated hdr) ops' /\ ops_regs ops' = ops_regs (a1 ++ ops).
Proof.
  intros Hh H Ho Hl Hprev ->. unfold sparse_updated. rewrite Hprev. rewrite ops_enc_app, app_assoc in *. apply Forall_app in Ho as Ho'. destruct Ho' as [Ha1 Hops]. destruct (merge_loop_ok 5 s (hdr ++ ops_enc a1) ops H Hops) as (s1 & ops' & -> & Hr & Ho' & Hregs).
  cbn [mbind option_bind]. rewrite <- app_assoc in Hr. destruct (HLL_INVALIDATE_CACHE_ok s1 hdr _ _ Hh Hr) as (s' & -> & Hr'). cbn [mbind option_bind]. exists s', (a1 ++ ops'). split; [done|].
  assert (E : ops_regs (a1 ++ ops') = ops_regs (a1 ++ ops)) by (by rewrite !ops_regs_app, Hregs). split; [|done]. rewrite <- ops_enc_app in Hr'. eapply sparse_intro; [by apply header_invalidated|done|by apply Forall_app_2|exact Ho|done|by rewrite E].
Qed.

Lemma promote_ok `{A : Allocator} (usable_bound : forall n, Z.of_nat n <= 2 ^ 62 -> Z.of_nat (usable n) < 2 ^ 63) s hdr ops i r count : sparse_is s hdr ops -> ops_regs ops !! i = Some r -> r < count < 64 ->
  exists s', promote s (Z.of_nat i) count = Some (s', 1) /\ dense_is s' (<[Z.to_nat hdr_encoding := HLL_DENSE]> hdr) (<[i := count]> (ops_regs ops)).
Proof.
  intros H Hi Hc. unfold promote. destruct (hllSparseToDense_ok usable_bound s hdr ops H) as (s1 & -> & Hd). cbn [mbind option_bind negb].
  assert (0 <= r) by (pose proof (sparse_regs_ok _ _ _ H) as [_ Hr]; apply (Forall_lookup_1 _ _ _ _ Hr Hi)).
  destruct (hllDenseSet_ok s1 _ _ i r count Hd Hi ltac:(lia)) as (m & -> & Hm). cbn [mbind option_bind]. destruct (Z.gtb_spec count r); [|lia]. cbn [guard mbind option_bind]. rewrite Z.max_r in Hm by lia. by eexists.
Qed.

Lemma sparse_size s hdr ops : sparse_is s hdr ops -> Z.of_nat (length (hdr ++ ops_enc ops)) <= 2 ^ 20.
Proof.
  intros [Hh _ Ho Hl]. assert (Hb : Z.of_nat (length (ops_enc ops)) <= 2 * ops_len ops).
  { clear Hl. induction Ho as [|o ops Ho _ IH]; [done|]. rewrite ops_enc_cons, length_app, Nat2Z.inj_add, op_enc_length. change (ops_len (o :: ops)) with (op_len o + ops_len ops). pose proof (op_len_pos o Ho). destruct o; cbn in *; lia. }
  rewrite length_app, (hd_length _ _ Hh). rewrite Hl, registers_eq in Hb. unfold HLL_HDR_SIZE. lia.
Qed.

(** The opcode of a register was replaced. *)
Lemma replaced_ok s hdr a o b seq i count prev : header hdr HLL_SPARSE -> Forall op_ok (a ++ o :: b) -> ops_len (a ++ o :: b) = HLL_REGISTERS -> ops_len a <= Z.of_nat i < ops_len a + op_len o ->
  rep s (hdr ++ ops_enc (a ++ seq ++ b)) -> Forall op_ok seq -> ops_regs seq = <[Z.to_nat (Z.of_nat i - ops_len a) := count]> (op_regs o) ->
  (a = [] /\ prev = None \/ exists a1 l, a = a1 ++ [l] /\ prev = Some (Z.of_nat (length (hdr ++ ops_enc a1)))) ->
  exists s', sparse_updated s prev (Z.of_nat (length (hdr ++ ops_enc (a ++ seq ++ b)))) = Some (s', 1) /\ hll_is s' (invalidated hdr) (<[i := count]> (ops_regs (a ++ o :: b))).
Proof.
  intros Hh Ho Hl Hk Hr Hseq Hregs Hprev. apply Forall_app in Ho as Ho2. destruct Ho2 as [Ha Hob]. apply Forall_cons in Hob as [Hoo Hb].
  assert (Hsplit : exists a1 a2, a = a1 ++ a2 /\ default HLL_HDR_SIZE prev = Z.of_nat (length (hdr ++ ops_enc a1))).
  { destruct Hprev as [[-> ->]|(a1 & l & -> & ->)]; [|by exists a1, [l]]. exists [], []. split; [done|]. cbn [default ops_enc map concat]. rewrite app_nil_r, (hd_length _ _ Hh). done. }
  destruct Hsplit as (a1 & a2 & Ea & Hdef). assert (E : a ++ seq ++ b = a1 ++ (a2 ++ seq ++ b)) by (by rewrite Ea, <- app_assoc).
  pose proof (ops_regs_put a o b seq (Z.of_nat i) count Ha Hoo Hk Hregs) as Hput. rewrite Nat2Z.id in Hput. assert (Hall : Forall op_ok (a ++ seq ++ b)) by (by repeat apply Forall_app_2).
  assert (Hlen : ops_len (a ++ seq ++ b) = HLL_REGISTERS) by (rewrite <- Hl, <- !ops_regs_length by done; by rewrite Hput, length_insert). rewrite E in *.
  destruct (sparse_updated_ok s hdr a1 (a2 ++ seq ++ b) prev _ Hh Hr Hall Hlen Hdef eq_refl) as (s' & ops' & Hu & Hsp & Hre). exists s'. split; [done|]. eapply hll_sparse; [done|]. by rewrite Hre, Hput.
Qed.

Section Raise.
Context `{A : Allocator} (usable_bound : forall n, Z.of_nat n <= 2 ^ 62 -> Z.of_nat (usable n) < 2 ^ 63).
Context (nallocx : option (Z -> Z)) (nallocx_ge : forall f n, nallocx = Some f -> n <= f n).
Context (max_bytes : Z) (max_bytes_ge : 32 <= max_bytes).

(** The opcode is split, in place or in a dense object. *)
Lemma split_ok s hdr a o b i r count prev : sparse_is s hdr (a ++ o :: b) -> sdsType s <> SDS_TYPE_5 -> ops_len a <= Z.of_nat i < ops_len a + op_len o -> op_val o = r -> r < count <= 32 -> 1 <= count ->
  (a = [] /\ prev = None \/ exists a1 l, a = a1 ++ [l] /\ prev = Some (Z.of_nat (length (hdr ++ ops_enc a1)))) ->
  (forall d, d <= 3 -> (0 < d -> Z.of_nat (length (hdr ++ ops_enc (a ++ o :: b))) + d <= max_bytes) -> Z.of_nat (length (hdr ++ ops_enc (a ++ o :: b))) + d <= sdsalloc s) ->
  let p := Z.of_nat (length (hdr ++ ops_enc a)) in let end_ := Z.of_nat (length (hdr ++ ops_enc (a ++ o :: b))) in let seq := ops_enc (split_ops o (Z.of_nat i - ops_len a) count) in let deltalen := Z.of_nat (length seq) - op_size o in
  exists s' hdr', (if (deltalen >? 0) && (sdslen s + deltalen >? max_bytes) then promote s (Z.of_nat i) count
    else o' ← substitute s p (if p + op_size o >=? end_ then None else Some (p + op_size o)) end_ seq deltalen; sparse_updated o' prev (end_ + deltalen)) = Some (s', 1) /\
    hll_is s' hdr' (<[i := count]> (ops_regs (a ++ o :: b))).
Proof.
  intros H Ht Hk Hv Hc Hc1 Hprev Hroom p end_ seq deltalen. pose proof (sp_rep _ _ _ H) as Hr. pose proof (sp_ops _ _ _ H) as Ho. apply Forall_app in Ho as Ho2. destruct Ho2 as [Ha Hob]. apply Forall_cons in Hob as [Hoo Hb].
  destruct (split_ops_ok o (Z.of_nat i - ops_len a) count Hoo ltac:(lia) ltac:(lia)) as (S1 & S2 & S3). fold seq in S3. assert (Hd3 : deltalen <= 3 /\ (length seq <= 5)%nat) by (unfold deltalen; destruct o; cbn [op_size] in *; lia).
  assert (Hreg : ops_regs (a ++ o :: b) !! i = Some r) by (rewrite <- (Nat2Z.id i), <- Hv; by apply ops_regs_at). unfold sdslen. rewrite (rp_len _ _ Hr). fold end_.
  destruct ((deltalen >? 0) && (end_ + deltalen >? max_bytes)) eqn:E.
  - destruct (promote_ok usable_bound s hdr _ i r count H Hreg ltac:(lia)) as (s' & -> & Hd). exists s', (<[Z.to_nat hdr_encoding := HLL_DENSE]> hdr). split; [done|]. by apply hll_dense.
  - assert (Hdm : 0 < deltalen -> end_ + deltalen <= max_bytes) by (destruct (Z.gtb_spec deltalen 0), (Z.gtb_spec (end_ + deltalen) max_bytes); cbn [andb] in E; try done; lia).
    assert (Hr' : rep s ((hdr ++ ops_enc a) ++ op_enc o ++ ops_enc b)) by (by rewrite ops_enc_app, ops_enc_cons, app_assoc in Hr).
    assert (Hend : end_ = Z.of_nat (length ((hdr ++ ops_enc a) ++ op_enc o ++ ops_enc b))) by (unfold end_; by rewrite ops_enc_app, ops_enc_cons, app_assoc).
    destruct (substitute_ok s (hdr ++ ops_enc a) (op_enc o) (ops_enc b) seq Hr' Ht) as (s1 & Hsub & Hr1 & _); [destruct o; cbn; lia|lia|rewrite <- Hend, op_enc_length; apply Hroom; [lia|done]|].
    rewrite <- Hend, op_enc_length in Hsub. fold p deltalen in Hsub. rewrite Hsub. cbn [mbind option_bind].
    assert (Eenc : (hdr ++ ops_enc a) ++ seq ++ ops_enc b = hdr ++ ops_enc (a ++ split_ops o (Z.of_nat i - ops_len a) count ++ b)) by (by rewrite !ops_enc_app, <- !app_assoc). rewrite Eenc in Hr1.
    destruct (replaced_ok s1 hdr a o b _ i count prev (sp_header _ _ _ H) Ho (sp_len _ _ _ H) Hk Hr1 S1 S2 Hprev) as (s' & Hu & Hi). exists s', (invalidated hdr). split; [|done].
    assert (Hnew : end_ + deltalen = Z.of_nat (length (hdr ++ ops_enc (a ++ split_ops o (Z.of_nat i - ops_len a) count ++ b)))) by (rewrite <- Eenc, Hend; unfold deltalen; rewrite <- op_enc_length, !length_app; lia). rewrite Hnew. exact Hu.
Qed.

(** [hllSparseSet] raises the register to [count]; it tells whether the register changed, and leaves the header alone if it did not. *)
Lemma hllSparseSet_ok s hdr ops i r count : sparse_is s hdr ops -> ops_regs ops !! i = Some r -> 1 <= count < 64 ->
  exists s' hdr', hllSparseSet nallocx max_bytes s (Z.of_nat i) count = Some (s', b2z (count >? r)) /\ hll_is s' hdr' (<[i := Z.max r count]> (ops_regs ops)) /\ (count <= r -> hdr' = hdr).
Proof.
  intros H Hi Hc. unfold hllSparseSet. pose proof (ops_regs_range ops (sp_ops _ _ _ H)) as Hrange. pose proof (Forall_lookup_1 _ _ _ _ Hrange Hi) as Hr32. cbn in Hr32. destruct (Z.gtb_spec count HLL_SPARSE_VAL_MAX_VALUE) as [Hbig|Hsmall]; unfold HLL_SPARSE_VAL_MAX_VALUE in *.
  { destruct (promote_ok usable_bound s hdr ops i r count H Hi ltac:(lia)) as (s' & -> & Hd). exists s', (<[Z.to_nat hdr_encoding := HLL_DENSE]> hdr). destruct (Z.gtb_spec count r); [|lia]. rewrite Z.max_r by lia. split; [done|]. split; [by apply hll_dense|lia]. }
  pose proof (sparse_size _ _ _ H) as Hsz. destruct (sparse_enlarge_ok usable_bound nallocx nallocx_ge max_bytes max_bytes_ge s _ (sp_rep _ _ _ H) ltac:(lia)) as (s1 & -> & Hr1 & Ht1 & Hroom). cbn [mbind option_bind].
  assert (H1 : sparse_is s1 hdr ops) by (destruct H; by split). clear H. pose proof (sp_ops _ _ _ H1) as Ho. pose proof (sp_header _ _ _ H1) as Hh. pose proof (hd_length _ _ Hh) as Hhl. destruct (rep_tail _ _ Hr1) as (tail & Hb & Htail).
  destruct (ops_split ops (Z.of_nat i) Ho) as (a & o & b & -> & Hk); [rewrite <- ops_regs_length by done; apply lookup_lt_Some in Hi; lia|]. apply Forall_app in Ho as Ho2. destruct Ho2 as [Ha Hob]. apply Forall_cons in Hob as [Hoo Hbb].
  unfold sdslen. rewrite (rp_len _ _ Hr1). set (end_ := Z.of_nat (length (hdr ++ ops_enc (a ++ o :: b)))) in *.
  destruct (find_opcode_ok a Ha o b hdr (0 :: tail) (length (buf s1)) 0 (Z.of_nat i) None 0 Hoo Htail) as (prev & Hloc & Hprev); [rewrite Hb, !length_app; pose proof (ops_enc_length (a ++ o :: b)); rewrite length_app in *; lia|done|].
  rewrite app_assoc, <- Hb in Hloc. fold end_ in Hloc. rewrite Hhl in Hloc. change (Z.of_nat (Z.to_nat HLL_HDR_SIZE)) with HLL_HDR_SIZE in Hloc. rewrite !Z.add_0_l in Hloc. rewrite Hloc. cbn [mbind option_bind]. set (p := Z.of_nat (length (hdr ++ ops_enc a))) in *.
  pose proof (op_len_pos o Hoo) as Hpos. pose proof (op_enc_length o) as Hel. pose proof (op_size_pos o) as Hsp. assert (Hpe : p + op_size o <= end_) by (unfold p, end_; rewrite ops_enc_app, ops_enc_cons, !length_app; lia).
  destruct (Z.eqb_spec (op_len o) 0); [lia|]. destruct (Z.geb_spec p end_); [lia|]. cbn [orb].
  assert (Hbuf : buf s1 = (hdr ++ ops_enc a) ++ op_enc o ++ ops_enc b ++ 0 :: tail) by (by rewrite Hb, ops_enc_app, ops_enc_cons, <- !app_assoc).
  destruct (op_at (hdr ++ ops_enc a) o (ops_enc b ++ 0 :: tail) Hoo) as (b0 & Hb0 & b1 & Hb1 & Hrd); [by destruct (ops_enc b)|]. rewrite <- Hbuf in Hb0, Hb1. fold p in Hb0, Hb1. rewrite Hb0. cbn [mbind option_bind].
  assert (Hval : op_val o = r) by (pose proof (ops_regs_at a o b (Z.of_nat i) Ha Hoo Hk) as Hat; rewrite Nat2Z.id, Hi in Hat; by injection Hat).
  assert (Hraise : r < count -> exists s' hdr', (if (op_size o =? 1) && (op_len o =? 1) then o' ← put_bytes s1 p (HLL_SPARSE_VAL_SET count 1); sparse_updated o' prev end_
      else let seq := split_opcode (curval o) (ops_len a) (ops_len a + op_len o - 1) (Z.of_nat i) count in let deltalen := Z.of_nat (length seq) - op_size o in
        if (deltalen >? 0) && (sdslen s1 + deltalen >? max_bytes) then promote s1 (Z.of_nat i) count
        else o' ← substitute s1 p (if p + op_size o >=? end_ then None else Some (p + op_size o)) end_ seq deltalen; sparse_updated o' prev (end_ + deltalen)) = Some (s', 1) /\
      hll_is s' hdr' (<[i := count]> (ops_regs (a ++ o :: b)))).
  { pose proof (split_opcode_enc o (ops_len a) (Z.of_nat i - ops_len a) count) as Hsplit. replace (ops_len a + (Z.of_nat i - ops_len a)) with (Z.of_nat i) in Hsplit by lia.
    intros Hlt. destruct (Z.eqb_spec (op_size o) 1) as [E1|_]; [destruct (Z.eqb_spec (op_len o) 1) as [E2|_]|]; cbn [andb].
    - rewrite ops_enc_app, ops_enc_cons, app_assoc in Hr1. destruct (replace_bytes s1 _ _ _ (HLL_SPARSE_VAL_SET count 1) Hr1) as (s2 & Hput & Hr2 & _); [cbn; lia|]. fold p in Hput. rewrite Hput. cbn [mbind option_bind].
      assert (E3 : (hdr ++ ops_enc a) ++ HLL_SPARSE_VAL_SET count 1 ++ ops_enc b = hdr ++ ops_enc (a ++ [Val count 1] ++ b)) by (by rewrite !ops_enc_app, <- !app_assoc). rewrite E3 in Hr2.
      destruct (replaced_ok s2 hdr a o b [Val count 1] i count prev Hh Ho (sp_len _ _ _ H1) Hk Hr2) as (s' & Hu & Hs'); [constructor; [cbn; lia|done]| |done|].
      { unfold op_regs at 1. rewrite E2. replace (Z.of_nat i - ops_len a) with 0 by lia. done. }
      exists s', (invalidated hdr). split; [|done].
      assert (Hnew : end_ = Z.of_nat (length (hdr ++ ops_enc (a ++ [Val count 1] ++ b)))) by (unfold end_; rewrite <- E3, !ops_enc_app, ops_enc_cons, !length_app; cbn [length HLL_SPARSE_VAL_SET]; lia). rewrite Hnew. exact Hu.
    - rewrite Hsplit. by apply split_ok with r; try lia.
    - rewrite Hsplit. by apply split_ok with r; try lia. }
  assert (Hsl : sdslen s1 = end_) by (unfold sdslen; by rewrite (rp_len _ _ Hr1)). rewrite Hsl in Hraise.
  destruct o as [n0|n0|v n0]; cbn [reads op_len op_size op_val curval] in *; use_reads Hrd; rewrite ?Hb1; cbn [mbind option_bind negb andb orb]; rewrite_reads; cbn [mbind option_bind].
  1, 2: destruct (Z.gtb_spec count r); [|lia]; rewrite Z.max_r by lia; destruct (Hraise ltac:(lia)) as (s' & hdr' & Hrun & Hs'); exists s', hdr'; split; [exact Hrun|split; [done|lia]].
  destruct (Z.geb_spec v count) as [Hge|Hlt]; cbn [andb orb].
  - destruct (Z.gtb_spec count r); [lia|]. rewrite Z.max_l by lia. rewrite list_insert_id by done. exists s1, hdr. split; [done|]. split; [by eapply hll_sparse|done].
  - destruct (Z.gtb_spec count r); [|lia]; rewrite Z.max_r by lia; destruct (Hraise ltac:(lia)) as (s' & hdr' & Hrun & Hs'); exists s', hdr'; split; [exact Hrun|split; [done|lia]].
Qed.

End Raise.

End HllSparse.
