(* ===== verification/HllMerge.v ===== *)
(** Adding elements to HyperLogLogs of either representation, merging them, and making new ones (hyperloglog.c). *)

From S2P Require Import Prelude Bits Sds SdsSpec Hll HllOps HllSpec HllSparse.

Module HllMerge.
Import Sds SdsSpec Hll HllOps HllSpec HllSparse.

#[local] Opaque HLL_REGISTERS HLL_DENSE_SIZE.

(** * The register and the pattern of an element *)

Lemma ctz_bound fuel : forall x k, Z.testbit x k = true -> 0 <= k < Z.of_nat fuel -> 0 <= ctz fuel x <= k.
Proof.
  induction fuel as [|fuel IH]; intros x k Hx Hk; cbn [ctz]; [lia|]. destruct (Z.testbit x 0) eqn:E0; [lia|]. assert (k <> 0) by (intros ->; congruence).
  destruct (IH (Z.shiftr x 1) (k - 1)); [rewrite Z.shiftr_spec by lia; by replace (k - 1 + 1) with k by lia|lia|lia].
Qed.

(** The words and the last bytes of a key whose length is an [int]. *)
Lemma murmur_words_ok key n : (8 * n <= length key)%nat -> forall d fuel h, (d <= n)%nat -> (n - d <= fuel)%nat -> exists h', murmur_words fuel key (8 * d) (Z.of_nat (8 * n)) h = Some (h', (8 * n)%nat).
Proof.
  intros Hn d fuel. revert d. induction fuel as [|fuel IH]; intros d h Hd Hf; cbn [murmur_words]; destruct (Z.eqb_spec (Z.of_nat (8 * d)) (Z.of_nat (8 * n))) as [E|E]; [exists h; do 2 f_equal; lia|lia|exists h; do 2 f_equal; lia|].
  rewrite load_Some by lia. cbn [mbind option_bind]. replace (8 * d + 8)%nat with (8 * (d + 1))%nat by lia. apply IH; lia.
Qed.

Lemma MurmurHash64A_total key seed : Z.of_nat (length key) < 2 ^ 31 -> exists h, MurmurHash64A key (s32 (Z.of_nat (length key))) seed = Some h.
Proof.
  intros Hl. rewrite swrap_small by (unfold srange; lia). unfold MurmurHash64A. change 7 with (Z.ones 3). rewrite Z.land_ones by lia. change (2 ^ 3) with 8. pose proof (Z.div_mod (Z.of_nat (length key)) 8 ltac:(lia)) as Hd. pose proof (Z.mod_pos_bound (Z.of_nat (length key)) 8 ltac:(lia)) as Hm. pose proof (Z.div_pos (Z.of_nat (length key)) 8 ltac:(lia) ltac:(lia)) as Hp.
  set (n := Z.to_nat (Z.of_nat (length key) / 8)). replace (Z.of_nat (length key) - Z.of_nat (length key) mod 8) with (Z.of_nat (8 * n)) by lia. destruct (murmur_words_ok key n ltac:(lia) 0 (length key) (Z.lxor seed (u64 (Z.of_nat (length key) * murmur_m))) ltac:(lia) ltac:(lia)) as [h Hw].
  change (8 * 0)%nat with 0%nat in Hw. rewrite Hw. cbn [mbind option_bind]. rewrite load_Some by lia. cbn [mbind option_bind]. eauto.
Qed.

(** The hash of a key whose length is negative as an [int] runs past its end. *)
Lemma murmur_words_past key end_ : end_ < 0 -> forall fuel data h, murmur_words fuel key data end_ h = None.
Proof.
  intros He fuel. induction fuel as [|fuel IH]; intros data h; cbn [murmur_words]; (destruct (Z.eqb_spec (Z.of_nat data) end_); [lia|]); [done|]. destruct (load key data 8); [|done]. cbn [mbind option_bind]. apply IH.
Qed.

Lemma long_element ele : 2 ^ 31 <= Z.of_nat (length ele) < 2 ^ 32 -> hllPatLen ele = None.
Proof.
  intros Hl. assert (E : s32 (Z.of_nat (length ele)) = Z.of_nat (length ele) - 2 ^ 32) by (unfold swrap; change (2 ^ (32 - 1)) with (2 ^ 31); rewrite <- (Z.mod_add _ (-1)) by lia; rewrite Z.mod_small by lia; lia).
  unfold hllPatLen. rewrite E. unfold MurmurHash64A. rewrite murmur_words_past; [done|]. change 7 with (Z.ones 3). rewrite Z.land_ones by lia. pose proof (Z.mod_pos_bound (Z.of_nat (length ele) - 2 ^ 32) (2 ^ 3) ltac:(lia)). lia.
Qed.

(** The register and the pattern of an element of fewer than 2^31 bytes. *)
Definition pattern_of (ele : bytes) : Z * Z := default (0, 1) (hllPatLen ele).

Lemma hllPatLen_some ele : Z.of_nat (length ele) < 2 ^ 31 -> hllPatLen ele = Some (pattern_of ele).
Proof. intros Hl. unfold pattern_of, hllPatLen. destruct (MurmurHash64A_total ele 0xadc83b19 Hl) as [h ->]. done. Qed.

Lemma pattern_of_ok ele : let '(i, c) := pattern_of ele in 0 <= i < HLL_REGISTERS /\ 1 <= c <= HLL_Q + 1.
Proof.
  unfold pattern_of, hllPatLen. destruct (MurmurHash64A _ _ _) as [hash|]; cbn [mbind option_bind default from_option id]; [|rewrite registers_eq; unfold HLL_Q, HLL_P; lia]. split.
  - change HLL_P_MASK with (Z.ones 14). rewrite Z.land_ones by lia. rewrite registers_eq. change 16384 with (2 ^ 14). apply Z.mod_pos_bound. lia.
  - destruct (ctz_bound 64 (Z.lor (Z.shiftr hash HLL_P) (Z.shiftl 1 HLL_Q)) HLL_Q) as [H1 H2]; [|unfold HLL_Q, HLL_P; lia|unfold HLL_Q in *; lia]. rewrite Z.lor_spec. change (Z.testbit (Z.shiftl 1 HLL_Q) HLL_Q) with true. apply orb_true_r.
Qed.

(** * Lists split at an index *)

Lemma mem_set_app a x b y : mem_set (a ++ x :: b) (Z.of_nat (length a)) y = Some (a ++ y :: b).
Proof. rewrite mem_set_ok by (rewrite length_app; cbn [length]; lia). rewrite Nat2Z.id, insert_app_r_alt, Nat.sub_diag by lia. done. Qed.

(** [if (v > max\[i\]) max\[i\] = v] *)
Lemma max_step a x b v : (old ← mem_byte (a ++ x :: b) (Z.of_nat (length a)); if v >? old then mem_set (a ++ x :: b) (Z.of_nat (length a)) v else Some (a ++ x :: b)) = Some (a ++ Z.max x v :: b).
Proof. rewrite mem_byte_app. cbn [mbind option_bind]. rewrite mem_set_app. destruct (Z.gtb_spec v x); [by rewrite Z.max_r by lia|by rewrite Z.max_l by lia]. Qed.

Lemma app_cons_middle {X} (a : list X) x b : a ++ x :: b = (a ++ [x]) ++ b.
Proof. by rewrite <- app_assoc. Qed.

(** * Merging *)

Lemma max_run_ok n : forall a b c v, length b = n -> max_run n (Z.of_nat (length a)) v (a ++ b ++ c) = Some (a ++ zip_with Z.max b (replicate n v) ++ c).
Proof.
  induction n as [|n IH]; intros a b c v Hl; destruct b as [|x b]; try done. cbn [max_run app]. pose proof (max_step a x (b ++ c) v) as Hs. destruct (mem_byte _ _) as [old|]; [|done]. cbn [mbind option_bind] in *. rewrite Hs. cbn [mbind option_bind replicate zip_with app].
  rewrite (app_cons_middle a _ (b ++ c)), (app_cons_middle a _ (_ ++ c)). specialize (IH (a ++ [Z.max x v]) b c v). rewrite length_app, Nat2Z.inj_add in IH. apply IH. by injection Hl.
Qed.

Lemma merge_dense_ok s hdr regs : dense_is s hdr regs -> forall n ra rb ma mb, regs = ra ++ rb -> length rb = n -> length ma = length ra -> length mb = n ->
  merge_dense n (buf s) (Z.of_nat (length ma)) (ma ++ mb) = Some (ma ++ zip_with Z.max mb rb).
Proof.
  intros H n. induction n as [|n IH]; intros ra rb ma mb Hr Hrb Hma Hmb; destruct rb as [|r rb], mb as [|x mb]; try done. cbn [merge_dense]. rewrite (dense_get s hdr regs (length ma) r H) by (by rewrite Hr, Hma, lookup_app_r, Nat.sub_diag by lia). cbn [mbind option_bind].
  pose proof (max_step ma x mb r) as Hs. destruct (mem_byte _ _) as [old|]; [|done]. cbn [mbind option_bind] in *. rewrite Hs. cbn [mbind option_bind zip_with]. rewrite (app_cons_middle ma _ mb), (app_cons_middle ma _ (zip_with _ _ _)).
  specialize (IH (ra ++ [r]) rb (ma ++ [Z.max x r]) mb). rewrite length_app, Nat2Z.inj_add in IH. apply IH; [by rewrite <- app_assoc|by injection Hrb|rewrite !length_app; cbn [length]; lia|by injection Hmb].
Qed.

Lemma zip_max_zero b n : length b = n -> Forall (Z.le 0) b -> zip_with Z.max b (replicate n 0) = b.
Proof. intros <-. induction 1 as [|x b Hx _ IH]; [done|]. cbn [length replicate zip_with]. rewrite IH. by rewrite Z.max_l by lia. Qed.

Lemma walk_max ops : Forall op_ok ops -> forall a b, Z.of_nat (length b) = ops_len ops -> Forall (Z.le 0) b ->
  walk_ops (fun _ max => Some max) (fun i runlen regval max => max_run (Z.to_nat runlen) i regval max) (Z.of_nat (length a)) ops (a ++ b) = Some (a ++ zip_with Z.max b (ops_regs ops)).
Proof.
  induction 1 as [|o ops Ho Hops IH]; intros a b Hl Hb; cbn [walk_ops].
  - destruct b; [done|]. cbn in Hl. lia.
  - change (ops_len (o :: ops)) with (op_len o + ops_len ops) in Hl. pose proof (op_len_pos o Ho). pose proof (ops_len_nonneg ops Hops). rewrite <- (take_drop (Z.to_nat (op_len o)) b) in Hb |- *.
    assert (Hl1 : length (take (Z.to_nat (op_len o)) b) = Z.to_nat (op_len o)) by (rewrite length_take; lia). assert (Hl2 : Z.of_nat (length (drop (Z.to_nat (op_len o)) b)) = ops_len ops) by (rewrite length_drop; lia).
    set (b1 := take _ b) in *. set (b2 := drop _ b) in *. apply Forall_app in Hb as [Hb1 Hb2].
    assert (Hstep : match o with Val v n => max_run (Z.to_nat n) (Z.of_nat (length a)) v (a ++ b1 ++ b2) | _ => Some (a ++ b1 ++ b2) end = Some ((a ++ zip_with Z.max b1 (op_regs o)) ++ b2)).
    { rewrite <- app_assoc. destruct o as [n|n|v n]; unfold op_regs; cbn [op_len op_val] in *; [by rewrite zip_max_zero..|]. by apply max_run_ok. }
    replace (match o with Val v n => _ | _ => _ end) with (Some ((a ++ zip_with Z.max b1 (op_regs o)) ++ b2)) by (rewrite <- Hstep; by destruct o). cbn [mbind option_bind].
    assert (Hla : Z.of_nat (length a) + op_len o = Z.of_nat (length (a ++ zip_with Z.max b1 (op_regs o)))) by (rewrite length_app, length_zip_with, Hl1; unfold op_regs; rewrite length_replicate; lia).
    rewrite Hla, IH by done. rewrite ops_regs_cons, zip_with_app by (unfold op_regs; by rewrite length_replicate). by rewrite <- app_assoc.
Qed.

(** [hllMerge] takes the maximum of every register. *)
Lemma hllMerge_ok s hdr regs max : hll_is s hdr regs -> regs_ok max -> hllMerge max s = Some (zip_with Z.max max regs, true).
Proof.
  intros H [Hml Hmr]. unfold hllMerge. assert (Hmr' : Forall (Z.le 0) max) by (eapply Forall_impl; [done|]; intros r Hr; cbn in Hr; lia). destruct H as [H|ops H ->].
  - destruct (dn_body _ _ _ H) as (body & Hrep & _). rewrite (header_encoding s hdr _ _ (dn_header _ _ _ H) Hrep). cbn [mbind option_bind]. rewrite Z.eqb_refl. cbv iota.
    pose proof (dense_regs_range _ _ _ H) as [Hrl _]. pose proof (merge_dense_ok s hdr regs H _ [] regs [] max eq_refl Hrl eq_refl Hml) as Hm. cbn [app length] in Hm. change (Z.of_nat 0) with 0 in Hm. by rewrite Hm.
  - rewrite (header_encoding s hdr _ _ (sp_header _ _ _ H) (sp_rep _ _ _ H)). cbn [mbind option_bind]. change (HLL_SPARSE =? HLL_DENSE) with false. cbv iota.
    pose proof (walk_max ops (sp_ops _ _ _ H) [] max) as Hw. cbn [app] in Hw. specialize (Hw ltac:(rewrite (sp_len _ _ _ H), Hml, registers_eq; lia) Hmr'). rewrite (sparse_is_walk _ _ s hdr ops max _ H Hw). cbn [mbind option_bind]. by rewrite Z.eqb_refl.
Qed.

(** The registers are replaced in a dense object. *)
Lemma dense_compress_ok hdr n : forall s ra rb ma mb, dense_is s hdr (ra ++ rb) -> length rb = n -> length mb = n -> length ma = length ra -> Forall (fun r => 0 <= r < 64) mb ->
  exists m, dense_compress n (ma ++ mb) (Z.of_nat (length ma)) (buf s) = Some m /\ dense_is (with_buf s m) hdr (ra ++ mb).
Proof.
  induction n as [|n IH]; intros s ra rb ma mb H Hrb Hmb Hma Hr; destruct rb as [|r rb], mb as [|x mb]; try done; cbn [dense_compress].
  - exists (buf s). split; [done|]. by destruct s.
  - apply Forall_cons in Hr as [Hx Hr]. rewrite mem_byte_app. cbn [mbind option_bind]. destruct (dense_store s hdr _ (length ma) x H) as (m & -> & Hm); [rewrite <- (proj1 (dense_regs_range _ _ _ H)), length_app; cbn [length]; lia|done|]. cbn [mbind option_bind].
    rewrite Hma, insert_app_r_alt, Nat.sub_diag in Hm by lia. cbn [insert list_insert] in Hm. rewrite app_cons_middle in Hm. destruct (IH _ (ra ++ [x]) rb (ma ++ [x]) mb Hm) as (m2 & Hc & Hm2); [by injection Hrb|by injection Hmb|rewrite !length_app; cbn [length]; lia|done|].
    rewrite length_app, Nat2Z.inj_add, <- app_cons_middle in Hc. rewrite <- app_cons_middle in Hm2. exists m2. by split.
Qed.

(** * Objects of either representation *)

(** The encoding, and the header in the memory. *)
Lemma hll_rep s hdr regs : hll_is s hdr regs -> exists enc v, rep s (hdr ++ v) /\ header hdr enc /\ (enc = HLL_DENSE \/ enc = HLL_SPARSE).
Proof. intros [[Hh (body & Hr & _)]|ops [Hh Hr _ _] _]; [exists HLL_DENSE, body|exists HLL_SPARSE, (ops_enc ops)]; split_and!; try done; [by left|by right]. Qed.

(** Another header, with the same encoding. *)
Lemma hll_header s hdr regs : hll_is s hdr regs -> forall s' hdr', (forall enc, header hdr enc -> header hdr' enc) -> (forall v, rep s (hdr ++ v) -> rep s' (hdr' ++ v)) -> hll_is s' hdr' regs.
Proof.
  intros [[Hh (body & Hr & Hl & Hb & Hd1 & Hd2)]|ops [Hh Hr Ho Hl] ->] s' hdr' Hhdr Hrep.
  - apply hll_dense. split; [by apply Hhdr|]. exists body. split; [by apply Hrep|]. pose proof (hd_length _ _ Hh) as Hlen. pose proof (Hhdr _ Hh) as Hh'. pose proof (hd_length _ _ Hh') as Hlen'. assert (Hsz : length ((hdr' ++ body) ++ [0]) = length ((hdr ++ body) ++ [0])) by (rewrite !length_app; lia).
    split; [rewrite length_app in *; lia|]. split; [done|]. split; [done|]. intros i r Hi. rewrite <- (Hd2 i r Hi). apply dense_get_bits; [by eapply header_bytes|by eapply header_bytes|done|lia| |done|].
    { rewrite length_app. cbn [length]. pose proof (dense_index i ltac:(rewrite <- Hd1; by eapply lookup_lt_Some)). lia. }
    intros n Hn. unfold mbit. assert (Hge : HLL_HDR_SIZE <= (8 * HLL_HDR_SIZE + Z.of_nat i * 6 + n) / 8) by (apply Z.div_le_lower_bound; lia). rewrite <- !app_assoc, !(lookup_app_r _ (body ++ [0])) by lia. by rewrite Hlen, Hlen'.
  - apply (hll_sparse _ _ _ ops); [|done]. split; try done; [by apply Hhdr|by apply Hrep].
Qed.

Lemma hll_invalidate s hdr regs : hll_is s hdr regs -> exists s', HLL_INVALIDATE_CACHE s = Some s' /\ hll_is s' (invalidated hdr) regs.
Proof.
  intros H. destruct (hll_rep _ _ _ H) as (enc & v & Hr & Hh & _). destruct (HLL_INVALIDATE_CACHE_ok s hdr enc v Hh Hr) as (s' & Hi & Hr'). exists s'. split; [done|]. apply (hll_header s hdr regs H); [intros ?; by apply header_invalidated|].
  intros v' Hv'. destruct (HLL_INVALIDATE_CACHE_ok s hdr enc v' Hh Hv') as (s2 & Hi2 & Hr2). congruence.
Qed.

Section Raise.
Context `{A : Allocator} (usable_bound : forall n, Z.of_nat n <= 2 ^ 62 -> Z.of_nat (usable n) < 2 ^ 63).
Context (nallocx : option (Z -> Z)) (nallocx_ge : forall f n, nallocx = Some f -> n <= f n).
Context (max_bytes : Z) (max_bytes_ge : 32 <= max_bytes).

Definition set_register (s : sds) (i count : Z) : option (sds * Z) :=
  enc ← hll_encoding s;
  if enc =? HLL_DENSE then '(m, changed) ← hllDenseSet (buf s) HLL_HDR_SIZE i count; Some (with_buf s m, b2z changed)
  else if enc =? HLL_SPARSE then hllSparseSet nallocx max_bytes s i count
  else Some (s, -1).

Lemma set_register_ok s hdr regs i r count : hll_is s hdr regs -> regs !! i = Some r -> 1 <= count < 64 ->
  exists s' hdr', set_register s (Z.of_nat i) count = Some (s', b2z (count >? r)) /\ hll_is s' hdr' (<[i := Z.max r count]> regs) /\ (count <= r -> hdr' = hdr).
Proof.
  intros H Hi Hc. unfold set_register. destruct H as [H|ops H ->].
  - destruct (dn_body _ _ _ H) as (body & Hrep & _). rewrite (header_encoding s hdr _ _ (dn_header _ _ _ H) Hrep). cbn [mbind option_bind]. rewrite Z.eqb_refl. cbv iota.
    destruct (hllDenseSet_ok s hdr regs i r count H Hi ltac:(lia)) as (m & -> & Hm). cbn [mbind option_bind]. eexists _, hdr. split; [done|]. split; [by apply hll_dense|done].
  - rewrite (header_encoding s hdr _ _ (sp_header _ _ _ H) (sp_rep _ _ _ H)). cbn [mbind option_bind]. change (HLL_SPARSE =? HLL_DENSE) with false. rewrite Z.eqb_refl. cbv iota. by apply hllSparseSet_ok.
Qed.

Lemma hllAdd_ok s hdr regs ele i c r : hll_is s hdr regs -> hllPatLen ele = Some (Z.of_nat i, c) -> 1 <= c <= HLL_Q + 1 -> regs !! i = Some r ->
  exists s' hdr', hllAdd nallocx max_bytes s ele = Some (s', b2z (c >? r)) /\ hll_is s' hdr' (<[i := Z.max r c]> regs) /\ (c <= r -> hdr' = hdr).
Proof.
  intros H He Hc Hi. unfold HLL_Q, HLL_P in Hc. unfold hllAdd. rewrite He. cbn [mbind option_bind]. apply (set_register_ok s hdr regs i r c H Hi). lia.
Qed.

(** The registers that PFMERGE writes one by one. *)
Lemma merge_write_ok n : forall s hdr ra rb ma mb, hll_is s hdr (ra ++ rb) -> length rb = n -> length mb = n -> length ma = length ra -> Forall (fun r => 0 <= r < 64) mb ->
  exists s' hdr', merge_write nallocx max_bytes n s (ma ++ mb) (Z.of_nat (length ma)) = Some s' /\ hll_is s' hdr' (ra ++ zip_with Z.max rb mb).
Proof.
  induction n as [|n IH]; intros s hdr ra rb ma mb H Hrb Hmb Hma Hr; destruct rb as [|r rb], mb as [|x mb]; try done; cbn [merge_write]; [by exists s, hdr|].
  apply Forall_cons in Hr as [Hx Hr]. rewrite mem_byte_app. cbn [mbind option_bind]. assert (Hreg : (ra ++ r :: rb) !! length ma = Some r) by (by rewrite Hma, lookup_app_r, Nat.sub_diag by lia).
  assert (Hr0 : 0 <= r) by (apply hll_regs_ok in H as [_ Hok]; apply (Forall_lookup_1 _ _ _ _ Hok Hreg)).
  assert (Hstep : exists s1 hdr1, (if x =? 0 then Some s else enc ← hll_encoding s; if enc =? HLL_DENSE then '(m, _) ← hllDenseSet (buf s) HLL_HDR_SIZE (Z.of_nat (length ma)) x; Some (with_buf s m)
      else if enc =? HLL_SPARSE then '(o, _) ← hllSparseSet nallocx max_bytes s (Z.of_nat (length ma)) x; Some o else Some s) = Some s1 /\ hll_is s1 hdr1 (ra ++ Z.max r x :: rb)).
  { destruct (Z.eqb_spec x 0) as [->|Hne]; [exists s, hdr; by rewrite Z.max_l by lia|]. destruct (set_register_ok s hdr _ (length ma) r x H Hreg ltac:(lia)) as (s1 & hdr1 & Hset & Hs1 & _).
    rewrite Hma, insert_app_r_alt, Nat.sub_diag in Hs1 by lia. cbn [insert list_insert] in Hs1. exists s1, hdr1. split; [|done]. unfold set_register in Hset. destruct (hll_encoding s) as [enc|]; [|done]. cbn [mbind option_bind] in *.
    destruct (enc =? HLL_DENSE); [destruct (hllDenseSet _ _ _ _) as [[m ?]|]; [|done]; cbn [mbind option_bind] in *; congruence|]. destruct (enc =? HLL_SPARSE); [rewrite Hset; done|congruence]. }
  destruct Hstep as (s1 & hdr1 & -> & Hs1). cbn [mbind option_bind zip_with]. rewrite app_cons_middle in Hs1. destruct (IH s1 hdr1 (ra ++ [Z.max r x]) rb (ma ++ [x]) mb Hs1) as (s' & hdr' & Hw & Hs'); [by injection Hrb|by injection Hmb|rewrite !length_app; cbn [length]; lia|done|].
  rewrite length_app, Nat2Z.inj_add, <- app_cons_middle in Hw. rewrite <- app_cons_middle in Hs'. by exists s', hdr'.
Qed.

(** * New objects *)

Lemma createHLLObject_ok : exists s hdr, createHLLObject = Some s /\ hll_is s hdr (replicate (Z.to_nat HLL_REGISTERS) 0).
Proof.
  unfold createHLLObject. set (n := HLL_HDR_SIZE + _). assert (Hn : n = 18) by done. rewrite Hn. destruct (sdsnewlen_ok usable_bound Null 18) as (s0 & -> & H0); [done|lia|cbn [init_bytes]; rewrite length_replicate; lia|]. cbn [mbind option_bind init_bytes] in *.
  cbn [xzero_loop]. change (HLL_REGISTERS =? 0) with false. cbv iota. change (if HLL_SPARSE_XZERO_MAX_LEN >? HLL_REGISTERS then HLL_REGISTERS else HLL_SPARSE_XZERO_MAX_LEN) with 16384.
  destruct (replace_bytes s0 (replicate 16 0) [0; 0] [] (HLL_SPARSE_XZERO_SET 16384) H0 eq_refl) as (s1 & Hp1 & H1 & _). change (Z.of_nat (length (replicate 16 0))) with HLL_HDR_SIZE in Hp1. rewrite Hp1. cbn [mbind option_bind]. change (HLL_REGISTERS - 16384 =? 0) with true. cbn [mbind option_bind]. change (HLL_HDR_SIZE + 2 =? 18) with true. cbn [guard mbind option_bind].
  destruct (replace_bytes s1 [] (replicate 4 0) (replicate 12 0 ++ HLL_SPARSE_XZERO_SET 16384) magic H1 eq_refl) as (s2 & Hp2 & H2 & _). change (Z.of_nat (length [])) with 0 in Hp2. rewrite Hp2. cbn [mbind option_bind].
  destruct (set_header s2 (magic ++ replicate 12 0) (HLL_SPARSE_XZERO_SET 16384) 4 0 HLL_SPARSE) as (s & Hs & H3 & _); [exact H2|done|]. exists s, (<[4%nat := HLL_SPARSE]> (magic ++ replicate 12 0)). split; [exact Hs|].
  apply (hll_sparse _ _ _ [XZero 16384]); [|unfold ops_regs, op_regs; cbn [map concat op_len op_val]; by rewrite app_nil_r, registers_eq]. split; [split; [done|done|done|]|exact H3|constructor; [cbn; lia|done]|done].
  apply (bool_decide_unpack _). by vm_compute.
Qed.

End Raise.

Lemma isHLLObject_ok s hdr regs : hll_is s hdr regs -> isHLLObject s = Some true.
Proof.
  intros H. destruct (hll_rep _ _ _ H) as (enc & v & Hr & Hh & Henc). pose proof (hd_length _ _ Hh) as Hl. unfold isHLLObject, sdslen. rewrite (rp_len _ _ Hr). destruct (Z.ltb_spec (Z.of_nat (length (hdr ++ v))) HLL_HDR_SIZE) as [Hlt|_]; [rewrite length_app in Hlt; lia|].
  assert (Hload : load (buf s) 0 4 = Some magic).
  { unfold HLL_HDR_SIZE in Hl. rewrite (rep_load s _ 4 Hr) by (rewrite length_app; lia). rewrite take_app_le by lia. by rewrite (hd_magic _ _ Hh). }
  rewrite Hload. cbn [mbind option_bind]. rewrite (header_encoding s hdr enc v Hh Hr). cbn [mbind option_bind]. rewrite bool_decide_true by done. cbn [andb]. destruct H as [H|ops H ->].
  - destruct (dn_body _ _ _ H) as (body & Hrep & Hsz & _). pose proof (rp_len _ _ Hr) as L1. pose proof (rp_len _ _ Hrep) as L2. rewrite <- L1, L2, Hsz, Z.eqb_refl. cbn [negb]. rewrite andb_false_r. destruct Henc as [-> | ->]; done.
  - assert (enc = HLL_SPARSE) as ->; [|done]. pose proof (hd_encoding _ _ Hh) as E1. pose proof (hd_encoding _ _ (sp_header _ _ _ H)) as E2. congruence.
Qed.

End HllMerge.
