(* ===== verification/HllHisto.v ===== *)
(** The histograms of the registers (hyperloglog.c): the three ways to count the registers, in dense, sparse and raw form, agree. *)

From S2P Require Import Prelude Bits Sds SdsSpec Hll HllOps HllSpec HllSparse HllMerge.

Module HllHisto.
Import Sds SdsSpec Hll HllOps HllSpec HllSparse HllMerge.

#[local] Opaque HLL_REGISTERS HLL_DENSE_SIZE.

(** * Histograms *)

Definition occurs (k : Z) (regs : list Z) : Z := Z.of_nat (length (filter (fun r => r = k) regs)).

(** The number of registers with each value. *)
Definition histogram (regs : list Z) : list Z := map (fun k => occurs k regs) (seqZ 0 64).

Definition is_histo (h regs : list Z) : Prop := length h = 64%nat /\ forall k, (k < 64)%nat -> h !! k = Some (occurs (Z.of_nat k) regs).

Lemma is_histo_eq h regs : is_histo h regs -> h = histogram regs.
Proof.
  intros [Hl Hh]. apply list_eq. intros k. unfold histogram. rewrite list_lookup_fmap. destruct (decide (k < 64)%nat) as [Hk|Hk]; [|rewrite !lookup_ge_None_2; [done|rewrite length_seqZ; lia|lia]].
  rewrite Hh by done. rewrite lookup_seqZ_lt by lia. by rewrite Z.add_0_l.
Qed.

Lemma occurs_app k a b : occurs k (a ++ b) = occurs k a + occurs k b.
Proof. unfold occurs. rewrite filter_app, length_app. lia. Qed.

Lemma occurs_replicate k n r : occurs k (replicate n r) = if r =? k then Z.of_nat n else 0.
Proof.
  unfold occurs. induction n as [|n IH]; cbn [replicate]; [by destruct (_ =? _)|]. rewrite filter_cons. destruct (Z.eqb_spec r k) as [E|Hne]; [rewrite decide_True by done|by rewrite decide_False by done]. cbn [length]. lia.
Qed.

Lemma empty_histo_ok : is_histo empty_histo [].
Proof. split; [done|]. intros k Hk. unfold empty_histo. by rewrite lookup_replicate_2. Qed.

Lemma histo_add_ok h regs r n : is_histo h regs -> 0 <= r < 64 -> exists h', histo_add h r (Z.of_nat n) = Some h' /\ is_histo h' (regs ++ replicate n r).
Proof.
  intros [Hl Hh] Hr. unfold histo_add. rewrite Hh by lia. cbn [mbind option_bind]. eexists. split; [done|]. split; [by rewrite length_insert|]. intros k Hk. rewrite occurs_app, occurs_replicate, Z2Nat.id by lia. destruct (Z.eqb_spec r (Z.of_nat k)) as [->|Hne].
  - by rewrite Nat2Z.id, list_lookup_insert_eq by lia.
  - rewrite list_lookup_insert_ne by lia. rewrite Hh by done. by rewrite Z.add_0_r.
Qed.

Lemma histo_all_ok rs : Forall (fun r => 0 <= r < 64) rs -> forall h regs, is_histo h regs -> exists h', histo_all rs h = Some h' /\ is_histo h' (regs ++ rs).
Proof.
  induction 1 as [|r rs Hr _ IH]; intros h regs H; cbn [histo_all]; [exists h; by rewrite app_nil_r|]. destruct (histo_add_ok h regs r 1 H Hr) as (h1 & Hadd & H1). change (Z.of_nat 1) with 1 in Hadd. rewrite Hadd. cbn [mbind option_bind].
  destruct (IH h1 _ H1) as (h2 & -> & H2). exists h2. split; [done|]. by rewrite <- app_assoc in H2.
Qed.

(** * Sparse *)

Lemma walk_histo ops : Forall op_ok ops -> forall idx h regs, is_histo h regs ->
  exists h', walk_ops (fun runlen h => histo_add h 0 runlen) (fun _ runlen regval h => histo_add h regval runlen) idx ops h = Some h' /\ is_histo h' (regs ++ ops_regs ops).
Proof.
  induction 1 as [|o ops Ho _ IH]; intros idx h regs H; cbn [walk_ops]; [exists h; by rewrite app_nil_r|]. pose proof (op_len_pos o Ho).
  destruct (histo_add_ok h regs (op_val o) (Z.to_nat (op_len o)) H) as (h1 & Hadd & H1); [destruct o; cbn in *; lia|]. rewrite Z2Nat.id in Hadd by lia.
  replace (match o with Val v n => _ | _ => _ end) with (Some h1) by (rewrite <- Hadd; by destruct o). cbn [mbind option_bind]. destruct (IH (idx + op_len o) h1 _ H1) as (h2 & -> & H2). exists h2. split; [done|]. by rewrite <- app_assoc in H2.
Qed.

Lemma hllSparseRegHisto_ok s hdr ops : sparse_is s hdr ops -> hllSparseRegHisto (buf s) HLL_HDR_SIZE (sdslen s - HLL_HDR_SIZE) empty_histo = Some (histogram (ops_regs ops), false).
Proof.
  intros H. destruct (walk_histo ops (sp_ops _ _ _ H) 0 _ _ empty_histo_ok) as (h & Hw & Hh). unfold hllSparseRegHisto. pose proof (sparse_size s hdr ops H) as Hsz. assert (Hlen : 0 <= sdslen s - HLL_HDR_SIZE <= 2 ^ 20) by (unfold sdslen; rewrite (rp_len _ _ (sp_rep _ _ _ H)); pose proof (hd_length _ _ (sp_header _ _ _ H)); rewrite length_app in *; unfold HLL_HDR_SIZE in *; lia). rewrite swrap_small by (unfold srange; lia). replace (HLL_HDR_SIZE + (sdslen s - HLL_HDR_SIZE)) with (sdslen s) by lia. rewrite (sparse_is_walk _ _ s hdr ops _ h H Hw). cbn [mbind option_bind]. rewrite Z.eqb_refl. by rewrite (is_histo_eq h _ Hh).
Qed.

(** * Dense *)

Lemma div6 q j : (4 * q + j) * 6 / 8 = 3 * q + j * 6 / 8.
Proof. replace ((4 * q + j) * 6) with (3 * q * 8 + j * 6) by lia. by rewrite Z.div_add_l by lia. Qed.

Lemma mod6 q j : Z.land ((4 * q + j) * 6) 7 = Z.land (j * 6) 7.
Proof. change 7 with (Z.ones 3). rewrite !Z.land_ones by lia. replace ((4 * q + j) * 6) with (j * 6 + 3 * q * 2 ^ 3) by (change (2 ^ 3) with 8; lia). by rewrite Z.mod_add by lia. Qed.

Lemma low_bits x y k : 6 <= k -> Z.land (Z.lor x (Z.shiftl y k)) 63 = Z.land x 63.
Proof.
  intros Hk. apply Z.bits_inj'. intros n Hn. rewrite !Z.land_spec, Z.lor_spec. change 63 with HLL_REGISTER_MAX. rewrite testbit_63. destruct (Z.ltb_spec n 6); [|by rewrite !andb_false_r]. rewrite Z.shiftl_spec by lia. rewrite (Z.testbit_neg_r y) by lia. by rewrite orb_false_r.
Qed.

(** Four registers in three bytes, read the way the macro reads them. *)
Lemma four_ok m base q b0 b1 b2 xs : 0 <= q -> mem_byte m (base + 3 * q) = Some b0 -> mem_byte m (base + 3 * q + 1) = Some b1 -> mem_byte m (base + 3 * q + 2) = Some b2 ->
  mapM (fun j => HLL_DENSE_GET_REGISTER m base (4 * q + j)) [0; 1; 2; 3] = Some xs -> xs = four_registers b0 b1 b2.
Proof.
  intros Hq H0 H1 H2. cbn [mapM]. unfold HLL_DENSE_GET_REGISTER, HLL_BITS. rewrite !div6, !mod6. change (0 * 6 / 8) with 0. change (1 * 6 / 8) with 0. change (2 * 6 / 8) with 1. change (3 * 6 / 8) with 2.
  change (Z.land (0 * 6) 7) with 0. change (Z.land (1 * 6) 7) with 6. change (Z.land (2 * 6) 7) with 4. change (Z.land (3 * 6) 7) with 2.
  replace (base + (3 * q + 0)) with (base + 3 * q) by lia. replace (base + (3 * q + 1)) with (base + 3 * q + 1) by lia. replace (base + (3 * q + 2)) with (base + 3 * q + 2) by lia.
  replace (base + 3 * q + 1 + 1) with (base + 3 * q + 2) by lia. rewrite H0, H1, H2. cbn [mbind option_bind]. destruct (mem_byte m (base + 3 * q + 2 + 1)) as [b3|]; [|done]. cbn [mbind option_bind mret option_ret]. intros [= <-].
  change HLL_REGISTER_MAX with 63. unfold four_registers. rewrite !(low_bits _ _ (8 - 0)), !(low_bits _ _ (8 - 2)) by lia. rewrite Z.shiftr_0_r. done.
Qed.

Lemma mapM_const {X Y} (f : X -> option Y) (xs : list X) ys : Forall2 (fun x y => f x = Some y) xs ys -> mapM f xs = Some ys.
Proof. intros H. by apply mapM_Some_2. Qed.

Lemma load_bytes m off n bs j : load m off n = Some bs -> (j < n)%nat -> exists b, bs !! j = Some b /\ mem_byte m (Z.of_nat (off + j)) = Some b.
Proof.
  unfold load. case_decide as Hd; [|done]. intros [= <-] Hj. destruct (lookup_lt_is_Some_2 m (off + j)) as [b Hb]; [lia|]. exists b. split; [by rewrite lookup_take_lt, lookup_drop by lia|]. apply mem_byte_lookup; [lia|]. by rewrite Nat2Z.id.
Qed.

Lemma sixteen_ok m q xs : Forall2 (fun j x => HLL_DENSE_GET_REGISTER m HLL_HDR_SIZE (16 * q + j) = Some x) (seqZ 0 16) xs -> 0 <= q -> HLL_HDR_SIZE + 12 * q + 12 <= Z.of_nat (length m) -> sixteen_registers m (HLL_HDR_SIZE + 12 * q) = Some xs.
Proof.
  intros HF Hq Hl. unfold sixteen_registers. destruct (load m (Z.to_nat (HLL_HDR_SIZE + 12 * q)) 12) as [bs|] eqn:E; [|unfold load in E; case_decide; [done|unfold HLL_HDR_SIZE in *; lia]].
  assert (Hb : forall j, (j < 12)%nat -> exists b, bs !! j = Some b /\ mem_byte m (HLL_HDR_SIZE + 12 * q + Z.of_nat j) = Some b).
  { intros j Hj. destruct (load_bytes _ _ _ _ j E Hj) as (b & H1 & H2). exists b. split; [done|]. rewrite <- H2. f_equal. unfold HLL_HDR_SIZE. lia. }
  pose proof (load_length _ _ _ _ E) as Hbl. destruct bs as [|b0 [|b1 [|b2 [|b3 [|b4 [|b5 [|b6 [|b7 [|b8 [|b9 [|b10 [|b11 [|? ?]]]]]]]]]]]]]; try done. clear E Hbl.
  assert (H12 : forall j b, [b0; b1; b2; b3; b4; b5; b6; b7; b8; b9; b10; b11] !! j = Some b -> mem_byte m (HLL_HDR_SIZE + 12 * q + Z.of_nat j) = Some b).
  { intros j b Hj. destruct (Hb j) as (b' & E1 & E2); [apply lookup_lt_Some in Hj; cbn in Hj; lia|]. congruence. }
  change (seqZ 0 16) with [0; 1; 2; 3; 4; 5; 6; 7; 8; 9; 10; 11; 12; 13; 14; 15] in HF.
  pose proof (Forall2_length _ _ _ HF) as Hxl. destruct xs as [|z0 [|z1 [|z2 [|z3 [|z4 [|z5 [|z6 [|z7 [|z8 [|z9 [|z10 [|z11 [|z12 [|z13 [|z14 [|z15 [|? ?]]]]]]]]]]]]]]]]]; try done. clear Hxl.
  repeat match goal with H : Forall2 _ (_ :: _) (_ :: _) |- _ => apply Forall2_cons_1 in H as [? H] end.
  assert (Hfour : forall t (c0 c1 c2 y0 y1 y2 y3 : Z), 0 <= t < 4 -> (forall j, 0 <= j < 3 -> mem_byte m (HLL_HDR_SIZE + 12 * q + 3 * t + j) = Some (match j with 0 => c0 | 1 => c1 | _ => c2 end)) ->
    (forall j, 0 <= j < 4 -> HLL_DENSE_GET_REGISTER m HLL_HDR_SIZE (16 * q + (4 * t + j)) = Some (match j with 0 => y0 | 1 => y1 | 2 => y2 | _ => y3 end)) -> four_registers c0 c1 c2 = [y0; y1; y2; y3]).
  { intros t c0 c1 c2 y0 y1 y2 y3 Ht Hc Hx. symmetry. apply (four_ok m HLL_HDR_SIZE (4 * q + t)); [lia| | | |].
    - rewrite <- (Hc 0) by lia. f_equal. lia.
    - rewrite <- (Hc 1) by lia. f_equal. lia.
    - rewrite <- (Hc 2) by lia. f_equal. lia.
    - apply mapM_const. repeat constructor; [rewrite <- (Hx 0) by lia|rewrite <- (Hx 1) by lia|rewrite <- (Hx 2) by lia|rewrite <- (Hx 3) by lia]; f_equal; lia. }
  assert (Hcase3 : forall (P : Z -> Prop), P 0 -> P 1 -> P 2 -> forall j, 0 <= j < 3 -> P j) by (intros P ? ? ? j Hj; assert (Hd : j = 0 \/ j = 1 \/ j = 2) by lia; destruct Hd as [-> | [-> | ->]]; done).
  assert (Hcase4 : forall (P : Z -> Prop), P 0 -> P 1 -> P 2 -> P 3 -> forall j, 0 <= j < 4 -> P j) by (intros P ? ? ? ? j Hj; assert (Hd : j = 0 \/ j = 1 \/ j = 2 \/ j = 3) by lia; destruct Hd as [-> | [-> | [-> | ->]]]; done).
  assert (Hm : forall t j b, 0 <= t -> 0 <= j -> [b0; b1; b2; b3; b4; b5; b6; b7; b8; b9; b10; b11] !! Z.to_nat (3 * t + j) = Some b -> mem_byte m (HLL_HDR_SIZE + 12 * q + 3 * t + j) = Some b).
  { intros t j b Ht Hj Hbj. rewrite <- (H12 _ _ Hbj). f_equal. lia. }
  f_equal. rewrite (Hfour 0 b0 b1 b2 z0 z1 z2 z3), (Hfour 1 b3 b4 b5 z4 z5 z6 z7), (Hfour 2 b6 b7 b8 z8 z9 z10 z11), (Hfour 3 b9 b10 b11 z12 z13 z14 z15); try lia; try done; (refine (Hcase3 _ _ _ _); cbn beta iota; apply Hm; done) || (refine (Hcase4 _ _ _ _ _); cbn beta iota; done).
Qed.

Lemma dense_histo_ok m regs : (forall i x, regs !! i = Some x -> HLL_DENSE_GET_REGISTER m HLL_HDR_SIZE (Z.of_nat i) = Some x) -> Forall (fun r => 0 <= r < 64) regs ->
  forall n pre rest h, regs = pre ++ rest -> length rest = (16 * n)%nat -> forall j, length pre = (16 * j)%nat -> HLL_HDR_SIZE + 12 * Z.of_nat (j + n) <= Z.of_nat (length m) -> is_histo h pre ->
  exists h', dense_histo n m (HLL_HDR_SIZE + 12 * Z.of_nat j) h = Some h' /\ is_histo h' regs.
Proof.
  intros Hget Hrange n. induction n as [|n IH]; intros pre rest h Hr Hl j Hj Hm Hh; cbn [dense_histo].
  - exists h. split; [done|]. destruct rest; [|done]. by rewrite Hr, app_nil_r.
  - rewrite <- (take_drop 16 rest) in Hr. set (xs := take 16 rest) in *. assert (Hxs : length xs = 16%nat) by (unfold xs; rewrite length_take; lia).
    assert (HF : Forall2 (fun k x => HLL_DENSE_GET_REGISTER m HLL_HDR_SIZE (16 * Z.of_nat j + k) = Some x) (seqZ 0 16) xs).
    { apply Forall2_same_length_lookup. split; [by rewrite length_seqZ, Hxs|]. intros k a x Ha Hx. apply lookup_seqZ in Ha as [-> Hk]. replace (16 * Z.of_nat j + (0 + Z.of_nat k)) with (Z.of_nat (length pre + k)) by lia. apply Hget.
      rewrite Hr, lookup_app_r by lia. replace (length pre + k - length pre)%nat with k by lia. by rewrite lookup_app_l by lia. }
    rewrite (sixteen_ok m (Z.of_nat j) xs HF) by lia. cbn [mbind option_bind]. assert (Hrx : Forall (fun r => 0 <= r < 64) xs) by (rewrite Hr in Hrange; apply Forall_app in Hrange as [_ Hrange]; by apply Forall_app in Hrange as [? _]).
    destruct (histo_all_ok xs Hrx h pre Hh) as (h1 & -> & H1). cbn [mbind option_bind]. rewrite app_assoc in Hr. replace (HLL_HDR_SIZE + 12 * Z.of_nat j + 12) with (HLL_HDR_SIZE + 12 * Z.of_nat (S j)) by lia.
    apply (IH _ _ _ Hr); [rewrite length_drop; lia|rewrite length_app; lia|lia|done].
Qed.

Lemma hllDenseRegHisto_ok s hdr regs : dense_is s hdr regs -> hllDenseRegHisto (buf s) HLL_HDR_SIZE empty_histo = Some (histogram regs).
Proof.
  intros H. destruct (dense_regs_range _ _ _ H) as [Hl Hr]. unfold hllDenseRegHisto. assert (Hn : Z.to_nat HLL_REGISTERS = (16 * 1024)%nat) by (rewrite registers_eq; lia). destruct (dn_body _ _ _ H) as (body & Hrep & Hsz & _). destruct (rp_buf _ _ Hrep) as [tail Hb].
  destruct (dense_histo_ok (buf s) regs (fun i x => dense_get s hdr regs i x H) Hr 1024 [] regs empty_histo eq_refl ltac:(lia) 0%nat eq_refl) as (h & Hd & Hh); [pose proof (sdsalloc_ge s _ Hrep) as Hal; rewrite Hsz, dense_size_eq in Hal; unfold HLL_HDR_SIZE; lia|apply empty_histo_ok|].
  rewrite Z.add_0_r in Hd. rewrite Hd. f_equal. by apply is_histo_eq.
Qed.

(** * Raw *)

Lemma raw_histo_ok n : forall raw pre h, length raw = (8 * n)%nat -> Forall (fun r => 0 <= r < 64) raw -> is_histo h pre -> exists h', raw_histo n raw h = Some h' /\ is_histo h' (pre ++ raw).
Proof.
  induction n as [|n IH]; intros raw pre h Hl Hr Hh; cbn [raw_histo].
  - exists h. destruct raw; [|done]. by rewrite app_nil_r.
  - rewrite load_Some by lia. cbn [mbind option_bind]. rewrite drop_0. rewrite <- (take_drop 8 raw) in Hr |- *. set (bs := take 8 raw) in *. assert (Hbl : length bs = 8%nat) by (unfold bs; rewrite length_take; lia). apply Forall_app in Hr as [Hb Hr].
    replace (take 8 (bs ++ drop 8 raw)) with bs by (by rewrite take_app_length'). replace (drop 8 (bs ++ drop 8 raw)) with (drop 8 raw) by (by rewrite drop_app_length').
    assert (Hstep : exists h1, (if le_val bs =? 0 then histo_add h 0 8 else histo_all bs h) = Some h1 /\ is_histo h1 (pre ++ bs)).
    { destruct (Z.eqb_spec (le_val bs) 0) as [E|_]; [|by apply histo_all_ok]. assert (Hz : bs = replicate 8 0).
      { rewrite <- (le_bytes_val bs) by (eapply Forall_impl; [done|]; intros r Hx; cbn in Hx; unfold urange; lia). by rewrite Hbl, E. }
      rewrite Hz. by apply (histo_add_ok h pre 0 8). }
    destruct Hstep as (h1 & -> & H1). cbn [mbind option_bind]. destruct (IH (drop 8 raw) _ h1 ltac:(rewrite length_drop; lia) Hr H1) as (h2 & -> & H2). exists h2. split; [done|]. by rewrite <- app_assoc in H2.
Qed.

Lemma hllRawRegHisto_ok raw : regs_ok raw -> hllRawRegHisto raw empty_histo = Some (histogram raw).
Proof.
  intros [Hl Hr]. unfold hllRawRegHisto. destruct (raw_histo_ok (Z.to_nat (HLL_REGISTERS / 8)) raw [] empty_histo) as (h & -> & Hh); [|done|apply empty_histo_ok|by rewrite (is_histo_eq h _ Hh)].
  rewrite Hl, registers_eq. change (16384 / 8) with 2048. lia.
Qed.

(** * Counting *)

Lemma hllCount_ok estimate s hdr regs : hll_is s hdr regs -> hllCount estimate s = Some (u64 (estimate (histogram regs)), false).
Proof.
  intros H. unfold hllCount. destruct H as [H|ops H ->].
  - destruct (dn_body _ _ _ H) as (body & Hrep & _). rewrite (header_encoding s hdr _ _ (dn_header _ _ _ H) Hrep). cbn [mbind option_bind]. rewrite Z.eqb_refl. cbv iota. rewrite (hllDenseRegHisto_ok s hdr regs H). done.
  - rewrite (header_encoding s hdr _ _ (sp_header _ _ _ H) (sp_rep _ _ _ H)). cbn [mbind option_bind]. change (HLL_SPARSE =? HLL_DENSE) with false. rewrite Z.eqb_refl. cbv iota. rewrite (hllSparseRegHisto_ok s hdr ops H). done.
Qed.

Lemma hllCountRaw_ok estimate raw : regs_ok raw -> hllCountRaw estimate raw = Some (u64 (estimate (histogram raw))).
Proof. intros H. unfold hllCountRaw. by rewrite hllRawRegHisto_ok. Qed.

End HllHisto.
