(* ===== verification/HllCmdSpec.v ===== *)
(** PFADD, PFCOUNT and PFMERGE (hyperloglog.c) refine a map from keys to sets of elements: an object is the sketch of the set of
    the elements that were added to it, and a count is the estimate of the sketch of a union. *)

From S2P Require Import Prelude Bits Sds SdsSpec Hll HllOps HllSpec HllSparse HllMerge HllHisto.

Module HllCmdSpec.
Import Sds SdsSpec Hll HllOps HllSpec HllSparse HllMerge HllHisto.

#[local] Opaque HLL_REGISTERS HLL_DENSE_SIZE.

(** * Sketches of sets *)

(** The longest pattern of the elements with register [i]. *)
Definition longest (i : Z) (es : list bytes) : Z := foldr (fun e r => let '(j, c) := pattern_of e in if j =? i then Z.max r c else r) 0 es.

Definition sketch (X : gset bytes) : list Z := map (fun i => longest i (elements X)) (seqZ 0 HLL_REGISTERS).

Lemma longest_le i es r : 0 <= r -> longest i es <= r <-> forall e, e ∈ es -> (pattern_of e).1 = i -> (pattern_of e).2 <= r.
Proof.
  intros Hr. induction es as [|e es IH]; cbn [longest foldr]; [split; [by intros _ e He%elem_of_nil|lia]|]. fold (longest i es). destruct (pattern_of e) as [j c] eqn:E.
  assert (Hcons : (forall e', e' ∈ e :: es -> (pattern_of e').1 = i -> (pattern_of e').2 <= r) <-> (j = i -> c <= r) /\ longest i es <= r).
  { rewrite IH. split.
    - intros H. split; [specialize (H e); rewrite E in H; intros Hj; apply H; [by left|done]|]. intros e' He'. apply H. by right.
    - intros [H1 H2] e' [->|He']%elem_of_cons; [by rewrite E|by apply H2]. }
  rewrite Hcons. destruct (Z.eqb_spec j i); [rewrite Z.max_lub_iff|]; tauto.
Qed.

Lemma longest_nonneg i es : 0 <= longest i es.
Proof. induction es as [|e es IH]; [done|]. cbn [longest foldr]. fold (longest i es). destruct (pattern_of e) as [j c]. destruct (j =? i); lia. Qed.

Lemma longest_bound i es : longest i es < 64.
Proof. assert (H : longest i es <= 51); [|lia]. apply longest_le; [lia|]. intros e _ _. pose proof (pattern_of_ok e) as Hp. destruct (pattern_of e). unfold HLL_Q, HLL_P in Hp. cbn. lia. Qed.

Lemma same_bound a b : 0 <= a -> 0 <= b -> (forall r, 0 <= r -> a <= r <-> b <= r) -> a = b.
Proof. intros Ha Hb H. pose proof (H a Ha). pose proof (H b Hb). lia. Qed.

Lemma sketch_length X : length (sketch X) = Z.to_nat HLL_REGISTERS.
Proof. unfold sketch. by rewrite length_map, length_seqZ. Qed.

Lemma sketch_lookup X i : (i < Z.to_nat HLL_REGISTERS)%nat -> sketch X !! i = Some (longest (Z.of_nat i) (elements X)).
Proof. intros Hi. unfold sketch. rewrite list_lookup_fmap, lookup_seqZ_lt by lia. cbn. by rewrite Z.add_0_l. Qed.

Lemma sketch_ok X : regs_ok (sketch X).
Proof. split; [apply sketch_length|]. apply Forall_map, Forall_forall. intros i _. split; [apply longest_nonneg|apply longest_bound]. Qed.

Lemma sketch_eq (l : list Z) X : length l = Z.to_nat HLL_REGISTERS -> (forall i r, l !! i = Some r -> r = longest (Z.of_nat i) (elements X)) -> l = sketch X.
Proof.
  intros Hl H. apply list_eq. intros i. destruct (l !! i) as [r|] eqn:E; [rewrite sketch_lookup by (rewrite <- Hl; by eapply lookup_lt_Some); f_equal; by apply H|]. symmetry. apply lookup_ge_None. apply lookup_ge_None in E. rewrite sketch_length. lia.
Qed.

Lemma sketch_empty : sketch ∅ = replicate (Z.to_nat HLL_REGISTERS) 0.
Proof. symmetry. apply sketch_eq; [by rewrite length_replicate|]. intros i r [-> _]%lookup_replicate. by rewrite elements_empty. Qed.

Lemma longest_union (i : Z) (X Y : gset bytes) : longest i (elements (X ∪ Y)) = Z.max (longest i (elements X)) (longest i (elements Y)).
Proof.
  pose proof (longest_nonneg i (elements X)). apply same_bound; [apply longest_nonneg|lia|]. intros r Hr. rewrite Z.max_lub_iff, !longest_le by done. split.
  - intros H'. split; intros e He%elem_of_elements; apply H', elem_of_elements, elem_of_union; [by left|by right].
  - intros [H1 H2] e He. apply elem_of_elements, elem_of_union in He as [He|He]; [apply H1|apply H2]; by apply elem_of_elements.
Qed.

(** The sketch of a union. *)
Lemma sketch_union X Y : zip_with Z.max (sketch X) (sketch Y) = sketch (X ∪ Y).
Proof.
  apply sketch_eq; [rewrite length_zip_with, !sketch_length; lia|]. intros i r H. apply lookup_zip_with_Some in H as (x & y & -> & Hx & Hy). pose proof (lookup_lt_Some _ _ _ Hx) as Hlt. rewrite sketch_length in Hlt. rewrite sketch_lookup in Hx, Hy by done. injection Hx as <-. injection Hy as <-. by rewrite longest_union.
Qed.

Lemma sketch_add X e i c r : pattern_of e = (Z.of_nat i, c) -> sketch X !! i = Some r -> <[i := Z.max r c]> (sketch X) = sketch ({[e]} ∪ X).
Proof.
  intros He Hr. pose proof (lookup_lt_Some _ _ _ Hr) as Hlt. rewrite sketch_length in Hlt. rewrite sketch_lookup in Hr by done. injection Hr as <-. apply sketch_eq; [by rewrite length_insert, sketch_length|]. intros j x Hx. rewrite longest_union, elements_singleton. cbn [longest foldr]. rewrite He.
  pose proof (pattern_of_ok e) as Hp. rewrite He in Hp. destruct (decide (i = j)) as [<-|Hne].
  - rewrite list_lookup_insert_eq in Hx by (by rewrite sketch_length). injection Hx as <-. rewrite Z.eqb_refl. lia.
  - rewrite list_lookup_insert_ne in Hx by done. pose proof (lookup_lt_Some _ _ _ Hx) as Hj. rewrite sketch_length in Hj. rewrite sketch_lookup in Hx by done. injection Hx as <-. destruct (Z.eqb_spec (Z.of_nat i) (Z.of_nat j)); [lia|]. pose proof (longest_nonneg (Z.of_nat j) (elements X)). lia.
Qed.

Lemma zero_sketch : zero_registers = sketch ∅.
Proof. by rewrite sketch_empty. Qed.

(** A longer pattern changes the sketch. *)
Lemma sketch_changed (X E : gset bytes) e i c r : pattern_of e = (Z.of_nat i, c) -> sketch X !! i = Some r -> r < c -> e ∈ E -> sketch (E ∪ X) <> sketch X.
Proof.
  intros He Hr Hc HeE Heq. pose proof (lookup_lt_Some _ _ _ Hr) as Hlt. rewrite sketch_length in Hlt. rewrite <- Heq, sketch_lookup in Hr by done. injection Hr as Hr. clear Heq.
  assert (Hle : longest (Z.of_nat i) (elements (E ∪ X)) <= r) by lia. rewrite longest_le in Hle by (rewrite <- Hr; apply longest_nonneg). specialize (Hle e). rewrite He in Hle. cbn in Hle. specialize (Hle ltac:(apply elem_of_elements, elem_of_union; by left) eq_refl). lia.
Qed.

(** * Keys and their sets *)

(** A string is the sketch of a set, or no HyperLogLog. *)
Inductive pf_val := Sketch (X : gset bytes) | Other.

Inductive pf_cmd := PfAdd (key : bytes) (eles : list bytes) | PfCount (keys : list bytes) | PfMerge (dest : bytes) (srcs : list bytes).

(** The union of the sets of some keys, unless one of them is no HyperLogLog. *)
Fixpoint union_of (m : gmap bytes pf_val) (ks : list bytes) : option (gset bytes) :=
  match ks with
  | [] => Some ∅
  | k :: ks =>
    match m !! k with
    | None => union_of m ks
    | Some Other => None
    | Some (Sketch X) => Y ← union_of m ks; Some (X ∪ Y)
    end
  end.

Section Spec.
Context (estimate : list Z -> Z).

(** The count of a set. *)
Definition card (X : gset bytes) : Z := u64 (estimate (histogram (sketch X))).

(** What the commands do to the map, and their replies. *)
Definition pf_spec (m : gmap bytes pf_val) (c : pf_cmd) : gmap bytes pf_val * pf_reply :=
  match c with
  | PfAdd k es =>
    match m !! k with
    | None => (<[k := Sketch (list_to_set es)]> m, PfInt 1)
    | Some Other => (m, PfWrongType)
    | Some (Sketch X) => let X' := list_to_set es ∪ X in (<[k := Sketch X']> m, PfInt (if decide (sketch X' = sketch X) then 0 else 1))
    end
  | PfCount [k] => (m, match m !! k with None => PfInt 0 | Some Other => PfWrongType | Some (Sketch X) => PfInt (s64 (card X)) end)
  | PfCount ks => (m, match union_of m ks with None => PfWrongType | Some X => PfInt (s64 (card X)) end)
  | PfMerge d ss => match union_of m (d :: ss) with None => (m, PfWrongType) | Some X => (<[d := Sketch X]> m, PfOk) end
  end.

Fixpoint pf_spec_run (m : gmap bytes pf_val) (cs : list pf_cmd) : gmap bytes pf_val * list pf_reply :=
  match cs with [] => (m, []) | c :: cs => let '(m, r) := pf_spec m c in let '(m, rs) := pf_spec_run m cs in (m, r :: rs) end.

(** A valid cache holds the count of the set. *)
Definition cache_ok (hdr : bytes) (X : gset bytes) : Prop := Z.land (default 0 (hdr !! card_byte)) 128 = 0 -> le_val (drop 8 hdr) = card X.

Definition object_is (s : sds) (v : pf_val) : Prop :=
  match v with
  | Sketch X => exists hdr, hll_is s hdr (sketch X) /\ cache_ok hdr X
  | Other => isHLLObject s = Some false
  end.

Definition represents (db : pfdb) (m : gmap bytes pf_val) : Prop := map_Forall2 (fun _ => object_is) (pf_keys db) m.

Lemma invalidated_cache hdr enc X : header hdr enc -> cache_ok (invalidated hdr) X.
Proof.
  intros Hh Hz. exfalso. destruct (header_card hdr enc Hh) as [x Hx]. unfold invalidated in Hz. rewrite Hx, list_lookup_insert_eq in Hz by (by eapply lookup_lt_Some). cbn [default from_option id] in Hz. apply (f_equal (fun z => Z.testbit z 7)) in Hz. rewrite Z.land_spec, Z.lor_spec in Hz. change (Z.testbit 128 7) with true in Hz. rewrite orb_true_r in Hz. done.
Qed.

Section Commands.
Context `{A : Allocator} (usable_bound : forall n, Z.of_nat n <= 2 ^ 62 -> Z.of_nat (usable n) < 2 ^ 63).
Context (nallocx : option (Z -> Z)) (nallocx_ge : forall f n, nallocx = Some f -> n <= f n).
Context (max_bytes : Z) (max_bytes_ge : 32 <= max_bytes).

Definition pf_exec (db : pfdb) (c : pf_cmd) : option (pfdb * pf_reply) :=
  match c with
  | PfAdd k es => pfaddCommand nallocx max_bytes db k es
  | PfCount ks => pfcountCommand estimate db ks
  | PfMerge d ss => pfmergeCommand nallocx max_bytes db d ss
  end.

Fixpoint pf_run (db : pfdb) (cs : list pf_cmd) : option (pfdb * list pf_reply) :=
  match cs with [] => Some (db, []) | c :: cs => '(db, r) ← pf_exec db c; '(db, rs) ← pf_run db cs; Some (db, r :: rs) end.

(** Elements whose length is an [int]. *)
Definition short_element (e : bytes) : Prop := Z.of_nat (length e) < 2 ^ 31.

Definition short_elements (c : pf_cmd) : Prop := match c with PfAdd _ es => Forall short_element es | _ => True end.

(** The elements of PFADD. *)
Lemma add_elements_ok es : Forall short_element es -> forall s hdr X u, hll_is s hdr (sketch X) -> exists s' hdr' n, add_elements nallocx max_bytes s es u = Some (s', u + n, false) /\
  hll_is s' hdr' (sketch (list_to_set es ∪ X)) /\ (n = 0 /\ hdr' = hdr /\ sketch (list_to_set es ∪ X) = sketch X \/ 0 < n /\ sketch (list_to_set es ∪ X) <> sketch X).
Proof.
  induction 1 as [|e es Hshort _ IH]; intros s hdr X u H; cbn [add_elements].
  { exists s, hdr, 0. rewrite Z.add_0_r. cbn [list_to_set]. rewrite (left_id_L ∅ (∪)). split; [done|]. split; [done|]. by left. }
  destruct (pattern_of e) as [iz c] eqn:He. pose proof (pattern_of_ok e) as Hp. rewrite He in Hp. destruct Hp as [Hp Hc]. rewrite <- (Z2Nat.id iz) in He by lia. set (i := Z.to_nat iz) in *. assert (Hlt : (i < Z.to_nat HLL_REGISTERS)%nat) by lia. clearbody i. clear iz Hp. pose proof (hllPatLen_some e Hshort) as Hsome. rewrite He in Hsome.
  destruct (lookup_lt_is_Some_2 (sketch X) i) as [r Hr]; [by rewrite sketch_length|]. destruct (hllAdd_ok usable_bound nallocx nallocx_ge max_bytes max_bytes_ge s hdr _ e i c r H Hsome Hc Hr) as (s1 & hdr1 & -> & H1 & Hhdr). cbn [mbind option_bind].
  rewrite (sketch_add X e i c r He Hr) in H1. assert (EX : list_to_set (e :: es) ∪ X = list_to_set es ∪ ({[e]} ∪ X)) by (cbn [list_to_set]; set_solver).
  destruct (Z.gtb_spec c r) as [Hgt|Hle]; cbn [b2z]; [change (1 =? -1) with false; change (1 =? 1) with true|change (0 =? -1) with false; change (0 =? 1) with false]; cbv iota.
  - destruct (IH s1 hdr1 ({[e]} ∪ X) (u + 1) H1) as (s' & hdr' & n & Hrun & H' & Hn). exists s', hdr', (1 + n). rewrite Z.add_assoc, EX. split; [done|]. split; [done|]. right. split; [lia|]. rewrite <- EX. apply (sketch_changed X _ e i c r He Hr Hgt). cbn [list_to_set]. apply elem_of_union. left. by apply elem_of_singleton.
  - destruct (IH s1 hdr1 ({[e]} ∪ X) u H1) as (s' & hdr' & n & Hrun & H' & Hn). exists s', hdr', n. rewrite EX. split; [done|]. split; [done|]. rewrite (Hhdr Hle) in Hn. assert (Es : sketch ({[e]} ∪ X) = sketch X) by (rewrite <- (sketch_add X e i c r He Hr), Z.max_l by lia; by apply list_insert_id). by rewrite Es in Hn.
Qed.

Lemma represents_insert db m k s v d : represents db m -> object_is s v -> represents (mkPfDb (<[k := s]> (pf_keys db)) d) (<[k := v]> m).
Proof. intros H Hv. by apply map_Forall2_insert_2. Qed.

Lemma represents_lookup db m k : represents db m -> match m !! k with Some v => exists s, pf_keys db !! k = Some s /\ object_is s v | None => pf_keys db !! k = None end.
Proof. intros H. specialize (H k). destruct (pf_keys db !! k), (m !! k); inversion H; eauto. Qed.

Lemma invalidate_object s hdr X : hll_is s hdr (sketch X) -> exists s', HLL_INVALIDATE_CACHE s = Some s' /\ object_is s' (Sketch X).
Proof.
  intros H. destruct (hll_rep _ _ _ H) as (enc & v & _ & Hh & _). destruct (hll_invalidate s hdr _ H) as (s' & -> & H'). exists s'. split; [done|]. exists (invalidated hdr). split; [done|]. by eapply invalidated_cache.
Qed.

Lemma pfadd_ok db m k es : Forall short_element es -> represents db m -> exists db', pfaddCommand nallocx max_bytes db k es = Some (db', (pf_spec m (PfAdd k es)).2) /\ represents db' (pf_spec m (PfAdd k es)).1.
Proof.
  intros Hes H. pose proof (represents_lookup db m k H) as Hk. unfold pfaddCommand. cbn [pf_spec]. destruct (m !! k) as [[X|]|].
  - destruct Hk as (s & -> & hdr & Hs & Hcache). rewrite (isHLLObject_ok s hdr _ Hs). cbn [mbind option_bind negb]. destruct (add_elements_ok es Hes s hdr X 0 Hs) as (s' & hdr' & n & -> & Hs' & Hn). cbn [mbind option_bind]. rewrite Z.add_0_l. cbn [fst snd].
    destruct Hn as [(-> & -> & E)|[Hn E]].
    + change (0 >? 0) with false. cbv iota. eexists. rewrite decide_True by done. split; [done|]. apply represents_insert; [done|]. exists hdr. split; [done|]. unfold cache_ok, card. by rewrite E.
    + destruct (Z.gtb_spec n 0); [|lia]. destruct (invalidate_object s' hdr' _ Hs') as (s2 & -> & Hs2). cbn [mbind option_bind]. eexists. rewrite decide_False by done. split; [done|]. by apply represents_insert.
  - destruct Hk as (s & -> & Hs). cbn in Hs. rewrite Hs. cbn [mbind option_bind negb]. by exists db.
  - rewrite Hk. destruct (createHLLObject_ok usable_bound) as (s & hdr & -> & Hs). cbn [mbind option_bind negb]. rewrite <- sketch_empty in Hs. destruct (add_elements_ok es Hes s hdr ∅ 1 Hs) as (s' & hdr' & n & -> & Hs' & Hn). cbn [mbind option_bind]. rewrite (right_id_L ∅ (∪)) in Hs'.
    destruct (Z.gtb_spec (1 + n) 0); [|lia]. destruct (invalidate_object s' hdr' _ Hs') as (s2 & -> & Hs2). cbn [mbind option_bind]. eexists. split; [done|]. by apply represents_insert.
Qed.

(** * Merging keys *)

Lemma merge_keys_ok db m ks : represents db m -> forall X ud, match union_of m ks with
  | None => merge_keys db ks (sketch X) ud = Some (inl PfWrongType)
  | Some Y => exists ud', merge_keys db ks (sketch X) ud = Some (inr (sketch (X ∪ Y), ud'))
  end.
Proof.
  intros H. induction ks as [|k ks IH]; intros X ud; cbn [union_of merge_keys]; [exists ud; by rewrite (right_id_L ∅ (∪))|].
  pose proof (represents_lookup db m k H) as Hk. destruct (m !! k) as [[Z|]|].
  - destruct Hk as (s & -> & hdr & Hs & _). rewrite (isHLLObject_ok s hdr _ Hs). cbn [mbind option_bind negb]. destruct (hll_rep _ _ _ Hs) as (enc & v & Hr & Hh & _). rewrite (header_encoding s hdr enc v Hh Hr). cbn [mbind option_bind].
    rewrite (hllMerge_ok s hdr _ (sketch X) Hs (sketch_ok X)). cbn [mbind option_bind negb]. rewrite sketch_union. specialize (IH (X ∪ Z) (ud || (enc =? HLL_DENSE))). destruct (union_of m ks) as [Y|]; cbn [mbind option_bind]; [|done]. by rewrite (assoc_L (∪)).
  - destruct Hk as (s & -> & Hs). cbn in Hs. rewrite Hs. done.
  - rewrite Hk. apply IH.
Qed.

Lemma union_of_sub m k X ks Y : m !! k = Some (Sketch X) -> union_of m (k :: ks) = Some Y -> X ∪ Y = Y.
Proof. intros Hk. cbn [union_of]. rewrite Hk. destruct (union_of m ks); [|done]. intros [= <-]. set_solver. Qed.

Lemma to_dense_ok s hdr regs : hll_is s hdr regs -> exists s' hdr', hllSparseToDense s = Some (s', true) /\ dense_is s' hdr' regs.
Proof.
  intros [H|ops H ->].
  - exists s, hdr. split; [|done]. unfold hllSparseToDense. destruct (dn_body _ _ _ H) as (body & Hrep & _). rewrite (header_encoding s hdr _ _ (dn_header _ _ _ H) Hrep). cbn [mbind option_bind]. by rewrite Z.eqb_refl.
  - destruct (hllSparseToDense_ok usable_bound s hdr ops H) as (s' & Hd & Hs'). eauto.
Qed.

(** The registers of the result. *)
Lemma merged_write_ok s hdr X Y (ud : bool) : hll_is s hdr (sketch X) -> X ∪ Y = Y -> exists s1 s2 hdr2,
  (if ud then hllSparseToDense s else Some (s, true)) = Some (s1, true) /\
  (if ud then m ← dense_compress (Z.to_nat HLL_REGISTERS) (sketch Y) 0 (buf s1); Some (with_buf s1 m) else merge_write nallocx max_bytes (Z.to_nat HLL_REGISTERS) s1 (sketch Y) 0) = Some s2 /\
  hll_is s2 hdr2 (sketch Y).
Proof.
  intros H HY. destruct (sketch_ok Y) as [HYl HYr]. destruct ud.
  - destruct (to_dense_ok s hdr _ H) as (s1 & hdr1 & Hd & H1). pose proof (dense_compress_ok hdr1 (Z.to_nat HLL_REGISTERS) s1 [] (sketch X) [] (sketch Y) H1 (sketch_length X) HYl eq_refl HYr) as (m & Hc & Hm). cbn [app length] in Hc, Hm. change (Z.of_nat 0) with 0 in Hc.
    exists s1, (with_buf s1 m), hdr1. split; [done|]. rewrite Hc. split; [done|]. by apply hll_dense.
  - pose proof (merge_write_ok usable_bound nallocx nallocx_ge max_bytes max_bytes_ge (Z.to_nat HLL_REGISTERS) s hdr [] (sketch X) [] (sketch Y) H (sketch_length X) HYl eq_refl HYr) as (s2 & hdr2 & Hw & H2). cbn [app length] in Hw, H2. change (Z.of_nat 0) with 0 in Hw.
    exists s, s2, hdr2. split; [done|]. split; [done|]. by rewrite sketch_union, HY in H2.
Qed.

Lemma pfmerge_ok db m d ss : represents db m -> exists db', pfmergeCommand nallocx max_bytes db d ss = Some (db', (pf_spec m (PfMerge d ss)).2) /\ represents db' (pf_spec m (PfMerge d ss)).1.
Proof.
  intros H. unfold pfmergeCommand. pose proof (merge_keys_ok db m (d :: ss) H ∅ false) as Hm. rewrite zero_sketch. unfold pf_spec. destruct (union_of m (d :: ss)) as [Y|] eqn:EY; [|exists db; by rewrite Hm].
  destruct Hm as [ud Hm]. rewrite Hm. cbn [mbind option_bind]. rewrite (left_id_L ∅ (∪)).
  assert (Hkv : exists s hdr X, match pf_keys db !! d with Some kv => Some kv | None => createHLLObject end = Some s /\ hll_is s hdr (sketch X) /\ X ∪ Y = Y).
  { pose proof (represents_lookup db m d H) as Hd. destruct (m !! d) as [[X|]|] eqn:Ed.
    - destruct Hd as (s & -> & hdr & Hs & _). exists s, hdr, X. split_and!; [done|done|by eapply union_of_sub].
    - cbn [union_of] in EY. by rewrite Ed in EY.
    - rewrite Hd. destruct (createHLLObject_ok usable_bound) as (s & hdr & Hs & Hi). exists s, hdr, ∅. rewrite sketch_empty. split_and!; [done|done|apply (left_id_L ∅ (∪))]. }
  destruct Hkv as (s & hdr & X & -> & Hs & HXY). cbn [mbind option_bind]. destruct (merged_write_ok s hdr X Y ud Hs HXY) as (s1 & s2 & hdr2 & -> & Hw & H2). cbn [mbind option_bind negb]. rewrite Hw. cbn [mbind option_bind].
  destruct (invalidate_object s2 hdr2 Y H2) as (s3 & -> & H3). cbn [mbind option_bind]. eexists. split; [done|]. by apply represents_insert.
Qed.

(** * Counting *)

(** The header with a new cached count. *)
Lemma header_card_put hdr enc c : header hdr enc -> header (take 8 hdr ++ le_bytes 8 c) enc.
Proof.
  intros [Hl Hm He Hb]. unfold HLL_HDR_SIZE, hdr_encoding in *. split.
  - rewrite length_app, length_take, le_bytes_length. unfold HLL_HDR_SIZE. lia.
  - rewrite take_app_le, take_take by (rewrite length_take; lia). done.
  - unfold hdr_encoding. rewrite lookup_app_l by (rewrite length_take; lia). by rewrite lookup_take_lt by lia.
  - apply Forall_app_2; [by apply Forall_take|apply le_bytes_ok].
Qed.

Lemma put_card s hdr X : hll_is s hdr (sketch X) -> exists s', put_bytes s hdr_card (le_bytes 8 (card X)) = Some s' /\ object_is s' (Sketch X).
Proof.
  intros H. destruct (hll_rep _ _ _ H) as (enc & v & Hr & Hh & _). pose proof (hd_length _ _ Hh) as Hl. unfold HLL_HDR_SIZE in Hl.
  assert (Hput : forall w, rep s (hdr ++ w) -> exists s', put_bytes s hdr_card (le_bytes 8 (card X)) = Some s' /\ rep s' ((take 8 hdr ++ le_bytes 8 (card X)) ++ w)).
  { intros w Hw. rewrite <- (take_drop 8 hdr), <- app_assoc in Hw. destruct (replace_bytes s (take 8 hdr) (drop 8 hdr) w (le_bytes 8 (card X)) Hw) as (s' & Hp & Hr' & _); [rewrite le_bytes_length, length_drop; lia|]. rewrite length_take, Hl in Hp. exists s'. split; [exact Hp|]. by rewrite <- app_assoc. }
  destruct (Hput v Hr) as (s' & Hp & Hr'). exists s'. split; [done|]. exists (take 8 hdr ++ le_bytes 8 (card X)). split.
  - apply (hll_header s hdr _ H); [intros e; apply header_card_put|]. intros w Hw. destruct (Hput w Hw) as (s2 & Hp2 & Hr2). congruence.
  - intros _. rewrite drop_app_length' by (rewrite length_take; lia). rewrite le_val_bytes. apply uwrap_small. apply uwrap_range. lia.
Qed.

Lemma valid_cache s hdr X : hll_is s hdr (sketch X) -> HLL_VALID_CACHE s = Some (Z.land (default 0 (hdr !! card_byte)) 128 =? 0) /\ load (buf s) (Z.to_nat hdr_card) 8 = Some (drop 8 hdr).
Proof.
  intros H. destruct (hll_rep _ _ _ H) as (enc & v & Hr & Hh & _). pose proof (hd_length _ _ Hh) as Hl. unfold HLL_HDR_SIZE in Hl. destruct (header_card hdr enc Hh) as [x Hx]. split.
  - unfold HLL_VALID_CACHE. change (hdr_card + 7) with (Z.of_nat card_byte). rewrite (rep_byte s (hdr ++ v) card_byte x Hr) by (by rewrite lookup_app_l by (by eapply lookup_lt_Some)). cbn [mbind option_bind]. rewrite Hx. done.
  - destruct (rp_buf _ _ Hr) as [tail ->]. rewrite <- (take_drop 8 hdr) at 1. rewrite <- !app_assoc. apply load_app; [rewrite length_take, Hl; unfold hdr_card; lia|rewrite length_drop; lia].
Qed.

Lemma count_many db m ks : represents db m -> length ks <> 1%nat -> pfcountCommand estimate db ks = Some (db, match union_of m ks with None => PfWrongType | Some X => PfInt (s64 (card X)) end).
Proof.
  intros H Hks. assert (E : pfcountCommand estimate db ks = (r ← merge_keys db ks zero_registers false; match r with inl e => Some (db, e) | inr (max, _) => c ← hllCountRaw estimate max; Some (db, PfInt (s64 c)) end)) by (destruct ks as [|k [|k2 ks]]; done).
  rewrite E, zero_sketch. clear E Hks. pose proof (merge_keys_ok db m ks H ∅ false) as Hm. destruct (union_of m ks) as [Y|]; [destruct Hm as [ud Hm]|]; rewrite (some_bind _ _ _ Hm); cbv beta iota; [|done].
  rewrite (left_id_L ∅ (∪)), (some_bind _ _ _ (hllCountRaw_ok estimate (sketch Y) (sketch_ok Y))). done.
Qed.

Lemma count_one db m k X s : represents db m -> m !! k = Some (Sketch X) -> pf_keys db !! k = Some s -> object_is s (Sketch X) -> exists db', pfcountCommand estimate db [k] = Some (db', PfInt (s64 (card X))) /\ represents db' m.
Proof.
  intros H Em Hk (hdr & Hs & Hcache). cbn [pfcountCommand]. rewrite Hk, (isHLLObject_ok s hdr _ Hs). cbn [mbind option_bind negb]. destruct (valid_cache s hdr X Hs) as [-> ->]. cbn [mbind option_bind]. destruct (Z.eqb_spec (Z.land (default 0 (hdr !! card_byte)) 128) 0) as [E|E].
  - exists db. by rewrite (Hcache E).
  - rewrite (hllCount_ok estimate s hdr _ Hs). cbn [mbind option_bind]. destruct (put_card s hdr X Hs) as (s' & Hp & Hs'). unfold card in *. rewrite Hp. cbn [mbind option_bind]. eexists. split; [done|]. rewrite <- (insert_id m k (Sketch X) Em). by apply represents_insert.
Qed.

Lemma pfcount_ok db m ks : represents db m -> exists db', pfcountCommand estimate db ks = Some (db', (pf_spec m (PfCount ks)).2) /\ represents db' (pf_spec m (PfCount ks)).1.
Proof.
  intros H. pose proof (count_many db m ks H) as Hmany. destruct ks as [|k [|k2 ks]]; cbn [pf_spec fst snd]; [exists db; split; [by apply Hmany|done]| |exists db; split; [by apply Hmany|done]]. clear Hmany. pose proof (represents_lookup db m k H) as Hk. destruct (m !! k) as [[X|]|] eqn:Em.
  - destruct Hk as (s & Hk & Hs). by apply (count_one db m k X s).
  - destruct Hk as (s & Hk & Hs). cbn in Hs. exists db. cbn [pfcountCommand]. by rewrite Hk, Hs.
  - exists db. cbn [pfcountCommand]. by rewrite Hk.
Qed.

Lemma pf_exec_ok db m c : short_elements c -> represents db m -> exists db', pf_exec db c = Some (db', (pf_spec m c).2) /\ represents db' (pf_spec m c).1.
Proof. intros Hc H. destruct c as [k es|ks|d ss]; [by apply pfadd_ok|by apply pfcount_ok|by apply pfmerge_ok]. Qed.

(** C4. A database of HyperLogLogs is a map from keys to sets of elements.  In any sequence of PFADD, PFCOUNT and PFMERGE, with elements of fewer than
    2^31 bytes ([MurmurHash64A] takes their length as an [int]; [long_element] is what it does beyond), no access is out of bounds and no assertion fails; PFADD adds its elements to the set of the key and answers whether the sketch
    of the set changed; PFMERGE leaves the union of the sets in the destination; PFCOUNT answers the estimate for the sketch of the
    union of the sets of its keys, be it cached, counted in dense or sparse registers, or in merged ones; and a string
    that is no HyperLogLog is refused without a change.  Each register of the sketch is the longest pattern among the elements that
    hash to it, whichever representation, sparse or dense, the updates left. *)
Theorem pf_commands_refine_sets db m cs : Forall short_elements cs -> represents db m ->
  exists db', pf_run db cs = Some (db', (pf_spec_run m cs).2) /\ represents db' (pf_spec_run m cs).1.
Proof.
  intros Hcs. revert db m. induction Hcs as [|c cs Hc _ IH]; intros db m H; cbn [pf_run pf_spec_run]; [by exists db|]. destruct (pf_exec_ok db m c Hc H) as (db1 & -> & H1). cbn [mbind option_bind]. destruct (pf_spec m c) as [m1 r]. cbn [fst snd] in *. destruct (IH db1 m1 H1) as (db' & -> & H'). cbn [mbind option_bind].
  destruct (pf_spec_run m1 cs) as [m' rs]. by exists db'.
Qed.

End Commands.
End Spec.

(** * A concrete run *)

Module Sample.

#[local] Instance byte_allocator : Allocator := {
  usable n := (n + n mod 8)%nat;
  junk n := replicate n 90;
  usable_ge n := Nat.le_add_r n (n mod 8);
  junk_length n := length_replicate n 90
}.

Lemma byte_usable_bound n : Z.of_nat n <= 2 ^ 62 -> Z.of_nat (usable n) < 2 ^ 63.
Proof. intros Hn. cbn [usable byte_allocator]. pose proof (Nat.mod_upper_bound n 8). lia. Qed.

(** The number of registers in use. *)
Definition used (h : list Z) : Z := 16384 - default 0 (h !! 0%nat).

Definition cmds : list pf_cmd := [PfAdd [97] [[1]; [2; 3]]; PfCount [[98]]; PfMerge [98] [[97]; [99]]; PfCount [[97]; [120]]; PfAdd [120] [[1]]].

Lemma pf_commands_refine_sets_witness : exists db, pf_run used None 3000 (mkPfDb {[ [120] := mkSds SDS_TYPE_8 2 3 [120; 121; 0; 7] ]} 0) cmds = Some (db, [PfInt 1; PfInt 0; PfOk; PfWrongType; PfWrongType]) /\
  represents used db {[ [97] := Sketch {[ [1]; [2; 3] ]}; [98] := Sketch {[ [1]; [2; 3] ]}; [120] := Other ]}.
Proof.
  destruct (pf_commands_refine_sets used byte_usable_bound None ltac:(done) 3000 ltac:(lia) (mkPfDb {[ [120] := mkSds SDS_TYPE_8 2 3 [120; 121; 0; 7] ]} 0) {[ [120] := Other ]} cmds) as (db & H1 & H2).
  - by repeat constructor.
  - unfold represents. cbn [pf_keys]. by apply map_Forall2_singleton.
  - exists db. split; [exact H1|]. exact H2.
Defined.

End Sample.

End HllCmdSpec.
