(* ===== verification/HllSafe.v ===== *)
(** Strings that clients forge (hyperloglog.c): any string with the magic of a HyperLogLog may hold opcodes that are cut short or that
    cover too many registers; reading it never leaves its memory. *)

From S2P Require Import Prelude Bits Sds SdsSpec Hll HllOps HllSpec HllSparse HllMerge HllHisto.

Module HllSafe.
Import Sds SdsSpec Hll HllOps HllSpec HllSparse HllMerge HllHisto.

#[local] Opaque HLL_REGISTERS HLL_DENSE_SIZE.

(** * Any opcodes *)

Lemma op_bounds b : urange 8 b -> 1 <= HLL_SPARSE_ZERO_LEN b /\ 1 <= HLL_SPARSE_VAL_LEN b <= 4 /\ 1 <= HLL_SPARSE_VAL_VALUE b <= 32.
Proof.
  intros Hb. unfold HLL_SPARSE_ZERO_LEN, HLL_SPARSE_VAL_LEN, HLL_SPARSE_VAL_VALUE. change 0x3f with (Z.ones 6). change 3 with (Z.ones 2). change 0x1f with (Z.ones 5). rewrite !Z.land_ones by lia.
  pose proof (Z.mod_pos_bound b (2 ^ 6) ltac:(lia)). pose proof (Z.mod_pos_bound b (2 ^ 2) ltac:(lia)). pose proof (Z.mod_pos_bound (Z.shiftr b 2) (2 ^ 5) ltac:(lia)). lia.
Qed.

Lemma xzero_bounds b b1 : urange 8 b1 -> 1 <= HLL_SPARSE_XZERO_LEN b b1.
Proof.
  intros Hb. unfold HLL_SPARSE_XZERO_LEN. assert (0 <= Z.lor (Z.shiftl (Z.land b 0x3f) 8) b1); [|lia]. apply Z.lor_nonneg. split; [|unfold urange in Hb; lia]. apply Z.shiftl_nonneg. apply Z.land_nonneg. right. lia.
Qed.

Section Walk.
Context {X : Type} (zero : Z -> X -> option X) (val : Z -> Z -> Z -> X -> option X) (I : X -> Prop).
Context (zero_ok : forall n x, 1 <= n -> I x -> exists x', zero n x = Some x' /\ I x').
Context (val_ok : forall i n v x, 0 <= i -> 1 <= n <= 4 -> 1 <= v <= 32 -> i + n <= HLL_REGISTERS -> I x -> exists x', val i n v x = Some x' /\ I x').

(** A walk over any bytes, with one more byte after them. *)
Lemma sparse_walk_safe m : bytes_ok m -> forall fuel p end_ idx x, (Z.to_nat (end_ - p) <= fuel)%nat -> 0 <= p -> end_ < Z.of_nat (length m) -> 0 <= idx <= HLL_REGISTERS -> I x ->
  forall r, exists valid idx' x', sparse_walk fuel zero val (m ++ r) p end_ idx x = Some (valid, idx', x') /\ I x'.
Proof.
  intros Hm fuel. induction fuel as [|fuel IH]; intros p end_ idx x Hf Hp Hend Hidx Hx r; cbn [sparse_walk]; destruct (Z.ltb_spec p end_) as [Hlt|Hge]; [lia|by eexists _, _, _| |by eexists _, _, _].
  destruct (mem_byte_some m p ltac:(lia)) as (b & Hb & Hbl). rewrite (mem_byte_app_l m r p), Hb by lia. cbn [mbind option_bind]. pose proof (op_bounds b (Forall_lookup_1 _ _ _ _ Hm Hbl)) as (Hz & Hv & Hvv).
  assert (Hover : forall (n : Z) (k : option (bool * Z * X)), (n + idx <= HLL_REGISTERS -> exists valid idx' x', k = Some (valid, idx', x') /\ I x') -> exists valid idx' x', (if n + idx >? HLL_REGISTERS then Some (false, idx, x) else k) = Some (valid, idx', x') /\ I x').
  { intros n k Hk. destruct (Z.gtb_spec (n + idx) HLL_REGISTERS); [by eexists _, _, _|by apply Hk]. }
  destruct (HLL_SPARSE_IS_ZERO b); [|destruct (HLL_SPARSE_IS_XZERO b)].
  - apply Hover. intros Hn. destruct (zero_ok _ x Hz Hx) as (x' & -> & Hx'). cbn [mbind option_bind]. apply IH; (done || lia).
  - destruct (mem_byte_some m (p + 1) ltac:(lia)) as (b1 & Hb1 & Hb1l). rewrite (mem_byte_app_l m r (p + 1)), Hb1 by lia. cbn [mbind option_bind]. pose proof (xzero_bounds b b1 (Forall_lookup_1 _ _ _ _ Hm Hb1l)) as Hxz.
    apply Hover. intros Hn. destruct (zero_ok _ x Hxz Hx) as (x' & -> & Hx'). cbn [mbind option_bind]. apply IH; (done || lia).
  - apply Hover. intros Hn. destruct (val_ok idx _ _ x ltac:(lia) Hv Hvv ltac:(lia) Hx) as (x' & -> & Hx'). cbn [mbind option_bind]. apply IH; (done || lia).
Qed.

End Walk.

(** * Any strings *)

Definition string_ok (s : sds) : Prop := exists v, rep s v /\ bytes_ok v.

(** A string that passes the check is a dense object with some registers, or has any bytes after its header. *)
Lemma isHLLObject_cases s v : rep s v -> bytes_ok v -> isHLLObject s = Some true ->
  exists hdr body, v = hdr ++ body /\ ((exists regs, dense_is s hdr regs) \/ header hdr HLL_SPARSE).
Proof.
  intros H Hb. unfold isHLLObject, sdslen. rewrite (rp_len _ _ H). destruct (Z.ltb_spec (Z.of_nat (length v)) HLL_HDR_SIZE) as [|Hlen]; [done|]. unfold HLL_HDR_SIZE in Hlen. rewrite (rep_load s v 4 H) by lia. cbn [mbind option_bind]. unfold hll_encoding.
  destruct (lookup_lt_is_Some_2 v 4) as [enc Henc]; [lia|]. change hdr_encoding with (Z.of_nat 4). rewrite (rep_byte s v 4 enc H Henc). cbn [mbind option_bind]. intros [= Hok]. apply andb_prop in Hok as [Hok Hsz]. apply andb_prop in Hok as [Hmagic Hmax]. apply bool_decide_eq_true in Hmagic.
  exists (take 16 v), (drop 16 v). rewrite take_drop. split; [done|]. assert (Hh : forall e, e = enc -> header (take 16 v) e).
  { intros e ->. split; [rewrite length_take; unfold HLL_HDR_SIZE; lia|by rewrite take_take|change (Z.to_nat hdr_encoding) with 4%nat; by rewrite lookup_take_lt by lia|by apply Forall_take]. }
  pose proof (Forall_lookup_1 _ _ _ _ Hb Henc) as Hr. unfold urange in Hr. destruct (Z.gtb_spec enc HLL_MAX_ENCODING) as [|Hle]; [done|]. unfold HLL_MAX_ENCODING in Hle.
  destruct (Z.eqb_spec enc HLL_DENSE) as [E|E]; [|right; apply Hh; unfold HLL_DENSE, HLL_SPARSE in *; lia]. left. destruct (Z.eqb_spec (Z.of_nat (length v)) HLL_DENSE_SIZE) as [Esz|]; [|done].
  exists (map (fun i => default 0 (HLL_DENSE_GET_REGISTER (v ++ [0]) HLL_HDR_SIZE i)) (seqZ 0 HLL_REGISTERS)). split; [by apply Hh|]. exists (drop 16 v). rewrite take_drop. split; [done|]. split; [done|]. split; [by apply Forall_drop|]. split; [by rewrite length_map, length_seqZ|].
  intros i r Hi. rewrite list_lookup_fmap in Hi. destruct (seqZ 0 HLL_REGISTERS !! i) as [z|] eqn:Ei; [|done]. apply lookup_seqZ in Ei as [-> Hi2]. cbn in Hi. injection Hi as <-. rewrite Z.add_0_l.
  destruct (dense_get_ok (v ++ [0]) HLL_HDR_SIZE (Z.of_nat i)) as (x & -> & _); [apply Forall_app_2; [done|]; apply Forall_singleton; unfold urange; lia|done|lia|rewrite length_app; cbn [length]; pose proof (dense_index i ltac:(lia)); lia|]. done.
Qed.

Lemma swrap_le w z : 0 < w -> 0 <= z -> swrap w z <= z.
Proof. intros Hw Hz. unfold swrap. pose proof (pow2_pos (w - 1) ltac:(lia)). pose proof (Z.mod_le (z + 2 ^ (w - 1)) (2 ^ w) ltac:(lia) (pow2_pos w ltac:(lia))). lia. Qed.

(** A walk over a sparse string. *)
Lemma forged_walk {X} (zero : Z -> X -> option X) (val : Z -> Z -> Z -> X -> option X) (I : X -> Prop) s v end_ x : rep s v -> bytes_ok v -> (16 <= length v)%nat -> end_ <= sdslen s ->
  (forall n x, 1 <= n -> I x -> exists x', zero n x = Some x' /\ I x') ->
  (forall i n v x, 0 <= i -> 1 <= n <= 4 -> 1 <= v <= 32 -> i + n <= HLL_REGISTERS -> I x -> exists x', val i n v x = Some x' /\ I x') -> I x ->
  exists valid idx x', sparse_walk (length (buf s)) zero val (buf s) HLL_HDR_SIZE end_ 0 x = Some (valid, idx, x') /\ I x'.
Proof.
  intros H Hb Hl Hend Hz Hv Hx. destruct (dense_buf s v H) as [tail ->]. unfold sdslen in Hend. rewrite (rp_len _ _ H) in Hend. apply (sparse_walk_safe zero val I Hz Hv (v ++ [0])); [|rewrite !length_app; cbn [length]; unfold HLL_HDR_SIZE; lia|done|rewrite length_app; cbn [length]; lia|rewrite registers_eq; lia|done].
  apply Forall_app_2; [done|]. apply Forall_singleton. unfold urange. lia.
Qed.

Lemma max_run_safe n i v max : regs_ok max -> 0 <= v < 64 -> 0 <= i -> i + n <= HLL_REGISTERS -> 1 <= n -> exists max', max_run (Z.to_nat n) i v max = Some max' /\ regs_ok max'.
Proof.
  intros [Hl Hr] Hv Hi Hn Hn1. assert (E : max = take (Z.to_nat i) max ++ take (Z.to_nat n) (drop (Z.to_nat i) max) ++ drop (Z.to_nat n) (drop (Z.to_nat i) max)) by (by rewrite !take_drop).
  set (a := take _ max) in *. set (b := take _ (drop _ _)) in *. set (c := drop _ (drop _ _)) in *. assert (Ha : length a = Z.to_nat i) by (unfold a; rewrite length_take; lia). assert (Hb : length b = Z.to_nat n) by (unfold b; rewrite length_take, length_drop; lia).
  pose proof (max_run_ok (Z.to_nat n) a b c v Hb) as Hrun. rewrite Ha, Z2Nat.id, <- E in Hrun by lia. eexists. split; [done|]. rewrite E in Hl, Hr. split.
  - rewrite !length_app, length_zip_with, length_replicate in *. lia.
  - apply Forall_app in Hr as [Hra Hr]. apply Forall_app in Hr as [Hrb Hrc]. apply Forall_app_2; [done|]. apply Forall_app_2; [|done]. apply Forall_lookup. intros k x Hx. apply lookup_zip_with_Some in Hx as (y & z & -> & Hy & Hz). apply lookup_replicate in Hz as [-> _]. pose proof (Forall_lookup_1 _ _ _ _ Hrb Hy). cbn in *. lia.
Qed.

Lemma zip_max_ok a b : regs_ok a -> regs_ok b -> regs_ok (zip_with Z.max a b).
Proof.
  intros [Ha1 Ha2] [Hb1 Hb2]. split; [rewrite length_zip_with; lia|]. apply Forall_lookup. intros k x Hx. apply lookup_zip_with_Some in Hx as (y & z & -> & Hy & Hz). pose proof (Forall_lookup_1 _ _ _ _ Ha2 Hy). pose proof (Forall_lookup_1 _ _ _ _ Hb2 Hz). cbn in *. lia.
Qed.

Lemma hllMerge_safe s max : string_ok s -> isHLLObject s = Some true -> regs_ok max -> exists max' ok, hllMerge max s = Some (max', ok) /\ regs_ok max'.
Proof.
  intros (v & H & Hb) Ho Hmax. destruct (isHLLObject_cases s v H Hb Ho) as (hdr & body & -> & [[regs Hd]|Hh]).
  - exists (zip_with Z.max max regs), true. split; [by eapply hllMerge_ok; [by apply hll_dense|]|]. apply zip_max_ok; [done|by eapply dense_regs_range].
  - unfold hllMerge. rewrite (header_encoding s hdr _ _ Hh H). cbn [mbind option_bind]. change (HLL_SPARSE =? HLL_DENSE) with false. cbv iota. pose proof (hd_length _ _ Hh) as Hl. unfold HLL_HDR_SIZE in Hl.
    destruct (forged_walk (fun _ max => Some max) (fun i runlen regval max => max_run (Z.to_nat runlen) i regval max) regs_ok s _ (sdslen s) max H Hb) as (valid & idx & max' & -> & Hm); [rewrite length_app; lia|lia|by eauto| |done|].
    { intros i n r x Hi Hn Hr Hin Hx. apply max_run_safe; (done || lia). }
    cbn [mbind option_bind]. eauto.
Qed.

Lemma histo_add_safe h i n : length h = 64%nat -> 0 <= i < 64 -> exists h', histo_add h i n = Some h' /\ length h' = 64%nat.
Proof. intros Hl Hi. unfold histo_add. destruct (lookup_lt_is_Some_2 h (Z.to_nat i)) as [x ->]; [lia|]. cbn [mbind option_bind]. eexists. split; [done|]. by rewrite length_insert. Qed.

Lemma hllCount_safe estimate s : string_ok s -> isHLLObject s = Some true -> exists c invalid, hllCount estimate s = Some (c, invalid).
Proof.
  intros (v & H & Hb) Ho. destruct (isHLLObject_cases s v H Hb Ho) as (hdr & body & -> & [[regs Hd]|Hh]).
  - do 2 eexists. apply (hllCount_ok estimate s hdr regs). by apply hll_dense.
  - unfold hllCount. rewrite (header_encoding s hdr _ _ Hh H). cbn [mbind option_bind]. change (HLL_SPARSE =? HLL_DENSE) with false. rewrite Z.eqb_refl. cbv iota. pose proof (hd_length _ _ Hh) as Hl. unfold HLL_HDR_SIZE in Hl. unfold hllSparseRegHisto.
    destruct (forged_walk (fun runlen h => histo_add h 0 runlen) (fun _ runlen regval h => histo_add h regval runlen) (fun h => length h = 64%nat) s _ (HLL_HDR_SIZE + s32 (sdslen s - HLL_HDR_SIZE)) empty_histo H Hb) as (valid & idx & h & -> & _); [rewrite length_app; lia|assert (16 <= sdslen s) by (unfold sdslen; rewrite (rp_len _ _ H), length_app; lia); pose proof (swrap_le 32 (sdslen s - HLL_HDR_SIZE)); unfold HLL_HDR_SIZE in *; lia|intros n h _ Hlen; apply histo_add_safe; [done|lia]|intros i n r h _ _ Hr _ Hlen; apply histo_add_safe; [done|lia]|done|].
    cbn [mbind option_bind]. eauto.
Qed.

Lemma isHLLObject_total s : string_ok s -> exists b, isHLLObject s = Some b.
Proof.
  intros (v & H & Hb). unfold isHLLObject, sdslen. rewrite (rp_len _ _ H). destruct (Z.ltb_spec (Z.of_nat (length v)) HLL_HDR_SIZE) as [|Hlen]; [eauto|]. unfold HLL_HDR_SIZE in Hlen. rewrite (rep_load s v 4 H) by lia. cbn [mbind option_bind]. unfold hll_encoding.
  destruct (lookup_lt_is_Some_2 v 4) as [enc Henc]; [lia|]. change hdr_encoding with (Z.of_nat 4). rewrite (rep_byte s v 4 enc H Henc). cbn [mbind option_bind]. eauto.
Qed.

Lemma merge_keys_safe db ks : map_Forall (fun _ => string_ok) (pf_keys db) -> forall max ud, regs_ok max ->
  exists r, merge_keys db ks max ud = Some r /\ match r with inr (max', _) => regs_ok max' | inl _ => True end.
Proof.
  intros Hdb. induction ks as [|k ks IH]; intros max ud Hmax; cbn [merge_keys]; [by eexists|]. destruct (pf_keys db !! k) as [s|] eqn:E; [|by apply IH]. pose proof (Hdb k s E) as Hs. destruct (isHLLObject_total s Hs) as [[] Ho]; rewrite Ho; cbn [mbind option_bind negb]; [|by eexists].
  destruct Hs as (v & H & Hb). destruct (isHLLObject_cases s v H Hb Ho) as (hdr & body & Ev & Hcase). assert (Henc : exists enc, hll_encoding s = Some enc).
  { rewrite Ev in H. destruct Hcase as [[regs Hd]|Hh]; [exists HLL_DENSE; by eapply header_encoding; [apply Hd|]|exists HLL_SPARSE; by eapply header_encoding]. }
  destruct Henc as [enc ->]. cbn [mbind option_bind]. destruct (hllMerge_safe s max (ex_intro _ v (conj H Hb)) Ho Hmax) as (max' & ok & -> & Hm'). cbn [mbind option_bind]. destruct ok; cbn [negb]; [by apply IH|by eexists].
Qed.

Lemma put_card_safe s v c : rep s v -> bytes_ok v -> (16 <= length v)%nat -> exists s', put_bytes s hdr_card (le_bytes 8 c) = Some s' /\ string_ok s'.
Proof.
  intros H Hb Hl. rewrite <- (take_drop 8 v), <- (take_drop 8 (drop 8 v)) in H. destruct (replace_bytes s _ _ _ (le_bytes 8 c) H) as (s' & Hp & Hr & _); [rewrite le_bytes_length, length_take, length_drop; lia|]. rewrite length_take, Nat.min_l in Hp by lia. exists s'. split; [exact Hp|]. eexists. split; [done|].
  repeat apply Forall_app_2; [by apply Forall_take|apply le_bytes_ok|by repeat apply Forall_drop].
Qed.

Section Safe.
Context (estimate : list Z -> Z).

(** C19. PFCOUNT and the keys that PFMERGE reads may be any strings: opcodes that are cut short, that cover more registers
    than there are or fewer, and any header.  PFCOUNT and the merge of the keys always answer, so they make no access outside the
    memory of the strings or of the merged registers, and the strings stay well-formed, only the cached count being changed. *)
Theorem forged_strings_safe db ks : map_Forall (fun _ => string_ok) (pf_keys db) ->
  (exists r, merge_keys db ks zero_registers false = Some r) /\
  exists db' r, pfcountCommand estimate db ks = Some (db', r) /\ map_Forall (fun _ => string_ok) (pf_keys db') /\ dom (pf_keys db') = dom (pf_keys db).
Proof.
  intros Hdb. assert (Hzero : regs_ok zero_registers) by (unfold zero_registers; split; [by rewrite length_replicate|]; apply Forall_replicate; lia). destruct (merge_keys_safe db ks Hdb zero_registers false Hzero) as (r & Hr & Hreg). split; [by exists r|].
  assert (Hmany : exists x, (r ← merge_keys db ks zero_registers false; match r with inl e => Some (db, e) | inr (max, _) => c ← hllCountRaw estimate max; Some (db, PfInt (s64 c)) end) = Some (db, x)).
  { rewrite Hr. cbn [mbind option_bind]. destruct r as [e|[max ud]]; [by eexists|]. rewrite hllCountRaw_ok by done. by eexists. }
  destruct ks as [|k [|k2 ks]]; [destruct Hmany as [x Hx]; exists db, x; by split_and!| |destruct Hmany as [x Hx]; exists db, x; by split_and!]. clear Hmany Hreg Hr r. cbn [pfcountCommand]. destruct (pf_keys db !! k) as [s|] eqn:E; [|exists db, (PfInt 0); by split_and!].
  pose proof (Hdb k s E) as Hs. destruct (isHLLObject_total s Hs) as [[] Ho]; rewrite Ho; cbn [mbind option_bind negb]; [|exists db, PfWrongType; by split_and!]. destruct (hllCount_safe estimate s Hs Ho) as (c & invalid & Hc). destruct Hs as (v & H & Hb).
  assert (Hl : (16 <= length v)%nat) by (unfold isHLLObject, sdslen in Ho; rewrite (rp_len _ _ H) in Ho; destruct (Z.ltb_spec (Z.of_nat (length v)) HLL_HDR_SIZE) as [|Hl]; [done|unfold HLL_HDR_SIZE in Hl; lia]).
  assert (Hvc : exists b, HLL_VALID_CACHE s = Some b). { destruct (lookup_lt_is_Some_2 v 15) as [x Hx]; [lia|]. unfold HLL_VALID_CACHE. change (hdr_card + 7) with (Z.of_nat 15). rewrite (rep_byte s v 15 x H Hx). by eexists. }
  destruct Hvc as [[] ->]; cbn [mbind option_bind].
  - destruct (rp_buf _ _ H) as [tail Hbuf]. rewrite load_Some by (rewrite Hbuf, length_app; unfold hdr_card; lia). cbn [mbind option_bind]. eexists db, _. by split_and!.
  - rewrite Hc. cbn [mbind option_bind]. destruct invalid; [exists db, PfInvalid; by split_and!|]. destruct (put_card_safe s v c H Hb Hl) as (s' & -> & Hs'). cbn [mbind option_bind]. eexists _, _. split; [done|]. cbn [pf_keys]. split; [by apply map_Forall_insert_2|]. rewrite dom_insert_L. apply elem_of_dom_2 in E. set_solver.
Qed.

End Safe.

(** * A concrete run *)

Module Sample.

(** A HyperLogLog that ends in half an opcode. *)
Definition forged : sds := mkSds SDS_TYPE_8 17 17 (magic ++ [1; 0; 0; 0] ++ replicate 7 0 ++ [128; 127; 0]).

Lemma forged_strings_safe_witness : exists db' r, pfcountCommand (fun _ => 7) (mkPfDb {[ [97] := forged ]} 0) [[97]] = Some (db', r) /\ map_Forall (fun _ => string_ok) (pf_keys db') /\ dom (pf_keys db') = {[ [97] ]}.
Proof.
  destruct (forged_strings_safe (fun _ => 7) (mkPfDb {[ [97] := forged ]} 0) [[97]]) as (_ & db' & r & H1 & H2 & H3).
  - cbn [pf_keys]. apply map_Forall_singleton. exists (magic ++ [1; 0; 0; 0] ++ replicate 7 0 ++ [128; 127]). split; [|apply (bool_decide_unpack _); by vm_compute].
    split; [by exists []|done|done|intros _; split; [split|]; by vm_compute|by vm_compute].
  - exists db', r. split; [exact H1|]. split; [exact H2|]. rewrite H3. cbn [pf_keys]. by rewrite dom_singleton_L.
Defined.

#[local] Instance exact_allocator : Allocator := { usable n := n; junk n := replicate n 90; usable_ge n := le_n n; junk_length n := length_replicate n 90 }.

(** An update of the half opcode writes over the null byte that ends the string. *)
Lemma forged_unterminated : exists s, hllSparseSet None 3000 forged 5 3 = Some (s, 1) /\ buf s !! Z.to_nat (sdslen s) <> Some 0.
Proof. eexists. split; [by vm_compute|by vm_compute]. Qed.

(** XZERO opcodes for 65 and 16319 registers, in a string of type 5. *)
Definition short : sds := mkSds SDS_TYPE_5 20 0 (magic ++ [1; 0; 0; 0] ++ replicate 8 0 ++ ops_enc [XZero 65; XZero 16319] ++ [0]).

(** With [hll-sparse-max-bytes] at the length of the string, [sdsIncrLen] by zero bytes fails its assertion. *)
Lemma short_fails : isHLLObject short = Some true /\ hllCount (fun _ => 7) short = Some (7, false) /\ hllSparseSet None 20 short 0 1 = None.
Proof. split_and!; by vm_compute. Qed.

End Sample.

End HllSafe.
