(* ===== verification/Crc.v ===== *)
(** Checksums of 64 bits (crc64.c, crcspeed.c, crccombine.c): the reference that works bit by bit, the tables made from it, the loops
    that take 8 bytes at a time in up to three streams, and the operators that join the checksums of two blocks.

    The byte order of the machine is the class [Host] of Endian.v.  [vec2] tells which of the two products of a matrix and
    a vector is compiled, [dual] and [tri] are the variables of the cutoffs, and a buffer is its bytes with its address.  The cache
    of the operators is the state that the functions take and return. *)

From S2P Require Import Prelude Endian.

Module Crc.

(** * Bit by bit (crc64.c) *)

Definition POLY : Z := 0xad93d23594c935a9.
Definition CRC64_REVERSED_POLY : Z := 0x95ac9329ac4bc9b5.

(** [__builtin_bswap64] *)
Definition rev8 (a : Z) : Z := le_val (reverse (le_bytes 8 a)).

(** [((data >> k) & m) | ((data & m) << k)] *)
Definition swap_groups (k m data : Z) : Z := Z.lor (Z.land (Z.shiftr data k) m) (u64 (Z.shiftl (Z.land data m) k)).

Definition crc_reflect (data data_len : Z) : option Z :=
  _ ← guard (data_len <=? 64);
  let data := swap_groups 1 0x5555555555555555 data in
  let data := swap_groups 2 0x3333333333333333 data in
  let data := swap_groups 4 0x0F0F0F0F0F0F0F0F data in
  let data := rev8 data in
  Some (Z.shiftr data (64 - data_len)).

(** The bits of a byte, from the least significant one. *)
Fixpoint crc_bits (is_ : list Z) (c crc : Z) : Z :=
  match is_ with
  | [] => crc
  | i :: is_ =>
    let bit := negb (Z.land crc 0x8000000000000000 =? 0) in
    let bit := if negb (Z.land c i =? 0) then negb bit else bit in
    let crc := u64 (Z.shiftl crc 1) in
    crc_bits is_ c (if bit then Z.lxor crc POLY else crc)
  end.

Fixpoint crc_bytes (data : bytes) (crc : Z) : Z :=
  match data with [] => crc | c :: data => crc_bytes data (crc_bits [1; 2; 4; 8; 16; 32; 64; 128] c crc) end.

Definition _crc64 (crc : Z) (data : bytes) : option Z := r ← crc_reflect (crc_bytes data crc) 64; Some (Z.lxor r 0).

(** * Tables (crcspeed.c) *)

(** An array with rows of 256 words. *)
Definition table_word (table : list (list Z)) (k : nat) (n : Z) : option Z := _ ← guard (0 <=? n); row ← table !! k; row !! Z.to_nat n.
Definition table_store (table : list (list Z)) (k : nat) (n v : Z) : option (list (list Z)) :=
  _ ← table_word table k n; row ← table !! k; Some (<[k := <[Z.to_nat n := v]> row]> table).

Definition zero_table : list (list Z) := replicate 8 (replicate 256 0).

Fixpoint init_single (crcfn : Z -> bytes -> option Z) (ns : list Z) (table : list (list Z)) : option (list (list Z)) :=
  match ns with [] => Some table | n :: ns => v ← crcfn 0 [n]; table ← table_store table 0 n v; init_single crcfn ns table end.

Fixpoint init_column (ks : list nat) (n crc : Z) (table : list (list Z)) : option (list (list Z)) :=
  match ks with
  | [] => Some table
  | k :: ks => v ← table_word table 0 (Z.land crc 0xff); let crc := Z.lxor v (Z.shiftr crc 8) in table ← table_store table k n crc; init_column ks n crc table
  end.

Fixpoint init_nested (ns : list Z) (table : list (list Z)) : option (list (list Z)) :=
  match ns with [] => Some table | n :: ns => crc ← table_word table 0 n; table ← init_column (seq 1 7) n crc table; init_nested ns table end.

Definition crcspeed64little_init (crcfn : Z -> bytes -> option Z) (table : list (list Z)) : option (list (list Z)) :=
  table ← init_single crcfn (seqZ 0 256) table;
  init_nested (seqZ 0 256) table.

Definition crcspeed64big_init (fn : Z -> bytes -> option Z) (big_table : list (list Z)) : option (list (list Z)) :=
  table ← crcspeed64little_init fn big_table; Some (map (map rev8) table).

Definition crcspeed64native_init `{Host} (fn : Z -> bytes -> option Z) (table : list (list Z)) : option (list (list Z)) :=
  if big_endian then crcspeed64big_init fn table else crcspeed64little_init fn table.

(** * Joining checksums (crccombine.c) *)

(** The cases of the switch. *)
Definition nibble_sum (n m0 m1 m2 m3 : Z) : Z :=
  match n with
  | 15 => Z.lxor (Z.lxor (Z.lxor m0 m1) m2) m3
  | 14 => Z.lxor (Z.lxor m1 m2) m3
  | 13 => Z.lxor (Z.lxor m0 m2) m3
  | 12 => Z.lxor m2 m3
  | 11 => Z.lxor (Z.lxor m0 m1) m3
  | 10 => Z.lxor m1 m3
  | 9 => Z.lxor m0 m3
  | 8 => m3
  | 7 => Z.lxor (Z.lxor m0 m1) m2
  | 6 => Z.lxor m1 m2
  | 5 => Z.lxor m0 m2
  | 4 => m2
  | 3 => Z.lxor m0 m1
  | 2 => m1
  | 1 => m0
  | _ => 0
  end.

Fixpoint times_switch_loop (fuel : nat) (mat : list Z) (vec sum : Z) : option Z :=
  if vec =? 0 then Some sum
  else
    match fuel, mat with
    | S fuel, m0 :: m1 :: m2 :: m3 :: mat => times_switch_loop fuel mat (Z.shiftr vec 4) (Z.lxor sum (nibble_sum (Z.land vec 15) m0 m1 m2 m3))
    | _, _ => None
    end.

Definition gf2_matrix_times_switch (mat : list Z) (vec : Z) : option Z := times_switch_loop 16 mat vec 0.

(** A step of [DO_CHUNK4]: [masks2\[vec & 3\]] keeps each half of the pair or clears it. *)
Fixpoint times_vec2_loop (n : nat) (mat : list Z) (vec sum0 sum1 : Z) : option Z :=
  match n with
  | O => Some (Z.lxor sum0 sum1)
  | S n =>
    match mat with
    | m0 :: m1 :: mat =>
      let mask0 := if Z.testbit (Z.land vec 3) 0 then m0 else 0 in
      let mask1 := if Z.testbit (Z.land vec 3) 1 then m1 else 0 in
      times_vec2_loop n mat (Z.shiftr vec 2) (Z.lxor sum0 mask0) (Z.lxor sum1 mask1)
    | _ => None
    end
  end.

Definition gf2_matrix_times_vec2 (mat : list Z) (vec : Z) : option Z := times_vec2_loop 32 mat vec 0 0.

Section Combine.
Context (vec2 : bool).

Definition CRC_MULTIPLY (mat : list Z) (vec : Z) : option Z := if vec2 then gf2_matrix_times_vec2 mat vec else gf2_matrix_times_switch mat vec.

Definition gf2_matrix_square (mat : list Z) (dim : Z) : option (list Z) :=
  mapM (fun n => v ← mat !! Z.to_nat n; CRC_MULTIPLY mat v) (seqZ 0 dim).

(** [combine_cache\[1\]]: the operator of one zero bit. *)
Definition first_matrix (poly dim : Z) : list Z := poly :: map (fun n => u64 (Z.shiftl 1 (n - 1))) (seqZ 1 (dim - 1)).

(** [gf2_matrix_square(combine_cache\[i\], combine_cache\[j\], dim)] *)
Definition square_row (dim : Z) (cache : list (list Z)) (i j : nat) : option (list (list Z)) :=
  mat ← cache !! j; square ← gf2_matrix_square mat dim; _ ← cache !! i; Some (<[i := square]> cache).

Fixpoint cache_loop (n : nat) (dim : Z) (cache_num : nat) (cache : list (list Z)) : option (list (list Z)) :=
  match n with O => Some cache | S n => cache ← square_row dim cache cache_num (cache_num - 1); cache_loop n dim (cache_num + 1) cache end.

Definition init_combine_cache (poly dim : Z) (cache : list (list Z)) : option (list (list Z)) :=
  let cache := <[1%nat := first_matrix poly dim]> cache in
  cache ← square_row dim cache 0 1;
  cache ← square_row dim cache 1 0;
  cache ← square_row dim cache 0 1;
  cache_loop 63 dim 1 cache.

Definition zero_cache : list (list Z) := replicate 64 (replicate 64 0).

Fixpoint combine_loop (fuel : nat) (cache : list (list Z)) (crc1 len2 : Z) (cache_num : Z) : option Z :=
  match fuel with
  | O => None
  | S fuel =>
    crc1 ← (if negb (Z.land len2 1 =? 0) then mat ← cache !! Z.to_nat cache_num; CRC_MULTIPLY mat crc1 else Some crc1);
    let len2 := Z.shiftr len2 1 in
    let cache_num := Z.land (cache_num + 1) 63 in
    if len2 =? 0 then Some crc1 else combine_loop fuel cache crc1 len2 cache_num
  end.

(** The cache and the checksum. *)
Definition crc64_combine (cache : list (list Z)) (crc1 crc2 len2 poly dim : Z) : option (list (list Z) * Z) :=
  if len2 =? 0 then Some (cache, crc1)
  else
    row ← cache !! 0%nat; c0 ← row !! 0%nat;
    cache ← (if c0 =? 0 then init_combine_cache poly dim cache else Some cache);
    crc1 ← combine_loop 64 cache crc1 len2 0;
    Some (cache, Z.lxor crc1 crc2).

(** * Eight bytes at a time (crcspeed.c) *)

Context (dual tri : Z) (little_table : list (list Z)).

Definition CRC64_LEN_MASK : Z := 0x7ffffffffffffff8.

Definition little_byte (crc b : Z) : option Z := v ← table_word little_table 0 (Z.land (Z.lxor crc b) 0xff); Some (Z.lxor v (Z.shiftr crc 8)).

(** Bytes until the address is a multiple of 8. *)
Fixpoint little_align (addr crc : Z) (buf : bytes) : option (Z * bytes) :=
  match buf with
  | [] => Some (crc, [])
  | b :: rest => if Z.land addr 7 =? 0 then Some (crc, buf) else crc ← little_byte crc b; little_align (addr + 1) crc rest
  end.

Definition DO_8_1 (crc : Z) (next : bytes) : option (Z * bytes) := bs ← load next 0 8; Some (Z.lxor crc (le_val bs), drop 8 next).

Definition DO_8_2 (crc : Z) : option Z :=
  t7 ← table_word little_table 7 (u8 crc);
  t6 ← table_word little_table 6 (u8 (Z.shiftr crc 8));
  t5 ← table_word little_table 5 (u8 (Z.shiftr crc 16));
  t4 ← table_word little_table 4 (u8 (Z.shiftr crc 24));
  t3 ← table_word little_table 3 (u8 (Z.shiftr crc 32));
  t2 ← table_word little_table 2 (u8 (Z.shiftr crc 40));
  t1 ← table_word little_table 1 (u8 (Z.shiftr crc 48));
  t0 ← table_word little_table 0 (Z.shiftr crc 56);
  Some (Z.lxor (Z.lxor (Z.lxor (Z.lxor (Z.lxor (Z.lxor (Z.lxor t7 t6) t5) t4) t3) t2) t1) t0).

(** [while (len >= 8)] with one, two and three streams; [n] is [len / 8]. *)
Fixpoint words1 (n : nat) (crc1 : Z) (next1 : bytes) : option (Z * bytes) :=
  match n with
  | O => Some (crc1, next1)
  | S n => '(crc1, next1) ← DO_8_1 crc1 next1; crc1 ← DO_8_2 crc1; words1 n crc1 next1
  end.

Fixpoint words2 (n : nat) (crc1 crc2 : Z) (next1 next2 : bytes) : option (Z * Z * bytes) :=
  match n with
  | O => Some (crc1, crc2, next2)
  | S n =>
    '(crc1, next1) ← DO_8_1 crc1 next1; '(crc2, next2) ← DO_8_1 crc2 next2;
    crc1 ← DO_8_2 crc1; crc2 ← DO_8_2 crc2;
    words2 n crc1 crc2 next1 next2
  end.

Fixpoint words3 (n : nat) (crc1 crc2 crc3 : Z) (next1 next2 next3 : bytes) : option (Z * Z * Z * bytes) :=
  match n with
  | O => Some (crc1, crc2, crc3, next3)
  | S n =>
    '(crc1, next1) ← DO_8_1 crc1 next1; '(crc2, next2) ← DO_8_1 crc2 next2; '(crc3, next3) ← DO_8_1 crc3 next3;
    crc1 ← DO_8_2 crc1; crc2 ← DO_8_2 crc2; crc3 ← DO_8_2 crc3;
    words3 n crc1 crc2 crc3 next1 next2 next3
  end.

(** The label [final]. *)
Fixpoint little_bytes (crc : Z) (buf : bytes) : option Z :=
  match buf with [] => Some crc | b :: buf => crc ← little_byte crc b; little_bytes crc buf end.

(** [CRC64_SPLIT] *)
Definition split_len (len div : Z) : Z := Z.land (len / div) CRC64_LEN_MASK.

Definition MERGE_CRC (cache : list (list Z)) (crc1 crcn len : Z) : option (list (list Z) * Z) := crc64_combine cache crc1 crcn len CRC64_REVERSED_POLY 64.

(** The two or three streams: the checksum so far, and the rest of the buffer. *)
Definition little_streams (cache : list (list Z)) (crc1 : Z) (next1 : bytes) : option (list (list Z) * Z * bytes) :=
  let olen := Z.of_nat (length next1) in
  if olen >? tri then
    let len := split_len olen 3 in
    '(crc1, crc2, crc3, next3) ← words3 (Z.to_nat (len / 8)) crc1 0 0 next1 (drop (Z.to_nat len) next1) (drop (Z.to_nat (len + len)) next1);
    '(cache, crc1) ← MERGE_CRC cache crc1 crc2 len;
    '(cache, crc1) ← MERGE_CRC cache crc1 crc3 len;
    Some (cache, crc1, next3)
  else if olen >? dual then
    let len := split_len olen 2 in
    '(crc1, crc2, next2) ← words2 (Z.to_nat (len / 8)) crc1 0 next1 (drop (Z.to_nat len) next1);
    '(cache, crc1) ← MERGE_CRC cache crc1 crc2 len;
    Some (cache, crc1, next2)
  else Some (cache, crc1, next1).

Definition crcspeed64little (cache : list (list Z)) (crc1 addr : Z) (buf : bytes) : option (list (list Z) * Z) :=
  '(cache, crc1, next1) ← (if dual <? 1 then Some (cache, crc1, buf)
    else
      '(crc1, next1) ← little_align addr crc1 buf;
      '(cache, crc1, next1) ← little_streams cache crc1 next1;
      '(crc1, next1) ← words1 (length next1 / 8) crc1 next1;
      Some (cache, crc1, next1));
  crc1 ← little_bytes crc1 next1;
  Some (cache, crc1).

End Combine.

(** * Big-endian machines (crcspeed.c) *)

Section Big.
Context (big_table : list (list Z)).

Definition big_byte (crc b : Z) : option Z := v ← table_word big_table 0 (Z.lxor (Z.shiftr crc 56) b); Some (Z.lxor v (u64 (Z.shiftl crc 8))).

Fixpoint big_align (addr crc : Z) (buf : bytes) : option (Z * bytes) :=
  match buf with
  | [] => Some (crc, [])
  | b :: rest => if Z.land addr 7 =? 0 then Some (crc, buf) else crc ← big_byte crc b; big_align (addr + 1) crc rest
  end.

Definition big_word (crc : Z) : option Z :=
  t0 ← table_word big_table 0 (Z.land crc 0xff);
  t1 ← table_word big_table 1 (Z.land (Z.shiftr crc 8) 0xff);
  t2 ← table_word big_table 2 (Z.land (Z.shiftr crc 16) 0xff);
  t3 ← table_word big_table 3 (Z.land (Z.shiftr crc 24) 0xff);
  t4 ← table_word big_table 4 (Z.land (Z.shiftr crc 32) 0xff);
  t5 ← table_word big_table 5 (Z.land (Z.shiftr crc 40) 0xff);
  t6 ← table_word big_table 6 (Z.land (Z.shiftr crc 48) 0xff);
  t7 ← table_word big_table 7 (Z.shiftr crc 56);
  Some (Z.lxor (Z.lxor (Z.lxor (Z.lxor (Z.lxor (Z.lxor (Z.lxor t0 t1) t2) t3) t4) t5) t6) t7).

(** The word in memory is read with its first byte as the most significant one. *)
Fixpoint big_words (n : nat) (crc : Z) (next : bytes) : option (Z * bytes) :=
  match n with
  | O => Some (crc, next)
  | S n => bs ← load next 0 8; crc ← big_word (Z.lxor crc (le_val (reverse bs))); big_words n crc (drop 8 next)
  end.

Fixpoint big_bytes (crc : Z) (buf : bytes) : option Z :=
  match buf with [] => Some crc | b :: buf => crc ← big_byte crc b; big_bytes crc buf end.

Definition crcspeed64big (crc addr : Z) (buf : bytes) : option Z :=
  let crc := rev8 crc in
  '(crc, next) ← big_align addr crc buf;
  '(crc, next) ← big_words (length next / 8) crc next;
  crc ← big_bytes crc next;
  Some (rev8 crc).

End Big.

(** * The checksum (crc64.c) *)

Section Native.
Context `{Host} (vec2 : bool) (dual tri : Z).

Definition crcspeed64native (table cache : list (list Z)) (crc addr : Z) (buf : bytes) : option (list (list Z) * Z) :=
  if big_endian then c ← crcspeed64big table crc addr buf; Some (cache, c) else crcspeed64little vec2 dual tri table cache crc addr buf.

Definition crc64_init : option (list (list Z)) := crcspeed64native_init _crc64 zero_table.

Definition crc64 (crc64_table cache : list (list Z)) (crc addr : Z) (s : bytes) : option (list (list Z) * Z) := crcspeed64native crc64_table cache crc addr s.

End Native.
End Crc.
