(* ===== verification/CrcSpec.v ===== *)
(** Checksums of 64 bits as division of polynomials (crc64.c, crcspeed.c, crccombine.c): the operator of one zero bit is linear for
    exclusive or, and all the ways to compute a checksum are compositions of it. *)

From S2P Require Import Prelude Bits Endian Crc.

Module CrcSpec.
Import Crc.

(** * The reference *)

(** One zero bit, on the reflected register. *)
Definition shift1 (c : Z) : Z := Z.lxor (Z.shiftr c 1) (if Z.testbit c 0 then CRC64_REVERSED_POLY else 0).

Definition zeros (n : nat) (c : Z) : Z := Nat.iter n shift1 c.

(** The checksum of some bytes, byte by byte. *)
Fixpoint crc_ref (c : Z) (bs : bytes) : Z := match bs with [] => c | b :: bs => crc_ref (zeros 8 (Z.lxor c b)) bs end.

(** * Linear operators on words *)

Record lin (f : Z -> Z) : Prop := {
  lin_range a : urange 64 a -> urange 64 (f a);
  lin_xor a b : urange 64 a -> urange 64 b -> f (Z.lxor a b) = Z.lxor (f a) (f b)
}.

Lemma xor_range a b : urange 64 a -> urange 64 b -> urange 64 (Z.lxor a b).
Proof. intros. apply urange_lxor; (done || lia). Qed.

Lemma byte_range b : urange 8 b -> urange 64 b.
Proof. unfold urange. change (2 ^ 8) with 256. lia. Qed.

Lemma zero_range : urange 64 0.
Proof. unfold urange. lia. Qed.

Create HintDb crc.
#[local] Hint Resolve xor_range byte_range zero_range lin_range : crc.

Lemma lin_zero f : lin f -> f 0 = 0.
Proof. intros H. pose proof (lin_xor f H 0 0 zero_range zero_range) as E. rewrite Z.lxor_0_l in E. rewrite E. apply Z.lxor_nilpotent. Qed.

Lemma xor_swap a b c d : Z.lxor (Z.lxor a b) (Z.lxor c d) = Z.lxor (Z.lxor a c) (Z.lxor b d).
Proof. rewrite !Z.lxor_assoc. f_equal. rewrite <- !Z.lxor_assoc. f_equal. apply Z.lxor_comm. Qed.

Lemma lin_shift1 : lin shift1.
Proof.
  split.
  - intros a Ha. unfold shift1. apply xor_range; [apply urange_shiftr; (done || lia)|]. destruct (Z.testbit a 0); unfold urange, CRC64_REVERSED_POLY; lia.
  - intros a b Ha Hb. unfold shift1. rewrite Z.shiftr_lxor, Z.lxor_spec, xor_swap. f_equal. destruct (Z.testbit a 0), (Z.testbit b 0); cbn [xorb]; rewrite ?Z.lxor_0_l, ?Z.lxor_0_r; try done.
Qed.

Lemma lin_compose f g : lin f -> lin g -> lin (fun x => f (g x)).
Proof. intros Hf Hg. split; [eauto with crc|]. intros a b Ha Hb. rewrite (lin_xor g Hg), (lin_xor f Hf); eauto with crc. Qed.

Lemma lin_zeros n : lin (zeros n).
Proof. induction n as [|n IH]; [by split|]. apply (lin_compose shift1 (zeros n)); [apply lin_shift1|done]. Qed.

Lemma zeros_add n m c : zeros (n + m) c = zeros n (zeros m c).
Proof. unfold zeros. apply Nat.iter_add. Qed.

Lemma zeros_range n c : urange 64 c -> urange 64 (zeros n c).
Proof. apply (lin_range _ (lin_zeros n)). Qed.

Lemma zeros_xor n a b : urange 64 a -> urange 64 b -> zeros n (Z.lxor a b) = Z.lxor (zeros n a) (zeros n b).
Proof. apply (lin_xor _ (lin_zeros n)). Qed.

Lemma zeros_zero n : zeros n 0 = 0.
Proof. apply lin_zero, lin_zeros. Qed.

#[local] Hint Resolve zeros_range : crc.

(** Zero bits shift out what is above them. *)
Lemma zeros_shiftl n x : zeros n (Z.shiftl x (Z.of_nat n)) = x.
Proof.
  revert x. induction n as [|n IH]; intros x; [apply Z.shiftl_0_r|]. change (zeros (S n) ?c) with (shift1 (zeros n c)). replace (Z.of_nat (S n)) with (1 + Z.of_nat n) by lia. rewrite <- Z.shiftl_shiftl by lia. rewrite IH. unfold shift1.
  rewrite Z.shiftl_spec_low by lia. rewrite Z.lxor_0_r. rewrite Z.shiftr_shiftl_l by lia. apply Z.shiftl_0_r.
Qed.

Lemma zeros8_shiftl x : zeros 8 (Z.shiftl x 8) = x.
Proof. exact (zeros_shiftl 8 x). Qed.

#[local] Opaque zeros.

(** A word as its low bits and the others. *)
Lemma split_low k x : 0 <= k -> x = Z.lxor (Z.land x (Z.ones k)) (Z.shiftl (Z.shiftr x k) k).
Proof.
  intros Hk. apply Z.bits_inj'. intros i Hi. rewrite Z.lxor_spec, Z.land_spec, Z.shiftl_spec by lia. destruct (Z.ltb_spec i k).
  - rewrite Z.ones_spec_low, andb_true_r by lia. rewrite (Z.testbit_neg_r _ (i - k)) by lia. by rewrite xorb_false_r.
  - rewrite Z.ones_spec_high, andb_false_r by lia. rewrite Z.shiftr_spec by lia. rewrite xorb_false_l. f_equal. lia.
Qed.

Lemma land_ones_range k x : 0 <= k <= 64 -> urange 64 (Z.land x (Z.ones k)).
Proof. intros Hk. rewrite Z.land_ones by lia. pose proof (Z.mod_pos_bound x (2 ^ k) ltac:(apply pow2_pos; lia)). pose proof (Z.pow_le_mono_r 2 k 64 ltac:(lia) ltac:(lia)). unfold urange. lia. Qed.

Lemma high_range k x : 0 <= k -> urange 64 x -> urange 64 (Z.shiftl (Z.shiftr x k) k).
Proof.
  intros Hk Hx. apply urange_bits; [lia|]. intros i Hi. rewrite Z.shiftl_spec by lia. destruct (Z.ltb_spec i k); [by rewrite Z.testbit_neg_r by lia|]. rewrite Z.shiftr_spec by lia. replace (i - k + k) with i by lia. by apply (testbit_above 64).
Qed.

(** The first byte and the rest of a word. *)
Lemma zeros_byte n x : urange 64 x -> zeros (n + 8) x = Z.lxor (zeros (n + 8) (Z.land x 255)) (zeros n (Z.shiftr x 8)).
Proof.
  intros Hx. rewrite (split_low 8 x) at 1 by lia. change (Z.ones 8) with 255. rewrite zeros_xor; [|apply (land_ones_range 8); lia|by apply high_range]. rewrite (zeros_add n 8 (Z.shiftl _ 8)), zeros8_shiftl. done.
Qed.

(** * Bytes *)

Lemma le_val_xor b bs : urange 8 b -> le_val (b :: bs) = Z.lxor b (Z.shiftl (le_val bs) 8).
Proof.
  intros Hb. cbn [le_val]. rewrite Z.shiftl_mul_pow2 by lia. change (2 ^ 8) with 256. rewrite (Z.mul_comm (le_val bs)). change 256 with (2 ^ 8) in *. rewrite (Z.mul_comm (2 ^ 8)). rewrite <- Z.shiftl_mul_pow2 by lia.
  rewrite Z.add_nocarry_lxor; [done|]. apply land_shiftl_0; [lia|exact Hb].
Qed.

Lemma crc_ref_range bs : bytes_ok bs -> forall c, urange 64 c -> urange 64 (crc_ref c bs).
Proof. induction 1 as [|b bs Hb _ IH]; intros c Hc; cbn [crc_ref]; [done|]. apply IH. eauto with crc. Qed.

Lemma crc_ref_app a b : forall c, crc_ref c (a ++ b) = crc_ref (crc_ref c a) b.
Proof. induction a as [|x a IH]; intros c; [done|]. cbn [app crc_ref]. apply IH. Qed.

Lemma crc_ref_xor bs : bytes_ok bs -> forall a b, urange 64 a -> urange 64 b -> crc_ref (Z.lxor a b) bs = Z.lxor (zeros (8 * length bs) a) (crc_ref b bs).
Proof.
  induction 1 as [|x bs Hx _ IH]; intros a b Ha Hb; cbn [crc_ref length]; [done|]. rewrite Z.lxor_assoc. rewrite zeros_xor by eauto with crc. rewrite IH by eauto with crc. f_equal. rewrite <- zeros_add. f_equal. lia.
Qed.

(** The checksum of the first block goes through as many zero bits as the second block has. *)
Lemma crc_ref_split bs c : bytes_ok bs -> urange 64 c -> crc_ref c bs = Z.lxor (zeros (8 * length bs) c) (crc_ref 0 bs).
Proof. intros Hb Hc. rewrite <- (Z.lxor_0_r c) at 1. by apply crc_ref_xor; [| |apply zero_range]. Qed.

(** At most 8 bytes are one word. *)
Lemma crc_ref_word bs : bytes_ok bs -> (length bs <= 8)%nat -> forall c, urange 64 c -> crc_ref c bs = zeros (8 * length bs) (Z.lxor c (le_val bs)).
Proof.
  induction 1 as [|b bs Hb Hbs IH]; intros Hl c Hc; cbn [crc_ref length] in *; [by rewrite Z.lxor_0_r|]. rewrite IH by (lia || eauto with crc). rewrite le_val_xor by done. replace (8 * S (length bs))%nat with (8 * length bs + 8)%nat by lia. rewrite zeros_add. f_equal. rewrite <- Z.lxor_assoc.
  assert (Hr : urange 64 (Z.shiftl (le_val bs) 8)).
  { pose proof (le_val_range bs Hbs) as [H1 H2]. rewrite Z.shiftl_mul_pow2 by lia. pose proof (Z.pow_le_mono_r 2 (8 * Z.of_nat (length bs)) 56 ltac:(lia) ltac:(lia)). unfold urange. change (2 ^ 8) with 256. change (2 ^ 64) with (2 ^ 56 * 256). lia. }
  rewrite (zeros_xor 8 (Z.lxor c b)) by eauto with crc. by rewrite zeros8_shiftl.
Qed.

(** * Tables *)

Definition dims (t : list (list Z)) : Prop := length t = 8%nat /\ Forall (fun row => length row = 256%nat) t.

(** Entries that hold what they should: row [k] is the operator of [k + 1] zero bytes. *)
Definition known (t : list (list Z)) (S : nat -> Z -> Prop) : Prop := forall k n, S k n -> table_word t k n = Some (zeros (8 * (k + 1)) n).

Definition table_ok (t : list (list Z)) : Prop := known t (fun k n => (k < 8)%nat /\ urange 8 n).

Lemma dims_get t k n : dims t -> (k < 8)%nat -> urange 8 n -> exists v row, table_word t k n = Some v /\ t !! k = Some row /\ length row = 256%nat.
Proof.
  intros [Hl Hr] Hk Hn. unfold urange in Hn. change (2 ^ 8) with 256 in Hn. destruct (lookup_lt_is_Some_2 t k) as [row Hrow]; [lia|]. pose proof (Forall_lookup_1 _ _ _ _ Hr Hrow) as Hlen. cbn in Hlen. destruct (lookup_lt_is_Some_2 row (Z.to_nat n)) as [v Hv]; [lia|].
  exists v, row. unfold table_word. rewrite (proj2 (Z.leb_le _ _)) by lia. cbn [guard mbind option_bind]. rewrite Hrow. cbn [mbind option_bind]. done.
Qed.

Lemma table_store_ok t k n S : dims t -> known t S -> (k < 8)%nat -> urange 8 n ->
  exists t', table_store t k n (zeros (8 * (k + 1)) n) = Some t' /\ dims t' /\ known t' (fun k' n' => S k' n' \/ k' = k /\ n' = n).
Proof.
  intros Hd HS Hk Hn. destruct (dims_get t k n Hd Hk Hn) as (v & row & Hg & Hrow & Hlen). unfold table_store. rewrite Hg. cbn [mbind option_bind]. rewrite Hrow. cbn [mbind option_bind]. eexists. split; [done|]. destruct Hd as [Hl Hr]. split; [split; [by rewrite length_insert|apply Forall_insert; [done|by rewrite length_insert]]|].
  intros k' n' HS'. unfold urange in Hn. change (2 ^ 8) with 256 in Hn. destruct (decide (k' = k /\ n' = n)) as [[-> ->]|Hne].
  - unfold table_word. rewrite (proj2 (Z.leb_le _ _)) by lia. cbn [guard mbind option_bind]. rewrite list_lookup_insert_eq by lia. cbn [mbind option_bind]. by rewrite list_lookup_insert_eq by lia.
  - destruct HS' as [HS'|]; [|done]. specialize (HS k' n' HS'). unfold table_word in HS |- *. destruct (Z.leb_spec 0 n'); [|done]. cbn [guard mbind option_bind] in *. destruct (decide (k' = k)) as [->|Hk'].
    + rewrite list_lookup_insert_eq by lia. cbn [mbind option_bind]. rewrite Hrow in HS. cbn [mbind option_bind] in HS. rewrite list_lookup_insert_ne; [done|]. intros E. apply Hne. split; [done|lia].
    + by rewrite list_lookup_insert_ne by done.
Qed.

Lemma known_mono t S S' : known t S -> (forall k n, S' k n -> S k n) -> known t S'.
Proof. intros H HS k n Hk. apply H, HS, Hk. Qed.

Lemma init_single_ok f ns : (forall n, urange 8 n -> f 0 [n] = Some (zeros 8 n)) -> Forall (urange 8) ns -> forall t S, dims t -> known t S ->
  exists t', init_single f ns t = Some t' /\ dims t' /\ known t' (fun k n => S k n \/ k = 0%nat /\ n ∈ ns).
Proof.
  intros Hf. induction 1 as [|n ns Hn _ IH]; intros t S Hd HS; cbn [init_single]; [exists t; split_and!; [done|done|]; eapply known_mono; [exact HS|]; intros k n [?|[_ ?%elem_of_nil]]; done|].
  rewrite Hf by done. cbn [mbind option_bind]. destruct (table_store_ok t 0 n S Hd HS ltac:(lia) Hn) as (t1 & Hp & Hd1 & H1). replace (8 * (0 + 1))%nat with 8%nat in Hp by lia. rewrite Hp. cbn [mbind option_bind]. destruct (IH t1 _ Hd1 H1) as (t' & -> & Hd' & H'). exists t'. split_and!; [done|done|].
  eapply known_mono; [exact H'|]. intros k m [?|[-> Hm]]; [by left; left|]. apply elem_of_cons in Hm as [->|Hm]; [left; right; done|right; done].
Qed.

(** The byte that leaves the register, through the first row. *)
Lemma first_row t c S : known t S -> (forall n, urange 8 n -> S 0%nat n) -> urange 64 c -> exists v, table_word t 0 (Z.land c 255) = Some v /\ Z.lxor v (Z.shiftr c 8) = zeros 8 c.
Proof.
  intros HS H0 Hc. exists (zeros 8 (Z.land c 255)). split.
  - apply (HS 0%nat). apply H0. unfold urange. change 255 with (Z.ones 8). rewrite Z.land_ones by lia. apply Z.mod_pos_bound. lia.
  - symmetry. apply (zeros_byte 0 c Hc).
Qed.

Lemma init_column_ok m : forall a t S n, dims t -> known t S -> (forall b, urange 8 b -> S 0%nat b) -> urange 8 n -> (1 <= a)%nat -> (a + m <= 8)%nat ->
  exists t', init_column (seq a m) n (zeros (8 * a) n) t = Some t' /\ dims t' /\ known t' (fun k b => S k b \/ (a <= k < a + m)%nat /\ b = n).
Proof.
  induction m as [|m IH]; intros a t S n Hd HS H0 Hn Ha Hm; cbn [seq init_column].
  { exists t. split_and!; [done|done|]. eapply known_mono; [exact HS|]. intros k b [?|[? _]]; [done|lia]. }
  change 0xff with 255. destruct (first_row t (zeros (8 * a) n) S HS H0) as (v & -> & Hv); [eauto with crc|]. cbn [mbind option_bind]. rewrite Hv, <- zeros_add. replace (8 + 8 * a)%nat with (8 * (a + 1))%nat by lia.
  destruct (table_store_ok t a n S Hd HS ltac:(lia) Hn) as (t1 & -> & Hd1 & H1). cbn [mbind option_bind]. destruct (IH (a + 1)%nat t1 _ n Hd1 H1) as (t' & Hrun & Hd' & H'); [intros b Hb; left; by apply H0|done|lia|lia|].
  replace (Datatypes.S a) with (a + 1)%nat by lia. rewrite Hrun. exists t'. split_and!; [done|done|]. eapply known_mono; [exact H'|]. intros k b [?|[Hk ->]]; [by left; left|]. destruct (decide (k = a)) as [->|]; [left; right; done|right; split; [lia|done]].
Qed.

Lemma init_nested_ok ns : Forall (urange 8) ns -> forall t S, dims t -> known t S -> (forall b, urange 8 b -> S 0%nat b) ->
  exists t', init_nested ns t = Some t' /\ dims t' /\ known t' (fun k n => S k n \/ (1 <= k < 8)%nat /\ n ∈ ns).
Proof.
  induction 1 as [|n ns Hn _ IH]; intros t S Hd HS H0; cbn [init_nested]; [exists t; split_and!; [done|done|]; eapply known_mono; [exact HS|]; intros k n [?|[_ ?%elem_of_nil]]; done|].
  rewrite (some_bind _ _ _ (HS 0%nat n (H0 n Hn))). cbv beta. destruct (init_column_ok 7 1 t S n Hd HS H0 Hn ltac:(lia) ltac:(lia)) as (t1 & Hc & Hd1 & H1). replace (8 * (0 + 1))%nat with (8 * 1)%nat by lia. rewrite Hc. cbn [mbind option_bind].
  destruct (IH t1 _ Hd1 H1) as (t' & -> & Hd' & H'); [intros b Hb; left; by apply H0|]. exists t'. split_and!; [done|done|]. eapply known_mono; [exact H'|]. intros k m [?|[Hk Hm]]; [by left; left|]. apply elem_of_cons in Hm as [->|Hm]; [left; right; done|right; done].
Qed.

Lemma crcspeed64little_init_ok f : (forall n, urange 8 n -> f 0 [n] = Some (zeros 8 n)) -> exists t, crcspeed64little_init f zero_table = Some t /\ dims t /\ table_ok t.
Proof.
  intros Hf. unfold crcspeed64little_init. assert (Hns : Forall (urange 8) (seqZ 0 256)) by (apply Forall_forall; intros n Hn%elem_of_seqZ; unfold urange; change (2 ^ 8) with 256; lia).
  assert (Hd : dims zero_table) by (split; [done|by apply Forall_replicate]). destruct (init_single_ok f _ Hf Hns zero_table (fun _ _ => False) Hd) as (t1 & -> & Hd1 & H1); [by intros k n []|]. cbn [mbind option_bind].
  assert (Hall : forall b, urange 8 b -> b ∈ seqZ 0 256) by (intros b Hb; apply elem_of_seqZ; unfold urange in Hb; change (2 ^ 8) with 256 in Hb; lia).
  destruct (init_nested_ok _ Hns t1 _ Hd1 H1) as (t & -> & Hd2 & H2); [intros b Hb; right; split; [done|by apply Hall]|]. exists t. split_and!; [done|done|]. eapply known_mono; [exact H2|]. intros k n [Hk Hn]. destruct (decide (k = 0%nat)) as [->|]; [left; right; split; [done|by apply Hall]|right; split; [lia|by apply Hall]].
Qed.

(** * Bit reversal *)

Lemma swap_groups_bit k m x i : 0 <= k -> (forall j, 0 <= j < 64 -> Z.testbit m j = negb (Z.testbit m (j - k))) -> 0 <= i < 64 ->
  Z.testbit (swap_groups k m x) i = Z.testbit x (if Z.testbit m i then i + k else i - k).
Proof.
  intros Hk Hm Hi. unfold swap_groups. rewrite Z.lor_spec, Z.land_spec, Z.shiftr_spec, uwrap_bits, Z.shiftl_spec, Z.land_spec by lia. rewrite (Hm i) by lia. destruct (Z.testbit m (i - k)); cbn [negb]; [by rewrite andb_false_r, andb_true_r|by rewrite andb_true_r, andb_false_r, orb_false_r].
Qed.

Lemma le_val_bit bs : bytes_ok bs -> forall i, 0 <= i -> Z.testbit (le_val bs) i = Z.testbit (default 0 (bs !! Z.to_nat (i / 8))) (i mod 8).
Proof.
  induction 1 as [|b bs Hb Hbs IH]; intros i Hi; [by rewrite !Z.bits_0|]. rewrite le_val_xor, Z.lxor_spec, Z.shiftl_spec by done. destruct (Z.ltb_spec i 8) as [Hlt|Hge].
  - rewrite (Z.testbit_neg_r _ (i - 8)) by lia. rewrite xorb_false_r, Z.div_small, Z.mod_small by lia. done.
  - rewrite (testbit_above 8 b) by done. rewrite xorb_false_l, IH by lia. replace i with (i - 8 + 1 * 8) at 3 4 by lia. rewrite Z.div_add, Z.mod_add by lia. rewrite Z2Nat.inj_add by (try apply Z.div_pos; lia). by rewrite Nat.add_1_r.
Qed.

Lemma le_bytes_at n : forall j x, (j < n)%nat -> le_bytes n x !! j = Some (u8 (Z.shiftr x (8 * Z.of_nat j))).
Proof.
  induction n as [|n IH]; intros j x Hj; [lia|]. cbn [le_bytes]. destruct j as [|j]; cbn [lookup list_lookup]; [by rewrite Z.shiftr_0_r|]. rewrite IH by lia. do 2 f_equal. change 256 with (2 ^ 8). rewrite <- Z.shiftr_div_pow2, Z.shiftr_shiftr by lia. f_equal. lia.
Qed.

Lemma rev8_range x : urange 64 (rev8 x).
Proof. unfold rev8. pose proof (le_val_range (reverse (le_bytes 8 x))) as H. rewrite length_reverse, le_bytes_length in H. apply H. unfold bytes_ok. rewrite Forall_reverse. apply le_bytes_ok. Qed.

Lemma rev8_bit x i : 0 <= i < 64 -> Z.testbit (rev8 x) i = Z.testbit x (8 * (7 - i / 8) + i mod 8).
Proof.
  intros Hi. pose proof (Z.div_pos i 8 ltac:(lia) ltac:(lia)). pose proof (Z.div_lt_upper_bound i 8 8 ltac:(lia) ltac:(lia)). pose proof (Z.mod_pos_bound i 8 ltac:(lia)). unfold rev8. rewrite le_val_bit by (lia || (unfold bytes_ok; rewrite Forall_reverse; apply le_bytes_ok)).
  rewrite reverse_lookup by (rewrite le_bytes_length; lia). rewrite le_bytes_length, le_bytes_at by lia. cbn [default from_option id]. rewrite uwrap_bits, Z.shiftr_spec by lia. f_equal. lia.
Qed.

(** The register that [_crc64] reflects. *)
Definition reflect (x : Z) : Z := rev8 (swap_groups 4 0x0F0F0F0F0F0F0F0F (swap_groups 2 0x3333333333333333 (swap_groups 1 0x5555555555555555 x))).

Lemma crc_reflect_ok x : crc_reflect x 64 = Some (reflect x).
Proof. unfold crc_reflect. cbn [guard mbind option_bind Z.leb Z.compare]. change (64 <=? 64) with true. cbn [guard mbind option_bind]. by rewrite Z.shiftr_0_r. Qed.

Lemma mask_check k m : forallb (fun j => Bool.eqb (Z.testbit m j) (negb (Z.testbit m (j - k)))) (seqZ 0 64) = true -> forall j, 0 <= j < 64 -> Z.testbit m j = negb (Z.testbit m (j - k)).
Proof. intros H j Hj. apply eqb_prop. exact (check_range 0 64 _ H j Hj). Qed.

Definition source_bit (i : Z) : Z :=
  let i := 8 * (7 - i / 8) + i mod 8 in
  let i := if Z.testbit 0x0F0F0F0F0F0F0F0F i then i + 4 else i - 4 in
  let i := if Z.testbit 0x3333333333333333 i then i + 2 else i - 2 in
  if Z.testbit 0x5555555555555555 i then i + 1 else i - 1.

Lemma reflect_bit x i : 0 <= i < 64 -> Z.testbit (reflect x) i = Z.testbit x (63 - i).
Proof.
  intros Hi. unfold reflect. rewrite rev8_bit by done.
  assert (Hall : forallb (fun i => (source_bit i =? 63 - i) && let a := 8 * (7 - i / 8) + i mod 8 in let b := if Z.testbit 0x0F0F0F0F0F0F0F0F a then a + 4 else a - 4 in let c := if Z.testbit 0x3333333333333333 b then b + 2 else b - 2 in
    (0 <=? a) && (a <? 64) && (0 <=? b) && (b <? 64) && (0 <=? c) && (c <? 64)) (seqZ 0 64) = true) by (by vm_compute).
  pose proof (check_range 0 64 _ Hall i Hi) as H. cbv zeta in H. rewrite !andb_true_iff, !Z.leb_le, !Z.ltb_lt, Z.eqb_eq in H. destruct H as [E [[[[[Ha1 Ha2] Hb1] Hb2] Hc1] Hc2]].
  rewrite !swap_groups_bit; try lia; try (apply mask_check; by vm_compute). by rewrite <- E.
Qed.

Lemma reflect_range x : urange 64 (reflect x).
Proof. apply rev8_range. Qed.

(** * Bit by bit *)

Lemma reflect_shift c : reflect (u64 (Z.shiftl c 1)) = Z.shiftr (reflect c) 1.
Proof.
  apply (bits_eq 64); [lia|apply reflect_range|apply urange_shiftr; [lia|lia|apply reflect_range]|]. intros i Hi. rewrite reflect_bit, Z.shiftr_spec, uwrap_bits, Z.shiftl_spec by lia. destruct (decide (i = 63)) as [->|].
  - rewrite (testbit_above 64 (reflect c)) by (lia || apply reflect_range). by apply Z.testbit_neg_r.
  - rewrite reflect_bit by lia. f_equal. lia.
Qed.

Lemma reflect_xor a b : reflect (Z.lxor a b) = Z.lxor (reflect a) (reflect b).
Proof. apply (bits_eq 64); [lia|apply reflect_range|apply xor_range; apply reflect_range|]. intros i Hi. by rewrite Z.lxor_spec, !reflect_bit, Z.lxor_spec by lia. Qed.

Lemma reflect_poly : reflect POLY = CRC64_REVERSED_POLY.
Proof. by vm_compute. Qed.

Lemma land_pow2 c j : 0 <= j -> negb (Z.land c (2 ^ j) =? 0) = Z.testbit c j.
Proof.
  intros Hj. destruct (Z.testbit c j) eqn:E.
  - apply negb_true_iff, Z.eqb_neq. intros H0. apply (f_equal (fun z => Z.testbit z j)) in H0. rewrite Z.land_spec, Z.pow2_bits_true, E, Z.bits_0 in H0 by done. done.
  - apply negb_false_iff, Z.eqb_eq. apply Z.bits_inj'. intros i Hi. rewrite Z.land_spec, Z.bits_0. destruct (decide (i = j)) as [->|Hne]; [by rewrite E|]. rewrite Z.pow2_bits_false by lia. apply andb_false_r.
Qed.

(** The bits of a byte are added to the register one after the other. *)
Lemma crc_bits_ok n : forall j c r, 0 <= j -> urange 8 c -> reflect (crc_bits (map (fun k => 2 ^ k) (seqZ j (Z.of_nat n))) c r) = zeros n (Z.lxor (reflect r) (Z.land (Z.shiftr c j) (Z.ones (Z.of_nat n)))).
Proof.
  induction n as [|n IH]; intros j c r Hj Hc; [change (Z.ones (Z.of_nat 0)) with 0; by rewrite Z.land_0_r, Z.lxor_0_r|].
  rewrite Nat2Z.inj_succ, seqZ_cons by lia. cbn [map crc_bits]. rewrite Z.pred_succ. change 0x8000000000000000 with (2 ^ 63). rewrite !land_pow2 by lia. rewrite <- (Z.add_1_r j), IH by (lia || done).
  set (x := if Z.testbit c j then negb (Z.testbit r 63) else Z.testbit r 63).
  assert (Hr : reflect (if x then Z.lxor (u64 (Z.shiftl r 1)) POLY else u64 (Z.shiftl r 1)) = shift1 (Z.lxor (reflect r) (if Z.testbit c j then 1 else 0))).
  { unfold shift1. rewrite Z.shiftr_lxor, Z.lxor_spec, reflect_bit by lia. replace (Z.shiftr (if Z.testbit c j then 1 else 0) 1) with 0 by (by destruct (Z.testbit c j)). rewrite Z.lxor_0_r. change (63 - 0) with 63.
    replace (xorb (Z.testbit r 63) (Z.testbit (if Z.testbit c j then 1 else 0) 0)) with x by (unfold x; destruct (Z.testbit c j), (Z.testbit r 63); done). destruct x; [by rewrite reflect_xor, reflect_shift, reflect_poly|by rewrite reflect_shift, Z.lxor_0_r]. }
  rewrite Hr. replace (Datatypes.S n) with (n + 1)%nat by lia. rewrite zeros_add. f_equal. rewrite <- Z.shiftr_shiftr by lia. set (y := Z.shiftr c j).
  assert (Hy : Z.land y (Z.ones (Z.succ (Z.of_nat n))) = Z.lxor (if Z.testbit c j then 1 else 0) (Z.shiftl (Z.land (Z.shiftr y 1) (Z.ones (Z.of_nat n))) 1)).
  { apply Z.bits_inj'. intros i Hi. rewrite Z.lxor_spec, Z.shiftl_spec, !Z.land_spec by lia. destruct (decide (i = 0)) as [->|].
    - rewrite Z.ones_spec_low, andb_true_r by lia. rewrite (Z.testbit_neg_r (Z.shiftr y 1) (0 - 1)) by lia. cbn [andb]. rewrite xorb_false_r. unfold y. rewrite Z.shiftr_spec by lia. rewrite Z.add_0_l. by destruct (Z.testbit c j).
    - rewrite Z.shiftr_spec by lia. replace (i - 1 + 1) with i by lia. replace (Z.testbit (if Z.testbit c j then 1 else 0) i) with false by (destruct (Z.testbit c j); [symmetry; apply (testbit_above 1); [unfold urange; lia|lia]|by rewrite Z.bits_0]). rewrite xorb_false_l. f_equal.
      destruct (Z.ltb_spec i (Z.succ (Z.of_nat n))); [by rewrite !Z.ones_spec_low by lia|by rewrite !Z.ones_spec_high by lia]. }
  rewrite Hy, <- Z.lxor_assoc. change (zeros 1 ?z) with (shift1 z). assert (Hone : forall b : bool, urange 64 (if b then 1 else 0)) by (intros []; unfold urange; lia). pose proof (reflect_range r) as Hrr.
  rewrite (lin_xor _ lin_shift1 (Z.lxor (reflect r) _) (Z.shiftl _ 1)).
  - f_equal. pose proof (zeros_shiftl 1 (Z.land (Z.shiftr y 1) (Z.ones (Z.of_nat n)))) as Hz. symmetry. exact Hz.
  - eauto with crc.
  - replace (Z.shiftl (Z.land (Z.shiftr y 1) (Z.ones (Z.of_nat n))) 1) with (Z.lxor (Z.land y (Z.ones (Z.succ (Z.of_nat n)))) (if Z.testbit c j then 1 else 0)) by (rewrite Hy, Z.lxor_comm, <- Z.lxor_assoc, Z.lxor_nilpotent; apply Z.lxor_0_l).
    apply xor_range; [|done]. apply urange_land_l; [lia|]. unfold y. apply urange_shiftr; [lia|done|]. by apply byte_range.
Qed.

Lemma crc_bytes_ok data : bytes_ok data -> forall c, reflect (crc_bytes data c) = crc_ref (reflect c) data.
Proof.
  induction 1 as [|b data Hb _ IH]; intros c; [done|]. cbn [crc_bytes crc_ref]. rewrite IH. f_equal. change [1; 2; 4; 8; 16; 32; 64; 128] with (map (fun k => 2 ^ k) (seqZ 0 (Z.of_nat 8))). rewrite crc_bits_ok by (done || lia).
  do 2 f_equal. rewrite Z.shiftr_0_r, Z.land_ones by lia. apply Z.mod_small. exact Hb.
Qed.

Lemma _crc64_ok data : bytes_ok data -> _crc64 0 data = Some (crc_ref 0 data).
Proof. intros H. unfold _crc64. rewrite crc_reflect_ok. cbn [mbind option_bind]. rewrite Z.lxor_0_r, crc_bytes_ok by done. by replace (reflect 0) with 0 by (by vm_compute). Qed.

End CrcSpec.
