(* ===== verification/CrcFast.v ===== *)
(** The fast ways to compute a checksum of 64 bits (crcspeed.c, crccombine.c) agree with the reference, for any address of the buffer,
    any cutoffs, either byte order of the machine and either product of matrices. *)

From S2P Require Import Prelude Bits Endian Crc CrcSpec.

Module CrcFast.
Import Crc CrcSpec.

#[local] Opaque zeros.
#[local] Hint Resolve xor_range byte_range zero_range lin_range zeros_range : crc.

(** * Matrices *)

(** The images of the powers of two. *)
Definition mat_of (f : Z -> Z) : list Z := map (fun i => f (2 ^ i)) (seqZ 0 64).

Lemma pow2_range i : 0 <= i < 64 -> urange 64 (2 ^ i).
Proof. intros Hi. unfold urange. split; [apply Z.pow_nonneg; lia|apply Z.pow_lt_mono_r; lia]. Qed.

Definition pick (b : bool) (x : Z) : Z := if b then x else 0.

Lemma pick_lin f b x : lin f -> f (pick b x) = pick b (f x).
Proof. intros Hf. destruct b; [done|]. by apply lin_zero. Qed.

(** The bits of a word below [k + 1], one more than those below [k]. *)
Lemma mod_next v k : 0 <= k -> v mod 2 ^ (k + 1) = Z.lxor (v mod 2 ^ k) (pick (Z.testbit v k) (2 ^ k)).
Proof.
  intros Hk. apply Z.bits_inj'. intros i Hi. rewrite Z.lxor_spec, !mod_pow2_bits by lia. assert (Hp : Z.testbit (pick (Z.testbit v k) (2 ^ k)) i = (i =? k) && Z.testbit v k).
  { unfold pick. destruct (Z.testbit v k); [rewrite Z.pow2_bits_eqb, andb_true_r by lia; apply Z.eqb_sym|by rewrite Z.bits_0, andb_false_r]. }
  rewrite Hp. destruct (Z.ltb_spec i k), (Z.ltb_spec i (k + 1)), (Z.eqb_spec i k); subst; try lia; cbn [andb]; rewrite ?xorb_false_r; done.
Qed.

Lemma low_range v k : 0 <= k <= 64 -> urange 64 (v mod 2 ^ k).
Proof. intros Hk. rewrite <- Z.land_ones by lia. by apply land_ones_range. Qed.

(** A linear operator on one bit more. *)
Lemma lin_next f v k : lin f -> 0 <= k < 64 -> f (v mod 2 ^ (k + 1)) = Z.lxor (f (v mod 2 ^ k)) (pick (Z.testbit v k) (f (2 ^ k))).
Proof.
  intros Hf Hk. rewrite mod_next by lia. rewrite (lin_xor f Hf); [by rewrite pick_lin|apply low_range; lia|]. unfold pick. destruct (Z.testbit v k); [by apply pow2_range|apply zero_range].
Qed.

Lemma nibble_ok n m0 m1 m2 m3 : 0 <= n < 16 -> nibble_sum n m0 m1 m2 m3 = Z.lxor (Z.lxor (Z.lxor (pick (Z.testbit n 0) m0) (pick (Z.testbit n 1) m1)) (pick (Z.testbit n 2) m2)) (pick (Z.testbit n 3) m3).
Proof.
  intros Hn. destruct n as [|p|p]; [by rewrite !Z.lxor_0_r| |lia].
  do 4 try (destruct p as [p|p|]; try lia); cbn; rewrite ?Z.lxor_0_l, ?Z.lxor_0_r; done.
Qed.

Lemma seqZ_take (f : Z -> Z) j : 0 <= j < 64 -> map (fun i => f (2 ^ i)) (seqZ j (64 - j)) = f (2 ^ j) :: map (fun i : Z => f (2 ^ i)) (seqZ (j + 1) (64 - (j + 1))).
Proof. intros Hj. rewrite seqZ_cons by lia. cbn [map]. rewrite <- Z.add_1_r. do 3 f_equal. lia. Qed.

Lemma shiftr_bit v j n k : 0 <= j -> 0 <= k < n -> Z.testbit (Z.land (Z.shiftr v j) (Z.ones n)) k = Z.testbit v (j + k).
Proof. intros Hj Hk. rewrite Z.land_spec, Z.ones_spec_low, andb_true_r, Z.shiftr_spec by lia. f_equal. lia. Qed.

Lemma times_switch_ok (f : Z -> Z) v : lin f -> urange 64 v -> forall fuel j, Z.of_nat fuel = 16 - j -> 0 <= j -> forall sum, sum = f (v mod 2 ^ (4 * j)) ->
  times_switch_loop fuel (map (fun i => f (2 ^ i)) (seqZ (4 * j) (64 - 4 * j))) (Z.shiftr v (4 * j)) sum = Some (f v).
Proof.
  intros Hf Hv fuel. induction fuel as [|fuel IH]; intros j Hj Hj0 sum Hsum; cbn [times_switch_loop].
  - replace (4 * j) with 64 in * by lia. assert (E : Z.shiftr v 64 = 0) by (rewrite Z.shiftr_div_pow2 by lia; apply Z.div_small; exact Hv). rewrite E. cbn. rewrite Hsum, Z.mod_small by exact Hv. done.
  - destruct (Z.eqb_spec (Z.shiftr v (4 * j)) 0) as [E|_].
    + rewrite Hsum, Z.mod_small; [done|]. destruct Hv as [Hv _]. split; [done|]. rewrite Z.shiftr_div_pow2 in E by lia. apply Z.div_small_iff in E; [|apply Z.pow_nonzero; lia]. pose proof (pow2_pos (4 * j) ltac:(lia)). lia.
    + rewrite !seqZ_take by lia. replace (4 * j + 1 + 1) with (4 * j + 2) by lia. replace (4 * j + 2 + 1) with (4 * j + 3) by lia. replace (4 * j + 3 + 1) with (4 * (j + 1)) by lia.
      rewrite Z.shiftr_shiftr by lia. replace (4 * j + 4) with (4 * (j + 1)) by lia. apply IH; [lia|lia|].
      change 15 with (Z.ones 4). rewrite nibble_ok by (rewrite Z.land_ones by lia; apply Z.mod_pos_bound; lia). rewrite !shiftr_bit by lia. rewrite Z.add_0_r.
      replace (4 * (j + 1)) with (4 * j + 1 + 1 + 1 + 1) by lia. rewrite !lin_next by (done || lia). replace (4 * j + 1 + 1) with (4 * j + 2) by lia. replace (4 * j + 2 + 1) with (4 * j + 3) by lia. by rewrite Hsum, !Z.lxor_assoc.
Qed.

Lemma times_vec2_ok (f : Z -> Z) v : lin f -> urange 64 v -> forall n j, Z.of_nat n = 32 - j -> 0 <= j -> forall s0 s1, Z.lxor s0 s1 = f (v mod 2 ^ (2 * j)) ->
  times_vec2_loop n (map (fun i => f (2 ^ i)) (seqZ (2 * j) (64 - 2 * j))) (Z.shiftr v (2 * j)) s0 s1 = Some (f v).
Proof.
  intros Hf Hv n. induction n as [|n IH]; intros j Hj Hj0 s0 s1 Hs; cbn [times_vec2_loop].
  - replace (2 * j) with 64 in * by lia. rewrite Hs, Z.mod_small by exact Hv. done.
  - rewrite !seqZ_take by lia. replace (2 * j + 1 + 1) with (2 * (j + 1)) by lia. rewrite Z.shiftr_shiftr by lia. replace (2 * j + 2) with (2 * (j + 1)) by lia. apply IH; [lia|lia|].
    change 3 with (Z.ones 2). rewrite !shiftr_bit by lia. rewrite Z.add_0_r, xor_swap, Hs. replace (2 * (j + 1)) with (2 * j + 1 + 1) by lia. rewrite !lin_next by (done || lia). unfold pick. by rewrite !Z.lxor_assoc.
Qed.

Lemma CRC_MULTIPLY_ok vec2 f v : lin f -> urange 64 v -> CRC_MULTIPLY vec2 (mat_of f) v = Some (f v).
Proof.
  intros Hf Hv. unfold CRC_MULTIPLY, gf2_matrix_times_vec2, gf2_matrix_times_switch, mat_of. assert (H0 : f (v mod 2 ^ 0) = 0) by (rewrite Z.mod_1_r; by apply lin_zero). rewrite <- (Z.shiftr_0_r v) at 1 2. destruct vec2.
  - apply (times_vec2_ok f v Hf Hv 32 0); [done|done|]. by rewrite Z.lxor_0_r.
  - apply (times_switch_ok f v Hf Hv 16 0); [done|done|]. done.
Qed.

Lemma mat_at f i : (i < 64)%nat -> mat_of f !! i = Some (f (2 ^ Z.of_nat i)).
Proof. intros Hi. unfold mat_of. rewrite list_lookup_fmap, lookup_seqZ_lt by lia. done. Qed.

Lemma square_ok vec2 f : lin f -> gf2_matrix_square vec2 (mat_of f) 64 = Some (mat_of (fun x => f (f x))).
Proof.
  intros Hf. unfold gf2_matrix_square. apply mapM_Some_2. unfold mat_of at 3. apply Forall2_fmap_r, Forall_Forall2_diag, Forall_forall. intros n Hn%elem_of_seqZ. rewrite mat_at by lia. cbn [mbind option_bind]. rewrite Z2Nat.id by lia. unfold compose. apply CRC_MULTIPLY_ok; [done|]. eapply lin_range; [exact Hf|]. apply pow2_range. lia.
Qed.

Lemma mat_ext f g : (forall x, f x = g x) -> mat_of f = mat_of g.
Proof. intros H. unfold mat_of. apply map_ext. intros i. apply H. Qed.

Lemma square_zeros vec2 n : gf2_matrix_square vec2 (mat_of (zeros n)) 64 = Some (mat_of (zeros (n + n))).
Proof. rewrite square_ok by apply lin_zeros. f_equal. apply mat_ext. intros x. symmetry. apply zeros_add. Qed.

(** * The cache *)

(** The first [j] operators: [2 ^ i] zero bytes. *)
Definition cache_upto (j : nat) (c : list (list Z)) : Prop := length c = 64%nat /\ forall i, (i < j)%nat -> c !! i = Some (mat_of (zeros (8 * 2 ^ i))).

Definition operators_ok (c : list (list Z)) : Prop := c = zero_cache \/ cache_upto 64 c.

Lemma first_matrix_ok : first_matrix CRC64_REVERSED_POLY 64 = mat_of (zeros 1).
Proof. change (zeros 1) with shift1. by vm_compute. Qed.

Lemma square_row_ok vec2 c i j n : length c = 64%nat -> (i < 64)%nat -> c !! j = Some (mat_of (zeros n)) -> square_row vec2 64 c i j = Some (<[i := mat_of (zeros (n + n))]> c).
Proof. intros Hl Hi Hj. unfold square_row. rewrite Hj. cbn [mbind option_bind]. rewrite square_zeros. cbn [mbind option_bind]. destruct (lookup_lt_is_Some_2 c i) as [row ->]; [lia|]. done. Qed.

Lemma cache_loop_ok vec2 n : forall j c, (j + n = 64)%nat -> (1 <= j)%nat -> cache_upto j c -> exists c', cache_loop vec2 n 64 j c = Some c' /\ cache_upto 64 c'.
Proof.
  induction n as [|n IH]; intros j c Hj Hj1 [Hl Hc]; cbn [cache_loop]; [exists c; split; [done|]; by replace 64%nat with j by lia|].
  rewrite (square_row_ok vec2 c j (j - 1) (8 * 2 ^ (j - 1))) by (lia || (apply Hc; lia)). cbn [mbind option_bind]. apply IH; [lia|lia|]. split; [by rewrite length_insert|]. intros i Hi. destruct (decide (i = j)) as [->|Hne].
  - rewrite list_lookup_insert_eq by lia. do 3 f_equal. replace j with (Datatypes.S (j - 1)) at 3 by lia. rewrite Nat.pow_succ_r'. lia.
  - rewrite list_lookup_insert_ne by done. apply Hc. lia.
Qed.

Lemma init_combine_cache_ok vec2 : exists c, init_combine_cache vec2 CRC64_REVERSED_POLY 64 zero_cache = Some c /\ cache_upto 64 c.
Proof.
  unfold init_combine_cache. rewrite first_matrix_ok. set (c0 := <[1%nat := mat_of (zeros 1)]> zero_cache). assert (H0 : length c0 = 64%nat) by (unfold c0; by rewrite length_insert).
  rewrite (square_row_ok vec2 c0 0 1 1) by (done || lia). cbn [mbind option_bind]. set (c1 := <[0%nat := _]> c0). assert (H1 : length c1 = 64%nat) by (unfold c1; by rewrite length_insert).
  rewrite (square_row_ok vec2 c1 1 0 (1 + 1)) by (done || lia). cbn [mbind option_bind]. set (c2 := <[1%nat := _]> c1). assert (H2 : length c2 = 64%nat) by (unfold c2; by rewrite length_insert).
  rewrite (square_row_ok vec2 c2 0 1 (1 + 1 + (1 + 1))) by (done || lia). cbn [mbind option_bind]. apply cache_loop_ok; [done|lia|]. split; [by rewrite length_insert|]. intros i Hi. replace i with 0%nat by lia. rewrite list_lookup_insert_eq by lia. done.
Qed.

Lemma combine_loop_ok vec2 c : cache_upto 64 c -> forall fuel k crc len, (k + fuel = 64)%nat -> urange 64 crc -> 0 < len < 2 ^ Z.of_nat fuel ->
  combine_loop vec2 fuel c crc len (Z.of_nat k) = Some (zeros (8 * 2 ^ k * Z.to_nat len) crc).
Proof.
  intros [Hl Hc] fuel. induction fuel as [|fuel IH]; intros k crc len Hk Hcrc Hlen; cbn [combine_loop]; [cbn in Hlen; lia|].
  change (Z.land len 1) with (Z.land len (Z.ones 1)). rewrite Z.land_ones by lia. change (2 ^ 1) with 2. pose proof (Z.div_mod len 2 ltac:(lia)) as Hd. pose proof (Z.mod_pos_bound len 2 ltac:(lia)) as Hm. rewrite Z.shiftr_div_pow2 by lia. change (2 ^ 1) with 2. set (crc' := zeros (8 * 2 ^ k * Z.to_nat (len mod 2)) crc).
  assert (E : (if negb (len mod 2 =? 0) then mat ← c !! Z.to_nat (Z.of_nat k); CRC_MULTIPLY vec2 mat crc else Some crc) = Some crc').
  { unfold crc'. destruct (Z.eqb_spec (len mod 2) 0) as [E|E]; cbn [negb].
    - rewrite E, Nat.mul_0_r. done.
    - replace (len mod 2) with 1 by lia. rewrite Nat2Z.id, Hc by lia. cbn [mbind option_bind]. rewrite CRC_MULTIPLY_ok by (done || apply lin_zeros). f_equal. f_equal. change (Z.to_nat 1) with 1%nat. lia. }
  rewrite E. cbn [mbind option_bind]. assert (Hpos : 0 <= len / 2) by (apply Z.div_pos; lia). destruct (Z.eqb_spec (len / 2) 0) as [E0|E0].
  - unfold crc'. do 3 f_equal. lia.
  - assert (Hlt : len / 2 < 2 ^ Z.of_nat fuel) by (apply Z.div_lt_upper_bound; [lia|]; rewrite Nat2Z.inj_succ, Z.pow_succ_r in Hlen by lia; lia).
    assert (Hfuel : (0 < fuel)%nat) by (destruct fuel; [cbn in Hlt; lia|lia]). assert (Ek : Z.land (Z.of_nat k + 1) 63 = Z.of_nat (k + 1)) by (change 63 with (Z.ones 6); rewrite Z.land_ones by lia; change (2 ^ 6) with 64; rewrite Z.mod_small by lia; lia). rewrite Ek, IH by (lia || (unfold crc'; eauto with crc)).
    unfold crc'. rewrite <- zeros_add. do 2 f_equal. rewrite Nat.add_1_r, Nat.pow_succ_r'. assert (En : Z.to_nat len = (2 * Z.to_nat (len / 2) + Z.to_nat (len mod 2))%nat) by lia. rewrite En. set (p := (2 ^ k)%nat). nia.
Qed.

Lemma crc64_combine_ok vec2 c crc1 crc2 len : operators_ok c -> urange 64 crc1 -> 0 <= len < 2 ^ 64 -> (len = 0 -> crc2 = 0) ->
  exists c', crc64_combine vec2 c crc1 crc2 len CRC64_REVERSED_POLY 64 = Some (c', Z.lxor (zeros (8 * Z.to_nat len) crc1) crc2) /\ operators_ok c'.
Proof.
  intros Hc Hcrc Hlen H0. unfold crc64_combine. destruct (Z.eqb_spec len 0) as [->|Hne]; [rewrite (H0 eq_refl); exists c; split; [|done]; by rewrite Z.lxor_0_r|].
  assert (Hfull : exists c', cache_upto 64 c' /\ (row ← c !! 0%nat; c0 ← row !! 0%nat; if c0 =? 0 then init_combine_cache vec2 CRC64_REVERSED_POLY 64 c else Some c) = Some c').
  { destruct Hc as [->|Hc].
    - destruct (init_combine_cache_ok vec2) as (c' & Hi & Hc'). exists c'. split; [done|]. exact Hi.
    - exists c. split; [done|]. rewrite (proj2 Hc 0%nat) by lia. cbn [mbind option_bind]. rewrite mat_at by lia. cbn [mbind option_bind]. assert (Hnz : (zeros (8 * 2 ^ 0) (2 ^ Z.of_nat 0) =? 0) = false) by (by vm_compute). by rewrite Hnz. }
  destruct Hfull as (c' & Hc' & E). destruct (c !! 0%nat) as [row|]; [|done]. cbn [mbind option_bind] in *. destruct (row !! 0%nat) as [x|]; [|done]. cbn [mbind option_bind] in *. rewrite E. cbn [mbind option_bind].
  pose proof (combine_loop_ok vec2 c' Hc' 64 0 crc1 len eq_refl Hcrc ltac:(lia)) as Hloop. change (Z.of_nat 0) with 0 in Hloop. rewrite Hloop. cbn [mbind option_bind]. exists c'. split; [|by right]. do 3 f_equal.
Qed.

(** * Bytes and words on a little-endian machine *)

Lemma shiftr_byte b : urange 8 b -> Z.shiftr b 8 = 0.
Proof. intros Hb. rewrite Z.shiftr_div_pow2 by lia. apply Z.div_small. exact Hb. Qed.

Section Little.
Context (t : list (list Z)) (Ht : table_ok t).

Lemma row_zero n : urange 8 n -> table_word t 0 n = Some (zeros 8 n).
Proof. intros Hn. apply (Ht 0%nat n). split; [lia|done]. Qed.

Lemma little_byte_ok c b : urange 64 c -> urange 8 b -> little_byte t c b = Some (zeros 8 (Z.lxor c b)).
Proof.
  intros Hc Hb. unfold little_byte. destruct (first_row t (Z.lxor c b) _ Ht) as (v & Hv & E); [intros n Hn; split; [lia|done]|eauto with crc|]. change 0xff with 255. rewrite Hv. cbn [mbind option_bind]. rewrite Z.shiftr_lxor, (shiftr_byte b Hb), Z.lxor_0_r in E. by rewrite E.
Qed.

Lemma little_bytes_ok buf : bytes_ok buf -> forall c, urange 64 c -> little_bytes t c buf = Some (crc_ref c buf).
Proof. induction 1 as [|b buf Hb _ IH]; intros c Hc; cbn [little_bytes crc_ref]; [done|]. rewrite little_byte_ok by done. cbn [mbind option_bind]. apply IH. eauto with crc. Qed.

Lemma little_align_ok buf : bytes_ok buf -> forall addr c, urange 64 c -> exists pre rest, buf = pre ++ rest /\ little_align t addr c buf = Some (crc_ref c pre, rest).
Proof.
  induction 1 as [|b buf Hb _ IH]; intros addr c Hc; cbn [little_align]; [by exists [], []|]. destruct (Z.land addr 7 =? 0); [by exists [], (b :: buf)|]. rewrite little_byte_ok by done. cbn [mbind option_bind].
  destruct (IH (addr + 1) (zeros 8 (Z.lxor c b))) as (pre & rest & -> & Hrun); [eauto with crc|]. by exists (b :: pre), rest.
Qed.

Lemma table_row k m n : (k < 8)%nat -> urange 8 n -> m = (8 * k + 8)%nat -> table_word t k n = Some (zeros m n).
Proof. intros Hk Hn ->. rewrite (Ht k n) by done. do 2 f_equal. lia. Qed.

(** The next byte of a word. *)
Lemma word_step n m x k k' : urange 64 x -> 0 <= k -> m = (n + 8)%nat -> k' = k + 8 -> zeros m (Z.shiftr x k) = Z.lxor (zeros m (u8 (Z.shiftr x k))) (zeros n (Z.shiftr x k')).
Proof.
  intros Hx Hk -> ->. rewrite zeros_byte by (apply urange_shiftr; (done || lia)). rewrite Z.shiftr_shiftr by lia. do 2 f_equal. change 255 with (Z.ones 8). by rewrite Z.land_ones by lia.
Qed.

Lemma DO_8_2_ok x : urange 64 x -> DO_8_2 t x = Some (zeros 64 x).
Proof.
  intros Hx. assert (H56 : urange 8 (Z.shiftr x 56)).
  { unfold urange in *. rewrite Z.shiftr_div_pow2 by lia. split; [apply Z.div_pos; lia|]. apply Z.div_lt_upper_bound; [lia|]. change (2 ^ 56 * 2 ^ 8) with (2 ^ 64). lia. }
  unfold DO_8_2. rewrite (table_row 7 64), (table_row 6 56), (table_row 5 48), (table_row 4 40), (table_row 3 32), (table_row 2 24), (table_row 1 16), (table_row 0 8) by (lia || exact H56 || (apply uwrap_range; lia)). cbn [mbind option_bind]. f_equal.
  pose proof (word_step 56 64 x 0 8) as W0. rewrite Z.shiftr_0_r in W0. rewrite W0, (word_step 48 56 x 8 16), (word_step 40 48 x 16 24), (word_step 32 40 x 24 32), (word_step 24 32 x 32 40), (word_step 16 24 x 40 48), (word_step 8 16 x 48 56) by (done || lia). by rewrite !Z.lxor_assoc.
Qed.

Lemma DO_8_ok c next : bytes_ok next -> (8 <= length next)%nat -> urange 64 c ->
  exists x, DO_8_1 c next = Some (x, drop 8 next) /\ DO_8_2 t x = Some (crc_ref c (take 8 next)) /\ urange 64 (crc_ref c (take 8 next)) /\ bytes_ok (drop 8 next).
Proof.
  intros Hn Hl Hc. assert (Hbs : bytes_ok (take 8 next)) by (by apply Forall_take). assert (Hlen : length (take 8 next) = 8%nat) by (rewrite length_take; lia). exists (Z.lxor c (le_val (take 8 next))). unfold DO_8_1. rewrite load_Some by lia. cbn [mbind option_bind]. rewrite drop_0. split; [done|].
  pose proof (le_val_range _ Hbs) as Hr. rewrite Hlen in Hr. change (8 * Z.of_nat 8) with 64 in Hr. split; [|split; [by apply crc_ref_range|by apply Forall_drop]]. rewrite DO_8_2_ok by eauto with crc. rewrite (crc_ref_word _ Hbs) by (done || lia). by rewrite Hlen.
Qed.

(** A step of a stream is added to what was done. *)
Lemma take_step n (next : bytes) c : crc_ref (crc_ref c (take 8 next)) (take (8 * n) (drop 8 next)) = crc_ref c (take (8 * Datatypes.S n) next).
Proof. rewrite <- crc_ref_app. f_equal. rewrite take_take_drop. f_equal. lia. Qed.

Lemma drop_step n (next : bytes) : drop (8 * n) (drop 8 next) = drop (8 * Datatypes.S n) next.
Proof. rewrite drop_drop. f_equal. lia. Qed.

Lemma words1_ok n : forall c next, bytes_ok next -> (8 * n <= length next)%nat -> urange 64 c -> words1 t n c next = Some (crc_ref c (take (8 * n) next), drop (8 * n) next).
Proof.
  induction n as [|n IH]; intros c next Hn Hl Hc; cbn [words1]; [by rewrite Nat.mul_0_r|]. destruct (DO_8_ok c next Hn ltac:(lia) Hc) as (x & -> & H2 & Hr & Hd). cbn [mbind option_bind]. rewrite H2. cbn [mbind option_bind]. rewrite IH by (done || rewrite length_drop; lia). by rewrite take_step, drop_step.
Qed.

Lemma words2_ok n : forall c1 c2 n1 n2, bytes_ok n1 -> bytes_ok n2 -> (8 * n <= length n1)%nat -> (8 * n <= length n2)%nat -> urange 64 c1 -> urange 64 c2 ->
  words2 t n c1 c2 n1 n2 = Some (crc_ref c1 (take (8 * n) n1), crc_ref c2 (take (8 * n) n2), drop (8 * n) n2).
Proof.
  induction n as [|n IH]; intros c1 c2 n1 n2 B1 B2 L1 L2 H1 H2; cbn [words2]; [by rewrite Nat.mul_0_r|]. destruct (DO_8_ok c1 n1 B1 ltac:(lia) H1) as (x & -> & X1 & X2 & X3). destruct (DO_8_ok c2 n2 B2 ltac:(lia) H2) as (y & -> & Y1 & Y2 & Y3). cbn [mbind option_bind]. rewrite X1, Y1. cbn [mbind option_bind].
  rewrite IH by (done || rewrite length_drop; lia). by rewrite !take_step, drop_step.
Qed.

Lemma words3_ok n : forall c1 c2 c3 n1 n2 n3, bytes_ok n1 -> bytes_ok n2 -> bytes_ok n3 -> (8 * n <= length n1)%nat -> (8 * n <= length n2)%nat -> (8 * n <= length n3)%nat -> urange 64 c1 -> urange 64 c2 -> urange 64 c3 ->
  words3 t n c1 c2 c3 n1 n2 n3 = Some (crc_ref c1 (take (8 * n) n1), crc_ref c2 (take (8 * n) n2), crc_ref c3 (take (8 * n) n3), drop (8 * n) n3).
Proof.
  induction n as [|n IH]; intros c1 c2 c3 n1 n2 n3 B1 B2 B3 L1 L2 L3 H1 H2 H3; cbn [words3]; [by rewrite Nat.mul_0_r|].
  destruct (DO_8_ok c1 n1 B1 ltac:(lia) H1) as (x & -> & X1 & X2 & X3). destruct (DO_8_ok c2 n2 B2 ltac:(lia) H2) as (y & -> & Y1 & Y2 & Y3). destruct (DO_8_ok c3 n3 B3 ltac:(lia) H3) as (z & -> & Z1 & Z2 & Z3). cbn [mbind option_bind]. rewrite X1, Y1, Z1. cbn [mbind option_bind].
  rewrite IH by (done || rewrite length_drop; lia). by rewrite !take_step, drop_step.
Qed.

(** * Streams *)

Lemma split_len_ok len div : 0 <= len < 2 ^ 63 -> 2 <= div -> exists n : nat, split_len len div = 8 * Z.of_nat n /\ div * (8 * Z.of_nat n) <= len.
Proof.
  intros Hlen Hdiv. unfold split_len, CRC64_LEN_MASK. set (x := len / div). assert (Hx : 0 <= x) by (apply Z.div_pos; lia). assert (Hxd : div * x <= len) by (apply Z.mul_div_le; lia). assert (Hx62 : x < 2 ^ 62) by (apply Z.div_lt_upper_bound; [lia|nia]).
  exists (Z.to_nat (x / 8)). rewrite Z2Nat.id by (apply Z.div_pos; lia). assert (E : Z.land x 0x7ffffffffffffff8 = 8 * (x / 8)).
  { change 0x7ffffffffffffff8 with (Z.shiftl (Z.ones 60) 3). rewrite (split_low 3 x) at 1 by lia. replace (8 * (x / 8)) with (Z.shiftl (Z.shiftr x 3) 3) by (rewrite Z.shiftl_mul_pow2, Z.shiftr_div_pow2 by lia; change (2 ^ 3) with 8; lia). apply Z.bits_inj'. intros i Hi.
    rewrite Z.land_spec, Z.lxor_spec, Z.land_spec, !Z.shiftl_spec by lia. destruct (Z.ltb_spec i 3) as [H3|H3]; [rewrite !(Z.testbit_neg_r _ (i - 3)) by lia; apply andb_false_r|]. rewrite (Z.ones_spec_high 3) by lia. rewrite andb_false_r, xorb_false_l.
    destruct (Z.ltb_spec (i - 3) 60) as [H60|H60]; [by rewrite Z.ones_spec_low, andb_true_r by lia|]. rewrite Z.ones_spec_high, andb_false_r by lia. symmetry. rewrite Z.shiftr_spec by lia. apply (testbit_above 62); [unfold urange; lia|lia]. }
  rewrite E. split; [done|]. pose proof (Z.mul_div_le x 8 ltac:(lia)). nia.
Qed.

Lemma MERGE_CRC_ok vec2 cache c bs : operators_ok cache -> urange 64 c -> bytes_ok bs -> Z.of_nat (length bs) < 2 ^ 63 ->
  exists cache', MERGE_CRC vec2 cache c (crc_ref 0 bs) (Z.of_nat (length bs)) = Some (cache', crc_ref c bs) /\ operators_ok cache'.
Proof.
  intros Hca Hc Hb Hl. unfold MERGE_CRC. destruct (crc64_combine_ok vec2 cache c (crc_ref 0 bs) (Z.of_nat (length bs)) Hca Hc) as (cache' & -> & Hc'); [lia|intros E; destruct bs; [done|cbn in E; lia]|]. exists cache'. split; [|done]. by rewrite Nat2Z.id, <- crc_ref_split.
Qed.

Lemma little_streams_ok vec2 dual tri cache c next : operators_ok cache -> urange 64 c -> bytes_ok next -> Z.of_nat (length next) < 2 ^ 63 ->
  exists cache' pre rest, next = pre ++ rest /\ little_streams vec2 dual tri t cache c next = Some (cache', crc_ref c pre, rest) /\ operators_ok cache'.
Proof.
  intros Hca Hc Hb Hl. unfold little_streams. assert (Hdrop : forall k, bytes_ok (drop k next)) by (intros k; by apply Forall_drop). assert (Htake : forall k l, bytes_ok l -> bytes_ok (take k l)) by (intros k l Hl'; by apply Forall_take).
  assert (Hd8 : forall n : nat, Z.to_nat (8 * Z.of_nat n / 8) = n) by (intros n; rewrite Z.mul_comm, Z.div_mul by lia; lia). destruct (_ >? tri); [|destruct (_ >? dual)]; [| |by exists cache, [], next].
  - destruct (split_len_ok (Z.of_nat (length next)) 3 ltac:(lia) ltac:(lia)) as (n & -> & Hn). rewrite Hd8. replace (Z.to_nat (8 * Z.of_nat n)) with (8 * n)%nat by lia. replace (Z.to_nat (8 * Z.of_nat n + 8 * Z.of_nat n)) with (16 * n)%nat by lia.
    rewrite words3_ok by (done || apply zero_range || rewrite ?length_drop; lia). cbn [mbind option_bind]. set (a := take (8 * n) next). set (b := take (8 * n) (drop (8 * n) next)). set (d := take (8 * n) (drop (16 * n) next)).
    assert (Lb : 8 * Z.of_nat n = Z.of_nat (length b)) by (unfold b; rewrite length_take, length_drop; lia). assert (Ld : 8 * Z.of_nat n = Z.of_nat (length d)) by (unfold d; rewrite length_take, length_drop; lia).
    destruct (MERGE_CRC_ok vec2 cache (crc_ref c a) b Hca) as (cache1 & E1 & Hc1); [by apply crc_ref_range; [apply Htake|]|by apply Htake|lia|]. rewrite <- Lb in E1. rewrite E1. cbn [mbind option_bind].
    destruct (MERGE_CRC_ok vec2 cache1 (crc_ref (crc_ref c a) b) d Hc1) as (cache2 & E2 & Hc2); [apply crc_ref_range; [by apply Htake|apply crc_ref_range; [by apply Htake|done]]|by apply Htake|lia|]. rewrite <- Ld in E2. rewrite E2. cbn [mbind option_bind].
    exists cache2, (a ++ b ++ d), (drop (8 * n) (drop (16 * n) next)). split; [|split; [by rewrite !crc_ref_app|done]]. unfold a, b, d. rewrite <- !app_assoc, take_drop. replace (drop (16 * n) next) with (drop (8 * n) (drop (8 * n) next)) by (rewrite drop_drop; f_equal; lia). by rewrite !take_drop.
  - destruct (split_len_ok (Z.of_nat (length next)) 2 ltac:(lia) ltac:(lia)) as (n & -> & Hn). rewrite Hd8. replace (Z.to_nat (8 * Z.of_nat n)) with (8 * n)%nat by lia. rewrite words2_ok by (done || apply zero_range || rewrite ?length_drop; lia). cbn [mbind option_bind]. set (a := take (8 * n) next). set (b := take (8 * n) (drop (8 * n) next)).
    assert (Lb : 8 * Z.of_nat n = Z.of_nat (length b)) by (unfold b; rewrite length_take, length_drop; lia). destruct (MERGE_CRC_ok vec2 cache (crc_ref c a) b Hca) as (cache1 & E1 & Hc1); [by apply crc_ref_range; [apply Htake|]|by apply Htake|lia|]. rewrite <- Lb in E1. rewrite E1. cbn [mbind option_bind].
    exists cache1, (a ++ b), (drop (8 * n) (drop (8 * n) next)). split; [|split; [by rewrite !crc_ref_app|done]]. unfold a, b. rewrite <- !app_assoc. by rewrite !take_drop.
Qed.

Lemma crcspeed64little_ok vec2 dual tri cache c addr buf : operators_ok cache -> urange 64 c -> bytes_ok buf -> Z.of_nat (length buf) < 2 ^ 63 ->
  exists cache', crcspeed64little vec2 dual tri t cache c addr buf = Some (cache', crc_ref c buf) /\ operators_ok cache'.
Proof.
  intros Hca Hc Hb Hl. unfold crcspeed64little. destruct (dual <? 1); [cbn [mbind option_bind]; rewrite little_bytes_ok by done; by exists cache|].
  destruct (little_align_ok buf Hb addr c Hc) as (pre & rest & -> & ->). cbn [mbind option_bind]. apply Forall_app in Hb as [Hpre Hrest]. rewrite length_app in Hl. assert (H1 : urange 64 (crc_ref c pre)) by (by apply crc_ref_range).
  destruct (little_streams_ok vec2 dual tri cache (crc_ref c pre) rest Hca H1 Hrest ltac:(lia)) as (cache' & p2 & r2 & -> & -> & Hc'). cbn [mbind option_bind]. apply Forall_app in Hrest as [Hp2 Hr2]. assert (H2 : urange 64 (crc_ref (crc_ref c pre) p2)) by (by apply crc_ref_range).
  rewrite words1_ok by (done || (pose proof (Nat.Div0.mul_div_le (length r2) 8); lia)). cbn [mbind option_bind]. rewrite little_bytes_ok; [|by apply Forall_drop|apply crc_ref_range; [by apply Forall_take|done]]. cbn [mbind option_bind]. exists cache'. split; [|done]. by rewrite <- !crc_ref_app, take_drop.
Qed.

End Little.

(** * Bytes and words on a big-endian machine *)

Lemma rev8_xor a b : rev8 (Z.lxor a b) = Z.lxor (rev8 a) (rev8 b).
Proof. apply (bits_eq 64); [lia|apply rev8_range|apply xor_range; apply rev8_range|]. intros i Hi. by rewrite Z.lxor_spec, !rev8_bit, Z.lxor_spec by lia. Qed.

Lemma rev8_bytes bs : bytes_ok bs -> length bs = 8%nat -> rev8 (le_val bs) = le_val (reverse bs).
Proof. intros Hb Hl. unfold rev8. rewrite <- Hl. by rewrite le_bytes_val. Qed.

Lemma rev8_involutive x : urange 64 x -> rev8 (rev8 x) = x.
Proof.
  intros Hx. unfold rev8 at 2. rewrite rev8_bytes; [|apply Forall_reverse, le_bytes_ok|by rewrite length_reverse, le_bytes_length]. rewrite reverse_involutive, le_val_bytes. unfold uwrap. apply Z.mod_small. exact Hx.
Qed.

(** The byte at one end of a word is the byte at the other end of the reversed one. *)
Lemma rev8_byte x k k' : 0 <= k <= 7 -> k' = 7 - k -> Z.land (Z.shiftr (rev8 x) (8 * k)) 255 = Z.land (Z.shiftr x (8 * k')) 255.
Proof.
  intros Hk ->. change 255 with (Z.ones 8). apply Z.bits_inj'. intros i Hi. rewrite !Z.land_spec. destruct (Z.ltb_spec i 8) as [Hlt|Hge]; [|by rewrite !(Z.ones_spec_high 8), !andb_false_r by lia].
  rewrite !Z.shiftr_spec, rev8_bit by lia. replace ((i + 8 * k) / 8) with k by (rewrite Z.add_comm, Z.mul_comm, Z.div_add_l, Z.div_small by lia; lia). replace ((i + 8 * k) mod 8) with i by (rewrite Z.mul_comm, Z.mod_add, Z.mod_small by lia; done). do 2 f_equal. lia.
Qed.

Lemma top_byte x : urange 64 x -> Z.shiftr x 56 = Z.land (Z.shiftr x 56) 255.
Proof.
  intros Hx. change 255 with (Z.ones 8). rewrite Z.land_ones by lia. rewrite Z.mod_small; [done|]. rewrite Z.shiftr_div_pow2 by lia. unfold urange in Hx. split; [apply Z.div_pos; lia|]. apply Z.div_lt_upper_bound; [lia|]. change (2 ^ 56 * 2 ^ 8) with (2 ^ 64). lia.
Qed.

Lemma rev8_shift c : urange 64 c -> rev8 (Z.shiftr c 8) = u64 (Z.shiftl (rev8 c) 8).
Proof.
  intros Hc. apply (bits_eq 64); [lia|apply rev8_range|apply uwrap_range; lia|]. intros i Hi. rewrite uwrap_bits, Z.shiftl_spec, rev8_bit by lia. pose proof (Z.div_mod i 8 ltac:(lia)) as Hd. pose proof (Z.mod_pos_bound i 8 ltac:(lia)) as Hm. pose proof (Z.div_lt_upper_bound i 8 8 ltac:(lia) ltac:(lia)) as Hq. rewrite Z.shiftr_spec by lia.
  destruct (Z.ltb_spec i 8) as [Hlt|Hge]; [rewrite (Z.testbit_neg_r _ (i - 8)) by lia; rewrite Z.div_small, Z.mod_small by lia; apply (testbit_above 64); [done|lia]|].
  rewrite rev8_bit by lia. replace (i - 8) with (i + (-1) * 8) by lia. rewrite Z.div_add, Z.mod_add by lia. f_equal. lia.
Qed.

Lemma xor_reverse a b c d e f g h : Z.lxor (Z.lxor (Z.lxor (Z.lxor (Z.lxor (Z.lxor (Z.lxor a b) c) d) e) f) g) h = Z.lxor h (Z.lxor g (Z.lxor f (Z.lxor e (Z.lxor d (Z.lxor c (Z.lxor b a)))))).
Proof. rewrite (Z.lxor_comm b a). rewrite (Z.lxor_comm c), (Z.lxor_comm d), (Z.lxor_comm e), (Z.lxor_comm f), (Z.lxor_comm g), (Z.lxor_comm h). done. Qed.

Section Big.
Context (t : list (list Z)) (Ht : table_ok t).

Definition reversed : list (list Z) := map (map rev8) t.

Lemma reversed_get k n v : table_word t k n = Some v -> table_word reversed k n = Some (rev8 v).
Proof.
  unfold table_word, reversed. destruct (0 <=? n); [|done]. cbn [guard mbind option_bind]. rewrite list_lookup_fmap. destruct (t !! k) as [row|]; [|done]. cbn [mbind option_bind fmap option_fmap option_map]. rewrite list_lookup_fmap. by intros ->.
Qed.

Lemma big_entry k m n : (k < 8)%nat -> urange 8 n -> m = (8 * k + 8)%nat -> table_word reversed k n = Some (rev8 (zeros m n)).
Proof. intros Hk Hn Hm. apply reversed_get. by apply table_row. Qed.

Lemma low_byte x : urange 8 (Z.land x 255).
Proof. change 255 with (Z.ones 8). rewrite Z.land_ones by lia. apply Z.mod_pos_bound. lia. Qed.

Lemma big_byte_ok c b : urange 64 c -> urange 8 b -> big_byte reversed (rev8 c) b = Some (rev8 (zeros 8 (Z.lxor c b))).
Proof.
  intros Hc Hb. unfold big_byte. assert (E : Z.lxor (Z.shiftr (rev8 c) 56) b = Z.land (Z.lxor c b) 255).
  { rewrite top_byte by apply rev8_range. change 56 with (8 * 7). rewrite (rev8_byte c 7 0) by (done || lia). rewrite Z.mul_0_r, Z.shiftr_0_r. rewrite <- (Z.mod_small b (2 ^ 8)) at 1 by exact Hb. rewrite <- Z.land_ones by lia. change 255 with (Z.ones 8). apply Z.bits_inj'. intros i Hi. rewrite !Z.lxor_spec, !Z.land_spec, Z.lxor_spec. by destruct (Z.testbit c i), (Z.testbit b i), (Z.testbit (Z.ones 8) i). }
  rewrite E. destruct (first_row t (Z.lxor c b) _ Ht) as (v & Hv & Ez); [intros n Hn; split; [lia|done]|eauto with crc|]. rewrite (reversed_get _ _ _ Hv). cbn [mbind option_bind]. rewrite <- Ez, rev8_xor. do 2 f_equal.
  rewrite Z.shiftr_lxor, (shiftr_byte b Hb), Z.lxor_0_r. symmetry. by apply rev8_shift.
Qed.

Lemma big_bytes_ok buf : bytes_ok buf -> forall c, urange 64 c -> big_bytes reversed (rev8 c) buf = Some (rev8 (crc_ref c buf)).
Proof. induction 1 as [|b buf Hb _ IH]; intros c Hc; cbn [big_bytes crc_ref]; [done|]. rewrite big_byte_ok by done. cbn [mbind option_bind]. apply IH. eauto with crc. Qed.

Lemma big_align_ok buf : bytes_ok buf -> forall addr c, urange 64 c -> exists pre rest, buf = pre ++ rest /\ big_align reversed addr (rev8 c) buf = Some (rev8 (crc_ref c pre), rest).
Proof.
  induction 1 as [|b buf Hb _ IH]; intros addr c Hc; cbn [big_align]; [by exists [], []|]. destruct (Z.land addr 7 =? 0); [by exists [], (b :: buf)|]. rewrite big_byte_ok by done. cbn [mbind option_bind].
  destruct (IH (addr + 1) (zeros 8 (Z.lxor c b))) as (pre & rest & -> & Hrun); [eauto with crc|]. by exists (b :: pre), rest.
Qed.

Lemma big_word_ok x : urange 64 x -> big_word reversed (rev8 x) = Some (rev8 (zeros 64 x)).
Proof.
  intros Hx. unfold big_word. change 0xff with 255. pose proof (low_byte) as L.
  pose proof (rev8_byte x 0 7 ltac:(lia) eq_refl) as E0. rewrite Z.mul_0_r, Z.shiftr_0_r in E0.
  pose proof (rev8_byte x 1 6 ltac:(lia) eq_refl) as E1. pose proof (rev8_byte x 2 5 ltac:(lia) eq_refl) as E2. pose proof (rev8_byte x 3 4 ltac:(lia) eq_refl) as E3. pose proof (rev8_byte x 4 3 ltac:(lia) eq_refl) as E4. pose proof (rev8_byte x 5 2 ltac:(lia) eq_refl) as E5. pose proof (rev8_byte x 6 1 ltac:(lia) eq_refl) as E6. pose proof (rev8_byte x 7 0 ltac:(lia) eq_refl) as E7.
  change (8 * 1) with 8 in *. change (8 * 2) with 16 in *. change (8 * 3) with 24 in *. change (8 * 4) with 32 in *. change (8 * 5) with 40 in *. change (8 * 6) with 48 in *. change (8 * 7) with 56 in *. change (8 * 0) with 0 in *.
  rewrite (top_byte (rev8 x)) by apply rev8_range. rewrite E0, E1, E2, E3, E4, E5, E6, E7. rewrite (big_entry 0 8), (big_entry 1 16), (big_entry 2 24), (big_entry 3 32), (big_entry 4 40), (big_entry 5 48), (big_entry 6 56), (big_entry 7 64) by (lia || apply L). cbn [mbind option_bind]. f_equal. rewrite <- !rev8_xor. f_equal.
  assert (W : forall n m k k', 0 <= k -> m = (n + 8)%nat -> k' = k + 8 -> zeros m (Z.shiftr x k) = Z.lxor (zeros m (Z.land (Z.shiftr x k) 255)) (zeros n (Z.shiftr x k'))).
  { intros n m k k' Hk -> ->. rewrite zeros_byte by (apply urange_shiftr; (done || lia)). by rewrite Z.shiftr_shiftr by lia. }
  pose proof (W 56%nat 64%nat 0 8 ltac:(lia) eq_refl eq_refl) as W0. rewrite Z.shiftr_0_r in *. rewrite W0, (W 48%nat 56%nat 8 16), (W 40%nat 48%nat 16 24), (W 32%nat 40%nat 24 32), (W 24%nat 32%nat 32 40), (W 16%nat 24%nat 40 48), (W 8%nat 16%nat 48 56) by (done || lia).
  rewrite <- (top_byte x) by done. apply xor_reverse.
Qed.

Lemma big_words_ok n : forall c next, bytes_ok next -> (8 * n <= length next)%nat -> urange 64 c -> big_words reversed n (rev8 c) next = Some (rev8 (crc_ref c (take (8 * n) next)), drop (8 * n) next).
Proof.
  induction n as [|n IH]; intros c next Hn Hl Hc; cbn [big_words]; [by rewrite Nat.mul_0_r|]. assert (Hbs : bytes_ok (take 8 next)) by (by apply Forall_take). assert (Hlen : length (take 8 next) = 8%nat) by (rewrite length_take; lia).
  rewrite load_Some by lia. cbn [mbind option_bind]. rewrite drop_0, <- rev8_bytes, <- rev8_xor by done. pose proof (le_val_range _ Hbs) as Hr. rewrite Hlen in Hr. change (8 * Z.of_nat 8) with 64 in Hr. rewrite big_word_ok by eauto with crc. cbn [mbind option_bind].
  pose proof (crc_ref_word _ Hbs ltac:(lia) c Hc) as Hw. rewrite Hlen in Hw. change (8 * 8)%nat with 64%nat in Hw. rewrite <- Hw, IH; [by rewrite take_step, drop_step|by apply Forall_drop|rewrite length_drop; lia|by apply crc_ref_range].
Qed.

Lemma crcspeed64big_ok c addr buf : urange 64 c -> bytes_ok buf -> crcspeed64big reversed c addr buf = Some (crc_ref c buf).
Proof.
  intros Hc Hb. unfold crcspeed64big. cbv zeta. destruct (big_align_ok buf Hb addr c Hc) as (pre & rest & -> & ->). cbn [mbind option_bind]. apply Forall_app in Hb as [Hpre Hrest]. assert (H1 : urange 64 (crc_ref c pre)) by (by apply crc_ref_range).
  rewrite big_words_ok by (done || (pose proof (Nat.Div0.mul_div_le (length rest) 8); lia)). cbn [mbind option_bind]. assert (H2 : urange 64 (crc_ref (crc_ref c pre) (take (8 * (length rest / 8)) rest))) by (apply crc_ref_range; [by apply Forall_take|done]).
  rewrite big_bytes_ok by (done || by apply Forall_drop). cbn [mbind option_bind]. rewrite rev8_involutive by (apply crc_ref_range; [by apply Forall_drop|done]). by rewrite <- !crc_ref_app, take_drop.
Qed.
End Big.

(** * The checksum *)

Lemma single_byte n : urange 8 n -> _crc64 0 [n] = Some (zeros 8 n).
Proof. intros Hn. rewrite _crc64_ok by (by constructor). cbn [crc_ref]. by rewrite Z.lxor_0_l. Qed.

(** The tables of a machine, and the checksum through them. *)
Lemma crc64_ok `{H : Host} : exists table, crc64_init = Some table /\
  forall vec2 dual tri cache crc addr s, operators_ok cache -> urange 64 crc -> bytes_ok s -> Z.of_nat (length s) < 2 ^ 63 ->
  exists cache', crc64 vec2 dual tri table cache crc addr s = Some (cache', crc_ref crc s) /\ operators_ok cache'.
Proof.
  destruct (crcspeed64little_init_ok _crc64 single_byte) as (t & Ht & _ & Hok). destruct H as [[]]; unfold crc64_init, crcspeed64native_init, crc64, crcspeed64native; cbn [big_endian].
  - exists (reversed t). unfold crcspeed64big_init. rewrite Ht. split; [reflexivity|]. intros vec2 dual tri cache crc addr s Hca Hc Hs _. rewrite crcspeed64big_ok by done. cbn [mbind option_bind]. exists cache. split; [reflexivity|exact Hca].
  - exists t. split; [exact Ht|]. intros vec2 dual tri cache crc addr s. apply crcspeed64little_ok. exact Hok.
Qed.

(** C20. The checksum of [crc64], which takes eight bytes at a time in up to three streams, through the tables that [crc64_init] makes,
    continues the one of the bit by bit [_crc64]: from the checksum of any bytes [a] it gives the checksum of [a] followed by
    [s], for any byte order of the machine, product of matrices, cutoffs and alignment, without an access out of the
    tables, and the cache of the operators stays empty or right. *)
Theorem crc64_exact `{Host} vec2 dual tri cache addr a s : operators_ok cache -> bytes_ok a -> bytes_ok s -> Z.of_nat (length s) < 2 ^ 63 ->
  exists table crc r cache', crc64_init = Some table /\ _crc64 0 a = Some crc /\ crc64 vec2 dual tri table cache crc addr s = Some (cache', r) /\ operators_ok cache' /\
  _crc64 0 (a ++ s) = Some r.
Proof.
  intros Hc Ha Hs Hl. destruct crc64_ok as (table & Hinit & Hrun). destruct (Hrun vec2 dual tri cache (crc_ref 0 a) addr s Hc) as (cache' & Hcrc & Hc'); [apply crc_ref_range; [done|apply zero_range]|done|done|].
  exists table, (crc_ref 0 a), (crc_ref 0 (a ++ s)), cache'. rewrite !_crc64_ok by (done || by apply Forall_app). rewrite crc_ref_app. done.
Qed.

Module Sample.

(** Two streams of 16 bytes after three unaligned bytes, on a little-endian machine. *)
Lemma crc64_exact_witness : exists table crc r cache', @crc64_init {| big_endian := false |} = Some table /\ _crc64 0 [49; 50; 51] = Some crc /\
  @crc64 {| big_endian := false |} false 1 64 table zero_cache crc 5 (seqZ 52 40) = Some (cache', r) /\ operators_ok cache' /\ _crc64 0 ([49; 50; 51] ++ seqZ 52 40) = Some r.
Proof.
  apply (crc64_exact false 1 64 zero_cache 5 [49; 50; 51] (seqZ 52 40)); [by left|by repeat constructor| |by vm_compute].
  apply Forall_forall. intros x Hx%elem_of_seqZ. unfold urange. lia.
Defined.

(** The check value of the algorithm. *)
Example crc64_check_value : _crc64 0 [49; 50; 51; 52; 53; 54; 55; 56; 57] = Some 0xe9c6d914c4b8d9ca.
Proof. by vm_compute. Qed.

End Sample.

End CrcFast.
