(* ===== verification/Dump.v ===== *)
(** Serialized values (cluster.c): the footer that DUMP writes after a value, with the version of the format and the checksum, and the
    check of it before RESTORE and MIGRATE load the value.

    The serialized object is the argument [obj], whatever bytes the functions of rdb.c write.  The tables of the checksum and its
    cutoffs are those of Crc.v; a payload is its bytes with their address. *)

From S2P Require Import Prelude Bits Endian Crc CrcSpec CrcFast.

Module Dump.
Import Crc CrcSpec CrcFast.

Definition RDB_VERSION : Z := 12.

Section Payload.
Context `{Host} (vec2 : bool) (dual tri : Z) (crc64_table : list (list Z)).

Definition createDumpPayload (cache : list (list Z)) (addr : Z) (obj : bytes) : option (list (list Z) * bytes) :=
  let buf := [Z.land RDB_VERSION 0xff; Z.land (Z.shiftr RDB_VERSION 8) 0xff] in
  let payload := obj ++ buf in
  '(cache, crc) ← crc64 vec2 dual tri crc64_table cache 0 addr payload;
  Some (cache, payload ++ memrev64ifbe (host_bytes 8 crc)).

(** Whether the result is C_OK, and what is written through [rdbver_ptr]. *)
Definition verifyDumpPayload (skip_checksum_validation : bool) (cache : list (list Z)) (addr : Z) (p : bytes) : option (list (list Z) * bool * option Z) :=
  if (length p <? 10)%nat then Some (cache, false, None)
  else
    let footer := drop (length p - 10) p in
    f0 ← footer !! 0%nat; f1 ← footer !! 1%nat;
    let rdbver := u16 (Z.lor (Z.shiftl f1 8) f0) in
    if rdbver >? RDB_VERSION then Some (cache, false, Some rdbver)
    else if skip_checksum_validation then Some (cache, true, Some rdbver)
    else
      '(cache, crc) ← crc64 vec2 dual tri crc64_table cache 0 addr (take (length p - 8) p);
      Some (cache, bool_decide (memrev64ifbe (host_bytes 8 crc) = drop 2 footer), Some rdbver).

End Payload.

(** * The checksum as an error detecting code *)

#[local] Opaque zeros.
#[local] Hint Resolve xor_range byte_range zero_range zeros_range : crc.

Lemma shift1_zero x : urange 64 x -> shift1 x = 0 -> x = 0.
Proof.
  intros Hx H. unfold shift1 in H. destruct (Z.testbit x 0) eqn:E0.
  - apply Z.lxor_eq in H. apply (f_equal (fun z => Z.testbit z 63)) in H. rewrite Z.shiftr_spec, (testbit_above 64 x) in H by (done || lia). discriminate H.
  - rewrite Z.lxor_0_r in H. apply Z.bits_inj'. intros i Hi. rewrite Z.bits_0. destruct (decide (i = 0)) as [->|]; [done|]. apply (f_equal (fun z => Z.testbit z (i - 1))) in H. rewrite Z.shiftr_spec, Z.bits_0 in H by lia. by replace (i - 1 + 1) with i in H by lia.
Qed.

Lemma zeros_zero_inv n : forall x, urange 64 x -> zeros n x = 0 -> x = 0.
Proof.
  induction n as [|n IH]; intros x Hx H; [exact H|]. apply shift1_zero; [done|]. apply IH; [by apply (lin_range _ lin_shift1)|]. replace (Datatypes.S n) with (n + 1)%nat in H by lia. by rewrite zeros_add in H.
Qed.

Lemma zeros_inj n x y : urange 64 x -> urange 64 y -> zeros n x = zeros n y -> x = y.
Proof.
  intros Hx Hy H. apply Z.lxor_eq, (zeros_zero_inv n); [eauto with crc|]. by rewrite zeros_xor, H, Z.lxor_nilpotent.
Qed.

Lemma crc_ref_inj bs x y : bytes_ok bs -> urange 64 x -> urange 64 y -> crc_ref x bs = crc_ref y bs -> x = y.
Proof.
  intros Hb Hx Hy H. rewrite (crc_ref_split bs x), (crc_ref_split bs y) in H by done. apply (zeros_inj (8 * length bs)); [done|done|].
  apply (f_equal (fun z => Z.lxor z (crc_ref 0 bs))) in H. by rewrite !Z.lxor_assoc, Z.lxor_nilpotent, !Z.lxor_0_r in H.
Qed.

Lemma le_val_inj a b : bytes_ok a -> bytes_ok b -> length a = length b -> le_val a = le_val b -> a = b.
Proof. intros Ha Hb Hl H. by rewrite <- (le_bytes_val a), <- (le_bytes_val b), Hl, H. Qed.

Lemma word_range bs : bytes_ok bs -> (length bs <= 8)%nat -> urange 64 (le_val bs).
Proof. intros Hb Hl. pose proof (le_val_range bs Hb) as Hr. unfold urange in *. split; [lia|]. eapply Z.lt_le_trans; [apply Hr|]. apply Z.pow_le_mono_r; lia. Qed.

(** Two blocks that differ in at most eight consecutive bytes have different checksums. *)
Lemma crc_ref_burst c pre a b post : urange 64 c -> bytes_ok pre -> bytes_ok a -> bytes_ok b -> bytes_ok post -> length a = length b -> (length a <= 8)%nat ->
  crc_ref c (pre ++ a ++ post) = crc_ref c (pre ++ b ++ post) -> a = b.
Proof.
  intros Hc Hpre Ha Hb Hpost Hl Hl8 H. rewrite !crc_ref_app in H. assert (H1 : urange 64 (crc_ref c pre)) by (by apply crc_ref_range). apply crc_ref_inj in H; [|done|by apply crc_ref_range..].
  rewrite (crc_ref_word a Ha), (crc_ref_word b Hb) in H by (done || lia). rewrite <- Hl in H. pose proof (word_range a Ha Hl8) as Ra. pose proof (word_range b Hb ltac:(lia)) as Rb. apply zeros_inj in H; [|eauto with crc..]. apply le_val_inj; [done..|].
  apply (f_equal (Z.lxor (crc_ref c pre))) in H. by rewrite <- !Z.lxor_assoc, Z.lxor_nilpotent, !Z.lxor_0_l in H.
Qed.

(** The checksum of a block with its checksum after it is zero. *)
Lemma crc_residue m f : bytes_ok m -> bytes_ok f -> length f = 8%nat -> crc_ref 0 (m ++ f) = 0 <-> f = le_bytes 8 (crc_ref 0 m).
Proof.
  intros Hm Hf Hl. assert (Hr : urange 64 (crc_ref 0 m)) by (apply crc_ref_range; [done|apply zero_range]). rewrite crc_ref_app, crc_ref_word by (done || lia). pose proof (word_range f Hf ltac:(lia)) as Rf. split.
  - intros H. apply zeros_zero_inv in H; [|eauto with crc]. apply Z.lxor_eq in H. rewrite H, <- Hl. by rewrite le_bytes_val.
  - intros ->. rewrite le_val_bytes. unfold uwrap. rewrite Z.mod_small by exact Hr. by rewrite Z.lxor_nilpotent, zeros_zero.
Qed.

(** * The check of a payload *)

Section Check.
Context `{H : Host} (vec2 : bool) (dual tri : Z) (table : list (list Z)) (Htable : crc64_init = Some table).

Lemma crc64_at cache crc addr s : operators_ok cache -> urange 64 crc -> bytes_ok s -> Z.of_nat (length s) < 2 ^ 63 ->
  exists cache', crc64 vec2 dual tri table cache crc addr s = Some (cache', crc_ref crc s) /\ operators_ok cache'.
Proof. destruct crc64_ok as (t & Ht & Hok). rewrite Htable in Ht. injection Ht as <-. apply Hok. Qed.

(** The version in the footer. *)
Definition version_of (p : bytes) : Z := le_val (take 2 (drop (length p - 10) p)).

Lemma footer_version p : bytes_ok p -> (10 <= length p)%nat -> exists f0 f1, drop (length p - 10) p !! 0%nat = Some f0 /\ drop (length p - 10) p !! 1%nat = Some f1 /\ u16 (Z.lor (Z.shiftl f1 8) f0) = version_of p.
Proof.
  intros Hb Hl. assert (Hf : bytes_ok (drop (length p - 10) p)) by (by apply Forall_drop). assert (Hfl : length (drop (length p - 10) p) = 10%nat) by (rewrite length_drop; lia). unfold version_of. destruct (drop (length p - 10) p) as [|f0 [|f1 r]]; [done..|]. exists f0, f1. split_and!; [done..|].
  apply Forall_cons in Hf as [H0 Hf]. apply Forall_cons in Hf as [H1 _]. change (take 2 (f0 :: f1 :: r)) with [f0; f1]. rewrite Z.lor_comm, lor_shiftl_add by (lia || exact H0). cbn [le_val]. unfold u16, uwrap, urange in *. change (2 ^ 8) with 256 in *. change (2 ^ 16) with 65536. rewrite Z.mod_small; lia.
Qed.

Lemma verify_exact skip cache addr p : operators_ok cache -> bytes_ok p -> (10 <= length p)%nat -> Z.of_nat (length p) < 2 ^ 63 -> exists cache',
  verifyDumpPayload vec2 dual tri table skip cache addr p = Some (cache', bool_decide (version_of p <= RDB_VERSION /\ (skip = true \/ crc_ref 0 p = 0)), Some (version_of p)) /\ operators_ok cache'.
Proof.
  intros Hc Hb Hl Hmax. unfold verifyDumpPayload. rewrite (proj2 (Nat.ltb_ge _ _)) by lia. destruct (footer_version p Hb Hl) as (f0 & f1 & -> & -> & Hv). cbn [mbind option_bind]. rewrite Hv. destruct (Z.gtb_spec (version_of p) RDB_VERSION) as [Hgt|Hle].
  { exists cache. split; [|done]. rewrite bool_decide_eq_false_2 by lia. done. }
  destruct skip. { exists cache. split; [|done]. rewrite bool_decide_eq_true_2 by auto. done. }
  set (m := take (length p - 8) p). assert (Hm : bytes_ok m) by (by apply Forall_take). destruct (crc64_at cache 0 addr m Hc zero_range Hm) as (cache' & -> & Hc'); [unfold m; rewrite length_take; lia|]. cbn [mbind option_bind]. exists cache'. split; [|done]. do 3 f_equal.
  rewrite memrev64ifbe_host_bytes, drop_drop. replace (length p - 10 + 2)%nat with (length p - 8)%nat by lia. set (f := drop (length p - 8) p). assert (Hres : crc_ref 0 p = 0 <-> f = le_bytes 8 (crc_ref 0 m)).
  { rewrite <- (take_drop (length p - 8) p) at 1. apply crc_residue; [done|by apply Forall_drop|]. unfold f. rewrite length_drop. lia. }
  apply bool_decide_ext. rewrite Hres. split; [intros E; split; [done|by right]|by intros [_ [?|?]]].
Qed.

Lemma create_exact cache addr obj : operators_ok cache -> bytes_ok obj -> Z.of_nat (length obj) + 10 < 2 ^ 63 -> exists cache' p,
  createDumpPayload vec2 dual tri table cache addr obj = Some (cache', p) /\ operators_ok cache' /\ bytes_ok p /\ length p = (length obj + 10)%nat /\ take (length obj) p = obj /\ version_of p = RDB_VERSION /\ crc_ref 0 p = 0.
Proof.
  intros Hc Hb Hmax. unfold createDumpPayload. cbv zeta. set (m := obj ++ _). assert (Hm : bytes_ok m) by (apply Forall_app; split; [done|by repeat constructor]). destruct (crc64_at cache 0 addr m Hc zero_range Hm) as (cache' & -> & Hc'); [unfold m; rewrite length_app; cbn; lia|]. cbn [mbind option_bind].
  rewrite memrev64ifbe_host_bytes. set (f := le_bytes 8 _). assert (Hf : length f = 8%nat) by apply le_bytes_length. exists cache', (m ++ f). assert (Hml : length m = (length obj + 2)%nat) by (unfold m; by rewrite length_app). split_and!; [done|done|apply Forall_app; split; [done|apply le_bytes_ok]|rewrite length_app; lia| | |].
  - unfold m. rewrite <- app_assoc. by rewrite take_app_length.
  - unfold version_of. rewrite length_app, Hml, Hf. replace (length obj + 2 + 8 - 10)%nat with (length obj) by lia. unfold m. rewrite <- app_assoc, drop_app_length. done.
  - apply crc_residue; [done|apply le_bytes_ok|done|done].
Qed.

End Check.

(** C21. A payload that [createDumpPayload] makes from any serialized object starts with the object and is accepted by [verifyDumpPayload]
    with its version, and a payload in which up to eight consecutive bytes anywhere, in the object, the version or the checksum, were
    replaced by others is refused. *)
Theorem dump_detects_bursts `{Host} vec2 dual tri cache addr obj : operators_ok cache -> bytes_ok obj -> Z.of_nat (length obj) + 10 < 2 ^ 63 ->
  exists table cache1 p, crc64_init = Some table /\ createDumpPayload vec2 dual tri table cache addr obj = Some (cache1, p) /\ length p = (length obj + 10)%nat /\ take (length obj) p = obj /\
  forall addr', (exists cache2, verifyDumpPayload vec2 dual tri table false cache1 addr' p = Some (cache2, true, Some RDB_VERSION)) /\
  forall pre a b post, p = pre ++ a ++ post -> bytes_ok b -> length b = length a -> (length a <= 8)%nat -> b <> a ->
  exists cache2 v, verifyDumpPayload vec2 dual tri table false cache1 addr' (pre ++ b ++ post) = Some (cache2, false, Some v).
Proof.
  intros Hc Hobj Hmax. destruct crc64_ok as (table & Ht & _). destruct (create_exact vec2 dual tri table Ht cache addr obj Hc Hobj Hmax) as (cache1 & p & Hp & Hc1 & Hb & Hl & Htake & Hv & Hres). exists table, cache1, p. split_and!; [done..|]. intros addr'. split.
  - destruct (verify_exact vec2 dual tri table Ht false cache1 addr' p Hc1 Hb) as (cache2 & Hrun & _); [lia..|]. exists cache2. rewrite Hrun, Hv, bool_decide_eq_true_2; [done|]. split; [done|by right].
  - intros pre a b post -> Hbb Hlb Hl8 Hne. apply Forall_app in Hb as [Hpre Hb]. apply Forall_app in Hb as [Ha Hpost]. assert (Hq : bytes_ok (pre ++ b ++ post)) by (apply Forall_app; split; [done|by apply Forall_app]). rewrite !length_app in Hl.
    destruct (verify_exact vec2 dual tri table Ht false cache1 addr' (pre ++ b ++ post) Hc1 Hq) as (cache2 & Hrun & _); [rewrite !length_app; lia..|]. exists cache2, (version_of (pre ++ b ++ post)). rewrite Hrun, bool_decide_eq_false_2; [done|].
    intros [_ [?|Hz]]; [done|]. apply Hne. symmetry. apply (crc_ref_burst 0 pre a b post); try done. by rewrite Hres, Hz.
Qed.

Module Sample.

Lemma dump_detects_bursts_witness : exists table cache1 p, @crc64_init {| big_endian := false |} = Some table /\ @createDumpPayload {| big_endian := false |} true 1024 16384 table zero_cache 3 [0; 3; 97; 98; 99] = Some (cache1, p) /\ length p = 15%nat /\
  exists cache2 v, @verifyDumpPayload {| big_endian := false |} true 1024 16384 table false cache1 8 (<[4%nat := 100]> p) = Some (cache2, false, Some v).
Proof.
  destruct (@dump_detects_bursts {| big_endian := false |} true 1024 16384 zero_cache 3 [0; 3; 97; 98; 99]) as (table & cache1 & p & Ht & Hp & Hl & Htake & H); [by left|by repeat constructor|done|]. exists table, cache1, p. split_and!; [done..|].
  destruct (H 8) as [_ Hrej]. assert (Hp5 : p = [0; 3; 97; 98] ++ [99] ++ drop 5 p) by (rewrite <- (take_drop 5 p) at 1; change 5%nat with (length [0; 3; 97; 98; 99]) at 1; by rewrite Htake).
  destruct (Hrej [0; 3; 97; 98] [99] [100] (drop 5 p) Hp5) as (cache2 & v & E); [by repeat constructor|done|cbn; lia|done|]. exists cache2, v. rewrite Hp5. exact E.
Defined.

End Sample.
End Dump.
