(* ===== verification/Slot.v ===== *)
(** Hash slots of a cluster (crc16.c, cluster.h, cluster.c): the checksum of 16 bits of a key or of its tag between braces, and the slot of the
    keys that a pattern can match. *)

From S2P Require Import Prelude Bits Sds SdsSpec SdsSplit Glob GlobSpec.

Module Slot.
Import Sds SdsSpec SdsSplit Glob.

Definition LBRACE : Z := 123.
Definition RBRACE : Z := 125.

Definition crc16tab : list Z :=
  [0x0000; 0x1021; 0x2042; 0x3063; 0x4084; 0x50a5; 0x60c6; 0x70e7;
   0x8108; 0x9129; 0xa14a; 0xb16b; 0xc18c; 0xd1ad; 0xe1ce; 0xf1ef;
   0x1231; 0x0210; 0x3273; 0x2252; 0x52b5; 0x4294; 0x72f7; 0x62d6;
   0x9339; 0x8318; 0xb37b; 0xa35a; 0xd3bd; 0xc39c; 0xf3ff; 0xe3de;
   0x2462; 0x3443; 0x0420; 0x1401; 0x64e6; 0x74c7; 0x44a4; 0x5485;
   0xa56a; 0xb54b; 0x8528; 0x9509; 0xe5ee; 0xf5cf; 0xc5ac; 0xd58d;
   0x3653; 0x2672; 0x1611; 0x0630; 0x76d7; 0x66f6; 0x5695; 0x46b4;
   0xb75b; 0xa77a; 0x9719; 0x8738; 0xf7df; 0xe7fe; 0xd79d; 0xc7bc;
   0x48c4; 0x58e5; 0x6886; 0x78a7; 0x0840; 0x1861; 0x2802; 0x3823;
   0xc9cc; 0xd9ed; 0xe98e; 0xf9af; 0x8948; 0x9969; 0xa90a; 0xb92b;
   0x5af5; 0x4ad4; 0x7ab7; 0x6a96; 0x1a71; 0x0a50; 0x3a33; 0x2a12;
   0xdbfd; 0xcbdc; 0xfbbf; 0xeb9e; 0x9b79; 0x8b58; 0xbb3b; 0xab1a;
   0x6ca6; 0x7c87; 0x4ce4; 0x5cc5; 0x2c22; 0x3c03; 0x0c60; 0x1c41;
   0xedae; 0xfd8f; 0xcdec; 0xddcd; 0xad2a; 0xbd0b; 0x8d68; 0x9d49;
   0x7e97; 0x6eb6; 0x5ed5; 0x4ef4; 0x3e13; 0x2e32; 0x1e51; 0x0e70;
   0xff9f; 0xefbe; 0xdfdd; 0xcffc; 0xbf1b; 0xaf3a; 0x9f59; 0x8f78;
   0x9188; 0x81a9; 0xb1ca; 0xa1eb; 0xd10c; 0xc12d; 0xf14e; 0xe16f;
   0x1080; 0x00a1; 0x30c2; 0x20e3; 0x5004; 0x4025; 0x7046; 0x6067;
   0x83b9; 0x9398; 0xa3fb; 0xb3da; 0xc33d; 0xd31c; 0xe37f; 0xf35e;
   0x02b1; 0x1290; 0x22f3; 0x32d2; 0x4235; 0x5214; 0x6277; 0x7256;
   0xb5ea; 0xa5cb; 0x95a8; 0x8589; 0xf56e; 0xe54f; 0xd52c; 0xc50d;
   0x34e2; 0x24c3; 0x14a0; 0x0481; 0x7466; 0x6447; 0x5424; 0x4405;
   0xa7db; 0xb7fa; 0x8799; 0x97b8; 0xe75f; 0xf77e; 0xc71d; 0xd73c;
   0x26d3; 0x36f2; 0x0691; 0x16b0; 0x6657; 0x7676; 0x4615; 0x5634;
   0xd94c; 0xc96d; 0xf90e; 0xe92f; 0x99c8; 0x89e9; 0xb98a; 0xa9ab;
   0x5844; 0x4865; 0x7806; 0x6827; 0x18c0; 0x08e1; 0x3882; 0x28a3;
   0xcb7d; 0xdb5c; 0xeb3f; 0xfb1e; 0x8bf9; 0x9bd8; 0xabbb; 0xbb9a;
   0x4a75; 0x5a54; 0x6a37; 0x7a16; 0x0af1; 0x1ad0; 0x2ab3; 0x3a92;
   0xfd2e; 0xed0f; 0xdd6c; 0xcd4d; 0xbdaa; 0xad8b; 0x9de8; 0x8dc9;
   0x7c26; 0x6c07; 0x5c64; 0x4c45; 0x3ca2; 0x2c83; 0x1ce0; 0x0cc1;
   0xef1f; 0xff3e; 0xcf5d; 0xdf7c; 0xaf9b; 0xbfba; 0x8fd9; 0x9ff8;
   0x6e17; 0x7e36; 0x4e55; 0x5e74; 0x2e93; 0x3eb2; 0x0ed1; 0x1ef0].

Fixpoint crc16_loop (crc : Z) (buf : bytes) : option Z :=
  match buf with
  | [] => Some crc
  | b :: buf => t ← crc16tab !! Z.to_nat (Z.land (Z.lxor (Z.shiftr crc 8) b) 0x00FF); crc16_loop (u16 (Z.lxor (Z.shiftl crc 8) t)) buf
  end.

Definition crc16 (buf : bytes) : option Z := crc16_loop 0 buf.

(** [crc16(buf, len) & 0x3FFF] *)
Definition hash_slot (buf : bytes) : option Z := v ← crc16 buf; Some (Z.land v 0x3FFF).

(** The two loops of [keyHashSlot]: [n] characters from the index [s] on. *)
Fixpoint brace_loop (c : Z) (key : bytes) (n s : nat) : option nat :=
  match n with O => Some s | S n => x ← key !! s; if x =? c then Some s else brace_loop c key n (s + 1) end.

Definition keyHashSlot (key : bytes) : option Z :=
  let keylen := length key in
  s ← brace_loop LBRACE key keylen 0;
  if bool_decide (s = keylen) then hash_slot key
  else
    e ← brace_loop RBRACE key (keylen - (s + 1)) (s + 1);
    if bool_decide (e = keylen) || bool_decide (e = (s + 1)%nat) then hash_slot key
    else hash_slot (take (e - s - 1) (drop (s + 1) key)).

Fixpoint pattern_loop (pattern : bytes) (n i : nat) (s : Z) : option Z :=
  match n with
  | O => hash_slot pattern
  | S n =>
    c ← pattern !! i;
    if (c =? ASTERISK) || (c =? QUESTION) || (c =? LBRACKET) then Some (-1)
    else if c =? BACKSLASH then Some (-1)
    else if (s =? -1) && (c =? LBRACE) then pattern_loop pattern n (i + 1) (Z.of_nat i)
    else if (0 <=? s) && (c =? RBRACE) && (Z.of_nat i =? s + 1) then pattern_loop pattern n (i + 1) (-2)
    else if (0 <=? s) && (c =? RBRACE) then hash_slot (take (i - Z.to_nat s - 1) (drop (Z.to_nat s + 1) pattern))
    else pattern_loop pattern n (i + 1) s
  end.

Definition patternHashSlot (pattern : bytes) : option Z := pattern_loop pattern (length pattern) 0 (-1).

(** * The checksum as division of polynomials *)

(** One bit of the division by x^16 + x^12 + x^5 + 1. *)
Definition xmodem_bit (c : Z) : Z := Z.lxor (u16 (Z.shiftl c 1)) (if Z.testbit c 15 then 0x1021 else 0).

Definition xmodem_bits (n : nat) (c : Z) : Z := Nat.iter n xmodem_bit c.

(** The bytes, from the most significant bit. *)
Fixpoint xmodem (c : Z) (buf : bytes) {struct buf} : Z := match buf with [] => c | b :: buf => xmodem (xmodem_bits 8 (Z.lxor c (Z.shiftl b 8))) buf end.

Lemma xmodem_bit_range c : urange 16 (xmodem_bit c).
Proof. apply urange_lxor; [lia|apply uwrap_range; lia|]. destruct (Z.testbit c 15); unfold urange; lia. Qed.

Lemma xmodem_bit_xor a b : xmodem_bit (Z.lxor a b) = Z.lxor (xmodem_bit a) (xmodem_bit b).
Proof.
  unfold xmodem_bit. rewrite Z.lxor_spec. assert (E : u16 (Z.shiftl (Z.lxor a b) 1) = Z.lxor (u16 (Z.shiftl a 1)) (u16 (Z.shiftl b 1))).
  { apply (bits_eq 16); [lia|apply uwrap_range; lia|apply urange_lxor; [lia|apply uwrap_range; lia..]|]. intros i Hi. rewrite Z.lxor_spec, !uwrap_bits, !Z.shiftl_spec, Z.lxor_spec by lia. done. }
  rewrite E. apply Z.bits_inj'. intros i Hi. rewrite !Z.lxor_spec. destruct (Z.testbit a 15), (Z.testbit b 15); cbn [xorb]; rewrite ?Z.bits_0; destruct (Z.testbit (u16 (Z.shiftl a 1)) i), (Z.testbit (u16 (Z.shiftl b 1)) i), (Z.testbit 0x1021 i); done.
Qed.

Lemma xmodem_bits_xor n a b : xmodem_bits n (Z.lxor a b) = Z.lxor (xmodem_bits n a) (xmodem_bits n b).
Proof. induction n as [|n IH]; [done|]. unfold xmodem_bits in *. change (Nat.iter (Datatypes.S n) xmodem_bit ?z) with (xmodem_bit (Nat.iter n xmodem_bit z)). by rewrite IH, xmodem_bit_xor. Qed.

(** The table: a byte that leaves the register. *)
Lemma table_entry n : urange 8 n -> crc16tab !! Z.to_nat n = Some (xmodem_bits 8 (Z.shiftl n 8)).
Proof.
  intros Hn. assert (Hall : forallb (fun n => bool_decide (crc16tab !! Z.to_nat n = Some (xmodem_bits 8 (Z.shiftl n 8)))) (seqZ 0 256) = true) by (by vm_compute).
  eapply bool_decide_eq_true_1. exact (check_range 0 256 _ Hall n Hn).
Qed.

(** A byte that does not leave it. *)
Lemma low_byte_stays n : urange 8 n -> xmodem_bits 8 n = Z.shiftl n 8.
Proof.
  intros Hn. assert (Hall : forallb (fun n => xmodem_bits 8 n =? Z.shiftl n 8) (seqZ 0 256) = true) by (by vm_compute). apply Z.eqb_eq. exact (check_range 0 256 _ Hall n Hn).
Qed.

Lemma xmodem_bits_range n c : (0 < n)%nat -> urange 16 (xmodem_bits n c).
Proof. destruct n; [lia|]. intros _. apply xmodem_bit_range. Qed.

#[local] Opaque xmodem_bits.

Lemma crc16_byte c b : urange 16 c -> urange 8 b -> exists t, crc16tab !! Z.to_nat (Z.land (Z.lxor (Z.shiftr c 8) b) 255) = Some t /\ u16 (Z.lxor (Z.shiftl c 8) t) = xmodem_bits 8 (Z.lxor c (Z.shiftl b 8)).
Proof.
  intros Hc Hb. set (n := Z.lxor (Z.shiftr c 8) b). assert (Hn : urange 8 n).
  { apply urange_lxor; [lia| |done]. unfold urange in *. rewrite Z.shiftr_div_pow2 by lia. split; [apply Z.div_pos; lia|]. apply Z.div_lt_upper_bound; [lia|]. change (2 ^ 8 * 2 ^ 8) with (2 ^ 16). lia. }
  assert (El : Z.land n 255 = n) by (change 255 with (Z.ones 8); rewrite Z.land_ones by lia; apply Z.mod_small; exact Hn). rewrite El, table_entry by done. eexists. split; [done|].
  set (m := Z.land c (Z.ones 8)). assert (Hm : urange 8 m) by (unfold m; rewrite Z.land_ones by lia; apply Z.mod_pos_bound; lia).
  assert (Es : Z.lxor c (Z.shiftl b 8) = Z.lxor m (Z.shiftl n 8)).
  { unfold m, n. apply Z.bits_inj'. intros i Hi. rewrite !Z.lxor_spec, Z.land_spec, !Z.shiftl_spec by lia. destruct (Z.ltb_spec i 8) as [Hlt|Hge].
    - rewrite !(Z.testbit_neg_r _ (i - 8)) by lia. by rewrite Z.ones_spec_low, andb_true_r by lia.
    - rewrite Z.ones_spec_high, andb_false_r, xorb_false_l, Z.lxor_spec, Z.shiftr_spec by lia. by replace (i - 8 + 8) with i by lia. }
  rewrite Es, xmodem_bits_xor, (low_byte_stays m Hm). set (y := xmodem_bits 8 (Z.shiftl n 8)). assert (Hy : urange 16 y) by (apply xmodem_bits_range; lia).
  assert (Hm16 : urange 16 (Z.shiftl m 8)) by (unfold urange in *; rewrite Z.shiftl_mul_pow2 by lia; change (2 ^ 8) with 256 in *; change (2 ^ 16) with 65536; lia).
  apply (bits_eq 16); [lia|apply uwrap_range; lia|by apply urange_lxor|]. intros i Hi. rewrite uwrap_bits, !Z.lxor_spec, !Z.shiftl_spec by lia. f_equal. unfold m. rewrite Z.land_spec. destruct (Z.ltb_spec i 8); [by rewrite !Z.testbit_neg_r by lia|by rewrite Z.ones_spec_low, andb_true_r by lia].
Qed.

Lemma xmodem_range buf : forall c, urange 16 c -> urange 16 (xmodem c buf).
Proof. induction buf as [|b buf IH]; intros c Hc; [done|]. apply IH. apply xmodem_bits_range. lia. Qed.

Lemma crc16_ok buf : bytes_ok buf -> crc16 buf = Some (xmodem 0 buf).
Proof.
  unfold crc16. assert (Hz : urange 16 0) by (unfold urange; lia). revert Hz. generalize 0. intros c Hc Hb. revert c Hc. induction Hb as [|b buf Hb _ IH]; intros c Hc; cbn [crc16_loop xmodem]; [done|].
  destruct (crc16_byte c b Hc Hb) as (t & -> & E). cbn [mbind option_bind]. rewrite E. apply IH. apply xmodem_bits_range. lia.
Qed.

(** * The tag of a key *)

(** A list cut at the first [c]. *)
Fixpoint cut (c : Z) (l : bytes) : option (bytes * bytes) :=
  match l with [] => None | x :: l => if x =? c then Some ([], l) else '(a, r) ← cut c l; Some (x :: a, r) end.

(** What is hashed: the bytes between the first opening brace and the first closing one after it, if there are any, or the key. *)
Definition tag_of (key : bytes) : bytes :=
  match cut LBRACE key with
  | None => key
  | Some (_, r) => match cut RBRACE r with None | Some ([], _) => key | Some (t, _) => t end
  end.

Lemma cut_none c l : c ∉ l -> cut c l = None.
Proof. induction l as [|x l IH]; intros Hn; cbn [cut]; [done|]. apply not_elem_of_cons in Hn as [Hx Hl]. rewrite (proj2 (Z.eqb_neq x c)) by done. by rewrite IH. Qed.

Lemma cut_found c a r : c ∉ a -> cut c (a ++ c :: r) = Some (a, r).
Proof. induction a as [|x a IH]; intros Hn; cbn [cut app]; [by rewrite Z.eqb_refl|]. apply not_elem_of_cons in Hn as [Hx Ha]. rewrite (proj2 (Z.eqb_neq x c)) by done. by rewrite IH. Qed.

Lemma cut_cases c l : ((c ∉ l) /\ cut c l = None) \/ exists a r, l = a ++ c :: r /\ (c ∉ a) /\ cut c l = Some (a, r).
Proof.
  induction l as [|x l IH]; [left; split; [apply not_elem_of_nil|done]|]. cbn [cut]. destruct (Z.eqb_spec x c) as [->|Hx]; [right; exists [], l; split_and!; [done|apply not_elem_of_nil|done]|].
  destruct IH as [[Hn ->]|(a & r & -> & Ha & ->)]; [left; split; [by apply not_elem_of_cons|done]|right; exists (x :: a), r; split_and!; [done|by apply not_elem_of_cons|done]].
Qed.

(** The loop stops at the brace of the cut, or at the end. *)
Lemma brace_loop_ok c key : forall n s, (s + n = length key)%nat -> brace_loop c key n s = Some (match cut c (drop s key) with None => length key | Some (a, _) => (s + length a)%nat end).
Proof.
  induction n as [|n IH]; intros s Hs; cbn [brace_loop]; [rewrite drop_ge by lia; cbn [cut]; f_equal; lia|]. destruct (lookup_lt_is_Some_2 key s) as [x Hx]; [lia|]. rewrite Hx. cbn [mbind option_bind]. rewrite (drop_S key x s Hx). cbn [cut]. destruct (x =? c); [cbn; f_equal; lia|].
  rewrite IH by lia. replace (s + 1)%nat with (Datatypes.S s) by lia. destruct (cut c (drop (Datatypes.S s) key)) as [[a r]|]; cbn; [f_equal; lia|done].
Qed.

Lemma keyHashSlot_ok key : keyHashSlot key = hash_slot (tag_of key).
Proof.
  unfold keyHashSlot, tag_of. cbv zeta. rewrite brace_loop_ok by lia. rewrite drop_0. cbn [mbind option_bind]. destruct (cut_cases LBRACE key) as [[_ ->]|(a & r & E & Ha & ->)]; [by rewrite bool_decide_eq_true_2 by done|].
  cbn [Nat.add]. rewrite bool_decide_eq_false_2 by (rewrite E, length_app; cbn; lia). rewrite brace_loop_ok by (rewrite E, length_app; cbn; lia). assert (Ed : drop (length a + 1) key = r) by (rewrite E, drop_app_ge by lia; by replace (length a + 1 - length a)%nat with 1%nat by lia).
  rewrite Ed. cbn [mbind option_bind]. destruct (cut_cases RBRACE r) as [[_ ->]|(t & r' & E' & Ht & ->)]; [by rewrite bool_decide_eq_true_2 by done|]. rewrite (bool_decide_eq_false_2 (_ = length key)) by (rewrite E, E', !length_app; cbn; rewrite length_app; cbn; lia). cbn [orb]. destruct t as [|x t].
  - rewrite bool_decide_eq_true_2 by (cbn; lia). done.
  - rewrite bool_decide_eq_false_2 by (cbn; lia). f_equal. replace (length a + 1 + length (x :: t) - length a - 1)%nat with (length (x :: t)) by lia. rewrite E'. by rewrite take_app_length.
Qed.

(** * Patterns *)

Definition plain (c : Z) : bool := negb ((c =? ASTERISK) || (c =? QUESTION) || (c =? LBRACKET) || (c =? BACKSLASH)).

Lemma plain_inv c : plain c = true -> c <> ASTERISK /\ c <> QUESTION /\ c <> LBRACKET /\ c <> BACKSLASH.
Proof. unfold plain. rewrite negb_true_iff, !orb_false_iff, !Z.eqb_neq. tauto. Qed.

(** A character that is not special matches itself. *)
Lemma one_char_plain pattern p c x r : drop p pattern = c :: r -> plain c = true -> one_char false pattern p c x = Some (if c =? x then Some p else None).
Proof.
  intros Hd Hc. destruct (plain_inv c Hc) as (_ & Hq & Hb & Hs). unfold one_char. rewrite (proj2 (Z.eqb_neq c QUESTION)), (proj2 (Z.eqb_neq c LBRACKET)), (proj2 (Z.eqb_neq c BACKSLASH)) by done. cbn [andb]. destruct (GlobSpec.ch_cons pattern p c r Hd) as (-> & _). done.
Qed.

(** The characters at the start of a pattern that are not special are those of the string, and there is nothing else when the pattern has nothing else. *)
Lemma match_plain pattern string rec : forall fuel lit rest p q skip skip', drop p pattern = lit ++ rest -> Forall (fun c => plain c = true) lit ->
  match_loop false pattern string rec fuel p q skip = Some (true, skip') -> exists post, drop q string = lit ++ post /\ (rest = [] -> post = []).
Proof.
  intros fuel lit. revert fuel. induction lit as [|c lit IH]; intros fuel rest p q skip skip' Hd Hlit H.
  - exists (drop q string). split; [done|]. intros ->. destruct fuel; cbn [match_loop] in H; rewrite (bool_decide_eq_true_2 (patternLen pattern p = 0%nat)) in H by (rewrite GlobSpec.patternLen_drop, Hd; done); cbn [orb andb] in H; injection H as H _; apply bool_decide_eq_true_1 in H; rewrite GlobSpec.stringLen_drop in H; by apply nil_length_inv.
  - cbn [app] in Hd. apply Forall_cons in Hlit as [Hc Hlit]. destruct (GlobSpec.ch_cons pattern p c _ Hd) as (Hch & Hd1 & Hp). destruct (drop q string) as [|x s'] eqn:Hq.
    { destruct fuel; cbn [match_loop] in H; rewrite (bool_decide_eq_false_2 (patternLen pattern p = 0%nat)), (bool_decide_eq_true_2 (stringLen string q = 0%nat)) in H by (rewrite ?GlobSpec.patternLen_drop, ?GlobSpec.stringLen_drop, ?Hd, ?Hq; done); done. }
    destruct (GlobSpec.ch_cons string q x _ Hq) as (Hchq & Hq1 & Hqs). destruct fuel as [|fuel]; cbn [match_loop] in H; rewrite (bool_decide_eq_false_2 (patternLen pattern p = 0%nat)), (bool_decide_eq_false_2 (stringLen string q = 0%nat)) in H by (rewrite ?GlobSpec.patternLen_drop, ?GlobSpec.stringLen_drop, ?Hd, ?Hq; done); cbn [orb] in H; [done|].
    rewrite Hch, Hchq in H. cbn [mbind option_bind] in H. rewrite (proj2 (Z.eqb_neq c ASTERISK)) in H by (by apply plain_inv). rewrite (one_char_plain pattern p c x _ Hd Hc) in H. cbn [mbind option_bind] in H. destruct (Z.eqb_spec c x) as [Ecx|]; [|done]. cbv zeta in H. rewrite <- Ecx. 
    case_bool_decide as Hend.
    + rewrite GlobSpec.stringLen_drop, Hq1 in Hend. apply nil_length_inv in Hend as ->. destruct lit as [|c' lit]; [by exists []|]. exfalso. apply Forall_cons in Hlit as [Hc' _]. cbn [app] in Hd1. destruct (GlobSpec.ch_cons pattern (p + 1) c' _ Hd1) as (Hch' & _ & _).
      assert (Hpl : patternLen pattern (p + 1) <> 0%nat) by (rewrite GlobSpec.patternLen_drop, Hd1; done). destruct (patternLen pattern (p + 1)) as [|k] eqn:Ek in H; [done|]. cbn [skip_trailing] in H. rewrite (bool_decide_eq_false_2 _ Hpl), Hch' in H. cbn [mbind option_bind] in H. rewrite (proj2 (Z.eqb_neq c' ASTERISK)) in H by (by apply plain_inv). cbn [mbind option_bind] in H.
      rewrite (bool_decide_eq_false_2 _ Hpl) in H. done.
    + destruct (IH fuel rest (p + 1)%nat (q + 1)%nat skip skip' Hd1 Hlit H) as (post & Hpost & Hnil). exists post. split; [|done]. rewrite Hq1 in Hpost. by rewrite Hpost.
Qed.

(** What [s] says of the characters before the index. *)
Definition seen (pre : bytes) (s : Z) : Prop :=
  (s = -1 /\ (LBRACE ∉ pre)) \/ (exists a t, pre = a ++ LBRACE :: t /\ (LBRACE ∉ a) /\ (RBRACE ∉ t) /\ s = Z.of_nat (length a)) \/
  (s = -2 /\ exists a t, pre = a ++ LBRACE :: RBRACE :: t /\ (LBRACE ∉ a)).

(** The slot is the one of a part [t] that every key that starts with the plain characters [lit] has as its tag, or the key [lit]
    when the pattern has nothing else. *)
Definition decided (pattern : bytes) (r : Z) : Prop := exists lit rest t, pattern = lit ++ rest /\ Forall (fun c => plain c = true) lit /\ hash_slot t = Some r /\
  ((rest = [] /\ tag_of lit = t) \/ forall post, tag_of (lit ++ post) = t).

Lemma tag_at a t post : LBRACE ∉ a -> RBRACE ∉ t -> t <> [] -> tag_of (a ++ LBRACE :: t ++ RBRACE :: post) = t.
Proof. intros Ha Ht Hne. unfold tag_of. rewrite cut_found, cut_found by done. by destruct t. Qed.

Lemma seen_tag pre s : seen pre s -> tag_of pre = pre.
Proof.
  unfold tag_of. intros [[_ H]|[(a & t & E & Ha & Ht & _)|(_ & a & t & E & Ha)]]; [by rewrite cut_none|rewrite E at 1; rewrite cut_found by done; by rewrite cut_none|rewrite E at 1; rewrite cut_found by done; cbn [cut]; by rewrite Z.eqb_refl].
Qed.

Lemma hash_slot_ok buf : bytes_ok buf -> hash_slot buf = Some (Z.land (xmodem 0 buf) 0x3FFF).
Proof. intros Hb. unfold hash_slot. by rewrite crc16_ok. Qed.

Lemma slot_range v : 0 <= Z.land v 0x3FFF < 16384.
Proof. change 0x3FFF with (Z.ones 14). rewrite Z.land_ones by lia. apply Z.mod_pos_bound. lia. Qed.

(** One more character that is not special. *)
Lemma seen_step pre s c : seen pre s -> ~ (s = -1 /\ c = LBRACE) -> ~ (0 <= s /\ c = RBRACE) -> seen (pre ++ [c]) s.
Proof.
  intros [[-> H]|[(a & t & -> & Ha & Ht & Hs)|(-> & a & t & -> & Ha)]] H1 H2.
  - left. split; [done|]. rewrite elem_of_app, list_elem_of_singleton. intros [?|?]; [done|]. by apply H1.
  - right; left. exists a, (t ++ [c]). rewrite <- app_assoc. split_and!; [done..| |done]. rewrite elem_of_app, list_elem_of_singleton. intros [?|?]; [done|]. apply H2. split; [lia|done].
  - right; right. split; [done|]. exists a, (t ++ [c]). by rewrite <- app_assoc.
Qed.

Lemma pattern_loop_ok pattern : bytes_ok pattern -> forall n i s, (i + n = length pattern)%nat -> Forall (fun c => plain c = true) (take i pattern) -> seen (take i pattern) s ->
  exists r, pattern_loop pattern n i s = Some r /\ (r = -1 \/ decided pattern r).
Proof.
  intros Hb. induction n as [|n IH]; intros i s Hi Hpl Hs; cbn [pattern_loop].
  { rewrite take_ge in Hpl, Hs by lia. rewrite hash_slot_ok by done. eexists. split; [done|]. right. exists pattern, [], pattern. rewrite app_nil_r. split_and!; [done|done|by apply hash_slot_ok|]. left. split; [done|by eapply seen_tag]. }
  destruct (lookup_lt_is_Some_2 pattern i) as [c Hc]; [lia|]. rewrite Hc. cbn [mbind option_bind]. pose proof (take_S_r pattern i c Hc) as Et. replace (Datatypes.S i) with (i + 1)%nat in Et by lia.
  destruct ((c =? ASTERISK) || (c =? QUESTION) || (c =? LBRACKET)) eqn:E1; [by exists (-1); auto|]. destruct (c =? BACKSLASH) eqn:E2; [by exists (-1); auto|].
  assert (Hcp : plain c = true) by (unfold plain; by rewrite E1, E2). assert (Hpl' : Forall (fun c => plain c = true) (take (i + 1) pattern)) by (rewrite Et; apply Forall_app; split; [done|by constructor]). assert (Hlen : length (take i pattern) = i) by (rewrite length_take; lia).
  destruct ((s =? -1) && (c =? LBRACE)) eqn:E3.
  { apply andb_true_iff in E3 as [->%Z.eqb_eq ->%Z.eqb_eq]. apply IH; [lia|done|]. rewrite Et. destruct Hs as [[_ Hn]|[(? & ? & _ & _ & _ & Hz)|[Hz _]]]; [|lia|done]. right; left. exists (take i pattern), []. split_and!; [done|done|apply not_elem_of_nil|lia]. }
  destruct ((0 <=? s) && (c =? RBRACE)) eqn:E4; cbn [andb].
  2: { apply IH; [lia|done|]. rewrite Et. apply seen_step; [done| |]; intros [Ha ->]; [rewrite Ha in E3; discriminate E3|]. rewrite (proj2 (Z.leb_le _ _) Ha) in E4. discriminate E4. }
  apply andb_true_iff in E4 as [H0%Z.leb_le ->%Z.eqb_eq]. destruct Hs as [[Hz _]|[(a & t & Ea & Ha & Ht & Hz)|[Hz _]]]; [lia| |lia]. rewrite Ea, length_app in Hlen. cbn [length] in Hlen. destruct (Z.eqb_spec (Z.of_nat i) (s + 1)) as [Ei|Ei].
  - apply IH; [lia|done|]. right; right. split; [done|]. exists a, []. rewrite Et, Ea. destruct t; [|cbn in Hlen; lia]. by rewrite <- app_assoc.
  - assert (Hpat : pattern = (a ++ LBRACE :: t ++ [RBRACE]) ++ drop (i + 1) pattern) by (rewrite <- (take_drop (i + 1) pattern) at 1; rewrite Et, Ea, <- !app_assoc; cbn [app]; by rewrite <- ?app_assoc). assert (Et' : take (i - Z.to_nat s - 1) (drop (Z.to_nat s + 1) pattern) = t).
    { rewrite Hz, Nat2Z.id, Hpat, <- !app_assoc. rewrite drop_app_ge by lia. replace (length a + 1 - length a)%nat with 1%nat by lia. cbn [app drop]. rewrite <- app_assoc. replace (i - length a - 1)%nat with (length t) by lia. apply take_app_length. }
    rewrite Et'. assert (Hbt : bytes_ok t) by (rewrite <- Et'; by apply Forall_take, Forall_drop). rewrite hash_slot_ok by done. eexists. split; [done|]. right. exists (a ++ LBRACE :: t ++ [RBRACE]), (drop (i + 1) pattern), t. split_and!; [done| |by apply hash_slot_ok|].
    + rewrite Et, Ea in Hpl'. by rewrite <- app_assoc in Hpl'.
    + right. intros post. rewrite <- app_assoc. cbn [app]. rewrite <- app_assoc. apply tag_at; [done|done|]. intros ->. cbn in Hlen. lia.
Qed.

Lemma impl_plain pattern string lit rest : pattern = lit ++ rest -> Forall (fun c => plain c = true) lit -> stringmatchlen pattern string false = Some true -> exists post, string = lit ++ post /\ (rest = [] -> post = []).
Proof.
  intros Hp Hlit H. unfold stringmatchlen, max_nesting in H. cbn [stringmatchlen_impl] in H. destruct (match_loop _ _ _ _ _ _ _ _) as [[b skip']|] eqn:E in H; [|done]. cbn in H. injection H as ->. apply (match_plain pattern string _ _ lit rest) in E; [by rewrite drop_0 in E|by rewrite drop_0|done].
Qed.

Lemma decided_sound pattern key r : decided pattern r -> stringmatchlen pattern key false = Some true -> keyHashSlot key = Some r.
Proof.
  intros (lit & rest & t & Hp & Hlit & Ht & Htag) Hm. destruct (impl_plain pattern key lit rest Hp Hlit Hm) as (post & -> & Hnil). rewrite keyHashSlot_ok. destruct Htag as [[Hr Htag]|Htag]; [rewrite (Hnil Hr), app_nil_r; by rewrite Htag|by rewrite Htag].
Qed.

Lemma tag_bytes key : bytes_ok key -> bytes_ok (tag_of key).
Proof.
  intros Hb. unfold tag_of. destruct (cut_cases LBRACE key) as [[_ ->]|(a & r & E & _ & ->)]; [done|]. destruct (cut_cases RBRACE r) as [[_ ->]|([|x t] & r' & E' & _ & ->)]; [done..|]. rewrite E, E' in Hb. apply Forall_app in Hb as [_ Hb]. apply Forall_cons in Hb as [_ Hb]. by apply Forall_app in Hb as [Hb _].
Qed.

(** C22. The slot of a key is the low 14 bits of the division of its tag by x^16 + x^12 + x^5 + 1, where the tag is between the first opening brace and the
    first closing one after it, or the key if there is nothing there; and when [patternHashSlot] gives a slot for a pattern, which it does
    or not within the pattern, every key that [stringmatchlen] matches with it has this slot. *)
Theorem slots_exact key pattern : bytes_ok key -> bytes_ok pattern ->
  keyHashSlot key = Some (Z.land (xmodem 0 (tag_of key)) 0x3FFF) /\
  exists r, patternHashSlot pattern = Some r /\ (r = -1 \/ 0 <= r < 16384 /\ (stringmatchlen pattern key false = Some true -> keyHashSlot key = Some r)).
Proof.
  intros Hk Hp. split; [rewrite keyHashSlot_ok; by apply hash_slot_ok, tag_bytes|]. destruct (pattern_loop_ok pattern Hp (length pattern) 0 (-1) eq_refl) as (r & Hr & Hd); [constructor|left; split; [done|apply not_elem_of_nil]|]. exists r. split; [exact Hr|]. destruct Hd as [->|Hd]; [by left|]. right. split; [|by apply decided_sound].
  destruct Hd as (lit & rest & t & _ & _ & Ht & _). unfold hash_slot in Ht. destruct (crc16 t) as [v|]; [|done]. cbn in Ht. injection Ht as <-. apply slot_range.
Qed.

Module Sample.

(** The key "a{bc}d" and the pattern "a{bc}?". *)
Lemma slots_exact_witness : keyHashSlot [97; 123; 98; 99; 125; 100] = Some (Z.land (xmodem 0 [98; 99]) 0x3FFF) /\ stringmatchlen [97; 123; 98; 99; 125; 63] [97; 123; 98; 99; 125; 100] false = Some true /\
  exists r, patternHashSlot [97; 123; 98; 99; 125; 63] = Some r /\ (r = -1 \/ 0 <= r < 16384 /\ keyHashSlot [97; 123; 98; 99; 125; 100] = Some r).
Proof.
  destruct (slots_exact [97; 123; 98; 99; 125; 100] [97; 123; 98; 99; 125; 63]) as [H1 (r & H2 & H3)]; [by repeat constructor..|]. split; [exact H1|]. split; [by vm_compute|]. exists r. split; [exact H2|]. destruct H3 as [?|[? H3]]; [by left|]. right. split; [done|]. apply H3. by vm_compute.
Defined.

(** The check value of the algorithm. *)
Example crc16_check_value : crc16 [49; 50; 51; 52; 53; 54; 55; 56; 57] = Some 0x31C3.
Proof. by vm_compute. Qed.

Example pattern_slots : patternHashSlot [123; 97; 125; 42] = keyHashSlot [123; 97; 125] /\ patternHashSlot [42; 123; 97; 125] = Some (-1).
Proof. by vm_compute. Qed.

End Sample.

End Slot.
